(* ===== verification/_CoqProject ===== *)
-Q . S2P
Prelude.v
Ordered.v
GateRegistry.v
BigNum.v
Quorum.v
PbftState.v
PbftEngine.v
PbftInv.v
PbftRefine.v
PbftHistory.v
PbftProps.v
Json.v
GovRules.v
GovTally.v
Governance.v
GovProps.v
SpendGuard.v
SpendInv.v
SpendProps.v
GuardedSend.v
Base64.v
AttestWire.v
AttestProps.v
AttestRoundTrip.v
BcMath.v
OracleBand.v
OracleAggregate.v
OracleCosign.v
OracleMedian.v
OracleProps.v
OracleHonest.v
OracleState.v
Admission.v
AdmissionProps.v
DexOffer.v
DexMatch.v
DexRow.v
DexProps.v
DexFill.v
DexTrade.v
DexStore.v
DexStoreProps.v
XState.v
XRounds.v
DexHonest.v
DexExamples.v
XInv.v
XSafety.v
XLive.v
XProps.v
OrState.v
OrMembers.v
OrRounds.v
OrInv.v
OrVotes.v
OrStores.v
OrSafety.v
OrKeep.v
OrLive.v
OrHonest.v
OrProps.v
AtState.v
AtCanon.v
AtRounds.v
AtInv.v
AtVotes.v
AtSafety.v
AtReplay.v
AtLive.v
AtCalm.v
AtProps.v
ProviderConfig.v
AtLadder.v
AtSeat.v
AtSched.v
AtSchedProps.v
Retract.v
RetractInv.v
RetractAccounts.v
RetractProps.v
