(* ===== verification/Prelude.v ===== *)
(** * xchain-hub: a verification library

    The hub is a Node.js service run by every validator of the federation. It
    agrees with its peers on prices, configuration, governance decisions and
    cross-chain matches, signs what it agrees on, and publishes it through
    wallets it must not overspend. This library models the parts that decide:
    quorums, rounds, votes, prices, matches, reservations and budgets. Paths are
    relative to [src/].

    ** Parts, and where they are modelled

    - Activation registry: [GateRegistry] ([src/consensus/gate_registry/core.js]).
      Every rule that changes at a block height reads it.
    - Decimals: [BigNum] is the interface of the bignumber library with its laws
      and an exact instance; [BcMath] is [src/bcmath.js] over it.
    - Quorums: [Quorum] ([src/lib/bft_quorum.js],
      [src/consensus/stake_weighted_quorum.js], the snapshot quorum). Every engine
      below tallies through it.
    - Configuration PBFT: [PbftState] (data), [PbftEngine] (one definition per
      method of [src/consensus/pbft.js] and [src/consensus/pbft/]), [PbftInv]
      (events, runs, an abstract protocol [micro] and its invariants),
      [PbftRefine] (the handlers refine it), [PbftHistory], [PbftProps].
    - Governance: [GovRules], [GovTally], [Governance] (the engine over its two
      tables), [GovProps] ([src/validators/governance.js] and [governance/]).
    - Spending: [SpendGuard], [SpendInv], [SpendProps] ([src/lib/spend_guard.js]
      and its parts), [GuardedSend] ([src/lib/guards/idempotent_broadcast.js]).
    - Attestation wire: [Base64], [AttestWire], [AttestProps],
      [AttestRoundTrip] ([src/lib/attest_batch_wire.js] and its parts).
    - Attestation rounds: [AtState] (data), [AtCanon] (signed bytes, stamps, caps,
      the byte-equality tally, the evidence tests), [AtRounds] (one definition per
      method of [src/attestation/consensus.js] and its parts under
      [src/attestation/consensus/]), [AtInv] (the invariant), [AtVotes] (votes, and
      the tally as a majority), [AtSafety] (the invariant's preservation),
      [AtReplay] (nested replays end), [AtLive], [AtCalm] (what keeps a hub up),
      [AtProps].
    - Provider configuration: [ProviderConfig]
      ([src/validators/provider_registry.js] and its parts, and the governance
      listener of [src/XChainHub.js]): what a provider requires at a block.
    - Attestation scheduling: [AtLadder] (the schedules that move with the chain,
      [src/attestation/escalation.js] and the widening gate, over quotients of
      doubles), [AtSeat] (the responsible set, and the publisher's copy of it),
      [AtSched] ([src/attestation/round.js] and its parts: the poll, admission,
      leaders and paid fetches, run together with the engine of [AtRounds]),
      [AtSchedProps].
    - Oracle: [OracleBand], [OracleAggregate], [OracleCosign] (definitions),
      [OracleMedian], [OracleProps], [OracleHonest], [OracleState]
      ([src/oracle/consensus/], the submission door of [src/oracle/round/]).
    - Oracle rounds: [OrState] (data), [OrMembers] (members, leaders, signed
      bytes, tallies), [OrRounds] (one definition per method of
      [src/oracle/consensus.js] and its parts under [src/oracle/consensus/]),
      [OrInv] (the invariant), [OrVotes], [OrStores], [OrSafety] (its
      preservation), [OrKeep] (a decided round is never lost), [OrLive],
      [OrHonest] (composition with the co-sign gate), [OrProps].
    - Admission by height: [Admission], [AdmissionProps]
      ([src/lib/admission_height.js], the two gates of [src/consensus/gates/]).
    - Cross-chain DEX: [DexOffer], [DexMatch], [DexRow], [DexStore] (definitions;
      [src/cross_chain/dex_engine.js], [src/cross_chain/dex/]), [DexProps],
      [DexFill], [DexTrade], [DexHonest], [DexStoreProps], [DexExamples].
    - Signed retractions: [Retract] ([src/consensus/retraction.js] and its parts
      under [src/consensus/retraction/]), [RetractInv] (what its signatures rest
      on), [RetractAccounts] (what becomes of a submission), [RetractProps].
    - Cross-chain rounds: [XState] (data, and the class [Engine] that states what
      the rounds ask of the engine behind them), [XRounds] (one definition per
      method of [src/cross_chain/dex_consensus.js] and [src/cross_chain/pbft/]),
      [XInv], [XSafety] (the invariant and its preservation), [XLive],
      [XProps] (with DEX matches and bridge transfers as instances).
    [Prelude] holds JavaScript strings and numbers, the list lemmas, tactics and
    hint databases; [Ordered] a [Map] or [Set] with its insertion order, for all
    kinds of rounds; [Json] the JSON codec both governance and the wires use.

    ** How code is represented

    A handler is a function from the state before a synchronous stretch of code
    to the state after it. An asynchronous function is cut at its awaits: what it
    holds across an await is a value of the state (a suspended handler, a pending
    write), and resuming it is an event that carries the answer the await
    returned, so every interleaving of handlers is a list of events. Objects that
    several holders share (a proposal held by a map, a timer and a continuation)
    live in a heap under an allocation number. Database reads are the answers of
    events; database writes are effects, or rows of the state where the code reads
    them back. Thrown errors are values of [result] or [option]. Logging is left
    out. Where handlers call each other through replayed messages ([AtRounds]), a
    handler returns the calls it ends in and they run depth first; a throw drops
    the calls that wait, up to the asynchronous call that catches it, and one that
    nothing catches is an outcome of its own: the process exits.

    Integers are [Z]: the code's numbers are exact below [2^53] and every theorem
    that needs the bound says so. Text numerals with an exponent, hexadecimal
    prefix or non-finite value are outside the numeral readers unless a
    definition treats them. A double is the exact value of its numeral except at the
    two ends of the deviation band's range, and in [AtLadder], where quotients are
    rounded to the nearest double. Costs are integers.

    SHA-256, Ed25519, DEFLATE and the bignumber library are not part of the
    repository: they are arguments or classes. [BigNumberLaws] promises exact
    results only below the library's 64 digits; [Zlib] promises that inflating
    undoes deflating within the length cap.

    ** Bounds and fuel

    - The overlay read of a gate follows at most 64 references ([walk_writable]);
      a longer chain is a cycle, which the code refuses too.
    - The attestation encoder's search over chunk counts has fuel one more than
      the payload's length: every chunk carries at least one byte
      ([encoder_terminates] proves that the fuel is never used up).
    - The JSON parser has the text's length as fuel; every step eats a character.
    - The paging of an order book stops after [MAX_PAGES] = 40 pages, in the code.
    - DEX amounts are below [10^22] base units on grids of at most 18 decimals
      where a theorem needs the arithmetic to be exact.
    - The rebuild of the reservation ledger assumes at most [2^63] rows.
    - The calls nested in one delivery of an attestation message end within
      [replay_bound] steps, computed from the messages held ([settle_ends]).
    - The eviction loop of the oracle's early buffer runs once per buffered round
      more than the cap, for a cap of at least one.

    ** What the theorems show

    - Agreement: two stake-weighted quorums share more than a third of the stake,
      malformed snapshots never pass, every round a hub holds was screened (sender,
      sequence, digest, leader, snapshot) and every vote of it counted for that
      sequence and digest, a configuration is persisted once per round opened and
      behind a commit quorum, a proposer eventually leads.
      [follower_can_prepare_twice] shows the race that breaks the one-vote-per-slot
      rule, [raced_preprepare_applies_twice] the one by which a sequence is opened and
      applied twice, [count_quorum_overlap_deficit] the membership sizes at which the
      count quorum is too small.
    - Governance: decided proposals are ratified by two thirds of a locked
      electorate, votes are signed and only move forward, results are announced
      once.
    - Money out: authorised spends keep to both ceilings in every window across
      restarts and failing disks; a key that was sent is not sent again until its
      publisher deletes it or clears the set.
    - Oracle: the aggregate is the exact clamped median whatever the arrival
      order, stays within what a majority reported, and an honest proposal is
      signed by an honest follower. The peers' entries of a round's map are capped,
      one per key and canonical; the hub's own enters past that door. A published
      round was decided by a quorum whose signatures verify over its bytes; a decided
      round is published whatever its store attempts meet; the COMMITs of a quorum
      decide it in any order. Both safety theorems ask that no step of the run
      replaces an open round; [unbacked_round_published] is a run that does, and ends
      with a round one hub signed.
    - Attestation: a published response carries exactly the required signatures of
      responsible members, valid over the fields published; below the admission era
      the PREPAREs of a quorum publish it in any order; the byte-equality tally is a
      majority vote; every delivery ends. Two kinds of message end the process:
      [oversized_stamp_uncaught], and a text that [String] cannot print
      ([unprintable_text_uncaught]); [ordinary_run_survives] shows that without them,
      at readable clock times and with tips that can be spelled, nothing does.
    - Scheduling: what is published was asked on chain and confirmed, and its signers
      are the responsible set that the snapshot the run was answered determines; that
      set is characterised exactly and only ever grows; a provider is paid once per
      retry window; from the activation of the silence skip on, a silent leader is
      passed. What a provider requires at a block does not depend on the order
      governance changes were applied in, but for two changes of one block, where
      [restarted_hub_disagrees].
    - Retractions: a deletion the mirrors see signed carries the quorum of its
      block's set, and an honest hub's own indexer has pushed it; a submitted
      retraction is accounted for while no other generation of its bounds is under
      way, and [later_generation_lost] is a run with one. [adopted_round_streams_again]
      and [outsider_signs_alone] end where the comments say none can.
    - Wires: encoding round trips, canonical decoding, termination.
    - DEX: the price test is the exact comparison, a pass is maximal, an honest match
      passes both checks of a follower. Matches are credited when they finalize, so
      no offer is overfilled as long as no offer of an open round is matched anew
      ([DexTrade]); the in-flight guard is per match id and does not ensure that
      ([successive_snapshots_overfill]). The reservation ledger equals the one a
      restart rebuilds whenever nothing is in flight, for one retraction at a time:
      two that overlap release twice ([overlapping_retractions_release_twice]).
    - Rounds: on every engine but the bridge's, whose rows alone are restamped, a
      finalized row carries a quorum of signatures over its own bytes and an honest
      leader's row finalizes at a follower; the buffers are bounded.
      [policy_row_changed_under_its_signatures] is the bridge's run;
      [committed_value_replaced], [finalizing_view_unsigned],
      [follower_signs_two_rows] and [observer_counts_itself] are runs that end
      where the code's comments say a round cannot.

    ** Assumed about the environment

    A handler runs to its next await without interruption; a finished INSERT is
    seen by later SELECTs and one that failed changed nothing; the file system
    either performs a rename or leaves the old file.

    ** Not modelled

    The HTTP and RPC surface, the P2P transport, the database layer, the wallets
    and publishers that build transactions, the price fetchers and LLM providers,
    anchoring and checkpoints, the operator tools under [bin/], and observability:
    they are I/O around the decisions modelled here. The manifest lists each with
    its files. Within the modelled parts: the listings and start/stop of
    governance, the tip-anchored federation test, read-only statistics of the
    spend guard and of the attestation rounds, the loading of provider modules, and
    the mirror stream of finalized rows. Every listener reads its texts with
    [String]; only the attestation rounds are modelled on texts it cannot print
    ([String_throws]), the others on printable ones.

    ** Plan for what is left

    The call and bridge engines that share the cross-chain rounds, the oracle's
    batches and round scheduler, capability snapshots and peer catch-up. *)

From Stdlib Require Export Ascii ZArith Lia.
From stdpp Require Export base option numbers strings gmap fin_maps sorting list list_numbers.

#[global] Open Scope Z_scope.

#[export] Set Default Goal Selector "!".
#[export] Set Warnings "-clear-no-such-hyp,-level-tolerance,-register-all".

(** ** Tactics *)

(** Case analysis on every [match]/[if] scrutinee of the hypothesis [H],
    discarding the contradictory branches. *)
Ltac case_in H :=
  repeat (match type of H with
          | context [match ?x with _ => _ end] =>
              let E := fresh "E" in destruct x eqn:E
          end; simplify_eq/=; try discriminate).

(** The same on the goal. *)
Ltac case_goal :=
  repeat (match goal with
          | |- context [match ?x with _ => _ end] =>
              let E := fresh "E" in destruct x eqn:E
          end; simplify_eq/=; try discriminate).

(** Split on the outermost boolean guard of the goal. *)
Ltac on_if :=
  match goal with
  | |- context [if ?b then _ else _] => let E := fresh "Hb" in destruct b eqn:E
  end.

(** Turn boolean comparisons and connectives in the context into
    propositions. *)
Ltac bools :=
  repeat match goal with
  | H : (_ && _) = true |- _ => apply andb_true_iff in H; destruct H
  | H : (_ || _) = false |- _ => apply orb_false_iff in H; destruct H
  | H : negb _ = true |- _ => apply negb_true_iff in H
  | H : negb _ = false |- _ => apply negb_false_iff in H
  | H : (_ <? _)%Z = true |- _ => apply Z.ltb_lt in H
  | H : (_ <? _)%Z = false |- _ => apply Z.ltb_ge in H
  | H : (_ <=? _)%Z = true |- _ => apply Z.leb_le in H
  | H : (_ <=? _)%Z = false |- _ => apply Z.leb_gt in H
  | H : (_ =? _)%Z = true |- _ => apply Z.eqb_eq in H
  | H : (_ =? _)%Z = false |- _ => apply Z.eqb_neq in H
  | H : bool_decide _ = true |- _ => apply bool_decide_eq_true in H
  | H : bool_decide _ = false |- _ => apply bool_decide_eq_false in H
  end.

(** ** JavaScript strings

    Keys, addresses, hex digests and decimal amounts are ASCII on every path
    the model follows, so a JavaScript string is a Rocq [string] and the
    UTF-16 code-unit order of [<] is the byte order of [String.leb]. *)

Definition is_upper (c : ascii) : bool :=
  let n := Ascii.N_of_ascii c in (65 <=? n)%N && (n <=? 90)%N.

Definition lower_ascii (c : ascii) : ascii :=
  if is_upper c then Ascii.ascii_of_N (Ascii.N_of_ascii c + 32) else c.

(** [String.prototype.toLowerCase]. *)
Fixpoint toLowerCase (s : string) : string :=
  match s with
  | EmptyString => EmptyString
  | String c r => String (lower_ascii c) (toLowerCase r)
  end.

Definition is_digit (c : ascii) : bool :=
  let n := Ascii.N_of_ascii c in (48 <=? n)%N && (n <=? 57)%N.

(** The ASCII part of the whitespace [String.prototype.trim] strips. *)
Definition is_space (c : ascii) : bool :=
  let n := Ascii.N_of_ascii c in ((9 <=? n)%N && (n <=? 13)%N) || (n =? 32)%N.

Fixpoint trimStart (s : string) : string :=
  match s with
  | String c r => if is_space c then trimStart r else s
  | EmptyString => EmptyString
  end.

Fixpoint trimEnd (s : string) : string :=
  match s with
  | EmptyString => EmptyString
  | String c r =>
      match trimEnd r with
      | EmptyString => if is_space c then EmptyString else String c EmptyString
      | r' => String c r'
      end
  end.

Definition trim (s : string) : string := trimEnd (trimStart s).

(** Every character of [s] satisfies [p]: the regular expressions of the
    source of the form [/^[class]*$/]. *)
Fixpoint all_chars (p : ascii → bool) (s : string) : bool :=
  match s with
  | EmptyString => true
  | String c r => p c && all_chars p r
  end.

(** [String(v)] of a field that may be [undefined]. *)
Definition js_String (v : option string) : string := default "undefined"%string v.

(** [a < b] on strings. *)
Definition str_lt (a b : string) : bool := String.ltb a b.

(** [Array.prototype.sort] with the default comparison. *)
Definition sort_strings (l : list string) : list string := merge_sort String.le l.

Lemma lower_ascii_idemp c : lower_ascii (lower_ascii c) = lower_ascii c.
Proof. destruct c as [[] [] [] [] [] [] [] []]; reflexivity. Qed.

Lemma toLowerCase_idemp s : toLowerCase (toLowerCase s) = toLowerCase s.
Proof. induction s as [|c s IH]; simpl; [done|]. by rewrite lower_ascii_idemp, IH. Qed.

Lemma trimStart_head c r : is_space c = false → trimStart (String c r) = String c r.
Proof. simpl. by intros ->. Qed.

Lemma trimStart_idemp s : trimStart (trimStart s) = trimStart s.
Proof.
  induction s as [|c s IH]; [done|]. simpl. destruct (is_space c) eqn:E; [done|].
  by apply trimStart_head.
Qed.

Lemma trimEnd_idemp s : trimEnd (trimEnd s) = trimEnd s.
Proof.
  induction s as [|c s IH]; [done|]. simpl.
  destruct (trimEnd s) as [|c' s'] eqn:E.
  - destruct (is_space c) eqn:Ec; [done|]. simpl. by rewrite Ec.
  - change (match trimEnd (String c' s') with
            | EmptyString => if is_space c then EmptyString else String c EmptyString
            | r' => String c r' end = String c (String c' s')).
    by rewrite IH.
Qed.

Lemma trimStart_trimEnd s : trimStart s = s → trimStart (trimEnd s) = trimEnd s.
Proof.
  destruct s as [|c s]; [done|]. intros Hs.
  assert (is_space c = false) as Hc.
  { simpl in Hs. destruct (is_space c) eqn:E; [|done]. exfalso.
    assert (String.length (trimStart s) ≤ String.length s)%nat as Hl.
    { clear. induction s as [|c s IH]; simpl; [done|]. destruct (is_space c); simpl; lia. }
    rewrite Hs in Hl. simpl in Hl. lia. }
  simpl. destruct (trimEnd s).
  - by rewrite Hc; simpl; rewrite Hc.
  - simpl. by rewrite Hc.
Qed.

Lemma trim_idemp s : trim (trim s) = trim s.
Proof.
  unfold trim. rewrite (trimStart_trimEnd (trimStart s)) by apply trimStart_idemp.
  apply trimEnd_idemp.
Qed.

Lemma string_leb_le a b : String.leb a b = true ↔ String.le a b.
Proof. unfold String.le. by destruct (String.leb a b). Qed.

Lemma string_leb_trans a b c : String.leb a b = true → String.leb b c = true → String.leb a c = true.
Proof. rewrite !string_leb_le. apply transitivity. Qed.

Lemma string_leb_total a b : String.leb a b = true ∨ String.leb b a = true.
Proof. rewrite !string_leb_le. apply (total String.le). Qed.

Lemma string_leb_antisym a b : String.leb a b = true → String.leb b a = true → a = b.
Proof. rewrite !string_leb_le. apply (anti_symm String.le). Qed.

Lemma sort_strings_perm l1 l2 : l1 ≡ₚ l2 → sort_strings l1 = sort_strings l2.
Proof.
  intros Hp. unfold sort_strings.
  apply (StronglySorted_unique String.le).
  - apply (StronglySorted_merge_sort _ _).
  - apply (StronglySorted_merge_sort _ _).
  - by rewrite !merge_sort_Permutation.
Qed.

Lemma length_sort_strings l : length (sort_strings l) = length l.
Proof. unfold sort_strings. by rewrite merge_sort_Permutation. Qed.

Lemma elem_of_sort_strings x l : x ∈ sort_strings l ↔ x ∈ l.
Proof. unfold sort_strings. by rewrite merge_sort_Permutation. Qed.

Lemma NoDup_sort_strings l : NoDup l → NoDup (sort_strings l).
Proof. unfold sort_strings. by rewrite merge_sort_Permutation. Qed.

(** ** Concatenation of strings *)

Lemma app_str_assoc (a b c : string) : (a +:+ b) +:+ c = a +:+ (b +:+ c).
Proof. induction a as [|x a IH]; [done|]. exact (f_equal (String x) IH). Qed.

Lemma app_str_inj_l (a r1 r2 : string) : a +:+ r1 = a +:+ r2 → r1 = r2.
Proof. induction a as [|x a IH]; [done|]. intros H. apply IH. by injection H. Qed.

Lemma app_str_length (a b : string) : String.length (a +:+ b) = (String.length a + String.length b)%nat.
Proof. induction a as [|x a IH]; [done|]. exact (f_equal S IH). Qed.

Lemma app_str_inj_r (a b r : string) : a +:+ r = b +:+ r → a = b.
Proof.
  revert b. induction a as [|x a IH]; intros [|y b] H; [done|..].
  - apply (f_equal String.length) in H. rewrite !app_str_length in H. simpl in H. lia.
  - apply (f_equal String.length) in H. rewrite !app_str_length in H. simpl in H. lia.
  - simpl in H. injection H as -> H. f_equal. auto.
Qed.

(** The first [n] characters, and the rest. *)
Fixpoint str_take (n : nat) (s : string) : string :=
  match n, s with
  | S n, String c r => String c (str_take n r)
  | _, _ => EmptyString
  end.

Fixpoint str_drop (n : nat) (s : string) : string :=
  match n, s with
  | S n, String _ r => str_drop n r
  | _, _ => s
  end.

Lemma str_take_drop n s : str_take n s +:+ str_drop n s = s.
Proof. revert s. induction n as [|n IH]; intros [|c s]; [done..|]. exact (f_equal (String c) (IH s)). Qed.

Lemma str_drop_drop n m s : str_drop n (str_drop m s) = str_drop (m + n) s.
Proof. revert s. induction m as [|m IH]; intros [|c s]; simpl; [done..|by destruct n|apply IH]. Qed.

Lemma str_take_add n m s : str_take (n + m) s = str_take n s +:+ str_take m (str_drop n s).
Proof.
  revert s. induction n as [|n IH]; intros [|c s]; [by destruct m|done|by destruct m|].
  exact (f_equal (String c) (IH s)).
Qed.

Lemma str_take_all n s : (String.length s ≤ n)%nat → str_take n s = s.
Proof. revert s. induction n as [|n IH]; intros [|c s] H; simpl in *; [done|lia|done|]. f_equal. apply IH. lia. Qed.

Lemma length_str_take n s : String.length (str_take n s) = Nat.min n (String.length s).
Proof. revert s. induction n as [|n IH]; intros [|c s]; simpl; [done..|]. by rewrite IH. Qed.

Lemma length_str_drop n s : String.length (str_drop n s) = (String.length s - n)%nat.
Proof. revert s. induction n as [|n IH]; intros [|c s]; simpl; [done..|]. by rewrite IH. Qed.

Lemma str_drop_all s : str_drop (String.length s) s = EmptyString.
Proof. induction s as [|c s IH]; [done|exact IH]. Qed.

Lemma str_drop_app n a b : (n ≤ String.length a)%nat → str_drop n (a +:+ b) = str_drop n a +:+ b.
Proof. revert a. induction n as [|n IH]; intros [|c a] H; simpl in *; [done..|lia|]. apply IH. lia. Qed.

Lemma str_take_app n a b : (n ≤ String.length a)%nat → str_take n (a +:+ b) = str_take n a.
Proof. revert a. induction n as [|n IH]; intros [|c a] H; simpl in *; [by destruct b|done|lia|]. f_equal. apply IH. lia. Qed.

Lemma all_chars_app p a b : all_chars p (a +:+ b) = all_chars p a && all_chars p b.
Proof.
  induction a as [|c a IH]; [done|].
  change (p c && all_chars p (a +:+ b) = p c && all_chars p a && all_chars p b). by rewrite IH, andb_assoc.
Qed.

Lemma all_chars_take p n s : all_chars p s = true → all_chars p (str_take n s) = true.
Proof. intros H. rewrite <-(str_take_drop n s), all_chars_app in H. by apply andb_true_iff in H as [? _]. Qed.

Lemma all_chars_drop p n s : all_chars p s = true → all_chars p (str_drop n s) = true.
Proof. intros H. rewrite <-(str_take_drop n s), all_chars_app in H. by apply andb_true_iff in H as [_ ?]. Qed.

Lemma app_str_nil_r (a : string) : a +:+ EmptyString = a.
Proof. induction a as [|c a IH]; [done|]. exact (f_equal (String c) IH). Qed.

(** [s.startsWith(p)], giving the rest. *)
Fixpoint strip_prefix (p s : string) : option string :=
  match p, s with
  | EmptyString, _ => Some s
  | String a p, String b s => if Ascii.eqb a b then strip_prefix p s else None
  | _, EmptyString => None
  end.

(** [s.endsWith(p)], giving what comes before. *)
Definition strip_suffix (p s : string) : option string :=
  let m := String.substring 0 (String.length s - String.length p) s in
  if String.eqb s (m +:+ p) then Some m else None.

(** ** Stable sorting by a boolean comparison

    [Array.prototype.sort] with a comparator, which the language specifies to be
    stable. *)

Section Isort.
Context {A : Type} (le : A → A → bool).

Fixpoint insort (x : A) (l : list A) : list A :=
  match l with
  | [] => [x]
  | y :: r => if le x y then x :: l else y :: insort x r
  end.

Definition isort (l : list A) : list A := foldr insort [] l.

Lemma insort_perm x l : insort x l ≡ₚ x :: l.
Proof.
  induction l as [|y l IH]; simpl; [done|]. destruct (le x y); [done|]. rewrite IH. apply Permutation_swap.
Qed.

Lemma isort_perm l : isort l ≡ₚ l.
Proof. induction l as [|x l IH]; simpl; [done|]. by rewrite insort_perm, IH. Qed.

Lemma length_isort l : length (isort l) = length l.
Proof. by rewrite isort_perm. Qed.

Context (le_trans : ∀ x y z, le x y = true → le y z = true → le x z = true).
Context (le_total : ∀ x y, le x y = true ∨ le y x = true).

Lemma isort_sorted l : StronglySorted (λ x y, le x y = true) (isort l).
Proof.
  induction l as [|x l IH]; simpl; [constructor|].
  revert IH. generalize (isort l). intros s. induction s as [|y s IHs]; intros Hs; simpl.
  - repeat constructor.
  - inversion Hs as [|? ? Hs' Hy]; subst. destruct (le x y) eqn:E.
    + constructor; [done|]. constructor; [done|]. eapply Forall_impl; [exact Hy|]. intros z Hz. eauto.
    + constructor; [auto|]. rewrite Forall_forall in *. intros z. rewrite insort_perm.
      intros [-> |Hz]%elem_of_cons; [|auto]. destruct (le_total x y); [congruence|done].
Qed.

(** The result depends on the elements only, when the order tells them apart. *)
Lemma isort_perm_eq l l' :
  l ≡ₚ l' → (∀ x y, x ∈ l → y ∈ l → le x y = true → le y x = true → x = y) → isort l = isort l'.
Proof.
  intros Hp Ha. eapply StronglySorted_unique_strong; [|apply isort_sorted|apply isort_sorted|].
  - intros x y. rewrite !isort_perm, <-Hp. apply Ha.
  - by rewrite !isort_perm.
Qed.

End Isort.

(** ** Sums of integer weights over lists *)

Definition sumZ {A} (f : A → Z) (l : list A) : Z := foldr (λ a s, (f a + s)%Z) 0%Z l.

Lemma sumZ_nil {A} (f : A → Z) : sumZ f [] = 0%Z.
Proof. done. Qed.

Lemma sumZ_cons {A} (f : A → Z) a l : sumZ f (a :: l) = (f a + sumZ f l)%Z.
Proof. done. Qed.

Lemma sumZ_app {A} (f : A → Z) l1 l2 : sumZ f (l1 ++ l2) = (sumZ f l1 + sumZ f l2)%Z.
Proof. induction l1 as [|a l1 IH]; [done|]. rewrite <-app_comm_cons, !sumZ_cons, IH. lia. Qed.

Lemma sumZ_nonneg {A} (f : A → Z) l : (∀ a, a ∈ l → 0 ≤ f a)%Z → (0 ≤ sumZ f l)%Z.
Proof.
  induction l as [|a l IH]; intros H; [done|]. rewrite sumZ_cons.
  assert (0 ≤ f a)%Z by (apply H; set_solver).
  assert (0 ≤ sumZ f l)%Z by (apply IH; set_solver). lia.
Qed.

Lemma sumZ_perm {A} (f : A → Z) l1 l2 : l1 ≡ₚ l2 → sumZ f l1 = sumZ f l2.
Proof.
  induction 1 as [| |x y l|]; rewrite ?sumZ_cons; try lia; congruence.
Qed.

Lemma sumZ_ext {A} (f g : A → Z) l : (∀ a, a ∈ l → f a = g a) → sumZ f l = sumZ g l.
Proof.
  induction l as [|a l IH]; intros H; [done|]. rewrite !sumZ_cons.
  rewrite (H a) by set_solver. rewrite IH; [done|]. set_solver.
Qed.

Lemma sumZ_fmap {A B} (f : A → Z) (g : B → A) l : sumZ f (g <$> l) = sumZ (λ b, f (g b)) l.
Proof.
  induction l as [|b l IH]; [done|].
  change (f (g b) + sumZ f (g <$> l) = f (g b) + sumZ (λ b, f (g b)) l). by rewrite IH.
Qed.

Lemma sumZ_sub {A} (f : A → Z) (d l : list A) :
  (∀ a, a ∈ d → 0 ≤ f a)%Z → NoDup l → l ⊆ d → (sumZ f l ≤ sumZ f d)%Z.
Proof.
  revert d. induction l as [|a l IH]; intros d Hf Hl Hs; [by apply sumZ_nonneg|].
  apply NoDup_cons in Hl as [Ha Hl].
  assert (a ∈ d) as [d' Hd]%elem_of_Permutation by (apply Hs; set_solver).
  rewrite sumZ_cons, (sumZ_perm f d _ Hd), sumZ_cons.
  enough (sumZ f l ≤ sumZ f d') by lia. apply IH; [|done|].
  - intros x Hx. apply Hf. rewrite Hd. by right.
  - intros x Hx. assert (x ∈ a :: d') as [->|?]%elem_of_cons by (rewrite <-Hd; apply Hs; by right); done.
Qed.

Lemma sumZ_abs {A} (f : A → Z) l : (Z.abs (sumZ f l) ≤ sumZ (λ a, Z.abs (f a)) l)%Z.
Proof. induction l as [|a l IH]; [done|]. rewrite !sumZ_cons. lia. Qed.

Lemma NoDup_fmap_eq {A B} (f : A → B) (l : list A) x y :
  NoDup (f <$> l) → x ∈ l → y ∈ l → f x = f y → x = y.
Proof.
  intros Hnd [i Hi]%list_elem_of_lookup_1 [j Hj]%list_elem_of_lookup_1 E.
  assert (i = j) as <-; [|congruence].
  eapply NoDup_lookup; [done| |]; rewrite list_lookup_fmap; [by rewrite Hi|]. simpl. rewrite Hj. simpl. by rewrite E.
Qed.

Lemma list_filter_id {A} (P : A → Prop) `{!∀ x, Decision (P x)} (l : list A) :
  (∀ x, x ∈ l → P x) → filter P l = l.
Proof.
  induction l as [|x l IH]; intros HP; [done|].
  rewrite filter_cons_True by (apply HP; by left). f_equal. apply IH. intros y Hy. apply HP. by right.
Qed.

Lemma sublist_filter_ext {A} (P Q : A → Prop) `{!∀ x, Decision (P x), !∀ x, Decision (Q x)} (l : list A) :
  (∀ x, x ∈ l → P x ↔ Q x) → filter P l = filter Q l.
Proof.
  induction l as [|x l IH]; intros HPQ; [done|].
  assert (filter P l = filter Q l) as E by (apply IH; intros y Hy; apply HPQ; by right).
  destruct (decide (P x)) as [HP|HP].
  - assert (Q x) by (apply (HPQ x (list_elem_of_here _ _)); done).
    rewrite !filter_cons_True by done. by f_equal.
  - assert (¬ Q x) by (intros HQ; apply HP, (HPQ x (list_elem_of_here _ _)); done).
    by rewrite !filter_cons_False.
Qed.

(** Inclusion and exclusion: two sublists of a duplicate-free domain weigh at
    most the domain plus their intersection. *)
Lemma sumZ_inclusion_exclusion `{EqDecision A} (f : A → Z) (d l1 l2 : list A) :
  (∀ a, a ∈ d → 0 ≤ f a)%Z → NoDup d → NoDup l1 → NoDup l2 → l1 ⊆ d → l2 ⊆ d →
  (sumZ f l1 + sumZ f l2 ≤ sumZ f d + sumZ f (filter (λ a, a ∈ l2) l1))%Z.
Proof.
  revert l1 l2. induction d as [|a d IH]; intros l1 l2 Hf Hd H1 H2 S1 S2.
  - assert (l1 = []) as -> by (destruct l1; [done|]; set_solver).
    assert (l2 = []) as -> by (destruct l2; [done|]; set_solver). done.
  - apply NoDup_cons in Hd as [Ha Hd].
    assert (Hrem : ∀ l, NoDup l → l ⊆ a :: d →
      (a ∉ l ∧ l ⊆ d) ∨ ∃ l', l ≡ₚ a :: l' ∧ NoDup l' ∧ a ∉ l' ∧ l' ⊆ d).
    { intros l Hl Hs. destruct (decide (a ∈ l)) as [Hin|Hin]; [|left; set_solver].
      right. apply elem_of_Permutation in Hin as [l' Hp]. exists l'.
      rewrite Hp in Hl. apply NoDup_cons in Hl as [Hal Hl]. split_and!; try done.
      intros x Hx. assert (x ∈ a :: d) as Hxd by (apply Hs; rewrite Hp; set_solver). set_solver. }
    assert (0 ≤ f a)%Z by (apply Hf; set_solver). rewrite sumZ_cons.
    assert (Hf' : ∀ x, x ∈ d → (0 ≤ f x)%Z) by (intros; apply Hf; set_solver).
    destruct (Hrem l1 H1 S1) as [[N1 S1']|(l1' & P1 & D1 & N1 & S1')];
      destruct (Hrem l2 H2 S2) as [[N2 S2']|(l2' & P2 & D2 & N2 & S2')].
    + specialize (IH l1 l2 Hf' Hd H1 H2 S1' S2'). lia.
    + specialize (IH l1 l2' Hf' Hd H1 D2 S1' S2'). rewrite (sumZ_perm f l2 _ P2), sumZ_cons.
      assert (filter (λ a, a ∈ l2) l1 = filter (λ a, a ∈ l2') l1) as ->; [|lia].
      apply sublist_filter_ext. intros x Hx. rewrite P2. set_solver.
    + specialize (IH l1' l2 Hf' Hd D1 H2 S1' S2').
      rewrite (sumZ_perm f l1 _ P1), sumZ_cons.
      assert (sumZ f (filter (λ a, a ∈ l2) l1) = sumZ f (filter (λ a, a ∈ l2) (a :: l1'))) as -> by (apply sumZ_perm; by rewrite P1).
      rewrite filter_cons_False by done. lia.
    + specialize (IH l1' l2' Hf' Hd D1 D2 S1' S2').
      rewrite (sumZ_perm f l1 _ P1), (sumZ_perm f l2 _ P2), !sumZ_cons.
      assert (sumZ f (filter (λ a, a ∈ l2) l1) = sumZ f (filter (λ a, a ∈ l2) (a :: l1'))) as -> by (apply sumZ_perm; by rewrite P1).
      rewrite filter_cons_True by (rewrite P2; set_solver). rewrite sumZ_cons.
      assert (filter (λ a, a ∈ l2) l1' = filter (λ a, a ∈ l2') l1') as ->; [|lia].
      apply sublist_filter_ext. intros x Hx. rewrite P2. set_solver.
Qed.

(** ** Fallible code

    A [throw] is the [Err] of a sum; [Ok] carries the returned value. *)

Inductive result (E A : Type) : Type :=
| Ok (a : A)
| Err (e : E).
Arguments Ok {E A} a.
Arguments Err {E A} e.

Definition rbind {E A B} (m : result E A) (k : A → result E B) : result E B :=
  match m with Ok a => k a | Err e => Err e end.

Declare Scope hub_scope.
Delimit Scope hub_scope with hub.
Notation "'let!' x := m 'in' k" := (rbind m (λ x, k))
  (at level 10, x pattern, m at level 100, k at level 200) : hub_scope.
Notation "'check' b 'else' e 'in' k" := (if b then k else Err e)
  (at level 10, b at level 100, e at level 100, k at level 200) : hub_scope.
#[global] Open Scope hub_scope.

(** ** [parseInt]

    [parseInt(s, 10)] of a string: leading white space, an optional sign and
    the longest run of digits; [None] stands for NaN. *)

Definition digit_val (c : ascii) : Z := Z.of_N (Ascii.N_of_ascii c) - 48.

Fixpoint read_digits (acc : Z) (s : string) : Z :=
  match s with
  | String c r => if is_digit c then read_digits (10 * acc + digit_val c) r else acc
  | EmptyString => acc
  end.

Lemma read_digits_app a b acc : all_chars is_digit a = true → read_digits acc (a +:+ b) = read_digits (read_digits acc a) b.
Proof.
  revert acc. induction a as [|c a IH]; intros acc Ha; [done|]. simpl in Ha. bools.
  simpl. rewrite H. by apply IH.
Qed.

Definition starts_digit (s : string) : bool :=
  match s with String c _ => is_digit c | EmptyString => false end.

Definition parseInt (s : string) : option Z :=
  let s := trimStart s in
  match s with
  | String c r =>
      if Ascii.eqb c "-"%char then (if starts_digit r then Some (- read_digits 0 r) else None)
      else if Ascii.eqb c "+"%char then (if starts_digit r then Some (read_digits 0 r) else None)
      else if is_digit c then Some (read_digits 0 s) else None
  | EmptyString => None
  end.

(** ** Automation

    [hub] holds the side conditions the components meet everywhere: parts of
    strings keep their alphabet, case folding and trimming are idempotent, sums
    of non-negative weights are non-negative. [strs] normalises concatenations. *)

Create HintDb hub.
#[export] Hint Resolve all_chars_take all_chars_drop str_take_all toLowerCase_idemp trim_idemp sumZ_nonneg
  NoDup_sort_strings : hub.
Create Rewrite HintDb strs.
#[export] Hint Rewrite app_str_assoc app_str_nil_r app_str_length : strs.
