(* ===== verification/Ordered.v ===== *)
(** * Insertion-ordered maps and sets

    A JavaScript [Map] as the list of its entries in insertion order, and a [Set]
    as the list of its elements: what the round engines iterate over, evict from
    the front of and put on the wire. *)

From S2P Require Import Prelude.

Section Ordered.
Context {K V : Type} `{!EqDecision K}.
Implicit Types (k : K) (v : V) (m : list (K * V)) (s : list K).

(** ** Operations *)

Definition m_get k m : option V := snd <$> find (λ kv, bool_decide (kv.1 = k)) m.
Definition m_delete k m : list (K * V) := filter (λ kv, kv.1 ≠ k) m.
Fixpoint m_set k v m : list (K * V) :=
  match m with
  | [] => [(k, v)]
  | kv :: m => if decide (kv.1 = k) then (k, v) :: m else kv :: m_set k v m
  end.

(** [Set.add] *)
Definition s_add k s : list K := if bool_decide (k ∈ s) then s else s ++ [k].

(** ** Maps *)

Lemma m_set_keys k v m : (m_set k v m).*1 = if bool_decide (k ∈ m.*1) then m.*1 else m.*1 ++ [k].
Proof.
  induction m as [|[k' v'] m IH]; [done|]. cbn [m_set fst]. destruct (decide (k' = k)) as [->|Hne].
  - rewrite bool_decide_true by (apply list_elem_of_here). done.
  - rewrite !fmap_cons, IH. cbn [fst]. destruct (decide (k ∈ m.*1)).
    + rewrite !bool_decide_true by (set_solver || done). done.
    + rewrite !bool_decide_false by (set_solver || done). done.
Qed.

Lemma NoDup_m_set k v m : NoDup m.*1 → NoDup (m_set k v m).*1.
Proof.
  intros Hnd. rewrite m_set_keys. case_bool_decide; [done|]. apply NoDup_app. split_and!; [done|set_solver|apply NoDup_singleton].
Qed.

Lemma elem_of_m_set k v m k' : k' ∈ (m_set k v m).*1 ↔ k' = k ∨ k' ∈ m.*1.
Proof. rewrite m_set_keys. case_bool_decide; set_solver. Qed.

Lemma elem_of_m_set_pair k v m kv : kv ∈ m_set k v m → kv = (k, v) ∨ kv ∈ m.
Proof.
  induction m as [|[k' v'] m IH]; cbn [m_set fst]; [set_solver|]. destruct (decide (k' = k)) as [->|]; [set_solver|].
  intros [->|?]%elem_of_cons; set_solver.
Qed.

Lemma m_set_same k v w m : m_set k v (m_set k w m) = m_set k v m.
Proof.
  induction m as [|[k' v'] m IH]; cbn [m_set fst]; [by rewrite decide_True|].
  destruct (decide (k' = k)); cbn [m_set fst]; [by rewrite decide_True|rewrite decide_False by done; by rewrite IH].
Qed.

Lemma m_set_new k v m : k ∉ m.*1 → m_set k v m = m ++ [(k, v)].
Proof.
  induction m as [|[k' v'] m IH]; [done|]. rewrite fmap_cons, not_elem_of_cons. intros [Hne Hno]. cbn [m_set fst app] in *.
  rewrite decide_False by done. by rewrite IH.
Qed.

Lemma m_set_length_old k v m : k ∈ m.*1 → length (m_set k v m) = length m.
Proof. intros Hk. rewrite <-(length_fmap fst), m_set_keys, bool_decide_true by done. apply length_fmap. Qed.

Lemma m_get_none k m : m_get k m = None ↔ k ∉ m.*1.
Proof.
  unfold m_get. induction m as [|[k' v'] m IH]; [set_solver|]. cbn [find fst]. case_bool_decide as Hk; [subst k'|].
  - cbn. set_solver.
  - rewrite IH. cbn. set_solver.
Qed.

Lemma m_get_in k m v : m_get k m = Some v → (k, v) ∈ m.
Proof.
  unfold m_get. induction m as [|[k' v'] m IH]; [done|]. cbn [find fst]. case_bool_decide as Hk; [subst k'|].
  - cbn. intros [= ->]. by left.
  - intros ?. right. by apply IH.
Qed.

Lemma m_delete_keys k m : (m_delete k m).*1 = filter (λ x, x ≠ k) m.*1.
Proof.
  unfold m_delete. induction m as [|[k' v] m IH]; [done|]. rewrite filter_cons, fmap_cons, filter_cons. cbn [fst].
  case_decide; [by rewrite fmap_cons, IH|done].
Qed.

(** ** Sets *)

Lemma elem_of_s_add k s x : x ∈ s_add k s ↔ x = k ∨ x ∈ s.
Proof. unfold s_add. case_bool_decide; set_solver. Qed.

Lemma NoDup_s_add k s : NoDup s → NoDup (s_add k s).
Proof. unfold s_add. case_bool_decide; [done|]. intros. apply NoDup_app. split_and!; [done|set_solver|apply NoDup_singleton]. Qed.
End Ordered.
