(* ===== verification/GateRegistry.v ===== *)
(** * The activation registry

    Model of [src/consensus/gate_registry/core.js]: the rows, the validation
    [addGate] applies at registration, the one read path through the overlay,
    and the generic predicate [activeAt]; and of the activation rows and
    predicates the quorum and PBFT components read
    ([stake_weighted_quorum.js], [equivocation_header.js], [federation.js]). *)

From S2P Require Import Prelude.

(** Plain JavaScript data, as far as the registry distinguishes it. A number
    is an integer or one of the non-finite values; [JOther] is anything that
    is no plain data (a class instance, a Map, a function). *)
Inductive jsdata :=
| JNull | JUndefined
| JBool (b : bool)
| JNum (z : Z)
| JNonFinite
| JStr (s : string)
| JRegExp (src : string)
| JArr (l : list jsdata)
| JObj (l : list (string * jsdata))
| JOther.

Module Gate.

(** ** Rows *)

Inductive unit_kind := UHeight | UTime | UEpoch | URuleset | UConstant.

Record row := Row { row_unit : unit_kind; row_value : jsdata }.

Inductive gate_error :=
| RegistryMiss (key : string)
| BadKey (key : string)
| DuplicateKey (key : string)
| BadUnit (key unit : string)
| BadTable (key : string)
| BadValue (key : string)
| UnsupportedUnit (key : string).

(** The registry: rows in insertion order and the optional read overlay. *)
Record registry := Registry {
  entries : list (string * row);
  overlay : option (string → jsdata → jsdata) }.

Definition empty_registry : registry := Registry [] None.

Definition UNARMED : Z := 9999999999.

Definition is_alnum (c : ascii) : bool :=
  is_digit c || is_upper c ||
  let n := Ascii.N_of_ascii c in ((97 <=? n) && (n <=? 122))%N.

Definition char_in (c : ascii) (s : string) : bool :=
  existsb (Ascii.eqb c) (String.list_ascii_of_string s).

Definition head_char (c : ascii) : bool := is_alnum c || char_in c "_/-".
Definition tail_char (c : ascii) : bool := is_alnum c || char_in c "_".

Fixpoint split_dots (s : string) : string * list string :=
  match s with
  | EmptyString => (EmptyString, [])
  | String c r =>
      let '(h, t) := split_dots r in
      if Ascii.eqb c "."%char then (EmptyString, h :: t) else (String c h, t)
  end.

Definition nonempty (s : string) : bool := negb (String.eqb s "").

(** [KEY_RE]: [/^[A-Za-z0-9_/-]+(\.[A-Za-z0-9_]+)+$/]. *)
Definition KEY_RE (s : string) : bool :=
  let '(h, t) := split_dots s in
  nonempty h && all_chars head_char h &&
  negb (bool_decide (t = [])) && forallb (λ p, nonempty p && all_chars tail_char p) t.

Definition checkKey (key : string) : result gate_error unit :=
  if KEY_RE key then Ok tt else Err (BadKey key).

(** [UNITS.includes(unit)]. *)
Definition read_unit (u : string) : option unit_kind :=
  if String.eqb u "height" then Some UHeight
  else if String.eqb u "time" then Some UTime
  else if String.eqb u "epoch" then Some UEpoch
  else if String.eqb u "ruleset" then Some URuleset
  else if String.eqb u "constant" then Some UConstant else None.

(** ** Validation at registration *)

Definition leaf_entry_ok (v : jsdata) : bool :=
  match v with JNull | JNum _ => true | _ => false end.

Definition leaf_ok (leaf : jsdata) : bool :=
  match leaf with JObj l => forallb (λ kv, leaf_entry_ok kv.2) l | _ => false end.

(** [checkTable]: a plain object of network keys, nested once for a ruleset. *)
Definition checkTable (unit : unit_kind) (table : jsdata) : bool :=
  match table with
  | JObj l => match unit with
              | URuleset => forallb (λ kv, leaf_ok kv.2) l
              | _ => leaf_ok table
              end
  | _ => false
  end.

Definition is_undefined (v : jsdata) : bool :=
  match v with JUndefined => true | _ => false end.

(** [checkValue]: only what the fingerprint can serialise by value. An
    [undefined] property is skipped; an [undefined] anywhere else is refused. *)
Fixpoint checkValue (v : jsdata) : bool :=
  match v with
  | JNull | JBool _ | JStr _ | JNum _ | JRegExp _ => true
  | JNonFinite | JUndefined | JOther => false
  | JArr l => forallb checkValue l
  | JObj l => forallb (λ kv, let '(_, w) := kv in is_undefined w || checkValue w) l
  end.

Definition lookup_row (key : string) (r : registry) : option row :=
  snd <$> find (λ kv, String.eqb kv.1 key) (entries r).

Definition addGate (key unit : string) (table : jsdata) (r : registry) : result gate_error registry :=
  let! _ := checkKey key in
  match lookup_row key r with
  | Some _ => Err (DuplicateKey key)
  | None =>
      match read_unit unit with
      | None => Err (BadUnit key unit)
      | Some u =>
          check match u with UConstant => true | _ => checkTable u table end else BadTable key in
          check checkValue table else BadValue key in
          Ok (Registry (entries r ++ [(key, Row u table)]) (overlay r))
      end
  end.

Definition setReadOverlay (f : string → jsdata → jsdata) (r : registry) : registry :=
  Registry (entries r) (Some f).

(** ** Reads *)

Definition read (key : string) (r : registry) : result gate_error jsdata :=
  match lookup_row key r with
  | None => Err (RegistryMiss key)
  | Some row => Ok (match overlay r with
                    | Some f => f key (row_value row)
                    | None => row_value row
                    end)
  end.

Definition unitOf (key : string) (r : registry) : result gate_error unit_kind :=
  match lookup_row key r with
  | None => Err (RegistryMiss key)
  | Some row => Ok (row_unit row)
  end.

(** Own-property lookup; a later duplicate of an object literal wins. *)
Definition own (key : string) (t : jsdata) : option jsdata :=
  match t with
  | JObj l => snd <$> find (λ kv, String.eqb kv.1 key) (rev l)
  | _ => None
  end.

Definition resolveThreshold (table : jsdata) (network : string) (coin : option string) : option jsdata :=
  match coin with
  | Some c =>
      match own (c +:+ ":" +:+ network) table with
      | Some v => Some v
      | None => own network table
      end
  | None => own network table
  end.

(** A clock argument: a number, a string or nothing at all. *)
Inductive clock := CNone | CNum (z : Z) | CStr (s : string).

Definition parse_clock (c : clock) : option Z :=
  match c with CNone => None | CNum z => Some z | CStr s => parseInt s end.

Definition reached (threshold : option jsdata) (c : clock) : bool :=
  match parse_clock c, threshold with
  | Some c, Some (JNum t) => t <=? c
  | _, _ => false
  end.

Definition activeAt (key : string) (network : option string) (coin : option string)
    (height time : clock) (r : registry) : result gate_error bool :=
  match lookup_row key r with
  | None => Err (RegistryMiss key)
  | Some row =>
      match row_unit row with
      | URuleset | UConstant => Err (UnsupportedUnit key)
      | u =>
          match network with
          | None => Ok false
          | Some n =>
              let! table := read key r in
              Ok (reached (resolveThreshold table n coin)
                    (match u with UTime => time | _ => height end))
          end
      end
  end.

(** ** Laws *)

Lemma find_app_l {A} (p : A → bool) l1 l2 x : find p l1 = Some x → find p (l1 ++ l2) = Some x.
Proof. induction l1 as [|a l1 IH]; simpl; [done|]. destruct (p a); auto. Qed.

Lemma find_app_r {A} (p : A → bool) l1 l2 : find p l1 = None → find p (l1 ++ l2) = find p l2.
Proof. induction l1 as [|a l1 IH]; simpl; [done|]. destruct (p a); [done|auto]. Qed.

Lemma addGate_inv key unit table r r' :
  addGate key unit table r = Ok r' →
  lookup_row key r = None ∧
  ∃ u, read_unit unit = Some u ∧ r' = Registry (entries r ++ [(key, Row u table)]) (overlay r).
Proof.
  unfold addGate, checkKey. intros H.
  destruct (KEY_RE key); simpl in H; [|done].
  destruct (lookup_row key r); [done|]. destruct (read_unit unit) as [u|]; [|done].
  destruct (match u with UConstant => true | _ => checkTable u table end); [|done].
  destruct (checkValue table); [|done]. simplify_eq. eauto.
Qed.

Lemma lookup_row_addGate key unit table r r' k :
  addGate key unit table r = Ok r' →
  ∃ u, read_unit unit = Some u ∧
    lookup_row k r' = if String.eqb key k then Some (Row u table) else lookup_row k r.
Proof.
  intros (Hn & u & Hu & ->)%addGate_inv. exists u. split; [done|].
  unfold lookup_row in *. simpl.
  destruct (String.eqb_spec key k) as [->|Hne].
  - rewrite find_app_r.
    + simpl. by rewrite String.eqb_refl.
    + by destruct (find _ (entries r)).
  - destruct (find (λ kv, String.eqb kv.1 k) (entries r)) as [kv|] eqn:E.
    + by rewrite (find_app_l _ _ _ _ E).
    + rewrite (find_app_r _ _ _ E). simpl. by apply String.eqb_neq in Hne as ->.
Qed.

Lemma reached_mono th c1 c2 z1 z2 :
  parse_clock c1 = Some z1 → parse_clock c2 = Some z2 → z1 ≤ z2 →
  reached th c1 = true → reached th c2 = true.
Proof.
  unfold reached. intros -> -> Hz. destruct th as [[]|]; try done.
  intros ?%Z.leb_le. apply Z.leb_le. lia.
Qed.

Lemma reached_threshold th c : reached th c = true ↔ ∃ t z, th = Some (JNum t) ∧ parse_clock c = Some z ∧ t ≤ z.
Proof.
  unfold reached. split.
  - destruct (parse_clock c) as [z|]; [|done]. destruct th as [[]|]; try done.
    intros ?%Z.leb_le. eauto 6.
  - intros (t & z & -> & -> & ?). by apply Z.leb_le.
Qed.

End Gate.

(** ** The activation rows the modelled engines read *)

Section Activations.

(** [stake_weighted_quorum.STAKE_WEIGHTED_QUORUM_ACTIVATION]. *)
Definition STAKE_WEIGHTED_QUORUM_ACTIVATION : jsdata :=
  JObj [("mainnet", JNum 961000); ("testnet", JNum 0); ("regtest", JNum 0)].

(** [equivocation_header.EQUIV_HEADER_ACTIVATION]. *)
Definition EQUIV_HEADER_ACTIVATION : jsdata :=
  JObj [("mainnet", JNum 961000); ("testnet", JNum 0); ("regtest", JNum 0)].

(** [consensus/federation.FEDERATED_HUB_ACTIVATION]. *)
Definition FEDERATED_HUB_ACTIVATION : jsdata :=
  JObj [("mainnet", JNum Gate.UNARMED); ("BTC:testnet", JNum 156230);
        ("LTC:testnet", JNum 4912984); ("DOGE:testnet", JNum 67989993);
        ("testnet", JNum 156230); ("regtest", JNum 0)].

(** [TABLE[network]]; [sb >= threshold] with a non-number threshold is false. *)
Definition table_active (table : jsdata) (snapshotBlock : option Z) (network : string) : bool :=
  match snapshotBlock, Gate.own network table with
  | Some sb, Some (JNum t) => t <=? sb
  | _, _ => false
  end.

Definition isStakeWeightedQuorumActive (snapshotBlock : option Z) (network : string) : bool :=
  table_active STAKE_WEIGHTED_QUORUM_ACTIVATION snapshotBlock network.

Definition isEquivHeaderActive (snapshotBlock : option Z) (network : string) : bool :=
  table_active EQUIV_HEADER_ACTIVATION snapshotBlock network.

Definition isFederatedHubActive (network : string) (height : option Z) : bool :=
  Gate.reached (Gate.resolveThreshold FEDERATED_HUB_ACTIVATION (toLowerCase network) None)
    (match height with Some h => Gate.CNum h | None => Gate.CNone end).

Definition isFederatedHubArmed (network : string) : bool :=
  isFederatedHubActive network (Some (Gate.UNARMED - 1)).

End Activations.

(** ** The equivocation header *)

Definition equivKey (engineTag roundId view : string) : string :=
  engineTag +:+ "|" +:+ roundId +:+ "|" +:+ view.

Definition equivPrefix (key : string) : string := "EQUIV|" +:+ key +:+ "||".

Definition buildEquivCanonical (engineTag roundId view content : string) : string :=
  equivPrefix (equivKey engineTag roundId view) +:+ content.

(** ** Properties *)

(** Registering a gate never changes what any other key reads, and the new
    key then answers [activeAt] exactly by its own threshold table. *)
Theorem addGate_activeAt key unit table r r' k network coin height time :
  Gate.addGate key unit table r = Ok r' →
  Gate.activeAt k network coin height time r' =
    if String.eqb key k
    then Gate.activeAt k network coin height time
           (Gate.Registry [(k, Gate.Row (default Gate.UConstant (Gate.read_unit unit)) table)] (Gate.overlay r))
    else Gate.activeAt k network coin height time r.
Proof.
  intros H. pose proof H as (u & Hu & Hl)%(Gate.lookup_row_addGate _ _ _ _ _ k).
  apply Gate.addGate_inv in H as (_ & u' & Hu' & Hr').
  rewrite Hu. unfold Gate.activeAt, Gate.read. rewrite Hl, Hr'.
  destruct (String.eqb_spec key k) as [->|Hne]; [|done].
  simpl. unfold Gate.lookup_row. simpl. by rewrite String.eqb_refl.
Qed.

Lemma addGate_activeAt_witness :
  Gate.activeAt "a.B" (Some "testnet") None (Gate.CNum 5) Gate.CNone
    (Gate.Registry [("a.B", Gate.Row Gate.UHeight (JObj [("testnet", JNum 5)]))] None) = Ok true.
Proof.
  rewrite (addGate_activeAt "a.B" "height" (JObj [("testnet", JNum 5)]) Gate.empty_registry); reflexivity.
Defined.

(** An activation is permanent in the height clock and fails closed: once a
    height or epoch gate is active it stays active at every later height, and
    it is never active on a network without a numeric threshold. *)
Theorem activeAt_monotone key network coin h1 h2 time r :
  Gate.overlay r = None →
  Gate.unitOf key r = Ok Gate.UHeight → h1 ≤ h2 →
  Gate.activeAt key (Some network) coin (Gate.CNum h1) time r = Ok true →
  Gate.activeAt key (Some network) coin (Gate.CNum h2) time r = Ok true ∧
  ∃ table t, Gate.read key r = Ok table ∧ t ≤ h1 ∧
    Gate.resolveThreshold table network coin = Some (JNum t).
Proof.
  intros Ho. unfold Gate.unitOf, Gate.activeAt, Gate.read. rewrite Ho.
  destruct (Gate.lookup_row key r) as [row|]; [|done].
  intros [= Hu] Hle. rewrite Hu. simpl. intros [= H]. split.
  - by rewrite (Gate.reached_mono _ (Gate.CNum h1) (Gate.CNum h2) h1 h2 eq_refl eq_refl Hle H).
  - apply Gate.reached_threshold in H as (t & z & Hth & [= <-] & Ht). eauto 6.
Qed.

Lemma activeAt_monotone_witness :
  Gate.activeAt "a.B" (Some "testnet") None (Gate.CNum 9) Gate.CNone
    (Gate.Registry [("a.B", Gate.Row Gate.UHeight (JObj [("testnet", JNum 5)]))] None) = Ok true.
Proof.
  refine (proj1 (activeAt_monotone "a.B" "testnet" None 5 9 Gate.CNone _ _ _ _ _)); [reflexivity..|lia|reflexivity].
Defined.
