(* ===== verification/BigNum.v ===== *)
(** * The bignumber library, as an interface

    The source computes every stake and price with mathjs bignumbers
    (decimal.js at 64 significant digits). The library is not part of the
    repository, so it is a class: [BigNumber] lists the operations the source
    calls, [BigNumberLaws] the documented behaviour the theorems rely on.
    Arithmetic is only promised to be exact when the exact result fits the
    precision, comparison is exact, and fixed notation rounds half away from
    zero. [ExactBigNumber] is an instance over the rationals, which shows the
    laws are consistent and lets witnesses compute. *)

From S2P Require Import Prelude.
From Stdlib Require Import QArith Qround Qabs Lqa Zwf.
Open Scope Z_scope.

(** ** Decimal literals *)

Module Decimal.

(** The longest digit prefix and what follows it. *)
Fixpoint span_digits (s : string) : string * string :=
  match s with
  | String c r =>
      if is_digit c then let '(a, b) := span_digits r in (String c a, b) else (EmptyString, s)
  | EmptyString => (EmptyString, EmptyString)
  end.

Definition strip_sign (s : string) : bool * string :=
  match s with
  | String c r =>
      if Ascii.eqb c "-"%char then (true, r)
      else if Ascii.eqb c "+"%char then (false, r) else (false, s)
  | EmptyString => (false, EmptyString)
  end.

(** [/^[+-]?(\d+\.?\d*|\.\d+)$/]. *)
Definition is_decimal (s : string) : bool :=
  let '(ip, rest) := span_digits (strip_sign s).2 in
  match rest with
  | EmptyString => negb (String.eqb ip "")
  | String c fp =>
      Ascii.eqb c "."%char && all_chars is_digit fp &&
      (negb (String.eqb ip "") || negb (String.eqb fp ""))
  end.

(** The mantissa and the number of decimals of a decimal literal. *)
Definition parts (s : string) : Z * nat :=
  let '(neg, body) := strip_sign s in
  let '(ip, rest) := span_digits body in
  let fp := match rest with String _ fp => (span_digits fp).1 | EmptyString => EmptyString end in
  let m := read_digits (read_digits 0 ip) fp in
  (if neg then - m else m, String.length fp).

(** The rational a decimal literal denotes. *)
Definition value (s : string) : Q :=
  let '(m, k) := parts s in (m # Z.to_pos (10 ^ Z.of_nat k))%Q.

End Decimal.

(** [parseFloat] of a decimal numeral. *)
Fixpoint count_digits (s : string) : nat :=
  match s with String c r => if is_digit c then S (count_digits r) else 0 | EmptyString => 0 end.

Fixpoint after_digits (s : string) : string :=
  match s with String c r => if is_digit c then after_digits r else s | EmptyString => EmptyString end.

Definition unsignedFloat (s : string) : option Q :=
  let frac := match after_digits s with String "."%char r => r | _ => EmptyString end in
  if starts_digit s || starts_digit frac
  then Some (Qmake (read_digits (read_digits 0 s) frac) (Z.to_pos (10 ^ Z.of_nat (count_digits frac))))
  else None.

Definition parseFloat (s : string) : option Q :=
  match trimStart s with
  | String "-"%char r => Qopp <$> unsignedFloat r
  | String "+"%char r => unsignedFloat r
  | r => unsignedFloat r
  end.

(** ** The grid of [10^-k] *)

Definition pow10 (k : nat) : positive := Z.to_pos (10 ^ Z.of_nat k).

Lemma pow10_pos k : Zpos (pow10 k) = 10 ^ Z.of_nat k.
Proof. unfold pow10. rewrite Z2Pos.id; [done|]. apply Z.pow_pos_nonneg; lia. Qed.

(** [q] is [z] steps of the grid [10^-k]. *)
Definition on_grid (k : nat) (q : Q) (z : Z) : Prop := (q == z # pow10 k)%Q.

(** [q] is representable in 64 significant digits. *)
Definition exact64 (q : Q) : Prop := ∃ k z, (k ≤ 60)%nat ∧ Z.abs z < 10 ^ 64 ∧ on_grid k q z.

(** Round half away from zero to [d] decimals, as a number of [10^-d] steps. *)
Definition round_steps (d : nat) (q : Q) : Z :=
  let n := (q * (Zpos (pow10 d) # 1))%Q in
  if Qle_bool 0 n then Qfloor (n + (1 # 2)) else - Qfloor (- n + (1 # 2)).

Definition floor_steps (d : nat) (q : Q) : Z := Qfloor (q * (Zpos (pow10 d) # 1)).

(** ** The interface *)

Class BigNumber := {
  bn : Type;
  (** [mathjs.bignumber] of a decimal literal *)
  bignumber : string → bn;
  (** [mathjs.add], [subtract], [multiply], [divide] *)
  bn_add : bn → bn → bn;
  bn_sub : bn → bn → bn;
  bn_mul : bn → bn → bn;
  bn_div : bn → bn → bn;
  (** [Decimal.comparedTo] *)
  bn_cmp : bn → bn → comparison;
  (** [mathjs.format(x, {notation: 'fixed', precision: d})] *)
  bn_format : nat → bn → string;
  (** [Decimal.floor] *)
  bn_floor : bn → bn;
  (** [Decimal.toFixed()]: every decimal, none of them trailing zeros *)
  bn_toFixed : bn → string;
}.

Class BigNumberLaws (B : BigNumber) := {
  bn_val : bn → Q;
  bignumber_val s : Decimal.is_decimal s = true → (bn_val (bignumber s) == Decimal.value s)%Q;
  bn_add_val a b : exact64 (bn_val a + bn_val b) → (bn_val (bn_add a b) == bn_val a + bn_val b)%Q;
  bn_sub_val a b : exact64 (bn_val a - bn_val b) → (bn_val (bn_sub a b) == bn_val a - bn_val b)%Q;
  bn_mul_val a b : exact64 (bn_val a * bn_val b) → (bn_val (bn_mul a b) == bn_val a * bn_val b)%Q;
  bn_div_val a b : ¬ (bn_val b == 0)%Q → exact64 (bn_val a / bn_val b) →
    (bn_val (bn_div a b) == bn_val a / bn_val b)%Q;
  (** correct to 64 significant digits *)
  bn_div_close a b : ¬ (bn_val b == 0)%Q →
    (Qabs (bn_val (bn_div a b) - bn_val a / bn_val b) <= Qabs (bn_val a / bn_val b) * (1 # pow10 63))%Q;
  (** one quotient, one result *)
  bn_div_proper a b c d : ¬ (bn_val b == 0)%Q → ¬ (bn_val d == 0)%Q → (bn_val a / bn_val b == bn_val c / bn_val d)%Q →
    (bn_val (bn_div a b) == bn_val (bn_div c d))%Q;
  bn_cmp_val a b : bn_cmp a b = (bn_val a ?= bn_val b)%Q;
  bn_format_decimal d a : Decimal.is_decimal (bn_format d a) = true;
  bn_format_val d a : on_grid d (Decimal.value (bn_format d a)) (round_steps d (bn_val a));
  bn_floor_val a : (bn_val (bn_floor a) == Qfloor (bn_val a) # 1)%Q;
  bn_toFixed_decimal a : Decimal.is_decimal (bn_toFixed a) = true;
  bn_toFixed_val a k z : on_grid k (bn_val a) z → (Decimal.value (bn_toFixed a) == bn_val a)%Q;
  bn_toFixed_proper a b : (bn_val a == bn_val b)%Q → bn_toFixed a = bn_toFixed b;
  (** correct to 64 significant digits *)
  bn_mul_close a b :
    (Qabs (bn_val (bn_mul a b) - bn_val a * bn_val b) <= Qabs (bn_val a * bn_val b) * (1 # pow10 63))%Q;
  bn_add_close a b :
    (Qabs (bn_val (bn_add a b) - (bn_val a + bn_val b)) <= Qabs (bn_val a + bn_val b) * (1 # pow10 63))%Q;
}.

Definition bn_gt `{BigNumber} (a b : bn) : bool := match bn_cmp a b with Gt => true | _ => false end.
Definition bn_lt `{BigNumber} (a b : bn) : bool := match bn_cmp a b with Lt => true | _ => false end.
Definition bn_lte `{BigNumber} (a b : bn) : bool := match bn_cmp a b with Gt => false | _ => true end.
Definition bn_gte `{BigNumber} (a b : bn) : bool := match bn_cmp a b with Lt => false | _ => true end.

(** ** Working on one grid *)

Lemma on_grid_plus k p q x y : on_grid k p x → on_grid k q y → on_grid k (p + q) (x + y).
Proof. unfold on_grid. intros -> ->. unfold Qeq, Qplus. simpl. lia. Qed.

Lemma on_grid_minus k p q x y : on_grid k p x → on_grid k q y → on_grid k (p - q) (x - y).
Proof. unfold on_grid. intros -> ->. unfold Qeq, Qminus, Qplus, Qopp. simpl. lia. Qed.

Lemma on_grid_mult k p q x n : on_grid k p x → on_grid 0 q n → on_grid k (p * q) (n * x).
Proof.
  unfold on_grid. change (pow10 0) with 1%positive. intros -> ->. unfold Qeq, Qmult. simpl. lia.
Qed.

Lemma on_grid_zero k : on_grid k 0 0.
Proof. unfold on_grid, Qeq. simpl. lia. Qed.

Lemma on_grid_cmp k p q x y : on_grid k p x → on_grid k q y → (p ?= q)%Q = (x ?= y).
Proof.
  unfold on_grid. intros -> ->. unfold Qcompare. simpl.
  rewrite (Z.mul_comm x), (Z.mul_comm y). apply Zcompare_mult_compat.
Qed.

Lemma on_grid_exact k q z : (k ≤ 60)%nat → Z.abs z < 10 ^ 64 → on_grid k q z → exact64 q.
Proof. intros. exists k, z. done. Qed.

Section Laws.
Context {B : BigNumber} {L : BigNumberLaws B}.

(** [a] is [z] steps of [10^-k]. *)
Definition steps (k : nat) (a : bn) (z : Z) : Prop := on_grid k (bn_val a) z.

Lemma steps_add k a b x y : (k ≤ 60)%nat → steps k a x → steps k b y →
  Z.abs (x + y) < 10 ^ 64 → steps k (bn_add a b) (x + y).
Proof.
  unfold steps. intros Hk Ha Hb Hb'. pose proof (on_grid_plus _ _ _ _ _ Ha Hb) as Hs.
  unfold on_grid in *. rewrite bn_add_val; [done|]. by eapply on_grid_exact.
Qed.

Lemma steps_sub k a b x y : (k ≤ 60)%nat → steps k a x → steps k b y →
  Z.abs (x - y) < 10 ^ 64 → steps k (bn_sub a b) (x - y).
Proof.
  unfold steps. intros Hk Ha Hb Hb'. pose proof (on_grid_minus _ _ _ _ _ Ha Hb) as Hs.
  unfold on_grid in *. rewrite bn_sub_val; [done|]. by eapply on_grid_exact.
Qed.

Lemma steps_mul_int k a b x n : (k ≤ 60)%nat → steps k a x → steps 0 b n →
  Z.abs (n * x) < 10 ^ 64 → steps k (bn_mul a b) (n * x).
Proof.
  unfold steps. intros Hk Ha Hb Hb'. pose proof (on_grid_mult _ _ _ _ _ Ha Hb) as Hs.
  unfold on_grid in *. rewrite bn_mul_val; [done|]. by eapply on_grid_exact.
Qed.

Lemma steps_gt k a b x y : steps k a x → steps k b y → bn_gt a b = (y <? x).
Proof.
  intros Ha Hb. unfold bn_gt. rewrite bn_cmp_val, (on_grid_cmp _ _ _ _ _ Ha Hb).
  unfold Z.ltb. rewrite (Z.compare_antisym x y). by destruct (x ?= y).
Qed.

Lemma steps_lt k a b x y : steps k a x → steps k b y → bn_lt a b = (x <? y).
Proof.
  intros Ha Hb. unfold bn_lt. rewrite bn_cmp_val, (on_grid_cmp _ _ _ _ _ Ha Hb).
  unfold Z.ltb. by destruct (x ?= y).
Qed.

Lemma steps_lte k a b x y : steps k a x → steps k b y → bn_lte a b = (x <=? y).
Proof.
  intros Ha Hb. unfold bn_lte. rewrite bn_cmp_val, (on_grid_cmp _ _ _ _ _ Ha Hb).
  unfold Z.leb. by destruct (x ?= y).
Qed.

Lemma steps_literal s m k : Decimal.is_decimal s = true → Decimal.parts s = (m, k) →
  steps k (bignumber s) m.
Proof.
  intros Hd Hp. unfold steps, on_grid. rewrite bignumber_val by done.
  unfold Decimal.value. by rewrite Hp.
Qed.

Lemma steps_zero k : steps k (bignumber "0") 0.
Proof.
  unfold steps, on_grid. rewrite bignumber_val by done. apply on_grid_zero.
Qed.

Lemma steps_refine k j a z : (k ≤ j)%nat → steps k a z → steps j a (z * 10 ^ Z.of_nat (j - k)).
Proof.
  unfold steps, on_grid. intros Hk ->. unfold Qeq. simpl. rewrite !pow10_pos.
  rewrite <-Z.mul_assoc, <-Z.pow_add_r by lia. do 2 f_equal. lia.
Qed.
End Laws.

(** ** Rounding on grids *)

Lemma Qfloor_frac a b : Qfloor (a # b) = a / Zpos b.
Proof. done. Qed.

Lemma round_steps_nonneg d q : (0 <= q)%Q → round_steps d q = Qfloor (q * (Zpos (pow10 d) # 1) + (1 # 2)).
Proof.
  intros H. unfold round_steps. rewrite (proj2 (Qle_bool_iff _ _)); [done|].
  apply Qmult_le_0_compat; [done|]. unfold Qle. simpl. lia.
Qed.

Lemma on_grid_nonneg k q z : on_grid k q z → 0 ≤ z → (0 <= q)%Q.
Proof. unfold on_grid. intros -> H. unfold Qle. simpl. lia. Qed.

(** From a grid [j] decimals finer: half of a step goes up. *)
Lemma round_steps_down d j q z :
  on_grid (d + j) q z → 0 ≤ z → round_steps d q = (2 * z + 10 ^ Z.of_nat j) / (2 * 10 ^ Z.of_nat j).
Proof.
  intros H Hz. rewrite round_steps_nonneg by by eapply on_grid_nonneg. unfold on_grid in H.
  set (J := pow10 j). assert (EJ : 10 ^ Z.of_nat j = Zpos J) by (unfold J; by rewrite pow10_pos). rewrite EJ.
  transitivity (Qfloor (2 * z + Zpos J # 2 * J)); [|done]. apply Qfloor_comp. rewrite H.
  unfold Qeq, Qplus, Qmult. cbn [Qnum Qden]. rewrite !Pos2Z.inj_mul, !pow10_pos, Nat2Z.inj_add, Z.pow_add_r, EJ by lia. ring.
Qed.

Lemma round_steps_exact k d q z : on_grid k q z → (k ≤ d)%nat → 0 ≤ z → round_steps d q = z * 10 ^ Z.of_nat (d - k).
Proof.
  intros H Hk Hz. rewrite round_steps_nonneg by by eapply on_grid_nonneg. unfold on_grid in H.
  assert (0 < 10 ^ Z.of_nat (d - k)) by (apply Z.pow_pos_nonneg; lia).
  transitivity (Qfloor (2 * (z * 10 ^ Z.of_nat (d - k)) + 1 # 2)).
  - apply Qfloor_comp. rewrite H. unfold Qeq, Qplus, Qmult. cbn [Qnum Qden].
    rewrite !Pos2Z.inj_mul, !pow10_pos. replace (10 ^ Z.of_nat d) with (10 ^ Z.of_nat (d - k) * 10 ^ Z.of_nat k); [ring|].
    rewrite <-Z.pow_add_r by lia. f_equal. lia.
  - rewrite Qfloor_frac. symmetry. apply (Z.div_unique_pos _ _ _ 1); lia.
Qed.

Lemma round_steps_mono d p q : (0 <= p)%Q → (p <= q)%Q → round_steps d p ≤ round_steps d q.
Proof.
  intros Hp Hq. rewrite !round_steps_nonneg by (done || by eapply Qle_trans). apply Qfloor_resp_le.
  apply Qplus_le_l, Qmult_le_compat_r; [done|]. unfold Qle. simpl. lia.
Qed.

(** On the grid itself nothing is rounded, whatever the sign. *)
Lemma round_steps_grid k d q z : on_grid k q z → (k ≤ d)%nat → round_steps d q = z * 10 ^ Z.of_nat (d - k).
Proof.
  intros H Hk. destruct (decide (0 ≤ z)) as [Hz|Hz]; [by apply round_steps_exact|].
  assert (Hn : on_grid k (- q) (- z)) by (unfold on_grid in *; rewrite H; unfold Qeq; simpl; lia).
  pose proof (round_steps_exact k d (- q) (- z) Hn Hk ltac:(lia)) as He.
  rewrite round_steps_nonneg in He by (eapply on_grid_nonneg; [exact Hn|lia]).
  unfold round_steps. destruct (Qle_bool 0 _) eqn:E.
  - exfalso. apply Qle_bool_iff in E. unfold on_grid in H. rewrite H in E. revert E. unfold Qle, Qmult. cbn [Qnum Qden]. nia.
  - transitivity (- (- z * 10 ^ Z.of_nat (d - k))); [|lia]. rewrite <-He. f_equal. apply Qfloor_comp. ring.
Qed.

(** ** An exact instance *)

Module Exact.

Definition digit_char (d : Z) : ascii := Ascii.ascii_of_N (48 + Z.to_N d).

(** The [w] low-order decimal digits of [n], before [acc]. *)
Fixpoint print_fixed (w : nat) (n : Z) (acc : string) : string :=
  match w with
  | O => acc
  | S w => print_fixed w (n / 10) (String (digit_char (n mod 10)) acc)
  end.

Fixpoint width (fuel : nat) (n : Z) : nat :=
  match fuel with
  | O => 1
  | S f => if n <? 10 then 1 else S (width f (n / 10))
  end.

Definition print_nat (n : Z) : string := print_fixed (width (Z.to_nat (Z.log2 n)) n) n "".

(** The fraction part: nothing at zero decimals. *)
Definition frac (d : nat) (n : Z) : string :=
  match d with O => "" | _ => String "."%char (print_fixed d n "") end.

Definition format (d : nat) (q : Q) : string :=
  let z := round_steps d q in
  let m := Z.abs z in
  (if z <? 0 then "-" else "") +:+ print_nat (m / 10 ^ Z.of_nat d) +:+
  frac d (m mod 10 ^ Z.of_nat d).

Lemma digit_char_val d : 0 ≤ d < 10 → is_digit (digit_char d) = true ∧ digit_val (digit_char d) = d.
Proof.
  intros Hd. assert (d = 0 ∨ d = 1 ∨ d = 2 ∨ d = 3 ∨ d = 4 ∨ d = 5 ∨ d = 6 ∨ d = 7 ∨ d = 8 ∨ d = 9)
    as H by lia.
  destruct H as [->|[->|[->|[->|[->|[->|[->|[->|[->| ->]]]]]]]]]; split; reflexivity.
Qed.

Lemma mod10 n : 0 ≤ n mod 10 < 10.
Proof. apply Z.mod_pos_bound. lia. Qed.

Lemma read_print_fixed w n acc a :
  0 ≤ n → read_digits a (print_fixed w n acc) =
          read_digits (a * 10 ^ Z.of_nat w + n mod 10 ^ Z.of_nat w) acc.
Proof.
  revert n acc. induction w as [|w IH]; intros n acc Hn.
  - simpl. rewrite Z.mod_1_r. f_equal. lia.
  - simpl print_fixed. rewrite IH by (apply Z.div_pos; lia).
    destruct (digit_char_val _ (mod10 n)) as [Hd Hv]. simpl. rewrite Hd, Hv. f_equal.
    rewrite Nat2Z.inj_succ, Z.pow_succ_r by lia.
    rewrite Z.rem_mul_r by lia. ring.
Qed.

Lemma span_print_fixed w n rest :
  0 ≤ n → Decimal.span_digits (print_fixed w n rest) =
    (print_fixed w n (Decimal.span_digits rest).1, (Decimal.span_digits rest).2).
Proof.
  revert n rest. induction w as [|w IH]; intros n rest Hn.
  - simpl. by destruct (Decimal.span_digits rest).
  - simpl print_fixed. rewrite IH by (apply Z.div_pos; lia).
    destruct (digit_char_val _ (mod10 n)) as [Hd _]. simpl. rewrite Hd.
    by destruct (Decimal.span_digits rest).
Qed.

Lemma all_digits_print_fixed w n : 0 ≤ n → all_chars is_digit (print_fixed w n "") = true.
Proof.
  intros Hn. assert (∀ acc, all_chars is_digit acc = true → all_chars is_digit (print_fixed w n acc) = true) as H; [|by apply H].
  revert n Hn. induction w as [|w IH]; intros n Hn acc Ha; [done|].
  simpl print_fixed. apply IH; [apply Z.div_pos; lia|].
  destruct (digit_char_val _ (mod10 n)) as [Hd _]. simpl. by rewrite Hd.
Qed.

Lemma length_print_fixed w n acc : String.length (print_fixed w n acc) = (w + String.length acc)%nat.
Proof. revert n acc. induction w as [|w IH]; intros n acc; simpl; [done|]. rewrite IH. simpl. lia. Qed.

Lemma width_bound fuel n : 0 ≤ n < 10 ^ (Z.of_nat fuel + 1) → n < 10 ^ Z.of_nat (width fuel n).
Proof.
  revert n. induction fuel as [|f IH]; intros n Hn; [simpl in *; lia|].
  simpl width. destruct (n <? 10) eqn:E; bools; [lia|].
  rewrite Nat2Z.inj_succ, Z.pow_succ_r by lia.
  assert (n / 10 < 10 ^ Z.of_nat (width f (n / 10))); [|Z.to_euclidean_division_equations; lia].
  apply IH. split; [apply Z.div_pos; lia|].
  apply Z.div_lt_upper_bound; [lia|]. rewrite <-Z.pow_succ_r by lia.
  replace (Z.succ (Z.of_nat f + 1)) with (Z.of_nat (S f) + 1) by lia. lia.
Qed.

Lemma read_print_nat n rest :
  0 ≤ n → read_digits 0 (print_fixed (width (Z.to_nat (Z.log2 n)) n) n rest) = read_digits n rest.
Proof.
  intros Hn. rewrite read_print_fixed by done. f_equal. rewrite Z.mul_0_l, Z.add_0_l.
  apply Z.mod_small. split; [done|]. apply width_bound. split; [done|].
  destruct (decide (n = 0)) as [->|]; [lia|].
  pose proof (Z.log2_nonneg n). destruct (Z.log2_spec n) as [_ Hl]; [lia|].
  eapply Z.lt_le_trans; [exact Hl|]. rewrite Z2Nat.id by done.
  rewrite <-Z.add_1_r. apply Z.pow_le_mono_l. lia.
Qed.

Lemma width_pos fuel n : (1 ≤ width fuel n)%nat.
Proof. destruct fuel; simpl; [lia|]. destruct (n <? 10); lia. Qed.

Lemma print_head w n acc : (1 ≤ w)%nat → 0 ≤ n →
  ∃ c r, print_fixed w n acc = String c r ∧ is_digit c = true.
Proof.
  revert n acc. induction w as [|w IH]; intros n acc Hw Hn; [lia|].
  simpl. destruct w as [|w].
  - simpl. eexists _, _. split; [done|]. apply (digit_char_val _ (mod10 n)).
  - apply IH; [lia|]. apply Z.div_pos; lia.
Qed.

Lemma strip_sign_digit c r : is_digit c = true → Decimal.strip_sign (String c r) = (false, String c r).
Proof.
  intros Hc. unfold Decimal.strip_sign.
  destruct (Ascii.eqb_spec c "-"%char) as [->|_]; [done|].
  by destruct (Ascii.eqb_spec c "+"%char) as [->|_].
Qed.

Lemma append_print_fixed w n acc rest : print_fixed w n acc +:+ rest = print_fixed w n (acc +:+ rest).
Proof. revert n acc. induction w as [|w IH]; intros n acc; [done|]. simpl. by rewrite IH. Qed.

Lemma span_frac d n : Decimal.span_digits (frac d n) = ("", frac d n).
Proof. by destruct d. Qed.

(** The unsigned body of [format] parses back to its own steps. *)
Lemma format_body d m :
  0 ≤ m →
  let body := print_nat (m / 10 ^ Z.of_nat d) +:+ frac d (m mod 10 ^ Z.of_nat d) in
  (∃ c r, body = String c r ∧ is_digit c = true) ∧
  ∃ ip, Decimal.span_digits body = (ip, frac d (m mod 10 ^ Z.of_nat d)) ∧
    String.eqb ip "" = false ∧ read_digits 0 ip = m / 10 ^ Z.of_nat d.
Proof.
  intros Hm body. assert (0 ≤ m / 10 ^ Z.of_nat d) as Hi by (apply Z.div_pos; lia).
  unfold body, print_nat. rewrite append_print_fixed.
  change ("" +:+ frac d (m mod 10 ^ Z.of_nat d)) with (frac d (m mod 10 ^ Z.of_nat d)).
  set (w := width _ _). assert (1 ≤ w)%nat as Hw by apply width_pos.
  split; [by apply print_head|].
  rewrite span_print_fixed, span_frac by done. eexists. split_and!; [done| |by apply read_print_nat].
  destruct (print_head w (m / 10 ^ Z.of_nat d) "" Hw Hi) as (c & r & Hp & _). simpl. by rewrite Hp.
Qed.

Lemma format_parts d q :
  Decimal.is_decimal (format d q) = true ∧ Decimal.parts (format d q) = (round_steps d q, d).
Proof.
  unfold format. set (z := round_steps d q). set (m := Z.abs z).
  assert (0 ≤ m) as Hm by lia.
  destruct (format_body d m Hm) as [(c & r & Hc & Hdig) (ip & Hspan & Hne & Hip)].
  set (body := print_nat _ +:+ _) in *.
  assert (Hstrip : Decimal.strip_sign ((if z <? 0 then "-" else "") +:+ body) = (z <? 0, body)).
  { destruct (z <? 0); [done|]. change ("" +:+ body) with body. rewrite Hc. by apply strip_sign_digit. }
  unfold Decimal.is_decimal, Decimal.parts. rewrite Hstrip. simpl. rewrite Hspan.
  assert (Hz : m = 10 ^ Z.of_nat d * (m / 10 ^ Z.of_nat d) + m mod 10 ^ Z.of_nat d)
    by (apply Z.div_mod; lia).
  assert (0 ≤ m mod 10 ^ Z.of_nat d < 10 ^ Z.of_nat d) as Hmod by (apply Z.mod_pos_bound; lia).
  assert (Hsign : (if z <? 0 then - m else m) = z) by (destruct (z <? 0) eqn:E; bools; lia).
  destruct d as [|d].
  - simpl. rewrite Hne. split; [done|]. simpl. rewrite Hip.
    change (10 ^ Z.of_nat 0) with 1 in *. rewrite Z.div_1_r, Hsign. done.
  - cbn [frac]. rewrite all_digits_print_fixed, Hne by lia. split; [done|].
    rewrite span_print_fixed by lia. cbn [Decimal.span_digits fst].
    rewrite read_print_fixed, length_print_fixed, Hip by lia. rewrite (Z.mod_small (m mod _)) by done.
    simpl read_digits. rewrite (Z.mul_comm (m / _)), <-Hz, Hsign. f_equal. simpl. lia.
Qed.

(** The fewest decimals that hold [q], up to [n]. *)
Fixpoint decimals_of (n d : nat) (q : Q) : nat :=
  match n with
  | O => d
  | S n => if 10 ^ Z.of_nat d mod Zpos (Qden q) =? 0 then d else decimals_of n (S d) q
  end.

Definition toFixed (q : Q) : string :=
  let q := Qred q in format (decimals_of (Z.to_nat (Z.log2 (Zpos (Qden q)))) 0 q) q.

Lemma decimals_of_spec n d q : (∃ k, (d ≤ k ≤ d + n)%nat ∧ (Zpos (Qden q) | 10 ^ Z.of_nat k)) → (Zpos (Qden q) | 10 ^ Z.of_nat (decimals_of n d q)).
Proof.
  revert d. induction n as [|n IH]; intros d (k & Hk & Hd); cbn [decimals_of].
  - by replace d with k by lia.
  - destruct (_ =? 0) eqn:E; [apply Z.mod_divide; [done|]; by apply Z.eqb_eq|]. apply IH. exists k. split; [|done].
    destruct (decide (d = k)) as [->|]; [|lia]. apply Z.mod_divide, Z.eqb_eq in Hd; [congruence|done].
Qed.

(** A divisor of a power of ten divides the power of its own size. *)
Lemma divides_pow10 (D : Z) k : 0 < D → (D | 10 ^ Z.of_nat k) → (D | 10 ^ Z.log2 D).
Proof.
  intros HD. revert HD. pattern D. apply (well_founded_induction (Zwf_well_founded 0)). clear D. intros D IH HD Hd.
  destruct (decide (D = 1)) as [->|Hne]; [apply Z.divide_1_l|].
  set (g := Z.gcd D 10). assert (Hg : (g | D) ∧ (g | 10)) by (split; [apply Z.gcd_divide_l|apply Z.gcd_divide_r]).
  assert (Hgp : 0 ≤ g) by apply Z.gcd_nonneg. destruct Hg as [[D' HD'] Hg10].
  assert (Hg1 : g ≠ 1).
  { intros E. assert (H1 : (D | 1)).
    { clear -Hd E. induction k as [|k IH]; [exact Hd|]. apply IH. rewrite Nat2Z.inj_succ, Z.pow_succ_r in Hd by lia.
      by apply (Z.gauss D 10) in Hd. }
    apply Z.divide_1_r in H1. lia. }
  assert (Hg2 : 2 ≤ g) by (destruct (decide (g = 0)) as [E|]; [rewrite E in HD'; lia|lia]).
  assert (0 < D') by nia. assert (HlD : D' < D) by nia.
  assert (Hk : (D' | 10 ^ Z.of_nat k)) by (eapply Z.divide_trans; [|exact Hd]; exists g; lia).
  pose proof (IH D' ltac:(unfold Zwf; lia) H Hk) as Hr.
  assert (Hlog : Z.log2 D' + 1 ≤ Z.log2 D).
  { transitivity (Z.log2 (D' * 2)); [|apply Z.log2_le_mono; nia]. rewrite Z.mul_comm, Z.log2_double by done. lia. }
  apply (Z.divide_trans _ (10 ^ Z.log2 D' * 10)).
  - destruct Hr as [u Hu], Hg10 as [v Hv]. exists (u * v). transitivity (u * D' * (v * g)); [congruence|]. transitivity (u * v * (D' * g)); [ring|congruence].
  - rewrite Z.mul_comm, <-Z.pow_succ_r by apply Z.log2_nonneg. pose proof (Z.log2_nonneg D').
    exists (10 ^ (Z.log2 D - Z.succ (Z.log2 D'))). rewrite <-Z.pow_add_r by lia. f_equal. lia.
Qed.

Lemma toFixed_value q k z : on_grid k q z → (Decimal.value (toFixed q) == q)%Q.
Proof.
  intros Hq. unfold toFixed. set (r := Qred q). set (d := decimals_of _ 0 r).
  assert (Hr : (r == q)%Q) by apply Qred_correct.
  assert (Hdiv : (Zpos (Qden r) | 10 ^ Z.of_nat k)).
  { assert (Hg : Z.gcd (Qnum r) (Zpos (Qden r)) = 1) by apply gcd_Qred.
    apply (Z.gauss _ (Qnum r)); [|by rewrite Z.gcd_comm]. unfold on_grid in Hq. rewrite <-Hr in Hq. unfold Qeq in Hq. simpl in Hq.
    rewrite pow10_pos in Hq. exists z. exact Hq. }
  pose proof (divides_pow10 _ k (Pos2Z.is_pos _) Hdiv) as Hlog.
  assert (Hd : (Zpos (Qden r) | 10 ^ Z.of_nat d)).
  { apply decimals_of_spec. exists (Z.to_nat (Z.log2 (Zpos (Qden r)))). split; [lia|]. by rewrite Z2Nat.id by apply Z.log2_nonneg. }
  destruct Hd as [c Hc]. assert (Hgrid : on_grid d r (Qnum r * c)).
  { unfold on_grid, Qeq. simpl. rewrite pow10_pos, Hc. ring. }
  unfold Decimal.value. destruct (format_parts d r) as [_ ->]. rewrite (round_steps_grid d d r _ Hgrid (le_n d)).
  rewrite Nat.sub_diag, Z.mul_1_r, <-Hr. symmetry. exact Hgrid.
Qed.

Lemma toFixed_proper a b : (a == b)%Q → toFixed a = toFixed b.
Proof. intros H. unfold toFixed. by rewrite (Qred_complete a b H). Qed.

Lemma exact_close (x : Q) : (Qabs (x - x) <= Qabs x * (1 # pow10 63))%Q.
Proof.
  assert (E : (x - x == 0)%Q) by ring. rewrite (Qabs_wd _ _ E). change (Qabs 0) with 0%Q.
  apply Qmult_le_0_compat; [apply (Qabs_nonneg x)|done].
Qed.
End Exact.

#[export] Instance ExactBigNumber : BigNumber := {
  bn := Q;
  bignumber s := Decimal.value s;
  bn_add := Qplus;
  bn_sub := Qminus;
  bn_mul := Qmult;
  bn_div := Qdiv;
  bn_cmp := Qcompare;
  bn_format := Exact.format;
  bn_floor a := (Qfloor a # 1)%Q;
  bn_toFixed := Exact.toFixed;
}.

#[export] Instance ExactBigNumberLaws : BigNumberLaws ExactBigNumber.
Proof.
  refine {| bn_val := (λ a : Q, a) : @bn ExactBigNumber → Q |}; simpl; try done.
  - intros a b _. exact (Exact.exact_close (a / b)).
  - intros d a. apply Exact.format_parts.
  - intros d a. unfold on_grid, Decimal.value.
    destruct (Exact.format_parts d a) as [_ ->]. done.
  - intros a. apply Exact.format_parts.
  - intros a. apply Exact.toFixed_value.
  - apply Exact.toFixed_proper.
  - intros a b. exact (Exact.exact_close (a * b)).
  - intros a b. exact (Exact.exact_close (a + b)).
Defined.
