(* ===== verification/Quorum.v ===== *)
(** * Quorums

    Models of [src/lib/bft_quorum.js] (the count quorum),
    [src/validators/capability_snapshot/quorum.js] (the quorum of a locked
    snapshot) and [src/consensus/stake_weighted_quorum.js] (the stake-weighted
    predicate every tally engine resolves through). *)

From S2P Require Import Prelude GateRegistry BigNum.

(** ** The count quorum *)

Module Bft.

(** [Math.max(2 * Math.floor((n - 1) / 3) + 1, Math.ceil((n + 1) / 2))]. *)
Definition bftQuorum (n : Z) : Z := Z.max (2 * ((n - 1) / 3) + 1) ((n + 2) / 2).

Definition bftQuorumOrSingle (n singleNodeQuorum : Z) : Z :=
  if n <=? 1 then singleNodeQuorum else bftQuorum n.

(** The number of Byzantine members the [2f+1] form is written for. *)
Definition faults (n : Z) : Z := (n - 1) / 3.

Lemma bftQuorum_bounds n : 2 ≤ n → 2 ≤ bftQuorum n ≤ n ∧ n < 2 * bftQuorum n.
Proof. intros. unfold bftQuorum. Z.to_euclidean_division_equations. lia. Qed.

Lemma bftQuorum_mono n m : 2 ≤ n ≤ m → bftQuorum n ≤ bftQuorum m.
Proof. intros. unfold bftQuorum. Z.to_euclidean_division_equations. lia. Qed.

End Bft.

(** ** Validator snapshots

    A row of the indexer's snapshot. An absent field is [None]; a null row
    behaves in every function below as a row whose fields are all absent. *)

Record vrow := VRow { v_pubkey : option string; v_source : option string; v_weight : option string }.

Record snapshot := Snapshot {
  sn_validators : list vrow;
  (** [snapshot.count]: [None] when [Number(count)] is not an integer *)
  sn_count : option Z;
  sn_truncated : bool;
  sn_blockIndex : Z }.

(** [CapabilitySnapshot.getQuorum]. *)
Definition snapshotQuorum (s : snapshot) : Z :=
  let N := match sn_count s with
           | Some n => if n <? 0 then Z.of_nat (length (sn_validators s)) else n
           | None => Z.of_nat (length (sn_validators s))
           end in
  Bft.bftQuorumOrSingle N 0.

Definition isInSnapshot (s : option snapshot) (pubkey : string) : bool :=
  match s with
  | None => false
  | Some s =>
      if String.eqb pubkey "" then false
      else existsb (λ v, String.eqb (toLowerCase (js_String (v_pubkey v))) (toLowerCase pubkey)) (sn_validators s)
  end.

(** ** The stake-weighted quorum *)

Module Swq.
Section Swq.
Context {B : BigNumber}.

(** A validator array: the rows and the [truncated] marker it may carry. *)
Record varray := VArray { rows : list vrow; truncated : bool }.

Inductive error :=
| Truncated | BlankSource | MissingWeight | NonnumericWeight | NegativeWeight.

(** [bcnum]: non-numeric becomes 0. *)
Definition bcnum (v : option string) : bn :=
  let s := trim (default "0" v) in
  if String.eqb s "" || negb (Decimal.is_decimal s) then bignumber "0" else bignumber s.

Definition blank_source (v : vrow) : bool :=
  match v_source v with None => true | Some s => String.eqb (trim s) "" end.

(** A weight's trimmed spelling when it is numeric. *)
Definition numeric_weight (v : vrow) : result error string :=
  match v_weight v with
  | None => Err MissingWeight
  | Some w => let ws := trim w in
              if String.eqb ws "" || negb (Decimal.is_decimal ws) then Err NonnumericWeight else Ok ws
  end.

(** [Map<source, weight>] in insertion order; the first weight of a source wins. *)
Abbreviation weights := (list (string * string)).

Definition has_source (src : string) (m : weights) : bool := existsb (λ kv, String.eqb kv.1 src) m.

(** The loop of [totalStake] over the rows. *)
Fixpoint collect_weights (vs : list vrow) (m : weights) : result error weights :=
  match vs with
  | [] => Ok m
  | v :: vs =>
      if blank_source v then Err BlankSource
      else let src := js_String (v_source v) in
           if has_source src m then collect_weights vs m
           else let! ws := numeric_weight v in collect_weights vs (m ++ [(src, ws)])
  end.

(** The summing loop of [totalStake]. *)
Fixpoint sum_weights (total : bn) (m : weights) : result error bn :=
  match m with
  | [] => Ok total
  | (_, w) :: m =>
      let bw := bcnum (Some w) in
      if bn_lt bw (bignumber "0") then Err NegativeWeight else sum_weights (bn_add total bw) m
  end.

Definition totalStake (va : varray) : result error bn :=
  if truncated va then Err Truncated
  else let! m := collect_weights (rows va) [] in sum_weights (bignumber "0") m.

(** [indexStakeSources]: both maps, or [None] (fail closed). *)
Record index := Index { weightBySource : weights; pubkeyToSource : gmap string string }.

Fixpoint indexRows (vs : list vrow) (ix : index) : option index :=
  match vs with
  | [] => Some ix
  | v :: vs =>
      if blank_source v then None
      else
        let src := js_String (v_source v) in
        let pk := toLowerCase (js_String (v_pubkey v)) in
        let p2s := <[pk := src]> (pubkeyToSource ix) in
        if has_source src (weightBySource ix) then indexRows vs (Index (weightBySource ix) p2s)
        else match numeric_weight v with
             | Err _ => None
             | Ok ws => indexRows vs (Index (weightBySource ix ++ [(src, ws)]) p2s)
             end
  end.

Definition indexStakeSources (va : varray) : option index := indexRows (rows va) (Index [] ∅).

(** The summing loop of [sumStakeWeights], [None] on a negative weight. *)
Fixpoint sumLoop (total : bn) (m : weights) : option bn :=
  match m with
  | [] => Some total
  | (_, w) :: m =>
      let bw := bcnum (Some w) in
      if bn_lt bw (bignumber "0") then None else sumLoop (bn_add total bw) m
  end.

Definition sumStakeWeights (m : weights) : option bn :=
  match sumLoop (bignumber "0") m with
  | None => None
  | Some total => if bn_lte total (bignumber "0") then None else Some total
  end.

Definition weight_of (m : weights) (src : string) : option string :=
  snd <$> find (λ kv, String.eqb kv.1 src) m.

Record tally_state := Tally { counted : list string; seen : list string; tally : bn }.

(** One iteration of the loop of [sumSignerStake]. *)
Definition tallySigner (ix : index) (st : tally_state) (pk : string) : tally_state :=
  let lpk := toLowerCase pk in
  if bool_decide (lpk ∈ seen st) then st
  else
    let seen' := lpk :: seen st in
    match pubkeyToSource ix !! lpk with
    | None => Tally (counted st) seen' (tally st)
    | Some src =>
        if bool_decide (src ∈ counted st) then Tally (counted st) seen' (tally st)
        else Tally (src :: counted st) seen'
               (bn_add (tally st) (bcnum (weight_of (weightBySource ix) src)))
    end.

Definition sumSigners (ix : index) (signers : list string) : tally_state :=
  fold_left (tallySigner ix) signers (Tally [] [] (bignumber "0")).

Definition sumSignerStake (ix : index) (signers : list string) : bn := tally (sumSigners ix signers).

Definition meetsStakeThreshold (va : varray) (signers : list string) : bool :=
  if truncated va then false
  else match indexStakeSources va with
       | None => false
       | Some ix =>
           match sumStakeWeights (weightBySource ix) with
           | None => false
           | Some total => bn_gt (bn_mul (sumSignerStake ix signers) (bignumber "3"))
                             (bn_mul total (bignumber "2"))
           end
       end.

(** ** What the predicate computes

    [units w] is the weight [w] in steps of [10^-18]. *)

Definition decimals (w : string) : nat := (Decimal.parts (trim w)).2.
Definition units (w : string) : Z :=
  (Decimal.parts (trim w)).1 * 10 ^ Z.of_nat (18 - decimals w).

Definition stake (m : weights) (src : string) : Z := units (default "0" (weight_of m src)).
Definition sources (m : weights) : list string := m.*1.
Definition total (m : weights) : Z := sumZ (stake m) (sources m).

(** The distinct sources the signers represent. *)
Definition signing (ix : index) (signers : list string) : list string := counted (sumSigners ix signers).

Definition numeric (w : string) : Prop := Decimal.is_decimal (trim w) = true ∧ trim w ≠ "".

(** A well-formed index: one weight per source, every weight numeric, every
    key attributed to a source that has a weight. *)
Record index_wf (ix : index) : Prop := {
  iw_nodup : NoDup (sources (weightBySource ix));
  iw_numeric kv : kv ∈ weightBySource ix → numeric kv.2;
  iw_keys pk src : pubkeyToSource ix !! pk = Some src → src ∈ sources (weightBySource ix) }.

(** The magnitude at which bignumber arithmetic is exact: weights of at most
    18 decimals that total below [10^44] whole units. *)
Record weights_exact (m : weights) : Prop := {
  we_decimals kv : kv ∈ m → (decimals kv.2 ≤ 18)%nat;
  we_total : sumZ (λ kv, Z.abs (units kv.2)) m < 10 ^ 62 }.

Section Laws.
Context {L : BigNumberLaws B}.

Lemma has_source_spec src m : has_source src m = true ↔ src ∈ sources m.
Proof.
  unfold has_source, sources. rewrite existsb_exists. split.
  - intros (kv & Hin%list_elem_of_In & <-%String.eqb_eq). apply list_elem_of_fmap. eauto.
  - intros (kv & -> & Hin)%list_elem_of_fmap. exists kv.
    split; [by apply list_elem_of_In|apply String.eqb_refl].
Qed.

Lemma weight_of_elem m src w : NoDup (sources m) → (src, w) ∈ m → weight_of m src = Some w.
Proof.
  unfold weight_of, sources. induction m as [|[k v] m IH]; simpl; [set_solver|].
  rewrite NoDup_cons. intros [Hk Hnd] Hin.
  destruct (String.eqb_spec k src) as [->|Hne]; simpl.
  - apply elem_of_cons in Hin as [[=]|Hin]; [by subst|].
    exfalso. apply Hk. apply list_elem_of_fmap. by exists (src, w).
  - apply IH; [done|]. set_solver.
Qed.

Lemma stake_elem m src w : NoDup (sources m) → (src, w) ∈ m → stake m src = units w.
Proof. intros. unfold stake. by erewrite weight_of_elem. Qed.

Lemma total_units m : NoDup (sources m) → total m = sumZ (λ kv, units kv.2) m.
Proof.
  intros Hnd. unfold total. trans (sumZ (λ kv, stake m kv.1) m).
  - apply sumZ_fmap.
  - apply sumZ_ext. intros [src w] Hin. by apply stake_elem.
Qed.

Lemma bcnum_steps w : numeric w → (decimals w ≤ 18)%nat → steps 18 (bcnum (Some w)) (units w).
Proof.
  intros [Hd Hne] Hk. unfold bcnum, units, decimals in *. simpl.
  apply String.eqb_neq in Hne as ->. rewrite Hd. simpl.
  destruct (Decimal.parts (trim w)) as [m k] eqn:E. simpl in *.
  apply steps_refine; [done|]. by apply steps_literal.
Qed.

Lemma indexRows_wf vs ix ix' : index_wf ix → indexRows vs ix = Some ix' → index_wf ix'.
Proof.
  revert ix. induction vs as [|v vs IH]; intros ix Hwf H; simpl in H; [by simplify_eq|].
  destruct (blank_source v); [done|]. destruct Hwf as [Hnd Hnum Hkeys].
  destruct (has_source _ _) eqn:Hs.
  - eapply IH, H. apply has_source_spec in Hs. split; simpl; [done..|].
    intros pk src. rewrite lookup_insert. case_decide; [|apply Hkeys]. by intros [= <-].
  - destruct (numeric_weight v) as [ws|] eqn:Hw; [|done]. eapply IH, H.
    apply not_true_iff_false in Hs. rewrite has_source_spec in Hs.
    unfold numeric_weight in Hw. destruct (v_weight v) as [w|]; [|done].
    destruct (String.eqb (trim w) "" || _) eqn:Ew; [done|]. simplify_eq.
    apply orb_false_iff in Ew as [Ee%String.eqb_neq Ed%negb_false_iff].
    split; simpl; unfold sources in *; rewrite ?fmap_app; simpl.
    + apply NoDup_app. split_and!; [done|set_solver|apply NoDup_singleton].
    + intros kv [?| ->%list_elem_of_singleton]%elem_of_app; [by apply Hnum|].
      unfold numeric. simpl. by rewrite trim_idemp.
    + intros pk src. rewrite lookup_insert. case_decide.
      * intros [= <-]. set_solver.
      * intros ?%Hkeys. set_solver.
Qed.

Lemma index_wf_indexStakeSources va ix : indexStakeSources va = Some ix → index_wf ix.
Proof.
  apply indexRows_wf. split; simpl; [constructor|set_solver|set_solver].
Qed.

Lemma total_lt m : NoDup (sources m) → weights_exact m → Z.abs (total m) < 10 ^ 62.
Proof.
  intros Hnd [_ Ht]. rewrite total_units by done.
  eapply Z.le_lt_trans; [apply sumZ_abs|done].
Qed.

(** The summing loop: exact when every weight is non-negative, [None] as soon
    as one is negative. *)
Lemma sumLoop_spec m t z :
  (∀ kv, kv ∈ m → numeric kv.2 ∧ (decimals kv.2 ≤ 18)%nat) →
  steps 18 t z → Z.abs z + sumZ (λ kv, Z.abs (units kv.2)) m < 10 ^ 64 →
  if forallb (λ kv, 0 <=? units kv.2) m
  then ∃ t', sumLoop t m = Some t' ∧ steps 18 t' (z + sumZ (λ kv, units kv.2) m)
  else sumLoop t m = None.
Proof.
  revert t z. induction m as [|[src w] m IH]; intros t z Hm Ht Hb.
  - exists t. rewrite sumZ_nil, Z.add_0_r. done.
  - rewrite !sumZ_cons in *. simpl in Hb |- *.
    destruct (Hm (src, w)) as [Hn Hd]; [set_solver|]. simpl in Hn, Hd.
    pose proof (bcnum_steps w Hn Hd) as Hw. rewrite (steps_lt 18 _ _ _ _ Hw (steps_zero 18)).
    pose proof (sumZ_nonneg (λ kv : string * string, Z.abs (units kv.2)) m ltac:(intros; apply Z.abs_nonneg)).
    destruct (0 <=? units w) eqn:E; bools; simpl.
    + assert (units w <? 0 = false) as -> by lia.
      specialize (IH (bn_add t (bcnum (Some w))) (z + units w)).
      destruct (forallb _ m).
      * destruct IH as (t' & ? & Ht').
        { intros; apply Hm; set_solver. }
        { apply steps_add; [lia|done|done|lia]. }
        { lia. }
        exists t'. split; [done|]. by rewrite Z.add_assoc.
      * apply IH.
        { intros; apply Hm; set_solver. }
        { apply steps_add; [lia|done|done|lia]. }
        { lia. }
    + by assert (units w <? 0 = true) as -> by lia.
Qed.

Lemma tallySigner_inv ix st pk z :
  index_wf ix → weights_exact (weightBySource ix) →
  (∀ src, src ∈ sources (weightBySource ix) → 0 ≤ stake (weightBySource ix) src) →
  NoDup (counted st) → counted st ⊆ sources (weightBySource ix) →
  steps 18 (tally st) z → z = sumZ (stake (weightBySource ix)) (counted st) →
  let st' := tallySigner ix st pk in
  NoDup (counted st') ∧ counted st' ⊆ sources (weightBySource ix) ∧
  steps 18 (tally st') (sumZ (stake (weightBySource ix)) (counted st')).
Proof.
  intros [Hnd Hnum Hkeys] [Hdec Htot] Hnn Hc Hsub Ht -> st'. subst st'. unfold tallySigner.
  case_bool_decide; [done|].
  destruct (pubkeyToSource ix !! toLowerCase pk) as [src|] eqn:Hpk; [|done].
  case_bool_decide as Hin; [done|]. simpl.
  pose proof (Hkeys _ _ Hpk) as Hsrc. split_and!; [by constructor|set_solver|].
  assert (sumZ (stake (weightBySource ix)) (src :: counted st) ≤ total (weightBySource ix)) as Hle.
  { apply sumZ_sub; [done|by constructor|set_solver]. }
  pose proof (total_lt _ Hnd (Build_weights_exact _ Hdec Htot)) as Hlt.
  assert (0 ≤ sumZ (stake (weightBySource ix)) (src :: counted st)) as H0.
  { apply sumZ_nonneg. set_solver. }
  rewrite sumZ_cons in *. rewrite (Z.add_comm (stake _ src)).
  apply steps_add; [lia|done| |lia].
  unfold sources in Hsrc. apply list_elem_of_fmap in Hsrc as ([k w] & -> & Hkw). simpl in *.
  rewrite (stake_elem _ _ _ Hnd Hkw), (weight_of_elem _ _ _ Hnd Hkw).
  apply bcnum_steps; [by apply (Hnum (k, w))|by apply (Hdec (k, w))].
Qed.

Definition nonneg_weights (m : weights) : Prop := ∀ src, src ∈ sources m → 0 ≤ stake m src.

Lemma sumSigners_inv ix signers :
  index_wf ix → weights_exact (weightBySource ix) → nonneg_weights (weightBySource ix) →
  NoDup (signing ix signers) ∧ signing ix signers ⊆ sources (weightBySource ix) ∧
  steps 18 (sumSignerStake ix signers) (sumZ (stake (weightBySource ix)) (signing ix signers)).
Proof.
  intros Hwf Hex Hnn. unfold signing, sumSignerStake, sumSigners.
  assert (Hgen : ∀ st, NoDup (counted st) → counted st ⊆ sources (weightBySource ix) →
    steps 18 (tally st) (sumZ (stake (weightBySource ix)) (counted st)) →
    let st' := fold_left (tallySigner ix) signers st in
    NoDup (counted st') ∧ counted st' ⊆ sources (weightBySource ix) ∧
    steps 18 (tally st') (sumZ (stake (weightBySource ix)) (counted st'))).
  { induction signers as [|pk signers IH]; intros st H1 H2 H3; [done|]. simpl.
    destruct (tallySigner_inv ix st pk _ Hwf Hex Hnn H1 H2 H3 eq_refl) as (?&?&?).
    by apply IH. }
  apply Hgen; simpl; [constructor|set_solver|apply steps_zero].
Qed.

Lemma forallb_nonneg m : NoDup (sources m) →
  forallb (λ kv : string * string, 0 <=? units kv.2) m = true ↔ nonneg_weights m.
Proof.
  intros Hnd. rewrite forallb_forall. unfold nonneg_weights, sources. split.
  - intros H src ([k w] & -> & Hin)%list_elem_of_fmap. simpl.
    rewrite (stake_elem _ _ w); [|done|done].
    apply Z.leb_le, (H (k, w)). by apply list_elem_of_In.
  - intros H [k w] Hin%list_elem_of_In. apply Z.leb_le. simpl.
    rewrite <-(stake_elem m k w); [|done|done]. apply H.
    apply list_elem_of_fmap. by exists (k, w).
Qed.

Lemma sumStakeWeights_spec m :
  NoDup (sources m) → (∀ kv, kv ∈ m → numeric kv.2) → weights_exact m →
  match sumStakeWeights m with
  | Some t => nonneg_weights m ∧ 0 < total m ∧ steps 18 t (total m)
  | None => ¬ (nonneg_weights m ∧ 0 < total m)
  end.
Proof.
  intros Hnd Hnum [Hdec Htot]. unfold sumStakeWeights.
  pose proof (sumLoop_spec m (bignumber "0") 0) as H.
  pose proof (forallb_nonneg m Hnd) as Hff. rewrite total_units by done.
  destruct (forallb _ m).
  - destruct H as (t & -> & Ht); [by eauto|apply steps_zero|lia|].
    rewrite Z.add_0_l in Ht. rewrite (steps_lte 18 _ _ _ _ Ht (steps_zero 18)).
    destruct (_ <=? 0) eqn:E; bools; [lia|]. split_and!; [by apply Hff|lia|done].
  - rewrite H; [|by eauto|apply steps_zero|lia]. intros [?%Hff _]. done.
Qed.

(** The predicate, decided over exact integers. *)
Lemma meets_iff va ix signers :
  indexStakeSources va = Some ix → weights_exact (weightBySource ix) →
  let m := weightBySource ix in
  meetsStakeThreshold va signers = true ↔
  truncated va = false ∧ nonneg_weights m ∧ 0 < total m ∧
  2 * total m < 3 * sumZ (stake m) (signing ix signers).
Proof.
  intros Hix Hex m. subst m. pose proof (index_wf_indexStakeSources _ _ Hix) as Hwf.
  unfold meetsStakeThreshold. rewrite Hix.
  destruct (truncated va); [split; [done|by intros [? _]]|].
  pose proof (sumStakeWeights_spec _ (iw_nodup _ Hwf) (iw_numeric _ Hwf) Hex) as HS.
  destruct (sumStakeWeights _) as [t|]; [|split; [done|naive_solver]].
  destruct HS as (Hnn & Hpos & Ht).
  destruct (sumSigners_inv ix signers Hwf Hex Hnn) as (Hnd & Hsub & Hs).
  pose proof (total_lt _ (iw_nodup _ Hwf) Hex) as Hlt.
  assert (0 ≤ sumZ (stake (weightBySource ix)) (signing ix signers) ≤ total (weightBySource ix)) as Hb.
  { split; [apply sumZ_nonneg; intros; by apply Hnn, Hsub|by apply sumZ_sub]. }
  assert (Hlit : ∀ d n, Decimal.is_decimal d = true → Decimal.parts d = (n, 0%nat) → steps 0 (bignumber d) n)
    by (intros; by apply steps_literal).
  rewrite (steps_gt 18 _ _ (3 * sumZ (stake (weightBySource ix)) (signing ix signers))
             (2 * total (weightBySource ix))).
  - rewrite Z.ltb_lt. naive_solver.
  - apply steps_mul_int; [lia|done|by apply Hlit|lia].
  - apply steps_mul_int; [lia|done|by apply Hlit|lia].
Qed.

(** Membership in the counted sources, independent of the order and the
    number of a source's keys. *)
Lemma elem_of_signing ix signers src :
  src ∈ signing ix signers ↔
  ∃ pk, pk ∈ signers ∧ pubkeyToSource ix !! toLowerCase pk = Some src.
Proof.
  unfold signing, sumSigners.
  assert (Hgen : ∀ st,
    (∀ pk s, pk ∈ seen st → pubkeyToSource ix !! pk = Some s → s ∈ counted st) →
    src ∈ counted (fold_left (tallySigner ix) signers st) ↔
    src ∈ counted st ∨ ∃ pk, pk ∈ signers ∧ pubkeyToSource ix !! toLowerCase pk = Some src).
  { induction signers as [|pk signers IH]; intros st Hst; simpl; [set_solver|].
    rewrite IH; clear IH.
    - unfold tallySigner. case_bool_decide as Hseen.
      + split; [set_solver|]. intros [?|(pk' & [-> |?]%elem_of_cons & Hpk)]; [by left| |set_solver].
        left. by eapply Hst.
      + destruct (pubkeyToSource ix !! toLowerCase pk) as [s|] eqn:Hpk; simpl.
        * case_bool_decide; simpl; set_solver.
        * set_solver.
    - unfold tallySigner. case_bool_decide as Hseen; [done|].
      destruct (pubkeyToSource ix !! toLowerCase pk) as [s|] eqn:Hpk; simpl.
      + case_bool_decide; simpl; set_solver.
      + set_solver. }
  rewrite Hgen; simpl; set_solver.
Qed.

(** Two signer sets over the threshold share sources with more than a third of
    the stake. *)
Lemma meets_overlap va ix signers1 signers2 :
  indexStakeSources va = Some ix → weights_exact (weightBySource ix) →
  meetsStakeThreshold va signers1 = true → meetsStakeThreshold va signers2 = true →
  total (weightBySource ix) < 3 * sumZ (stake (weightBySource ix))
    (filter (λ src, src ∈ signing ix signers2) (signing ix signers1)).
Proof.
  intros Hix Hex H1 H2. pose proof (index_wf_indexStakeSources _ _ Hix) as Hwf.
  apply (meets_iff _ _ _ Hix Hex) in H1 as (_ & Hnn & _ & H1).
  apply (meets_iff _ _ _ Hix Hex) in H2 as (_ & _ & _ & H2).
  destruct (sumSigners_inv ix signers1 Hwf Hex Hnn) as (Hnd1 & Hs1 & _).
  destruct (sumSigners_inv ix signers2 Hwf Hex Hnn) as (Hnd2 & Hs2 & _).
  pose proof (sumZ_inclusion_exclusion _ _ _ _ Hnn (iw_nodup _ Hwf) Hnd1 Hnd2 Hs1 Hs2) as H.
  unfold total in *. lia.
Qed.

End Laws.
End Swq.
End Swq.

(** ** Properties *)

(** A three-source snapshot used by the witnesses below. *)
Definition sample_rows : Swq.varray :=
  Swq.VArray [VRow (Some "AA") (Some "s1") (Some "40"); VRow (Some "bb") (Some "s2") (Some "35.5");
              VRow (Some "cc") (Some "s3") (Some "40"); VRow (Some "dd") (Some "s1") (Some "40")] false.

Definition sample_index : Swq.index :=
  Swq.Index [("s1", "40"); ("s2", "35.5"); ("s3", "40")]
    (<["dd" := "s1"]> (<["cc" := "s3"]> (<["bb" := "s2"]> (<["aa" := "s1"]> ∅)))).

Lemma sample_exact : Swq.weights_exact (Swq.weightBySource sample_index).
Proof.
  split; [|vm_compute; reflexivity].
  intros kv Hkv. simpl in Hkv. rewrite !elem_of_cons in Hkv.
  destruct Hkv as [-> |[-> |[-> |?%not_elem_of_nil]]]; [vm_compute; lia..|done].
Qed.

(** C11: two signer sets that both meet the stake-weighted threshold share
    sources holding strictly more than a third of the total stake, so two
    conflicting decisions need more than a third of the stake to sign both. *)
Theorem stake_quorum_intersection {B : BigNumber} {L : BigNumberLaws B} va ix signers1 signers2 :
  Swq.indexStakeSources va = Some ix →
  Swq.weights_exact (Swq.weightBySource ix) →
  Swq.meetsStakeThreshold va signers1 = true →
  Swq.meetsStakeThreshold va signers2 = true →
  let m := Swq.weightBySource ix in
  Swq.total m < 3 * sumZ (Swq.stake m)
    (filter (λ src, src ∈ Swq.signing ix signers2) (Swq.signing ix signers1)).
Proof.
  intros. by apply (Swq.meets_overlap va).
Qed.

Lemma stake_quorum_intersection_witness :
  Swq.total (Swq.weightBySource sample_index) < 3 * sumZ (Swq.stake (Swq.weightBySource sample_index))
    (filter (λ src, src ∈ Swq.signing sample_index ["cc"; "AA"; "bb"]) (Swq.signing sample_index ["aa"; "CC"; "bb"])).
Proof.
  refine (stake_quorum_intersection sample_rows sample_index ["aa"; "CC"; "bb"] ["cc"; "AA"; "bb"] _ sample_exact _ _);
    vm_compute; reflexivity.
Defined.

(** Adding valid signers never revokes a stake-weighted quorum, and the
    verdict does not depend on the order or repetition of the signers. *)
Theorem stake_quorum_monotone {B : BigNumber} {L : BigNumberLaws B} va ix signers1 signers2 :
  Swq.indexStakeSources va = Some ix →
  Swq.weights_exact (Swq.weightBySource ix) →
  signers1 ⊆ signers2 →
  Swq.meetsStakeThreshold va signers1 = true →
  Swq.meetsStakeThreshold va signers2 = true.
Proof.
  intros Hix Hex Hsub H1. pose proof (Swq.index_wf_indexStakeSources _ _ Hix) as Hwf.
  apply (Swq.meets_iff _ _ _ Hix Hex) in H1 as (Ht & Hnn & Hpos & H1).
  apply (Swq.meets_iff _ _ _ Hix Hex).
  split_and!; [done..|]. eapply Z.lt_le_trans; [done|].
  destruct (Swq.sumSigners_inv ix signers1 Hwf Hex Hnn) as (Hnd1 & Hs1 & _).
  destruct (Swq.sumSigners_inv ix signers2 Hwf Hex Hnn) as (Hnd2 & Hs2 & _).
  apply Z.mul_le_mono_nonneg_l; [lia|]. apply sumZ_sub; [auto|done|].
  intros src. rewrite !Swq.elem_of_signing. set_solver.
Qed.

Lemma stake_quorum_monotone_witness :
  Swq.meetsStakeThreshold sample_rows ["bb"; "cc"; "aa"; "zz"] = true.
Proof.
  refine (stake_quorum_monotone sample_rows sample_index ["aa"; "cc"; "bb"] _ _ sample_exact _ _);
    [vm_compute; reflexivity|set_solver|vm_compute; reflexivity].
Defined.

(** However many keys sign, a single staking source reaches the threshold
    only with more than two thirds of the total stake of its own. *)
Theorem stake_quorum_single_source {B : BigNumber} {L : BigNumberLaws B} va ix signers src :
  Swq.indexStakeSources va = Some ix →
  Swq.weights_exact (Swq.weightBySource ix) →
  (∀ pk s, pk ∈ signers → Swq.pubkeyToSource ix !! toLowerCase pk = Some s → s = src) →
  Swq.meetsStakeThreshold va signers = true →
  2 * Swq.total (Swq.weightBySource ix) < 3 * Swq.stake (Swq.weightBySource ix) src.
Proof.
  intros Hix Hex Hkeys H. pose proof (Swq.index_wf_indexStakeSources _ _ Hix) as Hwf.
  apply (Swq.meets_iff _ _ _ Hix Hex) in H as (_ & Hnn & Hpos & H).
  destruct (Swq.sumSigners_inv ix signers Hwf Hex Hnn) as (Hnd & Hs & _).
  assert (Hall : ∀ s, s ∈ Swq.signing ix signers → s = src).
  { intros s (pk & Hpk & Hsrc)%Swq.elem_of_signing. eauto. }
  destruct (Swq.signing ix signers) as [|s l]; [rewrite sumZ_nil in H; lia|].
  assert (s = src) as -> by (apply Hall; set_solver).
  destruct l as [|s' l].
  - rewrite sumZ_cons, sumZ_nil in H. lia.
  - exfalso. assert (s' = src) as -> by (apply Hall; set_solver).
    apply NoDup_cons in Hnd as [Hin _]. set_solver.
Qed.

Definition sole_rows : Swq.varray :=
  Swq.VArray [VRow (Some "aa") (Some "s1") (Some "40"); VRow (Some "bb") (Some "s2") (Some "10")] false.
Definition sole_index : Swq.index :=
  Swq.Index [("s1", "40"); ("s2", "10")] (<["bb" := "s2"]> (<["aa" := "s1"]> ∅)).

Lemma stake_quorum_single_source_witness :
  2 * Swq.total (Swq.weightBySource sole_index) < 3 * Swq.stake (Swq.weightBySource sole_index) "s1".
Proof.
  refine (stake_quorum_single_source sole_rows sole_index ["aa"; "aa"] "s1" _ _ _ _).
  - vm_compute. reflexivity.
  - split; [|vm_compute; reflexivity].
    intros kv Hkv. simpl in Hkv. rewrite !elem_of_cons in Hkv.
    destruct Hkv as [-> |[-> |?%not_elem_of_nil]]; [vm_compute; lia..|done].
  - intros pk s Hpk. rewrite !elem_of_cons in Hpk.
    destruct Hpk as [-> |[-> |?%not_elem_of_nil]]; [vm_compute; by intros [= <-]..|done].
  - vm_compute. reflexivity.
Defined.

(** A malformed snapshot never finalizes: a truncated array, a blank source
    in any row, a source whose first weight is missing or not numeric, and an
    empty signer set are all refused. *)
Theorem stake_quorum_fails_closed {B : BigNumber} {L : BigNumberLaws B} va signers :
  (Swq.truncated va = true ∨
   (∃ v, v ∈ Swq.rows va ∧ Swq.blank_source v = true) ∨
   Swq.indexStakeSources va = None ∨
   (signers = [] ∧ ∀ ix, Swq.indexStakeSources va = Some ix → Swq.weights_exact (Swq.weightBySource ix))) →
  Swq.meetsStakeThreshold va signers = false.
Proof.
  unfold Swq.meetsStakeThreshold. intros [-> |[(v & Hv & Hb)|[-> |[-> Hex]]]]; [done| |by destruct (Swq.truncated va)|].
  - destruct (Swq.truncated va); [done|].
    assert (Swq.indexStakeSources va = None) as ->; [|done].
    unfold Swq.indexStakeSources. generalize (Swq.Index [] ∅).
    induction (Swq.rows va) as [|r rs IH]; intros ix; [set_solver|]. simpl.
    apply elem_of_cons in Hv as [-> |Hv]; [by rewrite Hb|].
    destruct (Swq.blank_source r); [done|]. destruct (Swq.has_source _ _); [by apply IH|].
    destruct (Swq.numeric_weight r); [by apply IH|done].
  - destruct (Swq.indexStakeSources va) as [ix|] eqn:Hix; [|by destruct (Swq.truncated va)].
    pose proof (Swq.meets_iff va ix [] Hix (Hex ix eq_refl)) as Hm.
    unfold Swq.meetsStakeThreshold in Hm. rewrite Hix in Hm.
    apply not_true_iff_false. intros (_ & _ & ? & E)%Hm. change (Swq.signing ix []) with (@nil string) in E.
    rewrite sumZ_nil in E. lia.
Qed.

Lemma stake_quorum_fails_closed_witness :
  Swq.meetsStakeThreshold (Swq.VArray [VRow (Some "aa") (Some " ") (Some "5")] false) ["aa"] = false.
Proof.
  refine (stake_quorum_fails_closed _ ["aa"] _). right; left.
  eexists. split; [apply list_elem_of_here|reflexivity].
Defined.

(** Every two count quorums over one membership share a member, and share
    more members than the number of faults the threshold is written for
    exactly when [n = 3f + 1] or [n] is 2, 3 or 6. *)
Theorem count_quorum_intersection (members votes1 votes2 : gset string) :
  2 ≤ Z.of_nat (size members) →
  votes1 ⊆ members → votes2 ⊆ members →
  let n := Z.of_nat (size members) in
  Bft.bftQuorum n ≤ Z.of_nat (size votes1) →
  Bft.bftQuorum n ≤ Z.of_nat (size votes2) →
  1 ≤ Z.of_nat (size (votes1 ∩ votes2)) ∧
  ((n mod 3 = 1 ∨ n = 2 ∨ n = 3 ∨ n = 6) →
   Bft.faults n < Z.of_nat (size (votes1 ∩ votes2))).
Proof.
  intros Hn H1 H2 n Hq1 Hq2.
  assert (size votes1 + size votes2 ≤ size members + size (votes1 ∩ votes2))%nat as Hie.
  { assert (size (votes1 ∪ votes2) ≤ size members)%nat by (apply subseteq_size; set_solver).
    rewrite size_union_alt in H.
    assert (size votes2 = size (votes2 ∖ votes1) + size (votes1 ∩ votes2))%nat; [|lia].
    rewrite <-size_union by set_solver. f_equal. apply leibniz_equiv. intros x.
    destruct (decide (x ∈ votes1)); set_solver. }
  subst n. unfold Bft.faults, Bft.bftQuorum in *. split.
  - Z.to_euclidean_division_equations. lia.
  - intros Hm. Z.to_euclidean_division_equations. lia.
Qed.

Lemma count_quorum_intersection_witness :
  Bft.faults 4 < Z.of_nat (size ({["a"; "b"; "c"]} ∩ {["b"; "c"; "d"]} : gset string)).
Proof.
  refine (proj2 (count_quorum_intersection {["a"; "b"; "c"; "d"]} {["a"; "b"; "c"]} {["b"; "c"; "d"]} _ _ _ _ _) _);
    [vm_compute; discriminate|set_solver|set_solver|vm_compute; discriminate|vm_compute; discriminate|left; reflexivity].
Defined.

(** At every other membership size two count quorums may overlap in no more
    than [f] members, so the threshold does not survive the [f] Byzantine
    members it is named for: with five members two quorums can meet in exactly
    one of them. *)
Theorem count_quorum_overlap_deficit n :
  2 ≤ n →
  (2 * Bft.bftQuorum n - n ≤ Bft.faults n ↔ n mod 3 ≠ 1 ∧ n ≠ 2 ∧ n ≠ 3 ∧ n ≠ 6) ∧
  (∃ members votes1 votes2 : gset string,
     size members = 5%nat ∧ votes1 ⊆ members ∧ votes2 ⊆ members ∧
     Bft.bftQuorum 5 ≤ Z.of_nat (size votes1) ∧ Bft.bftQuorum 5 ≤ Z.of_nat (size votes2) ∧
     Z.of_nat (size (votes1 ∩ votes2)) = Bft.faults 5).
Proof.
  intros Hn. split.
  - unfold Bft.faults, Bft.bftQuorum. Z.to_euclidean_division_equations. lia.
  - exists {["a"; "b"; "c"; "d"; "e"]}, {["a"; "b"; "c"]}, {["c"; "d"; "e"]}.
    split_and!; [reflexivity|set_solver|set_solver|vm_compute; discriminate..|reflexivity].
Qed.

Lemma count_quorum_overlap_deficit_witness : 2 * Bft.bftQuorum 8 - 8 ≤ Bft.faults 8.
Proof. apply (proj1 (count_quorum_overlap_deficit 8 ltac:(lia))). vm_compute. repeat split; discriminate. Defined.
