(* ===== verification/PbftState.v ===== *)
(** * The PBFT engine: data

    State of the [Consensus] class ([src/consensus/pbft.js]) and of the
    objects around it: the hub it reads, the proposal records, the messages
    of [src/consensus/pbft/message_types.js] and the effects a handler has. A
    proposal is an object shared by the pending map, by its timer and by the
    continuation of its apply, so proposals live in a heap under an
    allocation number and the maps hold references. *)

From S2P Require Import Prelude GateRegistry BigNum Quorum.

(** ** The hub around the engine *)

(** [validatorSet] entries. *)
Record validator := Validator { va_addr : option string; va_pubkey : option string }.

(** What the engine reads from [hub], [peerManager] and the configuration. *)
Record env := Env {
  validatorAddr : string;
  identity : option string;              (** [getIdentity().getPubkeyHex()] *)
  sign : string → string;                (** [identity.sign] *)
  network : string;
  validatorPubkeys : option (gmap string string);  (** the registry, by addr *)
  effectiveSignerSet : option (gset string);
  openPeers : Z;                         (** peers whose state is [open] *)
  seedCount : Z;                         (** non-blank [SEED_NODES] *)
  minValidators : Z;
  timeout : Z;
  snapshotToleranceBlocks : Z;
  hasCapabilitySnapshot : bool }.

(** ** Proposals *)

Record proposal := Proposal {
  p_seq : Z;              (** the [seq] its timer and its apply capture *)
  p_config : string;      (** [JSON.stringify(config)] *)
  p_digest : string;
  p_view : Z;
  p_prepares : gset string;
  p_commits : gset string;
  p_resolved : bool;
  p_applied : bool;
  p_applying : bool;
  p_commitSent : bool;
  p_client : bool;        (** carries the [resolve]/[reject] of a proposer *)
  p_snapshot : option snapshot;
  p_quorum : Z;
  p_btc : option Z;
  p_weighted : bool;
  p_validators : Swq.varray;
  p_members : option (gset string);
  p_preparePks : gset string;
  p_commitPks : gset string }.

Definition set_p_prepares v (r : proposal) : proposal := Proposal (p_seq r) (p_config r) (p_digest r) (p_view r) v (p_commits r) (p_resolved r) (p_applied r) (p_applying r) (p_commitSent r) (p_client r) (p_snapshot r) (p_quorum r) (p_btc r) (p_weighted r) (p_validators r) (p_members r) (p_preparePks r) (p_commitPks r).
Definition set_p_commits v (r : proposal) : proposal := Proposal (p_seq r) (p_config r) (p_digest r) (p_view r) (p_prepares r) v (p_resolved r) (p_applied r) (p_applying r) (p_commitSent r) (p_client r) (p_snapshot r) (p_quorum r) (p_btc r) (p_weighted r) (p_validators r) (p_members r) (p_preparePks r) (p_commitPks r).
Definition set_p_resolved v (r : proposal) : proposal := Proposal (p_seq r) (p_config r) (p_digest r) (p_view r) (p_prepares r) (p_commits r) v (p_applied r) (p_applying r) (p_commitSent r) (p_client r) (p_snapshot r) (p_quorum r) (p_btc r) (p_weighted r) (p_validators r) (p_members r) (p_preparePks r) (p_commitPks r).
Definition set_p_applied v (r : proposal) : proposal := Proposal (p_seq r) (p_config r) (p_digest r) (p_view r) (p_prepares r) (p_commits r) (p_resolved r) v (p_applying r) (p_commitSent r) (p_client r) (p_snapshot r) (p_quorum r) (p_btc r) (p_weighted r) (p_validators r) (p_members r) (p_preparePks r) (p_commitPks r).
Definition set_p_applying v (r : proposal) : proposal := Proposal (p_seq r) (p_config r) (p_digest r) (p_view r) (p_prepares r) (p_commits r) (p_resolved r) (p_applied r) v (p_commitSent r) (p_client r) (p_snapshot r) (p_quorum r) (p_btc r) (p_weighted r) (p_validators r) (p_members r) (p_preparePks r) (p_commitPks r).
Definition set_p_commitSent v (r : proposal) : proposal := Proposal (p_seq r) (p_config r) (p_digest r) (p_view r) (p_prepares r) (p_commits r) (p_resolved r) (p_applied r) (p_applying r) v (p_client r) (p_snapshot r) (p_quorum r) (p_btc r) (p_weighted r) (p_validators r) (p_members r) (p_preparePks r) (p_commitPks r).
Definition set_p_preparePks v (r : proposal) : proposal := Proposal (p_seq r) (p_config r) (p_digest r) (p_view r) (p_prepares r) (p_commits r) (p_resolved r) (p_applied r) (p_applying r) (p_commitSent r) (p_client r) (p_snapshot r) (p_quorum r) (p_btc r) (p_weighted r) (p_validators r) (p_members r) v (p_commitPks r).
Definition set_p_commitPks v (r : proposal) : proposal := Proposal (p_seq r) (p_config r) (p_digest r) (p_view r) (p_prepares r) (p_commits r) (p_resolved r) (p_applied r) (p_applying r) (p_commitSent r) (p_client r) (p_snapshot r) (p_quorum r) (p_btc r) (p_weighted r) (p_validators r) (p_members r) (p_preparePks r) v.

(** The round context a view change tallies against. *)
Record vcctx := VcCtx {
  vc_quorum : Z; vc_weighted : bool; vc_validators : Swq.varray; vc_members : option (gset string) }.

(** ** Messages

    [sender] and [sig_pubkey] are the envelope's; the numeric fields of the
    data are [None] when the wire value is absent or not an integer number, and
    an absent digest or config is the empty string. *)

Record envelope := Envelope { sender : string; sig_pubkey : option string }.

Inductive vote_kind := VPrepare | VCommit.

Record vote := Vote {
  vt_kind : vote_kind; vt_env : envelope; vt_seq : option Z; vt_digest : string }.

Record preprepare := PrePrepare {
  pp_env : envelope; pp_seq : option Z; pp_view : option Z;
  pp_digest : string; pp_config : string; pp_btc : option Z }.

(** A view message: VIEW_CHANGE or NEW_VIEW. *)
Record viewmsg := ViewMsg { vm_env : envelope; vm_view : option Z; vm_seq : option Z }.

(** ** Effects *)

Inductive effect :=
| BroadcastPrePrepare (seq view : Z) (digest config : string) (btc : option Z) (equiv : option (string * string))
| BroadcastPrepare (seq : Z) (digest : string) (equiv : option (string * string))
| BroadcastCommit (seq : Z) (digest : string) (equiv : option (string * string))
| BroadcastViewChange (view seq : Z)
| BroadcastNewView (view seq : Z)
| StartApply (pid : nat) (seq : Z) (config : string) (addrs pks : gset string)
    (** with the commit tally that started it *)
| ApplyDirect (config : string)
| Persist (pid : nat) (seq : Z)
| Settle (pid : nat) (ok : bool).

(** A PRE_PREPARE handler suspended at one of its two awaits: the indexer tip
    of the freshness bound, then the snapshot lock. *)
Inductive suspended :=
| WaitTip (m : preprepare) (federated : bool)
| WaitLock (m : preprepare).

(** ** The engine state *)

Record state := State {
  seqNo : Z;                              (** [this.seq] *)
  view : Z;
  lastAppliedSeq : Z;
  validatorSet : list validator;
  heap : gmap nat proposal;
  nextId : nat;
  pendingProposals : gmap Z nat;
  pendingViewChanges : gmap Z (gset string);
  pendingViewChangePubkeys : gmap Z (gset string);
  viewChangeQuorums : gmap Z vcctx;
  earlyVotes : list (Z * list vote);      (** a Map, in insertion order *)
  earlyVoteTtl : list (Z * Z);            (** a Map, in insertion order *)
  replayingSeq : option Z;
  opening : list (nat * suspended);       (** suspended PRE_PREPARE handlers *)
  applies : list nat;                     (** proposals whose apply is in flight *)
  out : list effect }.                    (** every effect so far, newest first *)

Definition with_seqNo v (r : state) : state := State v (view r) (lastAppliedSeq r) (validatorSet r) (heap r) (nextId r) (pendingProposals r) (pendingViewChanges r) (pendingViewChangePubkeys r) (viewChangeQuorums r) (earlyVotes r) (earlyVoteTtl r) (replayingSeq r) (opening r) (applies r) (out r).
Definition with_view v (r : state) : state := State (seqNo r) v (lastAppliedSeq r) (validatorSet r) (heap r) (nextId r) (pendingProposals r) (pendingViewChanges r) (pendingViewChangePubkeys r) (viewChangeQuorums r) (earlyVotes r) (earlyVoteTtl r) (replayingSeq r) (opening r) (applies r) (out r).
Definition with_lastAppliedSeq v (r : state) : state := State (seqNo r) (view r) v (validatorSet r) (heap r) (nextId r) (pendingProposals r) (pendingViewChanges r) (pendingViewChangePubkeys r) (viewChangeQuorums r) (earlyVotes r) (earlyVoteTtl r) (replayingSeq r) (opening r) (applies r) (out r).
Definition with_validatorSet v (r : state) : state := State (seqNo r) (view r) (lastAppliedSeq r) v (heap r) (nextId r) (pendingProposals r) (pendingViewChanges r) (pendingViewChangePubkeys r) (viewChangeQuorums r) (earlyVotes r) (earlyVoteTtl r) (replayingSeq r) (opening r) (applies r) (out r).
Definition with_heap v (r : state) : state := State (seqNo r) (view r) (lastAppliedSeq r) (validatorSet r) v (nextId r) (pendingProposals r) (pendingViewChanges r) (pendingViewChangePubkeys r) (viewChangeQuorums r) (earlyVotes r) (earlyVoteTtl r) (replayingSeq r) (opening r) (applies r) (out r).
Definition with_nextId v (r : state) : state := State (seqNo r) (view r) (lastAppliedSeq r) (validatorSet r) (heap r) v (pendingProposals r) (pendingViewChanges r) (pendingViewChangePubkeys r) (viewChangeQuorums r) (earlyVotes r) (earlyVoteTtl r) (replayingSeq r) (opening r) (applies r) (out r).
Definition with_pendingProposals v (r : state) : state := State (seqNo r) (view r) (lastAppliedSeq r) (validatorSet r) (heap r) (nextId r) v (pendingViewChanges r) (pendingViewChangePubkeys r) (viewChangeQuorums r) (earlyVotes r) (earlyVoteTtl r) (replayingSeq r) (opening r) (applies r) (out r).
Definition with_pendingViewChanges v (r : state) : state := State (seqNo r) (view r) (lastAppliedSeq r) (validatorSet r) (heap r) (nextId r) (pendingProposals r) v (pendingViewChangePubkeys r) (viewChangeQuorums r) (earlyVotes r) (earlyVoteTtl r) (replayingSeq r) (opening r) (applies r) (out r).
Definition with_pendingViewChangePubkeys v (r : state) : state := State (seqNo r) (view r) (lastAppliedSeq r) (validatorSet r) (heap r) (nextId r) (pendingProposals r) (pendingViewChanges r) v (viewChangeQuorums r) (earlyVotes r) (earlyVoteTtl r) (replayingSeq r) (opening r) (applies r) (out r).
Definition with_viewChangeQuorums v (r : state) : state := State (seqNo r) (view r) (lastAppliedSeq r) (validatorSet r) (heap r) (nextId r) (pendingProposals r) (pendingViewChanges r) (pendingViewChangePubkeys r) v (earlyVotes r) (earlyVoteTtl r) (replayingSeq r) (opening r) (applies r) (out r).
Definition with_earlyVotes v (r : state) : state := State (seqNo r) (view r) (lastAppliedSeq r) (validatorSet r) (heap r) (nextId r) (pendingProposals r) (pendingViewChanges r) (pendingViewChangePubkeys r) (viewChangeQuorums r) v (earlyVoteTtl r) (replayingSeq r) (opening r) (applies r) (out r).
Definition with_earlyVoteTtl v (r : state) : state := State (seqNo r) (view r) (lastAppliedSeq r) (validatorSet r) (heap r) (nextId r) (pendingProposals r) (pendingViewChanges r) (pendingViewChangePubkeys r) (viewChangeQuorums r) (earlyVotes r) v (replayingSeq r) (opening r) (applies r) (out r).
Definition with_replayingSeq v (r : state) : state := State (seqNo r) (view r) (lastAppliedSeq r) (validatorSet r) (heap r) (nextId r) (pendingProposals r) (pendingViewChanges r) (pendingViewChangePubkeys r) (viewChangeQuorums r) (earlyVotes r) (earlyVoteTtl r) v (opening r) (applies r) (out r).
Definition with_opening v (r : state) : state := State (seqNo r) (view r) (lastAppliedSeq r) (validatorSet r) (heap r) (nextId r) (pendingProposals r) (pendingViewChanges r) (pendingViewChangePubkeys r) (viewChangeQuorums r) (earlyVotes r) (earlyVoteTtl r) (replayingSeq r) v (applies r) (out r).
Definition with_applies v (r : state) : state := State (seqNo r) (view r) (lastAppliedSeq r) (validatorSet r) (heap r) (nextId r) (pendingProposals r) (pendingViewChanges r) (pendingViewChangePubkeys r) (viewChangeQuorums r) (earlyVotes r) (earlyVoteTtl r) (replayingSeq r) (opening r) v (out r).
Definition with_out v (r : state) : state := State (seqNo r) (view r) (lastAppliedSeq r) (validatorSet r) (heap r) (nextId r) (pendingProposals r) (pendingViewChanges r) (pendingViewChangePubkeys r) (viewChangeQuorums r) (earlyVotes r) (earlyVoteTtl r) (replayingSeq r) (opening r) (applies r) v.

Definition emit (e : effect) (s : state) : state := with_out (e :: out s) s.

(** [proposal.field = ...] through a reference. *)
Definition modify (pid : nat) (f : proposal → proposal) (s : state) : state :=
  with_heap (alter f pid (heap s)) s.

(** [this.pendingProposals.get(seq)]: the reference and the object. *)
Definition getProposal (sq : Z) (s : state) : option (nat * proposal) :=
  pid ← pendingProposals s !! sq; p ← heap s !! pid; Some (pid, p).

(** The constructor after [loadSeq] read [last]. *)
Definition initial (last : Z) (vs : list validator) : state :=
  State last 0 last vs ∅ 0 ∅ ∅ ∅ ∅ [] [] None [] [] [].

(** A value of JavaScript truthiness: the empty string is falsy. *)
Definition truthy (o : option string) : option string :=
  match o with Some s => if String.eqb s "" then None else Some s | None => None end.
