(* ===== verification/PbftEngine.v ===== *)
(** * The PBFT engine: handlers

    One definition per method of [src/consensus/pbft.js] and of its parts
    under [src/consensus/pbft/]: leader election and vote identity
    ([leader.js]), the leader's proposal ([propose.js]), the follower's
    PRE_PREPARE with its two awaits ([pre_prepare.js]), votes and the
    early-vote buffer ([votes.js]), and view changes ([view_change.js]); with
    vote admission ([src/lib/chain_signer_admission.js]), the canonical
    validator order ([src/rollcall/validator_order.js]) and the federation
    test ([src/consensus/federation.js], [pbft/federation_round.js]). A
    handler maps the state before a synchronous stretch of code to the state
    after it; its broadcasts and its started applies are appended to [out]. *)

From S2P Require Import Prelude GateRegistry BigNum Quorum PbftState.
From stdpp Require Import pretty.
Open Scope Z_scope.

(** ** Vote admission *)

Definition provenPubkey (e : envelope) : option string := toLowerCase <$> truthy (sig_pubkey e).

(** Some address of the registry is bound to the key. *)
Definition registryHasPubkey (registry : gmap string string) (pk : string) : bool :=
  existsb (λ kv, negb (String.eqb kv.2 "") && String.eqb (toLowerCase kv.2) pk) (map_to_list registry).

Definition isAdmissibleSigner (h : env) (e : envelope) : bool :=
  match validatorPubkeys h with
  | None => false
  | Some registry =>
      match provenPubkey e with
      | None => false
      | Some pk =>
          if match effectiveSignerSet h with Some cs => bool_decide (pk ∈ cs) | None => false end then true
          else if registryHasPubkey registry pk then true
          else if bool_decide (registry = ∅)
               then negb (match effectiveSignerSet h with Some cs => negb (bool_decide (cs = ∅)) | None => false end)
               else false
      end
  end.

Definition isKnownSender (h : env) (e : envelope) : bool := isAdmissibleSigner h e.

(** ** The canonical validator order *)

Definition sort_key (v : validator) : string * string :=
  (toLowerCase (default "" (va_pubkey v)), default "" (va_addr v)).

(** The comparator: key ascending, then address ascending. *)
Definition validator_le (a b : validator) : Prop :=
  let '(pa, aa) := sort_key a in
  let '(pb, ab) := sort_key b in
  (pa ≠ pb ∧ String.le pa pb) ∨ (pa = pb ∧ String.le aa ab).

#[export] Instance validator_le_dec : RelDecision validator_le.
Proof. intros a b. unfold validator_le. destruct (sort_key a), (sort_key b). apply _. Defined.

Definition canonicalValidatorOrder (vs : list validator) : list validator := merge_sort validator_le vs.

Definition setValidatorSet (vs : list validator) (s : state) : state :=
  with_validatorSet (canonicalValidatorOrder vs) s.

(** ** The federation test *)

(** [isFederatedHub] on the four live signals. *)
Definition isFederatedHub (minValidators validators peers seeds : Z) : bool :=
  (1 <? minValidators) || (1 <? validators) || (0 <? peers) || (0 <? seeds).

(** [isFederated] in the async context of a round: [None] outside any round,
    [Some height] inside one. *)
Definition isFederated (h : env) (round : option (option Z)) (s : state) : bool :=
  if (1 <? minValidators h) || (1 <? Z.of_nat (length (validatorSet s))) then true
  else match round with
       | None => false
       | Some height =>
           isFederatedHubActive (network h) height &&
           isFederatedHub (minValidators h) (Z.of_nat (length (validatorSet s))) (openPeers h) (seedCount h)
       end.

(** ** Snapshots *)

Definition hasDeterministicSnapshot (sn : option snapshot) : bool :=
  match sn with Some _ => true | None => false end.

Definition isEmptySnapshot (sn : option snapshot) : bool :=
  match sn with Some sn => bool_decide (sn_validators sn = []) | None => false end.

Definition isEmptyFederationSnapshot (h : env) (round : option (option Z)) (s : state) (sn : option snapshot) : bool :=
  isFederated h round s && isEmptySnapshot sn.

Definition selfPubkey (h : env) : option string := toLowerCase <$> truthy (identity h).

Definition isNonMemberSnapshot (h : env) (round : option (option Z)) (s : state) (sn : option snapshot) : bool :=
  match sn with
  | None => false
  | Some sn =>
      isFederated h round s && negb (bool_decide (sn_validators sn = [])) &&
      match selfPubkey h with
      | None => true
      | Some self => negb (existsb (λ v, String.eqb (toLowerCase (js_String (v_pubkey v))) self) (sn_validators sn))
      end
  end.

(** The result of [lockSnapshot]. *)
Record lock := Lock { lk_snapshot : option snapshot; lk_weighted : bool; lk_requested : option Z }.

(** [lockSnapshot(override)]: [tip] is what [resolveBtcLatestBlock] answers and
    [fetch] what the capability snapshot service answers for a mode and height. *)
Definition lockSnapshot (h : env) (tip : option Z) (fetch : bool → Z → option snapshot) (override : option Z) : lock :=
  if negb (hasCapabilitySnapshot h) then Lock None false None
  else match (match override with Some b => Some b | None => tip end) with
       | None => Lock None false None
       | Some b =>
           if b =? 0 then Lock None false None
           else let weighted := isStakeWeightedQuorumActive (Some b) (network h) in
                Lock (fetch weighted b) weighted (Some b)
       end.

(** The height [lockSnapshot] notes on the round it runs in. *)
Definition notedHeight (h : env) (tip override : option Z) : option Z :=
  if negb (hasCapabilitySnapshot h) then override
  else match override with Some b => Some b | None => tip end.

(** The live count quorum. *)
Definition getQuorum (h : env) (s : state) : Z :=
  let N := if (0 <? Z.of_nat (length (validatorSet s))) then Z.of_nat (length (validatorSet s))
           else openPeers h + 1 in
  Bft.bftQuorumOrSingle N 0.

(** ** Leader election and vote identity *)

Definition normalizeRow (v : vrow) : vrow :=
  VRow (Some (toLowerCase (js_String (v_pubkey v)))) (Some (default "" (v_source v))) (Some (default "0" (v_weight v))).

Definition normalizeValidators (sn : option snapshot) (weighted : bool) : Swq.varray :=
  match sn with
  | Some sn => if weighted then Swq.VArray (normalizeRow <$> sn_validators sn) (sn_truncated sn)
               else Swq.VArray [] false
  | None => Swq.VArray [] false
  end.

Definition member_keys (vs : list vrow) : gset string :=
  list_to_set (omap (λ v, toLowerCase <$> truthy (v_pubkey v)) vs).

Definition memberPubkeySet (sn : option snapshot) : option (gset string) :=
  match sn with
  | None => None
  | Some sn => let set := member_keys (sn_validators sn) in
               if bool_decide (set = ∅) then None else Some set
  end.

Definition addrForPubkey (h : env) (s : state) (pubkey : option string) : option string :=
  match pubkey with
  | None => None
  | Some pk =>
      match find (λ v, match truthy (va_pubkey v) with Some k => String.eqb (toLowerCase k) pk | None => false end)
                 (validatorSet s) with
      | Some v => va_addr v
      | None =>
          match sort_strings (omap (λ kv : string * string,
                   if negb (String.eqb kv.2 "") && String.eqb (toLowerCase kv.2) pk then Some kv.1 else None)
                   (map_to_list (default ∅ (validatorPubkeys h)))) with
          | a :: _ => Some a
          | [] => match identity h with
                  | Some id => if String.eqb (toLowerCase id) pk then Some (validatorAddr h) else None
                  | None => None
                  end
          end
      end
  end.

(** A leader: a live validator or an elected member key with its local addr. *)
Record leader := Leader { l_addr : option string; l_pubkey : option string }.

Definition isLeaderIdentity (l : option leader) (addr : string) (pubkey : option string) : bool :=
  match l with
  | None => false
  | Some l =>
      if match truthy (l_addr l) with Some a => String.eqb a addr | None => false end then true
      else match truthy (l_pubkey l), truthy pubkey with
           | Some lpk, Some pk => String.eqb (toLowerCase lpk) pk
           | _, _ => false
           end
  end.

(** [l[i % l.length]] with JavaScript's remainder: a negative index is no
    element. *)
Definition rotation {A} (l : list A) (i : Z) : option A :=
  let r := Z.rem i (Z.of_nat (length l)) in
  if r <? 0 then None else l !! Z.to_nat r.

Definition leaderAt (h : env) (s : state) (sq vw : Z) (members : option (gset string)) : option leader :=
  match members with
  | Some ms =>
      if bool_decide (ms = ∅)
      then (fun v => Leader (va_addr v) (va_pubkey v)) <$> rotation (validatorSet s) (sq + vw)
      else let pubkey := rotation (sort_strings (elements ms)) (sq + vw) in
           Some (Leader (addrForPubkey h s pubkey) pubkey)
  | None => (fun v => Leader (va_addr v) (va_pubkey v)) <$> rotation (validatorSet s) (sq + vw)
  end.

Definition getLeader (h : env) (s : state) (sq : Z) (members : option (gset string)) : option leader :=
  leaderAt h s sq (view s) members.

Definition isLeader (h : env) (s : state) (sq : Z) (members : option (gset string)) : bool :=
  isLeaderIdentity (getLeader h s sq members) (validatorAddr h) (selfPubkey h).

Definition resolveSenderPubkey (h : env) (e : envelope) : option string :=
  match truthy (sig_pubkey e) with
  | Some pk => Some (toLowerCase pk)
  | None => match validatorPubkeys h with
            | Some registry => toLowerCase <$> truthy (registry !! sender e)
            | None => None
            end
  end.

Definition leaderIdentityOk (h : env) (s : state) (sq vw : Z) (e : envelope) (members : option (gset string)) : bool :=
  match leaderAt h s sq vw members with
  | None => false
  | Some l => isLeaderIdentity (Some l) (sender e) (resolveSenderPubkey h e)
  end.

Definition memberPubkeysForSeq (sq : Z) (s : state) : option (gset string) :=
  match getProposal sq s ≫= (λ pp, p_members pp.2) with
  | Some ms => Some ms
  | None => viewChangeQuorums s !! sq ≫= vc_members
  end.

(** Add this hub's own key to a vote set. *)
Definition addSelfPubkey (h : env) (pks : gset string) : gset string :=
  match identity h with Some id => {[toLowerCase id]} ∪ pks | None => pks end.

Definition add_key (pk : option string) (pks : gset string) : gset string :=
  match pk with Some k => {[k]} ∪ pks | None => pks end.

(** The durable vote signature, absent below the header's activation. *)
Definition equivVote (h : env) (sq vw : Z) (digest : string) (btc : option Z) : option (string * string) :=
  if isEquivHeaderActive btc (network h) then
    match identity h, btc with
    | Some id, Some b =>
        Some (sign h (buildEquivCanonical "XCONFIG" (pretty sq) (pretty vw) (pretty b +:+ "|" +:+ digest)),
              toLowerCase id)
    | _, _ => None
    end
  else None.

Section Engine.
Context {B : BigNumber} (sha256 : string → string).

(** [digest]: sha256 of the JSON text of the config. *)
Definition digest (config : string) : string := sha256 config.

(** [quorumMet]: stake in a weighted round, else distinct keys, or distinct
    addresses while no vote carries a key. *)
Definition quorumMet (weighted : bool) (validators : Swq.varray) (quorum : Z) (addrs pks : gset string) : bool :=
  if weighted then Swq.meetsStakeThreshold validators (elements pks)
  else let keyed := Z.of_nat (size pks) in
       quorum <=? (if 0 <? keyed then keyed else Z.of_nat (size addrs)).

Definition proposalQuorumMet (p : proposal) (addrs pks : gset string) : bool :=
  quorumMet (p_weighted p) (p_validators p) (p_quorum p) addrs pks.

(** ** Votes *)

Definition checkCommitQuorum (h : env) (sq : Z) (s : state) : state :=
  match getProposal sq s with
  | None => s
  | Some (pid, p) =>
      if p_applied p || p_applying p then s
      else if proposalQuorumMet p (p_commits p) (p_commitPks p)
      then emit (StartApply pid sq (p_config p) (p_commits p) (p_commitPks p))
             (with_applies (pid :: applies s) (modify pid (set_p_applying true) s))
      else s
  end.

Definition checkPrepareQuorum (h : env) (sq : Z) (s : state) : state :=
  match getProposal sq s with
  | None => s
  | Some (pid, p) =>
      if p_resolved p then s
      else if proposalQuorumMet p (p_prepares p) (p_preparePks p) then
        if p_commitSent p then s
        else
          let s := modify pid (λ p, set_p_commitPks (addSelfPubkey h (p_commitPks p))
                     (set_p_commits ({[validatorAddr h]} ∪ p_commits p) (set_p_commitSent true p))) s in
          let s := emit (BroadcastCommit sq (p_digest p)
                           (equivVote h sq (p_view p) (p_digest p) (p_btc p))) s in
          checkCommitQuorum h sq s
      else s
  end.

(** *** The early-arrival buffer *)

Definition EARLY_VOTE_MAX_SEQS : nat := 64.
Definition EARLY_VOTE_MAX_PER_SEQ : nat := 64.

(** Insertion-ordered [Map] operations. *)
Definition omap_get {V} (k : Z) (m : list (Z * V)) : option V := snd <$> find (λ kv, kv.1 =? k) m.
Definition omap_delete {V} (k : Z) (m : list (Z * V)) : list (Z * V) := filter (λ kv, kv.1 ≠ k) m.
Fixpoint omap_set {V} (k : Z) (v : V) (m : list (Z * V)) : list (Z * V) :=
  match m with
  | [] => [(k, v)]
  | kv :: m => if kv.1 =? k then (k, v) :: m else kv :: omap_set k v m
  end.

Definition dropEarly (k : Z) (s : state) : state :=
  with_earlyVoteTtl (omap_delete k (earlyVoteTtl s)) (with_earlyVotes (omap_delete k (earlyVotes s)) s).

Definition pruneEarlyVotes (now : Z) (s : state) : state :=
  fold_left (λ s kv, if (kv.2 <=? now) || (kv.1 <=? lastAppliedSeq s) then dropEarly kv.1 s else s)
    (earlyVoteTtl s) s.

(** The eviction loop: drop the oldest key while the map is full. *)
Fixpoint evictOldest (fuel : nat) (s : state) : state :=
  match fuel with
  | O => s
  | S f => match earlyVotes s with
           | (oldest, _) :: _ =>
               if (EARLY_VOTE_MAX_SEQS <=? length (earlyVotes s))%nat
               then evictOldest f (dropEarly oldest s) else s
           | [] => s
           end
  end.

Definition bufferEarlyVote (h : env) (now : Z) (v : vote) (s : state) : state * bool :=
  match vt_seq v with
  | None => (s, false)
  | Some sq =>
      if sq <=? 0 then (s, false)
      else if sq <=? lastAppliedSeq s then (s, false)
      else if bool_decide (replayingSeq s = Some sq) then (s, false)
      else
        let s := pruneEarlyVotes now s in
        let '(s, bucket) :=
          match omap_get sq (earlyVotes s) with
          | Some b => (s, b)
          | None => let s := evictOldest (length (earlyVotes s)) s in
                    (with_earlyVotes (omap_set sq [] (earlyVotes s)) s, [])
          end in
        if (EARLY_VOTE_MAX_PER_SEQ <=? length bucket)%nat then (s, false)
        else (with_earlyVoteTtl (omap_set sq (now + timeout h) (earlyVoteTtl s))
                (with_earlyVotes (omap_set sq (bucket ++ [v]) (earlyVotes s)) s), true)
  end.

Definition handlePrepare (h : env) (now : Z) (v : vote) (s : state) : state :=
  match vt_seq v with
  | None => s
  | Some sq =>
      if (sq =? 0) || String.eqb (vt_digest v) "" then s
      else if negb (isKnownSender h (vt_env v)) then s
      else match getProposal sq s with
           | None => (bufferEarlyVote h now v s).1
           | Some (pid, p) =>
               if negb (String.eqb (vt_digest v) (p_digest p)) then s
               else checkPrepareQuorum h sq
                 (modify pid (λ p, set_p_preparePks (add_key (resolveSenderPubkey h (vt_env v)) (p_preparePks p))
                            (set_p_prepares ({[sender (vt_env v)]} ∪ p_prepares p) p)) s)
           end
  end.

Definition handleCommit (h : env) (now : Z) (v : vote) (s : state) : state :=
  match vt_seq v with
  | None => s
  | Some sq =>
      if (sq =? 0) || String.eqb (vt_digest v) "" then s
      else if negb (isKnownSender h (vt_env v)) then s
      else match getProposal sq s with
           | None => (bufferEarlyVote h now v s).1
           | Some (pid, p) =>
               if negb (String.eqb (vt_digest v) (p_digest p)) then s
               else checkCommitQuorum h sq
                 (modify pid (λ p, set_p_commitPks (add_key (resolveSenderPubkey h (vt_env v)) (p_commitPks p))
                            (set_p_commits ({[sender (vt_env v)]} ∪ p_commits p) p)) s)
           end
  end.

(** The vote half of the dispatch in [handleMessage]. *)
Definition handleVote (h : env) (now : Z) (v : vote) (s : state) : state :=
  match vt_kind v with
  | VPrepare => handlePrepare h now v s
  | VCommit => handleCommit h now v s
  end.

Definition replayEarlyVotes (h : env) (now : Z) (sq : Z) (s : state) : state :=
  match omap_get sq (earlyVotes s) with
  | None | Some [] => s
  | Some bucket =>
      let s := with_replayingSeq (Some sq) (dropEarly sq s) in
      with_replayingSeq None (fold_left (λ s v, handleVote h now v s) bucket s)
  end.

(** [persistAppliedRound]: the apply and the seq write both succeeded. *)
Definition persistAppliedRound (pid : nat) (s : state) : state :=
  match heap s !! pid with
  | None => s
  | Some p =>
      let s := emit (Persist pid (p_seq p)) s in
      let s := modify pid (set_p_applied true) s in
      let s := with_lastAppliedSeq (Z.max (lastAppliedSeq s) (p_seq p)) s in
      let s := if negb (p_resolved p) && p_client p
               then emit (Settle pid true) (modify pid (set_p_resolved true) s) else s in
      with_pendingProposals (delete (p_seq p) (pendingProposals s)) s
  end.

(** [unlockFailedApply]: either half failed. *)
Definition unlockFailedApply (pid : nat) (s : state) : state :=
  match heap s !! pid with
  | None => s
  | Some p =>
      let s := modify pid (set_p_applying false) s in
      if negb (p_resolved p) && p_client p
      then with_pendingProposals (delete (p_seq p) (pendingProposals s))
             (emit (Settle pid false) (modify pid (set_p_resolved true) s))
      else s
  end.

(** The continuation of an apply in flight. *)
Definition finishApply (pid : nat) (ok : bool) (s : state) : state :=
  if bool_decide (pid ∈ applies s)
  then let s := with_applies (filter (λ q, q ≠ pid) (applies s)) s in
       if ok then persistAppliedRound pid s else unlockFailedApply pid s
  else s.

(** ** Opening a round *)

(** Allocate a proposal and make it the pending one of its seq. *)
Definition openRound (p : proposal) (s : state) : state :=
  let pid := nextId s in
  with_nextId (S pid)
    (with_pendingProposals (<[p_seq p := pid]> (pendingProposals s))
       (with_heap (<[pid := p]> (heap s)) s)).

(** *** The leader *)

Inductive propose_error :=
| NoDeterministicSnapshot | EmptySnapshot | NonMemberSnapshot | NotTheLeader (sq : Z).

(** [proposeRoundQuorum]: [Ok None] is the single-node apply. *)
Definition proposeRoundQuorum (h : env) (round : option (option Z)) (s : state) (lk : lock)
    : result propose_error (option (bool * Z)) :=
  let sn := lk_snapshot lk in
  if isFederated h round s && negb (hasDeterministicSnapshot sn) then Err NoDeterministicSnapshot
  else
    let weighted := lk_weighted lk && hasDeterministicSnapshot sn && negb (isEmptySnapshot sn) in
    let quorum := match sn with Some sn => snapshotQuorum sn | None => getQuorum h s end in
    if quorum =? 0 then
      if isEmptyFederationSnapshot h round s sn then Err EmptySnapshot
      else if isNonMemberSnapshot h round s sn then Err NonMemberSnapshot
      else Ok None
    else Ok (Some (weighted, quorum)).

Definition buildLeaderProposal (h : env) (s : state) (sq : Z) (config : string) (lk : lock)
    (weighted : bool) (quorum : Z) (members : option (gset string)) : proposal :=
  Proposal sq config (digest config) (view s) {[validatorAddr h]} ∅ false false false false true
    (lk_snapshot lk) quorum (match lk_snapshot lk with Some _ => lk_requested lk | None => None end)
    weighted (normalizeValidators (lk_snapshot lk) weighted) members
    (addSelfPubkey h ∅) ∅.

Definition openLeaderRound (h : env) (s : state) (sq : Z) (config : string) (lk : lock)
    (weighted : bool) (quorum : Z) (members : option (gset string)) : state :=
  let p := buildLeaderProposal h s sq config lk weighted quorum members in
  let s := openRound p s in
  let s := emit (BroadcastPrePrepare sq (view s) (p_digest p) config (p_btc p)
                   (equivVote h sq (view s) (p_digest p) (p_btc p))) s in
  checkPrepareQuorum h sq s.

(** [propose], from the return of its snapshot lock on. *)
Definition propose (h : env) (config : string) (tip : option Z) (fetch : bool → Z → option snapshot) (s : state)
    : state * result propose_error bool :=
  let lk := lockSnapshot h tip fetch None in
  let round := Some (notedHeight h tip None) in
  match proposeRoundQuorum h round s lk with
  | Err e => (s, Err e)
  | Ok None => (emit (ApplyDirect config) s, Ok true)
  | Ok (Some (weighted, quorum)) =>
      let members := memberPubkeySet (lk_snapshot lk) in
      let nextSeq := Z.max (seqNo s) (lastAppliedSeq s) + 1 in
      let l := getLeader h s nextSeq members in
      if match l with Some _ => negb (isLeaderIdentity l (validatorAddr h) (selfPubkey h)) | None => false end
      then (with_seqNo nextSeq s, Err (NotTheLeader nextSeq))
      else (openLeaderRound h (with_view 0 (with_seqNo nextSeq s)) nextSeq config lk weighted quorum members, Ok true)
  end.

(** *** The follower *)

Definition prePrepareAdmissible (h : env) (m : preprepare) (s : state) : bool :=
  match pp_seq m with
  | None => false
  | Some sq =>
      negb (sq =? 0) && negb (String.eqb (pp_digest m) "") && negb (String.eqb (pp_config m) "") &&
      (0 <? sq) && isKnownSender h (pp_env m) &&
      match pp_view m with Some _ => true | None => false end &&
      (lastAppliedSeq s <? sq) && String.eqb (digest (pp_config m)) (pp_digest m)
  end.

Definition stampedHeightUsable (h : env) (round : option (option Z)) (s : state) (btc : option Z) : bool :=
  negb (isFederated h round s && match btc with Some b => b <=? 0 | None => true end).

(** [Number(null)] is 0, so a tip the indexer did not answer is compared as
    height 0; an absent height is NaN, and no comparison with NaN holds. *)
Definition tipBoundOk (h : env) (btc myTip : option Z) : bool :=
  match btc with
  | Some b => negb (snapshotToleranceBlocks h <? Z.abs (default 0 myTip - b))
  | None => true
  end.

Definition followerRoundQuorum (h : env) (round : option (option Z)) (s : state) (m : preprepare)
    (sq vw : Z) (lk : lock) : option (Z * bool) :=
  let sn := lk_snapshot lk in
  if isFederated h round s && negb (hasDeterministicSnapshot sn) then None
  else
    let weighted := lk_weighted lk && hasDeterministicSnapshot sn && negb (isEmptySnapshot sn) in
    let quorum := match sn with Some sn => snapshotQuorum sn | None => getQuorum h s end in
    if isEmptyFederationSnapshot h round s sn then None
    else if (quorum =? 0) && isNonMemberSnapshot h round s sn then None
    else if negb (leaderIdentityOk h s sq vw (pp_env m) (memberPubkeySet sn)) then None
    else Some (quorum, weighted).

Definition buildFollowerProposal (m : preprepare) (sq vw : Z) (lk : lock) (weighted : bool) (quorum : Z) : proposal :=
  Proposal sq (pp_config m) (pp_digest m) vw ∅ ∅ false false false false false
    (lk_snapshot lk) quorum (match pp_btc m with Some b => if b =? 0 then None else Some b | None => None end)
    weighted (normalizeValidators (lk_snapshot lk) weighted) (memberPubkeySet (lk_snapshot lk)) ∅ ∅.

Definition openFollowerRound (m : preprepare) (sq vw : Z) (lk : lock) (weighted : bool) (quorum : Z) (s : state) : state :=
  openRound (buildFollowerProposal m sq vw lk weighted quorum) s.

(** [castPrepare]: vote on the open round, then drain the early votes. *)
Definition castPrepare (h : env) (now : Z) (m : preprepare) (sq : Z) (s : state) : state :=
  match getProposal sq s with
  | None => s
  | Some (pid, p) =>
      if negb (String.eqb (p_digest p) (pp_digest m)) then s
      else
        let s := modify pid (λ p,
            set_p_preparePks (addSelfPubkey h (add_key (resolveSenderPubkey h (pp_env m)) (p_preparePks p)))
              (set_p_prepares ({[validatorAddr h]} ∪ ({[sender (pp_env m)]} ∪ p_prepares p)) p)) s in
        let s := emit (BroadcastPrepare sq (pp_digest m)
                         (equivVote h sq (p_view p) (p_digest p) (p_btc p))) s in
        replayEarlyVotes h now sq (checkPrepareQuorum h sq s)
  end.

(** [handlePrePrepare] up to its first await. The height of the message is the
    round context of the whole handler. *)
Definition handlePrePrepare (h : env) (now : Z) (m : preprepare) (s : state) : state :=
  match pp_seq m, pp_view m with
  | Some sq, Some vw =>
      if negb (prePrepareAdmissible h m s) then s
      else match getProposal sq s with
           | None =>
               if negb (stampedHeightUsable h (Some (pp_btc m)) s (pp_btc m)) then s
               else if isFederated h (Some (pp_btc m)) s
               then with_nextId (S (nextId s)) (with_opening ((nextId s, WaitTip m true) :: opening s) s)
               else with_nextId (S (nextId s)) (with_opening ((nextId s, WaitLock m) :: opening s) s)
           | Some (_, p) =>
               if leaderIdentityOk h s sq vw (pp_env m) (p_members p)
               then castPrepare h now m sq s else s
           end
  | _, _ => s
  end.

Definition takeSuspended (k : nat) (s : state) : option (suspended * state) :=
  match find (λ kv, (kv.1 =? k)%nat) (opening s) with
  | Some (_, su) => Some (su, with_opening (filter (λ kv, kv.1 ≠ k) (opening s)) s)
  | None => None
  end.

(** The tip answered: the freshness bound, then the snapshot lock is asked for. *)
Definition resumeTip (h : env) (k : nat) (tip : option Z) (s : state) : state :=
  match takeSuspended k s with
  | Some (WaitTip m _, s') =>
      if tipBoundOk h (pp_btc m) tip
      then with_opening ((k, WaitLock m) :: opening s') s' else s'
  | _ => s
  end.

(** The snapshot lock answered: open the round and vote. *)
Definition resumeLock (h : env) (now : Z) (k : nat) (tip : option Z) (fetch : bool → Z → option snapshot) (s : state) : state :=
  match takeSuspended k s with
  | Some (WaitLock m, s') =>
      match pp_seq m, pp_view m with
      | Some sq, Some vw =>
          let lk := lockSnapshot h tip fetch (pp_btc m) in
          let round := Some (notedHeight h tip (pp_btc m)) in
          match followerRoundQuorum h round s' m sq vw lk with
          | None => s'
          | Some (quorum, weighted) =>
              castPrepare h now m sq (openFollowerRound m sq vw lk weighted quorum s')
          end
      | _, _ => s'
      end
  | _ => s
  end.

(** ** View changes *)

Definition MAX_VIEW_SKEW : Z := 100.

Definition viewChangeContext (h : env) (round : option (option Z)) (sq : Z) (s : state) : vcctx :=
  match getProposal sq s with
  | Some (_, p) => VcCtx (p_quorum p) (p_weighted p) (p_validators p) (p_members p)
  | None =>
      match viewChangeQuorums s !! sq with
      | Some c => c
      | None =>
          if isFederated h round s then VcCtx 0 false (Swq.VArray [] false) None
          else VcCtx (getQuorum h s) false (Swq.VArray [] false) None
      end
  end.

Definition acceptViewChange (h : env) (vw sq : Z) (c : vcctx) (s : state) : state :=
  let s := with_view vw s in
  let s := if isLeaderIdentity (getLeader h s sq (vc_members c)) (validatorAddr h) (selfPubkey h)
           then emit (BroadcastNewView vw sq) s else s in
  let s := with_pendingViewChanges (delete vw (pendingViewChanges s)) s in
  let s := with_pendingViewChangePubkeys (delete vw (pendingViewChangePubkeys s)) s in
  let s := with_viewChangeQuorums (delete sq (viewChangeQuorums s)) s in
  let s := with_pendingViewChanges (filter (λ kv, view s ≤ kv.1) (pendingViewChanges s)) s in
  with_pendingViewChangePubkeys (filter (λ kv, view s ≤ kv.1) (pendingViewChangePubkeys s)) s.

Definition handleViewChange (h : env) (round : option (option Z)) (m : viewmsg) (s : state) : state :=
  match vm_view m, vm_seq m with
  | Some vw, Some sq =>
      if (vw <? view s) || (view s + MAX_VIEW_SKEW <? vw) then s
      else if negb (isKnownSender h (vm_env m)) then s
      else
        let addrs := {[sender (vm_env m)]} ∪ default ∅ (pendingViewChanges s !! vw) in
        let s := with_pendingViewChanges (<[vw := addrs]> (pendingViewChanges s)) s in
        let c := viewChangeContext h round sq s in
        if vc_quorum c =? 0 then s
        else
          let pks := add_key (resolveSenderPubkey h (vm_env m)) (default ∅ (pendingViewChangePubkeys s !! vw)) in
          let s := with_pendingViewChangePubkeys (<[vw := pks]> (pendingViewChangePubkeys s)) s in
          if quorumMet (vc_weighted c) (vc_validators c) (vc_quorum c) addrs pks
          then acceptViewChange h vw sq c s else s
  | _, _ => s
  end.

Definition handleNewView (h : env) (m : viewmsg) (s : state) : state :=
  match vm_view m, vm_seq m with
  | Some vw, Some sq =>
      if vw <=? view s then s
      else match leaderAt h s sq vw (memberPubkeysForSeq sq s) with
           | None => s
           | Some l => if isLeaderIdentity (Some l) (sender (vm_env m)) (resolveSenderPubkey h (vm_env m))
                       then with_view vw s else s
           end
  | _, _ => s
  end.

Definition initiateViewChange (h : env) (sq : Z) (c : vcctx) (s : state) : state :=
  let s := with_view (view s + 1) s in
  let s := with_viewChangeQuorums
             (<[sq := c]> (filter (λ kv, lastAppliedSeq s < kv.1) (viewChangeQuorums s))) s in
  let s := emit (BroadcastViewChange (view s) sq) s in
  let s := with_pendingViewChanges
             (<[view s := {[validatorAddr h]} ∪ default ∅ (pendingViewChanges s !! view s)]> (pendingViewChanges s)) s in
  if vc_weighted c
  then with_pendingViewChangePubkeys
         (<[view s := addSelfPubkey h (default ∅ (pendingViewChangePubkeys s !! view s))]>
            (pendingViewChangePubkeys s)) s
  else s.

(** ** Timers *)

(** The timeout a leader's round arms. *)
Definition leaderTimeout (h : env) (pid : nat) (s : state) : state :=
  match heap s !! pid with
  | None => s
  | Some p =>
      if negb (p_client p) || p_resolved p then s
      else
        let s := modify pid (set_p_resolved true) s in
        let s := with_pendingProposals (delete (p_seq p) (pendingProposals s)) s in
        let s := initiateViewChange h (p_seq p)
                   (VcCtx (p_quorum p) (p_weighted p) (p_validators p) (p_members p)) s in
        emit (Settle pid false) s
  end.

(** The expiry a follower's round arms. *)
Definition followerTimeout (pid : nat) (s : state) : state :=
  match heap s !! pid with
  | None => s
  | Some p =>
      if p_client p || p_resolved p then s
      else with_pendingProposals (delete (p_seq p) (pendingProposals s)) (modify pid (set_p_resolved true) s)
  end.

End Engine.
