(* ===== verification/PbftInv.v ===== *)
(** * The PBFT engine: runs and invariants

    The events a hub's engine reacts to, in any interleaving, and what every
    reachable state satisfies: references are live, an apply is in flight
    exactly while its proposal says so, every started apply had a commit
    quorum, and the early-vote buffer is bounded. *)

From S2P Require Import Prelude GateRegistry BigNum Quorum PbftState PbftEngine.

Section Runs.
Context {B : BigNumber} (sha256 : string → string).

(** ** Runs *)

Inductive event :=
| EvSetValidators (vs : list validator)
| EvPropose (config : string) (tip : option Z) (fetch : bool → Z → option snapshot)
| EvPrePrepare (now : Z) (m : preprepare)
| EvResumeTip (k : nat) (tip : option Z)
| EvResumeLock (now : Z) (k : nat) (tip : option Z) (fetch : bool → Z → option snapshot)
| EvVote (now : Z) (v : vote)
| EvViewChange (round : option (option Z)) (m : viewmsg)
| EvNewView (m : viewmsg)
| EvFinish (pid : nat) (ok : bool)
| EvLeaderTimeout (pid : nat)
| EvFollowerTimeout (pid : nat).

(** One event, against the hub as it is when the event is handled. *)
Definition handle (h : env) (e : event) (s : state) : state :=
  match e with
  | EvSetValidators vs => setValidatorSet vs s
  | EvPropose config tip fetch => (propose sha256 h config tip fetch s).1
  | EvPrePrepare now m => handlePrePrepare sha256 h now m s
  | EvResumeTip k tip => resumeTip h k tip s
  | EvResumeLock now k tip fetch => resumeLock h now k tip fetch s
  | EvVote now v => handleVote h now v s
  | EvViewChange round m => handleViewChange h round m s
  | EvNewView m => handleNewView h m s
  | EvFinish pid ok => finishApply pid ok s
  | EvLeaderTimeout pid => leaderTimeout h pid s
  | EvFollowerTimeout pid => followerTimeout pid s
  end.

Definition run (l : list (env * event)) (s : state) : state := fold_left (λ s he, handle he.1 he.2 s) l s.

Inductive reachable : state → Prop :=
| reach_init last vs : reachable (initial last vs)
| reach_step h e s : reachable s → reachable (handle h e s).

Lemma reachable_run l s : reachable s → reachable (run l s).
Proof.
  revert s. induction l as [|[h e] l IH]; intros s Hs; simpl; [done|].
  apply IH. by constructor.
Qed.

End Runs.

Section Inv.
Context {B : BigNumber}.

(** ** The round invariant *)

Definition is_persist (pid : nat) (e : effect) : bool :=
  match e with Persist q _ => (q =? pid)%nat | _ => false end.

(** How many times the round of [pid] was persisted as applied. *)
Definition persists (pid : nat) (l : list effect) : nat :=
  length (filter (λ e, is_persist pid e = true) l).

(** Effects that carry no obligation of their own. *)
Definition quiet (e : effect) : Prop :=
  match e with
  | Persist _ _ | StartApply _ _ _ _ _ | BroadcastCommit _ _ _ => False
  | _ => True
  end.

(** A proposal of [s] is what the continuation of [pid]'s apply captured. *)
Definition started (s : state) (pid : nat) (sq : Z) : Prop :=
  ∃ cfg addrs pks, StartApply pid sq cfg addrs pks ∈ out s.

Record hinv (s : state) : Prop := {
  hi_pending sq pid : pendingProposals s !! sq = Some pid →
    ∃ p, heap s !! pid = Some p ∧ p_seq p = sq;
  hi_fresh pid : is_Some (heap s !! pid) → (pid < nextId s)%nat;
  hi_nodup : NoDup (applies s);
  hi_applies pid : pid ∈ applies s →
    ∃ p, heap s !! pid = Some p ∧ p_applying p = true ∧ p_applied p = false ∧ started s pid (p_seq p);
  hi_persist pid : persists pid (out s) =
    match heap s !! pid with Some p => if p_applied p then 1%nat else 0%nat | None => 0%nat end;
  hi_persisted pid sq : Persist pid sq ∈ out s → started s pid sq ∧ sq ≤ lastAppliedSeq s;
  hi_start pid sq cfg addrs pks : StartApply pid sq cfg addrs pks ∈ out s →
    ∃ p, heap s !! pid = Some p ∧ p_seq p = sq ∧ p_config p = cfg ∧
      proposalQuorumMet p addrs pks = true ∧ addrs ⊆ p_commits p ∧ pks ⊆ p_commitPks p;
  hi_commit sq d eq : BroadcastCommit sq d eq ∈ out s →
    ∃ pid p addrs pks, heap s !! pid = Some p ∧ p_seq p = sq ∧ p_digest p = d ∧ p_commitSent p = true ∧
      proposalQuorumMet p addrs pks = true ∧ addrs ⊆ p_prepares p ∧ pks ⊆ p_preparePks p }.

(** A change of a proposal that keeps what its round was opened with and only
    adds votes. *)
Record keeps (p q : proposal) : Prop := {
  k_seq : p_seq q = p_seq p;
  k_config : p_config q = p_config p;
  k_digest : p_digest q = p_digest p;
  k_weighted : p_weighted q = p_weighted p;
  k_validators : p_validators q = p_validators p;
  k_quorum : p_quorum q = p_quorum p;
  k_sent : p_commitSent p = true → p_commitSent q = true;
  k_prepares : p_prepares p ⊆ p_prepares q;
  k_preparePks : p_preparePks p ⊆ p_preparePks q;
  k_commits : p_commits p ⊆ p_commits q;
  k_commitPks : p_commitPks p ⊆ p_commitPks q;
  k_client : p_client q = p_client p;
  k_snapshot : p_snapshot q = p_snapshot p;
  k_btc : p_btc q = p_btc p;
  k_members : p_members q = p_members p;
  k_view : p_view q = p_view p }.

(** ... and leaves its apply alone. *)
Definition grows (p q : proposal) : Prop :=
  keeps p q ∧ p_applied q = p_applied p ∧ p_applying q = p_applying p.

Lemma proposalQuorumMet_ext p q addrs pks :
  p_weighted q = p_weighted p → p_validators q = p_validators p → p_quorum q = p_quorum p →
  proposalQuorumMet q addrs pks = proposalQuorumMet p addrs pks.
Proof. unfold proposalQuorumMet. by intros -> -> ->. Qed.

Lemma persists_app pid l1 l2 : persists pid (l1 ++ l2) = (persists pid l1 + persists pid l2)%nat.
Proof. unfold persists. by rewrite filter_app, length_app. Qed.

Lemma persists_cons_other pid e l : is_persist pid e = false → persists pid (e :: l) = persists pid l.
Proof. intros He. unfold persists. rewrite filter_cons_False; [done|]. by rewrite He. Qed.

Lemma persists_quiet pid l : Forall quiet l → persists pid l = 0%nat.
Proof.
  unfold persists. induction 1 as [|e l He _ IH]; [done|].
  rewrite filter_cons_False; [done|]. destruct e; simpl; try done.
Qed.

Lemma started_mono s s' pid sq : out s ⊆ out s' → started s pid sq → started s' pid sq.
Proof. intros Hs (cfg & addrs & pks & H). exists cfg, addrs, pks. by apply Hs. Qed.

(** ** The abstract protocol

    What one hub may do, as steps smaller than the handlers: frame changes, a
    proposal gaining votes, the COMMIT behind a prepare quorum, an apply behind
    a commit quorum, its success or failure, and the early-vote buffer. With
    the label [true] a step may also rewind the view, as a proposer does; [O]
    says what proposals a step may open. *)

Inductive micro (b : bool) (O : proposal → Prop) (s : state) : state → Prop :=
| m_frame s' l :
    heap s' = heap s → pendingProposals s' = pendingProposals s → applies s' = applies s →
    lastAppliedSeq s' = lastAppliedSeq s → earlyVotes s' = earlyVotes s → earlyVoteTtl s' = earlyVoteTtl s →
    (nextId s ≤ nextId s')%nat → (b = false → view s ≤ view s') →
    out s' = l ++ out s → Forall quiet l → micro b O s s'
| m_grow pid f : (∀ p, heap s !! pid = Some p → grows p (f p)) → micro b O s (modify pid f s)
| m_commit sq pid p f eq :
    getProposal sq s = Some (pid, p) → proposalQuorumMet p (p_prepares p) (p_preparePks p) = true →
    p_commitSent p = false → grows p (f p) → p_commitSent (f p) = true →
    micro b O s (emit (BroadcastCommit sq (p_digest p) eq) (modify pid f s))
| m_start sq pid p :
    getProposal sq s = Some (pid, p) → p_applied p = false → p_applying p = false →
    proposalQuorumMet p (p_commits p) (p_commitPks p) = true →
    micro b O s (emit (StartApply pid sq (p_config p) (p_commits p) (p_commitPks p))
                 (with_applies (pid :: applies s) (modify pid (set_p_applying true) s)))
| m_open p : O p → p_applied p = false → p_applying p = false → micro b O s (openRound p s)
| m_drop sq : micro b O s (with_pendingProposals (delete sq (pendingProposals s)) s)
| m_persist pid p :
    pid ∈ applies s → heap s !! pid = Some p →
    micro b O s (emit (Persist pid (p_seq p))
      (with_lastAppliedSeq (Z.max (lastAppliedSeq s) (p_seq p))
        (with_applies (filter (λ q, q ≠ pid) (applies s)) (modify pid (set_p_applied true) s))))
| m_fail pid :
    micro b O s (with_applies (filter (λ q, q ≠ pid) (applies s)) (modify pid (set_p_applying false) s))
| m_dropEarly k : micro b O s (dropEarly k s)
| m_buffer h now v : micro b O s (bufferEarlyVote h now v s).1.

(** ** The steps keep the invariant *)

(** Every proposal of the heap survives with what it was opened with. *)
Definition heap_le (m m' : gmap nat proposal) : Prop :=
  ∀ k p, m !! k = Some p → ∃ q, m' !! k = Some q ∧ keeps p q.

#[global] Instance keeps_refl : Reflexive keeps.
Proof. intros p. by split. Qed.

#[global] Instance heap_le_refl : Reflexive heap_le.
Proof. intros m k p H. by exists p. Qed.

Lemma heap_le_alter m pid f : (∀ p, m !! pid = Some p → keeps p (f p)) → heap_le m (alter f pid m).
Proof.
  intros Hf k p Hk. rewrite lookup_alter. case_decide; subst; rewrite Hk; simpl; [eauto|].
  by exists p.
Qed.

Lemma heap_le_insert m k p : m !! k = None → heap_le m (<[k := p]> m).
Proof. intros Hn j q Hj. exists q. rewrite lookup_insert_ne by congruence. done. Qed.

Lemma alter_is_Some (m : gmap nat proposal) f pid k : is_Some (alter f pid m !! k) ↔ is_Some (m !! k).
Proof. rewrite lookup_alter. case_decide; [subst; by rewrite fmap_is_Some|done]. Qed.

(** The clauses about past effects only need the heap and the trace to grow. *)
Lemma hinv_mono s s' :
  hinv s → heap_le (heap s) (heap s') → out s ⊆ out s' → lastAppliedSeq s ≤ lastAppliedSeq s' →
  (∀ sq pid, pendingProposals s' !! sq = Some pid →
     pendingProposals s !! sq = Some pid ∨ ∃ p, heap s' !! pid = Some p ∧ p_seq p = sq) →
  (∀ pid, is_Some (heap s' !! pid) → (pid < nextId s')%nat) →
  NoDup (applies s') →
  (∀ pid, pid ∈ applies s' → ∃ p, heap s' !! pid = Some p ∧ p_applying p = true ∧
     p_applied p = false ∧ started s' pid (p_seq p)) →
  (∀ pid, persists pid (out s') =
     match heap s' !! pid with Some p => if p_applied p then 1%nat else 0%nat | None => 0%nat end) →
  (∀ e, e ∈ out s' → e ∈ out s ∨ quiet e ∨
     match e with
     | Persist pid sq => started s' pid sq ∧ sq ≤ lastAppliedSeq s'
     | StartApply pid sq cfg addrs pks => ∃ p, heap s' !! pid = Some p ∧ p_seq p = sq ∧ p_config p = cfg ∧
         proposalQuorumMet p addrs pks = true ∧ addrs ⊆ p_commits p ∧ pks ⊆ p_commitPks p
     | BroadcastCommit sq d _ => ∃ pid p addrs pks, heap s' !! pid = Some p ∧ p_seq p = sq ∧
         p_digest p = d ∧ p_commitSent p = true ∧ proposalQuorumMet p addrs pks = true ∧
         addrs ⊆ p_prepares p ∧ pks ⊆ p_preparePks p
     | _ => True
     end) → hinv s'.
Proof.
  intros I Hle Hout Hlast Hpend Hfresh Hnd Happ Hper He. split; try done.
  - intros sq pid [H|H]%Hpend; [|done]. destruct (hi_pending _ I _ _ H) as (p & Hp & Hs).
    destruct (Hle _ _ Hp) as (q & Hq & K). exists q. by rewrite (k_seq _ _ K).
  - intros pid sq [H|[[]|H]]%He; [|done]. destruct (hi_persisted _ I _ _ H) as [H1 H2].
    split; [by eapply started_mono|lia].
  - intros pid sq cfg addrs pks [H|[[]|H]]%He; [|done].
    destruct (hi_start _ I _ _ _ _ _ H) as (p & Hp & <- & <- & Hm & Ha & Hk).
    destruct (Hle _ _ Hp) as (q & Hq & []). exists q.
    rewrite (proposalQuorumMet_ext p q) by done. split_and!; [done..|set_solver|set_solver].
  - intros sq d eq [H|[[]|H]]%He; [|done].
    destruct (hi_commit _ I _ _ _ H) as (pid & p & addrs & pks & Hp & <- & <- & Hs & Hm & Ha & Hk).
    destruct (Hle _ _ Hp) as (q & Hq & []). exists pid, q, addrs, pks.
    rewrite (proposalQuorumMet_ext p q) by done. split_and!; [done..|auto|done|set_solver|set_solver].
Qed.

Lemma getProposal_Some sq s pid p :
  getProposal sq s = Some (pid, p) ↔ pendingProposals s !! sq = Some pid ∧ heap s !! pid = Some p.
Proof.
  unfold getProposal. split.
  - destruct (pendingProposals s !! sq) as [k|]; simpl; [|done].
    destruct (heap s !! k) eqn:E; simpl; [|done]. by intros [= <- <-].
  - intros [-> H]. simpl. by rewrite H.
Qed.

Lemma getProposal_modify sq s pid p f :
  getProposal sq s = Some (pid, p) → getProposal sq (modify pid f s) = Some (pid, f p).
Proof.
  rewrite !getProposal_Some. simpl. intros [-> Hh]. split; [done|].
  rewrite lookup_alter. destruct (decide _); [|done]. by rewrite Hh.
Qed.

(** The applies of a changed heap, and the persist count, where the apply
    flags of every proposal but [pid] stay. *)
Lemma applies_alter s s' pid f :
  hinv s → heap s' = alter f pid (heap s) → out s ⊆ out s' →
  (∀ p, heap s !! pid = Some p → grows p (f p)) →
  ∀ k, k ∈ applies s → ∃ p, heap s' !! k = Some p ∧ p_applying p = true ∧ p_applied p = false ∧ started s' k (p_seq p).
Proof.
  intros I Eh Ho Hf k (p & Hp & Ha & Hn & Hs)%(hi_applies _ I). rewrite Eh, lookup_alter.
  case_decide as E; subst; rewrite Hp; simpl; eexists; (split; [done|]).
  - destruct (Hf _ Hp) as ([] & -> & ->). rewrite k_seq0. eauto using started_mono.
  - eauto using started_mono.
Qed.

Lemma persists_alter s pid f :
  hinv s → (∀ p, heap s !! pid = Some p → p_applied (f p) = p_applied p) →
  ∀ k, persists k (out s) =
    match alter f pid (heap s) !! k with Some p => if p_applied p then 1%nat else 0%nat | None => 0%nat end.
Proof.
  intros I Hf k. rewrite (hi_persist _ I), lookup_alter. case_decide; subst; [|done].
  destruct (heap s !! k) eqn:E; simpl; [by rewrite Hf|done].
Qed.

Lemma hinv_frame s s' l :
  hinv s → heap s' = heap s → pendingProposals s' ⊆ pendingProposals s → applies s' = applies s →
  lastAppliedSeq s' = lastAppliedSeq s → (nextId s ≤ nextId s')%nat → out s' = l ++ out s →
  Forall quiet l → hinv s'.
Proof.
  intros I Eh Ep Ea El En Eo Hq.
  assert (Ho : out s ⊆ out s') by (rewrite Eo; intros e; set_solver).
  apply (hinv_mono s); try done; rewrite ?Eh, ?Ea, ?El; try done.
  - intros sq pid H. left. by eapply lookup_weaken.
  - intros pid H%(hi_fresh _ I). lia.
  - apply I.
  - intros pid (p & ? & ? & ? & ?)%(hi_applies _ I). eauto 10 using started_mono.
  - intros pid. rewrite Eo, persists_app, persists_quiet by done. apply I.
  - intros e. rewrite Eo, elem_of_app. intros [H|H]; [|by left]. right; left.
    rewrite Forall_forall in Hq. auto.
Qed.

Lemma hinv_grow s pid f : hinv s → (∀ p, heap s !! pid = Some p → grows p (f p)) → hinv (modify pid f s).
Proof.
  intros I Hf. apply (hinv_mono s); try done; simpl.
  - apply heap_le_alter. intros p Hp. apply (Hf p Hp).
  - by left.
  - intros k H%alter_is_Some. by apply I.
  - apply I.
  - by apply (applies_alter s (modify pid f s) pid f).
  - apply persists_alter; [done|]. intros p Hp. apply (Hf p Hp).
  - by left.
Qed.

Lemma hinv_commit s sq pid p f eq :
  hinv s → getProposal sq s = Some (pid, p) → proposalQuorumMet p (p_prepares p) (p_preparePks p) = true →
  grows p (f p) → p_commitSent (f p) = true →
  hinv (emit (BroadcastCommit sq (p_digest p) eq) (modify pid f s)).
Proof.
  intros I [Hpend Hp]%getProposal_Some Hm Hg Hs.
  destruct (hi_pending _ I _ _ Hpend) as (p' & Hp' & Hsq). simplify_eq.
  assert (Hf : ∀ q, heap s !! pid = Some q → grows q (f q)) by (intros q Hq; by simplify_eq).
  apply (hinv_mono s); try done; simpl.
  - apply heap_le_alter. intros q Hq. apply (Hf q Hq).
  - intros e. set_solver.
  - by left.
  - intros k H%alter_is_Some. by apply I.
  - apply I.
  - apply (applies_alter s (emit (BroadcastCommit (p_seq p) (p_digest p) eq) (modify pid f s)) pid f);
      [done..| |done]. intros e. set_solver.
  - intros k. rewrite persists_cons_other by done. revert k. apply persists_alter; [done|].
    intros q Hq. apply (Hf q Hq).
  - intros e [->|?]%elem_of_cons; [|by left]. right; right.
    destruct Hg as [[] _]. exists pid, (f p), (p_prepares p), (p_preparePks p).
    rewrite lookup_alter_eq, Hp, (proposalQuorumMet_ext p (f p)) by done. done.
Qed.

Lemma hinv_start s sq pid p :
  hinv s → getProposal sq s = Some (pid, p) → p_applied p = false → p_applying p = false →
  proposalQuorumMet p (p_commits p) (p_commitPks p) = true →
  hinv (emit (StartApply pid sq (p_config p) (p_commits p) (p_commitPks p))
          (with_applies (pid :: applies s) (modify pid (set_p_applying true) s))).
Proof.
  intros I [Hpend Hp]%getProposal_Some Happd Happ Hm.
  destruct (hi_pending _ I _ _ Hpend) as (p' & Hp' & Hsq). simplify_eq.
  assert (Hnin : pid ∉ applies s) by (intros (q & Hq & ? & ?)%(hi_applies _ I); congruence).
  apply (hinv_mono s); try done; simpl.
  - apply heap_le_alter. by split.
  - intros e. set_solver.
  - by left.
  - intros k H%alter_is_Some. by apply I.
  - constructor; [done|apply I].
  - intros k [-> |Hk]%elem_of_cons.
    + exists (set_p_applying true p). rewrite lookup_alter_eq, Hp. split_and!; try done.
      do 3 eexists. by left.
    + destruct (hi_applies _ I _ Hk) as (q & Hq & ? & ? & ?). exists q.
      rewrite lookup_alter_ne by (by intros ->). split_and!; try done.
      eapply started_mono; [|done]. intros e. set_solver.
  - intros k. rewrite persists_cons_other by done. revert k. by apply persists_alter.
  - intros e [->|?]%elem_of_cons; [|by left]. right; right.
    exists (set_p_applying true p). rewrite lookup_alter_eq, Hp. done.
Qed.

Lemma heap_fresh s : hinv s → heap s !! nextId s = None.
Proof.
  intros I. destruct (heap s !! nextId s) eqn:E; [|done].
  assert (nextId s < nextId s)%nat by (apply I; by rewrite E). lia.
Qed.

Lemma hinv_open s p : hinv s → p_applied p = false → p_applying p = false → hinv (openRound p s).
Proof.
  intros I Happd Happ. pose proof (heap_fresh s I) as Hn.
  unfold openRound. apply (hinv_mono s); try done; simpl.
  - by apply heap_le_insert.
  - intros sq pid. rewrite lookup_insert. case_decide as E; [|by left].
    intros [= <-]. right. exists p. by rewrite lookup_insert_eq.
  - intros pid. rewrite lookup_insert. case_decide; [intros; subst; lia|].
    intros Hs%(hi_fresh _ I). lia.
  - apply I.
  - intros pid (q & Hq & ? & ? & ?)%(hi_applies _ I). exists q. rewrite lookup_insert_ne by congruence. done.
  - intros pid. rewrite (hi_persist _ I), lookup_insert. case_decide; [|done]. subst. by rewrite Hn, Happd.
  - by left.
Qed.

(** The applies that stay when the one of [pid] ends. *)
Lemma applies_end s s' pid f :
  hinv s → heap s' = alter f pid (heap s) → out s ⊆ out s' →
  ∀ k, k ∈ filter (λ q, q ≠ pid) (applies s) →
    ∃ p, heap s' !! k = Some p ∧ p_applying p = true ∧ p_applied p = false ∧ started s' k (p_seq p).
Proof.
  intros I Eh Ho k [Hne (p & Hp & ? & ? & ?)%(hi_applies _ I)]%list_elem_of_filter.
  exists p. rewrite Eh, lookup_alter_ne by done. eauto using started_mono.
Qed.

Lemma hinv_persist s pid p :
  hinv s → pid ∈ applies s → heap s !! pid = Some p →
  hinv (emit (Persist pid (p_seq p))
    (with_lastAppliedSeq (Z.max (lastAppliedSeq s) (p_seq p))
      (with_applies (filter (λ q, q ≠ pid) (applies s)) (modify pid (set_p_applied true) s)))).
Proof.
  intros I Hin Hp. set (s' := emit _ _).
  destruct (hi_applies _ I _ Hin) as (p' & Hp' & _ & Happd & Hst). simplify_eq.
  assert (Ho : out s ⊆ out s') by (intros e; set_solver).
  apply (hinv_mono s); try done; simpl.
  - apply heap_le_alter. by split.
  - lia.
  - by left.
  - intros k H%alter_is_Some. by apply I.
  - apply NoDup_filter, I.
  - by apply (applies_end s s' pid (set_p_applied true)).
  - intros k. unfold persists. simpl. destruct (decide (pid = k)) as [->|Hne].
    + rewrite filter_cons_True by (simpl; by rewrite Nat.eqb_refl). rewrite lookup_alter_eq, Hp. simpl.
      f_equal. fold (persists k (out s)). by rewrite (hi_persist _ I), Hp, Happd.
    + rewrite filter_cons_False by (simpl; rewrite Nat.eqb_eq; done). rewrite lookup_alter_ne by done. apply I.
  - intros e [->|?]%elem_of_cons; [|by left]. right; right. split; [by eapply started_mono|simpl; lia].
Qed.

Lemma hinv_fail s pid :
  hinv s → hinv (with_applies (filter (λ q, q ≠ pid) (applies s)) (modify pid (set_p_applying false) s)).
Proof.
  intros I. apply (hinv_mono s); try done; simpl.
  - apply heap_le_alter. by split.
  - by left.
  - intros k H%alter_is_Some. by apply I.
  - apply NoDup_filter, I.
  - by apply (applies_end s (with_applies _ (modify pid (set_p_applying false) s)) pid (set_p_applying false)).
  - by apply persists_alter.
  - by left.
Qed.

(** ** The early-vote buffer *)

#[local] Arguments Nat.leb : simpl never.

(** Only the buffer changes. *)
Definition early_only (s s' : state) : Prop :=
  s' = with_earlyVotes (earlyVotes s') (with_earlyVoteTtl (earlyVoteTtl s') s).

Lemma early_only_refl s : early_only s s.
Proof. by destruct s. Qed.

Lemma early_only_trans s1 s2 s3 : early_only s1 s2 → early_only s2 s3 → early_only s1 s3.
Proof. unfold early_only. destruct s1, s2, s3; simpl. by intros [=] [=]; subst. Qed.

Lemma early_only_drop k s : early_only s (dropEarly k s).
Proof. by destruct s. Qed.

Lemma early_only_prune now s : early_only s (pruneEarlyVotes now s).
Proof.
  unfold pruneEarlyVotes. generalize (earlyVoteTtl s). intros l. revert s.
  induction l as [|kv l IH]; intros s; simpl; [apply early_only_refl|].
  eapply early_only_trans, IH. destruct (_ || _); [apply early_only_drop|apply early_only_refl].
Qed.

Lemma early_only_evict n s : early_only s (evictOldest n s).
Proof.
  revert s. induction n as [|n IH]; intros s; simpl; [apply early_only_refl|].
  destruct (earlyVotes s) as [|[k v] r]; [apply early_only_refl|].
  case_match; [|apply early_only_refl].
  eapply early_only_trans, IH. apply early_only_drop.
Qed.

Lemma early_only_votes s m : early_only s (with_earlyVotes m s).
Proof. by destruct s. Qed.

Lemma early_only_ttl s m : early_only s (with_earlyVoteTtl m s).
Proof. by destruct s. Qed.

Lemma early_only_buffer h now v s : early_only s (bufferEarlyVote h now v s).1.
Proof.
  unfold bufferEarlyVote. destruct (vt_seq v) as [sq|]; [|apply early_only_refl].
  do 3 (case_match; [apply early_only_refl|]).
  assert (Hp := early_only_prune now s). revert Hp. generalize (pruneEarlyVotes now s). intros s1 Hp.
  destruct (omap_get sq (earlyVotes s1)) as [b|]; simpl.
  - case_match; simpl; [done|]. repeat (eapply early_only_trans; [|apply early_only_ttl || apply early_only_votes]). done.
  - eapply early_only_trans; [|apply early_only_ttl]. eapply early_only_trans; [|apply early_only_votes].
    eapply early_only_trans; [|apply early_only_votes]. eapply early_only_trans; [done|]. apply early_only_evict.
Qed.

(** At most 64 sequence numbers, 64 votes each, filed under their own
    sequence number; the expiry map has the same keys in the same order. *)
Record early_ok (s : state) : Prop := {
  eo_keys : (earlyVotes s).*1 = (earlyVoteTtl s).*1;
  eo_nodup : NoDup (earlyVotes s).*1;
  eo_seqs : (length (earlyVotes s) ≤ EARLY_VOTE_MAX_SEQS)%nat;
  eo_bucket k b : (k, b) ∈ earlyVotes s →
    (length b ≤ EARLY_VOTE_MAX_PER_SEQ)%nat ∧ Forall (λ v, vt_seq v = Some k) b }.

Lemma omap_delete_keys {V} k (m : list (Z * V)) : (omap_delete k m).*1 = filter (λ x, x ≠ k) m.*1.
Proof.
  unfold omap_delete. induction m as [|[x v] m IH]; [done|]. rewrite fmap_cons.
  destruct (decide (x ≠ k)) as [H|H].
  - rewrite !filter_cons_True by done. by rewrite fmap_cons, IH.
  - by rewrite !filter_cons_False.
Qed.

Lemma omap_set_keys {V} k (v : V) m :
  (omap_set k v m).*1 = if bool_decide (k ∈ m.*1) then m.*1 else m.*1 ++ [k].
Proof.
  induction m as [|[x w] m IH]; [done|]. simpl. destruct (Z.eqb_spec x k) as [->|Hne]; simpl.
  - rewrite bool_decide_true by (by left). done.
  - unfold fmap in IH. simpl in IH. rewrite IH. do 2 case_bool_decide; set_solver.
Qed.

Lemma omap_set_elem {V} k (v : V) m x w :
  NoDup m.*1 → (x, w) ∈ omap_set k v m → (x = k ∧ w = v) ∨ (x ≠ k ∧ (x, w) ∈ m).
Proof.
  induction m as [|[y u] m IH]; simpl.
  - intros _ [[= -> ->]|H]%elem_of_cons; [by left|set_solver].
  - intros [Hy Hnd]%NoDup_cons. destruct (Z.eqb_spec y k) as [->|Hne]; simpl.
    + intros [[= -> ->]|Hin]%elem_of_cons; [by left|]. right. split; [|set_solver].
      intros ->. apply Hy. apply list_elem_of_fmap. by exists (k, w).
    + intros [[= -> ->]|Hin]%elem_of_cons; [right; set_solver|]. destruct (IH Hnd Hin) as [?|[??]]; set_solver.
Qed.

Lemma omap_get_elem {V} k (v : V) m : omap_get k m = Some v → (k, v) ∈ m.
Proof.
  unfold omap_get. induction m as [|[x w] m IH]; simpl; [done|].
  destruct (Z.eqb_spec x k) as [->|Hne]; simpl; [intros [= ->]; by left|]. intros H%IH. by right.
Qed.

Lemma omap_get_None {V} k (m : list (Z * V)) : omap_get k m = None → k ∉ m.*1.
Proof.
  unfold omap_get. induction m as [|[x w] m IH]; simpl; [set_solver|].
  destruct (Z.eqb_spec x k) as [->|Hne]; simpl; [done|]. intros H%IH. set_solver.
Qed.

Lemma early_ok_drop k s : early_ok s → early_ok (dropEarly k s).
Proof.
  intros [H1 H2 H3 H4]. split; simpl.
  - by rewrite !omap_delete_keys, H1.
  - rewrite omap_delete_keys. by apply NoDup_filter.
  - unfold omap_delete. etransitivity; [apply length_filter|done].
  - intros x b [_ Hin]%list_elem_of_filter. by apply H4.
Qed.

Lemma early_ok_prune now s : early_ok s → early_ok (pruneEarlyVotes now s).
Proof.
  unfold pruneEarlyVotes. generalize (earlyVoteTtl s). intros l. revert s.
  induction l as [|kv l IH]; intros s Hs; simpl; [done|]. apply IH.
  case_match; [by apply early_ok_drop|done].
Qed.

Lemma early_ok_evict n s : early_ok s → early_ok (evictOldest n s).
Proof.
  revert s. induction n as [|n IH]; intros s Hs; simpl; [done|].
  destruct (earlyVotes s) as [|[k v] r] eqn:E; [done|]. case_match; [|done].
  apply IH. by apply early_ok_drop.
Qed.

(** The eviction loop frees a slot: the length of the map is fuel enough. *)
Lemma evictOldest_room n s :
  NoDup (earlyVotes s).*1 → (length (earlyVotes s) ≤ n)%nat →
  (length (earlyVotes (evictOldest n s)) < EARLY_VOTE_MAX_SEQS)%nat.
Proof.
  revert s. induction n as [|n IH]; intros s Hnd Hn; simpl.
  - unfold EARLY_VOTE_MAX_SEQS. lia.
  - destruct (earlyVotes s) as [|[k v] r] eqn:E; [rewrite ?E; simpl; unfold EARLY_VOTE_MAX_SEQS; lia|].
    destruct (Nat.leb_spec EARLY_VOTE_MAX_SEQS (length ((k, v) :: r))); [|rewrite ?E; lia].
    assert (Hd : earlyVotes (dropEarly k s) = r).
    { simpl. rewrite E. unfold omap_delete. rewrite filter_cons_False by (simpl; auto).
      simpl in Hnd. apply NoDup_cons in Hnd as [Hk _]. apply list_filter_id.
      intros [x w] Hx Hxk. simpl in Hxk. subst x. apply Hk. apply list_elem_of_fmap. by exists (k, w). }
    apply IH; rewrite Hd; simpl in *; [by apply NoDup_cons in Hnd as [_ ?]|lia].
Qed.

Lemma early_ok_push sq b t v s :
  early_ok s → vt_seq v = Some sq → (length b < EARLY_VOTE_MAX_PER_SEQ)%nat → Forall (λ v, vt_seq v = Some sq) b →
  (sq ∈ (earlyVotes s).*1 ∨ (length (earlyVotes s) < EARLY_VOTE_MAX_SEQS)%nat) →
  early_ok (with_earlyVoteTtl (omap_set sq t (earlyVoteTtl s))
              (with_earlyVotes (omap_set sq (b ++ [v]) (earlyVotes s)) s)).
Proof.
  intros [H1 H2 H3 H4] Hv Hb Hfb Hroom. split; simpl.
  - rewrite !omap_set_keys, H1. done.
  - rewrite omap_set_keys. case_bool_decide; [done|]. apply NoDup_app. split_and!; [done| |apply NoDup_singleton].
    intros x Hx ->%list_elem_of_singleton. done.
  - rewrite <-(length_fmap fst), omap_set_keys. case_bool_decide as E; rewrite ?length_app, length_fmap; simpl; [done|].
    destruct Hroom; [done|lia].
  - intros k b' [[-> ->]|[_ Hin]]%omap_set_elem; [|by apply H4|done].
    rewrite length_app. simpl. split; [lia|]. apply Forall_app. split; [done|]. by constructor.
Qed.

Lemma omap_set_twice {V} k (v w : V) m : omap_set k v (omap_set k w m) = omap_set k v m.
Proof.
  induction m as [|[x u] m IH]; simpl; [by rewrite Z.eqb_refl|].
  destruct (Z.eqb_spec x k) as [->|Hne]; simpl; [by rewrite Z.eqb_refl|].
  destruct (Z.eqb_spec x k); [done|]. by rewrite IH.
Qed.

Lemma early_ok_buffer h now v s : early_ok s → early_ok (bufferEarlyVote h now v s).1.
Proof.
  intros Hok. unfold bufferEarlyVote. destruct (vt_seq v) as [sq|] eqn:Hv; [|done].
  do 3 (case_match; [done|]).
  assert (Hp := early_ok_prune now s Hok). revert Hp. generalize (pruneEarlyVotes now s). intros s1 Hp.
  destruct (omap_get sq (earlyVotes s1)) as [b|] eqn:Hg; simpl.
  - destruct (Nat.leb_spec EARLY_VOTE_MAX_PER_SEQ (length b)); [done|]. simpl.
    apply omap_get_elem in Hg. apply early_ok_push; [done..| |].
    + by apply (eo_bucket _ Hp) in Hg as [_ ?].
    + left. apply list_elem_of_fmap. by exists (sq, b).
  - assert (He := early_ok_evict (length (earlyVotes s1)) s1 Hp).
    assert (Hr := evictOldest_room (length (earlyVotes s1)) s1 (eo_nodup _ Hp) ltac:(done)).
    revert He Hr. generalize (evictOldest (length (earlyVotes s1)) s1). intros s2 He Hr.
    rewrite omap_set_twice. apply (early_ok_push sq [] (now + timeout h) v s2); try done; [|by right].
    unfold EARLY_VOTE_MAX_PER_SEQ; simpl; lia.
Qed.

(** Every step of the abstract protocol keeps both invariants. *)
Lemma hinv_early s s' : early_only s s' → hinv s → hinv s'.
Proof. intros E I. apply (hinv_frame s _ []); try done; by rewrite E. Qed.

Lemma hinv_micro b O s s' : micro b O s s' → hinv s → hinv s'.
Proof.
  intros Hm I. destruct Hm.
  - apply (hinv_frame s s' l); try done. by rewrite H0.
  - by apply hinv_grow.
  - by apply hinv_commit.
  - by apply hinv_start.
  - by apply hinv_open.
  - apply (hinv_frame s _ []); try done. simpl. apply delete_subseteq.
  - by apply hinv_persist.
  - by apply hinv_fail.
  - apply (hinv_early s); [apply early_only_drop|done].
  - apply (hinv_early s); [apply early_only_buffer|done].
Qed.

Lemma early_ok_micro b O s s' : micro b O s s' → early_ok s → early_ok s'.
Proof.
  intros Hm Hok. destruct Hm; try (by destruct Hok; split).
  - destruct Hok. split; rewrite ?H3, ?H4; done.
  - by apply early_ok_drop.
  - by apply early_ok_buffer.
Qed.

(** No step takes the applied sequence back, and only a proposer's rewinds
    the view. *)
Lemma last_micro b O s s' : micro b O s s' → lastAppliedSeq s ≤ lastAppliedSeq s'.
Proof.
  intros Hm. destruct Hm; simpl; try lia.
  rewrite (early_only_buffer h now v s). done.
Qed.

Lemma view_micro O s s' : micro false O s s' → view s ≤ view s'.
Proof.
  intros Hm. destruct Hm; simpl; try lia.
  rewrite (early_only_buffer h now v s). done.
Qed.

End Inv.
