(* ===== verification/PbftRefine.v ===== *)
(** * The PBFT engine: the handlers refine the abstract protocol

    Every handler of the engine is a sequence of the steps of [PbftInv.micro],
    so the invariants of the steps hold in every reachable state; the safety
    theorems of the engine follow. *)

From S2P Require Import Prelude GateRegistry BigNum Quorum PbftState PbftEngine PbftInv.
From stdpp Require Import relations.
Open Scope Z_scope.

Section Refine.
Context {B : BigNumber}.
Variables (b : bool) (O : proposal → Prop).

Abbreviation steps := (rtc (micro b O)).

(** ** Building blocks *)

Lemma steps_trans s1 s2 s3 : steps s1 s2 → steps s2 s3 → steps s1 s3.
Proof. intros. by etrans. Qed.

(** A change outside the rounds, the buffer and the view. *)
Lemma steps_frame s s' l :
  heap s' = heap s → pendingProposals s' = pendingProposals s → applies s' = applies s →
  lastAppliedSeq s' = lastAppliedSeq s → earlyVotes s' = earlyVotes s → earlyVoteTtl s' = earlyVoteTtl s →
  (nextId s ≤ nextId s')%nat → view s ≤ view s' → out s' = l ++ out s → Forall quiet l → steps s s'.
Proof. intros. apply rtc_once. by eapply m_frame. Qed.

Lemma steps_emit e s : quiet e → steps s (emit e s).
Proof. intros He. apply (steps_frame s _ [e]); try done. by constructor. Qed.

Lemma steps_grow s pid f : (∀ p, grows p (f p)) → steps s (modify pid f s).
Proof. intros Hf. apply rtc_once, m_grow. auto. Qed.

Ltac grow := intros ?; unfold add_key, addSelfPubkey; split; [split|split]; simpl; try done; repeat case_match; set_solver.

Lemma steps_checkCommitQuorum h sq s : steps s (checkCommitQuorum h sq s).
Proof.
  unfold checkCommitQuorum. destruct (getProposal sq s) as [[pid p]|] eqn:E; [|done].
  case_match; bools; [done|]. case_match; [|done]. apply rtc_once. by apply m_start.
Qed.

Lemma steps_checkPrepareQuorum h sq s : steps s (checkPrepareQuorum h sq s).
Proof.
  unfold checkPrepareQuorum. destruct (getProposal sq s) as [[pid p]|] eqn:E; [|done].
  do 3 (case_match; [try done|try done]).
  eapply steps_trans, steps_checkCommitQuorum. apply rtc_once.
  apply (m_commit b O s sq pid p (λ p, set_p_commitPks (addSelfPubkey h (p_commitPks p))
                     (set_p_commits ({[validatorAddr h]} ∪ p_commits p) (set_p_commitSent true p)))); try done.
  generalize p. grow.
Qed.

Lemma steps_buffer h now v s : steps s (bufferEarlyVote h now v s).1.
Proof. apply rtc_once, m_buffer. Qed.

Lemma steps_handleVote h now v s : steps s (handleVote h now v s).
Proof.
  unfold handleVote, handlePrepare, handleCommit.
  destruct (vt_seq v) as [sq|]; [|by case_match].
  destruct (_ || _); [by case_match|]. destruct (negb _); [by case_match|].
  destruct (getProposal sq s) as [[pid p]|]; [|case_match; apply steps_buffer].
  destruct (negb _); [by case_match|]. case_match.
  - eapply steps_trans, steps_checkPrepareQuorum. apply steps_grow. grow.
  - eapply steps_trans, steps_checkCommitQuorum. apply steps_grow. grow.
Qed.

Lemma steps_replay h now sq s : steps s (replayEarlyVotes h now sq s).
Proof.
  unfold replayEarlyVotes. destruct (omap_get sq (earlyVotes s)) as [[|v bucket]|]; [done| |done].
  apply (steps_trans _ (dropEarly sq s)); [apply rtc_once, m_dropEarly|].
  apply (steps_trans _ (with_replayingSeq (Some sq) (dropEarly sq s))); [by apply (steps_frame _ _ [])|].
  generalize (v :: bucket), (with_replayingSeq (Some sq) (dropEarly sq s)). clear s v bucket.
  intros l s. apply (steps_trans _ (fold_left (λ s v, handleVote h now v s) l s)); [|by apply (steps_frame _ _ [])].
  revert s. induction l as [|v l IH]; intros s; simpl; [done|].
  eapply steps_trans; [apply steps_handleVote|apply IH].
Qed.

Lemma steps_castPrepare h now m sq s : steps s (castPrepare h now m sq s).
Proof.
  unfold castPrepare. destruct (getProposal sq s) as [[pid p]|]; [|done]. case_match; [done|].
  eapply steps_trans, steps_replay. eapply steps_trans, steps_checkPrepareQuorum.
  eapply steps_trans, steps_emit; [|done]. apply steps_grow. grow.
Qed.

Lemma steps_takeSuspended k s su s' : takeSuspended k s = Some (su, s') → steps s s'.
Proof.
  unfold takeSuspended. destruct (find _ _) as [[k' su']|]; [|done]. intros [= _ <-].
  by apply (steps_frame _ _ []).
Qed.

Lemma steps_handlePrePrepare (sha256 : string → string) h now m s : steps s (handlePrePrepare sha256 h now m s).
Proof.
  unfold handlePrePrepare. destruct (pp_seq m) as [sq|], (pp_view m) as [vw|]; try done.
  case_match; [done|]. destruct (getProposal sq s) as [[pid p]|].
  - case_match; [apply steps_castPrepare|done].
  - case_match; [done|]. case_match; apply (steps_frame _ _ []); try done; simpl; lia.
Qed.

Lemma steps_resumeTip h k tip s : steps s (resumeTip h k tip s).
Proof.
  unfold resumeTip. destruct (takeSuspended k s) as [[[m f|m] s']|] eqn:E; [|done..].
  apply steps_takeSuspended in E. case_match; [|done].
  eapply steps_trans; [done|]. by apply (steps_frame _ _ []).
Qed.

Lemma steps_resumeLock h now k tip fetch s :
  (∀ m s' sq vw q w, takeSuspended k s = Some (WaitLock m, s') → pp_seq m = Some sq → pp_view m = Some vw →
     let lk := lockSnapshot h tip fetch (pp_btc m) in
     followerRoundQuorum h (Some (notedHeight h tip (pp_btc m))) s' m sq vw lk = Some (q, w) →
     O (buildFollowerProposal m sq vw lk w q)) →
  steps s (resumeLock h now k tip fetch s).
Proof.
  intros HO. unfold resumeLock. destruct (takeSuspended k s) as [[[m f|m] s']|] eqn:E; [done| |done].
  pose proof (steps_takeSuspended _ _ _ _ E) as Es.
  destruct (pp_seq m) as [sq|] eqn:Eq, (pp_view m) as [vw|] eqn:Ev; try done.
  destruct (followerRoundQuorum _ _ _ _ _ _ _) as [[q w]|] eqn:Er; [|done].
  eapply steps_trans; [exact Es|]. eapply steps_trans, steps_castPrepare. apply rtc_once. apply m_open; [|done..].
  by eapply HO.
Qed.

Lemma steps_handleViewChange h round m s : steps s (handleViewChange h round m s).
Proof.
  unfold handleViewChange. destruct (vm_view m) as [vw|], (vm_seq m) as [sq|]; try done.
  case_match; [done|]. case_match; [done|]. bools.
  case_match; [by apply (steps_frame _ _ [])|].
  case_match; [|by apply (steps_frame _ _ [])].
  unfold acceptViewChange. case_match; [apply (steps_frame _ _ [BroadcastNewView vw sq])|apply (steps_frame _ _ [])];
    try done; by constructor.
Qed.

Lemma steps_handleNewView h m s : steps s (handleNewView h m s).
Proof.
  unfold handleNewView. destruct (vm_view m) as [vw|], (vm_seq m) as [sq|]; try done.
  case_match; [done|]. bools. destruct (leaderAt _ _ _ _ _); [|done]. case_match; [|done].
  apply (steps_frame _ _ []); try done; simpl; lia.
Qed.

Lemma steps_initiateViewChange h sq c s : steps s (initiateViewChange h sq c s).
Proof.
  unfold initiateViewChange.
  case_match; apply (steps_frame _ _ [BroadcastViewChange (view s + 1) sq]); try done; simpl; try lia;
    by constructor.
Qed.

Lemma steps_drop sq s : steps s (with_pendingProposals (delete sq (pendingProposals s)) s).
Proof. apply rtc_once, m_drop. Qed.

Lemma steps_leaderTimeout h pid s : steps s (leaderTimeout h pid s).
Proof.
  unfold leaderTimeout. destruct (heap s !! pid) as [p|]; [|done]. case_match; [done|].
  eapply steps_trans, steps_emit; [|done]. eapply steps_trans, steps_initiateViewChange.
  eapply steps_trans, steps_drop. apply steps_grow. grow.
Qed.

Lemma steps_followerTimeout pid s : steps s (followerTimeout pid s).
Proof.
  unfold followerTimeout. destruct (heap s !! pid) as [p|]; [|done]. case_match; [done|].
  eapply steps_trans; [|apply (steps_drop _ (modify pid _ s))]. apply steps_grow. grow.
Qed.

Lemma steps_finishApply pid ok s : hinv s → steps s (finishApply pid ok s).
Proof.
  intros I. unfold finishApply. case_bool_decide as Hin; [|done].
  destruct (hi_applies _ I _ Hin) as (p & Hp & _).
  destruct ok; unfold persistAppliedRound, unlockFailedApply; simpl; rewrite Hp.
  - eapply steps_trans; [apply rtc_once, (m_persist b O s pid p Hin Hp)|]. set (s' := emit (Persist _ _) _).
    case_match; [|exact (steps_drop (p_seq p) s')].
    eapply steps_trans; [apply (steps_grow s' pid (set_p_resolved true)); grow|].
    eapply steps_trans; [by apply (steps_emit (Settle pid true))|].
    exact (steps_drop (p_seq p) (emit (Settle pid true) (modify pid (set_p_resolved true) s'))).
  - eapply steps_trans; [apply rtc_once, (m_fail b O s pid)|]. set (s' := with_applies _ _).
    case_match; [|done].
    eapply steps_trans; [apply (steps_grow s' pid (set_p_resolved true)); grow|].
    eapply steps_trans; [by apply (steps_emit (Settle pid false))|].
    exact (steps_drop (p_seq p) (emit (Settle pid false) (modify pid (set_p_resolved true) s'))).
Qed.

Lemma steps_openLeaderRound (sha256 : string → string) h s sq config lk w q ms :
  O (buildLeaderProposal sha256 h s sq config lk w q ms) → steps s (openLeaderRound sha256 h s sq config lk w q ms).
Proof.
  intros HO. unfold openLeaderRound. eapply steps_trans, steps_checkPrepareQuorum.
  eapply steps_trans, steps_emit; [|done]. apply rtc_once. by apply m_open.
Qed.

End Refine.

Section Safety.
Context {B : BigNumber} (sha256 : string → string).

Definition is_propose (e : event) : bool := match e with EvPropose _ _ _ => true | _ => false end.

(** The proposals an event may open: a leader's, or a follower's whose checks
    all passed. *)
Definition opens (h : env) (e : event) (s : state) (p : proposal) : Prop :=
  match e with
  | EvPropose config tip fetch =>
      let lk := lockSnapshot h tip fetch None in
      let sq := Z.max (seqNo s) (lastAppliedSeq s) + 1 in
      let ms := memberPubkeySet (lk_snapshot lk) in
      ∃ w q, proposeRoundQuorum h (Some (notedHeight h tip None)) s lk = Ok (Some (w, q)) ∧
        (getLeader h s sq ms = None ∨ isLeader h s sq ms = true) ∧
        p = buildLeaderProposal sha256 h (with_view 0 (with_seqNo sq s)) sq config lk w q ms
  | EvResumeLock now k tip fetch =>
      ∃ m s' sq vw q w, let lk := lockSnapshot h tip fetch (pp_btc m) in
        takeSuspended k s = Some (WaitLock m, s') ∧ pp_seq m = Some sq ∧ pp_view m = Some vw ∧
        followerRoundQuorum h (Some (notedHeight h tip (pp_btc m))) s' m sq vw lk = Some (q, w) ∧
        p = buildFollowerProposal m sq vw lk w q
  | _ => False
  end.

Lemma steps_propose h config tip fetch s :
  rtc (micro true (opens h (EvPropose config tip fetch) s)) s (propose sha256 h config tip fetch s).1.
Proof.
  unfold propose. destruct (proposeRoundQuorum _ _ _ _) as [[[w q]|]|e] eqn:Eq; simpl; [|by apply steps_emit|done].
  case_match eqn:El; simpl; [by apply (steps_frame _ _ _ _ [])|].
  eapply steps_trans, steps_openLeaderRound; [apply rtc_once; by eapply (m_frame _ _ _ _ [])|].
  simpl. exists w, q. split_and!; [done| |done]. unfold isLeader.
  destruct (getLeader _ _ _ _); [right; by bools|by left].
Qed.

(** Every event is a sequence of steps of the protocol; only a proposer's may
    rewind the view. *)
Lemma handle_refines h e s : hinv s → rtc (micro (is_propose e) (opens h e s)) s (handle sha256 h e s).
Proof.
  intros I. destruct e; simpl.
  - by apply (steps_frame _ _ _ _ []).
  - apply steps_propose.
  - apply steps_handlePrePrepare.
  - apply steps_resumeTip.
  - apply steps_resumeLock. intros m s' sq vw q w H1 ? ? lk H2. by exists m, s', sq, vw, q, w.
  - apply steps_handleVote.
  - apply steps_handleViewChange.
  - apply steps_handleNewView.
  - by apply steps_finishApply.
  - apply steps_leaderTimeout.
  - apply steps_followerTimeout.
Qed.

Lemma steps_preserve {b O} (P : state → Prop) s s' :
  (∀ s s', micro b O s s' → P s → P s') → rtc (micro b O) s s' → P s → P s'.
Proof. intros HP. induction 1; eauto. Qed.

Lemma hinv_initial last vs : hinv (initial last vs).
Proof. split; simpl; try done; try (by constructor); try set_solver. by intros ? [? ?]. Qed.

Lemma reachable_hinv s : reachable sha256 s → hinv s.
Proof.
  induction 1 as [|h e s _ I]; [apply hinv_initial|].
  eapply steps_preserve, I; [apply hinv_micro|by apply handle_refines].
Qed.

Lemma early_ok_initial last vs : early_ok (initial last vs).
Proof. split; simpl; [done|constructor|unfold EARLY_VOTE_MAX_SEQS; lia|set_solver]. Qed.

Lemma reachable_early_ok s : reachable sha256 s → early_ok s.
Proof.
  induction 1 as [|h e s R I]; [apply early_ok_initial|].
  eapply steps_preserve, I; [apply early_ok_micro|]. by apply handle_refines, reachable_hinv.
Qed.

(** ** What every proposal was opened with *)

(** A predicate of the round's fixed parts. *)
Definition stable (Q : proposal → Prop) : Prop := ∀ p q, keeps p q → Q p → Q q.

Lemma heap_micro b O (Q : proposal → Prop) s s' :
  stable Q → (∀ p, O p → Q p) → micro b O s s' →
  (∀ k p, heap s !! k = Some p → Q p) → ∀ k p, heap s' !! k = Some p → Q p.
Proof.
  intros HQ HO Hm Hs.
  assert (Halter : ∀ pid f k q, (∀ p, heap s !! pid = Some p → keeps p (f p)) →
            alter f pid (heap s) !! k = Some q → Q q).
  { intros pid f k q Hf. rewrite lookup_alter. case_decide; [subst|by apply Hs].
    destruct (heap s !! k) as [p|] eqn:E; simpl; [|done]. intros [= <-]. eauto. }
  destruct Hm; simpl; try done.
  - by rewrite H.
  - intros k q. apply Halter. intros p Hp. apply (H p Hp).
  - intros k q. apply Halter. intros p' Hp. apply getProposal_Some in H as [_ H]. simplify_eq. apply H2.
  - intros k q. apply Halter. by split.
  - intros k q. rewrite lookup_insert. case_decide; [intros [= <-]; by apply HO|apply Hs].
  - intros k q. apply Halter. by split.
  - intros k q. apply Halter. by split.
  - rewrite (early_only_buffer h now v s). done.
Qed.

Lemma heap_steps b O (Q : proposal → Prop) s s' :
  stable Q → (∀ p, O p → Q p) → rtc (micro b O) s s' →
  (∀ k p, heap s !! k = Some p → Q p) → ∀ k p, heap s' !! k = Some p → Q p.
Proof.
  intros HQ HO Hst. apply (steps_preserve (b:=b) (O:=O) (λ s, ∀ k p, heap s !! k = Some p → Q p) s s'); [|done].
  intros s1 s2 Hm Hs. by eapply heap_micro.
Qed.

End Safety.
