(* ===== verification/PbftHistory.v ===== *)
(** * The PBFT engine: invariants over the history of a run

    What the state says about the messages that led to it: every round was
    opened by a PRE_PREPARE that passed the checks, or as a leader's own; every
    counted vote was received from an admitted sender for the round's own
    sequence and digest (directly or through the early-vote buffer), is the
    PRE_PREPARE of the leader, or is the hub's own; and every follower round
    passed the freshness bound. *)

From S2P Require Import Prelude GateRegistry BigNum Quorum PbftState PbftEngine PbftInv PbftRefine.
From stdpp Require Import relations.
Open Scope Z_scope.

Section History.
Context {B : BigNumber} (sha256 : string → string).

Lemma run_snoc l h e s : run sha256 (l ++ [(h, e)]) s = handle sha256 h e (run sha256 l s).
Proof. unfold run. by rewrite fold_left_app. Qed.

Lemma run_hinv l last vs : hinv (run sha256 l (initial last vs)).
Proof. eapply reachable_hinv, reachable_run. constructor. Qed.

(** ** Counted votes *)

(** The hub's own key and address under one of the configurations it ran with. *)
Definition own_key (l : list (env * event)) (k : string) : Prop :=
  ∃ h e id, (h, e) ∈ l ∧ identity h = Some id ∧ k = toLowerCase id.

Definition own_addr (l : list (env * event)) (a : string) : Prop := ∃ h e, (h, e) ∈ l ∧ a = validatorAddr h.

(** A received vote of the kind for that slot and digest, from a sender that the
    hub admitted when it counted it. *)
Definition vote_of (l : list (env * event)) (kind : vote_kind) (sq : Z) (digest : string) (h' : env) (e : envelope) : Prop :=
  ∃ h now v e', (h, EvVote now v) ∈ l ∧ (h', e') ∈ l ∧ vt_kind v = kind ∧ vt_seq v = Some sq ∧ vt_digest v = digest ∧
    vt_env v = e ∧ isKnownSender h' e = true.

(** ... that resolves to the key, and that names the address. *)
Definition received (l : list (env * event)) (kind : vote_kind) (sq : Z) (digest k : string) : Prop :=
  ∃ h e, vote_of l kind sq digest h e ∧ resolveSenderPubkey h e = Some k.

Definition received_from (l : list (env * event)) (kind : vote_kind) (sq : Z) (digest a : string) : Prop :=
  ∃ h e, vote_of l kind sq digest h e ∧ sender e = a.

(** A received PRE_PREPARE that passed the checks of its arrival: an admitted
    sender, a sequence past the applied one, and the digest of its own config. *)
Definition accepted (s0 : state) (l : list (env * event)) (m : preprepare) : Prop :=
  ∃ l1 h now l2 sq, l = l1 ++ (h, EvPrePrepare now m) :: l2 ∧ pp_seq m = Some sq ∧ 0 < sq ∧
    lastAppliedSeq (run sha256 l1 s0) < sq ∧ isKnownSender h (pp_env m) = true ∧ sha256 (pp_config m) = pp_digest m.

(** ... for the slot and digest of the round, from the leader that the hub [h]
    elects for the view it claims, among the members the round was opened over. *)
Definition leads (s0 : state) (l : list (env * event)) (p : proposal) (h : env) (m : preprepare) : Prop :=
  accepted s0 l m ∧ pp_seq m = Some (p_seq p) ∧ pp_digest m = p_digest p ∧
  ∃ l1 e l2 vw, l = l1 ++ (h, e) :: l2 ∧ pp_view m = Some vw ∧
    leaderIdentityOk h (run sha256 l1 s0) (p_seq p) vw (pp_env m) (p_members p) = true.

Record counted (s0 : state) (l : list (env * event)) (p : proposal) : Prop := {
  ct_prepares a : a ∈ p_prepares p →
    own_addr l a ∨ received_from l VPrepare (p_seq p) (p_digest p) a ∨
    ∃ h m, leads s0 l p h m ∧ sender (pp_env m) = a;
  ct_preparePks k : k ∈ p_preparePks p →
    own_key l k ∨ received l VPrepare (p_seq p) (p_digest p) k ∨
    ∃ h m, leads s0 l p h m ∧ resolveSenderPubkey h (pp_env m) = Some k;
  ct_commits a : a ∈ p_commits p → own_addr l a ∨ received_from l VCommit (p_seq p) (p_digest p) a;
  ct_commitPks k : k ∈ p_commitPks p → own_key l k ∨ received l VCommit (p_seq p) (p_digest p) k }.

(** The buffer holds received votes, and every round's votes are accounted for. *)
Record backed (s0 : state) (l : list (env * event)) (s : state) : Prop := {
  bk_early k b v : (k, b) ∈ earlyVotes s → v ∈ b → ∃ h now, (h, EvVote now v) ∈ l;
  bk_counted pid p : heap s !! pid = Some p → counted s0 l p }.

(** *** Longer runs *)

(** What a longer run still accounts for. *)
Definition extends (l l' : list (env * event)) : Prop := ∃ r, l' = l ++ r.

Lemma extends_sub l l' : extends l l' → l ⊆ l'.
Proof. intros [r ->]. set_solver. Qed.

Lemma vote_of_weaken l l' kind sq d h e : l ⊆ l' → vote_of l kind sq d h e → vote_of l' kind sq d h e.
Proof. intros Hl (h0 & now & v & e' & ? & ? & ?). exists h0, now, v, e'. auto. Qed.

Lemma accepted_weaken s0 l l' m : extends l l' → accepted s0 l m → accepted s0 l' m.
Proof. intros [r ->] (l1 & h & now & l2 & sq & -> & ?). exists l1, h, now, (l2 ++ r), sq. by rewrite <-app_assoc. Qed.

Lemma leads_weaken s0 l l' p h m : extends l l' → leads s0 l p h m → leads s0 l' p h m.
Proof.
  intros Hl (Ha & ? & ? & l1 & e & l2 & vw & Hs & ?). split_and!; [by eapply accepted_weaken|done|done|].
  destruct Hl as [r ->]. exists l1, e, (l2 ++ r), vw. by rewrite Hs, <-app_assoc.
Qed.

Lemma counted_weaken s0 l l' p : extends l l' → counted s0 l p → counted s0 l' p.
Proof.
  intros He [C1 C2 C3 C4]. pose proof (extends_sub _ _ He) as Hl.
  assert (Hown : ∀ a, own_addr l a → own_addr l' a) by (intros a (h & e & ? & ?); exists h, e; auto).
  assert (Hkey : ∀ k, own_key l k → own_key l' k) by (intros k (h & e & id & ? & ?); exists h, e, id; auto).
  assert (Hrec : ∀ kd sq d k, received l kd sq d k → received l' kd sq d k)
    by (intros kd sq d k (h & e & ? & ?); exists h, e; eauto using vote_of_weaken).
  assert (Hfrom : ∀ kd sq d a, received_from l kd sq d a → received_from l' kd sq d a)
    by (intros kd sq d a (h & e & ? & ?); exists h, e; eauto using vote_of_weaken).
  split.
  - intros a [?|[?|(h & m & ? & ?)]]%C1; auto. right; right. exists h, m. eauto using leads_weaken.
  - intros k [?|[?|(h & m & ? & ?)]]%C2; auto. right; right. exists h, m. eauto using leads_weaken.
  - intros a [?|?]%C3; auto.
  - intros k [?|?]%C4; auto.
Qed.

Lemma backed_weaken s0 l l' s : extends l l' → backed s0 l s → backed s0 l' s.
Proof.
  intros Hl [H1 H2]. split; [|by eauto using counted_weaken].
  intros k b v Hk Hv. destruct (H1 _ _ _ Hk Hv) as (h & now & ?). exists h, now. by apply (extends_sub l).
Qed.

Lemma omap_delete_elem {V} k (m : list (Z * V)) x : x ∈ omap_delete k m → x ∈ m.
Proof. unfold omap_delete. by intros [_ ?]%list_elem_of_filter. Qed.

Lemma early_subset_prune now s x : x ∈ earlyVotes (pruneEarlyVotes now s) → x ∈ earlyVotes s.
Proof.
  unfold pruneEarlyVotes. generalize (earlyVoteTtl s). intros l. revert s.
  induction l as [|kv l IH]; intros s; simpl; [done|]. intros H%IH. revert H.
  case_match; [apply omap_delete_elem|done].
Qed.

Lemma early_subset_evict n s x : x ∈ earlyVotes (evictOldest n s) → x ∈ earlyVotes s.
Proof.
  revert s. induction n as [|n IH]; intros s; simpl; [done|].
  destruct (earlyVotes s) as [|[k v] r] eqn:E; [rewrite ?E; done|]. case_match; [|rewrite ?E; done].
  intros Hx%IH. rewrite <-E. apply (omap_delete_elem k). exact Hx.
Qed.

Lemma omap_set_elem_weak {V} k (v : V) m x w : (x, w) ∈ omap_set k v m → w = v ∨ (x, w) ∈ m.
Proof.
  induction m as [|[y u] m IH]; simpl.
  - intros [[= -> ->]|H]%elem_of_cons; [by left|set_solver].
  - destruct (y =? k); simpl; (intros [[= -> ->]|Hin]%elem_of_cons; [set_solver|]); set_solver.
Qed.

(** *** Steps that keep the votes accounted for *)

Section Steps.
Context (s0 : state) (l : list (env * event)).
Abbreviation backed := (backed s0 l).
Abbreviation counted := (counted s0 l).

Lemma backed_frame s s' : backed s → heap s' = heap s → earlyVotes s' = earlyVotes s → backed s'.
Proof. intros [] E1 E2. split; rewrite ?E1, ?E2; done. Qed.

Lemma backed_emit e s : backed s → backed (emit e s).
Proof. intros Hb. by apply (backed_frame s). Qed.

(** A change of one proposal after which its votes are still accounted for. *)
Lemma backed_modify s pid f :
  backed s → (∀ p, heap s !! pid = Some p → counted p → counted (f p)) → backed (modify pid f s).
Proof.
  intros [H1 H2] Hf. split; [done|]. simpl. intros j q. rewrite lookup_alter. case_decide; [|by eauto].
  subst. destruct (heap s !! j) as [p|] eqn:Hp; simpl; [|done]. intros [= <-]. eauto.
Qed.

(** ... in particular one that leaves the slot and the votes alone. *)
Definition same_votes (p q : proposal) : Prop :=
  p_seq q = p_seq p ∧ p_digest q = p_digest p ∧ p_members q = p_members p ∧ p_prepares q = p_prepares p ∧
  p_preparePks q = p_preparePks p ∧ p_commits q = p_commits p ∧ p_commitPks q = p_commitPks p.

Lemma backed_modify_same s pid f : backed s → (∀ p, same_votes p (f p)) → backed (modify pid f s).
Proof.
  intros Hb Hf. apply backed_modify; [done|]. intros p _ [C1 C2 C3 C4].
  destruct (Hf p) as (E1 & E2 & E3 & E4 & E5 & E6 & E7).
  split; unfold leads; rewrite ?E1, ?E2, ?E3, ?E4, ?E5, ?E6, ?E7; done.
Qed.

Lemma counted_prepare p addrs pks :
  counted p →
  (∀ a, a ∈ addrs → own_addr l a ∨ received_from l VPrepare (p_seq p) (p_digest p) a ∨ ∃ h m, leads s0 l p h m ∧ sender (pp_env m) = a) →
  (∀ k, k ∈ pks → own_key l k ∨ received l VPrepare (p_seq p) (p_digest p) k ∨ ∃ h m, leads s0 l p h m ∧ resolveSenderPubkey h (pp_env m) = Some k) →
  counted (set_p_preparePks (pks ∪ p_preparePks p) (set_p_prepares (addrs ∪ p_prepares p) p)).
Proof.
  intros [C1 C2 C3 C4] Ha Hk. split; [| |exact C3|exact C4]; simpl.
  - intros a [?|?]%elem_of_union; [by apply Ha|by apply C1].
  - intros k [?|?]%elem_of_union; [by apply Hk|by apply C2].
Qed.

Lemma counted_commit p addrs pks :
  counted p →
  (∀ a, a ∈ addrs → own_addr l a ∨ received_from l VCommit (p_seq p) (p_digest p) a) →
  (∀ k, k ∈ pks → own_key l k ∨ received l VCommit (p_seq p) (p_digest p) k) →
  counted (set_p_commitPks (pks ∪ p_commitPks p) (set_p_commits (addrs ∪ p_commits p) p)).
Proof.
  intros [C1 C2 C3 C4] Ha Hk. split; [exact C1|exact C2|..]; simpl.
  - intros a [?|?]%elem_of_union; [by apply Ha|by apply C3].
  - intros k [?|?]%elem_of_union; [by apply Hk|by apply C4].
Qed.

(** The sets the handlers add, as unions. *)
Definition key_set (pk : option string) : gset string := match pk with Some k => {[k]} | None => ∅ end.
Lemma add_key_union pk pks : add_key pk pks = key_set pk ∪ pks.
Proof. destruct pk; simpl; [done|]. by rewrite (left_id_L ∅ (∪)). Qed.
Lemma addSelfPubkey_union h pks : addSelfPubkey h pks = key_set (toLowerCase <$> identity h) ∪ pks.
Proof. unfold addSelfPubkey. destruct (identity h); simpl; [done|]. by rewrite (left_id_L ∅ (∪)). Qed.
Lemma elem_of_key_set pk k : k ∈ key_set pk ↔ pk = Some k.
Proof. destruct pk; simpl; set_solver. Qed.

Lemma own_key_of h e k : (h, e) ∈ l → k ∈ key_set (toLowerCase <$> identity h) → own_key l k.
Proof.
  intros He Hk%elem_of_key_set. destruct (identity h) as [id|] eqn:Hid; simplify_eq/=. by exists h, e, id.
Qed.

Lemma backed_checkCommitQuorum h sq s : backed s → backed (checkCommitQuorum h sq s).
Proof.
  intros Hb. unfold checkCommitQuorum. destruct (getProposal sq s) as [[pid p]|]; [|done].
  case_match; [done|]. case_match; [|done].
  apply (backed_frame (modify pid (set_p_applying true) s)); try done. by apply backed_modify_same.
Qed.

Lemma backed_checkPrepareQuorum h e sq s : (h, e) ∈ l → backed s → backed (checkPrepareQuorum h sq s).
Proof.
  intros Hl Hb. unfold checkPrepareQuorum. destruct (getProposal sq s) as [[pid p]|]; [|done].
  do 3 (case_match; [try done|try done]). apply backed_checkCommitQuorum.
  eapply (backed_frame (modify pid _ s)); [|done..]. apply backed_modify; [done|].
  intros q _ Hq. rewrite addSelfPubkey_union.
  apply (counted_commit (set_p_commitSent true q)); [by destruct Hq; split|..].
  - intros a ->%elem_of_singleton. left. by exists h, e.
  - intros k Hk. left. by eapply own_key_of.
Qed.

Lemma backed_early s s' :
  early_only s s' → backed s →
  (∀ k b v, (k, b) ∈ earlyVotes s' → v ∈ b → ∃ h now, (h, EvVote now v) ∈ l) → backed s'.
Proof. intros E [H1 H2] He. split; [done|]. by rewrite E. Qed.

Lemma backed_buffer h h0 now now0 v s :
  (h0, EvVote now0 v) ∈ l → backed s → backed (bufferEarlyVote h now v s).1.
Proof.
  intros Hv Hb. eapply backed_early; [apply early_only_buffer|done|].
  assert (Hold : ∀ k b u, (k, b) ∈ earlyVotes s → u ∈ b → ∃ h now, (h, EvVote now u) ∈ l) by apply Hb.
  unfold bufferEarlyVote. destruct (vt_seq v) as [sq|]; [|done]. do 3 (case_match; [done|]).
  destruct (omap_get sq (earlyVotes _)) as [b|] eqn:Hg; simpl.
  - case_match; simpl; [intros k b' u Hk%early_subset_prune; by apply (Hold k)|].
    intros k b' u [->|Hk%early_subset_prune]%omap_set_elem_weak Hu; [|by apply (Hold k b')].
    apply elem_of_app in Hu as [Hu| ->%list_elem_of_singleton]; [|by eauto].
    apply omap_get_elem, early_subset_prune in Hg. eauto.
  - rewrite omap_set_twice. intros k b' u [->|Hk]%omap_set_elem_weak Hu.
    + apply list_elem_of_singleton in Hu as ->. eauto.
    + apply early_subset_evict, early_subset_prune in Hk. eauto.
Qed.

Lemma hinv_getProposal s sq pid p : hinv s → getProposal sq s = Some (pid, p) → p_seq p = sq.
Proof.
  intros I [Hpend Hp]%getProposal_Some. destruct (hi_pending _ I _ _ Hpend) as (q & Hq & Hs). by simplify_eq.
Qed.

Lemma backed_handleVote h e h0 now now0 v s :
  (h, e) ∈ l → (h0, EvVote now0 v) ∈ l → hinv s → backed s → backed (handleVote h now v s).
Proof.
  intros He Hv I Hb. unfold handleVote, handlePrepare, handleCommit.
  destruct (vt_seq v) as [sq|] eqn:Esq; [|by case_match].
  destruct (_ || _); [by case_match|]. destruct (negb (isKnownSender _ _)) eqn:Ek; [by case_match|]. bools.
  destruct (getProposal sq s) as [[pid p]|] eqn:Ep; [|case_match; by eapply backed_buffer].
  destruct (negb (String.eqb _ _)) eqn:Ed; [by case_match|]. bools. apply String.eqb_eq in Ed.
  pose proof (hinv_getProposal _ _ _ _ I Ep) as Hseq. apply getProposal_Some in Ep as [_ Ep].
  assert (Hvote : ∀ q, heap s !! pid = Some q → vote_of l (vt_kind v) (p_seq q) (p_digest q) h (vt_env v)).
  { intros q Hq. simplify_eq. exists h0, now0, v, e. by rewrite Esq, Ed. }
  destruct (vt_kind v) eqn:Evk.
  - eapply backed_checkPrepareQuorum; [done|]. apply backed_modify; [done|]. intros q Hq Hc. rewrite add_key_union.
    apply counted_prepare; [done|..].
    + intros a ->%elem_of_singleton. right; left. exists h, (vt_env v). eauto.
    + intros k Hk%elem_of_key_set. right; left. exists h, (vt_env v). eauto.
  - apply backed_checkCommitQuorum. apply backed_modify; [done|]. intros q Hq Hc. rewrite add_key_union.
    apply counted_commit; [done|..].
    + intros a ->%elem_of_singleton. right. exists h, (vt_env v). eauto.
    + intros k Hk%elem_of_key_set. right. exists h, (vt_env v). eauto.
Qed.

Lemma backed_replay h e now sq s :
  (h, e) ∈ l → hinv s → backed s → backed (replayEarlyVotes h now sq s).
Proof.
  intros He I Hb. unfold replayEarlyVotes.
  destruct (omap_get sq (earlyVotes s)) as [[|v b]|] eqn:Eg; [done| |done].
  apply omap_get_elem in Eg.
  assert (Hsrc : ∀ u, u ∈ v :: b → ∃ h0 now0, (h0, EvVote now0 u) ∈ l) by (intros; by eapply bk_early).
  set (s1 := with_replayingSeq (Some sq) (dropEarly sq s)).
  assert (Hb1 : backed s1).
  { split; [|exact (bk_counted _ _ _ Hb)]. simpl. intros k b' u Hk%omap_delete_elem. by eapply bk_early. }
  assert (I1 : hinv s1) by (by apply (hinv_frame s _ [])).
  enough (Hf : backed (fold_left (λ s v, handleVote h now v s) (v :: b) s1)) by (by apply (backed_frame _ _ Hf)).
  clearbody s1. revert s1 Hsrc Hb1 I1. generalize (v :: b). clear - He. intros us.
  induction us as [|u us IH]; intros s1 Hsrc Hb1 I1; simpl; [done|].
  destruct (Hsrc u) as (h0 & now0 & ?); [by left|]. apply IH.
  - intros w Hw. apply Hsrc. by right.
  - by eapply backed_handleVote.
  - eapply (steps_preserve (b:=false) (O:=λ _, False)), I1; [apply hinv_micro|apply steps_handleVote].
Qed.

Lemma backed_castPrepare h e now m sq s :
  (h, e) ∈ l → hinv s → backed s →
  (∀ pid p, getProposal sq s = Some (pid, p) → pp_digest m = p_digest p → leads s0 l p h m) →
  backed (castPrepare h now m sq s).
Proof.
  intros He I Hb Hlead. unfold castPrepare. destruct (getProposal sq s) as [[pid p]|] eqn:Ep; [|done].
  destruct (negb (String.eqb _ _)) eqn:Ed; [done|]. bools. apply String.eqb_eq in Ed.
  specialize (Hlead _ _ eq_refl (eq_sym Ed)). apply getProposal_Some in Ep as [_ Ep]. set (s1 := emit _ _).
  assert (Hst : rtc (micro false (λ _, False)) s s1).
  { eapply steps_trans, steps_emit; [|done]. apply steps_grow. intros q. unfold add_key, addSelfPubkey.
    split; [split|split]; simpl; try done; repeat case_match; set_solver. }
  assert (Hb1 : backed s1).
  { eapply (backed_frame (modify pid _ s)); [|done..]. apply backed_modify; [done|]. intros q Hq Hc.
    assert (p = q) as -> by congruence. rewrite addSelfPubkey_union, add_key_union.
    set (q1 := set_p_preparePks (key_set (resolveSenderPubkey h (pp_env m)) ∪ p_preparePks q)
                 (set_p_prepares ({[sender (pp_env m)]} ∪ p_prepares q) q)).
    apply (counted_prepare q1).
    - apply counted_prepare; [done|..].
      + intros a ->%elem_of_singleton. right; right. exists h, m. done.
      + intros k Hk%elem_of_key_set. right; right. exists h, m. done.
    - intros a ->%elem_of_singleton. left. by exists h, e.
    - intros k Hk. left. by eapply own_key_of. }
  eapply backed_replay; [done| |by eapply backed_checkPrepareQuorum].
  eapply (steps_preserve (b:=false) (O:=λ _, False)), I; [apply hinv_micro|].
  eapply steps_trans, steps_checkPrepareQuorum. done.
Qed.

Lemma backed_openRound s p : backed s → counted p → backed (openRound p s).
Proof.
  intros [H1 H2] Hp. split; [done|]. simpl. intros j q. rewrite lookup_insert.
  case_decide; [by intros [= <-]|by apply H2].
Qed.

Lemma backed_initiate h sq c s : backed s → backed (initiateViewChange h sq c s).
Proof. intros Hb. apply (backed_frame s); [done|..]; unfold initiateViewChange; by case_match. Qed.

End Steps.

(** ** Suspended PRE_PREPAREs *)

Lemma takeSuspended_frame k s su s' :
  takeSuspended k s = Some (su, s') → s' = with_opening (opening s') s ∧ (k, su) ∈ opening s ∧ opening s' ⊆ opening s.
Proof.
  unfold takeSuspended. destruct (find _ _) as [[k' su']|] eqn:E; [|done]. intros [= -> <-].
  apply find_some in E as [Hin Hk]. simpl in Hk. apply Nat.eqb_eq in Hk as ->.
  split_and!; [done|by apply list_elem_of_In|]. simpl. intros x. by intros [_ ?]%list_elem_of_filter.
Qed.

Lemma opening_checkCommitQuorum h sq s : opening (checkCommitQuorum h sq s) = opening s.
Proof. unfold checkCommitQuorum. by repeat case_match. Qed.

Lemma opening_checkPrepareQuorum h sq s : opening (checkPrepareQuorum h sq s) = opening s.
Proof. unfold checkPrepareQuorum. repeat case_match; try done. by rewrite opening_checkCommitQuorum. Qed.

Lemma opening_buffer h now v s : opening (bufferEarlyVote h now v s).1 = opening s.
Proof. by rewrite (early_only_buffer h now v s). Qed.

Lemma opening_handleVote h now v s : opening (handleVote h now v s) = opening s.
Proof.
  unfold handleVote, handlePrepare, handleCommit. repeat case_match; try done;
    by rewrite ?opening_checkPrepareQuorum, ?opening_checkCommitQuorum, ?opening_buffer.
Qed.

Lemma opening_replay h now sq s : opening (replayEarlyVotes h now sq s) = opening s.
Proof.
  unfold replayEarlyVotes. destruct (omap_get sq (earlyVotes s)) as [[|v b]|]; try done.
  assert (Hf : ∀ us s', opening (fold_left (λ s v, handleVote h now v s) us s') = opening s').
  { induction us as [|u us IH]; intros s'; simpl; [done|]. by rewrite IH, opening_handleVote. }
  etransitivity; [apply (Hf (v :: b))|done].
Qed.

Lemma opening_castPrepare h now m sq s : opening (castPrepare h now m sq s) = opening s.
Proof.
  unfold castPrepare. repeat case_match; try done. by rewrite opening_replay, opening_checkPrepareQuorum.
Qed.

(** The message of a suspended handler. *)
Definition paused (su : suspended) : preprepare := match su with WaitTip m _ | WaitLock m => m end.

Definition paused_accepted (s0 : state) (l : list (env * event)) (s : state) : Prop :=
  ∀ k su, (k, su) ∈ opening s → accepted s0 l (paused su).

Lemma paused_accepted_handle s0 l h e :
  let s := run sha256 l s0 in
  paused_accepted s0 (l ++ [(h, e)]) s → paused_accepted s0 (l ++ [(h, e)]) (handle sha256 h e s).
Proof.
  intros s Hok.
  assert (Hsub : ∀ s', opening s' ⊆ opening s → paused_accepted s0 (l ++ [(h, e)]) s') by (intros s' Hs k su Hk; apply (Hok k su), Hs, Hk).
  destruct e; simpl; try (apply Hsub; simpl; done).
  - unfold propose. repeat case_match; apply Hsub; try done;
      simpl; unfold openLeaderRound; by rewrite opening_checkPrepareQuorum.
  - unfold handlePrePrepare. destruct (pp_seq m) as [sq|] eqn:Esq, (pp_view m) as [vw|] eqn:Ev; try done.
    destruct (prePrepareAdmissible _ _ _ _) eqn:Ea; [simpl|done].
    assert (Hacc : accepted s0 (l ++ [(h, EvPrePrepare now m)]) m).
    { unfold prePrepareAdmissible in Ea. rewrite Esq in Ea. bools. exists l, h, now, [], sq. split_and!; try done.
      match goal with H : String.eqb (digest _ _) _ = true |- _ => by apply String.eqb_eq in H end. }
    destruct (getProposal sq s) as [[pid p]|].
    + case_match; [apply Hsub; by rewrite opening_castPrepare|done].
    + case_match; [done|]. case_match; intros k su [[= -> ->]|Hk]%elem_of_cons; try done; by apply (Hok k).
  - unfold resumeTip. destruct (takeSuspended k s) as [[[m f|m] s']|] eqn:E; [|done..].
    apply takeSuspended_frame in E as (_ & Hin & Hsub'). case_match; [|by apply Hsub].
    intros k' su [[= -> ->]|Hk]%elem_of_cons; [by apply (Hok _ _ Hin)|by apply (Hok k'), Hsub'].
  - unfold resumeLock. destruct (takeSuspended k s) as [[[m f|m] s']|] eqn:E; [done| |done].
    apply takeSuspended_frame in E as (_ & _ & Hsub').
    repeat case_match; apply Hsub; try done. by rewrite opening_castPrepare.
  - apply Hsub. by rewrite opening_handleVote.
  - apply Hsub. unfold handleViewChange, acceptViewChange. by repeat case_match.
  - apply Hsub. unfold handleNewView. by repeat case_match.
  - apply Hsub. unfold finishApply, persistAppliedRound, unlockFailedApply. by repeat case_match.
  - apply Hsub. unfold leaderTimeout, initiateViewChange. by repeat case_match.
  - apply Hsub. unfold followerTimeout. by repeat case_match.
Qed.

Lemma run_paused_accepted l last vs : paused_accepted (initial last vs) l (run sha256 l (initial last vs)).
Proof.
  induction l as [|[h e] l IH] using rev_ind; [intros k su Hk; simpl in Hk; set_solver|].
  rewrite run_snoc. apply paused_accepted_handle. intros k su Hk. eapply accepted_weaken, (IH _ _ Hk). by eexists.
Qed.

(** ** The votes of a run *)

Lemma leader_of_quorum h round s m sq vw lk q w :
  followerRoundQuorum h round s m sq vw lk = Some (q, w) → leaderIdentityOk h s sq vw (pp_env m) (memberPubkeySet (lk_snapshot lk)) = true.
Proof. unfold followerRoundQuorum. destruct (leaderIdentityOk _ _ _ _ _ _); [done|]. intros H. by repeat case_match. Qed.

Lemma backed_resumeLock s0 l h now k tip fetch :
  let s := run sha256 l s0 in let l' := l ++ [(h, EvResumeLock now k tip fetch)] in
  hinv s → paused_accepted s0 l' s → backed s0 l' s → backed s0 l' (resumeLock h now k tip fetch s).
Proof.
  intros s l' I Hpa Hb. unfold resumeLock. destruct (takeSuspended k s) as [[[m f|m] s']|] eqn:E; [done| |done].
  apply takeSuspended_frame in E as (Es & Hin & _). specialize (Hpa _ _ Hin). simpl in Hpa.
  assert (Hb' : backed s0 l' s') by (rewrite Es; by eapply backed_frame).
  assert (I' : hinv s') by (rewrite Es; by apply (hinv_frame s _ [])).
  destruct (pp_seq m) as [sq|] eqn:Eq, (pp_view m) as [vw|] eqn:Ev; try done.
  destruct (followerRoundQuorum _ _ _ _ _ _ _) as [[q w]|] eqn:Er; [|done].
  eapply (backed_castPrepare s0 l' h (EvResumeLock now k tip fetch)); [unfold l'; set_solver|by apply hinv_open|..].
  - apply backed_openRound; [done|]. split; simpl; set_solver.
  - intros pid p' [Hp Hh]%getProposal_Some _. simpl in Hp, Hh. rewrite lookup_insert_eq in Hp. simplify_eq.
    rewrite lookup_insert_eq in Hh. simplify_eq. split_and!; [done..|]. exists l, (EvResumeLock now k tip fetch), [], vw.
    split_and!; [done..|]. apply leader_of_quorum in Er. by rewrite Es in Er.
Qed.

Lemma backed_handlePrePrepare s0 l h now m :
  let s := run sha256 l s0 in let l' := l ++ [(h, EvPrePrepare now m)] in
  hinv s → backed s0 l' s → backed s0 l' (handlePrePrepare sha256 h now m s).
Proof.
  intros s l' I Hb. unfold handlePrePrepare. destruct (pp_seq m) as [sq|] eqn:Esq, (pp_view m) as [vw|] eqn:Ev; try done.
  destruct (prePrepareAdmissible _ _ _ _) eqn:Ea; [simpl|done].
  destruct (getProposal sq s) as [[pid p]|] eqn:Ep; [|case_match; [done|]; case_match; by eapply backed_frame].
  destruct (leaderIdentityOk _ _ _ _ _ _) eqn:El; [|done].
  eapply (backed_castPrepare s0 l' h (EvPrePrepare now m)); [unfold l'; set_solver|done..|].
  intros pid' p' Hp' Hd. rewrite Ep in Hp'. simplify_eq. pose proof (hinv_getProposal _ _ _ _ I Ep) as Hsq.
  split_and!; [|by rewrite Hsq|done|].
  - unfold prePrepareAdmissible in Ea. rewrite Esq in Ea. bools. exists l, h, now, [], sq. split_and!; try done.
    match goal with H : String.eqb (digest _ _) _ = true |- _ => by apply String.eqb_eq in H end.
  - exists l, (EvPrePrepare now m), [], vw. by rewrite Hsq.
Qed.

Lemma backed_finish s0 l pid ok s : backed s0 l s → backed s0 l (finishApply pid ok s).
Proof.
  intros Hb. unfold finishApply. case_match; [|done].
  destruct ok; unfold persistAppliedRound, unlockFailedApply; simpl; destruct (heap s !! pid) as [p|];
    try (by eapply backed_frame); case_match.
  - eapply (backed_frame _ _ (modify pid (set_p_resolved true) (modify pid (set_p_applied true) s))); [|done..].
    do 2 (apply backed_modify_same; [|done]). done.
  - eapply (backed_frame _ _ (modify pid (set_p_applied true) s)); [|done..]. by apply backed_modify_same.
  - eapply (backed_frame _ _ (modify pid (set_p_resolved true) (modify pid (set_p_applying false) s))); [|done..].
    do 2 (apply backed_modify_same; [|done]). done.
  - eapply (backed_frame _ _ (modify pid (set_p_applying false) s)); [|done..]. by apply backed_modify_same.
Qed.

Lemma backed_timeouts s0 l h pid s :
  backed s0 l s → backed s0 l (leaderTimeout h pid s) ∧ backed s0 l (followerTimeout pid s).
Proof.
  intros Hb. assert (Hb' : backed s0 l (modify pid (set_p_resolved true) s)) by by apply backed_modify_same.
  unfold leaderTimeout, followerTimeout. destruct (heap s !! pid) as [p|]; [|done].
  split; (case_match; [done|]); [apply backed_emit, backed_initiate|]; by eapply (backed_frame _ _ (modify pid (set_p_resolved true) s)).
Qed.

Lemma backed_handle s0 l h e :
  let s := run sha256 l s0 in let l' := l ++ [(h, e)] in
  hinv s → paused_accepted s0 l' s → backed s0 l' s → backed s0 l' (handle sha256 h e s).
Proof.
  intros s l' I Hpa Hb. assert (He : (h, e) ∈ l') by (unfold l'; set_solver). destruct e; simpl.
  - by eapply backed_frame.
  - unfold propose. destruct (proposeRoundQuorum _ _ _ _) as [[[w q]|]|?]; simpl; [|by eapply backed_frame|done].
    case_match; simpl; [by eapply backed_frame|]. unfold openLeaderRound.
    eapply backed_checkPrepareQuorum; [done|]. apply backed_emit. apply backed_openRound; [by eapply backed_frame|].
    split; simpl; try set_solver.
    + intros a ->%elem_of_singleton. left. by eexists _, _.
    + intros k. rewrite addSelfPubkey_union. intros [Hk|Hk]%elem_of_union; [|set_solver]. left. by eapply own_key_of.
  - by apply backed_handlePrePrepare.
  - unfold resumeTip. destruct (takeSuspended k s) as [[[m f|m] s']|] eqn:E; [|done..].
    apply takeSuspended_frame in E as [-> _]. case_match; by eapply backed_frame.
  - by apply backed_resumeLock.
  - by eapply backed_handleVote.
  - unfold handleViewChange. destruct (vm_view m) as [vw|], (vm_seq m) as [sq|]; try done.
    do 2 (case_match; [done|]). case_match; [by eapply backed_frame|].
    case_match; [|by eapply backed_frame]. unfold acceptViewChange. case_match; by eapply backed_frame.
  - unfold handleNewView. destruct (vm_view m) as [vw|], (vm_seq m) as [sq|]; try done.
    case_match; [done|]. destruct (leaderAt _ _ _ _ _); [|done]. case_match; [by eapply backed_frame|done].
  - by apply backed_finish.
  - by apply backed_timeouts.
  - by apply (backed_timeouts _ _ h).
Qed.

Lemma run_backed l last vs : backed (initial last vs) l (run sha256 l (initial last vs)).
Proof.
  induction l as [|[h e] l IH] using rev_ind.
  - split; simpl; [set_solver|]. intros pid p Hp. done.
  - rewrite run_snoc. apply backed_handle; [apply run_hinv|..].
    + intros k su Hk. eapply accepted_weaken, (run_paused_accepted _ _ _ _ _ Hk). by eexists.
    + eapply backed_weaken, IH. by eexists.
Qed.

Lemma run_counted l last vs pid p :
  heap (run sha256 l (initial last vs)) !! pid = Some p → counted (initial last vs) l p.
Proof. apply run_backed. Qed.

(** ** What opened a round *)

(** A follower's round carries the config of a PRE_PREPARE of its leader; a
    round of the hub's own takes the next free sequence, which it leads. *)
Definition opened (s0 : state) (l : list (env * event)) (p : proposal) : Prop :=
  if p_client p
  then ∃ l1 h e l2, let s := run sha256 l1 s0 in
    l = l1 ++ (h, e) :: l2 ∧ p_seq p = Z.max (seqNo s) (lastAppliedSeq s) + 1 ∧ p_digest p = sha256 (p_config p) ∧
    (getLeader h s (p_seq p) (p_members p) = None ∨ isLeader h s (p_seq p) (p_members p) = true)
  else ∃ h m, leads s0 l p h m ∧ pp_config m = p_config p ∧ pp_view m = Some (p_view p).

Lemma opened_stable s0 l : stable (opened s0 l).
Proof.
  intros p q []. unfold opened, leads. rewrite k_client, k_seq, k_digest, k_config, k_members, k_view. done.
Qed.

Lemma opens_opened s0 l h e p :
  let s := run sha256 l s0 in let l' := l ++ [(h, e)] in
  paused_accepted s0 l' s → opens sha256 h e s p → opened s0 l' p.
Proof.
  intros s l' Hpa. destruct e; simpl; try done.
  - intros (w & q & _ & Hl & ->). exists l, h, (EvPropose config tip fetch), []. done.
  - intros (m & s' & sq & vw & q & w & Hts & Eq & Ev & Hq & ->). apply takeSuspended_frame in Hts as (Es & Hin & _).
    specialize (Hpa _ _ Hin). exists h, m. split_and!; [|done..]. split_and!; [done..|].
    exists l, (EvResumeLock now k tip fetch), [], vw. split_and!; [done..|]. apply leader_of_quorum in Hq. by rewrite Es in Hq.
Qed.

Lemma opened_weaken s0 l l' p : extends l l' → opened s0 l p → opened s0 l' p.
Proof.
  intros He. unfold opened. destruct (p_client p).
  - destruct He as [r ->]. intros (l1 & h & e & l2 & -> & ?). exists l1, h, e, (l2 ++ r). by rewrite <-app_assoc.
  - intros (h & m & ? & ?). exists h, m. eauto using leads_weaken.
Qed.

Lemma run_opened l last vs pid p :
  heap (run sha256 l (initial last vs)) !! pid = Some p → opened (initial last vs) l p.
Proof.
  revert pid p. induction l as [|[h e] l IH] using rev_ind; intros pid p; [done|]. rewrite run_snoc. revert pid p.
  eapply (heap_steps _ _ (opened (initial last vs) (l ++ [(h, e)]))); [apply opened_stable| |apply handle_refines, run_hinv|].
  - intros p. apply opens_opened. intros k su Hk. eapply accepted_weaken, (run_paused_accepted _ _ _ _ _ Hk). by eexists.
  - intros k p Hk. eapply opened_weaken, IH, Hk. by eexists.
Qed.

(** ** How often a sequence is persisted *)

(** The rounds of the sequence that this hub ever opened. *)
Definition rounds_of (sq : Z) (s : state) : gset nat := dom (filter (λ kp : nat * proposal, p_seq kp.2 = sq) (heap s)).

Definition persisted_pids (sq : Z) (l : list effect) : list nat :=
  omap (λ e, match e with Persist pid q => if q =? sq then Some pid else None | _ => None end) l.

(** How many times a config change was persisted as applied under the sequence. *)
Definition seq_persists (sq : Z) (l : list effect) : nat := length (persisted_pids sq l).

Lemma elem_of_persisted_pids sq l pid : pid ∈ persisted_pids sq l ↔ Persist pid sq ∈ l.
Proof.
  unfold persisted_pids. rewrite list_elem_of_omap. split.
  - intros (e & He & Hp). destruct e; try done. destruct (Z.eqb_spec seq sq); simplify_eq. done.
  - intros Hp. exists (Persist pid sq). by rewrite Z.eqb_refl.
Qed.

Lemma persisted_pids_NoDup sq l : (∀ pid, (persists pid l ≤ 1)%nat) → NoDup (persisted_pids sq l).
Proof.
  induction l as [|e l IH]; intros Hl; [constructor|].
  assert (Hl' : ∀ pid, (persists pid l ≤ 1)%nat).
  { intros pid. specialize (Hl pid). change (e :: l) with ([e] ++ l) in Hl. rewrite persists_app in Hl. lia. }
  unfold persisted_pids in *. destruct e; simpl; try by apply IH.
  destruct (Z.eqb_spec seq sq) as [->|]; [|by apply IH]. constructor; [|by apply IH].
  intros Hin%elem_of_persisted_pids. specialize (Hl pid).
  change (Persist pid sq :: l) with ([Persist pid sq] ++ l) in Hl. rewrite persists_app in Hl.
  assert (0 < persists pid l)%nat.
  { unfold persists. assert (Hf : Persist pid sq ∈ filter (λ e, is_persist pid e = true) l).
    { apply list_elem_of_filter. split; [simpl; by rewrite Nat.eqb_refl|done]. }
    destruct (filter _ l); [by apply elem_of_nil in Hf|simpl; lia]. }
  assert (persists pid [Persist pid sq] = 1%nat) by (unfold persists; rewrite filter_cons_True by (simpl; by rewrite Nat.eqb_refl); done).
  lia.
Qed.

Lemma run_seq_persists l last vs sq :
  let s := run sha256 l (initial last vs) in (seq_persists sq (out s) ≤ size (rounds_of sq s))%nat.
Proof.
  intros s. pose proof (run_hinv l last vs) as I. fold s in I. unfold seq_persists.
  assert (Hnd : NoDup (persisted_pids sq (out s))).
  { apply persisted_pids_NoDup. intros pid. rewrite (hi_persist _ I). repeat case_match; lia. }
  rewrite <-(size_list_to_set (C:=gset nat) _ Hnd). apply subseteq_size. intros pid Hin.
  apply elem_of_list_to_set, elem_of_persisted_pids in Hin.
  destruct (hi_persisted _ I _ _ Hin) as [(cfg & addrs & pks & Hst) _].
  destruct (hi_start _ I _ _ _ _ _ Hst) as (p & Hp & <- & _).
  apply elem_of_dom. exists p. by apply map_lookup_filter_Some.
Qed.

(** ** The freshness bound *)

(** A PRE_PREPARE that got past its synchronous checks on a configured
    federation: its digest is its config's, its height is positive. *)
Definition screened (m : preprepare) : Prop :=
  digest sha256 (pp_config m) = pp_digest m ∧ ∃ b, pp_btc m = Some b ∧ 0 < b.

(** ... and its height was within tolerance of what this hub's indexer answered for
    its tip; no answer counts as height 0. *)
Definition fresh (l : list (env * event)) (b : Z) : Prop :=
  ∃ h k tip, (h, EvResumeTip k tip) ∈ l ∧ Z.abs (default 0 tip - b) ≤ snapshotToleranceBlocks h.

Definition opening_ok (l : list (env * event)) (s : state) : Prop :=
  ∀ k su, (k, su) ∈ opening s →
    match su with
    | WaitTip m _ => screened m
    | WaitLock m => screened m ∧ ∃ b, pp_btc m = Some b ∧ fresh l b
    end.

Lemma configured_federated h round s : 1 < minValidators h → isFederated h round s = true.
Proof. intros H. unfold isFederated. by rewrite (proj2 (Z.ltb_lt _ _) H). Qed.

Lemma opening_ok_handle l h e s :
  (h, e) ∈ l → 1 < minValidators h → opening_ok l s → opening_ok l (handle sha256 h e s).
Proof.
  intros He Hf Hok. assert (Hsub : ∀ s', opening s' ⊆ opening s → opening_ok l s') by (intros s' Hs k su Hk; apply (Hok k su), Hs, Hk).
  destruct e; simpl; try (apply Hsub; simpl; done).
  - unfold propose. repeat case_match; apply Hsub; try done;
      simpl; unfold openLeaderRound; by rewrite opening_checkPrepareQuorum.
  - unfold handlePrePrepare. destruct (pp_seq m) as [sq|] eqn:Esq, (pp_view m) as [vw|] eqn:Ev; try done.
    destruct (prePrepareAdmissible _ _ _ _) eqn:Ea; [simpl|done].
    destruct (getProposal sq s) as [[pid p]|].
    + case_match; [apply Hsub; by rewrite opening_castPrepare|done].
    + unfold stampedHeightUsable. rewrite (configured_federated h _ s Hf).
      destruct (pp_btc m) as [b|] eqn:Eb; simpl; [|done]. destruct (Z.leb_spec b 0); simpl; [done|].
      intros k su [[= -> ->]|Hk]%elem_of_cons; [|by apply (Hok k)].
      split; [|eauto]. unfold prePrepareAdmissible in Ea. rewrite Esq in Ea. bools. by apply String.eqb_eq.
  - unfold resumeTip. destruct (takeSuspended k s) as [[[m f|m] s']|] eqn:E; [|done..].
    apply takeSuspended_frame in E as (_ & Hin & Hsub').
    destruct (tipBoundOk _ _ _) eqn:Et; [|by apply Hsub].
    intros k' su [[= -> ->]|Hk]%elem_of_cons; [|by apply (Hok k'), Hsub'].
    destruct (Hok _ _ Hin) as [Hd (b & Hb & Hpos)]. split; [split; [done|eauto]|]. exists b. split; [done|].
    unfold tipBoundOk in Et. rewrite Hb in Et. bools.
    exists h, k, tip. done.
  - unfold resumeLock. destruct (takeSuspended k s) as [[[m f|m] s']|] eqn:E; [done| |done].
    apply takeSuspended_frame in E as (_ & _ & Hsub').
    repeat case_match; apply Hsub; try done. by rewrite opening_castPrepare.
  - apply Hsub. by rewrite opening_handleVote.
  - apply Hsub. unfold handleViewChange, acceptViewChange. by repeat case_match.
  - apply Hsub. unfold handleNewView. by repeat case_match.
  - apply Hsub. unfold finishApply, persistAppliedRound, unlockFailedApply. by repeat case_match.
  - apply Hsub. unfold leaderTimeout, initiateViewChange. by repeat case_match.
  - apply Hsub. unfold followerTimeout. by repeat case_match.
Qed.

(** Every env of the run configures a federation. *)
Definition configured (l : list (env * event)) : Prop := Forall (λ he : env * event, 1 < minValidators he.1) l.

Lemma opening_ok_weaken l l' s : l ⊆ l' → opening_ok l s → opening_ok l' s.
Proof.
  intros Hl Hok k su Hk. specialize (Hok k su Hk). destruct su; [done|].
  destruct Hok as [? (b & ? & h & j & tip & ? & ?)]. split; [done|]. exists b. split; [done|]. exists h, j, tip. auto.
Qed.

Lemma run_opening_ok l last vs : configured l → opening_ok l (run sha256 l (initial last vs)).
Proof.
  unfold configured. induction l as [|[h e] l IH] using rev_ind; intros Hc.
  - intros k su Hk. simpl in Hk. set_solver.
  - apply Forall_app in Hc as [Hc [Hh _]%Forall_cons]. rewrite run_snoc. apply opening_ok_handle; [set_solver|done|].
    eapply opening_ok_weaken, IH; [set_solver|done].
Qed.

(** What a round of a configured federation was opened with. *)
Definition round_ok (l : list (env * event)) (p : proposal) : Prop :=
  p_digest p = digest sha256 (p_config p) ∧
  ∃ b sn, p_btc p = Some b ∧ p_snapshot p = Some sn ∧ p_quorum p = snapshotQuorum sn ∧
    p_members p = memberPubkeySet (Some sn) ∧
    (if p_client p then snapshotQuorum sn ≠ 0 else 0 < b ∧ fresh l b ∧ sn_validators sn ≠ []).

Lemma round_ok_stable l : stable (round_ok l).
Proof. intros p q [] [Hd Hr]. unfold round_ok. rewrite k_digest, k_config, k_btc, k_snapshot, k_quorum, k_members, k_client. done. Qed.

Lemma lockSnapshot_requested h tip fetch o lk sn :
  lockSnapshot h tip fetch o = lk → lk_snapshot lk = Some sn → ∃ b, lk_requested lk = Some b.
Proof. intros <-. unfold lockSnapshot. case_match; [done|]. repeat case_match; simpl; intros; simplify_eq; eauto. Qed.

Lemma opens_round_ok l h e s p :
  (h, e) ∈ l → 1 < minValidators h → opening_ok l s → opens sha256 h e s p → round_ok l p.
Proof.
  intros He Hf Hok. destruct e; simpl; try done.
  - intros (w & q & Hq & _ & ->). unfold proposeRoundQuorum in Hq.
    rewrite (configured_federated h _ s Hf) in Hq. unfold hasDeterministicSnapshot in Hq.
    destruct (lk_snapshot (lockSnapshot h tip fetch None)) as [sn|] eqn:El; simpl in Hq; [|done].
    destruct (Z.eqb_spec (snapshotQuorum sn) 0); [by repeat case_match|]. simplify_eq.
    destruct (lockSnapshot_requested _ _ _ _ _ _ eq_refl El) as [b Hb].
    split; [done|]. exists b, sn. simpl. by rewrite El.
  - intros (m & s' & sq & vw & q & w & Hts & _ & _ & Hq & ->). apply takeSuspended_frame in Hts as (_ & Hin & _).
    destruct (Hok _ _ Hin) as [[Hd (b & Hb & Hpos)] (b' & Hb' & Hfr)]. simplify_eq.
    unfold followerRoundQuorum, isEmptyFederationSnapshot in Hq. rewrite !(configured_federated h _ s' Hf) in Hq.
    destruct (lk_snapshot (lockSnapshot _ _ _ _)) as [sn|] eqn:El; simpl in Hq; [|done].
    case_bool_decide; [done|]. do 2 (case_match; [done|]). simplify_eq.
    split; [done|]. exists b, sn. simpl. rewrite El, Hb. destruct (Z.eqb_spec b 0); [lia|]. done.
Qed.

Lemma run_round_ok l last vs pid p :
  configured l → heap (run sha256 l (initial last vs)) !! pid = Some p → round_ok l p.
Proof.
  unfold configured. revert pid p. induction l as [|[h e] l IH] using rev_ind; intros pid p Hc; [done|].
  pose proof Hc as Hc'. apply Forall_app in Hc as [Hc [Hh _]%Forall_cons]. rewrite run_snoc. revert pid p.
  eapply (heap_steps _ _ (round_ok (l ++ [(h, e)]))); [apply round_ok_stable| |apply handle_refines, run_hinv|].
  - intros p. apply opens_round_ok; [set_solver|done|].
    eapply opening_ok_weaken, run_opening_ok; [set_solver|done].
  - intros k p Hk. destruct (IH k p Hc Hk) as [? (b & sn & ? & ? & ? & ? & Hx)]. split; [done|].
    exists b, sn. split_and!; try done. destruct (p_client p); [done|].
    destruct Hx as (? & (h' & k' & tip & ? & ?) & ?). split_and!; try done. exists h', k', tip. set_solver.
Qed.

End History.
