(* ===== verification/PbftProps.v ===== *)
(** * The PBFT engine: theorems

    Safety of a round (applied once, behind a commit quorum of the keys that
    committed to it), agreement between two hubs, monotonicity, admission of a
    follower's round, leader rotation, inert messages, and the two behaviours
    modelling showed: a hub can vote twice in one slot, and the initiator of a
    view change is not counted by the tally of keys. *)

From S2P Require Import Prelude GateRegistry BigNum Quorum PbftState PbftEngine PbftInv PbftRefine PbftHistory.
From stdpp Require Import relations pretty.
Open Scope Z_scope.

(** ** Sample hubs, for the witnesses *)

Definition sample_registry : gmap string string := list_to_map [("n1", "aa"); ("n2", "bb"); ("n3", "cc"); ("n4", "dd")].

Definition sample_hub (addr key : string) : env :=
  Env addr (Some key) (λ m, m) "regtest" (Some sample_registry) None 3 0 4 1000 10 true.

Definition sample_snapshot : snapshot :=
  Snapshot (map (λ pk, VRow (Some pk) (Some ("s" +:+ pk)) (Some "25")) ["aa"; "bb"; "cc"; "dd"]) (Some 4) false 700.

Definition sample_fetch (weighted : bool) (b : Z) : option snapshot := Some sample_snapshot.

Definition sample_validators : list validator :=
  map (λ kv, Validator (Some kv.1) (Some kv.2)) [("n1", "aa"); ("n2", "bb"); ("n3", "cc"); ("n4", "dd")].

(** A stand-in for sha256: any function will do, the theorems hold for all. *)
Definition sample_sha (x : string) : string := "h:" +:+ x.

Definition sample_preprepare (from key config : string) : preprepare :=
  PrePrepare (Envelope from (Some key)) (Some 1) (Some 0) (sample_sha config) config (Some 700).

Definition sample_vote (k : vote_kind) (from key config : string) : vote :=
  Vote k (Envelope from (Some key)) (Some 1) (sample_sha config).

(** A whole round as [n1] sees it: the proposal of [n2], the tip, the lock,
    then the votes of the other two. *)
Definition sample_round : list (env * event) :=
  map (pair (sample_hub "n1" "aa"))
    [EvPrePrepare 0 (sample_preprepare "n2" "bb" "cfg"); EvResumeTip 0 (Some 701);
     EvResumeLock 0 0 (Some 701) sample_fetch;
     EvVote 0 (sample_vote VPrepare "n3" "cc" "cfg"); EvVote 0 (sample_vote VCommit "n2" "bb" "cfg");
     EvVote 0 (sample_vote VCommit "n3" "cc" "cfg")].

Section Theorems.
Context {B : BigNumber} (sha256 : string → string).

(** Attempts of a client that proposes again while it is told that this hub
    does not lead, [fuel] at most; the seq that was opened. *)
Fixpoint retry_propose (fuel : nat) (h : env) (config : string) (tip : option Z)
    (fetch : bool → Z → option snapshot) (s : state) : option state :=
  match fuel with
  | O => None
  | S f => match propose sha256 h config tip fetch s with
           | (s', Ok _) => Some s'
           | (s', Err (NotTheLeader _)) => retry_propose f h config tip fetch s'
           | (_, Err _) => None
           end
  end.

(** The two views of [propose] past its quorum checks. *)
Lemma propose_cases h config tip fetch s w q ms :
  let lk := lockSnapshot h tip fetch None in
  proposeRoundQuorum h (Some (notedHeight h tip None)) s lk = Ok (Some (w, q)) →
  memberPubkeySet (lk_snapshot lk) = Some ms →
  let n := Z.max (seqNo s) (lastAppliedSeq s) + 1 in
  if isLeader h s n (Some ms)
  then ∃ s', propose sha256 h config tip fetch s = (s', Ok true)
  else propose sha256 h config tip fetch s = (with_seqNo n s, Err (NotTheLeader n)).
Proof.
  intros lk Hq Hms n. unfold propose. fold lk. rewrite Hq, Hms. cbv zeta. fold n.
  assert (Hl : ∃ l, getLeader h s n (Some ms) = Some l).
  { unfold getLeader, leaderAt. case_bool_decide as Hem; [|eauto]. exfalso. subst ms.
    unfold memberPubkeySet in Hms. destruct (lk_snapshot lk); [|done]. case_bool_decide; [done|]. by simplify_eq. }
  destruct Hl as [l Hl]. unfold isLeader. rewrite Hl.
  destruct (isLeaderIdentity (Some l) _ _); simpl; eauto.
Qed.

(** The checks before the leader question do not read the sequence. *)
Lemma proposeRoundQuorum_seq h round s lk n :
  proposeRoundQuorum h round (with_seqNo n s) lk = proposeRoundQuorum h round s lk.
Proof. done. Qed.

Lemma rotation_lookup {A} (l : list A) (i : nat) (n : Z) :
  (i < length l)%nat → n mod Z.of_nat (length l) = Z.of_nat i → 0 ≤ n → rotation l n = l !! i.
Proof.
  intros Hi Hn Hpos. unfold rotation. rewrite Z.rem_mod_nonneg by lia. rewrite Hn.
  destruct (Z.ltb_spec (Z.of_nat i) 0); [lia|]. by rewrite Nat2Z.id.
Qed.

(** The slot of a member's key leads by that key. *)
Lemma leads_at h s ms i pk n :
  ms ≠ ∅ → sort_strings (elements ms) !! i = Some pk → identity h = Some pk → pk ≠ "" → toLowerCase pk = pk →
  0 ≤ n + view s → (n + view s) mod Z.of_nat (size ms) = Z.of_nat i → isLeader h s n (Some ms) = true.
Proof.
  intros Hne Hi Hid Hpk Hlow Hpos Hmod. unfold isLeader, getLeader, leaderAt.
  rewrite bool_decide_false by done.
  assert (Hlen : length (sort_strings (elements ms)) = size ms) by (by rewrite length_sort_strings).
  rewrite (rotation_lookup _ i), Hi; [|by apply lookup_lt_is_Some; eauto|by rewrite Hlen|done].
  assert (Ht : truthy (Some pk) = Some pk) by (simpl; by destruct (String.eqb_spec pk "")).
  unfold isLeaderIdentity, selfPubkey. rewrite Hid. cbn [l_addr l_pubkey]. rewrite !Ht.
  change (toLowerCase <$> Some pk) with (Some (toLowerCase pk)).
  rewrite Hlow, Ht, String.eqb_refl. by case_match.
Qed.

Lemma retry_leads h config tip fetch w q ms i pk :
  let lk := lockSnapshot h tip fetch None in
  memberPubkeySet (lk_snapshot lk) = Some ms →
  sort_strings (elements ms) !! i = Some pk → identity h = Some pk → pk ≠ "" → toLowerCase pk = pk →
  ∀ d s, proposeRoundQuorum h (Some (notedHeight h tip None)) s lk = Ok (Some (w, q)) →
    0 ≤ Z.max (seqNo s) (lastAppliedSeq s) + view s →
    (Z.max (seqNo s) (lastAppliedSeq s) + 1 + Z.of_nat d + view s) mod Z.of_nat (size ms) = Z.of_nat i →
    is_Some (retry_propose (S d) h config tip fetch s).
Proof.
  intros lk Hms Hi Hid Hpk Hlow d. assert (Hne : ms ≠ ∅).
  { intros ->. rewrite elements_empty in Hi. done. }
  induction d as [|d IH]; intros s Hq Hpos Hmod;
    pose proof (propose_cases h config tip fetch s w q ms Hq Hms) as Hc; simpl in Hc.
  - rewrite (leads_at h s ms i pk) in Hc; [|done..|lia|by rewrite <-Hmod; f_equal; lia].
    destruct Hc as [s' Hs']. simpl. rewrite Hs'. eauto.
  - destruct (isLeader h s _ (Some ms)).
    + destruct Hc as [s' Hs']. simpl. rewrite Hs'. eauto.
    + cbn [retry_propose]. rewrite Hc. apply IH; [done|simpl; lia|].
      rewrite <-Hmod. f_equal. simpl. lia.
Qed.

Lemma retry_mono h config tip fetch n m s :
  (n ≤ m)%nat → is_Some (retry_propose n h config tip fetch s) → is_Some (retry_propose m h config tip fetch s).
Proof.
  revert m s. induction n as [|n IH]; intros m s Hle Hs; [by apply is_Some_None in Hs|].
  destruct m as [|m]; [lia|]. simpl in *. destruct (propose _ _ _ _ _ _) as [s' [b|[]]]; try done. apply IH; [lia|done].
Qed.

Lemma member_key sn ms pk :
  memberPubkeySet sn = Some ms → pk ∈ ms → pk ≠ "" ∧ toLowerCase pk = pk.
Proof.
  unfold memberPubkeySet. destruct sn as [sn|]; [|done]. case_bool_decide; [done|]. intros [= <-].
  unfold member_keys. rewrite elem_of_list_to_set, list_elem_of_omap. intros (v & _ & Hv).
  destruct (truthy (v_pubkey v)) as [k|] eqn:Ek; [|done]. simplify_eq/=. split; [|apply toLowerCase_idemp].
  unfold truthy in Ek. destruct (v_pubkey v) as [k'|]; [|done]. destruct (String.eqb_spec k' ""); [done|].
  simplify_eq. by destruct k.
Qed.

(** C25: every round a hub ever holds was opened by the checks of the code, and every
    vote it counts is a real one. A follower's round has the config, the digest and
    the view of a received PRE_PREPARE of an admitted sender that this hub elects as
    leader of that view among the members the round was locked to, whose sequence
    was past the applied one on arrival and whose digest is that of its config; a
    round of the hub's own takes the next sequence, and the hub leads it or no
    leader is elected. Each address and each key of the PREPARE and COMMIT tallies
    is the hub's own, or of a received vote of an admitted sender for the round's own
    sequence and digest, or, among the PREPAREs, of such a PRE_PREPARE. On a configured
    federation the round has a block-locked snapshot that its quorum and its members
    come from, and a follower's height is positive and within tolerance of the
    hub's own tip, where an unanswered tip counts as height 0. *)
Theorem rounds_are_screened l last vs pid p :
  heap (run sha256 l (initial last vs)) !! pid = Some p →
  opened sha256 (initial last vs) l p ∧ counted sha256 (initial last vs) l p ∧ (configured l → round_ok sha256 l p).
Proof.
  intros Hp. split_and!; [by eapply run_opened|by eapply run_counted|]. intros Hc. by eapply run_round_ok.
Qed.

(** C1: in any run, a config change is persisted at most once per round that was
    opened, so never more often under one sequence than rounds of that sequence were
    opened (a sequence can be opened twice, see [raced_preprepare_applies_twice]); and
    only behind a started apply whose commit quorum is made of keys that each
    sent this hub a COMMIT for the round's own sequence and digest and were admitted,
    or are its own; the applied sequence covers it. *)
Theorem applied_round_was_committed l last vs pid sq :
  let s := run sha256 l (initial last vs) in
  Persist pid sq ∈ out s →
  persists pid (out s) = 1%nat ∧ (seq_persists sq (out s) ≤ size (rounds_of sq s))%nat ∧ sq ≤ lastAppliedSeq s ∧
  ∃ p addrs pks, heap s !! pid = Some p ∧ p_seq p = sq ∧
    StartApply pid sq (p_config p) addrs pks ∈ out s ∧
    proposalQuorumMet p addrs pks = true ∧ addrs ⊆ p_commits p ∧
    ∀ k, k ∈ pks → own_key l k ∨ received l VCommit sq (p_digest p) k.
Proof.
  intros s Hin. pose proof (run_hinv sha256 l last vs) as I. fold s in I.
  destruct (hi_persisted _ I _ _ Hin) as [(cfg & addrs & pks & Hst) Hle].
  destruct (hi_start _ I _ _ _ _ _ Hst) as (p & Hp & <- & <- & Hm & Ha & Hk).
  split; [|split; [apply run_seq_persists|split; [done|]]].
  - pose proof (hi_persist _ I pid) as Hc. rewrite Hp in Hc. destruct (p_applied p); [done|]. exfalso.
    unfold persists in Hc. apply length_zero_iff_nil in Hc.
    apply (filter_nil_not_elem_of _ _ (Persist pid (p_seq p)) Hc); [simpl; by rewrite Nat.eqb_refl|done].
  - exists p, addrs, pks. split_and!; try done. intros k Hkk.
    eapply ct_commitPks; [by eapply run_counted|]. by apply Hk.
Qed.

(** A hub broadcasts COMMIT only for a round it holds whose PREPARE votes
    met the round's quorum. *)
Theorem commit_behind_prepare_quorum s sq d eq :
  reachable sha256 s → BroadcastCommit sq d eq ∈ out s →
  ∃ pid p addrs pks, heap s !! pid = Some p ∧ p_seq p = sq ∧ p_digest p = d ∧ p_commitSent p = true ∧
    proposalQuorumMet p addrs pks = true ∧ addrs ⊆ p_prepares p ∧ pks ⊆ p_preparePks p.
Proof. intros R. apply hi_commit. by eapply reachable_hinv. Qed.

(** No event takes the applied sequence back, and no message, timer or
    apply takes the view back; only opening a round of one's own does. *)
Theorem progress_monotone h e s :
  reachable sha256 s →
  lastAppliedSeq s ≤ lastAppliedSeq (handle sha256 h e s) ∧
  (is_propose e = false → view s ≤ view (handle sha256 h e s)).
Proof.
  intros R%reachable_hinv. pose proof (handle_refines sha256 h e s R) as Hst. split.
  - induction Hst as [|x y z Hm _ IH]; [done|]. apply last_micro in Hm. lia.
  - intros He. rewrite He in Hst. induction Hst as [|x y z Hm _ IH]; [done|]. apply view_micro in Hm. lia.
Qed.

(** Whatever peers send, the early-vote buffer holds at most 64 sequence
    numbers with at most 64 votes each, every vote under its own sequence, and
    its expiry map has exactly its keys. *)
Theorem early_votes_bounded s :
  reachable sha256 s →
  (earlyVotes s).*1 = (earlyVoteTtl s).*1 ∧ NoDup (earlyVotes s).*1 ∧
  (length (earlyVotes s) ≤ 64)%nat ∧
  ∀ k b, (k, b) ∈ earlyVotes s → (length b ≤ 64)%nat ∧ Forall (λ v, vt_seq v = Some k) b.
Proof. intros [? ? ? ?]%reachable_early_ok. split_and!; auto. Qed.

(** When two hubs both start applying a round locked to the same weighted
    snapshot, sources with more than a third of the stake each have a key that
    committed to the first hub's config and one that committed to the second's:
    conflicting applies need more than a third of the stake to vote twice. *)
Theorem conflicting_applies_share_a_third {L : BigNumberLaws B} l1 l2 n1 n2 vs1 vs2
    pid1 pid2 sq1 sq2 c1 c2 a1 a2 k1 k2 p1 p2 va ix :
  let s1 := run sha256 l1 (initial n1 vs1) in
  let s2 := run sha256 l2 (initial n2 vs2) in
  StartApply pid1 sq1 c1 a1 k1 ∈ out s1 → heap s1 !! pid1 = Some p1 → p_weighted p1 = true → p_validators p1 = va →
  StartApply pid2 sq2 c2 a2 k2 ∈ out s2 → heap s2 !! pid2 = Some p2 → p_weighted p2 = true → p_validators p2 = va →
  Swq.indexStakeSources va = Some ix → Swq.weights_exact (Swq.weightBySource ix) →
  ∃ srcs, Swq.total (Swq.weightBySource ix) < 3 * sumZ (Swq.stake (Swq.weightBySource ix)) srcs ∧
    ∀ src, src ∈ srcs → ∃ x y,
      Swq.pubkeyToSource ix !! toLowerCase x = Some src ∧ Swq.pubkeyToSource ix !! toLowerCase y = Some src ∧
      (own_key l1 x ∨ received l1 VCommit sq1 (p_digest p1) x) ∧
      (own_key l2 y ∨ received l2 VCommit sq2 (p_digest p2) y).
Proof.
  intros s1 s2 St1 Hp1 W1 V1 St2 Hp2 W2 V2 Hix Hex.
  pose proof (run_hinv sha256 l1 n1 vs1) as I1. pose proof (run_hinv sha256 l2 n2 vs2) as I2.
  destruct (hi_start _ I1 _ _ _ _ _ St1) as (q1 & Hq1 & <- & _ & M1 & _ & K1).
  destruct (hi_start _ I2 _ _ _ _ _ St2) as (q2 & Hq2 & <- & _ & M2 & _ & K2).
  fold s1 in Hq1. fold s2 in Hq2. rewrite Hp1 in Hq1. rewrite Hp2 in Hq2. simplify_eq.
  unfold proposalQuorumMet, quorumMet in M1, M2. rewrite W1 in M1. rewrite W2, V2 in M2.
  eexists. split; [by apply (Swq.meets_overlap _ _ _ _ Hix Hex M1 M2)|].
  intros src [Hs2 Hs1]%list_elem_of_filter.
  apply Swq.elem_of_signing in Hs1 as (x & Hx & ?), Hs2 as (y & Hy & ?). exists x, y. split_and!; try done.
  - eapply ct_commitPks; [by eapply run_counted|]. apply K1, elem_of_elements, Hx.
  - eapply ct_commitPks; [by eapply run_counted|]. apply K2, elem_of_elements, Hy.
Qed.

(** An elected member that keeps proposing over one population leads after
    at most as many attempts as the population has members. *)
Theorem proposer_eventually_leads h config tip fetch s w q ms pk :
  let lk := lockSnapshot h tip fetch None in
  proposeRoundQuorum h (Some (notedHeight h tip None)) s lk = Ok (Some (w, q)) →
  memberPubkeySet (lk_snapshot lk) = Some ms → pk ∈ ms → identity h = Some pk →
  0 ≤ Z.max (seqNo s) (lastAppliedSeq s) → 0 ≤ view s →
  is_Some (retry_propose (size ms) h config tip fetch s).
Proof.
  intros lk Hq Hms Hpk Hid Hs Hv. destruct (member_key _ _ _ Hms Hpk) as [Hne Hlow].
  assert (Hin : pk ∈ sort_strings (elements ms)) by (by rewrite elem_of_sort_strings, elem_of_elements).
  apply list_elem_of_lookup_1 in Hin as [i Hi]. pose proof (lookup_lt_Some _ _ _ Hi) as Hlt.
  rewrite length_sort_strings in Hlt. change (length (elements ms)) with (size ms) in Hlt.
  set (base := Z.max (seqNo s) (lastAppliedSeq s) + 1 + view s).
  set (d := (Z.of_nat i - base) mod Z.of_nat (size ms)).
  assert (Hd : 0 ≤ d < Z.of_nat (size ms)) by (apply Z.mod_pos_bound; lia).
  apply (retry_mono _ _ _ _ (S (Z.to_nat d))); [lia|].
  apply (retry_leads h config tip fetch w q ms i pk); try done; [lia|].
  rewrite Z2Nat.id by lia.
  replace (Z.max (seqNo s) (lastAppliedSeq s) + 1 + d + view s) with (base + d) by (unfold base; lia).
  unfold d. rewrite Zplus_mod_idemp_r. replace (base + (Z.of_nat i - base)) with (Z.of_nat i) by lia.
  apply Z.mod_small. lia.
Qed.

End Theorems.

(** ** The canonical order and the election *)

#[export] Instance validator_le_trans : Transitive validator_le.
Proof.
  intros a b c. unfold validator_le. destruct (sort_key a) as [pa aa], (sort_key b) as [pb ab], (sort_key c) as [pc ac].
  intros [[H1 H2]|[-> H2]] [[H3 H4]|[-> H4]]; [|by left..|right; split; [done|by etrans]].
  destruct (decide (pa = pc)) as [->|]; [|left; split; [done|by etrans]].
  exfalso. apply H1. by apply (anti_symm String.le).
Qed.

#[export] Instance validator_le_total : Total validator_le.
Proof.
  intros a b. unfold validator_le. destruct (sort_key a) as [pa aa], (sort_key b) as [pb ab].
  destruct (decide (pa = pb)) as [->|]; [destruct (total String.le aa ab); auto|].
  destruct (total String.le pa pb); eauto.
Qed.

Lemma canonicalValidatorOrder_perm vs1 vs2 :
  NoDup (sort_key <$> vs1) → vs1 ≡ₚ vs2 → canonicalValidatorOrder vs1 = canonicalValidatorOrder vs2.
Proof.
  intros Hnd Hp. unfold canonicalValidatorOrder.
  apply (StronglySorted_unique_strong validator_le);
    [|apply (StronglySorted_merge_sort _ _)..|by rewrite !merge_sort_Permutation].
  intros x y. rewrite merge_sort_Permutation. intros Hx. rewrite merge_sort_Permutation, <-Hp. intros Hy.
  unfold validator_le. intros H1 H2. apply (NoDup_fmap_eq _ _ _ _ Hnd Hx Hy).
  destruct (sort_key x) as [px ax], (sort_key y) as [py ay].
  destruct H1 as [[? ?]|[-> ?]], H2 as [[? ?]|[? ?]]; try congruence.
  - exfalso. match goal with H : px ≠ py |- _ => apply H; by apply (anti_symm String.le) end.
  - f_equal. by apply (anti_symm String.le).
Qed.

Lemma memberPubkeySet_perm sn1 sn2 :
  sn_validators sn1 ≡ₚ sn_validators sn2 → memberPubkeySet (Some sn1) = memberPubkeySet (Some sn2).
Proof.
  intros Hp. unfold memberPubkeySet.
  assert (member_keys (sn_validators sn1) = member_keys (sn_validators sn2)) as ->; [|done].
  unfold member_keys. apply set_eq. intros k. by rewrite !elem_of_list_to_set, Hp.
Qed.

(** Which validator leads a slot does not depend on the order in which the
    live set was loaded or the snapshot's rows arrived: hubs that agree on the
    members elect the same leader. *)
Theorem election_order_independent h s vs1 vs2 sn1 sn2 sq vw :
  NoDup (sort_key <$> vs1) → vs1 ≡ₚ vs2 → sn_validators sn1 ≡ₚ sn_validators sn2 →
  leaderAt h (setValidatorSet vs1 s) sq vw (memberPubkeySet (Some sn1)) =
    leaderAt h (setValidatorSet vs2 s) sq vw (memberPubkeySet (Some sn2)) ∧
  leaderAt h (setValidatorSet vs1 s) sq vw None = leaderAt h (setValidatorSet vs2 s) sq vw None.
Proof.
  intros Hnd Hvs Hsn. unfold setValidatorSet.
  by rewrite (canonicalValidatorOrder_perm _ _ Hnd Hvs), (memberPubkeySet_perm _ _ Hsn).
Qed.

Section Refusals.
Context {B : BigNumber} (sha256 : string → string).

(** Tallying a vote leaves the counters alone. *)
Lemma counters_checkPrepare h sq s :
  let s' := checkPrepareQuorum h sq s in nextId s' = nextId s ∧ seqNo s' = seqNo s ∧ view s' = view s.
Proof. unfold checkPrepareQuorum, checkCommitQuorum. by repeat case_match. Qed.

(** On a configured federation [propose] opens a round only over a
    deterministic snapshot whose quorum is positive, or applies alone as the
    snapshot's only member; every refusal leaves the state as it was, save the
    sequence a non-leader burns. *)
Theorem propose_fails_closed h config tip fetch s :
  1 < minValidators h →
  let lk := lockSnapshot h tip fetch None in
  match propose sha256 h config tip fetch s with
  | (s', Err (NotTheLeader n)) => s' = with_seqNo n s ∧ n = Z.max (seqNo s) (lastAppliedSeq s) + 1
  | (s', Err NoDeterministicSnapshot) => s' = s ∧ lk_snapshot lk = None
  | (s', Err EmptySnapshot) => s' = s ∧ ∃ sn, lk_snapshot lk = Some sn ∧ sn_validators sn = []
  | (s', Err NonMemberSnapshot) => s' = s ∧ ∃ sn, lk_snapshot lk = Some sn ∧ snapshotQuorum sn = 0 ∧
      ∀ k v, selfPubkey h = Some k → v ∈ sn_validators sn → toLowerCase (js_String (v_pubkey v)) ≠ k
  | (s', Ok _) => ∃ sn, lk_snapshot lk = Some sn ∧
      (if snapshotQuorum sn =? 0
       then s' = emit (ApplyDirect config) s ∧
         ∃ k v, selfPubkey h = Some k ∧ v ∈ sn_validators sn ∧ toLowerCase (js_String (v_pubkey v)) = k
       else nextId s' = S (nextId s) ∧ seqNo s' = Z.max (seqNo s) (lastAppliedSeq s) + 1 ∧ view s' = 0)
  end.
Proof.
  intros Hm lk. pose proof (configured_federated h (Some (notedHeight h tip None)) s Hm) as Hf.
  unfold propose. fold lk. unfold proposeRoundQuorum, isEmptyFederationSnapshot, isNonMemberSnapshot.
  rewrite Hf. destruct (lk_snapshot lk) as [sn|] eqn:El; cbn [hasDeterministicSnapshot negb andb]; [|done].
  destruct (Z.eqb_spec (snapshotQuorum sn) 0) as [H0|H0].
  - unfold isEmptySnapshot. case_bool_decide as Hn; simpl; [split; [done|]; by exists sn|].
    destruct (selfPubkey h) as [k|] eqn:Ek; [|split; [done|]; exists sn; naive_solver].
    destruct (existsb _ _) eqn:Eb; simpl; [|split; [done|]].
    + exists sn. rewrite H0. simpl. split_and!; [done..|]. apply existsb_exists in Eb as (v & Hv%list_elem_of_In & E%String.eqb_eq).
      by exists k, v.
    + exists sn. split_and!; [done..|]. intros k' v [= <-] Hv%list_elem_of_In E.
      assert (existsb (λ v, String.eqb (toLowerCase (js_String (v_pubkey v))) k) (sn_validators sn) = true); [|congruence].
      apply existsb_exists. exists v. split; [done|]. by apply String.eqb_eq.
  - match goal with |- context [if ?b then (with_seqNo _ _, _) else _] => destruct b end; [done|].
    exists sn. rewrite (proj2 (Z.eqb_neq _ _) H0). split; [done|].
    unfold openLeaderRound. by edestruct counters_checkPrepare as (-> & -> & ->).
Qed.

(** Messages that fail a guard change nothing: votes, view changes and
    PRE_PREPAREs of a sender the registry does not know, votes for another
    digest than the round's, PRE_PREPAREs for an applied sequence or whose
    digest is not their config's, and a NEW_VIEW that does not come from the
    leader of the view it claims. *)
Theorem unadmitted_messages_inert h now round s :
  (∀ v, isKnownSender h (vt_env v) = false → handleVote h now v s = s) ∧
  (∀ m, isKnownSender h (pp_env m) = false → handlePrePrepare sha256 h now m s = s) ∧
  (∀ m, isKnownSender h (vm_env m) = false → handleViewChange h round m s = s) ∧
  (∀ v sq pid p, vt_seq v = Some sq → getProposal sq s = Some (pid, p) → vt_digest v ≠ p_digest p →
     handleVote h now v s = s) ∧
  (∀ m sq, pp_seq m = Some sq → sq ≤ lastAppliedSeq s ∨ digest sha256 (pp_config m) ≠ pp_digest m →
     handlePrePrepare sha256 h now m s = s) ∧
  (∀ m vw sq, vm_view m = Some vw → vm_seq m = Some sq →
     vw ≤ view s ∨ leaderIdentityOk h s sq vw (vm_env m) (memberPubkeysForSeq sq s) = false →
     handleNewView h m s = s).
Proof.
  assert (Hpp : ∀ m, prePrepareAdmissible sha256 h m s = false → handlePrePrepare sha256 h now m s = s).
  { intros m Hm. unfold handlePrePrepare. destruct (pp_seq m), (pp_view m); try done. by rewrite Hm. }
  split_and!.
  - intros v Hk. unfold handleVote, handlePrepare, handleCommit. rewrite Hk. by repeat case_match.
  - intros m Hk. apply Hpp. unfold prePrepareAdmissible. rewrite Hk. case_match; [|done].
    by rewrite ?andb_false_r.
  - intros m Hk. unfold handleViewChange. rewrite Hk. by repeat case_match.
  - intros v sq pid p Hv Hp Hd%String.eqb_neq. unfold handleVote, handlePrepare, handleCommit.
    rewrite Hv, Hp, Hd. by repeat case_match.
  - intros m sq Hm Hor. apply Hpp. unfold prePrepareAdmissible. rewrite Hm.
    destruct Hor as [Hle|Hd%String.eqb_neq]; [|by rewrite Hd, andb_false_r].
    rewrite (proj2 (Z.ltb_ge _ _) Hle), ?andb_false_r. done.
  - intros m vw sq Hv Hs Hor. unfold handleNewView, leaderIdentityOk in *. rewrite Hv, Hs.
    destruct Hor as [Hle|Hl]; [by rewrite (proj2 (Z.leb_le _ _) Hle)|]. destruct (vw <=? view s); [done|].
    destruct (leaderAt _ _ _ _ _); [by rewrite Hl|done].
Qed.

End Refusals.

(** ** Two behaviours to know *)

(** Two proposals of one leader for one slot, both admitted before either of
    them has opened its round. *)
Definition racing_preprepares : list (env * event) :=
  map (pair (sample_hub "n1" "aa"))
    [EvPrePrepare 0 (sample_preprepare "n2" "bb" "A"); EvPrePrepare 0 (sample_preprepare "n2" "bb" "B");
     EvResumeTip 0 (Some 700); EvResumeTip 1 (Some 700);
     EvResumeLock 0 0 (Some 700) sample_fetch; EvResumeLock 0 1 (Some 700) sample_fetch].

(** The check that no round is open for the sequence is made before the
    handler's awaits and not repeated after them, so two PRE_PREPAREs of a
    leader that equivocates, handled concurrently, make an honest follower sign
    PREPAREs for two configs in one slot (sequence 1, view 0, height 700). *)
Theorem follower_can_prepare_twice :
  let slot d := buildEquivCanonical "XCONFIG" "1" "0" ("700|" +:+ d) in
  let s := run sample_sha racing_preprepares (initial 0 sample_validators) in
  BroadcastPrepare 1 (sample_sha "A") (Some (slot (sample_sha "A"), "aa")) ∈ out s ∧
  BroadcastPrepare 1 (sample_sha "B") (Some (slot (sample_sha "B"), "aa")) ∈ out s.
Proof. vm_compute. split; repeat constructor. Qed.

Section Behaviours.
Context {B : BigNumber}.

(** In a count round the initiator of a view change enters the tally by
    address only, and the tally counts keys as soon as one vote carries one: the
    initiator and one peer are two of two members, yet the change is not
    accepted. *)
Theorem initiator_not_tallied h round m s sq c k :
  vc_weighted c = false → vc_quorum c = 2 → getProposal sq s = None →
  pendingViewChanges s !! (view s + 1) = None → pendingViewChangePubkeys s !! (view s + 1) = None →
  vm_view m = Some (view s + 1) → vm_seq m = Some sq → isKnownSender h (vm_env m) = true →
  resolveSenderPubkey h (vm_env m) = Some k → sender (vm_env m) ≠ validatorAddr h →
  let s1 := initiateViewChange h sq c s in
  let s2 := handleViewChange h round m s1 in
  pendingViewChanges s2 !! (view s + 1) = Some {[sender (vm_env m); validatorAddr h]} ∧
  pendingViewChangePubkeys s2 !! (view s + 1) = Some {[k]} ∧
  out s2 = BroadcastViewChange (view s + 1) sq :: out s.
Proof.
  intros Hw Hq Hp Hpv Hpk Hmv Hms Hk Hr Hne s1 s2.
  assert (Hs1 : s1 = with_pendingViewChanges (<[view s + 1 := {[validatorAddr h]}]> (pendingViewChanges s))
            (emit (BroadcastViewChange (view s + 1) sq) (with_viewChangeQuorums
              (<[sq := c]> (filter (λ kv, lastAppliedSeq s < kv.1) (viewChangeQuorums s))) (with_view (view s + 1) s)))).
  { unfold s1, initiateViewChange. rewrite Hw. simpl. rewrite Hpv. simpl. by rewrite (right_id_L ∅ (∪)). }
  clearbody s1. subst s1. unfold s2, handleViewChange. rewrite Hmv, Hms, Hk. simpl.
  rewrite (proj2 (Z.ltb_ge _ _)) by lia. rewrite (proj2 (Z.ltb_ge _ _)) by (unfold MAX_VIEW_SKEW; lia). simpl.
  rewrite lookup_insert_eq. simpl.
  assert (Hc : ∀ s', heap s' = heap s → pendingProposals s' = pendingProposals s → viewChangeQuorums s' !! sq = Some c →
             viewChangeContext h round sq s' = c).
  { intros s' E1 E2 E3. unfold viewChangeContext, getProposal. rewrite E1, E2. fold (getProposal sq s). rewrite Hp. by rewrite E3. }
  rewrite Hc; [|done|done|simpl; by rewrite lookup_insert_eq]. rewrite Hq. simpl.
  assert (Hone : {[k]} ∪ default ∅ (pendingViewChangePubkeys s !! (view s + 1)) = ({[k]} : gset string))
    by (rewrite Hpk; apply (right_id_L ∅ (∪))).
  unfold quorumMet. rewrite Hw, Hr. simpl. rewrite !Hone, size_singleton. simpl.
  rewrite !lookup_insert_eq. done.
Qed.

End Behaviours.

(** ** Witnesses *)

Lemma sample_reachable l : reachable sample_sha (run sample_sha l (initial 0 sample_validators)).
Proof. apply reachable_run. constructor. Qed.

Definition sample_applied : list (env * event) := sample_round ++ [(sample_hub "n1" "aa", EvFinish 1 true)].

(** Two PRE_PREPAREs of one sequence and config, both suspended before either
    opens a round: the first round is applied and removed, then the second handler
    opens the sequence again, without asking whether it was applied, and the votes
    that arrive afterwards apply it a second time. *)
Definition raced_round : list (env * event) :=
  map (pair (sample_hub "n1" "aa"))
    [EvPrePrepare 0 (sample_preprepare "n2" "bb" "cfg"); EvPrePrepare 0 (sample_preprepare "n2" "bb" "cfg");
     EvResumeTip 0 (Some 701); EvResumeTip 1 (Some 701); EvResumeLock 0 0 (Some 701) sample_fetch;
     EvVote 0 (sample_vote VPrepare "n3" "cc" "cfg"); EvVote 0 (sample_vote VCommit "n2" "bb" "cfg");
     EvVote 0 (sample_vote VCommit "n3" "cc" "cfg"); EvFinish 2 true;
     EvResumeLock 0 1 (Some 701) sample_fetch;
     EvVote 0 (sample_vote VPrepare "n4" "dd" "cfg"); EvVote 0 (sample_vote VCommit "n3" "cc" "cfg");
     EvVote 0 (sample_vote VCommit "n4" "dd" "cfg"); EvFinish 3 true].

Theorem raced_preprepare_applies_twice :
  let s := run sample_sha raced_round (initial 0 sample_validators) in
  persisted_pids 1 (out s) = [3; 2]%nat ∧ seq_persists 1 (out s) = 2%nat ∧ size (rounds_of 1 s) = 2%nat.
Proof. vm_compute. done. Qed.

Definition sample_state : state := run sample_sha sample_round (initial 0 sample_validators).

Lemma applied_round_was_committed_witness :
  let s := run sample_sha sample_applied (initial 0 sample_validators) in
  persists 1 (out s) = 1%nat ∧ (seq_persists 1 (out s) ≤ size (rounds_of 1 s))%nat ∧ size (rounds_of 1 s) = 1%nat.
Proof.
  destruct (applied_round_was_committed sample_sha sample_applied 0 sample_validators 1 1) as (H1 & H2 & _); [vm_compute; by left|].
  split; [exact H1|split; [exact H2|vm_compute; reflexivity]].
Defined.

Lemma commit_behind_prepare_quorum_witness :
  ∃ pid p addrs pks, heap sample_state !! pid = Some p ∧ p_seq p = 1 ∧ p_digest p = sample_sha "cfg" ∧
    p_commitSent p = true ∧ proposalQuorumMet p addrs pks = true ∧ addrs ⊆ p_prepares p ∧ pks ⊆ p_preparePks p.
Proof.
  eapply (commit_behind_prepare_quorum sample_sha sample_state 1 (sample_sha "cfg")); [apply sample_reachable|].
  vm_compute. right. by left.
Defined.

Lemma progress_monotone_witness :
  lastAppliedSeq sample_state ≤ lastAppliedSeq (handle sample_sha (sample_hub "n1" "aa") (EvFinish 1 true) sample_state) ∧
  view sample_state ≤ view (handle sample_sha (sample_hub "n1" "aa") (EvFinish 1 true) sample_state).
Proof.
  destruct (progress_monotone sample_sha (sample_hub "n1" "aa") (EvFinish 1 true) sample_state
              (sample_reachable sample_round)) as [H1 H2].
  split; [exact H1|exact (H2 eq_refl)].
Defined.

Definition sample_early : state :=
  run sample_sha [(sample_hub "n1" "aa", EvVote 0 (sample_vote VCommit "n2" "bb" "cfg"))] (initial 0 sample_validators).

Lemma early_votes_bounded_witness : length (earlyVotes sample_early) = 1%nat ∧ (length (earlyVotes sample_early) ≤ 64)%nat.
Proof.
  split; [vm_compute; reflexivity|].
  apply (early_votes_bounded sample_sha sample_early), sample_reachable.
Defined.

Lemma sample_configured : configured sample_round.
Proof. repeat constructor. Qed.

Lemma rounds_are_screened_witness :
  ∃ p, heap sample_state !! 1%nat = Some p ∧ p_commitPks p = {["aa"; "bb"; "cc"]} ∧
    opened sample_sha (initial 0 sample_validators) sample_round p ∧
    counted sample_sha (initial 0 sample_validators) sample_round p ∧ round_ok sample_sha sample_round p.
Proof.
  destruct (heap sample_state !! 1%nat) as [p|] eqn:E; [|vm_compute in E; discriminate].
  destruct (rounds_are_screened sample_sha sample_round 0 sample_validators 1 p E) as (H1 & H2 & H3).
  exists p. split; [reflexivity|split; [|split; [exact H1|split; [exact H2|exact (H3 sample_configured)]]]].
  revert E. vm_compute. intros E. injection E as <-. reflexivity.
Defined.

Lemma proposer_eventually_leads_witness :
  is_Some (retry_propose sample_sha 4 (sample_hub "n1" "aa") "cfg" (Some 700) sample_fetch (initial 0 sample_validators)).
Proof.
  refine (proposer_eventually_leads sample_sha (sample_hub "n1" "aa") "cfg" (Some 700) sample_fetch
            (initial 0 sample_validators) _ 3 {["aa"; "bb"; "cc"; "dd"]} "aa" _ _ _ _ _ _);
    try (vm_compute; reflexivity); [set_solver|vm_compute; discriminate..].
Defined.

(** The same round at [n3], led astray to another config. *)
Definition other_round : list (env * event) :=
  map (pair (sample_hub "n3" "cc"))
    [EvPrePrepare 0 (sample_preprepare "n2" "bb" "other"); EvResumeTip 0 (Some 701);
     EvResumeLock 0 0 (Some 701) sample_fetch;
     EvVote 0 (sample_vote VPrepare "n4" "dd" "other"); EvVote 0 (sample_vote VCommit "n2" "bb" "other");
     EvVote 0 (sample_vote VCommit "n4" "dd" "other")].

Definition sample_keys : Swq.varray :=
  Swq.VArray (map (λ pk, VRow (Some pk) (Some ("s" +:+ pk)) (Some "25")) ["aa"; "bb"; "cc"; "dd"]) false.

Definition sample_keys_index : Swq.index :=
  Swq.Index [("saa", "25"); ("sbb", "25"); ("scc", "25"); ("sdd", "25")]
    (<["dd" := "sdd"]> (<["cc" := "scc"]> (<["bb" := "sbb"]> (<["aa" := "saa"]> ∅)))).

Lemma sample_keys_exact : Swq.weights_exact (Swq.weightBySource sample_keys_index).
Proof.
  split; [|vm_compute; reflexivity].
  intros kv Hkv. simpl in Hkv. rewrite !elem_of_cons in Hkv.
  destruct Hkv as [-> |[-> |[-> |[-> |?%not_elem_of_nil]]]]; [vm_compute; lia..|done].
Qed.

Definition sample_proposal : proposal := buildFollowerProposal (sample_preprepare "n2" "bb" "cfg") 1 0 (Lock None false None) false 0.

Lemma conflicting_applies_share_a_third_witness :
  ∃ srcs, 100 * 10 ^ 18 < 3 * sumZ (Swq.stake (Swq.weightBySource sample_keys_index)) srcs.
Proof.
  destruct (conflicting_applies_share_a_third sample_sha sample_round other_round 0 0 sample_validators sample_validators
    1 1 1 1 "cfg" "other" {["n1"; "n2"; "n3"]} {["n2"; "n3"; "n4"]} {["aa"; "bb"; "cc"]} {["bb"; "cc"; "dd"]}
    (default sample_proposal (heap sample_state !! 1%nat))
    (default sample_proposal (heap (run sample_sha other_round (initial 0 sample_validators)) !! 1%nat))
    sample_keys sample_keys_index) as (srcs & H & _); try (vm_compute; reflexivity).
  - vm_compute. by left.
  - vm_compute. by left.
  - apply sample_keys_exact.
  - exists srcs. exact H.
Defined.

Lemma propose_fails_closed_witness :
  propose sample_sha (sample_hub "n1" "aa") "cfg" (Some 700) (λ _ _, None) (initial 0 sample_validators) =
    (initial 0 sample_validators, Err NoDeterministicSnapshot) ∧
  lk_snapshot (lockSnapshot (sample_hub "n1" "aa") (Some 700) (λ _ _, None) None) = None.
Proof.
  pose proof (propose_fails_closed sample_sha (sample_hub "n1" "aa") "cfg" (Some 700) (λ _ _, None)
    (initial 0 sample_validators) ltac:(vm_compute; reflexivity)) as [_ H].
  split; [reflexivity|exact H].
Defined.

Lemma election_order_independent_witness :
  leaderAt (sample_hub "n1" "aa") (setValidatorSet (rev sample_validators) (initial 0 [])) 5 2 None =
  leaderAt (sample_hub "n1" "aa") (setValidatorSet sample_validators (initial 0 [])) 5 2 None.
Proof.
  refine (proj2 (election_order_independent (sample_hub "n1" "aa") (initial 0 []) (rev sample_validators) sample_validators
    sample_snapshot sample_snapshot 5 2 _ _ _)); [|symmetry; apply Permutation_rev|reflexivity].
  apply (bool_decide_unpack _). vm_compute. exact I.
Defined.

Lemma initiator_not_tallied_witness :
  out (handleViewChange (sample_hub "n1" "aa") None
         (ViewMsg (Envelope "n2" (Some "bb")) (Some 1) (Some 1))
         (initiateViewChange (sample_hub "n1" "aa") 1 (VcCtx 2 false (Swq.VArray [] false) None)
            (initial 0 sample_validators))) = [BroadcastViewChange 1 1].
Proof.
  apply (initiator_not_tallied (sample_hub "n1" "aa") None
    (ViewMsg (Envelope "n2" (Some "bb")) (Some 1) (Some 1)) (initial 0 sample_validators) 1
    (VcCtx 2 false (Swq.VArray [] false) None) "bb"); try (vm_compute; reflexivity). discriminate.
Defined.
