(* ===== verification/Json.v ===== *)
(** * JSON text

    [JSON.stringify] and [JSON.parse] on the values the hub signs and puts on
    the wire. A string is its UTF-8 bytes. A number is a decimal [m * 10^e] as
    the text spells it; the integers the code prints have [e = 0]. Objects keep
    their keys in order, and reading a key gives the last of that name. *)

From stdpp Require Import pretty.
From S2P Require Import Prelude BigNum.
Open Scope Z_scope.

(** ** Strings

    [JSON.stringify] of a string: the short escapes, [\u00xx] for the other
    control characters, everything else as it is. *)

Definition ch (n : nat) : ascii := Ascii.ascii_of_nat n.

Definition quote : string := String (ch 34) EmptyString.

Definition hex_digit (n : nat) : ascii := if (n <? 10)%nat then ch (48 + n) else ch (87 + n).

Definition esc_char (c : ascii) : string :=
  let n := Ascii.nat_of_ascii c in
  let short d := String (ch 92) (String d EmptyString) in
  if (n =? 34)%nat then short (ch 34)
  else if (n =? 92)%nat then short (ch 92)
  else if (n =? 8)%nat then short "b"%char
  else if (n =? 9)%nat then short "t"%char
  else if (n =? 10)%nat then short "n"%char
  else if (n =? 12)%nat then short "f"%char
  else if (n =? 13)%nat then short "r"%char
  else if (n <? 32)%nat
  then String (ch 92) ("u00" +:+ String (hex_digit (n / 16)) (String (hex_digit (n mod 16)) EmptyString))
  else String c EmptyString.

Fixpoint esc (s : string) : string :=
  match s with EmptyString => EmptyString | String c r => esc_char c +:+ esc r end.

Definition json_string (s : string) : string := quote +:+ esc s +:+ quote.

(** Reading a string body: strict, as [JSON.parse] is. *)
Definition unhex (c : ascii) : option N :=
  let n := Ascii.N_of_ascii c in
  if is_digit c then Some (n - 48)%N
  else if (65 <=? n)%N && (n <=? 70)%N then Some (n - 55)%N
  else if (97 <=? n)%N && (n <=? 102)%N then Some (n - 87)%N
  else None.

Definition hex4 (a b c d : ascii) : option N :=
  a ← unhex a; b ← unhex b; c ← unhex c; d ← unhex d; Some (((a * 16 + b) * 16 + c) * 16 + d)%N.

(** The UTF-8 bytes of a code point, before [r]. *)
Definition utf8 (u : N) (r : string) : string :=
  let byte n := Ascii.ascii_of_N n in
  if (u <? 128)%N then String (byte u) r
  else if (u <? 2048)%N then String (byte (192 + u / 64)%N) (String (byte (128 + u mod 64)%N) r)
  else if (u <? 65536)%N
  then String (byte (224 + u / 4096)%N) (String (byte (128 + (u / 64) mod 64)%N) (String (byte (128 + u mod 64)%N) r))
  else String (byte (240 + u / 262144)%N) (String (byte (128 + (u / 4096) mod 64)%N)
         (String (byte (128 + (u / 64) mod 64)%N) (String (byte (128 + u mod 64)%N) r))).

Definition short_escape (d : ascii) : option ascii :=
  if Ascii.eqb d (ch 34) || Ascii.eqb d (ch 92) || Ascii.eqb d "/"%char then Some d
  else if Ascii.eqb d "b"%char then Some (ch 8)
  else if Ascii.eqb d "t"%char then Some (ch 9)
  else if Ascii.eqb d "n"%char then Some (ch 10)
  else if Ascii.eqb d "f"%char then Some (ch 12)
  else if Ascii.eqb d "r"%char then Some (ch 13)
  else None.

Definition high_surrogate (u : N) : bool := (55296 <=? u)%N && (u <? 56320)%N.

(** Up to the closing quote, and what follows it. A high surrogate takes the
    low one escaped after it. *)
Fixpoint unesc (s : string) : option (string * string) :=
  match s with
  | EmptyString => None
  | String c r =>
      if Ascii.eqb c (ch 34) then Some (EmptyString, r)
      else if Ascii.eqb c (ch 92) then
        match r with
        | String d r1 =>
            if Ascii.eqb d "u"%char then
              match r1 with
              | String h1 (String h2 (String h3 (String h4 r2))) =>
                  u ← hex4 h1 h2 h3 h4;
                  let one := '(a, t) ← unesc r2; Some (utf8 u a, t) in
                  if high_surrogate u then
                    match r2 with
                    | String b (String v (String g1 (String g2 (String g3 (String g4 r3))))) =>
                        if Ascii.eqb b (ch 92) && Ascii.eqb v "u"%char then
                          match hex4 g1 g2 g3 g4 with
                          | Some w => if (56320 <=? w)%N && (w <? 57344)%N
                                      then '(a, t) ← unesc r3; Some (utf8 (65536 + (u - 55296) * 1024 + (w - 56320))%N a, t)
                                      else one
                          | None => None
                          end
                        else one
                    | _ => one
                    end
                  else one
              | _ => None
              end
            else e ← short_escape d; '(a, t) ← unesc r1; Some (String e a, t)
        | EmptyString => None
        end
      else if (Ascii.N_of_ascii c <? 32)%N then None
      else '(a, t) ← unesc r; Some (String c a, t)
  end.

Lemma unesc_char c s : unesc (esc_char c +:+ s) = ('(a, t) ← unesc s; Some (String c a, t)).
Proof. destruct c as [[] [] [] [] [] [] [] []]; reflexivity. Qed.

Lemma unesc_esc s r : unesc (esc s +:+ quote +:+ r) = Some (s, r).
Proof.
  induction s as [|c s IH]; [reflexivity|].
  change (esc (String c s)) with (esc_char c +:+ esc s). rewrite app_str_assoc, unesc_char, IH. reflexivity.
Qed.

(** A JSON string ends where its text says, whatever follows. *)
Lemma json_string_inj a b r1 r2 : json_string a +:+ r1 = json_string b +:+ r2 → a = b ∧ r1 = r2.
Proof.
  unfold json_string. rewrite !app_str_assoc. intros H.
  assert (H' : esc a +:+ quote +:+ r1 = esc b +:+ quote +:+ r2) by (by injection H).
  apply (f_equal unesc) in H'. rewrite !unesc_esc in H'. by simplify_eq.
Qed.

(** ** Values *)

Inductive json :=
| JNull
| JBool (b : bool)
| JNum (m e : Z)
| JStr (s : string)
| JArr (l : list json)
| JObj (l : list (string * json)).

Abbreviation JInt z := (JNum z 0).

(** Induction through arrays and objects. *)
Section Induction.
Variable P : json → Prop.
Hypothesis Hnull : P JNull.
Hypothesis Hbool : ∀ b, P (JBool b).
Hypothesis Hnum : ∀ m e, P (JNum m e).
Hypothesis Hstr : ∀ s, P (JStr s).
Hypothesis Harr : ∀ l, Forall P l → P (JArr l).
Hypothesis Hobj : ∀ l, Forall (λ kv, P kv.2) l → P (JObj l).

Fixpoint json_rect_deep (v : json) : P v :=
  match v with
  | JNull => Hnull
  | JBool b => Hbool b
  | JNum m e => Hnum m e
  | JStr s => Hstr s
  | JArr l => Harr l ((fix go l : Forall P l :=
                         match l with [] => Forall_nil_2 _ | x :: r => Forall_cons_2 _ _ _ (json_rect_deep x) (go r) end) l)
  | JObj l => Hobj l ((fix go l : Forall (λ kv, P kv.2) l :=
                         match l with [] => Forall_nil_2 _ | x :: r => Forall_cons_2 _ _ _ (json_rect_deep x.2) (go r) end) l)
  end.
End Induction.

Fixpoint commas (l : list string) : string :=
  match l with
  | [] => EmptyString
  | [x] => x
  | x :: r => x +:+ "," +:+ commas r
  end.

Fixpoint stringify (v : json) : string :=
  match v with
  | JNull => "null"
  | JBool b => if b then "true" else "false"
  | JNum m e => if e =? 0 then pretty m else pretty m +:+ "e" +:+ pretty e
  | JStr s => json_string s
  | JArr l => "[" +:+ commas (map stringify l) +:+ "]"
  | JObj l => "{" +:+ commas (map (λ kv, json_string kv.1 +:+ ":" +:+ stringify kv.2) l) +:+ "}"
  end.

(** ** Parsing *)

Definition json_space (c : ascii) : bool :=
  let n := Ascii.N_of_ascii c in (n =? 32)%N || (n =? 9)%N || (n =? 10)%N || (n =? 13)%N.

Fixpoint skip_ws (s : string) : string :=
  match s with String c r => if json_space c then skip_ws r else s | EmptyString => EmptyString end.

Definition p_exponent (s : string) : option (Z * string) :=
  match s with
  | String c r =>
      if Ascii.eqb c "e"%char || Ascii.eqb c "E"%char then
        let '(neg, t) := Decimal.strip_sign r in
        let '(d, t) := Decimal.span_digits t in
        if String.eqb d "" then None else Some (if neg then - read_digits 0 d else read_digits 0 d, t)
      else Some (0, s)
  | EmptyString => Some (0, s)
  end.

Definition p_fraction (s : string) : option (string * string) :=
  match s with
  | String c r =>
      if Ascii.eqb c "."%char then
        let '(d, t) := Decimal.span_digits r in if String.eqb d "" then None else Some (d, t)
      else Some (EmptyString, s)
  | EmptyString => Some (EmptyString, s)
  end.

(** No leading zero before another digit. *)
Definition integer_part (d : string) : bool :=
  match d with
  | EmptyString => false
  | String c r => negb (Ascii.eqb c "0"%char) || String.eqb r ""
  end.

Definition split_minus (s : string) : bool * string :=
  match s with
  | String c r => if Ascii.eqb c "-"%char then (true, r) else (false, s)
  | EmptyString => (false, s)
  end.

Definition p_number (s : string) : option (json * string) :=
  let '(neg, t) := split_minus s in
  let '(ip, t) := Decimal.span_digits t in
  if negb (integer_part ip) then None
  else
    '(fp, t) ← p_fraction t;
    '(x, t) ← p_exponent t;
    let m := read_digits (read_digits 0 ip) fp in
    Some (JNum (if neg then - m else m) (x - Z.of_nat (String.length fp)), t).

Definition p_word (w : string) (v : json) (s : string) : option (json * string) :=
  t ← strip_prefix w s; Some (v, t).

(** The character [c] after white space. *)
Definition eat (c : ascii) (s : string) : option string :=
  match skip_ws s with
  | String d t => if Ascii.eqb d c then Some t else None
  | EmptyString => None
  end.

Fixpoint p_value (n : nat) (s : string) : option (json * string) :=
  match n with
  | O => None
  | S n =>
      match skip_ws s with
      | EmptyString => None
      | String c r =>
          if Ascii.eqb c (ch 34) then '(a, t) ← unesc r; Some (JStr a, t)
          else if Ascii.eqb c "["%char then
            match eat "]" r with
            | Some t => Some (JArr [], t)
            | None => '(l, t) ← p_elements n r; Some (JArr l, t)
            end
          else if Ascii.eqb c "{"%char then
            match eat "}" r with
            | Some t => Some (JObj [], t)
            | None => '(l, t) ← p_members n r; Some (JObj l, t)
            end
          else if Ascii.eqb c "n"%char then p_word "null" JNull (String c r)
          else if Ascii.eqb c "t"%char then p_word "true" (JBool true) (String c r)
          else if Ascii.eqb c "f"%char then p_word "false" (JBool false) (String c r)
          else p_number (String c r)
      end
  end
with p_elements (n : nat) (s : string) : option (list json * string) :=
  match n with
  | O => None
  | S n =>
      '(v, t) ← p_value n s;
      match eat "," t, eat "]" t with
      | Some t, _ => '(l, t) ← p_elements n t; Some (v :: l, t)
      | None, Some t => Some ([v], t)
      | None, None => None
      end
  end
with p_members (n : nat) (s : string) : option (list (string * json) * string) :=
  match n with
  | O => None
  | S n =>
      s ← eat (ch 34) s;
      '(k, t) ← unesc s;
      t ← eat ":" t;
      '(v, t) ← p_value n t;
      match eat "," t, eat "}" t with
      | Some t, _ => '(l, t) ← p_members n t; Some ((k, v) :: l, t)
      | None, Some t => Some ([(k, v)], t)
      | None, None => None
      end
  end.

(** [JSON.parse]; the text bounds the nesting. *)
Definition JSON_parse (s : string) : option json :=
  '(v, t) ← p_value (S (String.length s)) s;
  match skip_ws t with EmptyString => Some v | _ => None end.

(** The last value under a key; [None] for a missing one. *)
Fixpoint json_get (k : string) (l : list (string * json)) : option json :=
  match l with
  | [] => None
  | (k', v) :: r => match json_get k r with Some x => Some x | None => if String.eqb k k' then Some v else None end
  end.

(** ** Decimal numerals printed and read *)

Lemma pretty_N_char_digit k :
  (k < 10)%N → let c := pretty_N_char k in
  is_digit c = true ∧ digit_val c = Z.of_N k ∧ (c = "0"%char → k = 0%N).
Proof.
  intros Hk.
  assert (k = 0 ∨ k = 1 ∨ k = 2 ∨ k = 3 ∨ k = 4 ∨ k = 5 ∨ k = 6 ∨ k = 7 ∨ k = 8 ∨ k = 9)%N as H by lia.
  destruct_or! H; subst k; done.
Qed.

(** A printed natural number: digits that read back, without a leading zero. *)
Record numeral (d : string) (x : Z) : Prop := {
  nu_digits : all_chars is_digit d = true;
  nu_value : read_digits 0 d = x;
  nu_first : integer_part d = true }.

Lemma numeral_snoc d x k :
  numeral d x → (0 < x) → (k < 10)%N → numeral (d +:+ String (pretty_N_char k) EmptyString) (10 * x + Z.of_N k).
Proof.
  intros [H1 H2 H3] Hx Hk. destruct (pretty_N_char_digit k Hk) as (Hd & Hv & _).
  constructor.
  - rewrite all_chars_app, H1. simpl. by rewrite Hd.
  - rewrite read_digits_app by done. rewrite H2. simpl. by rewrite Hd, Hv.
  - destruct d as [|c d]; [done|]. simpl in *. destruct (Ascii.eqb c "0"%char) eqn:E; [|done].
    simpl in H3. apply String.eqb_eq in H3 as ->. apply Ascii.eqb_eq in E as ->. change (0 = x) in H2. lia.
Qed.

Lemma pretty_N_go_numeral x s : (0 < x)%N → ∃ d, pretty_N_go x s = d +:+ s ∧ numeral d (Z.of_N x).
Proof.
  revert s. induction (N.lt_wf_0 x) as [x _ IH]. intros s Hx. rewrite pretty_N_go_step by done.
  assert (Hm : (x `mod` 10 < 10)%N) by (apply N.mod_lt; lia).
  assert (Hdm : (x = 10 * (x `div` 10) + x `mod` 10)%N) by (apply N.div_mod; lia).
  destruct (N.eq_dec (x `div` 10)%N 0%N) as [E|E].
  - rewrite E, pretty_N_go_0. exists (String (pretty_N_char (x `mod` 10)%N) EmptyString). split; [done|].
    destruct (pretty_N_char_digit _ Hm) as (Hd & Hv & H0). constructor; simpl; rewrite ?Hd; [done|lia|].
    by rewrite orb_true_r.
  - assert (Hlt : (x `div` 10 < x)%N) by (apply N.div_lt; lia).
    destruct (IH (x `div` 10)%N Hlt (String (pretty_N_char (x `mod` 10)%N) s) ltac:(lia)) as (d & Hd & Hn).
    exists (d +:+ String (pretty_N_char (x `mod` 10)%N) EmptyString). split; [by rewrite Hd, app_str_assoc|].
    replace (Z.of_N x) with (10 * Z.of_N (x `div` 10)%N + Z.of_N (x `mod` 10)%N) by lia.
    apply numeral_snoc; [done|lia|done].
Qed.

Lemma pretty_nonneg z : 0 ≤ z → numeral (pretty z) z.
Proof.
  intros Hz. destruct z as [|p|p]; [by constructor| |lia].
  destruct (pretty_N_go_numeral (N.pos p) EmptyString) as (d & Hd & Hn); [lia|].
  change (pretty (Z.pos p)) with (pretty_N_go (N.pos p) EmptyString). rewrite Hd.
  by rewrite app_str_nil_r.
Qed.

Lemma read_digits_bounds d acc :
  all_chars is_digit d = true → 0 ≤ acc →
  acc * 10 ^ Z.of_nat (String.length d) ≤ read_digits acc d < (acc + 1) * 10 ^ Z.of_nat (String.length d).
Proof.
  revert acc. induction d as [|c d IH]; intros acc Hd Ha; [simpl; lia|].
  simpl in Hd. bools. cbn [read_digits String.length]. rewrite H.
  assert (0 ≤ digit_val c < 10).
  { revert H. clear. unfold is_digit, digit_val. rewrite andb_true_iff, !N.leb_le. lia. }
  rewrite Nat2Z.inj_succ, Z.pow_succ_r by lia. specialize (IH (10 * acc + digit_val c) H0 ltac:(lia)).
  assert (0 < 10 ^ Z.of_nat (String.length d)) by (apply Z.pow_pos_nonneg; lia). nia.
Qed.

(** Larger numbers print no shorter. *)
Lemma pretty_length_mono x y : 0 ≤ x ≤ y → (String.length (pretty x) ≤ String.length (pretty y))%nat.
Proof.
  intros [Hx Hxy]. destruct (pretty_nonneg x Hx) as [X1 X2 X3], (pretty_nonneg y ltac:(lia)) as [Y1 Y2 _].
  destruct (pretty x) as [|c d] eqn:E; [simpl; lia|]. destruct (decide (x = 0)) as [->|Hne].
  { injection E as <- <-. destruct (pretty y) eqn:Ey; [|simpl; lia]. change (0 = y) in Y2. by subst y. }
  pose proof (read_digits_bounds (pretty y) 0 Y1 ltac:(lia)) as [_ By]. rewrite Y2 in By.
  simpl in X1. bools. cbn [read_digits] in X2. rewrite H in X2.
  assert (1 ≤ digit_val c).
  { simpl in X3. destruct (Ascii.eqb c "0"%char) eqn:Ec.
    - simpl in X3. apply String.eqb_eq in X3 as ->. apply Ascii.eqb_eq in Ec as ->. change (0 = x) in X2. lia.
    - apply Ascii.eqb_neq in Ec. revert H Ec. clear. unfold is_digit, digit_val. rewrite andb_true_iff, !N.leb_le.
      intros H Hc. destruct (decide (N_of_ascii c = 48%N)) as [E|]; [|lia].
      destruct Hc. rewrite <-(ascii_N_embedding c), E. done. }
  pose proof (read_digits_bounds d (10 * 0 + digit_val c) H0 ltac:(lia)) as [Bx _]. rewrite X2 in Bx. cbn [String.length].
  destruct (decide (S (String.length d) ≤ String.length (pretty y))%nat) as [?|Hlt]; [done|exfalso].
  assert (10 ^ Z.of_nat (String.length (pretty y)) ≤ 10 ^ Z.of_nat (String.length d)) by (apply Z.pow_le_mono_r; lia).
  assert (0 < 10 ^ Z.of_nat (String.length d)) by (apply Z.pow_pos_nonneg; lia). nia.
Qed.

Lemma pretty_neg p : pretty (Z.neg p) = "-" +:+ pretty (Z.pos p).
Proof. done. Qed.

(** ** Printing and parsing back *)

(** What may follow a value in the text. *)
Definition ends (s : string) : bool :=
  match s with
  | EmptyString => true
  | String c _ => Ascii.eqb c ","%char || Ascii.eqb c "]"%char || Ascii.eqb c "}"%char
  end.

Fixpoint plain (v : json) : bool :=
  match v with
  | JNum _ e => e =? 0
  | JArr l => forallb plain l
  | JObj l => forallb (λ kv, plain kv.2) l
  | _ => true
  end.

Lemma ends_char c r : ends (String c r) = true → is_digit c = false ∧ Ascii.eqb c "."%char = false ∧
  Ascii.eqb c "e"%char || Ascii.eqb c "E"%char = false.
Proof. destruct c as [[] [] [] [] [] [] [] []]; try discriminate; done. Qed.

Lemma span_digits_app d rest :
  all_chars is_digit d = true → (match rest with String c _ => is_digit c = false | EmptyString => True end) →
  Decimal.span_digits (d +:+ rest) = (d, rest).
Proof.
  intros Hd Hr. induction d as [|c d IH]; cbn [String.append].
  - destruct rest as [|c r]; [done|]. simpl. by rewrite Hr.
  - simpl in Hd. bools. simpl. by rewrite H, IH.
Qed.

Lemma digit_char c : is_digit c = true ∨ c = "-"%char →
  json_space c = false ∧ Ascii.eqb c (ch 34) = false ∧ Ascii.eqb c "["%char = false ∧ Ascii.eqb c "{"%char = false ∧
  Ascii.eqb c "n"%char = false ∧ Ascii.eqb c "t"%char = false ∧ Ascii.eqb c "f"%char = false ∧
  Ascii.eqb c "]"%char = false ∧ Ascii.eqb c "}"%char = false.
Proof.
  intros [H| ->]; [|by vm_compute].
  revert H. destruct c as [[] [] [] [] [] [] [] []]; intros H; try discriminate; done.
Qed.

Lemma unsigned_split c r : is_digit c = true → split_minus (String c r) = (false, String c r).
Proof. unfold split_minus. destruct (Ascii.eqb c "-"%char) eqn:E; [|done]. by apply Ascii.eqb_eq in E as ->. Qed.

Lemma numeral_head d x : numeral d x → ∃ c r, d = String c r ∧ is_digit c = true.
Proof. intros [H1 _ H3]. destruct d as [|c r]; [done|]. simpl in H1. bools. eauto. Qed.

Lemma p_number_body d x rest neg :
  numeral d x → ends rest = true →
  (let '(ip, t) := Decimal.span_digits (d +:+ rest) in
   if negb (integer_part ip) then None
   else '(fp, t) ← p_fraction t; '(k, t) ← p_exponent t;
        let m := read_digits (read_digits 0 ip) fp in
        Some (JNum (if neg : bool then - m else m) (k - Z.of_nat (String.length fp)), t)) =
  Some (JInt (if neg then - x else x), rest).
Proof.
  intros [H1 H2 H3] He.
  rewrite span_digits_app; [|done|destruct rest; [done|by apply ends_char in He as (? & _)]].
  cbv beta iota. rewrite H3. cbn [negb].
  assert (Hf : p_fraction rest = Some (EmptyString, rest)).
  { destruct rest as [|c r]; [done|]. apply ends_char in He as (_ & Hd & _). unfold p_fraction. by rewrite Hd. }
  assert (Hx : p_exponent rest = Some (0, rest)).
  { destruct rest as [|c r]; [done|]. apply ends_char in He as (_ & _ & Hd). unfold p_exponent. by rewrite Hd. }
  rewrite Hf. cbn [mbind option_bind]. rewrite Hx. cbn [mbind option_bind read_digits String.length]. by rewrite H2.
Qed.

Lemma p_number_pretty z rest : ends rest = true → p_number (pretty z +:+ rest) = Some (JInt z, rest).
Proof.
  intros He. unfold p_number. destruct (Z.le_gt_cases 0 z) as [Hz|Hz].
  - pose proof (pretty_nonneg z Hz) as Hn. destruct (numeral_head _ _ Hn) as (c & r & Hd & Hc).
    rewrite Hd. change (String c r +:+ rest) with (String c (r +:+ rest)). rewrite unsigned_split by done.
    change (String c (r +:+ rest)) with (String c r +:+ rest). rewrite <-Hd.
    by apply (p_number_body (pretty z) z rest false).
  - destruct z as [|p|p]; [lia|lia|]. rewrite pretty_neg.
    apply (p_number_body (pretty (Z.pos p)) (Z.pos p) rest true); [|done]. apply pretty_nonneg. lia.
Qed.

Lemma app_empty a : EmptyString +:+ a = a.
Proof. done. Qed.

Lemma app_cons c a b : String c a +:+ b = String c (a +:+ b).
Proof. done. Qed.

(** The first character of a printed value. *)
Lemma stringify_head v : plain v = true → ∃ c r, stringify v = String c r ∧ json_space c = false ∧
  Ascii.eqb c "]"%char = false ∧ Ascii.eqb c "}"%char = false.
Proof.
  intros Hv. destruct v as [|[]|m e|s|l|l]; try (by eexists _, _).
  simpl in Hv. bools. subst e. destruct (Z.le_gt_cases 0 m) as [Hz|Hz].
  - destruct (numeral_head _ _ (pretty_nonneg m Hz)) as (c & r & Hd & Hc). exists c, r. split; [done|].
    destruct (digit_char c) as (? & ? & ? & ? & ? & ? & ? & ? & ?); [by left|done].
  - destruct m as [|p|p]; [lia|lia|]. by eexists _, _.
Qed.

Lemma commas_cons x y l : commas (x :: y :: l) = x +:+ "," +:+ commas (y :: l).
Proof. done. Qed.

Lemma eat_self (c : ascii) s : json_space c = false → eat c (String c s) = Some s.
Proof. intros Hc. unfold eat. cbn [skip_ws]. by rewrite Hc, Ascii.eqb_refl. Qed.

Lemma eat_other (c d : ascii) s : json_space d = false → Ascii.eqb d c = false → eat c (String d s) = None.
Proof. intros Hd Hc. unfold eat. cbn [skip_ws]. by rewrite Hd, Hc. Qed.

Definition parses (v : json) : Prop :=
  plain v = true → ∀ n rest, (String.length (stringify v) ≤ n)%nat → ends rest = true →
    p_value n (stringify v +:+ rest) = Some (v, rest).

Lemma parse_elements l n rest :
  Forall parses l → forallb plain l = true → l ≠ [] → (String.length (commas (map stringify l)) < n)%nat →
  p_elements n (commas (map stringify l) +:+ "]" +:+ rest) = Some (l, rest).
Proof.
  intros HF. revert n. induction HF as [|v l Hv HF IH]; intros n Hp Hne Hn; [done|].
  simpl in Hp. apply andb_true_iff in Hp as [Hpv Hpl]. destruct n as [|n]; [lia|]. cbn [p_elements].
  destruct l as [|v' l].
  - cbn [map commas] in *. rewrite Hv; [|done|lia|done]. reflexivity.
  - cbn [map] in *. rewrite commas_cons in Hn |- *. rewrite !app_str_length in Hn. cbn [String.length] in Hn. rewrite !app_str_assoc.
    rewrite Hv; [|done|lia|done]. cbn [mbind option_bind]. 
    rewrite app_cons, (eat_self ",") by done. cbv iota beta. rewrite app_empty.
    rewrite IH; [done|done|done|]. cbn [map]. lia.
Qed.

Definition print_member (kv : string * json) : string := json_string kv.1 +:+ ":" +:+ stringify kv.2.

Lemma parse_member kv n r :
  parses kv.2 → plain kv.2 = true → (String.length (stringify kv.2) ≤ n)%nat → ends r = true →
  p_members (S n) (print_member kv +:+ r) =
    match eat "," r, eat "}" r with
    | Some t, _ => '(l, t) ← p_members n t; Some (kv :: l, t)
    | None, Some t => Some ([kv], t)
    | None, None => None
    end.
Proof.
  intros Hv Hp Hn Hr. destruct kv as [k v]. unfold print_member, json_string. cbn [fst snd] in *.
  cbn [p_members]. rewrite !app_str_assoc. unfold quote at 1. rewrite app_cons.
  rewrite eat_self by done. cbn [mbind option_bind]. rewrite app_empty, unesc_esc. cbn [mbind option_bind].
  rewrite app_cons, eat_self by done. cbn [mbind option_bind]. by rewrite app_empty, Hv.
Qed.

Lemma print_member_length kv : (String.length (stringify kv.2) + 3 ≤ String.length (print_member kv))%nat.
Proof. unfold print_member, json_string. rewrite !app_str_length. cbn [String.length quote]. lia. Qed.

Lemma parse_members l n rest :
  Forall (λ kv, parses kv.2) l → forallb (λ kv, plain kv.2) l = true → l ≠ [] →
  (String.length (commas (map print_member l)) ≤ n)%nat →
  p_members n (commas (map print_member l) +:+ "}" +:+ rest) = Some (l, rest).
Proof.
  intros HF. revert n. induction HF as [|kv l Hv HF IH]; intros n Hp Hne Hn; [done|].
  simpl in Hp. apply andb_true_iff in Hp as [Hpv Hpl]. pose proof (print_member_length kv) as Hlen.
  destruct l as [|kv' l].
  - cbn [map commas] in *. destruct n as [|n]; [lia|]. rewrite parse_member; [done|done|done|lia|done].
  - cbn [map] in *. rewrite commas_cons in Hn |- *. rewrite !app_str_length in Hn. cbn [String.length] in Hn.
    rewrite !app_str_assoc. destruct n as [|n]; [lia|]. rewrite parse_member; [|done|done|lia|done].
    rewrite app_cons, (eat_self ",") by done. cbv iota beta. rewrite app_empty.
    rewrite IH; [done|done|done|]. cbn [map]. lia.
Qed.

Lemma commas_first x l : ∃ q, commas (x :: l) = x +:+ q.
Proof. destruct l as [|y l]; [exists EmptyString; by rewrite app_str_nil_r|by eexists]. Qed.

Lemma eat_close (d : ascii) c r q l rest :
  json_space c = false → Ascii.eqb c d = false → eat d (commas ((String c r +:+ q) :: l) +:+ rest) = None.
Proof.
  intros H1 H2. destruct (commas_first (String c r +:+ q) l) as (q' & ->). rewrite !app_cons. by apply eat_other.
Qed.

Lemma parse_number n m rest : ends rest = true → p_value (S n) (pretty m +:+ rest) = Some (JInt m, rest).
Proof.
  intros He. assert (Hh : ∃ c r, pretty m = String c r ∧ (is_digit c = true ∨ c = "-"%char)).
  { destruct (Z.le_gt_cases 0 m) as [Hz|Hz].
    - destruct (numeral_head _ _ (pretty_nonneg m Hz)) as (c & r & ? & ?). eauto.
    - destruct m as [|p|p]; [lia|lia|]. eexists _, _. split; [done|by right]. }
  destruct Hh as (c & r & Hd & Hc). pose proof (p_number_pretty m rest He) as Hnum. rewrite Hd, app_cons in Hnum |- *.
  destruct (digit_char c Hc) as (H1 & H2 & H3 & H4 & H5 & H6 & H7 & _ & _).
  cbn [p_value skip_ws]. by rewrite H1, H2, H3, H4, H5, H6, H7.
Qed.

Lemma stringify_parses v : parses v.
Proof.
  induction v as [|b|m e|s|l HF|l HF] using json_rect_deep; intros Hp n rest Hn He.
  - destruct n; [simpl in Hn; lia|]. reflexivity.
  - destruct n; [destruct b; simpl in Hn; lia|]. by destruct b.
  - simpl in Hp. bools. subst e. cbn [stringify Z.eqb]. destruct n; [|by apply parse_number]. exfalso.
    destruct (stringify_head (JInt m) eq_refl) as (c & r & E & _). rewrite E in Hn. simpl in Hn. lia.
  - destruct n; [simpl in Hn; lia|]. cbn [stringify]. unfold json_string. rewrite !app_str_assoc.
    cbn [p_value]. change (quote +:+ esc s +:+ quote +:+ rest) with (String (ch 34) (esc s +:+ quote +:+ rest)).
    cbn [skip_ws]. change (json_space (ch 34)) with false. cbv iota. change (Ascii.eqb (ch 34) (ch 34)) with true. cbv iota.
    by rewrite unesc_esc.
  - destruct n; [simpl in Hn; lia|]. cbn [stringify] in *. rewrite !app_str_length in Hn. cbn [String.length] in Hn.
    rewrite !app_str_assoc. destruct l as [|v l]; [done|].
    rewrite app_cons. cbn [p_value skip_ws]. change (json_space "[") with false.
    change (Ascii.eqb "[" (ch 34)) with false. change (Ascii.eqb "[" "[") with true. cbv iota beta.
    rewrite app_empty. simpl in Hp. apply andb_true_iff in Hp as Hp'. destruct Hp' as [Hpv _].
    destruct (stringify_head v Hpv) as (c & r & E & H1 & H2 & _).
    assert (Heat : eat "]" (commas (map stringify (v :: l)) +:+ "]" +:+ rest) = None).
    { cbn [map]. rewrite E, <-(app_str_nil_r (String c r)). by apply eat_close. }
    rewrite Heat, parse_elements; [done|done|done|done|lia].
  - destruct n; [simpl in Hn; lia|]. cbn [stringify] in *. rewrite !app_str_length in Hn. cbn [String.length] in Hn.
    rewrite !app_str_assoc. destruct l as [|kv l]; [done|].
    rewrite app_cons. cbn [p_value skip_ws]. change (json_space "{") with false.
    change (Ascii.eqb "{" (ch 34)) with false. change (Ascii.eqb "{" "[") with false.
    change (Ascii.eqb "{" "{") with true. cbv iota beta. rewrite app_empty.
    change (map _ (kv :: l)) with (map print_member (kv :: l)) in *.
    assert (Heat : eat "}" (commas (map print_member (kv :: l)) +:+ "}" +:+ rest) = None).
    { cbn [map]. unfold print_member at 1, json_string. rewrite !app_str_assoc. by apply (eat_close _ (ch 34) EmptyString). }
    rewrite Heat, parse_members; [done|done|done|done|lia].
Qed.

(** Printed values parse back. *)
Lemma JSON_parse_stringify v : plain v = true → JSON_parse (stringify v) = Some v.
Proof.
  intros Hp. unfold JSON_parse. pose proof (stringify_parses v Hp (S (String.length (stringify v))) EmptyString) as H.
  rewrite app_str_nil_r in H. rewrite H; [done|lia|done].
Qed.
