(* ===== verification/GovRules.v ===== *)
(** * Governance: rules

    [src/validators/governance/rules.js] (the signed vote payload, vote
    sequences, the activation floor, exact decimals) and
    [src/validators/governance/bounds.js] (how far a proposal may move a
    parameter). *)

From S2P Require Import Prelude GateRegistry BigNum Json.
From Stdlib Require Import QArith Lqa.
From stdpp Require Import pretty.
Open Scope Z_scope.

(** ** Constants *)

Definition BTC_BLOCK_MS : Z := 600000.
Definition ACTIVATION_SAFETY_BUFFER_BLOCKS : Z := 50.
Definition COOLDOWN_DAYS : Z := 14.
Definition GOV_TAKEOVER_STEP_BLOCKS : Z := 6.
Definition GOV_SNAPSHOT_MAX_VALIDATORS : nat := 1000.
Definition GOV_SNAPSHOT_MAX_BYTES : Z := 262144.

(** [Math.round(MAX * 100)] of the four change bounds: whole percents. *)
Definition MAX_INCREASE : Z := 50.
Definition MAX_DECREASE : Z := 33.
Definition MAX_SLASH_INCREASE : Z := 25.
Definition MAX_SLASH_DECREASE : Z := 20.

Definition SLASHING_PARAMS : list string := ["SLASH_DEVIATION_THRESHOLD"; "SLASH_MISSED_ROUNDS_THRESHOLD"].

(** [Number.MAX_SAFE_INTEGER]. *)
Definition MAX_SAFE_INTEGER : Z := 2 ^ 53 - 1.

(** ** The vote payload *)

(** [normalizeVoteSeq]: 0 for anything but a positive safe integer. *)
Definition normalizeVoteSeq (sq : option Z) : Z :=
  match sq with
  | Some z => if (0 <? z) && (z <=? MAX_SAFE_INTEGER) then z else 0
  | None => 0
  end.

Definition json_key (k : string) : string := quote +:+ k +:+ quote +:+ ":".

(** [voteSigningPayload]: the exact bytes a vote is signed over. *)
Definition voteSigningPayload (proposalId vote voterPubkey : string) (sq : Z) : string :=
  "{" +:+ json_key "proposalId" +:+ json_string proposalId +:+ "," +:+
  json_key "vote" +:+ json_string vote +:+ "," +:+
  json_key "voter" +:+ json_string voterPubkey +:+ "," +:+
  json_key "seq" +:+ pretty (normalizeVoteSeq (Some sq)) +:+ "}".

(** ** Activation floor *)

(** [Math.ceil(a / b)] on positive [b]. *)
Definition ceil_div (a b : Z) : Z := - ((- a) / b).

Definition minActivationBlock (latestBlock votingPeriodMs : Z) : Z :=
  latestBlock + ceil_div votingPeriodMs BTC_BLOCK_MS + ACTIVATION_SAFETY_BUFFER_BLOCKS.

(** [computeActivationBlock] of the engine: the proposer's side. *)
Inductive activation_error := NoObservedHeight | InvalidActivation | TooSoon.

Definition computeActivationBlock (latest : option Z) (votingPeriod : Z) (explicit : option Z)
    : result activation_error Z :=
  match latest with
  | None => Err NoObservedHeight
  | Some l =>
      let m := minActivationBlock l votingPeriod in
      match explicit with
      | None => Ok m
      | Some ab =>
          check negb (ab <? 0) else InvalidActivation in
          check negb (ab <? m) else TooSoon in Ok ab
      end
  end.

(** ** Exact decimals *)

Record decimal := MkDecimal { d_neg : bool; d_int : string; d_frac : string }.

Definition all_zeros (s : string) : bool := all_chars (Ascii.eqb "0"%char) s.

Definition parseDecimalParts (v : string) : option decimal :=
  let s := trim v in
  if Decimal.is_decimal s then
    let '(neg, body) := Decimal.strip_sign s in
    let '(ip, rest) := Decimal.span_digits body in
    let frac := match rest with String _ f => f | EmptyString => EmptyString end in
    let int := if String.eqb ip "" then "0"%string else ip in
    Some (MkDecimal (neg && negb (all_zeros int && all_zeros frac)) int frac)
  else None.

Fixpoint zeros (n : nat) : string :=
  match n with O => EmptyString | S n => String "0"%char (zeros n) end.

(** [s.padEnd(n, '0')]. *)
Definition padEnd (s : string) (n : nat) : string := s +:+ zeros (n - String.length s).

Definition toScaledBigInt (d : decimal) (scale : nat) : Z :=
  let v := read_digits 0 (d_int d +:+ padEnd (d_frac d) scale) in
  if d_neg d then - v else v.

(** ** Change bounds *)

Inductive bounds_error := NotPlainDecimal | ExceedsIncrease | ExceedsDecrease | BandBelowOracle.

Definition validateChangeRatio (parameter currentValue proposedValue : string) : result bounds_error unit :=
  let cur := parseDecimalParts currentValue in
  let prop := parseDecimalParts proposedValue in
  let isSlashParam := bool_decide (parameter ∈ SLASHING_PARAMS) in
  match cur, prop with
  | _, None => if isSlashParam then Err NotPlainDecimal else Ok tt
  | None, Some _ => Ok tt
  | Some cur, Some prop =>
      let scale := Nat.max (String.length (d_frac cur)) (String.length (d_frac prop)) in
      let C := toScaledBigInt cur scale in
      let P := toScaledBigInt prop scale in
      if C =? 0 then Ok tt
      else
        let incPct := if isSlashParam then MAX_SLASH_INCREASE else MAX_INCREASE in
        let decPct := if isSlashParam then MAX_SLASH_DECREASE else MAX_DECREASE in
        let n100 := (P - C) * 100 in
        let positive := 0 <? C in
        let exceedsIncrease := if positive then incPct * C <? n100 else n100 <? incPct * C in
        let exceedsDecrease := if positive then n100 <? - decPct * C else - decPct * C <? n100 in
        check negb exceedsIncrease else ExceedsIncrease in
        check negb exceedsDecrease else ExceedsDecrease in Ok tt
  end.

(** [parseFloat(v) >= 0.05] for a plain decimal [m / 10^k]. The double [0.05] is
    [7205759403792794 * 2^-57] and its mantissa is even, so a decimal rounds to
    it or above exactly when it is at least the midpoint below it. *)
Definition oracle_band_met (v : string) : bool :=
  let '(m, k) := Decimal.parts v in
  (2 * 7205759403792794 - 1) * 10 ^ Z.of_nat k <=? m * 2 ^ 58.

(** [validateSlashBandFloor], as [validateChangeBounds] reaches it: after the
    ratio check, so that the value is a plain decimal. *)
Definition validateSlashBandFloor (parameter proposedValue : string) : result bounds_error unit :=
  if negb (String.eqb parameter "SLASH_DEVIATION_THRESHOLD") then Ok tt
  else check oracle_band_met (trim proposedValue) else BandBelowOracle in Ok tt.

Definition validateChangeBounds (parameter currentValue proposedValue : string) : result bounds_error unit :=
  let! _ := validateChangeRatio parameter currentValue proposedValue in
  validateSlashBandFloor parameter proposedValue.

(** ** Decimals as scaled integers *)

Lemma read_digits_zeros acc n : read_digits acc (zeros n) = acc * 10 ^ Z.of_nat n.
Proof.
  revert acc. induction n as [|n IH]; intros acc; [simpl; lia|].
  cbn [zeros read_digits]. change (is_digit "0") with true. cbn iota. rewrite IH.
  change (digit_val "0") with 0. rewrite Nat2Z.inj_succ, Z.pow_succ_r by lia. lia.
Qed.

Lemma read_digits_all_zeros s : all_zeros s = true → read_digits 0 s = 0.
Proof.
  unfold all_zeros. induction s as [|c s IH]; intros H; [done|]. cbn [all_chars] in H.
  apply andb_true_iff in H as [Hc H]. apply Ascii.eqb_eq in Hc as <-. simpl. by apply IH.
Qed.

Lemma all_digits_span s : all_chars is_digit s = true → Decimal.span_digits s = (s, EmptyString).
Proof.
  induction s as [|c s IH]; intros H; [done|]. simpl in *. bools. rewrite H. by rewrite IH.
Qed.

Lemma span_all_digits s : all_chars is_digit (Decimal.span_digits s).1 = true.
Proof.
  induction s as [|c s IH]; [done|]. simpl. destruct (is_digit c) eqn:E; [|done].
  destruct (Decimal.span_digits s) as [a b]. simpl in *. by rewrite E.
Qed.

Lemma padded_read s n : all_chars is_digit s = true → (String.length s ≤ n)%nat → ∀ acc,
  read_digits acc (padEnd s n) = read_digits acc s * 10 ^ Z.of_nat (n - String.length s).
Proof. intros Hs Hn acc. unfold padEnd. by rewrite read_digits_app, read_digits_zeros. Qed.

(** A parsed decimal, scaled, is the literal's mantissa at that scale. *)
Lemma parseDecimalParts_scaled v d n :
  parseDecimalParts v = Some d → (String.length (d_frac d) ≤ n)%nat →
  let '(m, k) := Decimal.parts (trim v) in
  k = String.length (d_frac d) ∧ toScaledBigInt d n = m * 10 ^ Z.of_nat (n - k).
Proof.
  unfold parseDecimalParts, Decimal.parts, Decimal.is_decimal.
  destruct (Decimal.strip_sign (trim v)) as [neg body]. simpl snd.
  pose proof (span_all_digits body) as Hip. destruct (Decimal.span_digits body) as [ip rest]. simpl in Hip.
  destruct (match rest with EmptyString => _ | String c fp => _ end) eqn:Hdec; [|done]. intros [= <-] Hn. simpl in *.
  set (frac := match rest with String _ f => f | EmptyString => EmptyString end) in *.
  set (int := if String.eqb ip "" then "0"%string else ip).
  assert (Hfrac : all_chars is_digit frac = true).
  { unfold frac. destruct rest as [|c fp]; [done|]. by bools. }
  assert (Hfp : match rest with EmptyString => EmptyString | String _ fp => (Decimal.span_digits fp).1 end = frac).
  { unfold frac. destruct rest as [|c fp]; [done|]. by rewrite all_digits_span. }
  assert (Hint : all_chars is_digit int = true ∧ read_digits 0 int = read_digits 0 ip).
  { unfold int. destruct (String.eqb_spec ip "") as [->|]; done. }
  rewrite Hfp. split; [done|]. destruct Hint as [Hi Hi0]. unfold toScaledBigInt. simpl.
  rewrite read_digits_app, padded_read by done. rewrite <-Hi0.
  destruct neg; simpl; [|done]. destruct (all_zeros int && all_zeros frac) eqn:Hz; simpl; [|lia].
  bools. rewrite (read_digits_all_zeros int), (read_digits_all_zeros frac) by done. lia.
Qed.

Lemma parseDecimalParts_decimal v : Decimal.is_decimal (trim v) = true → is_Some (parseDecimalParts v).
Proof.
  unfold parseDecimalParts. intros ->. destruct (Decimal.strip_sign (trim v)) as [neg body].
  destruct (Decimal.span_digits body). eauto.
Qed.

Lemma Q_ratio_pos a c : 0 < c → ((a # 1) / (c # 1) == a # Z.to_pos c)%Q.
Proof. intros Hc. destruct c as [|p|p]; [lia| |lia]. unfold Qdiv, Qinv, Qeq. simpl. lia. Qed.

Lemma Q_ratio_neg a c : c < 0 → ((a # 1) / (c # 1) == (- a) # Z.to_pos (- c))%Q.
Proof. intros Hc. destruct c as [|p|p]; [lia|lia|]. unfold Qdiv, Qinv, Qeq. simpl. lia. Qed.

(** The ratio between two decimals scaled to one grid. *)
Lemma ratio_scaled n x y vx vy :
  y ≠ 0 → on_grid n vx x → on_grid n vy y → ((vx - vy) / vy == ((x - y) # 1) / (y # 1))%Q.
Proof.
  unfold on_grid. intros Hy -> ->. rewrite (Qmake_Qdiv x), (Qmake_Qdiv y).
  assert (¬ inject_Z y == 0)%Q by (unfold Qeq; simpl; lia).
  assert (¬ inject_Z (Z.pos (pow10 n)) == 0)%Q by (unfold Qeq; simpl; lia).
  change (x - y # 1)%Q with (inject_Z (x + - y)). change (y # 1)%Q with (inject_Z y).
  rewrite (inject_Z_plus x (- y)), inject_Z_opp. field. done.
Qed.

Lemma scaled_on_grid v d n :
  parseDecimalParts v = Some d → (String.length (d_frac d) ≤ n)%nat →
  on_grid n (Decimal.value (trim v)) (toScaledBigInt d n).
Proof.
  intros Hd Hn. pose proof (parseDecimalParts_scaled v d n Hd Hn) as H. unfold Decimal.value.
  destruct (Decimal.parts (trim v)) as [m k]. destruct H as [-> ->]. unfold on_grid, Qeq. simpl.
  rewrite pow10_pos, Z2Pos.id by (apply Z.pow_pos_nonneg; lia).
  rewrite <-Z.mul_assoc, <-Z.pow_add_r by lia. do 2 f_equal. lia.
Qed.

(** The change, relative to the current value. *)
Definition change_ratio (cur prop : string) : Q :=
  ((Decimal.value (trim prop) - Decimal.value (trim cur)) / Decimal.value (trim cur))%Q.

(** Over decimals the change bound is exact: a proposal passes the ratio
    check exactly when the relative change lies between -33% and +50% (-20% and
    +25% for the slashing parameters), the sign of the current value included;
    no value is rounded on the way. *)
Theorem change_ratio_exact parameter cur prop :
  Decimal.is_decimal (trim cur) = true → Decimal.is_decimal (trim prop) = true →
  ¬ (Decimal.value (trim cur) == 0)%Q →
  let slash := bool_decide (parameter ∈ SLASHING_PARAMS) in
  validateChangeRatio parameter cur prop = Ok tt ↔
    (- (if slash then 20 else 33) # 100 <= change_ratio cur prop)%Q ∧
    (change_ratio cur prop <= (if slash then 25 else 50) # 100)%Q.
Proof.
  intros Hc Hp Hnz slash. unfold validateChangeRatio. fold slash.
  destruct (parseDecimalParts_decimal _ Hc) as [dc Hdc], (parseDecimalParts_decimal _ Hp) as [dp Hdp].
  rewrite Hdc, Hdp. set (n := Nat.max _ _).
  pose proof (scaled_on_grid cur dc n Hdc ltac:(lia)) as Gc. pose proof (scaled_on_grid prop dp n Hdp ltac:(lia)) as Gp.
  set (C := toScaledBigInt dc n) in *. set (P := toScaledBigInt dp n) in *.
  assert (HC : C ≠ 0).
  { intros E. apply Hnz. unfold on_grid in Gc. rewrite Gc, E. reflexivity. }
  unfold change_ratio. rewrite (ratio_scaled n P C _ _ HC Gp Gc).
  rewrite (proj2 (Z.eqb_neq C 0) HC).
  unfold MAX_SLASH_INCREASE, MAX_INCREASE, MAX_SLASH_DECREASE, MAX_DECREASE.
  destruct (Z.ltb_spec 0 C) as [Hpos|Hneg].
  - rewrite (Q_ratio_pos _ _ Hpos). unfold Qle. simpl. rewrite Z2Pos.id by lia.
    destruct slash; repeat (match goal with |- context [?a <? ?b] => destruct (Z.ltb_spec a b) end; simpl);
      split; try done; intros; try split; lia.
  - rewrite (Q_ratio_neg _ C) by lia. unfold Qle. simpl. rewrite Z2Pos.id by lia.
    destruct slash; repeat (match goal with |- context [?a <? ?b] => destruct (Z.ltb_spec a b) end; simpl);
      split; try done; intros; try split; lia.
Qed.

Lemma change_ratio_exact_witness :
  (change_ratio "10" "15" <= 50 # 100)%Q ∧ validateChangeRatio "FEE" "10" "15.0000000000000000001" = Err ExceedsIncrease.
Proof.
  split; [|vm_compute; reflexivity].
  apply (change_ratio_exact "FEE" "10" "15"); [vm_compute; reflexivity..|vm_compute; discriminate|vm_compute; reflexivity].
Defined.

(** The bytes a vote is signed over determine the proposal, the choice, the
    voter and the sequence: no signature on one vote is a signature on another,
    whatever characters the fields hold. *)
Theorem vote_payload_injective p1 v1 k1 q1 p2 v2 k2 q2 :
  voteSigningPayload p1 v1 k1 q1 = voteSigningPayload p2 v2 k2 q2 ↔
  p1 = p2 ∧ v1 = v2 ∧ k1 = k2 ∧ normalizeVoteSeq (Some q1) = normalizeVoteSeq (Some q2).
Proof.
  split; [|intros (-> & -> & -> & E); unfold voteSigningPayload; by rewrite E].
  unfold voteSigningPayload. intros H.
  apply app_str_inj_l, app_str_inj_l, json_string_inj in H as [-> H].
  apply app_str_inj_l, app_str_inj_l, json_string_inj in H as [-> H].
  apply app_str_inj_l, app_str_inj_l, json_string_inj in H as [-> H].
  apply app_str_inj_l, app_str_inj_l, app_str_inj_r in H. by apply (inj pretty) in H.
Qed.
