(* ===== verification/GovTally.v ===== *)
(** * Governance: the electorate, the tally and the tally leader

    [src/validators/governance/electorate.js] (the locked snapshot and the
    tally over it), [takeover_rank.js] and the leader and failover rules of
    [tally.js]. *)

From S2P Require Import Prelude GateRegistry BigNum Json GovRules PbftState PbftEngine.
Open Scope Z_scope.

(** ** Activation heights *)

(** [validators/governance/rules.GOV_SNAPSHOT_ACTIVATION]. *)
Definition GOV_SNAPSHOT_ACTIVATION (network : string) : option Z :=
  if String.eqb network "mainnet" then Some 963000
  else if String.eqb network "testnet" then Some 0
  else if String.eqb network "regtest" then Some 0 else None.

(** [validators/governance/rules.GOV_TALLY_FAILOVER_ACTIVATION]: mainnet is unpinned. *)
Definition GOV_TALLY_FAILOVER_ACTIVATION (network : string) : option Z :=
  if String.eqb network "testnet" then Some 156230
  else if String.eqb network "regtest" then Some 0 else None.

(** The height test the two predicates share; [latest] is the hub's best
    observed height, absent before one was seen. *)
Definition heightReached (threshold latest : option Z) : bool :=
  match threshold, latest with
  | Some t, Some l => t <=? l
  | _, _ => false
  end.

Definition isSnapshotLockActive (network : string) (latest : option Z) : bool :=
  heightReached (GOV_SNAPSHOT_ACTIVATION network) latest.

Definition isTallyFailoverActive (network : string) (latest : option Z) : bool :=
  heightReached (GOV_TALLY_FAILOVER_ACTIVATION network) latest.

(** ** Snapshots *)

Record member := Member { m_pubkey : string; m_addr : option string }.

#[export] Instance member_eq_dec : EqDecision member.
Proof. solve_decision. Defined.

(** The comparator of the two sorts: by public key. *)
Definition member_le (a b : member) : bool := bool_decide (String.le (m_pubkey a) (m_pubkey b)).

(** [buildValidatorSnapshot]. *)
Definition buildValidatorSnapshot (vs : list validator) : list member :=
  isort member_le (map (λ v, Member (toLowerCase (js_String (va_pubkey v))) (va_addr v)) vs).

(** A raw snapshot: absent, a text of some length and what it parses to, or an
    array. An entry without a string public key carries [None]. *)
Record sentry := SEntry { se_pubkey : option string; se_addr : option string }.

Inductive rawsnap :=
| RNull
| RText (len : Z) (parsed : option (list sentry))
| RArray (entries : list sentry).

Fixpoint collectEntries (es : list sentry) (seen : gset string) : option (list member) :=
  match es with
  | [] => Some []
  | e :: es =>
      match se_pubkey e with
      | None => None
      | Some p =>
          if String.eqb p "" then None
          else let pk := toLowerCase p in
               if bool_decide (pk ∈ seen) then None
               else (cons (Member pk (se_addr e))) <$> collectEntries es ({[pk]} ∪ seen)
      end
  end.

Definition parseSnapshot (raw : rawsnap) : option (list member) :=
  let arr := match raw with
             | RNull => None
             | RText len parsed => if GOV_SNAPSHOT_MAX_BYTES <? len then None else parsed
             | RArray es => Some es
             end in
  match arr with
  | None => None
  | Some es =>
      if (length es =? 0)%nat || (GOV_SNAPSHOT_MAX_VALIDATORS <? length es)%nat then None
      else isort member_le <$> collectEntries es ∅
  end.

(** [JSON.stringify] of a snapshot, and the text column it is persisted in: the
    text parses back to its entries. *)
Definition stringifyMember (m : member) : string :=
  "{" +:+ json_key "pubkey" +:+ json_string (m_pubkey m) +:+
  match m_addr m with
  | Some a => "," +:+ json_key "addr" +:+ json_string a
  | None => EmptyString
  end +:+ "}".

Fixpoint joinComma (l : list string) : string :=
  match l with
  | [] => EmptyString
  | [x] => x
  | x :: r => x +:+ "," +:+ joinComma r
  end.

Definition stringifySnapshot (ms : list member) : string :=
  "[" +:+ joinComma (map stringifyMember ms) +:+ "]".

Definition persistSnapshot (ms : list member) : rawsnap :=
  RText (Z.of_nat (String.length (stringifySnapshot ms)))
    (Some (map (λ m, SEntry (Some (m_pubkey m)) (m_addr m)) ms)).

(** [snapshotMatchesLocalSet]. *)
Definition localKeys (vs : list validator) : gset string :=
  list_to_set (map (λ v, toLowerCase (js_String (va_pubkey v))) vs).

Definition snapshotMatchesLocalSet (vs : list validator) (snap : list member) : bool :=
  let local := localKeys vs in
  (size local =? length snap)%nat && forallb (λ e, bool_decide (m_pubkey e ∈ local)) snap.

(** ** The tally *)

(** A row of [governance_votes]. *)
Inductive choice := Approve | Reject.

#[export] Instance choice_eq_dec : EqDecision choice.
Proof. solve_decision. Defined.

Record voterow := VoteRow { vr_voter : string; vr_vote : choice; vr_sig : string; vr_seq : Z }.

Record tally := Tally {
  t_approvals : Z; t_rejections : Z; t_totalVotes : Z; t_validatorCount : Z;
  t_quorumMet : bool; t_approved : bool }.

Definition tallyMembers (vs : list validator) (electorate : option (list member)) : option (gset string) :=
  match electorate with
  | Some el => Some (list_to_set (map m_pubkey el))
  | None => if (0 <? length vs)%nat then Some (localKeys vs) else None
  end.

Definition countVotes (c : choice) (votes : list voterow) : Z :=
  Z.of_nat (length (filter (λ v, vr_vote v = c) votes)).

Definition computeTally (vs : list validator) (votes : list voterow) (electorate : option (list member)) : tally :=
  let counted := match tallyMembers vs electorate with
                 | Some ms => filter (λ v, toLowerCase (vr_voter v) ∈ ms) votes
                 | None => votes
                 end in
  let approvals := countVotes Approve counted in
  let rejections := countVotes Reject counted in
  let totalVotes := Z.of_nat (length counted) in
  let validatorCount := match electorate with
                        | Some el => Z.of_nat (length el)
                        | None => Z.max (Z.of_nat (length vs)) 1
                        end in
  let quorumMet := ceil_div validatorCount 2 <=? totalVotes in
  Tally approvals rejections totalVotes validatorCount quorumMet
    (quorumMet && (ceil_div (validatorCount * 2) 3 <=? approvals)).

(** ** The tally leader and its successors *)

Section Leader.
Context (hash32 : string → Z).  (** the first four bytes of sha256, unsigned *)

(** [getProposalLeader] over an array. *)
Definition proposalLeader {A} (proposalId : string) (l : list A) : option A :=
  l !! Z.to_nat (hash32 proposalId mod Z.of_nat (length l)).

(** The scan for the leader's index: [None] when absent or ambiguous. *)
Fixpoint leaderIndex (el : list member) (addr : string) (i : nat) (found : option nat) : option nat :=
  match el with
  | [] => found
  | m :: el =>
      if bool_decide (m_addr m = Some addr) then
        match found with Some _ => None | None => leaderIndex el addr (S i) (Some i) end
      else leaderIndex el addr (S i) found
  end.

Definition rankedElectorate (el : list member) (leaderAddr : option string) : option (list member) :=
  match el, leaderAddr with
  | [], _ | _, None => None
  | _, Some a =>
      i ← leaderIndex el a 0 None; Some (drop i el ++ take i el)
  end.

Definition takeoverRank (ranked : option (list member)) (addr : string) : option nat :=
  match ranked with
  | None => None
  | Some l => fst <$> list_find (λ m, m_addr m = Some addr) l
  end.

Definition rankOpensAt (votingEnd : Z) (rank : nat) (stepMs : Z) : Z := votingEnd + Z.of_nat rank * stepMs.

Definition resultSenderEntitled (ranked : option (list member)) (senderAddr : string)
    (votingEnd now stepMs : Z) (failoverActive : bool) : bool :=
  match takeoverRank ranked senderAddr with
  | None => false
  | Some O => true
  | Some r => failoverActive && (rankOpensAt votingEnd r stepMs <=? now)
  end.

Definition TAKEOVER_STEP_MS : Z := GOV_TAKEOVER_STEP_BLOCKS * BTC_BLOCK_MS.

Definition isProposalTallySenderEntitled (failoverActive : bool) (proposalId : string) (votingEnd : Z)
    (snap : rawsnap) (senderAddr : string) (now : Z) : bool :=
  if String.eqb proposalId "" then false
  else match parseSnapshot snap with
       | None => false
       | Some el =>
           match proposalLeader proposalId el with
           | None => false
           | Some leader =>
               resultSenderEntitled (rankedElectorate el (m_addr leader)) senderAddr votingEnd now
                 TAKEOVER_STEP_MS failoverActive
           end
       end.

Definition isTallyLeader (vs : list validator) (self proposalId : string) : bool :=
  match vs with
  | [] => true
  | _ => match proposalLeader proposalId vs with
         | Some v => bool_decide (va_addr v = Some self)
         | None => false
         end
  end.

Definition canTallyProposal (failoverActive : bool) (vs : list validator) (self proposalId : string)
    (votingEnd : Z) (snap : rawsnap) (now : Z) : bool :=
  if negb failoverActive then isTallyLeader vs self proposalId
  else isProposalTallySenderEntitled failoverActive proposalId votingEnd snap self now.

End Leader.
