(* ===== verification/Governance.v ===== *)
(** * Governance: the engine

    [src/validators/governance.js] and its wire paths
    [governance/{propose_inbound,vote_inbound,result_inbound,result_request,
    result_catch_up,tally}.js], over the two tables of [src/db/governance.js].
    A handler is split where its reads are separated from its write, so the
    writes of overlapping passes may interleave: a decision is suspended in
    [writes] until its [UPDATE] runs. *)

From S2P Require Import Prelude GateRegistry BigNum Json GovRules PbftState PbftEngine GovTally.
Open Scope Z_scope.

(** ** Tables and state *)

Inductive status := Voting | Passed | Failed | Expired.

#[export] Instance status_eq_dec : EqDecision status.
Proof. solve_decision. Defined.

(** A row of [governance_proposals]. Times are milliseconds. *)
Record proposalrow := ProposalRow {
  pr_id : string; pr_proposer : string; pr_parameter : string;
  pr_current : string; pr_proposed : string;
  pr_status : status; pr_votingEnd : Z; pr_activation : option Z; pr_snapshot : rawsnap }.

Definition set_status (st : status) (r : proposalrow) : proposalrow :=
  ProposalRow (pr_id r) (pr_proposer r) (pr_parameter r) (pr_current r) (pr_proposed r) st
    (pr_votingEnd r) (pr_activation r) (pr_snapshot r).

(** A vote on the wire: the fields a GOV_VOTE and the evidence of a GOV_RESULT
    carry; [None] for a sequence that is not an integer number. *)
Record wirevote := WireVote { wv_voter : string; wv_vote : string; wv_sig : string; wv_seq : option Z }.

Inductive gov_effect :=
| GovPropose (id : string) (snap : list member) (activation : option Z)
| GovVote (id vote voter sig : string) (sq : Z)
| GovResult (id : string) (st : status) (t : tally) (votes : list wirevote) (catchUp : bool) (to : option string)
| GovResultReq (id : string)
| Finalized (id parameter oldValue newValue : string) (activation : option Z).

(** A decision taken whose [UPDATE] has not run: the tally leader's, or the one
    a GOV_RESULT led to. *)
Inductive decision :=
| TallyDecision (id : string) (st : status) (t : tally) (votes : list wirevote)
| ResultDecision (id : string) (st : status).

Record gov := Gov {
  gv_validators : list validator;
  gv_proposals : gmap string proposalrow;               (** by collated proposal id *)
  gv_votes : gmap (string * string) voterow;            (** by collated proposal id and voter *)
  gv_requests : gmap string Z;                          (** [_resultRequests] *)
  gv_writes : list decision;
  gv_out : list gov_effect }.

Definition with_validators v (g : gov) : gov := Gov v (gv_proposals g) (gv_votes g) (gv_requests g) (gv_writes g) (gv_out g).
Definition with_proposals v (g : gov) : gov := Gov (gv_validators g) v (gv_votes g) (gv_requests g) (gv_writes g) (gv_out g).
Definition with_votes v (g : gov) : gov := Gov (gv_validators g) (gv_proposals g) v (gv_requests g) (gv_writes g) (gv_out g).
Definition with_requests v (g : gov) : gov := Gov (gv_validators g) (gv_proposals g) (gv_votes g) v (gv_writes g) (gv_out g).
Definition with_writes v (g : gov) : gov := Gov (gv_validators g) (gv_proposals g) (gv_votes g) (gv_requests g) v (gv_out g).
Definition gov_emit (e : gov_effect) (g : gov) : gov :=
  Gov (gv_validators g) (gv_proposals g) (gv_votes g) (gv_requests g) (gv_writes g) (e :: gv_out g).

(** The hub around the engine. *)
Record genv := GEnv {
  ge_addr : string; ge_identity : option string; ge_sign : string → string;
  ge_network : string; ge_latest : option Z;
  ge_votingPeriod : Z; ge_tallyInterval : Z;
  ge_registry : option (gmap string string); ge_signers : option (gset string) }.

Definition gov_failover (h : genv) : bool := isTallyFailoverActive (ge_network h) (ge_latest h).

(** ** Parameters *)

Definition KNOWN_CAPABILITIES : list string := ["price"; "cross_chain"; "oracle_publish"; "attestation"; "full_node"].

Definition MIN_STAKE_GOVERNANCE_DISABLED : bool := true.

Definition parseCapabilityMinStakeParam (parameter : string) : option string :=
  r ← strip_prefix "CAPABILITY_" parameter;
  m ← strip_suffix "_MIN_STAKE" r;
  let capability := toLowerCase m in
  if bool_decide (capability ∈ KNOWN_CAPABILITIES) then Some capability else None.

(** A character [.] of a regular expression matches. *)
Definition dot_char (c : ascii) : bool := negb (Ascii.eqb c (ch 10)) && negb (Ascii.eqb c (ch 13)).

Definition parseAttestationProviderParam (parameter : string) : option string :=
  m ← strip_prefix "ATTESTATION_PROVIDER:" parameter;
  if negb (String.eqb m "") && all_chars dot_char m then Some m else None.

Definition blockAnchored (parameter : string) : bool :=
  match parseCapabilityMinStakeParam parameter, parseAttestationProviderParam parameter with
  | None, None => false
  | _, _ => true
  end.

Section Governance.
Context (verify : string → string → string → bool).  (** ed25519: payload, signature, key *)
Context (hash32 : string → Z).                       (** the first four bytes of sha256 *)
Context (collate : string → string).                 (** the collation of the key columns *)

(** ** The tables' statements *)

Definition rowsOf (id : string) (g : gov) : list voterow :=
  (λ kv, kv.2) <$> filter (λ kv : (string * string) * voterow, kv.1.1 = collate id) (map_to_list (gv_votes g)).

(** [setGovernanceVote]: insert, or overwrite only with a greater sequence. *)
Definition setGovernanceVote (id voter : string) (c : choice) (sig : string) (sq : Z) (g : gov) : gov :=
  let key := (collate id, collate voter) in
  let row := match gv_votes g !! key with
             | None => VoteRow voter c sig sq
             | Some r => if vr_seq r <? sq then VoteRow (vr_voter r) c sig sq else r
             end in
  with_votes (<[key := row]> (gv_votes g)) g.

(** The two values of the [ENUM] column; another is refused by the table. *)
Definition choice_of (vote : string) : option choice :=
  if String.eqb vote "approve" then Some Approve else if String.eqb vote "reject" then Some Reject else None.

Definition choice_text (c : choice) : string := match c with Approve => "approve" | Reject => "reject" end.

Definition upsertVote (id voter vote sig : string) (sq : Z) (g : gov) : gov :=
  match choice_of vote with Some c => setGovernanceVote id voter c sig sq g | None => g end.

(** [updateGovernanceProposal]: the rows it changed. *)
Definition updateGovernanceProposal (id : string) (st : status) (g : gov) : gov * bool :=
  match gv_proposals g !! collate id with
  | Some r => if decide (pr_status r = Voting)
              then (with_proposals (<[collate id := set_status st r]> (gv_proposals g)) g, true)
              else (g, false)
  | None => (g, false)
  end.

(** [getGovernanceProposalByParameter]: the latest failed proposal's end. *)
Definition lastFailedEnd (parameter : string) (g : gov) : option Z :=
  foldr (λ kv acc, let r := kv.2 in
           if decide (collate (pr_parameter r) = collate parameter ∧ pr_status r = Failed)
           then Some (match acc with Some e => Z.max e (pr_votingEnd r) | None => pr_votingEnd r end)
           else acc) None (map_to_list (gv_proposals g)).

Definition inCooldown (parameter : string) (now : Z) (g : gov) : bool :=
  match lastFailedEnd parameter g with
  | Some e => now <? e + COOLDOWN_DAYS * 86400000
  | None => false
  end.

(** ** Senders *)

Definition gov_isKnownSender (h : genv) (sender : string) : bool :=
  match ge_registry h with
  | None => false
  | Some reg =>
      if bool_decide (reg = ∅)
      then negb (match ge_signers h with Some s => negb (bool_decide (s = ∅)) | None => false end)
      else bool_decide (is_Some (reg !! sender))
  end.

(** ** Proposals *)

(** A GOV_PROPOSE; absent strings are empty. *)
Record wireproposal := WireProposal {
  wp_sender : string; wp_id : string; wp_parameter : string; wp_current : string; wp_proposed : string;
  wp_proposer : string; wp_activation : option Z; wp_snapshot : rawsnap }.

Definition inboundProposalSenderAdmits (h : genv) (w : wireproposal) : bool :=
  if negb (gov_isKnownSender h (wp_sender w)) then false
  else
    let bound := match ge_registry h with
                 | Some reg =>
                     if bool_decide (reg = ∅) then true
                     else let senderPk := toLowerCase (default "" (reg !! wp_sender w)) in
                          negb (String.eqb senderPk "") && String.eqb senderPk (toLowerCase (wp_proposer w))
                 | None => true
                 end in
    if negb bound then false
    else negb (MIN_STAKE_GOVERNANCE_DISABLED &&
               match parseCapabilityMinStakeParam (wp_parameter w) with Some _ => true | None => false end).

(** [resolveInboundActivation]: the outer [None] is [DROP]. *)
Definition resolveInboundActivation (h : genv) (parameter : string) (activationBlock : option Z) : option (option Z) :=
  if blockAnchored parameter then
    match activationBlock, ge_latest h with
    | Some ab, Some latest =>
        if ab <? minActivationBlock latest (ge_votingPeriod h) then None else Some (Some ab)
    | _, _ => None
    end
  else Some activationBlock.

Definition inboundProposalBoundsHold (parameter cur prop : string) : bool :=
  match validateChangeBounds parameter cur prop with Ok _ => true | Err _ => false end.

(** [inboundProposalSnapshotJson]: the outer [None] is [DROP]. *)
Definition inboundProposalSnapshotJson (h : genv) (g : gov) (raw : rawsnap) : option rawsnap :=
  let valid := snap ← parseSnapshot raw;
               if snapshotMatchesLocalSet (gv_validators g) snap then Some snap else None in
  match valid with
  | Some snap => Some (persistSnapshot snap)
  | None => if isSnapshotLockActive (ge_network h) (ge_latest h) then None else Some RNull
  end.

(** The [INSERT IGNORE] of an inbound proposal. *)
Definition insertProposal (r : proposalrow) (g : gov) : gov :=
  match gv_proposals g !! collate (pr_id r) with
  | Some _ => g
  | None => with_proposals (<[collate (pr_id r) := r]> (gv_proposals g)) g
  end.

Definition gov_handlePropose (h : genv) (now : Z) (w : wireproposal) (g : gov) : gov :=
  if String.eqb (wp_id w) "" || String.eqb (wp_parameter w) "" then g
  else if negb (inboundProposalSenderAdmits h w) then g
  else match resolveInboundActivation h (wp_parameter w) (wp_activation w) with
       | None => g
       | Some activation =>
           if negb (inboundProposalBoundsHold (wp_parameter w) (wp_current w) (wp_proposed w)) then g
           else match inboundProposalSnapshotJson h g (wp_snapshot w) with
                | None => g
                | Some snap =>
                    if inCooldown (wp_parameter w) now g then g
                    else insertProposal (ProposalRow (wp_id w) (wp_proposer w) (wp_parameter w) (wp_current w)
                           (wp_proposed w) Voting (now + ge_votingPeriod h) activation snap) g
                end
       end.

Inductive gov_error :=
| NoIdentity | NotValidator | ActiveExists | Cooldown | Bounds (e : bounds_error) | EnvOwned | MinStakeDisabled
| Activation (e : activation_error) | NotVoting | VotingEnded | NotInElectorate.

Definition isActiveValidator (g : gov) (pk : string) : bool :=
  existsb (λ v, bool_decide (va_pubkey v = Some pk)) (gv_validators g).

Definition activeFor (parameter : string) (g : gov) : bool :=
  existsb (λ kv, bool_decide (collate (pr_parameter kv.2) = collate parameter ∧ pr_status kv.2 = Voting))
    (map_to_list (gv_proposals g)).

(** [assertProposable], after its length checks. *)
Definition assertProposable (h : genv) (now : Z) (parameter cur prop : string) (g : gov) : result gov_error string :=
  match ge_identity h with
  | None => Err NoIdentity
  | Some pk =>
      check isActiveValidator g pk else NotValidator in
      check negb (activeFor parameter g) else ActiveExists in
      check negb (inCooldown parameter now g) else Cooldown in
      match validateChangeBounds parameter cur prop with
      | Err e => Err (Bounds e)
      | Ok _ =>
          check negb (bool_decide (parameter ∈ SLASHING_PARAMS)) else EnvOwned in
          check negb (MIN_STAKE_GOVERNANCE_DISABLED &&
                      match parseCapabilityMinStakeParam parameter with Some _ => true | None => false end)
            else MinStakeDisabled in
          Ok pk
      end
  end.

(** [propose]; the id is ['gov:' + parameter + ':' + Date.now()]. *)
Definition gov_propose (h : genv) (now : Z) (id parameter cur prop : string) (activationBlock : option Z) (g : gov)
    : result gov_error gov :=
  match assertProposable h now parameter cur prop g with
  | Err e => Err e
  | Ok pk =>
      let act := if blockAnchored parameter
                 then match computeActivationBlock (ge_latest h) (ge_votingPeriod h) activationBlock with
                      | Ok a => Ok (Some a) | Err e => Err (Activation e) end
                 else Ok None in
      match act with
      | Err e => Err e
      | Ok activation =>
          let snap := buildValidatorSnapshot (gv_validators g) in
          Ok (gov_emit (GovPropose id snap activation)
                (insertProposal (ProposalRow id pk parameter cur prop Voting (now + ge_votingPeriod h) activation
                   (persistSnapshot snap)) g))
      end
  end.

(** ** Votes *)

Definition isSigner (vs : list validator) (voterPubkey : string) : bool :=
  existsb (λ v, String.eqb (toLowerCase (js_String (va_pubkey v))) (toLowerCase voterPubkey)) vs.

Definition voteIsAuthentic (g : gov) (id : string) (v : wirevote) (sq : Z) : bool :=
  isSigner (gv_validators g) (wv_voter v) &&
  verify (voteSigningPayload id (wv_vote v) (wv_voter v) sq) (wv_sig v) (wv_voter v).

Definition inElectorate (el : option (list member)) (voterPubkey : string) : bool :=
  match el with
  | Some el => existsb (λ e, String.eqb (m_pubkey e) (toLowerCase voterPubkey)) el
  | None => true
  end.

Definition voteCountsOnThisProposal (now : Z) (id voterPubkey : string) (g : gov) : bool :=
  match gv_proposals g !! collate id with
  | Some r =>
      bool_decide (pr_status r = Voting) && negb (pr_votingEnd r <? now) &&
      inElectorate (parseSnapshot (pr_snapshot r)) voterPubkey
  | None => false
  end.

Definition gov_handleVote (now : Z) (id : string) (v : wirevote) (g : gov) : gov :=
  if String.eqb id "" || String.eqb (wv_vote v) "" || String.eqb (wv_voter v) "" then g
  else
    let sq := normalizeVoteSeq (wv_seq v) in
    if sq =? 0 then g
    else if negb (voteIsAuthentic g id v sq) then g
    else if negb (voteCountsOnThisProposal now id (wv_voter v) g) then g
    else upsertVote id (wv_voter v) (wv_vote v) (wv_sig v) sq g.

(** [vote]: this hub's own. *)
Definition gov_vote (h : genv) (now : Z) (id : string) (c : choice) (g : gov) : result gov_error gov :=
  match ge_identity h with
  | None => Err NoIdentity
  | Some pk =>
      check isActiveValidator g pk else NotValidator in
      match gv_proposals g !! collate id with
      | Some r =>
          check bool_decide (pr_status r = Voting) else NotVoting in
          check negb (pr_votingEnd r <? now) else VotingEnded in
          check inElectorate (parseSnapshot (pr_snapshot r)) pk else NotInElectorate in
          let prior := match gv_votes g !! (collate id, collate pk) with
                       | Some row => normalizeVoteSeq (Some (vr_seq row)) | None => 0 end in
          let sq := Z.max now (prior + 1) in
          let sig := ge_sign h (voteSigningPayload id (choice_text c) pk sq) in
          Ok (gov_emit (GovVote id (choice_text c) pk sig sq) (setGovernanceVote id pk c sig sq g))
      | None => Err NotVoting
      end
  end.

(** ** The tally *)

Definition evidence (rows : list voterow) : list wirevote :=
  map (λ r, WireVote (vr_voter r) (choice_text (vr_vote r)) (vr_sig r) (Some (normalizeVoteSeq (Some (vr_seq r))))) rows.

Definition status_of (approved : bool) : status := if approved then Passed else Failed.

(** [tallyProposal] up to its [UPDATE], for a row the sweep selected. *)
Definition tallyProposal (h : genv) (now : Z) (id : string) (g : gov) : gov :=
  match gv_proposals g !! collate id with
  | Some r =>
      if bool_decide (pr_status r = Voting) && (pr_votingEnd r <=? now) &&
         canTallyProposal hash32 (gov_failover h) (gv_validators g) (ge_addr h) (pr_id r) (pr_votingEnd r) (pr_snapshot r) now
      then
        let votes := rowsOf id g in
        let t := computeTally (gv_validators g) votes (parseSnapshot (pr_snapshot r)) in
        with_writes (TallyDecision (pr_id r) (status_of (t_approved t)) t (evidence votes) :: gv_writes g) g
      else g
  | None => g
  end.

(** ** Results *)

Record wireresult := WireResult {
  wr_sender : string; wr_id : string; wr_status : string; wr_votes : option (list wirevote);
  wr_tally : option (Z * Z * Z * Z) }.

Definition status_text (st : status) : string :=
  match st with Voting => "voting" | Passed => "passed" | Failed => "failed" | Expired => "expired" end.

(** One entry of the evidence. *)
Definition ingestVote (id : string) (members : gset string) (v : wirevote) (g : gov) : gov :=
  match choice_of (wv_vote v) with
  | None => g
  | Some c =>
      if negb (bool_decide (toLowerCase (wv_voter v) ∈ members)) then g
      else
        let sq := normalizeVoteSeq (wv_seq v) in
        if sq =? 0 then g
        else if negb (verify (voteSigningPayload id (wv_vote v) (wv_voter v) sq) (wv_sig v) (wv_voter v)) then g
        else setGovernanceVote id (wv_voter v) c (wv_sig v) sq g
  end.

Definition ingestResultVotes (id : string) (votes : option (list wirevote)) (el : list member) (g : gov) : gov :=
  match votes with
  | None => g
  | Some vs =>
      if (GOV_SNAPSHOT_MAX_VALIDATORS <? length vs)%nat then g
      else let members := list_to_set (map m_pubkey el) in
           fold_left (λ g v, ingestVote id members v g) vs g
  end.

(** The status a result leads to; a status the table does not know is refused by it. *)
Definition status_wire (s : string) : option status :=
  if String.eqb s "passed" then Some Passed else if String.eqb s "failed" then Some Failed
  else if String.eqb s "voting" then Some Voting else if String.eqb s "expired" then Some Expired else None.

(** The leader half of [resultComesFromTallyLeader]. *)
Definition comesFromTallyLeader (g : gov) (w : wireresult) : bool :=
  match proposalLeader hash32 (wr_id w) (gv_validators g) with
  | Some v => bool_decide (va_addr v = Some (wr_sender w))
  | None => false
  end.

(** [handleResult] up to its [UPDATE]. *)
Definition handleResult (h : genv) (now : Z) (w : wireresult) (g : gov) : gov :=
  if String.eqb (wr_id w) "" || String.eqb (wr_status w) "" then g
  else if negb (gov_isKnownSender h (wr_sender w)) then g
  else if negb (gov_failover h) &&
          negb (comesFromTallyLeader g w) then g
  else match gv_proposals g !! collate (wr_id w) with
       | None => g
       | Some r =>
           if now <? pr_votingEnd r then g
           else if gov_failover h &&
                   negb (isProposalTallySenderEntitled hash32 true (wr_id w) (pr_votingEnd r) (pr_snapshot r) (wr_sender w) now)
           then g
           else match parseSnapshot (pr_snapshot r) with
                | Some el =>
                    let g := ingestResultVotes (wr_id w) (wr_votes w) el g in
                    let t := computeTally (gv_validators g) (rowsOf (wr_id w) g) (Some el) in
                    with_writes (ResultDecision (wr_id w) (status_of (t_approved t)) :: gv_writes g) g
                | None =>
                    match status_wire (wr_status w) with
                    | Some st => with_writes (ResultDecision (wr_id w) st :: gv_writes g) g
                    | None => g
                    end
                end
       end.

(** The [UPDATE] of a decision, and what follows when it changed a row. *)
Definition applyDecision (d : decision) (g : gov) : gov :=
  match d with
  | TallyDecision id st t votes =>
      match updateGovernanceProposal id st g with
      | (g', true) =>
          let g' := gov_emit (GovResult id st t votes false None) g' in
          match st, gv_proposals g' !! collate id with
          | Passed, Some r => gov_emit (Finalized id (pr_parameter r) (pr_current r) (pr_proposed r) (pr_activation r)) g'
          | _, _ => g'
          end
      | (g', false) => g'
      end
  | ResultDecision id st =>
      match updateGovernanceProposal id st g with
      | (g', true) =>
          match st, gv_proposals g' !! collate id with
          | Passed, Some r => gov_emit (Finalized id (pr_parameter r) (pr_current r) (pr_proposed r) (pr_activation r)) g'
          | _, _ => g'
          end
      | (g', false) => g'
      end
  end.

(** The [k]-th suspended write runs. *)
Definition runWrite (k : nat) (g : gov) : gov :=
  match gv_writes g !! k with
  | Some d => applyDecision d (with_writes (delete k (gv_writes g)) g)
  | None => g
  end.

(** *** Catching up on missed results *)

Definition resultRequestDue (r : proposalrow) (now stepMs : Z) : bool :=
  bool_decide (pr_status r = Voting) && (0 <? stepMs) && (pr_votingEnd r + stepMs <=? now).

(** One turn of its sending loop; [sent] tells whether a broadcast reached a peer. *)
Definition requestOne (h : genv) (now : Z) (sent : string → bool) (r : proposalrow) (g : gov) : gov :=
  if negb (resultRequestDue r now (ge_tallyInterval h)) then g
  else if match gv_requests g !! pr_id r with
          | Some last => now - last <? ge_tallyInterval h
          | None => false
          end then g
  else if sent (pr_id r)
  then gov_emit (GovResultReq (pr_id r)) (with_requests (<[pr_id r := now]> (gv_requests g)) g) else g.

(** [requestMissingResults]. *)
Definition requestMissingResults (h : genv) (now : Z) (sent : string → bool) (g : gov) : gov :=
  let due := filter (λ kv : string * proposalrow, pr_status kv.2 = Voting ∧ pr_votingEnd kv.2 ≤ now) (map_to_list (gv_proposals g)) in
  let active : gset string := list_to_set (map (λ kv, pr_id kv.2) due) in
  let g := with_requests (filter (λ kv, kv.1 ∈ active) (gv_requests g)) g in
  fold_left (λ g kv, requestOne h now sent kv.2 g) due g.

(** [handleResultRequest], to the peer or to all. *)
Definition handleResultRequest (h : genv) (sender id : string) (direct : bool) (g : gov) : gov :=
  if String.eqb id "" then g
  else if negb (gov_isKnownSender h sender) then g
  else match gv_proposals g !! collate id with
       | None => g
       | Some r =>
           match parseSnapshot (pr_snapshot r) with
           | None => g
           | Some el =>
               if negb (bool_decide (pr_status r = Passed ∨ pr_status r = Failed)) then g
               else
                 let votes := rowsOf id g in
                 let t := computeTally (gv_validators g) votes (Some el) in
                 if negb (bool_decide (status_of (t_approved t) = pr_status r)) then g
                 else gov_emit (GovResult (pr_id r) (pr_status r) t (evidence votes) true
                                  (if direct then Some sender else None)) g
           end
       end.

Definition tally_numbers (t : tally) : Z * Z * Z * Z :=
  (t_approvals t, t_rejections t, t_totalVotes t, t_validatorCount t).

(** [handleCatchUpResult]. Its [UPDATE] tests the status again itself, so the
    reads and the write are one step here. *)
Definition handleCatchUpResult (h : genv) (now : Z) (w : wireresult) (g : gov) : gov :=
  let id := wr_id w in
  if String.eqb id "" then g
  else if negb (bool_decide (status_wire (wr_status w) = Some Passed ∨ status_wire (wr_status w) = Some Failed)) then g
  else if negb (bool_decide (is_Some (gv_requests g !! id))) then g
      else if negb (gov_isKnownSender h (wr_sender w)) then g
      else match wr_votes w with
      | None => g
      | Some vs =>
          if (GOV_SNAPSHOT_MAX_VALIDATORS <? length vs)%nat then g
          else match gv_proposals g !! collate id with
          | None => g
          | Some r =>
              if now <? pr_votingEnd r then g
              else match parseSnapshot (pr_snapshot r) with
              | None => g
              | Some el =>
                  let g := ingestResultVotes id (Some vs) el g in
                  let t := computeTally (gv_validators g) (rowsOf id g) (Some el) in
                  let local := status_of (t_approved t) in
                  if negb (bool_decide (status_wire (wr_status w) = Some local)) || negb (bool_decide (wr_tally w = Some (tally_numbers t))) then g
                  else
                    let g' := applyDecision (ResultDecision id local) g in
                    with_requests (delete id (gv_requests g')) g'
              end
          end
      end.

(** ** Runs *)

Inductive gov_event :=
| GEvSetValidators (vs : list validator)
| GEvPropose (now : Z) (id parameter cur prop : string) (activationBlock : option Z)
| GEvWirePropose (now : Z) (w : wireproposal)
| GEvVote (now : Z) (id : string) (c : choice)
| GEvWireVote (now : Z) (id : string) (v : wirevote)
| GEvTally (now : Z) (id : string)
| GEvResult (now : Z) (w : wireresult)
| GEvWrite (k : nat)
| GEvRequest (now : Z) (sent : string → bool)
| GEvResultRequest (sender id : string) (direct : bool)
| GEvCatchUp (now : Z) (w : wireresult).

Definition gov_handle (h : genv) (e : gov_event) (g : gov) : gov :=
  match e with
  | GEvSetValidators vs => with_validators (canonicalValidatorOrder vs) g
  | GEvPropose now id p c q a => match gov_propose h now id p c q a g with Ok g' => g' | Err _ => g end
  | GEvWirePropose now w => gov_handlePropose h now w g
  | GEvVote now id c => match gov_vote h now id c g with Ok g' => g' | Err _ => g end
  | GEvWireVote now id v => gov_handleVote now id v g
  | GEvTally now id => tallyProposal h now id g
  | GEvResult now w => handleResult h now w g
  | GEvWrite k => runWrite k g
  | GEvRequest now sent => requestMissingResults h now sent g
  | GEvResultRequest sender id direct => handleResultRequest h sender id direct g
  | GEvCatchUp now w => handleCatchUpResult h now w g
  end.

Definition gov_initial : gov := Gov [] ∅ ∅ ∅ [] [].

Definition gov_run (l : list (genv * gov_event)) : gov :=
  fold_left (λ g he, gov_handle he.1 he.2 g) l gov_initial.

End Governance.
