(* ===== verification/GovProps.v ===== *)
(** * Governance: theorems

    Every recorded vote was signed by the key it is recorded for and is never
    replaced by an older one; a locked proposal passes only with signed approvals
    of two thirds of its electorate and is finalized once; inbound proposals
    clear every gate; tally failover opens rank by rank; and what an oversized
    snapshot does to the lock. *)

From S2P Require Import Prelude GateRegistry BigNum Json GovRules PbftState PbftEngine GovTally Governance.
Open Scope Z_scope.

Section GovInv.
Context (verify : string → string → string → bool) (hash32 : string → Z) (collate : string → string).

Abbreviation gstep := (gov_handle verify hash32 collate).

(** A row whose signature is its voter's (under some spelling of proposal and
    key that the key columns identify) over that choice and sequence. *)
Definition authentic (key : string * string) (r : voterow) : Prop :=
  key.2 = collate (vr_voter r) ∧
  ∃ id v, collate id = key.1 ∧ collate v = key.2 ∧
    verify (voteSigningPayload id (choice_text (vr_vote r)) v (vr_seq r)) (vr_sig r) v = true.

Definition votes_ok (g : gov) : Prop := ∀ key r, gv_votes g !! key = Some r → authentic key r.

(** The vote table only moves forward. *)
Definition votes_le (m m' : gmap (string * string) voterow) : Prop :=
  ∀ key r, m !! key = Some r → ∃ r', m' !! key = Some r' ∧ (r' = r ∨ vr_seq r < vr_seq r').

#[global] Instance votes_le_refl : Reflexive votes_le.
Proof. intros m key r H. eauto. Qed.

#[global] Instance votes_le_trans : Transitive votes_le.
Proof.
  intros m1 m2 m3 H1 H2 key r Hr. destruct (H1 _ _ Hr) as (r' & Hr' & Hle).
  destruct (H2 _ _ Hr') as (r'' & Hr'' & Hle'). exists r''. split; [done|].
  destruct Hle as [->|?], Hle' as [->|?]; auto; right; lia.
Qed.

(** The proposal table only gains rows, and a row only leaves [Voting]. *)
Definition row_le (r r' : proposalrow) : Prop := ∃ st, r' = set_status st r ∧ (st = pr_status r ∨ pr_status r = Voting).

Definition props_le (m m' : gmap string proposalrow) : Prop :=
  ∀ k r, m !! k = Some r → ∃ r', m' !! k = Some r' ∧ row_le r r'.

Lemma set_status_same r : set_status (pr_status r) r = r.
Proof. by destruct r. Qed.

#[global] Instance row_le_refl : Reflexive row_le.
Proof. intros r. exists (pr_status r). by rewrite set_status_same; auto. Qed.

#[global] Instance row_le_trans : Transitive row_le.
Proof.
  intros r1 r2 r3 (s1 & -> & H1) (s2 & -> & H2). exists s2. split; [by destruct r1|].
  simpl in *. destruct H2 as [->| ->]; [done|]. destruct H1 as [<-|H1]; auto.
Qed.

#[global] Instance props_le_refl : Reflexive props_le.
Proof. intros m k r H. eauto using row_le_refl. Qed.

#[global] Instance props_le_trans : Transitive props_le.
Proof.
  intros m1 m2 m3 H1 H2 k r Hr. destruct (H1 _ _ Hr) as (r' & Hr' & Hle).
  destruct (H2 _ _ Hr') as (r'' & Hr'' & Hle'). exists r''. split; [done|by etrans].
Qed.

(** ** Writing a vote *)

Lemma votes_le_set id v c sig sq g : votes_le (gv_votes g) (gv_votes (setGovernanceVote collate id v c sig sq g)).
Proof.
  unfold setGovernanceVote. simpl. intros key r Hr. rewrite lookup_insert. case_decide as E; [subst|eauto].
  rewrite Hr. eexists. split; [done|]. destruct (Z.ltb_spec (vr_seq r) sq); [by right|by left].
Qed.

Lemma votes_ok_set id v c sig sq g :
  votes_ok g → verify (voteSigningPayload id (choice_text c) v sq) sig v = true →
  votes_ok (setGovernanceVote collate id v c sig sq g).
Proof.
  intros Hok Hv key r. unfold setGovernanceVote. simpl. rewrite lookup_insert. case_decide as E; [subst|by apply Hok].
  destruct (gv_votes g !! (collate id, collate v)) as [r0|] eqn:Hr0.
  - destruct (Hok _ _ Hr0) as [Hk Hex]. destruct (vr_seq r0 <? sq); intros [= <-]; [|done].
    split; [done|]. by exists id, v.
  - intros [= <-]. split; [done|]. by exists id, v.
Qed.

Lemma choice_of_text vote c : choice_of vote = Some c → vote = choice_text c.
Proof.
  unfold choice_of. destruct (String.eqb_spec vote "approve"); [by intros [= <-]|].
  destruct (String.eqb_spec vote "reject"); [by intros [= <-]|done].
Qed.

(** Only the vote table changes. *)
Definition votes_only (g g' : gov) : Prop := g' = with_votes (gv_votes g') g.

Lemma votes_only_set id v c sig sq g : votes_only g (setGovernanceVote collate id v c sig sq g).
Proof. by destruct g. Qed.

Lemma votes_only_trans g1 g2 g3 : votes_only g1 g2 → votes_only g2 g3 → votes_only g1 g3.
Proof. unfold votes_only. destruct g1, g2, g3; simpl. by intros [=] [=]; subst. Qed.

Lemma votes_only_refl g : votes_only g g.
Proof. by destruct g. Qed.

Lemma ingestVote_spec id ms v g :
  votes_ok g → let g' := ingestVote verify collate id ms v g in
  votes_only g g' ∧ votes_ok g' ∧ votes_le (gv_votes g) (gv_votes g').
Proof.
  intros Hok. simpl. unfold ingestVote. destruct (choice_of (wv_vote v)) as [c|] eqn:Ec; [|by split_and!; [apply votes_only_refl|..]].
  repeat (case_match; [by split_and!; [apply votes_only_refl|..]|]). bools.
  split_and!; [apply votes_only_set| |apply votes_le_set]. apply votes_ok_set; [done|].
  by rewrite <-(choice_of_text _ _ Ec).
Qed.

Lemma ingestResultVotes_spec id vs el g :
  votes_ok g → let g' := ingestResultVotes verify collate id vs el g in
  votes_only g g' ∧ votes_ok g' ∧ votes_le (gv_votes g) (gv_votes g').
Proof.
  intros Hok. simpl. unfold ingestResultVotes. destruct vs as [vs|]; [|by split_and!; [apply votes_only_refl|..]].
  case_match; [by split_and!; [apply votes_only_refl|..]|]. clear H.
  generalize (list_to_set (map m_pubkey el) : gset string). intros ms. revert g Hok.
  induction vs as [|v vs IH]; intros g Hok; simpl; [by split_and!; [apply votes_only_refl|..]|].
  destruct (ingestVote_spec id ms v g Hok) as (O1 & K1 & L1). destruct (IH _ K1) as (O2 & K2 & L2).
  split_and!; [by eapply votes_only_trans|done|by etrans].
Qed.

(** ** The invariant *)

Definition decision_id (d : decision) : string :=
  match d with TallyDecision id _ _ _ => id | ResultDecision id _ => id end.

Definition decision_status (d : decision) : status :=
  match d with TallyDecision _ st _ _ => st | ResultDecision _ st => st end.

Definition is_final (key : string) (e : gov_effect) : bool :=
  match e with Finalized id _ _ _ _ => String.eqb (collate id) key | _ => false end.

(** How often the change of a proposal was announced as final. *)
Definition finals (key : string) (out : list gov_effect) : nat := length (filter (λ e, is_final key e = true) out).

(** Signed approvals, of distinct members of the electorate, that make up two
    thirds of it. *)
Definition ratified (key : string) (el : list member) : Prop :=
  ∃ votes, NoDup ((λ v, toLowerCase (vr_voter v)) <$> votes) ∧
    (∀ v, v ∈ votes → vr_vote v = Approve ∧ toLowerCase (vr_voter v) ∈ map m_pubkey el ∧ ∃ k, authentic (key, k) v) ∧
    2 * Z.of_nat (length el) ≤ 3 * Z.of_nat (length votes).

Record gov_inv (g : gov) : Prop := {
  gi_votes : votes_ok g;
  gi_id key r : gv_proposals g !! key = Some r → collate (pr_id r) = key;
  gi_final key : finals key (gv_out g) =
    match gv_proposals g !! key with
    | Some r => if decide (pr_status r = Passed) then 1%nat else 0%nat
    | None => 0%nat
    end;
  gi_ratified key r el : gv_proposals g !! key = Some r → pr_status r = Passed →
    parseSnapshot (pr_snapshot r) = Some el → ratified key el;
  gi_writes d : d ∈ gv_writes g → ∃ r, gv_proposals g !! collate (decision_id d) = Some r ∧
    (decision_status d = Passed → ∀ el, parseSnapshot (pr_snapshot r) = Some el → ratified (collate (decision_id d)) el) }.

Definition not_final (e : gov_effect) : Prop := match e with Finalized _ _ _ _ _ => False | _ => True end.

Lemma finals_app key l1 l2 : finals key (l1 ++ l2) = (finals key l1 + finals key l2)%nat.
Proof. unfold finals. by rewrite filter_app, length_app. Qed.

Lemma finals_quiet key l : Forall not_final l → finals key l = 0%nat.
Proof.
  unfold finals. induction 1 as [|e l He _ IH]; [done|]. rewrite filter_cons_False; [done|]. by destruct e.
Qed.

Lemma gov_inv_frame g g' l :
  gov_inv g → votes_ok g' → gv_proposals g' = gv_proposals g → gv_writes g' ⊆ gv_writes g →
  gv_out g' = l ++ gv_out g → Forall not_final l → gov_inv g'.
Proof.
  intros [H1 H2 H3 H4 H5] Hv Ep Ew Eo Hl. split; rewrite ?Ep; try done.
  - intros key. rewrite Eo, finals_app, (finals_quiet key l Hl). apply H3.
  - intros d Hd. apply H5, Ew, Hd.
Qed.

Lemma gov_inv_emit e g : gov_inv g → not_final e → gov_inv (gov_emit e g).
Proof. intros I He. apply (gov_inv_frame g _ [e]); try done; [apply I|]. by constructor. Qed.

Lemma gov_inv_votes g g' : gov_inv g → votes_only g g' → votes_ok g' → gov_inv g'.
Proof. intros I E Hv. apply (gov_inv_frame g g' []); try done; by rewrite E. Qed.

Lemma insertProposal_le r g : props_le (gv_proposals g) (gv_proposals (insertProposal collate r g)).
Proof.
  unfold insertProposal. destruct (gv_proposals g !! collate (pr_id r)) eqn:E; [done|]. simpl.
  intros k x Hx. rewrite lookup_insert_ne by congruence. eauto using row_le_refl.
Qed.

Lemma gov_inv_insert r g : gov_inv g → pr_status r = Voting → gov_inv (insertProposal collate r g).
Proof.
  intros I Hr. unfold insertProposal. destruct (gv_proposals g !! collate (pr_id r)) eqn:E; [done|].
  split; simpl; try apply I.
  - intros key x. rewrite lookup_insert. case_decide as Ek; [intros [= <-]; done|apply I].
  - intros key. rewrite (gi_final _ I), lookup_insert. case_decide as Ek; [subst; by rewrite E, Hr|done].
  - intros key x el. rewrite lookup_insert. case_decide as Ek; [intros [= <-]; by rewrite Hr|apply I].
  - intros d Hd. destruct (gi_writes _ I d Hd) as (x & Hx & Hrat). exists x. rewrite lookup_insert_ne by congruence. done.
Qed.

Lemma gov_inv_decide d g r :
  gov_inv g → gv_proposals g !! collate (decision_id d) = Some r →
  (decision_status d = Passed → ∀ el, parseSnapshot (pr_snapshot r) = Some el → ratified (collate (decision_id d)) el) →
  gov_inv (with_writes (d :: gv_writes g) g).
Proof.
  intros I Hr Hrat. split; simpl; try apply I. intros d' [-> |Hd]%elem_of_cons; [eauto|by apply I].
Qed.

(** ** Deciding *)

Lemma update_cases id st g :
  (∃ r, gv_proposals g !! collate id = Some r ∧ pr_status r = Voting ∧
     updateGovernanceProposal collate id st g =
       (with_proposals (<[collate id := set_status st r]> (gv_proposals g)) g, true)) ∨
  updateGovernanceProposal collate id st g = (g, false).
Proof.
  unfold updateGovernanceProposal. destruct (gv_proposals g !! collate id) as [r|]; [|by right].
  case_decide; [left; eauto|by right].
Qed.

(** What an applied decision does: nothing, or one row leaves [Voting], with the
    final announcement exactly when it passed. *)
Lemma applyDecision_cases d g :
  applyDecision collate d g = g ∨
  ∃ r l, gv_proposals g !! collate (decision_id d) = Some r ∧ pr_status r = Voting ∧
    applyDecision collate d g =
      Gov (gv_validators g) (<[collate (decision_id d) := set_status (decision_status d) r]> (gv_proposals g))
        (gv_votes g) (gv_requests g) (gv_writes g) (l ++ gv_out g) ∧
    ∀ key, finals key l = if decide (key = collate (decision_id d) ∧ decision_status d = Passed) then 1%nat else 0%nat.
Proof.
  destruct (update_cases (decision_id d) (decision_status d) g) as [(r & Hr & Hv & E)|E].
  - right. exists r.
    exists ((if decide (decision_status d = Passed)
             then [Finalized (decision_id d) (pr_parameter r) (pr_current r) (pr_proposed r) (pr_activation r)] else [])
            ++ match d with TallyDecision id st t vs => [GovResult id st t vs false None] | _ => [] end).
    split_and!; [done|done| |].
    + destruct d as [id st t vs|id st]; simpl in *; unfold applyDecision; rewrite E; simpl; rewrite lookup_insert_eq;
        destruct st; simpl; done.
    + intros key. rewrite finals_app. assert (Hz : finals key (match d with TallyDecision id st t vs =>
        [GovResult id st t vs false None] | _ => [] end) = 0%nat) by (by destruct d). rewrite Hz, Nat.add_0_r.
      case_decide as H1; [|rewrite decide_False by tauto; done]. unfold finals. simpl.
      destruct (String.eqb_spec (collate (decision_id d)) key) as [<-|Hne].
      * rewrite filter_cons_True by (simpl; by rewrite String.eqb_refl). rewrite decide_True by done. done.
      * rewrite filter_cons_False by (simpl; by rewrite String.eqb_eq).
        rewrite decide_False by naive_solver. done.
  - left. destruct d as [id st t vs|id st]; simpl in *; unfold applyDecision; by rewrite E.
Qed.

Lemma gov_inv_apply d g :
  gov_inv g → (∃ r, gv_proposals g !! collate (decision_id d) = Some r ∧
    (decision_status d = Passed → ∀ el, parseSnapshot (pr_snapshot r) = Some el → ratified (collate (decision_id d)) el)) →
  gov_inv (applyDecision collate d g).
Proof.
  intros I (r & Hr & Hrat). destruct (applyDecision_cases d g) as [->|(r' & l & Hr' & Hv & -> & Hl)]; [done|].
  rewrite Hr in Hr'. injection Hr' as <-. split; simpl; try apply I.
  - intros key x. rewrite lookup_insert. destruct (decide (_ = key)) as [Ek|Ek]; [|apply (gi_id _ I)].
    intros [= <-]. simpl. subst key. exact (gi_id _ I _ _ Hr).
  - intros key. rewrite finals_app, Hl, (gi_final _ I), lookup_insert.
    destruct (decide (collate (decision_id d) = key)) as [<-|Hne].
    + rewrite Hr, Hv. simpl. destruct (decision_status d); repeat case_decide; naive_solver.
    + rewrite decide_False by naive_solver. done.
  - intros key x el. rewrite lookup_insert. destruct (decide (_ = key)) as [Ek|Ek]; [|apply (gi_ratified _ I)]. intros [= <-]. simpl. subst key. intros Hd. by apply Hrat.
  - intros d' Hd'. destruct (gi_writes _ I d' Hd') as (x & Hx & Hxr).
    destruct (decide (collate (decision_id d) = collate (decision_id d'))) as [E|Hne].
    + rewrite <-E, lookup_insert_eq. rewrite <-E, Hr in Hx. injection Hx as <-. eexists. split; [done|]. simpl.
      by rewrite E.
    + rewrite lookup_insert_ne by done. eauto.
Qed.

Lemma applyDecision_le d g : props_le (gv_proposals g) (gv_proposals (applyDecision collate d g)).
Proof.
  destruct (applyDecision_cases d g) as [->|(r & l & Hr & Hv & -> & _)]; [done|]. simpl.
  intros k x Hx. rewrite lookup_insert. case_decide as Ek; [|eauto using row_le_refl].
  subst k. rewrite Hr in Hx. injection Hx as <-. eexists. split; [done|]. exists (decision_status d). auto.
Qed.

(** ** From a tally to a ratification *)

(** The collation identifies spellings that differ in case only, as the
    database's default collations do. *)
Definition case_insensitive : Prop := ∀ a b, toLowerCase a = toLowerCase b → collate a = collate b.

Lemma ceil_div_le a b x : 0 < b → ceil_div a b ≤ x → a ≤ b * x.
Proof. unfold ceil_div. intros Hb H. pose proof (Z.mod_pos_bound (- a) b Hb). pose proof (Z.div_mod (- a) b). nia. Qed.

Lemma rowsOf_elem id g r : r ∈ rowsOf collate id g → ∃ k, gv_votes g !! (collate id, k) = Some r.
Proof.
  unfold rowsOf. intros ([[a k] r'] & -> & [Hk Hin]%list_elem_of_filter)%list_elem_of_fmap. simpl in Hk. subst a.
  exists k. by apply elem_of_map_to_list.
Qed.

(** One row per voter, spellings aside. *)
Lemma rowsOf_voters id g :
  case_insensitive → votes_ok g → NoDup ((λ v, toLowerCase (vr_voter v)) <$> rowsOf collate id g).
Proof.
  intros Hci Hok. unfold rowsOf. rewrite <-list_fmap_compose. apply NoDup_fmap_2_strong.
  - intros [[a1 k1] r1] [[a2 k2] r2] [H1 Hin1]%list_elem_of_filter [H2 Hin2]%list_elem_of_filter. simpl in *. subst.
    intros Hv%Hci. apply elem_of_map_to_list in Hin1, Hin2.
    destruct (Hok _ _ Hin1) as [E1 _], (Hok _ _ Hin2) as [E2 _]. simpl in *.
    assert (k1 = k2) as <- by congruence. congruence.
  - apply NoDup_filter, NoDup_map_to_list.
Qed.

Lemma NoDup_fmap_filter {A C} (f : A → C) (P : A → Prop) `{!∀ x, Decision (P x)} l : NoDup (f <$> l) → NoDup (f <$> filter P l).
Proof.
  induction l as [|x l IH]; intros Hnd; [done|]. rewrite fmap_cons in Hnd. apply NoDup_cons in Hnd as [Hx Hnd].
  destruct (decide (P x)).
  - rewrite filter_cons_True by done. rewrite fmap_cons. constructor; [|auto].
    intros (y & E & [_ Hy]%list_elem_of_filter)%list_elem_of_fmap. apply Hx, list_elem_of_fmap. eauto.
  - rewrite filter_cons_False by done. auto.
Qed.

Lemma tally_ratified vs id el g :
  case_insensitive → votes_ok g →
  t_approved (computeTally vs (rowsOf collate id g) (Some el)) = true → ratified (collate id) el.
Proof.
  intros Hci Hok. unfold computeTally. simpl. intros [_ Ha]%andb_true_iff. apply Z.leb_le, ceil_div_le in Ha; [|lia].
  unfold countVotes in Ha. eexists. split_and!; [| |rewrite (Z.mul_comm 2); exact Ha].
  - do 2 apply NoDup_fmap_filter. by apply rowsOf_voters.
  - intros v [Hv [Hm Hin]%list_elem_of_filter]%list_elem_of_filter. split_and!; [done| |].
    + by rewrite elem_of_list_to_set in Hm.
    + apply rowsOf_elem in Hin as [k Hk]. exists k. by apply Hok.
Qed.

(** ** Every event *)

Definition signs (h : genv) : Prop := ∀ pk p, ge_identity h = Some pk → verify p (ge_sign h p) pk = true.

(** What one event does to the two tables. *)
Definition tables_le (g g' : gov) : Prop :=
  votes_le (gv_votes g) (gv_votes g') ∧ props_le (gv_proposals g) (gv_proposals g').

Lemma tables_le_votes g g' : votes_only g g' → votes_le (gv_votes g) (gv_votes g') → tables_le g g'.
Proof. intros E Hle. split; [done|]. by rewrite E. Qed.

Lemma tables_le_refl g : tables_le g g.
Proof. by split. Qed.

Definition good (g g' : gov) : Prop := gov_inv g' ∧ tables_le g g'.

Lemma good_refl g : gov_inv g → good g g.
Proof. intros I. split; [done|apply tables_le_refl]. Qed.

Lemma good_emit e g : gov_inv g → not_final e → good g (gov_emit e g).
Proof. intros I He. split; [by apply gov_inv_emit|by split]. Qed.

Lemma good_trans g1 g2 g3 : good g1 g2 → good g2 g3 → good g1 g3.
Proof. intros [_ [A1 A2]] [I [B1 B2]]. split; [done|]. split; by etrans. Qed.

Lemma good_insert r g : gov_inv g → pr_status r = Voting → good g (insertProposal collate r g).
Proof.
  intros I Hr. split; [by apply gov_inv_insert|]. split; [|apply insertProposal_le].
  unfold insertProposal. by case_match.
Qed.

Lemma good_set id v c sig sq g :
  gov_inv g → verify (voteSigningPayload id (choice_text c) v sq) sig v = true →
  good g (setGovernanceVote collate id v c sig sq g).
Proof.
  intros I Hv. split.
  - eapply gov_inv_votes; [done|apply votes_only_set|]. apply votes_ok_set; [apply I|done].
  - eapply tables_le_votes; [apply votes_only_set|apply votes_le_set].
Qed.

Lemma good_ingest id vs el g : gov_inv g → good g (ingestResultVotes verify collate id vs el g).
Proof.
  intros I. destruct (ingestResultVotes_spec id vs el g (gi_votes _ I)) as (E & K & L).
  split; [by eapply gov_inv_votes|by eapply tables_le_votes].
Qed.

Lemma good_decide d g r :
  gov_inv g → gv_proposals g !! collate (decision_id d) = Some r →
  (decision_status d = Passed → ∀ el, parseSnapshot (pr_snapshot r) = Some el → ratified (collate (decision_id d)) el) →
  good g (with_writes (d :: gv_writes g) g).
Proof. intros. split; [by eapply gov_inv_decide|by split]. Qed.

Lemma status_of_passed b : status_of b = Passed → b = true.
Proof. by destruct b. Qed.

Lemma good_apply d g :
  gov_inv g → (∃ r, gv_proposals g !! collate (decision_id d) = Some r ∧
    (decision_status d = Passed → ∀ el, parseSnapshot (pr_snapshot r) = Some el → ratified (collate (decision_id d)) el)) →
  good g (applyDecision collate d g).
Proof.
  intros I H. split; [by apply gov_inv_apply|]. split; [|apply applyDecision_le].
  by destruct (applyDecision_cases d g) as [->|(r & l & _ & _ & -> & _)].
Qed.

Lemma good_requests g m : gov_inv g → good g (with_requests m g).
Proof. intros I. split; [|by split]. by apply (gov_inv_frame g _ []); try apply I. Qed.

Lemma good_tally h now id g : case_insensitive → gov_inv g → good g (tallyProposal hash32 collate h now id g).
Proof.
  intros Hci I. unfold tallyProposal. destruct (gv_proposals g !! collate id) as [r|] eqn:Hr; [|by apply good_refl].
  case_match; [|by apply good_refl]. pose proof (gi_id _ I _ _ Hr) as Hid.
  apply (good_decide _ g r); [done|simpl; by rewrite Hid|].
  simpl. intros Hst el Hel. rewrite Hid. rewrite Hel in Hst. apply status_of_passed in Hst.
  apply (tally_ratified (gv_validators g) id el g); [done|apply I|exact Hst].
Qed.

Lemma good_result h now w g : case_insensitive → gov_inv g → good g (handleResult verify hash32 collate h now w g).
Proof.
  intros Hci I. unfold handleResult. do 3 (on_if; [by apply good_refl|]).
  destruct (gv_proposals g !! collate (wr_id w)) as [r|] eqn:Hr; [|by apply good_refl].
  do 2 (on_if; [by apply good_refl|]).
  destruct (parseSnapshot (pr_snapshot r)) as [el|] eqn:Hel.
  - pose proof (good_ingest (wr_id w) (wr_votes w) el g I) as G1. eapply good_trans; [exact G1|].
    destruct (ingestResultVotes_spec (wr_id w) (wr_votes w) el g (gi_votes _ I)) as (E & _).
    destruct G1 as [I1 _]. apply (good_decide _ _ r); [exact I1| |].
    + simpl. rewrite E. exact Hr.
    + simpl. intros Hst el' Hel'. rewrite Hel in Hel'. injection Hel' as <-. apply status_of_passed in Hst.
      eapply (tally_ratified (gv_validators g)); [done|apply I1|exact Hst].
  - destruct (status_wire (wr_status w)) as [st|]; [|by apply good_refl].
    apply (good_decide _ g r); [done|exact Hr|]. simpl. intros _ el. by rewrite Hel.
Qed.

Lemma good_catchup h now w g : case_insensitive → gov_inv g → good g (handleCatchUpResult verify collate h now w g).
Proof.
  intros Hci I. unfold handleCatchUpResult. do 4 (on_if; [by apply good_refl|]).
  destruct (wr_votes w) as [vs|]; [|by apply good_refl]. on_if; [by apply good_refl|].
  destruct (gv_proposals g !! collate (wr_id w)) as [r|] eqn:Hr; [|by apply good_refl].
  on_if; [by apply good_refl|].
  destruct (parseSnapshot (pr_snapshot r)) as [el|] eqn:Hel; [|by apply good_refl].
  pose proof (good_ingest (wr_id w) (Some vs) el g I) as G1.
  destruct (ingestResultVotes_spec (wr_id w) (Some vs) el g (gi_votes _ I)) as (E & _).
  set (g1 := ingestResultVotes _ _ _ _ _ _) in *. destruct (_ || _); [done|].
  eapply good_trans; [exact G1|]. destruct G1 as [I1 _]. eapply good_trans; [|apply good_requests].
  - apply good_apply; [exact I1|]. exists r. split; [simpl; by rewrite E|].
    simpl. intros Hst el' Hel'. rewrite Hel in Hel'. injection Hel' as <-. apply status_of_passed in Hst.
    eapply (tally_ratified (gv_validators g)); [done|apply I1|exact Hst].
  - apply good_apply; [exact I1|]. exists r. split; [simpl; by rewrite E|].
    simpl. intros Hst el' Hel'. rewrite Hel in Hel'. injection Hel' as <-. apply status_of_passed in Hst.
    eapply (tally_ratified (gv_validators g)); [done|apply I1|exact Hst].
Qed.

Lemma good_handleVote now id v g : gov_inv g → good g (gov_handleVote verify collate now id v g).
Proof.
  intros I. unfold gov_handleVote. do 4 (on_if; [by apply good_refl|]). bools.
  unfold upsertVote. destruct (choice_of (wv_vote v)) as [c|] eqn:Ec; [|by apply good_refl].
  apply good_set; [done|]. unfold voteIsAuthentic in *. bools. by rewrite <-(choice_of_text _ _ Ec).
Qed.

Lemma good_vote h now id c g g' : signs h → gov_inv g → gov_vote collate h now id c g = Ok g' → good g g'.
Proof.
  intros Hs I. unfold gov_vote. destruct (ge_identity h) as [pk|] eqn:Hid; [|done].
  destruct (isActiveValidator g pk); simpl; [|done].
  destruct (gv_proposals g !! collate id) as [r|]; [|done].
  do 3 (case_match; simpl; [|done]). intros [= <-].
  eapply good_trans; [apply good_set; [done|by apply Hs]|].
  apply good_emit; [|done]. apply good_set; [done|by apply Hs].
Qed.

Lemma good_propose h now id p c q a g g' : gov_inv g → gov_propose collate h now id p c q a g = Ok g' → good g g'.
Proof.
  intros I. unfold gov_propose. destruct (assertProposable _ _ _ _ _ _ _) as [pk|]; [|done].
  destruct (if blockAnchored p then _ else _) as [act|]; [|done]. intros [= <-].
  eapply good_trans; [apply good_insert|apply good_emit]; try done. by apply good_insert.
Qed.

Lemma good_request h now sent g : gov_inv g → good g (requestMissingResults h now sent g).
Proof.
  intros I. unfold requestMissingResults. set (g1 := with_requests _ g).
  assert (G1 : good g g1) by (by apply good_requests). eapply good_trans; [exact G1|].
  destruct G1 as [I1 _]. clearbody g1.
  generalize (filter (λ kv : string * proposalrow, pr_status kv.2 = Voting ∧ pr_votingEnd kv.2 ≤ now) (map_to_list (gv_proposals g))).
  intros l. revert g1 I1. induction l as [|kv l IH]; intros g1 I1; simpl; [by apply good_refl|].
  assert (G : good g1 (requestOne h now sent kv.2 g1)).
  { unfold requestOne. do 2 (on_if; [by apply good_refl|]). on_if; [|by apply good_refl].
    eapply good_trans; [by apply good_requests|]. apply good_emit; [by apply good_requests|done]. }
  eapply good_trans; [exact G|]. apply IH, G.
Qed.

Lemma good_handle h e g : case_insensitive → signs h → gov_inv g → good g (gstep h e g).
Proof.
  intros Hci Hs I. destruct e; simpl.
  - split; [|by split]. by apply (gov_inv_frame g _ []); try apply I.
  - destruct (gov_propose _ _ _ _ _ _ _ _ _) eqn:E; [by eapply good_propose|by apply good_refl].
  - unfold gov_handlePropose. do 2 (on_if; [by apply good_refl|]).
    destruct (resolveInboundActivation _ _ _); [|by apply good_refl]. on_if; [by apply good_refl|].
    destruct (inboundProposalSnapshotJson _ _ _); [|by apply good_refl]. on_if; [by apply good_refl|]. by apply good_insert.
  - destruct (gov_vote _ _ _ _ _ _) eqn:E; [by eapply good_vote|by apply good_refl].
  - by apply good_handleVote.
  - by apply good_tally.
  - by apply good_result.
  - unfold runWrite. destruct (gv_writes g !! k) as [d|] eqn:Ed; [|by apply good_refl].
    assert (G : good g (with_writes (delete k (gv_writes g)) g)).
    { split; [|by split]. apply (gov_inv_frame g _ []); try done; [apply I|]. simpl.
      intros x Hx. eapply sublist_subseteq; [|exact Hx]. apply sublist_delete. }
    eapply good_trans; [exact G|]. apply good_apply; [apply G|]. simpl. eapply I, list_elem_of_lookup_2, Ed.
  - by apply good_request.
  - unfold handleResultRequest. do 2 (on_if; [by apply good_refl|]).
    destruct (gv_proposals g !! collate id) as [r|]; [|by apply good_refl].
    destruct (parseSnapshot (pr_snapshot r)); [|by apply good_refl]. do 2 (on_if; [by apply good_refl|]). by apply good_emit.
  - by apply good_catchup.
Qed.

Lemma gov_inv_initial : gov_inv gov_initial.
Proof. split; simpl; try done. intros d. set_solver. Qed.

Lemma gov_run_snoc l h e : gov_run verify hash32 collate (l ++ [(h, e)]) = gstep h e (gov_run verify hash32 collate l).
Proof. unfold gov_run. by rewrite fold_left_app. Qed.

(** Every hub of the run signs with its own key. *)
Definition signing (l : list (genv * gov_event)) : Prop := Forall (λ he : genv * gov_event, signs he.1) l.

Lemma gov_run_inv l : case_insensitive → signing l → gov_inv (gov_run verify hash32 collate l).
Proof.
  intros Hci. unfold signing. induction l as [|[h e] l IH] using rev_ind; intros Hs; [apply gov_inv_initial|].
  apply Forall_app in Hs as [Hs [Hh _]%Forall_cons]. rewrite gov_run_snoc. by apply good_handle; [| |apply IH].
Qed.

End GovInv.

(** ** Parsed snapshots *)

Lemma collectEntries_nodup es seen ms :
  collectEntries es seen = Some ms → NoDup (map m_pubkey ms) ∧ ∀ k, k ∈ map m_pubkey ms → k ∉ seen.
Proof.
  revert seen ms. induction es as [|e es IH]; intros seen ms; simpl; [intros [= <-]; by split; [constructor|set_solver]|].
  destruct (se_pubkey e) as [p|]; [|done]. case_match; [done|]. case_bool_decide as Hin; [done|].
  destruct (collectEntries es _) as [ms'|] eqn:E; simpl; [|done]. intros [= <-]. simpl.
  destruct (IH _ _ E) as [Hnd Hd]. split.
  - constructor; [|done]. intros Hk%Hd. set_solver.
  - intros k [-> |Hk]%elem_of_cons; [done|]. apply Hd in Hk. set_solver.
Qed.

Lemma parseSnapshot_nodup raw ms : parseSnapshot raw = Some ms → NoDup (map m_pubkey ms).
Proof.
  unfold parseSnapshot. destruct (match raw with RNull => _ | _ => _ end) as [es|]; [|done].
  case_match; [done|]. destruct (collectEntries es ∅) as [ms'|] eqn:E; [|done]. intros [= <-].
  apply collectEntries_nodup in E as [E _].
  assert (Hp : map m_pubkey (isort member_le ms') ≡ₚ map m_pubkey ms') by (apply Permutation_map, isort_perm).
  by rewrite Hp.
Qed.

Lemma snapshotMatches_keys vs ms :
  NoDup (map m_pubkey ms) → snapshotMatchesLocalSet vs ms = true → list_to_set (map m_pubkey ms) = localKeys vs.
Proof.
  intros Hnd. unfold snapshotMatchesLocalSet. intros [Hlen Hall]%andb_true_iff. apply Nat.eqb_eq in Hlen.
  apply set_eq. assert (Hsub : (list_to_set (map m_pubkey ms) : gset string) ⊆ localKeys vs).
  { intros k. rewrite elem_of_list_to_set. intros (m & -> & Hm)%list_elem_of_fmap.
    rewrite forallb_forall in Hall. specialize (Hall m (proj1 (list_elem_of_In _ _) Hm)).
    by apply bool_decide_eq_true in Hall. }
  apply set_subseteq_size_equiv; [done|]. rewrite size_list_to_set by done. rewrite length_map. lia.
Qed.

(** ** Theorems *)

Section GovTheorems.
Context (verify : string → string → string → bool) (hash32 : string → Z) (collate : string → string).

Abbreviation grun := (gov_run verify hash32 collate).
Abbreviation ghandle := (gov_handle verify hash32 collate).

(** C14: in every run, a proposal with a locked electorate that passed was
    approved by at least two thirds of that electorate: there are approvals,
    signed for this proposal, of that many distinct members. *)
Theorem locked_proposal_ratified l key r el :
  case_insensitive collate → signing verify l →
  gv_proposals (grun l) !! key = Some r → pr_status r = Passed → parseSnapshot (pr_snapshot r) = Some el →
  ratified verify collate key el.
Proof. intros Hci Hs. by apply gi_ratified, gov_run_inv. Qed.

(** A proposal is announced as final exactly once if it passed and never
    otherwise, however passes of the tally and results overlap; and no event
    takes a decided proposal back, or changes what was proposed. *)
Theorem finalized_exactly_once l h e key :
  case_insensitive collate → signing verify l → signs verify h →
  let g := grun l in
  finals collate key (gv_out g) = match gv_proposals g !! key with
                                  | Some r => if decide (pr_status r = Passed) then 1%nat else 0%nat
                                  | None => 0%nat
                                  end ∧
  ∀ r, gv_proposals g !! key = Some r →
    ∃ r', gv_proposals (ghandle h e g) !! key = Some r' ∧ r' = set_status (pr_status r') r ∧
      (pr_status r ≠ Voting → r' = r).
Proof.
  intros Hci Hs Hh g. assert (I : gov_inv verify collate g) by (by apply gov_run_inv).
  split; [apply I|]. intros r Hr.
  destruct (good_handle verify hash32 collate h e g Hci Hh I) as [_ [_ Hp]].
  destruct (Hp _ _ Hr) as (r' & Hr' & st & -> & Hst). eexists. split_and!; [done|done|].
  intros Hnv. destruct Hst as [->|?]; [apply set_status_same|done].
Qed.

(** Every recorded vote carries a signature of the key it is recorded for,
    over that proposal, choice and sequence; and no message, replayed or new,
    removes a vote or replaces it by one that is not strictly newer. *)
Theorem votes_signed_and_forward l h e :
  case_insensitive collate → signing verify l → signs verify h →
  let g := grun l in
  (∀ key r, gv_votes g !! key = Some r → authentic verify collate key r) ∧
  ∀ key r, gv_votes g !! key = Some r →
    ∃ r', gv_votes (ghandle h e g) !! key = Some r' ∧ (r' = r ∨ vr_seq r < vr_seq r').
Proof.
  intros Hci Hs Hh g. assert (I : gov_inv verify collate g) by (by apply gov_run_inv).
  split; [apply I|]. apply (good_handle verify hash32 collate h e g Hci Hh I).
Qed.

(** On a locked proposal the status a GOV_RESULT claims is ignored: whatever
    it says, a hub decides by its own tally over the locked electorate. *)
Theorem wire_status_ignored h now sender id st st' votes t r el g :
  gv_proposals g !! collate id = Some r → parseSnapshot (pr_snapshot r) = Some el → st ≠ "" → st' ≠ "" →
  handleResult verify hash32 collate h now (WireResult sender id st votes t) g =
  handleResult verify hash32 collate h now (WireResult sender id st' votes t) g.
Proof.
  intros Hr Hel H1%String.eqb_neq H2%String.eqb_neq. unfold handleResult, comesFromTallyLeader. simpl.
  rewrite H1, H2, Hr, Hel. done.
Qed.

(** An inbound proposal is recorded only if its sender is a known validator
    and the declared proposer is the sender's own key, its parameter is not
    pinned, a block-anchored one leaves the voting period and the buffer before
    it activates, its change is within bounds, its parameter is not cooling
    down, and, once the lock is active, its snapshot has exactly this hub's
    validators; its window is this hub's own, not the wire's. *)
Theorem inbound_proposal_gates h now w g r :
  gv_proposals g !! collate (wp_id w) = None →
  gv_proposals (gov_handlePropose collate h now w g) !! collate (wp_id w) = Some r →
  gov_isKnownSender h (wp_sender w) = true ∧
  (∀ reg, ge_registry h = Some reg → reg ≠ ∅ →
     ∃ k, reg !! wp_sender w = Some k ∧ toLowerCase k = toLowerCase (wp_proposer w)) ∧
  parseCapabilityMinStakeParam (wp_parameter w) = None ∧
  (blockAnchored (wp_parameter w) = true → ∃ ab latest, pr_activation r = Some ab ∧ ge_latest h = Some latest ∧
     latest + ceil_div (ge_votingPeriod h) BTC_BLOCK_MS + 50 ≤ ab) ∧
  validateChangeBounds (wp_parameter w) (wp_current w) (wp_proposed w) = Ok tt ∧
  (isSnapshotLockActive (ge_network h) (ge_latest h) = true → ∃ ms, parseSnapshot (wp_snapshot w) = Some ms ∧
     list_to_set (map m_pubkey ms) = localKeys (gv_validators g) ∧ pr_snapshot r = persistSnapshot ms) ∧
  inCooldown collate (wp_parameter w) now g = false ∧
  pr_status r = Voting ∧ pr_votingEnd r = now + ge_votingPeriod h.
Proof.
  intros Hnone. unfold gov_handlePropose.
  on_if; [congruence|]. destruct (inboundProposalSenderAdmits h w) eqn:Hs; simpl; [|congruence].
  destruct (resolveInboundActivation h (wp_parameter w) (wp_activation w)) as [act|] eqn:Ha; [|congruence].
  destruct (inboundProposalBoundsHold _ _ _) eqn:Hbd; simpl; [|congruence].
  destruct (inboundProposalSnapshotJson h g (wp_snapshot w)) as [snap|] eqn:Hsn; [|congruence].
  destruct (inCooldown _ _ _ _) eqn:Hc; [congruence|].
  unfold insertProposal. simpl. rewrite Hnone. simpl. rewrite lookup_insert_eq. intros [= <-]. simpl.
  unfold inboundProposalSenderAdmits in Hs. destruct (gov_isKnownSender h (wp_sender w)); simpl in Hs; [|done].
  split; [done|]. split_and!; try done.
  - intros reg Hreg Hne. rewrite Hreg, bool_decide_false in Hs by done.
    destruct (reg !! wp_sender w) as [k|]; [|done]. simpl in Hs.
    destruct (negb (String.eqb (toLowerCase k) "") && String.eqb (toLowerCase k) (toLowerCase (wp_proposer w))) eqn:E;
      simpl in Hs; [|done]. bools. exists k. split; [done|]. by apply String.eqb_eq.
  - destruct (negb _); [done|]. by destruct (parseCapabilityMinStakeParam (wp_parameter w)).
  - intros Hba. unfold resolveInboundActivation in Ha. rewrite Hba in Ha.
    destruct (wp_activation w) as [ab|], (ge_latest h) as [lt|]; try done.
    destruct (Z.ltb_spec ab (minActivationBlock lt (ge_votingPeriod h))); [done|]. injection Ha as <-.
    exists ab, lt. split_and!; [done..|]. unfold minActivationBlock, ACTIVATION_SAFETY_BUFFER_BLOCKS in *. lia.
  - unfold inboundProposalBoundsHold in Hbd. by destruct (validateChangeBounds _ _ _) as [[]|].
  - intros Hlock. unfold inboundProposalSnapshotJson in Hsn. rewrite Hlock in Hsn.
    destruct (parseSnapshot (wp_snapshot w)) as [ms|] eqn:Hms; simpl in Hsn; [|done].
    destruct (snapshotMatchesLocalSet _ _) eqn:Hmatch; simpl in Hsn; [|done]. injection Hsn as <-.
    exists ms. split_and!; [done| |done]. apply snapshotMatches_keys; [by eapply parseSnapshot_nodup|done].
Qed.

(** An activation height the proposer may choose is one every follower that
    is not ahead of it accepts, and it leaves the voting period and the buffer. *)
Theorem activation_consistent latest period explicit ab h parameter l :
  computeActivationBlock (Some latest) period explicit = Ok ab → ge_votingPeriod h = period →
  ge_latest h = Some l → l ≤ latest →
  resolveInboundActivation h parameter (Some ab) = Some (Some ab) ∧ latest * BTC_BLOCK_MS + period + 50 * BTC_BLOCK_MS ≤ ab * BTC_BLOCK_MS.
Proof.
  intros Hc Hp Hl Hle.
  assert (Hm : minActivationBlock latest period ≤ ab).
  { unfold computeActivationBlock in Hc. destruct explicit as [e|]; [|by simplify_eq].
    destruct (negb (e <? 0)); simpl in Hc; [|done]. destruct (Z.ltb_spec e (minActivationBlock latest period)); simpl in Hc; [done|].
    simplify_eq. lia. }
  unfold minActivationBlock, ACTIVATION_SAFETY_BUFFER_BLOCKS in Hm.
  pose proof (ceil_div_le period BTC_BLOCK_MS _ ltac:(done) (Z.le_refl _)) as Hceil. split.
  - unfold resolveInboundActivation. rewrite Hl, Hp. destruct (blockAnchored parameter); [|done].
    rewrite (proj2 (Z.ltb_ge _ _)); [done|]. unfold minActivationBlock, ACTIVATION_SAFETY_BUFFER_BLOCKS. lia.
  - unfold BTC_BLOCK_MS in *. lia.
Qed.

(** *** Failover *)

Lemma leaderIndex_found el a i j k : leaderIndex el a i (Some j) = Some k → k = j.
Proof.
  revert i. induction el as [|m el IH]; intros i; simpl; [by intros [= <-]|]. case_bool_decide; [done|apply IH].
Qed.

Lemma leaderIndex_spec el a i k :
  leaderIndex el a i None = Some k → (i ≤ k)%nat ∧ ∃ m, el !! (k - i)%nat = Some m ∧ m_addr m = Some a.
Proof.
  revert i. induction el as [|m el IH]; intros i; simpl; [done|]. case_bool_decide as Hm.
  - intros ->%leaderIndex_found. split; [done|]. rewrite Nat.sub_diag. by exists m.
  - intros [Hle (x & Hx & Ha)]%IH. split; [lia|]. exists x. split; [|done].
    by replace (k - i)%nat with (S (k - S i)) by lia.
Qed.

(** A ranking is a rotation of the electorate that starts at the leader; up
    to one step after the end of the vote only the leader may settle it; the right
    to, once open, stays open; and with failover on every member that has an
    address may in the end. *)
Theorem takeover_order el a ranked ve step fo :
  rankedElectorate el (Some a) = Some ranked → 0 < step →
  ranked ≡ₚ el ∧ (∃ m, head ranked = Some m ∧ m_addr m = Some a) ∧
  (∀ s now, now < ve + step → resultSenderEntitled (Some ranked) s ve now step fo = true → s = a) ∧
  (∀ s now now', now ≤ now' → resultSenderEntitled (Some ranked) s ve now step fo = true →
     resultSenderEntitled (Some ranked) s ve now' step fo = true) ∧
  (∀ m s now, fo = true → m ∈ el → m_addr m = Some s → ve + Z.of_nat (length el) * step ≤ now →
     resultSenderEntitled (Some ranked) s ve now step fo = true).
Proof.
  intros Hr Hstep. unfold rankedElectorate in Hr. destruct el as [|m0 el0]; [done|].
  remember (m0 :: el0) as el eqn:Eel. clear Eel m0 el0.
  destruct (leaderIndex el a 0 None) as [k|] eqn:Hk; [|done]. simpl in Hr. injection Hr as Hr.
  apply leaderIndex_spec in Hk as [_ (ml & Hml & Ha)]. rewrite Nat.sub_0_r in Hml.
  assert (Hp : ranked ≡ₚ el) by (rewrite <-Hr, Permutation_app_comm; by rewrite take_drop).
  assert (Hd : ∃ rest, ranked = ml :: rest).
  { rewrite <-Hr, (drop_S _ _ _ Hml). by eexists. }
  destruct Hd as [rest Hrest]. split; [done|]. split; [exists ml; by rewrite Hrest|].
  unfold resultSenderEntitled, takeoverRank, rankOpensAt. split_and!.
  - intros s now Hnow. destruct (list_find _ ranked) as [[[|i] x]|] eqn:Hf; simpl; [|..|done].
    + intros _. apply list_find_Some in Hf as (Hx & Hxa & _). rewrite Hrest in Hx. simpl in Hx. congruence.
    + intros [_ Ho%Z.leb_le]%andb_true_iff. nia.
  - intros s now now' Hle. destruct (list_find _ ranked) as [[[|i] x]|]; simpl; [done| |done].
    intros [-> Ho%Z.leb_le]%andb_true_iff. apply andb_true_iff. split; [done|]. apply Z.leb_le. lia.
  - intros m s now -> Hm Hs Hnow. destruct (list_find (λ m, m_addr m = Some s) ranked) as [[i x]|] eqn:Hf; simpl.
    + destruct i as [|i]; [done|]. simpl. apply Z.leb_le.
      apply list_find_Some in Hf as (Hx & _ & _). apply lookup_lt_Some in Hx.
      assert (length ranked = length el) by (by rewrite Hp). nia.
    + exfalso. apply list_find_None in Hf. rewrite Forall_forall in Hf. apply (Hf m); [by rewrite Hp|done].
Qed.

(** *** What an oversized snapshot does *)

(** The byte bound on a snapshot is enforced when its text is read back but
    not when an array arrives on the wire, and addresses are not compared: a
    snapshot with this hub's own keys and long addresses passes every gate, is
    stored, and reads back as absent, so the proposal is no longer locked and the
    leader's claim is recorded with no votes at all. *)
Theorem oversized_snapshot_unlocks h now w g es ms act :
  wp_snapshot w = RArray es → parseSnapshot (RArray es) = Some ms → snapshotMatchesLocalSet (gv_validators g) ms = true →
  GOV_SNAPSHOT_MAX_BYTES < Z.of_nat (String.length (stringifySnapshot ms)) →
  wp_id w ≠ "" → wp_parameter w ≠ "" → inboundProposalSenderAdmits h w = true →
  resolveInboundActivation h (wp_parameter w) (wp_activation w) = Some act →
  inboundProposalBoundsHold (wp_parameter w) (wp_current w) (wp_proposed w) = true →
  inCooldown collate (wp_parameter w) now g = false → gv_proposals g !! collate (wp_id w) = None →
  let g1 := gov_handlePropose collate h now w g in
  (∃ r, gv_proposals g1 !! collate (wp_id w) = Some r ∧ pr_status r = Voting ∧ parseSnapshot (pr_snapshot r) = None) ∧
  ∀ h2 now2 sender t, gov_isKnownSender h2 sender = true → gov_failover h2 = false →
    comesFromTallyLeader hash32 g1 (WireResult sender (wp_id w) "passed" None t) = true →
    now + ge_votingPeriod h ≤ now2 →
    gv_writes (handleResult verify hash32 collate h2 now2 (WireResult sender (wp_id w) "passed" None t) g1) =
      ResultDecision (wp_id w) Passed :: gv_writes g1.
Proof.
  intros Hw Hms Hm Hbig Hid%String.eqb_neq Hpar%String.eqb_neq Hs Ha Hb Hc Hn g1.
  set (r := ProposalRow (wp_id w) (wp_proposer w) (wp_parameter w) (wp_current w) (wp_proposed w) Voting
              (now + ge_votingPeriod h) act (persistSnapshot ms)).
  assert (Hg1 : g1 = with_proposals (<[collate (wp_id w) := r]> (gv_proposals g)) g).
  { unfold g1, gov_handlePropose. rewrite Hid, Hpar, Hs, Ha, Hb. cbn [orb negb].
    unfold inboundProposalSnapshotJson. rewrite Hw, Hms. cbn [mbind option_bind]. rewrite Hm. cbn. rewrite Hc.
    unfold insertProposal. cbn. by rewrite Hn. }
  assert (Hlk : gv_proposals g1 !! collate (wp_id w) = Some r) by (rewrite Hg1; simpl; by rewrite lookup_insert_eq).
  assert (Hnone : parseSnapshot (pr_snapshot r) = None).
  { unfold r, persistSnapshot. cbn [pr_snapshot]. unfold parseSnapshot.
    by rewrite (proj2 (Z.ltb_lt _ _) Hbig). }
  split; [by exists r|]. intros h2 now2 sender t Hk Hf Hl Ht. unfold handleResult. rewrite Hl.
  cbn [wr_id wr_status wr_sender wr_votes]. rewrite Hid, Hk, Hf, Hlk. cbn [orb negb andb]. cbn [String.eqb Ascii.eqb Bool.eqb].
  rewrite Hnone. rewrite (proj2 (Z.ltb_ge _ _)) by exact Ht. done.
Qed.

End GovTheorems.

(** ** A sample federation, for the witnesses *)

Definition toy_verify (payload sig key : string) : bool := String.eqb sig (toLowerCase key +:+ ":" +:+ payload).
Definition toy_sign (key payload : string) : string := toLowerCase key +:+ ":" +:+ payload.
Definition toy_hash (x : string) : Z := Z.of_nat (String.length x).

Definition gov_hub (addr key : string) : genv :=
  GEnv addr (Some key) (toy_sign key) "regtest" (Some 800) 604800000 60000
    (Some (list_to_map [("n1", "aa"); ("n2", "bb"); ("n3", "cc")])) None.

Definition gov_validators_sample : list validator :=
  [Validator (Some "n1") (Some "aa"); Validator (Some "n2") (Some "bb"); Validator (Some "n3") (Some "cc")].

Definition wire_vote (key vote : string) (sq : Z) : wirevote :=
  WireVote key vote (toy_sign key (voteSigningPayload "gov:FEE:0" vote key sq)) (Some sq).

(** [n1] proposes and votes, [n2] and [n3] vote, [n1] tallies when it may. *)
Definition gov_sample : list (genv * gov_event) :=
  map (pair (gov_hub "n1" "aa"))
    [GEvSetValidators gov_validators_sample; GEvPropose 0 "gov:FEE:0" "FEE" "10" "12" None;
     GEvVote 5 "gov:FEE:0" Approve; GEvWireVote 6 "gov:FEE:0" (wire_vote "bb" "approve" 6);
     GEvWireVote 7 "gov:FEE:0" (wire_vote "CC" "approve" 7);
     GEvTally (604800000 + 2 * 3600000) "gov:FEE:0"; GEvWrite 0].

Abbreviation gov_final := (gov_run toy_verify toy_hash toLowerCase gov_sample).

Lemma toy_ci : case_insensitive toLowerCase.
Proof. intros a b H. exact H. Qed.

Lemma toy_signs addr key : signs toy_verify (gov_hub addr key).
Proof. intros pk p [= <-]. apply String.eqb_refl. Qed.

Lemma gov_sample_signing : signing toy_verify gov_sample.
Proof. unfold signing, gov_sample. repeat (constructor; [apply toy_signs|]). constructor. Qed.

Lemma locked_proposal_ratified_witness :
  ∃ el, length el = 3%nat ∧ ratified toy_verify toLowerCase "gov:fee:0" el.
Proof.
  destruct (gv_proposals gov_final !! "gov:fee:0") as [r|] eqn:Hr; [|vm_compute in Hr; discriminate].
  destruct (parseSnapshot (pr_snapshot r)) as [el|] eqn:Hel.
  - exists el. split.
    + vm_compute in Hr. injection Hr as <-. vm_compute in Hel. injection Hel as <-. reflexivity.
    + refine (locked_proposal_ratified toy_verify toy_hash toLowerCase gov_sample "gov:fee:0" r el toy_ci
                gov_sample_signing Hr _ Hel).
      vm_compute in Hr. injection Hr as <-. reflexivity.
  - vm_compute in Hr. injection Hr as <-. vm_compute in Hel. discriminate.
Defined.

Lemma finalized_exactly_once_witness : finals toLowerCase "gov:fee:0" (gv_out gov_final) = 1%nat.
Proof.
  pose proof (proj1 (finalized_exactly_once toy_verify toy_hash toLowerCase gov_sample (gov_hub "n1" "aa")
    (GEvWrite 0) "gov:fee:0" toy_ci gov_sample_signing (toy_signs "n1" "aa"))) as H.
  cbv zeta in H. rewrite H. vm_compute. reflexivity.
Defined.

Lemma votes_signed_and_forward_witness :
  ∃ r, gv_votes gov_final !! ("gov:fee:0", "cc") = Some r ∧
    authentic toy_verify toLowerCase ("gov:fee:0", "cc") r.
Proof.
  destruct (gv_votes gov_final !! ("gov:fee:0", "cc")) as [r|] eqn:Hr; [|vm_compute in Hr; discriminate].
  exists r. split; [reflexivity|].
  exact (proj1 (votes_signed_and_forward toy_verify toy_hash toLowerCase gov_sample (gov_hub "n1" "aa") (GEvWrite 0)
    toy_ci gov_sample_signing (toy_signs "n1" "aa")) _ _ Hr).
Defined.

(** The sample before its tally. *)
Definition gov_open : gov := gov_run toy_verify toy_hash toLowerCase (take 5 gov_sample).

Lemma wire_status_ignored_witness :
  handleResult toy_verify toy_hash toLowerCase (gov_hub "n2" "bb") 900000000 (WireResult "n1" "gov:FEE:0" "passed" None None) gov_open =
  handleResult toy_verify toy_hash toLowerCase (gov_hub "n2" "bb") 900000000 (WireResult "n1" "gov:FEE:0" "failed" None None) gov_open.
Proof.
  destruct (gv_proposals gov_open !! "gov:fee:0") as [r|] eqn:Hr; [|vm_compute in Hr; discriminate].
  destruct (parseSnapshot (pr_snapshot r)) as [el|] eqn:Hel.
  - exact (wire_status_ignored toy_verify toy_hash toLowerCase (gov_hub "n2" "bb") 900000000 "n1" "gov:FEE:0" "passed" "failed"
             None None r el gov_open Hr Hel ltac:(discriminate) ltac:(discriminate)).
  - vm_compute in Hr. injection Hr as <-. vm_compute in Hel. discriminate.
Defined.

Definition wire_proposal (snap : rawsnap) : wireproposal :=
  WireProposal "n2" "gov:FEE:9" "FEE" "10" "12" "bb" None snap.

Definition plain_entries : list sentry :=
  [SEntry (Some "aa") (Some "n1"); SEntry (Some "bb") (Some "n2"); SEntry (Some "cc") (Some "n3")].

Definition gov_start : gov := gov_run toy_verify toy_hash toLowerCase (take 1 gov_sample).

Lemma inbound_proposal_gates_witness :
  validateChangeBounds "FEE" "10" "12" = Ok tt ∧
  ∃ r, gv_proposals (gov_handlePropose toLowerCase (gov_hub "n1" "aa") 50 (wire_proposal (RArray plain_entries)) gov_start)
         !! "gov:fee:9" = Some r ∧ pr_votingEnd r = 50 + 604800000.
Proof.
  destruct (gv_proposals (gov_handlePropose toLowerCase (gov_hub "n1" "aa") 50 (wire_proposal (RArray plain_entries)) gov_start)
         !! "gov:fee:9") as [r|] eqn:Hr; [|vm_compute in Hr; discriminate].
  destruct (inbound_proposal_gates toLowerCase (gov_hub "n1" "aa") 50 (wire_proposal (RArray plain_entries)) gov_start r
    ltac:(vm_compute; reflexivity) Hr) as (_ & _ & _ & _ & Hb & _ & _ & _ & He).
  split; [exact Hb|]. exists r. split; [reflexivity|exact He].
Defined.

Lemma activation_consistent_witness :
  resolveInboundActivation (gov_hub "n1" "aa") "ATTESTATION_PROVIDER:x" (Some 1858) = Some (Some 1858).
Proof.
  apply (activation_consistent 800 604800000 None 1858 (gov_hub "n1" "aa") "ATTESTATION_PROVIDER:x" 800);
    [vm_compute; reflexivity..|lia].
Defined.

Lemma takeover_order_witness :
  resultSenderEntitled (rankedElectorate [Member "aa" (Some "n1"); Member "bb" (Some "n2")] (Some "n2")) "n1" 0 200 100 true = true.
Proof.
  destruct (takeover_order [Member "aa" (Some "n1"); Member "bb" (Some "n2")] "n2"
    [Member "bb" (Some "n2"); Member "aa" (Some "n1")] 0 100 true ltac:(reflexivity) ltac:(lia)) as (_ & _ & _ & _ & H).
  apply (H (Member "aa" (Some "n1")) "n1" 200); [reflexivity|by left|reflexivity|vm_compute; discriminate].
Defined.

(** An address of 300000 characters. *)
Definition long_addr : string := zeros (Z.to_nat 300000).

Lemma length_zeros n : String.length (zeros n) = n.
Proof. induction n as [|n IH]; [done|]. exact (f_equal S IH). Qed.

Lemma length_esc s : (String.length s ≤ String.length (esc s))%nat.
Proof.
  induction s as [|c s IH]; [done|]. change (esc (String c s)) with (esc_char c +:+ esc s).
  rewrite app_str_length. assert (1 ≤ String.length (esc_char c))%nat by (destruct c as [[] [] [] [] [] [] [] []]; vm_compute; lia).
  simpl. lia.
Qed.

(** The text of a snapshot is longer than an address in it. *)
Lemma length_snapshot_addr k a : (String.length a ≤ String.length (stringifySnapshot [Member k (Some a)]))%nat.
Proof.
  assert (E : stringifySnapshot [Member k (Some a)] = "[" +:+ stringifyMember (Member k (Some a)) +:+ "]") by done.
  rewrite E. unfold stringifyMember, json_string. cbn [m_addr m_pubkey].
  rewrite !app_str_length. pose proof (length_esc a). lia.
Qed.

Lemma long_snapshot : GOV_SNAPSHOT_MAX_BYTES < Z.of_nat (String.length (stringifySnapshot [Member "aa" (Some long_addr)])).
Proof.
  pose proof (length_snapshot_addr "aa" long_addr) as Hl. unfold long_addr in Hl at 1. rewrite length_zeros in Hl.
  unfold GOV_SNAPSHOT_MAX_BYTES. lia.
Qed.

Definition long_entries : list sentry := [SEntry (Some "aa") (Some long_addr)].

Definition gov_solo : gov := with_validators [Validator (Some "n1") (Some "aa")] gov_initial.

Definition solo_hub : genv :=
  GEnv "n1" (Some "aa") (toy_sign "aa") "mainnet" (Some 963000) 604800000 60000 (Some (list_to_map [("n1", "aa")])) None.

Definition solo_proposal : wireproposal := WireProposal "n1" "gov:FEE:9" "FEE" "10" "12" "aa" None (RArray long_entries).

Lemma oversized_snapshot_unlocks_witness :
  isSnapshotLockActive "mainnet" (Some 963000) = true ∧
  ∃ r, gv_proposals (gov_handlePropose toLowerCase solo_hub 0 solo_proposal gov_solo) !! "gov:fee:9" = Some r ∧
    pr_status r = Voting ∧ parseSnapshot (pr_snapshot r) = None.
Proof.
  split; [reflexivity|].
  refine (proj1 (oversized_snapshot_unlocks toy_verify toy_hash toLowerCase solo_hub 0 solo_proposal gov_solo long_entries
    [Member "aa" (Some long_addr)] None _ _ _ long_snapshot _ _ _ _ _ _ _));
    [reflexivity|reflexivity|reflexivity|discriminate|discriminate|reflexivity..].
Defined.
