(* ===== verification/SpendGuard.v ===== *)
(** * The effector spend guard

    [src/lib/spend_guard.js] with its parts
    [src/providers/effector_spend/{spend_ceiling,reservation,persistence}.js]:
    the balance floor, the per-window count and cost ceilings, the runtime
    pause, reservations, and the state file that carries the window over a
    restart. Costs are US cents, times are milliseconds; every operation takes
    the [io] it runs under (the clock and what the file system answers) and the
    disk, and returns both changed. [None] stands for a number that is not
    finite. *)

From Stdlib Require Import QArith_base.
From S2P Require Import Prelude BigNum.
Open Scope Z_scope.

(** ** Configuration *)

Abbreviation config := (gmap string string) (only parsing).

Definition HARD_CAP_USD_CENTS : Z := 200000.
Definition DEFAULT_EST_SPEND_USD_CENTS : Z := 100.
Definition DEFAULT_WINDOW_MS : Z := 3600000.

(** [env\[key\] != null ? env\[key\] : cfg\[key\]]. *)
Definition env_or_cfg (env cfg : config) (key : string) : option string :=
  match env !! key with Some v => Some v | None => cfg !! key end.

Definition readInt (env cfg : config) (key : string) (dflt : Z) : Z :=
  match env_or_cfg env cfg key with
  | Some v => default dflt (parseInt v)
  | None => dflt
  end.

(** [a || b] on strings that may be missing. *)
Definition truthy_or (a b : option string) : option string :=
  match a with Some EmptyString | None => b | _ => a end.

(** [now || Date.now()]. *)
Definition now_or (now : option Z) (clock : Z) : Z :=
  match now with Some 0 | None => clock | Some n => n end.

(** ** The broadcast-count ceiling *)

Record ceiling := Ceiling {
  maxPerWindow : Z; c_windowMs : Z; c_label : string;
  c_spends : list Z;          (** broadcast times in the window *)
  blockedCount : Z }.

Definition with_c_spends v (r : ceiling) : ceiling := Ceiling (maxPerWindow r) (c_windowMs r) (c_label r) v (blockedCount r).
Definition with_blockedCount v (r : ceiling) : ceiling := Ceiling (maxPerWindow r) (c_windowMs r) (c_label r) (c_spends r) v.

Definition new_ceiling (prefix : string) (env cfg : config) (label : string) : ceiling :=
  let maxKey := prefix +:+ "_MAX_PUBLISHES_PER_WINDOW" in
  let windowKey := prefix +:+ "_SPEND_WINDOW_MS" in
  let m := default 0 (parseInt (default "0"%string (truthy_or (env !! maxKey) (truthy_or (cfg !! maxKey) None)))) in
  let w := default DEFAULT_WINDOW_MS
             (parseInt (default "3600000"%string (truthy_or (env !! windowKey) (truthy_or (cfg !! windowKey) None)))) in
  Ceiling (if m <? 0 then 0 else m) (if w <=? 0 then DEFAULT_WINDOW_MS else w) label [] 0.

Definition disabled (c : ceiling) : bool := maxPerWindow c <=? 0.

(** [while (s.length && s\[0\] <= cutoff) s.shift()]. *)
Fixpoint drop_old {A} (time : A → Z) (cutoff : Z) (l : list A) : list A :=
  match l with
  | [] => []
  | x :: r => if time x <=? cutoff then drop_old time cutoff r else l
  end.

Definition c_prune (now : Z) (c : ceiling) : ceiling :=
  with_c_spends (drop_old id (now - c_windowMs c) (c_spends c)) c.

Definition countInWindow (now : option Z) (clock : Z) (c : ceiling) : ceiling * Z :=
  let c := c_prune (now_or now clock) c in (c, Z.of_nat (length (c_spends c))).

Definition c_allow (now : option Z) (clock : Z) (c : ceiling) : ceiling * bool :=
  if disabled c then (c, true)
  else let c := c_prune (now_or now clock) c in
       (c, Z.of_nat (length (c_spends c)) <? maxPerWindow c).

Definition c_record (now : option Z) (clock : Z) (c : ceiling) : ceiling :=
  if disabled c then c
  else let n := now_or now clock in
       let c := c_prune n c in with_c_spends (c_spends c ++ [n]) c.

(** The handle of the slot is its time; [None] is [null]. *)
Definition c_reserve (now : option Z) (clock : Z) (c : ceiling) : ceiling * option Z :=
  if disabled c then (c, None)
  else (c_record now clock c, Some (now_or now clock)).

(** [indexOf] and [splice]: the first occurrence goes. *)
Fixpoint remove_first {A} (p : A → bool) (l : list A) : list A :=
  match l with
  | [] => []
  | x :: r => if p x then r else x :: remove_first p r
  end.

Definition c_release (handle : option Z) (c : ceiling) : ceiling :=
  match handle with
  | None => c
  | Some t => if disabled c then c else with_c_spends (remove_first (Z.eqb t) (c_spends c)) c
  end.

Definition c_seedConsumed (now : option Z) (clock : Z) (c : ceiling) : ceiling :=
  if disabled c then c
  else let n := now_or now clock in
       let c := c_prune n c in
       with_c_spends (c_spends c ++ replicate (Z.to_nat (maxPerWindow c) - length (c_spends c)) n) c.

(** Why a spend is refused, with the numbers its message shows. *)
Inductive reason :=
| Paused (why : string)
| PersistBlocked (error : string)
| BalanceUnreadable
| BalanceBelowFloor (balance : option Q)
| CountCeiling (maxPublishes windowMs resetInSeconds : Z)
| SpendCeiling (maxCents : Z).

Definition c_noteBlocked (now : option Z) (clock : Z) (c : ceiling) : ceiling * reason :=
  let n := now_or now clock in
  let first := now_or (head (c_spends c)) n in
  let resetIn := Z.max 0 (c_windowMs c - (n - first)) in
  (with_blockedCount (blockedCount c + 1) c,
   CountCeiling (maxPerWindow c) (c_windowMs c) ((resetIn + 999) / 1000)).

(** ** The guard *)

(** What the constructor reads from the configuration. *)
Record settings := Settings {
  g_prefix : string; label : string; windowMs : Z;
  maxSpendUsdCents : Z; estSpendUsdCents : Z; minBalance : Q; statePath : string }.

(** An entry of the cost window; [reservation] links it to the token that may
    still give it back. *)
Record spend := Spend { s_t : Z; s_cost : Z; s_reservation : option Z }.

#[export] Instance spend_eq_dec : EqDecision spend.
Proof. solve_decision. Defined.

Record blocks := Blocks { b_pause : Z; b_spend : Z; b_balance : Z; b_persist : Z }.

(** [_statePath], [_persistBroken], [_lastPersistError] and [_warnedWrite]. *)
Record store := Store {
  armedPath : option string; persistBroken : bool; lastPersistError : option string; warnedWrite : bool }.

Record guard := Guard {
  g_set : settings; g_ceiling : ceiling; g_spends : list spend;
  g_paused : bool; pauseReason : option string; blocked : blocks;
  g_store : store; warnedFloorInert : bool; reserveSeq : Z }.

Definition with_ceiling v (g : guard) : guard :=
  Guard (g_set g) v (g_spends g) (g_paused g) (pauseReason g) (blocked g) (g_store g) (warnedFloorInert g) (reserveSeq g).
Definition with_spends v (g : guard) : guard :=
  Guard (g_set g) (g_ceiling g) v (g_paused g) (pauseReason g) (blocked g) (g_store g) (warnedFloorInert g) (reserveSeq g).
Definition with_pause b why (g : guard) : guard :=
  Guard (g_set g) (g_ceiling g) (g_spends g) b why (blocked g) (g_store g) (warnedFloorInert g) (reserveSeq g).
Definition with_blocked v (g : guard) : guard :=
  Guard (g_set g) (g_ceiling g) (g_spends g) (g_paused g) (pauseReason g) v (g_store g) (warnedFloorInert g) (reserveSeq g).
Definition with_store v (g : guard) : guard :=
  Guard (g_set g) (g_ceiling g) (g_spends g) (g_paused g) (pauseReason g) (blocked g) v (warnedFloorInert g) (reserveSeq g).
Definition with_warnedFloorInert v (g : guard) : guard :=
  Guard (g_set g) (g_ceiling g) (g_spends g) (g_paused g) (pauseReason g) (blocked g) (g_store g) v (reserveSeq g).
Definition with_reserveSeq v (g : guard) : guard :=
  Guard (g_set g) (g_ceiling g) (g_spends g) (g_paused g) (pauseReason g) (blocked g) (g_store g) (warnedFloorInert g) v.

Definition note_pause (g : guard) : guard :=
  let b := blocked g in with_blocked (Blocks (b_pause b + 1) (b_spend b) (b_balance b) (b_persist b)) g.
Definition note_spend (g : guard) : guard :=
  let b := blocked g in with_blocked (Blocks (b_pause b) (b_spend b + 1) (b_balance b) (b_persist b)) g.
Definition note_balance (g : guard) : guard :=
  let b := blocked g in with_blocked (Blocks (b_pause b) (b_spend b) (b_balance b + 1) (b_persist b)) g.
Definition note_persist (g : guard) : guard :=
  let b := blocked g in with_blocked (Blocks (b_pause b) (b_spend b) (b_balance b) (b_persist b + 1)) g.

(** [/\[^A-Za-z0-9_.-\]/g] replaced by an underscore. *)
Definition path_char (c : ascii) : bool :=
  let n := Ascii.N_of_ascii c in
  is_digit c || is_upper c || ((97 <=? n)%N && (n <=? 122)%N) || (n =? 95)%N || (n =? 46)%N || (n =? 45)%N.

Fixpoint path_safe (s : string) : string :=
  match s with
  | String c r => String (if path_char c then c else "_"%char) (path_safe r)
  | EmptyString => EmptyString
  end.

Definition new_guard (prefix : string) (env cfg : config) (label : option string) : guard :=
  let lbl := default prefix (truthy_or label None) in
  let c := new_ceiling prefix env cfg lbl in
  let cap := readInt env cfg (prefix +:+ "_MAX_SPEND_USD_CENTS_PER_WINDOW") HARD_CAP_USD_CENTS in
  let est := readInt env cfg (prefix +:+ "_EST_SPEND_USD_CENTS") DEFAULT_EST_SPEND_USD_CENTS in
  let floor := default 0%Q (parseFloat (default "0"%string (env_or_cfg env cfg (prefix +:+ "_MIN_BALANCE")))) in
  let pathKey := prefix +:+ "_SPEND_STATE_PATH" in
  Guard
    (Settings prefix lbl (c_windowMs c)
       (Z.min (if cap <=? 0 then HARD_CAP_USD_CENTS else cap) HARD_CAP_USD_CENTS)
       (if est <=? 0 then DEFAULT_EST_SPEND_USD_CENTS else est)
       (if Qle_bool 0 floor then floor else 0%Q)
       (default ("data/spend-state/" +:+ path_safe lbl +:+ ".json")
          (truthy_or (env !! pathKey) (truthy_or (cfg !! pathKey) None))))
    c [] false None (Blocks 0 0 0 0) (Store None false None false) false 0.

(** ** The state file *)

(** An entry as read back: [Number(e.t)] and [Number(e.cost)]. *)
Record rawspend := RawSpend { r_t : option Z; r_cost : option Z }.

(** A file as [JSON.parse] sees it: no JSON, JSON without a [spends] array, or
    a saved window. The label, the window length, the save time and the
    reservation ids are written too; nothing reads them. *)
Inductive content :=
| Garbage
| OddShape
| Saved (entries : list rawspend) (paused : bool) (why : option string).

(** What [fs.accessSync(dir, W_OK)] answers, and how a write ends: it lands, or
    it throws and leaves the file as it was or torn. *)
Inductive access := Writable | NoEntry | Refused.
Inductive written := Lands | Throws (error : string) (torn : bool).

Record io := Io {
  clock : Z; cwd : string;
  readFault : option string;       (** an error code other than ENOENT *)
  accessOf : string → access; writing : written }.

Record world := World { the : guard; disk : gmap string content }.

Definition on_guard (f : guard → guard) (w : world) : world := World (f (the w)) (disk w).

(** [path.resolve], of a path without dot segments. *)
Definition resolve (cwd p : string) : string :=
  match p with
  | String "/"%char _ => p
  | _ => cwd +:+ "/" +:+ p
  end.

(** [path.dirname]: everything before the last slash. *)
Fixpoint before_last_slash (s : string) : option string :=
  match s with
  | EmptyString => None
  | String c r =>
      match before_last_slash r with
      | Some d => Some (String c d)
      | None => if Ascii.eqb c "/"%char then Some EmptyString else None
      end
  end.

Definition dirname (p : string) : string :=
  match before_last_slash p with
  | None => "."%string
  | Some EmptyString => "/"%string
  | Some d => d
  end.

(** At most 64 hops to the nearest ancestor that exists. *)
Fixpoint walk_writable (fuel : nat) (e : io) (dir : string) : bool :=
  match fuel with
  | O => false
  | S k =>
      match accessOf e dir with
      | Writable => true
      | Refused => false
      | NoEntry => let parent := dirname dir in
                   if String.eqb parent dir then false else walk_writable k e parent
      end
  end.

Definition storeIsWritable (e : io) (path : string) : bool := walk_writable 64 e (dirname path).

Definition save (s : spend) : rawspend := RawSpend (Some (s_t s)) (Some (s_cost s)).

(** What [persist] writes. *)
Definition saved_window (g : guard) : content := Saved (map save (g_spends g)) (g_paused g) (pauseReason g).

Definition persist (e : io) (w : world) : world * bool :=
  let g := the w in
  let s := g_store g in
  match armedPath s with
  | None => (w, true)
  | Some p =>
      match writing e with
      | Lands =>
          let s := if persistBroken s then Store (Some p) false None false else s in
          (World (with_store s g) (<[p := saved_window g]> (disk w)), true)
      | Throws err torn =>
          (World (with_store (Store (Some p) true (Some err) true) g)
                 (if torn then <[p := Garbage]> (disk w) else disk w), false)
      end
  end.

Definition storeUsable (e : io) (w : world) : world * bool :=
  let s := g_store (the w) in
  match armedPath s with
  | None => (w, true)
  | Some _ => if persistBroken s then persist e w else (w, true)
  end.

Definition persistBlockedReason (g : guard) : reason :=
  PersistBlocked (default "write failed"%string (truthy_or (lastPersistError (g_store g)) None)).

Definition restorePause (paused : bool) (why : option string) (g : guard) : guard :=
  if negb paused || g_paused g then g
  else with_pause true (Some (default "operator pause"%string (truthy_or why None))) g.

(** Assume the window is spent. *)
Definition seedConsumed (e : io) (g : guard) : guard :=
  let now := clock e in
  with_ceiling (c_seedConsumed (Some now) now (g_ceiling g))
    (with_spends (g_spends g ++ [Spend now (maxSpendUsdCents (g_set g)) None]) g).

(** One saved entry: [None] outside the live window. *)
Definition restore_entry (now : Z) (set : settings) (r : rawspend) : option spend :=
  match r_t r with
  | None => None
  | Some t =>
      if t <=? now - windowMs set then None
      else Some (Spend (Z.min t now)
                   (match r_cost r with
                    | Some c => if 0 <? c then c else estSpendUsdCents set
                    | None => estSpendUsdCents set
                    end) None)
  end.

Definition restore_one (now : Z) (g : guard) (r : rawspend) : guard :=
  match restore_entry now (g_set g) r with
  | None => g
  | Some s => with_ceiling (c_record (Some (s_t s)) now (g_ceiling g)) (with_spends (g_spends g ++ [s]) g)
  end.

Definition earlier (a b : spend) : bool := s_t a <=? s_t b.

Definition loadState (e : io) (path : string) (d : gmap string content) (g : guard) : guard :=
  match readFault e with
  | Some _ => seedConsumed e g
  | None =>
      match d !! path with
      | None => if storeIsWritable e path then g else seedConsumed e g
      | Some Garbage => seedConsumed e g
      | Some OddShape => seedConsumed e g
      | Some (Saved entries paused why) =>
          let g := foldl (restore_one (clock e)) (restorePause paused why g) entries in
          with_spends (isort earlier (g_spends g)) g
      end
  end.

Definition persistTo (e : io) (path : option string) (w : world) : world :=
  let g := the w in
  let p := resolve (cwd e) (default (statePath (g_set g)) (truthy_or path None)) in
  let s := g_store g in
  let g := with_store (Store (Some p) (persistBroken s) (lastPersistError s) (warnedWrite s)) g in
  let w := World (loadState e p (disk w) g) (disk w) in
  if g_paused (the w) then (persist e w).1 else w.

(** ** Gates *)

Definition prune (now : Z) (g : guard) : guard :=
  with_spends (drop_old s_t (now - windowMs (g_set g)) (g_spends g)) g.

Definition spentInWindow (now : option Z) (clock : Z) (g : guard) : guard * Z :=
  let g := prune (now_or now clock) g in (g, sumZ s_cost (g_spends g)).

Definition computeCost (g : guard) (cost : option Z) : Z :=
  match cost with
  | Some c => if c <=? 0 then estSpendUsdCents (g_set g) else c
  | None => estSpendUsdCents (g_set g)
  end.

Definition pause (e : io) (why : option string) (w : world) : world * bool :=
  persist e (on_guard (with_pause true (Some (default "operator pause"%string (truthy_or why None)))) w).

Definition resume (e : io) (w : world) : world * bool := persist e (on_guard (with_pause false None) w).

(** [opts.balance]: absent, [null], or a number ([None] for NaN). *)
Inductive balance := NoBalance | NullBalance | Balance (b : option Q).

Definition below (b : option Q) (floor : Q) : bool :=
  match b with Some q => negb (Qle_bool floor q) | None => false end.

(** The count ceiling on the guard. *)
Definition ceiling_allow (e : io) (g : guard) : guard * bool :=
  let '(c, ok) := c_allow (Some (clock e)) (clock e) (g_ceiling g) in (with_ceiling c g, ok).

Definition ceiling_noteBlocked (e : io) (g : guard) : guard * reason :=
  let '(c, r) := c_noteBlocked (Some (clock e)) (clock e) (g_ceiling g) in (with_ceiling c g, r).

(** Whether the cost budget has room: the guard pruned, and the answer. *)
Definition budget_allows (e : io) (cost : option Z) (g : guard) : guard * bool :=
  let '(g, spent) := spentInWindow (Some (clock e)) (clock e) g in
  (g, spent + computeCost g cost <=? maxSpendUsdCents (g_set g)).

(** The method [check]: [None] when the spend may go out, the reason otherwise. *)
Definition check_spend (e : io) (b : balance) (cost : option Z) (w : world) : world * option reason :=
  let g := the w in
  if g_paused g then (on_guard note_pause w, Some (Paused (default ""%string (pauseReason g))))
  else
    let '(w, usable) := storeUsable e w in
    if negb usable then (on_guard note_persist w, Some (persistBlockedReason (the w)))
    else
      let inert := match b with NoBalance => negb (Qle_bool (minBalance (g_set g)) 0) | _ => false end in
      let w := if inert then on_guard (with_warnedFloorInert true) w else w in
      match b with
      | NullBalance => (on_guard note_balance w, Some BalanceUnreadable)
      | _ =>
          if (match b with Balance q => below q (minBalance (g_set g)) | _ => false end)
          then (on_guard note_balance w, Some (BalanceBelowFloor (match b with Balance q => q | _ => None end)))
          else
            let '(g1, ok) := ceiling_allow e (the w) in
            if negb ok
            then let '(g2, r) := ceiling_noteBlocked e (note_spend g1) in (World g2 (disk w), Some r)
            else
              let '(g2, room) := budget_allows e cost g1 in
              if room then (World g2 (disk w), None)
              else (World (note_spend g2) (disk w), Some (SpendCeiling (maxSpendUsdCents (g_set g2))))
      end.

Definition record (e : io) (cost : option Z) (w : world) : world :=
  let g := the w in
  let g := with_ceiling (c_record (Some (clock e)) (clock e) (g_ceiling g)) g in
  let g := prune (clock e) g in
  let g := with_spends (g_spends g ++ [Spend (clock e) (computeCost g cost) None]) g in
  (persist e (World g (disk w))).1.

Definition allow (e : io) (cost : option Z) (w : world) : world * bool :=
  if g_paused (the w) then (w, false)
  else
    let '(w, usable) := storeUsable e w in
    if negb usable then (w, false)
    else
      let '(g1, ok) := ceiling_allow e (the w) in
      if negb ok then (World g1 (disk w), false)
      else let '(g2, room) := budget_allows e cost g1 in (World g2 (disk w), room).

Definition noteBlocked (e : io) (w : world) : world * reason :=
  let g := the w in
  if g_paused g then (w, Paused (default ""%string (pauseReason g)))
  else if persistBroken (g_store g) then (w, persistBlockedReason g)
  else
    let '(g1, ok) := ceiling_allow e g in
    if negb ok then let '(g2, r) := ceiling_noteBlocked e g1 in (World g2 (disk w), r)
    else (World g1 (disk w), SpendCeiling (maxSpendUsdCents (g_set g))).

(** ** Reservations *)

(** The token is an object the caller keeps; the operations return it
    changed. *)
Record token := Token { t_id : Z; ceilingHandle : option Z; settled : bool }.

Definition settle (t : token) : token := Token (t_id t) (ceilingHandle t) true.

Definition has_reservation (i : Z) (s : spend) : bool := bool_decide (s_reservation s = Some i).

Definition reserve (e : io) (cost : option Z) (w : world) : world * option token :=
  if g_paused (the w) then (on_guard note_pause w, None)
  else
    let '(g, ok) := ceiling_allow e (the w) in
    if negb ok then (World (note_spend g) (disk w), None)
    else
      let c := computeCost g cost in
      let '(g, room) := budget_allows e cost g in
      if negb room then (World (note_spend g) (disk w), None)
      else
        let n := reserveSeq g + 1 in
        let '(cl, handle) := c_reserve (Some (clock e)) (clock e) (g_ceiling g) in
        let g := with_reserveSeq n (with_ceiling cl g) in
        let g := with_spends (g_spends g ++ [Spend (clock e) c (Some n)]) g in
        let '(w, ok) := persist e (World g (disk w)) in
        if ok then (w, Some (Token n handle false))
        else
          let g := the w in
          let g := with_spends (remove_first (has_reservation n) (g_spends g)) g in
          let g := with_ceiling (c_release handle (g_ceiling g)) g in
          (World (note_persist g) (disk w), None).

Fixpoint set_cost (i c : Z) (l : list spend) : list spend :=
  match l with
  | [] => []
  | s :: r => if has_reservation i s then Spend (s_t s) c (s_reservation s) :: r else s :: set_cost i c r
  end.

Definition commit (e : io) (t : token) (actualCost : option Z) (w : world) : world * token :=
  let t := settle t in
  match actualCost with
  | Some c =>
      if c <=? 0 then (w, t)
      else if existsb (has_reservation (t_id t)) (g_spends (the w))
      then ((persist e (on_guard (λ g, with_spends (set_cost (t_id t) c (g_spends g)) g) w)).1, t)
      else (w, t)
  | None => (w, t)
  end.

Definition release (e : io) (t : token) (w : world) : world * token :=
  if settled t then (w, t)
  else
    let w := on_guard (λ g, with_spends (remove_first (has_reservation (t_id t)) (g_spends g)) g) w in
    let w := on_guard (λ g, with_ceiling (c_release (ceilingHandle t) (g_ceiling g)) g) w in
    ((persist e w).1, settle t).

(** ** The registry

    [SpendGuard.registry]: the guard objects by capability label, each the index
    of one guard; a new guard takes its label over. *)

Record guards := Guards { objects : list guard; registry : gmap string nat; files : gmap string content }.

Definition construct (prefix : string) (env cfg : config) (lbl : option string) (h : guards) : guards :=
  let g := new_guard prefix env cfg lbl in
  Guards (objects h ++ [g]) (<[label (g_set g) := length (objects h)]> (registry h)) (files h).

(** Run an operation of the guard at [i] against the shared disk. *)
Definition at_guard {A} (i : nat) (op : world → world * A) (h : guards) : guards * option A :=
  match objects h !! i with
  | None => (h, None)
  | Some g => let '(w, a) := op (World g (files h)) in
              (Guards (<[i := the w]> (objects h)) (registry h) (disk w), Some a)
  end.

Definition by_label {A} (lbl : string) (op : world → world * A) (h : guards) : guards * bool :=
  match registry h !! lbl with
  | None => (h, false)
  | Some i => ((at_guard i op h).1, true)
  end.

Definition pauseCapability (e : io) (lbl : string) (why : option string) : guards → guards * bool :=
  by_label lbl (pause e why).
Definition resumeCapability (e : io) (lbl : string) : guards → guards * bool := by_label lbl (resume e).
Definition unregister (lbl : string) (h : guards) : guards := Guards (objects h) (delete lbl (registry h)) (files h).
