(* ===== verification/SpendInv.v ===== *)
(** * The spend guard over restarts: the machine and its invariant

    A hub process runs one guard through an arbitrary interleaving of
    reservations, settlements, checks, pauses and crashes; [ledger] records what
    was authorised and not given back, whatever the process remembers. The
    invariant relates the ledger to the two windows in memory and to the state
    file. *)

From S2P Require Import Prelude SpendGuard.
Open Scope Z_scope.

Arguments budget_allows : simpl never.
Arguments ceiling_allow : simpl never.
Arguments ceiling_noteBlocked : simpl never.
Arguments now_or : simpl never.

(** ** The machine *)

Inductive event :=
| EReserve (cost : option Z)
| ECommit (id : Z) (actual : option Z)
| ERelease (id : Z)
| ECheck (b : balance) (cost : option Z)
| EAllow (cost : option Z)
| ENoteBlocked
| EPause (why : option string)
| EResume
| ERestart.

Record machine := Machine { m_world : world; m_tokens : gmap Z token; ledger : list spend }.

Definition forget (s : spend) : spend := Spend (s_t s) (s_cost s) None.

(** A process that starts: a new guard, armed on its state file. *)
Definition boot (e : io) (g0 : guard) (d : gmap string content) : world := persistTo e None (World g0 d).

(** The invoice a commit reprices with. *)
Definition reprice (id : Z) (actual : option Z) (l : list spend) : list spend :=
  match actual with
  | Some c => if c <=? 0 then l else set_cost id c l
  | None => l
  end.

Definition step (g0 : guard) (e : io) (ev : event) (m : machine) : machine :=
  let w := m_world m in
  match ev with
  | EReserve cost =>
      match reserve e cost w with
      | (w', Some t) => Machine w' (<[t_id t := t]> (m_tokens m))
                          (ledger m ++ [Spend (clock e) (computeCost (the w) cost) (Some (t_id t))])
      | (w', None) => Machine w' (m_tokens m) (ledger m)
      end
  | ECommit id actual =>
      match m_tokens m !! id with
      | None => m
      | Some t => let '(w', t') := commit e t actual w in
                  Machine w' (<[id := t']> (m_tokens m)) (reprice id actual (ledger m))
      end
  | ERelease id =>
      match m_tokens m !! id with
      | None => m
      | Some t => let '(w', t') := release e t w in
                  Machine w' (<[id := t']> (m_tokens m))
                    (if settled t then ledger m else remove_first (has_reservation id) (ledger m))
      end
  | ECheck b cost => Machine (check_spend e b cost w).1 (m_tokens m) (ledger m)
  | EAllow cost => Machine (allow e cost w).1 (m_tokens m) (ledger m)
  | ENoteBlocked => Machine (noteBlocked e w).1 (m_tokens m) (ledger m)
  | EPause why => Machine (pause e why w).1 (m_tokens m) (ledger m)
  | EResume => Machine (resume e w).1 (m_tokens m) (ledger m)
  | ERestart => Machine (boot e g0 (disk w)) ∅ (map forget (ledger m))
  end.

Definition runs (g0 : guard) (l : list (io * event)) (m : machine) : machine :=
  foldl (λ m x, step g0 x.1 x.2 m) m l.

(** What a trace must keep to: the clock does not step back, the working
    directory is the one the hub booted in, and an invoice does not exceed the
    cost the spend was reserved at. *)
Definition fair_event (now : Z) (dir : string) (x : io * event) (m : machine) : bool :=
  (now <=? clock x.1) && String.eqb (cwd x.1) dir &&
  match x.2 with
  | ECommit id (Some c) => forallb (λ s, negb (has_reservation id s) || (c <=? s_cost s)) (ledger m)
  | _ => true
  end.

Fixpoint fair (g0 : guard) (now : Z) (dir : string) (l : list (io * event)) (m : machine) : bool :=
  match l with
  | [] => true
  | x :: r => fair_event now dir x m && fair g0 (clock x.1) dir r (step g0 x.1 x.2 m)
  end.

Definition start (e : io) (g0 : guard) (d : gmap string content) : machine := Machine (boot e g0 d) ∅ [].

(** ** Sums over parts of a window *)

Definition cost_after (a : Z) (s : spend) : Z := if a <? s_t s then s_cost s else 0.
Definition one_after (a : Z) (s : spend) : Z := if a <? s_t s then 1 else 0.
Definition tick_after (a t : Z) : Z := if a <? t then 1 else 0.
Definition cost_in (a b : Z) (s : spend) : Z := if (a <? s_t s) && (s_t s <=? b) then s_cost s else 0.
Definition one_in (a b : Z) (s : spend) : Z := if (a <? s_t s) && (s_t s <=? b) then 1 else 0.

Section Lists.
Context {A : Type}.
Implicit Types (f : A → Z) (p : A → bool) (l : list A).

Lemma sumZ_remove_first f p l :
  sumZ f (remove_first p l) = sumZ f l - match List.find p l with Some x => f x | None => 0 end.
Proof.
  induction l as [|x l IH]; [done|]. cbn [remove_first List.find].
  destruct (p x); rewrite !sumZ_cons; rewrite ?IH; lia.
Qed.

Lemma find_none_remove p l : List.find p l = None → remove_first p l = l.
Proof. induction l as [|x l IH]; simpl; [done|]. destruct (p x); [done|]. intros H. by rewrite IH. Qed.

Lemma elem_of_remove_first p l x : x ∈ l → p x = false → x ∈ remove_first p l.
Proof. induction l as [|y l IH]; simpl; [done|]. intros [->|H]%elem_of_cons Hp; [rewrite Hp; by left|].
  destruct (p y); [done|]. right. auto. Qed.

Lemma remove_first_sublist p l : remove_first p l `sublist_of` l.
Proof. induction l as [|x l IH]; simpl; [done|]. destruct (p x); by constructor. Qed.

Lemma find_elem p l x : List.find p l = Some x → x ∈ l ∧ p x = true.
Proof. intros H. apply List.find_some in H as [H1 H2]. by rewrite <-list_elem_of_In in H1. Qed.

Lemma find_none_all p l x : List.find p l = None → x ∈ l → p x = false.
Proof. intros H Hx. eapply List.find_none; [done|]. by apply list_elem_of_In. Qed.

Lemma drop_old_suffix (time : A → Z) c l : drop_old time c l `sublist_of` l.
Proof. induction l as [|x l IH]; simpl; [done|]. destruct (time x <=? c); by constructor. Qed.

Lemma sumZ_drop_old f (time : A → Z) c l :
  (∀ x, time x ≤ c → f x = 0) → sumZ f (drop_old time c l) = sumZ f l.
Proof.
  intros Hf. induction l as [|x l IH]; [done|]. cbn [drop_old].
  destruct (time x <=? c) eqn:E; [|done]. bools. rewrite sumZ_cons, IH, Hf; lia.
Qed.

Lemma sumZ_sublist f l1 l2 : (∀ x, x ∈ l2 → 0 ≤ f x) → l1 `sublist_of` l2 → sumZ f l1 ≤ sumZ f l2.
Proof.
  intros Hf. induction 1 as [|x l1 l2 _ IH|x l1 l2 _ IH]; rewrite ?sumZ_cons; [done|..].
  - assert (sumZ f l1 ≤ sumZ f l2) by (apply IH; intros; apply Hf; by right). lia.
  - assert (sumZ f l1 ≤ sumZ f l2) by (apply IH; intros; apply Hf; by right).
    assert (0 ≤ f x) by (apply Hf; by left). lia.
Qed.

Lemma sumZ_le f g l : (∀ x, x ∈ l → f x ≤ g x) → sumZ f l ≤ sumZ g l.
Proof.
  induction l as [|x l IH]; intros H; [done|]. rewrite !sumZ_cons.
  assert (f x ≤ g x) by (apply H; by left). assert (sumZ f l ≤ sumZ g l) by (apply IH; intros; apply H; by right). lia.
Qed.

Lemma sumZ_zero f l : (∀ x, x ∈ l → f x = 0) → sumZ f l = 0.
Proof. intros H. rewrite (sumZ_ext f (λ _, 0) l H). clear. by induction l. Qed.

Lemma sumZ_In f l x : (∀ y, y ∈ l → 0 ≤ f y) → x ∈ l → f x ≤ sumZ f l.
Proof.
  induction l as [|y l IH]; intros Hf Hx; [by apply elem_of_nil in Hx|]. rewrite sumZ_cons.
  assert (0 ≤ f y) by (apply Hf; by left). assert (0 ≤ sumZ f l) by (apply sumZ_nonneg; intros; apply Hf; by right).
  apply elem_of_cons in Hx as [->|Hx]; [lia|]. assert (f x ≤ sumZ f l) by (apply IH; [intros; apply Hf; by right|done]). lia.
Qed.

End Lists.

(** Reservation ids of a window. *)
Definition ids (l : list spend) : list Z := omap s_reservation l.

Lemma elem_of_ids i l : i ∈ ids l ↔ ∃ s, s ∈ l ∧ s_reservation s = Some i.
Proof. unfold ids. rewrite list_elem_of_omap. naive_solver. Qed.

Lemma ids_unique l s s' i :
  NoDup (ids l) → s ∈ l → s' ∈ l → s_reservation s = Some i → s_reservation s' = Some i → s = s'.
Proof.
  induction l as [|x l IH]; [intros _ []%elem_of_nil|]. intros Hnd Hs Hs' Hi Hi'.
  assert (Hnd' : NoDup (ids l)).
  { revert Hnd. unfold ids. simpl. destruct (s_reservation x); [|done]. by intros [_ ?]%NoDup_cons. }
  assert (Hx : ∀ z, z ∈ l → s_reservation z = Some i → s_reservation x = Some i → False).
  { intros z Hz Hzi Hxi. revert Hnd. unfold ids. simpl. rewrite Hxi. intros [Hn _]%NoDup_cons. apply Hn, elem_of_ids. eauto. }
  apply elem_of_cons in Hs as [->|Hs], Hs' as [->|Hs']; eauto; exfalso; eauto.
Qed.

Lemma ids_sublist l l' : l `sublist_of` l' → ids l `sublist_of` ids l'.
Proof.
  unfold ids. induction 1 as [|x l l' _ IH|x l l' _ IH]; simpl; [done|..]; destruct (s_reservation x); by (constructor || done).
Qed.

Lemma ids_app l1 l2 : ids (l1 ++ l2) = ids l1 ++ ids l2.
Proof. apply omap_app. Qed.

Lemma ids_cons s l : ids (s :: l) = match s_reservation s with Some i => i :: ids l | None => ids l end.
Proof. done. Qed.

Lemma set_cost_ids i c l : ids (set_cost i c l) = ids l.
Proof.
  induction l as [|s l IH]; [done|]. cbn [set_cost].
  destruct (has_reservation i s); rewrite !ids_cons; [done|]. by rewrite IH.
Qed.

Lemma set_cost_none i c l : List.find (has_reservation i) l = None → set_cost i c l = l.
Proof. induction l as [|s l IH]; simpl; [done|]. destruct (has_reservation i s); [done|]. intros H. by rewrite IH. Qed.

Lemma sumZ_set_cost f i c l :
  sumZ f (set_cost i c l) = sumZ f l +
    match List.find (has_reservation i) l with Some s => f (Spend (s_t s) c (s_reservation s)) - f s | None => 0 end.
Proof.
  induction l as [|s l IH]; [done|]. cbn [set_cost List.find].
  destruct (has_reservation i s); rewrite !sumZ_cons; rewrite ?IH; lia.
Qed.

Lemma elem_of_set_cost i c l s :
  s ∈ set_cost i c l →
  s ∈ l ∨ ∃ s0, List.find (has_reservation i) l = Some s0 ∧ s = Spend (s_t s0) c (s_reservation s0).
Proof.
  induction l as [|x l IH]; simpl; [intros []%elem_of_nil|].
  destruct (has_reservation i x) eqn:E.
  - intros [->|H]%elem_of_cons; [right; eauto|left; by right].
  - intros [->|H]%elem_of_cons; [left; by left|]. destruct (IH H) as [?|?]; [left; by right|by right].
Qed.

Lemma set_cost_keeps i c l s : s ∈ l → has_reservation i s = false → s ∈ set_cost i c l.
Proof.
  induction l as [|x l IH]; simpl; [done|]. intros [->|H]%elem_of_cons Hs; [rewrite Hs; by left|].
  destruct (has_reservation i x); by right; auto.
Qed.

Lemma set_cost_found i c l s0 :
  List.find (has_reservation i) l = Some s0 → Spend (s_t s0) c (s_reservation s0) ∈ set_cost i c l.
Proof.
  induction l as [|x l IH]; simpl; [done|]. destruct (has_reservation i x); [intros [= ->]; by left|]. right. auto.
Qed.

Lemma has_reservation_true i s : has_reservation i s = true ↔ s_reservation s = Some i.
Proof. apply bool_decide_eq_true. Qed.

Lemma ids_absent i l s : i ∉ ids l → s ∈ l → has_reservation i s = false.
Proof.
  intros Hi Hs. destruct (has_reservation i s) eqn:E; [|done]. apply has_reservation_true in E.
  exfalso. apply Hi, elem_of_ids. eauto.
Qed.

Lemma ids_head i s l : NoDup (ids (s :: l)) → has_reservation i s = true → i ∉ ids l.
Proof. intros Hnd Hs%has_reservation_true. rewrite ids_cons, Hs in Hnd. by apply NoDup_cons in Hnd as [? _]. Qed.

Lemma ids_tail s l : NoDup (ids (s :: l)) → NoDup (ids l).
Proof. rewrite ids_cons. destruct (s_reservation s); [|done]. by intros [_ ?]%NoDup_cons. Qed.

(** With unique ids, the one entry found is the one removed or repriced. *)
Lemma elem_of_remove_unique i l s :
  NoDup (ids l) → s ∈ remove_first (has_reservation i) l → s ∈ l ∧ has_reservation i s = false.
Proof.
  induction l as [|x l IH]; [by intros _ ?%elem_of_nil|]. intros Hnd. cbn [remove_first]. destruct (has_reservation i x) eqn:E.
  - intros Hs. split; [by right|]. eapply ids_absent; [by eapply ids_head|done].
  - intros [->|Hs]%elem_of_cons; [split; [by left|done]|].
    destruct (IH (ids_tail _ _ Hnd) Hs). split; [by right|done].
Qed.

Lemma elem_of_set_cost_unique i c l s :
  NoDup (ids l) → s ∈ set_cost i c l →
  (s ∈ l ∧ has_reservation i s = false) ∨
  ∃ s0, List.find (has_reservation i) l = Some s0 ∧ s = Spend (s_t s0) c (s_reservation s0).
Proof.
  induction l as [|x l IH]; [by intros _ ?%elem_of_nil|]. intros Hnd. cbn [set_cost List.find]. destruct (has_reservation i x) eqn:E.
  - intros [->|Hs]%elem_of_cons; [right; eauto|left]. split; [by right|].
    eapply ids_absent; [by eapply ids_head|done].
  - intros [->|Hs]%elem_of_cons; [left; split; [by left|done]|].
    destruct (IH (ids_tail _ _ Hnd) Hs) as [[??]|?]; [left; split; [by right|done]|by right].
Qed.

Lemma find_unique i l s :
  NoDup (ids l) → s ∈ l → s_reservation s = Some i → List.find (has_reservation i) l = Some s.
Proof.
  intros Hnd Hs Hi. destruct (List.find (has_reservation i) l) as [s'|] eqn:E.
  - apply find_elem in E as [Hs' Hi'%has_reservation_true]. f_equal. by eapply ids_unique.
  - eapply find_none_all in E; [|done]. by rewrite (proj2 (has_reservation_true i s)) in E.
Qed.

(** ** The invariant *)

Section Invariant.
Context (set : settings) (mx : Z) (path : string).

(** A window's worth assumed spent: an entry of the full budget. *)
Definition seeded (M : list spend) (a : Z) : Prop :=
  ∃ s, s ∈ M ∧ s_reservation s = None ∧ maxSpendUsdCents set ≤ s_cost s ∧ a < s_t s.

(** The window [M] accounts for every live entry of the ledger [L]. *)
Record covers (now : Z) (L M : list spend) : Prop := {
  cv_pos : ∀ s, s ∈ M → 0 < s_cost s;
  cv_time : ∀ s, s ∈ M → s_t s ≤ now;
  cv_cost : ∀ a, now - windowMs set ≤ a → sumZ (cost_after a) L ≤ sumZ (cost_after a) M;
  cv_count : ∀ a, now - windowMs set ≤ a →
    sumZ (one_after a) L ≤ sumZ (one_after a) M ∨ seeded M a }.

(** The ledger keeps to both ceilings in every window. *)
Record within (now : Z) (L : list spend) : Prop := {
  wi_pos : ∀ s, s ∈ L → 0 < s_cost s;
  wi_time : ∀ s, s ∈ L → s_t s ≤ now;
  wi_ids : NoDup (ids L);
  wi_cost : ∀ a, sumZ (cost_in a (a + windowMs set)) L ≤ maxSpendUsdCents set;
  wi_count : 0 < mx → ∀ a, sumZ (one_in a (a + windowMs set)) L ≤ mx }.

Record mem_ok (now : Z) (L : list spend) (c : ceiling) (M : list spend) (n : Z) : Prop := {
  mo_max : maxPerWindow c = mx;
  mo_window : c_windowMs c = windowMs set;
  mo_covers : covers now L M;
  mo_shared : ∀ s i, s ∈ M → s_reservation s = Some i → s ∈ L;
  mo_ids : NoDup (ids M);
  mo_seq : ∀ i, i ∈ ids L → i ≤ n;
  mo_ticks : 0 < mx → ∀ a, now - windowMs set ≤ a →
    sumZ (one_after a) L ≤ sumZ (tick_after a) (c_spends c) ∨ seeded M a }.

Definition file_ok (now : Z) (L : list spend) (d : gmap string content) : Prop :=
  (∀ s, s ∈ L → s_t s ≤ now - windowMs set) ∨
  match d !! path with
  | None => False
  | Some (Saved es _ _) => ∃ M, es = map save M ∧ covers now L M
  | Some _ => True
  end.

Definition tok_ok (L : list spend) (T : gmap Z token) (n : Z) : Prop :=
  ∀ i t, T !! i = Some t → t_id t = i ∧ i ≤ n ∧
    (settled t = false → ∃ s, s ∈ L ∧ s_reservation s = Some i ∧
       ceilingHandle t = if mx <=? 0 then None else Some (s_t s)).

Record good (now : Z) (L : list spend) (n : Z) (g : guard) (d : gmap string content) : Prop := {
  go_set : g_set g = set;
  go_armed : armedPath (g_store g) = Some path;
  go_n : reserveSeq g = n;
  go_mem : mem_ok now L (g_ceiling g) (g_spends g) n;
  go_file : file_ok now L d }.

Definition inv (now : Z) (m : machine) : Prop :=
  within now (ledger m) ∧
  good now (ledger m) (reserveSeq (the (m_world m))) (the (m_world m)) (disk (m_world m)) ∧
  tok_ok (ledger m) (m_tokens m) (reserveSeq (the (m_world m))).

(** *** Time passes *)

Lemma seeded_mono M a b : a ≤ b → seeded M b → seeded M a.
Proof. intros Hab (s & ? & ? & ? & ?). exists s. split_and!; [done..|lia]. Qed.

Lemma covers_later now now' L M : now ≤ now' → covers now L M → covers now' L M.
Proof.
  intros Hn [H1 H2 H3 H4]. constructor; try done.
  - intros s Hs. specialize (H2 s Hs). lia.
  - intros a Ha. apply H3. lia.
  - intros a Ha. apply H4. lia.
Qed.

Lemma within_later now now' L : now ≤ now' → within now L → within now' L.
Proof. intros Hn [H1 H2 H3 H4 H5]. constructor; try done. intros s Hs. specialize (H2 s Hs). lia. Qed.

Lemma mem_later now now' L c M n : now ≤ now' → mem_ok now L c M n → mem_ok now' L c M n.
Proof.
  intros Hn []. constructor; try done; [by eapply covers_later|].
  intros Hm a Ha. apply mo_ticks0; [done|lia].
Qed.

Lemma file_later now now' L d : now ≤ now' → file_ok now L d → file_ok now' L d.
Proof.
  intros Hn [H|H]; [left; intros s Hs; specialize (H s Hs); lia|right].
  destruct (d !! path) as [[| |es pz why]|]; [done..| |done].
  destruct H as (M & -> & H). exists M. split; [done|]. by eapply covers_later.
Qed.

Lemma good_later now now' L n g d : now ≤ now' → good now L n g d → good now' L n g d.
Proof. intros Hn []. constructor; try done; [by eapply mem_later|by eapply file_later]. Qed.

Lemma inv_later now now' m : now ≤ now' → inv now m → inv now' m.
Proof. intros Hn (?&?&?). split_and!; [by eapply within_later|by eapply good_later|done]. Qed.

(** *** The ledger shrinks: a release, or a lower invoice *)

Record smaller (L' L : list spend) : Prop := {
  sm_pos : (∀ s, s ∈ L → 0 < s_cost s) → ∀ s, s ∈ L' → 0 < s_cost s;
  sm_time : ∀ s, s ∈ L' → ∃ s0, s0 ∈ L ∧ s_t s = s_t s0;
  sm_ids : ids L' `sublist_of` ids L;
  sm_cost : (∀ s, s ∈ L → 0 < s_cost s) → ∀ a, sumZ (cost_after a) L' ≤ sumZ (cost_after a) L;
  sm_one : ∀ a, sumZ (one_after a) L' ≤ sumZ (one_after a) L;
  sm_cost_in : (∀ s, s ∈ L → 0 < s_cost s) → ∀ a b, sumZ (cost_in a b) L' ≤ sumZ (cost_in a b) L;
  sm_one_in : ∀ a b, sumZ (one_in a b) L' ≤ sumZ (one_in a b) L }.

Lemma one_nonneg a s : 0 ≤ one_after a s.
Proof. unfold one_after. case_match; lia. Qed.
Lemma tick_nonneg a t : 0 ≤ tick_after a t.
Proof. unfold tick_after. case_match; lia. Qed.
Lemma cost_nonneg a s : 0 < s_cost s → 0 ≤ cost_after a s.
Proof. unfold cost_after. case_match; lia. Qed.

Lemma smaller_sublist L' L : L' `sublist_of` L → smaller L' L.
Proof.
  intros H. constructor.
  - intros Hp s Hs. apply Hp. by eapply elem_of_sublist.
  - intros s Hs. exists s. split; [|done]. by eapply elem_of_sublist.
  - by apply ids_sublist.
  - intros Hp a. apply sumZ_sublist; [|done]. intros s Hs. apply cost_nonneg. auto.
  - intros a. apply sumZ_sublist; [|done]. intros. apply one_nonneg.
  - intros Hp a b. apply sumZ_sublist; [|done]. intros s Hs. specialize (Hp s Hs). unfold cost_in. case_match; lia.
  - intros a b. apply sumZ_sublist; [|done]. intros. unfold one_in. case_match; lia.
Qed.

Lemma smaller_set_cost i c L :
  0 < c → (∀ s, s ∈ L → s_reservation s = Some i → c ≤ s_cost s) → smaller (set_cost i c L) L.
Proof.
  intros Hc Hle.
  assert (Hsum : ∀ f, (∀ s, s ∈ L → s_reservation s = Some i → f (Spend (s_t s) c (s_reservation s)) ≤ f s) →
            sumZ f (set_cost i c L) ≤ sumZ f L).
  { intros f Hf. rewrite sumZ_set_cost. destruct (List.find _ L) as [s|] eqn:E; [|lia].
    apply find_elem in E as [Hs Hi]. unfold has_reservation in Hi. bools. specialize (Hf s Hs Hi). lia. }
  constructor.
  - intros Hp s [Hs|(s0 & E & ->)]%elem_of_set_cost; [auto|done].
  - intros s [Hs|(s0 & E & ->)]%elem_of_set_cost; [eauto|]. apply find_elem in E as [? _]. eauto.
  - by rewrite set_cost_ids.
  - intros Hp a. apply Hsum. intros s Hs Hi. specialize (Hle s Hs Hi). unfold cost_after. simpl. case_match; lia.
  - intros a. by apply Hsum.
  - intros Hp a b. apply Hsum. intros s Hs Hi. specialize (Hle s Hs Hi). unfold cost_in. simpl. case_match; lia.
  - intros a b. by apply Hsum.
Qed.

Lemma smaller_reprice i actual L :
  (∀ c, actual = Some c → ∀ s, s ∈ L → s_reservation s = Some i → c ≤ s_cost s) → smaller (reprice i actual L) L.
Proof.
  intros H. unfold reprice. destruct actual as [c|]; [|by apply smaller_sublist].
  destruct (c <=? 0) eqn:E; [by apply smaller_sublist|]. bools. apply smaller_set_cost; [lia|]. by apply H.
Qed.

Lemma within_smaller now L' L : smaller L' L → within now L → within now L'.
Proof.
  intros [] []. constructor; eauto.
  - intros s (s0 & H & ->)%sm_time0. auto.
  - by eapply sublist_NoDup.
  - intros a. etrans; [by apply sm_cost_in0|done].
  - intros Hm a. etrans; [by apply sm_one_in0|auto].
Qed.

Lemma covers_smaller now L' L M :
  (∀ s, s ∈ L → 0 < s_cost s) → smaller L' L → covers now L M → covers now L' M.
Proof.
  intros Hp [] []. constructor; [done..| |].
  - intros a Ha. etrans; [by apply sm_cost0|auto].
  - intros a Ha. destruct (cv_count0 a Ha) as [H|H]; [left; etrans; [apply sm_one0|done]|by right].
Qed.

Lemma file_smaller now L' L d :
  (∀ s, s ∈ L → 0 < s_cost s) → smaller L' L → file_ok now L d → file_ok now L' d.
Proof.
  intros Hp Hs [H|H]; [left; intros s (s0 & Hs0 & ->)%(sm_time _ _ Hs); auto|right].
  destruct (d !! path) as [[| |es pz why]|]; [done..| |done].
  destruct H as (M & -> & H). exists M. split; [done|]. by eapply covers_smaller.
Qed.

(** *** The entry of a reservation, in the window and in the ledger *)

Lemma found_shared L M i s :
  NoDup (ids L) → (∀ s i, s ∈ M → s_reservation s = Some i → s ∈ L) →
  List.find (has_reservation i) M = Some s → List.find (has_reservation i) L = Some s.
Proof.
  intros Hnd Hsh [Hs Hi%has_reservation_true]%find_elem. apply find_unique; eauto.
Qed.

Lemma seeded_remove i M a : seeded M a → seeded (remove_first (has_reservation i) M) a.
Proof.
  intros (s & Hs & Hn & Hc & Ht). exists s. split_and!; try done. apply elem_of_remove_first; [done|].
  unfold has_reservation. apply bool_decide_eq_false. by rewrite Hn.
Qed.

Lemma seeded_set_cost i c M a : seeded M a → seeded (set_cost i c M) a.
Proof.
  intros (s & Hs & Hn & Hc & Ht). exists s. split_and!; try done. apply set_cost_keeps; [done|].
  unfold has_reservation. apply bool_decide_eq_false. by rewrite Hn.
Qed.

Lemma covers_remove now L M i :
  (∀ s, s ∈ L → 0 < s_cost s) → NoDup (ids L) → (∀ s i, s ∈ M → s_reservation s = Some i → s ∈ L) →
  covers now L M → covers now (remove_first (has_reservation i) L) (remove_first (has_reservation i) M).
Proof.
  intros Hp Hnd Hsh [H1 H2 H3 H4].
  assert (Hsub : ∀ s, s ∈ remove_first (has_reservation i) M → s ∈ M)
    by (intros s Hs; eapply elem_of_sublist; [done|apply remove_first_sublist]).
  assert (Hf : ∀ f : spend → Z, (∀ s, s ∈ L → 0 ≤ f s) → sumZ f L ≤ sumZ f M →
    sumZ f (remove_first (has_reservation i) L) ≤ sumZ f (remove_first (has_reservation i) M)).
  { intros f Hf Hle. rewrite !sumZ_remove_first. destruct (List.find _ M) as [s|] eqn:E.
    - rewrite (found_shared L M i s) by done. lia.
    - destruct (List.find _ L) as [s|] eqn:E'; [|lia]. apply find_elem in E' as [Hs _]. specialize (Hf s Hs). lia. }
  constructor; eauto.
  - intros a Ha. apply Hf; [intros; apply cost_nonneg; auto|auto].
  - intros a Ha. destruct (H4 a Ha) as [H|H]; [left|right; by apply seeded_remove].
    apply Hf; [intros; apply one_nonneg|done].
Qed.

Lemma covers_set_cost now L M i c :
  0 < c → (∀ s, s ∈ L → s_reservation s = Some i → c ≤ s_cost s) → NoDup (ids L) →
  (∀ s i, s ∈ M → s_reservation s = Some i → s ∈ L) →
  covers now L M → covers now (set_cost i c L) (set_cost i c M).
Proof.
  intros Hc Hle Hnd Hsh [H1 H2 H3 H4].
  assert (Hf : ∀ f : spend → Z,
    (∀ s, s ∈ L → s_reservation s = Some i → f (Spend (s_t s) c (s_reservation s)) ≤ f s) → sumZ f L ≤ sumZ f M →
    sumZ f (set_cost i c L) ≤ sumZ f (set_cost i c M)).
  { intros f Hf Hs. rewrite !sumZ_set_cost. destruct (List.find _ M) as [s|] eqn:E.
    - rewrite (found_shared L M i s) by done. lia.
    - destruct (List.find _ L) as [s|] eqn:E'; [|lia]. apply find_elem in E' as [Hs' Hi].
      unfold has_reservation in Hi. bools. specialize (Hf s Hs' Hi). lia. }
  constructor.
  - intros s [Hs|(s0 & E & ->)]%elem_of_set_cost; [auto|done].
  - intros s [Hs|(s0 & E & ->)]%elem_of_set_cost; [auto|]. apply find_elem in E as [Hs0 _]. simpl. auto.
  - intros a Ha. apply Hf; [|auto]. intros s Hs Hi. specialize (Hle s Hs Hi). unfold cost_after. simpl. case_match; lia.
  - intros a Ha. destruct (H4 a Ha) as [H|H]; [left; by apply Hf|right; by apply seeded_set_cost].
Qed.

(** *** The windows in memory *)

Lemma cost_after_old a s : s_t s ≤ a → cost_after a s = 0.
Proof. intros H. unfold cost_after. by rewrite (proj2 (Z.ltb_ge _ _)) by lia. Qed.
Lemma one_after_old a s : s_t s ≤ a → one_after a s = 0.
Proof. intros H. unfold one_after. by rewrite (proj2 (Z.ltb_ge _ _)) by lia. Qed.
Lemma tick_after_old a t : t ≤ a → tick_after a t = 0.
Proof. intros H. unfold tick_after. by rewrite (proj2 (Z.ltb_ge _ _)) by lia. Qed.

Lemma elem_of_drop_old (s : spend) c M : c < s_t s → s ∈ M → s ∈ drop_old s_t c M.
Proof.
  intros Hc. induction M as [|x M IH]; [done|]. cbn [drop_old]. destruct (s_t x <=? c) eqn:E; [|done].
  intros [->|H]%elem_of_cons; [|auto]. bools. lia.
Qed.

Lemma seeded_drop_old c M a : c ≤ a → seeded M a → seeded (drop_old s_t c M) a.
Proof. intros Hc (s & ? & ? & ? & ?). exists s. split_and!; try done. apply elem_of_drop_old; [lia|done]. Qed.

Lemma covers_prune now L M : covers now L M → covers now L (drop_old s_t (now - windowMs set) M).
Proof.
  intros [H1 H2 H3 H4].
  assert (Hsub : ∀ s, s ∈ drop_old s_t (now - windowMs set) M → s ∈ M)
    by (intros s Hs; eapply elem_of_sublist; [done|apply drop_old_suffix]).
  constructor; eauto.
  - intros a Ha. rewrite sumZ_drop_old; [auto|]. intros x Hx. apply cost_after_old. lia.
  - intros a Ha. rewrite sumZ_drop_old; [|intros x Hx; apply one_after_old; lia].
    destruct (H4 a Ha); [by left|right; by apply seeded_drop_old].
Qed.

Lemma mem_prune now L c M n : mem_ok now L c M n → mem_ok now L c (drop_old s_t (now - windowMs set) M) n.
Proof.
  intros []. constructor; try done.
  - by apply covers_prune.
  - intros s i Hs. apply mo_shared0. eapply elem_of_sublist; [done|apply drop_old_suffix].
  - eapply sublist_NoDup; [done|]. apply ids_sublist, drop_old_suffix.
  - intros Hm a Ha. destruct (mo_ticks0 Hm a Ha); [by left|right; by apply seeded_drop_old].
Qed.

(** Replacing the recorded times by others that count as many live ones. *)
Lemma mem_ticks now L c M n l b :
  mem_ok now L c M n →
  (0 < mx → ∀ a, now - windowMs set ≤ a → sumZ (tick_after a) (c_spends c) ≤ sumZ (tick_after a) l) →
  mem_ok now L (Ceiling (maxPerWindow c) (c_windowMs c) (c_label c) l b) M n.
Proof.
  intros [] H. constructor; try done. intros Hm a Ha. destruct (mo_ticks0 Hm a Ha); [left|by right].
  specialize (H Hm a Ha). simpl. lia.
Qed.

Lemma mem_c_prune now L c M n : mem_ok now L c M n → mem_ok now L (c_prune now c) M n.
Proof.
  intros H. apply mem_ticks; [done|]. intros _ a Ha. rewrite (mo_window _ _ _ _ _ H).
  rewrite sumZ_drop_old; [done|]. intros t Ht. apply tick_after_old. unfold id in Ht. lia.
Qed.

(** A reservation: one entry more on every side. *)
Lemma covers_push now L M s :
  0 < s_cost s → s_t s ≤ now → covers now L M → covers now (L ++ [s]) (M ++ [s]).
Proof.
  intros Hc Ht [H1 H2 H3 H4]. constructor.
  - intros x [Hx| ->%list_elem_of_singleton]%elem_of_app; auto.
  - intros x [Hx| ->%list_elem_of_singleton]%elem_of_app; auto.
  - intros a Ha. rewrite !sumZ_app. specialize (H3 a Ha). lia.
  - intros a Ha. rewrite !sumZ_app. destruct (H4 a Ha) as [H|(x & ? & ?)]; [left; lia|right].
    exists x. split; [set_solver|done].
Qed.

Lemma mem_push now L c M n cost l b :
  0 < cost → within now L → mem_ok now L c M n →
  (0 < mx → ∀ a, now - windowMs set ≤ a →
    sumZ (tick_after a) l = sumZ (tick_after a) (c_spends c) + tick_after a now) →
  let s := Spend now cost (Some (n + 1)) in
  mem_ok now (L ++ [s]) (Ceiling (maxPerWindow c) (c_windowMs c) (c_label c) l b) (M ++ [s]) (n + 1).
Proof.
  intros Hc Hw [] Hl s. constructor; try done.
  - by apply covers_push.
  - intros x i [Hx| ->%list_elem_of_singleton]%elem_of_app Hi; [|set_solver]. apply elem_of_app. left. eauto.
  - rewrite ids_app. apply NoDup_app. split_and!; [done| |apply NoDup_singleton].
    intros i (x & Hx & Hi)%elem_of_ids Hn. apply list_elem_of_singleton in Hn as ->.
    pose proof (mo_seq0 (n + 1)) as Hle. rewrite elem_of_ids in Hle. enough (n + 1 ≤ n) by lia. apply Hle. eauto.
  - intros i. rewrite ids_app, elem_of_app. intros [Hi|Hi]; [specialize (mo_seq0 i Hi); lia|].
    apply list_elem_of_singleton in Hi. lia.
  - intros Hm a Ha. rewrite sumZ_app, sumZ_cons, sumZ_nil. simpl. rewrite (Hl Hm a Ha).
    destruct (mo_ticks0 Hm a Ha) as [H|(x & ? & ?)].
    + left. unfold one_after at 2, tick_after at 2. simpl. lia.
    + right. exists x. split; [set_solver|done].
Qed.

(** A release takes the entry and one equal time. *)
Lemma mem_remove now L c M n i s l b :
  within now L → mem_ok now L c M n → s ∈ L → s_reservation s = Some i →
  (0 < mx → l = remove_first (Z.eqb (s_t s)) (c_spends c)) →
  mem_ok now (remove_first (has_reservation i) L) (Ceiling (maxPerWindow c) (c_windowMs c) (c_label c) l b)
    (remove_first (has_reservation i) M) n.
Proof.
  intros [] [] Hs Hi Hl.
  pose proof (find_unique i L s wi_ids0 Hs Hi) as Hfind.
  constructor; try done.
  - by apply covers_remove.
  - intros x j [HxM Hx]%elem_of_remove_unique Hj; [|done]. apply elem_of_remove_first; eauto.
  - eapply sublist_NoDup; [done|]. apply ids_sublist, remove_first_sublist.
  - intros j Hj. apply mo_seq0. eapply elem_of_sublist; [done|]. apply ids_sublist, remove_first_sublist.
  - intros Hm a Ha. simpl. rewrite (Hl Hm), !sumZ_remove_first, Hfind.
    destruct (mo_ticks0 Hm a Ha) as [H|H]; [left|right; by apply seeded_remove].
    destruct (List.find _ (c_spends c)) as [t|] eqn:E.
    + apply find_elem in E as [_ Ht]. bools. subst t. unfold one_after at 2, tick_after at 2. lia.
    + pose proof (one_nonneg a s). lia.
Qed.

Lemma mem_set_cost now L c M n i cost :
  0 < cost → (∀ s, s ∈ L → s_reservation s = Some i → cost ≤ s_cost s) →
  within now L → mem_ok now L c M n → mem_ok now (set_cost i cost L) c (set_cost i cost M) n.
Proof.
  intros Hc Hle [] []. constructor; try done.
  - by apply covers_set_cost.
  - intros s j [[Hs Hn]|(s0 & E & ->)]%elem_of_set_cost_unique Hj; [|apply set_cost_found; by eapply found_shared|done].
    apply set_cost_keeps; eauto.
  - by rewrite set_cost_ids.
  - intros j. rewrite set_cost_ids. apply mo_seq0.
  - intros Hm a Ha. rewrite sumZ_set_cost. destruct (mo_ticks0 Hm a Ha) as [H|H]; [left|right; by apply seeded_set_cost].
    destruct (List.find _ L) as [s|]; [|lia]. unfold one_after in *. simpl. lia.
Qed.

(** *** Operations keep the guard good *)

Lemma good_frame now L n g g' d :
  good now L n g d → g_set g' = g_set g → armedPath (g_store g') = armedPath (g_store g) → reserveSeq g' = reserveSeq g →
  g_ceiling g' = g_ceiling g → g_spends g' = g_spends g → good now L n g' d.
Proof.
  intros [] E1 E2 E3 E4 E5. constructor; congruence.
Qed.

Lemma good_mem now L n g g' d :
  good now L n g d → g_set g' = g_set g → armedPath (g_store g') = armedPath (g_store g) → reserveSeq g' = reserveSeq g →
  mem_ok now L (g_ceiling g') (g_spends g') n → good now L n g' d.
Proof. intros [] E1 E2 E3 E4. constructor; congruence. Qed.

Lemma now_or_same c : now_or (Some c) c = c.
Proof. by destruct c. Qed.

Lemma good_ceiling_allow e L n g d :
  good (clock e) L n g d → good (clock e) L n (ceiling_allow e g).1 d.
Proof.
  intros H. unfold ceiling_allow, c_allow. rewrite now_or_same.
  destruct (disabled _); simpl; (eapply good_mem; [exact H|done..|]); [apply H|apply mem_c_prune, H].
Qed.

Lemma good_budget e cost L n g d :
  good (clock e) L n g d → good (clock e) L n (budget_allows e cost g).1 d.
Proof.
  intros H. unfold budget_allows, spentInWindow, prune. rewrite now_or_same. simpl.
  eapply good_mem; [exact H|done..|]. simpl. rewrite (go_set _ _ _ _ _ H). apply mem_prune, H.
Qed.

Lemma file_saved now L n g d :
  good now L n g d → file_ok now L (<[path := saved_window g]> d).
Proof.
  intros H. right. rewrite lookup_insert_eq. exists (g_spends g). split; [done|]. apply (mo_covers _ _ _ _ _ (go_mem _ _ _ _ _ H)).
Qed.

Lemma good_persist e L n w now :
  good now L n (the w) (disk w) → good now L n (the (persist e w).1) (disk (persist e w).1).
Proof.
  intros H. unfold persist. rewrite (go_armed _ _ _ _ _ H). destruct (writing e) as [|err torn].
  - constructor; try apply H; [|by eapply file_saved].
    simpl. destruct (persistBroken _); simpl; [done|]. apply H.
  - constructor; try apply H; [done|]. simpl. destruct torn; [|apply H].
    right. by rewrite lookup_insert_eq.
Qed.

Lemma persist_keeps e w :
  g_spends (the (persist e w).1) = g_spends (the w) ∧ g_ceiling (the (persist e w).1) = g_ceiling (the w) ∧
  g_set (the (persist e w).1) = g_set (the w) ∧ reserveSeq (the (persist e w).1) = reserveSeq (the w) ∧
  g_paused (the (persist e w).1) = g_paused (the w).
Proof. unfold persist. destruct (armedPath _), (writing e); done. Qed.

Lemma good_storeUsable e L n w now :
  good now L n (the w) (disk w) → good now L n (the (storeUsable e w).1) (disk (storeUsable e w).1).
Proof.
  intros H. unfold storeUsable. destruct (armedPath _); [|done]. destruct (persistBroken _); [|done]. by apply good_persist.
Qed.

Lemma storeUsable_seq e w : reserveSeq (the (storeUsable e w).1) = reserveSeq (the w).
Proof.
  unfold storeUsable. destruct (armedPath _); [|done]. destruct (persistBroken _); [|done]. apply persist_keeps.
Qed.

Definition keeps (e : io) (L : list spend) (op : world → world) : Prop :=
  ∀ n w, good (clock e) L n (the w) (disk w) → good (clock e) L n (the (op w)) (disk (op w)).

Lemma keeps_check e b cost L : keeps e L (λ w, (check_spend e b cost w).1).
Proof.
  intros n w H. unfold check_spend. destruct (g_paused (the w)); [by eapply good_frame|].
  pose proof (good_storeUsable e L n w (clock e) H) as H1. destruct (storeUsable e w) as [w1 ok]. cbn [fst] in H1.
  destruct ok; cbv beta iota zeta delta [negb]; [|by eapply good_frame].
  match goal with |- context [if ?i then on_guard ?f w1 else w1] => set (w2 := if i then on_guard f w1 else w1) end.
  assert (H2 : good (clock e) L n (the w2) (disk w2)) by (unfold w2; case_match; [by eapply good_frame|done]).
  clearbody w2.
  assert (H3 : good (clock e) L n (the (on_guard note_balance w2)) (disk (on_guard note_balance w2))) by by eapply good_frame.
  pose proof (good_ceiling_allow e L n _ _ H2) as H4. destruct (ceiling_allow e (the w2)) as [g1 okc]. cbn [fst] in H4. cbv iota beta.
  pose proof (good_budget e cost L n _ _ H4) as H5. destruct (budget_allows e cost g1) as [g2 room]. cbn [fst] in H5.
  cbv iota beta.
  assert (H6 : good (clock e) L n (note_spend g2) (disk w2)) by by eapply good_frame.
  assert (H7 : good (clock e) L n (ceiling_noteBlocked e (note_spend g1)).1 (disk w2)).
  { eapply good_mem; [exact H4|done..|]. apply mem_ticks; [apply H4|done]. }
  destruct (ceiling_noteBlocked e (note_spend g1)) as [g3 r]. cbn [fst] in H7. cbv iota beta.
  destruct b as [| |q]; [|done|destruct (below q _); [done|]]; by destruct okc, room.
Qed.


Lemma keeps_allow e cost L : keeps e L (λ w, (allow e cost w).1).
Proof.
  intros n w H. unfold allow. destruct (g_paused (the w)); [done|].
  pose proof (good_storeUsable e L n w (clock e) H) as H1. destruct (storeUsable e w) as [w1 []];
    cbn [fst] in H1; cbv beta iota delta [negb]; [|done].
  pose proof (good_ceiling_allow e L n _ _ H1) as H2. destruct (ceiling_allow e (the w1)) as [g1 []];
    cbn [fst] in H2; cbv beta iota delta [negb]; [|done].
  pose proof (good_budget e cost L n _ _ H2) as H3. by destruct (budget_allows e cost g1) as [g2 room].
Qed.

Lemma keeps_noteBlocked e L : keeps e L (λ w, (noteBlocked e w).1).
Proof.
  intros n w H. unfold noteBlocked. destruct (g_paused (the w)); [done|]. destruct (persistBroken _); [done|].
  pose proof (good_ceiling_allow e L n _ _ H) as H2. destruct (ceiling_allow e (the w)) as [g1 []];
    cbn [fst] in H2; cbv beta iota delta [negb]; [done|].
  eapply good_mem; [exact H2|done..|]. simpl. apply mem_ticks; [apply H2|done].
Qed.

Lemma keeps_pause e why L : keeps e L (λ w, (pause e why w).1).
Proof. intros n w H. apply good_persist. by eapply good_frame. Qed.

Lemma keeps_resume e L : keeps e L (λ w, (resume e w).1).
Proof. intros n w H. apply good_persist. by eapply good_frame. Qed.

(** No operation but [reserve] draws a new id. *)
Lemma seq_same e L (op : world → world) w n :
  keeps e L op → good (clock e) L n (the w) (disk w) → reserveSeq (the (op w)) = reserveSeq (the w).
Proof. intros Hk H. pose proof (Hk n w H) as H'. rewrite (go_n _ _ _ _ _ H). apply H'. Qed.

Lemma inv_keeps e L T (op : world → world) w :
  keeps e L op → inv (clock e) (Machine w T L) → inv (clock e) (Machine (op w) T L).
Proof.
  intros Hk (Hw & Hg & Ht). pose proof (seq_same e L op w _ Hk Hg) as Es.
  split_and!; simpl in *; rewrite ?Es; [done|by apply Hk|done].
Qed.

(** *** A reservation *)

Lemma remove_first_fresh n l s : n ∉ ids l → s_reservation s = Some n → remove_first (has_reservation n) (l ++ [s]) = l.
Proof.
  intros Hn Hs. induction l as [|x l IH]; cbn [remove_first app].
  - by rewrite (proj2 (has_reservation_true n s)).
  - rewrite (ids_absent n (x :: l) x Hn) by by left. rewrite IH; [done|].
    intros Hl. apply Hn. rewrite ids_cons. destruct (s_reservation x); [by right|done].
Qed.

Lemma sumZ_remove_last (f : Z → Z) t l : sumZ f (remove_first (Z.eqb t) (l ++ [t])) = sumZ f l.
Proof.
  rewrite sumZ_remove_first, sumZ_app, sumZ_cons, sumZ_nil.
  destruct (List.find _ _) as [x|] eqn:E.
  - apply find_elem in E as [_ E]. bools. subst x. lia.
  - eapply find_none_all in E; [|apply elem_of_app; right; by left]. bools. done.
Qed.

Lemma within_push now L n s :
  within now L → (∀ i, i ∈ ids L → i ≤ n) → s_t s = now → 0 < s_cost s → s_reservation s = Some (n + 1) →
  sumZ (cost_after (now - windowMs set)) L + s_cost s ≤ maxSpendUsdCents set →
  (0 < mx → sumZ (one_after (now - windowMs set)) L + 1 ≤ mx) →
  within now (L ++ [s]).
Proof.
  intros [] Hn Ht Hc Hr Hcost Hcount. constructor.
  - intros x [Hx| ->%list_elem_of_singleton]%elem_of_app; auto.
  - intros x [Hx| ->%list_elem_of_singleton]%elem_of_app; [auto|lia].
  - rewrite ids_app. apply NoDup_app. split_and!; [done| |].
    + intros i Hi. rewrite ids_cons, Hr. intros ->%list_elem_of_singleton. specialize (Hn _ Hi). lia.
    + rewrite ids_cons, Hr. apply NoDup_singleton.
  - intros a. rewrite sumZ_app, sumZ_cons, sumZ_nil. specialize (wi_cost0 a).
    destruct (decide (now - windowMs set ≤ a)) as [Ha|Ha].
    + enough (sumZ (cost_in a (a + windowMs set)) L ≤ sumZ (cost_after (now - windowMs set)) L ∧
              cost_in a (a + windowMs set) s ≤ s_cost s) by lia.
      split; [|unfold cost_in; case_match; lia].
      apply sumZ_le. intros x Hx. specialize (wi_pos0 x Hx). unfold cost_in, cost_after.
      repeat case_match; bools; lia.
    + unfold cost_in at 2. rewrite (proj2 (Z.leb_gt _ _)) by lia. rewrite andb_false_r. lia.
  - intros Hm a. rewrite sumZ_app, sumZ_cons, sumZ_nil. specialize (wi_count0 Hm a). specialize (Hcount Hm).
    destruct (decide (now - windowMs set ≤ a)) as [Ha|Ha].
    + enough (sumZ (one_in a (a + windowMs set)) L ≤ sumZ (one_after (now - windowMs set)) L ∧
              one_in a (a + windowMs set) s ≤ 1) by lia.
      split; [|unfold one_in; case_match; lia].
      apply sumZ_le. intros x Hx. unfold one_in, one_after. repeat case_match; bools; lia.
    + unfold one_in at 2. rewrite (proj2 (Z.leb_gt _ _)) by lia. rewrite andb_false_r. lia.
Qed.

Hypothesis est_pos : 0 < estSpendUsdCents set.

Lemma computeCost_pos g cost : g_set g = set → 0 < computeCost g cost.
Proof. intros Hg. unfold computeCost. destruct cost; [|by rewrite Hg]. case_match; bools; [by rewrite Hg|lia]. Qed.

Lemma computeCost_set g g' cost : g_set g = g_set g' → computeCost g cost = computeCost g' cost.
Proof. intros Hg. unfold computeCost. by rewrite Hg. Qed.

Lemma ceiling_allow_room e L n g g1 d :
  good (clock e) L n g d → ceiling_allow e g = (g1, true) → 0 < mx →
  Z.of_nat (length (c_spends (g_ceiling g1))) < mx.
Proof.
  intros H. pose proof (mo_max _ _ _ _ _ (go_mem _ _ _ _ _ H)) as Hmx.
  unfold ceiling_allow, c_allow, disabled. rewrite now_or_same, Hmx.
  intros E Hm. rewrite (proj2 (Z.leb_gt _ _)) in E by lia. injection E as <- E. bools. by rewrite Hmx in E.
Qed.

Lemma ticks_le_length a l : sumZ (tick_after a) l ≤ Z.of_nat (length l).
Proof. induction l as [|t l IH]; [done|]. rewrite sumZ_cons. simpl. unfold tick_after at 1. case_match; lia. Qed.

Lemma budget_allows_room e cost L n g g2 d :
  good (clock e) L n g d → budget_allows e cost g = (g2, true) →
  g_ceiling g2 = g_ceiling g ∧
  sumZ s_cost (g_spends g2) + computeCost g2 cost ≤ maxSpendUsdCents set.
Proof.
  intros H. unfold budget_allows, spentInWindow. intros E. injection E as <- E. bools.
  split; [done|]. rewrite <-(go_set _ _ _ _ _ H). exact E.
Qed.

Lemma room_in_window now L n g d c :
  good now L n g d → within now L → 0 < c → sumZ s_cost (g_spends g) + c ≤ maxSpendUsdCents set →
  (0 < mx → Z.of_nat (length (c_spends (g_ceiling g))) < mx) →
  sumZ (cost_after (now - windowMs set)) L + c ≤ maxSpendUsdCents set ∧
  (0 < mx → sumZ (one_after (now - windowMs set)) L + 1 ≤ mx).
Proof.
  intros [_ _ _ [_ _ [Hpos _ Hcost _] _ _ _ Ht] _] Hw Hc Hsum Hlen. split.
  - specialize (Hcost (now - windowMs set) ltac:(lia)).
    enough (sumZ (cost_after (now - windowMs set)) (g_spends g) ≤ sumZ s_cost (g_spends g)) by lia.
    apply sumZ_le. intros s Hs. specialize (Hpos s Hs). unfold cost_after. case_match; lia.
  - intros Hm. specialize (Hlen Hm). destruct (Ht Hm (now - windowMs set) ltac:(lia)) as [H|(s & Hs & _ & Hmax & _)].
    + pose proof (ticks_le_length (now - windowMs set) (c_spends (g_ceiling g))). lia.
    + assert (s_cost s ≤ sumZ s_cost (g_spends g)); [|lia]. apply sumZ_In; [|done]. intros y Hy. specialize (Hpos y Hy). lia.
Qed.

Lemma c_reserve_spends e c :
  (c_reserve (Some (clock e)) (clock e) c).2 = (if disabled c then None else Some (clock e)) ∧
  (c_reserve (Some (clock e)) (clock e) c).1 =
    Ceiling (maxPerWindow c) (c_windowMs c) (c_label c)
      (if disabled c then c_spends c else drop_old id (clock e - c_windowMs c) (c_spends c) ++ [clock e]) (blockedCount c).
Proof.
  unfold c_reserve, c_record. rewrite now_or_same. destruct (disabled c); [|done]. split; [done|]. by destruct c.
Qed.

Lemma tok_push L T n s t :
  tok_ok L T n → t_id t = n + 1 → s_reservation s = Some (n + 1) →
  ceilingHandle t = (if mx <=? 0 then None else Some (s_t s)) → tok_ok (L ++ [s]) (<[n + 1 := t]> T) (n + 1).
Proof.
  intros Ht Hid Hr Hh i t' [[<- <-]|[Hne H]]%lookup_insert_Some.
  - split_and!; [done|lia|]. intros _. exists s. split_and!; [set_solver|done..].
  - destruct (Ht i t' H) as (? & ? & Hs). split_and!; [done|lia|]. intros Hst. destruct (Hs Hst) as (s0 & ? & ? & ?).
    exists s0. split_and!; [set_solver|done..].
Qed.

Lemma mem_seq now L c M n n' : n ≤ n' → mem_ok now L c M n → mem_ok now L c M n'.
Proof. intros Hn []. constructor; try done. intros i Hi. specialize (mo_seq0 i Hi). lia. Qed.

Lemma tok_seq L T n n' : n ≤ n' → tok_ok L T n → tok_ok L T n'.
Proof. intros Hn HT i t Ht. destruct (HT i t Ht) as (? & ? & ?). split_and!; [done|lia|done]. Qed.

Lemma enabled now L n g d : good now L n g d → disabled (g_ceiling g) = (mx <=? 0).
Proof. intros H. unfold disabled. by rewrite (mo_max _ _ _ _ _ (go_mem _ _ _ _ _ H)). Qed.

Lemma live_ticks now c a :
  c_windowMs c = windowMs set → now - windowMs set ≤ a →
  sumZ (tick_after a) (drop_old id (now - c_windowMs c) (c_spends c)) = sumZ (tick_after a) (c_spends c).
Proof. intros Hc Ha. apply sumZ_drop_old. intros t Ht. apply tick_after_old. unfold id in Ht. lia. Qed.

(** The slot a failed reservation took is given back. *)
Lemma mem_rollback now L c M n :
  mem_ok now L c M n →
  mem_ok now L (c_release (if disabled c then None else Some now)
    (Ceiling (maxPerWindow c) (c_windowMs c) (c_label c)
       (if disabled c then c_spends c else drop_old id (now - c_windowMs c) (c_spends c) ++ [now]) (blockedCount c))) M n.
Proof.
  intros H. destruct (disabled c) eqn:E; cbn [c_release]; [by destruct c|].
  change (disabled (Ceiling _ _ _ _ _)) with (disabled c). rewrite E. apply (mem_ticks _ _ c); [done|].
  intros Hm a Ha. cbn [c_spends]. rewrite sumZ_remove_last, live_ticks; [done|apply H|done].
Qed.

Lemma fresh_id now L c M n : mem_ok now L c M n → n + 1 ∉ ids M.
Proof.
  intros [] (x & Hx & Hi)%elem_of_ids. enough (n + 1 ≤ n) by lia. apply mo_seq0, elem_of_ids. eauto.
Qed.

Lemma inv_reserve g0 e cost m : inv (clock e) m → inv (clock e) (step g0 e (EReserve cost) m).
Proof.
  destruct m as [w T L]. intros (Hw & Hg & HT). cbn [ledger m_world m_tokens] in *. set (n := reserveSeq (the w)) in *.
  assert (Hstop : ∀ g, good (clock e) L n g (disk w) → inv (clock e) (Machine (World g (disk w)) T L)).
  { intros g H. split_and!; simpl; rewrite ?(go_n _ _ _ _ _ H); done. }
  unfold step, reserve. cbn [m_world m_tokens ledger]. destruct (g_paused (the w)).
  { apply Hstop. by eapply good_frame. }
  pose proof (good_ceiling_allow e L n _ _ Hg) as H1.
  destruct (ceiling_allow e (the w)) as [g1 []] eqn:E1; cbn [fst] in H1; cbv beta iota zeta delta [negb];
    [|apply Hstop; by eapply good_frame].
  pose proof (good_budget e cost L n _ _ H1) as H2.
  destruct (budget_allows e cost g1) as [g2 []] eqn:E2; cbn [fst] in H2; cbv beta iota zeta delta [negb];
    [|apply Hstop; by eapply good_frame].
  destruct (budget_allows_room e cost L n g1 g2 _ H1 E2) as [Ec Hroom].
  assert (Hcc : computeCost g1 cost = computeCost (the w) cost ∧ computeCost g2 cost = computeCost (the w) cost)
    by (split; apply computeCost_set; by rewrite (go_set _ _ _ _ _ Hg), ?(go_set _ _ _ _ _ H1), ?(go_set _ _ _ _ _ H2)).
  destruct Hcc as [Hc1 Hc2]. rewrite Hc1. rewrite Hc2 in Hroom.
  pose proof (computeCost_pos (the w) cost (go_set _ _ _ _ _ Hg)) as Hcp. set (c := computeCost (the w) cost) in *.
  destruct (room_in_window (clock e) L n g2 _ c H2 Hw Hcp Hroom) as [Hcost Hcount].
  { intros Hm. rewrite Ec. by eapply (ceiling_allow_room e L n (the w) g1). }
  rewrite (go_n _ _ _ _ _ H2). destruct (c_reserve_spends e (g_ceiling g2)) as [Eh Ecl].
  rewrite (enabled _ _ _ _ _ H2) in Eh, Ecl.
  destruct (c_reserve _ _ (g_ceiling g2)) as [cl handle]. cbn [fst snd] in Eh, Ecl.
  set (s := Spend (clock e) c (Some (n + 1))).
  assert (Hmem : mem_ok (clock e) (L ++ [s]) cl (g_spends g2 ++ [s]) (n + 1)).
  { subst cl. apply mem_push; [done..|apply H2|]. intros Hm a Ha. rewrite (proj2 (Z.leb_gt _ _)) by lia.
    rewrite sumZ_app, live_ticks, sumZ_cons, sumZ_nil; [lia|apply H2|done]. }
  unfold persist. cbn [the disk g_store with_spends with_reserveSeq with_ceiling].
  rewrite (go_armed _ _ _ _ _ H2). destruct (writing e) as [|err torn]; cbv beta iota zeta.
  - split_and!; cbn [ledger m_world m_tokens the disk reserveSeq with_store with_spends with_reserveSeq with_ceiling].
    + eapply (within_push _ _ n); try done. apply Hg.
    + constructor; try done; [apply H2|simpl; by destruct (persistBroken _); [|apply H2]|].
      right. rewrite lookup_insert_eq. exists (g_spends g2 ++ [s]). split; [done|]. apply Hmem.
    + by apply tok_push.
  - split_and!; cbn [ledger m_world m_tokens the disk]; [done| |by eapply tok_seq, HT; simpl; lia].
    constructor; try done; [apply H2| |].
    + simpl. rewrite remove_first_fresh; [|by eapply fresh_id, H2|done]. subst handle cl.
      rewrite <-(enabled _ _ _ _ _ H2). apply (mem_seq _ _ _ _ n); [lia|]. apply mem_rollback, H2.
    + simpl. destruct torn; [|apply H2]. right. by rewrite lookup_insert_eq.
Qed.

(** *** Settlement *)

Lemma good_set_cost now L n g d i c :
  0 < c → (∀ s, s ∈ L → s_reservation s = Some i → c ≤ s_cost s) → within now L → good now L n g d →
  good now (set_cost i c L) n (with_spends (set_cost i c (g_spends g)) g) d.
Proof.
  intros Hc Hle Hw []. constructor; try done; [by apply mem_set_cost|].
  eapply file_smaller; [apply Hw|by apply smaller_set_cost|done].
Qed.

Lemma tok_settle L L' T n i t :
  tok_ok L T n → T !! i = Some t → settled (settle t) = true →
  (∀ s, s ∈ L → has_reservation i s = false → s ∈ L') → tok_ok L' (<[i := settle t]> T) n.
Proof.
  intros HT Ht _ Hsub j t' [[<- <-]|[Hne H]]%lookup_insert_Some.
  - destruct (HT i t Ht) as (? & ? & _). by split_and!.
  - destruct (HT j t' H) as (? & ? & Hs). split_and!; [done..|]. intros Hst.
    destruct (Hs Hst) as (s & Hin & Hr & Hh). exists s. split_and!; [|done..]. apply Hsub; [done|].
    apply bool_decide_eq_false. rewrite Hr. by intros [= ->].
Qed.

Lemma existsb_find (p : spend → bool) l : existsb p l = false → List.find p l = None.
Proof. induction l as [|x l IH]; simpl; [done|]. by destruct (p x). Qed.

Lemma inv_commit g0 e id actual m :
  (∀ c, actual = Some c → ∀ s, s ∈ ledger m → s_reservation s = Some id → c ≤ s_cost s) →
  inv (clock e) m → inv (clock e) (step g0 e (ECommit id actual) m).
Proof.
  destruct m as [w T L]. cbn [ledger]. intros Hle (Hw & Hg & HT). unfold step. cbn [ledger m_world m_tokens] in *.
  destruct (T !! id) as [t|] eqn:Et; [|by split_and!]. destruct (HT id t Et) as (Hid & _ & _).
  assert (Hstay : inv (clock e) (Machine w (<[id := settle t]> T) L)).
  { split_and!; [done..|]. simpl. eapply tok_settle; done. }
  unfold commit, reprice. destruct actual as [c|]; [|done]. destruct (c <=? 0) eqn:Ec; [done|]. bools.
  pose proof (good_set_cost _ L _ _ _ id c ltac:(lia) (Hle c eq_refl) Hw Hg) as Hgood.
  assert (Hw' : within (clock e) (set_cost id c L)).
  { eapply within_smaller; [|done]. apply smaller_set_cost; [lia|by apply Hle]. }
  assert (HT' : tok_ok (set_cost id c L) (<[id := settle t]> T) (reserveSeq (the w))).
  { eapply tok_settle; [done..|]. intros. by apply set_cost_keeps. }
  change (t_id (settle t)) with (t_id t). rewrite Hid. destruct (existsb _ _) eqn:Ex.
  - set (w1 := on_guard (λ g, with_spends (set_cost id c (g_spends g)) g) w).
    pose proof (good_persist e _ _ w1 _ Hgood) as Hp.
    pose proof (proj1 (proj2 (proj2 (proj2 (persist_keeps e w1))))) as Eseq.
    split_and!; cbn [ledger m_world m_tokens]; rewrite ?Eseq; done.
  - apply existsb_find in Ex. rewrite (set_cost_none id c (g_spends _)) in Hgood by done.
    split_and!; [done| |done]. cbn [ledger m_world m_tokens]. eapply good_frame; [exact Hgood|done..].
Qed.

Lemma inv_release g0 e id m : inv (clock e) m → inv (clock e) (step g0 e (ERelease id) m).
Proof.
  destruct m as [w T L]. intros (Hw & Hg & HT). unfold step. cbn [ledger m_world m_tokens] in *.
  destruct (T !! id) as [t|] eqn:Et; [|by split_and!]. destruct (HT id t Et) as (Hid & _ & Hs).
  unfold release. destruct (settled t) eqn:Est.
  { split_and!; [done..|]. simpl. by rewrite insert_id. }
  destruct (Hs eq_refl) as (s & HsL & Hr & Hh). rewrite Hid.
  set (L' := remove_first (has_reservation id) L).
  assert (Hsm : smaller L' L) by (apply smaller_sublist, remove_first_sublist).
  set (w1 := on_guard _ (on_guard _ w)).
  assert (Hgood : good (clock e) L' (reserveSeq (the w)) (the w1) (disk w1)).
  { constructor; try apply Hg; [|eapply file_smaller; [apply Hw|done|apply Hg]].
    cbn [w1 on_guard the with_ceiling with_spends g_ceiling g_spends]. set (c := g_ceiling (the w)).
    assert (Ec : ∃ l b, c_release (ceilingHandle t) c = Ceiling (maxPerWindow c) (c_windowMs c) (c_label c) l b ∧
                   (0 < mx → l = remove_first (Z.eqb (s_t s)) (c_spends c))).
    { rewrite Hh. unfold c_release. rewrite (enabled _ _ _ _ _ Hg : disabled c = (mx <=? 0)). destruct (mx <=? 0) eqn:Em.
      - exists (c_spends c), (blockedCount c). split; [by destruct c|]. bools. lia.
      - eexists _, _. by split. }
    destruct Ec as (l & b & -> & Hl). eapply mem_remove; [done|apply Hg|done..]. }
  clearbody w1. pose proof (good_persist e _ _ w1 _ Hgood) as Hp.
  pose proof (proj1 (proj2 (proj2 (proj2 (persist_keeps e w1))))) as Eseq.
  split_and!; cbn [ledger m_world m_tokens fst]; [by eapply within_smaller|..].
  - rewrite Eseq, (go_n _ _ _ _ _ Hgood). done.
  - rewrite Eseq, (go_n _ _ _ _ _ Hgood). eapply tok_settle; [done..|].
    intros x Hx Hn. by apply elem_of_remove_first.
Qed.

(** *** A restart *)

Lemma sumZ_map {A} (f : A → Z) (h : A → A) l : (∀ x, f (h x) = f x) → sumZ f (map h l) = sumZ f l.
Proof. intros H. induction l as [|x l IH]; [done|]. cbn [map]. by rewrite !sumZ_cons, H, IH. Qed.

Lemma elem_of_forget s L : s ∈ map forget L → ∃ s0, s0 ∈ L ∧ s_t s = s_t s0 ∧ s_cost s = s_cost s0.
Proof.
  induction L as [|x L IH]; cbn [map]; [by intros ?%elem_of_nil|].
  intros [->|H]%elem_of_cons; [exists x; split; [by left|done]|]. destruct (IH H) as (s0 & ? & ?). exists s0. split; [by right|done].
Qed.

Lemma ids_forget L : ids (map forget L) = [].
Proof. by induction L as [|x L IH]. Qed.

Lemma smaller_forget L : smaller (map forget L) L.
Proof.
  constructor; intros; rewrite ?ids_forget; try (apply sublist_nil_l); try (by rewrite sumZ_map).
  - edestruct elem_of_forget as (s0 & ? & _ & ->); [done|auto].
  - edestruct elem_of_forget as (s0 & ? & ? & _); [done|eauto].
Qed.

(** A window rebuilt without reservations. *)
Lemma mem_rebuilt now L c M n :
  maxPerWindow c = mx → c_windowMs c = windowMs set → ids L = [] → (∀ s, s ∈ M → s_reservation s = None) →
  covers now L M →
  (0 < mx → ∀ a, now - windowMs set ≤ a → sumZ (one_after a) L ≤ sumZ (tick_after a) (c_spends c) ∨ seeded M a) →
  mem_ok now L c M n.
Proof.
  intros Hm Hw HL HM Hc Ht. constructor; try done.
  - intros s i Hs. by rewrite HM.
  - assert (ids M = []) as ->; [|constructor]. clear -HM. induction M as [|s M IH]; [done|].
    rewrite ids_cons, HM by by left. apply IH. intros. apply HM. by right.
  - rewrite HL. by intros i ?%elem_of_nil.
Qed.

Lemma dead_zero now L (f : Z → spend → Z) a :
  (∀ b s, s_t s ≤ b → f b s = 0) → (∀ s, s ∈ L → s_t s ≤ now - windowMs set) → now - windowMs set ≤ a → sumZ (f a) L = 0.
Proof. intros Hf H Ha. apply sumZ_zero. intros s Hs. apply Hf. specialize (H s Hs). lia. Qed.

Lemma covers_dead now L M :
  (∀ s, s ∈ L → s_t s ≤ now - windowMs set) → (∀ s, s ∈ M → 0 < s_cost s) → (∀ s, s ∈ M → s_t s ≤ now) → covers now L M.
Proof.
  intros HL Hp Ht. constructor; [done..| |].
  - intros a Ha. rewrite (dead_zero now L cost_after) by (done || apply cost_after_old).
    apply sumZ_nonneg. intros s Hs. apply cost_nonneg. auto.
  - intros a Ha. left. rewrite (dead_zero now L one_after) by (done || apply one_after_old).
    apply sumZ_nonneg. intros s Hs. apply one_nonneg.
Qed.

Lemma ticks_nonneg a l : 0 ≤ sumZ (tick_after a) l.
Proof. apply sumZ_nonneg. intros. apply tick_nonneg. Qed.

Hypothesis max_pos : 0 < maxSpendUsdCents set.
Hypothesis win_pos : 0 < windowMs set.

(** The assumed-spent entry stands for whatever the ledger holds. *)
Lemma covers_seed now L :
  within now L → covers now L [Spend now (maxSpendUsdCents set) None].
Proof.
  intros [Hp Ht _ Hc _]. constructor.
  - by intros s ->%list_elem_of_singleton.
  - by intros s ->%list_elem_of_singleton.
  - intros a Ha. rewrite sumZ_cons, sumZ_nil. unfold cost_after at 2. simpl. destruct (a <? now) eqn:E; bools.
    + specialize (Hc (now - windowMs set)).
      enough (sumZ (cost_after a) L ≤ sumZ (cost_in (now - windowMs set) (now - windowMs set + windowMs set)) L) by lia.
      apply sumZ_le. intros s Hs. specialize (Hp s Hs). specialize (Ht s Hs). unfold cost_after, cost_in.
      repeat case_match; bools; lia.
    + rewrite sumZ_zero; [done|]. intros s Hs. apply cost_after_old. specialize (Ht s Hs). lia.
  - intros a Ha. destruct (decide (a < now)).
    + right. eexists. split; [by left|done].
    + left. rewrite (sumZ_zero _ L); [apply sumZ_nonneg; intros; apply one_nonneg|].
      intros s Hs. apply one_after_old. specialize (Ht s Hs). lia.
Qed.

Definition loaded (now : Z) (es : list rawspend) : list spend := omap (restore_entry now set) es.

Lemma loaded_spec now es s : s ∈ loaded now es → s_reservation s = None ∧ 0 < s_cost s ∧ s_t s ≤ now.
Proof.
  intros (r & _ & H)%list_elem_of_omap. unfold restore_entry in H. destruct (r_t r) as [t|]; [|done].
  destruct (t <=? _); [done|]. injection H as <-. simpl. split_and!; [done| |lia].
  destruct (r_cost r); [case_match; bools; lia|done].
Qed.

(** Reading back what [persist] wrote loses only what is out of the window. *)
Lemma loaded_saved now M (f : spend → Z) :
  (∀ s, f (Spend (s_t s) (s_cost s) None) = f s) → (∀ s, s_t s ≤ now - windowMs set → f s = 0) →
  (∀ s, s ∈ M → 0 < s_cost s) → (∀ s, s ∈ M → s_t s ≤ now) →
  sumZ f (loaded now (map save M)) = sumZ f M.
Proof.
  intros Hf Hold. induction M as [|s M IH]; intros Hp Ht; [done|].
  assert (IH' : sumZ f (loaded now (map save M)) = sumZ f M) by (apply IH; intros; [apply Hp|apply Ht]; by right).
  specialize (Hp s (list_elem_of_here _ _)). specialize (Ht s (list_elem_of_here _ _)).
  assert (E : restore_entry now set (save s) =
            if s_t s <=? now - windowMs set then None else Some (Spend (s_t s) (s_cost s) None)).
  { unfold restore_entry. simpl. by rewrite (proj2 (Z.ltb_lt _ _)), Z.min_l by lia. }
  unfold loaded in *. cbn [map omap list_omap]. rewrite E, sumZ_cons.
  destruct (s_t s <=? now - windowMs set) eqn:Eo; bools.
  - rewrite (Hold s) by lia. done.
  - by rewrite sumZ_cons, Hf, IH'.
Qed.

Lemma covers_loaded now L M : covers now L M → covers now L (loaded now (map save M)).
Proof.
  intros [Hp Ht Hc Hn].
  assert (HS : ∀ s, s ∈ loaded now (map save M) → _) by (intros s; apply loaded_spec).
  constructor.
  - intros s Hs. apply HS in Hs. by destruct Hs as (_ & ? & _).
  - intros s Hs. by apply HS in Hs as (_ & _ & ?).
  - intros a Ha. rewrite loaded_saved; [auto|done| |done..]. intros s Hs. apply cost_after_old. lia.
  - intros a Ha. rewrite loaded_saved; [|done| |done..]; [|intros s Hs; apply one_after_old; lia].
    destruct (Hn a Ha) as [H|(s & Hs & _ & Hmax & Has)]; [by left|right].
    exists (forget s). split_and!; [|done..]. apply list_elem_of_omap. exists (save s). split.
    + apply list_elem_of_In, in_map, list_elem_of_In, Hs.
    + unfold restore_entry. simpl. rewrite (proj2 (Z.leb_gt _ _)) by lia.
      specialize (Hp s Hs). specialize (Ht s Hs). by rewrite (proj2 (Z.ltb_lt _ _)), Z.min_l by lia.
Qed.

Lemma now_or_ge t now : t ≤ now → t ≤ now_or (Some t) now ≤ now.
Proof. intros H. unfold now_or. destruct t; lia. Qed.

(** Folding the saved entries in: the window, and at least as many times. *)
Lemma restore_fold now es g :
  g_set g = set → c_windowMs (g_ceiling g) = windowMs set →
  let g' := foldl (restore_one now) g es in
  g_spends g' = g_spends g ++ loaded now es ∧ g_set g' = set ∧ g_store g' = g_store g ∧ reserveSeq g' = reserveSeq g ∧
  g_paused g' = g_paused g ∧
  maxPerWindow (g_ceiling g') = maxPerWindow (g_ceiling g) ∧ c_windowMs (g_ceiling g') = windowMs set ∧
  (0 < maxPerWindow (g_ceiling g) → ∀ a, now - windowMs set ≤ a →
     sumZ (tick_after a) (c_spends (g_ceiling g)) + sumZ (one_after a) (loaded now es) ≤
     sumZ (tick_after a) (c_spends (g_ceiling g'))).
Proof.
  revert g. induction es as [|r es IH]; intros g Hs Hw; cbn [foldl].
  { rewrite app_nil_r. split_and!; try done. intros _ a _. unfold loaded. simpl. lia. }
  unfold loaded. cbn [omap list_omap]. fold (loaded now es).
  assert (Er : restore_one now g r = match restore_entry now set r with
    | None => g
    | Some s => with_ceiling (c_record (Some (s_t s)) now (g_ceiling g)) (with_spends (g_spends g ++ [s]) g)
    end) by (unfold restore_one; by rewrite Hs).
  rewrite Er. destruct (restore_entry now set r) as [s|] eqn:E; [|by apply IH].
  set (g1 := with_ceiling _ _).
  assert (Hg1 : g_set g1 = set ∧ c_windowMs (g_ceiling g1) = windowMs set ∧ maxPerWindow (g_ceiling g1) = maxPerWindow (g_ceiling g)).
  { simpl. unfold c_record. by destruct (disabled _). }
  destruct Hg1 as (Hs1 & Hw1 & Hm1). destruct (IH g1 Hs1 Hw1) as (H1 & H2 & H3 & H4 & H5 & H6 & H7 & H8).
  split_and!; try done; [|congruence|].
  - rewrite H1. simpl. by rewrite <-app_assoc.
  - intros Hm a Ha. rewrite Hm1 in H8. specialize (H8 Hm a Ha). rewrite sumZ_cons.
    enough (sumZ (tick_after a) (c_spends (g_ceiling g)) + one_after a s ≤ sumZ (tick_after a) (c_spends (g_ceiling g1))) by lia.
    assert (Hst : s_t s ≤ now) by (eapply (loaded_spec now [r]); unfold loaded; simpl; rewrite E; by left).
    apply now_or_ge in Hst. simpl. unfold c_record, disabled. rewrite (proj2 (Z.leb_gt _ _)) by lia.
    simpl. rewrite sumZ_app, sumZ_cons, sumZ_nil, sumZ_drop_old.
    + unfold one_after, tick_after. repeat case_match; bools; lia.
    + intros t Ht. apply tick_after_old. unfold id in Ht. lia.
Qed.

(** A guard no operation has run on yet. *)
Record fresh (g : guard) : Prop := {
  fr_set : g_set g = set; fr_spends : g_spends g = []; fr_seq : reserveSeq g = 0;
  fr_max : maxPerWindow (g_ceiling g) = mx; fr_window : c_windowMs (g_ceiling g) = windowMs set;
  fr_times : c_spends (g_ceiling g) = [] }.

Lemma seed_ok e L g :
  ids L = [] → within (clock e) L → fresh g → mem_ok (clock e) L (g_ceiling (seedConsumed e g)) (g_spends (seedConsumed e g)) 0.
Proof.
  intros HL Hw []. unfold seedConsumed. simpl. rewrite fr_spends0, fr_set0.
  assert (Hc : maxPerWindow (c_seedConsumed (Some (clock e)) (clock e) (g_ceiling g)) = mx ∧
               c_windowMs (c_seedConsumed (Some (clock e)) (clock e) (g_ceiling g)) = windowMs set).
  { unfold c_seedConsumed. by destruct (disabled _). }
  apply mem_rebuilt; [apply Hc..|done| |by apply covers_seed|].
  - by intros s ->%list_elem_of_singleton.
  - intros Hm a Ha. destruct (cv_count _ _ _ (covers_seed _ _ Hw) a Ha) as [H|H]; [|by right].
    destruct (decide (a < clock e)); [right; eexists; split; [by left|done]|left].
    rewrite (sumZ_zero _ L); [apply ticks_nonneg|]. intros s Hs. apply one_after_old.
    pose proof (wi_time _ _ Hw s Hs). lia.
Qed.

Lemma loaded_ok e L es paused why g :
  ids L = [] → within (clock e) L → fresh g → covers (clock e) L (loaded (clock e) es) →
  let g' := foldl (restore_one (clock e)) (restorePause paused why g) es in
  mem_ok (clock e) L (g_ceiling g') (isort earlier (g_spends g')) 0 ∧ g_set g' = set ∧ g_store g' = g_store g ∧ reserveSeq g' = 0.
Proof.
  intros HL Hw [] Hcov g'. set (g1 := restorePause paused why g) in *.
  assert (Hg1 : g_set g1 = set ∧ g_spends g1 = [] ∧ reserveSeq g1 = 0 ∧ g_ceiling g1 = g_ceiling g ∧ g_store g1 = g_store g)
    by (unfold g1, restorePause; by destruct (negb paused || g_paused g)).
  destruct Hg1 as (E1 & E2 & E3 & E4 & E5).
  destruct (restore_fold (clock e) es g1) as (H1 & H2 & H3 & H4 & _ & H6 & H7 & H8); [done|by rewrite E4|].
  fold g' in H1, H2, H3, H4, H6, H7, H8. rewrite E2 in H1. cbn [app] in H1. rewrite E4 in *.
  split_and!; [|done|congruence|congruence].
  assert (HP : isort earlier (g_spends g') ≡ₚ loaded (clock e) es) by (rewrite H1; apply isort_perm).
  apply mem_rebuilt; [congruence|done|done|..].
  - intros s. rewrite HP. by intros (? & _)%loaded_spec.
  - destruct Hcov. constructor; try (intros s; rewrite HP; auto).
    + intros a Ha. rewrite (sumZ_perm _ _ _ HP). auto.
    + intros a Ha. rewrite (sumZ_perm _ _ _ HP). destruct (cv_count0 a Ha) as [H|(s & Hs & ?)]; [by left|right].
      exists s. by rewrite HP.
  - intros Hm a Ha. rewrite fr_max0 in H8. specialize (H8 Hm a Ha). rewrite fr_times0, sumZ_nil in H8.
    destruct (cv_count _ _ _ Hcov a Ha) as [H|(s & Hs & ?)]; [left; lia|right]. exists s. by rewrite HP.
Qed.

Lemma loadState_ok e L d g :
  ids L = [] → within (clock e) L → file_ok (clock e) L d → fresh g → g_paused g = false →
  let g' := loadState e path d g in
  mem_ok (clock e) L (g_ceiling g') (g_spends g') 0 ∧ g_set g' = set ∧ g_store g' = g_store g ∧ reserveSeq g' = 0.
Proof.
  intros HL Hw Hf Hfr Hp. unfold loadState.
  assert (Hseed : mem_ok (clock e) L (g_ceiling (seedConsumed e g)) (g_spends (seedConsumed e g)) 0 ∧
    g_set (seedConsumed e g) = set ∧ g_store (seedConsumed e g) = g_store g ∧ reserveSeq (seedConsumed e g) = 0)
    by (split_and!; [by apply seed_ok|apply Hfr|done|apply Hfr]).
  destruct (readFault e); [done|]. unfold file_ok in Hf.
  destruct (d !! path) as [[| |es paused why]|]; [done..| |].
  - apply loaded_ok; try done. destruct Hf as [Hold|(M & -> & Hc)]; [|by apply covers_loaded].
    apply covers_dead; [done|..]; intros s (_ & ? & ?)%loaded_spec; done.
  - destruct (storeIsWritable e path); [|done]. destruct Hf as [Hold|[]].
    split_and!; [|apply Hfr|done|apply Hfr]. rewrite (fr_spends _ Hfr).
    apply mem_rebuilt; try apply Hfr; [done|by intros s ?%elem_of_nil|..].
    + apply covers_dead; [done|..]; by intros s ?%elem_of_nil.
    + intros _ a Ha. left. rewrite (dead_zero _ L one_after) by (done || apply one_after_old). apply ticks_nonneg.
Qed.

Lemma good_self now L n g d : good now L n g d → good now L (reserveSeq g) g d.
Proof. intros H. by rewrite (go_n _ _ _ _ _ H). Qed.

Lemma inv_boot e g0 L d :
  within (clock e) L → file_ok (clock e) L d → fresh g0 → g_paused g0 = false →
  resolve (cwd e) (statePath set) = path →
  inv (clock e) (Machine (boot e g0 d) ∅ (map forget L)).
Proof.
  intros Hw Hf Hfr Hp Hpath. pose proof (smaller_forget L) as Hsm.
  assert (Hw' : within (clock e) (map forget L)) by by eapply within_smaller.
  assert (Hf' : file_ok (clock e) (map forget L) d) by (eapply file_smaller; [apply Hw|done..]).
  unfold boot, persistTo. cbn [the disk].
  change (default (statePath (g_set g0)) (truthy_or None None)) with (statePath (g_set g0)).
  rewrite (fr_set _ Hfr), Hpath.
  set (g1 := with_store _ g0).
  assert (Hfr1 : fresh g1) by (destruct Hfr; by constructor).
  destruct (loadState_ok e (map forget L) d g1) as (Hm & Hset & Hst & Hseq); try done; [apply ids_forget|].
  set (w := World (loadState e path d g1) d).
  assert (Hg : good (clock e) (map forget L) 0 (the w) (disk w)).
  { constructor; try done. simpl. by rewrite Hst. }
  assert (Hw2 : good (clock e) (map forget L) 0 (the (if g_paused (the w) then (persist e w).1 else w))
                     (disk (if g_paused (the w) then (persist e w).1 else w))).
  { destruct (g_paused (the w)); [by apply good_persist|done]. }
  split_and!; cbn [ledger m_world m_tokens]; [done|exact (good_self _ _ _ _ _ Hw2)|by intros i t ?%lookup_empty_Some].
Qed.

Lemma inv_step e g0 now ev m :
  fresh g0 → g_paused g0 = false → resolve (cwd e) (statePath set) = path →
  now ≤ clock e → (∀ dir, cwd e = dir → fair_event now dir (e, ev) m = true) → inv now m → inv (clock e) (step g0 e ev m).
Proof.
  intros Hfr Hp Hpath Hn Hfair Hi. apply (inv_later now (clock e)) in Hi; [|done]. destruct m as [w T L].
  destruct ev as [cost|id actual|id|b cost|cost| |why| |].
  - by apply inv_reserve.
  - apply inv_commit; [|done]. cbn [ledger]. intros c -> s Hs Hr.
    specialize (Hfair _ eq_refl). unfold fair_event in Hfair. simpl in Hfair. bools.
    rewrite forallb_forall in H0. specialize (H0 s). rewrite <-list_elem_of_In in H0. specialize (H0 Hs).
    apply orb_true_iff in H0 as [H0|H0]; bools; [|lia]. by rewrite (proj2 (has_reservation_true id s) Hr) in H0.
  - by apply inv_release.
  - exact (inv_keeps e L T _ w (keeps_check e b cost L) Hi).
  - exact (inv_keeps e L T _ w (keeps_allow e cost L) Hi).
  - exact (inv_keeps e L T _ w (keeps_noteBlocked e L) Hi).
  - exact (inv_keeps e L T _ w (keeps_pause e why L) Hi).
  - exact (inv_keeps e L T _ w (keeps_resume e L) Hi).
  - destruct Hi as (Hw & Hg & _). apply inv_boot; try done. apply Hg.
Qed.

Lemma inv_runs g0 now dir l m :
  fresh g0 → g_paused g0 = false → resolve dir (statePath set) = path →
  fair g0 now dir l m = true → inv now m → ∃ now', now ≤ now' ∧ inv now' (runs g0 l m).
Proof.
  intros Hfr Hp Hpath. revert now m. induction l as [|[e ev] l IH]; intros now m Hl Hi; [by exists now|].
  cbn [fair] in Hl. apply andb_true_iff in Hl as [He Hl].
  assert (now ≤ clock e ∧ cwd e = dir) as [Hn <-].
  { unfold fair_event in He. simpl in He. bools. by apply String.eqb_eq in H1. }
  destruct (IH (clock e) (step g0 e ev m)) as (now' & ? & ?); [done| |exists now'; split; [lia|done]].
  eapply inv_step; try done. by intros dir' <-.
Qed.

End Invariant.

(** ** The guard the configuration builds *)

Lemma new_guard_fresh prefix env cfg lbl :
  let g := new_guard prefix env cfg lbl in
  fresh (g_set g) (maxPerWindow (g_ceiling g)) g ∧ g_paused g = false ∧
  0 < estSpendUsdCents (g_set g) ∧ 0 < maxSpendUsdCents (g_set g) ≤ HARD_CAP_USD_CENTS ∧ 0 < windowMs (g_set g) ∧
  0 ≤ maxPerWindow (g_ceiling g).
Proof.
  intros g. split; [by constructor|]. split; [done|]. unfold g, new_guard. cbn -[readInt parseInt Z.min].
  split_and!; try (case_match; bools; unfold HARD_CAP_USD_CENTS, DEFAULT_EST_SPEND_USD_CENTS, DEFAULT_WINDOW_MS in *; lia).
Qed.
