(* ===== verification/SpendProps.v ===== *)
(** * Properties of the spend guard

    The window budget over interleavings and restarts, refusal while the store
    fails, the pause, and the balance floor. *)

From Stdlib Require Import QArith_base.
From S2P Require Import Prelude SpendGuard SpendInv.
Open Scope Z_scope.

(** ** The budget *)

(** C15: whatever a hub process does with its guard - reservations, settlements,
    checks and pauses in any order, failed and torn writes, unreadable or
    corrupt state files, crashes and restarts - the spends it authorised and
    did not give back keep, in every window of the configured length, to the
    cost ceiling, which no configuration raises above the hard cap, and to the
    count ceiling when one is set. The clock must not step back, the hub must
    restart in the same directory, and no invoice may exceed the cost its
    reservation was made at. *)
Theorem window_budget_never_exceeded prefix env cfg lbl e0 d l :
  let g0 := new_guard prefix env cfg lbl in
  fair g0 (clock e0) (cwd e0) l (start e0 g0 d) = true →
  let spent := ledger (runs g0 l (start e0 g0 d)) in
  (∀ a, sumZ (cost_in a (a + windowMs (g_set g0))) spent ≤ maxSpendUsdCents (g_set g0) ≤ HARD_CAP_USD_CENTS) ∧
  (0 < maxPerWindow (g_ceiling g0) → ∀ a, sumZ (one_in a (a + windowMs (g_set g0))) spent ≤ maxPerWindow (g_ceiling g0)).
Proof.
  intros g0 Hfair spent. destruct (new_guard_fresh prefix env cfg lbl) as (Hfr & Hp & Hest & [Hmax Hcap] & Hwin & _).
  fold g0 in Hfr, Hp, Hest, Hmax, Hcap, Hwin. set (set := g_set g0) in *. set (mx := maxPerWindow (g_ceiling g0)) in *.
  set (path := resolve (cwd e0) (statePath set)).
  assert (Hstart : inv set mx path (clock e0) (start e0 g0 d)).
  { apply (inv_boot set mx path Hest Hmax e0 g0 [] d); try done.
    - constructor; try (intros s Hs; by apply elem_of_nil in Hs); [constructor|intros; rewrite sumZ_nil; lia..].
    - left. intros s Hs. by apply elem_of_nil in Hs. }
  destruct (inv_runs set mx path Hest Hmax g0 (clock e0) (cwd e0) l (start e0 g0 d)) as (now & _ & Hw & _); try done.
  split; [intros a; split; [apply Hw|done]|]. intros Hm a. by apply Hw.
Qed.

(** ** The store *)

(** A spend that cannot be written is not authorised: while the armed
    state file refuses writes a reservation returns nothing and leaves the cost
    window as the pruned one, and once a write has failed [check] and [allow]
    refuse too; the first write that lands lifts the refusal. *)
Theorem store_refusal e b cost w p err torn :
  armedPath (g_store (the w)) = Some p → (∀ s i, s ∈ g_spends (the w) → s_reservation s = Some i → i ≤ reserveSeq (the w)) →
  writing e = Throws err torn →
  ((reserve e cost w).2 = None ∧ g_spends (the (reserve e cost w).1) `sublist_of` g_spends (the w)) ∧
  (persistBroken (g_store (the w)) = true → (allow e cost w).2 = false ∧ (check_spend e b cost w).2 ≠ None) ∧
  (∀ e', writing e' = Lands → (storeUsable e' w).2 = true ∧
     (persistBroken (g_store (the (persist e' w).1)) = false)).
Proof.
  intros Hp Hids Hw. split; [|split].
  - unfold reserve. destruct (g_paused (the w)); [done|].
    assert (Hc : g_store (ceiling_allow e (the w)).1 = g_store (the w) ∧ g_spends (ceiling_allow e (the w)).1 = g_spends (the w) ∧
                 reserveSeq (ceiling_allow e (the w)).1 = reserveSeq (the w))
      by (unfold ceiling_allow; by destruct (c_allow _ _ _)).
    destruct (ceiling_allow e (the w)) as [g1 []]; cbn [fst] in Hc; cbv beta iota zeta delta [negb];
      destruct Hc as (E1 & E2 & E3); [|split; [done|simpl; by rewrite E2]].
    assert (Hb : g_store (budget_allows e cost g1).1 = g_store g1 ∧ reserveSeq (budget_allows e cost g1).1 = reserveSeq g1 ∧
                 g_spends (budget_allows e cost g1).1 `sublist_of` g_spends g1)
      by (split_and!; [done..|]; simpl; apply drop_old_suffix).
    destruct (budget_allows e cost g1) as [g2 []]; cbn [fst] in Hb; cbv beta iota zeta delta [negb];
      destruct Hb as (F1 & F2 & F3); [|split; [done|simpl; by rewrite <-E2]].
    destruct (c_reserve _ _ (g_ceiling g2)) as [cl handle]. unfold persist.
    cbn [the disk g_store with_spends with_reserveSeq with_ceiling]. rewrite F1, E1, Hp, Hw. split; [done|].
    simpl. rewrite E2 in F3. rewrite remove_first_fresh; [done| |done].
    intros (s & Hs & Hr)%elem_of_ids. rewrite F2, E3 in Hr.
    assert (s ∈ g_spends (the w)) as Hin by by eapply elem_of_sublist. specialize (Hids s _ Hin Hr). lia.
  - intros Hb. unfold allow, check_spend, storeUsable, persist. rewrite Hp, Hb, Hw.
    by destruct (g_paused (the w)).
  - intros e' He'. unfold storeUsable, persist. rewrite Hp, He'.
    destruct (persistBroken (g_store (the w))) eqn:Hb; simpl; [done|]. by rewrite ?Hb.
Qed.

(** ** The pause *)

(** The guard is paused, in memory and in its file. *)
Definition held (p : string) (w : world) : Prop :=
  g_paused (the w) = true ∧ armedPath (g_store (the w)) = Some p ∧
  ∃ es why, disk w !! p = Some (Saved es true why).

(** Conditions of the environment: the file stays readable and whole, and the
    hub restarts in the directory of its state file. *)
Definition sound_io (p : string) (g0 : guard) (e : io) : Prop :=
  readFault e = None ∧ (∀ err, writing e ≠ Throws err true) ∧ resolve (cwd e) (statePath (g_set g0)) = p.

Lemma held_persist p e w : (∀ err, writing e ≠ Throws err true) → held p w → held p (persist e w).1.
Proof.
  intros He (Hp & Ha & es & why & Hd). unfold persist. rewrite Ha.
  destruct (writing e) as [|err []]; simpl; [|by destruct (He err)|].
  - split_and!; [done|simpl; by destruct (persistBroken _)|]. simpl. rewrite lookup_insert_eq. unfold saved_window. rewrite Hp. eauto.
  - split_and!; [done..|]. eauto.
Qed.

Lemma restore_keeps now es g :
  g_paused (foldl (restore_one now) g es) = g_paused g ∧ g_store (foldl (restore_one now) g es) = g_store g.
Proof.
  revert g. induction es as [|r es IH]; intros g; [done|]. cbn [foldl].
  destruct (IH (restore_one now g r)) as [-> ->]. unfold restore_one. by destruct (restore_entry _ _ _).
Qed.

Lemma held_boot p e g0 w : sound_io p g0 e → held p w → held p (boot e g0 (disk w)).
Proof.
  intros (Hr & He & Hres) (Hp & Ha & es & why & Hd). unfold boot, persistTo. cbn [the disk].
  change (default (statePath (g_set g0)) (truthy_or None None)) with (statePath (g_set g0)). rewrite Hres.
  unfold loadState. rewrite Hr, Hd. set (g1 := with_store _ g0). set (g2 := restorePause true why g1).
  assert (Hg2 : g_paused g2 = true ∧ armedPath (g_store g2) = Some p)
    by (unfold g2, restorePause; destruct (g_paused g1) eqn:E; simpl; done).
  destruct (restore_keeps (clock e) es g2) as [E1 E2].
  assert (Hh : held p (World (with_spends (isort earlier (g_spends (foldl (restore_one (clock e)) g2 es)))
                               (foldl (restore_one (clock e)) g2 es)) (disk w))).
  { split_and!; cbn [the disk with_spends g_paused g_store]; [rewrite E1; apply Hg2|rewrite E2; apply Hg2|eauto]. }
  pose proof (proj1 Hh) as E3. cbn [the] in E3. cbv zeta. cbn [the]. rewrite E3. by apply held_persist.
Qed.

Lemma held_step p g0 e ev m :
  sound_io p g0 e → ev ≠ EResume → held p (m_world m) →
  held p (m_world (step g0 e ev m)) ∧ (length (ledger (step g0 e ev m)) ≤ length (ledger m))%nat.
Proof.
  intros Hio Hev Hh. pose proof Hh as (Hp & Ha & Hd). destruct Hio as (Hr & He & Hres).
  destruct ev as [cost|id actual|id|b cost|cost| |why| |]; cbn [step].
  - unfold reserve. rewrite Hp. simpl. split; [exact (conj Hp (conj Ha Hd))|done].
  - destruct (m_tokens m !! id) as [t|]; [|done]. unfold commit, reprice. destruct actual as [c|]; [|done].
    destruct (c <=? 0); [done|].
    assert (Hl : length (set_cost id c (ledger m)) = length (ledger m)).
    { generalize (ledger m). intros l. induction l as [|s l IH]; simpl; [done|]. destruct (has_reservation id s); simpl; congruence. }
    destruct (existsb _ _); cbn [m_world ledger]; rewrite Hl; [|done]. split; [|done]. by apply held_persist.
  - destruct (m_tokens m !! id) as [t|]; [|done]. unfold release. destruct (settled t); [done|].
    cbn [m_world ledger fst]. split; [by apply held_persist|]. apply sublist_length, remove_first_sublist.
  - unfold check_spend. rewrite Hp. split; [exact (conj Hp (conj Ha Hd))|done].
  - unfold allow. rewrite Hp. done.
  - unfold noteBlocked. rewrite Hp. done.
  - split; [|done]. by apply held_persist.
  - done.
  - cbn [m_world ledger]. split; [by apply held_boot|]. by rewrite length_map.
Qed.

(** A pause that reported itself durable halts the effector until it is
    resumed, over any number of restarts: while no resume runs and the state
    file stays readable, no reservation is granted, the authorised spends never
    grow, and [check] and [allow] refuse. *)
Theorem pause_outlives_restarts prefix env cfg lbl p e why m l e' b cost :
  let g0 := new_guard prefix env cfg lbl in
  armedPath (g_store (the (m_world m))) = Some p → (pause e why (m_world m)).2 = true →
  (∀ x, x ∈ l → sound_io p g0 x.1 ∧ x.2 ≠ EResume) →
  let m' := runs g0 l (step g0 e (EPause why) m) in
  (length (ledger m') ≤ length (ledger m))%nat ∧ (reserve e' cost (m_world m')).2 = None ∧
  (allow e' cost (m_world m')).2 = false ∧ (check_spend e' b cost (m_world m')).2 ≠ None.
Proof.
  intros g0 Ha Hok Hl m'.
  assert (Hh : held p (m_world (step g0 e (EPause why) m))).
  { revert Hok. cbn [step m_world]. unfold pause, persist. cbn [on_guard the with_pause g_store disk]. rewrite Ha.
    destruct (writing e); [|done]. intros _. split_and!; simpl; [done|by destruct (persistBroken _)|].
    rewrite lookup_insert_eq. unfold saved_window. simpl. eauto. }
  assert (Hm' : held p (m_world m') ∧ (length (ledger m') ≤ length (ledger m))%nat).
  { subst m'. assert (Hlen : (length (ledger (step g0 e (EPause why) m)) ≤ length (ledger m))%nat) by done.
    revert Hh Hlen. generalize (step g0 e (EPause why) m). induction l as [|[e1 ev] l IH]; intros m1 Hh Hlen; [done|].
    cbn [runs foldl]. destruct (Hl (e1, ev) (list_elem_of_here _ _)) as [Hio Hev].
    destruct (held_step p g0 e1 ev m1 Hio Hev Hh) as [Hh1 Hl1]. apply IH; [|done|by etrans]. intros x Hx. apply Hl. by right. }
  destruct Hm' as [(Hp & _) Hlen]. split; [done|]. unfold reserve, allow, check_spend. rewrite Hp. done.
Qed.

(** ** The balance floor *)

(** With every other gate open, [check] blocks a balance that could not be
    read ([null]) and a balance under the floor, and lets an absent one through;
    a balance that is not a number compares false with the floor and passes as
    well, although a balance nobody could read must not become a green light. *)
Theorem balance_gate e cost w :
  g_paused (the w) = false → (storeUsable e w).2 = true →
  (check_spend e NullBalance cost w).2 = Some BalanceUnreadable ∧
  (∀ q, Qle_bool (minBalance (g_set (the w))) q = false →
     (check_spend e (Balance (Some q)) cost w).2 = Some (BalanceBelowFloor (Some q))) ∧
  (∀ q, Qle_bool (minBalance (g_set (the w))) q = true →
     (check_spend e (Balance None) cost w) = (check_spend e (Balance (Some q)) cost w)).
Proof.
  intros Hp Hs. unfold check_spend. rewrite Hp. destruct (storeUsable e w) as [w1 ok]. cbn [snd fst] in *. subst ok.
  cbn [negb]. split_and!; [done|..]; intros q Hq; cbv beta iota zeta; unfold below; by rewrite Hq.
Qed.

(** ** Witnesses *)

Definition sample_io (now : Z) (w : written) : io := Io now "/srv/hub" None (λ _, Writable) w.

Definition sample_cfg : config := {[ "ATTEST_MAX_SPEND_USD_CENTS_PER_WINDOW" := "250"; "ATTEST_MAX_PUBLISHES_PER_WINDOW" := "2" ]}.

(** Two reservations, one with an invoice under its estimate, a third refused,
    a failed write, a crash, a refused spend after it, and room again once the
    window has passed. *)
Definition sample_trace : list (io * event) :=
  [(sample_io 1000 Lands, EReserve (Some 150)); (sample_io 1010 Lands, EReserve (Some 100));
   (sample_io 1020 Lands, EReserve (Some 100)); (sample_io 1030 Lands, ECommit 1 (Some 120));
   (sample_io 1040 (Throws "ENOSPC" false), ERelease 2); (sample_io 2000 Lands, ERestart);
   (sample_io 2010 Lands, EReserve None); (sample_io 3601005 Lands, EReserve (Some 100))].

Abbreviation sample_guard := (new_guard "ATTEST" ∅ sample_cfg None).

Lemma window_budget_never_exceeded_witness :
  let m := runs sample_guard sample_trace (start (sample_io 900 Lands) sample_guard ∅) in
  map (λ s, (s_t s, s_cost s)) (ledger m) = [(1000, 120); (3601005, 100)] ∧
  ∀ a, sumZ (cost_in a (a + 3600000)) (ledger m) ≤ 250.
Proof.
  split; [vm_compute; reflexivity|]. intros a.
  assert (Hf : fair sample_guard 900 "/srv/hub" sample_trace (start (sample_io 900 Lands) sample_guard ∅) = true)
    by (vm_compute; reflexivity).
  exact (proj1 (proj1 (window_budget_never_exceeded "ATTEST" ∅ sample_cfg None (sample_io 900 Lands) ∅ sample_trace Hf) a)).
Defined.

Definition sample_world : world := boot (sample_io 900 Lands) sample_guard ∅.

Lemma store_refusal_witness :
  (reserve (sample_io 950 (Throws "EROFS" false)) None sample_world).2 = None ∧
  (reserve (sample_io 950 Lands) None sample_world).2 = Some (Token 1 (Some 950) false).
Proof.
  split; [|vm_compute; reflexivity].
  apply (store_refusal (sample_io 950 (Throws "EROFS" false)) NoBalance None sample_world
           "/srv/hub/data/spend-state/ATTEST.json" "EROFS" false); [vm_compute; reflexivity| |reflexivity].
  intros s i Hs. exfalso. revert Hs. vm_compute. by intros ?%elem_of_nil.
Defined.

Lemma pause_outlives_restarts_witness :
  let m := Machine sample_world ∅ [] in
  let l := [(sample_io 1000 Lands, ERestart); (sample_io 1010 (Throws "EROFS" false), EReserve None)] in
  (reserve (sample_io 1020 Lands) None
     (m_world (runs sample_guard l (step sample_guard (sample_io 960 Lands) (EPause (Some "maintenance")) m)))).2 = None.
Proof.
  intros m l.
  refine (proj1 (proj2 (pause_outlives_restarts "ATTEST" ∅ sample_cfg None "/srv/hub/data/spend-state/ATTEST.json"
    (sample_io 960 Lands) (Some "maintenance") m l (sample_io 1020 Lands) NoBalance None _ _ _))).
  - vm_compute; reflexivity.
  - vm_compute; reflexivity.
  - intros x [->|[->|[]%elem_of_nil]%elem_of_cons]%elem_of_cons; (split; [split_and!; [done|done|vm_compute; reflexivity]|done]).
Defined.

Lemma balance_gate_witness :
  (check_spend (sample_io 950 Lands) NullBalance None sample_world).2 = Some BalanceUnreadable ∧
  (check_spend (sample_io 950 Lands) (Balance None) None sample_world).2 = None.
Proof.
  destruct (balance_gate (sample_io 950 Lands) None sample_world) as (H1 & _ & H3);
    [vm_compute; reflexivity|vm_compute; reflexivity|]. split; [done|].
  rewrite (H3 1%Q ltac:(vm_compute; reflexivity)). vm_compute. reflexivity.
Defined.
