(* ===== verification/GuardedSend.v ===== *)
(** * Sending at most once, behind the spend guard

    [src/lib/guards/idempotent_broadcast.js]: the classification of a failed
    broadcast, the at-most-once key set with its publishers' deletions, and
    [broadcastOnce], split where it awaits the send. *)

From S2P Require Import Prelude SpendGuard.
Open Scope Z_scope.

(** ** The errors of a send *)

(** What the classifiers read of an error: [rpcCode] and [status] are [Number]s
    ([None] for NaN), the outer option of [status] is a missing response. *)
Record senderror := SendError {
  fundsCommitted : bool; neverSent : bool; rpcCode : option Z; rpcReason : option string;
  status : option (option Z); message : string; code : string }.

Definition ENCODER_TRANSPORT_FALLBACK : string := "Transaction broadcast failed".
Definition TX_ALREADY_IN_CHAIN : string := "TX_ALREADY_IN_CHAIN".
Definition NODE_REJECTED_CODE : Z := -32010.
Definition NODE_REJECTED : string := "NODE_REJECTED".

Definition below500 (e : senderror) : bool :=
  match status e with Some (Some n) => n <? 500 | _ => false end.
Definition from500 (e : senderror) : bool :=
  match status e with Some (Some n) => 500 <=? n | _ => false end.

Definition isAlreadyKnownTx (e : senderror) : bool :=
  bool_decide (rpcReason e = Some TX_ALREADY_IN_CHAIN).

Definition isNodeRejectedTx (e : senderror) : bool :=
  if negb (bool_decide (rpcCode e = Some NODE_REJECTED_CODE)) then false
  else if negb (bool_decide (rpcReason e = Some NODE_REJECTED)) then false
  else negb (from500 e).

Definition never_connected (e : senderror) : bool :=
  String.eqb (code e) "ECONNREFUSED" || String.eqb (code e) "ENOTFOUND" || String.eqb (code e) "EAI_AGAIN".

Definition isAmbiguousSendError (err : option senderror) : bool :=
  match err with
  | None => false
  | Some e =>
      if fundsCommitted e then true
      else if isAlreadyKnownTx e then true
      else if neverSent e then false
      else if isNodeRejectedTx e then false
      else if String.eqb (message e) ("Encoder RPC error: " +:+ ENCODER_TRANSPORT_FALLBACK) && negb (below500 e) then true
      else if bool_decide (is_Some (strip_prefix "Encoder RPC error" (message e))) then false
      else if below500 e then false
      else negb (never_connected e)
  end.

Definition isNeverSentError (err : option senderror) : bool :=
  match err with
  | None => false
  | Some e =>
      if fundsCommitted e then false
      else if isAlreadyKnownTx e then false
      else if neverSent e then true
      else if below500 e then true
      else never_connected e
  end.

(** ** [AtMostOnce]

    Its [_seen]; [keys()], an enumeration, is left out. *)
Definition has (key : string) (T : gset string) : bool := bool_decide (key ∈ T).
Definition mark (key : string) (T : gset string) : gset string := {[key]} ∪ T.
Definition unmark (key : string) (T : gset string) : gset string := T ∖ {[key]}.    (** [delete] *)
Definition clear (T : gset string) : gset string := ∅.

(** ** [broadcastOnce] *)

(** The tracker's keys and the guard, each optional. *)
Record sender := Sender { tracker : option (gset string); spendguard : option world }.

Inductive begun :=
| Skipped (duplicate : bool) (why : option reason)
| Sending (t : option token).

Definition seen (key : option string) (s : sender) : bool :=
  match key, tracker s with Some k, Some T => has k T | _, _ => false end.

(** Up to [await send()]. *)
Definition broadcast_begin (e : io) (key : option string) (b : balance) (cost : option Z) (s : sender) : sender * begun :=
  if seen key s then (s, Skipped true None)
  else
    match spendguard s with
    | None => (s, Sending None)
    | Some w =>
        match check_spend e b cost w with
        | (w, Some why) => (Sender (tracker s) (Some w), Skipped false (Some why))
        | (w, None) =>
            match reserve e cost w with
            | (w, None) => let '(w, why) := noteBlocked e w in (Sender (tracker s) (Some w), Skipped false (Some why))
            | (w, Some t) => (Sender (tracker s) (Some w), Sending (Some t))
            end
        end
    end.

Definition mark_sent (key : option string) (T : option (gset string)) : option (gset string) :=
  match key with Some k => mark k <$> T | None => T end.

Definition settle_guard (op : token → world → world * token) (t : option token) (g : option world) : option world :=
  match t, g with Some t, Some w => Some (op t w).1 | _, _ => g end.

(** From the answer of [send()] on: [None] for a result, [Some e] for a throw. *)
Definition broadcast_finish (e : io) (key : option string) (t : option token) (err : option senderror) (s : sender) : sender :=
  match err with
  | None => Sender (mark_sent key (tracker s)) (settle_guard (λ t, commit e t None) t (spendguard s))
  | Some _ =>
      Sender (tracker s)
        (settle_guard (if isAmbiguousSendError err then λ t, commit e t None else release e) t (spendguard s))
  end.

(** ** Interleavings

    Any number of calls in flight: [Begin] runs one up to its send and queues it,
    [Finish i] answers the [i]-th call. The publishers that share the key set change
    it too: they mark a key they sent themselves, delete one that a retraction made
    unsent, and clear the set once no sent work is left on their queue file. *)
Inductive call :=
| Begin (key : option string) (b : balance) (cost : option Z)
| Finish (i : nat) (err : option senderror)
| Mark (key : string)
| Delete (key : string)
| Clear.

Record calls := Calls { c_sender : sender; c_sent : list (option string * option token) }.

Definition on_tracker (f : gset string → gset string) (s : sender) : sender := Sender (f <$> tracker s) (spendguard s).

Definition call_step (x : io * call) (c : calls) : calls :=
  match x.2 with
  | Begin key b cost =>
      match broadcast_begin x.1 key b cost (c_sender c) with
      | (s, Sending t) => Calls s (c_sent c ++ [(key, t)])
      | (s, Skipped _ _) => Calls s (c_sent c)
      end
  | Finish i err =>
      match c_sent c !! i with
      | None => c
      | Some (key, t) => Calls (broadcast_finish x.1 key t err (c_sender c)) (c_sent c)
      end
  | Mark k => Calls (on_tracker (mark k) (c_sender c)) (c_sent c)
  | Delete k => Calls (on_tracker (unmark k) (c_sender c)) (c_sent c)
  | Clear => Calls (on_tracker clear (c_sender c)) (c_sent c)
  end.

Definition call_runs (l : list (io * call)) (c : calls) : calls := foldl (λ c x, call_step x c) c l.

(** An event that makes a key unsent again. *)
Definition unsends (k : string) (ev : call) : bool :=
  match ev with Delete k' => String.eqb k k' | Clear => true | _ => false end.

(** ** Properties *)

(** An error that proves the transaction never left the process is
    definitive, so that its budget goes back and a retry is safe, with one
    exception: a never-connected error without a refusing response that carries
    the encoder's transport fallback text is classified ambiguous, although
    [isNeverSentError] is documented as a strict subset of the definitive
    errors. *)
Theorem never_sent_is_definitive err :
  isNeverSentError (Some err) = true →
  isAmbiguousSendError (Some err) =
    negb (neverSent err) && negb (below500 err) && negb (isNodeRejectedTx err) &&
    String.eqb (message err) ("Encoder RPC error: " +:+ ENCODER_TRANSPORT_FALLBACK).
Proof.
  unfold isNeverSentError, isAmbiguousSendError.
  destruct (fundsCommitted err); [done|]. destruct (isAlreadyKnownTx err); [done|].
  destruct (neverSent err); [done|]. destruct (isNodeRejectedTx err); [by rewrite !andb_false_r|].
  destruct (below500 err); simpl.
  - intros _. rewrite andb_false_r. by destruct (bool_decide _).
  - intros Hn. rewrite andb_true_r. destruct (String.eqb (message err) _) eqn:E; [done|].
    rewrite Hn. by destruct (bool_decide _).
Qed.

Lemma tracker_begin e key b cost s : tracker (broadcast_begin e key b cost s).1 = tracker s.
Proof.
  unfold broadcast_begin. destruct (seen key s); [done|]. destruct (spendguard s) as [w|]; [|done].
  destruct (check_spend e b cost w) as [w1 [r|]]; [done|]. destruct (reserve e cost w1) as [w2 [t|]]; [done|].
  by destruct (noteBlocked e w2).
Qed.

(** A key stays marked until it is deleted or the set is cleared. *)
Lemma tracker_keeps l c k T :
  Forall (λ x : io * call, unsends k x.2 = false) l → tracker (c_sender c) = Some T → k ∈ T →
  ∃ T', tracker (c_sender (call_runs l c)) = Some T' ∧ k ∈ T'.
Proof.
  intros Hl. revert c T. induction Hl as [|[e ev] l Hev _ IH]; intros c T HT Hk; [eauto|].
  assert (Hs : ∃ T1, tracker (c_sender (call_step (e, ev) c)) = Some T1 ∧ k ∈ T1).
  { destruct ev as [key b cost|i err|k'|k'|]; unfold call_step; cbn [fst snd c_sender on_tracker tracker] in *; rewrite ?HT.
    - pose proof (tracker_begin e key b cost (c_sender c)) as E. rewrite HT in E.
      destruct (broadcast_begin _ _ _ _ _) as [s [d r|t]]; cbn [fst] in E; by exists T.
    - destruct (c_sent c !! i) as [[key t]|]; [|eauto]. destruct err; cbn [c_sender broadcast_finish tracker]; [eauto|].
      rewrite HT. destruct key as [k'|]; [|by exists T]. eexists. split; [done|]. unfold mark. set_solver.
    - eexists. split; [done|]. unfold mark. set_solver.
    - eexists. split; [done|]. cbn in Hev. apply String.eqb_neq in Hev. unfold unmark. set_solver.
    - done. }
  destruct Hs as (T1 & HT1 & Hk1). exact (IH _ _ HT1 Hk1).
Qed.

(** C33: once a send of a key has been answered with success, no later call with
    that key sends again until a publisher deletes the key or clears the set: whatever
    other calls are in flight, the call is skipped as a duplicate and consumes no
    budget. (Calls that began before the answer are not held back: the key is marked
    by the answer.) A key that was deleted, or any key of a set that was cleared,
    is sent again: its next call is no duplicate. *)
Theorem sent_key_never_resent c i k t T e l e' b cost :
  tracker (c_sender c) = Some T → c_sent c !! i = Some (Some k, t) → Forall (λ x : io * call, unsends k x.2 = false) l →
  let c' := call_runs l (call_step (e, Finish i None) c) in
  broadcast_begin e' (Some k) b cost (c_sender c') = (c_sender c', Skipped true None) ∧
  c_sent (call_step (e', Begin (Some k) b cost) c') = c_sent c' ∧
  ∀ ev, unsends k ev = true → seen (Some k) (c_sender (call_step (e', ev) c')) = false.
Proof.
  intros HT Hi Hl c'.
  assert (H1 : tracker (c_sender (call_step (e, Finish i None) c)) = Some (mark k T)) by (unfold call_step; cbn [snd]; rewrite Hi; simpl; by rewrite HT).
  destruct (tracker_keeps l _ k _ Hl H1) as (T' & HT' & Hk); [unfold mark; set_solver|]. fold c' in HT'.
  assert (Hb : broadcast_begin e' (Some k) b cost (c_sender c') = (c_sender c', Skipped true None)).
  { unfold broadcast_begin, seen, has. rewrite HT'. by rewrite bool_decide_true. }
  split_and!; [done|unfold call_step; cbn [fst snd]; by rewrite Hb|].
  intros [| | |k'|]; try done; unfold call_step, seen, has; cbn [snd c_sender on_tracker tracker]; rewrite HT'; cbn.
  - intros ->%String.eqb_eq. apply bool_decide_false. unfold unmark. set_solver.
  - done.
Qed.

(** ** Witnesses *)

Definition refused_reveal : senderror :=
  SendError false false None None None "Encoder RPC error: Transaction broadcast failed" "ECONNREFUSED".

Lemma never_sent_is_definitive_witness :
  isNeverSentError (Some refused_reveal) = true ∧ isAmbiguousSendError (Some refused_reveal) = true.
Proof. split; [reflexivity|]. rewrite (never_sent_is_definitive refused_reveal eq_refl). reflexivity. Defined.

Definition idle_io : io := Io 1000 "/srv/hub" None (λ _, Writable) Lands.

(** Two calls with one key begun before either is answered both send. *)
Definition two_calls : calls :=
  call_runs [(idle_io, Begin (Some "r1") NoBalance None); (idle_io, Begin (Some "r1") NoBalance None)]
    (Calls (Sender (Some ∅) None) []).

(** After the first is answered, a third waits for the deletion of its key. *)
Lemma sent_key_never_resent_witness :
  let c := call_step (idle_io, Mark "r2") (call_step (idle_io, Finish 0 None) two_calls) in
  c_sent (call_step (idle_io, Begin (Some "r1") NoBalance None) c) = [(Some "r1", None); (Some "r1", None)] ∧
  seen (Some "r1") (c_sender (call_step (idle_io, Delete "r1") c)) = false.
Proof.
  destruct (sent_key_never_resent two_calls 0 "r1" None ∅ idle_io [(idle_io, Mark "r2")] idle_io NoBalance None) as (_ & H2 & H3).
  - reflexivity.
  - reflexivity.
  - repeat constructor.
  - split; [exact H2|]. apply (H3 (Delete "r1")). reflexivity.
Defined.
