(* ===== verification/Base64.v ===== *)
(** * Base64 and CRC-32

    The byte codecs of [src/lib/attest_batch_wire/primitives.js]: the canonical
    base64 decode over [Buffer]'s own codec, and the checksum in the form the
    source spells out for runtimes without [zlib.crc32]. A buffer is the string
    of its bytes. *)

From S2P Require Import Prelude.
Open Scope Z_scope.

(** ** The codec of [Buffer] *)

(** Six bits, the most significant first. *)
Inductive sextet := Sextet (b5 b4 b3 b2 b1 b0 : bool).

Definition sextet_N (x : sextet) : nat :=
  let '(Sextet b5 b4 b3 b2 b1 b0) := x in
  (32 * Nat.b2n b5 + 16 * Nat.b2n b4 + 8 * Nat.b2n b3 + 4 * Nat.b2n b2 + 2 * Nat.b2n b1 + Nat.b2n b0)%nat.

Definition b64_char (x : sextet) : ascii :=
  let n := sextet_N x in
  Ascii.ascii_of_nat
    (if (n <? 26)%nat then 65 + n else if (n <? 52)%nat then 71 + n else if (n <? 62)%nat then n - 4
     else if (n =? 62)%nat then 43 else 47).

Definition nat_sextet (n : nat) : sextet :=
  let bit k := Nat.testbit n k in (Sextet (bit 5) (bit 4) (bit 3) (bit 2) (bit 1) (bit 0))%nat.

(** The value of a character of the alphabet. *)
Definition b64_value (c : ascii) : option sextet :=
  let n := Ascii.nat_of_ascii c in
  nat_sextet <$>
    (if (65 <=? n)%nat && (n <=? 90)%nat then Some (n - 65)
     else if (97 <=? n)%nat && (n <=? 122)%nat then Some (n - 71)
     else if (48 <=? n)%nat && (n <=? 57)%nat then Some (n + 4)
     else if (n =? 43)%nat then Some 62
     else if (n =? 47)%nat then Some 63 else None)%nat.

Definition pad : ascii := "="%char.

(** [buf.toString('base64')]. *)
Fixpoint to_base64 (s : string) : string :=
  match s with
  | EmptyString => EmptyString
  | String (Ascii.Ascii a0 a1 a2 a3 a4 a5 a6 a7) r =>
      String (b64_char (Sextet a7 a6 a5 a4 a3 a2))
      match r with
      | EmptyString =>
          String (b64_char (Sextet a1 a0 false false false false)) (String pad (String pad EmptyString))
      | String (Ascii.Ascii b0 b1 b2 b3 b4 b5 b6 b7) r =>
          String (b64_char (Sextet a1 a0 b7 b6 b5 b4))
          match r with
          | EmptyString => String (b64_char (Sextet b3 b2 b1 b0 false false)) (String pad EmptyString)
          | String (Ascii.Ascii c0 c1 c2 c3 c4 c5 c6 c7) r =>
              String (b64_char (Sextet b3 b2 b1 b0 c7 c6))
                (String (b64_char (Sextet c5 c4 c3 c2 c1 c0)) (to_base64 r))
          end
      end
  end.

(** [Buffer.from(field, 'base64')] of a text of whole quanta over the alphabet
    with its padding at the end; the bits a short last quantum has to spare are
    dropped. *)
Fixpoint from_base64 (s : string) : string :=
  match s with
  | String c1 (String c2 (String c3 (String c4 r))) =>
      match b64_value c1, b64_value c2 with
      | Some (Sextet a7 a6 a5 a4 a3 a2), Some (Sextet a1 a0 b7 b6 b5 b4) =>
          String (Ascii.Ascii a0 a1 a2 a3 a4 a5 a6 a7)
          match b64_value c3 with
          | None => EmptyString
          | Some (Sextet b3 b2 b1 b0 c7 c6) =>
              String (Ascii.Ascii b0 b1 b2 b3 b4 b5 b6 b7)
              match b64_value c4 with
              | None => EmptyString
              | Some (Sextet c5 c4 c3 c2 c1 c0) => String (Ascii.Ascii c0 c1 c2 c3 c4 c5 c6 c7) (from_base64 r)
              end
          end
      | _, _ => EmptyString
      end
  | _ => EmptyString
  end.

(** ** The canonical decode *)

Definition is_b64 (c : ascii) : bool := match b64_value c with Some _ => true | None => false end.

(** [/^[A-Za-z0-9+/]+={0,2}$/]. *)
Fixpoint canonical_tail (s : string) : bool :=
  match s with
  | EmptyString => true
  | String c r =>
      if is_b64 c then canonical_tail r else String.eqb s "=" || String.eqb s "=="
  end.

Definition CANONICAL_BASE64 (s : string) : bool :=
  match s with String c _ => is_b64 c && canonical_tail s | EmptyString => false end.

Definition decodeCanonicalBase64 (field : string) : option string :=
  if String.eqb field "" then None
  else if negb (String.length field mod 4 =? 0)%nat then None
  else if negb (CANONICAL_BASE64 field) then None
  else
    let buf := from_base64 field in
    if String.eqb buf "" then None
    else if negb (String.eqb (to_base64 buf) field) then None
    else Some buf.

(** ** CRC-32 *)

Fixpoint crc_rounds (k : nat) (c : Z) : Z :=
  match k with
  | O => c
  | S k => crc_rounds k (if Z.testbit c 0 then Z.lxor 3988292384 (Z.shiftr c 1) else Z.shiftr c 1)
  end.

Fixpoint crc_bytes (crc : Z) (buf : string) : Z :=
  match buf with
  | EmptyString => crc
  | String b r =>
      let c := crc_rounds 8 (Z.land (Z.lxor crc (Z.of_N (Ascii.N_of_ascii b))) 255) in
      crc_bytes (Z.lxor (Z.shiftr crc 8) c) r
  end.

Definition crc32 (buf : string) : Z := Z.lxor (crc_bytes 4294967295 buf) 4294967295.

Definition hex_lower (n : Z) : ascii := Ascii.ascii_of_N (Z.to_N (if n <? 10 then 48 + n else 87 + n)).

(** [n.toString(16).padStart(8, '0')] of a 32-bit number. *)
Fixpoint hex_fixed (w : nat) (n : Z) (s : string) : string :=
  match w with
  | O => s
  | S w => hex_fixed w (Z.shiftr n 4) (String (hex_lower (Z.land n 15)) s)
  end.

Definition crc32Hex (buf : string) : string := hex_fixed 8 (crc32 buf) EmptyString.

(** The check value of the polynomial. *)
Example crc32_check : crc32Hex "123456789" = "cbf43926"%string.
Proof. reflexivity. Qed.

(** ** Properties *)

Lemma b64_value_char x : b64_value (b64_char x) = Some x.
Proof. by destruct x as [[] [] [] [] [] []]. Qed.

Lemma b64_value_pad : b64_value pad = None.
Proof. done. Qed.

(** Induction by three bytes. *)
Lemma bytes_ind (P : string → Prop) :
  P EmptyString → (∀ a, P (String a EmptyString)) → (∀ a b, P (String a (String b EmptyString))) →
  (∀ a b c r, P r → P (String a (String b (String c r)))) → ∀ s, P s.
Proof.
  intros H0 H1 H2 H3. fix IH 1. intros [|a [|b [|c r]]]; [apply H0|apply H1|apply H2|apply H3, IH].
Qed.

Lemma from_to_base64 s : from_base64 (to_base64 s) = s.
Proof.
  induction s as [|a|a b|a b c r IH] using bytes_ind; [done|..];
    destruct a as [a0 a1 a2 a3 a4 a5 a6 a7]; try destruct b as [b0 b1 b2 b3 b4 b5 b6 b7];
    try destruct c as [c0 c1 c2 c3 c4 c5 c6 c7]; cbn [to_base64 from_base64];
    rewrite !b64_value_char, ?b64_value_pad; [done..|]. by rewrite IH.
Qed.

Lemma is_b64_char x : is_b64 (b64_char x) = true.
Proof. unfold is_b64. by rewrite b64_value_char. Qed.

Lemma to_base64_tail s : canonical_tail (to_base64 s) = true.
Proof.
  induction s as [|a|a b|a b c r IH] using bytes_ind; [done|..];
    destruct a as [a0 a1 a2 a3 a4 a5 a6 a7]; try destruct b as [b0 b1 b2 b3 b4 b5 b6 b7];
    try destruct c as [c0 c1 c2 c3 c4 c5 c6 c7]; cbn [to_base64 canonical_tail]; rewrite !is_b64_char; [done..|]. done.
Qed.

Lemma to_base64_canonical s : s ≠ EmptyString → CANONICAL_BASE64 (to_base64 s) = true.
Proof.
  intros Hs. pose proof (to_base64_tail s) as Ht. destruct s as [|[a0 a1 a2 a3 a4 a5 a6 a7] r]; [done|].
  cbn [to_base64] in *. unfold CANONICAL_BASE64. by rewrite Ht, is_b64_char.
Qed.

Lemma length_to_base64 s : String.length (to_base64 s) = (4 * ((String.length s + 2) / 3))%nat.
Proof.
  induction s as [|a|a b|a b c r IH] using bytes_ind; try (by repeat match goal with x : ascii |- _ => destruct x end).
  destruct a, b, c. cbn [to_base64 String.length]. rewrite IH.
  replace (S (S (S (String.length r))) + 2)%nat with ((String.length r + 2) + 1 * 3)%nat by lia.
  rewrite Nat.div_add by lia. lia.
Qed.
