(* ===== verification/AttestWire.v ===== *)
(** * The attestation batch wire

    [src/lib/attest_batch_wire.js] and its parts
    [attest_batch_wire/{constants,primitives,parse,reassemble}.js]: a window of
    attestation rows encoded as one head wire and its continuations, the two
    structural parsers, chunk coverage, and reassembly under the consensus caps.
    SHA-256, raw DEFLATE and the admission-era predicate are not in these files:
    the first and the last are arguments, DEFLATE is the class [Zlib]. A string
    is its UTF-8 bytes. *)

From stdpp Require Import pretty.
From S2P Require Import Prelude BigNum Json Base64.
Open Scope Z_scope.

(** ** Constants and refusals *)

Definition ATTEST_BATCH_WIRE_MAX_BYTES : Z := 8189.
Definition ATTEST_BATCH_MAX_INFLATED_BYTES : Z := 1048576.
Definition ATTEST_BATCH_MAX_ROWS : Z := 256.
Definition ATTEST_BATCH_MAX_CHUNKS : Z := 256.
Definition ATTEST_BATCH_MAX_INFLATE_RATIO : Z := 150.

Definition ATTEST_BATCH_LEGACY_ROW_FIELDS : list string :=
  ["network"; "request_id"; "request_action_index"; "request_block_index"; "provider_id"; "status";
   "response_payload"; "response_hash"; "meta"; "effective_time"; "signer_pubkeys"; "signatures"; "widen"].

Definition ATTEST_BATCH_ADMISSION_ROW_FIELDS : list string :=
  ["network"; "request_id"; "request_action_index"; "request_block_index"; "provider_id"; "status";
   "response_payload"; "response_hash"; "meta"; "effective_time"; "admit_block_btc"; "signer_pubkeys";
   "signatures"; "widen"].

Inductive FAIL :=
| STRUCTURE | BATCH_KEY | CRC_FORMAT | CHUNK_INDEX | TOTAL_CHUNKS | COVERAGE | BASE64 | RATIO_CAP
| SIZE_CAP | INFLATE | NOT_UTF8 | CRC_MISMATCH | BODY_JSON | ROW_COUNT | ROW_FIELD | OVERSIZE.

Definition reason_text (f : FAIL) : string :=
  match f with
  | STRUCTURE => "structure" | BATCH_KEY => "batch-key" | CRC_FORMAT => "crc32-format"
  | CHUNK_INDEX => "chunk-index" | TOTAL_CHUNKS => "total-chunks" | COVERAGE => "chunk-coverage"
  | BASE64 => "non-canonical-base64" | RATIO_CAP => "ratio-cap" | SIZE_CAP => "size-cap"
  | INFLATE => "inflate-failed" | NOT_UTF8 => "non-utf8" | CRC_MISMATCH => "crc32-mismatch"
  | BODY_JSON => "body-json" | ROW_COUNT => "row-count" | ROW_FIELD => "row-field" | OVERSIZE => "oversize-body"
  end.

(** The status a refusal is recorded under. *)
Definition fail_status (f : FAIL) : string := "invalid: ATTEST_BATCH (" +:+ reason_text f +:+ ")".

Definition len (s : string) : Z := Z.of_nat (String.length s).

Definition is_hex (c : ascii) : bool :=
  let n := Ascii.N_of_ascii c in is_digit c || ((97 <=? n)%N && (n <=? 102)%N).

Definition HEX64 (s : string) : bool := (len s =? 64) && all_chars is_hex s.
Definition HEX128 (s : string) : bool := (len s =? 128) && all_chars is_hex s.
Definition CRC_RE (s : string) : bool := (len s =? 8) && all_chars is_hex s.
Definition UINT (s : string) : bool := integer_part s && all_chars is_digit s.

(** ** DEFLATE *)

(** [inflateRawSync] with a [maxOutputLength]: the bytes, [ERR_BUFFER_TOO_LARGE],
    or a data error. *)
Inductive inflated := Inflated (bytes : string) | TooLarge | BadData.

Class Zlib := { deflateRaw : string → string; inflateRaw : string → Z → inflated }.

Class ZlibLaws (Z0 : Zlib) : Prop := {
  inflate_deflate : ∀ s cap, inflateRaw (deflateRaw s) cap = if len s <=? cap then Inflated s else TooLarge;
  deflate_nonempty : ∀ s, deflateRaw s ≠ EmptyString }.

(** ** JavaScript conversions of JSON values *)

Definition json_truthy (v : json) : bool :=
  match v with
  | JNull => false | JBool b => b | JNum m _ => negb (m =? 0) | JStr s => negb (String.eqb s "") | _ => true
  end.

(** [String(v)], of [undefined] too. Numerals print as they are spelled. *)
Fixpoint json_String (v : json) : string :=
  match v with
  | JNull => "null" | JBool b => if b then "true" else "false"
  | JNum _ _ => stringify v | JStr s => s
  | JArr l => commas (map (λ x, match x with JNull => EmptyString | _ => json_String x end) l)
  | JObj _ => "[object Object]"
  end.

Definition opt_String (v : option json) : string := match v with Some v => json_String v | None => "undefined" end.

(** [Number(s)] of a decimal numeral: the mantissa and the exponent. *)
Definition string_Number (s : string) : option (Z * Z) :=
  let s := trim s in
  if String.eqb s "" then Some (0, 0)
  else
    let '(neg, t) := Decimal.strip_sign s in
    let '(ip, t) := Decimal.span_digits t in
    let '(fp, t) := match t with String "."%char r => Decimal.span_digits r | _ => (EmptyString, t) end in
    if String.eqb ip "" && String.eqb fp "" then None
    else match p_exponent t with
         | Some (x, EmptyString) =>
             let m := read_digits (read_digits 0 ip) fp in
             Some (if neg then - m else m, x - len fp)
         | _ => None
         end.

Definition json_Number (v : option json) : option (Z * Z) :=
  match v with
  | None => None
  | Some JNull => Some (0, 0)
  | Some (JBool b) => Some (if b then 1 else 0, 0)
  | Some (JNum m e) => Some (m, e)
  | Some v => string_Number (json_String v)
  end.

(** [Number(v) === n] for an integer [n]. *)
Definition number_is (v : option json) (n : Z) : bool :=
  match json_Number v with
  | None => false
  | Some (m, e) => if 0 <=? e then m * 10 ^ e =? n else m =? n * 10 ^ (- e)
  end.

(** [s.length]: the UTF-16 code units of a UTF-8 text. *)
Fixpoint js_length (s : string) : Z :=
  match s with
  | EmptyString => 0
  | String c r =>
      let n := Ascii.N_of_ascii c in
      (if (128 <=? n)%N && (n <? 192)%N then 0 else if (240 <=? n)%N then 2 else 1) + js_length r
  end.

(** The bytes decode as UTF-8 without replacement. *)
Definition continuation (lo hi : N) (c : ascii) : bool :=
  let n := Ascii.N_of_ascii c in (lo <=? n)%N && (n <=? hi)%N.

Fixpoint valid_utf8 (s : string) : bool :=
  match s with
  | EmptyString => true
  | String c r =>
      let n := Ascii.N_of_ascii c in
      if (n <? 128)%N then valid_utf8 r
      else if (194 <=? n)%N && (n <? 224)%N then
        match r with String c1 r => continuation 128 191 c1 && valid_utf8 r | _ => false end
      else if (224 <=? n)%N && (n <? 240)%N then
        match r with
        | String c1 (String c2 r) =>
            continuation (if (n =? 224)%N then 160 else 128) (if (n =? 237)%N then 159 else 191) c1 &&
            continuation 128 191 c2 && valid_utf8 r
        | _ => false
        end
      else if (240 <=? n)%N && (n <? 245)%N then
        match r with
        | String c1 (String c2 (String c3 r)) =>
            continuation (if (n =? 240)%N then 144 else 128) (if (n =? 244)%N then 143 else 191) c1 &&
            continuation 128 191 c2 && continuation 128 191 c3 && valid_utf8 r
        | _ => false
        end
      else false
  end.

(** ** The signed body *)

Abbreviation object := (list (string * json)) (only parsing).

(** A window to publish; its numbers are integers. *)
Record window := Window {
  w_network : string; w_start : Z; w_end : Z; w_row_count : Z; w_btc : Z;
  w_rows : list object; w_sigs : list (string * string) }.

Section Body.
Context (sha256Hex : string → string) (admissionEra : string → Z → bool).

Definition computeBatchKey (network : string) (start stop : Z) : string :=
  sha256Hex ("ATTESTBATCH:" +:+ network +:+ ":" +:+ pretty start +:+ ":" +:+ pretty stop).

Definition attestBatchRowFields (network : string) (btc : Z) : list string :=
  if admissionEra network btc then ATTEST_BATCH_ADMISSION_ROW_FIELDS else ATTEST_BATCH_LEGACY_ROW_FIELDS.

Definition normalizeBatchRow (fields : list string) (r : object) : json :=
  JObj (map (λ f, (f, default JNull (json_get f r))) fields).

Definition batchHeaderObject (w : window) : object :=
  [("network", JStr (w_network w)); ("window_start", JInt (w_start w)); ("window_end", JInt (w_end w));
   ("row_count", JInt (w_row_count w)); ("btc_block_height", JInt (w_btc w))].

Definition batchRows (w : window) : json :=
  JArr (map (normalizeBatchRow (attestBatchRowFields (w_network w) (w_btc w))) (w_rows w)).

(** The bytes the batch quorum signs. *)
Definition buildAttestBatchCanonical (w : window) : string :=
  stringify (JObj (batchHeaderObject w ++ [("rows", batchRows w)])).

Definition sig_entry (s : string * string) : json :=
  JObj [("pubkey", JStr (toLowerCase s.1)); ("sig", JStr (toLowerCase s.2))].

Definition batch_object (w : window) : object :=
  batchHeaderObject w ++ [("rows", batchRows w); ("sigs", JArr (map sig_entry (w_sigs w)))].

Definition buildAttestBatchBody (w : window) : string := stringify (JObj (batch_object w)).

(** ** Encoding *)

Definition headPrefix (w : window) (key crc : string) (total : Z) : string :=
  "ATTEST|5|" +:+ key +:+ "|" +:+ w_network w +:+ "|" +:+ pretty (w_start w) +:+ "|" +:+ pretty (w_end w) +:+ "|" +:+
  pretty (w_row_count w) +:+ "|" +:+ pretty (w_btc w) +:+ "|" +:+ crc +:+ "|" +:+ pretty total +:+ "|".

Definition continuationPrefix (key : string) (index total : Z) (crc : string) : string :=
  "ATTEST|6|" +:+ key +:+ "|" +:+ pretty index +:+ "|" +:+ pretty total +:+ "|" +:+ crc +:+ "|".

(** The smallest chunk count with room for the payload, and the room its head
    and its continuations have. [None] when the fuel ran out. *)
Fixpoint chunk_search (fuel : nat) (w : window) (key crc : string) (size total : Z) : option (result FAIL (Z * Z * Z)) :=
  match fuel with
  | O => None
  | S fuel =>
      let headCap := ATTEST_BATCH_WIRE_MAX_BYTES - len (headPrefix w key crc total) in
      let contCap := ATTEST_BATCH_WIRE_MAX_BYTES - len (continuationPrefix key (total - 1) total crc) in
      if (headCap <=? 0) || ((1 <? total) && (contCap <=? 0)) then Some (Err OVERSIZE)
      else if size <=? headCap + (total - 1) * contCap then Some (Ok (total, headCap, contCap))
      else chunk_search fuel w key crc size (total + 1)
  end.

(** [s.slice(from, to)] with [0 <= from <= to]. *)
Definition slice (from to : Z) (s : string) : string :=
  str_take (Z.to_nat (to - from)) (str_drop (Z.to_nat from) s).

Fixpoint continuations (n : nat) (key crc b64 : string) (total contCap index cursor : Z) : list string :=
  match n with
  | O => []
  | S n =>
      (continuationPrefix key index total crc +:+ slice cursor (cursor + contCap) b64) ::
      continuations n key crc b64 total contCap (index + 1) (cursor + contCap)
  end.

Record encoded := Encoded {
  e_key : string; e_crc : string; e_total : Z; e_wires : list string; e_body : string;
  inflatedBytes : Z; compressedBytes : Z }.

Definition encodeAttestBatch `{Zlib} (w : window) : option (result FAIL encoded) :=
  let rows := Z.of_nat (length (w_rows w)) in
  if ATTEST_BATCH_MAX_ROWS <? rows then Some (Err ROW_COUNT)
  else if negb (w_row_count w =? rows) then Some (Err ROW_COUNT)
  else
    let body := buildAttestBatchBody w in
    if ATTEST_BATCH_MAX_INFLATED_BYTES <? len body then Some (Err OVERSIZE)
    else
      let key := computeBatchKey (w_network w) (w_start w) (w_end w) in
      let crc := crc32Hex body in
      let b64 := to_base64 (deflateRaw body) in
      match chunk_search (S (String.length b64)) w key crc (len b64) 1 with
      | None => None
      | Some (Err f) => Some (Err f)
      | Some (Ok (total, headCap, contCap)) =>
          let wires := (headPrefix w key crc total +:+ slice 0 headCap b64) ::
                       continuations (Z.to_nat (total - 1)) key crc b64 total contCap 1 headCap in
          Some (Ok (Encoded key crc total wires body (len body) (len b64)))
      end.

(** ** Parsing *)

(** [params\[i\]], [''] when missing. *)
Definition param (params : list string) (i : nat) : string := default EmptyString (params !! i).

Record head := Head {
  h_key : string; h_network : string; h_start : Z; h_end : Z; h_rows : Z; h_btc : Z;
  h_crc : string; h_total : Z; h_chunk : string }.

Definition parseAttestBatchHead (params : list string) : result FAIL head :=
  let p := param params in
  let key := toLowerCase (p 1%nat) in
  check HEX64 key else BATCH_KEY in
  let network := p 2%nat in
  check negb (js_length network =? 0) && (js_length network <=? 20) else STRUCTURE in
  check UINT (p 3%nat) && UINT (p 4%nat) && UINT (p 5%nat) && UINT (p 6%nat) else STRUCTURE in
  let num i := read_digits 0 (p i) in
  check num 3%nat <=? num 4%nat else STRUCTURE in
  check num 5%nat <=? ATTEST_BATCH_MAX_ROWS else ROW_COUNT in
  let crc := toLowerCase (p 7%nat) in
  check CRC_RE crc else CRC_FORMAT in
  check UINT (p 8%nat) else TOTAL_CHUNKS in
  check (1 <=? num 8%nat) && (num 8%nat <=? ATTEST_BATCH_MAX_CHUNKS) else TOTAL_CHUNKS in
  let chunk := p 9%nat in
  check CANONICAL_BASE64 chunk else BASE64 in
  check String.eqb (computeBatchKey network (num 3%nat) (num 4%nat)) key else BATCH_KEY in
  Ok (Head key network (num 3%nat) (num 4%nat) (num 5%nat) (num 6%nat) crc (num 8%nat) chunk).

Record cont := Cont { c_key : string; c_index : Z; c_total : Z; c_crc : string; c_chunk : string }.

Definition parseAttestBatchContinuation (params : list string) : result FAIL cont :=
  let p := param params in
  let num i := read_digits 0 (p i) in
  let key := toLowerCase (p 1%nat) in
  check HEX64 key else BATCH_KEY in
  check UINT (p 2%nat) else CHUNK_INDEX in
  check UINT (p 3%nat) else TOTAL_CHUNKS in
  check (2 <=? num 3%nat) && (num 3%nat <=? ATTEST_BATCH_MAX_CHUNKS) else TOTAL_CHUNKS in
  check (1 <=? num 2%nat) && (num 2%nat <? num 3%nat) else CHUNK_INDEX in
  let crc := toLowerCase (p 4%nat) in
  check CRC_RE crc else CRC_FORMAT in
  let chunk := p 5%nat in
  check CANONICAL_BASE64 chunk else BASE64 in
  Ok (Cont key (num 2%nat) (num 3%nat) crc chunk).

(** ** Coverage and reassembly *)

(** A continuation row of the database: [None] for a slot or an action index
    that is not an integer, or a text that is missing. *)
Record chunk := Chunk { chunk_index : option Z; chunk_b64 : option string; action_index : option Z }.

(** One pass of the coverage loop over [bySlot]. *)
Definition cover (total : Z) (bySlot : gmap Z chunk) (c : chunk) : gmap Z chunk :=
  match chunk_index c with
  | None => bySlot
  | Some idx =>
      if (idx <? 1) || (total <=? idx) then bySlot
      else match bySlot !! idx with
           | None => <[idx := c]> bySlot
           | Some held =>
               match action_index c, action_index held with
               | Some b, Some a => if b <? a then <[idx := c]> bySlot else bySlot
               | Some _, None => <[idx := c]> bySlot
               | None, _ => bySlot
               end
           end
  end.

Definition attestChunkCoverage (chunks : list chunk) (total : Z) : option (list chunk) :=
  if total <? 1 then None
  else
    let bySlot := foldl (cover total) ∅ chunks in
    mapM (λ i, bySlot !! i) (seqZ 1 (total - 1)).

Definition concatenateBatchChunks (h : head) (chunks : list chunk) : result FAIL string :=
  if 1 <? h_total h then
    match attestChunkCoverage chunks (h_total h) with
    | None => Err COVERAGE
    | Some ordered => Ok (foldl (λ b64 c, b64 +:+ default EmptyString (chunk_b64 c)) (h_chunk h) ordered)
    end
  else Ok (h_chunk h).

Definition inflateBatchBody `{Zlib} (b64 : string) : result FAIL string :=
  match decodeCanonicalBase64 b64 with
  | None => Err BASE64
  | Some compressed =>
      let ratioCap := len compressed * ATTEST_BATCH_MAX_INFLATE_RATIO in
      let outputCap := Z.min ATTEST_BATCH_MAX_INFLATED_BYTES ratioCap in
      match inflateRaw compressed outputCap with
      | TooLarge => Err (if ratioCap <=? ATTEST_BATCH_MAX_INFLATED_BYTES then RATIO_CAP else SIZE_CAP)
      | BadData => Err INFLATE
      | Inflated EmptyString => Err INFLATE
      | Inflated bytes => Ok bytes
      end
  end.

Record parsed := Parsed { p_object : object; p_rows : list json; p_sigs : list json }.

Definition decodeBatchBody (h : head) (bytes : string) : result FAIL parsed :=
  check valid_utf8 bytes else NOT_UTF8 in
  check String.eqb (crc32Hex bytes) (h_crc h) else CRC_MISMATCH in
  match JSON_parse bytes with
  | Some (JObj o) =>
      match json_get "rows" o, json_get "sigs" o with
      | Some (JArr rows), Some (JArr sigs) =>
          check Z.of_nat (length rows) <=? ATTEST_BATCH_MAX_ROWS else ROW_COUNT in
          Ok (Parsed o rows sigs)
      | _, _ => Err STRUCTURE
      end
  | _ => Err BODY_JSON
  end.

Definition row_complete (fields : list string) (r : json) : bool :=
  match r with
  | JObj o => forallb (λ f, match json_get f o with Some _ => true | None => false end) fields
  | _ => false
  end.

(** [String(s\[k\] || '').toLowerCase()]. *)
Definition sig_field (k : string) (o : object) : string :=
  toLowerCase (match json_get k o with Some v => if json_truthy v then json_String v else EmptyString | None => EmptyString end).

Definition sig_complete (s : json) : bool :=
  match s with
  | JObj o => HEX64 (sig_field "pubkey" o) && HEX128 (sig_field "sig" o)
  | _ => false
  end.

Definition checkBodyAgainstHead (h : head) (b : parsed) : option FAIL :=
  let o := p_object b in
  if negb (String.eqb (opt_String (json_get "network" o)) (h_network h) &&
           number_is (json_get "window_start" o) (h_start h) && number_is (json_get "window_end" o) (h_end h) &&
           number_is (json_get "btc_block_height" o) (h_btc h) && number_is (json_get "row_count" o) (h_rows h))
  then Some STRUCTURE
  else if negb (number_is (json_get "row_count" o) (Z.of_nat (length (p_rows b)))) then Some ROW_COUNT
  else if negb (forallb (row_complete (attestBatchRowFields (h_network h) (h_btc h))) (p_rows b)) then Some ROW_FIELD
  else if negb (forallb sig_complete (p_sigs b)) then Some ROW_FIELD
  else None.

Definition reassembleAttestBatch `{Zlib} (h : head) (chunks : list chunk) : result FAIL object :=
  let! b64 := concatenateBatchChunks h chunks in
  let! bytes := inflateBatchBody b64 in
  let! b := decodeBatchBody h bytes in
  match checkBodyAgainstHead h b with
  | Some f => Err f
  | None => Ok (p_object b)
  end.

End Body.
