(* ===== verification/AttestProps.v ===== *)
(** * Properties of the attestation batch wire

    The canonical base64 decode, chunk coverage, termination of the encoder's
    search, and the fields and the payload cuts the round trip of
    [AttestRoundTrip] needs. *)

From stdpp Require Import pretty.
From S2P Require Import Prelude BigNum Json Base64 AttestWire.
Open Scope Z_scope.

(** ** Base64 *)

(** The decoder accepts exactly the encodings of non-empty byte strings,
    and gives the bytes back: one payload has one spelling on the wire. *)
Theorem decodeCanonicalBase64_exact field bytes :
  decodeCanonicalBase64 field = Some bytes ↔ bytes ≠ EmptyString ∧ field = to_base64 bytes.
Proof.
  unfold decodeCanonicalBase64. split.
  - destruct (String.eqb field ""); [done|]. destruct (negb _); [done|]. destruct (negb _); [done|].
    destruct (String.eqb (from_base64 field) "") eqn:E; [done|]. apply String.eqb_neq in E.
    destruct (String.eqb (to_base64 (from_base64 field)) field) eqn:E'; [|done]. apply String.eqb_eq in E'.
    intros [= <-]. by split.
  - intros [Hb ->]. pose proof (to_base64_canonical bytes Hb) as Hc. rewrite Hc, from_to_base64, String.eqb_refl.
    rewrite length_to_base64, (Nat.mul_comm 4), Nat.Div0.mod_mul.
    destruct (String.eqb (to_base64 bytes) "") eqn:E; [apply String.eqb_eq in E; by rewrite E in Hc|].
    destruct (String.eqb bytes "") eqn:E'; [by apply String.eqb_eq in E'|]. done.
Qed.

(** ** Coverage *)

Section Coverage.
Context (total : Z).

Definition in_slot (i : Z) (c : chunk) : Prop := chunk_index c = Some i ∧ 1 ≤ i < total.

Definition act (c : chunk) : Z := default 0 (action_index c).

Lemma cover_other m c i : ¬ in_slot i c → cover total m c !! i = m !! i.
Proof.
  intros Hn. unfold cover, in_slot in *. destruct (chunk_index c) as [idx|]; [|done].
  destruct ((idx <? 1) || (total <=? idx)) eqn:E; [done|]. bools.
  assert (idx ≠ i) by (intros ->; apply Hn; split; [done|lia]). repeat case_match; by rewrite ?lookup_insert_ne.
Qed.

Lemma cover_at m c i :
  in_slot i c → is_Some (action_index c) → (∀ h, m !! i = Some h → is_Some (action_index h)) →
  cover total m c !! i = Some (match m !! i with Some h => if act c <? act h then c else h | None => c end).
Proof.
  intros [Hi Hr] [b Hb] Hh. unfold cover, act. rewrite Hi, Hb.
  rewrite (proj2 (orb_false_iff _ _)) by (split; [apply Z.ltb_ge|apply Z.leb_gt]; lia).
  destruct (m !! i) as [h|] eqn:E; [|by rewrite lookup_insert_eq].
  destruct (Hh h eq_refl) as [a Ha]. rewrite Ha. simpl. destruct (b <? a); [by rewrite lookup_insert_eq|done].
Qed.

(** What the loop holds after a prefix of the rows: in every slot a row of the
    lowest action index. *)
Definition lowest (l : list chunk) (i : Z) (c : chunk) : Prop :=
  c ∈ l ∧ in_slot i c ∧ ∀ c', c' ∈ l → in_slot i c' → act c ≤ act c'.

Definition slots_ok (l : list chunk) (m : gmap Z chunk) : Prop :=
  ∀ i, match m !! i with
       | Some c => lowest l i c
       | None => ∀ c, c ∈ l → ¬ in_slot i c
       end.

Lemma slots_cover l m c :
  (∀ c', c' ∈ l ++ [c] → is_Some (action_index c')) → slots_ok l m → slots_ok (l ++ [c]) (cover total m c).
Proof.
  intros Ha Hm i. specialize (Hm i).
  assert (Hdec : in_slot i c ∨ ¬ in_slot i c).
  { unfold in_slot. destruct (decide (chunk_index c = Some i)), (decide (1 ≤ i)), (decide (i < total)); tauto || (right; lia). }
  destruct Hdec as [Hc|Hc].
  - rewrite cover_at; [|done|apply Ha; set_solver|].
    2:{ intros h Hh. rewrite Hh in Hm. apply Ha. destruct Hm as (? & _). set_solver. }
    destruct (m !! i) as [h|].
    + destruct Hm as (H1 & H2 & H3). destruct (act c <? act h) eqn:E; bools; (split_and!; [set_solver|done|]);
        intros c' [Hc'|Hc'%list_elem_of_singleton]%elem_of_app Hs; try (subst c'; lia); specialize (H3 c' Hc' Hs); lia.
    + split_and!; [set_solver|done|]. intros c' [Hc'|Hc'%list_elem_of_singleton]%elem_of_app Hs; [by destruct (Hm c')|by subst].
  - rewrite cover_other by done. destruct (m !! i) as [h|].
    + destruct Hm as (H1 & H2 & H3). split_and!; [set_solver|done|].
      intros c' [Hc'|Hc'%list_elem_of_singleton]%elem_of_app Hs; [auto|by subst].
    + intros c' [Hc'|Hc'%list_elem_of_singleton]%elem_of_app; [auto|by subst].
Qed.

Lemma slots_fold l : (∀ c, c ∈ l → is_Some (action_index c)) → slots_ok l (foldl (cover total) ∅ l).
Proof.
  induction l as [|c l IH] using rev_ind; intros Ha;
    [intros i; simpl; rewrite lookup_empty; intros c Hc; by apply elem_of_nil in Hc|].
  rewrite foldl_app. simpl. apply slots_cover; [done|]. apply IH. intros c' Hc'. apply Ha. set_solver.
Qed.

(** Two collections with the same unique lowest rows fill the slots alike. *)
Lemma slots_unique l m1 m2 :
  (∀ c c' i, c ∈ l → c' ∈ l → in_slot i c → in_slot i c' → act c = act c' → c = c') →
  slots_ok l m1 → slots_ok l m2 → m1 = m2.
Proof.
  intros Hu H1 H2. apply map_eq. intros i. specialize (H1 i). specialize (H2 i).
  destruct (m1 !! i) as [c1|], (m2 !! i) as [c2|]; [|..].
  - destruct H1 as (A1 & B1 & C1), H2 as (A2 & B2 & C2). f_equal. apply (Hu c1 c2 i); try done.
    specialize (C1 c2 A2 B2). specialize (C2 c1 A1 B1). lia.
  - destruct H1 as (A1 & B1 & _). by destruct (H2 c1 A1).
  - destruct H2 as (A2 & B2 & _). by destruct (H1 c2 A2).
  - done.
Qed.

Lemma slots_perm l l' m : l ≡ₚ l' → slots_ok l m → slots_ok l' m.
Proof.
  intros Hp Hm i. specialize (Hm i). destruct (m !! i) as [c|].
  - destruct Hm as (A & B & C). split_and!; [by rewrite <-Hp|done|]. intros c' Hc'. apply C. by rewrite Hp.
  - intros c Hc. apply Hm. by rewrite Hp.
Qed.
End Coverage.

(** Two nodes that hold the same continuation rows in different read orders
    cover a batch with the same rows, in slot order, the lowest action index
    winning every slot; without coverage both refuse. *)
Theorem coverage_order_independent chunks chunks' total :
  chunks ≡ₚ chunks' → (∀ c, c ∈ chunks → is_Some (action_index c)) →
  (∀ c c', c ∈ chunks → c' ∈ chunks → chunk_index c = chunk_index c' → action_index c = action_index c' → c = c') →
  attestChunkCoverage chunks total = attestChunkCoverage chunks' total ∧
  ∀ ordered, attestChunkCoverage chunks total = Some ordered →
    Forall2 (λ i c, lowest total chunks i c) (seqZ 1 (total - 1)) ordered.
Proof.
  intros Hp Ha Hu. set (m := foldl (cover total) ∅ chunks). set (m' := foldl (cover total) ∅ chunks').
  assert (Hm : slots_ok total chunks m) by by apply slots_fold.
  assert (Hm' : slots_ok total chunks' m') by (apply slots_fold; intros c Hc; apply Ha; by rewrite Hp).
  assert (E : m = m').
  { eapply slots_unique; [|exact Hm|eapply slots_perm; [symmetry; exact Hp|exact Hm']].
    intros c c' i Hc Hc' [Hi _] [Hi' _] Hact. apply Hu; [done..|congruence|].
    destruct (Ha c Hc) as [a Hca], (Ha c' Hc') as [a' Hca']. unfold act in Hact. rewrite Hca, Hca' in *. simpl in Hact. congruence. }
  unfold attestChunkCoverage. fold m m'. rewrite E. split; [done|].
  intros ordered Ho. destruct (total <? 1); [done|]. apply mapM_Some in Ho.
  eapply Forall2_impl; [exact Ho|]. intros i c Hc. simpl in Hc. specialize (Hm i). rewrite E, Hc in Hm. exact Hm.
Qed.

(** ** The encoder's search *)

Lemma chunk_search_found fuel w key crc size t n h c :
  chunk_search fuel w key crc size t = Some (Ok (n, h, c)) →
  t ≤ n ∧ h = ATTEST_BATCH_WIRE_MAX_BYTES - len (headPrefix w key crc n) ∧
  c = ATTEST_BATCH_WIRE_MAX_BYTES - len (continuationPrefix key (n - 1) n crc) ∧
  0 < h ∧ (1 < n → 0 < c) ∧ size ≤ h + (n - 1) * c.
Proof.
  revert t. induction fuel as [|fuel IH]; intros t; [done|]. cbn [chunk_search].
  destruct (_ || _) eqn:E1; [done|]. apply orb_false_iff in E1 as [E1 E2]. bools.
  destruct (size <=? _) eqn:E3.
  - intros [= <- <- <-]. bools. split_and!; try done; [lia..|]. intros Ht.
    apply andb_false_iff in E2 as [E2|E2]; bools; lia.
  - intros H%IH. destruct H as (? & ? & ? & ? & ? & ?). split_and!; try done. lia.
Qed.

(** No smaller count has the room. *)
Lemma chunk_search_least fuel w key crc size t n h c t' :
  chunk_search fuel w key crc size t = Some (Ok (n, h, c)) → t ≤ t' < n →
  ATTEST_BATCH_WIRE_MAX_BYTES - len (headPrefix w key crc t') +
    (t' - 1) * (ATTEST_BATCH_WIRE_MAX_BYTES - len (continuationPrefix key (t' - 1) t' crc)) < size.
Proof.
  revert t. induction fuel as [|fuel IH]; intros t; [done|]. cbn [chunk_search].
  destruct (_ || _) eqn:E1; [done|]. destruct (size <=? _) eqn:E3; [intros [= <- <- <-]; lia|].
  intros H Ht. destruct (decide (t' = t)) as [->|]; [by bools|]. eapply IH; [exact H|lia].
Qed.

Lemma chunk_search_total fuel w key crc size t :
  (0 < fuel)%nat → 1 ≤ t → size < t + Z.of_nat fuel → chunk_search fuel w key crc size t ≠ None.
Proof.
  revert t. induction fuel as [|fuel IH]; intros t Hf Ht Hs; [lia|]. cbn [chunk_search].
  set (h := _ - len (headPrefix w key crc t)). set (c := _ - len (continuationPrefix key (t - 1) t crc)).
  destruct (_ || _) eqn:E1; [done|]. apply orb_false_iff in E1 as [E1 E2]. bools.
  destruct (size <=? _) eqn:E3; [done|]. bools.
  assert (t ≤ h + (t - 1) * c).
  { apply andb_false_iff in E2 as [E2|E2]; bools; [assert (t = 1) by lia; subst t; lia|nia]. }
  destruct fuel as [|fuel]; [lia|]. apply IH; lia.
Qed.

(** The encoder's unbounded loop over chunk counts ends for every window:
    each further chunk adds at least one byte of room, so a count of the payload's
    length is enough. *)
Theorem encoder_terminates sha era (Z0 : Zlib) w : encodeAttestBatch sha era w ≠ None.
Proof.
  unfold encodeAttestBatch. repeat on_if; [done..|].
  destruct (chunk_search _ _ _ _ _ _) as [[[[n h] c]|f]|] eqn:E; [done..|].
  exfalso. revert E. apply chunk_search_total; unfold len; lia.
Qed.

(** ** Positional fields *)

(** An action's fields: the text split at every bar. *)
Fixpoint split_bar (s : string) : list string :=
  match s with
  | EmptyString => [EmptyString]
  | String c r =>
      if Ascii.eqb c "|"%char then EmptyString :: split_bar r
      else match split_bar r with [] => [String c EmptyString] | x :: l => String c x :: l end
  end.

Definition no_bar (s : string) : bool := all_chars (λ c, negb (Ascii.eqb c "|"%char)) s.

Lemma split_bar_field a s : no_bar a = true → split_bar (a +:+ "|" +:+ s) = a :: split_bar s.
Proof.
  induction a as [|c a IH]; [done|]. unfold no_bar in *. simpl. intros H. bools. rewrite H. by rewrite IH.
Qed.

Lemma split_bar_last a : no_bar a = true → split_bar a = [a].
Proof. induction a as [|c a IH]; [done|]. unfold no_bar in *. simpl. intros H. bools. rewrite H. by rewrite IH. Qed.

(** The parameters of an action: what follows its name. *)
Definition params_of (wire : string) : list string := tail (split_bar wire).

(** Alphabets without a bar. *)
Lemma no_bar_class (p : ascii → bool) s :
  (∀ c, p c = true → c ≠ "|"%char) → all_chars p s = true → no_bar s = true.
Proof.
  intros Hp. induction s as [|c s IH]; [done|]. simpl. intros H. bools. unfold no_bar in *. simpl.
  rewrite IH by done. rewrite andb_true_r. apply negb_true_iff, Ascii.eqb_neq. by apply Hp.
Qed.

Lemma hex_no_bar s : all_chars is_hex s = true → no_bar s = true.
Proof. apply no_bar_class. intros c H ->. done. Qed.

Lemma digit_no_bar s : all_chars is_digit s = true → no_bar s = true.
Proof. apply no_bar_class. intros c H ->. done. Qed.

Lemma pretty_no_bar z : 0 ≤ z → no_bar (pretty z) = true.
Proof. intros Hz. apply digit_no_bar, (pretty_nonneg z Hz). Qed.

Lemma UINT_pretty z : 0 ≤ z → UINT (pretty z) = true ∧ read_digits 0 (pretty z) = z.
Proof. intros Hz. destruct (pretty_nonneg z Hz) as [H1 H2 H3]. unfold UINT. by rewrite H1, H3. Qed.

Lemma lower_hex s : all_chars is_hex s = true → toLowerCase s = s.
Proof.
  induction s as [|c s IH]; [done|]. simpl. intros H. bools. rewrite IH by done. f_equal.
  revert H. clear. destruct c as [[] [] [] [] [] [] [] []]; intros H; try discriminate; reflexivity.
Qed.

(** ** Checksums as text *)

Lemma hex_lower_hex n : 0 ≤ n < 16 → is_hex (hex_lower n) = true.
Proof.
  intros Hn. assert (∃ k, (k < 16)%nat ∧ n = Z.of_nat k) as (k & Hk & ->) by (exists (Z.to_nat n); lia).
  do 16 (destruct k as [|k]; [done|]). lia.
Qed.

Lemma hex_fixed_ok w n s :
  all_chars is_hex s = true →
  all_chars is_hex (hex_fixed w n s) = true ∧ String.length (hex_fixed w n s) = (w + String.length s)%nat.
Proof.
  revert n s. induction w as [|w IH]; intros n s Hs; [done|]. cbn [hex_fixed].
  destruct (IH (Z.shiftr n 4) (String (hex_lower (Z.land n 15)) s)) as [H1 H2].
  - simpl. rewrite Hs, andb_true_r. apply hex_lower_hex. change 15 with (Z.ones 4). rewrite Z.land_ones by lia.
    apply Z.mod_pos_bound. lia.
  - split; [done|]. rewrite H2. simpl. lia.
Qed.

Lemma crc32Hex_ok b : CRC_RE (crc32Hex b) = true ∧ all_chars is_hex (crc32Hex b) = true.
Proof.
  destruct (hex_fixed_ok 8 (crc32 b) EmptyString eq_refl) as [H1 H2]. unfold CRC_RE, len, crc32Hex. by rewrite H1, H2.
Qed.

(** ** Cutting the payload *)

(** Base64 text: alphabet characters, then at most two of padding. *)
Record b64_text (s u v : string) : Prop := {
  bt_app : s = u +:+ v; bt_chars : all_chars is_b64 u = true; bt_pad : v = EmptyString ∨ v = "="%string ∨ v = "=="%string }.

Lemma to_base64_text s : ∃ u v, b64_text (to_base64 s) u v.
Proof.
  induction s as [|a|a b|a b c r IH] using bytes_ind.
  - exists EmptyString, EmptyString. split; [done..|by left].
  - destruct a as [a0 a1 a2 a3 a4 a5 a6 a7]. cbn [to_base64].
    eexists (String _ (String _ EmptyString)), "=="%string. split; [reflexivity| |by right; right].
    simpl. by rewrite !is_b64_char.
  - destruct a as [a0 a1 a2 a3 a4 a5 a6 a7], b as [b0 b1 b2 b3 b4 b5 b6 b7]. cbn [to_base64].
    eexists (String _ (String _ (String _ EmptyString))), "="%string. split; [reflexivity| |by right; left].
    simpl. by rewrite !is_b64_char.
  - destruct IH as (u & v & [E Hu Hv]).
    destruct a as [a0 a1 a2 a3 a4 a5 a6 a7], b as [b0 b1 b2 b3 b4 b5 b6 b7], c as [c0 c1 c2 c3 c4 c5 c6 c7]. cbn [to_base64].
    eexists (String _ (String _ (String _ (String _ u)))), v. split; [rewrite E; reflexivity| |done].
    simpl. by rewrite !is_b64_char, Hu.
Qed.

Lemma canonical_text u v :
  all_chars is_b64 u = true → u ≠ EmptyString → (v = EmptyString ∨ v = "="%string ∨ v = "=="%string) →
  CANONICAL_BASE64 (u +:+ v) = true.
Proof.
  intros Hu Hne Hv.
  assert (Ht : canonical_tail (u +:+ v) = true).
  { clear Hne. induction u as [|c u IH]; [destruct Hv as [->|[->| ->]]; done|].
    simpl in Hu. bools. change (canonical_tail (String c (u +:+ v)) = true). cbn [canonical_tail]. rewrite H. auto. }
  destruct u as [|c u]; [done|]. change (String c u +:+ v) with (String c (u +:+ v)) in *. simpl in Hu. bools.
  unfold CANONICAL_BASE64. by rewrite H, Ht.
Qed.

Lemma pad_take m v :
  (v = EmptyString ∨ v = "="%string ∨ v = "=="%string) →
  (str_take m v = EmptyString ∨ str_take m v = "="%string ∨ str_take m v = "=="%string).
Proof. intros [->|[->| ->]]; destruct m as [|[|[|m]]]; simpl; auto. Qed.

Lemma str_take_past n a b :
  (String.length a ≤ n)%nat → str_take n (a +:+ b) = a +:+ str_take (n - String.length a) b.
Proof.
  intros H. replace n with (String.length a + (n - String.length a))%nat at 1 by lia. rewrite str_take_add. f_equal.
  - by rewrite str_take_app, str_take_all.
  - by rewrite str_drop_app, str_drop_all by lia.
Qed.

(** A piece of base64 text is canonical when it does not start in the padding. *)
Lemma canonical_cut s u v a m :
  b64_text s u v → (a < String.length u)%nat → (0 < m)%nat → CANONICAL_BASE64 (str_take m (str_drop a s)) = true.
Proof.
  intros [-> Hu Hv] Ha Hm. rewrite str_drop_app by lia.
  assert (Hl : String.length (str_drop a u) = (String.length u - a)%nat) by apply length_str_drop.
  assert (Hd : all_chars is_b64 (str_drop a u) = true) by auto with hub.
  destruct (decide (m ≤ String.length (str_drop a u))%nat) as [H|H].
  - rewrite str_take_app by done. rewrite <-(app_str_nil_r (str_take _ _)). apply canonical_text; [auto with hub| |by left].
    intros E. apply (f_equal String.length) in E. rewrite length_str_take, Hl in E. simpl in E. lia.
  - rewrite str_take_past by lia. apply canonical_text; [done| |by apply pad_take].
    intros E. rewrite E in Hl. simpl in Hl. lia.
Qed.

Lemma b64_no_bar s u v : b64_text s u v → no_bar s = true.
Proof.
  intros [-> Hu Hv]. unfold no_bar. rewrite all_chars_app. apply andb_true_iff. split.
  - eapply no_bar_class; [|exact Hu]. intros c H ->. done.
  - by destruct Hv as [->|[->| ->]].
Qed.

(** ** Wires and their fields *)

Definition last_field (wire : string) : string := default EmptyString (last (split_bar wire)).

Lemma split_head_wire w key crc total text :
  no_bar key = true → no_bar (w_network w) = true → 0 ≤ w_start w → 0 ≤ w_end w → 0 ≤ w_row_count w → 0 ≤ w_btc w →
  no_bar crc = true → 0 ≤ total → no_bar text = true →
  split_bar (headPrefix w key crc total +:+ text) =
    ["ATTEST"; "5"; key; w_network w; pretty (w_start w); pretty (w_end w); pretty (w_row_count w); pretty (w_btc w);
     crc; pretty total; text].
Proof.
  intros. unfold headPrefix. rewrite !app_str_assoc.
  change ("ATTEST|5|" +:+ ?x) with ("ATTEST" +:+ "|" +:+ ("5" +:+ "|" +:+ x)).
  by rewrite !split_bar_field, split_bar_last by (done || by apply pretty_no_bar).
Qed.

Lemma split_continuation_wire key index total crc text :
  no_bar key = true → 0 ≤ index → 0 ≤ total → no_bar crc = true → no_bar text = true →
  split_bar (continuationPrefix key index total crc +:+ text) =
    ["ATTEST"; "6"; key; pretty index; pretty total; crc; text].
Proof.
  intros. unfold continuationPrefix. rewrite !app_str_assoc.
  change ("ATTEST|6|" +:+ ?x) with ("ATTEST" +:+ "|" +:+ ("6" +:+ "|" +:+ x)).
  by rewrite !split_bar_field, split_bar_last by (done || by apply pretty_no_bar).
Qed.

Lemma len_app a b : len (a +:+ b) = len a + len b.
Proof. unfold len. rewrite app_str_length. lia. Qed.

Lemma headPrefix_mono w key crc t t' : 0 ≤ t ≤ t' → len (headPrefix w key crc t) ≤ len (headPrefix w key crc t').
Proof. intros H. unfold headPrefix. rewrite !len_app. pose proof (pretty_length_mono t t' H). unfold len. lia. Qed.

Lemma continuationPrefix_mono key i t i' t' crc :
  0 ≤ i ≤ i' → 0 ≤ t ≤ t' → len (continuationPrefix key i t crc) ≤ len (continuationPrefix key i' t' crc).
Proof.
  intros Hi Ht. unfold continuationPrefix. rewrite !len_app.
  pose proof (pretty_length_mono i i' Hi). pose proof (pretty_length_mono t t' Ht). unfold len. lia.
Qed.

(** Every piece of the payload is needed: the last continuation starts inside it. *)
Lemma last_piece_starts fuel w key crc size n h c :
  chunk_search fuel w key crc size 1 = Some (Ok (n, h, c)) → 1 < n → h + (n - 2) * c < size.
Proof.
  intros H Hn. destruct (chunk_search_found _ _ _ _ _ _ _ _ _ H) as (_ & -> & -> & _).
  pose proof (chunk_search_least _ _ _ _ _ _ _ _ _ (n - 1) H ltac:(lia)) as Hl.
  pose proof (headPrefix_mono w key crc (n - 1) n ltac:(lia)).
  pose proof (continuationPrefix_mono key (n - 2) (n - 1) (n - 1) n crc ltac:(lia) ltac:(lia)).
  replace (n - 1 - 1) with (n - 2) in Hl by lia. nia.
Qed.

(** The text the continuation of slot [j + 1] carries. *)
Definition cont_text (b64 : string) (h c : Z) (j : nat) : string :=
  slice (h + Z.of_nat j * c) (h + Z.of_nat j * c + c) b64.

Lemma continuations_lookup n key crc b64 total c index cursor j wire :
  continuations n key crc b64 total c index cursor !! j = Some wire ↔
  (j < n)%nat ∧ wire = continuationPrefix key (index + Z.of_nat j) total crc +:+ cont_text b64 cursor c j.
Proof.
  revert index cursor j. induction n as [|n IH]; intros index cursor j; [split; [done|lia]|].
  cbn [continuations]. destruct j as [|j]; cbn [lookup list_lookup].
  - unfold cont_text. rewrite !Z.add_0_r. split; [intros [= <-]; split; [lia|done]|by intros [_ ->]].
  - change (continuations n key crc b64 total c (index + 1) (cursor + c) !! j = Some wire ↔
            (S j < S n)%nat ∧ wire = continuationPrefix key (index + Z.of_nat (S j)) total crc +:+ cont_text b64 cursor c (S j)).
    rewrite IH. unfold cont_text. rewrite !Nat2Z.inj_succ.
    replace (index + 1 + Z.of_nat j) with (index + Z.succ (Z.of_nat j)) by lia.
    replace (cursor + c + Z.of_nat j * c) with (cursor + Z.succ (Z.of_nat j) * c) by lia.
    split; intros [? ?]; (split; [lia|done]).
Qed.

Lemma length_continuations n key crc b64 total c index cursor :
  length (continuations n key crc b64 total c index cursor) = n.
Proof. revert index cursor. induction n as [|n IH]; intros; simpl; [done|]. by rewrite IH. Qed.

(** Head and continuations carry the whole payload, in order. *)
Lemma concat_texts b64 h c n acc :
  0 ≤ h → 0 ≤ c →
  foldl (λ s t, s +:+ t) acc (map (cont_text b64 h c) (seq 0 n)) =
    acc +:+ str_take (n * Z.to_nat c) (str_drop (Z.to_nat h) b64).
Proof.
  intros Hh Hc. induction n as [|n IH]; [by rewrite app_str_nil_r|].
  rewrite seq_S, map_app, foldl_app. cbn [map foldl]. rewrite IH, app_str_assoc. f_equal.
  replace (S n * Z.to_nat c)%nat with (n * Z.to_nat c + Z.to_nat c)%nat by lia. rewrite str_take_add, str_drop_drop.
  unfold cont_text, slice. do 2 f_equal; [lia|]. f_equal. rewrite Z2Nat.inj_add, Z2Nat.inj_mul, Nat2Z.id; nia.
Qed.

Lemma coverage_order_independent_witness :
  let row i a := Chunk (Some i) (Some "QUJD"%string) (Some a) in
  let l := [row 2 7; row 1 3; row 2 5] in let l' := [row 1 3; row 2 5; row 2 7] in
  attestChunkCoverage l 3 = attestChunkCoverage l' 3 ∧
  ∀ ordered, attestChunkCoverage l 3 = Some ordered → Forall2 (λ i c, lowest 3 l i c) (seqZ 1 (3 - 1)) ordered.
Proof.
  intros row l l'. apply (coverage_order_independent l l' 3).
  - apply (Permutation_cons_append [row 1 3; row 2 5] (row 2 7)).
  - intros c Hc. subst l row. simpl in Hc. set_unfold in Hc. destruct Hc as [-> | [-> | [-> |[]]]]; by eexists.
  - intros c c' Hc Hc'. subst l row. set_unfold in Hc. set_unfold in Hc'.
    destruct Hc as [-> | [-> | [-> |[]]]], Hc' as [-> | [-> | [-> |[]]]]; simpl; congruence.
Defined.
