(* ===== verification/AttestRoundTrip.v ===== *)
(** * The round trip of a published window

    What [encodeAttestBatch] makes of a window, the two parsers read back, and
    [reassembleAttestBatch] rebuilds from the stored rows; and the two windows the
    encoder publishes although no reader can rebuild them. *)

From stdpp Require Import pretty.
From S2P Require Import Prelude BigNum Json Base64 AttestWire AttestProps.
Open Scope Z_scope.

(** ** The round trip *)

Section RoundTrip.
Context (sha256Hex : string → string) (era : string → Z → bool).

(** What the publisher's windows satisfy, and the reader checks. *)
Record publishable (w : window) : Prop := {
  pu_key : HEX64 (computeBatchKey sha256Hex (w_network w) (w_start w) (w_end w)) = true;
  pu_network : no_bar (w_network w) = true ∧ 0 < js_length (w_network w) ≤ 20;
  pu_window : 0 ≤ w_start w ≤ w_end w;
  pu_btc : 0 ≤ w_btc w;
  pu_utf8 : valid_utf8 (buildAttestBatchBody era w) = true;
  pu_rows : Forall (λ r, forallb (λ kv, plain kv.2) r = true) (w_rows w);
  pu_sigs : Forall (λ s, HEX64 (toLowerCase s.1) = true ∧ HEX128 (toLowerCase s.2) = true) (w_sigs w) }.

Lemma json_get_plain k r v : forallb (λ kv, plain kv.2) r = true → json_get k r = Some v → plain v = true.
Proof.
  induction r as [|[k' v'] r IH]; [done|]. simpl. intros H. bools. destruct (json_get k r) eqn:E.
  - intros [= <-]. by apply IH.
  - destruct (String.eqb k k'); [by intros [= <-]|done].
Qed.

Lemma body_plain w : publishable w → plain (JObj (batch_object era w)) = true.
Proof.
  intros []. unfold batch_object, batchHeaderObject. cbn [app plain forallb snd]. rewrite !Z.eqb_refl. cbn [andb].
  rewrite andb_true_r. apply andb_true_iff. split; [change (forallb plain (map (normalizeBatchRow (attestBatchRowFields era (w_network w) (w_btc w))) (w_rows w)) = true)|];
    rewrite forallb_forall; intros x [y [<- Hy]]%in_map_iff; [|done].
  apply list_elem_of_In in Hy. rewrite Forall_forall in pu_rows0. specialize (pu_rows0 y Hy).
  unfold normalizeBatchRow. cbn [plain]. rewrite forallb_forall. intros kv [f [<- _]]%in_map_iff. simpl.
  destruct (json_get f y) eqn:E; [|done]. by eapply json_get_plain.
Qed.

(** The parsed body is the one that was built, and agrees with the head. *)
Lemma decode_body w h :
  publishable w → Z.of_nat (length (w_rows w)) ≤ ATTEST_BATCH_MAX_ROWS →
  h_crc h = crc32Hex (buildAttestBatchBody era w) →
  decodeBatchBody h (buildAttestBatchBody era w) =
    Ok (Parsed (batch_object era w) (map (normalizeBatchRow (attestBatchRowFields era (w_network w) (w_btc w))) (w_rows w))
          (map sig_entry (w_sigs w))).
Proof.
  intros Hp Hr Hc. unfold decodeBatchBody. rewrite (pu_utf8 _ Hp), Hc, String.eqb_refl.
  unfold buildAttestBatchBody at 1. rewrite JSON_parse_stringify by by apply body_plain.
  assert (E1 : json_get "rows" (batch_object era w) = Some (batchRows era w)) by done.
  assert (E2 : json_get "sigs" (batch_object era w) = Some (JArr (map sig_entry (w_sigs w)))) by done.
  rewrite E1, E2. unfold batchRows. rewrite length_map, (proj2 (Z.leb_le _ _)) by done. done.
Qed.

Lemma number_is_int z : number_is (Some (JInt z)) z = true.
Proof. unfold number_is. simpl. rewrite Z.mul_1_r. apply Z.eqb_refl. Qed.

Lemma normalized_complete fields r : row_complete fields (normalizeBatchRow fields r) = true.
Proof.
  unfold row_complete, normalizeBatchRow. apply forallb_forall. intros f Hf.
  enough (is_Some (json_get f (map (λ f, (f, default JNull (json_get f r))) fields))) as [v ->] by done.
  induction fields as [|g l IH]; [done|]. cbn [map json_get]. destruct (json_get f (map _ l)) eqn:E; [eauto|].
  destruct Hf as [->|Hf]; [rewrite String.eqb_refl; eauto|]. by destruct (IH Hf).
Qed.

Lemma truthy_hex s n : (len s =? n) && all_chars is_hex s = true → 0 < n → json_truthy (JStr s) = true.
Proof. intros H Hn. bools. destruct s; [unfold len in H; simpl in H; lia|done]. Qed.

Lemma sig_entry_complete s :
  HEX64 (toLowerCase s.1) = true → HEX128 (toLowerCase s.2) = true → sig_complete (sig_entry s) = true.
Proof.
  intros H1 H2. unfold sig_complete, sig_entry, sig_field.
  change (json_get "pubkey" [("pubkey", JStr (toLowerCase s.1)); ("sig", JStr (toLowerCase s.2))])
    with (Some (JStr (toLowerCase s.1))).
  change (json_get "sig" [("pubkey", JStr (toLowerCase s.1)); ("sig", JStr (toLowerCase s.2))])
    with (Some (JStr (toLowerCase s.2))).
  cbv beta iota. rewrite (truthy_hex _ 64 H1), (truthy_hex _ 128 H2) by lia. cbn [json_String].
  by rewrite !toLowerCase_idemp, H1, H2.
Qed.

Lemma check_body w h :
  publishable w → w_row_count w = Z.of_nat (length (w_rows w)) →
  h_network h = w_network w → h_start h = w_start w → h_end h = w_end w → h_rows h = w_row_count w → h_btc h = w_btc w →
  checkBodyAgainstHead era h
    (Parsed (batch_object era w) (map (normalizeBatchRow (attestBatchRowFields era (w_network w) (w_btc w))) (w_rows w))
       (map sig_entry (w_sigs w))) = None.
Proof.
  intros Hp Hr E1 E2 E3 E4 E5. unfold checkBodyAgainstHead. cbn [p_object p_rows p_sigs]. rewrite E1, E2, E3, E4, E5.
  change (json_get "network" (batch_object era w)) with (Some (JStr (w_network w))).
  change (json_get "window_start" (batch_object era w)) with (Some (JInt (w_start w))).
  change (json_get "window_end" (batch_object era w)) with (Some (JInt (w_end w))).
  change (json_get "btc_block_height" (batch_object era w)) with (Some (JInt (w_btc w))).
  change (json_get "row_count" (batch_object era w)) with (Some (JInt (w_row_count w))).
  cbn [opt_String json_String]. rewrite String.eqb_refl, !number_is_int, length_map, <-Hr, number_is_int. cbn [andb negb].
  assert (H1 : forallb (row_complete (attestBatchRowFields era (w_network w) (w_btc w)))
            (map (normalizeBatchRow (attestBatchRowFields era (w_network w) (w_btc w))) (w_rows w)) = true).
  { apply forallb_forall. intros x [r [<- _]]%in_map_iff. apply normalized_complete. }
  assert (H2 : forallb sig_complete (map sig_entry (w_sigs w)) = true).
  { apply forallb_forall. intros x [s [<- Hs]]%in_map_iff. apply list_elem_of_In in Hs.
    pose proof (pu_sigs _ Hp) as HF. rewrite Forall_forall in HF. destruct (HF s Hs). by apply sig_entry_complete. }
  by rewrite H1, H2.
Qed.

(** A printed field reads back. *)
Ltac read_back z := let H := fresh in
  pose proof (UINT_pretty z ltac:(lia)) as H; rewrite ?(proj1 H), ?(proj2 H); clear H.

(** *** The two parsers read the wires back *)

Lemma HEX64_hex s : HEX64 s = true → all_chars is_hex s = true.
Proof. unfold HEX64. intros H. by bools. Qed.

Lemma parse_head_wire w crc total text :
  publishable w → 0 ≤ w_row_count w ≤ ATTEST_BATCH_MAX_ROWS → 1 ≤ total ≤ ATTEST_BATCH_MAX_CHUNKS →
  CRC_RE crc = true → all_chars is_hex crc = true → no_bar text = true → CANONICAL_BASE64 text = true →
  let key := computeBatchKey sha256Hex (w_network w) (w_start w) (w_end w) in
  parseAttestBatchHead sha256Hex (params_of (headPrefix w key crc total +:+ text)) =
    Ok (Head key (w_network w) (w_start w) (w_end w) (w_row_count w) (w_btc w) crc total text).
Proof.
  intros [Hk [Hn Hl] Hw Hb _ _ _] Hr Ht Hc Hc' Hx Hx' key. fold key in Hk. pose proof (HEX64_hex _ Hk) as Hkh.
  unfold params_of. rewrite split_head_wire by (lia || done || by apply hex_no_bar). unfold parseAttestBatchHead, param. cbn.
  rewrite !(lower_hex key), !(lower_hex crc), Hk, Hc, Hx' by done.
  read_back (w_start w). read_back (w_end w). read_back (w_row_count w). read_back (w_btc w). read_back total.
  rewrite (proj2 (Z.eqb_neq (js_length _) 0)), (proj2 (Z.leb_le (js_length _) 20)), (proj2 (Z.leb_le (w_start w) _)),
    (proj2 (Z.leb_le (w_row_count w) _)), (proj2 (Z.leb_le 1 _)), (proj2 (Z.leb_le total _)) by lia.
  cbn. fold key. by rewrite String.eqb_refl.
Qed.

Lemma parse_cont_wire key index crc total text :
  HEX64 key = true → 1 ≤ index < total → total ≤ ATTEST_BATCH_MAX_CHUNKS →
  CRC_RE crc = true → all_chars is_hex crc = true → no_bar text = true → CANONICAL_BASE64 text = true →
  parseAttestBatchContinuation (params_of (continuationPrefix key index total crc +:+ text)) =
    Ok (Cont key index total crc text).
Proof.
  intros Hk Hi Ht Hc Hc' Hx Hx'. pose proof (HEX64_hex _ Hk) as Hkh.
  unfold params_of. rewrite split_continuation_wire by (lia || done || by apply hex_no_bar).
  unfold parseAttestBatchContinuation, param. cbn. rewrite !(lower_hex key), !(lower_hex crc), Hk, Hc, Hx' by done.
  read_back index. read_back total.
  by rewrite (proj2 (Z.leb_le 2 _)), (proj2 (Z.leb_le total _)), (proj2 (Z.leb_le 1 _)), (proj2 (Z.ltb_lt index _)) by lia.
Qed.

(** *** The encoder's output *)

Context {Z0 : Zlib} {ZL : ZlibLaws Z0}.

(** The parts of a successful encoding. *)
Record anatomy (w : window) (enc : encoded) (h c : Z) : Prop := {
  an_count : w_row_count w = Z.of_nat (length (w_rows w));
  an_rows : 0 ≤ w_row_count w ≤ ATTEST_BATCH_MAX_ROWS;
  an_body : e_body enc = buildAttestBatchBody era w ∧ len (e_body enc) ≤ ATTEST_BATCH_MAX_INFLATED_BYTES;
  an_key : e_key enc = computeBatchKey sha256Hex (w_network w) (w_start w) (w_end w);
  an_crc : e_crc enc = crc32Hex (e_body enc);
  an_search : let b64 := to_base64 (deflateRaw (e_body enc)) in
    chunk_search (S (String.length b64)) w (e_key enc) (e_crc enc) (len b64) 1 = Some (Ok (e_total enc, h, c));
  an_wires : let b64 := to_base64 (deflateRaw (e_body enc)) in
    e_wires enc = (headPrefix w (e_key enc) (e_crc enc) (e_total enc) +:+ slice 0 h b64) ::
                  continuations (Z.to_nat (e_total enc - 1)) (e_key enc) (e_crc enc) b64 (e_total enc) c 1 h }.

Lemma encode_anatomy w enc :
  encodeAttestBatch sha256Hex era w = Some (Ok enc) → ∃ h c, anatomy w enc h c.
Proof.
  unfold encodeAttestBatch. destruct (_ <? _) eqn:E1; [done|]. destruct (negb _) eqn:E2; [done|].
  destruct (ATTEST_BATCH_MAX_INFLATED_BYTES <? _) eqn:E3; [done|]. bools.
  destruct (chunk_search _ _ _ _ _ _) as [[[[n h] c]|f]|] eqn:E4; [|done..].
  intros [= <-]. exists h, c. split; cbn [e_key e_crc e_total e_wires e_body]; try done. lia.
Qed.

Section Encoded.
Context (w : window) (enc : encoded) (h c : Z) (Hw : publishable w) (Ha : anatomy w enc h c).

Definition payload : string := to_base64 (deflateRaw (e_body enc)).

(** Where the last wire's piece of the payload starts. *)
Definition last_start : Z := if 1 <? e_total enc then h + (e_total enc - 2) * c else 0.

Lemma rooms :
  1 ≤ e_total enc ∧ 0 < h ∧ (1 < e_total enc → 0 < c) ∧ len payload ≤ h + (e_total enc - 1) * c.
Proof. destruct (chunk_search_found _ _ _ _ _ _ _ _ _ (an_search _ _ _ _ Ha)) as (? & _ & _ & ? & ? & ?). done. Qed.

Lemma payload_nonempty : 0 < len payload.
Proof.
  unfold len, payload. rewrite length_to_base64.
  pose proof (deflate_nonempty (e_body enc)). destruct (deflateRaw (e_body enc)) as [|x s]; [done|].
  cbn [String.length]. pose proof (Nat.Div0.div_le_mono 3 (S (String.length s) + 2) 3 ltac:(lia)) as H1.
  change (3 / 3)%nat with 1%nat in H1. lia.
Qed.

Lemma last_start_inside : 0 ≤ last_start < len payload.
Proof.
  unfold last_start. pose proof rooms as (H1 & H2 & H3 & _). pose proof payload_nonempty as Hp.
  destruct (1 <? e_total enc) eqn:E; [|lia]. bools. specialize (H3 E).
  pose proof (last_piece_starts _ _ _ _ _ _ _ _ (an_search _ _ _ _ Ha) E) as Hl. fold payload in Hl.
  split; [nia|done].
Qed.

Lemma payload_no_bar : no_bar payload = true.
Proof. destruct (to_base64_text (deflateRaw (e_body enc))) as (u & v & H). by eapply b64_no_bar. Qed.

Lemma piece_no_bar a b : no_bar (slice a b payload) = true.
Proof. unfold no_bar, slice. pose proof payload_no_bar. auto with hub. Qed.

(** The wire of slot [j + 1]. *)
Lemma wire_at j t :
  tail (e_wires enc) !! j = Some t ↔
  (j < Z.to_nat (e_total enc - 1))%nat ∧
  t = continuationPrefix (e_key enc) (1 + Z.of_nat j) (e_total enc) (e_crc enc) +:+ cont_text payload h c j.
Proof. rewrite (an_wires _ _ _ _ Ha). apply continuations_lookup. Qed.

Lemma head_split text :
  no_bar text = true →
  split_bar (headPrefix w (e_key enc) (e_crc enc) (e_total enc) +:+ text) =
    ["ATTEST"; "5"; e_key enc; w_network w; pretty (w_start w); pretty (w_end w); pretty (w_row_count w);
     pretty (w_btc w); e_crc enc; pretty (e_total enc); text].
Proof.
  intros Ht. destruct Hw as [Hk [Hn _] Hwin Hb _ _ _]. destruct Ha as [_ Hr _ Ek Ec _ _]. pose proof rooms as (H1 & _).
  apply split_head_wire; (lia || done || apply hex_no_bar).
  - rewrite Ek. by apply HEX64_hex.
  - rewrite Ec. apply crc32Hex_ok.
Qed.

Lemma cont_split i text :
  0 ≤ i → no_bar text = true →
  split_bar (continuationPrefix (e_key enc) i (e_total enc) (e_crc enc) +:+ text) =
    ["ATTEST"; "6"; e_key enc; pretty i; pretty (e_total enc); e_crc enc; text].
Proof.
  intros Hi Ht. destruct Hw as [Hk _ _ _ _ _ _]. destruct Ha as [_ _ _ Ek Ec _ _]. pose proof rooms as (H1 & _).
  apply split_continuation_wire; (lia || done || apply hex_no_bar).
  - rewrite Ek. by apply HEX64_hex.
  - rewrite Ec. apply crc32Hex_ok.
Qed.

(** The last wire carries the rest of the payload. *)
Lemma last_wire :
  ∃ t m, last (e_wires enc) = Some t ∧ last_field t = str_take m (str_drop (Z.to_nat last_start) payload) ∧
         len payload ≤ last_start + Z.of_nat m.
Proof.
  pose proof rooms as (H1 & H2 & H3 & H4). unfold last_start.
  destruct (1 <? e_total enc) eqn:E; bools.
  - specialize (H3 E). set (j := Z.to_nat (e_total enc - 2)).
    exists (continuationPrefix (e_key enc) (1 + Z.of_nat j) (e_total enc) (e_crc enc) +:+ cont_text payload h c j), (Z.to_nat c).
    split_and!.
    + rewrite last_lookup. rewrite (an_wires _ _ _ _ Ha). cbn [length pred]. rewrite length_continuations.
      replace (Z.to_nat (e_total enc - 1)) with (S j) at 1 by lia. cbn [lookup list_lookup].
      apply continuations_lookup. split; [lia|done].
    + unfold last_field. rewrite cont_split by (lia || apply piece_no_bar). cbn. unfold cont_text, slice.
      do 2 f_equal; [lia|]. f_equal. subst j. nia.
    + nia.
  - assert (E1 : e_total enc = 1) by lia. rewrite (an_wires _ _ _ _ Ha), E1. cbn [Z.to_nat Z.sub continuations].
    eexists _, (Z.to_nat h). split_and!; [done| |nia].
    unfold last_field. rewrite <-E1, head_split by apply piece_no_bar. cbn. unfold slice. by rewrite Z.sub_0_r.
Qed.

(** The last wire's text is padding and nothing else. *)
Definition padding_alone : Prop :=
  ∃ t, last (e_wires enc) = Some t ∧ (last_field t = "="%string ∨ last_field t = "=="%string).

Lemma last_start_text u v : b64_text payload u v → ¬ padding_alone → (Z.to_nat last_start < String.length u)%nat.
Proof.
  intros Ht Hp. destruct (decide (Z.to_nat last_start < String.length u)%nat) as [?|Hge]; [done|exfalso].
  destruct last_wire as (t & m & Hl & Hf & Hm). pose proof last_start_inside as Hi. unfold len in Hm, Hi.
  apply Hp. exists t. split; [done|]. rewrite Hf. destruct Ht as [E Hu Hv]. rewrite E in *. rewrite app_str_length in Hm, Hi.
  replace (Z.to_nat last_start) with (String.length u + (Z.to_nat last_start - String.length u))%nat by lia.
  rewrite <-str_drop_drop, str_drop_app, (str_drop_all u) by lia. change (EmptyString +:+ v) with v.
  rewrite str_take_all by (rewrite length_str_drop; lia).
  set (k := (Z.to_nat last_start - String.length u)%nat). assert (k < String.length v)%nat by lia.
  destruct Hv as [->|[->| ->]]; simpl in *; destruct k as [|[|k]]; simpl; try lia; auto.
Qed.

(** The pieces pass the parsers' base64 test. *)
Lemma piece_canonical a m :
  ¬ padding_alone → 0 ≤ a ≤ last_start → 0 < m → CANONICAL_BASE64 (slice a (a + m) payload) = true.
Proof.
  intros Hp Ha' Hm. destruct (to_base64_text (deflateRaw (e_body enc))) as (u & v & Ht). fold payload in Ht.
  pose proof (last_start_text u v Ht Hp). unfold slice. eapply canonical_cut; [exact Ht|lia..].
Qed.

(** The continuations as the reader parses them. *)
Definition cont_at (j : nat) : cont :=
  Cont (e_key enc) (1 + Z.of_nat j) (e_total enc) (e_crc enc) (cont_text payload h c j).

Definition conts : list cont := map cont_at (seq 0 (Z.to_nat (e_total enc - 1))).

Definition head_read : head :=
  Head (e_key enc) (w_network w) (w_start w) (w_end w) (w_row_count w) (w_btc w) (e_crc enc) (e_total enc) (slice 0 h payload).

Lemma crc_ok : CRC_RE (e_crc enc) = true ∧ all_chars is_hex (e_crc enc) = true.
Proof. rewrite (an_crc _ _ _ _ Ha). apply crc32Hex_ok. Qed.

Lemma too_dense :
  ATTEST_BATCH_MAX_INFLATE_RATIO * len (deflateRaw (e_body enc)) < len (e_body enc) → inflateBatchBody payload = Err RATIO_CAP.
Proof.
  intros Hr. unfold inflateBatchBody, payload.
  rewrite (proj2 (decodeCanonicalBase64_exact _ _)) by (split; [apply deflate_nonempty|reflexivity]).
  rewrite inflate_deflate. destruct (an_body _ _ _ _ Ha) as [_ Hb].
  by rewrite (proj2 (Z.leb_gt _ _)), (proj2 (Z.leb_le _ _)) by lia.
Qed.

Lemma padding_refused t :
  2 ≤ e_total enc ≤ ATTEST_BATCH_MAX_CHUNKS → last (e_wires enc) = Some t → last_field t = "="%string ∨ last_field t = "=="%string →
  parseAttestBatchContinuation (params_of t) = Err BASE64.
Proof.
  intros Hn Hl Hf. rewrite last_lookup, (an_wires _ _ _ _ Ha) in Hl. cbn [length pred] in Hl. rewrite length_continuations in Hl.
  replace (Z.to_nat (e_total enc - 1)) with (S (Z.to_nat (e_total enc - 2))) in Hl at 1 by lia. cbn [lookup list_lookup] in Hl.
  apply continuations_lookup in Hl as [Hj ->]. unfold last_field in Hf. rewrite cont_split in Hf by (lia || apply piece_no_bar).
  unfold params_of. rewrite cont_split by (lia || apply piece_no_bar). cbn [last tail default] in *.
  unfold parseAttestBatchContinuation, param. cbn. destruct Hw as [Hk _ _ _ _ _ _]. rewrite <-(an_key _ _ _ _ Ha) in Hk.
  pose proof crc_ok as [Hc Hc']. rewrite !(lower_hex (e_key enc)), !(lower_hex (e_crc enc)), Hk, Hc by (done || by apply HEX64_hex).
  read_back (1 + Z.of_nat (Z.to_nat (e_total enc - 2))). read_back (e_total enc).
  rewrite (proj2 (Z.leb_le 2 _)), (proj2 (Z.leb_le (e_total enc) _)), (proj2 (Z.leb_le 1 _)), (proj2 (Z.ltb_lt _ _)) by lia.
  cbn in Hf. by destruct Hf as [-> | ->].
Qed.

Context (Hpad : ¬ padding_alone) (Hfit : e_total enc ≤ ATTEST_BATCH_MAX_CHUNKS).

Lemma head_reads t : e_wires enc !! 0%nat = Some t → parseAttestBatchHead sha256Hex (params_of t) = Ok head_read.
Proof.
  rewrite (an_wires _ _ _ _ Ha). intros [= <-]. unfold head_read. rewrite (an_key _ _ _ _ Ha).
  pose proof rooms as (? & ? & _). pose proof last_start_inside as [? _].
  apply parse_head_wire; [done|apply Ha|lia|apply crc_ok..|apply piece_no_bar|]. apply (piece_canonical 0 h); [done|lia..].
Qed.

Lemma conts_read : Forall2 (λ t p, parseAttestBatchContinuation (params_of t) = Ok p) (tail (e_wires enc)) conts.
Proof.
  pose proof rooms as (H1 & H2 & H3 & _). apply Forall2_same_length_lookup. split.
  { rewrite (an_wires _ _ _ _ Ha). unfold conts. cbn [tail]. by rewrite length_continuations, length_map, length_seq. }
  intros j t p [Hj ->]%wire_at Hp. unfold conts in Hp. apply list_lookup_fmap_Some in Hp as (j' & -> & [-> _]%lookup_seq).
  cbn [Nat.add]. apply parse_cont_wire; [|lia|done|apply crc_ok..|apply piece_no_bar|].
  - rewrite (an_key _ _ _ _ Ha). apply Hw.
  - unfold cont_text. apply piece_canonical; [done| |lia]. unfold last_start. rewrite (proj2 (Z.ltb_lt 1 _)) by lia. nia.
Qed.

(** A continuation as a row of the database, under the action that carried it. *)
Definition stored (act : Z → Z) (p : cont) : chunk := Chunk (Some (c_index p)) (Some (c_chunk p)) (Some (act (c_index p))).

Lemma coverage_of_conts act rows :
  rows ≡ₚ map (stored act) conts → attestChunkCoverage rows (e_total enc) = Some (map (stored act) conts).
Proof.
  intros Hp. pose proof rooms as (H1 & _). unfold attestChunkCoverage. rewrite (proj2 (Z.ltb_ge _ 1)) by lia.
  set (n := e_total enc) in *. assert (Hl : length conts = Z.to_nat (n - 1)) by (unfold conts; by rewrite length_map, length_seq).
  assert (Hat : ∀ x, x ∈ rows ↔ ∃ j, (j < Z.to_nat (n - 1))%nat ∧ x = stored act (cont_at j)).
  { intros x. rewrite Hp. unfold conts. rewrite map_map. setoid_rewrite list_elem_of_fmap. setoid_rewrite elem_of_seq.
    split; intros (j & ? & ?); exists j; (split; [done || lia|done || lia]). }
  apply mapM_Some, Forall2_same_length_lookup. split; [by rewrite length_seqZ, length_map|].
  intros j i x [-> Hj]%lookup_seqZ Hx. apply list_lookup_fmap_Some in Hx as (p & -> & Hx).
  unfold conts in Hx. apply list_lookup_fmap_Some in Hx as (j' & -> & [-> _]%lookup_seq). cbn [Nat.add].
  assert (Hs : slots_ok n rows (foldl (cover n) ∅ rows)) by (apply slots_fold; intros y (k & _ & ->)%Hat; done).
  specialize (Hs (1 + Z.of_nat j)).
  destruct (foldl _ _ _ !! _) as [y|].
  - destruct Hs as ((k & Hk & ->)%Hat & [Hi _] & _). f_equal. injection Hi as Hi. by replace k with j by lia.
  - destruct (Hs (stored act (cont_at j))); [apply Hat; exists j; split; [lia|done]|split; [done|lia]].
Qed.

Lemma joined act rows : rows ≡ₚ map (stored act) conts → concatenateBatchChunks head_read rows = Ok payload.
Proof.
  intros Hp. pose proof rooms as (H1 & H2 & H3 & H4). unfold concatenateBatchChunks. cbn [h_total head_read h_chunk].
  destruct (1 <? e_total enc) eqn:E; bools.
  - rewrite (coverage_of_conts act rows Hp). f_equal. specialize (H3 E). unfold conts. rewrite map_map.
    transitivity (foldl (λ s t, s +:+ t) (slice 0 h payload) (map (cont_text payload h c) (seq 0 (Z.to_nat (e_total enc - 1))))).
    + generalize (slice 0 h payload). induction (seq 0 _) as [|j l IH]; intros acc; [done|]. exact (IH _).
    + rewrite concat_texts by lia. rewrite (str_take_all (_ * _)) by (rewrite length_str_drop, <-Z2Nat.inj_mul by lia; unfold len in H4; lia).
      unfold slice. rewrite Z.sub_0_r. apply str_take_drop.
  - f_equal. unfold slice. rewrite Z.sub_0_r. apply str_take_all. replace (e_total enc - 1) with 0 in H4 by lia. unfold len in H4. lia.
Qed.

Lemma inflates :
  len (e_body enc) ≤ ATTEST_BATCH_MAX_INFLATE_RATIO * len (deflateRaw (e_body enc)) → e_body enc ≠ EmptyString →
  inflateBatchBody payload = Ok (e_body enc).
Proof.
  intros Hr Hne. unfold inflateBatchBody, payload.
  rewrite (proj2 (decodeCanonicalBase64_exact _ _)) by (split; [apply deflate_nonempty|reflexivity]).
  rewrite inflate_deflate. destruct (an_body _ _ _ _ Ha) as [_ Hb].
  rewrite (proj2 (Z.leb_le _ _)) by lia. by destruct (e_body enc).
Qed.
End Encoded.

Lemma uncovered rows total i :
  1 ≤ i < total → (∀ r, r ∈ rows → chunk_index r ≠ Some i) → attestChunkCoverage rows total = None.
Proof.
  intros Hi Hm. destruct (attestChunkCoverage rows total) as [l|] eqn:E; [|done]. exfalso. unfold attestChunkCoverage in E.
  destruct (total <? 1) eqn:Et; [done|]. apply mapM_Some in E.
  assert (Hs : seqZ 1 (total - 1) !! Z.to_nat (i - 1) = Some i) by (apply lookup_seqZ; lia).
  destruct (Forall2_lookup_l _ _ _ _ _ E Hs) as (c & _ & Hc). simpl in Hc.
  assert (Hn : ∀ m, m !! i = None → foldl (cover total) m rows !! i = None); [|by rewrite Hn in Hc].
  clear -Hm. induction rows as [|r rows IH]; intros m H; [done|]. cbn [foldl]. apply IH; [set_solver|].
  rewrite cover_other; [done|]. intros [Hr _]. by apply (Hm r (list_elem_of_here _ _)).
Qed.

Lemma len_slice a b s : len (slice a b s) ≤ Z.max 0 (b - a).
Proof. unfold len, slice. rewrite length_str_take. lia. Qed.

(** The encoder keeps to the action ceiling and to the chunk count it
    announces; and as [constants.js] works out, when DEFLATE expands an
    incompressible body by no more than its stored-block overhead it never
    needs more than 174 of the 256 chunks the parsers accept. *)
Theorem encoded_wires_fit w enc :
  encodeAttestBatch sha256Hex era w = Some (Ok enc) →
  HEX64 (computeBatchKey sha256Hex (w_network w) (w_start w) (w_end w)) = true →
  Forall (λ t, len t ≤ ATTEST_BATCH_WIRE_MAX_BYTES) (e_wires enc) ∧
  Z.of_nat (length (e_wires enc)) = e_total enc ∧
  (len (deflateRaw (e_body enc)) ≤ ATTEST_BATCH_MAX_INFLATED_BYTES + 326 → e_total enc ≤ 174).
Proof.
  intros (h & c & Ha)%encode_anatomy Hk. destruct (rooms w enc h c Ha) as (H1 & H2 & H3 & H4).
  destruct (chunk_search_found _ _ _ _ _ _ _ _ _ (an_search _ _ _ _ Ha)) as (_ & Eh & Ec & _ & _ & _).
  split_and!.
  - rewrite (an_wires _ _ _ _ Ha). constructor.
    + rewrite len_app. pose proof (len_slice 0 h (payload enc)). unfold payload in *. lia.
    + apply Forall_lookup. intros j t [Hj ->]%continuations_lookup. rewrite len_app.
      pose proof (len_slice (h + Z.of_nat j * c) (h + Z.of_nat j * c + c) (payload enc)). unfold cont_text, payload in *.
      pose proof (continuationPrefix_mono (e_key enc) (1 + Z.of_nat j) (e_total enc) (e_total enc - 1) (e_total enc) (e_crc enc)
        ltac:(lia) ltac:(lia)). lia.
  - rewrite (an_wires _ _ _ _ Ha). cbn [length]. rewrite length_continuations. lia.
  - intros Hd. destruct (decide (e_total enc ≤ 174)) as [?|Hn]; [done|exfalso].
    pose proof (chunk_search_least _ _ _ _ _ _ _ _ _ 174 (an_search _ _ _ _ Ha) ltac:(lia)) as Hl.
    pose proof (headPrefix_mono w (e_key enc) (e_crc enc) 174 (e_total enc) ltac:(lia)) as Hh.
    assert (Hc : len (continuationPrefix (e_key enc) (174 - 1) 174 (e_crc enc)) = 91).
    { unfold continuationPrefix. rewrite !len_app, (an_key _ _ _ _ Ha), (an_crc _ _ _ _ Ha).
      destruct (crc32Hex_ok (e_body enc)) as [Hx _]. unfold HEX64, CRC_RE in *. bools.
      replace (len (computeBatchKey _ _ _ _)) with 64. replace (len (crc32Hex _)) with 8. reflexivity. }
    rewrite Hc in Hl. assert (len (to_base64 (deflateRaw (e_body enc))) ≤ 1398536).
    { unfold len in *. rewrite length_to_base64. unfold ATTEST_BATCH_MAX_INFLATED_BYTES in Hd.
      rewrite Nat2Z.inj_mul, Nat2Z.inj_div, Nat2Z.inj_add.
      assert ((Z.of_nat (String.length (deflateRaw (e_body enc))) + Z.of_nat 2) / Z.of_nat 3 < 349635)
        by (apply Z.div_lt_upper_bound; lia).
      lia. }
    unfold ATTEST_BATCH_WIRE_MAX_BYTES in *. lia.
Qed.

(** C20: Every window the encoder accepts is rebuilt by the reader: the head and
    the continuations parse to the window's own fields, and from the stored
    continuations in whatever order the database returns them reassembly gives the
    window back, provided the body is within the ratio cap and the last wire is
    not padding alone, two things the encoder does not see to. *)
Theorem wire_roundtrip w enc :
  publishable w → encodeAttestBatch sha256Hex era w = Some (Ok enc) →
  e_total enc ≤ ATTEST_BATCH_MAX_CHUNKS → ¬ padding_alone enc →
  len (e_body enc) ≤ ATTEST_BATCH_MAX_INFLATE_RATIO * len (deflateRaw (e_body enc)) →
  ∃ hd ps,
    (∀ t, e_wires enc !! 0%nat = Some t → parseAttestBatchHead sha256Hex (params_of t) = Ok hd) ∧
    Forall2 (λ t p, parseAttestBatchContinuation (params_of t) = Ok p) (tail (e_wires enc)) ps ∧
    ∀ act rows, rows ≡ₚ map (stored act) ps → reassembleAttestBatch era hd rows = Ok (batch_object era w).
Proof.
  intros Hw (h & c & Ha)%encode_anatomy Hfit Hpad Hr. exists (head_read w enc h), (conts enc h c).
  split_and!; [intros t; by apply (head_reads w enc h c)|by apply (conts_read w enc h c)|].
  intros act rows Hp. unfold reassembleAttestBatch. rewrite (joined w enc h c Ha act rows Hp). cbn [rbind].
  destruct (an_body _ _ _ _ Ha) as [Eb Hb]. rewrite (inflates w enc h c Ha Hr) by by rewrite Eb. cbn [rbind].
  pose proof (an_rows _ _ _ _ Ha). pose proof (an_count _ _ _ _ Ha) as Hc.
  rewrite Eb, decode_body; [|done|lia|by rewrite <-Eb, <-(an_crc _ _ _ _ Ha)]. cbn [rbind].
  by rewrite check_body.
Qed.

(** The encoder never compares the body with the compressed bytes: a
    window that deflates better than the reader's ratio cap is encoded and
    published, and every reader refuses it, whatever order its rows come in. *)
Theorem encoder_ignores_ratio_cap w enc :
  publishable w → encodeAttestBatch sha256Hex era w = Some (Ok enc) →
  e_total enc ≤ ATTEST_BATCH_MAX_CHUNKS → ¬ padding_alone enc →
  ATTEST_BATCH_MAX_INFLATE_RATIO * len (deflateRaw (e_body enc)) < len (e_body enc) →
  ∃ hd ps,
    (∀ t, e_wires enc !! 0%nat = Some t → parseAttestBatchHead sha256Hex (params_of t) = Ok hd) ∧
    Forall2 (λ t p, parseAttestBatchContinuation (params_of t) = Ok p) (tail (e_wires enc)) ps ∧
    ∀ act rows, rows ≡ₚ map (stored act) ps → reassembleAttestBatch era hd rows = Err RATIO_CAP.
Proof.
  intros Hw (h & c & Ha)%encode_anatomy Hfit Hpad Hr. exists (head_read w enc h), (conts enc h c).
  split_and!; [intros t; by apply (head_reads w enc h c)|by apply (conts_read w enc h c)|].
  intros act rows Hp. unfold reassembleAttestBatch. rewrite (joined w enc h c Ha act rows Hp). cbn [rbind].
  by rewrite (too_dense w enc h c Ha Hr).
Qed.

(** A chunk boundary may leave the payload's padding alone in the last
    continuation, which the parser's own base64 test then refuses; the batch is
    never covered, although reassembly says canonicality is a matter of the
    concatenation only. *)
Theorem padding_only_chunk_refused w enc :
  publishable w → encodeAttestBatch sha256Hex era w = Some (Ok enc) →
  2 ≤ e_total enc ≤ ATTEST_BATCH_MAX_CHUNKS → padding_alone enc →
  (∃ t, last (e_wires enc) = Some t ∧ parseAttestBatchContinuation (params_of t) = Err BASE64) ∧
  ∀ hd rows, h_total hd = e_total enc → (∀ r, r ∈ rows → chunk_index r ≠ Some (e_total enc - 1)) →
    reassembleAttestBatch era hd rows = Err COVERAGE.
Proof.
  intros Hw (h & c & Ha)%encode_anatomy Hfit (t & Hl & Hf). split.
  - exists t. split; [done|]. by eapply (padding_refused w enc h c).
  - intros hd rows Ht Hm. unfold reassembleAttestBatch, concatenateBatchChunks. rewrite Ht, (proj2 (Z.ltb_lt 1 _)) by lia.
    by rewrite (uncovered rows (e_total enc) (e_total enc - 1)) by (lia || done).
Qed.

End RoundTrip.


(** ** At concrete windows

    A DEFLATE that stores its input behind a tag, and one that also knows a body
    by a single byte. *)

Section Toy.
Context (known : string).

Definition toy_deflate (s : string) : string := if String.eqb s known then "z" else String "s"%char s.

Definition toy_inflate (b : string) (cap : Z) : inflated :=
  match b with
  | EmptyString => BadData
  | String c r => let out := if Ascii.eqb c "z"%char then known else r in
                  if len out <=? cap then Inflated out else TooLarge
  end.

Definition toy_zlib : Zlib := {| deflateRaw := toy_deflate; inflateRaw := toy_inflate |}.

Lemma toy_laws : ZlibLaws toy_zlib.
Proof.
  split; intros s; cbn [deflateRaw inflateRaw toy_zlib]; unfold toy_deflate; destruct (String.eqb s known) eqn:E; try done.
  intros cap. apply String.eqb_eq in E as ->. done.
Qed.
End Toy.

Definition toy_sha (_ : string) : string := "0123456789abcdef0123456789abcdef0123456789abcdef0123456789abcdef".
Definition toy_era (_ : string) (_ : Z) : bool := true.

Fixpoint exes (n : nat) : string := match n with O => EmptyString | S n => String "x"%char (exes n) end.

Definition toy_window (stop : Z) (n : Z) : window :=
  Window "BTC" 1 stop 1 3 [[("response_payload", JStr (exes (Z.to_nat n)))]] [].

Definition toy_encoded (known : string) (w : window) : encoded :=
  match @encodeAttestBatch toy_sha toy_era (toy_zlib known) w with
  | Some (Ok e) => e
  | _ => Encoded EmptyString EmptyString 0 [] EmptyString 0 0
  end.

Lemma toy_publishable stop n :
  1 ≤ stop → valid_utf8 (buildAttestBatchBody toy_era (toy_window stop n)) = true →
  publishable toy_sha toy_era (toy_window stop n).
Proof. intros Hs Hu. split; [done|done|done|done|done|by repeat constructor|constructor]. Qed.

Lemma wire_roundtrip_witness :
  ∃ hd ps,
    (∀ t, e_wires (toy_encoded "" (toy_window 20 6000)) !! 0%nat = Some t →
          parseAttestBatchHead toy_sha (params_of t) = Ok hd) ∧
    Forall2 (λ t p, parseAttestBatchContinuation (params_of t) = Ok p) (tail (e_wires (toy_encoded "" (toy_window 20 6000)))) ps ∧
    ∀ act rows, rows ≡ₚ map (stored act) ps →
      @reassembleAttestBatch toy_era (toy_zlib "") hd rows = Ok (batch_object toy_era (toy_window 20 6000)).
Proof.
  assert (Hp : publishable toy_sha toy_era (toy_window 20 6000)) by (apply toy_publishable; [lia|vm_compute; reflexivity]).
  assert (He : @encodeAttestBatch toy_sha toy_era (toy_zlib "") (toy_window 20 6000) = Some (Ok (toy_encoded "" (toy_window 20 6000))))
    by (vm_compute; reflexivity).
  refine (wire_roundtrip toy_sha toy_era (ZL := toy_laws "") _ _ Hp He _ _ _).
  - vm_compute. discriminate.
  - intros (t & Ht & Hf). vm_compute in Ht. injection Ht as <-. vm_compute in Hf. by destruct Hf.
  - vm_compute. discriminate.
Defined.

Lemma encoder_ignores_ratio_cap_witness :
  let body := buildAttestBatchBody toy_era (toy_window 20 100) in
  ∃ hd ps,
    (∀ t, e_wires (toy_encoded body (toy_window 20 100)) !! 0%nat = Some t →
          parseAttestBatchHead toy_sha (params_of t) = Ok hd) ∧
    Forall2 (λ t p, parseAttestBatchContinuation (params_of t) = Ok p) (tail (e_wires (toy_encoded body (toy_window 20 100)))) ps ∧
    ∀ act rows, rows ≡ₚ map (stored act) ps → @reassembleAttestBatch toy_era (toy_zlib body) hd rows = Err RATIO_CAP.
Proof.
  intros body.
  assert (Hp : publishable toy_sha toy_era (toy_window 20 100)) by (apply toy_publishable; [lia|vm_compute; reflexivity]).
  assert (He : @encodeAttestBatch toy_sha toy_era (toy_zlib body) (toy_window 20 100) = Some (Ok (toy_encoded body (toy_window 20 100))))
    by (vm_compute; reflexivity).
  refine (encoder_ignores_ratio_cap toy_sha toy_era (ZL := toy_laws body) _ _ Hp He _ _ _).
  - vm_compute. discriminate.
  - intros (t & Ht & Hf). vm_compute in Ht. injection Ht as <-. vm_compute in Hf. by destruct Hf.
  - vm_compute. reflexivity.
Defined.

Lemma padding_only_chunk_refused_witness :
  (∃ t, last (e_wires (toy_encoded "" (toy_window 20 5687))) = Some t ∧
        parseAttestBatchContinuation (params_of t) = Err BASE64) ∧
  ∀ hd rows, h_total hd = 2 → (∀ r, r ∈ rows → chunk_index r ≠ Some 1) →
    @reassembleAttestBatch toy_era (toy_zlib "") hd rows = Err COVERAGE.
Proof.
  assert (Hp : publishable toy_sha toy_era (toy_window 20 5687)) by (apply toy_publishable; [lia|vm_compute; reflexivity]).
  assert (He : @encodeAttestBatch toy_sha toy_era (toy_zlib "") (toy_window 20 5687) = Some (Ok (toy_encoded "" (toy_window 20 5687))))
    by (vm_compute; reflexivity).
  assert (Hn : e_total (toy_encoded "" (toy_window 20 5687)) = 2) by (vm_compute; reflexivity).
  assert (Ha : padding_alone (toy_encoded "" (toy_window 20 5687))).
  { eexists. split; [vm_compute; reflexivity|]. left. vm_compute. reflexivity. }
  pose proof (padding_only_chunk_refused toy_sha toy_era (Z0 := toy_zlib "") _ _ Hp He ltac:(rewrite Hn; vm_compute; split; discriminate) Ha)
    as H.
  rewrite Hn in H. exact H.
Defined.

Lemma encoded_wires_fit_witness :
  let enc := toy_encoded "" (toy_window 20 6000) in
  Forall (λ t, len t ≤ ATTEST_BATCH_WIRE_MAX_BYTES) (e_wires enc) ∧ Z.of_nat (length (e_wires enc)) = e_total enc ∧
  (len (@deflateRaw (toy_zlib "") (e_body enc)) ≤ ATTEST_BATCH_MAX_INFLATED_BYTES + 326 → e_total enc ≤ 174).
Proof.
  intros enc.
  assert (He : @encodeAttestBatch toy_sha toy_era (toy_zlib "") (toy_window 20 6000) = Some (Ok enc)) by (vm_compute; reflexivity).
  exact (encoded_wires_fit toy_sha toy_era (Z0 := toy_zlib "") _ _ He eq_refl).
Defined.
