(* ===== verification/BcMath.v ===== *)
(** * The decimal helpers

    [src/bcmath.js] over the bignumber interface, and what each helper computes
    on operands that lie on a common decimal grid: exact integer arithmetic on
    numbers of steps, with every rounding written out. A fixed-notation text is
    read back by [bcnum], so a result is again a bignumber. *)

From Stdlib Require Import QArith Qround Qabs Lqa.
From S2P Require Import Prelude BigNum.
Open Scope Z_scope.

Section BcMath.
Context {B : BigNumber}.

(** [bcnum]: a numeral's bignumber, [0] for any other text. *)
Definition bcnum (s : string) : bn :=
  let s := trim s in
  if String.eqb s "" || negb (Decimal.is_decimal s) then bignumber "0" else bignumber s.

Definition zero : bn := bignumber "0".

Definition bcadd (a b : bn) (d : nat) : bn := bcnum (bn_format d (bn_add a b)).
Definition bcsub (a b : bn) (d : nat) : bn := bcnum (bn_format d (bn_sub a b)).
Definition bcmul (a b : bn) (d : nat) : bn := bcnum (bn_format d (bn_mul a b)).

(** A zero divisor gives 0: by the guard when it is spelled [0], else because
    [bcnum] reads the infinity of the division back as 0. *)
Definition is_zero (a : bn) : bool := match bn_cmp a zero with Eq => true | _ => false end.
Definition bcdiv (a b : bn) (d : nat) : bn := if is_zero b then zero else bcnum (bn_format d (bn_div a b)).

Definition getPrice (numerator denominator : bn) : bn := bcdiv numerator denominator 64.

Definition bcgt (a b : bn) : bool := bn_gt a b.
Definition bclt (a b : bn) : bool := bn_lt a b.
Definition bcgte (a b : bn) : bool := bn_gte a b.
Definition bclte (a b : bn) : bool := bn_lte a b.

Definition bcformat (a : bn) (d : nat) : string := bn_format d a.

(** [10^d] as a bignumber. *)
Fixpoint bn_pow10 (d : nat) : bn := match d with O => bignumber "1" | S d => bn_mul (bignumber "10") (bn_pow10 d) end.

Definition bcround (a : bn) (d : nat) : bn :=
  bcnum (bn_format d (bn_div (bn_floor (bn_add (bn_mul a (bn_pow10 d)) (bignumber "0.5"))) (bn_pow10 d))).

Definition bcmulfloor (a b : bn) (d : nat) : bn :=
  bcnum (bn_format d (bn_div (bn_floor (bn_mul (bn_mul a b) (bn_pow10 d))) (bn_pow10 d))).

(** ** Decimal texts carry no white space *)

Definition numeral_char (c : ascii) : bool :=
  is_digit c || Ascii.eqb c "."%char || Ascii.eqb c "-"%char || Ascii.eqb c "+"%char.

Lemma span_digits_spec s : s = (Decimal.span_digits s).1 +:+ (Decimal.span_digits s).2 ∧ all_chars is_digit (Decimal.span_digits s).1 = true.
Proof.
  induction s as [|c s [IH1 IH2]]; [done|]. cbn [Decimal.span_digits]. destruct (is_digit c) eqn:E; [|done].
  destruct (Decimal.span_digits s) as [a b]. cbn [fst snd] in *. split; [by rewrite IH1 at 1|]. cbn [all_chars]. by rewrite E.
Qed.

Lemma all_chars_weaken (p q : ascii → bool) s : (∀ c, p c = true → q c = true) → all_chars p s = true → all_chars q s = true.
Proof. intros H. induction s as [|c s IH]; [done|]. cbn [all_chars]. intros Hs. bools. by rewrite H, IH. Qed.

Lemma digit_numeral c : is_digit c = true → numeral_char c = true.
Proof. intros H. unfold numeral_char. by rewrite H. Qed.

Lemma is_decimal_chars s : Decimal.is_decimal s = true → all_chars numeral_char s = true.
Proof.
  unfold Decimal.is_decimal. intros H.
  assert (Hb : all_chars numeral_char (Decimal.strip_sign s).2 = true).
  { destruct (span_digits_spec (Decimal.strip_sign s).2) as [E Hd]. rewrite E.
    destruct (Decimal.span_digits _) as [ip rest]. cbn [fst snd] in *. rewrite all_chars_app.
    rewrite (all_chars_weaken _ _ _ digit_numeral Hd). destruct rest as [|c fp]; [done|]. bools. cbn [all_chars].
    rewrite (all_chars_weaken _ _ _ digit_numeral H1). unfold numeral_char. by rewrite H, !orb_true_r. }
  destruct s as [|c r]; [done|]. unfold Decimal.strip_sign in Hb. cbn [all_chars].
  destruct (Ascii.eqb c "-"%char) eqn:E1.
  { cbn [snd] in Hb. rewrite Hb. unfold numeral_char. by rewrite E1, !orb_true_r. }
  destruct (Ascii.eqb c "+"%char) eqn:E2; [|done].
  cbn [snd] in Hb. rewrite Hb. unfold numeral_char. by rewrite E2, !orb_true_r.
Qed.

Lemma numeral_not_space c : numeral_char c = true → is_space c = false.
Proof. destruct c as [[] [] [] [] [] [] [] []]; intros H; try discriminate H; reflexivity. Qed.

Lemma trim_numeral s : all_chars numeral_char s = true → trim s = s.
Proof.
  intros H. unfold trim. assert (E : trimStart s = s).
  { destruct s as [|c s]; [done|]. cbn [all_chars] in H. bools. cbn [trimStart]. by rewrite numeral_not_space. }
  rewrite E. clear E. induction s as [|c s IH]; [done|]. cbn [all_chars] in H. bools. cbn [trimEnd]. rewrite IH by done.
  destruct s as [|c' s]; [|done]. by rewrite numeral_not_space.
Qed.

Lemma bcnum_decimal s : Decimal.is_decimal s = true → bcnum s = bignumber s.
Proof.
  intros H. unfold bcnum. rewrite trim_numeral by by apply is_decimal_chars. rewrite H.
  destruct (String.eqb s "") eqn:E; [|done]. apply String.eqb_eq in E as ->. done.
Qed.
End BcMath.

(** ** The helpers on a grid *)

Section Steps.
Context {B : BigNumber} {L : BigNumberLaws B}.

(** A result is read back from its text. *)
Lemma reread_steps d (x : bn) : steps d (bcnum (bn_format d x)) (round_steps d (bn_val x)).
Proof.
  rewrite bcnum_decimal by apply bn_format_decimal. unfold steps, on_grid.
  rewrite bignumber_val by apply bn_format_decimal. apply bn_format_val.
Qed.

Lemma format_steps d k (x : bn) z : steps k x z → (k ≤ d)%nat → steps d (bcnum (bcformat x d)) (z * 10 ^ Z.of_nat (d - k)).
Proof. intros Hx Hk. pose proof (reread_steps d x) as H. by rewrite (round_steps_grid k d _ z) in H. Qed.

Lemma format_steps_same d (x : bn) z : steps d x z → steps d (bcnum (bcformat x d)) z.
Proof. intros Hx. pose proof (format_steps d d x z Hx (le_n d)) as H. rewrite Nat.sub_diag, Z.mul_1_r in H. exact H. Qed.

Lemma format_steps_down d j (x : bn) z :
  steps (d + j) x z → 0 ≤ z → steps d (bcnum (bcformat x d)) ((2 * z + 10 ^ Z.of_nat j) / (2 * 10 ^ Z.of_nat j)).
Proof. intros Hx Hz. pose proof (reread_steps d x) as H. by rewrite (round_steps_down d j _ z) in H. Qed.

Lemma bcadd_steps d a b x y :
  (d ≤ 60)%nat → steps d a x → steps d b y → Z.abs (x + y) < 10 ^ 64 → steps d (bcadd a b d) (x + y).
Proof. intros. apply format_steps_same. by apply steps_add. Qed.

Lemma bcsub_steps d a b x y :
  (d ≤ 60)%nat → steps d a x → steps d b y → Z.abs (x - y) < 10 ^ 64 → steps d (bcsub a b d) (x - y).
Proof. intros. apply format_steps_same. by apply steps_sub. Qed.

(** A product lies on the sum of the grids. *)
Lemma bn_mul_steps j k a b x y :
  (j + k ≤ 60)%nat → steps j a x → steps k b y → Z.abs (x * y) < 10 ^ 64 → steps (j + k) (bn_mul a b) (x * y).
Proof.
  unfold steps, on_grid. intros Hk Ha Hb Hxy.
  assert (H : (bn_val a * bn_val b == x * y # pow10 (j + k))%Q).
  { rewrite Ha, Hb. unfold Qeq, Qmult. cbn [Qnum Qden]. rewrite !Pos2Z.inj_mul, !pow10_pos, Nat2Z.inj_add, Z.pow_add_r by lia. ring. }
  rewrite bn_mul_val; [exact H|]. exists (j + k)%nat, (x * y). done.
Qed.

Lemma bcdiv_zero a b d : steps d b 0 → bcdiv a b d = zero.
Proof.
  intros Hb. unfold bcdiv, is_zero, zero. rewrite bn_cmp_val, (on_grid_cmp d _ _ 0 0 Hb (steps_zero d)). done.
Qed.

Lemma is_zero_steps d b y : steps d b y → is_zero b = (y =? 0).
Proof.
  intros Hb. unfold is_zero, zero. rewrite bn_cmp_val, (on_grid_cmp d _ _ y 0 Hb (steps_zero d)). unfold Z.eqb.
  by destruct y.
Qed.

(** Half of a sum. *)
Lemma bcdiv_two_steps d a x :
  (d < 60)%nat → steps d a x → 0 ≤ x < 10 ^ 60 → steps d (bcdiv a (bignumber "2") d) ((x + 1) / 2).
Proof.
  intros Hd Ha Hx. assert (H2 : steps 0 (bignumber "2") 2) by by apply (steps_literal "2" 2 0).
  unfold bcdiv. rewrite (is_zero_steps 0 _ 2 H2). cbn [Z.eqb].
  assert (Hq : on_grid (d + 1) (bn_val a / bn_val (bignumber "2")) (x * 5)).
  { unfold steps, on_grid in *. rewrite Ha, H2. unfold Qeq, Qdiv, Qinv, Qmult. cbn [Qnum Qden].
    rewrite !Pos2Z.inj_mul, !pow10_pos, Nat2Z.inj_add, Z.pow_add_r by lia. change (10 ^ Z.of_nat 1) with 10.
    change (10 ^ Z.of_nat 0) with 1. ring. }
  assert (Hs : steps (d + 1) (bn_div a (bignumber "2")) (x * 5)).
  { unfold steps, on_grid. eapply Qeq_trans; [apply bn_div_val|exact Hq]; [|exists (d + 1)%nat, (x * 5); split_and!; [lia|lia|done]].
    intros E. unfold steps, on_grid in H2. rewrite E in H2. discriminate H2. }
  pose proof (format_steps_down d 1 _ _ Hs ltac:(lia)) as H. change (10 ^ Z.of_nat 1) with 10 in H.
  replace ((x + 1) / 2) with ((2 * (x * 5) + 10) / (2 * 10)); [exact H|].
  replace (2 * (x * 5) + 10) with ((x + 1) * 10) by ring. rewrite Z.div_mul_cancel_r by lia. done.
Qed.
End Steps.
