(* ===== verification/OracleBand.v ===== *)
(** * Price spellings, the deviation band and the round band

    [src/oracle/canonical_price.js], [src/consensus/deviation_band.js] and
    [src/oracle/oracle_round_band.js]: what text is a price, how far two prices
    may be apart, and which round numbers the schedule can have produced. A
    price is compared through the bignumber interface; a double is the exact
    value of its numeral except at the two ends of the admitted range. *)

From Stdlib Require Import QArith Qround Qabs Lqa.
From S2P Require Import Prelude BigNum BcMath.
Open Scope Z_scope.

(** ** Canonical spellings *)

Definition PRICE_MAX_CHARS : nat := 40.

(** Digits, and digits after a point if there is one. *)
Definition CANONICAL_PRICE (s : string) : bool :=
  let '(ip, rest) := Decimal.span_digits s in
  negb (String.eqb ip "") &&
  match rest with
  | EmptyString => true
  | String c fp => Ascii.eqb c "."%char && negb (String.eqb fp "") && all_chars is_digit fp
  end.

(** An integer part without a leading zero, and at most eight decimals. *)
Definition PRICE_VALUE_RE_CANONICAL (s : string) : bool :=
  let '(ip, rest) := Decimal.span_digits s in
  match ip with
  | EmptyString => false
  | String c r => negb (Ascii.eqb c "0"%char) || String.eqb r ""
  end &&
  match rest with
  | EmptyString => true
  | String c fp => Ascii.eqb c "."%char && negb (String.eqb fp "") && (String.length fp <=? 8)%nat && all_chars is_digit fp
  end.

(** A submitted value: a text, a number given as [String] prints it ([None]
    when it is not finite), or any other type. *)
Inductive jsprice := PText (s : string) | PNumber (shown : option string) | POther.

Definition canonicalPrice (v : jsprice) : option string :=
  let spelled s := if (PRICE_MAX_CHARS <? String.length s)%nat then None else if CANONICAL_PRICE s then Some s else None in
  match v with
  | PText s => spelled s
  | PNumber shown => shown ≫= spelled
  | POther => None
  end.

Definition PRICE_MAX : Z := 10000000000.

(** [0 < v < PRICE_MAX] of [v = parseFloat(s)]: the numerals whose nearest double
    is positive, and below [10^10], whose neighbour below is [2^-19] away. *)
Definition in_bounds (s : string) : bool :=
  match parseFloat s with
  | None => false
  | Some q => negb (Qle_bool q (1 # Pos.pow 2 1075)) && negb (Qle_bool ((PRICE_MAX # 1) - (1 # Pos.pow 2 20)) q)
  end.

(** ** The deviation band *)

Section Band.
Context {B : BigNumber}.

Definition ORACLE_DEVIATION_THRESHOLD : string := "0.05".

Definition deviationFrom (value reference : bn) (scale : nat) : bn :=
  let diff := bcsub value reference scale in
  let absDiff := if bclt diff (bignumber "0") then bcmul diff (bignumber "-1") scale else diff in
  bcdiv absDiff reference scale.

Definition exceedsBand (value reference : bn) (threshold : string) (scale : nat) : bool :=
  bcgt (deviationFrom value reference scale) (bcnum threshold).

Definition twoSourceSpread (lo hi : bn) (scale : nat) : bn := bcdiv (bcsub hi lo scale) (bcadd lo hi scale) scale.

Definition twoSourceSpreadExceeds (lo hi : bn) (threshold : string) (scale : nat) : bool :=
  bcgt (twoSourceSpread lo hi scale) (bcnum threshold).
End Band.

(** ** The round band *)

Definition DEFAULT_FUTURE_ROUND_TOLERANCE : Z := 2.
Definition MAX_SAFE_INTEGER : Z := 9007199254740991.

Definition safe (n : Z) : bool := Z.abs n <=? MAX_SAFE_INTEGER.

(** Milliseconds; [None] for a value that is not a finite number. *)
Definition currentRoundAt (nowMs epochStartMs roundIntervalMs : option Z) : option Z :=
  match nowMs, epochStartMs, roundIntervalMs with
  | Some now, Some epoch, Some interval =>
      if interval <=? 0 then None
      else if now <? epoch then None
      else let round := (now - epoch) / interval in if safe round then Some round else None
  | _, _, _ => None
  end.

Record band := Band { b_current : Z; b_max : Z; b_tolerance : Z }.

Definition roundBand (nowMs epochStartMs roundIntervalMs futureTolerance : option Z) : option band :=
  match currentRoundAt nowMs epochStartMs roundIntervalMs with
  | None => None
  | Some current =>
      let tolerance := match futureTolerance with
                       | Some t => if t <? 0 then DEFAULT_FUTURE_ROUND_TOLERANCE else t
                       | None => DEFAULT_FUTURE_ROUND_TOLERANCE
                       end in
      Some (Band current (current + tolerance) tolerance)
  end.

Definition isRoundImplausible (round : Z) (b : option band) : bool :=
  if negb (safe round) || (round <? 0) then true
  else match b with None => false | Some b => b_max b <? round end.

Fixpoint dedup (seen : list Z) (l : list Z) : list Z :=
  match l with
  | [] => []
  | n :: r => if existsb (Z.eqb n) seen then dedup seen r else n :: dedup (n :: seen) r
  end.

(** Integer rounds; both lists ascending, without duplicates. *)
Definition partitionRounds (rounds : list Z) (b : option band) : list Z * list Z :=
  let l := dedup [] rounds in
  (isort Z.leb (filter (λ n, isRoundImplausible n b = false) l),
   isort Z.leb (filter (λ n, isRoundImplausible n b = true) l)).

(** ** The band on eight-decimal prices *)

Section Exact.
Context {B : BigNumber} {L : BigNumberLaws B}.

Lemma threshold_steps : steps 18 (bcnum ORACLE_DEVIATION_THRESHOLD) 50000000000000000.
Proof.
  rewrite bcnum_decimal by done. pose proof (steps_literal "0.05" 5 2 eq_refl eq_refl) as H.
  exact (steps_refine 2 18 _ _ ltac:(lia) H).
Qed.

Lemma abs_diff_steps v r x m :
  steps 8 v x → steps 8 r m → 0 ≤ x < 10 ^ 18 → 0 < m < 10 ^ 18 →
  let diff := bcsub v r 18 in
  steps 18 (if bclt diff (bignumber "0") then bcmul diff (bignumber "-1") 18 else diff) (Z.abs (x - m) * 10 ^ 10).
Proof.
  intros Hv Hr Hx Hm diff. pose proof (steps_refine 8 18 _ _ ltac:(lia) Hv) as Hv'.
  pose proof (steps_refine 8 18 _ _ ltac:(lia) Hr) as Hr'. change (10 ^ Z.of_nat (18 - 8)) with (10 ^ 10) in *.
  assert (Hd : steps 18 diff (x * 10 ^ 10 - m * 10 ^ 10)) by (apply bcsub_steps; [lia|done|done|lia]).
  unfold bclt. rewrite (steps_lt 18 _ _ _ _ Hd (steps_zero 18)). destruct (_ <? 0) eqn:E; bools.
  - pose proof (steps_literal "-1" (-1) 0 eq_refl eq_refl) as H1.
    assert (Hm1 : steps (18 + 0) (bn_mul diff (bignumber "-1")) ((x * 10 ^ 10 - m * 10 ^ 10) * -1)) by (apply bn_mul_steps; [lia|done|done|lia]).
    pose proof (format_steps_same 18 _ _ Hm1) as H.
    replace (Z.abs (x - m) * 10 ^ 10) with ((x * 10 ^ 10 - m * 10 ^ 10) * -1) by lia. exact H.
  - replace (Z.abs (x - m) * 10 ^ 10) with (x * 10 ^ 10 - m * 10 ^ 10) by lia. exact Hd.
Qed.

(** The rounded, 64-digit test is the integer test. *)
Lemma band_exact v r x m :
  steps 8 v x → steps 8 r m → 0 ≤ x < 10 ^ 18 → 0 < m < 10 ^ 17 →
  exceedsBand v r ORACLE_DEVIATION_THRESHOLD 18 = (m <? 20 * Z.abs (x - m)).
Proof.
  intros Hv Hr Hx Hm. pose proof (abs_diff_steps v r x m Hv Hr Hx ltac:(lia)) as Hd. cbv zeta in Hd.
  unfold exceedsBand, deviationFrom, bcgt. set (d := if bclt _ _ then _ else _) in *. clearbody d.
  unfold bcdiv. rewrite (is_zero_steps 8 r m Hr), (proj2 (Z.eqb_neq m 0)) by lia.
  rewrite (steps_gt 18 _ _ _ _ (reread_steps 18 _) threshold_steps). set (q := bn_div d r).
  assert (Hr0 : ¬ (bn_val r == 0)%Q).
  { unfold steps, on_grid in Hr. rewrite Hr. unfold Qeq. simpl. lia. }
  set (a := Z.abs (x - m)) in *. assert (Ha : 0 ≤ a < 10 ^ 18) by lia.
  assert (Hrho : (bn_val d / bn_val r == a # Z.to_pos m)%Q).
  { unfold steps, on_grid in Hd, Hr. rewrite Hd, Hr. destruct m as [|m|m]; try lia.
    unfold Qeq, Qdiv, Qinv, Qmult. cbn [Qnum Qden Z.to_pos]. rewrite !Pos2Z.inj_mul, !pow10_pos.
    change (Z.of_nat 18) with 18. change (Z.of_nat 8) with 8. ring. }
  pose proof (bn_div_close d r Hr0) as Hc. fold q in Hc. rewrite Hrho in Hc. set (rho := (a # Z.to_pos m)%Q) in *.
  assert (H0 : (0 <= rho)%Q) by (unfold rho, Qle; simpl; lia).
  rewrite (Qabs_pos rho) in Hc by done. apply Qabs_Qle_condition in Hc as [Hlo Hhi].
  assert (He : (1 # pow10 63 == 1 # 1000000000000000000000000000000000000000000000000000000000000000)%Q) by done.
  rewrite He in Hlo, Hhi. clear He.
  apply eq_true_iff_eq. rewrite !Z.ltb_lt. destruct (decide (m < 20 * a)) as [Hb|Hb].
  - split; [done|intros _].
    assert (Hb' : (rho >= (1 # 20) + (1 # 1999999999999999980))%Q).
    { unfold rho, Qle. cbn [Qnum Qden Qplus]. rewrite Z2Pos.id by lia. lia. }
    assert (Hq : (bn_val q >= (1 # 20) + (1 # 2000000000000000000))%Q) by lra.
    apply Z.lt_le_trans with 50000000000000001; [lia|].
    rewrite round_steps_nonneg by lra. change 50000000000000001 with (Qfloor (50000000000000001 # 1)). apply Qfloor_resp_le.
    change (Zpos (pow10 18) # 1)%Q with (1000000000000000000 # 1)%Q. lra.
  - split; [|lia]. intros Hq. exfalso.
    assert (Hb' : (rho <= 1 # 20)%Q) by (unfold rho, Qle; cbn [Qnum Qden]; rewrite Z2Pos.id by lia; lia).
    revert Hq. apply Z.le_ngt.
    assert (Hq0 : (0 <= bn_val q)%Q) by lra.
    rewrite round_steps_nonneg by done.
    change (Zpos (pow10 18) # 1)%Q with (1000000000000000000 # 1)%Q. clearbody rho q. clear -Hhi Hb' H0.
    set (e := (bn_val q * (1000000000000000000 # 1) + (1 # 2))%Q).
    assert (He : (e < 50000000000000001 # 1)%Q) by (unfold e; lra).
    pose proof (Qle_lt_trans _ _ _ (Qfloor_le e) He) as Hf. change (50000000000000001 # 1)%Q with (inject_Z 50000000000000001) in Hf.
    rewrite <-Zlt_Qlt in Hf. lia.
Qed.
End Exact.
