(* ===== verification/OracleAggregate.v ===== *)
(** * The oracle's aggregate and its clamp reference

    [src/oracle/consensus/aggregate.js] and [clamp_reference.js]: the trimmed
    median of a round's submissions, the even-split gate, the clamp to the last
    finalized price, the digest of a proposed price array, and the cache the
    clamp reads. A round's submissions are the entries of its map in insertion
    order, with the price texts the submission door admitted; the clamp's
    reference is an argument of the aggregation. *)

From S2P Require Import Prelude BigNum BcMath OracleBand Json.
From Stdlib Require Import QArith_base.
Open Scope Z_scope.

(** ** Submissions *)

Record entry := Entry { coinPair : string; price : string }.

Record submission := Submission { prices : list entry; pubkey : option string }.

(** A round's map: sender to submission, in insertion order. *)
Abbreviation submissions := (list (string * submission)) (only parsing).

Definition ORACLE_MAX_CHANGE_PER_ROUND : string := "0.25".
Definition XCHAIN_PRICE_MAX_CHANGE_PER_ROUND : string := "0.1".

(** [String(maxChangeForPair(pair))]. *)
Definition maxChangeForPair (pair : string) : string :=
  if String.eqb pair "XCHAIN/USD" then XCHAIN_PRICE_MAX_CHANGE_PER_ROUND else ORACLE_MAX_CHANGE_PER_ROUND.

Section Aggregate.
Context {B : BigNumber}.

(** The first usable price a submission has for the pair. *)
Definition usable (pair : string) (p : entry) : bool :=
  String.eqb (coinPair p) pair && negb (String.eqb (price p) "") && in_bounds (price p).

Definition pairValue (pair : string) (s : string * submission) : option string :=
  price <$> head (filter (λ p, usable pair p = true) (prices s.2)).

Definition collectPairValues (subs : submissions) (pair : string) : list string := omap (pairValue pair) subs.

(** [compareExact(a, b) <= 0]. *)
Definition exact_le (a b : string) : bool :=
  match bn_cmp (bcnum a) (bcnum b) with Lt => true | Gt => false | Eq => String.leb a b end.

(** [Math.ceil(n * 0.15)]. *)
Definition trimCount (n : nat) : nat := ((3 * n + 19) / 20)%nat.

Definition trimPairValues (values : list string) : list string :=
  let values := isort exact_le values in
  let n := length values in
  let t := trimCount n in
  if ((0 <? t) && (2 * t <? n))%nat then take (n - 2 * t) (drop t values) else values.

(** A price text as the arithmetic reads it. *)
Definition at_ (values : list string) (i : nat) : string := default EmptyString (values !! i).

Definition medianOf (values : list string) (mid : nat) : string :=
  if (length values mod 2 =? 0)%nat
  then bcformat (bcdiv (bcadd (bignumber (at_ values (mid - 1))) (bignumber (at_ values mid)) 18) (bignumber "2") 18) 8
  else bcformat (bcnum (at_ values mid)) 8.

Definition evenSplitRejected (values : list string) (mid : nat) (median : string) : bool :=
  let lo := bcformat (bcnum (at_ values (mid - 1))) 8 in
  let hi := bcformat (bcnum (at_ values mid)) 8 in
  exceedsBand (bignumber lo) (bignumber median) ORACLE_DEVIATION_THRESHOLD 18 ||
  exceedsBand (bignumber hi) (bignumber median) ORACLE_DEVIATION_THRESHOLD 18.

(** [last]: the pair's last finalized price. *)
Definition clampToLastFinalized (last : option string) (pair price : string) : string :=
  match last with
  | None => price
  | Some last =>
      if negb (bcgt (bcnum last) (bcnum "0")) then price
      else
        let maxDelta := bcmul (bignumber last) (bignumber (maxChangeForPair pair)) 8 in
        let hi := bcadd (bignumber last) maxDelta 8 in
        let lo := bcsub (bignumber last) maxDelta 8 in
        if bcgt (bcnum price) hi then bcformat hi 8
        else if bclt (bcnum price) lo then bcformat lo 8
        else price
  end.

Definition aggregate (last : option string) (subs : submissions) (pair : string) : option string :=
  let values := collectPairValues subs pair in
  match values with
  | [] => None
  | _ =>
      let values := trimPairValues values in
      match values with
      | [] => None
      | _ =>
          let mid := (length values / 2)%nat in
          let median := medianOf values mid in
          if negb (bcgt (bcnum median) (bcnum "0")) then None
          else if (length values mod 2 =? 0)%nat && evenSplitRejected values mid median then None
          else Some (clampToLastFinalized last pair median)
      end
  end.

(** What [aggregate] leaves in [sortedOut]. *)
Definition sortedOut (subs : submissions) (pair : string) : option (list string) :=
  match collectPairValues subs pair with
  | [] => None
  | values => match trimPairValues values with [] => None | l => Some l end
  end.

(** The pairs of a round in the order they are first seen. *)
Definition coinPairs (subs : submissions) : list string :=
  foldl (λ seen p, if bool_decide (p ∈ seen) then seen else seen ++ [p]) []
    (filter (λ p, p ≠ "") (coinPair <$> (subs ≫= λ s, prices s.2))).

Definition pair_le (a b : string * string) : bool := String.leb a.1 b.1.

(** [lasts]: the reference of every pair. *)
Definition aggregateAll (lasts : string → option string) (subs : submissions) : list (string * string) :=
  isort pair_le (omap (λ pair, (λ v, (pair, v)) <$> aggregate (lasts pair) subs pair) (coinPairs subs)).

Definition evenSetMiddles (last : option string) (pair : string) (values : option (list string)) : option (list string) :=
  match values with
  | None | Some [] => None
  | Some values =>
      if (length values mod 2 =? 0)%nat then
        let mid := (length values / 2)%nat in
        Some ((λ v, clampToLastFinalized last pair (bcformat (bcnum v) 8)) <$> [at_ values (mid - 1); at_ values mid])
      else None
  end.
End Aggregate.

(** ** The digest of a price array

    An entry of a wire array, each field as [String] prints it; [None] for a
    field that is missing or null. *)

Record wireprice := WirePrice { wp_coinPair : option string; wp_price : option string }.

Definition projected (p : wireprice) : string * string := (default EmptyString (wp_coinPair p), default EmptyString (wp_price p)).

Definition projected_le (a b : string * string) : bool :=
  if String.eqb a.1 b.1 then String.leb a.2 b.2 else String.leb a.1 b.1.

Definition canonicalDigestPrices (l : list wireprice) : list (string * string) := isort projected_le (map projected l).

Definition digest_text (round : Z) (l : list wireprice) : string :=
  stringify (JObj [("round", JInt round);
    ("prices", JArr (map (λ p, JObj [("coinPair", JStr p.1); ("price", JStr p.2)]) (canonicalDigestPrices l)))]).

Definition digest (sha256Hex : string → string) (round : Z) (l : list wireprice) : string := sha256Hex (digest_text round l).

(** ** The reference cache *)

Record reference := Reference {
  lastPrices : gmap string string;
  lastRounds : gmap string Z;
  refreshRound : option Z;
  staleClampReference : Z;
  clampReference : option (Z * gmap string string) }.

Definition no_reference : reference := Reference ∅ ∅ None 0 None.

Definition with_prices p r (c : reference) : reference := Reference p r (refreshRound c) (staleClampReference c) (clampReference c).
Definition with_refreshRound n (c : reference) : reference := Reference (lastPrices c) (lastRounds c) (Some n) (staleClampReference c) (clampReference c).
Definition with_stale n (c : reference) : reference := Reference (lastPrices c) (lastRounds c) (refreshRound c) n (clampReference c).
Definition with_clampReference x (c : reference) : reference := Reference (lastPrices c) (lastRounds c) (refreshRound c) (staleClampReference c) x.

Definition getLastFinalizedPrice (c : reference) (pair : string) : option string :=
  match lastPrices c !! pair with Some EmptyString => None | x => x end.

Definition lastFinalizedRoundFor (c : reference) (pair : string) : option Z := lastRounds c !! pair.

Definition newer (r : Z) (m : option Z) : option Z := match m with None => Some r | Some m => Some (Z.max r m) end.

Definition maxCachedFinalizedRound (c : reference) : option Z := foldr newer None (map_to_list (lastRounds c)).*2.

(** [round]: [None] when it is not a finite number; [b]: [oracleRoundBand()]. *)
Definition noteFinalizedPrice (b : option band) (pair : string) (price : option string) (round : option Z) (c : reference) : reference * bool :=
  match price with
  | None | Some EmptyString => (c, false)
  | Some price =>
      if String.eqb pair "" then (c, false)
      else
        let refused := match round with
                       | None => false
                       | Some r => match b with Some b => b_max b <? r | None => false end ||
                                   match lastFinalizedRoundFor c pair with Some known => r <? known | None => false end
                       end in
        if refused then (c, false)
        else (with_prices (<[pair := price]> (lastPrices c))
                (match round with Some r => <[pair := r]> (lastRounds c) | None => lastRounds c end) c, true)
  end.

(** Rows of [price_snapshots] as the database returns them. *)
Record snapshotrow := SnapshotRow { sr_pair : string; sr_price : option string; sr_round : option Z; sr_finalized : bool }.

Definition note_row (b : option band) (c : reference) (r : snapshotrow) : reference :=
  if String.eqb (sr_pair r) "" then c
  else match sr_price r with
       | None => c
       | p => (noteFinalizedPrice b (sr_pair r) p (sr_round r) c).1
       end.

(** [answer]: the rows of the indexed read, [None] when it failed. *)
Definition seedLastFinalizedPrices (b : option band) (answer : option (list snapshotrow)) (c : reference) : reference :=
  foldl (note_row b) c (default [] answer).

Definition refreshLastFinalizedForRound (b : option band) (round : Z) (answer : option (list snapshotrow)) (c : reference) : reference :=
  if bool_decide (refreshRound c = Some round) then c
  else
    let c := with_refreshRound round c in
    let earlier pair := match lastRounds c !! pair with Some r => r <? round | None => true end in
    let dropped := negb (bool_decide (map_Forall (λ pair _, earlier pair = true) (lastRounds c))) in
    let c := with_prices (filter (λ kv, earlier kv.1 = true) (lastPrices c)) (filter (λ kv, earlier kv.1 = true) (lastRounds c)) c in
    let upToDate c := match maxCachedFinalizedRound c with Some m => round - 1 <=? m | None => false end in
    if negb dropped && upToDate c then c
    else
      let c := seedLastFinalizedPrices b answer c in
      if upToDate c then c else with_stale (staleClampReference c + 1) c.

Definition updateLastFinalizedPrices (b : option band) (l : list (string * string)) (round : option Z) (c : reference) : reference :=
  foldl (λ c p, if String.eqb p.1 "" || String.eqb p.2 "" then c else (noteFinalizedPrice b p.1 (Some p.2) round c).1) c l.

Definition getClampReference (c : reference) (round : Z) : option (gmap string string) :=
  match clampReference c with
  | Some (r, p) => if r =? round then Some p else None
  | None => None
  end.

(** The cache's part of storing a round. *)
Definition finishStoredRound (b : option band) (round : Z) (l : list (string * string)) (c : reference) : reference :=
  updateLastFinalizedPrices b l (Some round) (with_clampReference (Some (round, lastPrices c)) c).

Definition noteIngestedPriceRow (b : option band) (r : snapshotrow) (c : reference) : reference * bool :=
  if sr_finalized r then noteFinalizedPrice b (sr_pair r) (sr_price r) (sr_round r) c else (c, false).
