(* ===== verification/OracleCosign.v ===== *)
(** * The oracle's submission door and co-sign gate

    [canonicalSubmittedPrices] and [droppedAsDuplicateOrOverCap] of
    [src/oracle/round/messages.js], [broadcastOwnSubmission] of
    [src/oracle/round/execute.js], and [src/oracle/consensus/cosign_gate.js]: what
    enters a round's map, and what a follower checks before it signs a leader's
    prices. *)

From S2P Require Import Prelude Ordered BigNum BcMath OracleBand OracleAggregate.
From Stdlib Require Import QArith_base.
Open Scope Z_scope.

(** ** The submission door *)

Record wireentry := WireEntry { we_pair : string; we_price : jsprice }.

Definition admitted_entry (canonicalPairs : gset string) (p : wireentry) : option entry :=
  if bool_decide (we_pair p ∉ canonicalPairs) then None
  else match canonicalPrice (we_price p) with
       | Some canon => if in_bounds canon then Some (Entry (we_pair p) canon) else None
       | None => None
       end.

(** [None]: the whole submission is discarded. *)
Definition canonicalSubmittedPrices (canonicalPairs : gset string) (l : list wireentry) : option (list entry) :=
  match omap (admitted_entry canonicalPairs) l with [] => None | valid => Some valid end.

Definition droppedAsDuplicateOrOverCap (maxSubmissionsPerRound : Z) (subs : submissions) (senderPubkey : option string) : bool :=
  match senderPubkey with
  | Some pk => negb (String.eqb pk "") && existsb (λ s, bool_decide (pubkey s.2 = Some pk)) subs
  | None => false
  end || (maxSubmissionsPerRound <=? Z.of_nat (length subs)).

(** The recording part of [handleMessage], for a sender the admission gate passed. *)
Definition recordSubmission (canonicalPairs : gset string) (cap : Z) (sender : string) (senderPubkey : option string)
    (l : list wireentry) (subs : submissions) : submissions :=
  if existsb (λ s, String.eqb s.1 sender) subs then subs
  else if droppedAsDuplicateOrOverCap cap subs senderPubkey then subs
  else match canonicalSubmittedPrices canonicalPairs l with
       | Some valid => subs ++ [(sender, Submission valid senderPubkey)]
       | None => subs
       end.

(** [broadcastOwnSubmission]: this hub's own prices, as its fetcher spelled them, go
    into the map under its address without the door. *)
Definition broadcastOwnSubmission (validatorAddr : string) (identityKey : option string) (own : list entry) (subs : submissions) : submissions :=
  m_set validatorAddr (Submission own (toLowerCase <$> identityKey)) subs.

(** What enters a round's map: a peer's envelope, the hub's own submission. *)
Inductive arrival :=
| Peer (sender : string) (senderPubkey : option string) (l : list wireentry)
| Own (prices : list entry).

Definition record_arrival (canonicalPairs : gset string) (cap : Z) (validatorAddr : string) (identityKey : option string)
    (subs : submissions) (a : arrival) : submissions :=
  match a with
  | Peer sender pk l => recordSubmission canonicalPairs cap sender pk l subs
  | Own own => broadcastOwnSubmission validatorAddr identityKey own subs
  end.

(** ** The co-sign gate *)

Inductive rejection :=
| NonCanonicalPrice | OutOfRange | NonCanonicalPair | Deviation | HistoricalDeviation | UnverifiableNewPair
| EmptyProposal | MissingPairs.

Section Cosign.
Context {B : BigNumber}.

(** [resolve]: [resolveSenderPubkey]; [lasts]: [getLastFinalizedPrice]. *)
Context (resolve : string → option string) (lasts : string → option string).

(** A submission of the proposer: from its address, or from an address bound to
    its key. *)
Definition proposerHeld (sender : string) (s : string * submission) : bool :=
  String.eqb s.1 sender ||
  match resolve sender with
  | None | Some EmptyString => false
  | Some proposerPk =>
      bool_decide (match pubkey s.2 with
                   | None | Some EmptyString => resolve s.1
                   | Some pk => Some (toLowerCase pk)
                   end = Some proposerPk)
  end.

Definition refSubs (sender : string) (subs : submissions) : submissions := filter (λ s, proposerHeld sender s = false) subs.

Definition proposerPairs (sender : string) (subs : submissions) : list string :=
  filter (λ p, p ≠ "") (coinPair <$> (filter (λ s, proposerHeld sender s = true) subs ≫= λ s, prices s.2)).

Definition find_pair {A} (pair : string) (l : list (string * A)) : option A := snd <$> head (filter (λ p, p.1 = pair) l).

Definition localByPair (sender : string) (subs : submissions) : list (string * string) := aggregateAll lasts (refSubs sender subs).

Definition middlesByPair (sender : string) (subs : submissions) (pair : string) : option (list string) :=
  if bool_decide (pair ∈ proposerPairs sender subs)
  then evenSetMiddles (lasts pair) pair (sortedOut (refSubs sender subs) pair)
  else None.

Definition localDeviationRejected (canon local : string) (middles : option (list string)) : bool :=
  forallb (λ ref, exceedsBand (bignumber ref) (bignumber canon) ORACLE_DEVIATION_THRESHOLD 18) (default [local] middles).

Definition historicalBandRejected (canon lastPrice : string) : bool :=
  let histDelta := bcmul (bignumber lastPrice) (bignumber ORACLE_MAX_CHANGE_PER_ROUND) 8 in
  let histHi := bcadd (bignumber lastPrice) histDelta 8 in
  let histLo := bcsub (bignumber lastPrice) histDelta 8 in
  bcgt (bcnum canon) histHi || bclt (bcnum canon) histLo.

Definition historicalRejected (allowUnverifiedPairs : bool) (pair canon : string) : option rejection :=
  match lasts pair with
  | Some lastPrice =>
      if bcgt (bcnum lastPrice) (bcnum "0")
      then if historicalBandRejected canon lastPrice then Some HistoricalDeviation else None
      else if allowUnverifiedPairs then None else Some UnverifiableNewPair
  | None => if allowUnverifiedPairs then None else Some UnverifiableNewPair
  end.

(** [canonicalPairs]: [None] when the whitelist is empty or absent. *)
Definition priceRejected (allowUnverifiedPairs : bool) (canonicalPairs : option (gset string)) (sender : string)
    (subs : submissions) (p : wireentry) : option rejection :=
  match canonicalPrice (we_price p) with
  | None => Some NonCanonicalPrice
  | Some canon =>
      if negb (PRICE_VALUE_RE_CANONICAL canon) then Some NonCanonicalPrice
      else if negb (in_bounds canon) then Some OutOfRange
      else if match canonicalPairs with Some s => bool_decide (we_pair p ∉ s) | None => false end then Some NonCanonicalPair
      else match find_pair (we_pair p) (localByPair sender subs) with
           | Some local =>
               if bcgt (bcnum local) (bcnum "0")
               then if localDeviationRejected canon local (middlesByPair sender subs (we_pair p)) then Some Deviation else None
               else historicalRejected allowUnverifiedPairs (we_pair p) canon
           | None => historicalRejected allowUnverifiedPairs (we_pair p) canon
           end
  end.

Definition coverageRejects (l : list wireentry) (sender : string) (subs : submissions) : option rejection :=
  match l with
  | [] => Some EmptyProposal
  | _ =>
      let leaderByPair := (aggregateAll lasts subs).*1 in
      if existsb (λ pair, bool_decide (pair ∈ leaderByPair) && negb (bool_decide (pair ∈ we_pair <$> l)))
           (localByPair sender subs).*1
      then Some MissingPairs else None
  end.

Fixpoint first_rejection {A} (f : A → option rejection) (l : list A) : option rejection :=
  match l with
  | [] => None
  | p :: r => match f p with Some x => Some x | None => first_rejection f r end
  end.

(** [Some r]: the round is withheld. *)
Definition coSignGateRejects (allowUnverifiedPairs : bool) (canonicalPairs : option (gset string)) (sender : string)
    (l : list wireentry) (subs : submissions) : option rejection :=
  match first_rejection (priceRejected allowUnverifiedPairs canonicalPairs sender subs) l with
  | Some r => Some r
  | None => coverageRejects l sender subs
  end.
End Cosign.
