(* ===== verification/OracleMedian.v ===== *)
(** * What the aggregation computes

    Order independence of the aggregate, and its reading on eight-decimal
    prices: the exact median of the sorted values, the integer even-split test
    and the exact clamp. *)

From Stdlib Require Import QArith_base.
From S2P Require Import Prelude BigNum BcMath OracleBand OracleAggregate.
Open Scope Z_scope.

(** ** The order on submitted values *)

Section Order.
Context {B : BigNumber} {L : BigNumberLaws B}.

Lemma exact_le_spec a b :
  exact_le a b = true ↔ (bn_val (bcnum a) < bn_val (bcnum b))%Q ∨ (bn_val (bcnum a) == bn_val (bcnum b))%Q ∧ String.leb a b = true.
Proof.
  unfold exact_le. rewrite bn_cmp_val. destruct (Qcompare_spec (bn_val (bcnum a)) (bn_val (bcnum b))) as [E|E|E].
  - split; [by right|]. intros [H|[_ H]]; [|done]. rewrite E in H. by apply Qlt_irrefl in H.
  - split; [by left|done].
  - split; [done|]. intros [H|[H _]].
    + exfalso. apply (Qlt_irrefl (bn_val (bcnum a))). by eapply Qlt_trans.
    + exfalso. rewrite H in E. by apply Qlt_irrefl in E.
Qed.

Lemma exact_le_trans a b c : exact_le a b = true → exact_le b c = true → exact_le a c = true.
Proof.
  rewrite !exact_le_spec. intros [H1|[H1 S1]] [H2|[H2 S2]].
  - left. by eapply Qlt_trans.
  - left. by rewrite <-H2.
  - left. by rewrite H1.
  - right. split; [by rewrite H1|by eapply string_leb_trans].
Qed.

Lemma exact_le_total a b : exact_le a b = true ∨ exact_le b a = true.
Proof.
  rewrite !exact_le_spec. destruct (Qcompare_spec (bn_val (bcnum a)) (bn_val (bcnum b))) as [E|E|E].
  - destruct (string_leb_total a b); [left; by right|right; right; by split; [symmetry|]].
  - left. by left.
  - right. by left.
Qed.

Lemma exact_le_antisym a b : exact_le a b = true → exact_le b a = true → a = b.
Proof.
  rewrite !exact_le_spec. intros [H1|[H1 S1]] [H2|[H2 S2]].
  - exfalso. apply (Qlt_irrefl (bn_val (bcnum a))). by eapply Qlt_trans.
  - exfalso. rewrite H2 in H1. by apply Qlt_irrefl in H1.
  - exfalso. rewrite H1 in H2. by apply Qlt_irrefl in H2.
  - by apply string_leb_antisym.
Qed.

Lemma trim_perm l l' : l ≡ₚ l' → trimPairValues l = trimPairValues l'.
Proof.
  intros Hp. unfold trimPairValues. rewrite (isort_perm_eq exact_le exact_le_trans exact_le_total l l'); [done|done|].
  intros x y _ _. apply exact_le_antisym.
Qed.

Lemma collect_perm subs subs' pair : subs ≡ₚ subs' → collectPairValues subs pair ≡ₚ collectPairValues subs' pair.
Proof. intros Hp. unfold collectPairValues. by rewrite Hp. Qed.

(** The aggregate of a pair from its values alone. *)
Definition aggregate_values (last : option string) (pair : string) (values : list string) : option string :=
  let values := trimPairValues values in
  match values with
  | [] => None
  | _ =>
      let mid := (length values / 2)%nat in
      let median := medianOf values mid in
      if negb (bcgt (bcnum median) (bcnum "0")) then None
      else if (length values mod 2 =? 0)%nat && evenSplitRejected values mid median then None
      else Some (clampToLastFinalized last pair median)
  end.

Lemma aggregate_by_values last subs pair : aggregate last subs pair = aggregate_values last pair (collectPairValues subs pair).
Proof. unfold aggregate, aggregate_values. by destruct (collectPairValues subs pair). Qed.

Lemma aggregate_perm last subs subs' pair : subs ≡ₚ subs' → aggregate last subs pair = aggregate last subs' pair.
Proof. intros Hp. rewrite !aggregate_by_values. unfold aggregate_values. by rewrite (trim_perm _ _ (collect_perm _ _ pair Hp)). Qed.

(** ** The pairs of a round *)

Lemma add_once_spec l seen :
  NoDup seen →
  let l' := foldl (λ seen p, if bool_decide (p ∈ seen) then seen else seen ++ [p]) seen l in
  NoDup l' ∧ ∀ p : string, p ∈ l' ↔ p ∈ seen ∨ p ∈ l.
Proof.
  revert seen. induction l as [|p l IH]; intros seen Hs; [simpl; set_solver|]. cbn [foldl].
  case_bool_decide as Hp.
  - destruct (IH seen Hs) as [H1 H2]. split; [done|]. intros q. rewrite H2. set_solver.
  - destruct (IH (seen ++ [p])) as [H1 H2]; [apply NoDup_app; split_and!; [done|set_solver|apply NoDup_singleton]|].
    split; [done|]. intros q. rewrite H2. set_solver.
Qed.

Lemma coinPairs_spec subs :
  NoDup (coinPairs subs) ∧
  ∀ p, p ∈ coinPairs subs ↔ p ≠ EmptyString ∧ ∃ s e, s ∈ subs ∧ e ∈ prices s.2 ∧ coinPair e = p.
Proof.
  destruct (add_once_spec (filter (λ p, p ≠ "") (coinPair <$> (subs ≫= λ s, prices s.2))) [] (NoDup_nil_2)) as [H1 H2].
  split; [exact H1|]. intros p. unfold coinPairs. rewrite H2, list_elem_of_filter, list_elem_of_fmap.
  setoid_rewrite list_elem_of_bind. split.
  - intros [H|[Hp (e & -> & s & He & Hs)]]; [by apply elem_of_nil in H|]. split; [done|]. by exists s, e.
  - intros [Hp (s & e & Hs & He & <-)]. right. split; [done|]. exists e. split; [done|]. by exists s.
Qed.

Lemma coinPairs_perm subs subs' : subs ≡ₚ subs' → coinPairs subs ≡ₚ coinPairs subs'.
Proof.
  intros Hp. destruct (coinPairs_spec subs) as [N1 S1], (coinPairs_spec subs') as [N2 S2].
  apply NoDup_Permutation; [done..|]. intros p. rewrite S1, S2. by setoid_rewrite Hp.
Qed.

(** The aggregates before they are sorted. *)
Definition aggregated (lasts : string → option string) (subs : list (string * submission)) : list (string * string) :=
  omap (λ pair, (λ v, (pair, v)) <$> aggregate (lasts pair) subs pair) (coinPairs subs).

Lemma elem_of_aggregated lasts subs pair v :
  (pair, v) ∈ aggregated lasts subs ↔ pair ∈ coinPairs subs ∧ aggregate (lasts pair) subs pair = Some v.
Proof.
  unfold aggregated. rewrite list_elem_of_omap. split.
  - intros (p & Hp & H). destruct (aggregate (lasts p) subs p) eqn:E; [|done]. by injection H as -> ->.
  - intros [Hp E]. exists pair. by rewrite E.
Qed.

Lemma elem_of_aggregateAll lasts subs pair v :
  (pair, v) ∈ aggregateAll lasts subs ↔ pair ∈ coinPairs subs ∧ aggregate (lasts pair) subs pair = Some v.
Proof. unfold aggregateAll. rewrite isort_perm. apply elem_of_aggregated. Qed.

Lemma pair_le_trans a b c : pair_le a b = true → pair_le b c = true → pair_le a c = true.
Proof. apply string_leb_trans. Qed.

Lemma pair_le_total a b : pair_le a b = true ∨ pair_le b a = true.
Proof. apply string_leb_total. Qed.

Lemma aggregateAll_perm lasts subs subs' : subs ≡ₚ subs' → aggregateAll lasts subs = aggregateAll lasts subs'.
Proof.
  intros Hp. apply (isort_perm_eq pair_le pair_le_trans pair_le_total).
  - transitivity (omap (λ pair, (λ v, (pair, v)) <$> aggregate (lasts pair) subs pair) (coinPairs subs')).
    + by rewrite (coinPairs_perm _ _ Hp).
    + apply Permutation_refl', list_omap_ext, Forall_Forall2_diag, Forall_true. intros p. by rewrite (aggregate_perm (lasts p) subs subs' p Hp).
  - intros [p v] [q u] [_ Hv]%elem_of_aggregated [_ Hu]%elem_of_aggregated H1 H2.
    assert (p = q) as <- by by apply string_leb_antisym. by rewrite Hv in Hu; injection Hu as ->.
Qed.
End Order.

(** ** Trimming keeps the middle *)

Section Trim.
Context {B : BigNumber}.

Lemma trim_spec values :
  let l := isort exact_le values in let l' := trimPairValues values in
  ∃ t, length l = (length l' + 2 * t)%nat ∧ (l = [] ↔ l' = []) ∧ ∀ i, (i < length l')%nat → at_ l' i = at_ l (t + i).
Proof.
  intros l l'. unfold l', trimPairValues. fold l. set (t := trimCount (length l)).
  destruct ((0 <? t) && (2 * t <? length l))%nat eqn:E.
  - apply andb_true_iff in E as [E1%Nat.ltb_lt E2%Nat.ltb_lt]. exists t. assert (Hl : length (take (length l - 2 * t) (drop t l)) = (length l - 2 * t)%nat)
      by (rewrite length_take, length_drop; lia).
    split_and!; [rewrite Hl; lia| |].
    + split; intros H'; [rewrite H' in E2; simpl in E2; lia|]. rewrite H' in Hl. simpl in Hl. lia.
    + intros i Hi. unfold at_. by rewrite lookup_take_lt, lookup_drop by lia.
  - exists 0%nat. split_and!; [lia|done|done].
Qed.

(** The three readings of the sorted list the publication makes. *)
Lemma trim_middle values :
  let l := isort exact_le values in let l' := trimPairValues values in
  (length l' mod 2 = length l mod 2)%nat ∧ at_ l' (length l' / 2) = at_ l (length l / 2) ∧
  ((length l mod 2 = 0)%nat → at_ l' (length l' / 2 - 1) = at_ l (length l / 2 - 1)).
Proof.
  intros l l'. destruct (trim_spec values) as (t & Hl & He & Hat). fold l l' in Hl, He, Hat.
  assert (Hm : (length l' mod 2 = length l mod 2)%nat) by (rewrite Hl, Nat.mul_comm, Nat.Div0.mod_add; done).
  assert (Hd : (length l / 2 = t + length l' / 2)%nat) by (rewrite Hl, (Nat.mul_comm 2 t), Nat.div_add by lia; lia).
  destruct l' as [|x r] eqn:E.
  - rewrite (proj2 He eq_refl). done.
  - assert (Hh : (length (x :: r) / 2 < length (x :: r))%nat) by (apply Nat.div_lt; simpl; lia).
    split_and!; [done|by rewrite Hat, Hd by done|]. intros H0. rewrite Hat, Hd by lia. f_equal.
    assert (1 ≤ length (x :: r) / 2)%nat; [|lia].
    assert (length (x :: r) mod 2 = 0)%nat as Hz by lia. pose proof (Nat.div_mod_eq (length (x :: r)) 2). simpl length in *. lia.
Qed.
End Trim.

(** ** Eight-decimal prices *)

(** A price in units of [10^-8]. *)
Definition e8 (s : string) : Z := let '(m, k) := Decimal.parts s in m * 10 ^ Z.of_nat (8 - k).

(** What the producers emit: at most eight decimals, positive and below [10^9]. *)
Definition eight (s : string) : bool :=
  Decimal.is_decimal s && ((Decimal.parts s).2 <=? 8)%nat && (0 <? e8 s) && (e8 s <? 10 ^ 17).

Definition at_z (zs : list Z) (i : nat) : Z := default 0 (zs !! i).

Definition median_z (zs : list Z) : Z :=
  let mid := (length zs / 2)%nat in
  if (length zs mod 2 =? 0)%nat then (at_z zs (mid - 1) + at_z zs mid + 1) / 2 else at_z zs mid.

(** A middle value is more than 5% away from the median. *)
Definition split_z (zs : list Z) : bool :=
  let mid := (length zs / 2)%nat in let m := median_z zs in
  (length zs mod 2 =? 0)%nat && ((m <? 20 * Z.abs (at_z zs (mid - 1) - m)) || (m <? 20 * Z.abs (at_z zs mid - m))).

(** Per cent, and the half-up step of the bound. *)
Definition pct_z (pair : string) : Z := if String.eqb pair "XCHAIN/USD" then 10 else 25.
Definition delta_z (pct last : Z) : Z := (2 * (last * pct) + 100) / 200.

Definition clamp_z (pct : Z) (last : option Z) (m : Z) : Z :=
  match last with
  | None => m
  | Some l => if l + delta_z pct l <? m then l + delta_z pct l else if m <? l - delta_z pct l then l - delta_z pct l else m
  end.

Definition published_z (pct : Z) (last : option Z) (zs : list Z) : option Z :=
  match zs with [] => None | _ => if split_z zs then None else Some (clamp_z pct last (median_z zs)) end.

Section Exact.
Context {B : BigNumber} {L : BigNumberLaws B}.

(** A text that denotes [z] units. *)
Definition priced (s : string) (z : Z) : Prop := Decimal.is_decimal s = true ∧ steps 8 (bignumber s) z.

Lemma priced_bcnum s z : priced s z → steps 8 (bcnum s) z.
Proof. intros [Hd Hs]. by rewrite bcnum_decimal. Qed.

Lemma eight_priced s : eight s = true → priced s (e8 s) ∧ 0 < e8 s < 10 ^ 17.
Proof.
  unfold eight. rewrite !andb_true_iff, Nat.leb_le, !Z.ltb_lt. intros [[[Hd Hk] H0] H1]. split; [|lia]. split; [done|].
  unfold e8. destruct (Decimal.parts s) as [m k] eqn:E. cbn [snd] in Hk. apply steps_refine; [done|]. by apply steps_literal.
Qed.

Lemma priced_format (x : bn) z : steps 8 x z → priced (bcformat x 8) z.
Proof.
  intros Hx. pose proof (format_steps_same 8 x z Hx) as H. split; [apply bn_format_decimal|].
  by rewrite bcnum_decimal in H by apply bn_format_decimal.
Qed.

Lemma exact_le_e8 a b : eight a = true → eight b = true → exact_le a b = true → e8 a ≤ e8 b.
Proof.
  intros [Ha _]%eight_priced [Hb _]%eight_priced. apply priced_bcnum in Ha, Hb. unfold exact_le.
  rewrite bn_cmp_val, (on_grid_cmp 8 _ _ _ _ Ha Hb). destruct (e8 a ?= e8 b) eqn:E; [|intros _|done].
  - apply Z.compare_eq in E. lia.
  - rewrite Z.compare_lt_iff in E. lia.
Qed.

Lemma sorted_e8 values :
  Forall (λ s, eight s = true) values → StronglySorted Z.le (e8 <$> isort exact_le values).
Proof.
  intros Hv. assert (He : Forall (λ s, eight s = true) (isort exact_le values)) by by rewrite isort_perm.
  pose proof (isort_sorted exact_le exact_le_trans exact_le_total values) as Hs. revert Hs He.
  generalize (isort exact_le values). clear Hv. intros l. induction 1 as [|x l Hs IH Hx]; intros He; [constructor|].
  apply Forall_cons in He as [Hx' He]. cbn [fmap list_fmap]. constructor; [by apply IH|].
  rewrite Forall_fmap. rewrite Forall_forall in *. intros y Hy. simpl. apply exact_le_e8; auto.
Qed.

Lemma at_e8 l i : Forall (λ s, eight s = true) l → (i < length l)%nat → eight (at_ l i) = true ∧ at_z (e8 <$> l) i = e8 (at_ l i).
Proof.
  intros Hl Hi. unfold at_, at_z. rewrite list_lookup_fmap. destruct (lookup_lt_is_Some_2 l i Hi) as [s Hs]. rewrite Hs. simpl.
  split; [|done]. rewrite Forall_lookup in Hl. by eapply Hl.
Qed.

Lemma median_steps l :
  l ≠ [] → Forall (λ s, eight s = true) l → priced (medianOf l (length l / 2)) (median_z (e8 <$> l)) ∧ 0 < median_z (e8 <$> l) < 10 ^ 17.
Proof.
  intros Hne Hl. unfold medianOf, median_z. rewrite length_fmap.
  assert (Hlen : (0 < length l)%nat) by (destruct l; [done|simpl; lia]).
  assert (Hm : (length l / 2 < length l)%nat) by (apply Nat.div_lt; lia).
  destruct (at_e8 l (length l / 2) Hl Hm) as [E1 ->]. destruct (eight_priced _ E1) as [P1 R1].
  destruct (length l mod 2 =? 0)%nat eqn:Ep.
  - destruct (at_e8 l (length l / 2 - 1) Hl ltac:(lia)) as [E0 ->]. destruct (eight_priced _ E0) as [P0 R0].
    set (x := e8 (at_ l (length l / 2 - 1))) in *. set (y := e8 (at_ l (length l / 2))) in *.
    split; [|split; [apply Z.div_str_pos; lia|apply Z.div_lt_upper_bound; lia]].
    assert (Hs : steps 18 (bcadd (bignumber (at_ l (length l / 2 - 1))) (bignumber (at_ l (length l / 2))) 18) ((x + y) * 10 ^ 10)).
    { rewrite Z.mul_add_distr_r. change (10 ^ 10) with (10 ^ Z.of_nat (18 - 8)).
      apply bcadd_steps; [lia|apply steps_refine; [lia|apply P0]|apply steps_refine; [lia|apply P1]|change (10 ^ Z.of_nat (18 - 8)) with (10 ^ 10); lia]. }
    pose proof (bcdiv_two_steps 18 _ _ ltac:(lia) Hs ltac:(lia)) as Hh.
    assert (Eh : ((x + y) * 10 ^ 10 + 1) / 2 = (x + y) * 5000000000) by (symmetry; apply (Z.div_unique_pos _ _ _ 1); lia).
    rewrite Eh in Hh. pose proof (format_steps_down 8 10 _ _ Hh ltac:(lia)) as Hf.
    replace ((2 * ((x + y) * 5000000000) + 10 ^ Z.of_nat 10) / (2 * 10 ^ Z.of_nat 10)) with ((x + y + 1) / 2) in Hf.
    { split; [apply bn_format_decimal|]. by rewrite bcnum_decimal in Hf by apply bn_format_decimal. }
    change (10 ^ Z.of_nat 10) with 10000000000.
    replace (2 * ((x + y) * 5000000000) + 10000000000) with ((x + y + 1) * 10000000000) by ring.
    symmetry. by apply Z.div_mul_cancel_r.
  - split; [|lia]. apply priced_format. rewrite bcnum_decimal by apply P1. apply P1.
Qed.

Lemma split_steps l median :
  l ≠ [] → Forall (λ s, eight s = true) l → (length l mod 2 = 0)%nat → priced median (median_z (e8 <$> l)) →
  evenSplitRejected l (length l / 2) median = split_z (e8 <$> l).
Proof.
  intros Hne Hl Hev Hp. destruct (median_steps l Hne Hl) as [_ Hr]. unfold evenSplitRejected, split_z. rewrite length_fmap, Hev.
  cbn [Nat.eqb andb]. assert (Hlen : (0 < length l)%nat) by (destruct l; [done|simpl; lia]).
  assert (Hm : (length l / 2 < length l)%nat) by (apply Nat.div_lt; lia).
  destruct (at_e8 l (length l / 2) Hl Hm) as [E1 ->]. destruct (at_e8 l (length l / 2 - 1) Hl ltac:(lia)) as [E0 ->].
  destruct (eight_priced _ E1) as [P1 R1], (eight_priced _ E0) as [P0 R0].
  set (m := median_z _) in *. destruct Hp as [_ Hm'].
  assert (Hb : ∀ s, eight s = true → exceedsBand (bignumber (bcformat (bcnum s) 8)) (bignumber median) ORACLE_DEVIATION_THRESHOLD 18
                 = (m <? 20 * Z.abs (e8 s - m))).
  { intros s Hs. destruct (eight_priced _ Hs) as [Ps Rs]. apply band_exact; [apply priced_format, priced_bcnum, Ps|done|lia|lia]. }
  by rewrite !Hb.
Qed.

Lemma pct_steps pair : steps 2 (bignumber (maxChangeForPair pair)) (pct_z pair) ∧ 0 < pct_z pair ≤ 25.
Proof.
  unfold maxChangeForPair, pct_z. destruct (String.eqb pair "XCHAIN/USD"); (split; [|lia]).
  - exact (steps_refine 1 2 _ 1 ltac:(lia) (steps_literal "0.1" 1 1 eq_refl eq_refl)).
  - exact (steps_literal "0.25" 25 2 eq_refl eq_refl).
Qed.

(** The clamp's bounds, for any bound given in per cent. *)
Lemma bounds_steps last l p c :
  priced last l → 0 < l < 10 ^ 17 → steps 2 (bignumber p) c → 0 < c ≤ 25 →
  let maxDelta := bcmul (bignumber last) (bignumber p) 8 in
  steps 8 (bcadd (bignumber last) maxDelta 8) (l + delta_z c l) ∧ steps 8 (bcsub (bignumber last) maxDelta 8) (l - delta_z c l) ∧
  0 ≤ delta_z c l < l + 1.
Proof.
  intros [_ Hl] Rl Hc Rc maxDelta. assert (Hlc : 0 ≤ l * c ≤ l * 25) by nia.
  assert (Hd : steps 8 maxDelta (delta_z c l)).
  { pose proof (bn_mul_steps 8 2 _ _ _ _ ltac:(lia) Hl Hc ltac:(lia)) as Hm.
    exact (format_steps_down 8 2 _ _ Hm ltac:(lia)). }
  assert (Hr : 0 ≤ delta_z c l < l + 1).
  { unfold delta_z. split; [apply Z.div_pos; lia|apply Z.div_lt_upper_bound; lia]. }
  split_and!; [apply bcadd_steps; [lia|done|done|lia]|apply bcsub_steps; [lia|done|done|lia]|lia|lia].
Qed.

Lemma clamp_steps last l pair p m :
  (∀ s, last = Some s → priced s (default 0 l)) → is_Some last ↔ is_Some l → (∀ x, l = Some x → 0 < x < 10 ^ 17) →
  priced p m → priced (clampToLastFinalized last pair p) (clamp_z (pct_z pair) l m).
Proof.
  intros Hl Hi Hr Hp. destruct last as [last|], l as [l|]; [|by destruct (proj1 Hi ltac:(eauto))|by destruct (proj2 Hi ltac:(eauto))|done].
  specialize (Hl last eq_refl). specialize (Hr l eq_refl). cbn [default] in Hl. unfold clampToLastFinalized, clamp_z, bcgt, bclt.
  rewrite (steps_gt 8 _ _ l 0 (priced_bcnum _ _ Hl)) by apply (steps_zero 8). rewrite (proj2 (Z.ltb_lt 0 l)) by lia. cbn [negb].
  destruct (pct_steps pair) as [Hc Rc]. destruct (bounds_steps last l _ _ Hl Hr Hc Rc) as (Hhi & Hlo & _).
  rewrite (steps_gt 8 _ _ m _ (priced_bcnum _ _ Hp) Hhi), (steps_lt 8 _ _ m _ (priced_bcnum _ _ Hp) Hlo).
  destruct (_ <? m); [by apply priced_format|]. destruct (m <? _); [by apply priced_format|done].
Qed.

Lemma median_positive l median :
  priced median (median_z l) → 0 < median_z l → bcgt (bcnum median) (bcnum "0") = true.
Proof.
  intros Hp H. unfold bcgt. rewrite (steps_gt 8 _ _ _ 0 (priced_bcnum _ _ Hp)) by apply (steps_zero 8). by apply Z.ltb_lt.
Qed.

(** The whole aggregation of a pair. *)
Lemma aggregate_values_exact last l pair values :
  Forall (λ s, eight s = true) values →
  (∀ s, last = Some s → priced s (default 0 l)) → is_Some last ↔ is_Some l → (∀ x, l = Some x → 0 < x < 10 ^ 17) →
  match aggregate_values last pair values, published_z (pct_z pair) l (e8 <$> isort exact_le values) with
  | Some s, Some z => priced s z
  | None, None => True
  | _, _ => False
  end.
Proof.
  intros Hv Hl Hi Hr. unfold aggregate_values.
  destruct (trim_spec values) as (t & _ & He & _), (trim_middle values) as (Hpar & Hmid & Hmid').
  assert (Hs : Forall (λ s, eight s = true) (isort exact_le values)) by by rewrite isort_perm.
  set (srt := isort exact_le values) in *. set (tr := trimPairValues values) in *.
  destruct (decide (srt = [])) as [E|Hne]; [by rewrite (proj1 He E), E|].
  assert (Hne' : tr ≠ []) by tauto. destruct (median_steps srt Hne Hs) as [Pm Rm].
  assert (Em : medianOf tr (length tr / 2) = medianOf srt (length srt / 2)).
  { unfold medianOf. rewrite Hpar, Hmid. destruct (length srt mod 2 =? 0)%nat eqn:Ep; [|done].
    apply Nat.eqb_eq in Ep. by rewrite Hmid'. }
  assert (Es : (length tr mod 2 =? 0)%nat && evenSplitRejected tr (length tr / 2) (medianOf tr (length tr / 2)) = split_z (e8 <$> srt)).
  { rewrite Hpar, Em. destruct (length srt mod 2 =? 0)%nat eqn:Ep.
    - apply Nat.eqb_eq in Ep. rewrite <-(split_steps srt _ Hne Hs Ep Pm). cbn [andb]. unfold evenSplitRejected. by rewrite Hmid, Hmid'.
    - unfold split_z. rewrite length_fmap, Ep. done. }
  destruct tr as [|x r] eqn:Etr; [done|]. rewrite <-Etr in *. cbv zeta. rewrite Es, Em, (median_positive _ _ Pm) by lia. cbn [negb].
  unfold published_z. destruct (e8 <$> srt) as [|y q] eqn:Ez; [by apply fmap_nil_inv in Ez|]. rewrite <-Ez in *.
  destruct (split_z _); [done|]. by apply clamp_steps.
Qed.
End Exact.
