(* ===== verification/OracleProps.v ===== *)
(** * Properties of the oracle aggregation

    Order independence, refinement of the exact median, the honest-majority
    bound, the clamp against the follower's gate, acceptance of an honest
    leader's proposal, the digest, the reference cache and the submission door. *)

From Stdlib Require Import QArith_base.
From S2P Require Import Prelude BigNum BcMath Json OracleBand OracleAggregate OracleCosign OracleMedian.
Open Scope Z_scope.

Section Aggregation.
Context {B : BigNumber} {L : BigNumberLaws B}.

(** C32: two hubs that hold the same submissions in different arrival orders
    aggregate the same array: the same pairs, in the same order, at the same
    prices. *)
Theorem aggregate_order_independent lasts subs subs' :
  subs ≡ₚ subs' → aggregateAll lasts subs = aggregateAll lasts subs'.
Proof. apply aggregateAll_perm. Qed.

(** The clamp's reference, as a number of units. *)
Record reference_of (last : option string) (l : option Z) : Prop := {
  ro_priced : ∀ s, last = Some s → priced s (default 0 l);
  ro_some : is_Some last ↔ is_Some l;
  ro_range : ∀ x, l = Some x → 0 < x < 10 ^ 17 }.

(** C26: on eight-decimal prices the trimmed, rounded bignumber computation is the
    exact one: the median of the sorted values (half up between two middles), no
    price when a middle is more than 5% from it, else the median clamped to the
    half-up per-cent bound around the last finalized price. *)
Theorem aggregate_refines last l subs pair :
  Forall (λ s, eight s = true) (collectPairValues subs pair) → reference_of last l →
  match aggregate last subs pair, published_z (pct_z pair) l (e8 <$> isort exact_le (collectPairValues subs pair)) with
  | Some s, Some z => priced s z
  | None, None => True
  | _, _ => False
  end.
Proof. intros Hv [H1 H2 H3]. rewrite aggregate_by_values. by apply aggregate_values_exact. Qed.

Lemma aggregate_some last l subs pair s :
  Forall (λ s, eight s = true) (collectPairValues subs pair) → reference_of last l → aggregate last subs pair = Some s →
  let zs := e8 <$> isort exact_le (collectPairValues subs pair) in
  zs ≠ [] ∧ split_z zs = false ∧ priced s (clamp_z (pct_z pair) l (median_z zs)) ∧ 0 < median_z zs < 10 ^ 17.
Proof.
  intros Hv Hr E zs. pose proof (aggregate_refines last l subs pair Hv Hr) as H. rewrite E in H. fold zs in H.
  assert (Hs : Forall (λ s, eight s = true) (isort exact_le (collectPairValues subs pair))) by by rewrite isort_perm.
  unfold published_z in H. destruct zs as [|z r] eqn:Ez; [done|]. rewrite <-Ez in *. destruct (split_z zs); [done|].
  split_and!; [by rewrite Ez|done|done|..];
    (apply (median_steps (isort exact_le (collectPairValues subs pair))); [|done]); intros E'; subst zs; by rewrite E' in Ez.
Qed.

(** ** An honest majority *)

Lemma sorted_prefix (zs : list Z) (i : nat) (z : Z) :
  StronglySorted Z.le zs → zs !! i = Some z → (S i ≤ length (filter (λ x, (x ≤ z)%Z) zs))%nat.
Proof.
  intros Hs. revert i. induction Hs as [|y l Hs IH Hy]; intros i Hi; [done|]. destruct i as [|i].
  - injection Hi as ->. rewrite filter_cons_True by lia. simpl. lia.
  - assert (y ≤ z) by (rewrite Forall_forall in Hy; apply Hy; by eapply list_elem_of_lookup_2).
    rewrite filter_cons_True by done. simpl. specialize (IH i Hi). lia.
Qed.

Lemma sorted_suffix (zs : list Z) (i : nat) (z : Z) :
  StronglySorted Z.le zs → zs !! i = Some z → (length zs - i ≤ length (filter (λ x, (z ≤ x)%Z) zs))%nat.
Proof.
  intros Hs. revert i. induction Hs as [|y l Hs IH Hy]; intros i Hi; [done|]. destruct i as [|i].
  - injection Hi as ->. rewrite list_filter_id; [simpl; lia|]. intros x [->|Hx]%elem_of_cons; [lia|].
    rewrite Forall_forall in Hy. by apply Hy.
  - specialize (IH i Hi). rewrite filter_cons. simpl. case_decide; simpl; lia.
Qed.

Lemma filter_split (P Q : Z → Prop) `{!∀ x, Decision (P x), !∀ x, Decision (Q x)} (zs : list Z) :
  (∀ x, P x → Q x → False) → (length (filter P zs) + length (filter Q zs) ≤ length zs)%nat.
Proof.
  intros Hx. induction zs as [|z zs IH]; [done|]. rewrite !filter_cons. repeat case_decide; simpl; try lia.
  by destruct (Hx z).
Qed.

Lemma at_z_lookup zs i : (i < length zs)%nat → zs !! i = Some (at_z zs i).
Proof. intros Hi. unfold at_z. by destruct (lookup_lt_is_Some_2 zs i Hi) as [z ->]. Qed.

(** A value at or above the first half's end is not below what more than half respect. *)
Lemma majority_above (zs : list Z) (i : nat) (lo hi : Z) :
  StronglySorted Z.le zs → (length zs < 2 * length (filter (λ z, (lo ≤ z ≤ hi)%Z) zs))%nat → (i < length zs)%nat →
  ((length zs ≤ 2 * S i)%nat → lo ≤ at_z zs i) ∧ ((2 * i ≤ length zs)%nat → at_z zs i ≤ hi).
Proof.
  intros Hs Hm Hi. pose proof (at_z_lookup zs i Hi) as Hz. split; intros Hb.
  - destruct (decide (lo ≤ at_z zs i)) as [?|Hn]; [done|exfalso].
    pose proof (sorted_prefix zs i _ Hs Hz).
    pose proof (filter_split (λ x, x ≤ at_z zs i) (λ z, lo ≤ z ≤ hi) zs ltac:(intros x; cbv beta; lia)). lia.
  - destruct (decide (at_z zs i ≤ hi)) as [?|Hn]; [done|exfalso].
    pose proof (sorted_suffix zs i _ Hs Hz).
    pose proof (filter_split (λ x, at_z zs i ≤ x) (λ z, lo ≤ z ≤ hi) zs ltac:(intros x; cbv beta; lia)). lia.
Qed.

Lemma median_majority (zs : list Z) (lo hi : Z) :
  StronglySorted Z.le zs → (length zs < 2 * length (filter (λ z, (lo ≤ z ≤ hi)%Z) zs))%nat → lo ≤ median_z zs ≤ hi.
Proof.
  intros Hs Hm. assert (Hne : (0 < length zs)%nat) by (destruct zs; simpl in *; lia).
  assert (Hd : (length zs / 2 < length zs)%nat) by (apply Nat.div_lt; lia).
  pose proof (Nat.div_mod_eq (length zs) 2) as He. pose proof (Nat.mod_upper_bound (length zs) 2 ltac:(lia)).
  destruct (majority_above zs _ lo hi Hs Hm Hd) as [H1 H2]. unfold median_z.
  destruct (length zs mod 2 =? 0)%nat eqn:E; [apply Nat.eqb_eq in E|apply Nat.eqb_neq in E].
  - destruct (majority_above zs (length zs / 2 - 1) lo hi Hs Hm ltac:(lia)) as [H3 H4].
    specialize (H1 ltac:(lia)). specialize (H2 ltac:(lia)). specialize (H3 ltac:(lia)). specialize (H4 ltac:(lia)).
    split; [apply Z.div_le_lower_bound; lia|apply Z.lt_succ_r, Z.div_lt_upper_bound; lia].
  - split; [apply H1|apply H2]; lia.
Qed.

(** C37: While more than half of the submitted values for a pair lie in an
    interval, the published price is the clamp of a median in that interval,
    whatever the other submitters send (prices of at most eight decimals). *)
Theorem median_within_majority last l subs pair lo hi s :
  let zs := e8 <$> collectPairValues subs pair in
  Forall (λ s, eight s = true) (collectPairValues subs pair) → reference_of last l →
  (length zs < 2 * length (filter (λ z, (lo ≤ z ≤ hi)%Z) zs))%nat → aggregate last subs pair = Some s →
  ∃ m, lo ≤ m ≤ hi ∧ priced s (clamp_z (pct_z pair) l m).
Proof.
  intros zs Hv Hr Hm E. destruct (aggregate_some last l subs pair s Hv Hr E) as (_ & _ & Hp & _).
  eexists. split; [|exact Hp].
  assert (Hperm : e8 <$> isort exact_le (collectPairValues subs pair) ≡ₚ zs) by (unfold zs; by rewrite isort_perm).
  apply median_majority; [by apply sorted_e8|]. rewrite Hperm. exact Hm.
Qed.

(** ** The clamp and the follower's historical band *)

Lemma delta_mono c c' l : 0 < l → c ≤ c' → delta_z c l ≤ delta_z c' l.
Proof. intros Hl Hc. unfold delta_z. apply Z.div_le_mono; nia. Qed.

Lemma delta_below l c : 0 < l → 0 < c ≤ 25 → 0 ≤ delta_z c l < l.
Proof.
  intros Hl Hc. unfold delta_z. assert (0 ≤ l * c ≤ l * 25) by nia.
  split; [apply Z.div_pos; lia|apply Z.div_lt_upper_bound; lia].
Qed.

Lemma clamp_between c l m : 0 < l → 0 < c ≤ 25 → l - delta_z c l ≤ clamp_z c (Some l) m ≤ l + delta_z c l.
Proof. intros Hl Hc. pose proof (delta_below l c Hl Hc). unfold clamp_z. repeat case_match; bools; lia. Qed.

Lemma clamp_range c l m : 0 < c ≤ 25 → (∀ x, l = Some x → 0 < x < 10 ^ 17) → 0 < m < 10 ^ 17 → 0 < clamp_z c l m < 10 ^ 17.
Proof.
  intros Hc Hl Hm. destruct l as [l|]; [|done]. specialize (Hl l eq_refl). pose proof (delta_below l c ltac:(lia) Hc).
  unfold clamp_z. repeat case_match; bools; lia.
Qed.

Lemma historical_steps canon z last l :
  priced canon z → priced last l → 0 < l < 10 ^ 17 →
  historicalBandRejected canon last = (l + delta_z 25 l <? z) || (z <? l - delta_z 25 l).
Proof.
  intros Hp Hl Hr. unfold historicalBandRejected, bcgt, bclt.
  destruct (bounds_steps last l "0.25" 25 Hl Hr) as (Hhi & Hlo & _); [exact (steps_literal "0.25" 25 2 eq_refl eq_refl)|lia|].
  unfold ORACLE_MAX_CHANGE_PER_ROUND. rewrite (steps_gt 8 _ _ z _ (priced_bcnum _ _ Hp) Hhi).
  by rewrite (steps_lt 8 _ _ z _ (priced_bcnum _ _ Hp) Hlo).
Qed.

(** C34: a published price is never further from the pair's last finalized price
    than the pair's own bound, and a follower that knows the same reference but
    priced the pair from nothing else never refuses it: the clamp and the
    historical gate round alike, also for the pair with the tighter bound. *)
Theorem clamped_price_passes_history last l subs pair s :
  Forall (λ s, eight s = true) (collectPairValues subs pair) → priced last l → 0 < l < 10 ^ 17 →
  aggregate (Some last) subs pair = Some s →
  (∃ z, priced s z ∧ Z.abs (z - l) ≤ delta_z (pct_z pair) l) ∧ historicalBandRejected s last = false.
Proof.
  intros Hv Hl Hr E. destruct (pct_steps pair) as [_ Hc].
  assert (Hro : reference_of (Some last) (Some l)) by (split; [by intros ? [= <-]|split; eauto|by intros ? [= <-]]).
  destruct (aggregate_some _ _ _ _ _ Hv Hro E) as (_ & _ & Hp & _).
  pose proof (clamp_between (pct_z pair) l (median_z (e8 <$> isort exact_le (collectPairValues subs pair))) ltac:(lia) Hc) as Hb.
  pose proof (delta_mono (pct_z pair) 25 l ltac:(lia) ltac:(lia)) as Hd. split.
  - eexists. split; [exact Hp|lia].
  - rewrite (historical_steps _ _ _ _ Hp Hl Hr). apply orb_false_iff. split; apply Z.ltb_ge; lia.
Qed.

(** ** One value more *)

Lemma insort_after {A} (le : A → A → bool) x l k r :
  (∀ x y z, le x y = true → le y z = true → le x z = true) → StronglySorted (λ x y, le x y = true) l → l !! k = Some r →
  (if le x r then insort le x l !! S k else insort le x l !! k) = Some r.
Proof.
  intros Ht Hs. revert k. induction Hs as [|y l Hs IH Hy]; intros k Hk; [done|]. simpl. destruct k as [|k].
  - injection Hk as ->. by destruct (le x r).
  - assert (Hyr : le y r = true) by (rewrite Forall_forall in Hy; apply Hy; by eapply list_elem_of_lookup_2).
    specialize (IH k Hk). destruct (le x y) eqn:E.
    + rewrite (Ht x y r E Hyr). exact Hk.
    + destruct (le x r); exact IH.
Qed.

(** The middle of an odd list is one of the two middles once a value is added. *)
Lemma odd_middle_kept values x :
  (length values mod 2 = 1)%nat →
  let l := isort exact_le values in let l' := isort exact_le (x :: values) in
  let r := at_ l (length l / 2) in
  r = at_ l' (length l' / 2) ∨ r = at_ l' (length l' / 2 - 1).
Proof.
  intros Hodd l l' r. assert (Hl : length l = length values) by (unfold l; by rewrite isort_perm).
  assert (Hl' : length l' = S (length values)) by (unfold l'; by rewrite isort_perm).
  pose proof (Nat.div_mod_eq (length values) 2) as Hd. set (k := (length values / 2)%nat) in *.
  assert (Hk' : (S (length values) / 2 = S k)%nat).
  { symmetry. apply (Nat.div_unique _ 2 _ 0); lia. }
  assert (Hr : l !! k = Some r).
  { unfold r, at_. rewrite Hl. fold k. by destruct (lookup_lt_is_Some_2 l k ltac:(lia)) as [s ->]. }
  pose proof (insort_after exact_le x l k r exact_le_trans (isort_sorted exact_le exact_le_trans exact_le_total values) Hr) as H.
  change (insort exact_le x l) with l' in H. rewrite Hl', Hk'. unfold at_. replace (S k - 1)%nat with k by lia.
  destruct (exact_le x r); rewrite H; auto.
Qed.

(** So the median of the odd list is within 5% of the median of the longer one,
    whenever the longer one passes the even-split test. *)
Lemma odd_median_close values x :
  Forall (λ s, eight s = true) (x :: values) → (length values mod 2 = 1)%nat →
  let l := isort exact_le values in let l' := isort exact_le (x :: values) in
  split_z (e8 <$> l') = false → 20 * Z.abs (median_z (e8 <$> l) - median_z (e8 <$> l')) ≤ median_z (e8 <$> l').
Proof.
  intros Hv Hodd l l' Hs. assert (Hll : length l = length values) by (unfold l, l'; by rewrite (length_isort exact_le)).
  assert (Hll' : length l' = S (length values)) by (unfold l, l'; by rewrite (length_isort exact_le)).
  assert (Hv1 : Forall (λ s, eight s = true) l) by (unfold l; rewrite isort_perm; by apply Forall_cons in Hv as [_ ?]).
  assert (Hv2 : Forall (λ s, eight s = true) l') by (unfold l'; by rewrite isort_perm).
  assert (Hev : (length l' mod 2 = 0)%nat) by (rewrite Hll', <-Nat.add_1_r, Nat.Div0.add_mod, Hodd; done).
  assert (Hne : (0 < length values)%nat) by (destruct values; [done|simpl; lia]).
  assert (Hm : median_z (e8 <$> l) = e8 (at_ l (length l / 2))).
  { unfold median_z. rewrite length_fmap, Hll, Hodd. cbn [Nat.eqb]. apply at_e8; [done|]. rewrite Hll. apply Nat.div_lt; lia. }
  assert (Hlt : (length l' / 2 < length l')%nat) by (apply Nat.div_lt; lia).
  unfold split_z in Hs. rewrite length_fmap, Hev in Hs. cbn [Nat.eqb andb] in Hs. apply orb_false_iff in Hs as [H1 H2]. bools.
  rewrite (proj2 (at_e8 l' _ Hv2 Hlt)) in H2. rewrite (proj2 (at_e8 l' (length l' / 2 - 1) Hv2 ltac:(lia))) in H1.
  rewrite Hm. destruct (odd_middle_kept values x Hodd) as [Er|Er]; fold l l' in Er; rewrite Er; lia.
Qed.

(** Clamping both sides keeps them within 5%. *)
Lemma clamp_close c l m r :
  0 < c ≤ 25 → (∀ x, l = Some x → 0 < x) → 20 * Z.abs (r - m) ≤ m → 20 * Z.abs (clamp_z c l r - clamp_z c l m) ≤ clamp_z c l m.
Proof.
  intros Hc Hl H. destruct l as [l|]; [|done]. specialize (Hl l eq_refl). pose proof (delta_below l c Hl Hc).
  unfold clamp_z. repeat case_match; bools; lia.
Qed.
End Aggregation.

(** ** At concrete rounds *)

Definition quote (who price : string) : string * submission := (who, Submission [Entry "BTC/USD" price] (Some ("key-" +:+ who))).

Definition four_quotes : list (string * submission) :=
  [quote "a" "64000.5"; quote "b" "64010"; quote "c" "63990.25"; quote "d" "64100"].

Definition steady (pair : string) : option string := Some "64000"%string.

Lemma steady_reference : reference_of (Some "64000"%string) (Some 6400000000000).
Proof.
  split; [|split; by eexists|intros x [= <-]; lia]. intros s [= <-]. apply (eight_priced "64000"). reflexivity.
Qed.

Lemma four_eight : Forall (λ s, eight s = true) (collectPairValues four_quotes "BTC/USD").
Proof.
  assert (H : forallb eight (collectPairValues four_quotes "BTC/USD") = true) by (vm_compute; reflexivity).
  apply Forall_forall. intros s Hs. apply (proj1 (forallb_forall eight _) H). by apply list_elem_of_In.
Qed.

Lemma aggregate_order_independent_witness : aggregateAll steady four_quotes = aggregateAll steady (reverse four_quotes).
Proof.
  assert (H : four_quotes ≡ₚ reverse four_quotes) by (symmetry; apply reverse_Permutation).
  exact (aggregate_order_independent (B := ExactBigNumber) steady four_quotes (reverse four_quotes) H).
Defined.

Lemma aggregate_refines_witness :
  match aggregate (Some "64000"%string) four_quotes "BTC/USD",
        published_z (pct_z "BTC/USD") (Some 6400000000000) (e8 <$> isort exact_le (collectPairValues four_quotes "BTC/USD")) with
  | Some s, Some z => priced s z
  | None, None => True
  | _, _ => False
  end.
Proof. exact (aggregate_refines (B := ExactBigNumber) (Some "64000"%string) (Some 6400000000000) four_quotes "BTC/USD" four_eight steady_reference). Defined.

Lemma median_within_majority_witness :
  ∃ m, 6399000000000 ≤ m ≤ 6401000000000 ∧ priced "64005.25000000" (clamp_z (pct_z "BTC/USD") (Some 6400000000000) m).
Proof.
  assert (Hm : (length (e8 <$> collectPairValues four_quotes "BTC/USD") <
    2 * length (filter (λ z, (6399000000000 ≤ z ≤ 6401000000000)%Z) (e8 <$> collectPairValues four_quotes "BTC/USD")))%nat)
    by (apply Nat.ltb_lt; vm_compute; reflexivity).
  assert (He : aggregate (Some "64000"%string) four_quotes "BTC/USD" = Some "64005.25000000"%string) by (vm_compute; reflexivity).
  exact (median_within_majority (B := ExactBigNumber) (Some "64000"%string) (Some 6400000000000) four_quotes "BTC/USD"
    6399000000000 6401000000000 "64005.25000000" four_eight steady_reference Hm He).
Defined.

Lemma clamped_price_passes_history_witness :
  (∃ z, priced "62500.00000000" z ∧ Z.abs (z - 5000000000000) ≤ delta_z (pct_z "BTC/USD") 5000000000000) ∧
  historicalBandRejected "62500.00000000" "50000" = false.
Proof.
  assert (Hl : priced "50000" 5000000000000) by (apply (eight_priced "50000"); vm_compute; reflexivity).
  assert (He : aggregate (Some "50000"%string) four_quotes "BTC/USD" = Some "62500.00000000"%string) by (vm_compute; reflexivity).
  exact (clamped_price_passes_history (B := ExactBigNumber) "50000" 5000000000000 four_quotes "BTC/USD" "62500.00000000"
    four_eight Hl ltac:(lia) He).
Defined.
