(* ===== verification/OracleHonest.v ===== *)
(** * An honest leader's proposal at an honest follower

    The composition of the aggregation and the co-sign gate: what a leader
    aggregates from a set of submissions, a follower with the same submissions and
    the same reference prices signs. *)

From Stdlib Require Import QArith_base.
From S2P Require Import Prelude BigNum BcMath OracleBand OracleAggregate OracleCosign OracleMedian OracleProps.
Open Scope Z_scope.

Section Honest.
Context {B : BigNumber} {L : BigNumberLaws B}.
Context (resolve : string → option string) (lasts : string → option string).
Context (sender : string) (subs : list (string * submission)).

Definition eight_prices : Prop := ∀ s e, s ∈ subs → e ∈ prices s.2 → eight (price e) = true.
Definition eight_references : Prop := ∀ pair s, lasts pair = Some s → eight s = true.

(** The values the follower measures a proposal with. *)
Definition others (pair : string) : list string := collectPairValues (refSubs resolve sender subs) pair.

(** The pairs a follower can verify: the proposer sent no price for them, or the
    other submitters are an odd number, or there is none but a reference. *)
Definition verifiable (allowUnverifiedPairs : bool) (pair : string) : Prop :=
  pair ∉ proposerPairs resolve sender subs ∨ (length (others pair) mod 2 = 1)%nat ∨
  others pair = [] ∧ (is_Some (lasts pair) ∨ allowUnverifiedPairs = true).

Context (Height : eight_prices) (Hlasts : eight_references).
Context (Hone : (length (filter (λ s, proposerHeld resolve sender s = true) subs) ≤ 1)%nat).

Lemma collect_elem l pair s :
  s ∈ collectPairValues l pair → ∃ x e, x ∈ l ∧ e ∈ prices x.2 ∧ coinPair e = pair ∧ price e = s.
Proof.
  unfold collectPairValues. rewrite list_elem_of_omap. intros (x & Hx & H). unfold pairValue in H.
  apply fmap_Some in H as (e & He & ->). apply head_Some_elem_of, list_elem_of_filter in He as [Hu He].
  exists x, e. split_and!; [done|done| |done]. unfold usable in Hu. bools. by apply String.eqb_eq.
Qed.

Lemma collect_eight l pair : (∀ s, s ∈ l → s ∈ subs) → Forall (λ s, eight s = true) (collectPairValues l pair).
Proof. intros Hl. apply Forall_forall. intros s (x & e & Hx & He & _ & <-)%collect_elem. eapply Height; eauto. Qed.

Lemma ref_in s : s ∈ refSubs resolve sender subs → s ∈ subs.
Proof. unfold refSubs. rewrite list_elem_of_filter. tauto. Qed.

Lemma collect_in_pairs l pair : pair ≠ EmptyString → collectPairValues l pair ≠ [] → pair ∈ coinPairs l.
Proof.
  intros Hp Hne. destruct (collectPairValues l pair) as [|s r] eqn:E; [done|].
  destruct (collect_elem l pair s) as (x & e & Hx & He & Hc & _); [rewrite E; by left|].
  apply coinPairs_spec. split; [done|]. by exists x, e.
Qed.

Lemma find_pair_aggregateAll l pair :
  find_pair pair (aggregateAll lasts l) = if bool_decide (pair ∈ coinPairs l) then aggregate (lasts pair) l pair else None.
Proof.
  unfold find_pair. destruct (head (filter (λ p, p.1 = pair) (aggregateAll lasts l))) as [[p v]|] eqn:E.
  - apply head_Some_elem_of, list_elem_of_filter in E as [Hp E]. simpl in Hp. subst p.
    apply elem_of_aggregateAll in E as [Hp E]. by rewrite bool_decide_true.
  - case_bool_decide as Hp; [|done]. destruct (aggregate (lasts pair) l pair) as [v|] eqn:Ev; [|done]. exfalso.
    assert (H : (pair, v) ∈ filter (λ p, p.1 = pair) (aggregateAll lasts l)) by (apply list_elem_of_filter; split; [done|]; by apply elem_of_aggregateAll).
    apply head_None in E. rewrite E in H. by apply elem_of_nil in H.
Qed.

(** The round's values: the others', and at most one of the proposer's. *)
Lemma split_values pair :
  (collectPairValues subs pair ≡ₚ others pair) ∨
  (pair ∈ proposerPairs resolve sender subs ∨ pair = EmptyString) ∧ ∃ x, collectPairValues subs pair ≡ₚ x :: others pair.
Proof.
  set (held := filter (λ s, proposerHeld resolve sender s = true) subs).
  assert (Hp : subs ≡ₚ held ++ refSubs resolve sender subs).
  { unfold held, refSubs. clear. induction subs as [|s l IH]; [done|]. rewrite !filter_cons.
    destruct (proposerHeld resolve sender s) eqn:E; simpl.
    - by rewrite <-IH.
    - rewrite <-Permutation_middle, <-IH. done. }
  assert (Hc : collectPairValues subs pair ≡ₚ collectPairValues held pair ++ others pair).
  { unfold others, collectPairValues. rewrite <-omap_app. by rewrite <-Hp. }
  assert (Hl : (length held ≤ 1)%nat) by exact Hone.
  destruct held as [|s [|]] eqn:Eh; [left; exact Hc| |simpl in Hl; lia].
  destruct (collectPairValues [s] pair) as [|x r] eqn:E; [by left|]. right.
  assert (r = []) as -> by (unfold collectPairValues in E; simpl in E; destruct (pairValue pair s); by simplify_eq).
  split; [|by exists x]. destruct (decide (pair = EmptyString)) as [?|Hne]; [by right|left].
  destruct (collect_elem [s] pair x) as (y & e & Hy & He & Hce & _); [rewrite E; by left|].
  unfold proposerPairs. apply list_elem_of_filter. split; [done|]. apply list_elem_of_fmap. exists e. split; [done|].
  apply list_elem_of_bind. exists y. split; [done|]. fold held. by rewrite Eh.
Qed.

Lemma pair_reference pair : reference_of (lasts pair) (e8 <$> lasts pair).
Proof.
  split.
  - intros s Hs. rewrite Hs. simpl. by apply eight_priced, (Hlasts pair).
  - by rewrite fmap_is_Some.
  - intros x Hx. apply fmap_Some in Hx as (s & Hs & ->). by apply eight_priced, (Hlasts pair).
Qed.

Lemma close_accepted canon zc local zl :
  priced canon zc → priced local zl → 0 < zc < 10 ^ 17 → 0 < zl < 10 ^ 17 → 20 * Z.abs (zl - zc) ≤ zc →
  localDeviationRejected canon local None = false.
Proof.
  intros [_ Hc] [_ Hl] Rc Rl H. unfold localDeviationRejected. cbn [default forallb].
  rewrite (band_exact _ _ zl zc) by (done || lia). rewrite (proj2 (Z.ltb_ge _ _)) by lia. done.
Qed.

(** The order on values sorts a permutation alike. *)
Lemma sort_perm l l' : l ≡ₚ l' → isort exact_le l = isort exact_le l'.
Proof. intros Hp. apply (isort_perm_eq exact_le exact_le_trans exact_le_total); [done|]. intros x y _ _. apply exact_le_antisym. Qed.

Lemma aggregate_same l l' pair : collectPairValues l pair ≡ₚ collectPairValues l' pair → aggregate (lasts pair) l pair = aggregate (lasts pair) l' pair.
Proof. intros Hp. rewrite !aggregate_by_values. unfold aggregate_values. by rewrite (trim_perm _ _ Hp). Qed.

Lemma odd_published pair :
  (length (others pair) mod 2 = 1)%nat → is_Some (aggregate (lasts pair) (refSubs resolve sender subs) pair).
Proof.
  intros Hodd. pose proof (collect_eight _ pair ref_in) as Hv. fold (others pair) in Hv.
  pose proof (aggregate_refines (lasts pair) _ (refSubs resolve sender subs) pair Hv (pair_reference pair)) as H.
  fold (others pair) in H. destruct (aggregate _ _ _) as [s|]; [eauto|exfalso].
  assert (Hs : split_z (e8 <$> isort exact_le (others pair)) = false).
  { unfold split_z. rewrite length_fmap, (length_isort exact_le), Hodd. done. }
  unfold published_z in H. rewrite Hs in H. destruct (e8 <$> _) eqn:E; [|done].
  apply (f_equal length) in E. rewrite length_fmap, (length_isort exact_le) in E. simpl in E. by rewrite E in Hodd.
Qed.

Lemma odd_no_middles pair :
  (length (others pair) mod 2 = 1)%nat → middlesByPair resolve lasts sender subs pair = None.
Proof.
  intros Hodd. unfold middlesByPair. case_bool_decide; [|done]. unfold sortedOut. fold (others pair).
  destruct (trim_middle (others pair)) as [Hpar _]. rewrite (length_isort exact_le), Hodd in Hpar.
  destruct (others pair) as [|x r] eqn:E; [done|]. rewrite <-E in *. unfold evenSetMiddles.
  destruct (trimPairValues (others pair)) as [|y q] eqn:Et; [done|]. by rewrite Hpar.
Qed.

(** What the text of a published price looks like to the gate. *)
Definition spelled (v : string) : Prop :=
  canonicalPrice (PText v) = Some v ∧ PRICE_VALUE_RE_CANONICAL v = true ∧ in_bounds v = true.

Lemma pct_range pair : 0 < pct_z pair ≤ 25.
Proof. unfold pct_z. destruct (String.eqb pair "XCHAIN/USD"); lia. Qed.

(** A published price and the others' own aggregate are within the band. *)
Lemma odd_close pair v local :
  (length (others pair) mod 2 = 1)%nat → aggregate (lasts pair) subs pair = Some v →
  aggregate (lasts pair) (refSubs resolve sender subs) pair = Some local → localDeviationRejected v local None = false.
Proof.
  intros Hodd Ev El. pose proof (pair_reference pair) as Hr. pose proof (pct_range pair) as Hc.
  pose proof (collect_eight subs pair (λ s H, H)) as Hv. pose proof (collect_eight _ pair ref_in) as Hv'. fold (others pair) in Hv'.
  destruct (aggregate_some _ _ _ _ _ Hv Hr Ev) as (Hne & Hs & Pv & Rv), (aggregate_some _ _ _ _ _ Hv' Hr El) as (_ & _ & Pl & Rl).
  fold (others pair) in *. pose proof (ro_range _ _ Hr) as Hrng.
  apply (close_accepted _ _ _ _ Pv Pl); [by apply clamp_range..|]. apply clamp_close; [done|intros x Hx; specialize (Hrng x Hx); lia|].
  destruct (split_values pair) as [Hp|(_ & x & Hp)]; rewrite (sort_perm _ _ Hp) in *; [lia|].
  apply odd_median_close; [by rewrite <-Hp|done|done].
Qed.

Lemma same_close pair v :
  aggregate (lasts pair) subs pair = Some v → localDeviationRejected v v None = false.
Proof.
  intros Ev. pose proof (pair_reference pair) as Hr. pose proof (collect_eight subs pair (λ s H, H)) as Hv.
  destruct (aggregate_some _ _ _ _ _ Hv Hr Ev) as (_ & _ & Pv & Rv).
  pose proof (clamp_range _ _ _ (pct_range pair) (ro_range _ _ Hr) Rv).
  apply (close_accepted _ _ _ _ Pv Pv); [done..|lia].
Qed.

Lemma positive_published l pair v :
  (∀ s, s ∈ l → s ∈ subs) → aggregate (lasts pair) l pair = Some v → bcgt (bcnum v) (bcnum "0") = true.
Proof.
  intros Hl Ev. pose proof (pair_reference pair) as Hr. pose proof (collect_eight l pair Hl) as Hv.
  destruct (aggregate_some _ _ _ _ _ Hv Hr Ev) as (_ & _ & Pv & Rv).
  pose proof (clamp_range _ _ _ (pct_range pair) (ro_range _ _ Hr) Rv). unfold bcgt.
  rewrite (steps_gt 8 _ _ _ 0 (priced_bcnum _ _ Pv)) by apply (steps_zero 8). apply Z.ltb_lt. lia.
Qed.

Lemma values_nonempty l pair v : aggregate (lasts pair) l pair = Some v → collectPairValues l pair ≠ [].
Proof. intros H E. unfold aggregate in H. by rewrite E in H. Qed.

Lemma honest_price allowUnverifiedPairs canonicalPairs pair v :
  (pair, v) ∈ aggregateAll lasts subs → spelled v → (∀ wl, canonicalPairs = Some wl → pair ∈ wl) →
  verifiable allowUnverifiedPairs pair →
  priceRejected resolve lasts allowUnverifiedPairs canonicalPairs sender subs (WireEntry pair (PText v)) = None.
Proof.
  intros [Hpair Ev]%elem_of_aggregateAll (S1 & S2 & S3) Hwl Hver. unfold priceRejected. cbn [we_price we_pair]. rewrite S1, S2, S3.
  cbn [negb]. assert (Hw : match canonicalPairs with Some s => bool_decide (pair ∉ s) | None => false end = false).
  { destruct canonicalPairs as [wl|]; [|done]. apply bool_decide_eq_false. intros H. by apply H, Hwl. }
  rewrite Hw. assert (Hne : pair ≠ EmptyString) by by apply coinPairs_spec in Hpair as [? _].
  assert (Hloc : ∀ local, aggregate (lasts pair) (refSubs resolve sender subs) pair = Some local →
            find_pair pair (localByPair resolve lasts sender subs) = Some local).
  { intros local El. unfold localByPair. rewrite find_pair_aggregateAll, bool_decide_true; [done|].
    apply collect_in_pairs; [done|]. by eapply values_nonempty. }
  destruct Hver as [Ha|[Hb|[Hc Hd]]].
  - assert (El : aggregate (lasts pair) (refSubs resolve sender subs) pair = Some v).
    { rewrite <-Ev. apply aggregate_same. symmetry. destruct (split_values pair) as [?|([?|?] & _)]; done. }
    rewrite (Hloc v El), (positive_published _ _ _ ref_in El). unfold middlesByPair. rewrite bool_decide_false by done.
    by rewrite (same_close pair v Ev).
  - destruct (odd_published pair Hb) as [local El].
    rewrite (Hloc local El), (positive_published _ _ _ ref_in El), odd_no_middles by done. by rewrite (odd_close pair v local Hb Ev El).
  - assert (Hf : find_pair pair (localByPair resolve lasts sender subs) = None).
    { unfold localByPair. rewrite find_pair_aggregateAll. case_bool_decide; [|done]. unfold aggregate. unfold others in Hc. by rewrite Hc. }
    rewrite Hf. unfold historicalRejected. destruct (lasts pair) as [last|] eqn:El; [|by destruct Hd as [[? ?]| ->]].
    destruct (eight_priced last (Hlasts _ _ El)) as [Pl Rl]. unfold bcgt at 1.
    rewrite (steps_gt 8 _ _ _ 0 (priced_bcnum _ _ Pl)) by apply (steps_zero 8). rewrite (proj2 (Z.ltb_lt 0 _)) by lia.
    by destruct (clamped_price_passes_history last _ subs pair v (collect_eight subs pair (λ s H, H)) Pl Rl Ev) as [_ ->].
Qed.

Lemma first_rejection_none {A} (f : A → option rejection) l : (∀ x, x ∈ l → f x = None) → first_rejection f l = None.
Proof. induction l as [|x l IH]; intros H; [done|]. simpl. rewrite H by by left. apply IH. intros y Hy. apply H. by right. Qed.
End Honest.

(** A follower with the leader's submissions and reference prices signs what
    an honest leader proposes: every published price whose pair the proposer did
    not submit itself, or for which the others are an odd number (the even-split
    gate of the leader then bounds the follower's own reading, through trimming,
    rounding and clamping), or which the follower can only hold against its last
    finalized price; and no pair counts as suppressed. *)
Theorem honest_proposal_cosigned {B : BigNumber} {L : BigNumberLaws B} resolve lasts sender subs allowUnverifiedPairs canonicalPairs :
  eight_prices subs → eight_references lasts →
  (length (filter (λ s, proposerHeld resolve sender s = true) subs) ≤ 1)%nat →
  aggregateAll lasts subs ≠ [] →
  (∀ pair v, (pair, v) ∈ aggregateAll lasts subs →
     spelled v ∧ (∀ wl, canonicalPairs = Some wl → pair ∈ wl) ∧ verifiable resolve lasts sender subs allowUnverifiedPairs pair) →
  coSignGateRejects resolve lasts allowUnverifiedPairs canonicalPairs sender
    ((λ pv, WireEntry pv.1 (PText pv.2)) <$> aggregateAll lasts subs) subs = None.
Proof.
  intros He Hl Ho Hne H. unfold coSignGateRejects. rewrite first_rejection_none.
  2:{ intros x [[pair v] [-> Hx]]%list_elem_of_fmap. destruct (H pair v Hx) as (? & ? & ?). by eapply honest_price. }
  unfold coverageRejects. destruct (_ <$> aggregateAll lasts subs) as [|x r] eqn:E; [by apply fmap_nil_inv in E|]. rewrite <-E.
  assert (Ee : we_pair <$> ((λ pv, WireEntry pv.1 (PText pv.2)) <$> aggregateAll lasts subs) = (aggregateAll lasts subs).*1)
    by by rewrite <-list_fmap_compose.
  rewrite Ee. destruct (existsb _ _) eqn:Ex; [|done]. apply existsb_exists in Ex as (pair & _ & Hx). exfalso.
  apply andb_true_iff in Hx as [Hx1 Hx2]. by rewrite Hx1 in Hx2.
Qed.

Lemma honest_proposal_cosigned_witness :
  coSignGateRejects (λ _, None) steady false (Some {["BTC/USD"]}) "d" [WireEntry "BTC/USD" (PText "64005.25000000")] four_quotes = None.
Proof.
  assert (Ha : aggregateAll steady four_quotes = [("BTC/USD", "64005.25000000")]%string) by (vm_compute; reflexivity).
  pose proof (honest_proposal_cosigned (λ _, None) steady "d" four_quotes false (Some {["BTC/USD"]})) as H.
  rewrite Ha in H. apply H; clear H.
  - intros s e Hs He. unfold four_quotes, quote in Hs. set_unfold in Hs.
    destruct Hs as [->|[->|[->|[->|[]]]]]; apply list_elem_of_singleton in He as ->; reflexivity.
  - intros pair s [= <-]. reflexivity.
  - vm_compute. lia.
  - done.
  - intros pair v [= -> ->]%list_elem_of_singleton. split_and!.
    + split_and!; vm_compute; reflexivity.
    + intros wl [= <-]. set_solver.
    + right. left. vm_compute. reflexivity.
Defined.
