(* ===== verification/OracleState.v ===== *)
(** * Properties of the oracle's digest, reference cache and submission map *)

From stdpp Require Import pretty.
From Stdlib Require Import QArith_base.
From S2P Require Import Prelude Ordered BigNum BcMath Json OracleBand OracleAggregate OracleCosign OracleMedian.
Open Scope Z_scope.

(** ** The digest *)

Lemma projected_le_trans a b c : projected_le a b = true → projected_le b c = true → projected_le a c = true.
Proof.
  unfold projected_le. destruct (String.eqb_spec a.1 b.1) as [E1|N1], (String.eqb_spec b.1 c.1) as [E2|N2].
  - rewrite E1, E2, String.eqb_refl. apply string_leb_trans.
  - intros _ H. rewrite E1. by rewrite (proj2 (String.eqb_neq _ _) N2).
  - intros H _. rewrite <-E2. by rewrite (proj2 (String.eqb_neq _ _) N1).
  - intros H1 H2. destruct (String.eqb_spec a.1 c.1) as [E3|N3]; [|by eapply string_leb_trans].
    exfalso. rewrite E3 in *. apply N1. by apply string_leb_antisym.
Qed.

Lemma projected_le_total a b : projected_le a b = true ∨ projected_le b a = true.
Proof.
  unfold projected_le. destruct (String.eqb_spec a.1 b.1) as [E|N].
  - rewrite E, String.eqb_refl. apply string_leb_total.
  - rewrite (proj2 (String.eqb_neq b.1 a.1)) by congruence. apply string_leb_total.
Qed.

Lemma projected_le_antisym a b : projected_le a b = true → projected_le b a = true → a = b.
Proof.
  unfold projected_le. destruct a as [a1 a2], b as [b1 b2]. cbn [fst snd]. destruct (String.eqb_spec a1 b1) as [->|N].
  - rewrite String.eqb_refl. intros. f_equal. by apply string_leb_antisym.
  - rewrite (proj2 (String.eqb_neq b1 a1)) by congruence. intros. destruct N. by apply string_leb_antisym.
Qed.

(** The digest is a function of the pair-to-price entries alone: the same
    entries in another order give the same bytes, and equal bytes come from the
    same round and the same entries. *)
Theorem digest_canonical round round' l l' :
  digest_text round l = digest_text round' l' ↔ round = round' ∧ map projected l ≡ₚ map projected l'.
Proof.
  unfold digest_text. split.
  - intros H. apply (f_equal JSON_parse) in H.
    assert (Hp : ∀ r x, plain (JObj [("round", JInt r); ("prices", JArr (map (λ p, JObj [("coinPair", JStr p.1); ("price", JStr p.2)]) x))]) = true).
    { intros r x. cbn [plain forallb snd]. rewrite Z.eqb_refl, andb_true_r. cbn [andb]. apply forallb_forall.
      intros y [p [<- _]]%in_map_iff. done. }
    rewrite !JSON_parse_stringify in H by apply Hp. injection H as -> H. split; [done|].
    assert (E : canonicalDigestPrices l = canonicalDigestPrices l').
    { revert H. generalize (canonicalDigestPrices l) (canonicalDigestPrices l'). clear.
      intros a. induction a as [|[x y] a IH]; intros [|[x' y'] b]; simpl; try done. intros [= -> -> H]. by rewrite (IH b). }
    unfold canonicalDigestPrices in E. rewrite <-(isort_perm projected_le (map projected l)), E. apply isort_perm.
  - intros [-> Hp]. unfold canonicalDigestPrices.
    rewrite (isort_perm_eq projected_le projected_le_trans projected_le_total _ _ Hp); [done|].
    intros x y _ _. apply projected_le_antisym.
Qed.

(** ** The reference cache *)









(** Every reference with a round comes from before [round]. *)
Definition all_before (round : Z) (c : reference) : Prop := map_Forall (λ _ r, r < round) (lastRounds c).

Lemma note_before b round pair p r c :
  all_before round c → (∀ x, r = Some x → x < round) → all_before round (noteFinalizedPrice b pair p r c).1.
Proof.
  intros Hc Hr. unfold noteFinalizedPrice. destruct p as [[|ch p]|]; [done| |done]. destruct (String.eqb pair ""); [done|].
  destruct (match r with Some _ => _ | None => false end); [done|]. cbn [fst]. unfold all_before. cbn [lastRounds with_prices].
  destruct r as [r|]; [|done]. apply map_Forall_insert_2; [by apply Hr|done].
Qed.

Lemma seed_before b round answer c :
  all_before round c → (∀ rows x r, answer = Some rows → x ∈ rows → sr_round x = Some r → r < round) →
  all_before round (seedLastFinalizedPrices b answer c).
Proof.
  intros Hc Ha. unfold seedLastFinalizedPrices. destruct answer as [rows|]; [|done]. cbn [default].
  assert (Hr : ∀ x r, x ∈ rows → sr_round x = Some r → r < round) by eauto. clear Ha. revert c Hc.
  induction rows as [|x rows IH]; intros c Hc; [done|]. cbn [foldl]. apply IH; [intros y r Hy; apply Hr; by right|].
  unfold note_row. destruct (String.eqb (sr_pair x) ""); [done|]. destruct (sr_price x); [|done].
  apply note_before; [done|]. intros r. apply Hr. by left.
Qed.

(** No pair's reference goes back. *)
Definition grows (c c' : reference) : Prop :=
  ∀ pair r, lastRounds c !! pair = Some r → ∃ r', lastRounds c' !! pair = Some r' ∧ r ≤ r'.

#[local] Instance grows_preorder : PreOrder grows.
Proof.
  split; [intros c pair r Hr; exists r; split; [done|lia]|].
  intros c1 c2 c3 H1 H2 pair r Hr. destruct (H1 pair r Hr) as (r1 & Hr1 & ?). destruct (H2 pair r1 Hr1) as (r2 & ? & ?).
  exists r2. split; [done|lia].
Qed.

Lemma note_grows b pair p r c :
  grows c (noteFinalizedPrice b pair p r c).1 ∧ refreshRound (noteFinalizedPrice b pair p r c).1 = refreshRound c.
Proof.
  assert (Hid : grows c c ∧ refreshRound c = refreshRound c) by by split.
  unfold noteFinalizedPrice. destruct p as [[|ch p]|]; [exact Hid| |exact Hid]. destruct (String.eqb pair ""); [exact Hid|].
  destruct (match r with Some r => _ | None => false end) eqn:E; [exact Hid|]. split; [|done]. destruct r as [r|]; [|apply Hid].
  intros q x Hx. cbn [fst lastRounds with_prices]. destruct (decide (q = pair)) as [->|Hne].
  - rewrite lookup_insert_eq. exists r. split; [done|]. apply orb_false_iff in E as [_ E].
    unfold lastFinalizedRoundFor in E. rewrite Hx in E. by bools.
  - rewrite lookup_insert_ne by done. exists x. split; [done|lia].
Qed.

Lemma seed_grows b answer c :
  grows c (seedLastFinalizedPrices b answer c) ∧ refreshRound (seedLastFinalizedPrices b answer c) = refreshRound c.
Proof.
  unfold seedLastFinalizedPrices. generalize (default [] answer). intros rows. revert c.
  induction rows as [|x rows IH]; intros c; [by split|]. cbn [foldl]. destruct (IH (note_row b c x)) as [I1 I2].
  assert (grows c (note_row b c x) ∧ refreshRound (note_row b c x) = refreshRound c) as [X1 X2].
  { unfold note_row. destruct (String.eqb (sr_pair x) ""); [by split|]. destruct (sr_price x); [apply note_grows|by split]. }
  split; [by transitivity (note_row b c x)|congruence].
Qed.

(** Once a hub has aligned its reference to a round, no price of that round or
    of a later one clamps it, whether the database answered or not, and aligning
    again changes nothing; a read the alignment skipped was one a complete cache
    did not need. *)
Theorem refresh_aligns b round answer answer' c :
  refreshRound c ≠ Some round →
  (∀ rows x r, answer = Some rows → x ∈ rows → sr_round x = Some r → r < round) →
  let c' := refreshLastFinalizedForRound b round answer c in
  all_before round c' ∧ refreshLastFinalizedForRound b round answer' c' = c' ∧
  (∀ pair r, lastRounds c !! pair = Some r → r < round → ∃ r', lastRounds c' !! pair = Some r' ∧ r ≤ r').
Proof.
  intros Hnew Ha c'. unfold c', refreshLastFinalizedForRound. rewrite (bool_decide_false _ Hnew).
  cbv zeta. set (c1 := with_refreshRound round c). set (earlier := λ pair, match lastRounds c1 !! pair with Some r => r <? round | None => true end).
  set (c2 := with_prices _ _ c1).
  assert (H2 : all_before round c2).
  { unfold c2, all_before. cbn [lastRounds with_prices]. intros pair r [Hr He]%map_lookup_filter_Some.
    change (match lastRounds c1 !! pair with Some r => r <? round | None => true end = true) in He. rewrite Hr in He. by bools. }
  assert (K2 : ∀ pair r, lastRounds c !! pair = Some r → r < round → lastRounds c2 !! pair = Some r).
  { intros pair r Hr Hlt. unfold c2. cbn [lastRounds with_prices]. apply map_lookup_filter_Some. split; [done|].
    change (match lastRounds c !! pair with Some r => r <? round | None => true end = true). rewrite Hr. by apply Z.ltb_lt. }
  destruct (seed_grows b answer c2) as [S1 S2]. pose proof (seed_before b round answer c2 H2 Ha) as Hb.
  destruct (negb _ && _); [|destruct (match maxCachedFinalizedRound _ with Some m => _ | None => false end)];
    (split_and!; [done|rewrite bool_decide_true; done|]); intros pair r Hr Hlt; [|by apply S1, K2..].
  exists r. split; [by apply K2|lia].
Qed.

(** ** The submission map *)

(** The hub's own submission of a round, once it made one. *)
Definition own_submission (identityKey : option string) (l : list arrival) : option submission :=
  last (omap (λ a, match a with Own own => Some (Submission own (toLowerCase <$> identityKey)) | Peer _ _ _ => None end) l).

(** An entry that came through the door: any but the hub's own. *)
Definition through_door (me : string) (own : option submission) (s : string * submission) : Prop :=
  match own with Some _ => s.1 ≠ me | None => True end.
#[export] Instance through_door_dec me own s : Decision (through_door me own s).
Proof. destruct own; apply _. Defined.

Record submissions_ok (canonicalPairs : gset string) (cap : Z) (me : string) (own : option submission) (subs : list (string * submission)) : Prop := {
  so_senders : NoDup subs.*1;
  so_keys : ∀ i j s t k, subs !! i = Some s → subs !! j = Some t → through_door me own s → through_door me own t →
    pubkey s.2 = Some k → pubkey t.2 = Some k → k ≠ EmptyString → i = j;
  so_cap : Z.of_nat (length (filter (through_door me own) subs)) ≤ cap;
  so_entries : ∀ s e, s ∈ subs → through_door me own s → e ∈ prices s.2 →
    coinPair e ∈ canonicalPairs ∧ canonicalPrice (PText (price e)) = Some (price e) ∧ in_bounds (price e) = true;
  so_own : ∀ o, own = Some o → (me, o) ∈ subs }.

Lemma canonicalPrice_text v s : canonicalPrice v = Some s → canonicalPrice (PText s) = Some s.
Proof.
  intros H. assert (Hs : ∀ t, canonicalPrice (PText t) = Some s → canonicalPrice (PText s) = Some s).
  { intros t Ht. assert (t = s) as ->; [|done]. revert Ht. cbn [canonicalPrice]. repeat case_match; by intros [= <-]. }
  destruct v as [t|[t|]|]; [by apply (Hs t)|by apply (Hs t)|done|done].
Qed.

Lemma admitted_ok canonicalPairs p e :
  admitted_entry canonicalPairs p = Some e →
  coinPair e ∈ canonicalPairs ∧ canonicalPrice (PText (price e)) = Some (price e) ∧ in_bounds (price e) = true.
Proof.
  unfold admitted_entry. case_bool_decide as Hp; [done|]. destruct (canonicalPrice (we_price p)) as [c|] eqn:Ec; [|done].
  destruct (in_bounds c) eqn:Eb; [|done]. intros [= <-]. cbn [coinPair price].
  split_and!; [by destruct (decide (we_pair p ∈ canonicalPairs))|by eapply canonicalPrice_text|done].
Qed.

Lemma record_ok canonicalPairs cap me own sender pk l subs :
  submissions_ok canonicalPairs cap me own subs → submissions_ok canonicalPairs cap me own (recordSubmission canonicalPairs cap sender pk l subs).
Proof.
  intros Hok. unfold recordSubmission. destruct (existsb _ subs) eqn:Es; [done|].
  destruct (droppedAsDuplicateOrOverCap cap subs pk) eqn:Ed; [done|].
  destruct (canonicalSubmittedPrices canonicalPairs l) as [valid|] eqn:Ev; [|done]. destruct Hok as [H1 H2 H3 H4 H5].
  unfold droppedAsDuplicateOrOverCap in Ed. apply orb_false_iff in Ed as [Ed Ecap]. bools.
  assert (Hfresh : ∀ s, s ∈ subs → ∀ k, pubkey s.2 = Some k → pk = Some k → k = EmptyString).
  { intros s Hs k Hk ->. apply andb_false_iff in Ed as [Ed|Ed]; [bools; by apply String.eqb_eq|].
    exfalso. enough (existsb (λ s, bool_decide (pubkey s.2 = Some k)) subs = true) by congruence.
    apply existsb_exists. exists s. split; [by apply list_elem_of_In|]. by apply bool_decide_eq_true. }
  constructor.
  - rewrite fmap_app. apply NoDup_app. split_and!; [done| |apply NoDup_singleton]. intros x Hx ->%list_elem_of_singleton.
    enough (existsb (λ s, String.eqb s.1 sender) subs = true) by congruence. apply existsb_exists.
    apply list_elem_of_fmap in Hx as (s & Ex & Hs). exists s. split; [by apply list_elem_of_In|]. simpl in Ex. rewrite Ex. apply String.eqb_refl.
  - intros i j s t k Hi Hj Ds Dt Hs Ht Hk. apply lookup_app_Some in Hi, Hj.
    destruct Hi as [Hi|[Hi Hi']], Hj as [Hj|[Hj Hj']].
    + by eapply H2.
    + apply list_lookup_singleton_Some in Hj' as [_ <-]. simpl in Ht. destruct Hk. eapply Hfresh; [by eapply list_elem_of_lookup_2|done|done].
    + apply list_lookup_singleton_Some in Hi' as [_ <-]. simpl in Hs. destruct Hk. eapply Hfresh; [by eapply list_elem_of_lookup_2|done|done].
    + apply list_lookup_singleton_Some in Hi' as [? _], Hj' as [? _]. lia.
  - etransitivity; [apply inj_le, length_filter|]. rewrite length_app. simpl. lia.
  - intros s e [Hs|Hs%list_elem_of_singleton]%elem_of_app Hd He; [by eapply H4|]. subst s. simpl in He.
    unfold canonicalSubmittedPrices in Ev. destruct (omap (admitted_entry canonicalPairs) l) eqn:Eo; [done|].
    injection Ev as <-. rewrite <-Eo in He. apply list_elem_of_omap in He as (p & _ & Hp). by eapply admitted_ok.
  - intros o Ho. apply elem_of_app. left. by apply H5.
Qed.

(** A lookup past the own entry of the new map is a lookup of the old one. *)
Lemma m_set_lookup {V} (me : string) (o : V) m i kv : m_set me o m !! i = Some kv → kv.1 ≠ me → m !! i = Some kv.
Proof.
  revert i. induction m as [|[k' v'] m IH]; intros i; cbn [m_set fst].
  - destruct i; [intros [= <-]|]; done.
  - destruct (decide (k' = me)) as [->|Hne]; destruct i; cbn; try done; [by intros [= <-]|apply IH].
Qed.

Lemma m_set_others {V} (me : string) (o : V) m : filter (λ kv : string * V, kv.1 ≠ me) (m_set me o m) = filter (λ kv : string * V, kv.1 ≠ me) m.
Proof.
  induction m as [|[k' v'] m IH]; cbn [m_set fst].
  - rewrite filter_cons_False; [done|]. by intros [].
  - destruct (decide (k' = me)) as [->|Hne]; [rewrite !filter_cons_False; [done|by intros []..]|]. rewrite !filter_cons_True by done. by rewrite IH.
Qed.

Lemma m_set_has {V} (me : string) (o : V) m : (me, o) ∈ m_set me o m.
Proof. induction m as [|[k' v'] m IH]; cbn [m_set fst]; [by left|]. destruct (decide (k' = me)); [by left|by right]. Qed.

Lemma filter_length_mono {A} (P Q : A → Prop) `{!∀ x, Decision (P x), !∀ x, Decision (Q x)} (l : list A) :
  (∀ x, P x → Q x) → (length (filter P l) ≤ length (filter Q l))%nat.
Proof.
  intros Himp. induction l as [|x l IH]; [done|]. rewrite !filter_cons. destruct (decide (P x)) as [Hp|]; [rewrite decide_True by auto; cbn; lia|].
  destruct (decide (Q x)); cbn; lia.
Qed.

Lemma own_ok canonicalPairs cap me own o subs :
  submissions_ok canonicalPairs cap me own subs → submissions_ok canonicalPairs cap me (Some o) (m_set me o subs).
Proof.
  intros [H1 H2 H3 H4 _].
  assert (Hd : ∀ s, s.1 ≠ me → through_door me own s) by by intros s; destruct own.
  constructor.
  - by apply NoDup_m_set.
  - intros i j s t k Hi Hj Ds Dt. eapply H2; [by eapply m_set_lookup|by eapply m_set_lookup|by apply Hd..].
  - rewrite (list_filter_iff _ (λ kv : string * submission, kv.1 ≠ me) (m_set me o subs)) by done. rewrite m_set_others.
    etransitivity; [|exact H3]. apply inj_le, filter_length_mono. intros s. by destruct own.
  - intros s e Hs Hdoor. apply elem_of_m_set_pair in Hs as [->|Hs]; [by destruct Hdoor|]. apply H4; [done|]. by apply Hd.
  - intros o' [= <-]. apply m_set_has.
Qed.

(** C35: whatever peers send and this hub submits, in any order, the peers' entries of
    a round's map are at most the cap, one per sender and per proven key, and hold
    only whitelisted pairs at prices spelled canonically and inside the bounds: the
    form the aggregation reads. Once the hub has submitted, its address holds its own
    last submission, whatever arrived under that address; that entry, which comes
    past the door, is the one entry beyond the cap. *)
Theorem submissions_well_formed canonicalPairs cap me identityKey (l : list arrival) :
  0 ≤ cap → submissions_ok canonicalPairs cap me (own_submission identityKey l) (foldl (record_arrival canonicalPairs cap me identityKey) [] l).
Proof.
  intros Hcap. induction l as [|a l IH] using rev_ind.
  - constructor; [apply NoDup_nil_2|done|simpl; lia|by intros s e ?%elem_of_nil|done].
  - rewrite foldl_app. unfold own_submission. rewrite omap_app. destruct a as [sender pk ws|own]; cbn [omap list_omap foldl record_arrival].
    + rewrite app_nil_r. by apply record_ok.
    + rewrite last_snoc. by eapply own_ok.
Qed.


Lemma refresh_aligns_witness :
  let c := Reference {["BTC/USD" := "103"]} {["BTC/USD" := 9]} None 0 None in
  let rows := [SnapshotRow "BTC/USD" (Some "100"%string) (Some 7) true] in
  let c' := refreshLastFinalizedForRound None 9 (Some rows) c in
  all_before 9 c' ∧ refreshLastFinalizedForRound None 9 None c' = c' ∧
  (∀ pair r, lastRounds c !! pair = Some r → r < 9 → ∃ r', lastRounds c' !! pair = Some r' ∧ r ≤ r').
Proof.
  intros c rows. apply (refresh_aligns None 9 (Some rows) None c); [done|].
  intros rows' x r [= <-] ->%list_elem_of_singleton [= <-]. lia.
Defined.

Lemma submissions_well_formed_witness :
  let own := [Entry "BTC/USD" "64001"] in
  let l := [Peer "me" (Some "k"%string) [WireEntry "BTC/USD" (PText "1")]; Own own; Peer "a" (Some "j"%string) [WireEntry "BTC/USD" (PText "64000")]] in
  let subs := foldl (record_arrival {["BTC/USD"]} 2 "me" (Some "K"%string)) [] l in
  map fst subs = ["me"; "a"]%string ∧ submissions_ok {["BTC/USD"]} 2 "me" (Some (Submission own (Some "k"%string))) subs.
Proof. intros own l subs. split; [vm_compute; reflexivity|]. exact (submissions_well_formed {["BTC/USD"]} 2 "me" (Some "K"%string) l ltac:(lia)). Defined.
