(* ===== verification/Admission.v ===== *)
(** * Admission by height

    Model of [src/consensus/gates/mirror_admission_gate.js],
    [src/consensus/gates/mirror_admission_margin_gate.js],
    [src/lib/admission_height.js], [src/lib/admission_height/read_sets.js] and the
    stamping of [src/hub/chain_tips.js]: which chains read a mirrored row, the
    height a producer stamps for each of them, the follower's bound, the canonical
    bytes of the map, and the rule that binds a row at a block. Values that cross
    the wire are JSON values ([None] stands for [undefined]). *)

From stdpp Require Import pretty.
From Stdlib Require Import QArith_base Qreduction.
From S2P Require Import Prelude GateRegistry BigNum Json AttestWire OracleBand.
Open Scope Z_scope.

(** ** Constants *)

Definition ADMIT_MARGIN_BLOCKS : list (string * Z) :=
  [("default", 4); ("attestation_responses", 1); ("oracle_prices", 1); ("anchor_reward_attestations", 144)].
Definition ADMIT_MIN_FUTURE_BLOCKS : Z := 1.
Definition ADMIT_MAX_FUTURE_BLOCKS : list (string * Z) := [("BTC", 6); ("LTC", 24); ("DOGE", 60); ("default", 6)].
Definition ADMIT_COLUMN_CHAINS : list string := ["BTC"; "LTC"; "DOGE"].

Definition MIRROR_ADMISSION_ACTIVATION : list (string * option Z) :=
  [("BTC:mainnet", None); ("LTC:mainnet", None); ("DOGE:mainnet", None);
   ("BTC:testnet", Some 154234); ("LTC:testnet", Some 4903068); ("DOGE:testnet", Some 67936053);
   ("BTC:regtest", None); ("LTC:regtest", None); ("DOGE:regtest", None)].

Definition MIRROR_ADMISSION_CONSUMER_ACTIVATION : list (string * option Z) :=
  [("BTC:mainnet", None); ("LTC:mainnet", None); ("DOGE:mainnet", None);
   ("BTC:testnet", Some 154291); ("LTC:testnet", Some 4903291); ("DOGE:testnet", Some 67936888);
   ("BTC:regtest", None); ("LTC:regtest", None); ("DOGE:regtest", None)].

Definition slow_margins (price : Z) : list (string * Z) :=
  [("bridge_transfers", 14); ("cross_chain_calls", 14); ("cross_chain_matches", 14); ("list_snapshots", 14);
   ("policy_snapshots", 14); ("price_snapshots", price); ("remote_token_snapshots", 14)].
Definition ADMIT_CHAIN_MARGIN_BLOCKS : list (string * list (string * Z)) :=
  [("DOGE", slow_margins 16); ("LTC", slow_margins 17)].
Definition ADMIT_CHAIN_MARGIN_ACTIVATION : list (string * option Z) :=
  [("mainnet", None); ("DOGE:mainnet", None); ("DOGE:testnet", Some 67989993);
   ("LTC:mainnet", None); ("LTC:testnet", Some 4949697); ("regtest", Some 0)].

(** Own-property lookup in a frozen table. *)
Fixpoint own {A} (key : string) (table : list (string * A)) : option A :=
  match table with [] => None | (k, v) :: r => if String.eqb k key then Some v else own key r end.

Definition upper_ascii (c : ascii) : ascii :=
  let n := Ascii.N_of_ascii c in
  if (97 <=? n)%N && (n <=? 122)%N then Ascii.ascii_of_N (n - 32) else c.

(** [String.prototype.toUpperCase] on ASCII. *)
Fixpoint toUpperCase (s : string) : string :=
  match s with EmptyString => EmptyString | String c r => String (upper_ascii c) (toUpperCase r) end.

(** One to ten upper-case letters and digits; digits without a leading zero. *)
Definition CHAIN_CODE_RE (s : string) : bool :=
  all_chars (λ c, is_upper c || is_digit c) s && negb (String.eqb s "") && (String.length s <=? 10)%nat.
Definition CANONICAL_HEIGHT_RE (s : string) : bool := all_chars is_digit s && integer_part s.

(** ** Numbers of the wire *)

Definition num_Q (m e : Z) : Q := if 0 <=? e then inject_Z (m * 10 ^ e) else m # Z.to_pos (10 ^ (- e)).

(** The integer a number is, if it is one. *)
Definition num_int (m e : Z) : option Z :=
  if 0 <=? e then Some (m * 10 ^ e) else if m mod 10 ^ (- e) =? 0 then Some (m / 10 ^ (- e)) else None.

(** [Number.isSafeInteger(v)] of a number, and its value. *)
Definition safe_int (m e : Z) : option Z := z ← num_int m e; if safe z then Some z else None.

(** [_readHeight]: a finite number, or a string of digits. *)
Definition readHeight (height : option json) : option Q :=
  match height with
  | Some (JNum m e) => Some (num_Q m e)
  | Some (JStr s) =>
      let s := trim s in
      let digits := match s with String "-"%char r => r | r => r end in
      if all_chars is_digit digits && negb (String.eqb digits "") then inject_Z <$> parseInt s else None
  | _ => None
  end.

(** ** Activation *)

Definition admissionKey (coin network : option string) : option string :=
  match coin, network with
  | Some coin, Some network =>
      let c := toUpperCase (trim coin) in
      let n := toLowerCase (trim network) in
      if String.eqb c "" || String.eqb n "" then None else Some (c +:+ ":" +:+ n)
  | _, _ => None
  end.

Definition activeIn (map : list (string * option Z)) (coin network : option string) (height : option json) : bool :=
  match admissionKey coin network with
  | None => false
  | Some key =>
      match own key map with
      | Some (Some threshold) => match readHeight height with None => false | Some h => Qle_bool (inject_Z threshold) h end
      | _ => false
      end
  end.

(** ** Margins and bounds *)

Definition table_or_default (t : list (string * Z)) (skip key : string) : Z :=
  match own key t with
  | Some z => if String.eqb key skip then default 0 (own "default" t) else z
  | None => default 0 (own "default" t)
  end.

Definition admitMarginBlocks (table : option string) : Z :=
  match table with
  | None => default 0 (own "default" ADMIT_MARGIN_BLOCKS)
  | Some t => table_or_default ADMIT_MARGIN_BLOCKS "default" (trim t)
  end.

Definition admitMaxFutureBlocks (chain : option string) : Z :=
  match chain with
  | None => default 0 (own "default" ADMIT_MAX_FUTURE_BLOCKS)
  | Some c => table_or_default ADMIT_MAX_FUTURE_BLOCKS "DEFAULT" (toUpperCase (trim c))
  end.

Definition isAdmitBlockInFollowerBound (chain : option string) (admitBlock ownTip : option json) : bool :=
  match readHeight admitBlock, readHeight ownTip with
  | Some h, Some tip =>
      if negb (Zpos (Qden (Qred h)) =? 1) || negb (Qle_bool 0 h) then false
      else Qle_bool (tip + inject_Z ADMIT_MIN_FUTURE_BLOCKS) h && Qle_bool h (tip + inject_Z (admitMaxFutureBlocks chain))
  | _, _ => false
  end.

Definition is_nullish (v : option json) : bool := match v with None | Some JNull => true | _ => false end.

Definition isRowReadableAt (admitBlock blockHeight effectiveTime blockTime : option json) : bool :=
  if is_nullish admitBlock then
    match readHeight effectiveTime, readHeight blockTime with Some et, Some bt => Qle_bool et bt | _, _ => false end
  else match readHeight admitBlock, readHeight blockHeight with Some h, Some b => Qle_bool h b | _, _ => false end.

(** ** The canonical bytes of a map *)

Inductive admission_error :=
| EmptyMap | BadChainCode (code : string) | BadHeight (code : string) | BadColumn (chain : string)
| MapsDisagree | NoReadSet (table : string) | NoPublishingChain | NoFederationChains | UnusableChain
| NoNetwork | BadReadSet | MissingTips (chains : list string).

(** The canonical spelling of a height, if it has one. *)
Definition height_text (v : json) : option string :=
  s ← match v with JNum m e => pretty <$> safe_int m e | JStr s => Some s | _ => None end;
  if CANONICAL_HEIGHT_RE s then Some s else None.

Fixpoint encode_parts (codes : list (string * json)) : result admission_error (list string) :=
  match codes with
  | [] => Ok []
  | (code, v) :: r =>
      check CHAIN_CODE_RE code else BadChainCode code in
      match height_text v with
      | None => Err (BadHeight code)
      | Some s => let! l := encode_parts r in Ok ((code +:+ ":" +:+ s) :: l)
      end
  end.

Definition code_le (a b : string * json) : bool := String.leb a.1 b.1.

(** The entries of an object, its keys sorted. *)
Definition sorted_entries (map : gmap string json) : list (string * json) := isort code_le (map_to_list map).

Definition encodeAdmitBlocks (map : gmap string json) : result admission_error string :=
  check negb (bool_decide (map = ∅)) else EmptyMap in
  let! parts := encode_parts (sorted_entries map) in Ok (commas parts).

Fixpoint split_on (c : ascii) (s : string) : list string :=
  match s with
  | EmptyString => [EmptyString]
  | String x r =>
      if Ascii.eqb x c then EmptyString :: split_on c r
      else match split_on c r with [] => [String x EmptyString] | p :: l => String x p :: l end
  end.

(** A chain code, a colon and a canonical height. *)
Definition decode_part (p : string) : option (string * Z) :=
  match split_on ":"%char p with
  | [code; digits] =>
      if CHAIN_CODE_RE code && CANONICAL_HEIGHT_RE digits
      then let h := read_digits 0 digits in if safe h then Some (code, h) else None
      else None
  | _ => None
  end.

Fixpoint decode_parts (prev : option string) (parts : list string) (map : gmap string Z) : option (gmap string Z) :=
  match parts with
  | [] => Some map
  | p :: r =>
      '(code, h) ← decode_part p;
      if match prev with Some prev => String.leb code prev | None => false end then None
      else decode_parts (Some code) r (<[code := h]> map)
  end.

Definition decodeAdmitBlocks (field : string) : option (gmap string Z) :=
  if String.eqb field "" then None else decode_parts None (split_on ","%char field) ∅.

(** ** The map a row carries *)

Definition admit_column (chain : string) : string := "admit_block_" +:+ toLowerCase chain.

(** A usable height of a column: [Number(v)], a safe non-negative integer. *)
Definition column_height (v : json) : option Z :=
  '(m, e) ← json_Number (Some v); z ← safe_int m e; if z <? 0 then None else Some z.

Fixpoint columns_from (chains : list string) (columns : string → option json) : result admission_error (gmap string json) :=
  match chains with
  | [] => Ok ∅
  | c :: r =>
      let! map := columns_from r columns in
      match columns (admit_column c) with
      | None | Some JNull => Ok map
      | Some v => match column_height v with None => Err (BadColumn c) | Some h => Ok (<[c := JInt h]> map) end
      end
  end.

(** [None] is a legacy row: no column is set. *)
Definition columnsAdmitBlocks (columns : string → option json) : result admission_error (option (gmap string json)) :=
  let! map := columns_from ADMIT_COLUMN_CHAINS columns in Ok (if bool_decide (map = ∅) then None else Some map).

Definition rowAdmitBlocks (columns : string → option json) (admit_blocks : option (gmap string json)) :
    result admission_error (option (gmap string json)) :=
  let! fromCols := columnsAdmitBlocks columns in
  match admit_blocks, fromCols with
  | None, _ => Ok fromCols
  | Some inMem, None => Ok (Some inMem)
  | Some inMem, Some cols =>
      let! a := encodeAdmitBlocks inMem in
      let! b := encodeAdmitBlocks cols in
      check String.eqb a b else MapsDisagree in Ok (Some inMem)
  end.

(** The column assignments: every federation column named. *)
Definition admitBlocksToColumns (map : option (gmap string Z)) : list (string * json) :=
  (λ c, (admit_column c, match map with Some m => match m !! c with Some z => JInt z | None => JNull end | None => JNull end))
    <$> ADMIT_COLUMN_CHAINS.

Section Era.
(** The producer's activation map, read through the registry. *)
Context (producer : list (string * option Z)).

Definition isMirrorAdmissionProducerActive (coin network : option string) (height : option json) : bool :=
  activeIn producer coin network height.

Definition isAdmissionEra (network : option string) (eraBlock : option json) : bool :=
  isMirrorAdmissionProducerActive (Some "BTC"%string) network eraBlock.

Definition admissionCanonicalValue (network : option string) (eraBlock : option json) (map : option (gmap string json)) :
    result admission_error (option string) :=
  if negb (isAdmissionEra network eraBlock) then Ok None
  else match map with None => Ok None | Some m => let! s := encodeAdmitBlocks m in Ok (Some s) end.

Definition admissionCanonicalField (network : option string) (eraBlock : option json) (map : option (gmap string json)) :
    result admission_error string :=
  let! value := admissionCanonicalValue network eraBlock map in
  Ok (match value with None => EmptyString | Some v => "|" +:+ v end).
End Era.

Definition isMirrorAdmissionConsumerActive (consumer : list (string * option Z)) (coin network : option string)
    (height : option json) : bool := activeIn consumer coin network height.

(** [resolveMirrorAdmissionRegtest] of the environment variable. *)
Definition resolveMirrorAdmissionRegtest (raw : option string) : option Z :=
  match raw with
  | None => None
  | Some raw =>
      let s := toLowerCase (trim raw) in
      if existsb (String.eqb s) [""; "off"; "inert"; "false"; "no"; "none"]%string then None
      else if existsb (String.eqb s) ["armed"; "genesis"; "on"; "true"; "yes"]%string then Some 0
      else if all_chars is_digit s then parseInt s else None
  end.

(** ** The read sets *)

Definition normalizeChain (chain : option string) : option string :=
  match chain with
  | None => None
  | Some c => let c := toUpperCase (trim c) in if CHAIN_CODE_RE c then Some c else None
  end.

Inductive readspec := RsFields (fields : list string) | RsChains (chains : list string) | RsEvery | RsPublishing.

Definition ADMISSION_READ_SETS : list (string * readspec) :=
  [("cross_chain_matches", RsFields ["a_chain"; "b_chain"]);
   ("cross_chain_calls", RsFields ["target_chain"; "source_chain"]);
   ("bridge_transfers", RsFields ["dest_chain"]);
   ("policy_snapshots", RsEvery); ("list_snapshots", RsEvery); ("remote_token_snapshots", RsEvery);
   ("attestation_responses", RsChains ["BTC"]); ("anchor_reward_attestations", RsChains ["BTC"]);
   ("oracle_prices", RsPublishing); ("price_snapshots", RsEvery)].

(** Every chain normalised, or nothing at all. *)
Fixpoint normalize_all (raw : list (option string)) : option (list string) :=
  match raw with
  | [] => Some []
  | c :: r => n ← normalizeChain c; l ← normalize_all r; Some (n :: l)
  end.

Definition admissionReadSet (table : string) (row : string → option string) (federationChains : list string) :
    result admission_error (list string) :=
  match own table ADMISSION_READ_SETS with
  | None => Err (NoReadSet table)
  | Some spec =>
      let! raw := match spec with
                  | RsPublishing =>
                      match row "source_chain" with
                      | None => Err NoPublishingChain
                      | Some src => check negb (String.eqb (trim src) "") else NoPublishingChain in Ok [Some src]
                      end
                  | RsEvery => check negb (bool_decide (federationChains = [])) else NoFederationChains in Ok (Some <$> federationChains)
                  | RsChains l => Ok (Some <$> l)
                  | RsFields l => Ok (row <$> l)
                  end in
      match normalize_all raw with
      | None => Err UnusableChain
      | Some l => Ok (isort String.leb (remove_dups l))
      end
  end.

(** ** Chain margins *)

Definition chainMarginBlocks (table chain : option string) : option Z :=
  match table, chain with
  | Some table, Some chain => margins ← own (toUpperCase (trim chain)) ADMIT_CHAIN_MARGIN_BLOCKS; own (trim table) margins
  | _, _ => None
  end.

(** [None] both for no entry and for an unpinned one. *)
Definition activationHeight (chain network : option string) : option Z :=
  match chain, network with
  | Some chain, Some network =>
      let venue := toLowerCase (trim network) in
      match own (toUpperCase (trim chain) +:+ ":" +:+ venue) ADMIT_CHAIN_MARGIN_ACTIVATION with
      | Some h => h
      | None => default None (own venue ADMIT_CHAIN_MARGIN_ACTIVATION)
      end
  | _, _ => None
  end.

Definition stampMarginAt (m : Z) (mChain H : option Z) (tip : Z) : Z :=
  match mChain, H with Some mc, Some h => if h <=? tip + mc then mc else m | _, _ => m end.

Definition rowMarginAt (m : Z) (mChain H : option Z) (admitHeight : Z) : Z :=
  match mChain, H with Some mc, Some h => if h <=? admitHeight then mc else m | _, _ => m end.

Definition consumerTargetAt (m : Z) (mChain H : option Z) (blockHeight : Z) : Z :=
  match mChain, H with
  | Some mc, Some h => if blockHeight <? h then blockHeight - m else blockHeight - mc
  | _, _ => blockHeight - m
  end.

(** [baseMarginBlocks] of the margin module is [admitMarginBlocks] of the gate. *)
Definition stampMarginBlocks (table chain network : option string) (tip : Z) : Z :=
  stampMarginAt (admitMarginBlocks table) (chainMarginBlocks table chain) (activationHeight chain network) tip.
Definition rowMarginBlocks (table chain network : option string) (admitHeight : Z) : Z :=
  rowMarginAt (admitMarginBlocks table) (chainMarginBlocks table chain) (activationHeight chain network) admitHeight.
Definition consumerTargetHeight (table chain network : option string) (blockHeight : Z) : Z :=
  consumerTargetAt (admitMarginBlocks table) (chainMarginBlocks table chain) (activationHeight chain network) blockHeight.

(** ** The stamp *)

(** A usable tip is a number that is a safe non-negative integer. *)
Definition usable_tip (v : option json) : option Z :=
  match v with
  | Some (JNum m e) => z ← safe_int m e; if z <? 0 then None else Some z
  | _ => None
  end.

Definition missingAdmissionTips (readSet : list string) (tips : string → option json) : list string :=
  omap (λ chain, match normalizeChain (Some chain) with
                 | None => Some chain
                 | Some c => match usable_tip (tips c) with None => Some c | Some _ => None end
                 end) readSet.

Definition admitBlocks (readSet : list string) (tips : string → option json) (table : string) (network : option string) :
    result admission_error (gmap string Z) :=
  match network with
  | None => Err NoNetwork
  | Some n =>
      check negb (String.eqb (trim n) "") else NoNetwork in
      match normalize_all (Some <$> readSet) with
      | None | Some [] => Err BadReadSet
      | Some chains =>
          match missingAdmissionTips chains tips with
          | [] => Ok (foldl (λ map c, match usable_tip (tips c) with
                                      | Some tip => <[c := tip + stampMarginBlocks (Some table) (Some c) network tip]> map
                                      | None => map
                                      end) ∅ chains)
          | missing => Err (MissingTips missing)
          end
      end
  end.

(** [resolveAdmitBlocks] of the hub: [None] refuses to finalize the row. [tips] is
    the answer of [resolveAdmissionTips], [None] when that read threw. *)
Definition resolveAdmitBlocks (tips : option (string → option json)) (network : option string) (table : string)
    (readSet : list string) : option (gmap string Z) :=
  match tips with
  | None => None
  | Some tips =>
      match missingAdmissionTips readSet tips with
      | [] => match admitBlocks readSet tips table network with Ok map => Some map | Err _ => None end
      | _ => None
      end
  end.

(** ** The follower's bound *)

Inductive refusal :=
| RfReadSet | RfNoMap | RfOmits (chain : string) | RfNoOwnTip (chain : string) | RfOutside (chain : string) | RfExtra.

Definition own_tip (v : option json) : option Z :=
  if is_nullish v then None
  else '(m, e) ← json_Number v; z ← num_int m e; if z <? 0 then None else Some z.

Definition check_chain (map : gmap string json) (ownTips : string → option json) (c : string) : option refusal :=
  match map !! c with
  | None => Some (RfOmits c)
  | Some v =>
      match own_tip (ownTips c) with
      | None => Some (RfNoOwnTip c)
      | Some tip => if isAdmitBlockInFollowerBound (Some c) (Some v) (Some (JInt tip)) then None else Some (RfOutside c)
      end
  end.

Fixpoint first_refusal {A} (f : A → option refusal) (l : list A) : option refusal :=
  match l with [] => None | x :: r => match f x with Some e => Some e | None => first_refusal f r end end.

(** [None] is the accepted map. *)
Definition checkAdmitBlocks (readSet : list string) (map : option (gmap string json)) (ownTips : string → option json) : option refusal :=
  match normalize_all (Some <$> readSet) with
  | None | Some [] => Some RfReadSet
  | Some chains =>
      match map with
      | None => Some RfNoMap
      | Some map =>
          match first_refusal (check_chain map ownTips) chains with
          | Some e => Some e
          | None => if bool_decide (dom map ⊆ list_to_set chains) then None else Some RfExtra
          end
      end
  end.

(** ** Freshness of a chain's tip *)

Record seen := Seen { seen_height : Z; seen_atMs : Z }.

Definition NOMINAL_BLOCK_INTERVAL_S : list (string * Z) := [("BTC", 600); ("LTC", 150); ("DOGE", 60)].
Definition blockIntervalS (chain : string) : Z := default 600 (own chain NOMINAL_BLOCK_INTERVAL_S).
Definition ADMISSION_TIP_STALL_BLOCKS : Z := 6.

(** [maxAge]: the configured window in seconds, when it is a positive number. *)
Definition admissionTipFresh (network : string) (maxAge : option Z) (nowMs : Z) (coin : option string) (tip : Z)
    (tips : gmap string seen) : bool * gmap string seen :=
  match normalizeChain coin with
  | None => (false, tips)
  | Some c =>
      match tips !! c with
      | None => (true, <[c := Seen tip nowMs]> tips)
      | Some prev =>
          if seen_height prev <? tip then (true, <[c := Seen tip nowMs]> tips)
          else if String.eqb (toLowerCase network) "regtest" && (tip =? seen_height prev) then (true, tips)
          else
            let window := default (ADMISSION_TIP_STALL_BLOCKS * blockIntervalS c) maxAge in
            (negb (window <? (nowMs - seen_atMs prev) / 1000), tips)
      end
  end.

(** ** Margins in seconds

    [src/lib/relay_margin.js]. *)

Definition DEFAULT_RELAY_MARGIN_BLOCKS : Z := 4.
Definition RELAY_MARGIN_MAX_S : Z := 3000.
Definition RELAY_MIN_FUTURE_S : Z := 60.

Definition relayMarginFloorS (gatingChain : string) : Z :=
  Z.min (DEFAULT_RELAY_MARGIN_BLOCKS * blockIntervalS gatingChain) RELAY_MARGIN_MAX_S.

(** [blocks]: the configured count, [None] when it is not a finite number. *)
Definition relayMarginS (gatingChain : string) (blocks : option Z) : Z :=
  let want := default DEFAULT_RELAY_MARGIN_BLOCKS blocks * blockIntervalS gatingChain in
  Z.min (Z.max want (relayMarginFloorS gatingChain)) RELAY_MARGIN_MAX_S.
