(* ===== verification/AdmissionProps.v ===== *)
(** * Properties of admission by height

    The canonical bytes of an admission map and their decoder, the stamp against
    the follower's bound, and the stamp against the height a consumer waits for. *)

From stdpp Require Import pretty.
From Stdlib Require Import QArith_base Qreduction.
From S2P Require Import Prelude GateRegistry BigNum Json AttestWire OracleBand Admission.
Open Scope Z_scope.

(** ** Canonical numerals *)


Lemma pretty_N_go_acc x s : (0 < x)%N → pretty_N_go x s = pretty_N_go x EmptyString +:+ s.
Proof.
  revert s. induction (N.lt_wf_0 x) as [x _ IH]. intros s Hx. rewrite !(pretty_N_go_step x) by done.
  destruct (N.eq_dec (x `div` 10)%N 0%N) as [E|E].
  - by rewrite E, !pretty_N_go_0.
  - assert (Hl : (x `div` 10 < x)%N) by (apply N.div_lt; lia).
    rewrite (IH _ Hl (String _ s)), (IH _ Hl (String _ EmptyString)) by by apply N.neq_0_lt_0.
    by rewrite app_str_assoc.
Qed.

Lemma pretty_snoc x k : 0 < x → (k < 10)%N → pretty (10 * x + Z.of_N k) = pretty x +:+ String (pretty_N_char k) EmptyString.
Proof.
  intros Hx Hk. destruct x as [|p|p]; [lia| |lia].
  assert (E : 10 * Z.pos p + Z.of_N k = Z.of_N (10 * N.pos p + k)) by lia. rewrite E.
  destruct (10 * N.pos p + k)%N as [|q] eqn:Eq; [lia|].
  change (pretty_N_go (N.pos q) EmptyString = pretty_N_go (N.pos p) EmptyString +:+ String (pretty_N_char k) EmptyString).
  rewrite <-Eq, pretty_N_go_step by lia. rewrite <-pretty_N_go_acc by lia.
  assert (Ed : ((10 * N.pos p + k) `div` 10 = N.pos p)%N) by (symmetry; apply (N.div_unique _ _ _ k); lia).
  assert (Em : ((10 * N.pos p + k) `mod` 10 = k)%N) by (symmetry; apply (N.mod_unique _ _ (N.pos p)); lia).
  by rewrite Ed, Em.
Qed.

Lemma digit_char_of c : is_digit c = true → ∃ k, (k < 10)%N ∧ c = pretty_N_char k ∧ digit_val c = Z.of_N k.
Proof.
  intros H. exists (Ascii.N_of_ascii c - 48)%N.
  destruct c as [[] [] [] [] [] [] [] []]; try discriminate H; split_and!; reflexivity.
Qed.

Lemma pretty_read d x : 0 < x → all_chars is_digit d = true → pretty (read_digits x d) = pretty x +:+ d.
Proof.
  revert x. induction d as [|c d IH]; intros x Hx Hd; [by rewrite app_str_nil_r|].
  cbn [all_chars] in Hd. bools. cbn [read_digits]. rewrite H.
  destruct (digit_char_of c H) as (k & Hk & -> & Hv). rewrite IH by (lia || done).
  rewrite Hv, pretty_snoc, app_str_assoc by done. done.
Qed.

(** A canonical spelling is the one its number is printed with. *)
Lemma height_canonical_text d : CANONICAL_HEIGHT_RE d = true → pretty (read_digits 0 d) = d ∧ 0 ≤ read_digits 0 d.
Proof.
  unfold CANONICAL_HEIGHT_RE. destruct d as [|c d]; [done|]. cbn [all_chars integer_part]. intros H. bools.
  cbn [read_digits]. rewrite H. change (10 * 0) with 0. rewrite Z.add_0_l.
  destruct (digit_char_of c H) as (k & Hk & Ec & Hv). rewrite Hv.
  destruct (Ascii.eqb c "0"%char) eqn:E0.
  - cbn [negb orb] in H0. apply String.eqb_eq in H0 as ->. apply Ascii.eqb_eq in E0 as ->. simpl.
    assert (Z.of_N k = 0) as -> by (by rewrite <-Hv). done.
  - assert (Hk0 : (0 < k)%N). { destruct (decide (k = 0)%N) as [->|]; [|lia]. subst c. done. }
    rewrite pretty_read by (lia || done). split.
    + assert (E : pretty (Z.of_N k) = String c EmptyString); [|by rewrite E].
      rewrite Ec. clear -Hk Hk0. assert (k = 1 ∨ k = 2 ∨ k = 3 ∨ k = 4 ∨ k = 5 ∨ k = 6 ∨ k = 7 ∨ k = 8 ∨ k = 9)%N as H by lia.
      destruct_or! H; subst k; reflexivity.
    + pose proof (read_digits_bounds d (Z.of_N k) H1 ltac:(lia)) as [Hb _].
      assert (0 < 10 ^ Z.of_nat (String.length d)) by (apply Z.pow_pos_nonneg; lia). nia.
Qed.

Lemma canonical_pretty z : 0 ≤ z → CANONICAL_HEIGHT_RE (pretty z) = true ∧ read_digits 0 (pretty z) = z.
Proof. intros Hz. destruct (pretty_nonneg z Hz) as [H1 H2 H3]. unfold CANONICAL_HEIGHT_RE. by rewrite H1, H3. Qed.

Lemma height_text_int z s : height_text (JInt z) = Some s ↔ 0 ≤ z ∧ safe z = true ∧ s = pretty z.
Proof.
  unfold height_text, safe_int, num_int. cbn [Z.leb Z.compare]. change (10 ^ 0) with 1. rewrite Z.mul_1_r. cbn [mbind option_bind].
  destruct (safe z) eqn:E; cbn [fmap option_fmap option_map mbind option_bind]; [|split; [done|by intros (_ & ? & _)]].
  destruct (decide (0 ≤ z)) as [Hz|Hz].
  - destruct (canonical_pretty z Hz) as [-> _]. split; [by intros [= <-]|by intros (_ & _ & ->)].
  - split; [|by intros (? & _)]. destruct z as [|p|p]; try lia. rewrite pretty_neg. done.
Qed.

(** ** Splitting and joining *)

Definition free_of (c : ascii) (s : string) : bool := all_chars (λ x, negb (Ascii.eqb x c)) s.

Lemma split_on_field c a s : free_of c a = true → split_on c (a +:+ String c s) = a :: split_on c s.
Proof.
  induction a as [|x a IH]; intros H; [simpl; by rewrite Ascii.eqb_refl|].
  unfold free_of in *. cbn [all_chars] in H. bools.
  change (split_on c (String x (a +:+ String c s)) = String x a :: split_on c s). cbn [split_on]. by rewrite H, IH.
Qed.

Lemma split_on_last c a : free_of c a = true → split_on c a = [a].
Proof. induction a as [|x a IH]; intros H; [done|]. unfold free_of in *. cbn [all_chars] in H. bools. cbn [split_on]. by rewrite H, IH. Qed.

Lemma split_on_commas l : l ≠ [] → Forall (λ p, free_of ","%char p = true) l → split_on ","%char (commas l) = l.
Proof.
  intros Hne Hl. induction Hl as [|p l Hp Hl IH]; [done|]. destruct l as [|q l]; [by apply split_on_last|].
  rewrite commas_cons. change (p +:+ "," +:+ commas (q :: l)) with (p +:+ String ","%char (commas (q :: l))).
  rewrite split_on_field by done. by rewrite IH.
Qed.

Lemma split_on_nonempty c s : split_on c s ≠ [].
Proof. destruct s as [|x s]; [done|]. cbn [split_on]. destruct (Ascii.eqb x c); [done|]. by destruct (split_on c s). Qed.

Lemma commas_split s : commas (split_on ","%char s) = s.
Proof.
  induction s as [|x s IH]; [done|]. cbn [split_on]. destruct (Ascii.eqb x ","%char) eqn:E.
  - apply Ascii.eqb_eq in E as ->. pose proof (split_on_nonempty ","%char s). destruct (split_on ","%char s) as [|p l]; [done|].
    rewrite commas_cons, IH. done.
  - destruct (split_on ","%char s) as [|p l] eqn:Es; [by destruct (split_on_nonempty ","%char s)|].
    destruct l as [|q l]; [by simpl in *; rewrite IH|]. rewrite commas_cons in *. by rewrite <-IH.
Qed.

Lemma join_split_two c a b s : split_on c s = [a; b] → s = a +:+ String c b.
Proof.
  revert a. induction s as [|x s IH]; intros a; [done|]. cbn [split_on]. destruct (Ascii.eqb x c) eqn:E.
  - intros [= <- H]. apply Ascii.eqb_eq in E as ->. f_equal. change (String c s = String c b). f_equal. clear IH.
    revert b H. induction s as [|y s IHs]; intros b; cbn [split_on]; [by intros [= <-]|]. destruct (Ascii.eqb y c).
    + intros [= _ H]. by destruct (split_on_nonempty c s).
    + destruct (split_on c s) as [|p l] eqn:Es; [by destruct (split_on_nonempty c s)|]. intros [= <- ->]. by rewrite (IHs p).
  - destruct (split_on c s) as [|p l] eqn:Es; [by destruct (split_on_nonempty c s)|]. intros [= <- ->]. by rewrite (IH p).
Qed.

(** ** One entry *)

Definition entry_text (p : string * Z) : string := p.1 +:+ ":" +:+ pretty p.2.
Definition entry_ok (p : string * Z) : Prop := CHAIN_CODE_RE p.1 = true ∧ 0 ≤ p.2 ∧ safe p.2 = true.

Lemma all_chars_impl (p q : ascii → bool) s : (∀ c, p c = true → q c = true) → all_chars p s = true → all_chars q s = true.
Proof. intros H. induction s as [|c s IH]; [done|]. cbn [all_chars]. intros Hs. bools. by rewrite H, IH. Qed.

Lemma code_free c s : negb (is_upper c || is_digit c) = true → CHAIN_CODE_RE s = true → free_of c s = true.
Proof.
  intros Hc Hs. unfold CHAIN_CODE_RE in Hs. apply andb_true_iff in Hs as [[Hs _]%andb_true_iff _].
  eapply all_chars_impl; [|exact Hs]. intros x Hx. cbv beta.
  apply negb_true_iff, Ascii.eqb_neq. intros ->. apply negb_true_iff in Hc. congruence.
Qed.

Lemma digits_free c s : is_digit c = false → all_chars is_digit s = true → free_of c s = true.
Proof.
  intros Hc Hs. eapply all_chars_impl; [|exact Hs]. intros x Hx. cbv beta. apply negb_true_iff, Ascii.eqb_neq. intros ->. congruence.
Qed.

Lemma decode_part_spec p code h : decode_part p = Some (code, h) ↔ entry_ok (code, h) ∧ p = entry_text (code, h).
Proof.
  unfold decode_part, entry_ok, entry_text. cbn [fst snd]. split.
  - destruct (split_on ":"%char p) as [|a [|b [|]]] eqn:E; try done. apply join_split_two in E.
    destruct (CHAIN_CODE_RE a && CANONICAL_HEIGHT_RE b) eqn:Ec; [|done]. bools. destruct (safe (read_digits 0 b)) eqn:Es; [|done].
    intros [= <- <-]. destruct (height_canonical_text b H0) as [Hp Hn]. split; [done|]. by rewrite E, Hp.
  - intros [(Hc & Hh & Hs) ->]. destruct (canonical_pretty h Hh) as [Hr Hv].
    change (code +:+ ":" +:+ pretty h) with (code +:+ String ":"%char (pretty h)).
    rewrite split_on_field by (by apply code_free). rewrite split_on_last.
    + by rewrite Hc, Hr, Hv, Hs.
    + unfold CANONICAL_HEIGHT_RE in Hr. bools. by apply digits_free.
Qed.

Lemma entry_text_free p : entry_ok p → free_of ","%char (entry_text p) = true.
Proof.
  intros (Hc & Hh & _). unfold free_of, entry_text. rewrite !all_chars_app.
  pose proof (code_free ","%char p.1 eq_refl Hc) as H1. unfold free_of in H1. rewrite H1.
  destruct (pretty_nonneg p.2 Hh) as [Hd _ _]. pose proof (digits_free ","%char _ eq_refl Hd) as H2. unfold free_of in H2. by rewrite H2.
Qed.

(** ** The whole map *)

Definition key_le (a b : string * Z) : bool := String.leb a.1 b.1.
Definition key_lt (a b : string * Z) : Prop := String.leb b.1 a.1 = false.

Lemma key_lt_le a b : key_lt a b → key_le a b = true.
Proof. unfold key_lt, key_le. intros H. destruct (string_leb_total a.1 b.1) as [?|?]; [done|congruence]. Qed.

Lemma key_lt_trans_le a b c : key_lt a b → key_le b c = true → key_lt a c.
Proof.
  unfold key_lt, key_le. intros H1 H2. destruct (String.leb c.1 a.1) eqn:E; [|done].
  rewrite <-H1. symmetry. by eapply string_leb_trans.
Qed.

(** The entries of a map, by increasing code. *)
Definition entries_of (m : gmap string Z) : list (string * Z) := isort key_le (map_to_list m).

Lemma entries_sorted_le m : StronglySorted (λ a b, key_le a b = true) (entries_of m).
Proof. apply isort_sorted; [intros a b c; apply string_leb_trans|intros a b; apply string_leb_total]. Qed.

Lemma entries_nodup m : NoDup (entries_of m).*1.
Proof. unfold entries_of. rewrite isort_perm. apply NoDup_fst_map_to_list. Qed.

Lemma entries_strict m : StronglySorted key_lt (entries_of m).
Proof.
  pose proof (entries_sorted_le m) as Hs. pose proof (entries_nodup m) as Hn. revert Hs Hn. generalize (entries_of m).
  intros l Hs. induction Hs as [|a l Hs IH Ha]; intros Hn; [constructor|]. apply NoDup_cons in Hn as [Hna Hn]. constructor; [auto|].
  rewrite Forall_forall in *. intros b Hb. unfold key_lt. destruct (String.leb b.1 a.1) eqn:E; [|done]. exfalso. apply Hna.
  apply list_elem_of_fmap. exists b. split; [|done]. apply string_leb_antisym; [by apply Ha|done].
Qed.

(** Strictly sorted entries are the entries of the map they build. *)
Lemma strict_nodup l : StronglySorted key_lt l → NoDup l.*1.
Proof.
  induction 1 as [|a l Hs IH Ha]; [constructor|]. rewrite fmap_cons. apply NoDup_cons. split; [|done].
  intros (b & E & Hb)%list_elem_of_fmap. rewrite Forall_forall in Ha. specialize (Ha b Hb). unfold key_lt in Ha.
  rewrite E in Ha. destruct (string_leb_total b.1 b.1); congruence.
Qed.

Lemma entries_unique l : StronglySorted key_lt l → entries_of (list_to_map l) = l.
Proof.
  intros Hl. pose proof (strict_nodup l Hl) as Hn.
  assert (Hp : entries_of (list_to_map l) ≡ₚ l) by (unfold entries_of; rewrite isort_perm; by apply map_to_list_to_map).
  eapply (StronglySorted_unique_strong (λ a b, key_le a b = true)); [|apply entries_sorted_le| |exact Hp].
  - intros a b Ha Hb H1 H2. rewrite Hp in Ha. eapply (NoDup_fmap_eq fst l); [done|done|done|].
    by apply string_leb_antisym.
  - clear -Hl. induction Hl as [|a l Hs IH Ha]; constructor; [done|]. eapply Forall_impl; [exact Ha|]. intros b. apply key_lt_le.
Qed.

Lemma list_to_map_entries m : list_to_map (entries_of m) = m.
Proof.
  transitivity (list_to_map (map_to_list m) : gmap string Z); [|apply list_to_map_to_list].
  apply list_to_map_proper; [apply entries_nodup|]. unfold entries_of. apply isort_perm.
Qed.

Lemma isort_fmap {A C} (le : A → A → bool) (le' : C → C → bool) (f : A → C) l :
  (∀ x y, le' (f x) (f y) = le x y) → isort le' (f <$> l) = f <$> isort le l.
Proof.
  intros Hf. induction l as [|x l IH]; [done|]. cbn [isort foldr fmap list_fmap]. fold (isort le l). fold (isort le' (f <$> l)).
  change (list_fmap A C f l) with (f <$> l). rewrite IH. generalize (isort le l). intros s.
  induction s as [|y s IHs]; [done|]. cbn [insort fmap list_fmap]. rewrite Hf. destruct (le x y); [done|].
  change (f y :: insort le' (f x) (f <$> s) = f y :: (f <$> insort le x s)). by rewrite IHs.
Qed.

Lemma sorted_entries_int (m : gmap string Z) : sorted_entries ((λ z, JInt z) <$> m) = prod_map id (λ z, JInt z) <$> entries_of m.
Proof. unfold sorted_entries. rewrite map_to_list_fmap. by apply isort_fmap. Qed.

Lemma encode_parts_int l parts :
  encode_parts (prod_map id (λ z, JInt z) <$> l) = Ok parts ↔ Forall entry_ok l ∧ parts = entry_text <$> l.
Proof.
  revert parts. induction l as [|[c h] l IH]; intros parts.
  - split; [intros [= <-]; done|intros [_ ->]; done].
  - change (encode_parts (prod_map id (λ z, JInt z) <$> ((c, h) :: l))) with
      (encode_parts ((c, JInt h) :: (prod_map id (λ z, JInt z) <$> l))). cbn [encode_parts]. rewrite Forall_cons. split.
    + destruct (CHAIN_CODE_RE c) eqn:Ec; [|done]. destruct (height_text (JInt h)) as [s|] eqn:Eh; [|done].
      apply height_text_int in Eh as (H1 & H2 & ->). destruct (encode_parts _) as [q|] eqn:Eq; [|done]. intros [= <-].
      destruct (proj1 (IH q) eq_refl) as [H3 ->]. by split_and!.
    + intros [[(Hc & Hh & Hs) Hl] ->]. cbn [fst snd] in *. rewrite Hc.
      rewrite (proj2 (height_text_int h (pretty h))) by done. rewrite (proj2 (IH (entry_text <$> l))) by done. done.
Qed.

Definition add_entry (m : gmap string Z) (p : string * Z) : gmap string Z := <[p.1 := p.2]> m.

Lemma decode_parts_spec prev parts m0 m :
  decode_parts prev parts m0 = Some m ↔
  ∃ l, StronglySorted key_lt l ∧ (∀ p, prev = Some p → Forall (λ x, String.leb x.1 p = false) l) ∧
       Forall entry_ok l ∧ parts = entry_text <$> l ∧ m = foldl add_entry m0 l.
Proof.
  revert prev m0. induction parts as [|q parts IH]; intros prev m0; cbn [decode_parts].
  - split; [intros [= <-]; exists []; split_and!; by try constructor|].
    intros (l & _ & _ & _ & Hl & ->). by destruct l.
  - split.
    + destruct (decode_part q) as [[c h]|] eqn:Eq; [|done]. cbn [mbind option_bind]. apply decode_part_spec in Eq as [Hok ->].
      destruct (match prev with Some prev => String.leb c prev | None => false end) eqn:Ep; [done|].
      intros (l & Hs & Hp & Hl & -> & ->)%IH. exists ((c, h) :: l). specialize (Hp c eq_refl). split_and!; [|..].
      * by constructor.
      * intros p ->. constructor; [exact Ep|]. eapply Forall_impl; [exact Hp|]. intros x Hx. cbv beta in *.
        destruct (String.leb x.1 p) eqn:E; [|done]. rewrite <-Hx. symmetry. eapply string_leb_trans; [exact E|].
        destruct (string_leb_total p c); [done|congruence].
      * by constructor.
      * done.
      * done.
    + intros (l & Hs & Hp & Hl & Hq & ->). destruct l as [|[c h] l]; [done|]. injection Hq as -> ->.
      apply Forall_cons in Hl as [Hok Hl]. inversion Hs as [|? ? Hs' Hlt]; subst.
      assert (decode_part (entry_text (c, h)) = Some (c, h)) as -> by by apply decode_part_spec. cbn [mbind option_bind].
      assert (match prev with Some prev => String.leb c prev | None => false end = false) as ->.
      { destruct prev as [p|]; [|done]. specialize (Hp p eq_refl). by apply Forall_cons in Hp as [? _]. }
      apply IH. exists l. split_and!; [done| |done|done|done]. by intros p [= <-].
Qed.

Lemma fold_entries l : StronglySorted key_lt l → foldl add_entry ∅ l = list_to_map l.
Proof.
  intros Hs%strict_nodup. enough (∀ m0 : gmap string Z, foldl add_entry m0 l = list_to_map l ∪ m0) as H by by rewrite H, (right_id_L ∅ (∪)).
  induction l as [|p l IH]; intros m0; [change (m0 = ∅ ∪ m0); by rewrite (left_id_L ∅ (∪))|]. rewrite fmap_cons in Hs. apply NoDup_cons in Hs as [Hp Hs].
  destruct p as [k v]. cbn [foldl]. rewrite IH by done. unfold add_entry. cbn [fst snd] in *. rewrite list_to_map_cons, <-insert_union_l. symmetry. apply insert_union_r.
  by apply not_elem_of_list_to_map.
Qed.

(** A decoded field is the encoding of its map. *)
Lemma decode_encode field (map : gmap string Z) : decodeAdmitBlocks field = Some map → encodeAdmitBlocks ((λ z, JInt z) <$> map) = Ok field.
Proof.
  unfold decodeAdmitBlocks, encodeAdmitBlocks. rewrite sorted_entries_int.
  destruct (String.eqb_spec field "") as [->|Hne]; [done|]. intros (l & Hs & _ & Hl & Hf & Hm)%decode_parts_spec.
  rewrite fold_entries in Hm by done. subst map. rewrite entries_unique by done.
  assert (l ≠ []) by (intros ->; by apply (split_on_nonempty ","%char field)).
  rewrite bool_decide_false by (rewrite fmap_empty_iff; by destruct l as [|[]]; [|apply insert_non_empty]). cbn [negb].
  rewrite (proj2 (encode_parts_int l (entry_text <$> l))) by done. cbn [rbind]. by rewrite <-Hf, commas_split.
Qed.

(** C31: the bytes that are signed determine the map and the map determines the
    bytes: the decoder accepts a text exactly when it is what the encoder writes
    for the map it answers, so no other spelling of a map (leading zeros, another
    order, a repeated or empty entry, a height past 2^53) verifies, and no two
    maps share their bytes. *)
Theorem admission_codec field (map : gmap string Z) :
  decodeAdmitBlocks field = Some map ↔ encodeAdmitBlocks ((λ z, JInt z) <$> map) = Ok field.
Proof.
  split; [apply decode_encode|]. unfold decodeAdmitBlocks, encodeAdmitBlocks. rewrite sorted_entries_int.
  destruct (bool_decide _) eqn:Eb; [done|]. cbn [negb]. destruct (encode_parts _) as [parts|] eqn:Ep; [|done].
  cbn [rbind]. intros [= <-]. apply encode_parts_int in Ep as [Hl ->]. pose proof (entries_strict map) as Hs.
  assert (Hne : entries_of map ≠ []).
  { intros E. apply bool_decide_eq_false in Eb. apply Eb. rewrite fmap_empty_iff, <-(list_to_map_entries map). by rewrite E. }
  assert (Hf : Forall (λ p, free_of ","%char p = true) (entry_text <$> entries_of map)).
  { apply Forall_fmap. eapply Forall_impl; [exact Hl|]. intros p. apply entry_text_free. }
  assert (Hsplit : split_on ","%char (commas (entry_text <$> entries_of map)) = entry_text <$> entries_of map).
  { apply split_on_commas; [|done]. by destruct (entries_of map). }
  rewrite (proj2 (String.eqb_neq _ _)).
  - rewrite Hsplit. apply decode_parts_spec. exists (entries_of map). split_and!; [done|done|done|done|].
    by rewrite fold_entries, list_to_map_entries.
  - intros E. rewrite E in Hsplit. destruct (entries_of map) as [|[c h] [|]] eqn:El; [done| |done].
    injection Hsplit as Hx. unfold entry_text in Hx. apply (f_equal String.length) in Hx. rewrite !app_str_length in Hx. simpl in Hx. lia.
Qed.

(** ** The stamp and the follower's bound *)

Lemma readHeight_int z : readHeight (Some (JInt z)) = Some (inject_Z z).
Proof. unfold readHeight, num_Q. cbn [Z.leb Z.compare]. change (10 ^ 0) with 1. by rewrite Z.mul_1_r. Qed.

Lemma inject_le a b : Qle_bool (inject_Z a) (inject_Z b) = (a <=? b).
Proof. unfold Qle_bool, inject_Z. cbn [Qnum Qden]. by rewrite !Z.mul_1_r. Qed.

Lemma Qred_int z : Qred (inject_Z z) = inject_Z z.
Proof.
  pose proof (Qred_correct (inject_Z z)) as H. pose proof (gcd_Qred (inject_Z z)) as Hg. unfold Qeq, inject_Z in *.
  destruct (Qred (z # 1)) as [n d]. cbn [Qnum Qden] in *. rewrite Z.mul_1_r in H.
  assert (Z.pos d = 1) as E by (rewrite H, Z.gcd_comm, Z.mul_comm, Z.gcd_mul_diag_l in Hg; lia). rewrite E, Z.mul_1_r in H. injection E as ->. by subst n.
Qed.

Lemma bound_int c a t :
  isAdmitBlockInFollowerBound (Some c) (Some (JInt a)) (Some (JInt t)) =
  (0 <=? a) && (t + 1 <=? a) && (a <=? t + admitMaxFutureBlocks (Some c)).
Proof.
  unfold isAdmitBlockInFollowerBound. rewrite !readHeight_int, Qred_int. cbn [inject_Z Qden]. rewrite Z.eqb_refl. cbn [negb orb].
  change 0%Q with (inject_Z 0). rewrite <-!inject_Z_plus, !inject_le. by destruct (0 <=? a).
Qed.

Lemma upper_code c : is_upper c || is_digit c = true → upper_ascii c = c ∧ is_space c = false.
Proof. destruct c as [[] [] [] [] [] [] [] []]; intros H; try discriminate H; done. Qed.

Lemma normalize_idem chain c : normalizeChain chain = Some c → normalizeChain (Some c) = Some c.
Proof.
  destruct chain as [chain|]; [|done]. unfold normalizeChain at 1. destruct (CHAIN_CODE_RE _) eqn:E; [|done]. intros [= <-].
  revert E. generalize (toUpperCase (trim chain)). intros s Hs. unfold normalizeChain.
  assert (Ha : all_chars (λ c, is_upper c || is_digit c) s = true) by (unfold CHAIN_CODE_RE in Hs; by apply andb_true_iff in Hs as [[? _]%andb_true_iff _]).
  assert (trim s = s ∧ toUpperCase s = s) as [-> ->]; [|by rewrite Hs]. clear Hs. unfold trim. split.
  - assert (trimStart s = s) as ->.
    { destruct s as [|x s]; [done|]. apply trimStart_head. cbn [all_chars] in Ha. apply andb_true_iff in Ha as [Hx _]. by apply upper_code. }
    induction s as [|x s IH]; [done|]. cbn [all_chars] in Ha. apply andb_true_iff in Ha as [Hx Ha]. cbn [trimEnd]. rewrite IH by done.
    destruct s; [|done]. by destruct (upper_code x Hx) as [_ ->].
  - induction s as [|x s IH]; [done|]. cbn [all_chars] in Ha. apply andb_true_iff in Ha as [Hx Ha]. cbn [toUpperCase].
    rewrite IH by done. by destruct (upper_code x Hx) as [-> _].
Qed.

Lemma normalize_all_spec raw l : normalize_all raw = Some l → ∀ c, c ∈ l → normalizeChain (Some c) = Some c.
Proof.
  revert l. induction raw as [|x raw IH]; intros l; cbn [normalize_all]; [intros [= <-] c Hc; by apply elem_of_nil in Hc|].
  destruct (normalizeChain x) as [n|] eqn:En; [|done]. cbn [mbind option_bind]. destruct (normalize_all raw) as [r|]; [|done].
  intros [= <-] c [->|Hc]%elem_of_cons; [by eapply normalize_idem|by eapply IH].
Qed.

Definition stamp_one (tips : string → option json) (table : string) (network : option string) (map : gmap string Z) (c : string) : gmap string Z :=
  match usable_tip (tips c) with
  | Some tip => <[c := tip + stampMarginBlocks (Some table) (Some c) network tip]> map
  | None => map
  end.

Lemma stamp_fold tips table network l (m0 : gmap string Z) :
  (∀ c, c ∈ l → is_Some (usable_tip (tips c))) →
  ∀ c a, foldl (stamp_one tips table network) m0 l !! c = Some a ↔
    (c ∈ l ∧ ∃ tip, usable_tip (tips c) = Some tip ∧ a = tip + stampMarginBlocks (Some table) (Some c) network tip) ∨ (c ∉ l ∧ m0 !! c = Some a).
Proof.
  revert m0. induction l as [|x l IH]; intros m0 Hl c a; cbn [foldl].
  - split; [intros H; right; split; [by apply not_elem_of_nil|done]|]. intros [[H _]|[_ H]]; [by apply elem_of_nil in H|done].
  - rewrite IH by (intros; apply Hl; by right). destruct (Hl x ltac:(by left)) as [t Ht]. unfold stamp_one at 1. rewrite Ht.
    destruct (decide (c ∈ l)) as [Hc|Hc].
    { assert (c ∈ x :: l) by by right. split; (intros [[? ?]|[? ?]]; [left; by split|done]). }
    destruct (decide (c = x)) as [->|Hne].
    + rewrite lookup_insert_eq. split.
      * intros [[? _]|[_ [= <-]]]; [done|]. left. split; [by left|eauto].
      * intros [[_ (t' & Ht' & ->)]|[H _]]; [right; split; [done|congruence]|]. destruct H. by left.
    + rewrite lookup_insert_ne by done. assert (c ∉ x :: l) by (intros [?|?]%elem_of_cons; done).
      split; (intros [[? ?]|[? ?]]; [done|right; by split]).
Qed.

Lemma admitBlocks_spec readSet tips table network map :
  admitBlocks readSet tips table network = Ok map →
  ∃ chains, normalize_all (Some <$> readSet) = Some chains ∧ chains ≠ [] ∧
    ∀ c a, map !! c = Some a ↔ c ∈ chains ∧ ∃ tip, usable_tip (tips c) = Some tip ∧ a = tip + stampMarginBlocks (Some table) (Some c) network tip.
Proof.
  unfold admitBlocks. destruct network as [n|]; [|done]. destruct (negb _); [|done].
  destruct (normalize_all _) as [[|x l]|] eqn:En; try done. destruct (missingAdmissionTips _ _) eqn:Em; [|done]. intros [= <-].
  exists (x :: l). split_and!; [done|done|]. intros c a. match goal with |- ?X !! c = _ ↔ _ => change X with (foldl (stamp_one tips table (Some n)) ∅ (x :: l)) end.
  rewrite stamp_fold, lookup_empty; [naive_solver|]. intros y Hy.
  destruct (usable_tip (tips y)) as [t|] eqn:Et; [eauto|exfalso]. enough (y ∈ missingAdmissionTips (x :: l) tips) as H by (rewrite Em in H; by apply elem_of_nil in H).
  unfold missingAdmissionTips. apply list_elem_of_omap. exists y. split; [done|]. rewrite (normalize_all_spec _ _ En y Hy). by rewrite Et.
Qed.

Lemma first_refusal_none {A} (f : A → option refusal) l : first_refusal f l = None ↔ ∀ x, x ∈ l → f x = None.
Proof.
  induction l as [|x l IH]; simpl; [split; [intros _ y Hy; by apply elem_of_nil in Hy|done]|]. destruct (f x) eqn:E.
  - split; [done|]. intros H. rewrite H in E by by left. done.
  - rewrite IH. split; [intros H y [->|Hy]%elem_of_cons; auto|]. intros H y Hy. apply H. by right.
Qed.

(** A stamped map has a height for every chain of the read set. *)
Lemma stamped_has readSet tips table network map chains :
  admitBlocks readSet tips table network = Ok map → normalize_all (Some <$> readSet) = Some chains → ∀ c, c ∈ chains → ∃ a, map !! c = Some a.
Proof.
  intros Ha Hn c Hc. destruct (admitBlocks_spec _ _ _ _ _ Ha) as (chains' & Hn' & _ & Hm). rewrite Hn in Hn'. injection Hn' as <-.
  assert (He : ∃ t, usable_tip (tips c) = Some t).
  { destruct (usable_tip (tips c)) as [t|] eqn:Et; [eauto|exfalso]. unfold admitBlocks in Ha.
    destruct network as [n|]; [|done]. destruct (negb _); [|done]. rewrite Hn in Ha. destruct chains as [|x l]; [done|].
    destruct (missingAdmissionTips _ _) eqn:Em; [|done]. enough (c ∈ missingAdmissionTips (x :: l) tips) as H by (rewrite Em in H; by apply elem_of_nil in H).
    apply list_elem_of_omap. exists c. split; [done|]. by rewrite (normalize_all_spec _ _ Hn c Hc), Et. }
  destruct He as [t Ht]. eexists. apply Hm. split; [done|eauto].
Qed.

(** A map a leader stamps covers exactly the chains that read the row, each at
    the leader's own tip plus the margin in force, and a follower accepts it if
    and only if on every one of them the height lies above the follower's own tip
    and within the window of that chain; what a follower refuses is a tip too far
    from its own, never the shape of the map. *)
Theorem stamped_map_bound readSet tips table network map (own : string → Z) :
  admitBlocks readSet tips table network = Ok map → (∀ c, 0 ≤ own c) →
  (∀ c a, map !! c = Some a → ∃ tip, usable_tip (tips c) = Some tip ∧ a = tip + stampMarginBlocks (Some table) (Some c) network tip) ∧
  (checkAdmitBlocks readSet (Some ((λ z, JInt z) <$> map)) (λ c, Some (JInt (own c))) = None ↔
   ∀ c a, map !! c = Some a → own c < a ≤ own c + admitMaxFutureBlocks (Some c)).
Proof.
  intros Ha Hown. destruct (admitBlocks_spec _ _ _ _ _ Ha) as (chains & Hn & Hne & Hm). split; [intros c a Hc; by apply Hm in Hc as [_ ?]|].
  pose proof (stamped_has _ _ _ _ _ _ Ha Hn) as Hd.
  unfold checkAdmitBlocks. rewrite Hn. destruct chains as [|x l]; [done|]. set (chains := x :: l) in *.
  assert (Hsub : bool_decide (dom ((λ z, JInt z) <$> map) ⊆ (list_to_set chains : gset string)) = true).
  { apply bool_decide_eq_true. intros c Hc. rewrite dom_fmap in Hc. apply elem_of_dom in Hc as [a Hc]. apply Hm in Hc as [? _].
    by apply elem_of_list_to_set. }
  rewrite Hsub. assert (Hc : ∀ c a, map !! c = Some a →
    check_chain ((λ z, JInt z) <$> map) (λ c, Some (JInt (own c))) c = None ↔ own c < a ≤ own c + admitMaxFutureBlocks (Some c)).
  { intros c a Hca. unfold check_chain. rewrite lookup_fmap, Hca. cbn [fmap option_fmap option_map].
    assert (own_tip (Some (JInt (own c))) = Some (own c)) as ->.
    { unfold own_tip, num_int. cbn [is_nullish json_Number mbind option_bind Z.leb Z.compare]. change (10 ^ 0) with 1. rewrite Z.mul_1_r.
      by rewrite (proj2 (Z.ltb_ge _ _)) by apply Hown. }
    rewrite bound_int. specialize (Hown c). destruct ((0 <=? a) && _ && _) eqn:E; bools; split; try done; try lia. }
  destruct (first_refusal _ chains) eqn:E; split; try done.
  - intros H. enough (first_refusal (check_chain ((λ z, JInt z) <$> map) (λ c, Some (JInt (own c)))) chains = None) by congruence.
    apply first_refusal_none. intros c Hcc. destruct (Hd c Hcc) as [a Hca]. apply (Hc c a Hca). by apply H.
  - intros _ c a Hca. apply (Hc c a Hca). apply (proj1 (first_refusal_none _ _) E). by apply Hm in Hca as [? _].
Qed.

(** ** The height a consumer waits for *)

Lemma slow_margin_value name p z : own name (slow_margins p) = Some z →
  (z = 14 ∨ z = p) ∧ own name ADMIT_MARGIN_BLOCKS = None.
Proof.
  unfold slow_margins, ADMIT_MARGIN_BLOCKS. cbn [own].
  repeat (match goal with |- context [String.eqb ?k name] => destruct (String.eqb_spec k name) as [<-|] end);
    first [intros [= <-]; split; [auto|reflexivity] | done].
Qed.

Lemma chain_margin_larger table chain mc : chainMarginBlocks table chain = Some mc → admitMarginBlocks table ≤ mc.
Proof.
  unfold chainMarginBlocks, admitMarginBlocks. destruct table as [t|]; [|done]. destruct chain as [c|]; [|done].
  unfold ADMIT_CHAIN_MARGIN_BLOCKS. cbn [own]. destruct (String.eqb "DOGE" _); [|destruct (String.eqb "LTC" _); [|done]];
    cbn [mbind option_bind]; intros [Hv Hn]%slow_margin_value; unfold table_or_default; rewrite Hn; cbn; lia.
Qed.

(** C30: a consumer that has seen every row stamped up to its target height has
    seen every row that can bind at its block: whatever margin was in force when
    a row was stamped, on either side of the margin's activation, a row that is
    readable at the block was stamped from a tip no higher than the target; and
    the stamped height alone tells which margin stamped it. *)
Theorem consumer_target_covers table chain network tip blockHeight effectiveTime blockTime :
  let admitHeight := tip + stampMarginBlocks table chain network tip in
  (isRowReadableAt (Some (JInt admitHeight)) (Some (JInt blockHeight)) effectiveTime blockTime = true →
   tip ≤ consumerTargetHeight table chain network blockHeight) ∧
  rowMarginBlocks table chain network admitHeight = stampMarginBlocks table chain network tip.
Proof.
  intros admitHeight. unfold isRowReadableAt. cbn [is_nullish]. rewrite !readHeight_int, inject_le. subst admitHeight.
  unfold rowMarginBlocks, consumerTargetHeight, stampMarginBlocks, consumerTargetAt, stampMarginAt, rowMarginAt.
  destruct (chainMarginBlocks table chain) as [mc|] eqn:Em; [|split; [intros H; bools; lia|done]].
  pose proof (chain_margin_larger _ _ _ Em) as Hm.
  destruct (activationHeight chain network) as [h|]; [|split; [intros H; bools; lia|done]].
  destruct (h <=? tip + mc) eqn:E1; bools; split.
  - intros H. bools. rewrite (proj2 (Z.ltb_ge _ _)) by lia. lia.
  - by rewrite (proj2 (Z.leb_le _ _)) by lia.
  - intros H. bools. destruct (blockHeight <? h) eqn:E2; bools; lia.
  - by rewrite (proj2 (Z.leb_gt _ _)) by lia.
Qed.

(** ** At concrete rows *)

Lemma stamped_map_bound_witness :
  let tips := λ c, if String.eqb c "BTC" then Some (JInt 900000) else Some (JInt 5000000) in
  (∀ c a, ({["BTC" := 900004; "DOGE" := 5000004]} : gmap string Z) !! c = Some a →
     ∃ tip, usable_tip (tips c) = Some tip ∧ a = tip + stampMarginBlocks (Some "cross_chain_matches"%string) (Some c) (Some "mainnet"%string) tip) ∧
  (checkAdmitBlocks ["DOGE"; "BTC"] (Some ((λ z, JInt z) <$> ({["BTC" := 900004; "DOGE" := 5000004]} : gmap string Z))) (λ c, Some (JInt 900001)) = None ↔
   ∀ c a, ({["BTC" := 900004; "DOGE" := 5000004]} : gmap string Z) !! c = Some a → 900001 < a ≤ 900001 + admitMaxFutureBlocks (Some c)).
Proof.
  intros tips. assert (H : admitBlocks ["DOGE"; "BTC"] tips "cross_chain_matches" (Some "mainnet"%string) = Ok {["BTC" := 900004; "DOGE" := 5000004]})
    by (vm_compute; reflexivity).
  exact (stamped_map_bound ["DOGE"; "BTC"] tips "cross_chain_matches" (Some "mainnet"%string) _ (λ _, 900001) H ltac:(intros c; lia)).
Defined.

Lemma consumer_target_covers_witness :
  let admitHeight := 4949690 + stampMarginBlocks (Some "price_snapshots"%string) (Some "LTC"%string) (Some "testnet"%string) 4949690 in
  (isRowReadableAt (Some (JInt admitHeight)) (Some (JInt 4949710)) None None = true →
   4949690 ≤ consumerTargetHeight (Some "price_snapshots"%string) (Some "LTC"%string) (Some "testnet"%string) 4949710) ∧
  rowMarginBlocks (Some "price_snapshots"%string) (Some "LTC"%string) (Some "testnet"%string) admitHeight =
    stampMarginBlocks (Some "price_snapshots"%string) (Some "LTC"%string) (Some "testnet"%string) 4949690.
Proof. exact (consumer_target_covers (Some "price_snapshots"%string) (Some "LTC"%string) (Some "testnet"%string) 4949690 4949710 None None). Defined.

(** ** Texts whose fields end at a bar *)

Definition barless (s : string) : Prop := free_of "|"%char s = true.

Lemma barless_app a b : barless (a +:+ b) ↔ barless a ∧ barless b.
Proof. unfold barless, free_of. rewrite all_chars_app. apply andb_true_iff. Qed.

Lemma no_bar_inside a b : ¬ barless (a +:+ String "|"%char b).
Proof. intros [_ Hb]%barless_app. by cbn in Hb. Qed.

Lemma last_field a b a' b' :
  barless b → barless b' → a +:+ "|" +:+ b = a' +:+ "|" +:+ b' → a = a' ∧ b = b'.
Proof.
  intros Hb Hb'. revert a'. induction a as [|c a IH]; intros [|c' a'] E.
  - by injection E.
  - exfalso. injection E as Ec E. subst c'. change (b = a' +:+ String "|"%char b') in E. rewrite E in Hb. by apply no_bar_inside in Hb.
  - exfalso. injection E as Ec E. subst c. change (a +:+ String "|"%char b = b') in E. rewrite <-E in Hb'. by apply no_bar_inside in Hb'.
  - injection E as -> E. destruct (IH a' E) as [-> ->]. done.
Qed.

Lemma first_fixed a b a' b' : String.length a = String.length a' → a +:+ b = a' +:+ b' → a = a' ∧ b = b'.
Proof.
  revert a'. induction a as [|c a IH]; intros [|c' a'] Hl E; try done. injection E as -> E. injection Hl as Hl.
  destruct (IH a' Hl E) as [-> ->]. done.
Qed.

Lemma pretty_chars (z : Z) : barless (pretty z) ∧ pretty z ≠ "null"%string.
Proof.
  destruct (Z.le_gt_cases 0 z) as [Hz|Hz].
  - destruct (pretty_nonneg z Hz) as [Hd _ _]. split; [by apply digits_free|]. intros E. by rewrite E in Hd.
  - assert (pretty z = String "-"%char (pretty (- z))) as E.
    { destruct z as [|p|p]; try lia. reflexivity. }
    rewrite E. destruct (pretty_nonneg (- z) ltac:(lia)) as [Hd _ _]. split; [|by intros [=]].
    change (barless ("-" +:+ pretty (- z))). apply barless_app. split; [exact eq_refl|by apply digits_free].
Qed.
