(* ===== verification/DexOffer.v ===== *)
(** * Cross-chain offers

    Model of the parts of [src/cross_chain/dex/] that read offers:
    [offer_lists.js] (allow and block lists), the paging of a chain's open book
    and the amount comparison of [match.js], the price-cross era of
    [price_cross.js], and [src/lib/canonical_int.js]. The indexer's answers are
    arguments; amounts are the decimal texts the indexer reports. Then the ledger
    of what finalized matches have locked of every offer ([ledger.js]). *)

From stdpp Require Import pretty.
From S2P Require Import Prelude GateRegistry BigNum BcMath Json AttestWire OracleBand Admission.
Open Scope Z_scope.

(** ** Offers *)

(** What a prepared offer carries under the list symbol. *)
Record liststate := ListState {
  enforced : bool; valid : bool; allowAttached : bool; blockAttached : bool;
  allowMembers : option (list string); blockMembers : option (list string) }.

(** A row of the open book, tagged with its home chain. An absent tick, network
    or leg text is the empty string; [block_index] and [home_block] are [None]
    when they are not numbers, [give_decimals] when it is no integer. *)
Record offer := Offer {
  home_coin : string; home_network : string; home_block : option Z;
  kind : string; action_index : Z; block_index : option Z;
  give_coin : string; get_coin : string; give_tick : string; get_tick : string;
  give_amount : option string; get_amount : option string;
  give_ownership : Z; get_ownership : Z; give_decimals : option Z;
  get_address : option string; payout_legs : string; push_generation : Z;
  allow_list : option json; block_list : option json; lists : option liststate }.

Definition with_lists (s : liststate) (o : offer) : offer :=
  Offer (home_coin o) (home_network o) (home_block o) (kind o) (action_index o) (block_index o)
    (give_coin o) (get_coin o) (give_tick o) (get_tick o) (give_amount o) (get_amount o)
    (give_ownership o) (get_ownership o) (give_decimals o) (get_address o) (payout_legs o) (push_generation o)
    (allow_list o) (block_list o) (Some s).

Definition tagged (coin network : string) (latest : option Z) (o : offer) : offer :=
  Offer coin network latest (kind o) (action_index o) (block_index o)
    (give_coin o) (get_coin o) (give_tick o) (get_tick o) (give_amount o) (get_amount o)
    (give_ownership o) (get_ownership o) (give_decimals o) (get_address o) (payout_legs o) (push_generation o)
    (allow_list o) (block_list o) (lists o).

Definition offerKey (chain : string) (actionIndex : Z) : string * Z := (chain, actionIndex).
Definition key_of (o : offer) : string * Z := offerKey (home_coin o) (action_index o).

Definition ALLOWED_CHAINS : list string := ["BTC"; "LTC"; "DOGE"].

(** ** Allow and block lists *)

Inductive listref := Detached | Attached (id : Z).

(** Digits without a leading zero. *)
Definition CANONICAL_POSITIVE_INTEGER (s : string) : bool :=
  all_chars is_digit s && match s with String c _ => negb (Ascii.eqb c "0"%char) | EmptyString => false end.

(** [None]: the reference is malformed or its property absent. *)
Definition listReference (value : option json) : option listref :=
  match value with
  | Some JNull => Some Detached
  | Some (JNum m e) =>
      if m =? 0 then Some Detached
      else z ← safe_int m e; if z <=? 0 then None else Some (Attached z)
  | Some (JStr s) =>
      if String.eqb s "0" then Some Detached
      else if CANONICAL_POSITIVE_INTEGER s
           then let id := read_digits 0 s in if safe id then Some (Attached id) else None
           else None
  | _ => None
  end.

(** Non-empty strings only. *)
Fixpoint string_members (l : list json) : option (list string) :=
  match l with
  | [] => Some []
  | JStr s :: r => if String.eqb s "" then None else cons s <$> string_members r
  | _ => None
  end.

(** The members of a valid answer to [getlistat]. *)
Definition validMembersAnswer (answer : option json) : option (list string) :=
  match answer with
  | Some (JObj o) =>
      if match json_get "error" o with Some e => json_truthy e | None => false end then None
      else if match json_get "type" o with Some (JNum m _) => m =? 0 | Some (JStr s) => String.eqb s "0" | _ => false end
           then match json_get "members" o with Some (JArr l) => string_members l | _ => None end
           else None
  | _ => None
  end.

Section Lists.
(** [getlistat]: the answer of the chain's indexer for a list at a block, [None]
    when the call threw. *)
Context (getlistat : string → Z → Z → option json) (reg : Gate.registry).

Definition readMembers (o : offer) (id : Z) : option (list string) :=
  match home_block o with
  | None => None
  | Some block =>
      if String.eqb (home_coin o) "" || negb (safe block) || (block <? 0) then None
      else validMembersAnswer (getlistat (home_coin o) id block)
  end.

Definition unusable_lists : liststate := ListState true false false false None None.

Definition prepareOne (o : offer) : liststate :=
  match listReference (allow_list o), listReference (block_list o) with
  | Some allow, Some block =>
      let '(aAtt, aMem) := match allow with Attached id => (true, readMembers o id) | Detached => (false, None) end in
      let '(bAtt, bMem) := match block with Attached id => (true, readMembers o id) | Detached => (false, None) end in
      ListState true ((negb aAtt || bool_decide (is_Some aMem)) && (negb bAtt || bool_decide (is_Some bMem))) aAtt bAtt aMem bMem
  | _, _ => unusable_lists
  end.

Definition CROSS_CHAIN_OFFER_LIST_ENFORCEMENT : string := "cross_chain/dex/offer_lists.CROSS_CHAIN_OFFER_LIST_ENFORCEMENT".

Definition prepareOffer (snapshotBlock : Z) (o : offer) : offer :=
  with_lists match Gate.activeAt CROSS_CHAIN_OFFER_LIST_ENFORCEMENT (Some (home_network o)) None (Gate.CNum snapshotBlock) Gate.CNone reg with
             | Err _ => unusable_lists
             | Ok false => ListState false true false false None None
             | Ok true => prepareOne o
             end o.

Definition prepareOfferLists (offers : list offer) (snapshotBlock : Z) : list offer := prepareOffer snapshotBlock <$> offers.
End Lists.

Definition includes (l : option (list string)) (s : string) : bool := match l with Some l => bool_decide (s ∈ l) | None => false end.

Definition oneSideAllows (o counterparty : offer) : bool :=
  match lists o with
  | None => true
  | Some st =>
      if negb (enforced st) then true
      else if negb (valid st) then false
      else if negb (allowAttached st) && negb (blockAttached st) then true
      else match get_address counterparty with
           | None | Some EmptyString => false
           | Some payout =>
               if allowAttached st && negb (includes (allowMembers st) payout) then false
               else negb (blockAttached st && includes (blockMembers st) payout)
           end
  end.

Definition offerPairAllowed (a b : offer) : bool :=
  match lists a, lists b with
  | None, None => true
  | la, lb =>
      if negb (bool_decide ((enforced <$> la) = (enforced <$> lb))) then false
      else oneSideAllows a b && oneSideAllows b a
  end.

(** The list checks of a taker, [offerListVerdict]: the attached lists in order
    (allow first), each against its resolved members. *)
Definition attached_field (value : option json) : bool :=
  match value with
  | None | Some JNull => false
  | Some v => match json_Number (Some v) with Some (m, _) => negb (m =? 0) | None => true end
  end.

Definition attachedListIds (o : offer) : list bool :=
  (if attached_field (allow_list o) then [true] else []) ++ (if attached_field (block_list o) then [false] else []).

Definition resolvedMembers (answer : option json) : option (list string) :=
  match answer with
  | Some (JObj o) =>
      match json_get "error" o, json_get "type" o, json_get "members" o with
      | None, Some (JNum m e), Some (JArr (x :: l)) =>
          if bool_decide (num_int m e = Some 2) then string_members (x :: l) else None
      | _, _, _ => None
      end
  | _ => None
  end.

Inductive verdict := Admit | TakerMissing | AllowUnresolved | BlockUnresolved | NotOnAllow | OnBlock.

Fixpoint list_verdict (attached : list bool) (allow block : option json) (taker : string) : verdict :=
  match attached with
  | [] => Admit
  | a :: r =>
      match resolvedMembers (if a then allow else block) with
      | None => if a then AllowUnresolved else BlockUnresolved
      | Some members =>
          if a && negb (bool_decide (taker ∈ members)) then NotOnAllow
          else if negb a && bool_decide (taker ∈ members) then OnBlock
          else list_verdict r allow block taker
      end
  end.

Definition offerListVerdict (o : offer) (allow block : option json) (taker : option string) : verdict :=
  match attachedListIds o with
  | [] => Admit
  | l => match taker with None | Some EmptyString => TakerMissing | Some t => list_verdict l allow block t end
  end.

(** ** Amounts compared by value *)

Fixpoint strip_zeros (s : string) : string :=
  match s with String c r => if Ascii.eqb c "0"%char then strip_zeros r else s | EmptyString => EmptyString end.

Fixpoint strip_trailing_zeros (s : string) : string :=
  match s with
  | EmptyString => EmptyString
  | String c r => match strip_trailing_zeros r with
                  | EmptyString => if Ascii.eqb c "0"%char then EmptyString else String c EmptyString
                  | r => String c r
                  end
  end.

Definition normalizeAmount (v : option string) : string :=
  match v with
  | None => EmptyString
  | Some v =>
      let s := trim v in
      if String.eqb s "" then EmptyString
      else
        let '(neg, s) := split_minus s in
        let parts := split_on "."%char s in
        let int := match strip_zeros (default EmptyString (parts !! 0%nat)) with EmptyString => "0"%string | i => i end in
        let frac := strip_trailing_zeros (default EmptyString (parts !! 1%nat)) in
        let out := if String.eqb frac "" then int else int +:+ "." +:+ frac in
        if neg && negb (String.eqb out "0") then "-" +:+ out else out
  end.

Definition amountsEqual (x y : option string) : bool := String.eqb (normalizeAmount x) (normalizeAmount y).

(** ** The price-cross era *)

Inductive era := AnyEra | AtBlock (snapshotBlock : Z).

Definition PRICE_CROSS_KEY : string := "order_match_price_cross_activation.ORDER_MATCH_PRICE_CROSS_ACTIVATION".

(** The row of a registered key; a missing row would throw at the first read. *)
Definition gate_active (reg : Gate.registry) (key network : string) (height : Z) : bool :=
  match Gate.activeAt key (Some network) None (Gate.CNum height) Gate.CNone reg with Ok b => b | Err _ => false end.

Definition pricesCross `{BigNumber} (reg : Gate.registry) (network : string) (snapshotBlock : era) (makerGetPrice takerGivePrice : bn) : bool :=
  match snapshotBlock with
  | AnyEra => true
  | AtBlock height =>
      if gate_active reg PRICE_CROSS_KEY network height then negb (bcgt takerGivePrice makerGetPrice)
      else negb (bcgt makerGetPrice takerGivePrice)
  end.

(** ** A chain's open book *)

(** One answer of [getopencrosschainorders]: [next_cursor] is [None] when it is
    absent, [Some None] when it is not a number. *)
Record page := Page {
  pg_network : string; pg_latest : option Z; pg_orders : list offer; pg_truncated : bool;
  pg_next : option (option Z) }.

Inductive answer := Throws | NoResult | Answered (p : page).

Record book := Book { bk_network : string; bk_latest : option Z; bk_orders : list offer }.

Definition MAX_PAGES : nat := 40.

(** [Number(o.action_index) || 0] over the batch; nothing for an empty one. *)
Definition max_index (batch : list offer) : option Z :=
  foldl (λ m o, match m with None => Some (action_index o) | Some m => Some (Z.max m (action_index o)) end) None batch.

Section Paging.
(** The answer to each page request, by number and cursor; calls may differ. *)
Context (call : nat → option Z → answer).

(** [None]: the call threw, and so does the fetch. *)
Fixpoint fetch_pages (n number : nat) (after : option Z) (b : book) : option book :=
  match n with
  | O => Some b
  | S n =>
      match call number after with
      | Throws => None
      | NoResult => Some b
      | Answered p =>
          let b := if (number =? 0)%nat then Book (pg_network p) (pg_latest p) (bk_orders b) else b in
          let b := Book (bk_network b) (bk_latest b) (bk_orders b ++ pg_orders p) in
          if negb (pg_truncated p) then Some b
          else match match pg_next p with Some c => c | None => max_index (pg_orders p) end with
               | None => Some b
               | Some next =>
                   if match after with Some a => next <=? a | None => false end then Some b
                   else fetch_pages n (S number) (Some next) b
               end
      end
  end.

Definition fetchOpenOffers : option book := fetch_pages MAX_PAGES 0 None (Book EmptyString None []).
End Paging.

(** Deep enough under the chain's floor; an offer of unknown depth is kept. *)
Definition deepEnough (minConfirmations : Z) (latest : option Z) (o : offer) : bool :=
  match latest, block_index o with Some l, Some b => negb (l - b + 1 <? minConfirmations) | _, _ => true end.

Definition loadOfferBook (hasUrl : bool) (minConfirmations : Z) (call : nat → option Z → answer) (coin : string) : list offer :=
  if negb hasUrl then []
  else match fetchOpenOffers call with
       | None => []
       | Some b =>
           if String.eqb (bk_network b) "" then []
           else tagged coin (bk_network b) (bk_latest b) <$> filter (λ o, deepEnough minConfirmations (bk_latest b) o = true) (bk_orders b)
       end.

Definition findOpenOffer (hasUrl : bool) (minConfirmations : Z) (call : nat → option Z → answer) (coin : string) (actionIndex : Z) : option offer :=
  if negb hasUrl then None
  else match fetchOpenOffers call with
       | None => None
       | Some b =>
           if String.eqb (bk_network b) "" then None
           else match filter (λ o, action_index o = actionIndex) (bk_orders b) with
                | [] => None
                | o :: _ => if deepEnough minConfirmations (bk_latest b) o then Some (tagged coin (bk_network b) (bk_latest b) o) else None
                end
       end.

(** ** Canonical integer spellings

    [src/lib/canonical_int.js]. *)

Definition canonical_digits (s : string) : bool :=
  let '(neg, d) := split_minus s in
  all_chars is_digit d && integer_part d && negb (neg && String.eqb d "0").

Definition isCanonicalInt (v : option json) : bool :=
  match v with
  | Some (JNum m e) => bool_decide (is_Some (safe_int m e))
  | Some (JStr s) => canonical_digits s
  | _ => false
  end.

Definition allCanonicalInts (row : string → option json) (fields : list string) : bool := forallb (λ f, isCanonicalInt (row f)) fields.

(** ** The committed-fill ledger

    Model of [src/cross_chain/dex/ledger.js]: what finalized matches have locked
    of every offer, its rebuild from the database, and the capacity that is left. *)

(** A match as the ledger reads it. *)
Record fills := Fills {
  f_a_chain : string; f_a_index : Z; f_a_amount : string;
  f_b_chain : string; f_b_index : Z; f_b_amount : string }.

Definition leg_a (r : fills) : string * Z := offerKey (f_a_chain r) (f_a_index r).
Definition leg_b (r : fills) : string * Z := offerKey (f_b_chain r) (f_b_index r).

(** Cumulative amounts locked into finalized matches. *)
Record locked := Locked { l_give : string; l_get : string }.
Definition nothing : locked := Locked "0" "0".

Definition ledger : Type := gmap (string * Z) locked.

Section Ledger.
Context {B : BigNumber}.

Definition bcstr (s : string) : string := bn_toFixed (bcnum s).

(** [applyCommit] with sign +1 ([true]) or -1. *)
Definition adjust (plus : bool) (cur amt : string) : string :=
  bn_toFixed (if plus then bcadd (bignumber cur) (bignumber amt) 64 else bcsub (bignumber cur) (bignumber amt) 64).

Definition apply_a (plus : bool) (r : fills) (e : locked) : locked :=
  Locked (adjust plus (l_give e) (f_a_amount r)) (adjust plus (l_get e) (f_b_amount r)).
Definition apply_b (plus : bool) (r : fills) (e : locked) : locked :=
  Locked (adjust plus (l_give e) (f_b_amount r)) (adjust plus (l_get e) (f_a_amount r)).

(** Both entries are read before either is written; two legs of one key share the
    entry object when it exists, and the second write wins when it does not. *)
Definition applyCommit (r : fills) (plus : bool) (L : ledger) : ledger :=
  if decide (leg_a r = leg_b r) then
    match L !! leg_a r with
    | Some e => <[leg_a r := apply_b plus r (apply_a plus r e)]> L
    | None => <[leg_a r := apply_b plus r nothing]> L
    end
  else <[leg_b r := apply_b plus r (default nothing (L !! leg_b r))]> (<[leg_a r := apply_a plus r (default nothing (L !! leg_a r))]> L).

Definition committedFor (L : ledger) (o : offer) : locked := default nothing (L !! key_of o).

Record remaining := Remaining { r_give : string; r_get : string; r_committedGive : string }.

Definition left_of (full : option string) (taken : string) : string :=
  let x := bcsub (bignumber match full with None | Some EmptyString => "0" | Some s => s end) (bignumber taken) 64 in
  if bclt x (bcnum "0") then "0" else bn_toFixed x.

Definition effectiveRemaining (L : ledger) (o : offer) : remaining :=
  let c := committedFor L o in
  Remaining (left_of (give_amount o) (l_give c)) (left_of (get_amount o) (l_get c)) (bcstr (l_give c)).

(** ** The rebuild *)

Inductive dbrows := Rows (l : list fills) | MissingTable | ReadFailed.

Definition rebuilt (rows : list fills) : ledger := foldl (λ L r, applyCommit r true L) ∅ rows.

(** The ledger with its readiness flag. *)
Record store := Store { committed : ledger; ready : bool }.

Definition rebuildCommitted (answer : dbrows) (st : store) : store * bool :=
  match answer with
  | Rows l => (Store (rebuilt l) true, true)
  | MissingTable => (Store ∅ true, true)
  | ReadFailed => (Store (committed st) false, false)
  end.
End Ledger.

(** ** Confirmation floors *)

Definition DEFAULT_MIN_CONFIRMATIONS : Z := 1.
Definition DEFAULT_CONFIRMATIONS : list (string * Z) := [("BTC", 6); ("LTC", 12); ("DOGE", 60)].

Definition positive (v : option Z) : option Z := match v with Some z => if 0 <? z then Some z else None | None => None end.

(** One chain's floor: the per-chain override, else the flat one, else the
    default; on mainnet and testnet an override only raises it. *)
Definition minConfirmation (network tick : string) (perCoin flat : option Z) : Z :=
  let def := default DEFAULT_MIN_CONFIRMATIONS (own tick DEFAULT_CONFIRMATIONS) in
  let val := match positive perCoin with Some v => v | None => default def (positive flat) end in
  if (String.eqb network "mainnet" || String.eqb network "testnet") && (val <? def) then def else val.
