(* ===== verification/DexMatch.v ===== *)
(** * The matcher

    Model of [src/cross_chain/dex/match.js] and [tryOrderMatch] of
    [src/cross_chain/dex_engine.js]: which two offers match, at which amounts, and
    the pass that pairs the open books. The committed ledger is the argument
    [L]. A bignumber that the source spells with [String] and reads back is kept
    as the bignumber. *)

From S2P Require Import Prelude GateRegistry BigNum BcMath Json AttestWire OracleBand Admission DexOffer.
Open Scope Z_scope.

(** A match in canonical order: [lo] is the side with the lower coin code. *)
Record desc := Desc {
  lo : offer; hi : offer; loKind : string; hiKind : string; loFill : string; hiFill : string;
  loFilledBefore : string; hiFilledBefore : string; d_network : string }.

Record pricing := Pricing {
  maker : offer; taker : offer; p_ownership : bool;
  takerRem : remaining; makerRem : remaining }.

(** [(a || '') !== (b || '') || !a]: never across networks. *)
Definition same_network (a b : offer) : bool :=
  String.eqb (home_network a) (home_network b) && negb (String.eqb (home_network a) "").

(** Each side gives what the other wants. *)
Definition mirrored (a b : offer) : bool :=
  String.eqb (give_coin a) (get_coin b) && String.eqb (get_coin a) (give_coin b) &&
  String.eqb (give_tick a) (get_tick b) && String.eqb (get_tick a) (give_tick b).

Definition ownership_mirrored (a b : offer) : bool :=
  (give_ownership a =? get_ownership b) && (get_ownership a =? give_ownership b).

Definition isExactMatch (a b : offer) : bool :=
  negb (String.eqb (home_coin a) (home_coin b)) && same_network a b && mirrored a b &&
  amountsEqual (give_amount a) (get_amount b) && amountsEqual (get_amount a) (give_amount b) &&
  ownership_mirrored a b.

(** Price-time priority: block, coin, index. *)
Definition offerCmp (a b : offer) : comparison :=
  let ab := default 0 (block_index a) in
  let bb := default 0 (block_index b) in
  if negb (ab =? bb) then (if ab <? bb then Lt else Gt)
  else if negb (String.eqb (home_coin a) (home_coin b)) then (if str_lt (home_coin a) (home_coin b) then Lt else Gt)
  else if negb (action_index a =? action_index b) then (if action_index a <? action_index b then Lt else Gt)
  else Eq.

Definition giveDecimals (o : offer) : option nat :=
  match give_decimals o with
  | None => None
  | Some n => if (n <? 0) || (18 <? n) then None else Some (Z.to_nat n)
  end.

Section Match.
Context {B : BigNumber} (reg : Gate.registry) (L : ledger).

(** An amount as a bignumber operand: nothing counts as 0. *)
Definition amount (s : option string) : bn := bignumber match s with None | Some EmptyString => "0" | Some s => s end.

Definition not_positive (s : string) : bool := bclte (bcnum s) (bcnum "0").

Definition is_owner (a b : offer) : bool :=
  (give_ownership a =? 1) || (get_ownership a =? 1) || (give_ownership b =? 1) || (get_ownership b =? 1).

(** The taker's ask and its inverse, and the maker's bid. *)
Definition askOf (t : offer) : bn := getPrice (amount (get_amount t)) (amount (give_amount t)).
Definition inverseAskOf (t : offer) : bn := getPrice (amount (give_amount t)) (amount (get_amount t)).
Definition bidOf (m : offer) : bn := getPrice (amount (give_amount m)) (amount (get_amount m)).

Definition orderPricing (a b : offer) (snapshotBlock : era) : option pricing :=
  if negb (mirrored a b && ownership_mirrored a b) then None
  else
    let '(maker, taker) := match offerCmp a b with Gt => (b, a) | _ => (a, b) end in
    if negb (pricesCross reg (home_network maker) snapshotBlock (bidOf maker) (askOf taker)) then None
    else
      let takerRem := effectiveRemaining L taker in
      let makerRem := effectiveRemaining L maker in
      if not_positive (r_give takerRem) || not_positive (r_give makerRem) then None
      else if not_positive (r_get takerRem) || not_positive (r_get makerRem) then None
      else Some (Pricing maker taker (is_owner a b) takerRem makerRem).

(** Each amount on the grid of the leg that gives it. *)
Definition quantizeFill (maker taker : offer) (takerGive takerGet : bn) : option (string * string) :=
  match giveDecimals taker, giveDecimals maker with
  | Some td, Some md =>
      let give := bn_toFixed (bcround takerGive td) in
      let get := bn_toFixed (bcround takerGet md) in
      if not_positive give || not_positive get then None else Some (give, get)
  | _, _ => None
  end.

(** The bottleneck clamp: what the taker gives and gets before the grid. *)
Definition clampFill (p : pricing) : bn * bn :=
  let max_give := if bclt (bcnum (r_get (makerRem p))) (bcnum (r_give (takerRem p))) then r_get (makerRem p) else r_give (takerRem p) in
  let max_get := if bclt (bcnum (r_give (makerRem p))) (bcnum (r_get (takerRem p))) then r_give (makerRem p) else r_get (takerRem p) in
  let give_from_get := bcmul (bignumber max_get) (inverseAskOf (taker p)) 64 in
  if bcgt give_from_get (bcnum max_give)
  then (bcnum max_give, bcmul (bignumber max_give) (askOf (taker p)) 64)
  else (give_from_get, bcnum max_get).

Definition buildDesc (a b : offer) (aKind bKind aGiveFill bGiveFill : string) : desc :=
  let before o := bcstr (l_give (committedFor L o)) in
  if String.leb (home_coin a) (home_coin b)
  then Desc a b aKind bKind (bcstr aGiveFill) (bcstr bGiveFill) (before a) (before b) (home_network a)
  else Desc b a bKind aKind (bcstr bGiveFill) (bcstr aGiveFill) (before b) (before a) (home_network a).

(** An ownership order fills its full canonical sides or not at all. *)
Definition full_sides (t : offer) (takerGive takerGet : string) : bool :=
  let side owned amt := if owned =? 1 then "1"%string else default "null"%string amt in
  amountsEqual (Some takerGive) (Some (side (give_ownership t) (give_amount t))) &&
  amountsEqual (Some takerGet) (Some (side (get_ownership t) (get_amount t))).

Definition tryOrderMatch (a b : offer) (snapshotBlock : era) : option desc :=
  p ← orderPricing a b snapshotBlock;
  let '(give, get) := clampFill p in
  '(takerGive, takerGet) ← quantizeFill (maker p) (taker p) give get;
  if p_ownership p && negb (full_sides (taker p) takerGive takerGet) then None
  else
    (* [a === taker] is identity of the two objects of one pair *)
    let a_is_taker := match offerCmp a b with Gt => true | _ => false end in
    Some (buildDesc a b "order" "order" (if a_is_taker then takerGive else takerGet) (if a_is_taker then takerGet else takerGive)).

Definition order_kind (o : offer) : bool := String.eqb (kind o) "order".

Definition amount_text (s : option string) : string := bcstr (default EmptyString s).

Definition tryMatch (a b : offer) (snapshotBlock : era) : option desc :=
  if String.eqb (home_coin a) (home_coin b) then None
  else if negb (same_network a b) then None
  else if negb (offerPairAllowed a b) then None
  else if negb (order_kind a) && negb (order_kind b) then
    if negb (isExactMatch a b) then None
    else if not_positive (r_give (effectiveRemaining L a)) || not_positive (r_give (effectiveRemaining L b)) then None
    else Some (buildDesc a b "swap" "swap" (amount_text (give_amount a)) (amount_text (give_amount b)))
  else if order_kind a && order_kind b then tryOrderMatch a b snapshotBlock
  else None.

(** ** One pass over the books *)

Definition unused (used : gset (string * Z)) (o : offer) : bool := negb (bool_decide (key_of o ∈ used)).

(** The first later offer that is free and matches. *)
Fixpoint partner (snapshotBlock : era) (used : gset (string * Z)) (a : offer) (rest : list offer) : option (desc * offer) :=
  match rest with
  | [] => None
  | b :: r =>
      if negb (unused used b) then partner snapshotBlock used a r
      else match tryMatch a b snapshotBlock with
           | Some d => Some (d, b)
           | None => partner snapshotBlock used a r
           end
  end.

Fixpoint match_pass (snapshotBlock : era) (used : gset (string * Z)) (all : list offer) : list desc :=
  match all with
  | [] => []
  | a :: r =>
      if negb (unused used a) then match_pass snapshotBlock used r
      else match partner snapshotBlock used a r with
           | Some (d, b) => d :: match_pass snapshotBlock ({[key_of a; key_of b]} ∪ used) r
           | None => match_pass snapshotBlock used r
           end
  end.

Definition all_offers (offersByCoin : string → list offer) : list offer := mjoin (offersByCoin <$> ALLOWED_CHAINS).

Definition findMatches (offersByCoin : string → list offer) (snapshotBlock : era) : list desc :=
  match_pass snapshotBlock ∅ (all_offers offersByCoin).
End Match.
