(* ===== verification/DexRow.v ===== *)
(** * Match rows

    Model of the row a match becomes: [deriveMatchId] and [buildMatchRow] of
    [src/cross_chain/dex/finalize.js], [stampMatchAdmission] and [canonicalMatch]
    of [src/cross_chain/dex_engine.js], and the follower's check of
    [src/cross_chain/dex/validate.js]. *)

From stdpp Require Import pretty.
From Stdlib Require Import QArith_base.
From S2P Require Import Prelude GateRegistry BigNum BcMath Json AttestWire OracleBand Admission DexOffer DexMatch.
Open Scope Z_scope.

(** ** The row *)

Record leg := Leg {
  lg_chain : string; lg_index : Z; lg_kind : string; lg_tick : string; lg_amount : string;
  lg_filled_before : string; lg_ownership : Z; lg_payout_addr : string; lg_payout_legs : string; lg_generation : Z }.

(** A row the engine builds; an absent tick, address or leg text is the empty
    string, [admission] the admission map its columns carry. *)
Record matchrow := MatchRow {
  match_id : string; snapshot_block : Z; network : string; leg_A : leg; leg_B : leg;
  effective_time : Z; admission : option (gmap string Z) }.

Section Row.
Context (sha256Hex : string → string).

Definition side_text (o : offer) (filledBefore : string) : string :=
  "|" +:+ home_coin o +:+ ":" +:+ pretty (action_index o) +:+ ":" +:+ normalizeAmount (Some filledBefore).

Definition matchid_text (lo hi : offer) (snapshotBlock : Z) (loFilledBefore hiFilledBefore : string) : string :=
  home_network lo +:+ side_text lo loFilledBefore +:+ side_text hi hiFilledBefore +:+ "|" +:+ pretty snapshotBlock.

Definition deriveMatchId (lo hi : offer) (snapshotBlock : Z) (loFilledBefore hiFilledBefore : string) : string :=
  sha256Hex (matchid_text lo hi snapshotBlock loFilledBefore hiFilledBefore).

Definition leg_of (o : offer) (kind fill before : string) : leg :=
  Leg (home_coin o) (action_index o) kind (give_tick o) fill before (give_ownership o)
    (default EmptyString (get_address o)) (payout_legs o) (push_generation o).

Definition buildMatchRow (d : desc) (matchId : string) (snapshotBlock effectiveTime : Z) : matchrow :=
  MatchRow matchId snapshotBlock (d_network d) (leg_of (lo d) (loKind d) (loFill d) (loFilledBefore d))
    (leg_of (hi d) (hiKind d) (hiFill d) (hiFilledBefore d)) effectiveTime None.

(** The stamp covers the slower leg. *)
Definition effectiveTimeOf (now : Z) (d : desc) : Z :=
  now + Z.max (relayMarginFloorS (home_coin (lo d))) (relayMarginFloorS (home_coin (hi d))).

(** The fields of a row the read set names. *)
Definition row_chain (r : matchrow) (field : string) : option string :=
  if String.eqb field "a_chain" then Some (lg_chain (leg_A r))
  else if String.eqb field "b_chain" then Some (lg_chain (leg_B r)) else None.

(** [None] refuses to finalize: above the activation, without a map. [resolve] is
    [resolveAdmitBlocks] of the hub. *)
Definition stampMatchAdmission (producer : list (string * option Z))
    (resolve : string → list string → option (gmap string Z)) (r : matchrow) : option matchrow :=
  let stamped m := MatchRow (match_id r) (snapshot_block r) (network r) (leg_A r) (leg_B r) (effective_time r) m in
  if isAdmissionEra producer (Some (network r)) (Some (JInt (snapshot_block r))) then
    match admissionReadSet "cross_chain_matches" (row_chain r) [] with
    | Err _ => None
    | Ok readSet => m ← resolve "cross_chain_matches"%string readSet; Some (stamped (Some m))
    end
  else Some (stamped None).

(** ** The signed bytes *)

Definition CROSS_CHAIN_ROYALTY_KEY : string := "cross_chain_royalty_activation.CROSS_CHAIN_ROYALTY_ACTIVATION".
Definition XDEX_TAG : string := "XDEX".

Fixpoint bars (l : list string) : string :=
  match l with [] => EmptyString | [x] => x | x :: r => x +:+ "|" +:+ bars r end.

Definition leg_fields (l : leg) : list string :=
  [lg_chain l; pretty (lg_index l); lg_tick l; lg_amount l; pretty (lg_ownership l); lg_payout_addr l].

Definition or_swap (k : string) : string := if String.eqb k "" then "swap" else k.

Definition xmatch_fields (r : matchrow) : list string :=
  ["XMATCH"; match_id r; pretty (snapshot_block r)] ++ leg_fields (leg_A r) ++ leg_fields (leg_B r) ++
  [pretty (effective_time r); network r; or_swap (lg_kind (leg_A r)); lg_filled_before (leg_A r);
   or_swap (lg_kind (leg_B r)); lg_filled_before (leg_B r)].

Definition canonicalMatch (reg : Gate.registry) (producer : list (string * option Z)) (r : matchrow) (view : Z) :
    result admission_error string :=
  let raw := bars (xmatch_fields r) in
  let raw := if gate_active reg CROSS_CHAIN_ROYALTY_KEY (network r) (snapshot_block r)
             then raw +:+ "|" +:+ lg_payout_legs (leg_A r) +:+ "|" +:+ lg_payout_legs (leg_B r) else raw in
  let! field := admissionCanonicalField producer (Some (network r)) (Some (JInt (snapshot_block r)))
                  ((λ m : gmap string Z, (λ z, JInt z) <$> m) <$> admission r) in
  let raw := raw +:+ field in
  Ok (if isEquivHeaderActive (Some (snapshot_block r)) (network r)
      then buildEquivCanonical XDEX_TAG (match_id r) (pretty view) raw else raw).

(** ** The follower's check *)

Definition DEX_CANONICAL_INT_FIELDS : list string :=
  ["snapshot_block"; "a_action_index"; "b_action_index"; "a_ownership"; "b_ownership"; "effective_time"].

(** The proposed row as it arrives: its fields by name. *)
Definition wirerow : Type := string → option json.

(** [String(v || '')] and [String(v)]. *)
Definition text_or_empty (v : option json) : string :=
  match v with Some v => if json_truthy v then json_String v else EmptyString | None => EmptyString end.
Definition field_text (v : option json) : option string :=
  match v with None | Some JNull => None | Some v => Some (json_String v) end.

(** [Number(v)] when it is an integer. *)
Definition number_of (v : option json) : option Z := '(m, e) ← json_Number v; num_int m e.

(** [a === b] on two fields. *)
Definition same_field (a b : option json) : bool :=
  match a, b with
  | None, None => true
  | Some (JStr x), Some (JStr y) => String.eqb x y
  | Some (JNum m e), Some (JNum m' e') => Qeq_bool (num_Q m e) (num_Q m' e')
  | Some (JBool x), Some (JBool y) => Bool.eqb x y
  | Some JNull, Some JNull => true
  | _, _ => false
  end.

Definition is_text (v : option json) (s : string) : bool := match v with Some (JStr x) => String.eqb x s | _ => false end.

Definition proposedMatchInBounds (committedReady : bool) (now : Z) (row : option wirerow) : bool :=
  if negb committedReady then false
  else match row with
       | None => false
       | Some row =>
           negb (same_field (row "a_chain") (row "b_chain")) &&
           allCanonicalInts row DEX_CANONICAL_INT_FIELDS &&
           match number_of (row "effective_time") with
           | None => false
           | Some t => negb (3600 <? t - now) && negb (t - now <? RELAY_MIN_FUTURE_S)
           end
       end.

Context {B : BigNumber} (reg : Gate.registry) (L : ledger).

(** [Number(v) || 0]. *)
Definition generation_of (v : option json) : Z := default 0 (number_of v).

Definition row_agrees (row : wirerow) (d : desc) (snapshotBlock : Z) : bool :=
  is_text (row "a_kind") (loKind d) && is_text (row "b_kind") (hiKind d) &&
  amountsEqual (Some (loFill d)) (field_text (row "a_amount")) && amountsEqual (Some (hiFill d)) (field_text (row "b_amount")) &&
  amountsEqual (Some (loFilledBefore d)) (field_text (row "a_filled_before")) &&
  amountsEqual (Some (hiFilledBefore d)) (field_text (row "b_filled_before")) &&
  String.eqb (text_or_empty (row "a_payout_legs")) (payout_legs (lo d)) &&
  String.eqb (text_or_empty (row "b_payout_legs")) (payout_legs (hi d)) &&
  (generation_of (row "a_push_generation") =? push_generation (lo d)) &&
  (generation_of (row "b_push_generation") =? push_generation (hi d)) &&
  String.eqb (toLowerCase (deriveMatchId (lo d) (hi d) snapshotBlock (loFilledBefore d) (hiFilledBefore d)))
    (toLowerCase (opt_String (row "match_id"))).

(** [find]: this hub's own [findOpenOffer] by chain and action index; [getlistat]
    its indexers' list answers. *)
Definition validateProposedMatch (committedReady : bool) (now : Z) (find : string → Z → option offer)
    (getlistat : string → Z → Z → option json) (row : option wirerow) : bool :=
  if negb (proposedMatchInBounds committedReady now row) then false
  else match row with
       | None => false
       | Some row =>
           match number_of (row "a_action_index"), number_of (row "b_action_index"), number_of (row "snapshot_block") with
           | Some ai, Some bi, Some sb =>
               match find (opt_String (row "a_chain")) ai, find (opt_String (row "b_chain")) bi with
               | Some a, Some b =>
                   if negb (String.eqb (home_network a) (text_or_empty (row "network"))) then false
                   else if negb (String.eqb (home_network b) (text_or_empty (row "network"))) then false
                   else
                     let a := prepareOffer getlistat reg sb a in
                     let b := prepareOffer getlistat reg sb b in
                     match tryMatch reg L a b (AtBlock sb) with
                     | None => false
                     | Some d => row_agrees row d sb
                     end
               | _, _ => false
               end
           | _, _, _ => false
           end
       end.

(** [admissionScope] of a row on the wire: [None] below the activation; the chains
    that read it, [None] when their list throws. *)
Definition admissionScope (producer : list (string * option Z)) (r : wirerow) : option (option (list string)) :=
  if negb (isAdmissionEra producer (field_text (r "network")) (r "snapshot_block")) then None
  else Some (match admissionReadSet "cross_chain_matches" (λ f, field_text (r f)) [] with Ok readSet => Some readSet | Err _ => None end).

(** A built row on the wire. *)
Definition leg_wire (side : string) (l : leg) : list (string * json) :=
  [(side +:+ "_chain", JStr (lg_chain l)); (side +:+ "_action_index", JInt (lg_index l)); (side +:+ "_kind", JStr (lg_kind l));
   (side +:+ "_tick", if String.eqb (lg_tick l) "" then JNull else JStr (lg_tick l));
   (side +:+ "_amount", JStr (lg_amount l)); (side +:+ "_filled_before", JStr (lg_filled_before l));
   (side +:+ "_ownership", JInt (lg_ownership l)); (side +:+ "_payout_addr", JStr (lg_payout_addr l));
   (side +:+ "_payout_legs", if String.eqb (lg_payout_legs l) "" then JNull else JStr (lg_payout_legs l));
   (side +:+ "_push_generation", JInt (lg_generation l))].

Definition row_wire (r : matchrow) : list (string * json) :=
  [("match_id", JStr (match_id r)); ("snapshot_block", JInt (snapshot_block r)); ("network", JStr (network r))] ++
  leg_wire "a" (leg_A r) ++ leg_wire "b" (leg_B r) ++ [("effective_time", JInt (effective_time r))] ++
  admitBlocksToColumns (admission r).
End Row.
