(* ===== verification/DexProps.v ===== *)
(** * Properties of the matcher

    Matches do not depend on which of the two offers is met first, a pass pairs
    every offer at most once and leaves nothing matchable behind, and the paging of
    a book ends and returns the whole book. *)

From S2P Require Import Prelude GateRegistry BigNum BcMath Json AttestWire OracleBand Admission DexOffer DexMatch.
Open Scope Z_scope.

Lemma eqb_sym (a b : string) : String.eqb a b = String.eqb b a.
Proof. destruct (String.eqb_spec a b) as [->|H]; [by rewrite String.eqb_refl|]. symmetry. apply String.eqb_neq. congruence. Qed.

Lemma amountsEqual_sym x y : amountsEqual x y = amountsEqual y x.
Proof. apply eqb_sym. Qed.

Lemma same_network_sym a b : same_network a b = same_network b a.
Proof. unfold same_network. destruct (String.eqb_spec (home_network a) (home_network b)) as [->|H]; [by rewrite String.eqb_refl|].
  rewrite (proj2 (String.eqb_neq (home_network b) _)) by congruence. done. Qed.

Lemma mirrored_sym a b : mirrored a b = mirrored b a.
Proof.
  unfold mirrored. rewrite (eqb_sym (give_coin a)), (eqb_sym (get_coin a)), (eqb_sym (give_tick a)), (eqb_sym (get_tick a)).
  by destruct (String.eqb (get_coin b) _), (String.eqb (give_coin b) _), (String.eqb (get_tick b) _), (String.eqb (give_tick b) _).
Qed.

Lemma ownership_mirrored_sym a b : ownership_mirrored a b = ownership_mirrored b a.
Proof. unfold ownership_mirrored. rewrite (Z.eqb_sym (give_ownership a)), (Z.eqb_sym (get_ownership a)). apply andb_comm. Qed.

Lemma isExactMatch_sym a b : isExactMatch a b = isExactMatch b a.
Proof.
  unfold isExactMatch. rewrite (eqb_sym (home_coin a)), (same_network_sym a), (mirrored_sym a), (ownership_mirrored_sym a).
  rewrite (amountsEqual_sym (give_amount a)), (amountsEqual_sym (get_amount a)).
  by destruct (amountsEqual (get_amount b) _), (amountsEqual (give_amount b) _), (negb _), (same_network b a), (mirrored b a).
Qed.

Lemma offerPairAllowed_sym a b : offerPairAllowed a b = offerPairAllowed b a.
Proof.
  unfold offerPairAllowed. destruct (lists a) as [la|] eqn:Ea, (lists b) as [lb|] eqn:Eb; try done; cbn [fmap option_fmap option_map].
  - destruct (decide (enforced la = enforced lb)) as [E|E].
    + rewrite E, !bool_decide_true by done. cbn [negb]. apply andb_comm.
    + rewrite !bool_decide_false by congruence. done.
Qed.

Lemma str_lt_flip a b : a ≠ b → str_lt b a = negb (str_lt a b).
Proof.
  intros Hne. unfold str_lt, String.ltb. rewrite (String.compare_antisym a b).
  destruct (String.compare b a) eqn:E; [|done|done]. by apply String.compare_eq_iff in E.
Qed.

(** On different chains the priority order never ties. *)
Lemma offerCmp_flip a b : home_coin a ≠ home_coin b → offerCmp b a = CompOpp (offerCmp a b) ∧ offerCmp a b ≠ Eq.
Proof.
  intros Hne. unfold offerCmp. rewrite (Z.eqb_sym (default 0 (block_index b))), (eqb_sym (home_coin b)).
  destruct (default 0 (block_index a) =? default 0 (block_index b)) eqn:E; cbn [negb].
  - rewrite (proj2 (String.eqb_neq _ _) Hne). cbn [negb]. rewrite (str_lt_flip (home_coin a) (home_coin b)) by done.
    by destruct (str_lt (home_coin a) (home_coin b)).
  - destruct (default 0 (block_index a) <? default 0 (block_index b)) eqn:E1, (default 0 (block_index b) <? default 0 (block_index a)) eqn:E2;
      bools; try lia; done.
Qed.

Lemma leb_flip a b : a ≠ b → String.leb b a = negb (String.leb a b).
Proof.
  intros Hne. destruct (String.leb a b) eqn:E1, (String.leb b a) eqn:E2; try done.
  - destruct Hne. by apply string_leb_antisym.
  - destruct (string_leb_total a b); congruence.
Qed.

Section Props.
Context {B : BigNumber} (reg : Gate.registry) (L : ledger).

Lemma buildDesc_sym a b k x y :
  home_coin a ≠ home_coin b → home_network a = home_network b → buildDesc L a b k k x y = buildDesc L b a k k y x.
Proof.
  intros Hne Hn. unfold buildDesc. rewrite (leb_flip (home_coin a) (home_coin b)) by done. rewrite Hn.
  by destruct (String.leb (home_coin a) (home_coin b)).
Qed.

Lemma orderPricing_sym a b e : home_coin a ≠ home_coin b → orderPricing reg L a b e = orderPricing reg L b a e.
Proof.
  intros Hne. unfold orderPricing. rewrite (mirrored_sym a), (ownership_mirrored_sym a).
  destruct (negb _); [done|]. destruct (offerCmp_flip a b Hne) as [-> Hc].
  assert (Ho : is_owner a b = is_owner b a).
  { unfold is_owner. by destruct (give_ownership a =? 1), (get_ownership a =? 1), (give_ownership b =? 1), (get_ownership b =? 1). }
  rewrite Ho. by destruct (offerCmp a b).
Qed.

Lemma tryOrderMatch_sym a b e :
  home_coin a ≠ home_coin b → home_network a = home_network b → tryOrderMatch reg L a b e = tryOrderMatch reg L b a e.
Proof.
  intros Hne Hn. unfold tryOrderMatch. rewrite (orderPricing_sym a b) by done. destruct (orderPricing reg L b a e) as [p|]; [|done].
  cbn [mbind option_bind]. destruct (clampFill p) as [give get]. destruct (quantizeFill _ _ give get) as [[tg tt]|]; [|done].
  cbn [mbind option_bind]. on_if; [done|]. destruct (offerCmp_flip a b Hne) as [-> Hc]. f_equal.
  rewrite buildDesc_sym by done. by destruct (offerCmp a b).
Qed.

(** Whether and how two offers match does not depend on which of them a hub
    meets first: makers and takers, fills and the canonical sides come out the
    same, so a follower that re-derives a proposed match from its two legs gets
    the match the leader found. *)
Theorem match_symmetric a b e : tryMatch reg L a b e = tryMatch reg L b a e.
Proof.
  unfold tryMatch. rewrite (eqb_sym (home_coin a)). destruct (String.eqb_spec (home_coin b) (home_coin a)) as [_|Hne]; [done|].
  rewrite (same_network_sym a). destruct (negb (same_network b a)) eqn:En; [done|]. bools. unfold same_network in En. bools.
  apply String.eqb_eq in H. rewrite (offerPairAllowed_sym a). destruct (negb _); [done|].
  rewrite (andb_comm (negb (order_kind a))), (andb_comm (order_kind a)). destruct (negb (order_kind b) && _).
  - rewrite (isExactMatch_sym a). destruct (negb _); [done|]. rewrite (orb_comm (not_positive _)). destruct (_ || _); [done|].
    f_equal. apply buildDesc_sym; congruence.
  - destruct (order_kind b && order_kind a); [|done]. apply tryOrderMatch_sym; congruence.
Qed.

(** ** One pass *)

Lemma buildDesc_sides a b k k' x y :
  let d := buildDesc L a b k k' x y in lo d = a ∧ hi d = b ∨ lo d = b ∧ hi d = a.
Proof. unfold buildDesc. destruct (String.leb _ _); simpl; auto. Qed.

(** A match is the descriptor of its two offers. *)
Lemma tryMatch_desc a b e d :
  tryMatch reg L a b e = Some d →
  home_coin a ≠ home_coin b ∧ same_network a b = true ∧ ∃ k x y, d = buildDesc L a b k k x y.
Proof.
  unfold tryMatch. destruct (String.eqb_spec (home_coin a) (home_coin b)) as [_|Hne]; [done|].
  destruct (same_network a b); cbn [negb]; [|done]. destruct (negb _); [done|]. intros H. split; [done|]. split; [done|]. revert H.
  destruct (_ && _); [|destruct (_ && _); [|done]].
  - destruct (negb _); [done|]. destruct (_ || _); [done|]. intros [= <-]. eauto.
  - unfold tryOrderMatch. destruct (orderPricing _ _ _ _ _) as [p|]; [|done]. cbn [mbind option_bind]. destruct (clampFill p) as [g t].
    destruct (quantizeFill _ _ g t) as [[x y]|]; [|done]. cbn [mbind option_bind]. on_if; [done|]. intros [= <-]. eauto.
Qed.

Lemma tryMatch_sides a b e d :
  tryMatch reg L a b e = Some d → home_coin a ≠ home_coin b ∧ (lo d = a ∧ hi d = b ∨ lo d = b ∧ hi d = a).
Proof. intros (Hne & _ & k & x & y & ->)%tryMatch_desc. split; [done|]. apply buildDesc_sides. Qed.

Definition keys_of (d : desc) : list (string * Z) := [key_of (lo d); key_of (hi d)].

Lemma keys_perm a b e d : tryMatch reg L a b e = Some d → keys_of d ≡ₚ [key_of a; key_of b] ∧ key_of a ≠ key_of b.
Proof.
  intros [Hne H]%tryMatch_sides. split; [|unfold key_of, offerKey; congruence]. unfold keys_of.
  destruct H as [[-> ->]|[-> ->]]; [done|apply Permutation_swap].
Qed.

Lemma partner_spec e used a rest :
  match partner reg L e used a rest with
  | Some (d, b) => ∃ j, rest !! j = Some b ∧ unused used b = true ∧ tryMatch reg L a b e = Some d
  | None => ∀ b, b ∈ rest → unused used b = true → tryMatch reg L a b e = None
  end.
Proof.
  induction rest as [|b rest IH]; [intros b Hb; by apply elem_of_nil in Hb|]. cbn [partner].
  destruct (unused used b) eqn:Eu; cbn [negb].
  - destruct (tryMatch reg L a b e) as [d|] eqn:Et; [by exists 0%nat|].
    destruct (partner reg L e used a rest) as [[d c]|].
    + destruct IH as (j & Hj & ?). by exists (S j).
    + intros c [->|Hc]%elem_of_cons; [done|auto].
  - destruct (partner reg L e used a rest) as [[d c]|].
    + destruct IH as (j & Hj & ?). by exists (S j).
    + intros c [->|Hc]%elem_of_cons Hu; [congruence|auto].
Qed.

Lemma unused_spec used o : unused used o = true ↔ key_of o ∉ used.
Proof. unfold unused. rewrite negb_true_iff. apply bool_decide_eq_false. Qed.

Lemma outside (k x y : string * Z) (used : gset (string * Z)) P : k ∉ used → ¬ (k ∈ [x; y] ∨ P) → k ∉ ({[x; y]} ∪ used : gset _).
Proof. intros Hu Hn. rewrite !elem_of_union, !elem_of_singleton. intros [[->| ->]|?]; [| |done]; apply Hn; left; set_solver. Qed.

Record pass_ok (e : era) (used : gset (string * Z)) (all : list offer) (ds : list desc) : Prop := {
  po_once : NoDup (ds ≫= keys_of);
  po_fresh : ∀ k, k ∈ ds ≫= keys_of → k ∉ used;
  po_found : ∀ d, d ∈ ds → ∃ i j a b, (i < j)%nat ∧ all !! i = Some a ∧ all !! j = Some b ∧ tryMatch reg L a b e = Some d;
  po_maximal : ∀ i j a b, (i < j)%nat → all !! i = Some a → all !! j = Some b →
    key_of a ∉ used → key_of b ∉ used → key_of a ∉ ds ≫= keys_of → key_of b ∉ ds ≫= keys_of → tryMatch reg L a b e = None }.

Lemma match_pass_ok e used all : pass_ok e used all (match_pass reg L e used all).
Proof.
  revert used. induction all as [|a rest IH]; intros used; cbn [match_pass].
  { constructor; [constructor|intros k Hk; by apply elem_of_nil in Hk|intros d Hd; by apply elem_of_nil in Hd|done]. }
  destruct (unused used a) eqn:Eu; cbn [negb]; [apply unused_spec in Eu; pose proof (partner_spec e used a rest) as Hp;
    destruct (partner reg L e used a rest) as [[d b]|]|].
  - destruct Hp as (j & Hj & Hb%unused_spec & Hm). destruct (IH ({[key_of a; key_of b]} ∪ used)) as [H1 H2 H3 H4].
    destruct (keys_perm _ _ _ _ Hm) as [Hk Hne].
    constructor.
    + rewrite bind_cons, Hk. apply NoDup_app. split_and!; [| |done].
      * repeat (apply NoDup_cons; split); [set_solver|set_solver|constructor].
      * intros k Hka Hkb. apply H2 in Hkb. set_solver.
    + intros k. rewrite bind_cons, elem_of_app, Hk. intros [Hka|Hka%H2]; set_solver.
    + intros d' [->|Hd]%elem_of_cons; [exists 0%nat, (S j), a, b; split_and!; [lia|done|done|done]|].
      destruct (H3 d' Hd) as (i & i' & x & y & ? & ? & ? & ?). exists (S i), (S i'), x, y. split_and!; [lia|done|done|done].
    + intros i i' x y Hi Hx Hy Ux Uy. rewrite bind_cons, !elem_of_app, Hk. intros Fx Fy.
      destruct i as [|i]; [injection Hx as <-; set_solver|]. destruct i' as [|i']; [lia|].
      apply (H4 i i' x y); [lia|done|done|by eapply outside|by eapply outside|tauto|tauto].
  - destruct (IH used) as [H1 H2 H3 H4]. constructor; [done|done|..].
    + intros d Hd. destruct (H3 d Hd) as (i & i' & x & y & ? & ? & ? & ?). exists (S i), (S i'), x, y. split_and!; [lia|done|done|done].
    + intros i i' x y Hi Hx Hy Ux Uy Fx Fy. destruct i' as [|i']; [lia|]. destruct i as [|i].
      * injection Hx as <-. apply Hp; [by eapply list_elem_of_lookup_2|by apply unused_spec].
      * apply (H4 i i' x y); [lia|done..].
  - destruct (IH used) as [H1 H2 H3 H4]. constructor; [done|done|..].
    + intros d Hd. destruct (H3 d Hd) as (i & i' & x & y & ? & ? & ? & ?). exists (S i), (S i'), x, y. split_and!; [lia|done|done|done].
    + intros i i' x y Hi Hx Hy Ux Uy Fx Fy. destruct i' as [|i']; [lia|]. destruct i as [|i].
      * injection Hx as <-. apply unused_spec in Ux. congruence.
      * apply (H4 i i' x y); [lia|done..].
Qed.

(** C29: a pass over the books is a maximal matching: every match it returns is one
    of two offers of the books, no offer is in two of them, and no two offers that
    are left over could have been matched. *)
Theorem matching_maximal offersByCoin e :
  let all := all_offers offersByCoin in let ds := findMatches reg L offersByCoin e in
  NoDup (ds ≫= keys_of) ∧
  (∀ d, d ∈ ds → ∃ i j a b, (i < j)%nat ∧ all !! i = Some a ∧ all !! j = Some b ∧ tryMatch reg L a b e = Some d) ∧
  (∀ i j a b, (i < j)%nat → all !! i = Some a → all !! j = Some b →
     key_of a ∉ ds ≫= keys_of → key_of b ∉ ds ≫= keys_of → tryMatch reg L a b e = None).
Proof.
  intros all ds. destruct (match_pass_ok e ∅ all) as [H1 H2 H3 H4]. split_and!; [done|done|].
  intros i j a b Hi Ha Hb Fa Fb. apply (H4 i j a b); [done|done|done|set_solver|set_solver|done|done].
Qed.
End Props.

(** ** Paging an open book *)

Section Paging.
Context (limit : nat) (net : string) (latest : option Z) (all : list offer) (cursor : bool).

Definition index_lt (a b : offer) : Prop := action_index a < action_index b.

(** The orders after a cursor. *)
Definition beyond (after : option Z) (o : offer) : bool := match after with Some a => a <? action_index o | None => true end.
Definition after_cursor (after : option Z) : list offer := filter (λ o, beyond after o = true) all.

(** The indexer's page: at most [limit] orders, with or without the next cursor. *)
Definition keyset_page (after : option Z) : page :=
  let rest := after_cursor after in
  Page net latest (take limit rest) (bool_decide (limit < length rest)%nat) (if cursor then Some (max_index (take limit rest)) else None).

Lemma max_index_from m l : StronglySorted index_lt l → (∀ o, o ∈ l → m < action_index o) →
  foldl (λ m o, match m with None => Some (action_index o) | Some m => Some (Z.max m (action_index o)) end) (Some m) l =
  Some (default m (action_index <$> last l)).
Proof.
  revert m. induction l as [|o l IH]; intros m Hs Hm; [done|]. inversion Hs as [|? ? Hl Ho]; subst. cbn [foldl].
  rewrite Z.max_r by (specialize (Hm o ltac:(by left)); lia). rewrite IH; [|done|].
  - destruct l as [|o' l]; [done|]. rewrite last_cons_cons. destruct (last (o' :: l)) eqn:E; [done|by apply last_None in E].
  - intros x Hx. rewrite Forall_forall in Ho. by apply Ho.
Qed.

Lemma max_index_last l : StronglySorted index_lt l → max_index l = action_index <$> last l.
Proof.
  destruct l as [|o l]; intros Hs; [done|]. inversion Hs as [|? ? Hl Ho]; subst. unfold max_index. cbn [foldl].
  rewrite max_index_from; [|done|intros x Hx; rewrite Forall_forall in Ho; by apply Ho].
  destruct l as [|o' l]; [done|]. rewrite last_cons_cons. destruct (last (o' :: l)) eqn:E; [done|by apply last_None in E].
Qed.

Lemma sorted_app_inv (l1 l2 : list offer) : StronglySorted index_lt (l1 ++ l2) →
  StronglySorted index_lt l1 ∧ StronglySorted index_lt l2 ∧ ∀ x y, x ∈ l1 → y ∈ l2 → index_lt x y.
Proof.
  induction l1 as [|a l1 IH]; intros H; [split_and!; [constructor|done|intros x y Hx; by apply elem_of_nil in Hx]|].
  inversion H as [|? ? Hs Ha]; subst. destruct (IH Hs) as (H1 & H2 & H3). rewrite Forall_app in Ha. destruct Ha as [Ha1 Ha2].
  split_and!; [by constructor|done|]. intros x y [->|Hx]%elem_of_cons Hy; [rewrite Forall_forall in Ha2; by apply Ha2|by apply H3].
Qed.

Lemma sorted_filter P `{∀ o, Decision (P o)} (l : list offer) : StronglySorted index_lt l → StronglySorted index_lt (filter P l).
Proof.
  induction 1 as [|a l Hs IH Ha]; [constructor|]. rewrite filter_cons. case_decide; [|done]. constructor; [done|].
  rewrite Forall_forall in *. intros x [_ Hx]%list_elem_of_filter. by apply Ha.
Qed.

Lemma filter_none P `{∀ o : offer, Decision (P o)} (l : list offer) : (∀ o, o ∈ l → ¬ P o) → filter P l = [].
Proof. induction l as [|a l IH]; intros Hn; [done|]. rewrite filter_cons, decide_False by (apply Hn; by left). apply IH. intros o Ho. apply Hn. by right. Qed.

Lemma filter_every P `{∀ o : offer, Decision (P o)} (l : list offer) : (∀ o, o ∈ l → P o) → filter P l = l.
Proof. induction l as [|a l IH]; intros Hn; [done|]. rewrite filter_cons, decide_True by (apply Hn; by left). f_equal. apply IH. intros o Ho. apply Hn. by right. Qed.

Context (Hsorted : StronglySorted index_lt all) (Hlimit : (0 < limit)%nat).

(** Past a split point of the book. *)
Lemma after_split pre x post : all = pre ++ x :: post → after_cursor (Some (action_index x)) = post.
Proof.
  intros E. unfold after_cursor. rewrite E in *. destruct (sorted_app_inv _ _ Hsorted) as (_ & H2 & H3).
  inversion H2 as [|? ? Hp Hx]; subst. rewrite Forall_forall in Hx. rewrite filter_app, filter_none.
  - rewrite filter_cons, decide_False by (simpl; rewrite not_true_iff_false, Z.ltb_ge; lia).
    apply filter_every. intros o Ho. apply Z.ltb_lt. by apply Hx.
  - intros o Ho. specialize (H3 o x Ho ltac:(by left)). unfold index_lt in H3. simpl. rewrite not_true_iff_false, Z.ltb_ge. lia.
Qed.

Lemma fetch_pages_spec n : ∀ number after pre b,
  all = pre ++ after_cursor after →
  (number = 0%nat ∨ bk_network b = net ∧ bk_latest b = latest) →
  (0 < n)%nat →
  fetch_pages (λ _ a, Answered (keyset_page a)) n number after b = Some (Book net latest (bk_orders b ++ take (n * limit) (after_cursor after))).
Proof.
  induction n as [|n IH]; intros number after pre b Hall Hb Hn; [lia|]. cbn [fetch_pages].
  set (rest := after_cursor after) in *. set (b1 := if (number =? 0)%nat then _ else b).
  assert (E1 : bk_network b1 = net ∧ bk_latest b1 = latest ∧ bk_orders b1 = bk_orders b).
  { unfold b1. destruct Hb as [->|[? ?]]; [done|]. destruct (number =? 0)%nat; done. }
  destruct E1 as (-> & -> & ->). unfold keyset_page. fold rest. cbn [pg_orders pg_truncated pg_next].
  case_bool_decide as Hl; cbn [negb].
  2: { rewrite !take_ge; [done|lia..]. }
  assert (Hs : StronglySorted index_lt rest) by by apply sorted_filter.
  assert (Hsp : StronglySorted index_lt (take limit rest)) by (rewrite <-(take_drop limit rest) in Hs; by destruct (sorted_app_inv _ _ Hs)).
  assert (Hm : match (if cursor then Some (max_index (take limit rest)) else None) with Some c => c | None => max_index (take limit rest) end = max_index (take limit rest)) by by destruct cursor.
  rewrite Hm, max_index_last by done.
  destruct (last (take limit rest)) as [x|] eqn:Ex.
  2: { apply last_None in Ex. apply (f_equal length) in Ex. rewrite length_take in Ex. simpl in Ex. lia. }
  cbn [fmap option_fmap option_map]. apply last_Some in Ex as [p Ep].
  assert (Hx : x ∈ rest) by (rewrite <-(take_drop limit rest), Ep; set_solver).
  assert (Hd : after_cursor (Some (action_index x)) = drop limit rest).
  { apply (after_split (pre ++ p)). rewrite Hall at 1. rewrite <-(take_drop limit rest) at 1. rewrite Ep, <-!app_assoc. done. }
  replace (match after with Some a => _ | None => false end) with false.
  2: { destruct after as [a|]; [|done]. apply list_elem_of_filter in Hx as [Hx _]. symmetry. apply Z.leb_gt, Z.ltb_lt, Hx. }
  destruct n as [|n].
  { cbn [fetch_pages]. by rewrite Nat.mul_1_l. }
  rewrite (IH _ _ (pre ++ take limit rest)); [|..|lia].
  - cbn [bk_orders]. rewrite Hd, <-app_assoc, take_take_drop. done.
  - by rewrite Hd, <-app_assoc, take_drop.
  - by right.
Qed.

(** Paging a book. Against an indexer that answers every request with the next
    orders in index order, [fetchOpenOffers] ends and returns the first forty pages'
    worth of the book, in order and with nothing dropped or repeated: the whole
    book whenever it has no more orders than that, with or without a cursor in the
    answers. *)
Theorem paging_complete :
  fetchOpenOffers (λ _ after, Answered (keyset_page after)) = Some (Book net latest (take (MAX_PAGES * limit) all)).
Proof.
  unfold fetchOpenOffers. rewrite (fetch_pages_spec MAX_PAGES 0 None []).
  - unfold after_cursor. rewrite filter_every by done. done.
  - unfold after_cursor. by rewrite filter_every.
  - by left.
  - unfold MAX_PAGES. lia.
Qed.
End Paging.
