(* ===== verification/DexFill.v ===== *)
(** * What a fill can take

    The arithmetic of the matcher on offers whose amounts are whole numbers of
    their tick's base units: the ledger's texts, the remaining capacity, the clamp
    and its rounding. A pass never takes more from an offer than is left of it. *)

From Stdlib Require Import QArith Qround Qabs Lqa.
From S2P Require Import Prelude GateRegistry BigNum BcMath Json AttestWire OracleBand Admission DexOffer DexMatch DexProps.
Open Scope Z_scope.

(** [q] on a finer grid is on the coarser one when the steps divide. *)
Lemma on_grid_coarsen k j q z : (k ≤ j)%nat → on_grid j q (z * 10 ^ Z.of_nat (j - k)) → on_grid k q z.
Proof.
  unfold on_grid. intros Hk ->. unfold Qeq. cbn [Qnum Qden]. rewrite !pow10_pos.
  rewrite <-Z.mul_assoc, <-Z.pow_add_r by lia. do 2 f_equal. lia.
Qed.

Lemma on_grid_le k p q x y : on_grid k p x → on_grid k q y → (p <= q)%Q ↔ x ≤ y.
Proof. unfold on_grid. intros -> ->. unfold Qle. cbn [Qnum Qden]. split; intros; nia. Qed.

(** ** The error of the clamp *)

(** The relative error of one operation, and the absolute one of a 64-decimal text. *)
Definition eps : Q := 1 # pow10 63.
Definition half64 : Q := 1 # 2 * pow10 64.

Lemma eps_small : (0 <= eps)%Q ∧ (eps <= 1 # 10)%Q.
Proof. split; by vm_compute. Qed.

Lemma Qfloor_below q n : (q < inject_Z (n + 1))%Q → Qfloor q ≤ n.
Proof. intros H. pose proof (Qfloor_le q). assert (Hl : (inject_Z (Qfloor q) < inject_Z (n + 1))%Q) by lra. rewrite <-Zlt_Qlt in Hl. lia. Qed.

Lemma Qfloor_above q n : (inject_Z n <= q)%Q → n ≤ Qfloor q.
Proof. intros H. rewrite <-(Qfloor_Z n). by apply Qfloor_resp_le. Qed.

Lemma close_nonneg v q : (0 <= q)%Q → (Qabs (v - q) <= Qabs q * eps)%Q → (0 <= v)%Q ∧ (v <= q * (1 + eps))%Q.
Proof.
  intros Hq H. rewrite (Qabs_pos q) in H by done. apply Qabs_Qle_condition in H as [H1 H2]. destruct eps_small as [He1 He2].
  assert (0 <= q * (1 - eps))%Q by (apply Qmult_le_0_compat; lra). split; lra.
Qed.

(** What the taker receives when its whole give side is taken, at prices that are
    each off by their own rounding. *)
Lemma clamp_error (Mg Mt r i inv ask gfg get e h : Q) :
  (0 <= Mg)%Q → (0 <= Mt)%Q → (0 <= r)%Q → (0 <= i)%Q → (i * r == 1)%Q → (0 <= e)%Q → (e <= 1 # 10)%Q → (0 <= h)%Q →
  (inv <= i * (1 + e) + h)%Q → (gfg <= Mt * inv * (1 + e) + h)%Q → (Mg <= gfg)%Q →
  (ask <= r * (1 + e) + h)%Q → (get <= Mg * ask * (1 + e) + h)%Q →
  (get <= Mt * (1 + 9 * e) + 2 * ((2 * Mt + 1) * (h * r)) + (2 * Mg + 1) * h)%Q.
Proof.
  intros HMg HMt Hr Hi Hir He He1 Hh Hinv Hgfg Hle Hask Hget.
  assert (H1 : (Mg <= Mt * i * ((1 + e) * (1 + e)) + (2 * Mt + 1) * h)%Q).
  { assert (Mt * inv <= Mt * (i * (1 + e) + h))%Q by (rewrite !(Qmult_comm Mt); by apply Qmult_le_compat_r).
    assert (Mt * inv * (1 + e) <= Mt * (i * (1 + e) + h) * (1 + e))%Q by (apply Qmult_le_compat_r; lra).
    assert (Mt * h * (1 + e) <= Mt * h * 2)%Q by (rewrite !(Qmult_comm (Mt * h)); apply Qmult_le_compat_r; [lra|by apply Qmult_le_0_compat]).
    lra. }
  assert (H2 : (Mg * r <= Mt * ((1 + e) * (1 + e)) + (2 * Mt + 1) * (h * r))%Q).
  { apply (Qmult_le_compat_r _ _ r) in H1; [|done].
    assert (E : ((Mt * i * ((1 + e) * (1 + e)) + (2 * Mt + 1) * h) * r == Mt * ((1 + e) * (1 + e)) * (i * r) + (2 * Mt + 1) * (h * r))%Q) by ring.
    rewrite Hir in E. lra. }
  assert (H3 : (Mg * ask * (1 + e) <= Mg * r * ((1 + e) * (1 + e)) + Mg * h * (1 + e))%Q).
  { assert (Mg * ask <= Mg * (r * (1 + e) + h))%Q by (rewrite !(Qmult_comm Mg); by apply Qmult_le_compat_r).
    assert (Mg * ask * (1 + e) <= Mg * (r * (1 + e) + h) * (1 + e))%Q by (apply Qmult_le_compat_r; lra). lra. }
  assert (H4 : (Mg * h * (1 + e) <= Mg * h * 2)%Q) by (rewrite !(Qmult_comm (Mg * h)); apply Qmult_le_compat_r; [lra|by apply Qmult_le_0_compat]).
  assert (Hee : (e * e <= (1 # 10) * e)%Q) by (by apply Qmult_le_compat_r).
  assert (Hq : (0 <= (1 + e) * (1 + e))%Q) by (apply Qmult_le_0_compat; lra).
  assert (H5 : (Mg * r * ((1 + e) * (1 + e)) <= (Mt * ((1 + e) * (1 + e)) + (2 * Mt + 1) * (h * r)) * ((1 + e) * (1 + e)))%Q) by (by apply Qmult_le_compat_r).
  assert (Hs2 : ((1 + e) * (1 + e) <= 2)%Q) by lra.
  assert (Hx : (0 <= (2 * Mt + 1) * (h * r))%Q) by (apply Qmult_le_0_compat; [lra|by apply Qmult_le_0_compat]).
  assert (H6 : ((2 * Mt + 1) * (h * r) * ((1 + e) * (1 + e)) <= (2 * Mt + 1) * (h * r) * 2)%Q) by (rewrite !(Qmult_comm ((2 * Mt + 1) * (h * r))); by apply Qmult_le_compat_r).
  assert (Hs4 : ((1 + e) * (1 + e) * ((1 + e) * (1 + e)) <= 1 + 9 * e)%Q).
  { assert ((1 + e) * (1 + e) * ((1 + e) * (1 + e)) <= (1 + 3 * e) * ((1 + e) * (1 + e)))%Q by (apply Qmult_le_compat_r; lra).
    assert ((1 + 3 * e) * ((1 + e) * (1 + e)) <= (1 + 3 * e) * (1 + 3 * e))%Q by (rewrite !(Qmult_comm (1 + 3 * e)); apply Qmult_le_compat_r; lra). lra. }
  assert (H7 : (Mt * ((1 + e) * (1 + e) * ((1 + e) * (1 + e))) <= Mt * (1 + 9 * e))%Q) by (rewrite !(Qmult_comm Mt); by apply Qmult_le_compat_r).
  lra.
Qed.

Section Fill.
Context {B : BigNumber} {W : BigNumberLaws B}.

(** A decimal text of [z] steps of [10^-k]. *)
Definition text_steps (k : nat) (s : string) (z : Z) : Prop := Decimal.is_decimal s = true ∧ on_grid k (Decimal.value s) z.

Lemma text_steps_zero k : text_steps k "0" 0.
Proof. split; [done|]. apply on_grid_zero. Qed.

Lemma text_bignumber k s z : text_steps k s z → steps k (bignumber s) z.
Proof. intros [Hd Hv]. unfold steps, on_grid in *. by rewrite bignumber_val. Qed.

Lemma text_bcnum k s z : text_steps k s z → steps k (bcnum s) z.
Proof. intros H. rewrite bcnum_decimal by apply H. by apply text_bignumber. Qed.

Lemma toFixed_text k x z : steps k x z → text_steps k (bn_toFixed x) z.
Proof. intros H. split; [apply bn_toFixed_decimal|]. unfold steps, on_grid in *. by rewrite (bn_toFixed_val x k z). Qed.

Lemma bcstr_text k s z : text_steps k s z → text_steps k (bcstr s) z.
Proof. intros H. by apply toFixed_text, text_bcnum. Qed.

Lemma text_steps_inj k s x y : text_steps k s x → text_steps k s y → x = y.
Proof. intros [_ Hx] [_ Hy]. apply Z.compare_eq. rewrite <-(on_grid_cmp k _ _ _ _ Hx Hy). apply Qeq_alt. reflexivity. Qed.

(** A format to at least as many decimals keeps the value. *)
Lemma reread_keeps k d (x : bn) z : (k ≤ d)%nat → steps k x z → steps k (bcnum (bn_format d x)) z.
Proof. intros Hk Hx. eapply on_grid_coarsen; [exact Hk|]. by apply format_steps. Qed.

Lemma adjust_text k (plus : bool) cur amt x y :
  (k ≤ 60)%nat → text_steps k cur x → text_steps k amt y → Z.abs x + Z.abs y < 10 ^ 64 →
  text_steps k (adjust plus cur amt) (if plus then x + y else x - y).
Proof.
  intros Hk Hx Hy Hb. apply text_bignumber in Hx, Hy. unfold adjust. apply toFixed_text.
  destruct plus; (apply reread_keeps; [lia|]); [apply steps_add|apply steps_sub]; try done; lia.
Qed.

Lemma left_of_text k full taken x y :
  (k ≤ 60)%nat → text_steps k full x → text_steps k taken y → Z.abs x + Z.abs y < 10 ^ 64 →
  text_steps k (left_of (Some full) taken) (Z.max 0 (x - y)).
Proof.
  intros Hk Hx Hy Hb. unfold left_of. destruct full as [|c full]; [by destruct Hx|].
  assert (Hs : steps k (bcsub (bignumber (String c full)) (bignumber taken) 64) (x - y)).
  { apply reread_keeps; [lia|]. apply steps_sub; [done|by apply text_bignumber|by apply text_bignumber|lia]. }
  unfold bclt. rewrite (steps_lt k _ _ _ 0 Hs) by (apply text_bcnum, text_steps_zero).
  destruct (x - y <? 0) eqn:E; bools.
  - rewrite Z.max_l by lia. apply text_steps_zero.
  - rewrite Z.max_r by lia. by apply toFixed_text.
Qed.

Lemma not_positive_text k s z : text_steps k s z → not_positive s = (z <=? 0).
Proof. intros H. unfold not_positive, bclte. apply (steps_lte k); [by apply text_bcnum|apply text_bcnum, text_steps_zero]. Qed.

Lemma bclt_text k s t x y : text_steps k s x → text_steps k t y → bclt (bcnum s) (bcnum t) = (x <? y).
Proof. intros Hs Ht. apply (steps_lt k); by apply text_bcnum. Qed.

(** [bcround] to the grid of [d] decimals. *)
Lemma bn_pow10_steps d : (d ≤ 18)%nat → steps 0 (bn_pow10 d) (10 ^ Z.of_nat d).
Proof.
  induction d as [|d IH]; intros Hd; [by apply (steps_literal "1" 1 0)|].
  cbn [bn_pow10]. assert (H10 : steps 0 (bignumber "10") 10) by by apply (steps_literal "10" 10 0).
  assert (10 ^ Z.of_nat d ≤ 10 ^ 18) by (apply Z.pow_le_mono_r; lia).
  rewrite Nat2Z.inj_succ, Z.pow_succ_r by lia. rewrite Z.mul_comm.
  apply (steps_mul_int 0 (bignumber "10") (bn_pow10 d) 10 (10 ^ Z.of_nat d)); [lia|done|apply IH; lia|lia].
Qed.

Lemma bcround_upper d x m :
  (d ≤ 18)%nat → 0 ≤ m < 10 ^ 22 → (0 <= bn_val x)%Q → (bn_val x * (Zpos (pow10 d) # 1) <= inject_Z m + (1 # 4))%Q →
  ∃ n, 0 ≤ n ≤ m ∧ steps d (bcround x d) n.
Proof.
  intros Hd Hm Hx0 Hx. pose proof (bn_pow10_steps d Hd) as HP. unfold steps, on_grid in HP. change (pow10 0) with 1%positive in HP.
  rewrite <-pow10_pos in HP. set (P := (Zpos (pow10 d) # 1)%Q) in *. set (p := bn_mul x (bn_pow10 d)).
  assert (Hpos : (0 <= bn_val x * bn_val (bn_pow10 d))%Q) by (rewrite HP; by apply Qmult_le_0_compat).
  destruct (close_nonneg (bn_val p) _ Hpos (bn_mul_close x (bn_pow10 d))) as [Hp0 Hp]. rewrite HP in Hp.
  assert (Hh : (bn_val (bignumber "0.5") == 1 # 2)%Q) by (rewrite bignumber_val by done; reflexivity).
  assert (Hsum : (0 <= bn_val p + bn_val (bignumber "0.5"))%Q) by (rewrite Hh; lra).
  destruct (close_nonneg _ _ Hsum (bn_add_close p (bignumber "0.5"))) as [Hs0 Hs]. rewrite Hh in Hs. set (s := bn_val (bn_add p (bignumber "0.5"))) in *.
  destruct eps_small as [He0 He1].
  assert (Hbig : (eps * (inject_Z m + 1) <= 1 # 100)%Q).
  { assert (inject_Z m <= inject_Z (10 ^ 22))%Q by (rewrite <-Zle_Qle; lia). rewrite Qmult_comm.
    assert ((inject_Z m + 1) * eps <= (inject_Z (10 ^ 22) + 1) * eps)%Q by (apply Qmult_le_compat_r; lra).
    assert ((inject_Z (10 ^ 22) + 1) * eps <= 1 # 100)%Q by by vm_compute. lra. }
  assert (Hfl : 0 ≤ Qfloor s ≤ m).
  { split; [by apply Qfloor_above|]. apply Qfloor_below. rewrite inject_Z_plus.
    assert (bn_val x * P * (1 + eps) <= (inject_Z m + (1 # 4)) * (1 + eps))%Q by (apply Qmult_le_compat_r; lra).
    assert ((bn_val p + (1 # 2)) * (1 + eps) <= ((inject_Z m + (1 # 4)) * (1 + eps) + (1 # 2)) * (1 + eps))%Q by (apply Qmult_le_compat_r; lra).
    assert (0 <= inject_Z m)%Q by (change 0%Q with (inject_Z 0); rewrite <-Zle_Qle; lia).
    assert (Hee : (eps * (eps * (inject_Z m + 1)) <= eps * (1 # 100))%Q) by (rewrite !(Qmult_comm eps); apply Qmult_le_compat_r; [rewrite Qmult_comm; done|done]).
    assert (0 <= eps * eps)%Q by (by apply Qmult_le_0_compat). change (inject_Z 1) with 1%Q. lra. }
  exists (Qfloor s). split; [done|]. unfold bcround. fold p. apply reread_keeps; [done|].
  assert (Hq : on_grid d (bn_val (bn_floor (bn_add p (bignumber "0.5"))) / bn_val (bn_pow10 d)) (Qfloor s)).
  { unfold on_grid. rewrite bn_floor_val, HP. fold s. unfold P, Qeq, Qdiv, Qinv, Qmult. cbn [Qnum Qden]. lia. }
  unfold steps, on_grid. rewrite bn_div_val; [exact Hq| |exists d, (Qfloor s); split_and!; [lia|lia|done]].
  rewrite HP. unfold P, Qeq. cbn [Qnum Qden]. lia.
Qed.

(** A 64-decimal text is off by at most half of its last digit. *)
Lemma reread64 (x : bn) q :
  (0 <= q)%Q → (Qabs (bn_val x - q) <= Qabs q * eps)%Q →
  (0 <= bn_val (bcnum (bn_format 64 x)))%Q ∧ (bn_val (bcnum (bn_format 64 x)) <= q * (1 + eps) + half64)%Q.
Proof.
  intros Hq Hc. destruct (close_nonneg _ _ Hq Hc) as [Hv0 Hv]. pose proof (reread_steps 64 x) as H.
  unfold steps, on_grid in H. rewrite H. rewrite round_steps_nonneg by done. set (f := (bn_val x * (Zpos (pow10 64) # 1) + (1 # 2))%Q).
  assert (Hf0 : 0 ≤ Qfloor f).
  { apply Qfloor_above. unfold f. change (inject_Z 0) with 0%Q.
    assert (0 <= bn_val x * (Zpos (pow10 64) # 1))%Q by (by apply Qmult_le_0_compat). lra. }
  split; [unfold Qle; cbn [Qnum Qden]; lia|]. eapply Qle_trans; [|apply Qplus_le_l; exact Hv].
  assert (Hinv : (0 <= 1 # pow10 64)%Q) by done.
  assert (E : (Qfloor f # pow10 64 == inject_Z (Qfloor f) * (1 # pow10 64))%Q) by (unfold Qeq, Qmult, inject_Z; cbn [Qnum Qden]; lia).
  rewrite E. eapply Qle_trans; [apply Qmult_le_compat_r; [apply Qfloor_le|done]|]. unfold f, half64.
  assert (E2 : ((bn_val x * (Zpos (pow10 64) # 1) + (1 # 2)) * (1 # pow10 64) == bn_val x + (1 # 2 * pow10 64))%Q).
  { unfold Qeq, Qplus, Qmult. cbn [Qnum Qden]. rewrite !Pos2Z.inj_mul. ring. }
  rewrite E2. lra.
Qed.

Lemma bcmul_upper a b :
  (0 <= bn_val a)%Q → (0 <= bn_val b)%Q →
  (0 <= bn_val (bcmul a b 64))%Q ∧ (bn_val (bcmul a b 64) <= bn_val a * bn_val b * (1 + eps) + half64)%Q.
Proof. intros Ha Hb. apply reread64; [by apply Qmult_le_0_compat|apply bn_mul_close]. Qed.

Lemma getPrice_upper a b :
  (0 <= bn_val a)%Q → (0 < bn_val b)%Q →
  (0 <= bn_val (getPrice a b))%Q ∧ (bn_val (getPrice a b) <= bn_val a / bn_val b * (1 + eps) + half64)%Q.
Proof.
  intros Ha Hb. assert (Hne : ¬ (bn_val b == 0)%Q) by (intros E; rewrite E in Hb; by apply Qlt_irrefl in Hb). unfold getPrice, bcdiv, is_zero.
  rewrite bn_cmp_val. assert (Hz : (bn_val zero == 0)%Q) by (unfold zero; rewrite bignumber_val by done; reflexivity). rewrite Hz.
  destruct (bn_val b ?= 0)%Q eqn:E; [by apply Qeq_alt in E| |]; (apply reread64; [|by apply bn_div_close]);
    (apply Qmult_le_0_compat; [done|apply Qinv_le_0_compat; lra]).
Qed.

(** A number of steps as a rational. *)
Lemma steps_scaled k a z : steps k a z → (bn_val a * (Zpos (pow10 k) # 1) == inject_Z z)%Q.
Proof. unfold steps, on_grid. intros ->. unfold Qeq, Qmult, inject_Z. cbn [Qnum Qden]. rewrite Pos2Z.inj_mul. ring. Qed.

Lemma steps_nonneg k a z : steps k a z → 0 ≤ z → (0 <= bn_val a)%Q.
Proof. apply on_grid_nonneg. Qed.

(** At most the number of steps. *)
Lemma steps_le_int k a z : steps k a z → 0 ≤ z → (bn_val a <= inject_Z z)%Q.
Proof.
  unfold steps, on_grid. intros -> Hz. unfold Qle, inject_Z. cbn [Qnum Qden].
  assert (1 ≤ Zpos (pow10 k)) by lia. nia.
Qed.

Lemma pow10_le_18 k : (k ≤ 18)%nat → (Zpos (pow10 k) # 1 <= inject_Z (10 ^ 18))%Q.
Proof. intros H. rewrite pow10_pos. change (10 ^ Z.of_nat k # 1)%Q with (inject_Z (10 ^ Z.of_nat k)). rewrite <-Zle_Qle. apply Z.pow_le_mono_r; lia. Qed.

(** The quotient of two amounts, scaled to its numerator's grid. *)
Lemma ratio_bound k1 k2 a b x y :
  (k1 ≤ 18)%nat → steps k2 a x → steps k1 b y → 0 ≤ x < 10 ^ 22 → 0 < y →
  (bn_val a / bn_val b * (Zpos (pow10 k2) # 1) <= inject_Z (10 ^ 40))%Q.
Proof.
  intros Hk Ha Hb Hx Hy. pose proof (pow10_le_18 k1 Hk) as H18.
  assert (E : (bn_val a / bn_val b * (Zpos (pow10 k2) # 1) == inject_Z x * (Zpos (pow10 k1) # Z.to_pos y))%Q).
  { unfold steps, on_grid in *. rewrite Ha, Hb. destruct y as [|y|y]; [lia| |lia]. unfold Qeq, Qdiv, Qinv, Qmult, inject_Z. cbn [Qnum Qden Z.to_pos].
    rewrite !Pos2Z.inj_mul. ring. }
  rewrite E. unfold Qle, Qmult, inject_Z in *. cbn [Qnum Qden] in *. rewrite !Z.mul_1_r in *.
  assert (1 ≤ Zpos (Z.to_pos y)) by lia. rewrite Pos.mul_1_l in *. nia.
Qed.

Lemma final_bound Mg Mt h r P e (mt : Z) get :
  (0 <= Mg)%Q → (Mg <= inject_Z (10 ^ 22))%Q → (0 <= Mt)%Q → (Mt <= inject_Z (10 ^ 22))%Q → (Mt * P == inject_Z mt)%Q → 0 ≤ mt < 10 ^ 22 →
  (0 <= P)%Q → (P <= inject_Z (10 ^ 18))%Q → (0 <= r)%Q → (r * P <= inject_Z (10 ^ 40))%Q → (h == half64)%Q → (e == eps)%Q →
  (get <= Mt * (1 + 9 * e) + 2 * ((2 * Mt + 1) * (h * r)) + (2 * Mg + 1) * h)%Q → (get * P <= inject_Z mt + (1 # 4))%Q.
Proof.
  intros HMg HMg' HMt HMt' HP Hmt HP0 HP' Hr HrP Hh He Hget. rewrite Hh, He in Hget. clear Hh He.
  assert (Hm : (inject_Z mt <= inject_Z (10 ^ 22))%Q) by (rewrite <-Zle_Qle; lia).
  destruct eps_small as [He0 _]. assert (Hh0 : (0 <= half64)%Q) by done.
  assert (Ha : (inject_Z mt * eps <= inject_Z (10 ^ 22) * eps)%Q) by (by apply Qmult_le_compat_r).
  assert (Hb : ((2 * Mt + 1) * (half64 * (r * P)) <= (2 * inject_Z (10 ^ 22) + 1) * (half64 * inject_Z (10 ^ 40)))%Q).
  { apply Qmult_le_compat_nonneg; split; [lra|lra|apply Qmult_le_0_compat; [done|by apply Qmult_le_0_compat]|].
    rewrite !(Qmult_comm half64). by apply Qmult_le_compat_r. }
  assert (Hc : ((2 * Mg + 1) * (half64 * P) <= (2 * inject_Z (10 ^ 22) + 1) * (half64 * inject_Z (10 ^ 18)))%Q).
  { apply Qmult_le_compat_nonneg; split; [lra|lra|by apply Qmult_le_0_compat|]. rewrite !(Qmult_comm half64). by apply Qmult_le_compat_r. }
  assert (K1 : (inject_Z (10 ^ 22) * eps <= 1 # 1000)%Q) by by vm_compute.
  assert (K2 : ((2 * inject_Z (10 ^ 22) + 1) * (half64 * inject_Z (10 ^ 40)) <= 11 # 1000)%Q) by by vm_compute.
  assert (K3 : ((2 * inject_Z (10 ^ 22) + 1) * (half64 * inject_Z (10 ^ 18)) <= 1 # 1000)%Q) by by vm_compute.
  apply (Qmult_le_compat_r _ _ P) in Hget; [|done].
  assert (E : ((Mt * (1 + 9 * eps) + 2 * ((2 * Mt + 1) * (half64 * r)) + (2 * Mg + 1) * half64) * P ==
    (Mt * P) * (1 + 9 * eps) + 2 * ((2 * Mt + 1) * (half64 * (r * P))) + (2 * Mg + 1) * (half64 * P))%Q) by ring.
  rewrite E, HP in Hget. lra.
Qed.

(** ** The clamp *)

Lemma min_text k s t x y :
  text_steps k s x → text_steps k t y → text_steps k (if bclt (bcnum s) (bcnum t) then s else t) (Z.min x y).
Proof.
  intros Hs Ht. rewrite (bclt_text k s t x y) by done. destruct (x <? y) eqn:E; bools; [rewrite Z.min_l by lia|rewrite Z.min_r by lia]; done.
Qed.

(** A quantity at most [m] steps up to a quarter of a step. *)
Definition about (k : nat) (x : bn) (m : Z) : Prop :=
  (0 <= bn_val x)%Q ∧ (bn_val x * (Zpos (pow10 k) # 1) <= inject_Z m + (1 # 4))%Q.

Lemma steps_about k x m : steps k x m → 0 ≤ m → about k x m.
Proof. intros H Hm. split; [by eapply steps_nonneg|]. rewrite (steps_scaled k x m H). lra. Qed.

Lemma bcgt_val a b : bcgt a b = true ↔ (bn_val b < bn_val a)%Q.
Proof.
  unfold bcgt, bn_gt. rewrite bn_cmp_val. pose proof (Qgt_alt (bn_val a) (bn_val b)) as H.
  destruct (bn_val a ?= bn_val b)%Q; split; try done; intros Hl; [by apply H in Hl..|by apply H].
Qed.

Lemma clamp_within (p : pricing) k1 k2 G T mg mv tg tt :
  (k1 ≤ 18)%nat → (k2 ≤ 18)%nat →
  steps k1 (amount (give_amount (taker p))) G → steps k2 (amount (get_amount (taker p))) T →
  0 < G < 10 ^ 22 → 0 < T < 10 ^ 22 →
  text_steps k1 (r_give (takerRem p)) tg → text_steps k2 (r_get (takerRem p)) tt →
  text_steps k1 (r_get (makerRem p)) mg → text_steps k2 (r_give (makerRem p)) mv →
  0 ≤ tg < 10 ^ 22 → 0 ≤ tt < 10 ^ 22 → 0 ≤ mg < 10 ^ 22 → 0 ≤ mv < 10 ^ 22 →
  about k1 (clampFill p).1 (Z.min mg tg) ∧ about k2 (clampFill p).2 (Z.min mv tt).
Proof.
  intros Hk1 Hk2 HG HT BG BT Htg Htt Hmg Hmv Rtg Rtt Rmg Rmv. unfold clampFill.
  pose proof (min_text k1 _ _ _ _ Hmg Htg) as Hx. pose proof (min_text k2 _ _ _ _ Hmv Htt) as Hy.
  set (max_give := if bclt (bcnum (r_get (makerRem p))) _ then _ else _) in *.
  set (max_get := if bclt (bcnum (r_give (makerRem p))) _ then _ else _) in *.
  pose proof (text_bcnum _ _ _ Hx) as HMg. pose proof (text_bignumber _ _ _ Hx) as HMg'.
  pose proof (text_bcnum _ _ _ Hy) as HMt. pose proof (text_bignumber _ _ _ Hy) as HMt'.
  set (Mg := Z.min mg tg) in *. set (Mt := Z.min mv tt) in *.
  assert (PG : (0 < bn_val (amount (give_amount (taker p))))%Q).
  { unfold steps, on_grid in HG. rewrite HG. unfold Qlt. cbn [Qnum Qden]. lia. }
  assert (PT : (0 < bn_val (amount (get_amount (taker p))))%Q).
  { unfold steps, on_grid in HT. rewrite HT. unfold Qlt. cbn [Qnum Qden]. lia. }
  set (g := amount (give_amount (taker p))) in *. set (t := amount (get_amount (taker p))) in *.
  destruct (getPrice_upper g t (Qlt_le_weak _ _ PG) PT) as [Hinv0 Hinv]. destruct (getPrice_upper t g (Qlt_le_weak _ _ PT) PG) as [Hask0 Hask].
  unfold inverseAskOf, askOf. fold g t. set (inv := getPrice g t) in *. set (ask := getPrice t g) in *.
  assert (HMt0 : (0 <= bn_val (bignumber max_get))%Q) by (eapply steps_nonneg; [exact HMt'|lia]).
  assert (HMg0 : (0 <= bn_val (bignumber max_give))%Q) by (eapply steps_nonneg; [exact HMg'|lia]).
  destruct (bcmul_upper _ _ HMt0 Hinv0) as [Hg0 Hgfg]. set (gfg := bcmul (bignumber max_get) inv 64) in *.
  destruct (bcgt gfg (bcnum max_give)) eqn:E; cbn [fst snd].
  - apply bcgt_val in E. split; [apply steps_about; [done|lia]|].
    destruct (bcmul_upper _ _ HMg0 Hask0) as [Hr0 Hget]. split; [done|].
    assert (Emg : (bn_val (bcnum max_give) == bn_val (bignumber max_give))%Q) by (unfold steps, on_grid in HMg, HMg'; by rewrite HMg, HMg').
    rewrite Emg in E.
    assert (Hir : (bn_val g / bn_val t * (bn_val t / bn_val g) == 1)%Q) by (field; split; by apply Qnot_eq_sym, Qlt_not_eq).
    assert (Hr : (0 <= bn_val t / bn_val g)%Q) by (apply Qmult_le_0_compat; [lra|apply Qinv_le_0_compat; lra]).
    assert (Hi : (0 <= bn_val g / bn_val t)%Q) by (apply Qmult_le_0_compat; [lra|apply Qinv_le_0_compat; lra]).
    destruct eps_small as [He0 He1]. assert (Hh : (0 <= half64)%Q) by done.
    pose proof (clamp_error _ _ _ _ _ _ _ _ eps half64 HMg0 HMt0 Hr Hi Hir He0 He1 Hh Hinv Hgfg (Qlt_le_weak _ _ E) Hask Hget) as Hc.
    assert (Hbig : ∀ k a z, steps k a z → 0 ≤ z < 10 ^ 22 → (bn_val a <= inject_Z (10 ^ 22))%Q).
    { intros k a z Ha Hz. eapply Qle_trans; [apply (steps_le_int k a z); [done|lia]|]. rewrite <-Zle_Qle. lia. }
    apply (final_bound (bn_val (bignumber max_give)) (bn_val (bignumber max_get)) half64 (bn_val t / bn_val g) _ eps Mt); try done;
      [apply (Hbig k1 _ Mg); [done|lia]|apply (Hbig k2 _ Mt); [done|lia]|by apply steps_scaled|lia|by apply pow10_le_18|].
    apply (ratio_bound k1 k2 t g T G); [done|done|done|lia|lia].
  - split; [|apply steps_about; [done|lia]]. split; [done|].
    assert (Hle : (bn_val gfg <= bn_val (bcnum max_give))%Q).
    { apply Qnot_lt_le. intros Hlt. apply bcgt_val in Hlt. congruence. }
    apply (Qmult_le_compat_r _ _ (Zpos (pow10 k1) # 1)) in Hle; [|done]. rewrite (steps_scaled k1 _ Mg HMg) in Hle. lra.
Qed.
End Fill.
