(* ===== verification/DexTrade.v ===== *)
(** * Trading never takes more than an offer escrowed

    The committed ledger along the rounds of a hub: a pass derives its matches from
    the ledger of the moment, each is proposed, and it is credited only when its
    round finalizes. The amounts an offer gives stay within what it offered as long
    as no second round over it is opened while one is undecided. Then the
    price test between two offers: its two limit prices are quotients rounded to 64
    digits and then to 64 decimals, and on offers below [10^22] base units it is
    still the comparison of the exact products of the amounts, ties included. *)

From Stdlib Require Import QArith Qround Qabs Lqa.
From S2P Require Import Prelude GateRegistry BigNum BcMath Json AttestWire OracleBand Admission DexOffer DexMatch DexRow DexProps DexFill.
Open Scope Z_scope.

(** The row of a match as [applyCommit] reads it ([buildMatchRow]'s two legs). *)
Definition fills_of (d : desc) : fills :=
  Fills (home_coin (lo d)) (action_index (lo d)) (loFill d) (home_coin (hi d)) (action_index (hi d)) (hiFill d).

Section Trade.
Context {B : BigNumber} {W : BigNumberLaws B} (reg : Gate.registry).
(** The decimals of every tick, by coin and tick. *)
Context (grid : string → string → nat).

Definition give_grid (o : offer) : nat := grid (give_coin o) (give_tick o).
Definition get_grid (o : offer) : nat := grid (get_coin o) (get_tick o).

(** Both amounts are positive whole numbers of base units below [10^22], and the
    indexer reports the tick's decimals. *)
Record priced_on (o : offer) (G T : Z) : Prop := {
  po_give : ∃ s, give_amount o = Some s ∧ text_steps (give_grid o) s G;
  po_get : ∃ s, get_amount o = Some s ∧ text_steps (get_grid o) s T;
  po_G : 0 < G < 10 ^ 22; po_T : 0 < T < 10 ^ 22;
  po_decimals : give_decimals o = Some (Z.of_nat (give_grid o));
  po_give18 : (give_grid o ≤ 18)%nat; po_get18 : (get_grid o ≤ 18)%nat }.

(** [c] base units given and [r] received so far. *)
Definition entry_steps (L : ledger) (o : offer) (c r : Z) : Prop :=
  text_steps (give_grid o) (l_give (committedFor L o)) c ∧ text_steps (get_grid o) (l_get (committedFor L o)) r.

Lemma mirrored_grids a b : mirrored a b = true → give_grid a = get_grid b ∧ get_grid a = give_grid b.
Proof.
  unfold mirrored, give_grid, get_grid. intros H. bools.
  repeat match goal with H : String.eqb _ _ = true |- _ => apply String.eqb_eq in H end. split; congruence.
Qed.

Lemma giveDecimals_grid o G T : priced_on o G T → giveDecimals o = Some (give_grid o).
Proof.
  intros H. destruct H. unfold giveDecimals. rewrite po_decimals0.
  rewrite (proj2 (Z.ltb_ge _ _)), (proj2 (Z.ltb_ge _ _)) by lia. cbn [orb]. by rewrite Nat2Z.id.
Qed.

Lemma amount_of k s z : text_steps k s z → amount (Some s) = bignumber s.
Proof. intros [H _]. destruct s; [discriminate H|done]. Qed.

(** What is left of an offer. *)
Lemma remaining_steps L o G T c r :
  priced_on o G T → entry_steps L o c r → 0 ≤ c ≤ 10 ^ 23 → 0 ≤ r ≤ 10 ^ 23 →
  text_steps (give_grid o) (r_give (effectiveRemaining L o)) (Z.max 0 (G - c)) ∧
  text_steps (get_grid o) (r_get (effectiveRemaining L o)) (Z.max 0 (T - r)).
Proof.
  intros [(sg & Eg & Hg) (st & Et & Ht) BG BT _ H1 H2] [Hc Hr] Rc Rr. unfold effectiveRemaining. cbn [r_give r_get].
  rewrite Eg, Et. split; apply left_of_text; (done || lia).
Qed.

(** The fills of a maker and a taker. *)
Lemma pricing_fills L m t own p Gm Tm Gt Tt cm rm ct rt give get :
  mirrored m t = true → p = Pricing m t own (effectiveRemaining L t) (effectiveRemaining L m) →
  priced_on m Gm Tm → priced_on t Gt Tt → entry_steps L m cm rm → entry_steps L t ct rt →
  0 ≤ cm ≤ 10 ^ 23 → 0 ≤ rm ≤ 10 ^ 23 → 0 ≤ ct ≤ 10 ^ 23 → 0 ≤ rt ≤ 10 ^ 23 →
  quantizeFill m t (clampFill p).1 (clampFill p).2 = Some (give, get) →
  ∃ x y, text_steps (give_grid t) give x ∧ text_steps (give_grid m) get y ∧
    0 < x ≤ Gt - ct ∧ x ≤ Tm - rm ∧ 0 < y ≤ Gm - cm ∧ y ≤ Tt - rt.
Proof.
  intros Hmir -> Pm Pt Em Et Rcm Rrm Rct Rrt. destruct (mirrored_grids _ _ Hmir) as [G1 G2].
  destruct (remaining_steps L m _ _ _ _ Pm Em Rcm Rrm) as [Mgive Mget]. destruct (remaining_steps L t _ _ _ _ Pt Et Rct Rrt) as [Tgive Tget].
  unfold quantizeFill. rewrite (giveDecimals_grid t _ _ Pt), (giveDecimals_grid m _ _ Pm).
  destruct Pm as [_ _ BGm BTm _ Km _], Pt as [(sg & Eg & Hg) (st & Es & Hst) BGt BTt _ Kt _].
  set (p := Pricing m t own (effectiveRemaining L t) (effectiveRemaining L m)).
  rewrite G1 in Mgive, Km. rewrite G2 in Mget.
  destruct (clamp_within p (give_grid t) (get_grid t) Gt Tt (Z.max 0 (Tm - rm)) (Z.max 0 (Gm - cm)) (Z.max 0 (Gt - ct)) (Z.max 0 (Tt - rt)))
    as [[Hx0 Hx] [Hy0 Hy]]; unfold p; cbn [taker takerRem makerRem]; try done; try lia.
  { rewrite Eg, (amount_of _ _ _ Hg). by apply text_bignumber. }
  { rewrite Es, (amount_of _ _ _ Hst). by apply text_bignumber. }
  fold p in Hx0, Hx, Hy0, Hy. rewrite G1.
  destruct (bcround_upper _ _ (Z.min (Z.max 0 (Tm - rm)) (Z.max 0 (Gt - ct))) Kt ltac:(lia) Hx0 Hx) as (x & Bx & Sx). destruct (bcround_upper _ _ (Z.min (Z.max 0 (Gm - cm)) (Z.max 0 (Tt - rt))) Km ltac:(lia) Hy0 Hy) as (y & By & Sy).
  apply toFixed_text in Sx, Sy. rewrite (not_positive_text _ _ _ Sx), (not_positive_text _ _ _ Sy).
  destruct (x <=? 0) eqn:E1; [done|]. destruct (y <=? 0) eqn:E2; [done|]. cbn [orb]. intros [= <- <-]. bools.
  exists x, y. split_and!; (done || lia).
Qed.

Lemma mirrored_flip a b : mirrored a b = true → mirrored b a = true.
Proof. by rewrite mirrored_sym. Qed.

(** The fills of a matched pair of orders. *)
Lemma order_fills L a b e d Ga Ta Gb Tb ca ra cb rb :
  priced_on a Ga Ta → priced_on b Gb Tb → entry_steps L a ca ra → entry_steps L b cb rb →
  0 ≤ ca ≤ 10 ^ 23 → 0 ≤ ra ≤ 10 ^ 23 → 0 ≤ cb ≤ 10 ^ 23 → 0 ≤ rb ≤ 10 ^ 23 →
  tryOrderMatch reg L a b e = Some d →
  mirrored a b = true ∧ ∃ sa sb x y, d = buildDesc L a b "order" "order" sa sb ∧
    text_steps (give_grid a) sa x ∧ text_steps (give_grid b) sb y ∧
    0 < x ≤ Ga - ca ∧ x ≤ Tb - rb ∧ 0 < y ≤ Gb - cb ∧ y ≤ Ta - ra.
Proof.
  intros Pa Pb Ea Eb R1 R2 R3 R4. unfold tryOrderMatch, orderPricing.
  destruct (mirrored a b) eqn:Hm; cbn [andb negb]; [|done]. destruct (ownership_mirrored a b); cbn [negb]; [|done].
  intros Ht. split; [done|]. revert Ht. pose proof (mirrored_flip _ _ Hm) as Hm'.
  destruct (offerCmp a b); (on_if; [done|]); (on_if; [done|]); (on_if; [done|]); cbn [mbind option_bind maker taker p_ownership];
    (match goal with |- context [clampFill ?q] => destruct (clampFill q) as [g t] eqn:Ec; pose proof (f_equal fst Ec) as E1; pose proof (f_equal snd Ec) as E2; simpl in E1, E2; subst g t end);
    (match goal with |- context [quantizeFill ?x ?y ?u ?v] => destruct (quantizeFill x y u v) as [[give get]|] eqn:Eq; [|done] end);
    cbn [mbind option_bind]; (on_if; [done|]); intros [= <-].
  - destruct (pricing_fills L a b _ _ Ga Ta Gb Tb ca ra cb rb _ _ Hm eq_refl Pa Pb Ea Eb ltac:(done) ltac:(done) ltac:(done) ltac:(done) Eq) as (x & y & ? & ? & ? & ? & ? & ?).
    by exists get, give, y, x.
  - destruct (pricing_fills L a b _ _ Ga Ta Gb Tb ca ra cb rb _ _ Hm eq_refl Pa Pb Ea Eb ltac:(done) ltac:(done) ltac:(done) ltac:(done) Eq) as (x & y & ? & ? & ? & ? & ? & ?).
    by exists get, give, y, x.
  - destruct (pricing_fills L b a _ _ Gb Tb Ga Ta cb rb ca ra _ _ Hm' eq_refl Pb Pa Eb Ea ltac:(done) ltac:(done) ltac:(done) ltac:(done) Eq) as (x & y & ? & ? & ? & ? & ? & ?).
    by exists give, get, x, y.
Qed.

(** ** Crediting a match *)

Lemma commit_sides L a b k x y :
  home_coin a ≠ home_coin b →
  let L' := applyCommit (fills_of (buildDesc L a b k k x y)) true L in
  committedFor L' a = Locked (adjust true (l_give (committedFor L a)) (bcstr x)) (adjust true (l_get (committedFor L a)) (bcstr y)) ∧
  committedFor L' b = Locked (adjust true (l_give (committedFor L b)) (bcstr y)) (adjust true (l_get (committedFor L b)) (bcstr x)) ∧
  ∀ o, key_of o ≠ key_of a → key_of o ≠ key_of b → committedFor L' o = committedFor L o.
Proof.
  intros Hne. assert (Hk : key_of a ≠ key_of b) by (unfold key_of, offerKey; congruence).
  unfold buildDesc. destruct (String.leb (home_coin a) (home_coin b)); unfold fills_of; cbn [lo hi loFill hiFill];
    unfold applyCommit, leg_a, leg_b; cbn [f_a_chain f_a_index f_b_chain f_b_index];
    change (offerKey (home_coin a) (action_index a)) with (key_of a); change (offerKey (home_coin b) (action_index b)) with (key_of b);
    (destruct (decide _) as [E|_]; [congruence|]); unfold committedFor, ledger in *; split_and!.
  - by rewrite lookup_insert_ne, lookup_insert_eq by done.
  - by rewrite lookup_insert_eq.
  - intros o Ha Hb. by rewrite !lookup_insert_ne by done.
  - by rewrite lookup_insert_eq.
  - by rewrite lookup_insert_ne, lookup_insert_eq by done.
  - intros o Ha Hb. by rewrite !lookup_insert_ne by done.
Qed.

(** An order is filled little by little, a swap once. *)
Definition filled (L : ledger) (o : offer) (G T : Z) : Prop :=
  ∃ c r, entry_steps L o c r ∧ 0 ≤ c ≤ G ∧ 0 ≤ r < 10 ^ 22 ∧
    if order_kind o then r ≤ T else c = 0 ∧ r = 0 ∨ c = G.

Lemma filled_start o G T : 0 ≤ G → 0 ≤ T → filled ∅ o G T.
Proof.
  intros. exists 0, 0. split; [split; apply text_steps_zero|]. split; [lia|]. split; [lia|]. destruct (order_kind o); [lia|by left].
Qed.

(** One credit: both entries grow by the fills. *)
Lemma credit_steps L a b k x y ca ra cb rb fx fy :
  home_coin a ≠ home_coin b → mirrored a b = true → entry_steps L a ca ra → entry_steps L b cb rb →
  (give_grid a ≤ 18)%nat → (give_grid b ≤ 18)%nat →
  text_steps (give_grid a) x fx → text_steps (give_grid b) y fy →
  0 ≤ ca < 10 ^ 23 → 0 ≤ ra < 10 ^ 23 → 0 ≤ cb < 10 ^ 23 → 0 ≤ rb < 10 ^ 23 → 0 ≤ fx < 10 ^ 23 → 0 ≤ fy < 10 ^ 23 →
  let L' := applyCommit (fills_of (buildDesc L a b k k x y)) true L in
  entry_steps L' a (ca + fx) (ra + fy) ∧ entry_steps L' b (cb + fy) (rb + fx).
Proof.
  intros Hne Hm [Hca Hra] [Hcb Hrb] Ka Kb Hx Hy R1 R2 R3 R4 R5 R6 L'. destruct (mirrored_grids _ _ Hm) as [G1 G2].
  destruct (commit_sides L a b k x y Hne) as (Ea & Eb & _). fold L' in Ea, Eb. unfold entry_steps. rewrite Ea, Eb. cbn [l_give l_get].
  rewrite <-G1, G2 in *. apply bcstr_text in Hx, Hy.
  split; split; apply adjust_text with (plus := true); (done || lia).
Qed.

(** A match leaves both of its offers within their amounts. *)
Lemma match_filled L a b e d Ga Ta Gb Tb :
  priced_on a Ga Ta → priced_on b Gb Tb → filled L a Ga Ta → filled L b Gb Tb → tryMatch reg L a b e = Some d →
  let L' := applyCommit (fills_of d) true L in
  filled L' a Ga Ta ∧ filled L' b Gb Tb ∧ ∀ o, key_of o ≠ key_of a → key_of o ≠ key_of b → committedFor L' o = committedFor L o.
Proof.
  intros Pa Pb (ca & ra & Ea & Rca & Rra & Ha) (cb & rb & Eb & Rcb & Rrb & Hb). unfold tryMatch.
  destruct (String.eqb_spec (home_coin a) (home_coin b)) as [_|Hne]; [done|]. on_if; [done|]. on_if; [done|].
  pose proof (po_G _ _ _ Pa) as BGa. pose proof (po_G _ _ _ Pb) as BGb. pose proof (po_T _ _ _ Pa) as BTa. pose proof (po_T _ _ _ Pb) as BTb.
  pose proof (po_give18 _ _ _ Pa) as Ka. pose proof (po_give18 _ _ _ Pb) as Kb.
  destruct (order_kind a) eqn:Oa, (order_kind b) eqn:Ob; cbn [negb andb]; [|done|done|].
  - intros Hm. destruct (order_fills L a b e d Ga Ta Gb Tb ca ra cb rb) as (Hmir & sa & sb & x & y & -> & Hx & Hy & ? & ? & ? & ?); try done; try lia.
    destruct (credit_steps L a b "order" sa sb ca ra cb rb x y) as [Fa Fb]; try done; try lia.
    destruct (commit_sides L a b "order" sa sb Hne) as (_ & _ & Ho). split_and!; [| |done].
    + exists (ca + x), (ra + y). rewrite Oa. split_and!; (done || lia).
    + exists (cb + y), (rb + x). rewrite Ob. split_and!; (done || lia).
  - unfold isExactMatch. destruct (mirrored a b) eqn:Hmir; [|by rewrite !andb_false_r]. on_if; [done|].
    destruct (remaining_steps L a _ _ _ _ Pa Ea ltac:(lia) ltac:(lia)) as [Na _]. destruct (remaining_steps L b _ _ _ _ Pb Eb ltac:(lia) ltac:(lia)) as [Nb _].
    rewrite (not_positive_text _ _ _ Na), (not_positive_text _ _ _ Nb).
    destruct (_ <=? 0) eqn:E1; [done|]. destruct (Z.max 0 (Gb - cb) <=? 0) eqn:E2; [done|]. cbn [orb]. intros [= <-]. bools.
    destruct (po_give _ _ _ Pa) as (sa & -> & Hsa). destruct (po_give _ _ _ Pb) as (sb & -> & Hsb). cbn [default amount_text].
    apply bcstr_text in Hsa, Hsb. change (amount_text (Some sa)) with (bcstr sa). change (amount_text (Some sb)) with (bcstr sb).
    destruct (credit_steps L a b "swap" (bcstr sa) (bcstr sb) ca ra cb rb Ga Gb) as [Fa Fb]; try done; try lia.
    destruct (commit_sides L a b "swap" (bcstr sa) (bcstr sb) Hne) as (_ & _ & Ho). split_and!; [| |done].
    + exists (ca + Ga), (ra + Gb). rewrite Oa. split_and!; (done || lia).
    + exists (cb + Gb), (rb + Ga). rewrite Ob. split_and!; (done || lia).
Qed.

(** ** The rounds of a hub

    A pass derives its matches from the ledger of the moment and opens a round for
    each; a match is credited only when its round finalizes. *)

(** Whether and how two offers match reads only their own entries of the ledger. *)
Lemma tryMatch_local L L' a b e :
  committedFor L a = committedFor L' a → committedFor L b = committedFor L' b → tryMatch reg L a b e = tryMatch reg L' a b e.
Proof.
  intros Ha Hb. assert (Ra : effectiveRemaining L a = effectiveRemaining L' a) by (unfold effectiveRemaining; by rewrite Ha).
  assert (Rb : effectiveRemaining L b = effectiveRemaining L' b) by (unfold effectiveRemaining; by rewrite Hb).
  assert (Hd : ∀ k k' x y, buildDesc L a b k k' x y = buildDesc L' a b k k' x y) by (intros; unfold buildDesc; by rewrite Ha, Hb).
  unfold tryMatch, tryOrderMatch, orderPricing. rewrite Ra, Rb, Hd.
  repeat (on_if; [done|]). destruct (negb (order_kind a) && negb (order_kind b)); [done|]. destruct (_ && _); [|done].
  destruct (offerCmp a b); cbn [negb]; rewrite Ra, Rb; repeat (on_if; [done|]); cbn [mbind option_bind];
    destruct (clampFill _) as [g t]; destruct (quantizeFill _ _ _ _) as [[x y]|]; try done; cbn [mbind option_bind]; on_if; [done| |done| |done|]; by rewrite Hd.
Qed.

Section Rounds.
Context (sha256Hex : string → string) (offers : list offer).

(** The ledger, the rounds open by match id, what the present pass has still to
    propose, and the ids of the finalized rows. *)
Record trades := Trades {
  t_ledger : ledger; t_open : gmap string desc; t_todo : list (string * desc); t_rows : gset string }.

Definition no_trades : trades := Trades ∅ ∅ [] ∅.

Inductive trade_event :=
  | Poll (offersByCoin : string → list offer) (snapshotBlock : Z)
  | Propose
  | Cosign (a b : offer) (snapshotBlock : Z)
  | Write (matchId : string)
  | Abandon (matchId : string).

Definition id_of (snapshotBlock : Z) (d : desc) : string :=
  deriveMatchId sha256Hex (lo d) (hi d) snapshotBlock (loFilledBefore d) (hiFilledBefore d).

(** A round is opened once per id. *)
Definition open_round (id : string) (d : desc) (o : gmap string desc) : gmap string desc :=
  match o !! id with Some _ => o | None => <[id := d]> o end.

(** [discoverAndMatch]: nothing while a pass is under way. *)
Definition poll_matches (offersByCoin : string → list offer) (snapshotBlock : Z) (s : trades) : trades :=
  match t_todo s with
  | [] =>
      let ds := findMatches reg (t_ledger s) offersByCoin (AtBlock snapshotBlock) in
      Trades (t_ledger s) (t_open s) ((λ d, (id_of snapshotBlock d, d)) <$> ds) (t_rows s)
  | _ => s
  end.

Definition finalizeMatch (s : trades) : trades :=
  match t_todo s with
  | [] => s
  | (id, d) :: rest => Trades (t_ledger s) (open_round id d (t_open s)) rest (t_rows s)
  end.

(** A proposal of another hub whose match this one derives as well. *)
Definition cosignMatch (a b : offer) (snapshotBlock : Z) (s : trades) : trades :=
  match tryMatch reg (t_ledger s) a b (AtBlock snapshotBlock) with
  | Some d => Trades (t_ledger s) (open_round (id_of snapshotBlock d) d (t_open s)) (t_todo s) (t_rows s)
  | None => s
  end.

(** The row of a finalized round: only an inserted row is credited. *)
Definition creditMatch (id : string) (s : trades) : trades :=
  match t_open s !! id with
  | None => s
  | Some d =>
      if bool_decide (id ∈ t_rows s) then Trades (t_ledger s) (delete id (t_open s)) (t_todo s) (t_rows s)
      else Trades (applyCommit (fills_of d) true (t_ledger s)) (delete id (t_open s)) (t_todo s) ({[id]} ∪ t_rows s)
  end.

Definition trade_step (ev : trade_event) (s : trades) : trades :=
  match ev with
  | Poll books h => poll_matches books h s
  | Propose => finalizeMatch s
  | Cosign a b h => cosignMatch a b h s
  | Write id => creditMatch id s
  | Abandon id => Trades (t_ledger s) (delete id (t_open s)) (t_todo s) (t_rows s)
  end.

Definition overlap (d d' : desc) : Prop := ∃ k, k ∈ keys_of d ∧ k ∈ keys_of d'.

(** The matches derived and not yet settled. *)
Definition pending (s : trades) : list (string * desc) := t_todo s ++ map_to_list (t_open s).

(** A match derived while an offer of it is in an open round is that round's own
    match, under the same id. *)
Definition exclusive (ev : trade_event) (s : trades) : Prop :=
  match ev with
  | Poll books h =>
      (∀ o, o ∈ all_offers books → o ∈ offers) ∧
      ∀ d id' d', d ∈ findMatches reg (t_ledger s) books (AtBlock h) → t_open s !! id' = Some d' → overlap d d' →
        (id_of h d, d) = (id', d')
  | Cosign a b h =>
      a ∈ offers ∧ b ∈ offers ∧
      ∀ d x, tryMatch reg (t_ledger s) a b (AtBlock h) = Some d → x ∈ pending s → overlap d x.2 → (id_of h d, d) = x
  | _ => True
  end.

(** The states of a hub whose rounds are exclusive. *)
Inductive trading : trades → Prop :=
  | T_start : trading no_trades
  | T_step s ev : trading s → exclusive ev s → trading (trade_step ev s).

(** Every offer is priced, and the records of one offer agree on its terms. *)
Definition well_priced (G T : string * Z → Z) : Prop :=
  (∀ o, o ∈ offers → priced_on o (G (key_of o)) (T (key_of o))) ∧
  (∀ o o', o ∈ offers → o' ∈ offers → key_of o = key_of o' →
     give_grid o = give_grid o' ∧ get_grid o = get_grid o' ∧ order_kind o = order_kind o').

Record trades_ok (G T : string * Z → Z) (s : trades) : Prop := {
  ok_derived : ∀ x, x ∈ pending s → x.1 ∉ t_rows s →
    ∃ a b e, a ∈ offers ∧ b ∈ offers ∧ tryMatch reg (t_ledger s) a b e = Some x.2;
  ok_apart : ∀ x y, x ∈ pending s → y ∈ pending s → overlap x.2 y.2 → x = y;
  ok_filled : ∀ o, o ∈ offers → filled (t_ledger s) o (G (key_of o)) (T (key_of o)) }.

Lemma trades_ok_sub G T s s' :
  t_ledger s' = t_ledger s → t_rows s' = t_rows s → (∀ x, x ∈ pending s' → x ∈ pending s) → trades_ok G T s → trades_ok G T s'.
Proof. intros El Er Hp [H1 H2 H3]. split; rewrite ?El, ?Er; eauto. Qed.

Lemma once_overlap ds d d' : NoDup (ds ≫= keys_of) → d ∈ ds → d' ∈ ds → overlap d d' → d = d'.
Proof.
  induction ds as [|x ds IH]; [intros _ H; by apply elem_of_nil in H|]. rewrite bind_cons. intros (_ & Hx & Hn)%NoDup_app.
  assert (Hc : ∀ y z, y ∈ ds → z ∈ keys_of y → z ∈ ds ≫= keys_of) by (intros y z ??; apply list_elem_of_bind; eauto).
  intros [->|H1]%elem_of_cons [->|H2]%elem_of_cons Ho; [done| | |by apply IH];
    destruct Ho as (k & K1 & K2); [destruct (Hx k K1); eauto|destruct (Hx k K2); eauto].
Qed.

Lemma poll_ok G T books h s : trades_ok G T s → exclusive (Poll books h) s → trades_ok G T (poll_matches books h s).
Proof.
  intros [H1 H2 H3] [Hin Hex]. unfold poll_matches. destruct (t_todo s) eqn:Et; [|by split].
  destruct (match_pass_ok reg (t_ledger s) (AtBlock h) ∅ (all_offers books)) as [Honce _ Hfound _].
  fold (findMatches reg (t_ledger s) books (AtBlock h)) in *.
  assert (Hold : ∀ x, x ∈ map_to_list (t_open s) → x ∈ pending s) by (intros x Hx; unfold pending; rewrite Et; done).
  assert (Hsym : ∀ d d', overlap d d' → overlap d' d) by (intros ?? (k & ? & ?); by exists k).
  split; unfold pending; cbn [t_ledger t_open t_todo t_rows]; [| |done].
  - intros x [(d & -> & Hd)%list_elem_of_fmap|Hx]%elem_of_app Hr; [|by eauto]. cbn [snd].
    destruct (Hfound d Hd) as (i & j & a & b & _ & Ha%list_elem_of_lookup_2 & Hb%list_elem_of_lookup_2 & Hm). exists a, b, (AtBlock h). auto.
  - intros x y [(d & -> & Hd)%list_elem_of_fmap|Hx]%elem_of_app [(d' & -> & Hd')%list_elem_of_fmap|Hy]%elem_of_app; cbn [snd]; intros Ho.
    + by rewrite (once_overlap _ d d' Honce Hd Hd' Ho).
    + destruct y as [id' d']. apply elem_of_map_to_list in Hy. by apply Hex.
    + destruct x as [id d]. apply elem_of_map_to_list in Hx. symmetry. apply Hex; auto.
    + by apply H2; [apply Hold|apply Hold|].
Qed.

Lemma open_round_in id d o x : x ∈ map_to_list (open_round id d o) → x ∈ map_to_list o ∨ x = (id, d).
Proof.
  unfold open_round. destruct (o !! id) eqn:E; [by left|]. rewrite map_to_list_insert by done. intros [->|H]%elem_of_cons; auto.
Qed.

Lemma propose_ok G T s : trades_ok G T s → trades_ok G T (finalizeMatch s).
Proof.
  intros H. unfold finalizeMatch. destruct (t_todo s) as [|[id d] rest] eqn:E; [done|].
  eapply trades_ok_sub; [..|exact H]; [done|done|]. unfold pending. cbn [t_open t_todo]. rewrite E.
  intros x [Hx|[Hx| ->]%open_round_in]%elem_of_app; rewrite elem_of_app, elem_of_cons; auto.
Qed.

Lemma cosign_ok G T a b h s : trades_ok G T s → exclusive (Cosign a b h) s → trades_ok G T (cosignMatch a b h s).
Proof.
  intros [H1 H2 H3] (Ha & Hb & Hex). unfold cosignMatch. destruct (tryMatch _ _ _ _ _) as [d|] eqn:Em; [|by split].
  set (s' := Trades _ _ _ _). assert (Hp : ∀ x, x ∈ pending s' → x ∈ pending s ∨ x = (id_of h d, d)).
  { unfold pending. cbn [t_open t_todo s']. intros x [Hx|[Hx| ->]%open_round_in]%elem_of_app; rewrite elem_of_app; auto. }
  split; cbn [t_ledger t_rows s']; [| |done].
  - intros x [Hx| ->]%Hp Hr; [by apply H1|]. exists a, b, (AtBlock h). auto.
  - intros x y [Hx| ->]%Hp [Hy| ->]%Hp Ho; [by apply H2| |by apply Hex|done]. symmetry. apply Hex; [done|done|].
    destruct Ho as (k & ? & ?). by exists k.
Qed.

Lemma delete_pending id s l rows x :
  x ∈ pending (Trades l (delete id (t_open s)) (t_todo s) rows) → x ∈ pending s.
Proof.
  unfold pending. cbn [t_open t_todo]. rewrite !elem_of_app. destruct x as [i d]. rewrite !elem_of_map_to_list.
  intros [H|[_ H]%lookup_delete_Some]; auto.
Qed.

Lemma write_ok G T id s : well_priced G T → trades_ok G T s → trades_ok G T (creditMatch id s).
Proof.
  intros [Hp Hu] [H1 H2 H3]. unfold creditMatch. destruct (t_open s !! id) as [d|] eqn:Ed; [|by split].
  destruct (decide (id ∈ t_rows s)) as [Hr|Hr]; [rewrite bool_decide_true by done|rewrite bool_decide_false by done].
  { eapply trades_ok_sub; [..|by split]; [done|done|]. apply delete_pending. }
  assert (Hd : (id, d) ∈ pending s) by (apply elem_of_app; right; by apply elem_of_map_to_list).
  destruct (H1 _ Hd Hr) as (a & b & e & Ha & Hb & Hm). cbn [snd] in Hm. destruct (keys_perm _ _ _ _ _ _ Hm) as [Hk _].
  destruct (match_filled (t_ledger s) a b e d _ _ _ _ (Hp a Ha) (Hp b Hb) (H3 a Ha) (H3 b Hb) Hm) as (Fa & Fb & Fo).
  split; cbn [t_ledger t_rows].
  - intros x Hx%delete_pending Hn. rewrite not_elem_of_union, not_elem_of_singleton in Hn. destruct Hn as [Hne Hn].
    destruct (H1 x Hx Hn) as (a' & b' & e' & Ha' & Hb' & Hm'). exists a', b', e'. split_and!; [done|done|]. rewrite <-Hm'.
    destruct (keys_perm _ _ _ _ _ _ Hm') as [Hk' _].
    assert (Hap : ∀ k, k ∈ keys_of d → k ∈ keys_of x.2 → False).
    { intros k K1 K2. apply Hne. by rewrite (H2 x (id, d) Hx Hd) by (by exists k). }
    assert (Hfr : ∀ o, key_of o ∈ keys_of x.2 → committedFor (applyCommit (fills_of d) true (t_ledger s)) o = committedFor (t_ledger s) o).
    { intros o Ho. apply Fo; intros E; apply (Hap (key_of o)); try done; rewrite Hk, E; [by left|by right; left]. }
    apply tryMatch_local; apply Hfr; rewrite Hk'; [by left|by right; left].
  - intros x y Hx%delete_pending Hy%delete_pending. by apply H2.
  - intros o Ho. assert (Hmv : ∀ o', o' ∈ offers → key_of o = key_of o' →
      filled (applyCommit (fills_of d) true (t_ledger s)) o' (G (key_of o')) (T (key_of o')) →
      filled (applyCommit (fills_of d) true (t_ledger s)) o (G (key_of o)) (T (key_of o))).
    { intros o' Ho' E (c & r & [Hc Hg] & Rc & Rr & Hf). destruct (Hu o o' Ho Ho' E) as (E1 & E2 & E3).
      exists c, r. rewrite E3. unfold entry_steps. rewrite E1, E2.
      assert (Ec : committedFor (applyCommit (fills_of d) true (t_ledger s)) o = committedFor (applyCommit (fills_of d) true (t_ledger s)) o')
        by (unfold committedFor; by rewrite E).
      rewrite Ec, E. done. }
    destruct (decide (key_of o = key_of a)) as [E|Na]; [by apply (Hmv a)|].
    destruct (decide (key_of o = key_of b)) as [E|Nb]; [by apply (Hmv b)|].
    destruct (H3 o Ho) as (c & r & He & H). exists c, r. split; [|done]. unfold entry_steps in *. by rewrite Fo.
Qed.

Lemma trading_ok G T s : well_priced G T → trading s → trades_ok G T s.
Proof.
  intros Hw. induction 1 as [|s ev Hs IH He].
  - split; [intros x Hx; by apply elem_of_nil in Hx|intros x y Hx; by apply elem_of_nil in Hx|].
    intros o Ho. destruct (proj1 Hw o Ho). apply filled_start; lia.
  - destruct ev; cbn [trade_step].
    + by apply poll_ok.
    + by apply propose_ok.
    + by apply cosign_ok.
    + by apply write_ok.
    + eapply trades_ok_sub; [..|exact IH]; [done|done|]. apply delete_pending.
Qed.

(** C9: finalized matches never overfill an offer, in every run in which a match
    derived while one of its offers is in an open round is that round's own match
    under the same id (the code does not ensure it: see
    [successive_snapshots_overfill]). Passes, co-signed proposals, finalizations and
    abandoned rounds interleave freely: matches derived from one ledger are credited
    later and in any order, a pass meets its own open rounds again, a row may
    finalize twice. What the ledger has committed of an offer stays between zero and
    the amount it gives, partial fills and rounding included; an order never receives
    more than it asks for either. *)
Theorem never_overfilled G T s o :
  well_priced G T → trading s → o ∈ offers →
  ∃ c r, text_steps (give_grid o) (l_give (committedFor (t_ledger s) o)) c ∧ 0 ≤ c ≤ G (key_of o) ∧
    text_steps (get_grid o) (l_get (committedFor (t_ledger s) o)) r ∧ (order_kind o = true → 0 ≤ r ≤ T (key_of o)).
Proof.
  intros Hw Ht Ho. destruct (ok_filled _ _ _ (trading_ok G T s Hw Ht) o Ho) as (c & r & [Hc Hr] & Rc & Rr & Hk).
  exists c, r. split_and!; [done|lia|lia|done|]. intros E. rewrite E in Hk. lia.
Qed.
End Rounds.
End Trade.

(** ** The price test *)

Section Price.
Context {B : BigNumber} {W : BigNumberLaws B}.

(** Both sides of a rounded text. *)
Lemma reread64_lower (x : bn) : (0 <= bn_val x)%Q → (bn_val x - half64 <= bn_val (bcnum (bn_format 64 x)))%Q.
Proof.
  intros Hv. pose proof (reread_steps 64 x) as H. unfold steps, on_grid in H. rewrite H, round_steps_nonneg by done.
  set (f := (bn_val x * (Zpos (pow10 64) # 1) + (1 # 2))%Q). pose proof (Qlt_floor f) as Hf.
  assert (E : (Qfloor f # pow10 64 == inject_Z (Qfloor f) * (1 # pow10 64))%Q) by (unfold Qeq, Qmult, inject_Z; cbn [Qnum Qden]; lia).
  rewrite E. assert (Hm : ((f - 1) * (1 # pow10 64) <= inject_Z (Qfloor f) * (1 # pow10 64))%Q).
  { apply Qmult_le_compat_r; [|done]. rewrite inject_Z_plus in Hf. change (inject_Z 1) with 1%Q in Hf. lra. }
  assert (E2 : ((f - 1) * (1 # pow10 64) == bn_val x - half64)%Q).
  { unfold f, half64, Qeq, Qminus, Qopp, Qplus, Qmult. cbn [Qnum Qden]. rewrite !Pos2Z.inj_mul. ring. }
  rewrite E2 in Hm. done.
Qed.

Lemma reread_proper (x y : bn) :
  (0 <= bn_val x)%Q → (bn_val x == bn_val y)%Q → (bn_val (bcnum (bn_format 64 x)) == bn_val (bcnum (bn_format 64 y)))%Q.
Proof.
  intros Hx E. pose proof (reread_steps 64 x) as H1. pose proof (reread_steps 64 y) as H2. unfold steps, on_grid in H1, H2. rewrite H1, H2.
  assert (Er : round_steps 64 (bn_val x) = round_steps 64 (bn_val y)); [|by rewrite Er].
  apply Z.le_antisymm; apply round_steps_mono; rewrite <-?E; try done; apply Qle_refl.
Qed.

Lemma getPrice_div a b : (0 < bn_val b)%Q → getPrice a b = bcnum (bn_format 64 (bn_div a b)).
Proof.
  intros Hb. unfold getPrice, bcdiv, is_zero. rewrite bn_cmp_val.
  assert (Hz : (bn_val zero == 0)%Q) by (unfold zero; rewrite bignumber_val by done; reflexivity). rewrite Hz.
  destruct (bn_val b ?= 0)%Q eqn:E; [|done|done]. apply Qeq_alt in E. rewrite E in Hb. by apply Qlt_irrefl in Hb.
Qed.

Lemma getPrice_lower a b :
  (0 <= bn_val a)%Q → (0 < bn_val b)%Q → (bn_val a / bn_val b * (1 - eps) - half64 <= bn_val (getPrice a b))%Q.
Proof.
  intros Ha Hb. rewrite getPrice_div by done. assert (Hne : ¬ (bn_val b == 0)%Q) by by apply Qnot_eq_sym, Qlt_not_eq.
  assert (Hq : (0 <= bn_val a / bn_val b)%Q) by (apply Qmult_le_0_compat; [done|apply Qinv_le_0_compat; lra]).
  pose proof (bn_div_close a b Hne) as Hc. destruct (close_nonneg _ _ Hq Hc) as [Hv0 _].
  rewrite (Qabs_pos (bn_val a / bn_val b)) in Hc by done. apply Qabs_Qle_condition in Hc as [H1 _].
  eapply Qle_trans; [|by apply reread64_lower]. fold eps in H1. lra.
Qed.

(** Two quotients a unit of the products apart stay apart. *)
Lemma apart (A C p q e h K u v : Q) :
  (0 <= A)%Q → (0 <= C)%Q → (0 < K)%Q → (A * K == v)%Q → (C * K == u)%Q → (v + 1 <= u)%Q →
  (p <= A * (1 + e) + h)%Q → (C * (1 - e) - h <= q)%Q → ((u + v) * e + 2 * (h * K) < 1)%Q → (p < q)%Q.
Proof.
  intros HA HC HK EA EC Hd Hp Hq He.
  apply (Qmult_lt_r _ _ K HK). apply (Qmult_le_compat_r _ _ K) in Hp; [|lra]. apply (Qmult_le_compat_r _ _ K) in Hq; [|lra].
  assert (E1 : ((A * (1 + e) + h) * K == (A * K) * (1 + e) + h * K)%Q) by ring. rewrite E1, EA in Hp.
  assert (E2 : ((C * (1 - e) - h) * K == (C * K) * (1 - e) - h * K)%Q) by ring. rewrite E2, EC in Hq. lra.
Qed.

Lemma small_errors (h K : Q) (u v : Z) :
  0 ≤ u < 10 ^ 44 → 0 ≤ v < 10 ^ 44 → (0 < K)%Q → (K <= inject_Z (10 ^ 62))%Q →
  ((inject_Z u + inject_Z v) * eps + 2 * (half64 * K) < 1)%Q.
Proof.
  intros Hu Hv HK HK'. destruct eps_small as [He _]. assert (Hh0 : (0 <= half64)%Q) by done.
  assert (Hs : ((inject_Z u + inject_Z v) * eps <= (inject_Z (10 ^ 44) + inject_Z (10 ^ 44)) * eps)%Q).
  { apply Qmult_le_compat_r; [|done]. rewrite <-!inject_Z_plus, <-Zle_Qle. lia. }
  assert (Hk : (half64 * K <= half64 * inject_Z (10 ^ 62))%Q) by (rewrite !(Qmult_comm half64); by apply Qmult_le_compat_r).
  assert (K1 : ((inject_Z (10 ^ 44) + inject_Z (10 ^ 44)) * eps <= 1 # 100)%Q) by by vm_compute.
  assert (K2 : (half64 * inject_Z (10 ^ 62) <= 1 # 100)%Q) by by vm_compute. lra.
Qed.

(** Two prices [T/G] and [M/S] whose sides are whole base units. *)
Lemma price_order k1 k2 t g m s T G M S :
  (k2 ≤ 18)%nat → steps k2 t T → steps k1 g G → steps k2 m M → steps k1 s S →
  0 < T < 10 ^ 22 → 0 < G < 10 ^ 22 → 0 < M < 10 ^ 22 → 0 < S < 10 ^ 22 →
  bcgt (getPrice t g) (getPrice m s) = (M * G <? T * S).
Proof.
  intros Hk Ht Hg Hm Hs BT BG BM BS.
  assert (Hpos : ∀ k (a : bn) z, steps k a z → 0 < z → (0 < bn_val a)%Q).
  { intros k a z Ha Hz. unfold steps, on_grid in Ha. rewrite Ha. unfold Qlt. cbn [Qnum Qden]. lia. }
  pose proof (Hpos _ _ _ Ht ltac:(lia)) as Pt. pose proof (Hpos _ _ _ Hg ltac:(lia)) as Pg.
  pose proof (Hpos _ _ _ Hm ltac:(lia)) as Pm. pose proof (Hpos _ _ _ Hs ltac:(lia)) as Ps. clear Hpos.
  set (A := (bn_val t / bn_val g)%Q). set (C := (bn_val m / bn_val s)%Q).
  set (K := (bn_val g * inject_Z S * (Zpos (pow10 k2) # 1))%Q).
  assert (Ng : ¬ (bn_val g == 0)%Q) by by apply Qnot_eq_sym, Qlt_not_eq. assert (Ns : ¬ (bn_val s == 0)%Q) by by apply Qnot_eq_sym, Qlt_not_eq.
  assert (HA : (0 <= A)%Q) by (apply Qmult_le_0_compat; [lra|apply Qinv_le_0_compat; lra]).
  assert (HC : (0 <= C)%Q) by (apply Qmult_le_0_compat; [lra|apply Qinv_le_0_compat; lra]).
  assert (EA : (A * K == inject_Z (T * S))%Q).
  { unfold A, K. rewrite inject_Z_mult. transitivity ((bn_val t * (Zpos (pow10 k2) # 1)) * inject_Z S)%Q; [field; done|]. by rewrite (steps_scaled k2 t T Ht). }
  assert (EC : (C * K == inject_Z (M * G))%Q).
  { unfold C, K. rewrite inject_Z_mult. rewrite <-(steps_scaled k1 s S Hs), <-(steps_scaled k2 m M Hm), <-(steps_scaled k1 g G Hg). field. done. }
  assert (HK : (0 < K)%Q).
  { unfold K. apply Qmult_lt_0_compat; [apply Qmult_lt_0_compat; [done|]|done]. change 0%Q with (inject_Z 0). rewrite <-Zlt_Qlt. lia. }
  assert (HK' : (K <= inject_Z (10 ^ 62))%Q).
  { unfold K. change (10 ^ 62) with (10 ^ 22 * 10 ^ 22 * 10 ^ 18). rewrite !inject_Z_mult.
    apply Qmult_le_compat_nonneg; split; [apply Qmult_le_0_compat; [lra|]| |done|by apply pow10_le_18].
    - change 0%Q with (inject_Z 0). rewrite <-Zle_Qle. lia.
    - apply Qmult_le_compat_nonneg; split; [lra| |change 0%Q with (inject_Z 0); rewrite <-Zle_Qle; lia|rewrite <-Zle_Qle; lia].
      eapply Qle_trans; [apply (steps_le_int k1 g G Hg); lia|]. rewrite <-Zle_Qle. lia. }
  destruct (getPrice_upper t g (Qlt_le_weak _ _ Pt) Pg) as [_ Up1]. destruct (getPrice_upper m s (Qlt_le_weak _ _ Pm) Ps) as [_ Up2].
  pose proof (getPrice_lower t g (Qlt_le_weak _ _ Pt) Pg) as Lo1. pose proof (getPrice_lower m s (Qlt_le_weak _ _ Pm) Ps) as Lo2.
  fold A in Up1, Lo1. fold C in Up2, Lo2.
  assert (Bu : 0 ≤ T * S < 10 ^ 44) by nia. assert (Bv : 0 ≤ M * G < 10 ^ 44) by nia.
  destruct (M * G <? T * S) eqn:E; bools.
  - apply bcgt_val. apply (apart C A _ _ eps half64 K (inject_Z (T * S)) (inject_Z (M * G))); try done.
    + change 1%Q with (inject_Z 1). rewrite <-inject_Z_plus, <-Zle_Qle. lia.
    + by apply small_errors.
  - apply not_true_iff_false. intros Hgt%bcgt_val. destruct (decide (M * G = T * S)) as [Eq|Hne].
    + rewrite !getPrice_div in Hgt by done.
      assert (Ed : (bn_val (bn_div t g) == bn_val (bn_div m s))%Q).
      { apply bn_div_proper; [done|done|]. fold A C. apply (Qmult_inj_r _ _ K); [by apply Qnot_eq_sym, Qlt_not_eq|]. by rewrite EA, EC, Eq. }
      assert (H0 : (0 <= bn_val (bn_div t g))%Q) by (by destruct (close_nonneg _ _ HA (bn_div_close t g Ng))).
      rewrite (reread_proper _ _ H0 Ed) in Hgt. by apply Qlt_irrefl in Hgt.
    + assert (Hlt : (bn_val (getPrice t g) < bn_val (getPrice m s))%Q).
      { apply (apart A C _ _ eps half64 K (inject_Z (M * G)) (inject_Z (T * S))); try done.
        - change 1%Q with (inject_Z 1). rewrite <-inject_Z_plus, <-Zle_Qle. lia.
        - by apply small_errors. }
      lra.
Qed.

Lemma priced_amounts grid o G T :
  priced_on grid o G T → steps (give_grid grid o) (amount (give_amount o)) G ∧ steps (get_grid grid o) (amount (get_amount o)) T.
Proof.
  intros [(sg & -> & Hg) (st & -> & Ht) _ _ _ _ _].
  rewrite (amount_of _ _ _ Hg), (amount_of _ _ _ Ht). split; by apply text_bignumber.
Qed.

(** C28: whether a maker and a taker cross is decided exactly. From the activation
    on, a taker asking [Tt] for [Gt] meets a maker giving [Gm] for [Tm] exactly when
    the product of what they give covers the product of what they ask, with a tie
    counted as a cross; before it the comparison stood the other way round. No
    rounding of the two quotients tips the answer. *)
Theorem price_cross_exact reg grid m t Gm Tm Gt Tt network height :
  mirrored m t = true → priced_on grid m Gm Tm → priced_on grid t Gt Tt →
  pricesCross reg network (AtBlock height) (bidOf m) (askOf t) =
    if gate_active reg PRICE_CROSS_KEY network height then Tt * Tm <=? Gm * Gt else Gm * Gt <=? Tt * Tm.
Proof.
  intros Hm Pm Pt. destruct (mirrored_grids grid _ _ Hm) as [G1 G2].
  destruct (priced_amounts _ _ _ _ Pm) as [Mg Mt]. destruct (priced_amounts _ _ _ _ Pt) as [Tg Ttt]. rewrite G1 in Mg. rewrite G2 in Mt.
  pose proof (po_get18 _ _ _ _ Pt) as K2. pose proof (po_G _ _ _ _ Pm). pose proof (po_T _ _ _ _ Pm). pose proof (po_G _ _ _ _ Pt). pose proof (po_T _ _ _ _ Pt).
  unfold pricesCross, bidOf, askOf.
  rewrite (price_order (give_grid grid t) (get_grid grid t) _ _ _ _ Tt Gt Gm Tm) by done.
  rewrite (price_order (give_grid grid t) (get_grid grid t) _ _ _ _ Gm Tm Tt Gt) by done.
  destruct (gate_active _ _ _ _); by rewrite <-Z.leb_antisym.
Qed.
End Price.
