(* ===== verification/DexStore.v ===== *)
(** * Finalizing and retracting matches

    Model of the write path of [src/cross_chain/dex/finalize.js] and of
    [src/lib/retraction_bounds.js]: the durable row of a finalized match, the
    in-memory ledger, the writes that are still in flight and the retraction a
    source-chain reorg applies. An asynchronous function is a sequence of events,
    one per stretch between two awaits; [step] runs one of them. *)

From S2P Require Import Prelude GateRegistry BigNum BcMath Json AttestWire OracleBand Admission DexOffer.
Open Scope Z_scope.

(** ** The bounds of a retraction *)

(** [parseIndex]: a safe integer, or a numeral spelling one. *)
Definition parseIndex (value : option json) : option Z :=
  match value with
  | Some (JNum m e) => safe_int m e
  | Some (JStr s) => if String.eqb (trim s) "" then None else '(m, e) ← string_Number (trim s); safe_int m e
  | _ => None
  end.

Inductive bound_error := InvalidFrom | InvalidTo | InvalidGeneration.

(** [bounded] and [fenced] say whether [to] and [gen] are there. *)
Record bounds := Bounds { b_from : Z; b_to : option Z; b_gen : option Z }.

Definition supplied (v : option json) : bool := match v with None | Some JNull => false | _ => true end.

Definition normalizeRetractionBounds (fromActionIndex toActionIndex retractionGeneration : option json) : result bound_error bounds :=
  match parseIndex fromActionIndex with
  | None => Err InvalidFrom
  | Some from =>
      if from <? 0 then Err InvalidFrom
      else
        let! to := if supplied toActionIndex
                   then match parseIndex toActionIndex with
                        | Some t => if t <? from then Err InvalidTo else Ok (Some t)
                        | None => Err InvalidTo
                        end
                   else Ok None in
        let! gen := if supplied retractionGeneration
                    then match parseIndex retractionGeneration with
                         | Some g => if g <? 0 then Err InvalidGeneration else Ok (Some g)
                         | None => Err InvalidGeneration
                         end
                    else Ok None in
        Ok (Bounds from to gen)
  end.

(** ** The state *)

(** What the write path reads of a match row. *)
Record mrow := MRow { m_id : string; m_fills : fills; m_gen_a : Z; m_gen_b : Z }.

(** A stored row: [finalized], or [retracted] when [live] is false. *)
Record dbrow := DbRow { d_row : mrow; d_live : bool }.

Record fence_entry := Entry { e_seq : Z; e_chain : string; e_bounds : bounds }.

(** Where a finalizing write is: persisting the snapshot, before its INSERT, before
    the revive, after the statements with their outcome, mirroring, and done with
    [token.inserted] and [token.capacityApplied]. *)
Inductive phase := Persisting | Writing | Reviving | Written (inserted : bool) | Mirroring (inserted : bool) | Finished (inserted applied : bool).

Record token := Token { t_seq : Z; t_row : mrow; t_phase : phase }.

(** A retraction: waiting for the covered writes, before the next row is marked, or
    between a row's mark and its release. *)
Inductive stage := Waiting | Marking (rows : list mrow) (uncommitted : list string) | Releasing (r : mrow) (rows : list mrow) (uncommitted : list string).

Record retraction := Retraction { rt_entry : fence_entry; rt_covered : list nat; rt_stage : stage }.

Record engine := Engine {
  db : gmap string dbrow; led : ledger;
  tokens : list token; fence : list fence_entry; retractionSeq : Z;
  active : list retraction }.            (** those under way, in the order in which they began *)

Definition with_db (d : gmap string dbrow) (s : engine) : engine := Engine d (led s) (tokens s) (fence s) (retractionSeq s) (active s).
Definition with_led (l : ledger) (s : engine) : engine := Engine (db s) l (tokens s) (fence s) (retractionSeq s) (active s).
Definition with_tokens (t : list token) (s : engine) : engine := Engine (db s) (led s) t (fence s) (retractionSeq s) (active s).
Definition with_fence (f : list fence_entry) (s : engine) : engine := Engine (db s) (led s) (tokens s) f (retractionSeq s) (active s).
Definition with_active (a : list retraction) (s : engine) : engine := Engine (db s) (led s) (tokens s) (fence s) (retractionSeq s) a.

(** ** The fence *)

Definition legMatches (e : fence_entry) (chain : string) (index generation : Z) : bool :=
  String.eqb (e_chain e) chain && (b_from (e_bounds e) <=? index) &&
  match b_to (e_bounds e) with Some t => index <=? t | None => true end &&
  match b_gen (e_bounds e) with Some g => generation <=? g | None => true end.

Definition retractionCovers (e : fence_entry) (r : mrow) : bool :=
  legMatches e (f_a_chain (m_fills r)) (f_a_index (m_fills r)) (m_gen_a r) ||
  legMatches e (f_b_chain (m_fills r)) (f_b_index (m_fills r)) (m_gen_b r).

Definition retractedSince (f : list fence_entry) (startSeq : Z) (r : mrow) : bool :=
  existsb (λ e, (startSeq <? e_seq e) && retractionCovers e r) f.

Definition pending_write (t : token) : bool := match t_phase t with Finished _ _ => false | _ => true end.

(** Only a write begun before an entry can still need it. *)
Definition pruneRetractionFence (s : engine) : engine :=
  let floor := foldr (λ t m, if pending_write t then Z.min (t_seq t) m else m) (retractionSeq s) (tokens s) in
  with_fence (filter (λ e, floor < e_seq e) (fence s)) s.

Definition waits_for (e : fence_entry) (t : token) : bool := pending_write t && (t_seq t <? e_seq e) && retractionCovers e (t_row t).

(** The positions of the covered writes. *)
Definition covered_from (e : fence_entry) : nat → list token → list nat :=
  fix go n l := match l with [] => [] | t :: r => if waits_for e t then n :: go (S n) r else go (S n) r end.

Definition finished_at (ts : list token) (n : nat) : bool :=
  match ts !! n with Some t => negb (pending_write t) | None => true end.

(** The rows that were written without their capacity being taken. *)
Definition uncommitted_of (ts : list token) (covered : list nat) : list string :=
  omap (λ n, match ts !! n with Some (Token _ r (Finished true false)) => Some (m_id r) | _ => None end) covered.

(** [findFinalizedCrossChainMatchesForReorg]. *)
Definition selected (e : fence_entry) (d : gmap string dbrow) : list mrow :=
  omap (λ p : string * dbrow, if d_live p.2 && retractionCovers e (d_row p.2) then Some (d_row p.2) else None) (map_to_list d).

(** ** The events *)

Inductive event :=
  | Begin (r : mrow)                     (** [writeFinalizedMatch], to its first await *)
  | Snapshot (n : nat) (persisted : bool) (** the capability snapshot answered *)
  | Insert (n : nat)                     (** INSERT IGNORE *)
  | Revive (n : nat)                     (** the UPDATE of a retracted row *)
  | WriteFails (n : nat)                 (** either statement throws, undone *)
  | Settle (n : nat)                     (** the continuation of the write *)
  | Mirrored (n : nat)                   (** the mirror returned *)
  | Retract (chain : string) (b : bounds)
  | Select (i : nat) | Mark (i : nat) | Release (i : nat) | Done (i : nat)   (** of the [i]-th retraction under way *)
  | Import (r : mrow)                    (** a peer's catch-up stores the row *)
  | Restart.                             (** the process starts over *)

Section Step.
Context {B : BigNumber}.

Definition set_phase (n : nat) (t : token) (p : phase) (s : engine) : engine :=
  with_tokens (<[n := Token (t_seq t) (t_row t) p]> (tokens s)) s.

(** [token.finish], with the fence pruned. *)
Definition finish (n : nat) (t : token) (inserted applied : bool) (s : engine) : engine :=
  pruneRetractionFence (set_phase n t (Finished inserted applied) s).

Definition live_rows (d : gmap string dbrow) : list fills :=
  omap (λ p : string * dbrow, if d_live p.2 then Some (m_fills (d_row p.2)) else None) (map_to_list d).

(** ** One write

    [None]: the stretch does not run in this state. *)

(** [writeFinalizedMatch] to its first await: the token joins the pending writes. *)
Definition beginWrite (r : mrow) (s : engine) : engine := with_tokens (tokens s ++ [Token (retractionSeq s) r Persisting]) s.

(** [persistMatchSnapshot] answered: the row is written unless nothing was persisted
    or a retraction landed meanwhile. *)
Definition afterSnapshot (n : nat) (persisted : bool) (s : engine) : option engine :=
  t ← tokens s !! n;
  match t_phase t with
  | Persisting =>
      Some (if persisted && negb (retractedSince (fence s) (t_seq t) (t_row t)) then set_phase n t Writing s else finish n t false false s)
  | _ => None
  end.

(** [createCrossChainMatch]: INSERT IGNORE under the unique match id. *)
Definition insertRow (n : nat) (s : engine) : option engine :=
  t ← tokens s !! n;
  match t_phase t with
  | Writing =>
      Some (match db s !! m_id (t_row t) with
            | None => set_phase n t (Written true) (with_db (<[m_id (t_row t) := DbRow (t_row t) true]> (db s)) s)
            | Some _ => set_phase n t Reviving s
            end)
  | _ => None
  end.

(** [updateCrossChainMatchByMatchId]: the status of a retracted row only. *)
Definition reviveRow (n : nat) (s : engine) : option engine :=
  t ← tokens s !! n;
  match t_phase t with
  | Reviving =>
      Some (match db s !! m_id (t_row t) with
            | Some (DbRow r false) => set_phase n t (Written true) (with_db (<[m_id (t_row t) := DbRow r true]> (db s)) s)
            | _ => set_phase n t (Written false) s
            end)
  | _ => None
  end.

(** Either statement throws, having changed nothing: the match is deferred. *)
Definition writeFails (n : nat) (s : engine) : option engine :=
  t ← tokens s !! n;
  match t_phase t with Writing | Reviving => Some (finish n t false false s) | _ => None end.

(** The continuation of [insertMatchRow]: the capacity is taken unless a retraction
    landed meanwhile. *)
Definition settleWrite (n : nat) (s : engine) : option engine :=
  t ← tokens s !! n;
  match t_phase t with
  | Written inserted =>
      Some (if retractedSince (fence s) (t_seq t) (t_row t) then finish n t inserted false s
            else set_phase n t (Mirroring inserted)
                   (if inserted then with_led (applyCommit (m_fills (t_row t)) true (led s)) s else s))
  | _ => None
  end.

Definition afterMirror (n : nat) (s : engine) : option engine :=
  t ← tokens s !! n;
  match t_phase t with Mirroring inserted => Some (finish n t inserted inserted s) | _ => None end.

(** ** One retraction *)

(** [recordRetraction] and the writes it waits for. Nothing keeps a second retraction
    from beginning while one is under way. *)
Definition recordRetraction (chain : string) (b : bounds) (s : engine) : engine :=
  let e := Entry (retractionSeq s + 1) chain b in
  let s := pruneRetractionFence (Engine (db s) (led s) (tokens s) (fence s ++ [e]) (retractionSeq s + 1) (active s)) in
  with_active (active s ++ [Retraction e (covered_from e 0 (tokens s)) Waiting]) s.

(** The [i]-th retraction comes to another stage. *)
Definition at_stage (i : nat) (rt : retraction) (st : stage) (s : engine) : engine :=
  with_active (<[i := Retraction (rt_entry rt) (rt_covered rt) st]> (active s)) s.

(** The SELECT, once the covered writes are done. The answer of an INSERT comes
    before that of a SELECT that saw its row. *)
Definition selectRows (i : nat) (s : engine) : option engine :=
  rt ← active s !! i;
  match rt_stage rt with
  | Waiting =>
      let settled := forallb (λ t, negb (match t_phase t with Written true => retractionCovers (rt_entry rt) (t_row t) | _ => false end)) (tokens s) in
      if forallb (finished_at (tokens s)) (rt_covered rt) && settled
      then Some (at_stage i rt (Marking (selected (rt_entry rt) (db s)) (uncommitted_of (tokens s) (rt_covered rt))) s)
      else None
  | _ => None
  end.

(** [updateCrossChainMatchRetracted] of the next row. *)
Definition markRow (i : nat) (s : engine) : option engine :=
  rt ← active s !! i;
  match rt_stage rt with
  | Marking (r :: rows) u =>
      let d := match db s !! m_id r with Some x => <[m_id r := DbRow (d_row x) false]> (db s) | None => db s end in
      Some (at_stage i rt (Releasing r rows u) (with_db d s))
  | _ => None
  end.

(** Its continuation: the capacity is given back if it was ever taken. *)
Definition releaseRow (i : nat) (s : engine) : option engine :=
  rt ← active s !! i;
  match rt_stage rt with
  | Releasing r rows u =>
      Some (at_stage i rt (Marking rows u)
              (if bool_decide (m_id r ∈ u) then s else with_led (applyCommit (m_fills r) false (led s)) s))
  | _ => None
  end.

Definition endRetraction (i : nat) (s : engine) : option engine :=
  rt ← active s !! i;
  match rt_stage rt with Marking [] _ => Some (with_active (delete i (active s)) s) | _ => None end.

(** The catch-up writer stores a peer's row. *)
Definition importRow (r : mrow) (s : engine) : engine :=
  match db s !! m_id r with Some _ => s | None => with_db (<[m_id r := DbRow r true]> (db s)) s end.

(** A new process rebuilds the ledger from the rows. *)
Definition restart (s : engine) : engine := Engine (db s) (rebuilt (live_rows (db s))) [] [] 0 [].

Definition step (ev : event) (s : engine) : option engine :=
  match ev with
  | Begin r => Some (beginWrite r s)
  | Snapshot n persisted => afterSnapshot n persisted s
  | Insert n => insertRow n s
  | Revive n => reviveRow n s
  | WriteFails n => writeFails n s
  | Settle n => settleWrite n s
  | Mirrored n => afterMirror n s
  | Retract chain b => Some (recordRetraction chain b s)
  | Select i => selectRows i s
  | Mark i => markRow i s
  | Release i => releaseRow i s
  | Done i => endRetraction i s
  | Import r => Some (importRow r s)
  | Restart => Some (restart s)
  end.

Definition initial : engine := Engine ∅ ∅ [] [] 0 [].

Fixpoint run (evs : list event) (s : engine) : option engine :=
  match evs with [] => Some s | ev :: r => s' ← step ev s; run r s' end.

(** No write and no retraction is under way. *)
Definition quiescent (s : engine) : Prop := active s = [] ∧ ∀ n t, tokens s !! n = Some t → pending_write t = false.
End Step.
