(* ===== verification/DexStoreProps.v ===== *)
(** * The ledger agrees with the finalized rows

    An invariant of the write path: at every moment the ledger holds exactly the
    fills of the finalized rows, less those whose write has not settled, plus those
    whose retraction has marked but not released them. It is kept by [DexStore.step],
    by induction over runs of events, and when nothing is in flight it leaves the
    ledger a restart would rebuild. *)

From Stdlib Require Import QArith_base.
From S2P Require Import Prelude GateRegistry BigNum BcMath Json AttestWire OracleBand Admission DexOffer DexMatch DexProps DexFill DexStore.
Open Scope Z_scope.

(** ** Sums over a set of match ids *)

Definition zsum (X : gset string) (f : string → Z) : Z := foldr (λ m a, f m + a) 0 (elements X).

Lemma foldr_sum_perm (f : string → Z) l l' : l ≡ₚ l' → foldr (λ m a, f m + a) 0 l = foldr (λ m a, f m + a) 0 l'.
Proof. induction 1; simpl; lia. Qed.

Lemma zsum_insert m X f : m ∉ X → zsum ({[m]} ∪ X) f = f m + zsum X f.
Proof. intros H. unfold zsum. by rewrite (foldr_sum_perm f _ _ (elements_union_singleton X m H)). Qed.

Lemma zsum_ext X f g : (∀ m, m ∈ X → f m = g m) → zsum X f = zsum X g.
Proof.
  intros H. unfold zsum. assert (Hl : ∀ m, m ∈ elements X → f m = g m) by (intros m Hm; apply H; by apply elem_of_elements).
  induction (elements X) as [|a l IH]; [done|]. simpl. rewrite IH by (intros m Hm; apply Hl; by right). by rewrite (Hl a) by by left.
Qed.

Lemma zsum_update m X f g : m ∈ X → (∀ m', m' ≠ m → g m' = f m') → zsum X g = zsum X f + (g m - f m).
Proof.
  intros Hm H. rewrite (union_difference_singleton_L m X Hm). rewrite !zsum_insert by set_solver.
  rewrite (zsum_ext _ g f); [lia|]. intros m' Hm'. apply H. set_solver.
Qed.

Lemma zsum_bound X f b : (∀ m, Z.abs (f m) ≤ b) → Z.abs (zsum X f) ≤ Z.of_nat (size X) * b.
Proof.
  intros H. change (size X) with (length (elements X)). unfold zsum. induction (elements X) as [|a l IH]; [simpl; lia|].
  cbn [foldr length]. specialize (H a). rewrite Nat2Z.inj_succ. lia.
Qed.

Section Inv.
Context {B : BigNumber} {W : BigNumberLaws B}.
(** What a match id stands for: its row and its two fills in steps of [10^-18]. *)
Context (content : string → mrow) (za zb : string → Z).

Record content_ok : Prop := {
  co_id : ∀ m, m_id (content m) = m;
  co_legs : ∀ m, leg_a (m_fills (content m)) ≠ leg_b (m_fills (content m));
  co_a : ∀ m, text_steps 18 (f_a_amount (m_fills (content m))) (za m) ∧ 0 ≤ za m < 10 ^ 40;
  co_b : ∀ m, text_steps 18 (f_b_amount (m_fills (content m))) (zb m) ∧ 0 ≤ zb m < 10 ^ 40 }.
Context (Hco : content_ok).

(** ** The ledger as a sum *)

(** What a match gives to, and gets from, an offer. *)
Definition gives (k : string * Z) (m : string) : Z :=
  if decide (k = leg_a (m_fills (content m))) then za m else if decide (k = leg_b (m_fills (content m))) then zb m else 0.
Definition gets (k : string * Z) (m : string) : Z :=
  if decide (k = leg_a (m_fills (content m))) then zb m else if decide (k = leg_b (m_fills (content m))) then za m else 0.

Definition holds (L : ledger) (G R : string * Z → Z) : Prop :=
  ∀ k, text_steps 18 (l_give (default nothing (L !! k))) (G k) ∧ text_steps 18 (l_get (default nothing (L !! k))) (R k).

Lemma gives_range k m : 0 ≤ gives k m < 10 ^ 40.
Proof. destruct Hco. destruct (co_a0 m) as [_ ?], (co_b0 m) as [_ ?]. unfold gives. repeat case_decide; lia. Qed.
Lemma gets_range k m : 0 ≤ gets k m < 10 ^ 40.
Proof. destruct Hco. destruct (co_a0 m) as [_ ?], (co_b0 m) as [_ ?]. unfold gets. repeat case_decide; lia. Qed.

Definition signed (plus : bool) (z : Z) : Z := if plus then z else - z.

Lemma holds_commit L G R m plus :
  holds L G R → (∀ k, Z.abs (G k) < 10 ^ 63 ∧ Z.abs (R k) < 10 ^ 63) →
  holds (applyCommit (m_fills (content m)) plus L) (λ k, G k + signed plus (gives k m)) (λ k, R k + signed plus (gets k m)).
Proof.
  intros HL Hb k. destruct Hco as [_ Hlegs Ha Hbb]. destruct (Ha m) as [Ta Ra], (Hbb m) as [Tb Rb]. specialize (Hlegs m).
  unfold applyCommit. destruct (decide _) as [E|_]; [congruence|]. destruct (Hb k) as [HG HR]. destruct (HL k) as [Tg Tr].
  assert (Hadj : ∀ cur amt x y, text_steps 18 cur x → text_steps 18 amt y → Z.abs x < 10 ^ 63 → 0 ≤ y < 10 ^ 40 → text_steps 18 (adjust plus cur amt) (x + signed plus y)).
  { intros cur amt x y Hx Hy Bx By. unfold signed. destruct plus.
    - by apply (adjust_text 18 true); [lia| | |lia].
    - replace (x + - y) with (x - y) by lia. by apply (adjust_text 18 false); [lia| | |lia]. }
  unfold gives, gets. unfold ledger in *. destruct (decide (k = leg_a _)) as [->|Na].
  - rewrite lookup_insert_ne by congruence. rewrite lookup_insert_eq. cbn [default from_option id apply_a l_give l_get]. split; apply Hadj; done.
  - destruct (decide (k = leg_b _)) as [->|Nb].
    + rewrite lookup_insert_eq. cbn [default from_option id apply_b l_give l_get]. split; apply Hadj; done.
    + rewrite !lookup_insert_ne by congruence. unfold signed. destruct plus; cbn [Z.opp]; rewrite !Z.add_0_r; done.
Qed.

Lemma holds_proper L G R G' R' : holds L G R → (∀ k, G k = G' k) → (∀ k, R k = R' k) → holds L G' R'.
Proof. intros HL HG HR k. rewrite <-HG, <-HR. apply HL. Qed.

Lemma holds_empty : holds ∅ (λ _, 0) (λ _, 0).
Proof. intros k. unfold ledger in *. rewrite lookup_empty. split; apply text_steps_zero. Qed.

Definition total (X : gset string) (c : string → Z) (side : string * Z → string → Z) (k : string * Z) : Z := zsum X (λ m, c m * side k m).

Lemma total_bound X c side k :
  (∀ m, Z.abs (c m) ≤ 2) → (∀ m, 0 ≤ side k m < 10 ^ 40) → Z.of_nat (size X) ≤ 2 ^ 63 → Z.abs (total X c side k) < 10 ^ 63.
Proof.
  intros Hc Hs HX. pose proof (zsum_bound X (λ m, c m * side k m) (2 * 10 ^ 40)) as H.
  assert (∀ m, Z.abs (c m * side k m) ≤ 2 * 10 ^ 40).
  { intros m. specialize (Hc m). specialize (Hs m). rewrite Z.abs_mul. rewrite (Z.abs_eq (side k m)) by lia. nia. }
  unfold total. specialize (H ltac:(done)). lia.
Qed.

Lemma total_update X c c' m side k :
  m ∈ X → (∀ m', m' ≠ m → c' m' = c m') → total X c' side k = total X c side k + (c' m - c m) * side k m.
Proof. intros Hm H. unfold total. rewrite (zsum_update m X (λ m, c m * side k m)); [lia|done|]. intros m' Hne. by rewrite H. Qed.

Lemma total_insert X c m side k : m ∉ X → c m = 0 → total ({[m]} ∪ X) c side k = total X c side k.
Proof. intros Hm H. unfold total. rewrite zsum_insert by done. rewrite H. lia. Qed.

Definition sums (L : ledger) (X : gset string) (c : string → Z) : Prop := holds L (total X c gives) (total X c gets).

(** One credit or release moves one match's count by one. *)
Lemma sums_commit L X c c' m plus :
  sums L X c → m ∈ X → (∀ m', Z.abs (c m') ≤ 2) → Z.of_nat (size X) ≤ 2 ^ 63 →
  (∀ m', m' ≠ m → c' m' = c m') → c' m = c m + signed plus 1 → sums (applyCommit (m_fills (content m)) plus L) X c'.
Proof.
  intros HL Hm Hc HX Ho Hn. unfold sums. eapply holds_proper.
  - apply holds_commit; [exact HL|]. intros k. split; apply total_bound; try done; [apply gives_range|apply gets_range].
  - intros k. cbn beta. rewrite (total_update X c c' m) by done. rewrite Hn. destruct plus; unfold signed; lia.
  - intros k. cbn beta. rewrite (total_update X c c' m) by done. rewrite Hn. destruct plus; unfold signed; lia.
Qed.
End Inv.

Section Props.
Context {B : BigNumber} {W : BigNumberLaws B}.
Context (content : string → mrow) (za zb : string → Z) (Hco : content_ok content za zb).

(** A match id stands for one content, rows are only written by this hub, and a
    retraction begins when none is under way. *)
Definition event_ok (ev : event) (s : engine) : Prop :=
  match ev with Begin r => r = content (m_id r) | Import _ => False | Retract _ _ => active s = [] | _ => True end.

Definition current (s : engine) : option retraction := hd_error (active s).
Lemma current_with rt s : current (with_active [rt] s) = Some rt.
Proof. done. Qed.

(** The table's row ids are of 64 bits. *)
Inductive reachable : engine → Prop :=
  | R_initial : reachable initial
  | R_step s ev s' : reachable s → event_ok ev s → step ev s = Some s' → Z.of_nat (size (dom (db s'))) ≤ 2 ^ 63 → reachable s'.

Definition live (s : engine) (m : string) : Prop := ∃ r, db s !! m = Some (DbRow r true).

(** The rows a retraction has selected and not marked yet. *)
Definition to_mark (st : stage) (m : string) : Prop :=
  match st with Waiting => True | Marking rows _ | Releasing _ rows _ => m ∈ m_id <$> rows end.

(** A finalized row of which the ledger does not hold the fills. *)
Definition unpaid (s : engine) (n : nat) (m : string) : Prop :=
  ∃ t, tokens s !! n = Some t ∧ m_id (t_row t) = m ∧
    (t_phase t = Written true ∨
     t_phase t = Finished true false ∧ ∃ rt, current s = Some rt ∧ n ∈ rt_covered rt ∧ to_mark (rt_stage rt) m).

(** A marked row of which the ledger still holds the fills. *)
Definition owed (s : engine) (m : string) : Prop :=
  ∃ rt r rows u, current s = Some rt ∧ rt_stage rt = Releasing r rows u ∧ m_id r = m ∧ m ∉ u.

(** [z] copies of the fills of [m] in the ledger. *)
Definition counted (s : engine) (m : string) (z : Z) : Prop :=
  ∃ l u o : Z, (l = 1 ∧ live s m ∨ l = 0 ∧ ¬ live s m) ∧ (u = 1 ∧ (∃ n, unpaid s n m) ∨ u = 0 ∧ ¬ ∃ n, unpaid s n m) ∧
    (o = 1 ∧ owed s m ∨ o = 0 ∧ ¬ owed s m) ∧ z = l - u + o.

Definition selection (st : stage) : option (list mrow * list string) :=
  match st with Waiting => None | Marking rows u | Releasing _ rows u => Some (rows, u) end.

Record inv (s : engine) : Prop := {
  i_solo : (length (active s) ≤ 1)%nat;
  i_db : ∀ m x, db s !! m = Some x → d_row x = content m;
  i_tok : ∀ n t, tokens s !! n = Some t → t_row t = content (m_id (t_row t)) ∧ t_seq t ≤ retractionSeq s;
  i_seq : ∀ e, e ∈ fence s → e_seq e ≤ retractionSeq s;
  i_fence : ∀ n t e, tokens s !! n = Some t → pending_write t = true → e ∈ fence s → t_seq t < e_seq e →
    retractionCovers e (t_row t) = true →
    ∃ rt, current s = Some rt ∧ rt_entry rt = e ∧ rt_stage rt = Waiting ∧ n ∈ rt_covered rt;
  i_cov : ∀ rt n, current s = Some rt → n ∈ rt_covered rt →
    ∃ t, tokens s !! n = Some t ∧ retractionCovers (rt_entry rt) (t_row t) = true ∧ (rt_stage rt ≠ Waiting → pending_write t = false);
  i_live : ∀ n m, unpaid s n m → live s m;
  i_once : ∀ n n' m, unpaid s n m → unpaid s n' m → n = n';
  i_rows : ∀ rt rows u, current s = Some rt → selection (rt_stage rt) = Some (rows, u) →
    NoDup (m_id <$> rows) ∧ ∀ r, r ∈ rows → r = content (m_id r) ∧ live s (m_id r) ∧
      (∀ n t, tokens s !! n = Some t → t_phase t = Written true → m_id (t_row t) ≠ m_id r) ∧
      (m_id r ∈ u ↔ ∃ n, unpaid s n (m_id r));
  i_released : ∀ rt r rows u, current s = Some rt → rt_stage rt = Releasing r rows u → r = content (m_id r) ∧ is_Some (db s !! m_id r);
  i_led : ∃ c, (∀ m, counted s m (c m)) ∧ sums content za zb (led s) (dom (db s)) c }.

Lemma counted_range s m z : counted s m z → Z.abs z ≤ 2.
Proof. intros (l & u & o & [[-> _]|[-> _]] & [[-> _]|[-> _]] & [[-> _]|[-> _]] & ->); simpl; lia. Qed.

(** A state that agrees on what the counts read has the same counts. *)
Lemma counted_iff s s' m z :
  (live s m ↔ live s' m) → ((∃ n, unpaid s n m) ↔ ∃ n, unpaid s' n m) → (owed s m ↔ owed s' m) → counted s m z → counted s' m z.
Proof. intros Hl Hu Ho (l & u & o & H1 & H2 & H3 & ->). exists l, u, o. rewrite <-Hl, <-Hu, <-Ho. done. Qed.

Lemma store_inv_initial : inv initial.
Proof.
  assert (Hn : ∀ n m, ¬ unpaid initial n m) by (intros n m (t & Ht & _); by destruct n).
  constructor; try done; try (cbn; lia).
  - intros e He. by apply elem_of_nil in He.
  - intros n m H. by apply Hn in H.
  - intros n n' m H. by apply Hn in H.
  - exists (λ _, 0). split.
    + intros m. exists 0, 0, 0. split_and!; [right|right|right|done]; (split; [done|]).
      * by intros [r Hr].
      * intros [n H]. by apply Hn in H.
      * by intros (? & ? & ? & ? & ? & _).
    + eapply holds_proper; [apply holds_empty|..]; intros k; unfold total, zsum; simpl; by rewrite dom_empty_L, elements_empty.
Qed.

(** ** Changing one write's phase *)

(** Neither before nor after is the row of the write unpaid. *)
Definition neutral (p : phase) : Prop := p ≠ Written true ∧ p ≠ Finished true false.

Lemma set_phase_lookup n t p s n' t' :
  tokens s !! n = Some t → tokens (set_phase n t p s) !! n' = Some t' →
  n' = n ∧ t' = Token (t_seq t) (t_row t) p ∨ n' ≠ n ∧ tokens s !! n' = Some t'.
Proof.
  intros Hn. unfold set_phase, with_tokens. cbn [tokens]. intros H. apply list_lookup_insert_Some in H as [(-> & <- & _)|[? ?]]; auto.
Qed.

Lemma set_phase_same n t p s : tokens s !! n = Some t → tokens (set_phase n t p s) !! n = Some (Token (t_seq t) (t_row t) p).
Proof. intros H. unfold set_phase, with_tokens. cbn [tokens]. apply list_lookup_insert_eq. by eapply lookup_lt_Some. Qed.

Lemma set_phase_other n t p s n' : n' ≠ n → tokens (set_phase n t p s) !! n' = tokens s !! n'.
Proof. intros H. unfold set_phase, with_tokens. cbn [tokens]. by apply list_lookup_insert_ne. Qed.

Lemma neutral_unpaid n t p s k m :
  tokens s !! n = Some t → neutral (t_phase t) → neutral p → unpaid (set_phase n t p s) k m ↔ unpaid s k m.
Proof.
  intros Hn [N1 N2] [P1 P2]. unfold unpaid. split.
  - intros (t' & Ht & Hm & Hp). apply (set_phase_lookup n t p s k t' Hn) in Ht as [[-> ->]|[Hk Ht]]; [simpl in Hp; tauto|]. by exists t'.
  - intros (t' & Ht & Hm & Hp). destruct (decide (k = n)) as [->|Hk]; [rewrite Hn in Ht; injection Ht as ->; tauto|].
    exists t'. by rewrite set_phase_other.
Qed.

Lemma store_inv_neutral n t p s :
  inv s → tokens s !! n = Some t → pending_write t = true → neutral (t_phase t) → neutral p → inv (set_phase n t p s).
Proof.
  intros I Hn Hpend Nt Np. assert (Hu := λ k m, neutral_unpaid n t p s k m Hn Nt Np). destruct I. constructor; try done.
  - intros k t' Ht. apply (set_phase_lookup n t p s k t' Hn) in Ht as [[-> ->]|[Hk Ht]]; [by apply (i_tok0 n t)|by apply (i_tok0 k)].
  - intros k t' e Ht Hp He Hs Hc. apply (set_phase_lookup n t p s k t' Hn) in Ht as [[-> ->]|[Hk Ht]]; [by apply (i_fence0 n t)|by apply (i_fence0 k t')].
  - intros rt k Ha Hk. destruct (i_cov0 rt k Ha Hk) as (t' & Ht & Hc & Hw). destruct (decide (k = n)) as [->|Hne].
    + rewrite Hn in Ht. injection Ht as <-. exists (Token (t_seq t) (t_row t) p). split; [by apply set_phase_same|]. split; [done|].
      intros Hst. apply Hw in Hst. congruence.
    + exists t'. by rewrite set_phase_other.
  - intros k m Hk. apply Hu in Hk. by eapply i_live0.
  - intros k k' m Hk Hk'. apply Hu in Hk, Hk'. by eapply i_once0.
  - intros rt rows u Ha Hs. destruct (i_rows0 rt rows u Ha Hs) as [H1 H2]. split; [done|]. intros r Hr. destruct (H2 r Hr) as (Hc & Hl & Hw & Hin).
    split_and!; [done|done| |].
    + intros k t' Ht Hp. apply (set_phase_lookup n t p s k t' Hn) in Ht as [[-> ->]|[Hk Ht]]; [by destruct Np|by eapply Hw].
    + rewrite Hin. split; intros [k Hk]; exists k; by apply Hu.
  - destruct i_led0 as (c & Hc & Hl). exists c. split; [|done]. intros m. eapply counted_iff; [..|apply Hc]; [done| |done].
    split; intros [k Hk]; exists k; by apply Hu.
Qed.

(** Pruning only forgets entries. *)
Lemma store_inv_prune s : inv s → inv (pruneRetractionFence s).
Proof.
  intros []. constructor; try done.
  - intros e [_ He]%list_elem_of_filter. by apply i_seq0.
  - intros n t e Ht Hp [_ He]%list_elem_of_filter. by apply i_fence0.
Qed.

Lemma store_inv_finish n t i a s :
  inv s → tokens s !! n = Some t → pending_write t = true → neutral (t_phase t) → neutral (Finished i a) → inv (finish n t i a s).
Proof. intros. apply store_inv_prune. by apply store_inv_neutral. Qed.

(** ** The events *)

Lemma store_inv_begin s r : inv s → r = content (m_id r) → inv (with_tokens (tokens s ++ [Token (retractionSeq s) r Persisting]) s).
Proof.
  intros I Hr. set (t0 := Token (retractionSeq s) r Persisting).
  assert (Hl : ∀ n t, (tokens s ++ [t0]) !! n = Some t → tokens s !! n = Some t ∨ t = t0).
  { intros n t [H|[_ H]]%lookup_app_Some; [by left|]. right. by apply list_lookup_singleton_Some in H as [_ ->]. }
  assert (Hu : ∀ n m, unpaid (with_tokens (tokens s ++ [t0]) s) n m ↔ unpaid s n m).
  { intros n m. unfold unpaid. cbn [tokens with_tokens active]. split; intros (t & Ht & Hm & Hp).
    - apply Hl in Ht as [Ht| ->]; [by exists t|]. simpl in Hp. destruct Hp as [Hp|[Hp _]]; discriminate Hp.
    - exists t. split; [|done]. by apply lookup_app_l_Some. }
  destruct I. constructor; try done.
  - intros n t Ht. apply Hl in Ht as [Ht| ->]; [by apply (i_tok0 n)|]. split; [done|]. simpl. lia.
  - intros n t e Ht Hp He Hs Hc. apply Hl in Ht as [Ht| ->]; [by apply (i_fence0 n t)|]. specialize (i_seq0 e He). simpl in Hs. lia.
  - intros rt n Ha Hn. destruct (i_cov0 rt n Ha Hn) as (t & Ht & H). exists t. split; [|done]. by apply lookup_app_l_Some.
  - intros n m Hn. apply Hu in Hn. by eapply i_live0.
  - intros n n' m Hn Hn'. apply Hu in Hn, Hn'. by eapply i_once0.
  - intros rt rows u Ha Hs. destruct (i_rows0 rt rows u Ha Hs) as [H1 H2]. split; [done|]. intros x Hx. destruct (H2 x Hx) as (Hc & Hlv & Hw & Hin).
    split_and!; [done|done| |].
    + intros n t Ht Hp. apply Hl in Ht as [Ht| ->]; [by eapply Hw|discriminate Hp].
    + rewrite Hin. split; intros [n Hn]; exists n; by apply Hu.
  - destruct i_led0 as (c & Hc & Hs). exists c. split; [|done]. intros m. eapply counted_iff; [..|apply Hc]; [done| |done].
    split; intros [n Hn]; exists n; by apply Hu.
Qed.

(** A row becomes finalized by a write whose continuation is still to run. *)
Lemma store_inv_written n t s :
  inv s → tokens s !! n = Some t → pending_write t = true → neutral (t_phase t) → ¬ live s (m_id (t_row t)) →
  inv (set_phase n t (Written true) (with_db (<[m_id (t_row t) := DbRow (content (m_id (t_row t))) true]> (db s)) s)).
Proof.
  intros I Hn Hpend [N1 N2] Hdead. set (m := m_id (t_row t)) in *. set (s0 := with_db (<[m := DbRow (content m) true]> (db s)) s).
  assert (Hlive : ∀ m', live (set_phase n t (Written true) s0) m' ↔ m' = m ∨ live s m').
  { intros m'. unfold live. cbn [db set_phase with_tokens s0 with_db]. split.
    - intros [r H]. apply lookup_insert_Some in H as [[-> _]|[_ H]]; [by left|right; by exists r].
    - destruct (decide (m' = m)) as [->|Hne]; [intros _; exists (content m); apply lookup_insert_eq|].
      intros [?|[r H]]; [done|]. exists r. by rewrite lookup_insert_ne. }
  assert (Hn0 : tokens s0 !! n = Some t) by exact Hn.
  assert (Hu : ∀ k m', unpaid (set_phase n t (Written true) s0) k m' ↔ k = n ∧ m' = m ∨ unpaid s k m').
  { intros k m'. unfold unpaid. split.
    - intros (t' & Ht & Hm & Hp). apply (set_phase_lookup n t _ s0 k t' Hn0) in Ht as [[-> ->]|[Hk Ht]]; [left; by subst m'|]. right. by exists t'.
    - intros [[-> ->]|(t' & Ht & Hm & Hp)].
      + exists (Token (t_seq t) (t_row t) (Written true)). split; [by apply set_phase_same|]. split; [done|by left].
      + destruct (decide (k = n)) as [->|Hk]; [rewrite Hn in Ht; injection Ht as <-; tauto|]. exists t'. by rewrite set_phase_other. }
  assert (Hdom : dom (db (set_phase n t (Written true) s0)) = {[m]} ∪ dom (db s)) by (cbn [db set_phase with_tokens s0 with_db]; by rewrite dom_insert_L).
  destruct I. constructor; try done.
  - intros m' x H. cbn [db set_phase with_tokens s0 with_db] in H. apply lookup_insert_Some in H as [[<- <-]|[_ H]]; [done|by apply i_db0].
  - intros k t' Ht. apply (set_phase_lookup n t _ s0 k t' Hn0) in Ht as [[-> ->]|[Hk Ht]]; [by apply (i_tok0 n t)|by apply (i_tok0 k)].
  - intros k t' e Ht Hp He Hs Hc. apply (set_phase_lookup n t _ s0 k t' Hn0) in Ht as [[-> ->]|[Hk Ht]]; [by apply (i_fence0 n t)|by apply (i_fence0 k t')].
  - intros rt k Ha Hk. destruct (i_cov0 rt k Ha Hk) as (t' & Ht & Hc & Hw). destruct (decide (k = n)) as [->|Hne].
    + rewrite Hn in Ht. injection Ht as <-. exists (Token (t_seq t) (t_row t) (Written true)). split; [by apply set_phase_same|]. split; [done|].
      intros Hst. apply Hw in Hst. congruence.
    + exists t'. by rewrite set_phase_other.
  - intros k m' Hk. apply Hlive. apply Hu in Hk as [[_ ->]|Hk]; [by left|]. right. by eapply i_live0.
  - intros k k' m' Hk Hk'. apply Hu in Hk as [[-> ->]|Hk], Hk' as [[-> E]|Hk']; [done| | |by eapply i_once0].
    + by apply i_live0 in Hk'.
    + subst m'. by apply i_live0 in Hk.
  - intros rt rows u Ha Hs. destruct (i_rows0 rt rows u Ha Hs) as [H1 H2]. split; [done|]. intros x Hx. destruct (H2 x Hx) as (Hc & Hlv & Hw & Hin).
    assert (Hxm : m_id x ≠ m) by (intros E; rewrite E in Hlv; done). split_and!; [done|apply Hlive; by right| |].
    + intros k t' Ht Hp. apply (set_phase_lookup n t _ s0 k t' Hn0) in Ht as [[-> ->]|[Hk Ht]]; [simpl; by apply not_eq_sym|by eapply Hw].
    + rewrite Hin. split; intros [k Hk]; exists k; [apply Hu; by right|]. apply Hu in Hk as [[_ E]|Hk]; [done|done].
  - intros rt r rows u Ha Hs. destruct (i_released0 rt r rows u Ha Hs) as [Hr [x Hx]]. split; [done|].
    cbn [db set_phase with_tokens s0 with_db]. destruct (decide (m_id r = m)) as [->|?]; [rewrite lookup_insert_eq; eauto|rewrite lookup_insert_ne by done; eauto].
  - destruct i_led0 as (c & Hc & Hs). exists c. split.
    + intros m'. destruct (decide (m' = m)) as [->|Hne].
      * destruct (Hc m) as (l & u & o & [[-> H1]|[-> _]] & [[-> [k H2]]|[-> _]] & H3 & ->); [done|done|by apply i_live0 in H2|].
        exists 1, 1, o. split_and!; [left; split; [done|]|left; split; [done|]|exact H3|lia].
        { apply Hlive. by left. }
        { exists n. apply Hu. by left. }
      * eapply counted_iff; [..|apply Hc]; [|  |done].
        { rewrite Hlive. tauto. }
        { split; intros [k Hk]; exists k; [apply Hu; by right|]. apply Hu in Hk as [[_ ?]|?]; done. }
    + change (led (set_phase n t (Written true) s0)) with (led s). rewrite Hdom. destruct (decide (m ∈ dom (db s))) as [Hin|Hout].
      * by replace ({[m]} ∪ dom (db s)) with (dom (db s)) by set_solver.
      * assert (c m = 0) as Hz.
        { destruct (Hc m) as (l & u & o & [[-> H1]|[-> _]] & [[-> [k H2]]|[-> _]] & [[-> H3]|[-> _]] & ->); try done; [by apply i_live0 in H2|].
          destruct H3 as (rt & r & rows & u & Ha & Hst & Hm & _). destruct (i_released0 rt r rows u Ha Hst) as [_ Hsome].
          rewrite Hm in Hsome. by apply elem_of_dom in Hsome. }
        eapply holds_proper; [exact Hs|..]; intros k; by rewrite total_insert.
Qed.

Lemma unpaid_written s n t : tokens s !! n = Some t → t_phase t = Written true → unpaid s n (m_id (t_row t)).
Proof. intros Hn Hp. exists t. auto. Qed.

(** The continuation of a write that no retraction covers credits the ledger. *)
Lemma store_inv_credit n t s :
  inv s → tokens s !! n = Some t → t_phase t = Written true → Z.of_nat (size (dom (db s))) ≤ 2 ^ 63 →
  inv (set_phase n t (Mirroring true) (with_led (applyCommit (m_fills (t_row t)) true (led s)) s)).
Proof.
  intros I Hn Hp Hroom. set (s0 := with_led (applyCommit (m_fills (t_row t)) true (led s)) s). set (m := m_id (t_row t)).
  assert (Hn0 : tokens s0 !! n = Some t) by exact Hn. pose proof (unpaid_written s n t Hn Hp) as Hun. fold m in Hun.
  assert (Hpend : pending_write t = true) by (unfold pending_write; by rewrite Hp).
  assert (Hu : ∀ k m', unpaid (set_phase n t (Mirroring true) s0) k m' ↔ k ≠ n ∧ unpaid s k m').
  { intros k m'. unfold unpaid. split.
    - intros (t' & Ht & Hm & Hq). apply (set_phase_lookup n t _ s0 k t' Hn0) in Ht as [[-> ->]|[Hk Ht]]; [simpl in Hq; destruct Hq as [?|[? _]]; done|].
      split; [done|]. by exists t'.
    - intros [Hk (t' & Ht & Hm & Hq)]. exists t'. by rewrite set_phase_other. }
  destruct I. constructor; try done.
  - intros k t' Ht. apply (set_phase_lookup n t _ s0 k t' Hn0) in Ht as [[-> ->]|[Hk Ht]]; [by apply (i_tok0 n t)|by apply (i_tok0 k)].
  - intros k t' e Ht Hq He Hs Hc. apply (set_phase_lookup n t _ s0 k t' Hn0) in Ht as [[-> ->]|[Hk Ht]]; [by apply (i_fence0 n t)|by apply (i_fence0 k t')].
  - intros rt k Ha Hk. destruct (i_cov0 rt k Ha Hk) as (t' & Ht & Hc & Hw). destruct (decide (k = n)) as [->|Hne].
    + rewrite Hn in Ht. injection Ht as <-. exists (Token (t_seq t) (t_row t) (Mirroring true)). split; [by apply set_phase_same|]. split; [done|].
      intros Hst. apply Hw in Hst. congruence.
    + exists t'. by rewrite set_phase_other.
  - intros k m' [_ Hk]%Hu. by apply (i_live0 k).
  - intros k k' m' [_ Hk]%Hu [_ Hk']%Hu. by eapply i_once0.
  - intros rt rows u Ha Hs. destruct (i_rows0 rt rows u Ha Hs) as [H1 H2]. split; [done|]. intros x Hx. destruct (H2 x Hx) as (Hc & Hlv & Hw & Hin).
    split_and!; [done|done| |].
    + intros k t' Ht Hq. apply (set_phase_lookup n t _ s0 k t' Hn0) in Ht as [[-> ->]|[Hk Ht]]; [done|by eapply Hw].
    + rewrite Hin. split; intros [k Hk]; exists k; [|by apply Hu in Hk as [_ ?]]. apply Hu. split; [|done]. intros ->.
      destruct Hk as (t' & Ht & Hm & _). rewrite Hn in Ht. injection Ht as <-. by apply (Hw n t Hn Hp).
  - destruct i_led0 as (c & Hc & Hs). exists (λ m', if decide (m' = m) then c m + 1 else c m'). split.
    + intros m'. destruct (decide (m' = m)) as [->|Hne].
      * destruct (Hc m) as (l & u & o & H1 & [[-> H2]|[-> H2]] & H3 & ->); [|destruct H2; by exists n].
        exists l, 0, o. split_and!; [exact H1| |exact H3|lia]. right. split; [done|]. intros [k [Hk Hk']%Hu]. destruct Hk. by eapply i_once0.
      * eapply counted_iff; [..|apply Hc]; [done| |done]. split; intros [k Hk]; exists k; [apply Hu; split; [|done]|by apply Hu in Hk as [_ ?]].
        intros ->. destruct Hk as (t' & Ht & Hm & _). rewrite Hn in Ht. by injection Ht as <-.
    + change (led (set_phase n t (Mirroring true) s0)) with (applyCommit (m_fills (t_row t)) true (led s)).
      change (db (set_phase n t (Mirroring true) s0)) with (db s). destruct (i_tok0 n t Hn) as [-> _]. fold m.
      eapply (sums_commit content za zb Hco _ _ c _ m true); [exact Hs| |intros m'; by eapply counted_range|exact Hroom|intros m' Hne; by rewrite decide_False|by rewrite decide_True].
      destruct (i_live0 n m Hun) as [r Hr]. by apply elem_of_dom_2 in Hr.
Qed.

(** The continuation of a write that an active retraction covers leaves the fills
    to that retraction. *)
Lemma store_inv_left n t s :
  inv s → tokens s !! n = Some t → t_phase t = Written true → retractedSince (fence s) (t_seq t) (t_row t) = true →
  inv (finish n t true false s).
Proof.
  intros I Hn Hp Hret. apply store_inv_prune. set (m := m_id (t_row t)).
  assert (Hpend : pending_write t = true) by (unfold pending_write; by rewrite Hp).
  apply existsb_exists in Hret as (e & He%list_elem_of_In & [Hlt%Z.ltb_lt Hc]%andb_true_iff).
  destruct (i_fence s I n t e Hn Hpend He Hlt Hc) as (rt & Ha & Hent & Hst & Hcov).
  assert (Hu : ∀ k m', unpaid (set_phase n t (Finished true false) s) k m' ↔ unpaid s k m').
  { intros k m'. unfold unpaid. split.
    - intros (t' & Ht & Hm & Hq). apply (set_phase_lookup n t _ s k t' Hn) in Ht as [[-> ->]|[Hk Ht]]; [exists t; auto|]. by exists t'.
    - intros (t' & Ht & Hm & Hq). destruct (decide (k = n)) as [->|Hk].
      + rewrite Hn in Ht. injection Ht as <-. exists (Token (t_seq t) (t_row t) (Finished true false)). split; [by apply set_phase_same|]. split; [done|].
        right. split; [done|]. exists rt. rewrite Hst. done.
      + exists t'. by rewrite set_phase_other. }
  destruct I. constructor; try done.
  - intros k t' Ht. apply (set_phase_lookup n t _ s k t' Hn) in Ht as [[-> ->]|[Hk Ht]]; [by apply (i_tok0 n t)|by apply (i_tok0 k)].
  - intros k t' e' Ht Hq He' Hs Hc'. apply (set_phase_lookup n t _ s k t' Hn) in Ht as [[-> ->]|[Hk Ht]]; [by apply (i_fence0 n t)|by apply (i_fence0 k t')].
  - intros rt' k Ha' Hk. destruct (i_cov0 rt' k Ha' Hk) as (t' & Ht & Hc' & Hw). destruct (decide (k = n)) as [->|Hne].
    + rewrite Hn in Ht. injection Ht as <-. exists (Token (t_seq t) (t_row t) (Finished true false)). split; [by apply set_phase_same|]. done.
    + exists t'. by rewrite set_phase_other.
  - intros k m' Hk%Hu. by apply (i_live0 k).
  - intros k k' m' Hk%Hu Hk'%Hu. by eapply i_once0.
  - intros rt' rows u Ha' Hs. change (current s = Some rt') in Ha'. rewrite Ha in Ha'. injection Ha' as <-. by rewrite Hst in Hs.
  - destruct i_led0 as (c & Hc' & Hs). exists c. split; [|done]. intros m'. eapply counted_iff; [..|apply Hc']; [done| |done].
    split; intros [k Hk]; exists k; by apply Hu.
Qed.

(** ** Retractions *)

Lemma covered_from_spec e l k n : n ∈ covered_from e k l ↔ (k ≤ n)%nat ∧ ∃ t, l !! (n - k)%nat = Some t ∧ waits_for e t = true.
Proof.
  revert k. induction l as [|t l IH]; intros k.
  { split; [intros H; by apply elem_of_nil in H|intros [_ (t & Ht & _)]; by rewrite lookup_nil in Ht]. }
  assert (E : n ∈ covered_from e k (t :: l) ↔ n = k ∧ waits_for e t = true ∨ n ∈ covered_from e (S k) l).
  { cbn [covered_from]. destruct (waits_for e t); [rewrite elem_of_cons|]; intuition congruence. }
  rewrite E, IH. split.
  - intros [[-> Hw]|[Hk (t' & Ht & Hw)]]; [split; [lia|]; exists t; by rewrite Nat.sub_diag|]. split; [lia|]. exists t'.
    by replace (n - k)%nat with (S (n - S k)) by lia.
  - intros [Hk (t' & Ht & Hw)]. destruct (decide (n = k)) as [->|Hne].
    + rewrite Nat.sub_diag in Ht. injection Ht as <-. by left.
    + right. split; [lia|]. exists t'. by replace (n - k)%nat with (S (n - S k)) in Ht by lia.
Qed.

Lemma store_inv_retract s chain b :
  inv s → current s = None →
  let e := Entry (retractionSeq s + 1) chain b in
  inv (pruneRetractionFence (with_active [Retraction e (covered_from e 0 (tokens s)) Waiting]
         (Engine (db s) (led s) (tokens s) (fence s ++ [e]) (retractionSeq s + 1) (active s)))).
Proof.
  intros I Hnone e. apply store_inv_prune. set (rt := Retraction e (covered_from e 0 (tokens s)) Waiting).
  assert (Hcov : ∀ n, n ∈ rt_covered rt ↔ ∃ t, tokens s !! n = Some t ∧ waits_for e t = true).
  { intros n. unfold rt. cbn [rt_covered]. rewrite covered_from_spec, Nat.sub_0_r. intuition lia. }
  assert (Hu : ∀ k m', unpaid (with_active [rt] (Engine (db s) (led s) (tokens s) (fence s ++ [e]) (retractionSeq s + 1) (active s))) k m' ↔ unpaid s k m').
  { intros k m'. unfold unpaid. cbn [tokens with_active]. rewrite current_with, Hnone. split; intros (t & Ht & Hm & Hp); exists t; (split; [done|]; split; [done|]).
    - destruct Hp as [Hp|(Hp & rt' & [= <-] & Hk & _)]; [by left|]. apply Hcov in Hk as (t' & Ht' & Hw). rewrite Ht in Ht'. injection Ht' as <-.
      unfold waits_for, pending_write in Hw. by rewrite Hp in Hw.
    - destruct Hp as [Hp|(Hp & rt' & Hf & _)]; [by left|done]. }
  destruct I. constructor; try done; cbn [db led tokens fence retractionSeq with_active]; try (cbn; lia).
  - intros n t Ht. destruct (i_tok0 n t Ht). split; [done|]. lia.
  - intros e' [He| ->%list_elem_of_singleton]%elem_of_app; [specialize (i_seq0 e' He); lia|]. simpl. lia.
  - intros n t e' Ht Hp [He| ->%list_elem_of_singleton]%elem_of_app Hs Hc.
    + destruct (i_fence0 n t e' Ht Hp He Hs Hc) as (rt' & Ha & _). congruence.
    + exists rt. split_and!; [done|done|done|]. apply Hcov. exists t. split; [done|]. unfold waits_for. rewrite Hp, Hc.
      apply Z.ltb_lt in Hs. by rewrite Hs.
  - intros rt' n [= <-] Hn. apply Hcov in Hn as (t & Ht & Hw). exists t. split; [done|]. unfold waits_for in Hw.
    apply andb_true_iff in Hw as [_ Hw]. split; [done|]. by intros [].
  - intros k m' Hk%Hu. by apply (i_live0 k).
  - intros k k' m' Hk%Hu Hk'%Hu. by eapply i_once0.
  - intros rt' rows u [= <-] Hs. discriminate Hs.
  - intros rt' r rows u [= <-] Hs. discriminate Hs.
  - destruct i_led0 as (c & Hc' & Hs). exists c. split; [|done]. intros m'. eapply counted_iff; [..|apply Hc']; [done| |].
    + split; intros [k Hk]; exists k; by apply Hu.
    + split; intros (rt' & r & rows & u & Ha & Hst & _); [congruence|]. injection Ha as <-. discriminate Hst.
Qed.

Lemma selected_spec e d r : r ∈ selected e d ↔ ∃ m x, d !! m = Some x ∧ d_live x = true ∧ retractionCovers e (d_row x) = true ∧ r = d_row x.
Proof.
  unfold selected. rewrite list_elem_of_omap. split.
  - intros ([m x] & Hx & H). apply elem_of_map_to_list in Hx. cbn [snd] in H. destruct (d_live x) eqn:E1, (retractionCovers e (d_row x)) eqn:E2; try done.
    injection H as <-. by exists m, x.
  - intros (m & x & Hx & H1 & H2 & ->). exists (m, x). split; [by apply elem_of_map_to_list|]. cbn [snd]. by rewrite H1, H2.
Qed.

Lemma selected_once e d : (∀ m x, d !! m = Some x → m_id (d_row x) = m) → NoDup (m_id <$> selected e d).
Proof.
  intros H. unfold selected. pose proof (NoDup_fst_map_to_list d) as Hn.
  assert (Hl : ∀ p, p ∈ map_to_list d → m_id (d_row p.2) = p.1) by (intros [m x] Hp%elem_of_map_to_list; by apply H).
  induction (map_to_list d) as [|p l IH]; [constructor|]. cbn [omap list_omap]. inversion Hn as [|? ? Hp Hn']; subst.
  assert (Hl' : ∀ q, q ∈ l → m_id (d_row q.2) = q.1) by (intros q Hq; apply Hl; by right).
  destruct (d_live p.2 && retractionCovers e (d_row p.2)); [|by apply IH]. rewrite fmap_cons. constructor; [|by apply IH].
  intros (r & Er & Hr)%list_elem_of_fmap. apply list_elem_of_omap in Hr as (q & Hq & Hqr). destruct (_ && _); [|done]. injection Hqr as <-.
  apply Hp. rewrite Hl in Er by by left. rewrite Hl' in Er by done. rewrite Er. apply list_elem_of_fmap. by exists q.
Qed.

Lemma uncommitted_spec ts cov m :
  m ∈ uncommitted_of ts cov ↔ ∃ n t, n ∈ cov ∧ ts !! n = Some t ∧ m_id (t_row t) = m ∧ t_phase t = Finished true false.
Proof.
  unfold uncommitted_of. rewrite list_elem_of_omap. split.
  - intros (n & Hn & H). destruct (ts !! n) as [[q r p]|] eqn:E; [|done]. destruct p as [| | | | |[] []]; try done. injection H as <-.
    by exists n, (Token q r (Finished true false)).
  - intros (n & [q r p] & Hn & Ht & Hm & Hp). cbn [t_row t_phase] in *. subst p m. exists n. split; [done|]. by rewrite Ht.
Qed.

Lemma store_inv_select s rt :
  inv s → current s = Some rt → rt_stage rt = Waiting →
  forallb (finished_at (tokens s)) (rt_covered rt) = true →
  forallb (λ t, negb match t_phase t with Written true => retractionCovers (rt_entry rt) (t_row t) | _ => false end) (tokens s) = true →
  inv (with_active [Retraction (rt_entry rt) (rt_covered rt) (Marking (selected (rt_entry rt) (db s)) (uncommitted_of (tokens s) (rt_covered rt)))] s).
Proof.
  intros I Hact Hst Hfin Hset. rewrite forallb_forall in Hfin, Hset.
  set (rows := selected (rt_entry rt) (db s)). set (rt' := Retraction (rt_entry rt) (rt_covered rt) (Marking rows _)).
  assert (Hids : ∀ m x, db s !! m = Some x → m_id (d_row x) = m) by (intros m x Hx; rewrite (i_db s I m x Hx); apply Hco).
  assert (Hrow : ∀ m, m ∈ m_id <$> rows ↔ live s m ∧ retractionCovers (rt_entry rt) (content m) = true).
  { intros m. rewrite list_elem_of_fmap. split.
    - intros (r & -> & Hr). apply selected_spec in Hr as (m & x & Hx & H1 & H2 & ->). rewrite (Hids m x Hx). destruct x as [r []]; [|done].
      split; [by exists r|]. pose proof (i_db s I m _ Hx) as Hc. cbn [d_row] in *. congruence.
    - intros [[r Hr] Hc]. exists r. pose proof (i_db s I m _ Hr) as Hc'. cbn [d_row] in Hc'. split; [symmetry; exact (Hids m _ Hr)|].
      apply selected_spec. exists m, (DbRow r true). cbn [d_live d_row]. split_and!; [done|done| |done]. by rewrite Hc'. }
  assert (Hw : ∀ n t, tokens s !! n = Some t → t_phase t = Written true → m_id (t_row t) ∉ m_id <$> rows).
  { intros n t Ht Hp [_ Hc]%Hrow. destruct (i_tok s I n t Ht) as [Et _]. rewrite <-Et in Hc.
    apply list_elem_of_lookup_2, list_elem_of_In, Hset in Ht. rewrite Hp, Hc in Ht. discriminate Ht. }
  assert (Hu : ∀ k m', unpaid (with_active [rt'] s) k m' ↔ unpaid s k m').
  { intros k m'. unfold unpaid. cbn [tokens with_active]. rewrite current_with, Hact. split; intros (t & Ht & Hm & Hp); exists t; (split; [done|]; split; [done|]);
      (destruct Hp as [Hp|(Hp & r' & [= <-] & Hk & Hmark)]; [by left|]; right; split; [done|]).
    - exists rt. rewrite Hst. done.
    - exists rt'. split; [done|]. split; [done|]. cbn [to_mark rt_stage rt']. apply Hrow. split.
      + apply (i_live s I k). exists t. split; [done|]. split; [done|]. right. split; [done|]. by exists rt.
      + destruct (i_cov s I rt k Hact Hk) as (t' & Ht' & Hc & _). rewrite Ht in Ht'. injection Ht' as <-.
        destruct (i_tok s I k t Ht) as [Et _]. rewrite <-Hm, <-Et. done. }
  pose proof I as I'. destruct I. constructor; try done.
  - intros n t e Ht Hp He Hs Hc. exfalso. change (tokens s !! n = Some t) in Ht. destruct (i_fence0 n t e Ht Hp He Hs Hc) as (r' & Ha & _ & _ & Hn). rewrite Hact in Ha. injection Ha as <-.
    apply list_elem_of_In, Hfin in Hn. unfold finished_at in Hn. rewrite Ht in Hn. apply negb_true_iff in Hn. congruence.
  - intros r' n [= <-] Hn. destruct (i_cov0 rt n Hact Hn) as (t & Ht & Hc & _). exists t. split; [done|]. split; [done|]. intros _.
    apply list_elem_of_In, Hfin in Hn. unfold finished_at in Hn. rewrite Ht in Hn. by apply negb_true_iff in Hn.
  - intros k m' Hk%Hu. by apply (i_live0 k).
  - intros k k' m' Hk%Hu Hk'%Hu. by eapply i_once0.
  - intros r' rs u [= <-] Hs. injection Hs as <- <-. split; [by apply selected_once|]. intros r Hr.
    assert (Hin : m_id r ∈ m_id <$> rows) by (apply list_elem_of_fmap; by exists r).
    split_and!.
    + apply selected_spec in Hr as (m & x & Hx & _ & _ & ->). rewrite (Hids m x Hx). by apply (i_db0 m x).
    + by apply Hrow in Hin as [? _].
    + intros n t Ht Hp E. apply (Hw n t Ht Hp). by rewrite E.
    + rewrite uncommitted_spec. split.
      * intros (n & t & Hn & Ht & Hm & Hp). exists n. apply Hu. exists t. split; [done|]. split; [done|]. right. split; [done|]. exists rt. by rewrite Hst.
      * intros [n (t & Ht & Hm & [Hp|(Hp & r' & Ha & Hn & _)])%Hu]; [exfalso; apply (Hw n t Ht Hp); by rewrite Hm|].
        rewrite Hact in Ha. injection Ha as <-. by exists n, t.
  - intros r' r rs u [= <-] Hs. discriminate Hs.
  - destruct i_led0 as (c & Hc' & Hs). exists c. split; [|done]. intros m'. eapply counted_iff; [..|apply Hc']; [done| |].
    + split; intros [k Hk]; exists k; by apply Hu.
    + split; intros (r' & r & rs & u & Ha & Hs' & _); [rewrite Hact in Ha; injection Ha as <-; congruence|]. injection Ha as <-. discriminate Hs'.
Qed.

(** A row is marked: what its ledger count was is now owed, or was never paid. *)
Lemma store_inv_mark s rt r rows u :
  inv s → current s = Some rt → rt_stage rt = Marking (r :: rows) u →
  let d := match db s !! m_id r with Some x => <[m_id r := DbRow (d_row x) false]> (db s) | None => db s end in
  inv (with_active [Retraction (rt_entry rt) (rt_covered rt) (Releasing r rows u)] (with_db d s)).
Proof.
  intros I Hact Hst. assert (Hsel : selection (rt_stage rt) = Some (r :: rows, u)) by by rewrite Hst.
  destruct (i_rows s I rt _ _ Hact Hsel) as [Hnd Hrs]. destruct (Hrs r ltac:(by left)) as (Hr & [r0 Hlive] & Hw & Hin).
  rewrite Hlive. cbn [d_row]. set (m := m_id r) in *. set (d := <[m := DbRow r0 false]> (db s)). cbv zeta.
  set (s' := with_active [Retraction (rt_entry rt) (rt_covered rt) (Releasing r rows u)] (with_db d s)).
  apply NoDup_cons in Hnd as [Hm Hnd]. fold m in Hm.
  assert (Hl : ∀ m', live s' m' ↔ m' ≠ m ∧ live s m').
  { intros m'. unfold live. cbn [db s' with_active with_db]. unfold d. split.
    - intros [x H]. apply lookup_insert_Some in H as [[-> H]|[? H]]; [discriminate H|]. split; [by apply not_eq_sym|by exists x].
    - intros [Hne [x H]]. exists x. by rewrite lookup_insert_ne by by apply not_eq_sym. }
  assert (Hu : ∀ k m', unpaid s' k m' ↔ m' ≠ m ∧ unpaid s k m').
  { intros k m'. unfold unpaid. cbn [tokens s' with_active with_db active]. rewrite Hact. split.
    - intros (t & Ht & Hmt & Hp). assert (Hne : m' ≠ m).
      { intros ->. destruct Hp as [Hp|(_ & rt' & [= <-] & _ & Hmark)]; [by apply (Hw k t Ht Hp)|done]. }
      split; [done|]. exists t. split; [done|]. split; [done|]. destruct Hp as [Hp|(Hp & rt' & [= <-] & Hk & Hmark)]; [by left|right]. split; [done|].
      exists rt. split; [done|]. split; [done|]. rewrite Hst. cbn [to_mark rt_stage] in *. rewrite fmap_cons. by right.
    - intros [Hne (t & Ht & Hmt & Hp)]. exists t. split; [done|]. split; [done|]. destruct Hp as [Hp|(Hp & rt' & [= <-] & Hk & Hmark)]; [by left|right]. split; [done|].
      eexists. split; [done|]. split; [done|]. rewrite Hst in Hmark. cbn [to_mark rt_stage] in *. rewrite fmap_cons in Hmark.
      apply elem_of_cons in Hmark as [->|?]; done. }
  assert (Hdom : dom d = dom (db s)) by (unfold d; rewrite dom_insert_L; apply elem_of_dom_2 in Hlive; set_solver).
  assert (Hno : ¬ owed s m) by (intros (rt' & x & xs & v & Ha & Hs & _); rewrite Hact in Ha; injection Ha as <-; congruence).
  destruct I. constructor; try done.
  - intros m' x H. cbn [db s' with_active with_db] in H. unfold d in H. apply lookup_insert_Some in H as [[<- <-]|[_ H]]; [|by apply i_db0].
    by apply (i_db0 m _ Hlive).
  - intros n t e Ht Hp He Hs Hc. exfalso. change (tokens s !! n = Some t) in Ht. destruct (i_fence0 n t e Ht Hp He Hs Hc) as (rt' & Ha & _ & Hwait & _).
    rewrite Hact in Ha. injection Ha as <-. congruence.
  - intros rt' n [= <-] Hn. destruct (i_cov0 rt n Hact Hn) as (t & Ht & Hc & Hf). exists t. split; [done|]. split; [done|]. intros _. apply Hf. by rewrite Hst.
  - intros k m' [Hne Hk]%Hu. apply Hl. split; [done|]. by apply (i_live0 k).
  - intros k k' m' [_ Hk]%Hu [_ Hk']%Hu. by eapply i_once0.
  - intros rt' xs v [= <-] Hs. injection Hs as <- <-. split; [done|]. intros x Hx. destruct (Hrs x ltac:(by right)) as (Hc & Hlx & Hwx & Hux).
    assert (Hne : m_id x ≠ m) by (intros E; apply Hm; rewrite <-E; apply list_elem_of_fmap; by exists x).
    split_and!; [done|by apply Hl|exact Hwx|]. rewrite Hux. split; intros [k Hk]; exists k; [by apply Hu|by apply Hu in Hk as [_ ?]].
  - intros rt' x xs v [= <-] Hs. injection Hs as <- <- <-. split; [done|]. cbn [db s' with_active with_db]. unfold d, m. rewrite lookup_insert_eq. eauto.
  - destruct i_led0 as (c & Hc & Hs). exists c. change (db s') with d. rewrite Hdom. split; [|done]. intros m'. destruct (decide (m' = m)) as [->|Hne].
    + destruct (Hc m) as (l & v & o & [[-> _]|[-> Hnl]] & H2 & [[-> Ho]|[-> _]] & ->); [by destruct Hno| |by destruct Hnl; exists r0|by destruct Hnl; exists r0].
      exists 0, 0, (1 - v). split_and!; [right; split; [done|]|right; split; [done|]| |lia].
      * by intros [? _]%Hl.
      * by intros [k [? _]%Hu].
      * destruct H2 as [[-> H2]|[-> H2]]; [right|left]; (split; [done|]).
        -- intros (rt' & x & xs & v & [= <-] & Hs' & _ & Hnu). injection Hs' as <- <- <-. apply Hnu. by apply Hin.
        -- eexists _, r, rows, u. split; [done|]. split; [done|]. split; [done|]. rewrite Hin. done.
    + eapply counted_iff; [..|apply Hc].
      * rewrite Hl. tauto.
      * split; intros [k Hk]; exists k; [by apply Hu|by apply Hu in Hk as [_ ?]].
      * split; intros (rt' & x & xs & v & Ha & Hs' & Hmx & _); [rewrite Hact in Ha; injection Ha as <-; congruence|].
        injection Ha as <-. injection Hs' as <- <- <-. done.
Qed.

(** The state after a marked row's capacity has been seen to. *)
Lemma store_inv_release s rt r rows u :
  inv s → current s = Some rt → rt_stage rt = Releasing r rows u → Z.of_nat (size (dom (db s))) ≤ 2 ^ 63 →
  inv (with_active [Retraction (rt_entry rt) (rt_covered rt) (Marking rows u)]
         (if bool_decide (m_id r ∈ u) then s else with_led (applyCommit (m_fills r) false (led s)) s)).
Proof.
  intros I Hact Hst Hroom. set (s1 := if bool_decide _ then s else _).
  assert (E1 : db s1 = db s ∧ tokens s1 = tokens s ∧ fence s1 = fence s ∧ retractionSeq s1 = retractionSeq s) by (unfold s1; by destruct (bool_decide _)).
  destruct E1 as (Ed & Et & Ef & Eq). set (s' := with_active _ s1). set (m := m_id r).
  destruct (i_released s I rt r rows u Hact Hst) as [Hr [x Hx]].
  assert (Eled : led s' = if bool_decide (m ∈ u) then led s else applyCommit (m_fills (content m)) false (led s)).
  { change (led s') with (led s1). unfold s1, m. rewrite <-Hr. by destruct (bool_decide _). }
  assert (Hl : ∀ m', live s' m' ↔ live s m') by (intros m'; unfold live; change (db s') with (db s1); by rewrite Ed).
  assert (Hu : ∀ k m', unpaid s' k m' ↔ unpaid s k m').
  { intros k m'. unfold unpaid. change (tokens s') with (tokens s1). cbn [active s' with_active]. rewrite Et, Hact.
    split; intros (t & Ht & Hm & Hp); exists t; (split; [done|]; split; [done|]); (destruct Hp as [Hp|(Hp & rt' & [= <-] & Hk & Hmark)]; [by left|]; right; split; [done|]);
      (eexists; split; [done|]; split; [done|]); [by rewrite Hst|by rewrite Hst in Hmark]. }
  assert (Hno : ∀ m', ¬ owed s' m') by (intros m' (rt' & y & ys & v & [= <-] & Hs & _); discriminate Hs).
  assert (Ho : ∀ m', owed s m' ↔ m' = m ∧ m ∉ u).
  { intros m'. split.
    - intros (rt' & y & ys & v & Ha & Hs & <- & Hv). rewrite Hact in Ha. injection Ha as <-. rewrite Hst in Hs. injection Hs as <- <- <-. done.
    - intros [-> Hv]. by exists rt, r, rows, u. }
  destruct I. constructor.
  - cbn. lia.
  - change (db s') with (db s1). by rewrite Ed.
  - change (tokens s') with (tokens s1). change (retractionSeq s') with (retractionSeq s1). by rewrite Et, Eq.
  - change (fence s') with (fence s1). change (retractionSeq s') with (retractionSeq s1). by rewrite Ef, Eq.
  - change (tokens s') with (tokens s1). change (fence s') with (fence s1). rewrite Et, Ef. intros n t e Ht Hp He Hs Hc. exfalso.
    destruct (i_fence0 n t e Ht Hp He Hs Hc) as (rt' & Ha & _ & Hwait & _). rewrite Hact in Ha. injection Ha as <-. congruence.
  - change (tokens s') with (tokens s1). rewrite Et. intros rt' n [= <-] Hn. destruct (i_cov0 rt n Hact Hn) as (t & Ht & Hc & Hf).
    exists t. split; [done|]. split; [done|]. intros _. apply Hf. by rewrite Hst.
  - intros k m' Hk%Hu. apply Hl. by apply (i_live0 k).
  - intros k k' m' Hk%Hu Hk'%Hu. by eapply i_once0.
  - change (tokens s') with (tokens s1). rewrite Et. intros rt' ys v [= <-] Hs. injection Hs as <- <-.
    destruct (i_rows0 rt rows u Hact ltac:(by rewrite Hst)) as [H1 H2]. split; [done|]. intros y Hy. destruct (H2 y Hy) as (Hc & Hlv & Hw & Hin).
    split_and!; [done|by apply Hl|done|]. rewrite Hin. split; intros [k Hk]; exists k; by apply Hu.
  - intros rt' y ys v [= <-] Hs. discriminate Hs.
  - destruct i_led0 as (c & Hc & Hs). change (db s') with (db s1). rewrite Ed.
    assert (Hoth : ∀ m' z, ¬ owed s m' → counted s m' z → counted s' m' z).
    { intros m' z Hn. apply counted_iff; [by rewrite Hl|split; intros [k Hk]; exists k; by apply Hu|]. split; [done|]. by intros ?%Hno. }
    rewrite Eled. destruct (bool_decide (m ∈ u)) eqn:Eu; bools.
    + exists c. split; [|done].
      intros m'. apply Hoth; [|done]. by rewrite Ho; intros [_ ?].
    + exists (λ m', if decide (m' = m) then c m - 1 else c m'). split.
      * intros m'. destruct (decide (m' = m)) as [->|Hne]; [|apply Hoth; [|done]; rewrite Ho; by intros [? _]].
        destruct (Hc m) as (l & v & o & H1 & H2 & [[-> _]|[-> Hn]] & ->); [|destruct Hn; by apply Ho].
        exists l, v, 0. rewrite Hl. split_and!; [exact H1| |right; split; [done|apply Hno]|lia].
        destruct H2 as [[-> [k Hk]]|[-> Hn]]; [left; split; [done|]; exists k; by apply Hu|right; split; [done|]]. intros [k Hk%Hu]. by apply Hn; exists k.
      * eapply (sums_commit content za zb Hco _ _ c _ m false); [exact Hs|by apply elem_of_dom_2 in Hx|intros m'; by eapply counted_range|exact Hroom|intros m' Hne; by rewrite decide_False|].
        rewrite decide_True by done. unfold signed. lia.
Qed.

Lemma store_inv_done s rt u : inv s → current s = Some rt → rt_stage rt = Marking [] u → inv (with_active [] s).
Proof.
  intros I Hact Hst.
  assert (Hu : ∀ k m', unpaid (with_active [] s) k m' ↔ unpaid s k m').
  { intros k m'. unfold unpaid. cbn [tokens with_active]. rewrite Hact. change (current (with_active [] s)) with (@None retraction).
    split; intros (t & Ht & Hm & Hp); exists t; (split; [done|]; split; [done|]);
      (destruct Hp as [Hp|(Hp & rt' & Ha & Hk & Hmark)]; [by left|]); [done|]. injection Ha as <-. rewrite Hst in Hmark. by apply elem_of_nil in Hmark. }
  destruct I. constructor; try done; try (cbn; lia).
  - intros n t e Ht Hp He Hs Hc. exfalso. change (tokens s !! n = Some t) in Ht. destruct (i_fence0 n t e Ht Hp He Hs Hc) as (rt' & Ha & _ & Hwait & _).
    rewrite Hact in Ha. injection Ha as <-. congruence.
  - intros k m' Hk%Hu. by apply (i_live0 k).
  - intros k k' m' Hk%Hu Hk'%Hu. by eapply i_once0.
  - destruct i_led0 as (c & Hc & Hs). exists c. split; [|done]. intros m'. eapply counted_iff; [..|apply Hc]; [done| |].
    + split; intros [k Hk]; exists k; by apply Hu.
    + split; [intros (rt' & x & xs & v & Ha & Hs' & _)|by intros (rt' & x & xs & v & Ha & _)]. rewrite Hact in Ha. injection Ha as <-. congruence.
Qed.

(** ** The rebuild *)

(** One for a finalized row. *)
Definition is_live (d : gmap string dbrow) (m : string) : Z := match d !! m with Some x => if d_live x then 1 else 0 | None => 0 end.

Lemma is_live_live s m : is_live (db s) m = 1 ∧ live s m ∨ is_live (db s) m = 0 ∧ ¬ live s m.
Proof.
  unfold is_live, live. destruct (db s !! m) as [[r []]|] eqn:E; [left|right|right]; (split; [done|]); [by exists r|..]; by intros [? ?].
Qed.

Lemma rebuild_from X l : ∀ L c,
  sums content za zb L X c → Z.of_nat (size X) ≤ 2 ^ 63 → NoDup l.*1 → (∀ m, Z.abs (c m) ≤ 1) →
  (∀ m x, (m, x) ∈ l → m ∈ X ∧ d_row x = content m ∧ c m = 0) →
  ∃ c', sums content za zb (foldl (λ L r, applyCommit r true L) L
          (omap (λ p : string * dbrow, if d_live p.2 then Some (m_fills (d_row p.2)) else None) l)) X c' ∧
    (∀ m x, (m, x) ∈ l → c' m = if d_live x then 1 else 0) ∧ (∀ m, m ∉ l.*1 → c' m = c m).
Proof.
  induction l as [|[m x] l IH]; intros L c HL HX Hnd Hc Hl.
  { exists c. split_and!; [done|intros m x H; by apply elem_of_nil in H|done]. }
  rewrite fmap_cons in Hnd. apply NoDup_cons in Hnd as [Hm Hnd]. cbn [fst] in Hm. destruct (Hl m x ltac:(by left)) as (HmX & Hx & Hz).
  cbn [omap list_omap snd]. set (c1 := λ m', if decide (m' = m) then (if d_live x then 1 else 0) else c m').
  assert (Hc1 : ∀ m', Z.abs (c1 m') ≤ 1) by (intros m'; unfold c1; case_decide; [by destruct (d_live x)|done]).
  assert (Hl1 : ∀ m' y, (m', y) ∈ l → m' ∈ X ∧ d_row y = content m' ∧ c1 m' = 0).
  { intros m' y Hy. destruct (Hl m' y ltac:(by right)) as (? & ? & ?). unfold c1. rewrite decide_False; [done|].
    intros ->. apply Hm. apply list_elem_of_fmap. by exists (m, y). }
  assert (H1 : sums content za zb (if d_live x then applyCommit (m_fills (content m)) true L else L) X c1).
  { destruct (d_live x) eqn:E.
    - eapply (sums_commit content za zb Hco L X c c1 m true); [done|done|intros m'; specialize (Hc m'); lia|done|intros m' Hne; unfold c1; by rewrite decide_False|].
      unfold c1. rewrite decide_True by done. rewrite Hz. done.
    - eapply holds_proper; [exact HL|..]; intros k; apply zsum_ext; intros m' _; unfold c1; case_decide as Em; try done; subst m'; by rewrite Hz. }
  destruct (IH _ c1 H1 HX Hnd Hc1 Hl1) as (c' & Hs & Hin & Hout). exists c'. split_and!.
  - rewrite Hx. by destruct (d_live x).
  - intros m' y [[= -> ->]|Hy]%elem_of_cons; [|by apply Hin]. rewrite Hout by done. unfold c1. by rewrite decide_True.
  - intros m' Hm'. rewrite fmap_cons, not_elem_of_cons in Hm'. destruct Hm' as [Hne Hm']. rewrite Hout by done. unfold c1. by rewrite decide_False.
Qed.

Lemma rebuilt_sums d : (∀ m x, d !! m = Some x → d_row x = content m) → Z.of_nat (size (dom d)) ≤ 2 ^ 63 →
  sums content za zb (rebuilt (live_rows d)) (dom d) (is_live d).
Proof.
  intros Hd Hroom.
  assert (H0 : sums content za zb ∅ (dom d) (λ _, 0)).
  { eapply holds_proper; [apply holds_empty|..]; intros k; unfold total; symmetry;
      (transitivity (zsum (dom d) (λ _, 0)); [by apply zsum_ext|unfold zsum; induction (elements _); simpl; lia]). }
  destruct (rebuild_from (dom d) (map_to_list d) ∅ (λ _, 0) H0 Hroom (NoDup_fst_map_to_list d) ltac:(simpl; lia)) as (c & Hs & Hin & _).
  { intros m x Hx%elem_of_map_to_list. split; [by apply elem_of_dom_2 in Hx|]. split; [by apply Hd|done]. }
  eapply holds_proper; [exact Hs|..]; intros k; apply zsum_ext; intros m [x Hx]%elem_of_dom; cbn beta;
    rewrite (Hin m x) by (by apply elem_of_map_to_list); unfold is_live; by rewrite Hx.
Qed.

Lemma store_inv_restart s : inv s → Z.of_nat (size (dom (db s))) ≤ 2 ^ 63 → inv (Engine (db s) (rebuilt (live_rows (db s))) [] [] 0 []).
Proof.
  intros [] Hroom. set (s' := Engine (db s) _ [] [] 0 []).
  assert (Hn : ∀ n m, ¬ unpaid s' n m) by (intros n m (t & Ht & _); by destruct n).
  constructor; try done; try (cbn; lia).
  - intros e He. by apply elem_of_nil in He.
  - intros n m H. by apply Hn in H.
  - intros n n' m H. by apply Hn in H.
  - exists (is_live (db s)). split; [|by apply rebuilt_sums]. intros m. destruct (is_live_live s' m) as [[E H]|[E H]]; change (db s') with (db s) in E; rewrite E.
    + exists 1, 0, 0. split_and!; [by left|right|right|done]; (split; [done|]); [by intros [n ?%Hn]|by intros (? & ? & ? & ? & ? & _)].
    + exists 0, 0, 0. split_and!; [by right|right|right|done]; (split; [done|]); [by intros [n ?%Hn]|by intros (? & ? & ? & ? & ? & _)].
Qed.

(** ** Every event *)

Lemma solo_lookup s i rt : inv s → active s !! i = Some rt → i = 0%nat ∧ current s = Some rt ∧ active s = [rt].
Proof.
  intros I Hi. pose proof (i_solo s I) as Hl. pose proof (lookup_lt_Some _ _ _ Hi) as Hlt. unfold current.
  destruct (active s) as [|x [|y l]]; cbn in *; [lia| |lia]. assert (i = 0%nat) as -> by lia. by injection Hi as ->.
Qed.

Lemma at_stage_solo rt st s s0 : active s0 = active s → active s = [rt] →
  at_stage 0 rt st s0 = with_active [Retraction (rt_entry rt) (rt_covered rt) st] s0.
Proof. intros E Ha. unfold at_stage. by rewrite E, Ha. Qed.

Ltac by_phase Hp := first [done | unfold pending_write; by rewrite Hp | rewrite ?Hp; unfold neutral; split; congruence].

Ltac unfold_step := cbn [step]; unfold afterSnapshot, insertRow, reviveRow, writeFails, settleWrite, afterMirror.
Ltac unfold_step_in H := cbn [step] in H; unfold recordRetraction, selectRows, markRow, releaseRow, endRetraction in H.

Lemma store_inv_write_event s ev s' :
  inv s → Z.of_nat (size (dom (db s))) ≤ 2 ^ 63 →
  (∃ n, (∃ b, ev = Snapshot n b) ∨ ev = Insert n ∨ ev = Revive n ∨ ev = WriteFails n ∨ ev = Settle n ∨ ev = Mirrored n) →
  step ev s = Some s' → inv s'.
Proof.
  intros I Hroom [n Hev]. destruct (tokens s !! n) as [t|] eqn:Hn.
  2: { destruct Hev as [[b ->]|[->|[->|[->|[->| ->]]]]]; unfold_step; by rewrite Hn. }
  assert (Hrow : t_row t = content (m_id (t_row t))) by by apply (i_tok s I n t).
  destruct Hev as [[b ->]|[->|[->|[->|[->| ->]]]]]; unfold_step; rewrite Hn; cbn [mbind option_bind]; destruct (t_phase t) eqn:Hp; try done.
  - intros <-%(inj Some). on_if; [apply store_inv_neutral|apply store_inv_finish]; by_phase Hp.
  - intros <-%(inj Some). destruct (db s !! m_id (t_row t)) as [x|] eqn:Hx.
    + apply store_inv_neutral; by_phase Hp.
    + rewrite Hrow at 2. apply store_inv_written; try by_phase Hp.
      intros [r Hr]. congruence.
  - intros <-%(inj Some). destruct (db s !! m_id (t_row t)) as [[r []]|] eqn:Hx.
    + apply store_inv_neutral; by_phase Hp.
    + pose proof (i_db s I _ _ Hx) as Hr. cbn [d_row] in Hr. rewrite Hr. apply store_inv_written; try by_phase Hp.
      intros [y Hy]. congruence.
    + apply store_inv_neutral; by_phase Hp.
  - intros <-%(inj Some). apply store_inv_finish; by_phase Hp.
  - intros <-%(inj Some). apply store_inv_finish; by_phase Hp.
  - intros <-%(inj Some). destruct (retractedSince _ _ _) eqn:Hret; destruct inserted.
    + by apply store_inv_left.
    + apply store_inv_finish; by_phase Hp.
    + by apply store_inv_credit.
    + apply store_inv_neutral; by_phase Hp.
  - intros <-%(inj Some). apply store_inv_finish; by_phase Hp.
Qed.

Lemma store_inv_step s ev s' : inv s → Z.of_nat (size (dom (db s))) ≤ 2 ^ 63 → event_ok ev s → step ev s = Some s' → inv s'.
Proof.
  intros I Hroom Hok Hstep. destruct ev as [r|n b|n|n|n|n|n|chain b|i|i|i|i|r|];
    try (eapply store_inv_write_event; [exact I|exact Hroom| |exact Hstep]; exists n; eauto 8; fail).
  - apply (inj Some) in Hstep as <-. apply store_inv_begin; [exact I|exact Hok].
  - apply (inj Some) in Hstep as <-. cbn [event_ok] in Hok. assert (Hnone : current s = None) by (unfold current; by rewrite Hok).
    pose proof (store_inv_retract s chain b I Hnone) as H. unfold recordRetraction. rewrite Hok in H |- *. exact H.
  - unfold_step_in Hstep. destruct (active s !! i) as [rt|] eqn:Ha; [|done]. cbn [mbind option_bind] in Hstep. destruct (rt_stage rt) eqn:Hs; try done.
    destruct (forallb _ (rt_covered rt)) eqn:H1; [|done]. destruct (forallb _ (tokens s)) eqn:H2; [|done]. cbn [andb] in Hstep.
    apply (inj Some) in Hstep as <-. destruct (solo_lookup s i rt I Ha) as (-> & Hcur & Hset). rewrite (at_stage_solo _ _ s) by done. by apply store_inv_select.
  - unfold_step_in Hstep. destruct (active s !! i) as [rt|] eqn:Ha; [|done]. cbn [mbind option_bind] in Hstep. destruct (rt_stage rt) as [|[|r rows] u|] eqn:Hs; try done.
    apply (inj Some) in Hstep as <-. destruct (solo_lookup s i rt I Ha) as (-> & Hcur & Hset). rewrite (at_stage_solo _ _ s) by done. by apply store_inv_mark.
  - unfold_step_in Hstep. destruct (active s !! i) as [rt|] eqn:Ha; [|done]. cbn [mbind option_bind] in Hstep. destruct (rt_stage rt) as [|?|r rows u] eqn:Hs; try done.
    apply (inj Some) in Hstep as <-. destruct (solo_lookup s i rt I Ha) as (-> & Hcur & Hset). rewrite (at_stage_solo _ _ s) by (done || by destruct (bool_decide (m_id r ∈ u))). by apply store_inv_release.
  - unfold_step_in Hstep. destruct (active s !! i) as [rt|] eqn:Ha; [|done]. cbn [mbind option_bind] in Hstep. destruct (rt_stage rt) as [|[|r rows] u|] eqn:Hs; try done.
    apply (inj Some) in Hstep as <-. destruct (solo_lookup s i rt I Ha) as (-> & Hcur & Hset). rewrite Hset. by eapply store_inv_done.
  - done.
  - apply (inj Some) in Hstep as <-. by apply store_inv_restart.
Qed.

Lemma reachable_inv s : reachable s → inv s ∧ Z.of_nat (size (dom (db s))) ≤ 2 ^ 63.
Proof.
  induction 1 as [|s ev s' _ [I Hr] Hok Hs Hroom]; [split; [apply store_inv_initial|change (db initial) with (∅ : gmap string dbrow); rewrite dom_empty_L, size_empty; lia]|].
  split; [|done]. by eapply store_inv_step.
Qed.

(** C5: the reservation ledger survives the interleaving of writes with a retraction.
    Take a run in which a match id stands for one row, no peer's catch-up writes rows,
    and a retraction begins when none is under way. Whenever no finalizing write and
    no retraction is in flight, however writes, failed writes, duplicate rounds,
    revived rows, the stretches of a retraction and restarts were interleaved before,
    the amounts the ledger has committed of every offer are those a restart would
    rebuild from the finalized rows: no fill is counted twice, lost, or released
    twice. Each of the three conditions is needed: see [revive_keeps_old_terms],
    [imported_match_unreserved] and [overlapping_retractions_release_twice]. *)
Theorem quiescent_ledger_is_rebuilt s k :
  reachable s → quiescent s →
  let held := default nothing (led s !! k) in
  let fresh := default nothing (rebuilt (live_rows (db s)) !! k) in
  (Decimal.value (l_give held) == Decimal.value (l_give fresh))%Q ∧ (Decimal.value (l_get held) == Decimal.value (l_get fresh))%Q.
Proof.
  intros Hr [Hnil Hq] held fresh. destruct (reachable_inv s Hr) as [I Hroom]. assert (Hact : current s = None) by (unfold current; by rewrite Hnil).
  assert (Hn : ∀ n m, ¬ unpaid s n m).
  { intros n m (t & Ht & _ & [Hp|(_ & rt & Ha & _)]); [|congruence]. specialize (Hq n t Ht). unfold pending_write in Hq. by rewrite Hp in Hq. }
  destruct (i_led s I) as (c & Hc & Hs). pose proof (rebuilt_sums (db s) (i_db s I) Hroom) as Hb.
  assert (E : ∀ m, c m = is_live (db s) m).
  { intros m. destruct (Hc m) as (l & u & o & H1 & [[-> [n H2]]|[-> _]] & [[-> (rt & ? & ? & ? & Ha & _)]|[-> _]] & ->); try congruence; try (by apply Hn in H2).
    destruct H1 as [[-> H1]|[-> H1]], (is_live_live s m) as [[-> H]|[-> H]]; done. }
  assert (Et : ∀ side, total (dom (db s)) c side k = total (dom (db s)) (is_live (db s)) side k).
  { intros side. apply zsum_ext. intros m _. by rewrite E. }
  destruct (Hs k) as [[_ G1] [_ G2]], (Hb k) as [[_ B1] [_ B2]]. unfold on_grid in *. rewrite Et in G1, G2.
  unfold held, fresh. by rewrite G1, G2, B1, B2.
Qed.
End Props.

(** ** Concrete runs *)

Definition row_of (amount : string) (generation : Z) : mrow := MRow "match" (Fills "LTC" 7 amount "DOGE" 9 "20") generation 1.

(** A match is finalized, retracted and, with other terms at the recycled action
    index, finalized again under the same id. *)
Definition recycled : list event :=
  [Begin (row_of "40" 1); Snapshot 0 true; Insert 0; Settle 0; Mirrored 0;
   Retract "LTC" (Bounds 7 None None); Select 0; Mark 0; Release 0; Done 0;
   Begin (row_of "25" 2); Snapshot 1 true; Insert 1; Revive 1; Settle 1; Mirrored 1].

Definition ltc_give (L : ledger) : string := l_give (default nothing (L !! ("LTC", 7))).

(** A revived row keeps its old terms. The match id leaves the amounts out, so a
    match that re-forms on a recycled action index with other amounts has the id of
    the retracted one; the write then only flips the old row back to finalized. The
    stored row is the match of 40 that was retracted, the ledger reserves the 25
    that were signed, and the two disagree until a restart. *)
Example revive_keeps_old_terms :
  match run recycled initial with
  | Some s => db s !! "match" = Some (DbRow (row_of "40" 1) true) ∧ ltc_give (led s) = "25" ∧ ltc_give (rebuilt (live_rows (db s))) = "40"
  | None => False
  end.
Proof. vm_compute. done. Qed.

(** A match a peer's catch-up stores is never reserved. The row is finalized,
    its own finalization later finds it there and credits nothing, and the ledger
    holds 0 of the 40 that a restart would reserve. *)
Example imported_match_unreserved :
  match run [Import (row_of "40" 1); Begin (row_of "40" 1); Snapshot 0 true; Insert 0; Revive 0; Settle 0; Mirrored 0] initial with
  | Some s => ltc_give (led s) = "0" ∧ ltc_give (rebuilt (live_rows (db s))) = "40"
  | None => False
  end.
Proof. vm_compute. done. Qed.

(** Two retractions of one reorg, each of which selects the row before the other
    marks it, both give its capacity back: the ledger holds 40 less than nothing. *)
Theorem overlapping_retractions_release_twice :
  match run [Begin (row_of "40" 1); Snapshot 0 true; Insert 0; Settle 0; Mirrored 0;
             Retract "LTC" (Bounds 7 None None); Retract "LTC" (Bounds 7 None None);
             Select 0; Select 1; Mark 0; Mark 1; Release 0; Release 1; Done 1; Done 0] initial with
  | Some s => active s = [] ∧ ltc_give (led s) = "-40" ∧ ltc_give (rebuilt (live_rows (db s))) = "0"
  | None => False
  end.
Proof. vm_compute. done. Qed.
