(* ===== verification/XState.v ===== *)
(** * Cross-chain rounds: data

    State of [CrossChainDexConsensus] ([src/cross_chain/dex_consensus.js] and
    [src/cross_chain/pbft/]), the round engine the DEX, the call relay, the bridge
    and the list shares run their rows through. What it asks of the engine that
    owns the rows is the class [Engine]. Rounds and rows are objects several
    holders share (the pending map, suspended handlers, the finalized cache), so
    both live in heaps. *)

From S2P Require Import Prelude Ordered GateRegistry BigNum Quorum.

(** ** The engine that owns the rows *)

(** [effectiveTimeMarginS(row)]: not a function of the engine, a throw, an
    answer ([None]: nullish or not finite), or a promise of one. *)
Inductive margin := NoMargin | MarginThrows | MarginNow (m : option Z) | MarginLater.

(** The contract the code duck-types: the row's id field, its declared
    [snapshot_block] and [network] as texts, its [effective_time] when finite,
    and the bytes that are signed ([None]: the builder throws). *)
Class Engine (Row : Type) := {
  row_id : Row → string;
  row_block : Row → string;
  row_network : Row → string;
  row_effective : Row → option Z;
  with_effective : Z → Row → Row;
  canonicalMatch : Row → Z → option string;
  effectiveTimeMarginS : Row → margin }.

(** Whether the stake-weighted quorum decides a row. *)
Definition row_weighted {Row} `{!Engine Row} (r : Row) : bool :=
  isStakeWeightedQuorumActive (parseInt (row_block r)) (row_network r).

(** ** The hub *)

Record env := Env {
  peers : bool;                            (** [this.peerManager] is there *)
  identity : option string;                (** [getPubkeyHex()] of the identity *)
  sign : string → string;
  edVerify : string → string → string → bool;  (** payload, signature, key: node's Ed25519 *)
  commitType : string;                     (** [types.COMMIT] *)
  vcTag : string; nvTag : string;          (** [controlTags] *)
  finalizedMax : nat;
  earlyMessageMaxDistinctIds : nat;
  earlyMessageMaxBytes : Z;
  roundMaxLifetimeMs : Z }.

Definition earlyMessageTtlMs : Z := 60 * 1000.
Definition earlyMessageMaxPerId : nat := 32.

(** ** Rounds *)

(** An entry of a validator array as the engine resolves it. *)
Record xvalidator := XValidator {
  x_pubkey : option string; x_source : option string; x_weight : option string; x_amount : option string }.

(** The set a round tallies against. *)
Record binding := Binding { b_validators : list vrow; b_quorum : Z; b_weighted : bool }.

Record round := Round {
  r_id : string;
  r_startedAt : Z;
  r_row : nat;                              (** reference to the row object *)
  r_canonical : string;
  r_bound : binding;
  r_view : Z;
  r_prepares : list string;
  r_commits : list string;
  r_signatures : list (string * string);    (** a Map, in insertion order *)
  r_viewChanges : gmap Z (list string);
  r_finalized : bool;
  r_commitSent : bool;
  r_timer : bool;
  r_cleanup : bool }.

Definition set_r_row v (r : round) : round := Round (r_id r) (r_startedAt r) v (r_canonical r) (r_bound r) (r_view r) (r_prepares r) (r_commits r) (r_signatures r) (r_viewChanges r) (r_finalized r) (r_commitSent r) (r_timer r) (r_cleanup r).
Definition set_r_canonical v (r : round) : round := Round (r_id r) (r_startedAt r) (r_row r) v (r_bound r) (r_view r) (r_prepares r) (r_commits r) (r_signatures r) (r_viewChanges r) (r_finalized r) (r_commitSent r) (r_timer r) (r_cleanup r).
Definition set_r_bound v (r : round) : round := Round (r_id r) (r_startedAt r) (r_row r) (r_canonical r) v (r_view r) (r_prepares r) (r_commits r) (r_signatures r) (r_viewChanges r) (r_finalized r) (r_commitSent r) (r_timer r) (r_cleanup r).
Definition set_r_view v (r : round) : round := Round (r_id r) (r_startedAt r) (r_row r) (r_canonical r) (r_bound r) v (r_prepares r) (r_commits r) (r_signatures r) (r_viewChanges r) (r_finalized r) (r_commitSent r) (r_timer r) (r_cleanup r).
Definition set_r_prepares v (r : round) : round := Round (r_id r) (r_startedAt r) (r_row r) (r_canonical r) (r_bound r) (r_view r) v (r_commits r) (r_signatures r) (r_viewChanges r) (r_finalized r) (r_commitSent r) (r_timer r) (r_cleanup r).
Definition set_r_commits v (r : round) : round := Round (r_id r) (r_startedAt r) (r_row r) (r_canonical r) (r_bound r) (r_view r) (r_prepares r) v (r_signatures r) (r_viewChanges r) (r_finalized r) (r_commitSent r) (r_timer r) (r_cleanup r).
Definition set_r_signatures v (r : round) : round := Round (r_id r) (r_startedAt r) (r_row r) (r_canonical r) (r_bound r) (r_view r) (r_prepares r) (r_commits r) v (r_viewChanges r) (r_finalized r) (r_commitSent r) (r_timer r) (r_cleanup r).
Definition set_r_viewChanges v (r : round) : round := Round (r_id r) (r_startedAt r) (r_row r) (r_canonical r) (r_bound r) (r_view r) (r_prepares r) (r_commits r) (r_signatures r) v (r_finalized r) (r_commitSent r) (r_timer r) (r_cleanup r).
Definition set_r_finalized v (r : round) : round := Round (r_id r) (r_startedAt r) (r_row r) (r_canonical r) (r_bound r) (r_view r) (r_prepares r) (r_commits r) (r_signatures r) (r_viewChanges r) v (r_commitSent r) (r_timer r) (r_cleanup r).
Definition set_r_commitSent v (r : round) : round := Round (r_id r) (r_startedAt r) (r_row r) (r_canonical r) (r_bound r) (r_view r) (r_prepares r) (r_commits r) (r_signatures r) (r_viewChanges r) (r_finalized r) v (r_timer r) (r_cleanup r).
Definition set_r_timer v (r : round) : round := Round (r_id r) (r_startedAt r) (r_row r) (r_canonical r) (r_bound r) (r_view r) (r_prepares r) (r_commits r) (r_signatures r) (r_viewChanges r) (r_finalized r) (r_commitSent r) v (r_cleanup r).
Definition set_r_cleanup v (r : round) : round := Round (r_id r) (r_startedAt r) (r_row r) (r_canonical r) (r_bound r) (r_view r) (r_prepares r) (r_commits r) (r_signatures r) (r_viewChanges r) (r_finalized r) (r_commitSent r) (r_timer r) v.

(** ** Messages

    Texts are the source's [String(v || '')]; [m_view] is [Number(d.view)] when it
    is an integer; [m_signatures] holds the entries that have a key and a
    signature. [R] is the row: its content on the wire, a reference once it has
    arrived. [m_size] is the length of the data's JSON text. *)

Inductive mtype := PROPOSE | PREPARE | COMMIT | VIEW_CHANGE | NEW_VIEW | FINAL_SYNC.

Record message (R : Type) := Msg {
  m_type : mtype; m_matchId : string; m_view : option Z; m_pubkey : string; m_sig : string; m_commit_sig : string;
  m_row : option R; m_signatures : list (string * string); m_size : Z }.
Arguments Msg {R}. Arguments m_type {R}. Arguments m_matchId {R}. Arguments m_view {R}. Arguments m_pubkey {R}.
Arguments m_sig {R}. Arguments m_commit_sig {R}. Arguments m_row {R}. Arguments m_signatures {R}. Arguments m_size {R}.

Section State.
Context {Row : Type}.

(** ** Effects *)

Inductive effect :=
| SendPropose (rid : string) (view : Z) (row : Row) (pk sig : string)
| SendPrepare (rid : string) (view : Z) (pk sig : string)
| SendCommit (rid : string) (view : Z) (pk : string) (sig : option string) (commit_sig : string)
| SendViewChange (rid : string) (view : Z) (pk sig : string)
| SendNewView (rid : string) (view : Z) (pk sig : string)
| SendFinalSync (rid : string) (row : Row) (sigs : list (string * string)) (view : Z)
| Finalized (rid : string) (row : Row) (sigs : list (string * string)) (view : Z) (bound : binding)
    (** [match:finalized], with the set the round was counted against *)
| Abandoned (rid : string).

(** ** Suspended handlers *)

(** What [leaderProposal] hands to the rest of [handlePropose]. *)
Record proposal := Proposal {
  p_rid : string; p_pid : nat; p_sender : string; p_view : Z; p_row : nat; p_canonical : string; p_sig : string }.

Inductive kont :=
| KSole (rid : string) (pid : nat) (canonical : string)     (** [finalizeSoleOperator], at the snapshot persist *)
| KPropose (pid : nat) (drain : option string)              (** [broadcastPropose], at the snapshot persist *)
| KValidate (p : proposal)                                  (** [handlePropose], at validation and the admission bound *)
| KAdopt (p : proposal) (declared : option nat)             (** [handlePropose], at [rebindSnapshot]: [None] answers null,
                                                                [Some] awaits the set the row declares *)
| KSync (m : message nat) (rid : string) (pid row : nat) (view : Z) (canonical : string) (declared : option nat)
| KRestamp (pid : nat) (rid : string) (view now : Z).       (** [maybeAssumeLeadership], at the margin *)

(** A finalized round kept for stragglers. *)
Record finrow := FinRow { f_row : nat; f_signatures : list (string * string); f_view : Z }.

(** ** The engine state *)

Record state := State {
  pending : gmap string nat;
  heap : gmap nat round;
  rows : gmap nat Row;
  next : nat;                                     (** the next allocation number *)
  finalized : gset string;
  finalizedOrder : list string;
  finalizedRows : gmap string finrow;
  earlyMessages : list (string * list (message nat));
  earlyMessageTtl : list (string * Z);
  konts : gmap nat kont;
  out : list effect }.                            (** every effect so far, newest first *)

Definition put_pending v (r : state) : state := State v (heap r) (rows r) (next r) (finalized r) (finalizedOrder r) (finalizedRows r) (earlyMessages r) (earlyMessageTtl r) (konts r) (out r).
Definition put_heap v (r : state) : state := State (pending r) v (rows r) (next r) (finalized r) (finalizedOrder r) (finalizedRows r) (earlyMessages r) (earlyMessageTtl r) (konts r) (out r).
Definition put_rows v (r : state) : state := State (pending r) (heap r) v (next r) (finalized r) (finalizedOrder r) (finalizedRows r) (earlyMessages r) (earlyMessageTtl r) (konts r) (out r).
Definition put_finalized v (r : state) : state := State (pending r) (heap r) (rows r) (next r) v (finalizedOrder r) (finalizedRows r) (earlyMessages r) (earlyMessageTtl r) (konts r) (out r).
Definition put_finalizedOrder v (r : state) : state := State (pending r) (heap r) (rows r) (next r) (finalized r) v (finalizedRows r) (earlyMessages r) (earlyMessageTtl r) (konts r) (out r).
Definition put_finalizedRows v (r : state) : state := State (pending r) (heap r) (rows r) (next r) (finalized r) (finalizedOrder r) v (earlyMessages r) (earlyMessageTtl r) (konts r) (out r).
Definition put_earlyMessages v (r : state) : state := State (pending r) (heap r) (rows r) (next r) (finalized r) (finalizedOrder r) (finalizedRows r) v (earlyMessageTtl r) (konts r) (out r).
Definition put_earlyMessageTtl v (r : state) : state := State (pending r) (heap r) (rows r) (next r) (finalized r) (finalizedOrder r) (finalizedRows r) (earlyMessages r) v (konts r) (out r).
Definition put_konts v (r : state) : state := State (pending r) (heap r) (rows r) (next r) (finalized r) (finalizedOrder r) (finalizedRows r) (earlyMessages r) (earlyMessageTtl r) v (out r).
Definition put_out v (r : state) : state := State (pending r) (heap r) (rows r) (next r) (finalized r) (finalizedOrder r) (finalizedRows r) (earlyMessages r) (earlyMessageTtl r) (konts r) v.

Definition initial : state := State ∅ ∅ ∅ 0 ∅ [] ∅ [] [] ∅ [].

Definition emit (e : effect) (s : state) : state := put_out (e :: out s) s.

(** [pending.field = ...] through a reference. *)
Definition modify (pid : nat) (f : round → round) (s : state) : state := put_heap (alter f pid (heap s)) s.

(** [this.pending.get(rid)]: the reference and the object. *)
Definition live (rid : string) (s : state) : option (nat * round) :=
  pid ← pending s !! rid; rd ← heap s !! pid; Some (pid, rd).

(** Allocation of a row that arrived, and of a suspended handler. *)
Definition bump (s : state) : state :=
  State (pending s) (heap s) (rows s) (S (next s)) (finalized s) (finalizedOrder s) (finalizedRows s) (earlyMessages s)
    (earlyMessageTtl s) (konts s) (out s).
Definition new_row (r : Row) (s : state) : nat * state := (next s, bump (put_rows (<[next s := r]> (rows s)) s)).
Definition suspend (k : kont) (s : state) : state := bump (put_konts (<[next s := k]> (konts s)) s).
End State.
Arguments effect : clear implicits. Arguments state : clear implicits.
