(* ===== verification/XRounds.v ===== *)
(** * Cross-chain rounds: handlers

    One definition per method of [src/cross_chain/dex_consensus.js] and of its
    parts under [src/cross_chain/pbft/]: the early-arrival buffer and the signed
    payloads ([early_buffer.js]), opening a round and rebinding it
    ([propose.js]), the three voting phases and finalization ([votes.js]), view
    changes and straggler catch-up ([view_change.js]). A handler maps the state
    before a synchronous stretch of code to the state after it; what it awaits is
    a suspended handler, resumed with the answer. A throw of [canonicalMatch]
    ends the handler where it stands. *)

From stdpp Require Import pretty.
From S2P Require Import Prelude Ordered GateRegistry BigNum Quorum Json Admission PbftEngine XState.

(** ** Ids, leaders, signatures *)

Definition hex_val (c : ascii) : option Z :=
  let n := Z.of_N (Ascii.N_of_ascii c) in
  if (48 <=? n) && (n <=? 57) then Some (n - 48)
  else if (97 <=? n) && (n <=? 102) then Some (n - 87)
  else if (65 <=? n) && (n <=? 70) then Some (n - 55) else None.

Fixpoint read_hex (acc : Z) (s : string) : Z :=
  match s with
  | String c r => match hex_val c with Some v => read_hex (16 * acc + v) r | None => acc end
  | EmptyString => acc
  end.

(** [parseInt(s, 16) || 0]: white space, a sign, an optional [0x], digits. *)
Definition unsigned_hex (s : string) : Z :=
  match s with
  | String a (String b r) => if Ascii.eqb a "0"%char && (Ascii.eqb b "x"%char || Ascii.eqb b "X"%char) then read_hex 0 r else read_hex 0 s
  | _ => read_hex 0 s
  end.
Definition parseHex (s : string) : Z :=
  match trimStart s with
  | String "-" r => - unsigned_hex r
  | String "+" r => unsigned_hex r
  | r => unsigned_hex r
  end.

Definition keys_of (vs : list vrow) : list string := (λ v, toLowerCase (js_String (v_pubkey v))) <$> vs.

Definition leaderFor (matchId : string) (vs : list vrow) (view : Z) : option string :=
  match vs with
  | [] => None
  | _ => PbftEngine.rotation (sort_strings (keys_of vs)) (parseHex (str_take 8 matchId) + view)
  end.

(** [ValidatorIdentity.verify]. *)
Definition verify (h : env) (payload sig pk : string) : bool :=
  if String.eqb sig "" || String.eqb pk "" then false
  else if negb (String.length pk =? 64)%nat then false else edVerify h payload sig pk.

Definition controlPayload (tag rid : string) (view : Z) : string := tag +:+ "|" +:+ rid +:+ "|" +:+ pretty view.
Definition signControl (h : env) (tag rid : string) (view : Z) : string := sign h (controlPayload tag rid view).
Definition verifyControl (h : env) (tag rid : string) (view : Z) (pk sig : string) : bool :=
  verify h (controlPayload tag rid view) sig (toLowerCase pk).
Definition commitPayload (h : env) (canonical : string) : string := commitType h +:+ "|PHASEV1|" +:+ canonical.

(** [this.identity.getPubkeyHex().toLowerCase()] *)
Definition self (h : env) : string := toLowerCase (default EmptyString (identity h)).

(** [validators.some(v => v.pubkey === key)] *)
Definition is_member (key : string) (vs : list vrow) : bool := existsb (λ v, String.eqb (js_String (v_pubkey v)) key) vs.

(** ** The set a round is bound to *)

Definition nullish_or (a b : option string) : option string := match a with Some _ => a | None => b end.

Definition bind_validator (v : xvalidator) : vrow :=
  VRow (Some (toLowerCase (js_String (x_pubkey v)))) (Some (default EmptyString (x_source v)))
    (Some (default "0"%string (nullish_or (x_weight v) (x_amount v)))).

Definition bind (vs : list xvalidator) (weighted : bool) : binding :=
  Binding (bind_validator <$> vs) (Bft.bftQuorumOrSingle (Z.of_nat (length vs)) 0) weighted.

(** The restamp outcomes. *)
Inductive restamp := RestampNone | Restamped | RestampFailed | RestampLater.

Section Rounds.
Context {Row : Type} {E : Engine Row} {B : BigNumber}.
Abbreviation state := (state Row).
Abbreviation effect := (effect Row).

(** ** The early-arrival buffer *)

Definition drop_early (id : string) (s : state) : state :=
  put_earlyMessageTtl (m_delete id (earlyMessageTtl s)) (put_earlyMessages (m_delete id (earlyMessages s)) s).

Definition pruneEarlyMessages (now : Z) (s : state) : state :=
  fold_left (λ s kv, if kv.2 <=? now then drop_early kv.1 s else s) (earlyMessageTtl s) s.

(** The array an envelope goes into, made if there is none. *)
Definition early_slot (h : env) (id : string) (s : state) : list (message nat) * state :=
  match m_get id (earlyMessages s) with
  | Some arr => (arr, s)
  | None =>
      let s := if (earlyMessageMaxDistinctIds h <=? length (earlyMessages s))%nat
               then match earlyMessages s with (oldest, _) :: _ => drop_early oldest s | [] => s end else s in
      ([], put_earlyMessages (m_set id [] (earlyMessages s)) s)
  end.

Definition bufferEarlyMessage (h : env) (now : Z) (id : string) (m : message nat) (s : state) : state :=
  let s := pruneEarlyMessages now s in
  if earlyMessageMaxBytes h <? m_size m then s
  else
    let '(arr, s) := early_slot h id s in
    if (earlyMessageMaxPerId <=? length arr)%nat then s
    else put_earlyMessageTtl (m_set id (now + earlyMessageTtlMs) (earlyMessageTtl s))
           (put_earlyMessages (m_set id (arr ++ [m]) (earlyMessages s)) s).

(** ** Tallies and finalization *)

Definition meets (b : binding) (voteSet : list string) : bool :=
  if b_weighted b then Swq.meetsStakeThreshold (Swq.VArray (b_validators b) false) voteSet
  else b_quorum b <=? Z.of_nat (length voteSet).

Definition meetsQuorum (rd : round) (voteSet : list string) : bool := meets (r_bound rd) voteSet.

Definition markFinalized (h : env) (rid : string) (row : nat) (sigs : list (string * string)) (view : Z) (s : state) : state :=
  if bool_decide (rid ∈ finalized s) then s
  else
    let s := put_finalized ({[rid]} ∪ finalized s) s in
    let s := put_finalizedRows (<[rid := FinRow row sigs view]> (finalizedRows s)) s in
    let s := put_finalizedOrder (finalizedOrder s ++ [rid]) s in
    if (finalizedMax h <? length (finalizedOrder s))%nat
    then match finalizedOrder s with
         | oldest :: order =>
             put_finalizedRows (delete oldest (finalizedRows s))
               (put_finalized (finalized s ∖ {[oldest]}) (put_finalizedOrder order s))
         | [] => s
         end
    else s.

(** [this.emit('match:finalized', ...)]: the row object as it is then. *)
Definition emit_finalized (rid : string) (rd : round) (s : state) : state :=
  match rows s !! r_row rd with
  | Some row => emit (Finalized rid row (r_signatures rd) (r_view rd) (r_bound rd)) s
  | None => s
  end.

Definition finalize (h : env) (rid : string) (s : state) : state :=
  match live rid s with
  | None => s
  | Some (pid, rd) =>
      if r_finalized rd then s
      else
        let s := modify pid (set_r_finalized true) s in
        let s := markFinalized h rid (r_row rd) (r_signatures rd) (r_view rd) s in
        let s := modify pid (set_r_timer false) s in
        let s := emit_finalized rid rd s in
        modify pid (set_r_cleanup true) s
  end.

(** The cleanup timer of a finalized round. *)
Definition evictPending (pid : nat) (s : state) : state :=
  match heap s !! pid with
  | Some rd => if r_cleanup rd && bool_decide (pending s !! r_id rd = Some pid)
               then put_pending (delete (r_id rd) (pending s)) s else s
  | None => s
  end.

Definition forgetFinalized (rid : string) (s : state) : state :=
  let rid := toLowerCase rid in
  let had := bool_decide (rid ∈ finalized s) in
  let s := put_finalizedRows (delete rid (finalizedRows s)) (put_finalized (finalized s ∖ {[rid]}) s) in
  let s := if had then put_finalizedOrder (filter (λ x, x ≠ rid) (finalizedOrder s)) s else s in
  match live rid s with
  | Some (pid, _) => put_pending (delete rid (pending s)) (modify pid (λ rd, set_r_timer false (set_r_cleanup false rd)) s)
  | None => s
  end.

Definition checkCommitQuorum (h : env) (rid : string) (s : state) : state :=
  match live rid s with
  | None => s
  | Some (_, rd) =>
      if r_finalized rd then s
      else if negb (meetsQuorum rd (r_commits rd)) then s else finalize h rid s
  end.

Definition broadcast (h : env) (e : effect) (s : state) : state := if peers h then emit e s else s.

Definition checkPrepareQuorum (h : env) (rid : string) (s : state) : state :=
  match live rid s with
  | None => s
  | Some (pid, rd) =>
      if r_finalized rd || r_commitSent rd then s
      else if negb (meetsQuorum rd (r_prepares rd)) then s
      else
        let s := modify pid (λ rd, set_r_commits (s_add (self h) (r_commits rd)) (set_r_commitSent true rd)) s in
        let s := broadcast h (SendCommit rid (r_view rd) (self h) (m_get (self h) (r_signatures rd))
                                (sign h (commitPayload h (r_canonical rd)))) s in
        checkCommitQuorum h rid s
  end.

(** ** Voting *)

(** [pending.signatures.set(key, sig); pending.prepares.add(key)] *)
Definition add_prepare (key sig : string) (rd : round) : round :=
  set_r_prepares (s_add key (r_prepares rd)) (set_r_signatures (m_set key sig (r_signatures rd)) rd).

Definition handlePrepare (h : env) (now : Z) (m : message nat) (s : state) : state :=
  let rid := toLowerCase (m_matchId m) in
  if String.eqb rid "" then s
  else if bool_decide (rid ∈ finalized s) then s
  else match live rid s with
  | None => bufferEarlyMessage h now rid m s
  | Some (pid, rd) =>
      let key := toLowerCase (m_pubkey m) in
      if negb (is_member key (b_validators (r_bound rd))) then s
      else if negb (verify h (r_canonical rd) (m_sig m) key) then bufferEarlyMessage h now rid m s
      else checkPrepareQuorum h rid (modify pid (add_prepare key (m_sig m)) s)
  end.

Definition handleCommit (h : env) (now : Z) (m : message nat) (s : state) : state :=
  let rid := toLowerCase (m_matchId m) in
  if String.eqb rid "" then s
  else if bool_decide (rid ∈ finalized s) then s
  else match live rid s with
  | None => bufferEarlyMessage h now rid m s
  | Some (pid, rd) =>
      let key := toLowerCase (m_pubkey m) in
      if negb (is_member key (b_validators (r_bound rd))) then s
      else if negb (verify h (r_canonical rd) (m_sig m) key) then bufferEarlyMessage h now rid m s
      else
        let s := modify pid (λ rd, set_r_signatures (m_set key (m_sig m) (r_signatures rd)) rd) s in
        if negb (verify h (commitPayload h (r_canonical rd)) (m_commit_sig m) key) then s
        else checkCommitQuorum h rid (modify pid (λ rd, set_r_commits (s_add key (r_commits rd)) rd) s)
  end.

(** The synchronous half of a PROPOSE: the state, which may hold the buffered
    message, and what the rest of the handler goes on with. *)
Definition leaderProposal (h : env) (now : Z) (m : message nat) (s : state) : state * option proposal :=
  let rid := toLowerCase (m_matchId m) in
  if String.eqb rid "" then (s, None)
  else if bool_decide (rid ∈ finalized s) then (s, None)
  else match live rid s with
  | None => (bufferEarlyMessage h now rid m s, None)
  | Some (pid, rd) =>
      let key := toLowerCase (m_pubkey m) in
      let view := default 0 (m_view m) in
      if view <? r_view rd then (s, None)
      else if negb (bool_decide (leaderFor rid (b_validators (r_bound rd)) view = Some key)) then (s, None)
      else if negb (is_member key (b_validators (r_bound rd))) then (s, None)
      else match (ρ ← m_row m; row ← rows s !! ρ; Some (ρ, row)) with
      | None => (s, None)
      | Some (ρ, row) =>
          if negb (String.eqb (toLowerCase (row_id row)) rid) then (s, None)
          else match canonicalMatch row view with
          | None => (s, None)
          | Some canonical =>
              if negb (verify h canonical (m_sig m) key) then (s, None)
              else (s, Some (Proposal rid pid key view ρ canonical (m_sig m)))
          end
      end
  end.

Definition handlePropose (h : env) (now : Z) (m : message nat) (s : state) : state :=
  match leaderProposal h now m s with
  | (s, None) => s
  | (s, Some p) => suspend (KValidate p) s
  end.

(** [validateAndBound]: the engine's validation ([None]: it threw) and then the
    admission bound. *)
Definition validateAndBound (ok : option bool) (bound : bool) : bool := match ok with Some true => bound | _ => false end.

(** [admissionBoundHolds]: the scope ([None]: no scope function or a null
    scope), each step failing closed when it throws. *)
Definition admissionBoundHolds (scope : option (option (list string))) (map : option (option (gmap string json)))
    (ownTips : option (string → option json)) : bool :=
  match scope with
  | None => true
  | Some None => false
  | Some (Some readSet) =>
      match map with
      | None => false
      | Some map =>
          match ownTips with
          | None => false
          | Some tips => match checkAdmitBlocks readSet map tips with None => true | Some _ => false end
          end
      end
  end.

(** COMMIT went out for a value that is not the leader's: the hub's own row at
    the leader's view has other bytes. *)
Definition committedToOtherValue (rd : round) (own : Row) (canonical : string) (view : Z) : option bool :=
  c ← canonicalMatch own view; Some (r_commitSent rd && negb (String.eqb c canonical)).

(** The synchronous prefix of [rebindSnapshot]: null when the row declares the
    snapshot the round holds. *)
Definition same_declaration (row row' : Row) : bool :=
  String.eqb (row_block row) (row_block row') && String.eqb (row_network row) (row_network row').

(** The rest of [rebindSnapshot] on the resolved set ([None]: it threw or is not
    an array): a new binding, or a refusal. *)
Definition rebindSnapshot (row : Row) (raw : option (list xvalidator * bool)) : option binding :=
  match raw with
  | None | Some ([], _) => None
  | Some (vs, truncated) =>
      if row_weighted row && truncated then None
      else let b := bind vs (row_weighted row) in
           if b_quorum b =? 0 then None else Some b
  end.

(** The adoption of a validated row. [rebound]: [None] for null, [Some None] for
    a refusal. *)
Definition adoptLeaderRow (p : proposal) (rebound : option (option binding)) (s : state) : state * bool :=
  match rebound with
  | Some None => (s, false)
  | _ =>
      match heap s !! p_pid p with
      | None => (s, false)
      | Some rd =>
          if bool_decide (p_rid p ∈ finalized s) || r_finalized rd || negb (bool_decide (pending s !! p_rid p = Some (p_pid p)))
          then (s, false)
          else if match rebound with Some (Some b) => negb (is_member (p_sender p) (b_validators b)) | _ => false end
          then (s, false)
          else
            (modify (p_pid p)
               (λ rd, set_r_commitSent false (set_r_commits [] (set_r_prepares [] (set_r_signatures []
                        (set_r_bound match rebound with Some (Some b) => b | _ => r_bound rd end
                           (set_r_canonical (p_canonical p) (set_r_row (p_row p) rd))))))) s, true)
      end
  end.

(** The leader's signature, at the leader's view. *)
Definition count_leader (p : proposal) (rd : round) : round :=
  add_prepare (p_sender p) (p_sig p) (set_r_view (if r_view rd <? p_view p then p_view p else r_view rd) rd).

(** The hub's own signature and PREPARE, once. *)
Definition own_prepare (h : env) (p : proposal) (s : state) : state :=
  match heap s !! p_pid p with
  | Some rd =>
      match m_get (self h) (r_signatures rd) with
      | Some _ => s
      | None =>
          let mySig := sign h (p_canonical p) in
          broadcast h (SendPrepare (p_rid p) (r_view rd) (self h) mySig)
            (modify (p_pid p) (add_prepare (self h) mySig) s)
      end
  | None => s
  end.

Definition countLeaderAndOwnPrepare (h : env) (p : proposal) (s : state) : state :=
  checkPrepareQuorum h (p_rid p) (own_prepare h p (modify (p_pid p) (count_leader p) s)).

(** ** Opening a round *)

Inductive propose_error := NoIdentity | CanonicalThrows.

(** [snapshot]: the validators and their [truncated] mark. *)
Definition refuseTruncatedRound (weighted truncated : bool) : bool := weighted && truncated.

Definition openPendingRound (now : Z) (rid : string) (ρ : nat) (canonical : string) (vs : list xvalidator) (weighted : bool)
    (s : state) : nat * state :=
  let rd := Round rid now ρ canonical (bind vs weighted) 0 [] [] [] ∅ false false false false in
  (next s, bump (put_pending (<[rid := next s]> (pending s)) (put_heap (<[next s := rd]> (heap s)) s))).

Definition finalizeSoleOperator (h : env) (rid : string) (pid : nat) (vs : list xvalidator) (canonical : string) (s : state) : state :=
  let soleSelf := match vs with [v] => String.eqb (toLowerCase (js_String (x_pubkey v))) (self h) | _ => false end in
  if negb soleSelf then emit (Abandoned rid) (put_pending (delete rid (pending s)) s)
  else suspend (KSole rid pid canonical) s.

(** After the snapshot is persisted, or the persist failed. *)
Definition resumeSole (h : env) (rid : string) (pid : nat) (canonical : string) (s : state) : state :=
  finalize h rid (modify pid (λ rd, set_r_signatures (m_set (self h) (sign h canonical) (r_signatures rd)) rd) s).

(** [broadcastPropose] after the persist. *)
Definition broadcastPropose (h : env) (pid : nat) (s : state) : state :=
  match heap s !! pid with
  | None => s
  | Some rd =>
      let mySig := sign h (r_canonical rd) in
      let s := modify pid (add_prepare (self h) mySig) s in
      match rows s !! r_row rd with
      | Some row => broadcast h (SendPropose (r_id rd) (r_view rd) row (self h) mySig) s
      | None => s
      end
  end.

(** ** View changes *)

Definition restampEffectiveTime (now : Z) (rd : round) (s : state) : restamp * state :=
  let currentSecond := now / 1000 in
  match (row ← rows s !! r_row rd; t ← row_effective row; Some (row, t)) with
  | None => (RestampNone, s)
  | Some (row, effectiveTime) =>
      if RELAY_MIN_FUTURE_S <=? effectiveTime - currentSecond then (RestampNone, s)
      else match effectiveTimeMarginS row with
      | NoMargin => (RestampNone, s)
      | MarginThrows => (RestampFailed, s)
      | MarginLater => (RestampLater, s)
      | MarginNow (Some m) =>
          if 0 <? m then (Restamped, put_rows (<[r_row rd := with_effective (currentSecond + m) row]> (rows s)) s)
          else (RestampFailed, s)
      | MarginNow None => (RestampFailed, s)
      end
  end.

Definition reproposeAsLeader (h : env) (pid : nat) (view : Z) (s : state) : state :=
  match (rd ← heap s !! pid; row ← rows s !! r_row rd; c ← canonicalMatch row (r_view rd); Some (rd, c)) with
  | None => s
  | Some (rd, canonical) =>
      let s := if String.eqb canonical (r_canonical rd) then s
               else modify pid (λ rd, set_r_commitSent false (set_r_commits [] (set_r_prepares [] (set_r_signatures []
                                        (set_r_canonical canonical rd))))) s in
      let s := broadcast h (SendNewView (r_id rd) view (self h) (signControl h (nvTag h) (r_id rd) view)) s in
      suspend (KPropose pid None) s
  end.

Definition maybeAssumeLeadership (h : env) (now : Z) (rid : string) (view : Z) (s : state) : state :=
  match live rid s with
  | None => s
  | Some (pid, rd) =>
      if r_finalized rd then s
      else match r_viewChanges rd !! view with
      | None => s
      | Some votes =>
          if negb (meetsQuorum rd votes) then s
          else
            let s := modify pid (λ rd, set_r_view (if r_view rd <? view then view else r_view rd) rd) s in
            if bool_decide (leaderFor rid (b_validators (r_bound rd)) view = Some (self h)) then
              match restampEffectiveTime now rd s with
              | (RestampLater, s) => suspend (KRestamp pid rid view (now / 1000)) s
              | (RestampFailed, s) => s
              | (_, s) => reproposeAsLeader h pid view s
              end
            else s
      end
  end.

(** The margin's promise settled: [None] for a rejection, [Some] of the answer. *)
Definition resumeRestamp (h : env) (pid : nat) (rid : string) (view currentSecond : Z) (answer : option (option Z)) (s : state) : state :=
  match answer, heap s !! pid with
  | Some (Some m), Some rd =>
      if 0 <? m then
        let s := match rows s !! r_row rd with
                 | Some row => put_rows (<[r_row rd := with_effective (currentSecond + m) row]> (rows s)) s
                 | None => s
                 end in
        if r_finalized rd || negb (bool_decide (pending s !! rid = Some pid)) || negb (r_view rd =? view) then s
        else reproposeAsLeader h pid view s
      else s
  | _, _ => s
  end.

Definition add_vote (view : Z) (key : string) (rd : round) : round :=
  set_r_viewChanges (<[view := s_add key (default [] (r_viewChanges rd !! view))]> (r_viewChanges rd)) rd.

Definition initiateViewChange (h : env) (now : Z) (rid : string) (s : state) : state :=
  match live rid s with
  | None => s
  | Some (pid, rd) =>
      if r_finalized rd then s
      else
        let view := r_view rd + 1 in
        let s := modify pid (λ rd, add_vote view (self h) (set_r_view view rd)) s in
        let s := broadcast h (SendViewChange rid view (self h) (signControl h (vcTag h) rid view)) s in
        let s := modify pid (set_r_timer true) s in
        maybeAssumeLeadership h now rid view s
  end.

Definition handleViewChange (h : env) (now : Z) (m : message nat) (s : state) : state :=
  let rid := toLowerCase (m_matchId m) in
  if String.eqb rid "" then s
  else if bool_decide (rid ∈ finalized s) then
    match finalizedRows s !! rid with
    | Some fin => match rows s !! f_row fin with
                  | Some row => broadcast h (SendFinalSync rid row (f_signatures fin) (f_view fin)) s
                  | None => s
                  end
    | None => s
    end
  else match live rid s with
  | None => bufferEarlyMessage h now rid m s
  | Some (pid, rd) =>
      match m_view m with
      | None => s
      | Some view =>
          let voter := toLowerCase (m_pubkey m) in
          if negb (is_member voter (b_validators (r_bound rd))) then s
          else if negb (verifyControl h (vcTag h) rid view voter (m_sig m)) then s
          else maybeAssumeLeadership h now rid view (modify pid (add_vote view voter) s)
      end
  end.

Definition handleNewView (h : env) (now : Z) (m : message nat) (s : state) : state :=
  let rid := toLowerCase (m_matchId m) in
  if String.eqb rid "" then s
  else if bool_decide (rid ∈ finalized s) then s
  else match live rid s with
  | None => bufferEarlyMessage h now rid m s
  | Some (pid, rd) =>
      match m_view m with
      | None => s
      | Some view =>
          let announcer := toLowerCase (m_pubkey m) in
          if view <=? r_view rd then s
          else if negb (bool_decide (leaderFor rid (b_validators (r_bound rd)) view = Some announcer)) then s
          else if negb (verifyControl h (nvTag h) rid view announcer (m_sig m)) then s
          else match r_viewChanges rd !! view with
          | Some votes => if meetsQuorum rd votes then modify pid (set_r_view view) s else s
          | None => s
          end
      end
  end.

(** The round timer. *)
Definition onRoundTimeout (h : env) (now : Z) (rid : string) (s : state) : state :=
  match live rid s with
  | None => s
  | Some (pid, rd) =>
      if r_finalized rd || negb (r_timer rd) then s
      else if roundMaxLifetimeMs h <? now - r_startedAt rd
      then emit (Abandoned rid) (put_pending (delete rid (pending s)) (modify pid (set_r_timer false) s))
      else initiateViewChange h now rid s
  end.

(** ** Straggler catch-up *)

Definition verifiedSyncSignatures (h : env) (canonical : string) (offered : list (string * string)) (b : binding) :
    option (list (string * string)) :=
  let verified := fold_left
    (λ m s, let pk := toLowerCase s.1 in
            if negb (is_member pk (b_validators b)) then m
            else if negb (verify h canonical s.2 pk) then m else m_set pk s.2 m) offered [] in
  let proofOk := if b_weighted b then Swq.meetsStakeThreshold (Swq.VArray (b_validators b) false) verified.*1
                 else Z.max (b_quorum b) 1 <=? Z.of_nat (length verified) in
  if proofOk then Some verified else None.

Definition declared_by (row : Row) (rd : round) (ρ : nat) (s : state) : option nat :=
  match rows s !! r_row rd with
  | Some own => if same_declaration row own then None else Some ρ
  | None => Some ρ
  end.

Definition handleFinalSync (h : env) (m : message nat) (s : state) : state :=
  let rid := toLowerCase (m_matchId m) in
  if String.eqb rid "" || bool_decide (rid ∈ finalized s) then s
  else match live rid s with
  | None => s
  | Some (pid, rd) =>
      if r_finalized rd then s
      else match (ρ ← m_row m; row ← rows s !! ρ; Some (ρ, row)) with
      | None => s
      | Some (ρ, row) =>
          if negb (String.eqb (toLowerCase (row_id row)) rid) then s
          else let syncView := default 0 (m_view m) in
               match canonicalMatch row syncView with
               | None => s
               | Some canonical => suspend (KSync m rid pid ρ syncView canonical (declared_by row rd ρ s)) s
               end
      end
  end.

Definition resumeSync (h : env) (m : message nat) (rid : string) (pid ρ : nat) (view : Z) (canonical : string)
    (rebound : option (option binding)) (s : state) : state :=
  match rebound, heap s !! pid with
  | Some None, _ | _, None => s
  | _, Some rd =>
      if bool_decide (rid ∈ finalized s) || r_finalized rd || negb (bool_decide (pending s !! rid = Some pid)) then s
      else
        let b := match rebound with Some (Some b) => b | _ => r_bound rd end in
        match verifiedSyncSignatures h canonical (m_signatures m) b with
        | None => s
        | Some verified =>
            finalize h rid (modify pid (λ rd, set_r_view view (set_r_bound b (set_r_signatures verified
                                         (set_r_canonical canonical (set_r_row ρ rd))))) s)
        end
  end.

(** ** The message door and the continuations *)

Definition handleMessage (h : env) (now : Z) (m : message nat) (s : state) : state :=
  match m_type m with
  | PROPOSE => handlePropose h now m s
  | PREPARE => handlePrepare h now m s
  | COMMIT => handleCommit h now m s
  | VIEW_CHANGE => handleViewChange h now m s
  | NEW_VIEW => handleNewView h now m s
  | FINAL_SYNC => handleFinalSync h m s
  end.

Definition drainEarlyMessages (h : env) (now : Z) (id : string) (s : state) : state :=
  match m_get id (earlyMessages s) with
  | None => s
  | Some arr => fold_left (λ s m, handleMessage h now m s) arr (drop_early id s)
  end.

(** [propose]: the round opened over the engine's row and set. *)
Definition propose (h : env) (now : Z) (matchId : string) (row : Row) (vs : list xvalidator) (truncated : bool) (s : state) :
    result propose_error state :=
  let rid := toLowerCase matchId in
  if bool_decide (rid ∈ finalized s) then Ok s
  else if bool_decide (is_Some (pending s !! rid)) then Ok s
  else if bool_decide (identity h = None) then Err NoIdentity
  else
    let weighted := row_weighted row in
    if refuseTruncatedRound weighted truncated then Ok (emit (Abandoned rid) s)
    else match canonicalMatch row 0 with
    | None => Err CanonicalThrows
    | Some canonical =>
        let '(ρ, s) := new_row row s in
        let '(pid, s) := openPendingRound now rid ρ canonical vs weighted s in
        if b_quorum (bind vs weighted) =? 0 then Ok (finalizeSoleOperator h rid pid vs canonical s)
        else
          let s := modify pid (set_r_timer true) s in
          if bool_decide (leaderFor rid (b_validators (bind vs weighted)) 0 = Some (self h))
          then Ok (suspend (KPropose pid (Some rid)) s)
          else Ok (drainEarlyMessages h now rid s)
    end.

(** [handlePropose] after validation. *)
Definition resumeValidate (h : env) (p : proposal) (ok : bool) (s : state) : state :=
  if negb ok then s
  else match (rd ← heap s !! p_pid p; row ← rows s !! p_row p; own ← rows s !! r_row rd; Some (rd, row, own)) with
  | None => s
  | Some (rd, row, own) =>
      if String.eqb (p_canonical p) (r_canonical rd) then countLeaderAndOwnPrepare h p s
      else match committedToOtherValue rd own (p_canonical p) (p_view p) with
      | Some false => suspend (KAdopt p (declared_by row rd (p_row p) s)) s
      | _ => s
      end
  end.

(** The answer a suspended [rebindSnapshot] resumes with. *)
Definition rebound_of (declared : option nat) (raw : option (list xvalidator * bool)) (s : state) : option (option binding) :=
  match declared with
  | None => None
  | Some ρ => Some (row ← rows s !! ρ; rebindSnapshot row raw)
  end.

(** [handlePropose] after the rebind. *)
Definition resumeAdopt (h : env) (now : Z) (p : proposal) (rebound : option (option binding)) (s : state) : state :=
  match adoptLeaderRow p rebound s with
  | (s, false) => s
  | (s, true) => drainEarlyMessages h now (p_rid p) (countLeaderAndOwnPrepare h p s)
  end.

Definition stop (s : state) : state :=
  put_earlyMessageTtl [] (put_earlyMessages []
    (put_pending ∅ (put_heap (map_imap (λ pid rd, Some (if bool_decide (pending s !! r_id rd = Some pid)
                                                         then set_r_timer false (set_r_cleanup false rd) else rd)) (heap s)) s))).

(** ** Runs *)

Inductive event :=
| EvPropose (matchId : string) (row : Row) (vs : list xvalidator) (truncated : bool)
| EvMessage (m : message Row)
| EvPersisted (k : nat)                                        (** a capability-snapshot persist settled *)
| EvValidated (k : nat) (ok : option bool) (bound : bool)
| EvRebound (k : nat) (raw : option (list xvalidator * bool))  (** [rebindSnapshot] answered *)
| EvMargin (k : nat) (answer : option (option Z))
| EvTimeout (rid : string)
| EvEvict (pid : nat)
| EvForget (rid : string)
| EvStop.

(** An envelope arrives: its row becomes an object. *)
Definition arrive (m : message Row) (s : state) : message nat * state :=
  let to_ref ρ := Msg (m_type m) (m_matchId m) (m_view m) (m_pubkey m) (m_sig m) (m_commit_sig m) ρ (m_signatures m) (m_size m) in
  match m_row m with
  | Some row => let '(ρ, s) := new_row row s in (to_ref (Some ρ), s)
  | None => (to_ref None, s)
  end.

Definition take (k : nat) (s : state) : option (kont * state) :=
  κ ← konts s !! k; Some (κ, put_konts (delete k (konts s)) s).

Definition resume (h : env) (now : Z) (κ : kont) (ev : event) (s : state) : option state :=
  match κ, ev with
  | KSole rid pid c, EvPersisted _ => Some (resumeSole h rid pid c s)
  | KPropose pid drain, EvPersisted _ =>
      let s := broadcastPropose h pid s in
      Some match drain with Some rid => drainEarlyMessages h now rid s | None => s end
  | KValidate p, EvValidated _ ok bound => Some (resumeValidate h p (validateAndBound ok bound) s)
  | KAdopt p declared, EvRebound _ raw => Some (resumeAdopt h now p (rebound_of declared raw s) s)
  | KSync m rid pid ρ view c declared, EvRebound _ raw => Some (resumeSync h m rid pid ρ view c (rebound_of declared raw s) s)
  | KRestamp pid rid view sec, EvMargin _ answer => Some (resumeRestamp h pid rid view sec answer s)
  | _, _ => None
  end.

(** One event at time [now] (milliseconds); [None] when it cannot happen. *)
Definition step (h : env) (now : Z) (ev : event) (s : state) : option state :=
  match ev with
  | EvPropose matchId row vs truncated => match propose h now matchId row vs truncated s with Ok s' => Some s' | Err _ => Some s end
  | EvMessage m => let '(m, s) := arrive m s in Some (handleMessage h now m s)
  | EvPersisted k | EvValidated k _ _ | EvRebound k _ | EvMargin k _ => '(κ, s) ← take k s; resume h now κ ev s
  | EvTimeout rid => Some (onRoundTimeout h now rid s)
  | EvEvict pid => Some (evictPending pid s)
  | EvForget rid => Some (forgetFinalized rid s)
  | EvStop => Some (stop s)
  end.

Fixpoint run (h : env) (evs : list (Z * event)) (s : state) : option state :=
  match evs with
  | [] => Some s
  | (now, ev) :: evs => s ← step h now ev s; run h evs s
  end.
End Rounds.
