(* ===== verification/DexHonest.v ===== *)
(** * A leader's match at a follower

    The follower's check composed with the leader's matcher: an honest proposal is
    signed by every hub that sees the same offers, and the fields of the signed row
    the check does not look at. *)

From stdpp Require Import pretty.
From S2P Require Import Prelude GateRegistry BigNum BcMath Json AttestWire OracleBand XState XRounds Admission AdmissionProps DexOffer DexMatch DexRow DexProps.
Open Scope Z_scope.

Lemma num_int_plain z : num_int z 0 = Some z.
Proof. unfold num_int. cbn. by rewrite Z.mul_1_r. Qed.

Lemma number_of_int z : number_of (Some (JInt z)) = Some z.
Proof. apply num_int_plain. Qed.

Lemma isCanonicalInt_safe z : safe z = true → isCanonicalInt (Some (JInt z)) = true.
Proof. intros H. unfold isCanonicalInt, safe_int. rewrite num_int_plain. cbn [mbind option_bind]. by rewrite H. Qed.

(** Every margin the leader stamps lies between four minutes and forty. *)
Lemma margin_range c : 240 ≤ relayMarginFloorS c ≤ 2400.
Proof.
  unfold relayMarginFloorS, blockIntervalS, DEFAULT_RELAY_MARGIN_BLOCKS, RELAY_MARGIN_MAX_S, own, NOMINAL_BLOCK_INTERVAL_S.
  destruct (String.eqb "BTC" c), (String.eqb "LTC" c), (String.eqb "DOGE" c); by vm_compute.
Qed.

Lemma prepared_home getlistat reg sb o :
  home_coin (prepareOffer getlistat reg sb o) = home_coin o ∧ home_network (prepareOffer getlistat reg sb o) = home_network o ∧
  action_index (prepareOffer getlistat reg sb o) = action_index o ∧ give_ownership (prepareOffer getlistat reg sb o) = give_ownership o.
Proof. done. Qed.

(** ** The admission columns of a row *)

Definition stamped (m : option (gmap string Z)) (r : matchrow) : matchrow :=
  MatchRow (match_id r) (snapshot_block r) (network r) (leg_A r) (leg_B r) (effective_time r) m.

Lemma column_height_int z : 0 ≤ z → safe z = true → column_height (JInt z) = Some z.
Proof.
  intros Hz Hs. unfold column_height, safe_int. cbn [json_Number mbind option_bind]. rewrite num_int_plain. cbn [mbind option_bind].
  rewrite Hs. cbn [mbind option_bind]. by rewrite (proj2 (Z.ltb_ge z 0)).
Qed.

(** A row keeps its map through its columns. *)
Lemma columns_keep_map (map : gmap string Z) (columns : string → option json) :
  (∀ c, c ∈ ADMIT_COLUMN_CHAINS → columns (admit_column c) = Some match map !! c with Some z => JInt z | None => JNull end) →
  map ≠ ∅ → (∀ c z, map !! c = Some z → c ∈ ADMIT_COLUMN_CHAINS ∧ 0 ≤ z ∧ safe z = true) →
  rowAdmitBlocks columns None = Ok (Some ((λ z, JInt z) <$> map)).
Proof.
  intros Hcol Hne Hmap. assert (Hf : columns_from ADMIT_COLUMN_CHAINS columns = Ok ((λ z, JInt z) <$> map)).
  { assert (Hstep : ∀ l, l ⊆ ADMIT_COLUMN_CHAINS → ∃ m, columns_from l columns = Ok m ∧ ∀ c, m !! c = if decide (c ∈ l) then (λ z, JInt z) <$> map !! c else None).
    { induction l as [|c l IH]; intros Hl; [exists ∅; split; [done|]; intros c; by rewrite lookup_empty|].
      destruct IH as (m & Hm & Hl'); [intros x Hx; apply Hl; by right|]. cbn [columns_from]. rewrite Hm. cbn [rbind].
      rewrite (Hcol c) by (apply Hl; by left). destruct (map !! c) as [z|] eqn:Ez.
      - destruct (Hmap c z Ez) as (_ & Hz & Hs). rewrite column_height_int by done. eexists; split; [done|]. intros x.
        destruct (decide (x = c)) as [->|Hxc]; [rewrite lookup_insert_eq, Ez, decide_True by (by left); done|].
        rewrite lookup_insert_ne, Hl' by done. destruct (decide (x ∈ l)); [rewrite decide_True by (by right); done|].
        by rewrite decide_False by (by intros [?|?]%elem_of_cons).
      - exists m. split; [done|]. intros x. rewrite Hl'. destruct (decide (x ∈ l)); [by rewrite decide_True by (by right)|].
        destruct (decide (x = c)) as [->|Hxc]; [by rewrite decide_True, Ez by (by left)|]. by rewrite decide_False by (by intros [?|?]%elem_of_cons). }
    destruct (Hstep ADMIT_COLUMN_CHAINS ltac:(done)) as (m & -> & Hm). f_equal. apply map_eq. intros c. rewrite Hm, lookup_fmap.
    destruct (map !! c) as [z|] eqn:Ez; [|by destruct (decide _)]. by rewrite decide_True by (by eapply Hmap). }
  unfold rowAdmitBlocks, columnsAdmitBlocks. rewrite Hf. cbn [rbind]. rewrite bool_decide_false; [done|].
  by rewrite fmap_empty_iff.
Qed.

Section Honest.
Context (sha256Hex : string → string) {B : BigNumber} (reg : Gate.registry) (L : ledger).

(** The row as it arrives. *)
Definition wire_of (r : matchrow) : wirerow := λ f, json_get f (row_wire r).

Definition proposal (d : desc) (sb now : Z) : matchrow :=
  buildMatchRow d (deriveMatchId sha256Hex (lo d) (hi d) sb (loFilledBefore d) (hiFilledBefore d)) sb (effectiveTimeOf now d).

Lemma amountsEqual_refl x : amountsEqual x x = true.
Proof. apply String.eqb_refl. Qed.

Lemma legs_text s : text_or_empty (Some (if String.eqb s "" then JNull else JStr s)) = s.
Proof. destruct (String.eqb_spec s "") as [->|H]; [done|]. unfold text_or_empty, json_truthy. apply String.eqb_neq in H. by rewrite H. Qed.

Lemma generation_int z : generation_of (Some (JInt z)) = z.
Proof. unfold generation_of. by rewrite number_of_int. Qed.

(** A follower that re-derives the leader's match agrees with the row built from it. *)
Lemma proposal_agrees d sb now : row_agrees sha256Hex (wire_of (proposal d sb now)) d sb = true.
Proof.
  unfold row_agrees.
  change (wire_of (proposal d sb now) "a_kind") with (Some (JStr (loKind d))). change (wire_of (proposal d sb now) "b_kind") with (Some (JStr (hiKind d))).
  change (wire_of (proposal d sb now) "a_amount") with (Some (JStr (loFill d))). change (wire_of (proposal d sb now) "b_amount") with (Some (JStr (hiFill d))).
  change (wire_of (proposal d sb now) "a_filled_before") with (Some (JStr (loFilledBefore d))).
  change (wire_of (proposal d sb now) "b_filled_before") with (Some (JStr (hiFilledBefore d))).
  change (wire_of (proposal d sb now) "a_payout_legs") with (Some (if String.eqb (payout_legs (lo d)) "" then JNull else JStr (payout_legs (lo d)))).
  change (wire_of (proposal d sb now) "b_payout_legs") with (Some (if String.eqb (payout_legs (hi d)) "" then JNull else JStr (payout_legs (hi d)))).
  change (wire_of (proposal d sb now) "a_push_generation") with (Some (JInt (push_generation (lo d)))).
  change (wire_of (proposal d sb now) "b_push_generation") with (Some (JInt (push_generation (hi d)))).
  change (wire_of (proposal d sb now) "match_id") with (Some (JStr (match_id (proposal d sb now)))).
  rewrite !legs_text, !generation_int, !Z.eqb_refl. cbn [is_text field_text json_String opt_String].
  rewrite !String.eqb_refl, !amountsEqual_refl. done.
Qed.

Lemma proposal_bounds d sb now now' :
  home_coin (lo d) ≠ home_coin (hi d) → safe sb = true → safe (action_index (lo d)) = true → safe (action_index (hi d)) = true →
  safe (give_ownership (lo d)) = true → safe (give_ownership (hi d)) = true → safe (effectiveTimeOf now d) = true →
  now - 1200 ≤ now' ≤ now + 180 → proposedMatchInBounds true now' (Some (wire_of (proposal d sb now))) = true.
Proof.
  intros Hne S1 S2 S3 S4 S5 S6 Hnow. unfold proposedMatchInBounds. cbn [negb]. set (w := wire_of (proposal d sb now)).
  change (w "a_chain") with (Some (JStr (home_coin (lo d)))). change (w "b_chain") with (Some (JStr (home_coin (hi d)))).
  cbn [same_field]. apply String.eqb_neq in Hne as ->. cbn [negb andb].
  unfold allCanonicalInts, DEX_CANONICAL_INT_FIELDS. cbn [forallb].
  change (w "snapshot_block") with (Some (JInt sb)). change (w "a_action_index") with (Some (JInt (action_index (lo d)))).
  change (w "b_action_index") with (Some (JInt (action_index (hi d)))). change (w "a_ownership") with (Some (JInt (give_ownership (lo d)))).
  change (w "b_ownership") with (Some (JInt (give_ownership (hi d)))). change (w "effective_time") with (Some (JInt (effectiveTimeOf now d))).
  rewrite !isCanonicalInt_safe, number_of_int by done. cbn [andb].
  pose proof (margin_range (home_coin (lo d))). pose proof (margin_range (home_coin (hi d))). unfold effectiveTimeOf, RELAY_MIN_FUTURE_S.
  rewrite (proj2 (Z.ltb_ge _ _)), (proj2 (Z.ltb_ge _ _)) by lia. done.
Qed.

Lemma honest_side getlistat find a b d sb now now' :
  let pa := prepareOffer getlistat reg sb a in let pb := prepareOffer getlistat reg sb b in
  tryMatch reg L pa pb (AtBlock sb) = Some d → lo d = pa → hi d = pb → d_network d = home_network a → home_network b = home_network a →
  home_network a ≠ EmptyString →
  find (home_coin a) (action_index a) = Some a → find (home_coin b) (action_index b) = Some b →
  proposedMatchInBounds true now' (Some (wire_of (proposal d sb now))) = true →
  validateProposedMatch sha256Hex reg L true now' find getlistat (Some (wire_of (proposal d sb now))) = true.
Proof.
  intros pa pb Hm El Eh En Enb Hn Fa Fb Hb. unfold validateProposedMatch. rewrite Hb. cbn [negb].
  pose proof (proposal_agrees d sb now) as Hagree. revert Hagree. set (w := wire_of (proposal d sb now)). intros Hagree.
  change (w "a_action_index") with (Some (JInt (action_index (lo d)))). change (w "b_action_index") with (Some (JInt (action_index (hi d)))).
  change (w "snapshot_block") with (Some (JInt sb)). change (w "a_chain") with (Some (JStr (home_coin (lo d)))).
  change (w "b_chain") with (Some (JStr (home_coin (hi d)))). change (w "network") with (Some (JStr (d_network d))).
  rewrite !number_of_int, El, Eh. cbn [opt_String json_String].
  change (home_coin pa) with (home_coin a). change (home_coin pb) with (home_coin b).
  change (action_index pa) with (action_index a). change (action_index pb) with (action_index b).
  rewrite Fa, Fb. assert (Et : text_or_empty (Some (JStr (d_network d))) = home_network a).
  { rewrite En. unfold text_or_empty, json_truthy. apply String.eqb_neq in Hn. by rewrite Hn. }
  rewrite Et, Enb, String.eqb_refl. cbn [negb]. fold pa pb. by rewrite Hm.
Qed.

Lemma honest_check getlistat find a b d sb now now' :
  let pa := prepareOffer getlistat reg sb a in let pb := prepareOffer getlistat reg sb b in
  tryMatch reg L pa pb (AtBlock sb) = Some d →
  find (home_coin a) (action_index a) = Some a → find (home_coin b) (action_index b) = Some b →
  safe sb = true → safe (action_index a) = true → safe (action_index b) = true →
  safe (give_ownership a) = true → safe (give_ownership b) = true → safe (effectiveTimeOf now d) = true →
  now - 1200 ≤ now' ≤ now + 180 →
  validateProposedMatch sha256Hex reg L true now' find getlistat (Some (wire_of (proposal d sb now))) = true.
Proof.
  intros pa pb Hm Fa Fb S1 S2 S3 S4 S5 S6 Hnow. destruct (tryMatch_sides _ _ _ _ _ _ Hm) as [Hne Hs].
  destruct (tryMatch_desc _ _ _ _ _ _ Hm) as (_ & Hn & k & x & y & Hd).
  unfold same_network in Hn. apply andb_true_iff in Hn as [E1%String.eqb_eq E2%negb_true_iff%String.eqb_neq].
  change (home_network pa) with (home_network a) in E1, E2. change (home_network pb) with (home_network b) in E1.
  change (home_coin pa ≠ home_coin pb) with (home_coin a ≠ home_coin b) in Hne.
  assert (Ed : d_network d = home_network a) by (rewrite Hd; unfold buildDesc; by destruct (String.leb _ _)).
  destruct Hs as [[El Eh]|[El Eh]].
  - apply (honest_side getlistat find a b); try done.
    apply proposal_bounds; rewrite ?El, ?Eh; done.
  - apply (honest_side getlistat find b a); try done; [by rewrite match_symmetric|by rewrite <-E1|by rewrite <-E1|].
    apply proposal_bounds; rewrite ?El, ?Eh; congruence || done.
Qed.

(** What a follower's check reads of a row. *)
Definition read_fields : list string :=
  ["a_chain"; "b_chain"; "snapshot_block"; "a_action_index"; "b_action_index"; "a_ownership"; "b_ownership"; "effective_time"; "network";
   "a_kind"; "b_kind"; "a_amount"; "b_amount"; "a_filled_before"; "b_filled_before"; "a_payout_legs"; "b_payout_legs";
   "a_push_generation"; "b_push_generation"; "match_id"].

Lemma check_reads getlistat find ready now (row row' : wirerow) :
  (∀ f, f ∈ read_fields → row f = row' f) →
  validateProposedMatch sha256Hex reg L ready now find getlistat (Some row) = validateProposedMatch sha256Hex reg L ready now find getlistat (Some row').
Proof.
  intros H. assert (E : ∀ f, existsb (String.eqb f) read_fields = true → row f = row' f).
  { intros f (x & Hx & ->%String.eqb_eq)%existsb_exists. apply H. by apply list_elem_of_In. }
  unfold validateProposedMatch, proposedMatchInBounds, row_agrees, allCanonicalInts, DEX_CANONICAL_INT_FIELDS. cbn [forallb].
  rewrite !(E "a_chain"), !(E "b_chain"), !(E "snapshot_block"), !(E "a_action_index"), !(E "b_action_index"), !(E "a_ownership"),
    !(E "b_ownership"), !(E "effective_time"), !(E "network"), !(E "a_kind"), !(E "b_kind"), !(E "a_amount"), !(E "b_amount"),
    !(E "a_filled_before"), !(E "b_filled_before"), !(E "a_payout_legs"), !(E "b_payout_legs"), !(E "a_push_generation"),
    !(E "b_push_generation"), !(E "match_id") by reflexivity. done.
Qed.

(** ** The admission bound *)

(** The check of a stamped row is the check of the row. *)
Lemma stamp_unread getlistat find ready now m r :
  validateProposedMatch sha256Hex reg L ready now find getlistat (Some (wire_of (stamped m r))) =
  validateProposedMatch sha256Hex reg L ready now find getlistat (Some (wire_of r)).
Proof.
  apply check_reads. intros f Hf. unfold read_fields in Hf.
  repeat (apply elem_of_cons in Hf as [->|Hf]; [reflexivity|]). by apply elem_of_nil in Hf.
Qed.

(** What [handlePropose] asks before this hub signs: the engine's validation and
    the admission bound on the row's map, against the hub's own tips. *)
Definition follower_accepts (producer : list (string * option Z)) (committedReady : bool) (now : Z)
    (find : string → Z → option offer) (getlistat : string → Z → Z → option json) (ownTips : string → option json) (row : wirerow) : bool :=
  validateAndBound (Some (validateProposedMatch sha256Hex reg L committedReady now find getlistat (Some row)))
    (admissionBoundHolds (admissionScope producer row)
       (match rowAdmitBlocks row None with Ok map => Some map | Err _ => None end) (Some ownTips)).

(** The chains a row is read on, and whether they are chains with a column. *)
Definition read_chains (x y : string) : option (list string) :=
  match admissionReadSet "cross_chain_matches" (λ f, if String.eqb f "a_chain" then Some x else if String.eqb f "b_chain" then Some y else None) [] with
  | Ok readSet => normalize_all (Some <$> readSet)
  | Err _ => None
  end.
Definition columned (chains : option (list string)) : bool :=
  match chains with Some (c :: l) => forallb (λ c, existsb (String.eqb c) ADMIT_COLUMN_CHAINS) (c :: l) | _ => false end.

Lemma read_chains_columned : forallb (λ x, forallb (λ y, columned (read_chains x y)) ALLOWED_CHAINS) ALLOWED_CHAINS = true.
Proof. vm_compute. reflexivity. Qed.

Lemma read_set_chains x y readSet :
  x ∈ ALLOWED_CHAINS → y ∈ ALLOWED_CHAINS →
  admissionReadSet "cross_chain_matches" (λ f, if String.eqb f "a_chain" then Some x else if String.eqb f "b_chain" then Some y else None) [] = Ok readSet →
  ∃ chains, normalize_all (Some <$> readSet) = Some chains ∧ chains ⊆ ADMIT_COLUMN_CHAINS ∧ chains ≠ [].
Proof.
  intros Hx%list_elem_of_In Hy%list_elem_of_In E. pose proof read_chains_columned as H. rewrite forallb_forall in H. specialize (H x Hx).
  cbv beta in H. rewrite forallb_forall in H. specialize (H y Hy). unfold read_chains in H. rewrite E in H. cbv beta in H.
  destruct (normalize_all _) as [[|c l]|]; [done| |done]. unfold columned in H. rewrite forallb_forall in H.
  exists (c :: l). split_and!; [done| |done]. intros z Hz%list_elem_of_In%H. apply existsb_exists in Hz as (w & Hw & ->%String.eqb_eq).
  by apply list_elem_of_In.
Qed.

Lemma stamped_bound producer tips hubNetwork own r r' :
  lg_chain (leg_A r) ∈ ALLOWED_CHAINS → lg_chain (leg_B r) ∈ ALLOWED_CHAINS →
  stampMatchAdmission producer (resolveAdmitBlocks (Some tips) hubNetwork) r = Some r' → (∀ c, 0 ≤ own c) →
  (∀ map c a, admission r' = Some map → map !! c = Some a → own c < a ≤ own c + admitMaxFutureBlocks (Some c) ∧ safe a = true) →
  (∃ m, r' = stamped m r) ∧
  admissionBoundHolds (admissionScope producer (wire_of r')) (match rowAdmitBlocks (wire_of r') None with Ok map => Some map | Err _ => None end)
    (Some (λ c, Some (JInt (own c)))) = true.
Proof.
  intros Ca Cb. unfold stampMatchAdmission. destruct (isAdmissionEra _ _ _) eqn:Era.
  2: { intros [= <-] _ _. split; [by eexists|]. unfold admissionScope.
       match goal with |- context [isAdmissionEra ?p ?n ?h] => change (isAdmissionEra p n h) with (isAdmissionEra producer (Some (network r)) (Some (JInt (snapshot_block r)))) end.
       by rewrite Era. }
  change (row_chain r) with (λ f, if String.eqb f "a_chain" then Some (lg_chain (leg_A r)) else if String.eqb f "b_chain" then Some (lg_chain (leg_B r)) else None).
  destruct (admissionReadSet _ _ _) as [readSet|] eqn:Ers; [|done]. destruct (resolveAdmitBlocks _ _ _ _) as [map|] eqn:Em; [|done].
  cbn [mbind option_bind]. intros [= <-] Hown Hw. split; [by eexists|]. destruct (read_set_chains _ _ _ Ca Cb Ers) as (chains & Hn & Hsub & Hne).
  unfold resolveAdmitBlocks in Em. destruct (missingAdmissionTips readSet tips); [|done]. destruct (admitBlocks _ _ _ _) as [map'|] eqn:Ea; [|done]. injection Em as ->.
  destruct (admitBlocks_spec _ _ _ _ _ Ea) as (chains' & Hn' & _ & Hm). rewrite Hn in Hn'. injection Hn' as <-.
  destruct (stamped_map_bound _ _ _ _ _ own Ea Hown) as [_ Hb]. specialize (Hw map). cbn [admission] in Hw.
  assert (Hpos : ∀ c z, map !! c = Some z → c ∈ ADMIT_COLUMN_CHAINS ∧ 0 ≤ z ∧ safe z = true).
  { intros c z Hc. destruct (Hw c z eq_refl Hc) as [? ?]. specialize (Hown c). apply Hm in Hc as [Hc _]. split_and!; [by apply Hsub|lia|done]. }
  fold (stamped (Some map) r). set (r' := stamped (Some map) r).
  assert (Hrow : rowAdmitBlocks (wire_of r') None = Ok (Some ((λ z, JInt z) <$> map))).
  { apply columns_keep_map; [|intros E|done].
    - unfold ADMIT_COLUMN_CHAINS. intros c Hc. repeat (apply elem_of_cons in Hc as [->|Hc]; [reflexivity|]). by apply elem_of_nil in Hc.
    - destruct chains as [|c l]; [done|]. assert (Hc : ∃ a, map !! c = Some a).
      { destruct (stamped_has _ _ _ _ _ _ Ea Hn c ltac:(by left)) as [a Ha]. by exists a. }
      destruct Hc as [a Ha]. by rewrite E, lookup_empty in Ha. }
  unfold admissionScope.
  match goal with |- context [isAdmissionEra ?p ?n ?h] => change (isAdmissionEra p n h) with (isAdmissionEra producer (Some (network r)) (Some (JInt (snapshot_block r)))) end.
  rewrite Era, Hrow. cbn [negb].
  match goal with |- context [admissionReadSet ?t ?f ?l] => assert (admissionReadSet t f l = Ok readSet) as -> by exact Ers end.
  unfold admissionBoundHolds. rewrite (proj2 Hb); [done|]. intros c a Hc. by apply (Hw c a).
Qed.

(** C27: an honest match passes all that a follower checks before it signs. A hub
    that derived a match from two open offers, and found fresh tips to stamp its
    admission map with where the row is in the admission era, gets past the
    validation and the admission bound of every hub that finds the same two offers
    and list answers, holds the same ledger, runs a clock at most twenty minutes
    behind the leader's or three minutes ahead of it, and whose own tip on each chain
    of the map lies below the stamped height by no more than the window of that
    chain; whichever of the two offers the leader met first, on both sides of the
    activation. *)
Theorem honest_match_cosigned producer tips hubNetwork own getlistat find a b d sb now now' r :
  let pa := prepareOffer getlistat reg sb a in let pb := prepareOffer getlistat reg sb b in
  home_coin a ∈ ALLOWED_CHAINS → home_coin b ∈ ALLOWED_CHAINS →
  tryMatch reg L pa pb (AtBlock sb) = Some d →
  stampMatchAdmission producer (resolveAdmitBlocks (Some tips) hubNetwork) (proposal d sb now) = Some r →
  find (home_coin a) (action_index a) = Some a → find (home_coin b) (action_index b) = Some b →
  safe sb = true → safe (action_index a) = true → safe (action_index b) = true →
  safe (give_ownership a) = true → safe (give_ownership b) = true → safe (effectiveTimeOf now d) = true →
  now - 1200 ≤ now' ≤ now + 180 → (∀ c, 0 ≤ own c) →
  (∀ map c h, admission r = Some map → map !! c = Some h → own c < h ≤ own c + admitMaxFutureBlocks (Some c) ∧ safe h = true) →
  follower_accepts producer true now' find getlistat (λ c, Some (JInt (own c))) (wire_of r) = true.
Proof.
  intros pa pb Ca Cb Hm Hr Fa Fb S1 S2 S3 S4 S5 S6 Hnow Hown Hw. unfold follower_accepts.
  pose proof (tryMatch_sides _ _ _ _ _ _ Hm) as [_ Hs].
  assert (Hc : home_coin (lo d) ∈ ALLOWED_CHAINS ∧ home_coin (hi d) ∈ ALLOWED_CHAINS)
    by (destruct Hs as [[-> ->]|[-> ->]]; split; done).
  destruct (stamped_bound producer tips hubNetwork own (proposal d sb now) r (proj1 Hc) (proj2 Hc) Hr Hown Hw) as [[m ->] ->].
  rewrite stamp_unread. by rewrite (honest_check getlistat find a b d sb now now').
Qed.

(** ** What the check leaves out *)

(** The row with A's proceeds sent elsewhere. *)
Definition redirect (addr : string) (r : matchrow) : matchrow :=
  let l := leg_A r in
  MatchRow (match_id r) (snapshot_block r) (network r)
    (Leg (lg_chain l) (lg_index l) (lg_kind l) (lg_tick l) (lg_amount l) (lg_filled_before l) (lg_ownership l) addr (lg_payout_legs l) (lg_generation l))
    (leg_B r) (effective_time r) (admission r).

Lemma bars_changed p x y q : x ≠ y → bars (p ++ x :: q) ≠ bars (p ++ y :: q).
Proof.
  intros Hne. induction p as [|a p IH]; simpl.
  - destruct q as [|b q]; [done|]. intros H. by apply app_str_inj_r in H.
  - intros H. destruct (p ++ x :: q) eqn:E1; [by destruct p|]. destruct (p ++ y :: q) eqn:E2; [by destruct p|].
    apply app_str_inj_l, app_str_inj_l in H. done.
Qed.

Lemma Ok_inj {E A} (a b : A) : Ok (E := E) a = Ok b → a = b.
Proof. congruence. Qed.

Lemma json_get_other f k v v' p q : f ≠ k → json_get f (p ++ (k, v) :: q) = json_get f (p ++ (k, v') :: q).
Proof.
  intros Hne. induction p as [|[k' x] p IH]; simpl; [|by rewrite IH].
  destruct (json_get f q); [done|]. destruct (String.eqb_spec f k) as [?|_]; done.
Qed.

(** The address a side is paid at is signed but not checked. Replacing A's payout
    address in a proposed row changes the bytes that are signed and changes nothing
    in the follower's answer: a hub signs the address the leader wrote, not the one
    its own indexer reports for the offer. *)
Theorem payout_address_unchecked getlistat find ready now producer view addr r c c' :
  addr ≠ lg_payout_addr (leg_A r) →
  canonicalMatch reg producer r view = Ok c → canonicalMatch reg producer (redirect addr r) view = Ok c' →
  c ≠ c' ∧
  validateProposedMatch sha256Hex reg L ready now find getlistat (Some (wire_of (redirect addr r))) =
  validateProposedMatch sha256Hex reg L ready now find getlistat (Some (wire_of r)).
Proof.
  intros Hne Hc Hc'. split.
  - intros <-. revert Hc Hc'. unfold canonicalMatch. cbn [network snapshot_block redirect admission leg_A leg_B lg_payout_legs match_id].
    destruct (admissionCanonicalField _ _ _ _) as [field|]; cbn [rbind]; [|done].
    assert (Hb : bars (xmatch_fields (redirect addr r)) ≠ bars (xmatch_fields r)).
    { apply (bars_changed (["XMATCH"; match_id r; pretty (snapshot_block r)] ++
        [lg_chain (leg_A r); pretty (lg_index (leg_A r)); lg_tick (leg_A r); lg_amount (leg_A r); pretty (lg_ownership (leg_A r))])). done. }
    intros H1 H2. pose proof (Ok_inj _ _ (eq_trans H2 (eq_sym H1))) as E. revert E.
    destruct (isEquivHeaderActive _ _); destruct (gate_active _ _ _ _); unfold buildEquivCanonical; intros E; apply Hb;
      repeat (first [apply app_str_inj_l in E | apply app_str_inj_r in E]); done.
  - apply check_reads. intros f Hf. unfold wire_of.
    change (row_wire (redirect addr r)) with (firstn 10 (row_wire r) ++ ("a_payout_addr", JStr addr) :: skipn 11 (row_wire r)).
    change (row_wire r) with (firstn 10 (row_wire r) ++ ("a_payout_addr", JStr (lg_payout_addr (leg_A r))) :: skipn 11 (row_wire r)) at 3.
    apply json_get_other. intros ->. unfold read_fields in Hf.
      repeat (apply elem_of_cons in Hf as [Hf|Hf]; [discriminate Hf|]). by apply elem_of_nil in Hf.
Qed.
End Honest.
