(* ===== verification/DexExamples.v ===== *)
(** * A book of two offers

    The activation rows the cross-chain DEX reads, and a small testnet book on which
    the theorems of the DEX files are evaluated. *)

From Stdlib Require Import QArith_base.
From S2P Require Import Prelude GateRegistry BigNum BcMath AttestWire OracleBand Admission DexOffer DexMatch DexRow DexProps DexFill DexTrade DexHonest DexStore DexStoreProps.
Open Scope Z_scope.

(** ** The activation rows *)

Definition OFFER_LIST_TABLE : jsdata :=
  JObj [("mainnet", JNum Gate.UNARMED); ("BTC:testnet", JNum 156230); ("LTC:testnet", JNum 4912984);
        ("DOGE:testnet", JNum 67989993); ("testnet", JNum 156230); ("regtest", JNum Gate.UNARMED)].

Definition PRICE_CROSS_TABLE : jsdata :=
  JObj [("mainnet", JNum Gate.UNARMED); ("BTC:testnet", JNum 156908); ("LTC:testnet", JNum 4927400);
        ("DOGE:testnet", JNum 68005165); ("testnet", JNum 156908); ("regtest", JNum 0)].

Definition ROYALTY_TABLE : jsdata := JObj [("mainnet", JNum 961000); ("testnet", JNum 0); ("regtest", JNum 0)].

Definition dex_registry : Gate.registry :=
  Gate.Registry [(CROSS_CHAIN_OFFER_LIST_ENFORCEMENT, Gate.Row Gate.UHeight OFFER_LIST_TABLE);
                 (PRICE_CROSS_KEY, Gate.Row Gate.UHeight PRICE_CROSS_TABLE);
                 (CROSS_CHAIN_ROYALTY_KEY, Gate.Row Gate.UHeight ROYALTY_TABLE)] None.

(** ** The book *)

Definition sample (coin other : string) (index block : Z) (tick other_tick give get : string) : offer :=
  Offer coin "testnet" (Some 500) "order" index (Some block) coin other tick other_tick (Some give) (Some get) 0 0 (Some 8)
    (Some ("addr" +:+ other)) "" 1 (Some Json.JNull) (Some Json.JNull) None.

(** 100 LTCT for 50 DOGT, and 25 DOGT for 40 LTCT. *)
Definition ltc_offer : offer := sample "LTC" "DOGE" 7 100 "LTCT" "DOGT" "100" "50".
Definition doge_offer : offer := sample "DOGE" "LTC" 9 101 "DOGT" "LTCT" "25" "40".
Definition no_lists : string → Z → Z → option Json.json := λ _ _ _, None.
Definition eight (coin tick : string) : nat := 8.

Definition ltc_ready : offer := prepareOffer no_lists dex_registry 160000 ltc_offer.
Definition doge_ready : offer := prepareOffer no_lists dex_registry 160000 doge_offer.

Definition ltc_doge : option desc := tryMatch dex_registry ∅ ltc_ready doge_ready (AtBlock 160000).

Example ltc_doge_fills : (d ← ltc_doge; Some (home_coin (lo d), loFill d, hiFill d)) = Some ("DOGE", "25", "40").
Proof. vm_compute. reflexivity. Qed.

(** ** The theorems at the book *)

Definition book2 : list offer := [ltc_ready; doge_ready].
Definition gives_of (k : string * Z) : Z := if String.eqb k.1 "LTC" then 10000000000 else 2500000000.
Definition asks_of (k : string * Z) : Z := if String.eqb k.1 "LTC" then 5000000000 else 4000000000.

Lemma book2_priced : well_priced eight book2 gives_of asks_of.
Proof.
  split.
  - intros o [->|[->|H]%elem_of_cons]%elem_of_cons; [| |by apply elem_of_nil in H];
      (split; [eexists; split; [reflexivity|split; reflexivity]|eexists; split; [reflexivity|split; reflexivity]|split; reflexivity|split; reflexivity|reflexivity|
               apply Nat.leb_le; reflexivity|apply Nat.leb_le; reflexivity]).
  - intros o o' [->|[->|H]%elem_of_cons]%elem_of_cons [->|[->|H']%elem_of_cons]%elem_of_cons E;
      try (by apply elem_of_nil in H); try (by apply elem_of_nil in H'); try done; discriminate E.
Qed.

(** Any function of texts stands for the digest. *)
Definition toy_digest : string → string := λ s, s.

Definition books2 (coin : string) : list offer := filter (λ o, home_coin o = coin) book2.
Definition the_match : desc := default (Desc ltc_ready doge_ready "" "" "" "" "" "" "") ltc_doge.
Definition step2 : trade_event → trades → trades := trade_step dex_registry toy_digest.
Definition run2 (evs : list trade_event) : trades := foldl (λ s ev, step2 ev s) no_trades evs.
Definition match_key (snapshotBlock : Z) : string := id_of toy_digest snapshotBlock the_match.

(** A pass, the same pass again while its round is open, and the row, which
    finalizes twice. *)
Definition repeated : list trade_event :=
  [Poll books2 160000; Propose; Poll books2 160000; Write (match_key 160000); Propose; Write (match_key 160000)].

Lemma pass2 : findMatches dex_registry ∅ books2 (AtBlock 160000) = [the_match].
Proof. vm_compute. reflexivity. Qed.

Lemma books2_offers o : o ∈ all_offers books2 → o ∈ book2.
Proof.
  unfold all_offers. intros (l & Ho & (c & -> & _)%list_elem_of_fmap)%list_elem_of_join.
  unfold books2 in Ho. apply list_elem_of_filter in Ho. tauto.
Qed.

Lemma proposed2 : run2 [Poll books2 160000; Propose] = Trades ∅ (<[match_key 160000 := the_match]> ∅) [] ∅.
Proof.
  unfold run2, step2. cbn [foldl trade_step]. unfold poll_matches, no_trades. cbn [t_todo t_ledger t_open t_rows]. rewrite pass2.
  unfold finalizeMatch. cbn [fmap list_fmap t_todo t_ledger t_open t_rows]. unfold open_round. by rewrite lookup_empty.
Qed.

Lemma repeated_reached : trading dex_registry toy_digest book2 (run2 repeated).
Proof.
  assert (H : trading dex_registry toy_digest book2 (run2 [Poll books2 160000; Propose])).
  { unfold run2. cbn [foldl]. apply T_step; [apply T_step; [constructor|]|exact I]. split; [apply books2_offers|].
    intros d id' d' _ H. unfold no_trades in H. cbn [t_open] in H. by rewrite lookup_empty in H. }
  change (run2 repeated) with (foldl (λ s ev, step2 ev s) (run2 [Poll books2 160000; Propose]) (drop 2 repeated)).
  rewrite proposed2 in *. cbn [repeated drop foldl]. repeat apply T_step; try exact I; [exact H|].
  split; [apply books2_offers|]. cbn [t_ledger t_open]. intros d id' d'. rewrite pass2.
  intros ->%list_elem_of_singleton [[<- <-]|[_ Hl]]%lookup_insert_Some _; [done|by rewrite lookup_empty in Hl].
Qed.

Example repeated_credits_once : l_give (committedFor (t_ledger (run2 repeated)) doge_ready) = "25".
Proof. vm_compute. reflexivity. Qed.

Lemma never_overfilled_witness :
  ∃ c r, text_steps (give_grid eight ltc_ready) (l_give (committedFor (t_ledger (run2 repeated)) ltc_ready)) c ∧ 0 ≤ c ≤ gives_of (key_of ltc_ready) ∧
    text_steps (get_grid eight ltc_ready) (l_get (committedFor (t_ledger (run2 repeated)) ltc_ready)) r ∧ (order_kind ltc_ready = true → 0 ≤ r ≤ asks_of (key_of ltc_ready)).
Proof. exact (never_overfilled dex_registry eight toy_digest book2 gives_of asks_of (run2 repeated) ltc_ready book2_priced repeated_reached ltac:(by left)). Defined.

(** Two passes one block apart, the second while the round of the first is still
    open: the snapshot block is part of the match id, so the guard on the open
    rounds does not see that the offers are taken, and both rows are credited. The
    order that gives 25 has then 50 committed. *)
Theorem successive_snapshots_overfill :
  let s := run2 [Poll books2 160000; Propose; Poll books2 160001; Propose; Write (match_key 160000); Write (match_key 160001)] in
  give_amount doge_ready = Some "25" ∧ l_give (committedFor (t_ledger s) doge_ready) = "50".
Proof. vm_compute. split; reflexivity. Qed.

Lemma price_cross_exact_witness :
  pricesCross dex_registry "testnet" (AtBlock 160000) (bidOf ltc_ready) (askOf doge_ready) =
    if gate_active dex_registry PRICE_CROSS_KEY "testnet" 160000 then 4000000000 * 5000000000 <=? 10000000000 * 2500000000
    else 10000000000 * 2500000000 <=? 4000000000 * 5000000000.
Proof.
  exact (price_cross_exact dex_registry eight ltc_ready doge_ready 10000000000 5000000000 2500000000 4000000000 "testnet" 160000
    eq_refl (proj1 book2_priced ltc_ready ltac:(by left)) (proj1 book2_priced doge_ready ltac:(by right; left))).
Defined.

Lemma paging_complete_witness :
  fetchOpenOffers (λ _ after, Answered (keyset_page 1 "testnet" (Some 500) [ltc_offer; doge_offer] false after)) =
    Some (Book "testnet" (Some 500) (take (MAX_PAGES * 1) [ltc_offer; doge_offer])).
Proof.
  refine (paging_complete 1 "testnet" (Some 500) [ltc_offer; doge_offer] false _ ltac:(lia)).
  constructor; [constructor; [constructor|constructor]|constructor; [done|constructor]].
Defined.

Definition find2 (chain : string) (index : Z) : option offer :=
  if String.eqb chain "LTC" && (index =? 7) then Some ltc_offer else if String.eqb chain "DOGE" && (index =? 9) then Some doge_offer else None.

(** The leader's fresh tips and a follower's, a block behind on each chain. *)
Definition leader_tips (c : string) : option Json.json :=
  if String.eqb c "LTC" then Some (Json.JInt 4920000) else if String.eqb c "DOGE" then Some (Json.JInt 68000000) else None.
Definition follower_tips (c : string) : Z := if String.eqb c "LTC" then 4919999 else if String.eqb c "DOGE" then 67999999 else 0.

Definition stamped_row : option matchrow :=
  d ← ltc_doge; stampMatchAdmission MIRROR_ADMISSION_ACTIVATION (resolveAdmitBlocks (Some leader_tips) (Some "testnet"%string))
    (proposal toy_digest d 160000 1700000000).

(** Block 160000 of testnet lies in the admission era: the row carries a map. *)
Example stamped_map : (r ← stamped_row; admission r) = Some (<["DOGE":=68000014]> {["LTC":=4920004]}).
Proof. vm_compute. reflexivity. Qed.

Lemma honest_match_cosigned_witness :
  match stamped_row with
  | Some r => follower_accepts toy_digest dex_registry ∅ MIRROR_ADMISSION_ACTIVATION true 1700000100 find2 no_lists
                (λ c, Some (Json.JInt (follower_tips c))) (wire_of r) = true
  | None => False
  end.
Proof.
  pose proof stamped_map as Hmap. destruct stamped_row as [r|] eqn:E; [|discriminate Hmap]. cbn [mbind option_bind] in Hmap.
  unfold stamped_row in E. destruct ltc_doge as [d|] eqn:Ed; [|discriminate E].
  refine (honest_match_cosigned toy_digest dex_registry ∅ MIRROR_ADMISSION_ACTIVATION leader_tips (Some "testnet") follower_tips
    no_lists find2 ltc_offer doge_offer d 160000 1700000000 1700000100 r _ _
    Ed E eq_refl eq_refl eq_refl eq_refl eq_refl eq_refl eq_refl _ _ _ _); [by right; left|by right; right; left| |lia| |].
  - unfold safe. vm_compute in Ed. injection Ed as <-. reflexivity.
  - intros c. unfold follower_tips. repeat (destruct (String.eqb _ _)); lia.
  - intros map c h Hm. rewrite Hmap in Hm. injection Hm as <-. intros [[<- <-]|[_ [<- <-]%lookup_singleton_Some]]%lookup_insert_Some; (split; [split|]; vm_compute; done).
Defined.

(** A proposed row that differs only in where A is paid. *)
Definition proposed : matchrow := match ltc_doge with Some d => proposal toy_digest d 160000 1700000000 | None => MatchRow "" 0 "" (Leg "" 0 "" "" "" "" 0 "" "" 0) (Leg "" 0 "" "" "" "" 0 "" "" 0) 0 None end.
Definition signed_of (r : matchrow) : string := match canonicalMatch dex_registry [] r 0 with Ok s => s | Err _ => "" end.

Lemma payout_address_unchecked_witness :
  signed_of proposed ≠ signed_of (redirect "thief" proposed) ∧
  validateProposedMatch toy_digest dex_registry ∅ true 1700000100 find2 no_lists (Some (wire_of (redirect "thief" proposed))) =
  validateProposedMatch toy_digest dex_registry ∅ true 1700000100 find2 no_lists (Some (wire_of proposed)).
Proof.
  refine (payout_address_unchecked toy_digest dex_registry ∅ no_lists find2 true 1700000100 [] 0 "thief" proposed
    (signed_of proposed) (signed_of (redirect "thief" proposed)) _ _ _); [|reflexivity|reflexivity].
  vm_compute. discriminate.
Defined.

(** Every match id stands for the match of 40 against 20. *)
Definition one_match (m : string) : mrow := MRow m (Fills "LTC" 7 "40" "DOGE" 9 "20") 1 1.

Lemma one_match_ok : content_ok one_match (λ _, 40 * 10 ^ 18) (λ _, 20 * 10 ^ 18).
Proof. split; [done|done|..]; intros m; (split; [split; reflexivity|lia]). Qed.

(** Two rounds finalize the match while a reorg retracts it. *)
Definition race : list event :=
  [Begin (one_match "m"); Snapshot 0 true; Insert 0; Retract "LTC" (Bounds 7 None None); Settle 0;
   Begin (one_match "m"); Snapshot 1 true; Insert 1; Select 0; Mark 0; Revive 1; Settle 1; Release 0; Done 0; Mirrored 1].

Definition after_race : engine := default initial (run race initial).

Definition prefix_ok (evs : list event) (s : engine) (n : nat) : Prop :=
  match run (take n evs) s with
  | Some x => Z.of_nat (size (dom (db x))) ≤ 2 ^ 63 ∧ match evs !! n with Some ev => event_ok one_match ev x | None => True end
  | None => True
  end.

Lemma run_reachable evs s s' :
  reachable one_match s → run evs s = Some s' → (∀ n, prefix_ok evs s n) → reachable one_match s'.
Proof.
  revert s. induction evs as [|ev evs IH]; intros s Hs Hrun Hok; [by injection Hrun as <-|].
  cbn [run] in Hrun. destruct (step ev s) as [s1|] eqn:E; [|done]. apply (IH s1); try done.
  - destruct (Hok 0%nat) as [_ He]. pose proof (Hok 1%nat) as H1. unfold prefix_ok in H1. cbn [take run] in H1. rewrite E in H1. destruct H1 as [Hroom _].
    eapply R_step; [exact Hs|exact He|exact E|exact Hroom].
  - intros n. specialize (Hok (S n)). unfold prefix_ok in *. cbn [take run lookup list_lookup] in Hok. by rewrite E in Hok.
Qed.

Lemma after_race_reachable : reachable one_match after_race.
Proof.
  unfold after_race. destruct (run race initial) as [s|] eqn:E; [|constructor]. cbn [default from_option id].
  apply (run_reachable race initial); [constructor|exact E|].
  intros n. do 16 (destruct n as [|n]; [vm_compute; split; [discriminate|done]|]). vm_compute. split; [discriminate|done].
Qed.

Lemma quiescent_ledger_is_rebuilt_witness :
  (Decimal.value (l_give (default nothing (led after_race !! ("LTC", 7%Z)))) ==
   Decimal.value (l_give (default nothing (rebuilt (live_rows (db after_race)) !! ("LTC", 7%Z)))))%Q.
Proof.
  refine (proj1 (quiescent_ledger_is_rebuilt one_match _ _ one_match_ok after_race ("LTC", 7) after_race_reachable _)).
  split; [reflexivity|]. intros n t H. do 3 (destruct n as [|n]; [vm_compute in H; try (injection H as <-); try discriminate H; reflexivity|]). vm_compute in H. discriminate H.
Defined.
