(* ===== verification/XInv.v ===== *)
(** * Cross-chain rounds: what every reachable state satisfies

    The signatures a round holds verify over the round's own bytes, every counted
    PREPARE came with one, and a commit quorum rests on signatures that meet the
    round's quorum; so does every finalization, over every interleaving of
    messages, timers and suspended handlers. *)

From S2P Require Import Prelude Ordered GateRegistry BigNum Quorum Json Admission XState XRounds.

(** ** The invariant *)

Section Inv.
Context {Row : Type} {E : Engine Row} {B : BigNumber} (h : env).
Implicit Types (s : state Row) (rd : round).

(** A set of at least two validators, with its own count quorum. *)
Definition bound_ok (b : binding) : Prop :=
  b_quorum b = Bft.bftQuorumOrSingle (Z.of_nat (length (b_validators b))) 0 ∧ b_quorum b ≠ 0.

(** The holders of the signatures include a quorum of [b]. *)
Definition proved (b : binding) (sigs : list (string * string)) : Prop :=
  ∃ voters, NoDup voters ∧ voters ⊆ sigs.*1 ∧ meets b voters = true.

Definition signed (c : string) (sigs : list (string * string)) : Prop :=
  ∀ pk sig, (pk, sig) ∈ sigs → verify h c sig pk = true.

(** [upto]: the round's bytes are its row's at a view no later than that. *)
Record round_inv (upto : Z) (R : gmap nat Row) (rd : round) : Prop := {
  ri_signed : signed (r_canonical rd) (r_signatures rd);
  ri_keys : NoDup (r_signatures rd).*1;
  ri_prepares : r_finalized rd = false → NoDup (r_prepares rd) ∧ r_prepares rd ⊆ (r_signatures rd).*1;
  ri_commits : r_finalized rd = false → NoDup (r_commits rd) ∧
    ∀ pk, pk ∈ r_commits rd → pk ∈ (r_signatures rd).*1 ∨ proved (r_bound rd) (r_signatures rd);
  ri_row : ∃ row w, R !! r_row rd = Some row ∧ canonicalMatch row w = Some (r_canonical rd) ∧ w ≤ upto }.

Definition proposal_inv (R : gmap nat Row) (p : proposal) : Prop :=
  verify h (p_canonical p) (p_sig p) (p_sender p) = true ∧
  ∃ row, R !! p_row p = Some row ∧ canonicalMatch row (p_view p) = Some (p_canonical p).

Definition kont_inv (R : gmap nat Row) (κ : kont) : Prop :=
  match κ with
  | KSole _ _ _ | KRestamp _ _ _ _ => False
  | KPropose _ _ => True
  | KValidate p | KAdopt p _ => proposal_inv R p
  | KSync _ _ _ ρ view c _ => ∃ row, R !! ρ = Some row ∧ canonicalMatch row view = Some c
  end.

(** What a finalization carries. *)
Definition finalized_ok (row : Row) (sigs : list (string * string)) (view : Z) (b : binding) : Prop :=
  bound_ok b ∧ NoDup sigs.*1 ∧ proved b sigs ∧
  ∃ c w, canonicalMatch row w = Some c ∧ w ≤ view ∧ signed c sigs.

Definition effect_ok (e : effect Row) : Prop :=
  match e with Finalized _ row sigs view b => finalized_ok row sigs view b | _ => True end.

Record inv s : Prop := {
  i_rounds pid rd : heap s !! pid = Some rd → round_inv (r_view rd) (rows s) rd;
  i_live rid pid : pending s !! rid = Some pid → ∃ rd, heap s !! pid = Some rd ∧ bound_ok (r_bound rd);
  i_fresh n : (next s ≤ n)%nat → rows s !! n = None ∧ heap s !! n = None;
  i_konts k κ : konts s !! k = Some κ → kont_inv (rows s) κ;
  i_out e : e ∈ out s → effect_ok e }.

(** ** Preservation by the primitive changes *)

Lemma round_inv_rows upto R R' rd : R ⊆ R' → round_inv upto R rd → round_inv upto R' rd.
Proof. intros HR [? ? ? ? (row & w & Hr & ? & ?)]. split; [done..|]. exists row, w. split_and!; [|done..]. by eapply lookup_weaken. Qed.

Lemma kont_inv_rows R R' κ : R ⊆ R' → kont_inv R κ → kont_inv R' κ.
Proof.
  intros HR. destruct κ; simpl; try done.
  - intros (? & x & ? & ?). split; [done|]. exists x. split; [by eapply lookup_weaken|done].
  - intros (? & x & ? & ?). split; [done|]. exists x. split; [by eapply lookup_weaken|done].
  - intros (x & ? & ?). exists x. split; [by eapply lookup_weaken|done].
Qed.

(** The fields the invariant reads. *)
Definition core s := (pending s, heap s, rows s, next s, konts s, out s).

Lemma inv_core s s' : core s = core s' → inv s → inv s'.
Proof. unfold core. intros [= H1 H2 H3 H4 H5 H6] []. split; rewrite <-?H1, <-?H2, <-?H3, <-?H4, <-?H5, <-?H6; done. Qed.

Lemma inv_emit e s : effect_ok e → inv s → inv (emit e s).
Proof. intros He []. split; try done. cbn. intros e' [->|?]%elem_of_cons; auto. Qed.

Lemma inv_broadcast e s : effect_ok e → inv s → inv (broadcast h e s).
Proof. intros. unfold broadcast. destruct (peers h); [by apply inv_emit|done]. Qed.

Lemma inv_suspend κ s : kont_inv (rows s) κ → inv s → inv (suspend κ s).
Proof.
  intros Hk [H1 H2 H3 H4 H5]. split; try done.
  - cbn. intros n Hn. apply H3. lia.
  - cbn. intros k κ'. rewrite lookup_insert. case_decide; [by intros [= <-]|apply H4].
Qed.

Lemma inv_new_row row ρ s s' : inv s → new_row row s = (ρ, s') → inv s' ∧ rows s' !! ρ = Some row.
Proof.
  intros [H1 H2 H3 H4 H5] [= <- <-]. assert (Hsub : rows s ⊆ <[next s := row]> (rows s)) by (apply insert_subseteq; by apply (H3 (next s))). split.
  - split; cbn.
    + intros pid rd Hrd. eapply round_inv_rows, H1; done.
    + done.
    + intros n Hn. rewrite lookup_insert_ne by lia. apply H3. lia.
    + intros k κ Hk. eapply kont_inv_rows, H4; done.
    + done.
  - cbn. by rewrite lookup_insert_eq.
Qed.

Lemma inv_modify pid f s :
  (∀ rd, heap s !! pid = Some rd → round_inv (r_view rd) (rows s) rd →
     round_inv (r_view (f rd)) (rows s) (f rd) ∧ (bound_ok (r_bound rd) → bound_ok (r_bound (f rd)))) →
  inv s → inv (modify pid f s).
Proof.
  intros Hf [H1 H2 H3 H4 H5]. split; cbn; try done.
  - intros pid' rd. rewrite lookup_alter. case_decide as Heq; [subst pid'|apply H1].
    intros (rd0 & Hrd & ->)%fmap_Some. apply Hf; [done|by apply H1 in Hrd].
  - intros rid pid' Hp. destruct (H2 _ _ Hp) as (rd & Hrd & Hb). rewrite lookup_alter. case_decide as Heq; [subst pid'|by eauto].
    rewrite Hrd. exists (f rd). split; [done|]. apply (Hf _ Hrd); [by eapply H1|done].
  - intros n Hn. destruct (H3 n Hn) as [? Hh]. split; [done|]. rewrite lookup_alter. case_decide; [|done]. subst. by rewrite Hh.
Qed.

Lemma inv_alloc rd s : round_inv (r_view rd) (rows s) rd → inv s → inv (bump (put_heap (<[next s := rd]> (heap s)) s)).
Proof.
  intros Hrd [H1 H2 H3 H4 H5]. split; cbn; try done.
  - intros pid rd'. rewrite lookup_insert. case_decide; [by intros [= <-]|apply H1].
  - intros rid pid Hp. destruct (H2 _ _ Hp) as (rd' & Hh & Hb). exists rd'. split; [|done]. rewrite lookup_insert_ne; [done|].
    intros <-. destruct (H3 (next s)) as [_ Hn]; [lia|]. congruence.
  - intros n Hn. rewrite lookup_insert_ne by lia. apply H3. lia.
Qed.

Lemma inv_pending_insert rid pid rd s :
  heap s !! pid = Some rd → bound_ok (r_bound rd) → inv s → inv (put_pending (<[rid := pid]> (pending s)) s).
Proof.
  intros Hrd Hb [H1 H2 H3 H4 H5]. split; cbn; try done. intros rid' pid'. rewrite lookup_insert.
  case_decide; [intros [= <-]; by exists rd|apply H2].
Qed.

Lemma inv_pending_delete rid s : inv s → inv (put_pending (delete rid (pending s)) s).
Proof. intros [H1 H2 H3 H4 H5]. split; try done. cbn. intros rid' pid [_ ?]%lookup_delete_Some. by eapply H2. Qed.

Lemma inv_take k κ s s' : inv s → take k s = Some (κ, s') → inv s' ∧ kont_inv (rows s') κ.
Proof.
  intros [H1 H2 H3 H4 H5] Ht. unfold take in Ht. destruct (konts s !! k) as [κ'|] eqn:Hk; [|done]. injection Ht as <- <-. split.
  - split; try done. cbn. intros k' κ'' [_ ?]%lookup_delete_Some. by eapply H4.
  - cbn. by eapply H4.
Qed.

Lemma live_lookup rid s pid rd : live rid s = Some (pid, rd) → pending s !! rid = Some pid ∧ heap s !! pid = Some rd.
Proof. unfold live. destruct (pending s !! rid) as [q|]; [|done]. cbn. destruct (heap s !! q) eqn:E'; [|done]. cbn. by intros [= <- <-]. Qed.

Lemma live_bound rid s pid rd : inv s → live rid s = Some (pid, rd) → bound_ok (r_bound rd) ∧ round_inv (r_view rd) (rows s) rd.
Proof.
  intros Hs [Hp Hrd]%live_lookup. split; [|by eapply i_rounds]. destruct (i_live _ Hs _ _ Hp) as (rd' & ? & ?). by simplify_eq.
Qed.
End Inv.

(** ** Bounded memory

    What peers can make a hub hold before it knows them: the early-arrival buffer
    stays within its caps and agrees with its expiry map, and the ring of
    finalized ids agrees with its set and its cache, over every run. *)

Section Bounds.
Context {Row : Type} {E : Engine Row} {B : BigNumber} (h : env).
Implicit Types s : state Row.
Context (Hids : (0 < earlyMessageMaxDistinctIds h)%nat).

(** The buffer: one expiry per id, and the three caps. *)
Definition early_ok (early : list (string * list (message nat))) (ttl : list (string * Z)) : Prop :=
  NoDup early.*1 ∧ NoDup ttl.*1 ∧ (∀ id, id ∈ early.*1 ↔ id ∈ ttl.*1) ∧
  (length early ≤ earlyMessageMaxDistinctIds h)%nat ∧
  ∀ id arr, (id, arr) ∈ early → (length arr ≤ earlyMessageMaxPerId)%nat ∧ ∀ m, m ∈ arr → m_size m ≤ earlyMessageMaxBytes h.

(** The ring: the order lists the set once, within the cap, and only finalized
    rounds are cached. *)
Definition ring_ok (fin : gset string) (order : list string) (cache : gmap string finrow) : Prop :=
  NoDup order ∧ (∀ id, id ∈ order ↔ id ∈ fin) ∧ (length order ≤ finalizedMax h)%nat ∧ dom cache ⊆ fin.

Definition bounded s : Prop :=
  early_ok (earlyMessages s) (earlyMessageTtl s) ∧ ring_ok (finalized s) (finalizedOrder s) (finalizedRows s).

(** The fields this reads. *)
Definition memory s := (earlyMessages s, earlyMessageTtl s, finalized s, finalizedOrder s, finalizedRows s).

Lemma bounded_memory s s' : memory s = memory s' → bounded s → bounded s'.
Proof. unfold memory, bounded. by intros [= -> -> -> -> ->]. Qed.

Lemma early_ok_delete id early ttl : early_ok early ttl → early_ok (m_delete id early) (m_delete id ttl).
Proof.
  intros (H1 & H2 & H3 & H4 & H5). unfold early_ok. rewrite !m_delete_keys. split_and!.
  - by apply NoDup_filter.
  - by apply NoDup_filter.
  - intros x. rewrite !list_elem_of_filter, H3. done.
  - etrans; [apply length_filter|done].
  - intros x arr [_ ?]%list_elem_of_filter. by eapply H5.
Qed.

Lemma early_ok_nil : early_ok [] [].
Proof. split_and!; [apply NoDup_nil_2|apply NoDup_nil_2|done|cbn; lia|]. intros id arr ?. set_solver. Qed.

Lemma bounded_drop id s : bounded s → bounded (drop_early id s).
Proof. intros [H1 H2]. split; [by apply early_ok_delete|done]. Qed.

Lemma bounded_prune now s : bounded s → bounded (pruneEarlyMessages now s).
Proof.
  intros Hs. unfold pruneEarlyMessages. generalize (earlyMessageTtl s). intros l. revert s Hs.
  induction l as [|kv l IH]; intros s Hs; [done|]. cbn [fold_left]. apply IH. destruct (_ <=? _); [by apply bounded_drop|done].
Qed.

Lemma bounded_buffer now id m s : bounded s → bounded (bufferEarlyMessage h now id m s).
Proof.
  intros Hs. unfold bufferEarlyMessage. apply (bounded_prune now) in Hs. set (s1 := pruneEarlyMessages now s) in *. clearbody s1.
  destruct (Z.ltb_spec (earlyMessageMaxBytes h) (m_size m)) as [|Hsz]; [done|]. unfold early_slot.
  destruct (m_get id (earlyMessages s1)) as [arr|] eqn:Hg.
  - apply m_get_in in Hg. destruct (Nat.leb_spec earlyMessageMaxPerId (length arr)); [done|].
    destruct Hs as [(H1 & H2 & H3 & H4 & H5) Hr]. split; [|done]. cbn.
    assert (Hin : id ∈ (earlyMessages s1).*1) by (apply list_elem_of_fmap; by exists (id, arr)).
    split_and!; [by apply NoDup_m_set|by apply NoDup_m_set| |by rewrite m_set_length_old|].
    + intros x. rewrite !elem_of_m_set, H3. done.
    + intros x arr' [[= -> ->]|Hx]%elem_of_m_set_pair; [|by eapply H5]. destruct (H5 _ _ Hg) as [? Hm].
      rewrite length_app. cbn. split; [lia|]. intros m' [?| ->%list_elem_of_singleton]%elem_of_app; [by apply Hm|done].
  - set (s2 := if (earlyMessageMaxDistinctIds h <=? _)%nat then _ else _). assert (Hs2 : bounded s2 ∧ (length (earlyMessages s2) < earlyMessageMaxDistinctIds h)%nat ∧ id ∉ (earlyMessages s2).*1).
    { apply m_get_none in Hg. subst s2. destruct (Nat.leb_spec (earlyMessageMaxDistinctIds h) (length (earlyMessages s1))) as [Hle|Hlt]; cbv iota; [|split; [done|by split]].
      destruct (earlyMessages s1) as [|[o a] rest] eqn:He; [cbn in *; lia|]. split; [by apply bounded_drop|]. cbn. rewrite He.
      destruct Hs as [(Hnd & _ & _ & Hl & _) _]. rewrite He in Hnd, Hl. cbn in Hnd, Hl. apply NoDup_cons in Hnd as [Ho _].
      assert (Hd : m_delete o ((o, a) :: rest) = rest).
      { unfold m_delete. rewrite filter_cons_False by (cbn; naive_solver). apply list_filter_id. intros [x y] Hx. cbn. intros ->.
        apply Ho, list_elem_of_fmap. by exists (o, y). }
      rewrite Hd. cbn in Hg. split; [lia|set_solver]. }
    destruct Hs2 as ([(H1 & H2 & H3 & H4 & H5) Hr] & Hlt & Hno). clearbody s2. cbn [length].
    assert (Hset : ∀ v : list (message nat), m_set id v (m_set id [] (earlyMessages s2)) = earlyMessages s2 ++ [(id, v)]).
    { intros v. rewrite m_set_same. by apply m_set_new. }
    change (earlyMessageMaxPerId <=? 0)%nat with false. cbv iota. split; [|done]. cbn. rewrite Hset. cbn. split_and!.
    + rewrite fmap_app. apply NoDup_app. split_and!; [done|set_solver|apply NoDup_singleton].
    + by apply NoDup_m_set.
    + intros x. rewrite elem_of_m_set, fmap_app, elem_of_app, H3. set_solver.
    + rewrite length_app. cbn. lia.
    + intros x arr [?|[= -> ->]%list_elem_of_singleton]%elem_of_app; [by eapply H5|]. split; [cbn; unfold earlyMessageMaxPerId; lia|].
      intros m' ->%list_elem_of_singleton. done.
Qed.

Lemma bounded_mark rid ρ sigs view s : bounded s → bounded (markFinalized h rid ρ sigs view s).
Proof.
  intros [He (H1 & H2 & H3 & H4)]. unfold markFinalized. case_bool_decide as Hrid; [done|]. split.
  { destruct (_ <? _)%nat; [|done]. cbn. by destruct (finalizedOrder s). }
  assert (Hnd : NoDup (finalizedOrder s ++ [rid])).
  { apply NoDup_app. split_and!; [done| |apply NoDup_singleton]. intros x Hx ->%list_elem_of_singleton. by apply Hrid, H2. }
  cbn [finalizedOrder put_finalizedOrder put_finalizedRows put_finalized finalized finalizedRows].
  destruct (Nat.ltb_spec (finalizedMax h) (length (finalizedOrder s ++ [rid]))) as [Hlt|Hge].
  - destruct (finalizedOrder s ++ [rid]) as [|o order] eqn:Ho; [cbn in Hlt; lia|].
    assert (Hel : ∀ id, id ∈ o :: order ↔ id ∈ finalized s ∨ id = rid) by (intros id; rewrite <-Ho, elem_of_app, H2; set_solver).
    apply NoDup_cons in Hnd as [Hno Hnd]. cbn. split_and!; [done| | |].
    + intros id. specialize (Hel id). rewrite elem_of_cons in Hel. destruct (decide (id = o)) as [->|]; set_solver.
    + assert (length (o :: order) = S (length (finalizedOrder s))) by (rewrite <-Ho, length_app; cbn; lia). cbn in *. lia.
    + rewrite dom_delete_L, dom_insert_L. set_solver.
  - cbn. split_and!; [done| |done|rewrite dom_insert_L; set_solver].
    intros id. rewrite elem_of_app, H2. set_solver.
Qed.

Lemma bounded_forget rid s : bounded s → bounded (forgetFinalized rid s).
Proof.
  intros [He (H1 & H2 & H3 & H4)]. unfold forgetFinalized. set (id := toLowerCase rid).
  set (s1 := put_finalizedRows _ _). set (s2 := if bool_decide _ then _ else _).
  assert (Hb : bounded s2).
  { unfold s2, s1. case_bool_decide as Hin; (split; [done|]); cbn; split_and!; try done.
    - by apply NoDup_filter.
    - intros x. rewrite list_elem_of_filter, H2. set_solver.
    - etrans; [apply length_filter|done].
    - rewrite dom_delete_L. set_solver.
    - intros x. rewrite H2. set_solver.
    - rewrite dom_delete_L. set_solver. }
  destruct (live id s2) as [[pid rd]|]; [|done]. by apply (bounded_memory s2).
Qed.

(** ** Every handler *)

Lemma bounded_finalize rid s : bounded s → bounded (finalize h rid s).
Proof.
  intros Hs. unfold finalize. destruct (live rid s) as [[pid rd]|]; [|done]. destruct (r_finalized rd); [done|].
  set (s1 := modify pid (set_r_finalized true) s). pose proof (bounded_mark rid (r_row rd) (r_signatures rd) (r_view rd) s1 Hs) as Hm.
  unfold emit_finalized. cbn. by destruct (rows _ !! _).
Qed.

Lemma memory_broadcast e s : memory (broadcast h e s) = memory s.
Proof. unfold broadcast. by destruct (peers h). Qed.

Lemma bounded_broadcast e s : bounded s → bounded (broadcast h e s).
Proof. apply bounded_memory. by rewrite memory_broadcast. Qed.

Lemma bounded_checkCommit rid s : bounded s → bounded (checkCommitQuorum h rid s).
Proof.
  intros Hs. unfold checkCommitQuorum. destruct (live rid s) as [[pid rd]|]; [|done]. destruct (r_finalized rd); [done|].
  destruct (negb _); [done|by apply bounded_finalize].
Qed.

Lemma bounded_checkPrepare rid s : bounded s → bounded (checkPrepareQuorum h rid s).
Proof.
  intros Hs. unfold checkPrepareQuorum. destruct (live rid s) as [[pid rd]|]; [|done]. destruct (_ || _); [done|].
  destruct (negb _); [done|]. by apply bounded_checkCommit, bounded_broadcast.
Qed.

Lemma bounded_repropose pid view s : bounded s → bounded (reproposeAsLeader h pid view s).
Proof.
  intros Hs. unfold reproposeAsLeader. destruct (_ ≫= _) as [[rd c]|]; [|done].
  set (s1 := if String.eqb _ _ then _ else _). assert (bounded s1) by (unfold s1; by destruct (String.eqb _ _)).
  by apply (bounded_broadcast _ s1).
Qed.

Lemma bounded_restamp now rd s : bounded s → bounded (restampEffectiveTime now rd s).2.
Proof. intros Hs. unfold restampEffectiveTime. by case_goal. Qed.

Lemma bounded_assume now rid view s : bounded s → bounded (maybeAssumeLeadership h now rid view s).
Proof.
  intros Hs. unfold maybeAssumeLeadership. destruct (live rid s) as [[pid rd]|]; [|done]. destruct (r_finalized rd); [done|].
  destruct (r_viewChanges rd !! view); [|done]. destruct (negb _); [done|]. case_bool_decide; [|done].
  set (s1 := modify _ _ s). pose proof (bounded_restamp now rd s1 Hs) as Hr. destruct (restampEffectiveTime now rd s1) as [[] s2]; try done;
    by apply bounded_repropose.
Qed.

Lemma bounded_initiate now rid s : bounded s → bounded (initiateViewChange h now rid s).
Proof.
  intros Hs. unfold initiateViewChange. destruct (live rid s) as [[pid rd]|]; [|done]. destruct (r_finalized rd); [done|].
  set (s1 := modify _ _ s). apply bounded_assume. by apply (bounded_memory s1); [cbn; rewrite <-(memory_broadcast (SendViewChange rid (r_view rd + 1) (self h) (signControl h (vcTag h) rid (r_view rd + 1))) s1)|].
Qed.

Lemma bounded_message now m s : bounded s → bounded (handleMessage h now m s).
Proof.
  intros Hs. unfold handleMessage. destruct (m_type m).
  - unfold handlePropose. assert (Hl : bounded (leaderProposal h now m s).1).
    { unfold leaderProposal. destruct (String.eqb _ ""); [done|]. case_bool_decide; [done|].
      destruct (live _ s) as [[pid rd]|]; [|by apply bounded_buffer]. by case_goal. }
    by destruct (leaderProposal h now m s) as [s1 [p|]].
  - unfold handlePrepare. destruct (String.eqb _ ""); [done|]. case_bool_decide; [done|].
    destruct (live _ s) as [[pid rd]|]; [|by apply bounded_buffer]. destruct (negb _); [done|].
    destruct (negb _); [by apply bounded_buffer|]. by apply bounded_checkPrepare.
  - unfold handleCommit. destruct (String.eqb _ ""); [done|]. case_bool_decide; [done|].
    destruct (live _ s) as [[pid rd]|]; [|by apply bounded_buffer]. destruct (negb _); [done|].
    destruct (negb _); [by apply bounded_buffer|]. destruct (negb _); [done|]. by apply bounded_checkCommit.
  - unfold handleViewChange. destruct (String.eqb _ ""); [done|]. case_bool_decide.
    + destruct (finalizedRows s !! _); [|done]. destruct (rows s !! _); [|done]. by apply bounded_broadcast.
    + destruct (live _ s) as [[pid rd]|]; [|by apply bounded_buffer]. destruct (m_view m); [|done].
      do 2 (destruct (negb _); [done|]). by apply bounded_assume.
  - unfold handleNewView. destruct (String.eqb _ ""); [done|]. case_bool_decide; [done|].
    destruct (live _ s) as [[pid rd]|]; [|by apply bounded_buffer]. by case_goal.
  - unfold handleFinalSync. destruct (_ || _); [done|]. destruct (live _ s) as [[pid rd]|]; [|done]. by case_goal.
Qed.

Lemma bounded_drain now id s : bounded s → bounded (drainEarlyMessages h now id s).
Proof.
  intros Hs. unfold drainEarlyMessages. destruct (m_get id _) as [arr|]; [|done].
  apply (bounded_drop id) in Hs. revert Hs. generalize (drop_early id s).
  induction arr as [|m arr IH]; intros s0 H0; [done|]. cbn [fold_left]. by apply IH, bounded_message.
Qed.

Lemma bounded_count p s : bounded s → bounded (countLeaderAndOwnPrepare h p s).
Proof.
  intros Hs. unfold countLeaderAndOwnPrepare. apply bounded_checkPrepare. unfold own_prepare.
  destruct (heap _ !! _); [|done]. destruct (m_get _ _); [done|]. by apply bounded_broadcast.
Qed.

Lemma bounded_propose now matchId row vs tr s s' : bounded s → propose h now matchId row vs tr s = Ok s' → bounded s'.
Proof.
  intros Hs. unfold propose. do 2 (case_bool_decide; [by intros [= <-]|]). case_bool_decide; [done|].
  destruct (refuseTruncatedRound _ _); [by intros [= <-]|]. destruct (canonicalMatch row 0); [|done].
  cbn [new_row openPendingRound]. destruct (_ =? 0).
  - intros [= <-]. unfold finalizeSoleOperator. by destruct (negb _).
  - case_bool_decide; intros [= <-]; [done|by apply bounded_drain].
Qed.

Lemma bounded_resume now κ ev s s' : bounded s → resume h now κ ev s = Some s' → bounded s'.
Proof.
  intros Hs. destruct κ as [rid pid c|pid drain|p|p declared|m rid pid ρ view c declared|pid rid view sec];
    destruct ev; try done; cbn [resume]; intros [= <-].
  - unfold resumeSole. by apply bounded_finalize.
  - assert (Hb : bounded (broadcastPropose h pid s)).
    { unfold broadcastPropose. destruct (heap s !! pid) as [rd|]; [|done]. cbn. destruct (rows s !! r_row rd); [|done]. by apply bounded_broadcast. }
    destruct drain; [by apply bounded_drain|done].
  - unfold resumeValidate. destruct (negb _); [done|]. destruct (_ ≫= _) as [[[rd row] own]|]; [|done].
    destruct (String.eqb _ _); [by apply bounded_count|]. by destruct (committedToOtherValue _ _ _ _) as [[]|].
  - unfold resumeAdopt. assert (Ha : bounded (adoptLeaderRow p (rebound_of declared raw s) s).1).
    { unfold adoptLeaderRow. by case_goal. }
    destruct (adoptLeaderRow _ _ _) as [s1 []]; [by apply bounded_drain, bounded_count|done].
  - unfold resumeSync. destruct (rebound_of declared raw s) as [[b|]|]; [|done|];
      (destruct (heap s !! pid) as [rd|]; [|done]); (destruct (_ || _); [done|]);
      (destruct (verifiedSyncSignatures _ _ _ _); [by apply bounded_finalize|done]).
  - unfold resumeRestamp. destruct answer as [[m|]|]; [|done..]. destruct (heap s !! pid) as [rd|]; [|done].
    destruct (0 <? m); [|done]. destruct (rows s !! r_row rd);
      (destruct (r_finalized rd || _ || _); [done|by apply bounded_repropose]).
Qed.

Lemma bounded_step now ev s s' : bounded s → step h now ev s = Some s' → bounded s'.
Proof.
  intros Hs. destruct ev; cbn [step].
  - destruct (propose _ _ _ _ _ _ _) as [s1|] eqn:Hp; intros [= <-]; [by eapply bounded_propose|done].
  - unfold arrive. destruct (m_row m); cbn; intros [= <-]; by apply bounded_message.
  - unfold take. destruct (konts s !! k); cbn; [|done]. by apply bounded_resume.
  - unfold take. destruct (konts s !! k); cbn; [|done]. by apply bounded_resume.
  - unfold take. destruct (konts s !! k); cbn; [|done]. by apply bounded_resume.
  - unfold take. destruct (konts s !! k); cbn; [|done]. by apply bounded_resume.
  - intros [= <-]. unfold onRoundTimeout. destruct (live rid s) as [[pid rd]|]; [|done]. destruct (_ || _); [done|].
    destruct (_ <? _); [done|by apply bounded_initiate].
  - intros [= <-]. unfold evictPending. destruct (heap s !! pid); [|done]. by destruct (_ && _).
  - intros [= <-]. by apply bounded_forget.
  - intros [= <-]. split; [|apply Hs]. apply early_ok_nil.
Qed.

Lemma bounded_run evs s s' : bounded s → run h evs s = Some s' → bounded s'.
Proof.
  revert s. induction evs as [|[now ev] evs IH]; intros s Hs; cbn [run]; [by intros [= <-]|].
  destruct (step h now ev s) as [s1|] eqn:Hst; cbn; [|done]. apply IH. by eapply bounded_step.
Qed.

Lemma bounded_initial : bounded (initial (Row := Row)).
Proof. split; [apply early_ok_nil|]. cbn. split_and!; [apply NoDup_nil_2|set_solver|cbn; lia|set_solver]. Qed.
End Bounds.
