(* ===== verification/XSafety.v ===== *)
(** * Cross-chain rounds: the handlers keep the invariant

    One lemma per handler, and the invariant of [XInv] in every state a run of
    events reaches. *)

From S2P Require Import Prelude Ordered GateRegistry BigNum Quorum Json Admission XState XRounds XInv.

Section Safety.
Context {Row : Type} {E : Engine Row} {B : BigNumber} (h : env).
Implicit Types (s : state Row) (rd : round).
Context (Hself : ∀ p, verify h p (sign h p) (self h) = true).
Context (Hmargin : ∀ r : Row, effectiveTimeMarginS r = NoMargin).

(** ** The early buffer and the finalized ring leave the rounds alone *)

Lemma core_drop id s : core (drop_early id s) = core s.
Proof. done. Qed.

Lemma core_prune now s : core (pruneEarlyMessages now s) = core s.
Proof.
  unfold pruneEarlyMessages. generalize (earlyMessageTtl s). intros l. revert s.
  induction l as [|kv l IH]; intros s; [done|]. cbn [fold_left]. rewrite IH. by destruct (kv.2 <=? now).
Qed.

Lemma core_slot id s : core (early_slot h id s).2 = core s.
Proof. unfold early_slot. destruct (m_get id _); [done|]. cbn. destruct (_ <=? _)%nat; [|done]. by destruct (earlyMessages s) as [|[]]. Qed.

Lemma core_buffer now id m s : core (bufferEarlyMessage h now id m s) = core s.
Proof.
  unfold bufferEarlyMessage. destruct (_ <? m_size m); [apply core_prune|].
  pose proof (core_slot id (pruneEarlyMessages now s)) as Hs. rewrite core_prune in Hs.
  destruct (early_slot _ _ _) as [arr s']. cbn in Hs. by destruct (_ <=? _)%nat.
Qed.

Lemma inv_buffer now id m s : inv h s → inv h (bufferEarlyMessage h now id m s).
Proof. apply inv_core. by rewrite core_buffer. Qed.

Lemma core_mark rid ρ sigs view s : core (markFinalized h rid ρ sigs view s) = core s.
Proof. unfold markFinalized. case_bool_decide; [done|]. destruct (_ <? _)%nat; [|done]. cbn. by destruct (finalizedOrder s). Qed.

(** ** Votes *)

Lemma proved_mono b sigs sigs' : sigs.*1 ⊆ sigs'.*1 → proved b sigs → proved b sigs'.
Proof. intros Hs (voters & ? & ? & ?). exists voters. split_and!; [done|set_solver|done]. Qed.

Lemma signed_set c k v m : verify h c v k = true → signed h c m → signed h c (m_set k v m).
Proof. intros Hv Hm pk sig [[= -> ->]|?]%elem_of_m_set_pair; [done|by apply Hm]. Qed.

Lemma sigs_grow k v (m : list (string * string)) : m.*1 ⊆ (m_set k v m).*1.
Proof. intros x Hx. apply elem_of_m_set. by right. Qed.

Lemma round_signature u R rd key sig :
  verify h (r_canonical rd) sig key = true → round_inv h u R rd →
  round_inv h u R (set_r_signatures (m_set key sig (r_signatures rd)) rd).
Proof.
  intros Hv [H1 H2 H3 H4 H5]. split; cbn; try done.
  - by apply signed_set.
  - by apply NoDup_m_set.
  - intros Hf. destruct (H3 Hf) as [? Hs]. split; [done|]. etrans; [apply Hs|apply sigs_grow].
  - intros Hf. destruct (H4 Hf) as [? Hs]. split; [done|]. intros pk Hpk. destruct (Hs _ Hpk) as [?|?].
    + left. by apply sigs_grow.
    + right. eapply proved_mono; [apply sigs_grow|done].
Qed.

Lemma round_prepare u R rd key sig :
  verify h (r_canonical rd) sig key = true → round_inv h u R rd → round_inv h u R (add_prepare key sig rd).
Proof.
  intros Hv Hrd. destruct (round_signature _ _ _ _ _ Hv Hrd) as [H1 H2 H3 H4 H5]. split; cbn in *; try done.
  intros Hf. destruct (H3 Hf) as [? Hs]. split; [by apply NoDup_s_add|].
  intros x [->|?]%elem_of_s_add; [|by apply Hs]. apply elem_of_m_set. by left.
Qed.

Lemma round_commit u R rd key :
  key ∈ (r_signatures rd).*1 ∨ proved (r_bound rd) (r_signatures rd) →
  round_inv h u R rd → round_inv h u R (set_r_commits (s_add key (r_commits rd)) rd).
Proof.
  intros Hk [H1 H2 H3 H4 H5]. split; cbn; try done. intros Hf. destruct (H4 Hf) as [? Hs].
  split; [by apply NoDup_s_add|]. intros pk [->|?]%elem_of_s_add; auto.
Qed.

(** A commit quorum rests on signatures that meet the quorum. *)
Lemma commits_proved u R rd :
  round_inv h u R rd → r_finalized rd = false → meetsQuorum rd (r_commits rd) = true → proved (r_bound rd) (r_signatures rd).
Proof.
  intros [_ _ _ H4 _] Hf Hm. destruct (H4 Hf) as [Hnd Hs].
  destruct (decide (r_commits rd ⊆ (r_signatures rd).*1)) as [Hsub|Hno].
  - by exists (r_commits rd).
  - assert (∃ pk, pk ∈ r_commits rd ∧ pk ∉ (r_signatures rd).*1) as (pk & Hin & Hout).
    { destruct (Exists_exists (λ pk, pk ∉ (r_signatures rd).*1) (r_commits rd)) as [Hex _].
      destruct (decide (Exists (λ pk, pk ∉ (r_signatures rd).*1) (r_commits rd))) as [?|Hall]; [naive_solver|].
      exfalso. apply Hno. intros x Hx. destruct (decide (x ∈ (r_signatures rd).*1)); [done|]. exfalso. apply Hall.
      apply Exists_exists. eauto. }
    by destruct (Hs _ Hin).
Qed.

(** ** Finalization *)

Lemma inv_finalize_at rid s pid rd :
  live rid s = Some (pid, rd) → r_finalized rd = false → inv h (modify pid (set_r_finalized true) s) →
  (∀ row, rows s !! r_row rd = Some row → finalized_ok h row (r_signatures rd) (r_view rd) (r_bound rd)) →
  inv h (finalize h rid s).
Proof.
  intros Hl Hf Hs Hok. unfold finalize. rewrite Hl, Hf.
  assert (Hflag : ∀ f : round → round, (∀ r R, round_inv h (r_view r) R r → round_inv h (r_view (f r)) R (f r)) →
    (∀ r, r_bound (f r) = r_bound r) → ∀ s', inv h s' → inv h (modify pid f s')).
  { intros f Hr Hb s' ?. apply inv_modify; [|done]. intros r _ ?. rewrite Hb. auto. }
  apply Hflag; [by intros r R []; split|done|].
  unfold emit_finalized. set (s1 := modify pid (set_r_timer false) _).
  assert (Hs1 : inv h s1).
  { apply Hflag; [by intros r R []; split|done|]. eapply inv_core; [symmetry; apply core_mark|done]. }
  assert (Hrows : rows s1 = rows s).
  { unfold s1. cbn. pose proof (core_mark rid (r_row rd) (r_signatures rd) (r_view rd) (modify pid (set_r_finalized true) s)) as Hc.
    unfold core in Hc. by injection Hc. }
  rewrite Hrows. destruct (rows s !! r_row rd) as [row|] eqn:Hrow; [|done]. apply inv_emit; [by apply Hok|done].
Qed.

Lemma inv_finalize rid s :
  (∀ pid rd, live rid s = Some (pid, rd) → r_finalized rd = false → proved (r_bound rd) (r_signatures rd)) →
  inv h s → inv h (finalize h rid s).
Proof.
  intros Hp Hs. destruct (live rid s) as [[pid rd]|] eqn:Hl; [|by unfold finalize; rewrite Hl].
  destruct (r_finalized rd) eqn:Hf; [by unfold finalize; rewrite Hl, Hf|]. specialize (Hp _ _ eq_refl Hf).
  destruct (live_bound _ _ _ _ _ Hs Hl) as [Hb [Hsig Hnd _ _ (row' & w & Hr & Hc & Hw)]].
  eapply inv_finalize_at; [done..| |].
  - apply inv_modify; [|done]. intros r _ [? ? ? ? ?]. split; [by split|done].
  - intros row Hrow. simplify_eq. split_and!; [done..|]. by exists (r_canonical rd), w.
Qed.

Lemma inv_checkCommitQuorum rid s : inv h s → inv h (checkCommitQuorum h rid s).
Proof.
  intros Hs. unfold checkCommitQuorum. destruct (live rid s) as [[pid rd]|] eqn:Hl; [|done].
  destruct (r_finalized rd) eqn:Hf; [done|]. destruct (meetsQuorum rd (r_commits rd)) eqn:Hm; cbn; [|done].
  apply inv_finalize; [|done]. intros pid' rd'. rewrite Hl. intros [= <- <-] _. eapply commits_proved; [|done..].
  by eapply live_bound.
Qed.

Lemma inv_checkPrepareQuorum rid s : inv h s → inv h (checkPrepareQuorum h rid s).
Proof.
  intros Hs. unfold checkPrepareQuorum. destruct (live rid s) as [[pid rd]|] eqn:Hl; [|done].
  destruct (r_finalized rd || r_commitSent rd) eqn:Hf; [done|]. bools. destruct (meetsQuorum rd (r_prepares rd)) eqn:Hm; cbn; [|done].
  apply inv_checkCommitQuorum, inv_broadcast; [done|]. apply inv_modify; [|done].
  intros r Hr Hinv. apply live_lookup in Hl as [_ Hl]. simplify_eq. split; [|done].
  apply (round_commit _ _ (set_r_commitSent true rd)).
  - right. destruct (ri_prepares _ _ _ _ Hinv) as [? ?]; [done|]. by exists (r_prepares rd).
  - destruct Hinv. by split.
Qed.

(** ** The vote handlers *)

Lemma inv_handlePrepare now m s : inv h s → inv h (handlePrepare h now m s).
Proof.
  intros Hs. unfold handlePrepare. destruct (String.eqb _ ""); [done|]. case_bool_decide; [done|].
  destruct (live _ s) as [[pid rd]|] eqn:Hl; [|by apply inv_buffer].
  destruct (is_member _ _); cbn [negb]; [|done]. destruct (verify _ _ _ _) eqn:Hv; cbn [negb]; [|by apply inv_buffer].
  apply inv_checkPrepareQuorum, inv_modify; [|done]. intros r Hr ?. apply live_lookup in Hl as [_ Hl]. simplify_eq.
  split; [by apply round_prepare|done].
Qed.

Lemma inv_handleCommit now m s : inv h s → inv h (handleCommit h now m s).
Proof.
  intros Hs. unfold handleCommit. destruct (String.eqb _ ""); [done|]. case_bool_decide; [done|].
  destruct (live _ s) as [[pid rd]|] eqn:Hl; [|by apply inv_buffer].
  destruct (is_member _ _); cbn [negb]; [|done]. destruct (verify _ _ (m_sig m) _) eqn:Hv; cbn [negb]; [|by apply inv_buffer].
  apply live_lookup in Hl as [_ Hl].
  set (key := toLowerCase (m_pubkey m)) in *. set (f := λ rd : round, set_r_signatures (m_set key (m_sig m) (r_signatures rd)) rd).
  assert (Hs1 : inv h (modify pid f s)).
  { apply inv_modify; [|done]. intros r Hr ?. simplify_eq. split; [by apply round_signature|done]. }
  destruct (verify _ _ (m_commit_sig m) _); cbn [negb]; [|done].
  apply inv_checkCommitQuorum, inv_modify; [|done]. cbn. rewrite lookup_alter_eq, Hl. intros r [= <-] Hr. split; [|done].
  apply round_commit; [|done]. left. cbn. apply elem_of_m_set. by left.
Qed.
(** ** Proposals *)

Lemma leaderProposal_core now m s : core (leaderProposal h now m s).1 = core s.
Proof.
  unfold leaderProposal. destruct (String.eqb _ ""); [done|]. case_bool_decide; [done|].
  destruct (live _ s) as [[pid rd]|]; [|apply core_buffer]. by case_goal.
Qed.

Lemma leaderProposal_spec now m s p :
  (leaderProposal h now m s).2 = Some p → proposal_inv h (rows s) p ∧ p_rid p = toLowerCase (m_matchId m).
Proof.
  unfold leaderProposal. destruct (String.eqb _ ""); [done|]. case_bool_decide; [done|].
  destruct (live _ s) as [[pid rd]|]; [|done]. destruct (_ <? _); [done|].
  destruct (negb (bool_decide (leaderFor _ _ _ = _))); [done|]. destruct (negb (is_member _ _)); [done|].
  destruct (m_row m) as [ρ|]; cbn [mbind option_bind]; [|done]. destruct (rows s !! ρ) as [row|] eqn:Hrow; cbn [mbind option_bind]; [|done].
  destruct (negb (String.eqb _ _)); [done|]. destruct (canonicalMatch row _) as [c|] eqn:Hc; [|done].
  destruct (verify h c _ _) eqn:Hv; cbn [negb]; [|done]. cbn. intros [= <-]. split; [|done]. split; [done|]. by exists row.
Qed.

Lemma inv_handlePropose now m s : inv h s → inv h (handlePropose h now m s).
Proof.
  intros Hs. unfold handlePropose. pose proof (leaderProposal_core now m s) as Hc. pose proof (leaderProposal_spec now m s) as Hp.
  destruct (leaderProposal h now m s) as [s' [p|]]; cbn in *; [|by eapply inv_core].
  assert (Hs' : inv h s') by by eapply inv_core. apply inv_suspend; [|done].
  destruct (Hp p eq_refl) as [Hp' _]. replace (rows s') with (rows s); [done|]. unfold core in Hc. congruence.
Qed.

Lemma inv_own_prepare p s :
  (∀ rd, heap s !! p_pid p = Some rd → r_canonical rd = p_canonical p) → inv h s → inv h (own_prepare h p s).
Proof.
  intros Hc Hs. unfold own_prepare. destruct (heap s !! p_pid p) as [rd|] eqn:Hrd; [|done].
  destruct (m_get _ _); [done|]. apply inv_broadcast; [done|]. apply inv_modify; [|done].
  intros r Hr ?. simplify_eq. split; [|done]. apply round_prepare; [|done]. rewrite (Hc rd) by done. apply Hself.
Qed.

(** The leader's vote on a round [F] may have moved to the leader's bytes. *)
Lemma inv_counted p F s :
  verify h (p_canonical p) (p_sig p) (p_sender p) = true →
  (∀ rd, heap s !! p_pid p = Some rd → round_inv h (r_view rd) (rows s) rd →
     r_canonical (F rd) = p_canonical p ∧ round_inv h (Z.max (r_view (F rd)) (p_view p)) (rows s) (F rd) ∧
     (bound_ok (r_bound rd) → bound_ok (r_bound (F rd)))) →
  inv h s → inv h (checkPrepareQuorum h (p_rid p) (own_prepare h p (modify (p_pid p) (λ rd, count_leader p (F rd)) s))).
Proof.
  intros Hv HF Hs. apply inv_checkPrepareQuorum. assert (Hcan : ∀ rd, heap s !! p_pid p = Some rd → r_canonical (F rd) = p_canonical p).
  { intros rd Hrd. by apply HF; [|eapply i_rounds]. }
  apply inv_own_prepare.
  - cbn. rewrite lookup_alter_eq. intros rd (rd0 & Hrd & ->)%fmap_Some. cbn. by apply Hcan.
  - apply inv_modify; [|done]. intros rd Hrd Hinv. destruct (HF _ Hrd Hinv) as (Hc & Hr & Hb). split; [|done].
    unfold count_leader. apply round_prepare; [by cbn; rewrite Hc|].
    destruct Hr as [H1 H2 H3 H4 (row & w & ? & ? & ?)]. split; try done. cbn. exists row, w. split_and!; [done..|].
    destruct (Z.ltb_spec (r_view (F rd)) (p_view p)); lia.
Qed.

Lemma inv_resumeValidate p ok s : proposal_inv h (rows s) p → inv h s → inv h (resumeValidate h p ok s).
Proof.
  intros Hp Hs. unfold resumeValidate. destruct ok; cbn [negb]; [|done].
  destruct (heap s !! p_pid p) as [rd|] eqn:Hrd; cbn [mbind option_bind]; [|done].
  destruct (rows s !! p_row p) as [row|] eqn:Hrow; cbn [mbind option_bind]; [|done].
  destruct (rows s !! r_row rd) as [own|]; cbn [mbind option_bind]; [|done].
  destruct (String.eqb_spec (p_canonical p) (r_canonical rd)) as [Hc|_].
  - apply (inv_counted p id); [apply Hp| |done]. intros rd' ? Hr. simplify_eq. split_and!; [done| |done].
    destruct Hr as [H1 H2 H3 H4 (r & w & ? & ? & ?)]. split; try done. exists r, w. split_and!; [done..|]. cbn. lia.
  - destruct (committedToOtherValue _ _ _ _) as [[]|]; try done. by apply inv_suspend.
Qed.

Lemma rebind_ok row raw b : rebindSnapshot row raw = Some b → bound_ok b.
Proof.
  unfold rebindSnapshot. destruct raw as [[[|v vs] tr]|]; [done| |done]. destruct (_ && _); [done|].
  destruct (Z.eqb_spec (b_quorum (bind (v :: vs) (row_weighted row))) 0); [done|]. intros [= <-]. split; [|done].
  unfold bind. cbn [b_quorum b_validators]. by rewrite length_fmap.
Qed.

Lemma rebound_ok declared raw s b : rebound_of declared raw s = Some (Some b) → bound_ok b.
Proof.
  unfold rebound_of. destruct declared as [ρ|]; [|done]. intros [= H]. destruct (rows s !! ρ) as [row|]; [|done]. by eapply rebind_ok.
Qed.

(** The round that adopted the leader's row. *)
Definition adopted (p : proposal) (rebound : option (option binding)) (rd : round) : round :=
  set_r_commitSent false (set_r_commits [] (set_r_prepares [] (set_r_signatures []
    (set_r_bound match rebound with Some (Some b) => b | _ => r_bound rd end
      (set_r_canonical (p_canonical p) (set_r_row (p_row p) rd)))))).

Lemma adopt_cases p rebound s :
  adoptLeaderRow p rebound s = (s, false) ∨
  ∃ rd, heap s !! p_pid p = Some rd ∧ r_finalized rd = false ∧ pending s !! p_rid p = Some (p_pid p) ∧
        adoptLeaderRow p rebound s = (modify (p_pid p) (λ r, adopted p rebound rd) s, true).
Proof.
  unfold adoptLeaderRow. destruct rebound as [[b|]|]; [|by left|];
    (destruct (heap s !! p_pid p) as [rd|] eqn:Hrd; [|by left]);
    (destruct (bool_decide (p_rid p ∈ finalized s) || r_finalized rd || _) eqn:Hg; [by left|]);
    apply orb_false_iff in Hg as [[_ Hf]%orb_false_iff Hp%negb_false_iff%bool_decide_eq_true].
  - destruct (negb (is_member _ _)); [by left|]. right. exists rd. split_and!; [done..|].
    f_equal. unfold modify. f_equal. apply alter_ext. intros r Hr. by simplify_eq.
  - right. exists rd. split_and!; [done..|]. f_equal. unfold modify. f_equal. apply alter_ext. intros r Hr. by simplify_eq.
Qed.

Lemma inv_adopt_count p rebound s :
  proposal_inv h (rows s) p → (∀ b, rebound = Some (Some b) → bound_ok b) → inv h s →
  ∀ s', adoptLeaderRow p rebound s = (s', true) → inv h (countLeaderAndOwnPrepare h p s').
Proof.
  intros [Hv (row & Hrow & Hc)] Hb Hs s' Ha. destruct (adopt_cases p rebound s) as [Hn|(rd & Hrd & Hf & Hp & Hy)]; [congruence|].
  rewrite Hy in Ha. injection Ha as <-. unfold countLeaderAndOwnPrepare.
  replace (modify (p_pid p) (count_leader p) (modify (p_pid p) (λ r, adopted p rebound rd) s))
    with (modify (p_pid p) (λ r, count_leader p (adopted p rebound rd)) s).
  2: { unfold modify. cbn. unfold put_heap. cbn. f_equal. by rewrite alter_alter_eq. }
  apply (inv_counted p (λ r, adopted p rebound rd)); [done| |done]. intros r Hr Hinv. simplify_eq. split_and!; [done| |].
  - split; cbn; try done.
    + intros pk sig. set_solver.
    + constructor.
    + intros _. split; [constructor|set_solver].
    + intros _. split; [constructor|set_solver].
    + exists row, (p_view p). split_and!; [done..|lia].
  - intros Hbd. cbn. destruct rebound as [[b|]|]; [by apply Hb|done..].
Qed.
(** ** View changes *)

Lemma inv_set_view pid f s :
  (∀ rd, heap s !! pid = Some rd → r_view rd ≤ f rd) → inv h s → inv h (modify pid (λ rd, set_r_view (f rd) rd) s).
Proof.
  intros Hf Hs. apply inv_modify; [|done]. intros rd Hrd [H1 H2 H3 H4 (row & w & ? & ? & ?)]. split; [|done].
  split; try done. exists row, w. cbn. specialize (Hf _ Hrd). split_and!; [done..|lia].
Qed.

Lemma inv_repropose pid view s : inv h s → inv h (reproposeAsLeader h pid view s).
Proof.
  intros Hs. unfold reproposeAsLeader. destruct (heap s !! pid) as [rd|] eqn:Hrd; cbn [mbind option_bind]; [|done].
  destruct (rows s !! r_row rd) as [row|] eqn:Hrow; cbn [mbind option_bind]; [|done].
  destruct (canonicalMatch row (r_view rd)) as [c|] eqn:Hc; cbn [mbind option_bind]; [|done].
  apply inv_suspend; [done|]. apply inv_broadcast; [done|]. destruct (String.eqb c _); [done|]. apply inv_modify; [|done].
  intros r Hr _. simplify_eq. split; [|done]. split; cbn; try done.
  - intros pk sig. set_solver.
  - constructor.
  - intros _. split; [constructor|set_solver].
  - intros _. split; [constructor|set_solver].
  - exists row, (r_view rd). done.
Qed.

Lemma restamp_none now rd s : restampEffectiveTime now rd s = (RestampNone, s).
Proof.
  unfold restampEffectiveTime. destruct (rows s !! r_row rd) as [row|]; cbn [mbind option_bind]; [|done].
  destruct (row_effective row); cbn [mbind option_bind]; [|done]. rewrite Hmargin. by destruct (_ <=? _).
Qed.

Lemma inv_maybeAssumeLeadership now rid view s : inv h s → inv h (maybeAssumeLeadership h now rid view s).
Proof.
  intros Hs. unfold maybeAssumeLeadership. destruct (live rid s) as [[pid rd]|]; [|done]. destruct (r_finalized rd); [done|].
  destruct (r_viewChanges rd !! view); [|done]. destruct (negb _); [done|].
  assert (Hv : inv h (modify pid (λ rd, set_r_view (if r_view rd <? view then view else r_view rd) rd) s)).
  { apply inv_set_view; [|done]. intros r _. destruct (Z.ltb_spec (r_view r) view); lia. }
  case_bool_decide; [|done]. rewrite restamp_none. by apply inv_repropose.
Qed.

Lemma inv_add_vote pid view key s : inv h s → inv h (modify pid (add_vote view key) s).
Proof. intros Hs. apply inv_modify; [|done]. intros rd _ []. split; [by split|done]. Qed.

Lemma inv_initiateViewChange now rid s : inv h s → inv h (initiateViewChange h now rid s).
Proof.
  intros Hs. unfold initiateViewChange. destruct (live rid s) as [[pid rd]|] eqn:Hl; [|done]. destruct (r_finalized rd); [done|].
  apply live_lookup in Hl as [_ Hl]. apply inv_maybeAssumeLeadership. apply inv_modify; [by intros r _ []; split; [split|]|].
  apply inv_broadcast; [done|].
  replace (modify pid _ s) with (modify pid (add_vote (r_view rd + 1) (self h)) (modify pid (λ r, set_r_view (r_view rd + 1) r) s)).
  - apply inv_add_vote, inv_set_view; [|done]. intros r Hr. simplify_eq. lia.
  - unfold modify. cbn. unfold put_heap. cbn. f_equal. by rewrite alter_alter_eq.
Qed.

Lemma inv_handleViewChange now m s : inv h s → inv h (handleViewChange h now m s).
Proof.
  intros Hs. unfold handleViewChange. destruct (String.eqb _ ""); [done|]. case_bool_decide.
  - destruct (finalizedRows s !! _) as [fin|]; [|done]. destruct (rows s !! _); [|done]. by apply inv_broadcast.
  - destruct (live _ s) as [[pid rd]|]; [|by apply inv_buffer]. destruct (m_view m); [|done]. destruct (negb _); [done|].
    destruct (negb _); [done|]. by apply inv_maybeAssumeLeadership, inv_add_vote.
Qed.

Lemma inv_handleNewView now m s : inv h s → inv h (handleNewView h now m s).
Proof.
  intros Hs. unfold handleNewView. destruct (String.eqb _ ""); [done|]. case_bool_decide; [done|].
  destruct (live _ s) as [[pid rd]|] eqn:Hl; [|by apply inv_buffer]. destruct (m_view m) as [view|]; [|done].
  destruct (Z.leb_spec view (r_view rd)); [done|]. destruct (negb _); [done|]. destruct (negb _); [done|].
  destruct (r_viewChanges rd !! view); [|done]. destruct (meetsQuorum _ _); [|done].
  apply inv_set_view; [|done]. apply live_lookup in Hl as [_ Hl]. intros r Hr. simplify_eq. lia.
Qed.

Lemma inv_onRoundTimeout now rid s : inv h s → inv h (onRoundTimeout h now rid s).
Proof.
  intros Hs. unfold onRoundTimeout. destruct (live rid s) as [[pid rd]|]; [|done]. destruct (_ || _); [done|].
  destruct (_ <? _); [|by apply inv_initiateViewChange]. apply inv_emit; [done|].
  apply (inv_pending_delete h rid (modify pid (set_r_timer false) s)), inv_modify; [|done]. by intros r _ []; split; [split|].
Qed.

(** ** Straggler catch-up *)

Lemma verified_spec c offered b sigs :
  verifiedSyncSignatures h c offered b = Some sigs → NoDup sigs.*1 ∧ signed h c sigs ∧ proved b sigs.
Proof.
  unfold verifiedSyncSignatures. set (f := fold_left _ offered []). assert (Hf : NoDup f.*1 ∧ signed h c f).
  { unfold f. assert (H0 : NoDup (@nil (string * string)).*1 ∧ signed h c []) by (split; [constructor|intros ??; set_solver]).
    revert H0. generalize (@nil (string * string)). induction offered as [|o l IH]; intros m H0; [done|]. cbn [fold_left].
    apply IH. destruct (negb (is_member _ _)); [done|]. destruct (verify h c _ _) eqn:Hv; cbn [negb]; [|done].
    destruct H0. split; [by apply NoDup_m_set|by apply signed_set]. }
  clearbody f. destruct (if b_weighted b then _ else _) eqn:Hok; [|done]. intros [= <-]. destruct Hf. split_and!; [done..|].
  exists f.*1. split_and!; [done..|]. unfold meets. destruct (b_weighted b); [done|]. rewrite length_fmap. bools. lia.
Qed.

Lemma inv_handleFinalSync m s : inv h s → inv h (handleFinalSync h m s).
Proof.
  intros Hs. unfold handleFinalSync. destruct (_ || _); [done|]. destruct (live _ s) as [[pid rd]|]; [|done].
  destruct (r_finalized rd); [done|]. destruct (m_row m) as [ρ|]; cbn [mbind option_bind]; [|done].
  destruct (rows s !! ρ) as [row|] eqn:Hrow; cbn [mbind option_bind]; [|done]. destruct (negb _); [done|].
  destruct (canonicalMatch row _) as [c|] eqn:Hc; [|done]. apply inv_suspend; [|done]. by exists row.
Qed.

Lemma inv_resumeSync m rid pid ρ view c rebound s :
  (∃ row, rows s !! ρ = Some row ∧ canonicalMatch row view = Some c) → (∀ b, rebound = Some (Some b) → bound_ok b) →
  inv h s → inv h (resumeSync h m rid pid ρ view c rebound s).
Proof.
  intros (row & Hrow & Hc) Hb Hs. unfold resumeSync.
  assert (Hcase : rebound = Some None ∨ rebound ≠ Some None) by (destruct rebound as [[]|]; auto).
  destruct Hcase as [->|Hn]; [done|]. destruct (heap s !! pid) as [rd|] eqn:Hrd; [|by destruct rebound as [[]|]].
  set (b := match rebound with Some (Some b) => b | _ => r_bound rd end).
  assert (Hinv : inv h (if bool_decide (rid ∈ finalized s) || r_finalized rd || negb (bool_decide (pending s !! rid = Some pid)) then s
    else match verifiedSyncSignatures h c (m_signatures m) b with
         | None => s
         | Some verified => finalize h rid (modify pid (λ rd, set_r_view view (set_r_bound b (set_r_signatures verified
                              (set_r_canonical c (set_r_row ρ rd))))) s)
         end)); [|by destruct rebound as [[]|]].
  destruct (_ || _) eqn:Hg; [done|]. apply orb_false_iff in Hg as [[_ Hf]%orb_false_iff Hp%negb_false_iff%bool_decide_eq_true].
  destruct (verifiedSyncSignatures _ _ _ _) as [sigs|] eqn:Hv; [|done]. apply verified_spec in Hv as (Hnd & Hsig & Hpr).
  assert (Hbound : bound_ok b).
  { destruct (i_live _ _ Hs _ _ Hp) as (rd' & ? & ?). simplify_eq. unfold b. destruct rebound as [[b'|]|]; [by apply Hb|done..]. }
  eapply (inv_finalize_at rid _ pid (set_r_view view (set_r_bound b (set_r_signatures sigs (set_r_canonical c (set_r_row ρ rd)))))).
  - unfold live. cbn. rewrite Hp. cbn. by rewrite lookup_alter_eq, Hrd.
  - done.
  - unfold modify. cbn. unfold put_heap. cbn. rewrite alter_alter_eq.
    change (inv h (modify pid (set_r_finalized true ∘ (λ rd, set_r_view view (set_r_bound b (set_r_signatures sigs
                                (set_r_canonical c (set_r_row ρ rd)))))) s)).
    apply inv_modify; [|done]. intros r Hr _. simplify_eq. split; [|done]. split; cbn; try done. by exists row, view.
  - cbn. intros row' Hrow'. simplify_eq. split_and!; [done..|]. by exists c, view.
Qed.
(** ** The door, the continuations and the runs *)

Lemma inv_handleMessage now m s : inv h s → inv h (handleMessage h now m s).
Proof.
  intros Hs. unfold handleMessage. destruct (m_type m);
    [by apply inv_handlePropose|by apply inv_handlePrepare|by apply inv_handleCommit|by apply inv_handleViewChange
    |by apply inv_handleNewView|by apply inv_handleFinalSync].
Qed.

Lemma inv_drain now id s : inv h s → inv h (drainEarlyMessages h now id s).
Proof.
  intros Hs. unfold drainEarlyMessages. destruct (m_get id _) as [arr|]; [|done].
  assert (Hd : inv h (drop_early id s)) by by apply (inv_core h s). revert Hd. generalize (drop_early id s).
  induction arr as [|m arr IH]; intros s0 H0; [done|]. cbn [fold_left]. by apply IH, inv_handleMessage.
Qed.

(** A hub proposes as the only validator of its set. *)
Definition sole (ev : event (Row := Row)) : Prop :=
  match ev with EvPropose _ _ [v] _ => toLowerCase (js_String (x_pubkey v)) = self h | _ => False end.

Lemma bind_quorum vs weighted : b_quorum (bind vs weighted) ≠ 0 → bound_ok (bind vs weighted).
Proof. intros Hq. split; [|done]. unfold bind. cbn. by rewrite length_fmap. Qed.

Lemma inv_propose now matchId row vs tr s s' :
  ¬ sole (EvPropose matchId row vs tr) → inv h s → propose h now matchId row vs tr s = Ok s' → inv h s'.
Proof.
  intros Hsole Hs. unfold propose. set (rid := toLowerCase matchId). case_bool_decide; [by intros [= <-]|].
  case_bool_decide; [by intros [= <-]|]. case_bool_decide; [done|].
  destruct (refuseTruncatedRound _ _); [intros [= <-]; by apply inv_emit|].
  destruct (canonicalMatch row 0) as [c|] eqn:Hc; [|done]. destruct (new_row row s) as [ρ s1] eqn:Hn.
  destruct (inv_new_row _ _ _ _ _ Hs Hn) as [Hs1 Hrow]. unfold openPendingRound. set (pid := next s1).
  set (rd := Round _ _ _ _ _ _ _ _ _ _ _ _ _ _).
  assert (Hrd : round_inv h (r_view rd) (rows s1) rd).
  { split; cbn; try done; [intros ? ?; set_solver|constructor|..]; try (intros _; split; [constructor|set_solver]). by exists row, 0. }
  pose proof (inv_alloc h rd s1 Hrd Hs1) as Ha. set (s2 := bump (put_heap _ _)) in Ha.
  change (bump (put_pending _ _)) with (put_pending (<[rid := pid]> (pending s2)) s2).
  destruct (Z.eqb_spec (b_quorum (bind vs (row_weighted row))) 0) as [Hq|Hq].
  - intros [= <-]. unfold finalizeSoleOperator.
    assert (match vs with [v] => String.eqb (toLowerCase (js_String (x_pubkey v))) (self h) | _ => false end = false) as ->.
    { destruct vs as [|v [|]]; [done| |done]. apply String.eqb_neq, Hsole. }
    cbn [negb]. apply inv_emit; [done|].
    apply (inv_core h (put_pending (delete rid (pending s2)) s2)); [|by apply inv_pending_delete].
    unfold core. cbn. by rewrite delete_insert_eq.
  - assert (Ht : inv h (modify pid (set_r_timer true) (put_pending (<[rid := pid]> (pending s2)) s2))).
    { apply inv_modify; [by intros r _ []; split; [split|]|]. apply (inv_pending_insert h rid pid rd); [|by apply bind_quorum|done].
      cbn. by rewrite lookup_insert_eq. }
    case_bool_decide; intros [= <-]; [by apply inv_suspend|by apply inv_drain].
Qed.

Lemma inv_broadcastPropose pid s : inv h s → inv h (broadcastPropose h pid s).
Proof.
  intros Hs. unfold broadcastPropose. destruct (heap s !! pid) as [rd|] eqn:Hrd; [|done].
  assert (Hm : inv h (modify pid (add_prepare (self h) (sign h (r_canonical rd))) s)).
  { apply inv_modify; [|done]. intros r Hr ?. simplify_eq. split; [by apply round_prepare|done]. }
  set (s1 := modify _ _ _) in *. destruct (rows s1 !! r_row rd); [|done]. by apply inv_broadcast.
Qed.

Lemma inv_resume now κ ev s s' : kont_inv h (rows s) κ → inv h s → resume h now κ ev s = Some s' → inv h s'.
Proof.
  intros Hk Hs. destruct κ as [rid pid c|pid drain|p|p declared|m rid pid ρ view c declared|pid rid view sec]; [done| | | | |done];
    destruct ev; try done; cbn [resume]; intros [= <-].
  - destruct drain; [by apply inv_drain, inv_broadcastPropose|by apply inv_broadcastPropose].
  - by apply inv_resumeValidate.
  - unfold resumeAdopt. pose proof (inv_adopt_count p (rebound_of declared raw s) s Hk) as Ha.
    destruct (adopt_cases p (rebound_of declared raw s) s) as [Hn|(rd & _ & _ & _ & Hy)]; [by rewrite Hn|].
    rewrite Hy. apply inv_drain, Ha; [by intros b ?%rebound_ok|done..].
  - apply inv_resumeSync; [done|by intros b ?%rebound_ok|done].
Qed.

Lemma inv_evict pid s : inv h s → inv h (evictPending pid s).
Proof.
  intros Hs. unfold evictPending. destruct (heap s !! pid); [|done]. destruct (_ && _); [|done]. by apply inv_pending_delete.
Qed.

Lemma inv_forget rid s : inv h s → inv h (forgetFinalized rid s).
Proof.
  intros Hs. unfold forgetFinalized. set (s1 := put_finalizedRows _ _). set (s2 := if bool_decide _ then _ else _).
  assert (H2 : inv h s2) by (apply (inv_core h s); [unfold s2; by case_bool_decide|done]).
  destruct (live _ s2) as [[pid rd]|]; [|done].
  apply (inv_core h (put_pending (delete (toLowerCase rid) (pending (modify pid (λ rd, set_r_timer false (set_r_cleanup false rd)) s2)))
    (modify pid (λ rd, set_r_timer false (set_r_cleanup false rd)) s2))); [done|].
  apply inv_pending_delete, inv_modify; [by intros r _ []; split; [split|]|done].
Qed.

Lemma inv_stop s : inv h s → inv h (stop s).
Proof.
  intros [H1 H2 H3 H4 H5]. unfold stop. split; cbn; try done.
  - intros pid rd. rewrite map_lookup_imap. destruct (heap s !! pid) as [r|] eqn:Hr; cbn; [|done]. intros [= <-].
    pose proof (H1 _ _ Hr) as Hi. case_bool_decide; [|done]. destruct Hi. by split.
  - intros n Hn. destruct (H3 n Hn) as [? Hh]. split; [done|]. by rewrite map_lookup_imap, Hh.
Qed.

Lemma inv_arrive m s m' s' : inv h s → arrive m s = (m', s') → inv h s'.
Proof.
  intros Hs. unfold arrive. destruct (m_row m) as [row|]; [|by intros [= <- <-]].
  destruct (new_row row s) as [ρ s1] eqn:Hn. intros [= <- <-]. by eapply inv_new_row.
Qed.

Lemma rounds_inv_step now ev s s' : ¬ sole ev → inv h s → step h now ev s = Some s' → inv h s'.
Proof.
  intros Hsole Hs. destruct ev; cbn [step].
  - destruct (propose _ _ _ _ _ _ _) as [s1|] eqn:Hp; intros [= <-]; [by eapply inv_propose|done].
  - destruct (arrive m s) as [m' s1] eqn:Ha. intros [= <-]. by eapply inv_handleMessage, inv_arrive.
  - destruct (take k s) as [[κ s1]|] eqn:Ht; cbn; [|done]. destruct (inv_take _ _ _ _ _ Hs Ht). by apply inv_resume.
  - destruct (take k s) as [[κ s1]|] eqn:Ht; cbn; [|done]. destruct (inv_take _ _ _ _ _ Hs Ht). by apply inv_resume.
  - destruct (take k s) as [[κ s1]|] eqn:Ht; cbn; [|done]. destruct (inv_take _ _ _ _ _ Hs Ht). by apply inv_resume.
  - destruct (take k s) as [[κ s1]|] eqn:Ht; cbn; [|done]. destruct (inv_take _ _ _ _ _ Hs Ht). by apply inv_resume.
  - intros [= <-]. by apply inv_onRoundTimeout.
  - intros [= <-]. by apply inv_evict.
  - intros [= <-]. by apply inv_forget.
  - intros [= <-]. by apply inv_stop.
Qed.

Lemma inv_initial : inv h (initial (Row := Row)).
Proof. split; cbn; [done|done|done|done|]. intros e. set_solver. Qed.

Lemma inv_run evs s s' : Forall (λ nev, ¬ sole nev.2) evs → inv h s → run h evs s = Some s' → inv h s'.
Proof.
  intros Hev. revert s. induction Hev as [|[now ev] evs Hs _ IH]; intros s Hi; cbn [run]; [by intros [= <-]|].
  destruct (step h now ev s) as [s1|] eqn:Hst; cbn; [|done]. apply IH. by eapply rounds_inv_step.
Qed.
End Safety.
