(* ===== verification/XLive.v ===== *)
(** * Cross-chain rounds: an honest leader's row finalizes

    A follower that validates the leader's row signs it, and the COMMITs of a
    quorum then finalize it there, whatever votes arrived before. *)

From S2P Require Import Prelude Ordered GateRegistry BigNum Quorum Json Admission XState XRounds XInv XSafety.

Section Live.
Context {Row : Type} {E : Engine Row} {B : BigNumber} {L : BigNumberLaws B} (h : env).
Implicit Types (s : state Row) (rd : round).
Context (Hmax : (0 < finalizedMax h)%nat).

(** A set on which the stake tally is exact. *)
Definition exact_set (b : binding) : Prop :=
  b_weighted b = true → ∃ ix, Swq.indexStakeSources (Swq.VArray (b_validators b) false) = Some ix ∧ Swq.weights_exact (Swq.weightBySource ix).

Lemma meets_mono b voters voters' :
  exact_set b → NoDup voters → voters ⊆ voters' → meets b voters = true → meets b voters' = true.
Proof.
  intros Hex Hnd Hsub. unfold meets. destruct (b_weighted b) eqn:Hw.
  - destruct (Hex Hw) as (ix & Hix & Hx). by eapply (stake_quorum_monotone _ ix).
  - intros Hq. bools. apply Z.leb_le. assert (length voters ≤ length voters')%nat; [|lia].
    by apply submseteq_length, NoDup_submseteq.
Qed.

(** The round [pid] of [rid] is open over [row], its bytes [c] and [b] with this hub's signature,
    and has counted the COMMITs of [K]. *)
Definition voting (rid : string) (pid : nat) (c : string) (b : binding) (row : Row) (K : list string) s : Prop :=
  bounded h s ∧ rid ∉ finalized s ∧
  ∃ rd, live rid s = Some (pid, rd) ∧ rows s !! r_row rd = Some row ∧ r_finalized rd = false ∧ r_canonical rd = c ∧ r_bound rd = b ∧
    signed h c (r_signatures rd) ∧ self h ∈ (r_signatures rd).*1 ∧ K ⊆ r_commits rd.

(** It finalized with [row], over signatures of [c]. *)
Definition settled (rid c : string) (b : binding) (row : Row) s : Prop :=
  rid ∈ finalized s ∧ ∃ sigs view, Finalized rid row sigs view b ∈ out s ∧ signed h c sigs ∧ self h ∈ sigs.*1.

Lemma mark_in rid ρ sigs view s : bounded h s → rid ∉ finalized s → rid ∈ finalized (markFinalized h rid ρ sigs view s).
Proof.
  intros [_ (_ & Ho & _ & _)] Hno. unfold markFinalized. rewrite bool_decide_false by done.
  cbn [put_finalized put_finalizedRows put_finalizedOrder finalizedOrder finalized].
  destruct (Nat.ltb_spec (finalizedMax h) (length (finalizedOrder s ++ [rid]))) as [Hlt|]; [|cbn; set_solver].
  destruct (finalizedOrder s) as [|o order] eqn:E'; cbn in *; [lia|]. apply elem_of_difference. split; [set_solver|].
  intros ->%elem_of_singleton. apply Hno, Ho. by left.
Qed.

Lemma finalize_settles rid pid c b row K s : voting rid pid c b row K s → settled rid c b row (finalize h rid s).
Proof.
  intros (Hb & Hno & rd & Hl & Hrow & Hf & Hc & Hbd & Hsig & Hself & _). unfold finalize. rewrite Hl, Hf.
  set (s1 := modify pid (set_r_finalized true) s). pose proof (mark_in rid (r_row rd) (r_signatures rd) (r_view rd) s1 Hb Hno) as Hin.
  pose proof (core_mark h rid (r_row rd) (r_signatures rd) (r_view rd) s1) as Hcore.
  set (s2 := markFinalized _ _ _ _ _ s1) in *. clearbody s2. unfold emit_finalized.
  change (rows (modify pid (set_r_timer false) s2)) with (rows s2). assert (rows s2 = rows s) as -> by (unfold core in Hcore; by injection Hcore).
  rewrite Hrow. split; [done|]. exists (r_signatures rd), (r_view rd). rewrite <-Hbd. split_and!; [by left|done..].
Qed.

Lemma checkCommit_settles rid pid c b row K s :
  voting rid pid c b row K s →
  let s' := checkCommitQuorum h rid s in
  settled rid c b row s' ∨ (voting rid pid c b row K s' ∧ ∃ rd, live rid s = Some (pid, rd) ∧ meetsQuorum rd (r_commits rd) = false).
Proof.
  intros Hv. pose proof Hv as (Hb & Hno & rd & Hl & Hrow & Hf & Hc & Hbd & Hsig & Hself & HK).
  unfold checkCommitQuorum. rewrite Hl, Hf. destruct (meetsQuorum rd (r_commits rd)) eqn:Hm; cbn [negb].
  - left. by eapply finalize_settles.
  - right. split; [done|]. by exists rd.
Qed.

Lemma live_modify rid pid rd f s : live rid s = Some (pid, rd) → live rid (modify pid f s) = Some (pid, f rd).
Proof. intros [Hp Hr]%live_lookup. unfold live. cbn. rewrite Hp. cbn. by rewrite lookup_alter_eq, Hr. Qed.

Lemma live_broadcast rid e s : live rid (broadcast h e s) = live rid s.
Proof. unfold broadcast. by destruct (peers h). Qed.
Lemma rows_broadcast e s : rows (broadcast h e s) = rows s.
Proof. unfold broadcast. by destruct (peers h). Qed.
Lemma finalized_broadcast e s : finalized (broadcast h e s) = finalized s.
Proof. unfold broadcast. by destruct (peers h). Qed.

Lemma checkPrepare_settles rid pid c b row K s :
  voting rid pid c b row K s → let s' := checkPrepareQuorum h rid s in settled rid c b row s' ∨ voting rid pid c b row K s'.
Proof.
  intros Hv. pose proof Hv as (Hb & Hno & rd & Hl & Hrow & Hf & Hc & Hbd & Hsig & Hself & HK).
  unfold checkPrepareQuorum. rewrite Hl, Hf. cbn [orb]. destruct (r_commitSent rd); [by right|].
  destruct (negb _); [by right|]. set (s1 := broadcast h _ _).
  assert (Hv1 : voting rid pid c b row K s1).
  { unfold s1. split_and!; [by apply bounded_broadcast|by rewrite finalized_broadcast|].
    exists (set_r_commits (s_add (self h) (r_commits rd)) (set_r_commitSent true rd)). rewrite live_broadcast, rows_broadcast.
    split_and!; [by rewrite (live_modify _ _ _ _ _ Hl)|done..|]. cbn. intros x Hx. apply elem_of_s_add. right. by apply HK. }
  destruct (checkCommit_settles _ _ _ _ _ _ _ Hv1) as [?|[? _]]; [by left|by right].
Qed.

(** A COMMIT over [c] by a member of [b]. *)
Definition commit_for {R} (rid c : string) (b : binding) (m : message R) : Prop :=
  m_type m = COMMIT ∧ toLowerCase (m_matchId m) = rid ∧ is_member (toLowerCase (m_pubkey m)) (b_validators b) = true ∧
  verify h c (m_sig m) (toLowerCase (m_pubkey m)) = true ∧
  verify h (commitPayload h c) (m_commit_sig m) (toLowerCase (m_pubkey m)) = true.

Lemma settled_stays now rid c b row m s : commit_for rid c b m → settled rid c b row s → handleMessage h now m s = s.
Proof.
  intros (Ht & Hr & _) [Hin _]. unfold handleMessage. rewrite Ht. unfold handleCommit. rewrite Hr.
  destruct (String.eqb rid ""); [done|]. by rewrite bool_decide_true.
Qed.

Lemma commit_counts now rid pid c b row K m s :
  rid ≠ EmptyString → commit_for rid c b m → voting rid pid c b row K s →
  let s' := handleMessage h now m s in
  settled rid c b row s' ∨ (voting rid pid c b row (toLowerCase (m_pubkey m) :: K) s' ∧
    ∃ rd, live rid s' = Some (pid, rd) ∧ meetsQuorum rd (r_commits rd) = false).
Proof.
  intros Hne (Ht & Hr & Hm & Hv1 & Hv2) (Hb & Hno & rd & Hl & Hrow & Hf & Hc & Hbd & Hsig & Hself & HK).
  unfold handleMessage. rewrite Ht. unfold handleCommit. rewrite Hr. apply String.eqb_neq in Hne as ->.
  rewrite bool_decide_false by done. rewrite Hl, Hbd, Hm, Hc, Hv1. cbn [negb]. rewrite Hv2. cbn [negb].
  set (key := toLowerCase (m_pubkey m)) in *. set (s1 := modify pid _ (modify pid _ s)).
  set (rd1 := set_r_commits (s_add key (r_commits rd)) (set_r_signatures (m_set key (m_sig m) (r_signatures rd)) rd)).
  assert (Hl1 : live rid s1 = Some (pid, rd1)) by (unfold s1; by rewrite (live_modify _ _ _ _ _ (live_modify _ _ _ _ _ Hl))).
  assert (Hv : voting rid pid c b row (key :: K) s1).
  { split_and!; [done|done|]. exists rd1. split_and!; [done..| | |].
    - by apply signed_set.
    - by apply sigs_grow.
    - cbn. intros x [->|Hx]%elem_of_cons; apply elem_of_s_add; [by left|right; by apply HK]. }
  destruct (checkCommit_settles _ _ _ _ _ _ _ Hv) as [?|(? & rd' & Hl' & Hq)]; [by left|right]. split; [done|].
  exists rd'. split; [|done]. unfold checkCommitQuorum. rewrite Hl'. destruct (r_finalized rd'); [done|]. by rewrite Hq.
Qed.

(** The COMMITs of a quorum settle the round. *)
Lemma commits_settle now rid pid c b row K ms s voters :
  rid ≠ EmptyString → Forall (commit_for rid c b) ms → exact_set b →
  NoDup voters → voters ⊆ K ++ ((λ m, toLowerCase (m_pubkey m)) <$> ms) → meets b voters = true → (∃ v, v ∈ voters ∧ v ∉ K) →
  voting rid pid c b row K s → settled rid c b row (fold_left (λ s m, handleMessage h now m s) ms s).
Proof.
  intros Hne Hms Hex Hnd Hsub Hq Hnew Hv. revert K s Hsub Hnew Hv. induction Hms as [|m ms Hm Hms IH]; intros K s Hsub (v & Hv1 & Hv2) Hv.
  { exfalso. apply Hv2. specialize (Hsub _ Hv1). rewrite app_nil_r in Hsub. done. }
  cbn [fold_left]. assert (Hstay : ∀ l s, Forall (commit_for rid c b) l → settled rid c b row s → settled rid c b row (fold_left (λ s m, handleMessage h now m s) l s)).
  { intros l. induction l as [|m' l IHl]; intros s' Hl Hs'; [done|]. apply Forall_cons in Hl as [Hm' Hl]. cbn [fold_left].
    rewrite (settled_stays now rid c b row m' s') by done. by apply IHl. }
  destruct (commit_counts now _ _ _ _ _ _ _ _ Hne Hm Hv) as [Hs|(Hv' & rd & Hl & Hlow)]; [by apply Hstay|].
  destruct (decide (voters ⊆ toLowerCase (m_pubkey m) :: K)) as [Hall|Hsome].
  - exfalso. destruct Hv' as (_ & _ & rd' & Hl' & _ & _ & _ & Hbd & _ & _ & HK). rewrite Hl in Hl'. injection Hl' as <-.
    assert (meets b (r_commits rd) = true) as Ht by (eapply meets_mono; [done..|set_solver|done]).
    unfold meetsQuorum in Hlow. rewrite Hbd in Hlow. congruence.
  - apply (IH (toLowerCase (m_pubkey m) :: K)); [|..|done].
    + intros x Hx. specialize (Hsub _ Hx). set_solver.
    + assert (Exists (λ v, v ∉ toLowerCase (m_pubkey m) :: K) voters) as (x & ? & ?)%Exists_exists; [|by exists x].
      destruct (decide (Exists (λ v, v ∉ toLowerCase (m_pubkey m) :: K) voters)) as [?|Hno]; [done|]. exfalso. apply Hsome.
      intros x Hx. destruct (decide (x ∈ toLowerCase (m_pubkey m) :: K)) as [?|Hn]; [done|]. exfalso. apply Hno, Exists_exists. eauto.
Qed.
(** ** From the leader's PROPOSE to the hub's signature *)

Lemma early_checkCommit rid s : earlyMessages (checkCommitQuorum h rid s) = earlyMessages s.
Proof.
  unfold checkCommitQuorum. destruct (live rid s) as [[pid rd]|] eqn:Hl; [|done]. destruct (r_finalized rd) eqn:Hf; [done|].
  destruct (negb _); [done|]. unfold finalize. rewrite Hl, Hf. set (s1 := modify pid (set_r_finalized true) s). unfold emit_finalized.
  assert (Hm : earlyMessages (markFinalized h rid (r_row rd) (r_signatures rd) (r_view rd) s1) = earlyMessages s).
  { unfold markFinalized. case_bool_decide; [done|]. destruct (_ <? _)%nat; [|done]. cbn. by destruct (finalizedOrder s). }
  cbn. by destruct (rows _ !! _).
Qed.

Lemma early_broadcast e s : earlyMessages (broadcast h e s) = earlyMessages s.
Proof. unfold broadcast. by destruct (peers h). Qed.

Lemma early_count p s : earlyMessages (countLeaderAndOwnPrepare h p s) = earlyMessages s.
Proof.
  assert (Hp : ∀ rid s0, earlyMessages (checkPrepareQuorum h rid s0) = earlyMessages s0).
  { intros rid s0. unfold checkPrepareQuorum. destruct (live rid s0) as [[pid rd]|]; [|done]. destruct (_ || _); [done|].
    destruct (negb _); [done|]. by rewrite early_checkCommit, early_broadcast. }
  unfold countLeaderAndOwnPrepare. rewrite Hp. unfold own_prepare. destruct (heap _ !! _); [|done].
  destruct (m_get _ _); [done|]. by rewrite early_broadcast.
Qed.

Context (Hself : ∀ p, verify h p (sign h p) (self h) = true).

Lemma count_voting p c s rd row :
  bounded h s → p_rid p ∉ finalized s → live (p_rid p) s = Some (p_pid p, rd) → rows s !! r_row rd = Some row → r_finalized rd = false →
  r_canonical rd = c → p_canonical p = c → signed h c (r_signatures rd) → verify h c (p_sig p) (p_sender p) = true →
  settled (p_rid p) c (r_bound rd) row (countLeaderAndOwnPrepare h p s) ∨
  voting (p_rid p) (p_pid p) c (r_bound rd) row [] (countLeaderAndOwnPrepare h p s).
Proof.
  intros Hb Hno Hl Hrow Hf Hc Hpc Hsig Hv. unfold countLeaderAndOwnPrepare. apply checkPrepare_settles.
  set (s1 := modify (p_pid p) (count_leader p) s). pose proof (live_modify _ _ _ (count_leader p) _ Hl) as Hl1. fold s1 in Hl1.
  unfold own_prepare. assert (heap s1 !! p_pid p = Some (count_leader p rd)) as -> by by apply live_lookup in Hl1 as [].
  assert (Hsig1 : signed h c (r_signatures (count_leader p rd))) by (by apply signed_set).
  destruct (m_get (self h) _) as [sg|] eqn:Hg.
  - split_and!; [done|done|]. exists (count_leader p rd). split_and!; [done..| |set_solver].
    apply m_get_in in Hg. apply list_elem_of_fmap. by exists (self h, sg).
  - split_and!; [by apply bounded_broadcast|by rewrite finalized_broadcast|].
    exists (add_prepare (self h) (sign h (p_canonical p)) (count_leader p rd)). rewrite live_broadcast, rows_broadcast.
    split_and!; [by apply live_modify|done..| | |set_solver].
    + apply signed_set; [|done]. rewrite Hpc. apply Hself.
    + cbn [add_prepare set_r_prepares r_signatures set_r_signatures]. apply elem_of_m_set. by left.
Qed.

(** The leader's PROPOSE as the hub meets it. *)
Record honest_propose (rid : string) (pid : nat) (rd : round) (own : Row) (m : message Row) (row : Row) (c : string) s : Prop := {
  hp_live : live rid s = Some (pid, rd);
  hp_open : r_finalized rd = false ∧ r_commitSent rd = false ∧ rid ∉ finalized s ∧ rid ≠ EmptyString;
  hp_quiet : m_get rid (earlyMessages s) = None;
  hp_type : m_type m = PROPOSE ∧ toLowerCase (m_matchId m) = rid ∧ m_row m = Some row;
  hp_view : r_view rd ≤ default 0 (m_view m);
  hp_leader : leaderFor rid (b_validators (r_bound rd)) (default 0 (m_view m)) = Some (toLowerCase (m_pubkey m));
  hp_member : is_member (toLowerCase (m_pubkey m)) (b_validators (r_bound rd)) = true;
  hp_row : toLowerCase (row_id row) = rid ∧ canonicalMatch row (default 0 (m_view m)) = Some c;
  hp_sig : verify h c (m_sig m) (toLowerCase (m_pubkey m)) = true;
  hp_own : rows s !! r_row rd = Some own ∧ same_declaration row own = true ∧ is_Some (canonicalMatch own (default 0 (m_view m))) }.

(** The proposal the synchronous half hands on. *)
Definition proposal_of (rid : string) (pid : nat) (m : message Row) (c : string) s : proposal :=
  Proposal rid pid (toLowerCase (m_pubkey m)) (default 0 (m_view m)) (next s) c (m_sig m).

(** The state in which its validation is awaited. *)
Definition validating rid pid m row c s : state Row :=
  suspend (KValidate (proposal_of rid pid m c s)) (bump (put_rows (<[next s := row]> (rows s)) s)).

Lemma propose_received now rid pid rd own m row c s :
  honest_propose rid pid rd own m row c s → step h now (EvMessage m) s = Some (validating rid pid m row c s).
Proof.
  intros [Hl (Hf & _ & Hno & Hne) _ (Ht & Hr & Hm) Hv Hlead Hmem [Hid Hc] Hsig _]. cbn [step]. unfold arrive. rewrite Hm. cbn [new_row].
  f_equal. unfold handleMessage. cbn [m_type]. rewrite Ht. unfold handlePropose, leaderProposal. cbn [m_matchId m_pubkey m_view m_row m_sig].
  rewrite Hr. apply String.eqb_neq in Hne as ->. rewrite bool_decide_false by done.
  change (live rid (bump (put_rows (<[next s := row]> (rows s)) s))) with (live rid s). rewrite Hl.
  destruct (Z.ltb_spec (default 0 (m_view m)) (r_view rd)); [lia|]. rewrite bool_decide_true by done. cbn [negb]. rewrite Hmem. cbn [negb].
  cbn [mbind option_bind rows bump put_rows]. rewrite lookup_insert_eq. cbn [mbind option_bind].
  rewrite Hid, String.eqb_refl. cbn [negb]. rewrite Hc, Hsig. done.
Qed.

(** The events between the PROPOSE and the hub's own vote. *)
Definition validation_events (now : Z) (rd : round) (c : string) s : list (Z * event (Row := Row)) :=
  (now, EvValidated (S (next s)) (Some true) true) ::
  (if String.eqb c (r_canonical rd) then [] else [(now, EvRebound (S (S (next s))) None)]).

Lemma propose_voted now rid pid rd own m row c s :
  inv h s → bounded h s → honest_propose rid pid rd own m row c s →
  ∃ s' shown, run h ((now, EvMessage m) :: validation_events now rd c s) s = Some s' ∧ (shown = row ∨ shown = own ∧ r_canonical rd = c) ∧
        (settled rid c (r_bound rd) shown s' ∨ voting rid pid c (r_bound rd) shown [] s').
Proof.
  intros Hinv Hb Hp. pose proof Hp as [Hl (Hf & Hcs & Hno & Hne) Hq _ _ _ _ _ Hsig (Hown & Hsame & Hdef)].
  cbn [run]. rewrite (propose_received _ _ _ _ _ _ _ _ _ Hp). cbn [mbind option_bind]. unfold validation_events. cbn [run step].
  unfold take, validating. cbn [suspend konts bump put_konts next put_rows]. rewrite lookup_insert_eq. cbn [mbind option_bind resume validateAndBound].
  set (p := proposal_of rid pid m c s). set (s1 := bump (put_rows _ s)).
  set (s2 := put_konts _ _). assert (Hrow2 : rows s2 = <[next s := row]> (rows s)) by done.
  assert (Hl2 : live rid s2 = Some (pid, rd)) by done. pose proof (live_lookup _ _ _ _ Hl) as [Hpend Hheap].
  assert (Hlt : rows s2 !! r_row rd = Some own).
  { rewrite Hrow2. rewrite lookup_insert_ne; [done|]. intros Heq. destruct (i_fresh _ _ Hinv (next s)) as [Hn _]; [lia|]. congruence. }
  destruct (live_bound _ _ _ _ _ Hinv Hl) as [_ Hri]. unfold resumeValidate. cbn [negb].
  change (heap s2 !! p_pid p) with (heap s !! pid). rewrite Hheap. cbn [mbind option_bind].
  assert (rows s2 !! p_row p = Some row) as -> by (rewrite Hrow2; apply lookup_insert_eq). cbn [mbind option_bind].
  rewrite Hlt. cbn [mbind option_bind]. change (p_canonical p) with c. destruct (String.eqb_spec c (r_canonical rd)) as [Hc|Hc].
  - exists (countLeaderAndOwnPrepare h p s2), own. split; [done|]. split; [by right|].
    apply (count_voting p c s2 rd own); try done. rewrite Hc. apply Hri.
  - unfold committedToOtherValue. destruct Hdef as [c0 Hc0]. change (p_view p) with (default 0 (m_view m)). rewrite Hc0, Hcs. cbn [mbind option_bind andb].
    unfold declared_by. rewrite Hlt, Hsame. cbn [run step]. unfold take. cbn [suspend konts bump put_konts next put_rows].
    rewrite lookup_insert_eq. cbn [mbind option_bind resume rebound_of].
    set (s3 := put_konts _ (suspend _ s2)). assert (Hl3 : live rid s3 = Some (pid, rd)) by done.
    unfold resumeAdopt. destruct (adopt_cases p None s3) as [Hn|(rd' & Hh' & _ & _ & Hy)].
    { exfalso. unfold adoptLeaderRow in Hn. change (heap s3 !! p_pid p) with (heap s !! pid) in Hn. rewrite Hheap in Hn.
      change (finalized s3) with (finalized s) in Hn. change (p_rid p) with rid in Hn. rewrite bool_decide_false, Hf in Hn by done.
      change (pending s3) with (pending s) in Hn. change (p_pid p) with pid in Hn. rewrite bool_decide_true in Hn by done. discriminate Hn. }
    rewrite Hy. change (heap s3 !! p_pid p) with (heap s !! pid) in Hh'. simplify_eq. eexists _, row. split; [reflexivity|]. split; [by left|].
    set (s4 := modify (p_pid p) (λ _, adopted p None rd) s3).
    assert (Hd : ∀ s0, earlyMessages s0 = earlyMessages s → drainEarlyMessages h now (p_rid p) s0 = s0).
    { intros s0 H0. unfold drainEarlyMessages. change (p_rid p) with rid. by rewrite H0, Hq. }
    rewrite Hd by by rewrite early_count. change (r_bound rd) with (r_bound (adopted p None rd)).
    apply (count_voting p c s4 (adopted p None rd) row); try done.
    + exact (live_modify rid pid rd (λ _, adopted p None rd) s3 Hl).
    + change (rows s4) with (rows s2). rewrite Hrow2. apply lookup_insert_eq.
    + intros pk sg. set_solver.
Qed.

(** ** The round settles *)

Lemma message_event now m s : m_row m = None → step h now (EvMessage m) s = Some (handleMessage h now (arrive m s).1 s).
Proof. intros Hr. cbn [step]. unfold arrive. by rewrite Hr. Qed.

Lemma commits_run now ms s :
  Forall (λ m, m_row m = None) ms →
  run h ((λ m, (now, EvMessage m)) <$> ms) s = Some (fold_left (λ s m, handleMessage h now m s) ((λ m, (arrive m s).1) <$> ms) s).
Proof.
  assert (Hany : ∀ m s s' : _, m_row m = None → (arrive (Row := Row) m s).1 = (arrive m s').1) by (intros m s1 s2 Hm; unfold arrive; by rewrite Hm).
  intros Hms. revert s. induction Hms as [|m ms Hm Hms IH]; intros s; [done|]. rewrite !fmap_cons. cbn [run fold_left].
  rewrite message_event by done. cbn [mbind option_bind]. rewrite IH. do 2 f_equal.
  apply list_fmap_ext. intros i m' Hi. apply Hany. eapply Forall_lookup_1 in Hms; done.
Qed.

Lemma run_app evs evs' s s1 : run h evs s = Some s1 → run h (evs ++ evs') s = run h evs' s1.
Proof.
  revert s. induction evs as [|[now ev] evs IH]; intros s; cbn [run app]; [by intros [= <-]|].
  destruct (step h now ev s) as [s'|]; cbn; [|done]. apply IH.
Qed.

Lemma honest_round_settles now rid pid rd own m row c s ms voters :
  inv h s → bounded h s → honest_propose rid pid rd own m row c s →
  Forall (λ m, m_row m = None ∧ commit_for rid c (r_bound rd) m) ms → exact_set (r_bound rd) →
  NoDup voters → voters ≠ [] → voters ⊆ (λ m, toLowerCase (m_pubkey m)) <$> ms → meets (r_bound rd) voters = true →
  ∃ s', run h ((now, EvMessage m) :: validation_events now rd c s ++ ((λ m, (now, EvMessage m)) <$> ms)) s = Some s' ∧
        ∃ shown, (shown = row ∨ shown = own ∧ r_canonical rd = c) ∧ settled rid c (r_bound rd) shown s'.
Proof.
  intros Hinv Hb Hp Hms Hex Hnd Hnn Hsub Hq. destruct (propose_voted now _ _ _ _ _ _ _ _ Hinv Hb Hp) as (s1 & shown & Hrun & Hsh & Hor).
  rewrite app_comm_cons, (run_app _ _ _ _ Hrun), commits_run by (eapply Forall_impl; [done|by intros ? []]).
  eexists. split; [reflexivity|]. exists shown. split; [done|]. set (ms' := (λ m, (arrive m s1).1) <$> ms).
  assert (Hms' : Forall (commit_for rid c (r_bound rd)) ms').
  { unfold ms'. apply Forall_fmap. eapply Forall_impl; [exact Hms|]. intros m' [Hr Hc]. cbn. unfold arrive. by rewrite Hr. }
  assert (Hkeys : (λ m, toLowerCase (m_pubkey m)) <$> ms' = (λ m, toLowerCase (m_pubkey m)) <$> ms).
  { unfold ms'. rewrite <-list_fmap_compose. apply list_fmap_ext. intros i m' Hi. eapply Forall_lookup_1 in Hms as [Hr _]; [|done].
    cbn. unfold arrive. by rewrite Hr. }
  destruct Hor as [Hset|Hvote].
  - clearbody ms'. clear -Hset Hms'. revert s1 Hset. induction Hms' as [|m' l Hm' Hl IH]; intros s1 Hset; [done|]. cbn [fold_left].
    rewrite (settled_stays now rid c (r_bound rd) shown m' s1) by done. by apply IH.
  - destruct voters as [|v voters]; [done|].
    eapply (commits_settle now rid pid c (r_bound rd) shown [] ms' s1 (v :: voters)); try done.
    + apply Hp.
    + by rewrite app_nil_l, Hkeys.
    + exists v. split; [by left|set_solver].
Qed.
End Live.
