(* ===== verification/XProps.v ===== *)
(** * Cross-chain rounds: theorems

    What a finalization proves, what peers can make a hub hold, and that an honest
    leader's row finalizes; evaluated on the DEX's rows. Then five runs that end
    where the round should not: a finalization published under a view nobody signed,
    two rows signed in one view, a quorum counted with the hub's own key from
    outside the set, a committed value replaced by its own restamp, and a row restamped
    under the signatures collected for it. *)

From stdpp Require Import pretty.
From S2P Require Import Prelude Ordered GateRegistry BigNum Quorum Json Admission DexOffer DexMatch DexRow DexExamples XState XRounds XInv XSafety XLive.

(** ** Engines behind the rounds *)

Section Engines.
Context (reg : Gate.registry) (producer : list (string * option Z)).

(** ** Matches *)

Definition restamp_match (t : Z) (r : matchrow) : matchrow :=
  MatchRow (match_id r) (snapshot_block r) (network r) (leg_A r) (leg_B r) t (admission r).

Definition match_engine : Engine matchrow := {|
  row_id := match_id;
  row_block r := pretty (snapshot_block r);
  row_network := network;
  row_effective r := Some (effective_time r);
  with_effective := restamp_match;
  canonicalMatch r view := match DexRow.canonicalMatch reg producer r view with Ok c => Some c | Err _ => None end;
  effectiveTimeMarginS _ := NoMargin |}.

(** ** Transfers *)

Record transfer := Transfer {
  transfer_id : string; tr_block : Z; tr_tick : string; tr_decimals : Z; src_chain : string; src_action_index : Z;
  src_address : string; dest_chain : string; dest_address : string; tr_amount : string; tr_effective : Z;
  tr_network : string; tr_admission : option (gmap string Z) }.

Definition BRIDGE_TAG : string := "XBRIDGE".

Definition transfer_fields (r : transfer) : list string :=
  ["XBRIDGE"; transfer_id r; pretty (tr_block r); tr_tick r; pretty (tr_decimals r); src_chain r; pretty (src_action_index r);
   src_address r; dest_chain r; dest_address r; tr_amount r; pretty (tr_effective r); tr_network r].

Definition transfer_canonical (r : transfer) (view : Z) : option string :=
  match admissionCanonicalField producer (Some (tr_network r)) (Some (JInt (tr_block r)))
          ((λ m : gmap string Z, (λ z, JInt z) <$> m) <$> tr_admission r) with
  | Err _ => None
  | Ok field =>
      let raw := bars (transfer_fields r) +:+ field in
      Some (if isEquivHeaderActive (Some (tr_block r)) (tr_network r)
            then buildEquivCanonical BRIDGE_TAG (transfer_id r) (pretty view) raw else raw)
  end.

Definition restamp_transfer (t : Z) (r : transfer) : transfer :=
  Transfer (transfer_id r) (tr_block r) (tr_tick r) (tr_decimals r) (src_chain r) (src_action_index r) (src_address r)
    (dest_chain r) (dest_address r) (tr_amount r) t (tr_network r) (tr_admission r).

Definition transfer_engine : Engine transfer := {|
  row_id := transfer_id;
  row_block r := pretty (tr_block r);
  row_network := tr_network;
  row_effective r := Some (tr_effective r);
  with_effective := restamp_transfer;
  canonicalMatch := transfer_canonical;
  effectiveTimeMarginS r := MarginNow (Some (relayMarginFloorS (dest_chain r))) |}.

(** ** Policy snapshots *)

Record policy := Policy {
  snapshot_id : string; po_block : Z; po_origin : string; po_tick : string; po_seq : Z; po_origin_block : Z;
  po_hash : string; po_effective : Z; po_network : string; po_admission : option (gmap string Z) }.

Definition POLICY_TAG : string := "XPOLICY".

Definition policy_fields (r : policy) : list string :=
  ["XPOLICY"; snapshot_id r; pretty (po_block r); po_origin r; po_tick r; pretty (po_seq r); pretty (po_origin_block r);
   po_hash r; pretty (po_effective r); po_network r].

Definition policy_canonical (r : policy) (view : Z) : option string :=
  match admissionCanonicalField producer (Some (po_network r)) (Some (JInt (po_block r)))
          ((λ m : gmap string Z, (λ z, JInt z) <$> m) <$> po_admission r) with
  | Err _ => None
  | Ok field =>
      let raw := bars (policy_fields r) +:+ field in
      Some (if isEquivHeaderActive (Some (po_block r)) (po_network r)
            then buildEquivCanonical POLICY_TAG (snapshot_id r) (pretty view) raw else raw)
  end.

Definition restamp_policy (t : Z) (r : policy) : policy :=
  Policy (snapshot_id r) (po_block r) (po_origin r) (po_tick r) (po_seq r) (po_origin_block r) (po_hash r) t (po_network r) (po_admission r).

(** The margin of a policy row is a promise: [policyPairs] is read first. *)
Definition policy_engine : Engine policy := {|
  row_id := snapshot_id;
  row_block r := pretty (po_block r);
  row_network := po_network;
  row_effective r := Some (po_effective r);
  with_effective := restamp_policy;
  canonicalMatch := policy_canonical;
  effectiveTimeMarginS _ := MarginLater |}.
End Engines.

(** C6: a finalized row carries its proof, on the engines whose rows are never
    restamped: all but the bridge, the one engine with [effectiveTimeMarginS]
    ([policy_row_changed_under_its_signatures] shows the statement fails there).
    Whatever order messages, timers and resumed handlers come in, a hub that never
    proposes as the only validator of its set announces a row
    only with signatures that verify over that row's own bytes at one view, at most
    the announced one, and whose holders include a quorum of the set the round was
    counted against: more than two thirds of its stake, or at least [2f + 1] keys. *)
Theorem finalized_behind_quorum {Row : Type} {E : Engine Row} {B : BigNumber} (h : env) evs (s : state Row) rid row sigs view b :
  (∀ p, verify h p (sign h p) (self h) = true) → (∀ r : Row, effectiveTimeMarginS r = NoMargin) →
  Forall (λ nev, ¬ sole h nev.2) evs → run h evs initial = Some s →
  Finalized rid row sigs view b ∈ out s →
  2 ≤ b_quorum b ∧ b_quorum b = Bft.bftQuorumOrSingle (Z.of_nat (length (b_validators b))) 0 ∧ NoDup sigs.*1 ∧
  (∃ voters, NoDup voters ∧ voters ⊆ sigs.*1 ∧
     if b_weighted b then Swq.meetsStakeThreshold (Swq.VArray (b_validators b) false) voters = true
     else b_quorum b ≤ Z.of_nat (length voters)) ∧
  ∃ c w, canonicalMatch row w = Some c ∧ w ≤ view ∧ ∀ pk sig, (pk, sig) ∈ sigs → verify h c sig pk = true.
Proof.
  intros Hself Hm Hev Hrun Hin. pose proof (inv_run h Hself Hm _ _ _ Hev (inv_initial h Hself Hm) Hrun) as Hinv.
  destruct (i_out _ _ Hinv _ Hin) as ([Hq Hne] & Hnd & (voters & Hv1 & Hv2 & Hv3) & c & w & Hc & Hw & Hs).
  split_and!; [|done|done| |by exists c, w].
  - rewrite Hq in Hne |- *. unfold Bft.bftQuorumOrSingle in *. destruct (Z.leb_spec (Z.of_nat (length (b_validators b))) 1); [done|].
    apply Bft.bftQuorum_bounds. lia.
  - exists voters. split_and!; [done..|]. unfold meets in Hv3. destruct (b_weighted b); [done|]. by bools.
Qed.

(** Peers cannot make a hub hold more than its caps. In every reachable state
    the early buffer has at most the configured number of ids, one expiry each,
    at most 32 messages per id and none above the byte cap, and the finalized ring
    is within its maximum and agrees with the set and the cache. *)
Theorem round_memory_bounded {Row : Type} {E : Engine Row} {B : BigNumber} (h : env) evs (s : state Row) :
  (0 < earlyMessageMaxDistinctIds h)%nat → run h evs initial = Some s →
  (length (earlyMessages s) ≤ earlyMessageMaxDistinctIds h)%nat ∧
  (∀ id, id ∈ (earlyMessages s).*1 ↔ id ∈ (earlyMessageTtl s).*1) ∧ NoDup (earlyMessages s).*1 ∧
  (∀ id arr m, (id, arr) ∈ earlyMessages s → m ∈ arr → (length arr ≤ 32)%nat ∧ m_size m ≤ earlyMessageMaxBytes h) ∧
  (length (finalizedOrder s) ≤ finalizedMax h)%nat ∧ NoDup (finalizedOrder s) ∧
  (∀ id, id ∈ finalizedOrder s ↔ id ∈ finalized s) ∧ dom (finalizedRows s) ⊆ finalized s.
Proof.
  intros Hids Hrun. destruct (bounded_run h Hids _ _ _ (bounded_initial h Hids) Hrun) as [(H1 & H2 & H3 & H4 & H5) (H6 & H7 & H8 & H9)].
  split_and!; try done. intros id arr m Ha Hm. destruct (H5 _ _ Ha) as [? Hs]. split; [done|by apply Hs].
Qed.

(** C22: an honest leader's row finalizes at a follower, on the engines whose rows
    are never restamped (all but the bridge). A hub that never proposed as the only
    validator of its set, in any state it reaches, whose round for an id is open and
    uncommitted with nothing buffered for it, and that validates the PROPOSE of the
    round's leader at its view or a later one over the snapshot it holds itself, signs
    the leader's bytes; and once the COMMITs of a quorum over those bytes are in, in
    any order, it has announced the round over exactly those bytes with the leader's
    row, or with its own where that has the leader's bytes already. *)
Theorem honest_row_finalizes {Row : Type} {E : Engine Row} {B : BigNumber} {L : BigNumberLaws B} (h : env)
    evs (s : state Row) now rid pid rd own m row c ms voters :
  (0 < finalizedMax h)%nat → (0 < earlyMessageMaxDistinctIds h)%nat →
  (∀ p, verify h p (sign h p) (self h) = true) → (∀ r : Row, effectiveTimeMarginS r = NoMargin) →
  Forall (λ nev, ¬ sole h nev.2) evs → run h evs initial = Some s →
  honest_propose h rid pid rd own m row c s →
  Forall (λ m, m_row m = None ∧ commit_for h rid c (r_bound rd) m) ms → exact_set (r_bound rd) →
  NoDup voters → voters ≠ [] → voters ⊆ (λ m, toLowerCase (m_pubkey m)) <$> ms → meets (r_bound rd) voters = true →
  ∃ s', run h ((now, EvMessage m) :: validation_events now rd c s ++ ((λ m, (now, EvMessage m)) <$> ms)) s = Some s' ∧
        ∃ shown, (shown = row ∨ shown = own ∧ r_canonical rd = c) ∧ settled h rid c (r_bound rd) shown s'.
Proof.
  intros Hmax Hids Hself Hm Hev Hrun. apply honest_round_settles; [done|done|by apply (inv_run h Hself Hm evs initial s Hev (inv_initial h Hself Hm))|].
  by apply (bounded_run h Hids evs initial s (bounded_initial h Hids)).
Qed.

(** ** A federation of four *)

Definition key (c : ascii) : string := String.string_of_list_ascii (replicate 64 c).
Definition signed_by (k p : string) : string := k +:+ ":" +:+ p.

Definition hub (c : ascii) : env :=
  Env true (Some (key c)) (signed_by (key c)) (λ p sig pk, String.eqb sig (signed_by pk p)) "XDEX_MATCH_COMMIT" "XDEXVC" "XDEXNV"
    100 8 131072 480000.

Lemma hub_signs p : verify (hub "b") p (sign (hub "b") p) (self (hub "b")) = true.
Proof.
  unfold verify. change (self (hub "b")) with (key "b"). change (String.length (key "b")) with 64%nat.
  change (String.eqb (key "b") "") with false. cbn [sign hub edVerify negb orb Nat.eqb]. unfold signed_by. rewrite String.eqb_refl.
  done.
Qed.

Definition four : list xvalidator :=
  (λ c, XValidator (Some (key c)) (Some (String c EmptyString)) (Some "100"%string) None) <$> ["a"; "b"; "c"; "d"]%char.

Definition match_rows : Engine matchrow := match_engine dex_registry MIRROR_ADMISSION_ACTIVATION.
Definition transfer_rows : Engine transfer := transfer_engine MIRROR_ADMISSION_ACTIVATION.
Definition policy_rows : Engine policy := policy_engine MIRROR_ADMISSION_ACTIVATION.

Definition round_id : string := "00000000ab".
Definition leg_on (chain : string) : leg := Leg chain 7 "order" "TICK" "40" "0" 0 ("addr" +:+ chain) "" 1.
Definition match_at (block t : Z) : matchrow := MatchRow round_id block "mainnet" (leg_on "DOGE") (leg_on "LTC") t None.

Section Runs.
Existing Instance match_rows.
Existing Instance ExactBigNumber.

Definition bytes (r : matchrow) (view : Z) : string := default EmptyString (canonicalMatch r view).

Definition from (ty : mtype) (c : ascii) (view : Z) (r : option matchrow) (payload : string) : message matchrow :=
  Msg ty round_id (Some view) (key c) (signed_by (key c) payload) (signed_by (key c) ("XDEX_MATCH_COMMIT|PHASEV1|" +:+ payload)) r [] 500.

Definition propose_of c view r := EvMessage (from PROPOSE c view (Some r) (bytes r view)).
Definition prepare_of c view (r : matchrow) := EvMessage (from PREPARE c view None (bytes r view)).
Definition commit_of c view (r : matchrow) := EvMessage (from COMMIT c view None (bytes r view)).

Definition at_once (evs : list (event (Row := matchrow))) : list (Z * event) := (λ ev, (1700000000000, ev)) <$> evs.

(** The block decides the quorum: stake and header from 961000 on, count below. *)
Definition ours : matchrow := match_at 970000 1700000600.
Definition theirs : matchrow := match_at 970000 1700000601.

(** [b] opens its own row, adopts the leader's, and three COMMITs finalize it. *)
Definition opened : list (Z * event) := at_once [EvPropose round_id ours four false].
Definition honest_run : list (Z * event) :=
  opened ++ at_once [propose_of "a" 0 theirs; EvValidated 3 (Some true) true; EvRebound 4 None;
                     prepare_of "c" 0 theirs; commit_of "a" 0 theirs; commit_of "c" 0 theirs].

Definition final_of {R} (o : option (state R)) : list (R * list string * Z) :=
  match o with
  | Some s => omap (λ e, match e with Finalized _ r sigs v _ => Some (r, sigs.*1, v) | _ => None end) (out s)
  | None => []
  end.

Example honest_finalizes :
  final_of (run (hub "b") honest_run initial) = [(theirs, [key "a"; key "b"; key "c"], 0)].
Proof. vm_compute. reflexivity. Qed.

Lemma finalized_behind_quorum_witness :
  ∃ b, 2 ≤ b_quorum b ∧ b_weighted b = true ∧
    ∃ voters, NoDup voters ∧ voters ⊆ [key "a"; key "b"; key "c"] ∧ Swq.meetsStakeThreshold (Swq.VArray (b_validators b) false) voters = true.
Proof.
  destruct (run (hub "b") honest_run initial) as [s|] eqn:Hrun; [|vm_compute in Hrun; discriminate Hrun].
  assert (Hin : ∃ sigs, Finalized round_id theirs sigs 0 (bind four true) ∈ out s ∧ sigs.*1 = [key "a"; key "b"; key "c"]).
  { vm_compute in Hrun. injection Hrun as <-. eexists. split; [left|reflexivity]. }
  destruct Hin as (sigs & Hin & Hk). exists (bind four true).
  destruct (finalized_behind_quorum (hub "b") honest_run s round_id theirs sigs 0 (bind four true)) as (H1 & _ & _ & (voters & H3 & H4 & H5) & _);
    [exact hub_signs|reflexivity| |exact Hrun|exact Hin|].
  - repeat constructor; vm_compute; tauto.
  - split; [exact H1|]. split; [reflexivity|]. exists voters. rewrite <-Hk. split; [exact H3|]. split; [exact H4|exact H5].
Defined.

Lemma round_memory_bounded_witness : ∃ s, run (hub "b") honest_run initial = Some s ∧ (length (finalizedOrder s) ≤ 100)%nat.
Proof.
  destruct (run (hub "b") honest_run initial) as [s|] eqn:Hrun; [|vm_compute in Hrun; discriminate Hrun]. exists s. split; [reflexivity|].
  apply (round_memory_bounded (hub "b") honest_run s); [cbn; lia|exact Hrun].
Defined.

Definition opened_state : state matchrow := default initial (run (hub "b") opened initial).
Definition opened_round : round := default (Round "" 0 0 "" (Binding [] 0 false) 0 [] [] [] ∅ false false false false) (heap opened_state !! 1%nat).
Definition bound_index : Swq.index := default (Swq.Index [] ∅) (Swq.indexStakeSources (Swq.VArray (b_validators (bind four true)) false)).

Lemma four_exact : exact_set (bind four true).
Proof.
  intros _. exists bound_index. split; [vm_compute; reflexivity|]. split.
  - assert (Hd : forallb (λ kv, (Swq.decimals kv.2 <=? 18)%nat) (Swq.weightBySource bound_index) = true) by (vm_compute; reflexivity).
    intros kv Hin. rewrite forallb_forall in Hd. by apply Nat.leb_le, Hd, list_elem_of_In.
  - vm_compute. reflexivity.
Qed.

Lemma honest_row_finalizes_witness :
  ∃ s', run (hub "b") ((1, propose_of "a" 0 theirs) :: validation_events 1 opened_round (bytes theirs 0) opened_state ++
                       ((λ m, (1, EvMessage m)) <$> ((λ c, from COMMIT c 0 None (bytes theirs 0)) <$> ["c"; "d"; "a"]%char))) opened_state = Some s' ∧
        settled (hub "b") round_id (bytes theirs 0) (r_bound opened_round) theirs s'.
Proof.
  enough (∃ s', run (hub "b") ((1, propose_of "a" 0 theirs) :: validation_events 1 opened_round (bytes theirs 0) opened_state ++
                       ((λ m, (1, EvMessage m)) <$> ((λ c, from COMMIT c 0 None (bytes theirs 0)) <$> ["c"; "d"; "a"]%char))) opened_state = Some s' ∧
        ∃ shown, (shown = theirs ∨ shown = ours ∧ r_canonical opened_round = bytes theirs 0) ∧
          settled (hub "b") round_id (bytes theirs 0) (r_bound opened_round) shown s') as (s' & Hrun & shown & [->|[_ Hc]] & Hs);
    [exists s'; split; [exact Hrun|exact Hs]|vm_compute in Hc; discriminate Hc|].
  apply (honest_row_finalizes (hub "b") opened opened_state 1 round_id 1 opened_round ours (from PROPOSE "a" 0 (Some theirs) (bytes theirs 0))
           theirs (bytes theirs 0) ((λ c, from COMMIT c 0 None (bytes theirs 0)) <$> ["c"; "d"; "a"]%char) [key "a"; key "c"; key "d"]).
  - cbn. lia.
  - cbn. lia.
  - exact hub_signs.
  - reflexivity.
  - repeat constructor. vm_compute. tauto.
  - vm_compute. reflexivity.
  - split; try (vm_compute; reflexivity).
    + split_and!; try (vm_compute; reflexivity); vm_compute; discriminate.
    + split_and!; vm_compute; reflexivity.
    + vm_compute. discriminate.
    + split; vm_compute; reflexivity.
    + split_and!; [vm_compute; reflexivity|vm_compute; reflexivity|vm_compute; by eexists].
  - repeat constructor.
  - exact four_exact.
  - apply (bool_decide_unpack _). vm_compute. exact I.
  - discriminate.
  - apply (bool_decide_unpack _). vm_compute. exact I.
  - vm_compute. reflexivity.
Defined.

(** *** A finalization under a view nobody signed *)

(** The timer fires between the hub's COMMIT and the last COMMIT of its peers:
    the round's view moves, its bytes do not, and the row is announced at view 1
    with signatures that verify over its view-0 bytes and not over those of view 1. *)
Definition late_run : list (Z * event) :=
  opened ++ at_once [propose_of "a" 0 theirs; EvValidated 3 (Some true) true; EvRebound 4 None; prepare_of "c" 0 theirs;
                     EvTimeout round_id; commit_of "a" 0 theirs; commit_of "c" 0 theirs].

Example finalizing_view_unsigned :
  final_of (run (hub "b") late_run initial) = [(theirs, [key "a"; key "b"; key "c"], 1)] ∧
  verify (hub "b") (bytes theirs 0) (signed_by (key "a") (bytes theirs 0)) (key "a") = true ∧
  verify (hub "b") (bytes theirs 1) (signed_by (key "a") (bytes theirs 0)) (key "a") = false.
Proof. vm_compute. auto. Qed.

(** *** Two rows signed in one view *)

Definition prepares_of (o : option (state matchrow)) : list (Z * string) :=
  match o with
  | Some s => omap (λ e, match e with SendPrepare _ v _ sig => Some (v, sig) | _ => None end) (out s)
  | None => []
  end.

(** The leader proposes two valid rows at view 0; the follower adopts one after
    the other and signs both under one equivocation key. *)
Definition second : matchrow := match_at 970000 1700000602.
Definition double_run : list (Z * event) :=
  opened ++ at_once [propose_of "a" 0 theirs; EvValidated 3 (Some true) true; EvRebound 4 None;
                     propose_of "a" 0 second; EvValidated 6 (Some true) true; EvRebound 7 None].

Example follower_signs_two_rows :
  prepares_of (run (hub "b") double_run initial) =
    [(0, signed_by (key "b") (bytes second 0)); (0, signed_by (key "b") (bytes theirs 0))] ∧
  bytes second 0 ≠ bytes theirs 0 ∧
  str_take 28 (bytes second 0) = "EQUIV|XDEX|00000000ab|0||XMA" ∧ str_take 28 (bytes theirs 0) = "EQUIV|XDEX|00000000ab|0||XMA".
Proof. vm_compute. split_and!; [reflexivity|discriminate|reflexivity|reflexivity]. Qed.

(** *** A quorum counted from outside the set *)

Definition early_block : matchrow := match_at 900000 1700000600.

(** Below the stake-weighted height a hub that is not in the set counts its own
    PREPARE and COMMIT: it announces the row on two members' signatures where the
    quorum of four is three. *)
Definition outside_run : list (Z * event) :=
  at_once [EvPropose round_id early_block four false; propose_of "a" 0 early_block; EvValidated 3 (Some true) true;
           prepare_of "c" 0 early_block; commit_of "a" 0 early_block; commit_of "c" 0 early_block].

Example observer_counts_itself :
  final_of (run (hub "e") outside_run initial) = [(early_block, [key "a"; key "e"; key "c"], 0)] ∧
  b_quorum (bind four false) = 3 ∧ is_member (key "e") (b_validators (bind four false)) = false.
Proof. vm_compute. auto. Qed.
End Runs.

(** ** A committed value replaced by its own restamp *)

Section Restamped.
Existing Instance transfer_rows.
Existing Instance ExactBigNumber.

Definition transfer_at (t : Z) : transfer :=
  Transfer round_id 970000 "TICK" 8 "LTC" 7 "addrLTC" "DOGE" "addrDOGE" "40" t "mainnet" None.

Definition tbytes (r : transfer) (view : Z) : string := default EmptyString (canonicalMatch r view).

Definition tfrom (ty : mtype) (c : ascii) (view : Z) (r : option transfer) (payload : string) : message transfer :=
  Msg ty round_id (Some view) (key c) (signed_by (key c) payload) (signed_by (key c) ("XDEX_MATCH_COMMIT|PHASEV1|" +:+ payload)) r [] 500.

Definition t1 : transfer := transfer_at 1700000240.
Definition t2 : transfer := transfer_at 1700000480.
Definition vote (ty : mtype) c view r := EvMessage (tfrom ty c view None (tbytes r view)).
Definition view_change c view := EvMessage (tfrom VIEW_CHANGE c view None (controlPayload "XDEXVC" round_id view)).

Definition at_ms (ms : Z) (evs : list (event (Row := transfer))) : list (Z * event) := (λ ev, (ms, ev)) <$> evs.

(** The leader of view 0: [c] and [d] commit with it. *)
Definition leader_run : list (Z * event) :=
  at_ms 1700000000000 [EvPropose round_id t1 four false; EvPersisted 2; vote PREPARE "c" 0 t1; vote PREPARE "d" 0 t1;
                       vote COMMIT "c" 0 t1; vote COMMIT "d" 0 t1].

(** [c] commits to the same row; the COMMITs of the others are late and its timer
    fires twice; [b] and [d] vote for view 2, which [c] leads when the row takes
    effect. *)
Definition successor_run : list (Z * event) :=
  at_ms 1700000000000 [EvPropose round_id t1 four false; EvMessage (tfrom PROPOSE "a" 0 (Some t1) (tbytes t1 0));
                       EvValidated 3 (Some true) true; vote PREPARE "d" 0 t1] ++
  at_ms 1700000120000 [EvTimeout round_id] ++
  at_ms 1700000240000 [EvTimeout round_id; view_change "b" 2; view_change "d" 2; EvPersisted 4;
                       vote PREPARE "b" 2 t2; vote PREPARE "d" 2 t2; vote COMMIT "b" 2 t2; vote COMMIT "d" 2 t2].

Definition commits_of (o : option (state transfer)) : list (Z * string) :=
  match o with
  | Some s => omap (λ e, match e with SendCommit _ v _ _ sig => Some (v, sig) | _ => None end) (out s)
  | None => []
  end.

(** A COMMIT does not lock a leader's value. On the bridge, a hub that sent
    COMMIT for a transfer and then leads a later view restamps the row's
    [effective_time], drops its commit and commits to the new bytes; so with four
    members and one of them ([d]) voting for both, two honest hubs announce two
    different rows for one transfer, each behind its quorum. *)
Theorem committed_value_replaced :
  final_of (run (hub "a") leader_run initial) = [(t1, [key "a"; key "c"; key "d"], 0)] ∧
  final_of (run (hub "c") successor_run initial) = [(t2, [key "c"; key "b"; key "d"], 2)] ∧
  commits_of (run (hub "c") successor_run initial) =
    [(2, signed_by (key "c") (commitPayload (hub "c") (tbytes t2 2))); (0, signed_by (key "c") (commitPayload (hub "c") (tbytes t1 0)))].
Proof. vm_compute. auto. Qed.
End Restamped.

(** ** A row changed under its signatures *)

Section Promised.
Existing Instance policy_rows.
Existing Instance ExactBigNumber.

Definition policy_at (t : Z) : policy := Policy round_id 970000 "LTC" "TICK" 3 2900000 "hash" t "mainnet" None.
Definition pbytes (r : policy) (view : Z) : string := default EmptyString (canonicalMatch r view).

Definition pfrom (ty : mtype) (c : ascii) (view : Z) (r : option policy) (payload : string) : message policy :=
  Msg ty round_id (Some view) (key c) (signed_by (key c) payload) (signed_by (key c) ("XDEX_MATCH_COMMIT|PHASEV1|" +:+ payload)) r [] 500.

Definition p1 : policy := policy_at 1700000240.
Definition p2 : policy := policy_at 1700000480.
Definition pvote (ty : mtype) c view r := EvMessage (pfrom ty c view None (pbytes r view)).
Definition pchange c view := EvMessage (pfrom VIEW_CHANGE c view None (controlPayload "XDEXVC" round_id view)).
Definition at_time (ms : Z) (evs : list (event (Row := policy))) : list (Z * event) := (λ ev, (ms, ev)) <$> evs.

(** [c] commits to the leader's row and leads view 2 when the row is due; while it
    reads the margin its timer fires again, and the margin arrives in view 3. *)
Definition promised_run : list (Z * event) :=
  at_time 1700000000000 [EvPropose round_id p1 four false; EvMessage (pfrom PROPOSE "a" 0 (Some p1) (pbytes p1 0));
                         EvValidated 3 (Some true) true; pvote PREPARE "d" 0 p1] ++
  at_time 1700000120000 [EvTimeout round_id] ++
  at_time 1700000240000 [EvTimeout round_id; pchange "b" 2; pchange "d" 2] ++
  at_time 1700000360000 [EvTimeout round_id; EvMargin 4 (Some (Some 240)); pvote COMMIT "a" 0 p1; pvote COMMIT "d" 0 p1].

(** The promised margin is written into the row before the round is looked at
    again: when the view has moved on the bytes are not rebuilt, and the late COMMITs
    finalize a row whose [effective_time] nobody signed, at any view. *)
Theorem policy_row_changed_under_its_signatures :
  match run (hub "c") promised_run initial with
  | Some s =>
      final_of (Some s) = [(p2, [key "a"; key "c"; key "d"], 3)] ∧
      ((λ view, verify (hub "c") (pbytes p2 view) (signed_by (key "a") (pbytes p1 0)) (key "a")) <$> [0; 1; 2; 3]) = [false; false; false; false] ∧
      verify (hub "c") (pbytes p1 0) (signed_by (key "a") (pbytes p1 0)) (key "a") = true
  | None => False
  end.
Proof. vm_compute. auto. Qed.
End Promised.

