(* ===== verification/OrState.v ===== *)
(** * Oracle rounds: data

    State of [OracleConsensus] ([src/oracle/consensus.js] and the parts under
    [src/oracle/consensus/]): the rounds it has open, the rounds it finalized or
    skipped, its timers, the early-arrival buffer, and the handlers suspended at
    an await. An open round is an object that the pending map, a timer and a
    suspended store attempt share, so rounds live in a heap and the map holds
    references. A value the wire carries is a JSON value where the code reads it
    more than one way ([None] stands for a missing field). *)

From S2P Require Import Prelude Ordered GateRegistry BigNum Quorum Json OracleBand OracleAggregate OracleCosign Admission PbftState PbftEngine.
Open Scope Z_scope.

(** ** Proposed prices

    [String(p.price)] of an entry and the kind of value it is; a number is given
    as [String] prints it. *)

Inductive wval := WText (s : string) | WNumber (shown : string) | WOther (shown : string) | WNull | WMissing.

Record wprice := WPrice { w_coinPair : option string; w_pair : option string; w_price : wval }.

Definition shown (v : wval) : string :=
  match v with WText s | WNumber s | WOther s => s | WNull => "null" | WMissing => "undefined" end.

(** The three readings of an entry: the digest's, the co-sign gate's, and the
    clamp reference's. *)
Definition for_digest (p : wprice) : wireprice :=
  WirePrice (w_coinPair p) match w_price p with WNull | WMissing => None | v => Some (shown v) end.
Definition for_gate (p : wprice) : wireentry :=
  WireEntry (default EmptyString (w_coinPair p))
    match w_price p with WText s => PText s | WNumber s => PNumber (Some s) | _ => POther end.
Definition for_cache (p : wprice) : string * string :=
  (default EmptyString (w_coinPair p), match w_price p with WNull | WMissing => EmptyString | v => shown v end).

(** What [aggregateAll] leaves. *)
Definition aggregated (l : list (string * string)) : list wprice := (λ p, WPrice (Some p.1) None (WText p.2)) <$> l.

(** ** The hub and the configuration *)

Record env := Env {
  hub : PbftState.env;                       (** identity, registry, network, seeds, tolerance *)
  edVerify : string → string → string → bool;  (** payload, signature, key: node's Ed25519 *)
  sha256Hex : string → string;
  quorumPeers : Z;                           (** open peers that count toward the live quorum *)
  coinPairs : list string;                   (** [PriceFetcher.getCoinPairs()] *)
  xchainPriceGateOpenFor : Z → bool;
  canonicalPairs : option (gset string);     (** [None]: absent or empty *)
  allowUnverifiedPairs : bool;
  minSubmissions : Z;
  finalizationTimeout : Z;
  leaderTimeout : Z;
  roundAbandonGraceMs : Z;
  finalizedMax : nat;
  earlyMessageMaxRounds : nat;
  epochStart : Z;
  roundInterval : Z;
  producer : list (string * option Z);       (** the admission producer's activation map *)
  hubDbBroadcaster : bool }.

Definition earlyMessageTtlMs : Z := 60 * 1000.
Definition earlyMessageMaxPerRound : nat := 64.
Definition FALLBACK_GRACE_MS : Z := 3000.
Definition FINALIZE_RETRY_BASE_MS : Z := 1000.
Definition FINALIZE_RETRY_MAX_MS : Z := 30000.
Definition ROUND_ABANDON_MAX_REARMS : Z := 3.
Definition MAX_STORE_ATTEMPTS : nat := 3.

Definition networkName (h : env) : string := network (hub h).

(** ** Messages *)

Record proposal := Proposal {
  p_round : option Z;                        (** [None]: not an integer *)
  p_prices : option (list wprice);           (** [None]: falsy *)
  p_digest : string;
  p_btcBlockHeight : option json;
  p_btcBlockTime : option json;
  p_sig_pubkey : option string;
  p_sig : option string;
  p_admitBlocks : option (option (gmap string json)) }.  (** [Some None]: not an object *)

Inductive phase := PreparePhase | CommitPhase.

Record vote := Vote {
  vt_phase : phase; vt_envelope : envelope; vt_round : option Z; vt_digest : string;
  vt_sig_pubkey : option string; vt_sig : option string }.

Inductive message := Propose (e : envelope) (p : proposal) | Voted (v : vote).

(** ** Open rounds *)

(** What [pending.timer] holds. *)
Inductive timer := NoTimer | LeaderTimeout | FollowerTimeout | Retry.

Record pending := Pending {
  o_round : Z;
  o_prices : list wprice;
  o_digest : string;
  o_height : Z;
  o_time : json;
  o_admit : option (gmap string Z);
  o_prepares : list string;                  (** proven keys, in insertion order *)
  o_commits : list string;
  o_signatures : list (string * string);     (** a Map, in insertion order *)
  o_finalized : bool;
  o_timer : timer;
  o_quorum : Z;
  o_weighted : bool;
  o_validators : Swq.varray;
  o_members : option (gset string);
  o_commitSent : bool;
  o_retryMs : Z }.                           (** 0 until a retry was armed *)

Definition set_o_prepares v (r : pending) : pending := Pending (o_round r) (o_prices r) (o_digest r) (o_height r) (o_time r) (o_admit r) v (o_commits r) (o_signatures r) (o_finalized r) (o_timer r) (o_quorum r) (o_weighted r) (o_validators r) (o_members r) (o_commitSent r) (o_retryMs r).
Definition set_o_commits v (r : pending) : pending := Pending (o_round r) (o_prices r) (o_digest r) (o_height r) (o_time r) (o_admit r) (o_prepares r) v (o_signatures r) (o_finalized r) (o_timer r) (o_quorum r) (o_weighted r) (o_validators r) (o_members r) (o_commitSent r) (o_retryMs r).
Definition set_o_signatures v (r : pending) : pending := Pending (o_round r) (o_prices r) (o_digest r) (o_height r) (o_time r) (o_admit r) (o_prepares r) (o_commits r) v (o_finalized r) (o_timer r) (o_quorum r) (o_weighted r) (o_validators r) (o_members r) (o_commitSent r) (o_retryMs r).
Definition set_o_finalized v (r : pending) : pending := Pending (o_round r) (o_prices r) (o_digest r) (o_height r) (o_time r) (o_admit r) (o_prepares r) (o_commits r) (o_signatures r) v (o_timer r) (o_quorum r) (o_weighted r) (o_validators r) (o_members r) (o_commitSent r) (o_retryMs r).
Definition set_o_timer v (r : pending) : pending := Pending (o_round r) (o_prices r) (o_digest r) (o_height r) (o_time r) (o_admit r) (o_prepares r) (o_commits r) (o_signatures r) (o_finalized r) v (o_quorum r) (o_weighted r) (o_validators r) (o_members r) (o_commitSent r) (o_retryMs r).
Definition set_o_commitSent v (r : pending) : pending := Pending (o_round r) (o_prices r) (o_digest r) (o_height r) (o_time r) (o_admit r) (o_prepares r) (o_commits r) (o_signatures r) (o_finalized r) (o_timer r) (o_quorum r) (o_weighted r) (o_validators r) (o_members r) v (o_retryMs r).
Definition set_o_retryMs v (r : pending) : pending := Pending (o_round r) (o_prices r) (o_digest r) (o_height r) (o_time r) (o_admit r) (o_prepares r) (o_commits r) (o_signatures r) (o_finalized r) (o_timer r) (o_quorum r) (o_weighted r) (o_validators r) (o_members r) (o_commitSent r) v.

(** ** Seats *)

(** A submission set a handler holds: a filtered copy, or the round's own map. *)
Inductive subview := Copy (l : list (string * submission)) | Live (key : Z).

(** What [finalizeOnSnapshot] hands to the seat split. *)
Record seat := Seat {
  st_round : Z; st_subs : subview; st_height : Z; st_time : json;
  st_snapshot : option snapshot; st_quorum : Z; st_weighted : bool; st_members : option (gset string) }.

(** An armed grace timer: with the leader it waits on and the address of that
    leader's submission, or without. *)
Record ltimer := LTimer { lt_seat : seat; lt_leader : option leader }.

Inductive seat_name :=
| SeatLeader | SeatElectedFallback | SeatFollower | SeatOtherFallback | SeatInGrace | SeatFallback | SeatWithoutSubmissions.

Record watchdog := Watchdog { wd_height : Z; wd_time : json; wd_rearms : Z; wd_seat : option seat_name }.

(** ** The store *)

(** The arguments of one [storeSnapshot]. *)
Record job := Job {
  j_round : Z; j_prices : list wprice; j_count : Z; j_proof : list (string * string);
  j_height : Z; j_time : json; j_admit : option (gmap string Z) }.

(** A row of the capability set: [getSnapshot] has amounts, [getWeightSnapshot]
    sources and weights. *)
Record crow := CRow { c_pubkey : option string; c_source : option string; c_weight : option string; c_amount : option string }.

(** Where [storeSnapshot] stands: at the capability mirror, at the rows, at the
    per-pair skip markers, at the broadcast of the rows. *)
Inductive stage := AtCapability | AtRows | AtMarkers | AtBroadcast.

(** ** Effects *)

(** How an announced round was decided. *)
Inductive decided := Solo | Counted (quorum : Z) (weighted : bool) (vs : Swq.varray) (members : option (gset string)) (commits : list string).

Record announcement := Announcement {
  a_round : Z; a_height : Z; a_time : json; a_prices : list wprice; a_admit : option (gmap string Z);
  a_participants : list string; a_signatures : list (string * string); a_submissions : list (string * submission);
  a_decided : decided }.

Inductive effect :=
| SendPropose (round : Z) (prices : list wprice) (digest : string) (height : Z) (time : json) (keys : list string)
    (sig : option (string * string)) (adm : option (gmap string Z))
| SendPrepare (round : Z) (digest : string) (sig : option (string * string))
| SendCommit (round : Z) (digest : string) (sig : option (string * string))
| MirrorCapability (block : Z) (rows : list crow)
| WriteRound (j : job)                        (** the multi-row insert, tried *)
| WriteSkipped (round : Z) (pairs : list string) (block : Z) (time : json)
| BroadcastRound (round : Z)
| ResyncSubscribers (round : Z)
| RoundFinalized (a : announcement)           (** [round:finalized] *)
| RoundSkipped (round : Z).                   (** [round:skipped] *)

(** ** Suspended handlers *)

(** What [finalizeRound] carries to [finalizeOnSnapshot]. *)
Record closing := Closing { cl_round : Z; cl_key : Z; cl_height : Z; cl_time : json }.

(** What [lockProposeSnapshot] hands to the rest of [handlePropose]. *)
Record locked := Locked {
  l_height : Z; l_weighted : bool; l_snapshot : option snapshot; l_quorum : option Z;
  l_members : option (gset string); l_roundTime : bool }.

(** Who awaits a [storeSnapshot]: the solo path, or an attempt of
    [finalizeCommittedRound]. *)
Inductive caller := SoloCaller (c : closing) (subs : subview) | CommitCaller (pid : nat) (attempt : nat).

Inductive kont :=
| KSnapshot (c : closing) (weighted : bool)                    (** [finalizeRound], at the snapshot *)
| KCount (c : closing)                                         (** [finalizeOnSnapshot], at the count snapshot *)
| KRefresh (c : closing) (sn : option snapshot) (weighted : bool) (subs : subview) (read : bool)
| KSoloAdmit (c : closing) (subs : subview) (l : list wprice)  (** [finalizeSoloRound], at the admission tips *)
| KLeadAdmit (st : seat) (l : list wprice)                      (** [proposeRound], at the admission tips *)
| KTip (e : envelope) (p : proposal) (certain : bool)          (** [boundedProposeHeight], at the own tip *)
| KFollowRefresh (e : envelope) (p : proposal) (height : Z) (roundTime : bool) (read : bool)
| KFollowSnapshot (e : envelope) (p : proposal) (height : Z) (roundTime weighted : bool)
| KFollowCount (e : envelope) (p : proposal) (height : Z) (roundTime : bool)
| KBind (e : envelope) (p : proposal) (l : locked) (map : gmap string Z)  (** [checkProposedAdmit], at the own tips *)
| KStore (at_ : stage) (j : job) (c : caller)
| KBackoff (pid : nat) (j : job) (attempt : nat)               (** between two store attempts *)
| KSkip (written : bool) (round : Z) (block : Z) (time : json). (** [storeSkippedRound] *)

Record counters := Counters { g_timeouts : Z; g_abandoned : Z; g_lastAbandoned : option Z }.

(** ** The engine state *)

Record state := State {
  validatorSet : list validator;
  pendingRounds : gmap Z nat;
  heap : gmap nat pending;
  next : nat;                                     (** the next allocation number *)
  finalized : gset Z;
  finalizedOrder : list Z;
  locallySkipped : gset Z;
  locallySkippedOrder : list Z;
  roundReadyAt : gmap Z Z;
  leaderTimers : gmap Z nat;
  timers : gmap nat ltimer;                       (** armed grace timers *)
  roundWatchdogs : gmap Z watchdog;
  earlyMessages : list (Z * list vote);
  earlyMessageTtl : list (Z * Z);
  roundSubs : gmap Z (list (string * submission)); (** [OracleRound.submissions] *)
  currentRound : Z;                               (** [OracleRound.currentRound] *)
  cache : reference;
  konts : gmap nat kont;
  gauges : counters;
  out : list effect }.                            (** every effect so far, newest first *)

Definition put_validatorSet v (r : state) : state := State v (pendingRounds r) (heap r) (next r) (finalized r) (finalizedOrder r) (locallySkipped r) (locallySkippedOrder r) (roundReadyAt r) (leaderTimers r) (timers r) (roundWatchdogs r) (earlyMessages r) (earlyMessageTtl r) (roundSubs r) (currentRound r) (cache r) (konts r) (gauges r) (out r).
Definition put_pendingRounds v (r : state) : state := State (validatorSet r) v (heap r) (next r) (finalized r) (finalizedOrder r) (locallySkipped r) (locallySkippedOrder r) (roundReadyAt r) (leaderTimers r) (timers r) (roundWatchdogs r) (earlyMessages r) (earlyMessageTtl r) (roundSubs r) (currentRound r) (cache r) (konts r) (gauges r) (out r).
Definition put_heap v (r : state) : state := State (validatorSet r) (pendingRounds r) v (next r) (finalized r) (finalizedOrder r) (locallySkipped r) (locallySkippedOrder r) (roundReadyAt r) (leaderTimers r) (timers r) (roundWatchdogs r) (earlyMessages r) (earlyMessageTtl r) (roundSubs r) (currentRound r) (cache r) (konts r) (gauges r) (out r).
Definition put_finalized v (r : state) : state := State (validatorSet r) (pendingRounds r) (heap r) (next r) v (finalizedOrder r) (locallySkipped r) (locallySkippedOrder r) (roundReadyAt r) (leaderTimers r) (timers r) (roundWatchdogs r) (earlyMessages r) (earlyMessageTtl r) (roundSubs r) (currentRound r) (cache r) (konts r) (gauges r) (out r).
Definition put_finalizedOrder v (r : state) : state := State (validatorSet r) (pendingRounds r) (heap r) (next r) (finalized r) v (locallySkipped r) (locallySkippedOrder r) (roundReadyAt r) (leaderTimers r) (timers r) (roundWatchdogs r) (earlyMessages r) (earlyMessageTtl r) (roundSubs r) (currentRound r) (cache r) (konts r) (gauges r) (out r).
Definition put_locallySkipped v (r : state) : state := State (validatorSet r) (pendingRounds r) (heap r) (next r) (finalized r) (finalizedOrder r) v (locallySkippedOrder r) (roundReadyAt r) (leaderTimers r) (timers r) (roundWatchdogs r) (earlyMessages r) (earlyMessageTtl r) (roundSubs r) (currentRound r) (cache r) (konts r) (gauges r) (out r).
Definition put_locallySkippedOrder v (r : state) : state := State (validatorSet r) (pendingRounds r) (heap r) (next r) (finalized r) (finalizedOrder r) (locallySkipped r) v (roundReadyAt r) (leaderTimers r) (timers r) (roundWatchdogs r) (earlyMessages r) (earlyMessageTtl r) (roundSubs r) (currentRound r) (cache r) (konts r) (gauges r) (out r).
Definition put_roundReadyAt v (r : state) : state := State (validatorSet r) (pendingRounds r) (heap r) (next r) (finalized r) (finalizedOrder r) (locallySkipped r) (locallySkippedOrder r) v (leaderTimers r) (timers r) (roundWatchdogs r) (earlyMessages r) (earlyMessageTtl r) (roundSubs r) (currentRound r) (cache r) (konts r) (gauges r) (out r).
Definition put_leaderTimers v (r : state) : state := State (validatorSet r) (pendingRounds r) (heap r) (next r) (finalized r) (finalizedOrder r) (locallySkipped r) (locallySkippedOrder r) (roundReadyAt r) v (timers r) (roundWatchdogs r) (earlyMessages r) (earlyMessageTtl r) (roundSubs r) (currentRound r) (cache r) (konts r) (gauges r) (out r).
Definition put_timers v (r : state) : state := State (validatorSet r) (pendingRounds r) (heap r) (next r) (finalized r) (finalizedOrder r) (locallySkipped r) (locallySkippedOrder r) (roundReadyAt r) (leaderTimers r) v (roundWatchdogs r) (earlyMessages r) (earlyMessageTtl r) (roundSubs r) (currentRound r) (cache r) (konts r) (gauges r) (out r).
Definition put_roundWatchdogs v (r : state) : state := State (validatorSet r) (pendingRounds r) (heap r) (next r) (finalized r) (finalizedOrder r) (locallySkipped r) (locallySkippedOrder r) (roundReadyAt r) (leaderTimers r) (timers r) v (earlyMessages r) (earlyMessageTtl r) (roundSubs r) (currentRound r) (cache r) (konts r) (gauges r) (out r).
Definition put_earlyMessages v (r : state) : state := State (validatorSet r) (pendingRounds r) (heap r) (next r) (finalized r) (finalizedOrder r) (locallySkipped r) (locallySkippedOrder r) (roundReadyAt r) (leaderTimers r) (timers r) (roundWatchdogs r) v (earlyMessageTtl r) (roundSubs r) (currentRound r) (cache r) (konts r) (gauges r) (out r).
Definition put_earlyMessageTtl v (r : state) : state := State (validatorSet r) (pendingRounds r) (heap r) (next r) (finalized r) (finalizedOrder r) (locallySkipped r) (locallySkippedOrder r) (roundReadyAt r) (leaderTimers r) (timers r) (roundWatchdogs r) (earlyMessages r) v (roundSubs r) (currentRound r) (cache r) (konts r) (gauges r) (out r).
Definition put_roundSubs v (r : state) : state := State (validatorSet r) (pendingRounds r) (heap r) (next r) (finalized r) (finalizedOrder r) (locallySkipped r) (locallySkippedOrder r) (roundReadyAt r) (leaderTimers r) (timers r) (roundWatchdogs r) (earlyMessages r) (earlyMessageTtl r) v (currentRound r) (cache r) (konts r) (gauges r) (out r).
Definition put_currentRound v (r : state) : state := State (validatorSet r) (pendingRounds r) (heap r) (next r) (finalized r) (finalizedOrder r) (locallySkipped r) (locallySkippedOrder r) (roundReadyAt r) (leaderTimers r) (timers r) (roundWatchdogs r) (earlyMessages r) (earlyMessageTtl r) (roundSubs r) v (cache r) (konts r) (gauges r) (out r).
Definition put_cache v (r : state) : state := State (validatorSet r) (pendingRounds r) (heap r) (next r) (finalized r) (finalizedOrder r) (locallySkipped r) (locallySkippedOrder r) (roundReadyAt r) (leaderTimers r) (timers r) (roundWatchdogs r) (earlyMessages r) (earlyMessageTtl r) (roundSubs r) (currentRound r) v (konts r) (gauges r) (out r).
Definition put_konts v (r : state) : state := State (validatorSet r) (pendingRounds r) (heap r) (next r) (finalized r) (finalizedOrder r) (locallySkipped r) (locallySkippedOrder r) (roundReadyAt r) (leaderTimers r) (timers r) (roundWatchdogs r) (earlyMessages r) (earlyMessageTtl r) (roundSubs r) (currentRound r) (cache r) v (gauges r) (out r).
Definition put_gauges v (r : state) : state := State (validatorSet r) (pendingRounds r) (heap r) (next r) (finalized r) (finalizedOrder r) (locallySkipped r) (locallySkippedOrder r) (roundReadyAt r) (leaderTimers r) (timers r) (roundWatchdogs r) (earlyMessages r) (earlyMessageTtl r) (roundSubs r) (currentRound r) (cache r) (konts r) v (out r).
Definition put_out v (r : state) : state := State (validatorSet r) (pendingRounds r) (heap r) (next r) (finalized r) (finalizedOrder r) (locallySkipped r) (locallySkippedOrder r) (roundReadyAt r) (leaderTimers r) (timers r) (roundWatchdogs r) (earlyMessages r) (earlyMessageTtl r) (roundSubs r) (currentRound r) (cache r) (konts r) (gauges r) v.

Definition initial : state := State [] ∅ ∅ 0 ∅ [] ∅ [] ∅ ∅ ∅ ∅ [] [] ∅ 0 no_reference ∅ (Counters 0 0 None) [].

Definition emit (e : effect) (s : state) : state := put_out (e :: out s) s.

(** [pending.field = ...] through a reference. *)
Definition modify (pid : nat) (f : pending → pending) (s : state) : state := put_heap (alter f pid (heap s)) s.

(** [this.pendingRounds.get(round)]: the reference and the object. *)
Definition live (round : Z) (s : state) : option (nat * pending) :=
  pid ← pendingRounds s !! round; p ← heap s !! pid; Some (pid, p).

(** Allocation numbers of rounds, grace timers and suspended handlers. *)
Definition bump (s : state) : state :=
  State (validatorSet s) (pendingRounds s) (heap s) (S (next s)) (finalized s) (finalizedOrder s) (locallySkipped s)
    (locallySkippedOrder s) (roundReadyAt s) (leaderTimers s) (timers s) (roundWatchdogs s) (earlyMessages s)
    (earlyMessageTtl s) (roundSubs s) (currentRound s) (cache s) (konts s) (gauges s) (out s).
Definition new_round (p : pending) (s : state) : state := bump (put_heap (<[next s := p]> (heap s)) s).
Definition suspend (k : kont) (s : state) : state := bump (put_konts (<[next s := k]> (konts s)) s).
