(* ===== verification/OrMembers.v ===== *)
(** * Oracle rounds: members, leaders, quorums and signatures

    [src/oracle/consensus/membership.js] (the locked validator set, the
    submission filter, the leader election), the round-anchored federation test
    of [src/consensus/federation.js], the signed bytes of a round
    ([buildPriceV0Payload]), and the tallies of [commit.js]. *)

From stdpp Require Import pretty.
From S2P Require Import Prelude Ordered GateRegistry BigNum Quorum Json AttestWire OracleBand OracleAggregate OracleCosign Admission PbftState PbftEngine OrState.
Open Scope Z_scope.

(** ** Identities *)

Definition resolveSenderPubkey (h : env) (sender : string) : option string :=
  let registered := registry ← validatorPubkeys (hub h); truthy (registry !! sender) in
  let pk := match registered with
            | Some pk => Some pk
            | None => if String.eqb sender (validatorAddr (hub h)) then truthy (identity (hub h)) else None
            end in
  toLowerCase <$> pk.

Definition selfPubkey (h : env) : option string := resolveSenderPubkey h (validatorAddr (hub h)).

Definition isKnownSender (h : env) (e : envelope) : bool := isAdmissibleSigner (hub h) e.

(** ** The locked set *)

Definition normalizeValidators (sn : option snapshot) (weighted : bool) : Swq.varray := PbftEngine.normalizeValidators sn weighted.

Definition memberPubkeySet (sn : option snapshot) : option (gset string) := PbftEngine.memberPubkeySet sn.

(** The key a submission counts under. *)
Definition submitterKey (h : env) (s : string * submission) : option string :=
  match truthy (pubkey s.2) with Some pk => Some pk | None => resolveSenderPubkey h s.1 end.

Fixpoint filter_members (h : env) (members : gset string) (seen : list string) (subs : list (string * submission)) :
    list (string * submission) :=
  match subs with
  | [] => []
  | s :: r =>
      match submitterKey h s with
      | Some pk => if bool_decide (pk ∈ members ∧ pk ∉ seen) then s :: filter_members h members (pk :: seen) r
                   else filter_members h members seen r
      | None => filter_members h members seen r
      end
  end.

Definition filterSubmissionsToSnapshot (h : env) (subs : list (string * submission)) (members : option (gset string)) :
    list (string * submission) :=
  match members with None => subs | Some ms => filter_members h ms [] subs end.

Definition addrForPubkey (h : env) (vs : list validator) (pubkey : string) : option string :=
  match find (λ v, match truthy (va_pubkey v) with Some k => String.eqb (toLowerCase k) pubkey | None => false end) vs with
  | Some v => va_addr v
  | None =>
      match sort_strings (omap (λ kv : string * string,
               if negb (String.eqb kv.2 "") && String.eqb (toLowerCase kv.2) pubkey then Some kv.1 else None)
               (map_to_list (default ∅ (validatorPubkeys (hub h))))) with
      | a :: _ => Some a
      | [] => match identity (hub h) with
              | Some id => if String.eqb (toLowerCase id) pubkey then Some (validatorAddr (hub h)) else None
              | None => None
              end
      end
  end.

Definition leader_key (round : Z) (members : gset string) : option string :=
  rotation (sort_strings (elements members)) round.

Definition live_leader (vs : list validator) (round : Z) : option leader :=
  (λ v, Leader (va_addr v) (va_pubkey v)) <$> rotation vs round.

Definition getLeader (h : env) (vs : list validator) (round : Z) (members : option (gset string)) : option leader :=
  match members with
  | Some ms =>
      if bool_decide (ms = ∅) then live_leader vs round
      else (λ pk, Leader (addrForPubkey h vs pk) (Some pk)) <$> leader_key round ms
  | None => live_leader vs round
  end.

Definition isLeaderIdentity (l : option leader) (addr : string) (pubkey : option string) : bool :=
  PbftEngine.isLeaderIdentity l addr pubkey.

Definition leaderSubmissionAddr (h : env) (subs : list (string * submission)) (l : option leader) : option string :=
  match l with
  | None => None
  | Some l =>
      match (a ← truthy (l_addr l); if existsb (λ s, String.eqb s.1 a) subs then Some a else None) with
      | Some a => Some a
      | None => match toLowerCase <$> truthy (l_pubkey l) with
                | None => None
                | Some lpk => fst <$> find (λ s, bool_decide (submitterKey h s = Some lpk)) subs
                end
      end
  end.

(** [keys.sort()[0]], and without the leader's. *)
Definition lowest (keys : list string) : option string := hd_error (sort_strings keys).
Definition fallbackOf (h : env) (subs : list (string * submission)) (leaderAddr : option string) : option string :=
  lowest (filter (λ a, Some a ≠ leaderAddr) subs.*1).

(** ** The live quorum and the federation test *)

Definition getQuorum (h : env) (vs : list validator) : Z :=
  let N := Z.of_nat (length vs) in
  Bft.bftQuorumOrSingle (if N <=? 0 then quorumPeers h + 1 else N) 0.

Definition liveFederation (h : env) (vs : list validator) : bool :=
  isFederatedHub 0 (Z.of_nat (length vs)) (openPeers (hub h)) (seedCount (hub h)).

Definition roundIsFederated (h : env) (vs : list validator) (height : option Z) : bool :=
  (0 <? getQuorum h vs) || isFederatedHubActive (networkName h) height && liveFederation h vs.

Definition isEmptyFederationSnapshot (h : env) (vs : list validator) (sn : option snapshot) (height : option Z) : bool :=
  isEmptySnapshot sn && roundIsFederated h vs height.

(** ** The signed bytes of a round *)

Definition pair_name (p : wprice) : option string := match truthy (w_coinPair p) with Some c => Some c | None => w_pair p end.

(** The comparator on pair names; an entry without a name compares equal to all. *)
Definition pair_before (a b : option string * string) : bool :=
  match a.1, b.1 with Some a, Some b => String.leb a b | _, _ => true end.

Definition payload_pairs (l : list wprice) : list (option string * string) :=
  isort pair_before ((λ p, (pair_name p, shown (w_price p))) <$> l).

(** [parseInt] of a value: of a number, its integral part. *)
Definition js_parseInt (v : json) : option Z :=
  match v with
  | JNum m e => Some (if 0 <=? e then m * 10 ^ e else Z.quot m (10 ^ (- e)))
  | v => parseInt (json_String v)
  end.

Definition payload_raw (round : Z) (time : json) (prices : list wprice) (height : Z) : string :=
  stringify (JObj [("round", JInt round);
    ("timestamp", match js_parseInt time with Some t => JInt t | None => JNull end);
    ("btc_block_height", JInt height);
    ("pairs", JArr ((λ p : option string * string,
       JObj (match p.1 with Some n => [("pair", JStr n)] | None => [] end ++ [("price", JStr p.2)])) <$> payload_pairs prices))]).

Definition ORACLE_TAG : string := "XORACLE".

(** A decoded admission map, as the encoder takes it. *)
Definition json_heights (m : gmap string Z) : gmap string json := (λ z, JInt z) <$> m.

(** [None]: the builder throws. *)
Definition buildPriceV0Payload (h : env) (round : Z) (time : json) (prices : list wprice) (height : Z)
    (adm : option (gmap string Z)) : option string :=
  match admissionCanonicalField (producer h) (Some (networkName h)) (Some (JInt height)) (json_heights <$> adm) with
  | Err _ => None
  | Ok field =>
      let raw := payload_raw round time prices height +:+ field in
      Some (if isEquivHeaderActive (Some height) (networkName h)
            then buildEquivCanonical ORACLE_TAG (pretty height) "0" raw else raw)
  end.

(** [ValidatorIdentity.verify]. *)
Definition verify (h : env) (payload sig pk : string) : bool :=
  if String.eqb sig "" || String.eqb pk "" then false
  else if negb (String.length pk =? 64)%nat then false else edVerify h payload sig pk.

(** The key and the signature, or null. *)
Definition signPriceV0 (h : env) (round : Z) (time : json) (prices : list wprice) (height : Z) (adm : option (gmap string Z)) :
    option (string * string) :=
  id ← identity (hub h); payload ← buildPriceV0Payload h round time prices height adm; Some (id, sign (hub h) payload).

Definition pending_payload (h : env) (p : pending) : option string :=
  buildPriceV0Payload h (o_round p) (o_time p) (o_prices p) (o_height p) (o_admit p).

Definition verifyAndStoreSig (h : env) (pubkey sig : option string) (p : pending) : pending :=
  match truthy pubkey, truthy sig with
  | Some pk, Some sig =>
      let pk := toLowerCase pk in
      match m_get pk (o_signatures p) with
      | Some _ => p
      | None =>
          match pending_payload h p with
          | None => p
          | Some payload => if verify h payload sig pk then set_o_signatures (m_set pk sig (o_signatures p)) p else p
          end
      end
  | _, _ => p
  end.

Definition sig_le (a b : string * string) : bool := String.leb a.1 b.1.
Definition sortedSignatures (p : pending) : list (string * string) := isort sig_le (o_signatures p).

(** Record an own signature if the key has none. *)
Definition store_own (sig : option (string * string)) (p : pending) : pending :=
  match sig with
  | None => p
  | Some (pk, sg) => match m_get pk (o_signatures p) with
                     | Some _ => p
                     | None => set_o_signatures (m_set pk sg (o_signatures p)) p
                     end
  end.

Definition addVote (e : envelope) (votes : list string) : list string :=
  match provenPubkey e with Some pk => s_add pk votes | None => votes end.

Definition addSelf (h : env) (votes : list string) : list string :=
  match selfPubkey h with Some pk => s_add pk votes | None => votes end.

(** ** Tallies *)

Definition countDistinctMembers (p : pending) (votes : list string) : Z :=
  match o_members p with
  | None => Z.of_nat (length votes)
  | Some ms => Z.of_nat (length (filter (λ pk, pk ∈ ms) votes))
  end.

(** [commit.COUNT_QUORUM_SIGNED_ACTIVATION] and [ORACLE_ROUND_TIME_ACTIVATION]. *)
Definition COUNT_QUORUM_SIGNED_ACTIVATION : jsdata :=
  GateRegistry.JObj [("mainnet", GateRegistry.JNum Gate.UNARMED); ("BTC:testnet", GateRegistry.JNum 157073); ("LTC:testnet", GateRegistry.JNum 4928460);
        ("DOGE:testnet", GateRegistry.JNum 68009330); ("testnet", GateRegistry.JNum Gate.UNARMED); ("regtest", GateRegistry.JNum 0)].
Definition ORACLE_ROUND_TIME_ACTIVATION : jsdata :=
  GateRegistry.JObj [("mainnet", GateRegistry.JNum Gate.UNARMED); ("testnet", GateRegistry.JNum Gate.UNARMED); ("BTC:testnet", GateRegistry.JNum 155158);
        ("LTC:testnet", GateRegistry.JNum 4907593); ("DOGE:testnet", GateRegistry.JNum 67966647); ("regtest", GateRegistry.JNum 0)].

Definition btc_active (table : jsdata) (network : string) (height : Z) : bool :=
  Gate.reached (Gate.resolveThreshold table network (Some "BTC"%string)) (Gate.CNum height).

Definition countQuorumSigned (h : env) (height : Z) : bool := btc_active COUNT_QUORUM_SIGNED_ACTIVATION (networkName h) height.

Section Quorum.
Context {B : BigNumber}.

Definition quorumMet (h : env) (p : pending) (votes : list string) : bool :=
  if o_weighted p then Swq.meetsStakeThreshold (o_validators p) (o_signatures p).*1
  else
    let tally := if countQuorumSigned h (o_height p) then (o_signatures p).*1 else votes in
    o_quorum p <=? countDistinctMembers p tally.
End Quorum.

(** ** The nominal round time *)

Definition roundTimeGateActive (h : env) (height : Z) : bool :=
  if safe height && negb (height <? 0) then btc_active ORACLE_ROUND_TIME_ACTIVATION (networkName h) height else false.

Definition nominalRoundSeconds (h : env) (round : Z) : option Z :=
  if (round <? 0) || negb (0 <? roundInterval h) then None else Some ((epochStart h + round * roundInterval h) / 1000).

Definition roundTimeMatches (h : env) (time : json) (round : Z) : bool :=
  bool_decide (js_parseInt time = nominalRoundSeconds h round) && bool_decide (is_Some (js_parseInt time)).

(** ** The clamp-reference gate *)

Definition ORACLE_CLAMP_REFERENCE_ACTIVATION : list (string * option Z) := [("mainnet", None); ("testnet", Some 152400); ("regtest", Some 0)].

Definition isClampReferenceAlignActive (height : option json) (network : string) : bool :=
  match Admission.own network ORACLE_CLAMP_REFERENCE_ACTIVATION with
  | Some (Some threshold) => match (v ← height; js_parseInt v) with Some b => threshold <=? b | None => false end
  | _ => false
  end.

(** ** Admission maps *)

Definition spellAdmit (map : option (gmap string Z)) : option string :=
  match map with
  | None => None
  | Some m => match encodeAdmitBlocks (json_heights m) with Ok s => Some s | Err _ => Some "(unspellable)"%string end
  end.

(** The synchronous half of [checkProposedAdmit]: the map through the encoder. *)
Definition normalizedAdmit (map : option (gmap string json)) : option (gmap string Z) :=
  m ← map; match encodeAdmitBlocks m with Ok s => decodeAdmitBlocks s | Err _ => None end.
