(* ===== verification/OrRounds.v ===== *)
(** * Oracle rounds: handlers

    One definition per method of [OracleConsensus] and of its parts: the round
    outcomes ([consensus/lifecycle.js]), the abandonment watchdog
    ([watchdog.js]), storing a round ([snapshot_store.js]), the vote tallies and
    the durable finalize ([commit.js]), the early-arrival buffer and the votes
    ([messages.js]), proposing ([propose/propose.js]), the seat split
    ([seats.js]), closing a round ([finalize_round.js]) and judging and
    co-signing a PROPOSE ([propose/handle_propose.js], [follower_round.js]). A
    handler maps the state before a synchronous stretch of code to the state
    after it; what it awaits is a suspended handler, resumed with the answer.
    Times are milliseconds. *)

From stdpp Require Import pretty.
From Stdlib Require Import QArith_base Qabs.
From S2P Require Import Prelude Ordered GateRegistry BigNum Quorum Json AttestWire OracleBand OracleAggregate OracleCosign Admission PbftState PbftEngine OrState OrMembers.
Open Scope Z_scope.

Section Rounds.
Context {B : BigNumber}.

(** ** What the rounds read *)

Definition band_at (h : env) (now : Z) : option band := roundBand (Some now) (Some (epochStart h)) (Some (roundInterval h)) None.

Definition lasts (s : state) (pair : string) : option string := getLastFinalizedPrice (cache s) pair.

(** [getSubmissions]: round 0 reads the current round's map. *)
Definition sub_key (round : Z) (s : state) : Z := if round =? 0 then currentRound s else round.
Definition getSubmissions (round : Z) (s : state) : option (list (string * submission)) := roundSubs s !! sub_key round s.
Definition view_subs (v : subview) (s : state) : list (string * submission) :=
  match v with Copy l => l | Live k => default [] (roundSubs s !! k) end.

Definition is_pending (round : Z) (s : state) : bool := bool_decide (is_Some (pendingRounds s !! round)).
Definition is_finalized (round : Z) (s : state) : bool := bool_decide (round ∈ finalized s).

(** [time || Math.floor(Date.now() / 1000)], and [height || round]. *)
Definition or_now (now : Z) (time : json) : json := if json_truthy time then time else JInt (now / 1000).
Definition or_round (height round : Z) : Z := if height =? 0 then round else height.

(** ** Watchdogs and round tracking *)

Definition disarmRoundWatchdog (round : Z) (s : state) : state := put_roundWatchdogs (delete round (roundWatchdogs s)) s.

Definition armRoundWatchdog (round height : Z) (time : json) (s : state) : state :=
  if bool_decide (round ∈ finalized s ∨ round ∈ locallySkipped s) then s
  else match roundWatchdogs s !! round with
       | Some _ => s
       | None => put_roundWatchdogs (<[round := Watchdog height time 0 None]> (roundWatchdogs s)) s
       end.

Definition noteRoundSeat (round : Z) (n : seat_name) (s : state) : state :=
  put_roundWatchdogs (alter (λ w, Watchdog (wd_height w) (wd_time w) (wd_rearms w) (Some n)) round (roundWatchdogs s)) s.

Definition markRoundReady (h : env) (now round : Z) (s : state) : state :=
  let ttl := finalizationTimeout h * 2 + leaderTimeout h in
  let kept := filter (λ kv, negb (ttl <? now - kv.2) = true) (roundReadyAt s) in
  put_roundReadyAt match kept !! round with Some _ => kept | None => <[round := now]> kept end s.

Definition clear_leader_timer (round : Z) (s : state) : state :=
  match leaderTimers s !! round with
  | Some t => put_leaderTimers (delete round (leaderTimers s)) (put_timers (delete t (timers s)) s)
  | None => s
  end.

Definition clearRoundTracking (round : Z) (s : state) : state :=
  disarmRoundWatchdog round (clear_leader_timer round (put_roundReadyAt (delete round (roundReadyAt s)) s)).

(** ** Round outcomes *)

(** A bounded ring: the set, the order and the eviction of the oldest. *)
Definition ring_push (max : nat) (round : Z) (ring : gset Z) (order : list Z) : gset Z * list Z :=
  let ring := {[round]} ∪ ring in
  let order := order ++ [round] in
  if (max <? length order)%nat
  then match order with oldest :: rest => (ring ∖ {[oldest]}, rest) | [] => (ring, order) end
  else (ring, order).

Fixpoint remove_first (round : Z) (l : list Z) : list Z :=
  match l with [] => [] | x :: l => if x =? round then l else x :: remove_first round l end.

Definition clear_skip (round : Z) (s : state) : state :=
  if bool_decide (round ∈ locallySkipped s)
  then put_locallySkippedOrder (remove_first round (locallySkippedOrder s)) (put_locallySkipped (locallySkipped s ∖ {[round]}) s)
  else s.

Definition markFinalized (h : env) (round : Z) (s : state) : state :=
  let s := clear_skip round s in
  if bool_decide (round ∈ finalized s) then s
  else
    let s := disarmRoundWatchdog round s in
    let '(ring, order) := ring_push (finalizedMax h) round (finalized s) (finalizedOrder s) in
    put_finalizedOrder order (put_finalized ring s).

Definition markLocallySkipped (h : env) (round : Z) (s : state) : state :=
  if bool_decide (round ∈ finalized s ∨ round ∈ locallySkipped s) then s
  else
    let '(ring, order) := ring_push (finalizedMax h) round (locallySkipped s) (locallySkippedOrder s) in
    emit (RoundSkipped round) (put_locallySkippedOrder order (put_locallySkipped ring s)).

(** ** Skipped rounds *)

Definition DERIVED_PAIRS : list string := ["XCHAIN/USD"%string].

Definition markerPairs (h : env) (round : Z) : list string :=
  if xchainPriceGateOpenFor h round then coinPairs h ++ DERIVED_PAIRS else coinPairs h.

Definition finish_skip (h : env) (round : Z) (s : state) : state := clearRoundTracking round (markLocallySkipped h round s).

Definition storeSkippedRound (h : env) (now round height : Z) (time : json) (s : state) : state :=
  let block := or_round height round in
  let time := or_now now time in
  match markerPairs h round with
  | [] => finish_skip h round s
  | pairs => suspend (KSkip false round block time) (emit (WriteSkipped round pairs block time) s)
  end.

(** [broadcastStoredRound]: the rows re-read, or the subscribers dropped. *)
Definition broadcastStoredRound (h : env) (round : Z) (ok : bool) (s : state) : state :=
  if hubDbBroadcaster h then emit (if ok then BroadcastRound round else ResyncSubscribers round) s else s.

Definition resumeSkip (h : env) (written : bool) (round block : Z) (time : json) (ok : bool) (s : state) : state :=
  if written then finish_skip h round (broadcastStoredRound h round ok s)
  else if ok then suspend (KSkip true round block time) s else s.

Definition onRoundAbandoned (h : env) (now round : Z) (s : state) : state :=
  match roundWatchdogs s !! round with
  | None => s
  | Some w =>
      if bool_decide (round ∈ finalized s ∨ round ∈ locallySkipped s) then disarmRoundWatchdog round s
      else if is_pending round s && (wd_rearms w <? ROUND_ABANDON_MAX_REARMS)
      then put_roundWatchdogs (<[round := Watchdog (wd_height w) (wd_time w) (wd_rearms w + 1) (wd_seat w)]> (roundWatchdogs s)) s
      else
        let s := disarmRoundWatchdog round s in
        let s := put_gauges (Counters (g_timeouts (gauges s)) (g_abandoned (gauges s) + 1) (Some round)) s in
        storeSkippedRound h now round (wd_height w) (wd_time w) s
  end.

(** ** The clamp reference, around its read *)

(** Before the read: whether one is made. *)
Definition refresh_start (round : Z) (c : reference) : bool * reference :=
  if bool_decide (refreshRound c = Some round) then (false, c)
  else
    let c := with_refreshRound round c in
    let earlier pair := match lastRounds c !! pair with Some r => r <? round | None => true end in
    let dropped := negb (bool_decide (map_Forall (λ pair _, earlier pair = true) (lastRounds c))) in
    let c := with_prices (filter (λ kv, earlier kv.1 = true) (lastPrices c)) (filter (λ kv, earlier kv.1 = true) (lastRounds c)) c in
    let upToDate := match maxCachedFinalizedRound c with Some m => round - 1 <=? m | None => false end in
    (dropped || negb upToDate, c).

Definition refresh_finish (b : option band) (round : Z) (read : bool) (answer : option (list snapshotrow)) (c : reference) : reference :=
  if read then
    let c := seedLastFinalizedPrices b answer c in
    match maxCachedFinalizedRound c with
    | Some m => if round - 1 <=? m then c else with_stale (staleClampReference c + 1) c
    | None => with_stale (staleClampReference c + 1) c
    end
  else c.

(** ** Storing a round *)

(** [resolveCapabilityValidators] on what the snapshot service answered. *)
Definition capability_row (weighted : bool) (v : crow) : crow :=
  let v0 := Some (default "0"%string (if weighted then c_weight v else c_amount v)) in
  CRow (c_pubkey v) (Some (if weighted then default EmptyString (c_source v) else EmptyString)) v0 v0.

(** [persistCapabilitySnapshot]: nothing for a truncated or an empty set. *)
Definition persistCapabilitySnapshot (h : env) (block : Z) (answer : option (list crow * bool)) (s : state) : state :=
  match answer with
  | None | Some ([], _) | Some (_, true) => s
  | Some (vs, false) =>
      emit (MirrorCapability block (capability_row (isStakeWeightedQuorumActive (Some block) (networkName h)) <$> vs)) s
  end.

Definition announcement_of (round : Z) (p : pending) (subs : list (string * submission)) : announcement :=
  Announcement round (o_height p) (o_time p) (o_prices p) (o_admit p) (o_prepares p) (sortedSignatures p) subs
    (Counted (o_quorum p) (o_weighted p) (o_validators p) (o_members p) (o_commits p)).

Definition announceCommittedRound (h : env) (round : Z) (pid : nat) (s : state) : state :=
  let s := markFinalized h round s in
  let s := put_pendingRounds (delete round (pendingRounds s)) s in
  let s := clearRoundTracking round s in
  match heap s !! pid with
  | Some p => emit (RoundFinalized (announcement_of round p (default [] (getSubmissions round s)))) s
  | None => s
  end.

(** The end of [finalizeSoloRound]. *)
Definition announceSoloRound (h : env) (j : job) (c : closing) (subs : subview) (s : state) : state :=
  let s := markFinalized h (cl_round c) s in
  emit (RoundFinalized (Announcement (cl_round c) (cl_height c) (cl_time c) (j_prices j) (j_admit j)
    match selfPubkey h with Some pk => [pk] | None => [] end (j_proof j) (view_subs subs s) Solo)) s.

(** [storeSnapshot] returned. *)
Definition stored (h : env) (j : job) (c : caller) (s : state) : state :=
  match c with
  | SoloCaller cl subs => announceSoloRound h j cl subs s
  | CommitCaller pid _ => announceCommittedRound h (j_round j) pid s
  end.

Definition storeSnapshot (h : env) (j : job) (c : caller) (s : state) : state :=
  match j_prices j with [] => stored h j c s | _ => suspend (KStore AtCapability j c) s end.

Definition retry_delay (ms : Z) : Z := Z.min (if ms * 2 =? 0 then FINALIZE_RETRY_BASE_MS else ms * 2) FINALIZE_RETRY_MAX_MS.

Definition armFinalizeRetry (pid : nat) (s : state) : state :=
  modify pid (λ p, set_o_timer Retry (set_o_retryMs (retry_delay (o_retryMs p)) p)) s.

(** An attempt of [finalizeCommittedRound] failed; the solo path rejects. *)
Definition storeFailed (j : job) (c : caller) (s : state) : state :=
  match c with
  | SoloCaller _ _ => s
  | CommitCaller pid attempt =>
      if (attempt <? MAX_STORE_ATTEMPTS)%nat then suspend (KBackoff pid j attempt) s
      else match live (j_round j) s with
           | None => s
           | Some (pid', _) => armFinalizeRetry pid' (modify pid' (set_o_finalized false) s)
           end
  end.

(** After the backoff. *)
Definition resumeBackoff (h : env) (pid : nat) (j : job) (attempt : nat) (s : state) : state :=
  if is_pending (j_round j) s then storeSnapshot h j (CommitCaller pid (S attempt)) s else s.

Definition missing_pairs (h : env) (j : job) : list string :=
  filter (λ pair, Some pair ∉ (w_coinPair <$> j_prices j)) (markerPairs h (j_round j)).

Definition resumeStore (h : env) (now : Z) (at_ : stage) (j : job) (c : caller) (answer : option (list crow * bool)) (ok : bool)
    (s : state) : state :=
  match at_ with
  | AtCapability =>
      if ok then suspend (KStore AtRows j c) (emit (WriteRound j) (persistCapabilitySnapshot h (j_height j) answer s))
      else storeFailed j c s
  | AtRows =>
      if ok then
        let s := match missing_pairs h j with
                 | [] => s
                 | pairs => emit (WriteSkipped (j_round j) pairs (j_height j) (j_time j)) s
                 end in
        suspend (KStore AtMarkers j c) s
      else storeFailed j c s
  | AtMarkers =>
      let s := put_cache (finishStoredRound (band_at h now) (j_round j) (for_cache <$> j_prices j) (cache s)) s in
      suspend (KStore AtBroadcast j c) s
  | AtBroadcast => stored h j c (broadcastStoredRound h (j_round j) ok s)
  end.

(** ** Commit *)

Definition commit_job (now : Z) (p : pending) : job :=
  Job (o_round p) (o_prices p) (countDistinctMembers p (o_prepares p)) (sortedSignatures p)
    (or_round (o_height p) (o_round p)) (or_now now (o_time p)) (o_admit p).

Definition finalizeCommittedRound (h : env) (now round : Z) (s : state) : state :=
  match live round s with
  | None => s
  | Some (pid, p) => storeSnapshot h (commit_job now p) (CommitCaller pid 1) s
  end.

Definition checkCommitQuorum (h : env) (now round : Z) (s : state) : state :=
  match live round s with
  | None => s
  | Some (pid, p) =>
      if o_finalized p then s
      else if quorumMet h p (o_commits p)
      then finalizeCommittedRound h now round (modify pid (λ p, set_o_timer NoTimer (set_o_finalized true p)) s)
      else s
  end.

Definition own_signature (h : env) (p : pending) : option (string * string) :=
  signPriceV0 h (o_round p) (o_time p) (o_prices p) (o_height p) (o_admit p).

Definition checkPrepareQuorum (h : env) (now round : Z) (s : state) : state :=
  match live round s with
  | None => s
  | Some (pid, p) =>
      if o_finalized p then s
      else if quorumMet h p (o_prepares p) && negb (o_commitSent p)
      then
        let mySig := own_signature h p in
        let s := modify pid (λ p, store_own mySig (set_o_commits (addSelf h (o_commits p)) (set_o_commitSent true p))) s in
        let s := emit (SendCommit round (o_digest p) mySig) s in
        checkCommitQuorum h now round s
      else s
  end.

(** The retry timer of a round whose store kept failing. *)
Definition onFinalizeRetry (h : env) (now : Z) (pid : nat) (s : state) : state :=
  match heap s !! pid with
  | None => s
  | Some p0 =>
      let round := o_round p0 in
      let s := modify pid (set_o_timer NoTimer) s in
      match live round s with
      | None => s
      | Some (pid', p) =>
          if o_finalized p || is_finalized round s then s
          else finalizeCommittedRound h now round (modify pid' (set_o_finalized true) s)
      end
  end.

Definition count_timeout (s : state) : state :=
  put_gauges (Counters (g_timeouts (gauges s) + 1) (g_abandoned (gauges s)) (g_lastAbandoned (gauges s))) s.

(** The leader seat's finalization timer. *)
Definition onLeaderTimeout (pid : nat) (s : state) : state :=
  match heap s !! pid with
  | None => s
  | Some p =>
      let s := modify pid (set_o_timer NoTimer) s in
      if o_finalized p then s else put_pendingRounds (delete (o_round p) (pendingRounds s)) (count_timeout s)
  end.

(** The follower seat's. *)
Definition onFollowerTimeout (pid : nat) (s : state) : state :=
  match heap s !! pid with
  | None => s
  | Some p0 =>
      let round := o_round p0 in
      let s := modify pid (set_o_timer NoTimer) s in
      let s := match live round s with
               | Some (_, p) => if o_finalized p then s else count_timeout s
               | None => s
               end in
      put_pendingRounds (delete round (pendingRounds s)) s
  end.

(** A round timer fires. *)
Definition onTimer (h : env) (now : Z) (pid : nat) (s : state) : option state :=
  p ← heap s !! pid;
  match o_timer p with
  | NoTimer => None
  | LeaderTimeout => Some (onLeaderTimeout pid s)
  | FollowerTimeout => Some (onFollowerTimeout pid s)
  | Retry => Some (onFinalizeRetry h now pid s)
  end.

(** ** The early-arrival buffer and the votes *)

Definition drop_early (round : Z) (s : state) : state :=
  put_earlyMessageTtl (m_delete round (earlyMessageTtl s)) (put_earlyMessages (m_delete round (earlyMessages s)) s).

Definition pruneEarlyMessages (now : Z) (s : state) : state :=
  fold_left (λ s kv, if kv.2 <=? now then drop_early kv.1 s else s) (earlyMessageTtl s) s.

Fixpoint evict_oldest (n : nat) (s : state) : state :=
  match n with
  | O => s
  | S n => match earlyMessages s with (oldest, _) :: _ => evict_oldest n (drop_early oldest s) | [] => s end
  end.

(** The eviction loop, for a maximum of at least one. *)
Definition make_room (h : env) (s : state) : state := evict_oldest (S (length (earlyMessages s)) - earlyMessageMaxRounds h) s.

Definition bufferEarlyMessage (h : env) (now round : Z) (v : vote) (s : state) : state :=
  let s := pruneEarlyMessages now s in
  let '(arr, s) := match m_get round (earlyMessages s) with
                   | Some arr => (arr, s)
                   | None => let s := make_room h s in ([], put_earlyMessages (m_set round [] (earlyMessages s)) s)
                   end in
  if (earlyMessageMaxPerRound <=? length arr)%nat then s
  else put_earlyMessageTtl (m_set round (now + earlyMessageTtlMs) (earlyMessageTtl s))
         (put_earlyMessages (m_set round (arr ++ [v]) (earlyMessages s)) s).

(** The round of a well-formed vote of an admissible signer. *)
Definition vote_round (h : env) (v : vote) : option Z :=
  round ← vt_round v;
  if (round <? 0) || String.eqb (vt_digest v) "" || negb (isKnownSender h (vt_envelope v)) then None else Some round.

Definition handlePrepare (h : env) (now : Z) (v : vote) (s : state) : state :=
  match vote_round h v with
  | None => s
  | Some round =>
      match live round s with
      | None => if is_finalized round s then s else bufferEarlyMessage h now round v s
      | Some (pid, p) =>
          if negb (String.eqb (o_digest p) (vt_digest v)) then s
          else checkPrepareQuorum h now round
                 (modify pid (λ p, verifyAndStoreSig h (vt_sig_pubkey v) (vt_sig v)
                                     (set_o_prepares (addVote (vt_envelope v) (o_prepares p)) p)) s)
      end
  end.

Definition handleCommit (h : env) (now : Z) (v : vote) (s : state) : state :=
  match vote_round h v with
  | None => s
  | Some round =>
      match live round s with
      | None => if is_finalized round s then s else bufferEarlyMessage h now round v s
      | Some (pid, p) =>
          if negb (String.eqb (o_digest p) (vt_digest v)) then s
          else checkCommitQuorum h now round
                 (modify pid (λ p, verifyAndStoreSig h (vt_sig_pubkey v) (vt_sig v)
                                     (set_o_commits (addVote (vt_envelope v) (o_commits p)) p)) s)
      end
  end.

Definition handleVote (h : env) (now : Z) (v : vote) (s : state) : state :=
  match vt_phase v with PreparePhase => handlePrepare h now v s | CommitPhase => handleCommit h now v s end.

Definition drainEarlyMessages (h : env) (now round : Z) (s : state) : state :=
  match m_get round (earlyMessages s) with
  | None => s
  | Some arr => fold_left (λ s v, handleVote h now v s) arr (drop_early round s)
  end.

(** ** Proposing *)

Definition leader_round (h : env) (s : state) (st : seat) (l : list wprice) (adm : option (gmap string Z)) : pending :=
  let round := st_round st in
  let mySig := signPriceV0 h round (st_time st) l (st_height st) adm in
  Pending round l (OracleAggregate.digest (sha256Hex h) round (for_digest <$> l)) (st_height st) (st_time st) adm (addSelf h []) []
    match mySig with Some (pk, sg) => [(pk, sg)] | None => [] end false NoTimer
    (if 0 <=? st_quorum st then st_quorum st else getQuorum h (validatorSet s)) (st_weighted st)
    (normalizeValidators (st_snapshot st) (st_weighted st)) (st_members st) false 0.

(** [openLeaderRound], the timeout, and the broadcast. *)
Definition open_and_propose (h : env) (now : Z) (st : seat) (l : list wprice) (adm : option (gmap string Z)) (s : state) : state :=
  let round := st_round st in
  let p := leader_round h s st l adm in
  let pid := next s in
  let s := new_round p s in
  let s := put_pendingRounds (<[round := pid]> (pendingRounds s)) s in
  let s := drainEarlyMessages h now round s in
  let s := modify pid (set_o_timer LeaderTimeout) s in
  let s := emit (SendPropose round l (o_digest p) (st_height st) (st_time st) (sort_strings (view_subs (st_subs st) s).*1)
                   (own_signature h p) adm) s in
  checkPrepareQuorum h now round s.

Definition admission_era (h : env) (height : Z) : bool := isAdmissionEra (producer h) (Some (networkName h)) (Some (JInt height)).

Definition proposeRound (h : env) (now : Z) (st : seat) (s : state) : state :=
  match aggregateAll (lasts s) (view_subs (st_subs st) s) with
  | [] => storeSkippedRound h now (st_round st) (st_height st) (st_time st) s
  | l => if admission_era h (st_height st) then suspend (KLeadAdmit st (aggregated l)) s
         else open_and_propose h now st (aggregated l) None s
  end.

(** After the leader's own admission tips; [None]: no fresh tip. *)
Definition resumeLead (h : env) (now : Z) (st : seat) (l : list wprice) (adm : option (gmap string Z)) (s : state) : state :=
  match adm with
  | None => s
  | Some _ => if is_finalized (st_round st) s || is_pending (st_round st) s then s else open_and_propose h now st l adm s
  end.

(** ** Seats *)

Definition arm_leader_timer (t : ltimer) (s : state) : state :=
  bump (put_timers (<[next s := t]> (timers s)) (put_leaderTimers (<[st_round (lt_seat t) := next s]> (leaderTimers s)) s)).

Definition takeSeat (h : env) (now : Z) (st : seat) (s : state) : state :=
  let round := st_round st in
  let me := validatorAddr (hub h) in
  let leader := getLeader h (validatorSet s) round (st_members st) in
  if isLeaderIdentity leader me (resolveSenderPubkey h me)
  then proposeRound h now st (noteRoundSeat round SeatLeader s)
  else
    let s := markRoundReady h now round s in
    let subs := view_subs (st_subs st) s in
    match leaderSubmissionAddr h subs leader with
    | Some a =>
        if bool_decide (fallbackOf h subs (Some a) = Some me)
        then arm_leader_timer (LTimer st leader) (noteRoundSeat round SeatElectedFallback s)
        else noteRoundSeat round SeatFollower s
    | None =>
        if bool_decide (lowest subs.*1 = Some me)
        then arm_leader_timer (LTimer st None) (noteRoundSeat round SeatInGrace s)
        else noteRoundSeat round SeatOtherFallback s
    end.

Definition onLeaderTimer (h : env) (now : Z) (t : nat) (s : state) : option state :=
  lt ← timers s !! t;
  let st := lt_seat lt in
  let round := st_round st in
  let s := put_leaderTimers (delete round (leaderTimers s)) (put_timers (delete t (timers s)) s) in
  Some
    (if is_pending round s || is_finalized round s then s
     else
       let found := (λ l, filterSubmissionsToSnapshot h l (st_members st)) <$> getSubmissions round s in
       match found with
       | None | Some [] => noteRoundSeat round SeatWithoutSubmissions s
       | Some subs =>
           let mine := match lt_leader lt with
                       | Some _ => bool_decide (fallbackOf h subs (leaderSubmissionAddr h subs (lt_leader lt)) = Some (validatorAddr (hub h)))
                       | None => true
                       end in
           if mine
           then let view := match st_members st with Some _ => Copy subs | None => Live (sub_key round s) end in
                proposeRound h now (Seat round view (st_height st) (st_time st) (st_snapshot st) (st_quorum st) (st_weighted st) (st_members st))
                  (noteRoundSeat round SeatFallback s)
           else noteRoundSeat round SeatOtherFallback s
       end).

(** ** Closing a round *)

Definition solo_store (h : env) (now : Z) (c : closing) (subs : subview) (l : list wprice) (adm : option (gmap string Z)) (s : state) : state :=
  let proof := match signPriceV0 h (cl_round c) (cl_time c) l (cl_height c) adm with Some sg => [sg] | None => [] end in
  storeSnapshot h (Job (cl_round c) l 1 proof (or_round (cl_height c) (cl_round c)) (or_now now (cl_time c)) adm) (SoloCaller c subs) s.

Definition finalizeSoloRound (h : env) (now : Z) (c : closing) (subs : subview) (s : state) : state :=
  match aggregateAll (lasts s) (view_subs subs s) with
  | [] => storeSkippedRound h now (cl_round c) (cl_height c) (cl_time c) s
  | l => if admission_era h (cl_height c) then suspend (KSoloAdmit c subs (aggregated l)) s
         else solo_store h now c subs (aggregated l) None s
  end.

Definition resumeSolo (h : env) (now : Z) (c : closing) (subs : subview) (l : list wprice) (adm : option (gmap string Z)) (s : state) : state :=
  match adm with None => s | Some _ => solo_store h now c subs l adm s end.

Definition too_few (h : env) (subs : list (string * submission)) : bool :=
  bool_decide (subs = []) || (Z.of_nat (length subs) <? minSubmissions h).

(** The quorum, then the solo bypass or the seat split. *)
Definition seat_split (h : env) (now : Z) (c : closing) (sn : option snapshot) (weighted : bool) (subs : subview) (s : state) : state :=
  let quorum := match sn with Some sn => snapshotQuorum sn | None => getQuorum h (validatorSet s) end in
  if quorum =? 0 then finalizeSoloRound h now c subs s
  else takeSeat h now (Seat (cl_round c) subs (cl_height c) (cl_time c) sn quorum weighted (memberPubkeySet sn))
         (armRoundWatchdog (cl_round c) (cl_height c) (cl_time c) s).

Definition snapshotSkip (h : env) (s : state) (height : Z) (sn : option snapshot) : bool :=
  negb (hasDeterministicSnapshot sn) && roundIsFederated h (validatorSet s) (Some height) ||
  isEmptyFederationSnapshot h (validatorSet s) sn (Some height).

(** [finalizeOnSnapshot] once the mode is settled. *)
Definition onSettledSnapshot (h : env) (now : Z) (c : closing) (weighted : bool) (sn : option snapshot) (s : state) : state :=
  let skip := storeSkippedRound h now (cl_round c) (cl_height c) (cl_time c) s in
  if snapshotSkip h s (cl_height c) sn then skip
  else
    let members := memberPubkeySet sn in
    let subs := match members with
                | None => Live (cl_key c)
                | Some _ => Copy (filterSubmissionsToSnapshot h (view_subs (Live (cl_key c)) s) members)
                end in
    if too_few h (view_subs subs s) then skip
    else if isClampReferenceAlignActive (Some (JInt (cl_height c))) (networkName h)
    then let '(read, ref) := refresh_start (cl_round c) (cache s) in
         suspend (KRefresh c sn weighted subs read) (put_cache ref s)
    else seat_split h now c sn weighted subs s.

Definition no_validators (sn : option snapshot) : bool :=
  match sn with Some sn => bool_decide (sn_validators sn = []) | None => true end.

Definition finalizeOnSnapshot (h : env) (now : Z) (c : closing) (weighted : bool) (sn : option snapshot) (s : state) : state :=
  if weighted && no_validators sn then
    if roundIsFederated h (validatorSet s) (Some (cl_height c))
    then storeSkippedRound h now (cl_round c) (cl_height c) (cl_time c) s
    else if hasCapabilitySnapshot (hub h) then suspend (KCount c) s else onSettledSnapshot h now c false None s
  else onSettledSnapshot h now c weighted sn s.

Definition closing_time (h : env) (now round height : Z) (time : option Z) : json :=
  match time with
  | Some t => if t =? 0 then if roundTimeGateActive h height
                             then match nominalRoundSeconds h round with Some n => JInt n | None => JNull end
                             else JInt (now / 1000)
              else JInt t
  | None => if roundTimeGateActive h height
            then match nominalRoundSeconds h round with Some n => JInt n | None => JNull end
            else JInt (now / 1000)
  end.

Definition finalizeRound (h : env) (now round : Z) (height time : option Z) (s : state) : state :=
  if is_finalized round s then s
  else
    let height := or_round (default 0 height) round in
    let time := closing_time h now round height time in
    match getSubmissions round s with
    | None => storeSkippedRound h now round height time s
    | Some subs =>
        if too_few h subs then storeSkippedRound h now round height time s
        else
          let c := Closing round (sub_key round s) height time in
          let weighted := isStakeWeightedQuorumActive (Some height) (networkName h) in
          if hasCapabilitySnapshot (hub h) then suspend (KSnapshot c weighted) s
          else finalizeOnSnapshot h now c weighted None s
    end.

(** ** Judging a PROPOSE *)

(** [btcBlockHeight] when it is a positive integer. *)
Definition wire_height (p : proposal) : option Z :=
  match p_btcBlockHeight p with
  | Some (JNum m e) => z ← num_int m e; if 0 <? z then Some z else None
  | _ => None
  end.

(** The round and the prices of a proposal that passes the cheap checks. *)
Definition proposalAdmissible (h : env) (e : envelope) (p : proposal) (s : state) : option (Z * list wprice) :=
  round ← p_round p; prices ← p_prices p;
  if (round <? 0) || String.eqb (p_digest p) "" || is_finalized round s || negb (isKnownSender h e)
     || negb (String.eqb (OracleAggregate.digest (sha256Hex h) round (for_digest <$> prices)) (p_digest p))
  then None else Some (round, prices).

Definition electedFallback (h : env) (now round : Z) (sender : string) (subs : list (string * submission)) (l : option leader) (s : state) : bool :=
  match leaderSubmissionAddr h subs l with
  | None => bool_decide (lowest subs.*1 = Some sender)
  | Some a =>
      match roundReadyAt s !! round with
      | Some readyAt => negb (readyAt =? 0) && (leaderTimeout h <=? now - readyAt) && bool_decide (fallbackOf h subs (Some a) = Some sender)
      | None => false
      end
  end.

Definition follower_round (h : env) (now : Z) (round : Z) (prices : list wprice) (p : proposal) (l : locked) (quorum : Z)
    (adm : option (gmap string Z)) : pending :=
  let time := default JNull (p_btcBlockTime p) in
  let time := if json_truthy time then time
              else if l_roundTime l then match nominalRoundSeconds h round with Some n => JInt n | None => JNull end
              else JInt (now / 1000) in
  Pending round prices (p_digest p) (l_height l) time adm [] [] [] false FollowerTimeout quorum (l_weighted l)
    (normalizeValidators (l_snapshot l) (l_weighted l)) (l_members l) false 0.

Definition openFollowerRound (h : env) (now round : Z) (prices : list wprice) (p : proposal) (l : locked) (adm : option (gmap string Z))
    (s : state) : state :=
  match l_quorum l with
  | Some quorum =>
      if is_pending round s then s
      else
        let pd := follower_round h now round prices p l quorum adm in
        let pid := next s in
        let s := new_round pd s in
        let s := put_pendingRounds (<[round := pid]> (pendingRounds s)) s in
        let s := armRoundWatchdog round (o_height pd) (o_time pd) s in
        drainEarlyMessages h now round s
  | None => s
  end.

Definition prepareOnPropose (h : env) (now round : Z) (e : envelope) (prices : list wprice) (p : proposal) (adm : option (gmap string Z))
    (s : state) : state :=
  match live round s with
  | None => s
  | Some (pid, pd) =>
      if negb (String.eqb (o_digest pd) (p_digest p)) then s
      else if negb (bool_decide (spellAdmit (o_admit pd) = spellAdmit adm)) then s
      else
        let mySig := signPriceV0 h round (o_time pd) prices (o_height pd) (o_admit pd) in
        let s := modify pid (λ pd, store_own mySig (verifyAndStoreSig h (p_sig_pubkey p) (p_sig p)
                                     (set_o_prepares (addSelf h (addVote e (o_prepares pd))) pd))) s in
        let s := emit (SendPrepare round (p_digest p) mySig) s in
        checkPrepareQuorum h now round s
  end.

(** A PROPOSE whose map is bound: a repeat is ignored, another is co-signed. *)
Definition coSign (h : env) (now round : Z) (e : envelope) (prices : list wprice) (p : proposal) (l : locked) (adm : option (gmap string Z))
    (s : state) : state :=
  let repeat := match live round s with
                | Some (_, pd) => String.eqb (o_digest pd) (p_digest p) && bool_decide (spellAdmit (o_admit pd) = spellAdmit adm)
                | None => false
                end in
  if repeat then s
  else prepareOnPropose h now round e prices p adm (openFollowerRound h now round prices p l adm s).

Definition bindAndCoSign (h : env) (now round : Z) (e : envelope) (prices : list wprice) (p : proposal) (l : locked) (s : state) : state :=
  match admission_era h (l_height l), p_admitBlocks p with
  | false, None => coSign h now round e prices p l None s
  | true, Some map => match normalizedAdmit map with Some m => suspend (KBind e p l m) s | None => s end
  | _, _ => s
  end.

Definition judgeProposer (h : env) (now round : Z) (e : envelope) (prices : list wprice) (p : proposal) (l : locked) (s : state) : state :=
  let leader := getLeader h (validatorSet s) round (l_members l) in
  let subs := filterSubmissionsToSnapshot h (default [] (getSubmissions round s)) (l_members l) in
  let proposerPk := match provenPubkey e with Some pk => Some pk | None => resolveSenderPubkey h (sender e) end in
  if negb (isLeaderIdentity leader (sender e) proposerPk || electedFallback h now round (sender e) subs leader s) then s
  else match coSignGateRejects (resolveSenderPubkey h) (lasts s) (allowUnverifiedPairs h) (canonicalPairs h) (sender e)
               (for_gate <$> prices) subs with
       | Some _ => s
       | None => bindAndCoSign h now round e prices p l s
       end.

(** A step of [handlePropose] past an await: the proposal's round and prices. *)
Definition with_proposal (p : proposal) (k : Z → list wprice → state → state) (s : state) : state :=
  match p_round p, p_prices p with Some round, Some prices => k round prices s | _, _ => s end.

Definition anchor_of (p : proposal) (height : Z) : option Z := match wire_height p with Some _ => Some height | None => None end.

(** [proposeSnapshotQuorum], and the judgement. *)
Definition onFollowerSnapshot (h : env) (now : Z) (e : envelope) (p : proposal) (height : Z) (roundTime weighted : bool) (sn : option snapshot)
    (s : state) : state :=
  if negb (hasDeterministicSnapshot sn) && roundIsFederated h (validatorSet s) (anchor_of p height) then s
  else
    let quorum := match sn with Some sn => snapshotQuorum sn | None => getQuorum h (validatorSet s) end in
    if isEmptyFederationSnapshot h (validatorSet s) sn (anchor_of p height) then s
    else with_proposal p (λ round prices, judgeProposer h now round e prices p
                                            (Locked height weighted sn (Some quorum) (memberPubkeySet sn) roundTime)) s.

(** [weightedProposeVerdict]. *)
Definition onWeightedSnapshot (h : env) (now : Z) (e : envelope) (p : proposal) (height : Z) (roundTime weighted : bool) (sn : option snapshot)
    (s : state) : state :=
  if weighted && no_validators sn then
    if roundIsFederated h (validatorSet s) (anchor_of p height) then s
    else if hasCapabilitySnapshot (hub h) then suspend (KFollowCount e p height roundTime) s
    else onFollowerSnapshot h now e p height roundTime false None s
  else onFollowerSnapshot h now e p height roundTime weighted sn s.

Definition lockProposeSnapshot (h : env) (now : Z) (e : envelope) (p : proposal) (height : Z) (roundTime : bool) (s : state) : state :=
  with_proposal p (λ round prices s,
    match live round s with
    | Some (_, pd) => judgeProposer h now round e prices p (Locked height false None None (o_members pd) roundTime) s
    | None =>
        let weighted := isStakeWeightedQuorumActive (Some height) (networkName h) in
        if hasCapabilitySnapshot (hub h) then suspend (KFollowSnapshot e p height roundTime weighted) s
        else onWeightedSnapshot h now e p height roundTime weighted None s
    end) s.

(** [handlePropose] once the height is bounded. *)
Definition onBoundedHeight (h : env) (now : Z) (e : envelope) (p : proposal) (height : Z) (s : state) : state :=
  with_proposal p (λ round _ s,
    let roundTime := roundTimeGateActive h height in
    let timed := match p_btcBlockTime p with None | Some JNull => None | Some t => Some t end in
    if roundTime && match timed with Some t => negb (roundTimeMatches h t round) | None => false end then s
    else if isClampReferenceAlignActive (p_btcBlockHeight p) (networkName h)
    then let '(read, ref) := refresh_start round (cache s) in
         suspend (KFollowRefresh e p height roundTime read) (put_cache ref s)
    else lockProposeSnapshot h now e p height roundTime s) s.

(** The freshness bound; a tip of null is the number 0. *)
Definition within_tolerance (h : env) (tip : option json) (height : Z) : bool :=
  match json_Number (Some (default JNull tip)) with
  | Some (m, ex) => Qle_bool (Qabs (num_Q m ex - inject_Z height)) (inject_Z (snapshotToleranceBlocks (hub h)))
  | None => false
  end.

Definition handlePropose (h : env) (now : Z) (e : envelope) (p : proposal) (s : state) : state :=
  match proposalAdmissible h e p s with
  | None => s
  | Some (round, _) =>
      if 0 <? getQuorum h (validatorSet s)
      then match wire_height p with Some _ => suspend (KTip e p true) s | None => s end
      else if isFederatedHubArmed (networkName h) && liveFederation h (validatorSet s) then suspend (KTip e p false) s
      else onBoundedHeight h now e p (default round (wire_height p)) s
  end.

(** A tip the federation test can read: not null, not the empty text, a number. *)
Definition known_tip (tip : option json) : option json :=
  match tip with
  | None | Some JNull | Some (JStr EmptyString) => None
  | Some v => '(m, e) ← json_Number (Some v); Some (JNum m e)
  end.

(** [boundedProposeHeight] once the own tip answered; [None]: it threw. *)
Definition resumeTip (h : env) (now : Z) (e : envelope) (p : proposal) (certain : bool) (answer : option (option json)) (s : state) : state :=
  let bounded tip := match wire_height p with
                     | Some height => if within_tolerance h tip height then onBoundedHeight h now e p height s else s
                     | None => s
                     end in
  if certain then match answer with Some tip => bounded tip | None => s end
  else match (tip ← answer; known_tip tip) with
       | None => s
       | Some tip => if isFederatedHubActive (networkName h) (js_parseInt tip) then bounded (Some tip)
                     else with_proposal p (λ round _, onBoundedHeight h now e p (default round (wire_height p))) s
       end.

(** [checkProposedAdmit] once the own tips answered; [None]: the read threw. *)
Definition resumeBind (h : env) (now : Z) (e : envelope) (p : proposal) (l : locked) (map : gmap string Z)
    (tips : option (string → option json)) (s : state) : state :=
  match tips with
  | None => s
  | Some tips => match checkAdmitBlocks ADMIT_COLUMN_CHAINS (Some (json_heights map)) tips with
                 | Some _ => s
                 | None => with_proposal p (λ round prices, coSign h now round e prices p l (Some map)) s
                 end
  end.

Definition handleMessage (h : env) (now : Z) (m : message) (s : state) : state :=
  match m with Propose e p => handlePropose h now e p s | Voted v => handleVote h now v s end.

(** ** Stopping *)

(** Every timer of a live round and every grace timer cleared; the rounds with an
    armed watchdog recorded as skipped. *)
Definition stop (h : env) (now : Z) (s : state) : state :=
  let s := put_heap (map_imap (λ pid p, Some (if bool_decide (pendingRounds s !! o_round p = Some pid) then set_o_timer NoTimer p else p)) (heap s)) s in
  let s := put_timers (filter (λ kv, negb (bool_decide (leaderTimers s !! st_round (lt_seat kv.2) = Some kv.1)) = true) (timers s)) s in
  let s := put_leaderTimers ∅ s in
  let inFlight := filter (λ kv, kv.1 ∉ finalized s ∧ kv.1 ∉ locallySkipped s) (map_to_list (roundWatchdogs s)) in
  let s := put_roundWatchdogs ∅ s in
  fold_left (λ s kv, storeSkippedRound h now kv.1 (wd_height kv.2) (wd_time kv.2) s) inFlight s.

(** Once those writes settled. *)
Definition stopped (s : state) : state :=
  put_earlyMessageTtl [] (put_earlyMessages [] (put_roundReadyAt ∅ (put_pendingRounds ∅ s))).

(** ** Runs *)

Inductive event :=
| EvValidators (vs : list validator)
| EvRoundStart (round : Z)                                   (** [OracleRound.currentRound] *)
| EvSubmission (round : Z) (sender : string) (sub : submission)
| EvFinalize (round : Z) (height time : option Z)            (** [finalizeRound] is called *)
| EvMessage (m : message)
| EvSnapshot (k : nat) (answer : option (option snapshot))   (** a snapshot read; [None]: it threw *)
| EvPrices (k : nat) (answer : option (list snapshotrow))    (** a clamp-reference read *)
| EvTip (k : nat) (answer : option (option json))
| EvAdmission (k : nat) (answer : option (gmap string Z))    (** [resolveAdmitBlocks] *)
| EvOwnTips (k : nat) (answer : option (string → option json))
| EvCapability (k : nat) (answer : option (list crow * bool)) (ok : bool)
| EvDatabase (k : nat) (ok : bool)                           (** a write, or the re-read of a broadcast *)
| EvBackoff (k : nat)
| EvTimer (pid : nat)
| EvLeaderTimer (t : nat)
| EvWatchdog (round : Z)
| EvReseed (answer : option (list snapshotrow))
| EvIngest (r : snapshotrow)
| EvStop
| EvStopped.

Definition taken (k : nat) (s : state) : option (kont * state) :=
  κ ← konts s !! k; Some (κ, put_konts (delete k (konts s)) s).

Definition with_cache (f : reference → reference) (s : state) : state := put_cache (f (cache s)) s.

Definition resume (h : env) (now : Z) (κ : kont) (ev : event) (s : state) : option state :=
  match κ, ev with
  | KSnapshot c weighted, EvSnapshot _ a => Some match a with Some sn => finalizeOnSnapshot h now c weighted sn s | None => s end
  | KCount c, EvSnapshot _ a => Some match a with Some sn => onSettledSnapshot h now c false sn s | None => s end
  | KRefresh c sn weighted subs read, EvPrices _ a =>
      Some (seat_split h now c sn weighted subs (with_cache (refresh_finish (band_at h now) (cl_round c) read a) s))
  | KSoloAdmit c subs l, EvAdmission _ a => Some (resumeSolo h now c subs l a s)
  | KLeadAdmit st l, EvAdmission _ a => Some (resumeLead h now st l a s)
  | KTip e p certain, EvTip _ a => Some (resumeTip h now e p certain a s)
  | KFollowRefresh e p height rt read, EvPrices _ a =>
      Some (lockProposeSnapshot h now e p height rt (with_cache (refresh_finish (band_at h now) (default 0 (p_round p)) read a) s))
  | KFollowSnapshot e p height rt weighted, EvSnapshot _ a =>
      Some match a with Some sn => onWeightedSnapshot h now e p height rt weighted sn s | None => s end
  | KFollowCount e p height rt, EvSnapshot _ a => Some match a with Some sn => onFollowerSnapshot h now e p height rt false sn s | None => s end
  | KBind e p l map, EvOwnTips _ a => Some (resumeBind h now e p l map a s)
  | KStore AtCapability j c, EvCapability _ a ok => Some (resumeStore h now AtCapability j c a ok s)
  | KStore AtCapability _ _, _ => None
  | KStore at_ j c, EvDatabase _ ok => Some (resumeStore h now at_ j c None ok s)
  | KBackoff pid j n, EvBackoff _ => Some (resumeBackoff h pid j n s)
  | KSkip written round block time, EvDatabase _ ok => Some (resumeSkip h written round block time ok s)
  | _, _ => None
  end.

Definition add_submission (round : Z) (sender : string) (sub : submission) (s : state) : state :=
  let subs := default [] (roundSubs s !! round) in
  if existsb (λ x, String.eqb x.1 sender) subs then s
  else put_roundSubs (<[round := subs ++ [(sender, sub)]]> (roundSubs s)) s.

(** One event at time [now]; [None] when it cannot happen. *)
Definition step (h : env) (now : Z) (ev : event) (s : state) : option state :=
  match ev with
  | EvValidators vs => Some (put_validatorSet (canonicalValidatorOrder vs) s)
  | EvRoundStart round => Some (put_currentRound round s)
  | EvSubmission round sender sub => Some (add_submission round sender sub s)
  | EvFinalize round height time => Some (finalizeRound h now round height time s)
  | EvMessage m => Some (handleMessage h now m s)
  | EvSnapshot k _ | EvPrices k _ | EvTip k _ | EvAdmission k _ | EvOwnTips k _ | EvCapability k _ _ | EvDatabase k _ | EvBackoff k =>
      '(κ, s) ← taken k s; resume h now κ ev s
  | EvTimer pid => onTimer h now pid s
  | EvLeaderTimer t => onLeaderTimer h now t s
  | EvWatchdog round => Some (onRoundAbandoned h now round s)
  | EvReseed answer => Some (with_cache (seedLastFinalizedPrices (band_at h now) answer) s)
  | EvIngest r => Some (with_cache (λ c, (noteIngestedPriceRow (band_at h now) r c).1) s)
  | EvStop => Some (stop h now s)
  | EvStopped => Some (stopped s)
  end.

(** The hub's surroundings (peers, registry, signer set, clock) change from event
    to event. *)
Fixpoint run (evs : list (env * Z * event)) (s : state) : option state :=
  match evs with
  | [] => Some s
  | (h, now, ev) :: evs => s ← step h now ev s; run evs s
  end.
End Rounds.
