(* ===== verification/OrInv.v ===== *)
(** * Oracle rounds: what every reachable state satisfies

    The signatures an open round holds verify over the round's own bytes; a
    round that is being stored, or waits to be stored again, was decided by a
    quorum; it has exactly one store attempt or a retry timer, and nothing else
    takes it out of the pending map. *)

From S2P Require Import Prelude Ordered GateRegistry BigNum Quorum Json AttestWire OracleBand OracleAggregate OracleCosign Admission PbftState PbftEngine OrState OrMembers OrRounds.
Open Scope Z_scope.

Section Inv.
Context {B : BigNumber} (h0 : env).
Implicit Types (s : state) (p : pending).

(** What a hub keeps while its peers, registry and clock change: its key, its
    network, the activation map and the signature scheme. *)
Record same_rules (h : env) : Prop := {
  sr_network : networkName h = networkName h0;
  sr_producer : producer h = producer h0;
  sr_verify : edVerify h = edVerify h0;
  sr_identity : identity (hub h) = identity (hub h0);
  sr_sign : sign (hub h) = sign (hub h0) }.

(** ** Signatures and tallies *)

(** A signature over the bytes of a round. *)
Definition signs (round : Z) (time : json) (prices : list wprice) (height : Z) (adm : option (gmap string Z)) (x : string * string) : Prop :=
  ∃ c, buildPriceV0Payload h0 round time prices height adm = Some c ∧ verify h0 c x.2 x.1 = true.

Definition signs_pending p : string * string → Prop := signs (o_round p) (o_time p) (o_prices p) (o_height p) (o_admit p).

(** The voters meet the quorum of a round. *)
Definition tally_ok (quorum : Z) (weighted : bool) (vs : Swq.varray) (members : option (gset string)) (voters : list string) : Prop :=
  if weighted then Swq.meetsStakeThreshold vs voters = true
  else quorum ≤ Z.of_nat (length match members with None => voters | Some ms => filter (λ pk, pk ∈ ms) voters end).

(** Whose signatures, or below the signed-tally height whose COMMITs, count. *)
Definition electorate (weighted : bool) (height : Z) (signers commits : list string) : list string :=
  if weighted || countQuorumSigned h0 height then signers else commits.

Definition decided_by (quorum : Z) (weighted : bool) (vs : Swq.varray) (members : option (gset string)) (height : Z)
    (signers commits : list string) : Prop :=
  ∃ voters, NoDup voters ∧ voters ⊆ electorate weighted height signers commits ∧ tally_ok quorum weighted vs members voters.

Definition decided p : Prop :=
  decided_by (o_quorum p) (o_weighted p) (o_validators p) (o_members p) (o_height p) (o_signatures p).*1 (o_commits p).

Definition waiting p : Prop := o_timer p = FollowerTimeout ∨ o_timer p = Retry.

Record pend_ok p : Prop := {
  po_signed : Forall (signs_pending p) (o_signatures p);
  po_keys : NoDup (o_signatures p).*1;
  po_prepares : NoDup (o_prepares p);
  po_commits : NoDup (o_commits p);
  po_prices : o_prices p ≠ [];
  po_waiting : waiting p → o_finalized p = false;
  po_decided : o_finalized p = true ∨ o_timer p = Retry → decided p }.

(** A timer that still acts on the pending map. *)
Definition armed p : Prop := waiting p ∨ o_timer p = LeaderTimeout ∧ o_finalized p = false.

(** ** Announcements *)

Definition announcement_ok (a : announcement) : Prop :=
  NoDup (a_signatures a).*1 ∧
  Forall (signs (a_round a) (a_time a) (a_prices a) (a_height a) (a_admit a)) (a_signatures a) ∧
  match a_decided a with
  | Solo => True
  | Counted quorum weighted vs members commits => decided_by quorum weighted vs members (a_height a) (a_signatures a).*1 commits
  end.

Definition effect_ok (e : effect) : Prop := match e with RoundFinalized a => announcement_ok a | _ => True end.

Definition announced (round : Z) s : Prop := ∃ a, RoundFinalized a ∈ out s ∧ a_round a = round.

(** A round that was decided: being stored, or waiting to be. *)
Definition in_store p : Prop := o_finalized p = true ∨ o_timer p = Retry.
Definition committed (r : Z) s : Prop := ∃ pid p, live r s = Some (pid, p) ∧ in_store p.

(** ** Suspended handlers *)

(** The store attempts of a committed round. *)
Definition commit_kont (pid : nat) (κ : kont) : Prop :=
  match κ with KStore _ _ (CommitCaller q _) | KBackoff q _ _ => q = pid | _ => False end.

Definition storing s (pid : nat) (j : job) : Prop :=
  j_prices j ≠ [] ∧ ∃ p, heap s !! pid = Some p ∧ o_round p = j_round j ∧ o_finalized p = true ∧ pendingRounds s !! j_round j = Some pid.

Definition solo_ok (c : closing) (j : job) : Prop :=
  j_prices j ≠ [] ∧ NoDup (j_proof j).*1 ∧ Forall (signs (cl_round c) (cl_time c) (j_prices j) (cl_height c) (j_admit j)) (j_proof j).

Definition kont_ok s (κ : kont) : Prop :=
  match κ with
  | KStore _ j (CommitCaller pid _) | KBackoff pid j _ => storing s pid j
  | KStore _ j (SoloCaller c _) => solo_ok c j
  | KLeadAdmit _ l | KSoloAdmit _ _ l => l ≠ []
  | KBind _ p _ _ => p_prices p ≠ Some []
  | _ => True
  end.

(** ** The invariant

    [x] names a round whose store attempt is being resumed. *)

Record inv_but (x : option nat) s : Prop := {
  i_fresh n : (next s ≤ n)%nat → heap s !! n = None ∧ konts s !! n = None;
  i_heap pid p : heap s !! pid = Some p → pend_ok p;
  i_map r pid : pendingRounds s !! r = Some pid → ∃ p, heap s !! pid = Some p ∧ o_round p = r;
  i_timer pid p : heap s !! pid = Some p → armed p → pendingRounds s !! o_round p = Some pid;
  i_konts k κ : konts s !! k = Some κ → kont_ok s κ;
  i_unique k k' κ κ' pid : konts s !! k = Some κ → konts s !! k' = Some κ' → commit_kont pid κ → commit_kont pid κ' → k = k';
  i_excused pid k κ : x = Some pid → konts s !! k = Some κ → ¬ commit_kont pid κ;
  i_work r pid p : pendingRounds s !! r = Some pid → heap s !! pid = Some p → o_finalized p = true → x ≠ Some pid →
    ∃ k κ, konts s !! k = Some κ ∧ commit_kont pid κ;
  i_final r : r ∈ finalized s → announced r s;
  i_out e : e ∈ out s → effect_ok e }.

Definition inv s : Prop := inv_but None s.

(** ** Rounds under votes *)

Definition frame p := (o_round p, o_prices p, o_digest p, o_height p, o_time p, o_admit p, o_quorum p, o_weighted p, o_validators p, o_members p).
Definition control p := (o_finalized p, o_timer p).

(** More votes, the same round. *)
Record grows p p' : Prop := {
  gr_frame : frame p' = frame p;
  gr_control : control p' = control p;
  gr_sigs : (o_signatures p).*1 ⊆ (o_signatures p').*1;
  gr_commits : o_commits p ⊆ o_commits p' }.

Lemma decided_grows p p' : frame p' = frame p → (o_signatures p).*1 ⊆ (o_signatures p').*1 → o_commits p ⊆ o_commits p' → decided p → decided p'.
Proof.
  unfold frame. intros [= H1 H2 H3 H4 H5 H6 H7 H8 H9 H10] Hs Hc (voters & Hnd & Hsub & Ht). exists voters.
  rewrite H4, H7, H8, H9, H10. split_and!; [done| |done]. etrans; [exact Hsub|]. unfold electorate. by destruct (_ || _).
Qed.

Lemma live_iff r s pid p : live r s = Some (pid, p) ↔ pendingRounds s !! r = Some pid ∧ heap s !! pid = Some p.
Proof.
  unfold live. destruct (pendingRounds s !! r) as [q|]; cbn; [|naive_solver]. destruct (heap s !! q) eqn:E; cbn; naive_solver.
Qed.

(** ** Preservation by the primitive changes *)

(** The fields the invariant reads, the finalized ring apart. *)
Definition core s := (pendingRounds s, heap s, next s, konts s, out s).

Lemma or_inv_core x s s' : core s' = core s → finalized s' ⊆ finalized s → inv_but x s → inv_but x s'.
Proof.
  unfold core. intros [= H1 H2 H3 H4 H5] Hf []. split; unfold kont_ok, storing, announced in *; rewrite ?H1, ?H2, ?H3, ?H4, ?H5; try done.
  intros r Hr. destruct (i_final0 r) as (a & ? & ?); [by apply Hf|]. by exists a.
Qed.

Lemma or_inv_emit x e s : effect_ok e → inv_but x s → inv_but x (emit e s).
Proof.
  intros He []. assert (Ha : ∀ r, announced r s → announced r (emit e s)).
  { intros r (a & ? & ?). exists a. split; [by right|done]. }
  split; try done.
  - intros r Hr. by apply Ha, i_final0.
  - cbn. intros e' [->|?]%elem_of_cons; auto.
Qed.

Lemma or_inv_suspend x κ s : kont_ok s κ → (∀ pid, ¬ commit_kont pid κ) → inv_but x s → inv_but x (suspend κ s).
Proof.
  intros Hk Hno []. split; try done; cbn.
  - intros n Hn. split; [apply i_fresh0; lia|]. rewrite lookup_insert_ne by lia. apply i_fresh0. lia.
  - intros k κ'. rewrite lookup_insert. case_decide; [by intros [= <-]|apply i_konts0].
  - intros k k' κ1 κ2 pid. rewrite !lookup_insert. case_decide; case_decide; subst.
    + done.
    + intros [= <-] ? Hc. by destruct (Hno pid).
    + intros ? [= <-] ? Hc. by destruct (Hno pid).
    + apply i_unique0.
  - intros pid k κ' Hx. rewrite lookup_insert. case_decide; [intros [= <-]; apply Hno|by apply i_excused0].
  - intros r pid p Hm Hh Hf Hx. destruct (i_work0 _ _ _ Hm Hh Hf Hx) as (k & κ' & Hk' & Hc). exists k, κ'. split; [|done].
    rewrite lookup_insert_ne; [done|]. intros <-. destruct (i_fresh0 (next s)) as [_ Hn]; [lia|]. congruence.
Qed.

(** The store attempt of a round goes on. *)
Lemma or_inv_suspend_commit pid κ s :
  kont_ok s κ → commit_kont pid κ → inv_but (Some pid) s → inv (suspend κ s).
Proof.
  intros Hk Hc []. split; try done; cbn.
  - intros n Hn. split; [apply i_fresh0; lia|]. rewrite lookup_insert_ne by lia. apply i_fresh0. lia.
  - intros k κ'. rewrite lookup_insert. case_decide; [by intros [= <-]|apply i_konts0].
  - assert (Hone : ∀ q κ', commit_kont q κ → commit_kont q κ' → ∀ k, konts s !! k = Some κ' → False).
    { intros q κ' Hq Hq' k Hl. assert (q = pid) as -> by (destruct κ as [| | | | | | | | | |? ? []| |]; cbn in *; subst; done).
      by eapply (i_excused0 pid k κ'). }
    intros k k' κ1 κ2 q. rewrite !lookup_insert. case_decide; case_decide; subst.
    + done.
    + intros [= <-] ? ? ?. by destruct (Hone q κ2 ltac:(done) ltac:(done) k').
    + intros ? [= <-] ? ?. by destruct (Hone q κ1 ltac:(done) ltac:(done) k).
    + apply i_unique0.
  - intros r q p Hm Hh Hf _. destruct (decide (q = pid)) as [->|Hne].
    + exists (next s), κ. by rewrite lookup_insert_eq.
    + destruct (i_work0 _ _ _ Hm Hh Hf) as (k & κ' & Hk' & Hc'); [congruence|]. exists k, κ'. split; [|done].
      rewrite lookup_insert_ne; [done|]. intros <-. destruct (i_fresh0 (next s)) as [_ Hn]; [lia|]. congruence.
Qed.

Lemma or_inv_modify x pid f s :
  (∀ p, heap s !! pid = Some p → pend_ok p → pend_ok (f p) ∧ o_round (f p) = o_round p ∧ control (f p) = control p) →
  inv_but x s → inv_but x (modify pid f s).
Proof.
  intros Hf []. assert (Hl : ∀ q p', alter f pid (heap s) !! q = Some p' →
    ∃ p, heap s !! q = Some p ∧ pend_ok p' ∧ o_round p' = o_round p ∧ control p' = control p).
  { intros q p'. rewrite lookup_alter. case_decide as Hq; [subst q|].
    - intros (p & Hp & ->)%fmap_Some. exists p. split; [done|]. apply Hf; [done|by eapply i_heap0].
    - intros Hp. exists p'. split_and!; [done|by eapply i_heap0|done|done]. }
  assert (Hr : ∀ q p, heap s !! q = Some p → ∃ p', alter f pid (heap s) !! q = Some p' ∧ o_round p' = o_round p ∧ control p' = control p).
  { intros q p Hp. rewrite lookup_alter. case_decide as Hq; [subst q|by exists p]. rewrite Hp. exists (f p). split; [done|].
    by destruct (Hf p Hp (i_heap0 _ _ Hp)) as (_ & ? & ?). }
  split; try done; cbn.
  - intros n Hn. destruct (i_fresh0 n Hn) as [Hh ?]. split; [|done]. rewrite lookup_alter. case_decide; [|done]. subst. by rewrite Hh.
  - intros q p' (p & ? & ? & ?)%Hl. done.
  - intros r q Hm. destruct (i_map0 _ _ Hm) as (p & Hp & <-). destruct (Hr _ _ Hp) as (p' & ? & ? & _). eauto.
  - intros q p' (p & Hp & _ & Hro & Hc)%Hl Ha. rewrite Hro. apply (i_timer0 q p Hp).
    unfold control in Hc. injection Hc as Hc1 Hc2. unfold armed, waiting in *. by rewrite Hc1, Hc2 in Ha.
  - intros k κ Hk. specialize (i_konts0 k κ Hk). destruct κ as [| | | | | | | | | |? j [|q ?]|q j ?|]; cbn in *; try done.
    + destruct i_konts0 as (? & p & Hp & Hro & Hfi & ?). split; [done|]. destruct (Hr _ _ Hp) as (p' & ? & Hro' & Hc).
      unfold control in Hc. injection Hc as Hc1 _. exists p'. split_and!; [done|congruence|congruence|done].
    + destruct i_konts0 as (? & p & Hp & Hro & Hfi & ?). split; [done|]. destruct (Hr _ _ Hp) as (p' & ? & Hro' & Hc).
      unfold control in Hc. injection Hc as Hc1 _. exists p'. split_and!; [done|congruence|congruence|done].
  - intros r q p' Hm (p & Hp & _ & _ & Hc)%Hl Hfi Hx. unfold control in Hc. injection Hc as Hc1 _.
    apply (i_work0 r q p); [done|done|congruence|done].
Qed.
(** A round's control fields change. *)
Lemma or_inv_set x x' pid f s p :
  heap s !! pid = Some p → inv_but x s → pend_ok (f p) → o_round (f p) = o_round p →
  (armed (f p) → pendingRounds s !! o_round p = Some pid) →
  (∀ k κ, konts s !! k = Some κ → commit_kont pid κ → o_finalized (f p) = true ∧ x' ≠ Some pid) →
  (pendingRounds s !! o_round p = Some pid → o_finalized (f p) = true → x' ≠ Some pid → ∃ k κ, konts s !! k = Some κ ∧ commit_kont pid κ) →
  (∀ q, q ≠ pid → x' = Some q ↔ x = Some q) → inv_but x' (modify pid f s).
Proof.
  intros Hh [] Hok Hro Ha Hk Hw Hx.
  assert (Hl : ∀ q p', alter f pid (heap s) !! q = Some p' → q = pid ∧ p' = f p ∨ q ≠ pid ∧ heap s !! q = Some p').
  { intros q p'. rewrite lookup_alter. case_decide as Hq; [subst q; rewrite Hh; intros [= <-]; by left|by right]. }
  split; try done; cbn.
  - intros n Hn. destruct (i_fresh0 n Hn) as [Hn1 ?]. split; [|done]. rewrite lookup_alter. case_decide; [|done]. subst. by rewrite Hn1.
  - intros q p' [[-> ->]|[Hq Hp]]%Hl; [done|by eapply i_heap0].
  - intros r q Hq. destruct (i_map0 _ _ Hq) as (p' & Hp1 & Hp2). rewrite lookup_alter. case_decide as Hd; [subst q|by eauto].
    exists (f p). rewrite Hh in Hp1 |- *. injection Hp1 as ->. split; [done|congruence].
  - intros q p' [[-> ->]|[Hq Hp]]%Hl Har; [rewrite Hro; by apply Ha|by apply (i_timer0 q)].
  - intros k κ Hkk. pose proof (i_konts0 _ _ Hkk) as Hok'. specialize (Hk k κ Hkk).
    assert (Hst : ∀ q j, (commit_kont q κ → storing s q j) → commit_kont q κ → storing (modify pid f s) q j).
    { intros q j Hs Hc. destruct (Hs Hc) as (? & p' & Hp & Hr & Hf & ?). split; [done|]. cbn. rewrite lookup_alter. case_decide as Hd.
      - subst q. exists (f p). rewrite Hh in Hp |- *. injection Hp as ->. split_and!; [done|congruence|by apply Hk|done].
      - by exists p'. }
    destruct κ as [| | | | | | | | | |? j [|q ?]|q j ?|]; cbn in *; try done; by apply Hst.
  - intros q k κ Hxq Hkk Hc. destruct (decide (q = pid)) as [->|Hq]; [by destruct (Hk _ _ Hkk Hc)|].
    eapply (i_excused0 q); [by apply Hx|done|done].
  - intros r q p' Hm [[-> ->]|[Hq Hp]]%Hl Hf Hx'.
    + apply Hw; [|done|done]. destruct (i_map0 _ _ Hm) as (p' & ? & ?). congruence.
    + apply (i_work0 r q p'); try done. by rewrite <-Hx.
Qed.

(** A round leaves the pending map. *)
Lemma or_inv_drop r s :
  (∀ pid p, pendingRounds s !! r = Some pid → heap s !! pid = Some p → o_finalized p = false ∧ ¬ armed p) →
  inv s → inv (put_pendingRounds (delete r (pendingRounds s)) s).
Proof.
  intros Hd []. split; try done; cbn.
  - intros r' pid [_ ?]%lookup_delete_Some. by apply i_map0.
  - intros pid p Hh Ha. pose proof (i_timer0 _ _ Hh Ha) as Hm. apply lookup_delete_Some. split; [|done].
    intros ->. by destruct (Hd _ _ Hm Hh).
  - intros k κ Hk. specialize (i_konts0 k κ Hk).
    assert (Hst : ∀ q j, storing s q j → storing (put_pendingRounds (delete r (pendingRounds s)) s) q j).
    { intros q j (? & p & Hh & ? & Hf & Hm). split; [done|]. exists p. split_and!; try done. apply lookup_delete_Some. split; [|done].
      intros ->. destruct (Hd _ _ Hm Hh). congruence. }
    destruct κ as [| | | | | | | | | |? j [|q ?]|q j ?|]; cbn in *; try done; by apply Hst.
  - intros r' pid p [_ ?]%lookup_delete_Some. by apply (i_work0 r').
Qed.

(** A new round enters it. *)
Lemma or_inv_open r p s :
  pendingRounds s !! r = None → pend_ok p → o_round p = r → o_finalized p = false → inv s →
  inv (put_pendingRounds (<[r := next s]> (pendingRounds s)) (new_round p s)).
Proof.
  intros Hr Hp Hro Hf []. destruct (i_fresh0 (next s)) as [Hn Hk]; [lia|].
  assert (Hm : ∀ q pid, pendingRounds s !! q = Some pid → pid ≠ next s).
  { intros q pid Hq ->. destruct (i_map0 _ _ Hq) as (? & ? & _). congruence. }
  split; try done; cbn.
  - intros n Hlt. rewrite lookup_insert_ne by lia. apply i_fresh0. lia.
  - intros q p'. rewrite lookup_insert. case_decide; [by intros [= <-]|apply i_heap0].
  - intros r' q. rewrite lookup_insert. case_decide; [intros [= <-]; exists p; by subst; rewrite lookup_insert_eq|].
    intros Hq. rewrite lookup_insert_ne; [by apply i_map0|]. apply not_eq_sym, (Hm _ _ Hq).
  - intros q p'. rewrite lookup_insert. case_decide; [intros [= <-] _; subst; by rewrite lookup_insert_eq|].
    intros Hh Ha. rewrite lookup_insert_ne; [by apply i_timer0|]. intros Heq. specialize (i_timer0 _ _ Hh Ha). congruence.
  - intros k κ Hkk. specialize (i_konts0 k κ Hkk).
    assert (Hst : ∀ q j, storing s q j → storing (put_pendingRounds (<[r := next s]> (pendingRounds s)) (new_round p s)) q j).
    { intros q j (? & p' & Hh & ? & ? & Hmm). split; [done|]. exists p'. cbn. rewrite lookup_insert_ne by (apply not_eq_sym, (Hm _ _ Hmm)).
      split_and!; try done. rewrite lookup_insert_ne; [done|]. congruence. }
    destruct κ as [| | | | | | | | | |? j [|q ?]|q j ?|]; cbn in *; try done; by apply Hst.
  - intros r' q p' Hq Hh. destruct (decide (q = next s)) as [->|Hne].
    + rewrite lookup_insert_eq in Hh. congruence.
    + rewrite lookup_insert_ne in Hh by done. rewrite lookup_insert in Hq. case_decide; [congruence|]. by apply (i_work0 r').
Qed.
End Inv.
