(* ===== verification/OrVotes.v ===== *)
(** * Oracle rounds: votes, stores and timers keep the invariant

    One lemma per handler of [commit.js], [messages.js], [watchdog.js],
    [lifecycle.js] and [snapshot_store.js]; proposals are in [OrSafety]. *)

From S2P Require Import Prelude Ordered GateRegistry BigNum Quorum Json AttestWire OracleBand OracleAggregate OracleCosign Admission PbftState PbftEngine OrState OrMembers OrRounds OrInv.
Open Scope Z_scope.

Section Votes.
Context {B : BigNumber} (h0 : env).
Context (Hself : ∀ id c, identity (hub h0) = Some id → verify h0 c (sign (hub h0) c) id = true).
Implicit Types (s : state) (p : pending).
Abbreviation inv := (inv h0).
Abbreviation inv_but := (inv_but h0).
Abbreviation pend_ok := (pend_ok h0).
Abbreviation decided := (decided h0).

(** ** One set of rules *)

Lemma payload_same h : same_rules h0 h → ∀ r t l ht a, buildPriceV0Payload h r t l ht a = buildPriceV0Payload h0 r t l ht a.
Proof. intros [H1 H2 _ _ _] r t l ht a. unfold buildPriceV0Payload. by rewrite H1, H2. Qed.

Lemma verify_same h : same_rules h0 h → ∀ c sg pk, verify h c sg pk = verify h0 c sg pk.
Proof. intros [_ _ H _ _] c sg pk. unfold verify. by rewrite H. Qed.

Lemma gate_same h : same_rules h0 h → ∀ ht, countQuorumSigned h ht = countQuorumSigned h0 ht.
Proof. intros [H _ _ _ _] ht. unfold countQuorumSigned. by rewrite H. Qed.

Lemma signPriceV0_signs h r t l ht a x : same_rules h0 h → signPriceV0 h r t l ht a = Some x → signs h0 r t l ht a x.
Proof.
  intros Hr. pose proof Hr as [_ _ _ Hi Hs]. unfold signPriceV0. rewrite Hi, Hs, payload_same by done.
  destruct (identity (hub h0)) as [id|] eqn:Hid; cbn; [|done]. destruct (buildPriceV0Payload h0 r t l ht a) as [c|] eqn:Hc; cbn; [|done].
  intros [= <-]. exists c. split; [done|]. cbn. by apply Hself.
Qed.

(** ** Votes on one round *)

Lemma pend_ok_grows p p' :
  frame p' = frame p → control p' = control p → (o_signatures p).*1 ⊆ (o_signatures p').*1 → o_commits p ⊆ o_commits p' →
  Forall (signs_pending h0 p) (o_signatures p') → NoDup (o_signatures p').*1 → NoDup (o_prepares p') → NoDup (o_commits p') →
  pend_ok p → pend_ok p'.
Proof.
  intros Hf Hc Hs Hm Hsg H1 H2 H3 [_ _ _ _ P5 P6 P7].
  assert (Hsig : signs_pending h0 p' = signs_pending h0 p) by (unfold frame in Hf; injection Hf as ? ? ? ? ? ? ? ? ? ?; unfold signs_pending; congruence).
  unfold control in Hc. injection Hc as C1 C2. split; try done.
  - by rewrite Hsig.
  - unfold frame in Hf. injection Hf as ? ? ? ? ? ? ? ? ? ?. congruence.
  - unfold waiting. rewrite C1, C2. exact P6.
  - rewrite C1, C2. intros H. eapply decided_grows; [exact Hf|exact Hs|exact Hm|by apply P7].
Qed.

Lemma signers_grow k v (m : list (string * string)) : m.*1 ⊆ (m_set k v m).*1.
Proof. intros x Hx. apply elem_of_m_set. by right. Qed.

Lemma Forall_m_set (P : string * string → Prop) k v m : P (k, v) → Forall P m → Forall P (m_set k v m).
Proof. rewrite !Forall_forall. intros Hk Hm x [->|?]%elem_of_m_set_pair; auto. Qed.

(** The round after one more signature. *)
Lemma one_signature pk sg p :
  signs_pending h0 p (pk, sg) → pend_ok p →
  let p' := set_o_signatures (m_set pk sg (o_signatures p)) p in pend_ok p' ∧ frame p' = frame p ∧ control p' = control p.
Proof.
  intros Hs Hp p'. split_and!; [|done|done]. pose proof Hp as []. eapply (pend_ok_grows p); try done; cbn.
  - apply signers_grow.
  - by apply Forall_m_set.
  - by apply NoDup_m_set.
Qed.

Lemma verifyAndStoreSig_ok h pk sg p :
  same_rules h0 h → pend_ok p →
  let p' := verifyAndStoreSig h pk sg p in pend_ok p' ∧ frame p' = frame p ∧ control p' = control p.
Proof.
  intros Hr Hp. cbn. unfold verifyAndStoreSig. destruct (truthy pk) as [k|]; [|done]. destruct (truthy sg) as [v|]; [|done].
  destruct (m_get _ _); [done|]. unfold pending_payload. rewrite payload_same by done.
  destruct (buildPriceV0Payload h0 _ _ _ _ _) as [c|] eqn:Hc; [|done]. rewrite verify_same by done.
  destruct (verify h0 c v (toLowerCase k)) eqn:Hv; [|done]. apply one_signature; [|done]. exists c. by split.
Qed.

Lemma store_own_ok x p :
  (∀ y, x = Some y → signs_pending h0 p y) → pend_ok p →
  let p' := store_own x p in pend_ok p' ∧ frame p' = frame p ∧ control p' = control p.
Proof.
  intros Hx Hp. cbn. unfold store_own. destruct x as [[pk sg]|]; [|done]. destruct (m_get _ _); [done|]. apply one_signature; [by apply Hx|done].
Qed.

Lemma NoDup_addVote e l : NoDup l → NoDup (addVote e l).
Proof. intros. unfold addVote. destruct (provenPubkey e); [by apply NoDup_s_add|done]. Qed.
Lemma NoDup_addSelf h l : NoDup l → NoDup (addSelf h l).
Proof. intros. unfold addSelf. destruct (selfPubkey h); [by apply NoDup_s_add|done]. Qed.
Lemma addVote_sub e l : l ⊆ addVote e l.
Proof. unfold addVote. destruct (provenPubkey e); [|done]. intros x Hx. apply elem_of_s_add. by right. Qed.
Lemma addSelf_sub h l : l ⊆ addSelf h l.
Proof. unfold addSelf. destruct (selfPubkey h); [|done]. intros x Hx. apply elem_of_s_add. by right. Qed.

Lemma prepares_ok l p : NoDup l → pend_ok p → pend_ok (set_o_prepares l p).
Proof. intros Hl Hp. pose proof Hp as []. by eapply (pend_ok_grows p). Qed.
Lemma commits_ok l p : NoDup l → o_commits p ⊆ l → pend_ok p → pend_ok (set_o_commits l p).
Proof. intros Hl Hs Hp. pose proof Hp as []. by eapply (pend_ok_grows p). Qed.

(** ** The parts of the state the rounds do not live in *)

Lemma core_drop_early r s : core (drop_early r s) = core s.
Proof. done. Qed.

Lemma core_prune_early now s : core (pruneEarlyMessages now s) = core s ∧ finalized (pruneEarlyMessages now s) = finalized s.
Proof.
  unfold pruneEarlyMessages. generalize (earlyMessageTtl s). intros l. revert s.
  induction l as [|kv l IH]; intros s; [done|]. cbn [fold_left]. destruct (IH (if kv.2 <=? now then drop_early kv.1 s else s)) as [-> ->].
  by destruct (kv.2 <=? now).
Qed.

Lemma core_evict n s : core (evict_oldest n s) = core s ∧ finalized (evict_oldest n s) = finalized s.
Proof.
  revert s. induction n as [|n IH]; intros s; [done|]. cbn [evict_oldest]. destruct (earlyMessages s) as [|[o arr] l]; [done|].
  by destruct (IH (drop_early o s)) as [-> ->].
Qed.

Lemma core_buffer_early h now r v s : core (bufferEarlyMessage h now r v s) = core s ∧ finalized (bufferEarlyMessage h now r v s) = finalized s.
Proof.
  unfold bufferEarlyMessage. destruct (core_prune_early now s) as [Hc Hf]. set (s1 := pruneEarlyMessages now s) in *.
  destruct (m_get r (earlyMessages s1)) as [arr|]; [by destruct (_ <=? _)%nat|].
  destruct (core_evict (S (length (earlyMessages s1)) - earlyMessageMaxRounds h) s1) as [Hc' Hf'].
  unfold make_room. rewrite <-Hc, <-Hf, <-Hc', <-Hf'. by destruct (_ <=? _)%nat.
Qed.

Lemma or_inv_buffer x h now r v s : inv_but x s → inv_but x (bufferEarlyMessage h now r v s).
Proof. destruct (core_buffer_early h now r v s) as [Hc Hf]. apply or_inv_core; [done|by rewrite Hf]. Qed.

(** ** Commit *)

Lemma quorumMet_decided h p : same_rules h0 h → pend_ok p → quorumMet h p (o_commits p) = true → decided p.
Proof.
  intros Hr [_ H2 _ H4 _ _ _]. unfold quorumMet, decided, decided_by, electorate, tally_ok, countDistinctMembers. rewrite gate_same by done.
  destruct (o_weighted p); cbn [orb].
  - intros Hm. by exists (o_signatures p).*1.
  - intros Hm%Z.leb_le. destruct (countQuorumSigned h0 (o_height p)).
    + exists (o_signatures p).*1. split_and!; [done|done|]. by destruct (o_members p).
    + exists (o_commits p). split_and!; [done|done|]. by destruct (o_members p).
Qed.

Definition committing p : pending := set_o_timer NoTimer (set_o_finalized true p).

(** The store attempt of a round that was just decided. *)
Lemma or_inv_start_store h now r s pid p f :
  live r s = Some (pid, p) → o_finalized p = false → decided p → (∀ q, f q = committing q) →
  inv s → inv (finalizeCommittedRound h now r (modify pid f s)).
Proof.
  intros Hl Hf Hd Hfun Hs. pose proof Hl as [Hm Hh]%live_iff. pose proof Hs as [].
  assert (Hro : o_round p = r) by (destruct (i_map _ _ Hm) as (p' & ? & ?); congruence).
  unfold finalizeCommittedRound. assert (live r (modify pid f s) = Some (pid, committing p)) as ->.
  { apply live_iff. split; [done|]. change (alter f pid (heap s) !! pid = Some (committing p)). by rewrite lookup_alter_eq, Hh, <-Hfun. }
  pose proof (i_heap _ _ Hh) as Hp. assert (Hp' : pend_ok (committing p)).
  { destruct Hp as [P1 P2 P3 P4 P5 P6 P7]. split; try done. by intros [?|?]. }
  unfold storeSnapshot. destruct (j_prices (commit_job now (committing p))) as [|w l] eqn:Hpr; [by destruct (po_prices _ _ Hp')|].
  assert (Hno : ∀ k κ, konts s !! k = Some κ → ¬ commit_kont pid κ).
  { intros k κ Hk Hc. specialize (i_konts _ _ Hk). destruct κ as [| | | | | | | | | |? j [|q ?]|q j ?|]; cbn in *; try done; subst q.
    - destruct i_konts as (_ & p' & ? & _ & ? & _). congruence.
    - destruct i_konts as (_ & p' & ? & _ & ? & _). congruence. }
  apply (or_inv_suspend_commit _ pid); [|done|].
  - cbn [kont_ok storing]. split; [by rewrite Hpr|]. exists (committing p). split_and!; try done.
    + cbn. by rewrite lookup_alter_eq, Hh, <-Hfun.
    + cbn. by rewrite Hro.
  - apply (or_inv_set h0 None _ pid f s p); rewrite ?Hfun; try done.
    + intros [[?|?]|[? ?]]; done.
    + intros k κ Hk Hc. by destruct (Hno k κ).
    + intros q Hq. split; congruence.
Qed.

Lemma or_inv_checkCommitQuorum h now r s : same_rules h0 h → inv s → inv (checkCommitQuorum h now r s).
Proof.
  intros Hr Hs. unfold checkCommitQuorum. destruct (live r s) as [[pid p]|] eqn:Hl; [|done].
  destruct (o_finalized p) eqn:Hf; [done|]. destruct (quorumMet h p (o_commits p)) eqn:Hq; [|done].
  apply (or_inv_start_store h now r s pid p); try done. eapply quorumMet_decided; [done| |done].
  apply live_iff in Hl as [_ Hl]. by eapply i_heap.
Qed.

Lemma or_inv_checkPrepareQuorum h now r s : same_rules h0 h → inv s → inv (checkPrepareQuorum h now r s).
Proof.
  intros Hr Hs. unfold checkPrepareQuorum. destruct (live r s) as [[pid p]|] eqn:Hl; [|done].
  destruct (o_finalized p) eqn:Hf; [done|]. destruct (_ && _); [|done].
  apply or_inv_checkCommitQuorum; [done|]. apply or_inv_emit; [done|]. apply or_inv_modify; [|done].
  apply live_iff in Hl as [_ Hl]. intros q Hq Hok. assert (q = p) as -> by congruence. clear Hq.
  set (q1 := set_o_commits (addSelf h (o_commits p)) (set_o_commitSent true p)).
  assert (Hq1 : pend_ok q1).
  { unfold q1. apply (commits_ok _ (set_o_commitSent true p)).
    - apply NoDup_addSelf. by destruct Hok.
    - apply addSelf_sub.
    - by destruct Hok. }
  destruct (store_own_ok (own_signature h p) q1) as (H1 & H2 & H3); [|done|].
  - intros y Hy. unfold own_signature in Hy. by eapply signPriceV0_signs in Hy.
  - split_and!; [done| |done]. unfold frame in H2. injection H2 as -> _ _ _ _ _ _ _ _ _. done.
Qed.

Lemma or_inv_vote_on h v pid g s :
  same_rules h0 h → (∀ p, pend_ok p → pend_ok (g p) ∧ frame (g p) = frame p ∧ control (g p) = control p) →
  inv s → inv (modify pid (λ p, verifyAndStoreSig h (vt_sig_pubkey v) (vt_sig v) (g p)) s).
Proof.
  intros Hr Hg Hs. apply or_inv_modify; [|done]. intros p _ Hp. destruct (Hg p Hp) as (G1 & G2 & G3).
  destruct (verifyAndStoreSig_ok h (vt_sig_pubkey v) (vt_sig v) (g p) Hr G1) as (V1 & V2 & V3).
  split_and!; [done| |congruence]. unfold frame in *. congruence.
Qed.

Lemma or_inv_handlePrepare h now v s : same_rules h0 h → inv s → inv (handlePrepare h now v s).
Proof.
  intros Hr Hs. unfold handlePrepare. destruct (vote_round h v) as [r|]; [|done].
  destruct (live r s) as [[pid p]|]; [|destruct (is_finalized r s); [done|by apply or_inv_buffer]].
  destruct (String.eqb _ _); cbn [negb]; [|done]. apply or_inv_checkPrepareQuorum; [done|].
  apply (or_inv_vote_on h v pid (λ p, set_o_prepares (addVote (vt_envelope v) (o_prepares p)) p)); [done| |done].
  intros q Hq. split_and!; [|done|done]. apply prepares_ok; [|done]. apply NoDup_addVote. by destruct Hq.
Qed.

Lemma or_inv_handleCommit h now v s : same_rules h0 h → inv s → inv (handleCommit h now v s).
Proof.
  intros Hr Hs. unfold handleCommit. destruct (vote_round h v) as [r|]; [|done].
  destruct (live r s) as [[pid p]|]; [|destruct (is_finalized r s); [done|by apply or_inv_buffer]].
  destruct (String.eqb _ _); cbn [negb]; [|done]. apply or_inv_checkCommitQuorum; [done|].
  apply (or_inv_vote_on h v pid (λ p, set_o_commits (addVote (vt_envelope v) (o_commits p)) p)); [done| |done].
  intros q Hq. split_and!; [|done|done]. apply commits_ok; [|apply addVote_sub|done]. apply NoDup_addVote. by destruct Hq.
Qed.

Lemma or_inv_handleVote h now v s : same_rules h0 h → inv s → inv (handleVote h now v s).
Proof. intros. unfold handleVote. destruct (vt_phase v); [by apply or_inv_handlePrepare|by apply or_inv_handleCommit]. Qed.

Lemma or_inv_drain h now r s : same_rules h0 h → inv s → inv (drainEarlyMessages h now r s).
Proof.
  intros Hr Hs. unfold drainEarlyMessages. destruct (m_get r _) as [arr|]; [|done].
  assert (Hd : inv (drop_early r s)) by (eapply or_inv_core; [apply core_drop_early|done|done]). revert Hd. generalize (drop_early r s). clear s Hs.
  induction arr as [|v arr IH]; intros s Hs; [done|]. cbn [fold_left]. apply IH. by apply or_inv_handleVote.
Qed.
End Votes.
