(* ===== verification/OrStores.v ===== *)
(** * Oracle rounds: stores, outcomes and timers keep the invariant

    The attempts of [finalizeCommittedRound] from the capability mirror to the
    announcement, the retry timer, the two round timeouts, the skipped rounds and
    the abandonment watchdog. *)

From S2P Require Import Prelude Ordered GateRegistry BigNum Quorum Json AttestWire OracleBand OracleAggregate OracleCosign Admission PbftState PbftEngine OrState OrMembers OrRounds OrInv OrVotes.
Open Scope Z_scope.

Section Stores.
Context {B : BigNumber} (h0 : env).
Implicit Types (s : state) (p : pending).
Abbreviation inv := (inv h0).
Abbreviation inv_but := (inv_but h0).
Abbreviation pend_ok := (pend_ok h0).
Abbreviation decided := (decided h0).

(** ** Changes beside the rounds *)

Definition quiet s s' : Prop := core s' = core s ∧ finalized s' = finalized s.

Lemma quiet_refl s : quiet s s.
Proof. done. Qed.
Lemma quiet_trans s1 s2 s3 : quiet s1 s2 → quiet s2 s3 → quiet s1 s3.
Proof. intros [H1 H2] [H3 H4]. split; congruence. Qed.
Lemma or_inv_quiet x s s' : quiet s s' → inv_but x s → inv_but x s'.
Proof. intros [H1 H2]. apply or_inv_core; [done|by rewrite H2]. Qed.

Lemma quiet_arm r ht t s : quiet s (armRoundWatchdog r ht t s).
Proof. unfold armRoundWatchdog. case_bool_decide; [done|]. by destruct (roundWatchdogs s !! r). Qed.
Lemma quiet_ready h now r s : quiet s (markRoundReady h now r s).
Proof. done. Qed.
Lemma quiet_clear r s : quiet s (clearRoundTracking r s).
Proof. unfold clearRoundTracking, clear_leader_timer. cbn. by destruct (leaderTimers s !! r). Qed.
Lemma quiet_clear_skip r s : quiet s (clear_skip r s).
Proof. unfold clear_skip. by case_bool_decide. Qed.

Lemma core_markFinalized h r s : core (markFinalized h r s) = core s ∧ finalized (markFinalized h r s) ⊆ {[r]} ∪ finalized s.
Proof.
  unfold markFinalized. destruct (quiet_clear_skip r s) as [Hc Hf]. revert Hc Hf. generalize (clear_skip r s). intros s1 Hc Hf.
  case_bool_decide; [split; [done|set_solver]|]. unfold ring_push. rewrite <-Hf.
  destruct (finalizedMax h <? _)%nat; [|split; [done|cbn; set_solver]].
  destruct (finalizedOrder (disarmRoundWatchdog r s1) ++ [r]); (split; [done|cbn; set_solver]).
Qed.

Lemma or_inv_markLocallySkipped x h r s : inv_but x s → inv_but x (markLocallySkipped h r s).
Proof.
  intros Hs. unfold markLocallySkipped. case_bool_decide; [done|]. destruct (ring_push _ _ _ _) as [ring order]. apply or_inv_emit; [done|].
  revert Hs. by apply or_inv_core.
Qed.

Lemma or_inv_finish_skip x h r s : inv_but x s → inv_but x (finish_skip h r s).
Proof. intros Hs. unfold finish_skip. eapply or_inv_quiet; [apply quiet_clear|]. by apply or_inv_markLocallySkipped. Qed.

Lemma or_inv_storeSkipped x h now r ht t s : inv_but x s → inv_but x (storeSkippedRound h now r ht t s).
Proof.
  intros Hs. unfold storeSkippedRound. destruct (markerPairs h r); [by apply or_inv_finish_skip|].
  apply or_inv_suspend; [done|by intros ? []|]. by apply or_inv_emit.
Qed.

Lemma or_inv_broadcast x h r ok s : inv_but x s → inv_but x (broadcastStoredRound h r ok s).
Proof. intros Hs. unfold broadcastStoredRound. destruct (hubDbBroadcaster h); [|done]. apply or_inv_emit; [by destruct ok|done]. Qed.

Lemma or_inv_resumeSkip x h w r b t ok s : inv_but x s → inv_but x (resumeSkip h w r b t ok s).
Proof.
  intros Hs. unfold resumeSkip. destruct w; [by apply or_inv_finish_skip, or_inv_broadcast|]. destruct ok; [|done].
  by apply or_inv_suspend; [|intros ? []|].
Qed.

Lemma or_inv_onRoundAbandoned h now r s : inv s → inv (onRoundAbandoned h now r s).
Proof.
  intros Hs. unfold onRoundAbandoned. destruct (roundWatchdogs s !! r) as [w|]; [|done].
  case_bool_decide; [revert Hs; by apply or_inv_core|]. destruct (_ && _); [revert Hs; by apply or_inv_core|].
  apply or_inv_storeSkipped. revert Hs. by apply or_inv_core.
Qed.

(** ** Announcing *)

(** [s'] closed the round [r]: out of the map, marked, announced. *)
Lemma or_inv_close r pid p a s s' :
  core s' = (delete r (pendingRounds s), heap s, next s, konts s, RoundFinalized a :: out s) → finalized s' ⊆ {[r]} ∪ finalized s →
  a_round a = r → announcement_ok h0 a → pendingRounds s !! r = Some pid → heap s !! pid = Some p → o_finalized p = true →
  inv_but (Some pid) s → inv s'.
Proof.
  unfold core. intros [= H1 H2 H3 H4 H5] Hf Ha Hok Hm Hh Hfi Hs. pose proof Hs as []. assert (Hro : o_round p = r) by (destruct (i_map _ _ Hm) as (? & ? & ?); congruence).
  assert (Hann : ∀ r', announced r' s → announced r' s') by (intros r' (a' & ? & ?); exists a'; rewrite H5; split; [by right|done]).
  split; rewrite ?H1, ?H2, ?H3, ?H4; try done.
  - intros r' q [_ ?]%lookup_delete_Some. by apply i_map.
  - intros q p' Hq Har. pose proof (i_timer _ _ Hq Har) as Hmq. apply lookup_delete_Some. split; [|done]. intros ->.
    assert (q = pid) as -> by congruence. assert (p' = p) as -> by congruence.
    pose proof (i_heap _ _ Hq) as []. destruct Har as [Hw|[_ ?]]; [|congruence]. specialize (po_waiting Hw). congruence.
  - intros k κ Hk. pose proof (i_konts k κ Hk) as Hko. specialize (i_excused pid k κ eq_refl Hk).
    assert (Hst : ∀ q j, q ≠ pid → storing s q j → storing s' q j).
    { intros q j Hq (? & p' & Hp' & ? & ? & ?). split; [done|]. exists p'. rewrite H1, H2. split_and!; try done. apply lookup_delete_Some. split; [|done]. congruence. }
    destruct κ as [| | | | | | | | | |? j [|q ?]|q j ?|]; cbn in *; try done; apply Hst; congruence.
  - intros r' q p' [Hne ?]%lookup_delete_Some ? ? _. apply (i_work r' q p'); try done. intros [= <-].
    destruct (i_map r' pid) as (p'' & ? & ?); [done|]. congruence.
  - intros r' Hr'. destruct (decide (r' = r)) as [->|Hne].
    + exists a. rewrite H5. split; [by left|done].
    + apply Hann, i_final. set_solver.
  - rewrite H5. intros e [->|?]%elem_of_cons; auto.
Qed.

Lemma announcement_of_ok r p subs : pend_ok p → o_round p = r → decided p → announcement_ok h0 (announcement_of r p subs).
Proof.
  intros [P1 P2 _ _ _ _ _] <- (voters & Hnd & Hsub & Ht).
  assert (Hperm : sortedSignatures p ≡ₚ o_signatures p) by apply isort_perm.
  split_and!; cbn.
  - by rewrite Hperm.
  - by rewrite Hperm.
  - exists voters. split_and!; [done| |done]. etrans; [exact Hsub|]. unfold electorate. destruct (_ || _); [|done].
    intros x. by rewrite Hperm.
Qed.

Lemma or_inv_announceCommitted h pid j s :
  storing s pid j → inv_but (Some pid) s → inv (announceCommittedRound h (j_round j) pid s).
Proof.
  intros (_ & p & Hh & Hro & Hfi & Hm) Hs. pose proof Hs as []. unfold announceCommittedRound.
  destruct (core_markFinalized h (j_round j) s) as [Hc Hf]. revert Hc Hf. generalize (markFinalized h (j_round j) s). intros s1 Hc Hf.
  set (s2 := put_pendingRounds _ s1). destruct (quiet_clear (j_round j) s2) as [Hc2 Hf2]. revert Hc2 Hf2.
  generalize (clearRoundTracking (j_round j) s2). intros s3 Hc2 Hf2. unfold core in *. subst s2. cbn in Hc2, Hf2.
  injection Hc as C1 C2 C3 C4 C5. injection Hc2 as D1 D2 D3 D4 D5.
  rewrite D2, C2, Hh. eapply (or_inv_close (j_round j) pid p); try done; cbn.
  - unfold core. cbn. by rewrite D1, D2, D3, D4, D5, C1, C2, C3, C4, C5.
  - by rewrite Hf2.
  - done.
  - apply announcement_of_ok; [by eapply i_heap|done|]. apply (po_decided _ _ (i_heap _ _ Hh)). by left.
Qed.

Lemma or_inv_announceSolo h j c subs s : solo_ok h0 c j → inv s → inv (announceSoloRound h j c subs s).
Proof.
  intros (_ & Hnd & Hsg) Hs. unfold announceSoloRound. destruct (core_markFinalized h (cl_round c) s) as [Hc Hf]. revert Hc Hf.
  generalize (markFinalized h (cl_round c) s). intros s1 Hc Hf. set (a := Announcement _ _ _ _ _ _ _ _ _).
  assert (Ha : announcement_ok h0 a) by done. unfold core in Hc. injection Hc as C1 C2 C3 C4 C5.
  apply (or_inv_emit h0 None (RoundFinalized a)) in Hs; [|done]. destruct Hs as [].
  split; cbn in *; unfold kont_ok, storing, announced in *; cbn in *; rewrite ?C1, ?C2, ?C3, ?C4, ?C5; try done.
  intros r Hr. destruct (decide (r = cl_round c)) as [->|Hne]; [exists a; split; [by left|done]|]. apply i_final. set_solver.
Qed.

(** ** Storing *)

(** What the resumption of a handler may assume of the state without it. *)
Definition caller_ok s (j : job) (c : caller) : Prop :=
  match c with
  | SoloCaller cl _ => solo_ok h0 cl j ∧ inv s
  | CommitCaller pid _ => storing s pid j ∧ inv_but (Some pid) s
  end.

Lemma caller_ok_core s s' j c : core s' = core s → finalized s' ⊆ finalized s → caller_ok s j c → caller_ok s' j c.
Proof.
  intros Hc Hf. destruct c as [cl subs|pid n]; cbn; intros [H1 H2].
  - split; [done|]. by eapply or_inv_core.
  - split; [|by eapply or_inv_core]. unfold core in Hc. injection Hc as C1 C2 _ _ _. unfold storing. by rewrite C1, C2.
Qed.

Lemma caller_ok_emit e s j c : effect_ok h0 e → caller_ok s j c → caller_ok (emit e s) j c.
Proof. intros He. destruct c; cbn; intros [H1 H2]; (split; [done|by apply or_inv_emit]). Qed.

Lemma caller_ok_prices s j c : caller_ok s j c → j_prices j ≠ [].
Proof. by destruct c; intros [[? ?] ?]. Qed.

Lemma or_inv_stored h j c s : caller_ok s j c → inv (stored h j c s).
Proof. destruct c; cbn; intros [H1 H2]; [by apply or_inv_announceSolo|by apply or_inv_announceCommitted]. Qed.

Lemma or_inv_suspend_store at_ j c s : caller_ok s j c → inv (suspend (KStore at_ j c) s).
Proof.
  destruct c as [cl subs|pid n]; cbn; intros [H1 H2]; [|by apply (or_inv_suspend_commit _ pid)].
  by apply or_inv_suspend; [|intros ? []|].
Qed.

Lemma or_inv_storeSnapshot h j c s : caller_ok s j c → inv (storeSnapshot h j c s).
Proof. intros Hc. unfold storeSnapshot. destruct (j_prices j); [by apply or_inv_stored|by apply or_inv_suspend_store]. Qed.

Lemma or_inv_arm pid p s :
  pendingRounds s !! o_round p = Some pid → heap s !! pid = Some p → o_finalized p = true → inv_but (Some pid) s →
  inv (armFinalizeRetry pid (modify pid (set_o_finalized false) s)).
Proof.
  intros Hm Hh Hf Hs. unfold armFinalizeRetry.
  set (f q := set_o_timer Retry (set_o_retryMs (retry_delay (o_retryMs q)) (set_o_finalized false q))).
  apply (or_inv_core h0 None (modify pid f s)); [unfold core; cbn; by rewrite alter_alter_eq|done|].
  pose proof Hs as []. pose proof (i_heap _ _ Hh) as [].
  apply (or_inv_set h0 (Some pid) None pid f s p); try done.
  - split; try done. intros _. apply po_decided. by left.
  - intros k κ Hk Hc. by destruct (i_excused pid k κ eq_refl Hk).
  - intros q Hq. split; congruence.
Qed.

Lemma or_inv_storeFailed j c s : caller_ok s j c → inv (storeFailed j c s).
Proof.
  unfold caller_ok, storeFailed. destruct c as [cl subs|pid n]; intros [H1 H2]; [done|]. destruct (n <? MAX_STORE_ATTEMPTS)%nat; [by apply (or_inv_suspend_commit _ pid)|].
  destruct H1 as (_ & p & Hh & Hro & Hf & Hm). assert (live (j_round j) s = Some (pid, p)) as -> by by apply live_iff.
  apply (or_inv_arm pid p); try done. by rewrite Hro.
Qed.

Lemma or_inv_resumeStore h now at_ j c answer ok s : caller_ok s j c → inv (resumeStore h now at_ j c answer ok s).
Proof.
  intros Hc. unfold resumeStore. destruct at_.
  - destruct ok; [|by apply or_inv_storeFailed]. apply or_inv_suspend_store, caller_ok_emit; [done|].
    unfold persistCapabilitySnapshot. destruct answer as [[[|v vs] []]|]; try done. by apply caller_ok_emit.
  - destruct ok; [|by apply or_inv_storeFailed]. apply or_inv_suspend_store. destruct (missing_pairs h j); [done|by apply caller_ok_emit].
  - apply or_inv_suspend_store. revert Hc. by apply caller_ok_core.
  - apply or_inv_stored. unfold broadcastStoredRound. destruct (hubDbBroadcaster h); [|done]. apply caller_ok_emit; [by destruct ok|done].
Qed.

Lemma or_inv_resumeBackoff h pid j n s : storing s pid j → inv_but (Some pid) s → inv (resumeBackoff h pid j n s).
Proof.
  intros H1 H2. unfold resumeBackoff, is_pending. pose proof H1 as (_ & p & _ & _ & _ & Hm).
  rewrite bool_decide_true by by rewrite Hm. apply or_inv_storeSnapshot. by split.
Qed.

(** ** Timers *)

Lemma or_inv_onFinalizeRetry h now pid p s :
  heap s !! pid = Some p → o_timer p = Retry → inv s → inv (onFinalizeRetry h now pid s).
Proof.
  intros Hh Ht Hs. pose proof Hs as []. pose proof (i_heap _ _ Hh) as []. assert (Hw : waiting p) by by right.
  pose proof (i_timer _ _ Hh (or_introl Hw)) as Hm. pose proof (po_waiting Hw) as Hf.
  unfold onFinalizeRetry. rewrite Hh. assert (live (o_round p) (modify pid (set_o_timer NoTimer) s) = Some (pid, set_o_timer NoTimer p)) as ->.
  { apply live_iff. split; [done|]. change (alter (set_o_timer NoTimer) pid (heap s) !! pid = Some (set_o_timer NoTimer p)). by rewrite lookup_alter_eq, Hh. }
  change (o_finalized (set_o_timer NoTimer p)) with (o_finalized p). rewrite Hf. cbn [orb].
  unfold is_finalized. case_bool_decide as Hfin.
  - apply (or_inv_set h0 None None pid _ s p); try done.
    + split; try done. intros _. apply po_decided. by right.
    + intros k κ Hk Hc. specialize (i_konts k κ Hk). exfalso.
      assert (Hst : ∀ j, ¬ storing s pid j) by (intros j (_ & p' & ? & _ & ? & _); congruence).
      destruct κ as [| | | | | | | | | |? j [|q ?]|q j ?|]; cbn in *; try done; subst q; by eapply Hst.
    + cbn. congruence.
  - set (f q := set_o_finalized true (set_o_timer NoTimer q)).
    assert (Hrw : ∀ s1, modify pid (set_o_finalized true) (modify pid (set_o_timer NoTimer) s1) = modify pid f s1)
      by (intros s1; unfold modify, put_heap; cbn; by rewrite alter_alter_eq).
    rewrite Hrw. apply (or_inv_start_store h0 h now (o_round p) s pid p f); try done.
    + by apply live_iff.
    + by apply po_decided; right.
Qed.

Lemma or_inv_timer_off pid p s :
  heap s !! pid = Some p → o_timer p ≠ Retry → inv s → inv (modify pid (set_o_timer NoTimer) s).
Proof.
  intros Hh Ht Hs. pose proof Hs as []. pose proof (i_heap _ _ Hh) as [].
  apply (or_inv_set h0 None None pid _ s p); try done.
  - split; try done; [by intros [?|?]|]. intros [?|?]; [|done]. by apply po_decided; left.
  - intros [[?|?]|[? ?]]; done.
  - intros k κ Hk Hc. specialize (i_konts k κ Hk).
    assert (Hst : ∀ j, storing s pid j → o_finalized p = true ∧ None ≠ Some pid) by (intros j (_ & p' & ? & _ & ? & _); split; congruence).
    destruct κ as [| | | | | | | | | |? j [|q ?]|q j ?|]; cbn in *; try done; subst q; by eapply Hst.
  - intros Hm Hf _. by apply (i_work (o_round p) pid p).
Qed.

Lemma or_inv_drop_off r pid p s :
  pendingRounds s !! r = Some pid → heap s !! pid = Some p → o_finalized p = false → o_timer p = NoTimer → inv s →
  inv (put_pendingRounds (delete r (pendingRounds s)) s).
Proof.
  intros Hm Hh Hf Ht. apply or_inv_drop. intros q p' Hq Hp'. assert (q = pid) as -> by congruence. assert (p' = p) as -> by congruence.
  split; [done|]. unfold armed, waiting. rewrite Ht. intros [[?|?]|[? ?]]; done.
Qed.

Lemma or_inv_onLeaderTimeout pid p s :
  heap s !! pid = Some p → o_timer p = LeaderTimeout → inv s → inv (onLeaderTimeout pid s).
Proof.
  intros Hh Ht Hs. unfold onLeaderTimeout. rewrite Hh. assert (H1 : inv (modify pid (set_o_timer NoTimer) s)) by (apply (or_inv_timer_off pid p); congruence).
  destruct (o_finalized p) eqn:Hf; [done|]. pose proof Hs as [].
  apply (or_inv_drop_off (o_round p) pid (set_o_timer NoTimer p) (count_timeout (modify pid (set_o_timer NoTimer) s))); try done.
  - apply (i_timer _ _ Hh). by right.
  - cbn. by rewrite lookup_alter_eq, Hh.
  - revert H1. by apply or_inv_core.
Qed.

Lemma or_inv_onFollowerTimeout pid p s :
  heap s !! pid = Some p → o_timer p = FollowerTimeout → inv s → inv (onFollowerTimeout pid s).
Proof.
  intros Hh Ht Hs. pose proof Hs as []. pose proof (i_heap _ _ Hh) as []. assert (Hw : waiting p) by by left.
  pose proof (i_timer _ _ Hh (or_introl Hw)) as Hm. pose proof (po_waiting Hw) as Hf.
  unfold onFollowerTimeout. rewrite Hh. assert (H1 : inv (modify pid (set_o_timer NoTimer) s)) by (apply (or_inv_timer_off pid p); congruence).
  assert (live (o_round p) (modify pid (set_o_timer NoTimer) s) = Some (pid, set_o_timer NoTimer p)) as ->.
  { apply live_iff. split; [done|]. change (alter (set_o_timer NoTimer) pid (heap s) !! pid = Some (set_o_timer NoTimer p)). by rewrite lookup_alter_eq, Hh. }
  change (o_finalized (set_o_timer NoTimer p)) with (o_finalized p). rewrite Hf.
  apply (or_inv_drop_off (o_round p) pid (set_o_timer NoTimer p) (count_timeout (modify pid (set_o_timer NoTimer) s))); try done.
  - cbn. by rewrite lookup_alter_eq, Hh.
  - revert H1. by apply or_inv_core.
Qed.

Lemma or_inv_onTimer h now pid s s' : onTimer h now pid s = Some s' → inv s → inv s'.
Proof.
  unfold onTimer. destruct (heap s !! pid) as [p|] eqn:Hh; cbn; [|done]. destruct (o_timer p) eqn:Ht; [done|..]; intros [= <-] Hs.
  - by eapply or_inv_onLeaderTimeout.
  - by eapply or_inv_onFollowerTimeout.
  - by eapply or_inv_onFinalizeRetry.
Qed.
End Stores.
