(* ===== verification/OrSafety.v ===== *)
(** * Oracle rounds: every step keeps the invariant

    Opening a round (as a leader or as a follower), closing one, and the
    resumption of every suspended handler. A step that opens a round where one is
    open replaces it; such a step is not [steady], and outside the admission era
    the leader's side has it (see [OrProps]). *)

From S2P Require Import Prelude Ordered GateRegistry BigNum Quorum Json AttestWire OracleBand OracleAggregate OracleCosign Admission PbftState PbftEngine OrState OrMembers OrRounds OrInv OrVotes OrStores.
Open Scope Z_scope.

Section Safety.
Context {B : BigNumber} (h0 : env).
Context (Hself : ∀ id c, identity (hub h0) = Some id → verify h0 c (sign (hub h0) c) id = true).
Implicit Types (s : state).
Abbreviation inv := (inv h0).
Abbreviation inv_but := (inv_but h0).
Abbreviation pend_ok := (pend_ok h0).

(** No open round is replaced. *)
Definition steady s s' : Prop := ∀ r pid pid', pendingRounds s !! r = Some pid → pendingRounds s' !! r = Some pid' → pid' = pid.

Definition fine s s' : Prop := steady s s' → inv s'.

Lemma fine_inv s s' : inv s' → fine s s'.
Proof. by intros ? ?. Qed.

Lemma fine_from s s1 s' : pendingRounds s1 = pendingRounds s → fine s1 s' → fine s s'.
Proof. intros Hm Hf Hs. apply Hf. unfold steady. by rewrite Hm. Qed.

(** ** Votes leave the map of rounds alone *)

Definition priced s : Prop := ∀ pid p, heap s !! pid = Some p → o_prices p ≠ [].

Lemma or_inv_priced x s : inv_but x s → priced s.
Proof. intros [] pid p Hp. by destruct (i_heap _ _ Hp). Qed.

Record voted s s' : Prop := {
  v_map : pendingRounds s' = pendingRounds s;
  v_heap pid p : heap s !! pid = Some p → ∃ p', heap s' !! pid = Some p' ∧ frame p' = frame p ∧ (o_timer p' = o_timer p ∨ o_timer p' = NoTimer);
  v_only pid p' : heap s' !! pid = Some p' → ∃ p, heap s !! pid = Some p ∧ frame p' = frame p }.

Lemma voted_same s s' : pendingRounds s' = pendingRounds s → heap s' = heap s → voted s s'.
Proof. intros H1 H2. split; rewrite ?H2; eauto 6. Qed.

Lemma voted_trans s1 s2 s3 : voted s1 s2 → voted s2 s3 → voted s1 s3.
Proof.
  intros [A1 A2 A3] [B1 B2 B3]. split; [congruence| |].
  - intros pid p (p' & Hp & F & T)%A2. destruct (B2 _ _ Hp) as (p'' & ? & ? & T'). exists p''. split_and!; [done|congruence|].
    destruct T' as [->|]; [done|by right].
  - intros pid p (p' & Hp & F)%B3. destruct (A3 _ _ Hp) as (p'' & ? & ?). exists p''. split; congruence.
Qed.

Lemma voted_priced s s' : voted s s' → priced s → priced s'.
Proof. intros [_ _ H] Hp pid p' (p & Hh & [= _ E _ _ _ _ _ _ _ _])%H. rewrite E. by eapply Hp. Qed.

Lemma voted_modify pid f s : (∀ p, frame (f p) = frame p ∧ (o_timer (f p) = o_timer p ∨ o_timer (f p) = NoTimer)) → voted s (modify pid f s).
Proof.
  intros Hf. split; [done| |]; cbn; intros q p; rewrite lookup_alter; case_decide; try (by eauto 6); subst.
  - intros ->. exists (f p). split; [done|apply Hf].
  - intros (p' & ? & ->)%fmap_Some. exists p'. split; [done|apply Hf].
Qed.

Lemma frame_verifyAndStoreSig h pk sg p : frame (verifyAndStoreSig h pk sg p) = frame p ∧ (o_timer (verifyAndStoreSig h pk sg p) = o_timer p ∨ o_timer (verifyAndStoreSig h pk sg p) = NoTimer).
Proof. unfold verifyAndStoreSig. repeat case_match; auto. Qed.
Lemma frame_store_own x p : frame (store_own x p) = frame p ∧ (o_timer (store_own x p) = o_timer p ∨ o_timer (store_own x p) = NoTimer).
Proof. unfold store_own. repeat case_match; auto. Qed.

Lemma voted_checkCommitQuorum h now r s : priced s → voted s (checkCommitQuorum h now r s).
Proof.
  intros Hp. unfold checkCommitQuorum. destruct (live r s) as [[pid p]|] eqn:Hl; [|by apply voted_same].
  destruct (o_finalized p); [by apply voted_same|]. destruct (quorumMet h p (o_commits p)); [|by apply voted_same].
  set (s1 := modify pid _ s). assert (H1 : voted s s1) by (apply voted_modify; auto). apply (voted_trans _ _ _ H1).
  unfold finalizeCommittedRound. destruct (live r s1) as [[q p']|] eqn:Hq; [|by apply voted_same].
  apply live_iff in Hq as [_ Hq]. pose proof (voted_priced _ _ H1 Hp _ _ Hq) as Hne.
  unfold storeSnapshot. cbn [commit_job j_prices]. destruct (o_prices p'); [done|by apply voted_same].
Qed.

Lemma voted_checkPrepareQuorum h now r s : priced s → voted s (checkPrepareQuorum h now r s).
Proof.
  intros Hp. unfold checkPrepareQuorum. destruct (live r s) as [[pid p]|]; [|by apply voted_same].
  destruct (o_finalized p); [by apply voted_same|]. destruct (_ && _); [|by apply voted_same].
  set (s1 := modify pid _ s). assert (H1 : voted s s1).
  { apply voted_modify. intros q. apply (frame_store_own (own_signature h p) (set_o_commits (addSelf h (o_commits q)) (set_o_commitSent true q))). }
  apply (voted_trans _ _ _ H1). set (s2 := emit _ s1). assert (H2 : voted s1 s2) by by apply voted_same. apply (voted_trans _ _ _ H2).
  by apply voted_checkCommitQuorum, (voted_priced _ _ H2), (voted_priced _ _ H1).
Qed.

Lemma voted_buffer h now r v s : voted s (bufferEarlyMessage h now r v s).
Proof. destruct (core_buffer_early h now r v s) as [Hc _]. unfold core in Hc. injection Hc as ? ? _ _ _. by apply voted_same. Qed.

Lemma voted_handleVote h now v s : priced s → voted s (handleVote h now v s).
Proof.
  intros Hp. unfold handleVote. destruct (vt_phase v).
  - unfold handlePrepare. destruct (vote_round h v) as [r|]; [|by apply voted_same].
    destruct (live r s) as [[pid p]|]; [|destruct (is_finalized r s); [by apply voted_same|apply voted_buffer]].
    destruct (negb _); [by apply voted_same|]. set (s1 := modify pid _ s).
    assert (H1 : voted s s1) by (apply voted_modify; intros q; by apply (frame_verifyAndStoreSig h _ _ (set_o_prepares _ q))).
    apply (voted_trans _ _ _ H1). by apply voted_checkPrepareQuorum, (voted_priced _ _ H1).
  - unfold handleCommit. destruct (vote_round h v) as [r|]; [|by apply voted_same].
    destruct (live r s) as [[pid p]|]; [|destruct (is_finalized r s); [by apply voted_same|apply voted_buffer]].
    destruct (negb _); [by apply voted_same|]. set (s1 := modify pid _ s).
    assert (H1 : voted s s1) by (apply voted_modify; intros q; by apply (frame_verifyAndStoreSig h _ _ (set_o_commits _ q))).
    apply (voted_trans _ _ _ H1). by apply voted_checkCommitQuorum, (voted_priced _ _ H1).
Qed.

Lemma voted_drain h now r s : priced s → voted s (drainEarlyMessages h now r s).
Proof.
  intros Hp. unfold drainEarlyMessages. destruct (m_get r _) as [arr|]; [|by apply voted_same].
  assert (H1 : voted s (drop_early r s)) by by apply voted_same. apply (voted_trans _ _ _ H1). apply (voted_priced _ _ H1) in Hp.
  clear H1. revert Hp. generalize (drop_early r s). clear s. induction arr as [|v arr IH]; intros s Hp; [by apply voted_same|].
  cbn [fold_left]. assert (H1 : voted s (handleVote h now v s)) by by apply voted_handleVote. apply (voted_trans _ _ _ H1).
  by apply IH, (voted_priced _ _ H1).
Qed.

(** ** Opening a round *)

Definition with_round r p s : state := put_pendingRounds (<[r := next s]> (pendingRounds s)) (new_round p s).

Lemma priced_with_round r p s : priced s → o_prices p ≠ [] → priced (with_round r p s).
Proof. intros Hs Hp q p'. cbn. rewrite lookup_insert. case_decide; [by intros [= <-]|apply Hs]. Qed.

Lemma priced_modify pid f s : (∀ p, o_prices (f p) = o_prices p) → priced s → priced (modify pid f s).
Proof. intros Hf Hs q p'. cbn. rewrite lookup_alter. case_decide; [|apply Hs]. intros (p & Hp & ->)%fmap_Some. rewrite Hf. by eapply Hs. Qed.

Lemma leader_round_ok h s st l adm : same_rules h0 h → l ≠ [] → pend_ok (leader_round h s st l adm).
Proof.
  intros Hr Hl. split.
  - unfold leader_round, signs_pending. cbn [o_signatures o_round o_prices o_height o_time o_admit].
    destruct (signPriceV0 h _ _ _ _ _) as [[pk sg]|] eqn:Hs; [|by apply Forall_nil]. apply Forall_singleton. by eapply signPriceV0_signs.
  - cbn. destruct (signPriceV0 h _ _ _ _ _) as [[pk sg]|]; [apply NoDup_singleton|apply NoDup_nil_2].
  - apply NoDup_addSelf, NoDup_nil_2.
  - apply NoDup_nil_2.
  - done.
  - done.
  - by intros [?|?].
Qed.

Lemma open_map h now st l adm s :
  priced s → l ≠ [] → pendingRounds (open_and_propose h now st l adm s) = <[st_round st := next s]> (pendingRounds s).
Proof.
  intros Hp Hl. unfold open_and_propose. set (p := leader_round h s st l adm). change (put_pendingRounds _ (new_round p s)) with (with_round (st_round st) p s).
  assert (Hp1 : priced (with_round (st_round st) p s)) by by apply priced_with_round.
  pose proof (voted_drain h now (st_round st) _ Hp1) as V2. pose proof (voted_priced _ _ V2 Hp1) as Hp2.
  set (s2 := drainEarlyMessages h now (st_round st) _) in *. set (s3 := modify (next s) _ s2).
  assert (Hp3 : priced s3) by by apply priced_modify.
  set (s4 := emit _ s3). assert (V4 : voted s3 s4) by by apply voted_same. pose proof (voted_priced _ _ V4 Hp3) as Hp4.
  pose proof (voted_checkPrepareQuorum h now (st_round st) s4 Hp4) as V5.
  by rewrite (v_map _ _ V5), (v_map _ _ V4), (v_map _ _ V2 : pendingRounds s3 = _).
Qed.

Lemma or_inv_open_and_propose h now st l adm s :
  same_rules h0 h → l ≠ [] → pendingRounds s !! st_round st = None → inv s → inv (open_and_propose h now st l adm s).
Proof.
  intros Hr Hl Hn Hs. unfold open_and_propose. set (p := leader_round h s st l adm). change (put_pendingRounds _ (new_round p s)) with (with_round (st_round st) p s).
  assert (H1 : inv (with_round (st_round st) p s)) by (apply or_inv_open; [done|by apply leader_round_ok|done..]).
  pose proof (voted_drain h now (st_round st) _ (or_inv_priced _ _ H1)) as V2. apply (or_inv_drain h0 Hself h now (st_round st)) in H1; [|done].
  set (s2 := drainEarlyMessages h now (st_round st) _) in *.
  destruct (v_heap _ _ V2 (next s) p) as (p2 & Hh & Hf & _); [by cbn; rewrite lookup_insert_eq|].
  assert (Hm : pendingRounds s2 !! st_round st = Some (next s)) by (rewrite (v_map _ _ V2); cbn; by rewrite lookup_insert_eq).
  apply or_inv_checkPrepareQuorum; [done|done|]. apply or_inv_emit; [done|].
  assert (Hro : o_round p2 = st_round st) by by injection Hf. pose proof H1 as [].
  apply (or_inv_set h0 None None (next s) _ s2 p2); try done.
  - pose proof (i_heap _ _ Hh) as []. split; try done; [by intros [?|?]|]. intros [?|?]; [|done]. by apply po_decided; left.
  - by rewrite Hro.
  - intros k κ Hk Hc. specialize (i_konts k κ Hk).
    assert (Hst : ∀ j, storing s2 (next s) j → o_finalized p2 = true ∧ None ≠ Some (next s)) by (intros j (_ & p' & ? & _ & ? & _); split; congruence).
    destruct κ as [| | | | | | | | | |? j [|q ?]|q j ?|]; cbn in *; try done; subst q; by eapply Hst.
  - intros _ Hfi _. by apply (i_work (st_round st) (next s) p2).
Qed.

Lemma fine_open_and_propose h now st l adm s : same_rules h0 h → l ≠ [] → inv s → fine s (open_and_propose h now st l adm s).
Proof.
  intros Hr Hl Hs Hst. destruct (pendingRounds s !! st_round st) as [pid|] eqn:Hm; [|by apply or_inv_open_and_propose].
  exfalso. pose proof (or_inv_priced _ _ Hs) as Hp. destruct Hs as []. specialize (Hst (st_round st) pid (next s) Hm). rewrite open_map, lookup_insert_eq in Hst by done.
  specialize (Hst eq_refl). destruct (i_map _ _ Hm) as (p & Hh & _). destruct (i_fresh (next s)) as [Hno _]; [lia|]. congruence.
Qed.

(** ** Proposing and the seats *)

Lemma or_inv_bump s : inv s → inv (bump s).
Proof. intros []. split; try done. intros n Hn. apply i_fresh. cbn in Hn. lia. Qed.

Lemma aggregated_nonempty x l : aggregated (x :: l) ≠ [].
Proof. done. Qed.

Lemma fine_proposeRound h now st s : same_rules h0 h → inv s → fine s (proposeRound h now st s).
Proof.
  intros Hr Hs. unfold proposeRound. destruct (aggregateAll _ _) as [|x l]; [by apply fine_inv, or_inv_storeSkipped|].
  destruct (admission_era _ _); [|by apply fine_open_and_propose]. apply fine_inv. by apply or_inv_suspend; [|intros ? []|].
Qed.

Lemma or_inv_arm_leader t s : inv s → inv (arm_leader_timer t s).
Proof. intros Hs. apply or_inv_bump. revert Hs. by apply or_inv_core. Qed.

Lemma or_inv_note r n s : inv s → inv (noteRoundSeat r n s).
Proof. by apply or_inv_core. Qed.

Lemma fine_takeSeat h now st s : same_rules h0 h → inv s → fine s (takeSeat h now st s).
Proof.
  intros Hr Hs. unfold takeSeat. destruct (isLeaderIdentity _ _ _).
  - eapply fine_from; [|apply fine_proposeRound; [done|by apply or_inv_note]]. done.
  - apply fine_inv. assert (H1 : inv (markRoundReady h now (st_round st) s)) by (revert Hs; by apply or_inv_core).
    destruct (leaderSubmissionAddr _ _ _); case_bool_decide; try apply or_inv_arm_leader; by apply or_inv_note.
Qed.

Lemma fine_onLeaderTimer h now t s s' : same_rules h0 h → onLeaderTimer h now t s = Some s' → inv s → fine s s'.
Proof.
  intros Hr. unfold onLeaderTimer. destruct (timers s !! t) as [lt|]; cbn; [|done]. set (st := lt_seat lt). intros [= <-] Hs.
  set (s1 := put_leaderTimers _ _). assert (H1 : inv s1) by (revert Hs; by apply or_inv_core).
  destruct (_ || _); [by apply fine_inv|]. destruct (_ <$> _) as [[|x subs]|]; [by apply fine_inv, or_inv_note| |by apply fine_inv, or_inv_note].
  destruct (match lt_leader lt with Some _ => _ | None => _ end); [|by apply fine_inv, or_inv_note].
  eapply fine_from; [|apply fine_proposeRound; [done|by apply or_inv_note]]. done.
Qed.

(** ** Closing a round *)

Lemma or_inv_solo_store h now c subs l adm s : same_rules h0 h → l ≠ [] → inv s → inv (solo_store h now c subs l adm s).
Proof.
  intros Hr Hl Hs. unfold solo_store. apply or_inv_storeSnapshot. cbn [caller_ok]. split; [|done]. split; [done|]. cbn.
  destruct (signPriceV0 h _ _ _ _ _) as [sg|] eqn:Hsg; [|by split; [apply NoDup_nil|apply Forall_nil]].
  split; [apply NoDup_singleton|]. apply Forall_singleton. by eapply signPriceV0_signs.
Qed.

Lemma or_inv_finalizeSolo h now c subs s : same_rules h0 h → inv s → inv (finalizeSoloRound h now c subs s).
Proof.
  intros Hr Hs. unfold finalizeSoloRound. destruct (aggregateAll _ _); [by apply or_inv_storeSkipped|].
  destruct (admission_era _ _); [by apply or_inv_suspend; [|intros ? []|]|by apply or_inv_solo_store].
Qed.

Lemma fine_seat_split h now c sn w subs s : same_rules h0 h → inv s → fine s (seat_split h now c sn w subs s).
Proof.
  intros Hr Hs. unfold seat_split. destruct (_ =? 0); [by apply fine_inv, or_inv_finalizeSolo|].
  destruct (quiet_arm (cl_round c) (cl_height c) (cl_time c) s) as [Hc Hf].
  eapply fine_from; [|apply fine_takeSeat; [done|]]; [by unfold core in Hc; injection Hc|]. by eapply or_inv_quiet.
Qed.

Lemma fine_onSettled h now c w sn s : same_rules h0 h → inv s → fine s (onSettledSnapshot h now c w sn s).
Proof.
  intros Hr Hs. unfold onSettledSnapshot. destruct (snapshotSkip _ _ _ _); [by apply fine_inv, or_inv_storeSkipped|].
  destruct (too_few _ _); [by apply fine_inv, or_inv_storeSkipped|]. destruct (isClampReferenceAlignActive _ _); [|by apply fine_seat_split].
  destruct (refresh_start _ _) as [rd ref]. apply fine_inv. apply or_inv_suspend; [done|by intros ? []|]. revert Hs. by apply or_inv_core.
Qed.

Lemma fine_finalizeOnSnapshot h now c w sn s : same_rules h0 h → inv s → fine s (finalizeOnSnapshot h now c w sn s).
Proof.
  intros Hr Hs. unfold finalizeOnSnapshot. destruct (_ && _); [|by apply fine_onSettled].
  destruct (roundIsFederated _ _ _); [by apply fine_inv, or_inv_storeSkipped|].
  destruct (hasCapabilitySnapshot _); [|by apply fine_onSettled]. apply fine_inv. by apply or_inv_suspend; [|intros ? []|].
Qed.

Lemma fine_finalizeRound h now r ht t s : same_rules h0 h → inv s → fine s (finalizeRound h now r ht t s).
Proof.
  intros Hr Hs. unfold finalizeRound. destruct (is_finalized r s); [by apply fine_inv|].
  destruct (getSubmissions r s) as [subs|]; [|by apply fine_inv, or_inv_storeSkipped].
  destruct (too_few h subs); [by apply fine_inv, or_inv_storeSkipped|].
  destruct (hasCapabilitySnapshot _); [|by apply fine_finalizeOnSnapshot]. apply fine_inv. by apply or_inv_suspend; [|intros ? []|].
Qed.
(** ** Judging a PROPOSE *)

Lemma follower_round_ok h now r l p lk q adm : l ≠ [] → pend_ok (follower_round h now r l p lk q adm).
Proof. intros Hl. split; [by apply Forall_nil|apply NoDup_nil_2..|done|done|by intros [?|?]]. Qed.

(** What opening leaves, when it opens. *)
Lemma opened h now r l p lk adm s :
  same_rules h0 h → l ≠ [] → inv s →
  let s' := openFollowerRound h now r l p lk adm s in
  inv s' ∧ (live r s = None → ∀ pid pd, live r s' = Some (pid, pd) → o_round pd = r ∧ o_prices pd = l).
Proof.
  intros Hr Hl Hs. cbn. unfold openFollowerRound. destruct (l_quorum lk) as [q|]; [|split; [done|congruence]]. unfold is_pending.
  case_bool_decide as Hp; [split; [done|congruence]|]. assert (Hn : pendingRounds s !! r = None) by (destruct (pendingRounds s !! r); [by destruct Hp|done]).
  set (pd := follower_round h now r l p lk q adm). change (put_pendingRounds _ (new_round pd s)) with (with_round r pd s).
  assert (H1 : inv (with_round r pd s)) by (apply or_inv_open; [done|by apply follower_round_ok|done..]).
  set (s1 := armRoundWatchdog _ _ _ _). assert (Hq : quiet (with_round r pd s) s1) by apply quiet_arm.
  assert (H2 : inv s1) by by eapply or_inv_quiet. clearbody s1.
  pose proof (voted_drain h now r _ (or_inv_priced _ _ H2)) as V. split; [by apply or_inv_drain|].
  intros _ pid pd' [Hm Hh]%live_iff. destruct Hq as [Hc _]. unfold core in Hc. injection Hc as C1 C2 _ _ _.
  rewrite (v_map _ _ V), C1, lookup_insert_eq in Hm. injection Hm as <-.
  destruct (v_only _ _ V _ _ Hh) as (p0 & Hp0 & Hf). rewrite C2, lookup_insert_eq in Hp0. injection Hp0 as <-.
  by injection Hf.
Qed.

Lemma or_inv_prepareOnPropose h now r e l p adm s :
  same_rules h0 h → (∀ pid pd, live r s = Some (pid, pd) → String.eqb (o_digest pd) (p_digest p) && bool_decide (spellAdmit (o_admit pd) = spellAdmit adm) = true →
    o_round pd = r ∧ o_prices pd = l) → inv s → inv (prepareOnPropose h now r e l p adm s).
Proof.
  intros Hr Hl Hs. unfold prepareOnPropose. destruct (live r s) as [[pid pd]|] eqn:Hlive; [|done]. specialize (Hl pid pd eq_refl).
  destruct (String.eqb _ _); cbn [negb]; [|done]. case_bool_decide; cbn [negb]; [|done]. destruct (Hl eq_refl) as [Hro Hpr].
  apply or_inv_checkPrepareQuorum; [done|done|]. apply or_inv_emit; [done|]. apply or_inv_modify; [|done].
  apply live_iff in Hlive as [_ Hlive]. intros q Hq Hok. assert (q = pd) as -> by congruence.
  set (q1 := set_o_prepares _ pd). assert (Hq1 : pend_ok q1) by (apply prepares_ok; [apply NoDup_addSelf, NoDup_addVote; by destruct Hok|done]).
  destruct (verifyAndStoreSig_ok h0 h (p_sig_pubkey p) (p_sig p) q1 Hr Hq1) as (V1 & V2 & V3).
  destruct (store_own_ok h0 (signPriceV0 h r (o_time pd) l (o_height pd) (o_admit pd)) (verifyAndStoreSig h (p_sig_pubkey p) (p_sig p) q1)) as (S1 & S2 & S3); [|done|].
  - intros y Hy. eapply signPriceV0_signs in Hy; [|done|done]. unfold frame in V2. injection V2 as F1 F2 F3 F4 F5 F6 F7 F8 F9 F10.
    unfold signs_pending. rewrite F1, F2, F4, F5, F6. unfold q1. cbn. by rewrite Hro, Hpr.
  - split_and!; [done| |].
    + unfold frame in S2, V2. injection S2 as E _ _ _ _ _ _ _ _ _. injection V2 as E' _ _ _ _ _ _ _ _ _. by rewrite E, E'.
    + by rewrite S3, V3.
Qed.

Lemma or_inv_coSign h now r e l p lk adm s : same_rules h0 h → l ≠ [] → inv s → inv (coSign h now r e l p lk adm s).
Proof.
  intros Hr Hl Hs. unfold coSign. destruct (opened h now r l p lk adm s Hr Hl Hs) as [H1 H2].
  destruct (live r s) as [[pid pd]|] eqn:Hlive; [|apply or_inv_prepareOnPropose; [done| |done]; intros; by eapply H2].
  destruct (_ && _) eqn:Hrep; [done|]. apply or_inv_prepareOnPropose; [done| |done]. intros pid' pd' Hl' Hrep'.
  assert (Ho : openFollowerRound h now r l p lk adm s = s).
  { unfold openFollowerRound, is_pending. destruct (l_quorum lk); [|done]. apply live_iff in Hlive as [Hm _].
    rewrite bool_decide_true; [done|]. by rewrite Hm. }
  rewrite Ho, Hlive in Hl'. injection Hl' as -> ->. by rewrite Hrep' in Hrep.
Qed.

Lemma or_inv_bindAndCoSign h now r e l p lk s : same_rules h0 h → l ≠ [] → p_prices p = Some l → inv s → inv (bindAndCoSign h now r e l p lk s).
Proof.
  intros Hr Hl Hp Hs. unfold bindAndCoSign. destruct (admission_era _ _), (p_admitBlocks p) as [m|]; try done; [|by apply or_inv_coSign].
  destruct (normalizedAdmit m); [|done]. apply or_inv_suspend; [cbn; congruence|by intros ? []|done].
Qed.

Lemma or_inv_judgeProposer h now r e l p lk s : same_rules h0 h → p_prices p = Some l → inv s → inv (judgeProposer h now r e l p lk s).
Proof.
  intros Hr Hp Hs. unfold judgeProposer. destruct (negb _); [done|]. destruct (coSignGateRejects _ _ _ _ _ _ _) eqn:Hg; [done|].
  apply or_inv_bindAndCoSign; try done. intros ->. done.
Qed.

Lemma or_inv_with_proposal p k s : (∀ r l, p_prices p = Some l → inv (k r l s)) → inv s → inv (with_proposal p k s).
Proof. intros Hk Hs. unfold with_proposal. destruct (p_round p), (p_prices p) as [l|]; try done. by apply Hk. Qed.

Lemma or_inv_onFollowerSnapshot h now e p ht rt w sn s : same_rules h0 h → inv s → inv (onFollowerSnapshot h now e p ht rt w sn s).
Proof.
  intros Hr Hs. unfold onFollowerSnapshot. destruct (_ && _); [done|]. destruct (isEmptyFederationSnapshot _ _ _ _); [done|].
  apply or_inv_with_proposal; [|done]. intros r l Hp. by apply or_inv_judgeProposer.
Qed.

Lemma or_inv_onWeightedSnapshot h now e p ht rt w sn s : same_rules h0 h → inv s → inv (onWeightedSnapshot h now e p ht rt w sn s).
Proof.
  intros Hr Hs. unfold onWeightedSnapshot. destruct (w && _); [|by apply or_inv_onFollowerSnapshot]. destruct (roundIsFederated _ _ _); [done|].
  destruct (hasCapabilitySnapshot _); [by apply or_inv_suspend; [|intros ? []|]|by apply or_inv_onFollowerSnapshot].
Qed.

Lemma or_inv_lockProposeSnapshot h now e p ht rt s : same_rules h0 h → inv s → inv (lockProposeSnapshot h now e p ht rt s).
Proof.
  intros Hr Hs. unfold lockProposeSnapshot. apply or_inv_with_proposal; [|done]. intros r l Hp.
  destruct (live r s) as [[pid pd]|]; [by apply or_inv_judgeProposer|].
  destruct (hasCapabilitySnapshot _); [by apply or_inv_suspend; [|intros ? []|]|by apply or_inv_onWeightedSnapshot].
Qed.

Lemma or_inv_onBoundedHeight h now e p ht s : same_rules h0 h → inv s → inv (onBoundedHeight h now e p ht s).
Proof.
  intros Hr Hs. unfold onBoundedHeight. apply or_inv_with_proposal; [|done]. intros r l Hp. destruct (_ && _); [done|].
  destruct (isClampReferenceAlignActive _ _); [|by apply or_inv_lockProposeSnapshot]. destruct (refresh_start _ _) as [rd ref].
  apply or_inv_suspend; [done|by intros ? []|]. revert Hs. by apply or_inv_core.
Qed.

Lemma or_inv_handlePropose h now e p s : same_rules h0 h → inv s → inv (handlePropose h now e p s).
Proof.
  intros Hr Hs. unfold handlePropose. destruct (proposalAdmissible _ _ _ _) as [[r l]|]; [|done].
  destruct (0 <? _); [destruct (wire_height p); [|done]; by apply or_inv_suspend; [|intros ? []|]|].
  destruct (_ && _); [by apply or_inv_suspend; [|intros ? []|]|by apply or_inv_onBoundedHeight].
Qed.

Lemma or_inv_resumeTip h now e p certain a s : same_rules h0 h → inv s → inv (resumeTip h now e p certain a s).
Proof.
  intros Hr Hs. unfold resumeTip.
  assert (Hb : ∀ tip, inv match wire_height p with Some ht => if within_tolerance h tip ht then onBoundedHeight h now e p ht s else s | None => s end).
  { intros tip. destruct (wire_height p); [|done]. destruct (within_tolerance _ _ _); [by apply or_inv_onBoundedHeight|done]. }
  destruct certain; [destruct a; [apply Hb|done]|]. destruct (_ ≫= _) as [tip|]; [|done].
  destruct (isFederatedHubActive _ _); [apply Hb|]. apply or_inv_with_proposal; [|done]. intros r l _. by apply or_inv_onBoundedHeight.
Qed.

Lemma or_inv_resumeBind h now e p lk m tips s :
  same_rules h0 h → p_prices p ≠ Some [] → inv s → inv (resumeBind h now e p lk m tips s).
Proof.
  intros Hr Hp Hs. unfold resumeBind. destruct tips; [|done]. destruct (checkAdmitBlocks _ _ _); [done|].
  apply or_inv_with_proposal; [|done]. intros r l Hl. apply or_inv_coSign; [done| |done]. congruence.
Qed.

Lemma or_inv_handleMessage h now m s : same_rules h0 h → inv s → inv (handleMessage h now m s).
Proof. intros Hr Hs. destruct m; [by apply or_inv_handlePropose|by apply or_inv_handleVote]. Qed.

(** ** Resumption *)

Definition excuse (κ : kont) : option nat := match κ with KStore _ _ (CommitCaller q _) | KBackoff q _ _ => Some q | _ => None end.

Lemma excuse_commit pid κ : commit_kont pid κ ↔ excuse κ = Some pid.
Proof. destruct κ as [| | | | | | | | | |? j [|q ?]|q j ?|]; cbn; naive_solver. Qed.

Lemma or_inv_taken k κ s : konts s !! k = Some κ → inv s → inv_but (excuse κ) (put_konts (delete k (konts s)) s) ∧ kont_ok h0 s κ.
Proof.
  intros Hk []. split; [|by apply (i_konts k)]. split; try done; cbn.
  - intros n Hn. destruct (i_fresh n Hn) as [? Hno]. split; [done|]. rewrite lookup_delete. by case_decide.
  - intros k' κ' [_ ?]%lookup_delete_Some. by apply (i_konts k').
  - intros k1 k2 κ1 κ2 pid [_ ?]%lookup_delete_Some [_ ?]%lookup_delete_Some. by eapply i_unique.
  - intros pid k' κ' He [Hne ?]%lookup_delete_Some Hc. apply Hne. apply (i_unique k k' κ κ' pid); try done. by apply excuse_commit.
  - intros r pid p Hm Hh Hf Hx. destruct (i_work r pid p Hm Hh Hf) as (k' & κ' & Hk' & Hc); [done|]. exists k', κ'. split; [|done].
    apply lookup_delete_Some. split; [|done]. intros <-. assert (κ' = κ) as -> by congruence. apply excuse_commit in Hc. congruence.
Qed.

Lemma caller_ok_taken k at_ j c s :
  konts s !! k = Some (KStore at_ j c) → inv s → caller_ok h0 (put_konts (delete k (konts s)) s) j c.
Proof. intros Hk Hs. destruct (or_inv_taken _ _ _ Hk Hs) as [H1 H2]. by destruct c as [cl subs|pid n]. Qed.

Lemma or_inv_with_cache x f s : inv_but x s → inv_but x (with_cache f s).
Proof. by apply or_inv_core. Qed.

Lemma fine_resume h now k κ ev s s' :
  same_rules h0 h → konts s !! k = Some κ → resume h now κ ev (put_konts (delete k (konts s)) s) = Some s' → inv s → fine s s'.
Proof.
  intros Hr Hk Hs' Hs. destruct (or_inv_taken _ _ _ Hk Hs) as [H1 H2].
  assert (Hst : ∀ at_ j c, κ = KStore at_ j c → caller_ok h0 (put_konts (delete k (konts s)) s) j c)
    by (intros at_ j c ->; by eapply caller_ok_taken).
  assert (Hm : pendingRounds (put_konts (delete k (konts s)) s) = pendingRounds s) by done.
  assert (Hb : ∀ pid j n, κ = KBackoff pid j n → storing (put_konts (delete k (konts s)) s) pid j) by (intros pid j n ->; exact H2).
  revert H1 Hm Hs' Hst Hb. generalize (put_konts (delete k (konts s)) s). intros s1 H1 Hm Hs' Hst Hb. apply (fine_from _ s1 _ Hm).
  destruct κ as [c w|c|c sn w subs rd|c subs l|st l|e p ct|e p ht rt rd|e p ht rt w|e p ht rt|e p lk m|at_ j c|pid j n|wr r b t];
    cbn [excuse] in H1; cbn [resume kont_ok] in *.
  - destruct ev as [| | | | |_k a| | | | | | | | | | | | | |]; try done. injection Hs' as <-. destruct a; [by apply fine_finalizeOnSnapshot|by apply fine_inv].
  - destruct ev as [| | | | |_k a| | | | | | | | | | | | | |]; try done. injection Hs' as <-. destruct a; [by apply fine_onSettled|by apply fine_inv].
  - destruct ev; try done. injection Hs' as <-. eapply fine_from; [|apply fine_seat_split; [done|by apply or_inv_with_cache]]. done.
  - destruct ev; try done. injection Hs' as <-. apply fine_inv. unfold resumeSolo. destruct answer; [by apply or_inv_solo_store|done].
  - destruct ev; try done. injection Hs' as <-. unfold resumeLead. destruct answer; [|by apply fine_inv].
    destruct (_ || _); [by apply fine_inv|by apply fine_open_and_propose].
  - destruct ev; try done. injection Hs' as <-. by apply fine_inv, or_inv_resumeTip.
  - destruct ev; try done. injection Hs' as <-. apply fine_inv, or_inv_lockProposeSnapshot; [done|by apply or_inv_with_cache].
  - destruct ev as [| | | | |_k a| | | | | | | | | | | | | |]; try done. injection Hs' as <-. apply fine_inv. destruct a; [by apply or_inv_onWeightedSnapshot|done].
  - destruct ev as [| | | | |_k a| | | | | | | | | | | | | |]; try done. injection Hs' as <-. apply fine_inv. destruct a; [by apply or_inv_onFollowerSnapshot|done].
  - destruct ev; try done. injection Hs' as <-. by apply fine_inv, or_inv_resumeBind.
  - apply fine_inv. specialize (Hst at_ j c eq_refl). destruct at_, ev; try done; apply (inj Some) in Hs'; subst s'; by apply or_inv_resumeStore.
  - destruct ev; try done. injection Hs' as <-. apply fine_inv. apply or_inv_resumeBackoff; [by eapply Hb|done].
  - destruct ev; try done. injection Hs' as <-. by apply fine_inv, or_inv_resumeSkip.
Qed.

(** ** Steps and runs *)

Lemma or_inv_initial : inv initial.
Proof. split; try done; intros; cbn in *; rewrite ?lookup_empty in *; try done; by apply elem_of_nil in H. Qed.

(** Stopping, which drops timers and stores, ends a run. *)
Definition running (ev : event) : Prop := match ev with EvStop | EvStopped => False | _ => True end.

Lemma fine_step h now ev s s' : same_rules h0 h → running ev → step h now ev s = Some s' → inv s → fine s s'.
Proof.
  intros Hr Hrun. assert (Ht : ∀ k, ('(κ, s) ← taken k s; resume h now κ ev s) = Some s' → inv s → fine s s').
  { intros k Hk Hs. unfold taken in Hk. destruct (konts s !! k) as [κ|] eqn:Hko; [|done]. cbn in Hk. by eapply fine_resume. }
  destruct ev; cbn [running] in Hrun; try done; cbn [step]; try (by apply Ht); intros Hs' Hs; try (apply (inj Some) in Hs'; subst s').
  - apply fine_inv. revert Hs. by apply or_inv_core.
  - apply fine_inv. revert Hs. by apply or_inv_core.
  - apply fine_inv. unfold add_submission. destruct (existsb _ _); [done|]. revert Hs. by apply or_inv_core.
  - by apply fine_finalizeRound.
  - by apply fine_inv, or_inv_handleMessage.
  - apply fine_inv. by eapply or_inv_onTimer.
  - by eapply fine_onLeaderTimer.
  - by apply fine_inv, or_inv_onRoundAbandoned.
  - by apply fine_inv, or_inv_with_cache.
  - by apply fine_inv, or_inv_with_cache.
Qed.

(** Every step of a run is steady. *)
Fixpoint steady_run (evs : list (env * Z * event)) (s : state) : Prop :=
  match evs with
  | [] => True
  | (h, now, ev) :: evs => match step h now ev s with Some s' => steady s s' ∧ steady_run evs s' | None => True end
  end.

Lemma steady_run_app evs evs' s s1 : steady_run (evs ++ evs') s → run evs s = Some s1 → steady_run evs s ∧ steady_run evs' s1.
Proof.
  revert s. induction evs as [|[[h now] ev] evs IH]; intros s; cbn [run steady_run app]; [by intros ? [= ->]|].
  destruct (step h now ev s) as [s2|]; cbn; [|done]. intros [? Hst] Hr. destruct (IH s2 Hst Hr). by split_and!.
Qed.

(** The hub's own rules through a run. *)
Definition lawful (evs : list (env * Z * event)) : Prop := Forall (λ x, same_rules h0 x.1.1 ∧ running x.2) evs.

Lemma or_inv_run evs s s' : lawful evs → steady_run evs s → run evs s = Some s' → inv s → inv s'.
Proof.
  unfold lawful. revert s. induction evs as [|[[h now] ev] evs IH]; intros s; cbn [run steady_run]; [by intros _ _ [= <-]|].
  intros [[Hr Hrun] Hl]%Forall_cons Hst. cbn [fst snd] in *. destruct (step h now ev s) as [s1|] eqn:Hstep; cbn; [|done].
  destruct Hst as [Hst1 Hst2]. intros Hs' Hs. apply (IH s1); try done. by eapply fine_step.
Qed.
End Safety.
