(* ===== verification/OrKeep.v ===== *)
(** * Oracle rounds: a decided round is never lost

    Every step leaves a decided round decided, or announced; nothing that was
    announced is taken back. *)

From S2P Require Import Prelude Ordered GateRegistry BigNum Quorum Json AttestWire OracleBand OracleAggregate OracleCosign Admission PbftState PbftEngine OrState OrMembers OrRounds OrInv OrVotes OrStores OrSafety.
Open Scope Z_scope.

Section Keep.
Context {B : BigNumber} (h0 : env).
Context (Hself : ∀ id c, identity (hub h0) = Some id → verify h0 c (sign (hub h0) c) id = true).
Implicit Types (s : state).
Abbreviation inv := (inv h0).

Record keeps s s' : Prop := {
  k_announced r : announced r s → announced r s';
  k_committed r : committed r s → committed r s' ∨ announced r s' }.

Lemma keeps_refl s : keeps s s.
Proof. split; auto. Qed.

Lemma keeps_trans s1 s2 s3 : keeps s1 s2 → keeps s2 s3 → keeps s1 s3.
Proof. intros [A1 A2] [B1 B2]. split; [auto|]. intros r [?|?]%A2; auto. Qed.

(** ** Primitive changes *)

Section From.
Context (s0 : state).

Lemma keeps_core s s' : core s' = core s → keeps s0 s → keeps s0 s'.
Proof.
  intros Hc Hk. eapply keeps_trans; [exact Hk|]. unfold core in Hc. injection Hc as H1 H2 _ _ H5.
  split; intros r; unfold announced, committed, live; rewrite ?H1, ?H2, ?H5; auto.
Qed.

Lemma keeps_emit e s : keeps s0 s → keeps s0 (emit e s).
Proof.
  intros Hk. eapply keeps_trans; [exact Hk|]. split; [|by left]. intros r (a & ? & ?). exists a. split; [by right|done].
Qed.

Lemma keeps_suspend κ s : keeps s0 s → keeps s0 (suspend κ s).
Proof. intros Hk. eapply keeps_trans; [exact Hk|]. split; auto. Qed.

Lemma keeps_bump s : keeps s0 s → keeps s0 (bump s).
Proof. intros Hk. eapply keeps_trans; [exact Hk|]. split; auto. Qed.

Lemma keeps_modify pid f s :
  (∀ r p, live r s = Some (pid, p) → in_store p → in_store (f p) ∨ announced r s) → keeps s0 s → keeps s0 (modify pid f s).
Proof.
  intros Hf Hk. eapply keeps_trans; [exact Hk|]. split; [done|]. intros r (q & p & Hl & Hi). pose proof Hl as [Hm Hh]%live_iff.
  destruct (decide (q = pid)) as [->|Hne].
  - destruct (Hf r p Hl Hi) as [Hi'|?]; [left|by right]. exists pid, (f p). split; [|done]. apply live_iff. split; [done|].
    cbn. by rewrite lookup_alter_eq, Hh.
  - left. exists q, p. split; [|done]. apply live_iff. split; [done|]. cbn. by rewrite lookup_alter_ne.
Qed.

Lemma keeps_delete r s :
  (∀ pid p, live r s = Some (pid, p) → in_store p → announced r s) → keeps s0 s → keeps s0 (put_pendingRounds (delete r (pendingRounds s)) s).
Proof.
  intros Hr Hk. eapply keeps_trans; [exact Hk|]. split; [done|]. intros r' (q & p & Hl & Hi). destruct (decide (r' = r)) as [->|Hne]; [right; by eapply Hr|].
  left. exists q, p. split; [|done]. apply live_iff in Hl as [Hm Hh]. apply live_iff. split; [|done]. cbn. by rewrite lookup_delete_ne.
Qed.

(** ** Handlers *)

Lemma keeps_finish_skip h r s : keeps s0 s → keeps s0 (finish_skip h r s).
Proof.
  intros Hk. unfold finish_skip. eapply keeps_core; [apply (quiet_clear r)|]. unfold markLocallySkipped. case_bool_decide; [done|].
  destruct (ring_push _ _ _ _). apply keeps_emit. revert Hk. by apply keeps_core.
Qed.

Lemma keeps_storeSkipped h now r ht t s : keeps s0 s → keeps s0 (storeSkippedRound h now r ht t s).
Proof.
  intros Hk. unfold storeSkippedRound. destruct (markerPairs h r); [by apply keeps_finish_skip|]. by apply keeps_suspend, keeps_emit.
Qed.

Lemma keeps_broadcast h r ok s : keeps s0 s → keeps s0 (broadcastStoredRound h r ok s).
Proof. intros Hk. unfold broadcastStoredRound. destruct (hubDbBroadcaster h); [by apply keeps_emit|done]. Qed.

Lemma keeps_resumeSkip h w r b t ok s : keeps s0 s → keeps s0 (resumeSkip h w r b t ok s).
Proof. intros Hk. unfold resumeSkip. destruct w; [by apply keeps_finish_skip, keeps_broadcast|]. destruct ok; [by apply keeps_suspend|done]. Qed.

Lemma keeps_onRoundAbandoned h now r s : keeps s0 s → keeps s0 (onRoundAbandoned h now r s).
Proof.
  intros Hk. unfold onRoundAbandoned. destruct (roundWatchdogs s !! r); [|done]. case_bool_decide; [revert Hk; by apply keeps_core|].
  destruct (_ && _); [revert Hk; by apply keeps_core|]. apply keeps_storeSkipped. revert Hk. by apply keeps_core.
Qed.

Lemma keeps_announceSolo h j c subs s : keeps s0 s → keeps s0 (announceSoloRound h j c subs s).
Proof. intros Hk. unfold announceSoloRound. apply keeps_emit. eapply keeps_core; [apply (core_markFinalized h (cl_round c))|done]. Qed.

Lemma keeps_announceCommitted h r pid p s : heap s !! pid = Some p → keeps s0 s → keeps s0 (announceCommittedRound h r pid s).
Proof.
  intros Hp Hk. unfold announceCommittedRound. destruct (core_markFinalized h r s) as [Hc _]. set (s1 := markFinalized h r s) in *. clearbody s1.
  set (s2 := put_pendingRounds _ s1). destruct (quiet_clear r s2) as [Hc2 _]. set (s3 := clearRoundTracking r s2) in *. clearbody s3.
  assert (H3 : heap s3 = heap s ∧ pendingRounds s3 = delete r (pendingRounds s) ∧ out s3 = out s) by (unfold core, s2 in *; cbn in Hc2; split_and!; congruence).
  destruct H3 as (H1 & H2 & H3). rewrite H1, Hp. eapply keeps_trans; [exact Hk|].
  split; intros r'.
  - intros (a & ? & ?). exists a. split; [|done]. right. by rewrite H3.
  - intros (q & p' & [Hm Hh]%live_iff & Hi). destruct (decide (r' = r)) as [->|Hne]; [right; eexists; split; [by left|done]|].
    left. exists q, p'. split; [|done]. apply live_iff. cbn. rewrite H1, H2. split; [|done]. by rewrite lookup_delete_ne.
Qed.

Lemma keeps_stored h j c s : caller_ok h0 s j c → keeps s0 s → keeps s0 (stored h j c s).
Proof.
  destruct c as [cl subs|pid n]; intros [H1 _] Hk; [by apply keeps_announceSolo|]. destruct H1 as (_ & p & Hp & _). by eapply keeps_announceCommitted.
Qed.

Lemma keeps_storeSnapshot h j c s : j_prices j ≠ [] → keeps s0 s → keeps s0 (storeSnapshot h j c s).
Proof. intros Hj Hk. unfold storeSnapshot. destruct (j_prices j); [done|by apply keeps_suspend]. Qed.

Lemma keeps_storeFailed j c s : caller_ok h0 s j c → keeps s0 s → keeps s0 (storeFailed j c s).
Proof.
  unfold storeFailed. destruct c as [cl subs|pid n]; intros Hc Hk; [done|]. destruct (n <? MAX_STORE_ATTEMPTS)%nat; [by apply keeps_suspend|].
  destruct (live (j_round j) s) as [[q p]|]; [|done]. unfold armFinalizeRetry.
  apply (keeps_core (modify q (λ p, set_o_timer Retry (set_o_retryMs (retry_delay (o_retryMs p)) (set_o_finalized false p))) s));
    [unfold core; cbn; by rewrite alter_alter_eq|].
  apply keeps_modify; [|done]. intros r p' _ _. left. by right.
Qed.

Lemma keeps_resumeStore h now at_ j c answer ok s : caller_ok h0 s j c → keeps s0 s → keeps s0 (resumeStore h now at_ j c answer ok s).
Proof.
  intros Hc Hk. unfold resumeStore. destruct at_.
  - destruct ok; [|by apply keeps_storeFailed]. apply keeps_suspend, keeps_emit. unfold persistCapabilitySnapshot.
    destruct answer as [[[|v vs] []]|]; try done. by apply keeps_emit.
  - destruct ok; [|by apply keeps_storeFailed]. apply keeps_suspend. destruct (missing_pairs h j); [done|by apply keeps_emit].
  - apply keeps_suspend. revert Hk. by apply keeps_core.
  - apply keeps_stored; [|by apply keeps_broadcast]. unfold broadcastStoredRound. destruct (hubDbBroadcaster h); [|done]. apply caller_ok_emit; [by destruct ok|done].
Qed.

Lemma keeps_resumeBackoff h pid j n s : j_prices j ≠ [] → keeps s0 s → keeps s0 (resumeBackoff h pid j n s).
Proof. intros Hj Hk. unfold resumeBackoff. destruct (is_pending _ _); [by apply keeps_storeSnapshot|done]. Qed.

Lemma keeps_finalizeCommitted h now r s : priced s → keeps s0 s → keeps s0 (finalizeCommittedRound h now r s).
Proof.
  intros Hp Hk. unfold finalizeCommittedRound. destruct (live r s) as [[pid p]|] eqn:Hl; [|done]. apply live_iff in Hl as [_ Hh].
  apply keeps_storeSnapshot; [by apply (Hp pid)|done].
Qed.

Lemma keeps_commit pid f s : (∀ p, o_finalized (f p) = true) → keeps s0 s → keeps s0 (modify pid f s).
Proof. intros Hf. apply keeps_modify. intros r p _ _. left. by left. Qed.

Lemma keeps_checkCommitQuorum h now r s : priced s → keeps s0 s → keeps s0 (checkCommitQuorum h now r s).
Proof.
  intros Hp Hk. unfold checkCommitQuorum. destruct (live r s) as [[pid p]|]; [|done]. destruct (o_finalized p); [done|]. destruct (quorumMet _ _ _); [|done].
  apply keeps_finalizeCommitted; [by apply priced_modify|by apply keeps_commit].
Qed.

Lemma keeps_votes pid f s : (∀ p, control (f p) = control p) → keeps s0 s → keeps s0 (modify pid f s).
Proof. intros Hf. apply keeps_modify. intros r p _ Hi. left. specialize (Hf p). unfold control in Hf. injection Hf as H1 H2. unfold in_store. by rewrite H1, H2. Qed.

Lemma control_verifyAndStoreSig h pk sg p : control (verifyAndStoreSig h pk sg p) = control p ∧ o_prices (verifyAndStoreSig h pk sg p) = o_prices p.
Proof. unfold verifyAndStoreSig. repeat case_match; done. Qed.
Lemma control_store_own x p : control (store_own x p) = control p ∧ o_prices (store_own x p) = o_prices p.
Proof. unfold store_own. repeat case_match; done. Qed.

Lemma keeps_checkPrepareQuorum h now r s : priced s → keeps s0 s → keeps s0 (checkPrepareQuorum h now r s).
Proof.
  intros Hp Hk. unfold checkPrepareQuorum. destruct (live r s) as [[pid p]|]; [|done]. destruct (o_finalized p); [done|]. destruct (_ && _); [|done].
  apply keeps_checkCommitQuorum.
  - apply (priced_modify pid); [|done]. intros q. exact (proj2 (control_store_own _ (set_o_commits _ (set_o_commitSent true q)))).
  - apply keeps_emit, keeps_votes; [|done]. intros q. exact (proj1 (control_store_own _ (set_o_commits _ (set_o_commitSent true q)))).
Qed.

Lemma keeps_handleVote h now v s : priced s → keeps s0 s → keeps s0 (handleVote h now v s).
Proof.
  intros Hp Hk. unfold handleVote, handlePrepare, handleCommit. destruct (vt_phase v), (vote_round h v) as [r|]; try done;
    (destruct (live r s) as [[pid p]|]; [|destruct (is_finalized r s); [done|eapply keeps_core; [apply core_buffer_early|done]]]); (destruct (negb _); [done|]).
  - apply keeps_checkPrepareQuorum; [apply priced_modify; [|done]|apply keeps_votes; [|done]]; intros q;
      by destruct (control_verifyAndStoreSig h (vt_sig_pubkey v) (vt_sig v) (set_o_prepares (addVote (vt_envelope v) (o_prepares q)) q)).
  - apply keeps_checkCommitQuorum; [apply priced_modify; [|done]|apply keeps_votes; [|done]]; intros q;
      by destruct (control_verifyAndStoreSig h (vt_sig_pubkey v) (vt_sig v) (set_o_commits (addVote (vt_envelope v) (o_commits q)) q)).
Qed.

Lemma keeps_drain h now r s : priced s → keeps s0 s → keeps s0 (drainEarlyMessages h now r s).
Proof.
  intros Hp Hk. unfold drainEarlyMessages. destruct (m_get r _) as [arr|]; [|done].
  assert (Hk1 : keeps s0 (drop_early r s)) by (revert Hk; by apply keeps_core).
  assert (Hp1 : priced (drop_early r s)) by done. revert Hp1 Hk1. generalize (drop_early r s). clear. induction arr as [|v arr IH]; intros s Hp Hk; [done|].
  cbn [fold_left]. apply IH; [|by apply keeps_handleVote]. eapply voted_priced; [by apply voted_handleVote|done].
Qed.

(** ** Timers *)

Lemma keeps_onTimer h now pid s s' : onTimer h now pid s = Some s' → inv s → keeps s0 s → keeps s0 s'.
Proof.
  intros Ht Hs Hk. pose proof (or_inv_priced _ _ _ Hs) as Hp. pose proof Hs as []. unfold onTimer in Ht. destruct (heap s !! pid) as [p|] eqn:Hh; [|done]. cbn in Ht.
  pose proof (i_heap _ _ Hh) as [].
  assert (Hoff : o_timer p ≠ Retry → keeps s0 (modify pid (set_o_timer NoTimer) s)).
  { intros Hr. apply keeps_modify; [|done]. intros r p' [_ ?]%live_iff [?|?]; [left; by left|congruence]. }
  assert (Hgone : o_finalized p = false → o_timer p ≠ Retry → ∀ s1, heap s1 = alter (set_o_timer NoTimer) pid (heap s) → pendingRounds s1 = pendingRounds s →
    pendingRounds s !! o_round p = Some pid → keeps s0 s1 → keeps s0 (put_pendingRounds (delete (o_round p) (pendingRounds s1)) s1)).
  { intros Hf Hr s1 H1 H2 Hm. apply keeps_delete. intros q p' [Hq Hp']%live_iff Hi. exfalso. rewrite H2, Hm in Hq. injection Hq as <-.
    rewrite H1, lookup_alter_eq, Hh in Hp'. injection Hp' as <-. destruct Hi as [?|?]; [cbn in *; congruence|done]. }
  destruct (o_timer p) eqn:Htm; [done|..]; injection Ht as <-.
  - unfold onLeaderTimeout. rewrite Hh. destruct (o_finalized p) eqn:Hf; [by apply Hoff|].
    apply (Hgone eq_refl ltac:(done) (count_timeout (modify pid (set_o_timer NoTimer) s))); [done|done|apply (i_timer _ _ Hh); right; by split|].
    eapply keeps_core; [|by apply Hoff]. done.
  - assert (Hw : waiting p) by by left. pose proof (po_waiting Hw) as Hf. pose proof (i_timer _ _ Hh (or_introl Hw)) as Hm.
    unfold onFollowerTimeout. rewrite Hh. set (s1 := match live _ _ with Some _ => _ | None => _ end).
    assert (H1 : core s1 = core (modify pid (set_o_timer NoTimer) s)) by (unfold s1; destruct (live _ _) as [[q p']|]; [by destruct (o_finalized p')|done]).
    pose proof H1 as Hc. unfold core in Hc. injection Hc as C1 C2 _ _ _. apply Hgone; try done. eapply keeps_core; [exact H1|by apply Hoff].
  - assert (Hw : waiting p) by by right. pose proof (po_waiting Hw) as Hf. pose proof (i_timer _ _ Hh (or_introl Hw)) as Hm.
    unfold onFinalizeRetry. rewrite Hh. assert (live (o_round p) (modify pid (set_o_timer NoTimer) s) = Some (pid, set_o_timer NoTimer p)) as ->.
    { apply live_iff. split; [done|]. change (alter (set_o_timer NoTimer) pid (heap s) !! pid = Some (set_o_timer NoTimer p)). by rewrite lookup_alter_eq, Hh. }
    change (o_finalized (set_o_timer NoTimer p)) with (o_finalized p). rewrite Hf. cbn [orb]. unfold is_finalized. case_bool_decide as Hfin.
    + apply keeps_modify; [|done]. intros r p' [Hr Hh']%live_iff _. right. destruct (i_map _ _ Hr) as (p'' & ? & <-). assert (p'' = p) as -> by congruence. by apply i_final.
    + apply keeps_finalizeCommitted; [by do 2 (apply priced_modify; [done|])|].
      apply (keeps_core (modify pid (λ p, set_o_finalized true (set_o_timer NoTimer p)) s)); [unfold core; cbn; by rewrite alter_alter_eq|by apply keeps_commit].
Qed.

(** ** Opening a round *)

Lemma steady_from s s1 s' : pendingRounds s1 = pendingRounds s → steady s s' → steady s1 s'.
Proof. unfold steady. by intros ->. Qed.

Lemma keeps_with_round r p s : pendingRounds s !! r = None → inv s → keeps s0 s → keeps s0 (with_round r p s).
Proof.
  intros Hn [] Hk. eapply keeps_trans; [exact Hk|]. split; [done|]. intros r' (q & p' & [Hm Hh]%live_iff & Hi). left. exists q, p'. split; [|done].
  apply live_iff. cbn. destruct (i_fresh (next s)) as [Hno _]; [lia|]. split; rewrite lookup_insert_ne; congruence.
Qed.

Lemma opens_fresh h now st l adm s :
  inv s → l ≠ [] → steady s (open_and_propose h now st l adm s) → pendingRounds s !! st_round st = None.
Proof.
  intros Hs Hl Hst. destruct (pendingRounds s !! st_round st) as [pid|] eqn:Hm; [|done]. exfalso.
  pose proof (or_inv_priced _ _ _ Hs) as Hp. destruct Hs as []. specialize (Hst (st_round st) pid (next s) Hm). rewrite open_map, lookup_insert_eq in Hst by done.
  specialize (Hst eq_refl). destruct (i_map _ _ Hm) as (p & Hh & _). destruct (i_fresh (next s)) as [Hno _]; [lia|]. congruence.
Qed.

Lemma keeps_open_and_propose h now st l adm s :
  inv s → l ≠ [] → keeps s0 s → steady s (open_and_propose h now st l adm s) → keeps s0 (open_and_propose h now st l adm s).
Proof.
  intros Hs Hl Hk Hn%opens_fresh; [|done|done]. unfold open_and_propose. set (p := leader_round h s st l adm).
  change (put_pendingRounds _ (new_round p s)) with (with_round (st_round st) p s).
  assert (Hp1 : priced (with_round (st_round st) p s)) by (apply priced_with_round; [by eapply or_inv_priced|done]).
  pose proof (voted_drain h now (st_round st) _ Hp1) as V. assert (Hk2 : keeps s0 (drainEarlyMessages h now (st_round st) (with_round (st_round st) p s)))
    by by apply keeps_drain, keeps_with_round.
  pose proof (voted_priced _ _ V Hp1) as Hp2. set (s2 := drainEarlyMessages h now (st_round st) _) in *.
  destruct (v_heap _ _ V (next s) p) as (p2 & Hh & _ & Ht); [by cbn; rewrite lookup_insert_eq|].
  apply keeps_checkPrepareQuorum; [by apply (priced_modify (next s))|]. apply keeps_emit, keeps_modify; [|done].
  intros r q [_ Hq]%live_iff [Hi|Hi]; left; [by left|]. assert (q = p2) as -> by congruence. exfalso. cbn in Ht. destruct Ht; congruence.
Qed.

Lemma keeps_openFollower h now r l p lk adm s : inv s → l ≠ [] → keeps s0 s → keeps s0 (openFollowerRound h now r l p lk adm s).
Proof.
  intros Hs Hl Hk. unfold openFollowerRound. destruct (l_quorum lk) as [q|]; [|done]. unfold is_pending.
  case_bool_decide as Hp; [done|]. assert (Hn : pendingRounds s !! r = None) by (destruct (pendingRounds s !! r); [by destruct Hp|done]).
  set (pd := follower_round h now r l p lk q adm). change (put_pendingRounds _ (new_round pd s)) with (with_round r pd s).
  assert (Hp1 : priced (with_round r pd s)) by (apply priced_with_round; [by eapply or_inv_priced|done]).
  set (s1 := armRoundWatchdog _ _ _ _). assert (Hq : quiet (with_round r pd s) s1) by apply quiet_arm. destruct Hq as [Hc _].
  apply keeps_drain; [|eapply keeps_core; [exact Hc|by apply keeps_with_round]]. unfold core in Hc. injection Hc as _ C2 _ _ _. unfold priced. by rewrite C2.
Qed.

(** ** Proposing and closing *)

Lemma keeps_proposeRound h now st s :
  inv s → keeps s0 s → steady s (proposeRound h now st s) → keeps s0 (proposeRound h now st s).
Proof.
  intros Hs Hk. unfold proposeRound. destruct (aggregateAll _ _) as [|x l]; [intros _; by apply keeps_storeSkipped|].
  destruct (admission_era _ _); [intros _; by apply keeps_suspend|by apply keeps_open_and_propose].
Qed.

Lemma keeps_note r n s : keeps s0 s → keeps s0 (noteRoundSeat r n s).
Proof. by apply keeps_core. Qed.
Lemma keeps_arm_leader t s : keeps s0 s → keeps s0 (arm_leader_timer t s).
Proof. intros Hk. apply keeps_bump. revert Hk. by apply keeps_core. Qed.

Lemma keeps_takeSeat h now st s : inv s → keeps s0 s → steady s (takeSeat h now st s) → keeps s0 (takeSeat h now st s).
Proof.
  intros Hs Hk. unfold takeSeat. destruct (isLeaderIdentity _ _ _).
  - intros Hst. apply keeps_proposeRound; [by apply or_inv_note|by apply keeps_note|]. revert Hst. by apply steady_from.
  - intros _. assert (H1 : keeps s0 (markRoundReady h now (st_round st) s)) by (revert Hk; by apply keeps_core).
    destruct (leaderSubmissionAddr _ _ _); case_bool_decide; try apply keeps_arm_leader; by apply keeps_note.
Qed.

Lemma keeps_onLeaderTimer h now t s s' : onLeaderTimer h now t s = Some s' → inv s → keeps s0 s → steady s s' → keeps s0 s'.
Proof.
  unfold onLeaderTimer. destruct (timers s !! t) as [lt|]; cbn; [|done]. set (st := lt_seat lt). intros [= <-] Hs Hk.
  set (s1 := put_leaderTimers _ _). assert (H1 : inv s1) by (revert Hs; by apply or_inv_core). assert (K1 : keeps s0 s1) by (revert Hk; by apply keeps_core).
  destruct (_ || _); [done|]. destruct (_ <$> _) as [[|x subs]|]; [intros _; by apply keeps_note| |intros _; by apply keeps_note].
  destruct (match lt_leader lt with Some _ => _ | None => _ end); [|intros _; by apply keeps_note].
  intros Hst. apply keeps_proposeRound; [by apply or_inv_note|by apply keeps_note|]. revert Hst. by apply steady_from.
Qed.

Lemma keeps_solo_store h now c subs l adm s : l ≠ [] → keeps s0 s → keeps s0 (solo_store h now c subs l adm s).
Proof. intros Hl Hk. unfold solo_store. by apply keeps_storeSnapshot. Qed.

Lemma keeps_finalizeSolo h now c subs s : keeps s0 s → keeps s0 (finalizeSoloRound h now c subs s).
Proof.
  intros Hk. unfold finalizeSoloRound. destruct (aggregateAll _ _); [by apply keeps_storeSkipped|].
  destruct (admission_era _ _); [by apply keeps_suspend|by apply keeps_solo_store].
Qed.

Lemma keeps_seat_split h now c sn w subs s : inv s → keeps s0 s → steady s (seat_split h now c sn w subs s) → keeps s0 (seat_split h now c sn w subs s).
Proof.
  intros Hs Hk. unfold seat_split. destruct (_ =? 0); [intros _; by apply keeps_finalizeSolo|]. intros Hst.
  destruct (quiet_arm (cl_round c) (cl_height c) (cl_time c) s) as [Hc Hf]. apply keeps_takeSeat.
  - by eapply or_inv_quiet.
  - by eapply keeps_core.
  - revert Hst. apply steady_from. unfold core in Hc. by injection Hc.
Qed.

Lemma keeps_onSettled h now c w sn s : inv s → keeps s0 s → steady s (onSettledSnapshot h now c w sn s) → keeps s0 (onSettledSnapshot h now c w sn s).
Proof.
  intros Hs Hk. unfold onSettledSnapshot. destruct (snapshotSkip _ _ _ _); [intros _; by apply keeps_storeSkipped|].
  destruct (too_few _ _); [intros _; by apply keeps_storeSkipped|]. destruct (isClampReferenceAlignActive _ _); [|by apply keeps_seat_split].
  destruct (refresh_start _ _) as [rd ref]. intros _. apply keeps_suspend. revert Hk. by apply keeps_core.
Qed.

Lemma keeps_finalizeOnSnapshot h now c w sn s :
  inv s → keeps s0 s → steady s (finalizeOnSnapshot h now c w sn s) → keeps s0 (finalizeOnSnapshot h now c w sn s).
Proof.
  intros Hs Hk. unfold finalizeOnSnapshot. destruct (_ && _); [|by apply keeps_onSettled].
  destruct (roundIsFederated _ _ _); [intros _; by apply keeps_storeSkipped|].
  destruct (hasCapabilitySnapshot _); [intros _; by apply keeps_suspend|by apply keeps_onSettled].
Qed.

Lemma keeps_finalizeRound h now r ht t s : inv s → keeps s0 s → steady s (finalizeRound h now r ht t s) → keeps s0 (finalizeRound h now r ht t s).
Proof.
  intros Hs Hk. unfold finalizeRound. destruct (is_finalized r s); [done|].
  destruct (getSubmissions r s) as [subs|]; [|intros _; by apply keeps_storeSkipped].
  destruct (too_few h subs); [intros _; by apply keeps_storeSkipped|].
  destruct (hasCapabilitySnapshot _); [intros _; by apply keeps_suspend|by apply keeps_finalizeOnSnapshot].
Qed.

(** ** Judging a PROPOSE *)

Lemma priced_openFollower h now r l p lk adm s : same_rules h0 h → l ≠ [] → inv s → priced (openFollowerRound h now r l p lk adm s).
Proof. intros Hr Hl Hs. destruct (opened h0 Hself h now r l p lk adm s Hr Hl Hs) as [H _]. by eapply or_inv_priced. Qed.

Lemma keeps_coSign h now r e l p lk adm s : same_rules h0 h → l ≠ [] → inv s → keeps s0 s → keeps s0 (coSign h now r e l p lk adm s).
Proof.
  intros Hr Hl Hs Hk. unfold coSign. destruct (match live r s with Some _ => _ | None => _ end); [done|].
  pose proof (keeps_openFollower h now r l p lk adm s Hs Hl Hk) as K. pose proof (priced_openFollower h now r l p lk adm s Hr Hl Hs) as Hp.
  revert K Hp. generalize (openFollowerRound h now r l p lk adm s). intros s1 K Hp. unfold prepareOnPropose.
  destruct (live r s1) as [[pid pd]|]; [|done]. destruct (negb _); [done|]. destruct (negb _); [done|].
  set (f q := store_own _ (verifyAndStoreSig _ _ _ _)).
  assert (Hf : ∀ q, control (f q) = control q ∧ o_prices (f q) = o_prices q).
  { intros q. unfold f. set (q1 := set_o_prepares _ q). destruct (control_verifyAndStoreSig h (p_sig_pubkey p) (p_sig p) q1) as [V1 V2].
    destruct (control_store_own (signPriceV0 h r (o_time pd) l (o_height pd) (o_admit pd)) (verifyAndStoreSig h (p_sig_pubkey p) (p_sig p) q1)) as [-> ->].
    by rewrite V1, V2. }
  apply keeps_checkPrepareQuorum; [apply (priced_modify pid); [apply Hf|done]|]. apply keeps_emit, keeps_votes; [apply Hf|done].
Qed.

Lemma keeps_judgeProposer h now r e l p lk s : same_rules h0 h → inv s → keeps s0 s → keeps s0 (judgeProposer h now r e l p lk s).
Proof.
  intros Hr Hs Hk. unfold judgeProposer. destruct (negb _); [done|]. destruct (coSignGateRejects _ _ _ _ _ _ _) eqn:Hg; [done|].
  assert (Hl : l ≠ []) by (intros ->; done). unfold bindAndCoSign. destruct (admission_era _ _), (p_admitBlocks p) as [m|]; try done; [|by apply keeps_coSign].
  destruct (normalizedAdmit m); [by apply keeps_suspend|done].
Qed.

Lemma keeps_with_proposal p k s : (∀ r l, p_prices p = Some l → keeps s0 (k r l s)) → keeps s0 s → keeps s0 (with_proposal p k s).
Proof. intros Hk Hs. unfold with_proposal. destruct (p_round p), (p_prices p) as [l|]; try done. by apply Hk. Qed.

Lemma keeps_onFollowerSnapshot h now e p ht rt w sn s : same_rules h0 h → inv s → keeps s0 s → keeps s0 (onFollowerSnapshot h now e p ht rt w sn s).
Proof.
  intros Hr Hs Hk. unfold onFollowerSnapshot. destruct (_ && _); [done|]. destruct (isEmptyFederationSnapshot _ _ _ _); [done|].
  apply keeps_with_proposal; [|done]. intros. by apply keeps_judgeProposer.
Qed.

Lemma keeps_onWeightedSnapshot h now e p ht rt w sn s : same_rules h0 h → inv s → keeps s0 s → keeps s0 (onWeightedSnapshot h now e p ht rt w sn s).
Proof.
  intros Hr Hs Hk. unfold onWeightedSnapshot. destruct (w && _); [|by apply keeps_onFollowerSnapshot]. destruct (roundIsFederated _ _ _); [done|].
  destruct (hasCapabilitySnapshot _); [by apply keeps_suspend|by apply keeps_onFollowerSnapshot].
Qed.

Lemma keeps_lockProposeSnapshot h now e p ht rt s : same_rules h0 h → inv s → keeps s0 s → keeps s0 (lockProposeSnapshot h now e p ht rt s).
Proof.
  intros Hr Hs Hk. unfold lockProposeSnapshot. apply keeps_with_proposal; [|done]. intros r l Hp.
  destruct (live r s) as [[pid pd]|]; [by apply keeps_judgeProposer|].
  destruct (hasCapabilitySnapshot _); [by apply keeps_suspend|by apply keeps_onWeightedSnapshot].
Qed.

Lemma keeps_onBoundedHeight h now e p ht s : same_rules h0 h → inv s → keeps s0 s → keeps s0 (onBoundedHeight h now e p ht s).
Proof.
  intros Hr Hs Hk. unfold onBoundedHeight. apply keeps_with_proposal; [|done]. intros r l Hp. destruct (_ && _); [done|].
  destruct (isClampReferenceAlignActive _ _); [|by apply keeps_lockProposeSnapshot]. destruct (refresh_start _ _) as [rd ref].
  apply keeps_suspend. revert Hk. by apply keeps_core.
Qed.

Lemma keeps_handlePropose h now e p s : same_rules h0 h → inv s → keeps s0 s → keeps s0 (handlePropose h now e p s).
Proof.
  intros Hr Hs Hk. unfold handlePropose. destruct (proposalAdmissible _ _ _ _) as [[r l]|]; [|done].
  destruct (0 <? _); [destruct (wire_height p); [by apply keeps_suspend|done]|].
  destruct (_ && _); [by apply keeps_suspend|by apply keeps_onBoundedHeight].
Qed.

Lemma keeps_resumeTip h now e p certain a s : same_rules h0 h → inv s → keeps s0 s → keeps s0 (resumeTip h now e p certain a s).
Proof.
  intros Hr Hs Hk. unfold resumeTip.
  assert (Hb : ∀ tip, keeps s0 match wire_height p with Some ht => if within_tolerance h tip ht then onBoundedHeight h now e p ht s else s | None => s end).
  { intros tip. destruct (wire_height p); [|done]. destruct (within_tolerance _ _ _); [by apply keeps_onBoundedHeight|done]. }
  destruct certain; [destruct a; [apply Hb|done]|]. destruct (_ ≫= _) as [tip|]; [|done].
  destruct (isFederatedHubActive _ _); [apply Hb|]. apply keeps_with_proposal; [|done]. intros. by apply keeps_onBoundedHeight.
Qed.

Lemma keeps_resumeBind h now e p lk m tips s :
  same_rules h0 h → p_prices p ≠ Some [] → inv s → keeps s0 s → keeps s0 (resumeBind h now e p lk m tips s).
Proof.
  intros Hr Hp Hs Hk. unfold resumeBind. destruct tips; [|done]. destruct (checkAdmitBlocks _ _ _); [done|].
  apply keeps_with_proposal; [|done]. intros r l Hl. apply keeps_coSign; [done| |done|done]. congruence.
Qed.

Lemma keeps_with_cache f s : keeps s0 s → keeps s0 (with_cache f s).
Proof. by apply keeps_core. Qed.
End From.

(** ** Steps and runs *)

Lemma keeps_resumed h now k κ ev s s' :
  same_rules h0 h → konts s !! k = Some κ → resume h now κ ev (put_konts (delete k (konts s)) s) = Some s' → inv s → steady s s' → keeps s s'.
Proof.
  intros Hr Hk Hs' Hs Hst. destruct (or_inv_taken _ _ _ _ Hk Hs) as [H1 H2].
  assert (Hsto : ∀ at_ j c, κ = KStore at_ j c → caller_ok h0 (put_konts (delete k (konts s)) s) j c)
    by (intros at_ j c ->; by eapply caller_ok_taken).
  assert (Hm : pendingRounds (put_konts (delete k (konts s)) s) = pendingRounds s) by done.
  assert (K : keeps s (put_konts (delete k (konts s)) s)) by (split; auto).
  apply (steady_from _ _ _ Hm) in Hst. revert H1 K Hs' Hst Hsto. generalize (put_konts (delete k (konts s)) s). intros s1 H1 K Hs' Hst Hsto.
  destruct κ as [c w|c|c sn w subs rd|c subs l|st l|e p ct|e p ht rt rd|e p ht rt w|e p ht rt|e p lk m|at_ j c|pid j n|wr r b t];
    cbn [excuse] in H1; cbn [resume kont_ok] in *.
  - destruct ev as [| | | | |_k a| | | | | | | | | | | | | |]; try done. apply (inj Some) in Hs'; subst s'. destruct a; [by apply keeps_finalizeOnSnapshot|done].
  - destruct ev as [| | | | |_k a| | | | | | | | | | | | | |]; try done. apply (inj Some) in Hs'; subst s'. destruct a; [by apply keeps_onSettled|done].
  - destruct ev; try done. apply (inj Some) in Hs'; subst s'. by apply keeps_seat_split; [apply or_inv_with_cache|apply keeps_with_cache|].
  - destruct ev; try done. apply (inj Some) in Hs'; subst s'. unfold resumeSolo. destruct answer; [by apply keeps_solo_store|done].
  - destruct ev; try done. apply (inj Some) in Hs'; subst s'. revert Hst. unfold resumeLead. destruct answer; [|done].
    destruct (_ || _); [done|]. by apply keeps_open_and_propose.
  - destruct ev; try done. apply (inj Some) in Hs'; subst s'. by apply keeps_resumeTip.
  - destruct ev; try done. apply (inj Some) in Hs'; subst s'. by apply keeps_lockProposeSnapshot; [|apply or_inv_with_cache|apply keeps_with_cache].
  - destruct ev as [| | | | |_k a| | | | | | | | | | | | | |]; try done. apply (inj Some) in Hs'; subst s'. destruct a; [by apply keeps_onWeightedSnapshot|done].
  - destruct ev as [| | | | |_k a| | | | | | | | | | | | | |]; try done. apply (inj Some) in Hs'; subst s'. destruct a; [by apply keeps_onFollowerSnapshot|done].
  - destruct ev; try done. apply (inj Some) in Hs'; subst s'. by apply keeps_resumeBind.
  - specialize (Hsto at_ j c eq_refl). destruct at_, ev; try done; apply (inj Some) in Hs'; subst s'; by apply keeps_resumeStore.
  - destruct ev; try done. apply (inj Some) in Hs'; subst s'. apply keeps_resumeBackoff; [by destruct H2|done].
  - destruct ev; try done. apply (inj Some) in Hs'; subst s'. by apply keeps_resumeSkip.
Qed.

Lemma keeps_step h now ev s s' : same_rules h0 h → running ev → step h now ev s = Some s' → inv s → steady s s' → keeps s s'.
Proof.
  intros Hr Hrun Hstep Hs Hst. pose proof (keeps_refl s) as K.
  assert (Ht : ∀ k, ('(κ, s) ← taken k s; resume h now κ ev s) = Some s' → keeps s s').
  { intros k Hk. unfold taken in Hk. destruct (konts s !! k) as [κ|] eqn:Hko; [|done]. cbn in Hk. by eapply keeps_resumed. }
  destruct ev; cbn [running] in Hrun; try done; cbn [step] in Hstep; try (by eapply Ht); try (apply (inj Some) in Hstep; subst s').
  - revert K. by apply keeps_core.
  - revert K. by apply keeps_core.
  - unfold add_submission. destruct (existsb _ _); [done|]. revert K. by apply keeps_core.
  - by apply keeps_finalizeRound.
  - destruct m; [by apply keeps_handlePropose|]. apply keeps_handleVote; [by eapply or_inv_priced|done].
  - by eapply keeps_onTimer.
  - by eapply keeps_onLeaderTimer.
  - by apply keeps_onRoundAbandoned.
  - by apply keeps_with_cache.
  - by apply keeps_with_cache.
Qed.

Lemma keeps_run evs s s' : lawful h0 evs → steady_run evs s → run evs s = Some s' → inv s → keeps s s'.
Proof.
  unfold lawful. revert s. induction evs as [|[[h now] ev] evs IH]; intros s; cbn [run steady_run]; [intros _ _ [= <-] _; apply keeps_refl|].
  intros [[Hr Hrun] Hl]%Forall_cons Hst. cbn [fst snd] in *. destruct (step h now ev s) as [s1|] eqn:Hstep; cbn; [|done].
  destruct Hst as [Hst1 Hst2]. intros Hs' Hs. eapply keeps_trans; [by eapply keeps_step|]. apply (IH s1); try done. by eapply fine_step.
Qed.
End Keep.
