(* ===== verification/OrLive.v ===== *)
(** * Oracle rounds: what reaches an announcement

    A round a quorum committed is published whatever failures its store attempts
    meet, as soon as the database answers; and the COMMITs of a quorum commit it,
    in any order. *)

From S2P Require Import Prelude Ordered GateRegistry BigNum Quorum Json AttestWire OracleBand OracleAggregate OracleCosign Admission PbftState PbftEngine OrState OrMembers OrRounds OrInv OrVotes OrStores OrSafety.
Open Scope Z_scope.

Section Live.
Context {B : BigNumber} (h : env) (now : Z).
Implicit Types (s : state).

(** What the hub's own surroundings answer when the database works: the reads and
    writes of a store, the pause between two attempts, a timer. *)
Definition own (ev : event) : Prop :=
  match ev with EvCapability _ _ true | EvDatabase _ true | EvBackoff _ | EvTimer _ => True | _ => False end.

Definition publishes (r : Z) s : Prop :=
  ∃ evs s', Forall own evs ∧ run ((λ ev, (h, now, ev)) <$> evs) s = Some s' ∧ announced r s'.

Lemma publishes_now r s : announced r s → publishes r s.
Proof. intros Ha. exists [], s. by split_and!. Qed.

Lemma publishes_step r ev s s1 : own ev → step h now ev s = Some s1 → publishes r s1 → publishes r s.
Proof.
  intros He Hs (evs & s' & Ho & Hr & Ha). exists (ev :: evs), s'. split_and!; [by apply Forall_cons| |done].
  rewrite fmap_cons. cbn [run]. by rewrite Hs.
Qed.

Lemma run_concat evs evs' s s1 : run evs s = Some s1 → run (evs ++ evs') s = run evs' s1.
Proof.
  revert s. induction evs as [|[[h' now'] ev] evs IH]; intros s; cbn [run app]; [by intros [= ->]|].
  destruct (step h' now' ev s); cbn; [apply IH|done].
Qed.

(** ** From a store attempt *)

Definition attempt (at_ : stage) (k pid : nat) (j : job) s : Prop :=
  (∃ n, konts s !! k = Some (KStore at_ j (CommitCaller pid n))) ∧ storing s pid j.

Lemma storing_same s s' pid j : heap s' = heap s → pendingRounds s' = pendingRounds s → storing s pid j → storing s' pid j.
Proof. unfold storing. by intros -> ->. Qed.

Lemma attempt_suspended at_ j pid n s : storing s pid j → attempt at_ (next s) pid j (suspend (KStore at_ j (CommitCaller pid n)) s).
Proof. intros Hs. split; [exists n; cbn; by rewrite lookup_insert_eq|revert Hs; by apply storing_same]. Qed.

Lemma announce_announces r pid p s : heap s !! pid = Some p → announced r (announceCommittedRound h r pid s).
Proof.
  intros Hp. unfold announceCommittedRound. set (s1 := markFinalized h r s). set (s2 := put_pendingRounds _ s1).
  destruct (core_markFinalized h r s) as [Hc _]. destruct (quiet_clear r s2) as [Hc2 _]. fold s1 in Hc.
  assert (heap (clearRoundTracking r s2) = heap s) as ->.
  { revert Hc Hc2. generalize (clearRoundTracking r s2). intros s3. unfold core, s2. cbn. congruence. }
  rewrite Hp.
  eexists. split; [by left|done].
Qed.

Definition last_event (at_ : stage) (k : nat) : event := match at_ with AtCapability => EvCapability k None true | _ => EvDatabase k true end.

Lemma step_store at_ k j c s :
  konts s !! k = Some (KStore at_ j c) →
  step h now (last_event at_ k) s = Some (resumeStore h now at_ j c None true (put_konts (delete k (konts s)) s)).
Proof. intros Hk. by destruct at_; cbn [last_event step]; unfold taken; rewrite Hk. Qed.

Lemma attempt_publishes at_ k pid j s : attempt at_ k pid j s → publishes (j_round j) s.
Proof.
  assert (Hbroadcast : ∀ k s, attempt AtBroadcast k pid j s → publishes (j_round j) s).
  { clear k s. intros k s [(n & Hk) (_ & p & Hp & _)]. eapply publishes_step; [|apply (step_store AtBroadcast); exact Hk|]; [done|].
    apply publishes_now, (announce_announces _ _ p). unfold broadcastStoredRound. by destruct (hubDbBroadcaster h). }
  assert (Hmarkers : ∀ k s, attempt AtMarkers k pid j s → publishes (j_round j) s).
  { clear k s. intros k s [(n & Hk) Hs]. eapply publishes_step; [|apply (step_store AtMarkers); exact Hk|]; [done|].
    eapply Hbroadcast, attempt_suspended. revert Hs. by apply storing_same. }
  assert (Hrows : ∀ k s, attempt AtRows k pid j s → publishes (j_round j) s).
  { clear k s. intros k s [(n & Hk) Hs]. eapply publishes_step; [|apply (step_store AtRows); exact Hk|]; [done|].
    eapply Hmarkers, attempt_suspended. revert Hs. destruct (missing_pairs h j); by apply storing_same. }
  destruct at_; [|by apply Hrows|by apply Hmarkers|by apply Hbroadcast].
  intros [(n & Hk) Hs]. eapply publishes_step; [|apply (step_store AtCapability); exact Hk|]; [done|].
  eapply Hrows, attempt_suspended. revert Hs. by apply storing_same.
Qed.

Lemma storeSnapshot_publishes j pid n s : storing s pid j → publishes (j_round j) (storeSnapshot h j (CommitCaller pid n) s).
Proof.
  intros Hs. unfold storeSnapshot. pose proof Hs as [Hne _]. destruct (j_prices j); [done|].
  eapply attempt_publishes, attempt_suspended. exact Hs.
Qed.

Lemma kont_publishes k κ pid j s :
  konts s !! k = Some κ → commit_kont pid κ → (∀ j', kont_ok h s κ → storing s pid j' → j_round j' = j_round j) →
  kont_ok h s κ → publishes (j_round j) s.
Proof.
  intros Hk Hc Hj Hok. destruct κ as [| | | | | | | | | |at_ j' [|q n]|q j' n|]; cbn in Hc; try done; subst q; cbn in Hok; rewrite <-(Hj j') by done.
  - eapply attempt_publishes. split; [by exists n|done].
  - eapply (publishes_step _ (EvBackoff k)); [done|cbn [step]; unfold taken; rewrite Hk; cbn; reflexivity|].
    assert (Hs : storing (put_konts (delete k (konts s)) s) pid j') by (revert Hok; by apply storing_same).
    unfold resumeBackoff, is_pending. pose proof Hs as (_ & p & _ & _ & _ & Hm). rewrite bool_decide_true by by rewrite Hm.
    by apply storeSnapshot_publishes.
Qed.

(** ** From the retry timer *)

Lemma live_set r pid p f s : live r s = Some (pid, p) → live r (modify pid f s) = Some (pid, f p).
Proof. intros [Hp Hr]%live_iff. apply live_iff. split; [done|]. change (alter f pid (heap s) !! pid = Some (f p)). by rewrite lookup_alter_eq, Hr. Qed.

Lemma finalize_publishes r pid p s :
  live r s = Some (pid, p) → o_round p = r → o_prices p ≠ [] → o_finalized p = true → publishes r (finalizeCommittedRound h now r s).
Proof.
  intros Hl Hr Hne Hf. unfold finalizeCommittedRound. rewrite Hl. apply live_iff in Hl as [Hm Hh]. subst r.
  apply (storeSnapshot_publishes (commit_job now p)). split; [done|]. by exists p.
Qed.

Lemma retry_publishes r pid p s :
  live r s = Some (pid, p) → o_round p = r → o_prices p ≠ [] → o_finalized p = false → o_timer p = Retry → r ∉ finalized s → publishes r s.
Proof.
  intros Hl Hr Hne Hf Ht Hfin. pose proof Hl as [_ Hh]%live_iff.
  eapply (publishes_step _ (EvTimer pid)); [done|cbn [step]; unfold onTimer; rewrite Hh; cbn; rewrite Ht; reflexivity|].
  unfold onFinalizeRetry. rewrite Hh, Hr. pose proof (live_set _ _ _ (set_o_timer NoTimer) _ Hl) as Hl1. rewrite Hl1.
  change (o_finalized (set_o_timer NoTimer p)) with (o_finalized p). rewrite Hf. unfold is_finalized. rewrite bool_decide_false by done. cbn [orb].
  by eapply finalize_publishes; [apply (live_set _ _ _ (set_o_finalized true) _ Hl1)|..].
Qed.

Lemma committed_publishes r s : inv h s → committed r s → publishes r s.
Proof.
  intros Hs (pid & p & Hl & Hc). pose proof Hs as []. pose proof Hl as [Hm Hh]%live_iff.
  assert (Hr : o_round p = r) by (destruct (i_map _ _ Hm) as (? & ? & ?); congruence). pose proof (i_heap _ _ Hh) as [].
  destruct (o_finalized p) eqn:Hf.
  - destruct (i_work _ _ _ Hm Hh Hf) as (k & κ & Hk & Hck); [done|].
    assert (Hst : storing s pid (commit_job now p)) by (split; [done|]; exists p; cbn; by rewrite Hr).
    replace r with (j_round (commit_job now p)) by done. eapply kont_publishes; [done|done| |by apply (i_konts k)].
    intros j _ (_ & p' & Hp' & Hr' & _). cbn. congruence.
  - destruct Hc as [?|Ht]; [congruence|]. destruct (decide (r ∈ finalized s)) as [Hin|Hno]; [by apply publishes_now, i_final|].
    by eapply retry_publishes.
Qed.

(** ** From the COMMITs of a quorum *)

Definition exact_set (p : pending) : Prop :=
  o_weighted p = true → ∃ ix, Swq.indexStakeSources (o_validators p) = Some ix ∧ Swq.weights_exact (Swq.weightBySource ix).

Lemma tally_mono {L : BigNumberLaws B} p voters voters' :
  exact_set p → NoDup voters → voters ⊆ voters' →
  tally_ok (o_quorum p) (o_weighted p) (o_validators p) (o_members p) voters → tally_ok (o_quorum p) (o_weighted p) (o_validators p) (o_members p) voters'.
Proof.
  intros Hex Hnd Hsub. unfold tally_ok. destruct (o_weighted p) eqn:Hw.
  - destruct (Hex Hw) as (ix & Hix & Hx). by eapply (stake_quorum_monotone _ ix).
  - intros Hq. etrans; [exact Hq|]. apply inj_le, submseteq_length. destruct (o_members p) as [ms|]; [|by apply NoDup_submseteq].
    apply NoDup_submseteq; [by apply NoDup_filter|]. intros x. rewrite !list_elem_of_filter. set_solver.
Qed.

Lemma tally_meets p votes :
  quorumMet h p votes = true ↔
  tally_ok (o_quorum p) (o_weighted p) (o_validators p) (o_members p) (electorate h (o_weighted p) (o_height p) (o_signatures p).*1 votes).
Proof.
  unfold quorumMet, tally_ok, electorate, countDistinctMembers. destruct (o_weighted p); [done|]. cbn [orb]. rewrite Z.leb_le. by destruct (o_members p).
Qed.

(** A well-formed COMMIT of [pk] on the round [p]. *)
Record backs (p : pending) (pk : string) (v : vote) : Prop := {
  b_round : vote_round h v = Some (o_round p);
  b_digest : vt_digest v = o_digest p;
  b_key : provenPubkey (vt_envelope v) = Some pk;
  b_signed : ∃ k sg c, truthy (vt_sig_pubkey v) = Some k ∧ toLowerCase k = pk ∧ truthy (vt_sig v) = Some sg ∧
    pending_payload h p = Some c ∧ verify h c sg pk = true }.

(** A store attempt runs, or the COMMITs of [K] are counted. *)
Definition tallying (p0 : pending) (pid : nat) (K : list string) s : Prop :=
  (∃ k j, attempt AtCapability k pid j s ∧ j_round j = o_round p0) ∨
  ∃ p, live (o_round p0) s = Some (pid, p) ∧ frame p = frame p0 ∧ o_finalized p = false ∧
    K ⊆ (o_signatures p).*1 ∧ K ⊆ o_commits p ∧ (K = [] ∨ quorumMet h p (o_commits p) = false).

Lemma verifyAndStoreSig_adds p pk v :
  backs p pk v → ∀ p', frame p' = frame p → pk ∈ (o_signatures (verifyAndStoreSig h (vt_sig_pubkey v) (vt_sig v) p')).*1.
Proof.
  intros [_ _ _ (k & sg & c & Hk & Hlow & Hsg & Hc & Hv)] p' [= F1 F2 F3 F4 F5 F6 _ _ _ _].
  unfold verifyAndStoreSig. rewrite Hk, Hsg, Hlow. destruct (m_get pk (o_signatures p')) as [x|] eqn:Hm.
  - apply m_get_in in Hm. by apply (list_elem_of_fmap_2 fst (o_signatures p') (pk, x)).
  - unfold pending_payload in *. rewrite F1, F2, F4, F5, F6, Hc, Hv. cbn. apply elem_of_m_set. by left.
Qed.

Lemma verifyAndStoreSig_keeps pk sg p :
  frame (verifyAndStoreSig h pk sg p) = frame p ∧ o_finalized (verifyAndStoreSig h pk sg p) = o_finalized p ∧
  o_commits (verifyAndStoreSig h pk sg p) = o_commits p ∧ (o_signatures p).*1 ⊆ (o_signatures (verifyAndStoreSig h pk sg p)).*1.
Proof. unfold verifyAndStoreSig. repeat case_match; try done. split_and!; try done. apply signers_grow. Qed.

Lemma backs_frame p p' pk v : frame p' = frame p → backs p pk v → backs p' pk v.
Proof.
  intros [= F1 F2 F3 F4 F5 F6 _ _ _ _] [B1 B2 B3 (k & sg & c & Hk & Hlow & Hsg & Hc & Hv)]. split; [by rewrite F1|by rewrite F3|done|].
  exists k, sg, c. split_and!; try done. unfold pending_payload in *. by rewrite F1, F2, F4, F5, F6.
Qed.

Lemma commit_tallies p0 pid K pk v s :
  o_prices p0 ≠ [] → backs p0 pk v → tallying p0 pid K s → tallying p0 pid (pk :: K) (handleCommit h now v s).
Proof.
  intros Hne Hb Ht. unfold handleCommit. rewrite (b_round _ _ _ Hb).
  destruct Ht as [(k & j & Hat & Hr)|(p & Hl & Hf & Hfin & HK1 & HK2 & _)].
  - left. exists k, j. split; [|done]. destruct Hat as [Hk (Hj & p & Hh & Hro & Hfi & Hm)].
    assert (Hl : live (o_round p0) s = Some (pid, p)) by (apply live_iff; by rewrite <-Hr). rewrite Hl. destruct (negb _); [by split; [|split; [|exists p]]|].
    set (f q := verifyAndStoreSig _ _ _ _). unfold checkCommitQuorum. rewrite (live_set _ _ _ f _ Hl).
    destruct (verifyAndStoreSig_keeps (vt_sig_pubkey v) (vt_sig v) (set_o_commits (addVote (vt_envelope v) (o_commits p)) p)) as (F & Fi & _).
    fold (f p) in F, Fi. rewrite Fi. cbn. rewrite Hfi. split; [done|]. split; [done|]. exists (f p). cbn. rewrite lookup_alter_eq, Hh.
    split_and!; [done| |by rewrite Fi|done]. unfold frame in F. injection F as -> _ _ _ _ _ _ _ _ _. done.
  - rewrite Hl. pose proof (backs_frame _ _ _ _ Hf Hb) as Hb'. rewrite (b_digest _ _ _ Hb'), String.eqb_refl. cbn [negb].
    set (p1 := set_o_commits (addVote (vt_envelope v) (o_commits p)) p). set (f q := verifyAndStoreSig _ _ _ _).
    destruct (verifyAndStoreSig_keeps (vt_sig_pubkey v) (vt_sig v) p1) as (F & Fi & Fc & Fs).
    pose proof (verifyAndStoreSig_adds p pk v Hb' p1 eq_refl) as Hin. change (verifyAndStoreSig _ _ _ p1) with (f p) in *.
    assert (Hcom : pk :: K ⊆ o_commits (f p)).
    { rewrite Fc. unfold p1, addVote. cbn. rewrite (b_key _ _ _ Hb'). intros x [->|Hx]%elem_of_cons; apply elem_of_s_add; auto. }
    assert (Hsig : pk :: K ⊆ (o_signatures (f p)).*1) by (intros x [->|Hx]%elem_of_cons; [done|]; apply Fs; cbn; auto).
    assert (Hfr : frame (f p) = frame p0) by by rewrite F, <-Hf. change (o_finalized p1) with (o_finalized p) in Fi.
    pose proof (live_set _ _ _ f _ Hl) as Hl1. unfold checkCommitQuorum. rewrite Hl1, Fi, Hfin.
    destruct (quorumMet h (f p) (o_commits (f p))) eqn:Hq.
    + left. unfold finalizeCommittedRound. pose proof (live_set _ _ _ (λ p, set_o_timer NoTimer (set_o_finalized true p)) _ Hl1) as Hl2. rewrite Hl2.
      unfold storeSnapshot. cbn [commit_job j_prices]. assert (Hpr : o_prices (f p) ≠ []) by (unfold frame in Hfr; injection Hfr as _ -> _ _ _ _ _ _ _ _; done).
      cbn [set_o_timer set_o_finalized o_prices]. destruct (o_prices (f p)) eqn:Hpp; [done|]. eexists _, _. split.
      * eapply attempt_suspended. split; [cbn; by rewrite Hpp|]. eexists. apply live_iff in Hl2 as [Hm2 Hh2]. split_and!; [exact Hh2|done|done|].
        cbn [commit_job j_round]. unfold frame in Hfr. injection Hfr as Hro _ _ _ _ _ _ _ _ _. cbn [o_round set_o_timer set_o_finalized]. by rewrite Hro.
      * unfold frame in Hfr. by injection Hfr.
    + right. exists (f p). split_and!; try done; [congruence|by right].
Qed.

Lemma commits_tally p0 pid l K s :
  o_prices p0 ≠ [] → Forall (λ x : string * vote, backs p0 x.1 x.2) l → tallying p0 pid K s →
  tallying p0 pid (reverse l.*1 ++ K) (fold_left (λ s v, handleCommit h now v s) l.*2 s).
Proof.
  intros Hne. revert K s. induction l as [|[pk v] l IH]; intros K s Hl Ht; [done|]. apply Forall_cons in Hl as [Hv Hl].
  rewrite !fmap_cons. cbn [fold_left fst snd]. rewrite reverse_cons, <-(assoc_L app). by apply (IH (pk :: K)), (commit_tallies p0 pid K).
Qed.

Lemma commits_publish {L : BigNumberLaws B} p pid l s :
  live (o_round p) s = Some (pid, p) → o_finalized p = false → o_prices p ≠ [] → exact_set p →
  Forall (λ x : string * vote, backs p x.1 x.2) l → l ≠ [] → NoDup l.*1 →
  tally_ok (o_quorum p) (o_weighted p) (o_validators p) (o_members p) l.*1 →
  publishes (o_round p) (fold_left (λ s v, handleCommit h now v s) l.*2 s).
Proof.
  intros Hl Hf Hne Hex Hb Hnil Hnd Ht. destruct (commits_tally p pid l [] s) as [(k & j & Ha & <-)|(p' & Hl' & Hfr & Hf' & HK1 & HK2 & HK3)]; [done|done| | |].
  - right. exists p. split_and!; try done; [apply list_subseteq_nil|apply list_subseteq_nil|by left].
  - by eapply attempt_publishes.
  - exfalso. rewrite app_nil_r in *. destruct HK3 as [Hr|Hq]; [destruct l; [done|]; by rewrite fmap_cons, reverse_cons in Hr; destruct (reverse l.*1)|].
    apply not_true_iff_false in Hq. apply Hq, tally_meets. unfold frame in Hfr. injection Hfr as F1 F2 F3 F4 F5 F6 F7 F8 F9 F10.
    assert (Hex' : exact_set p') by (unfold exact_set; by rewrite F8, F9). eapply (tally_mono p' l.*1); [done|done| |by rewrite F7, F8, F9, F10].
    unfold electorate. intros x Hx. destruct (_ || _); [apply HK1|apply HK2]; by rewrite elem_of_reverse.
Qed.
End Live.
