(* ===== verification/OrHonest.v ===== *)
(** * Oracle rounds: an honest leader's PROPOSE at an honest follower

    The leader seat aggregates and broadcasts; a follower with the same
    submissions and reference prices answers with a PREPARE over the same digest
    and the same signed bytes. The gate's side of it is [OracleHonest]. *)

From S2P Require Import Prelude Ordered GateRegistry BigNum Quorum Json AttestWire OracleBand OracleAggregate OracleCosign OracleMedian OracleHonest Admission PbftState PbftEngine OrState OrMembers OrRounds OrInv OrVotes OrStores OrSafety.
Open Scope Z_scope.

Section Honest.
Context {B : BigNumber}.
Implicit Types (s : state).

(** ** Effects are never taken back *)

Lemma out_core s s' : core s' = core s → out s' = out s.
Proof. unfold core. congruence. Qed.

Lemma out_storeSkipped h now r ht t s : out s ⊆ out (storeSkippedRound h now r ht t s).
Proof.
  unfold storeSkippedRound. destruct (markerPairs h r); [|by apply list_subseteq_cons].
  unfold finish_skip. rewrite (out_core _ _ (proj1 (quiet_clear r (markLocallySkipped h r s)))).
  unfold markLocallySkipped. case_bool_decide; [done|]. destruct (ring_push _ _ _ _). by apply list_subseteq_cons.
Qed.

Lemma out_stored h j c s : out s ⊆ out (stored h j c s).
Proof.
  destruct c as [cl subs|pid n]; cbn [stored].
  - unfold announceSoloRound. rewrite <-(out_core _ _ (proj1 (core_markFinalized h (cl_round cl) s))). by apply list_subseteq_cons.
  - unfold announceCommittedRound. set (s2 := put_pendingRounds _ _).
    assert (Ho : out (clearRoundTracking (j_round j) s2) = out s)
      by by rewrite (out_core _ _ (proj1 (quiet_clear (j_round j) s2))), <-(out_core _ _ (proj1 (core_markFinalized h (j_round j) s))).
    rewrite <-Ho. destruct (heap _ !! pid); [by apply list_subseteq_cons|done].
Qed.

Lemma out_checkCommit h now r s : out s ⊆ out (checkCommitQuorum h now r s).
Proof.
  unfold checkCommitQuorum. destruct (live r s) as [[pid p]|]; [|done]. destruct (o_finalized p); [done|]. destruct (quorumMet _ _ _); [|done].
  unfold finalizeCommittedRound. destruct (live r _) as [[q p']|]; [|done]. unfold storeSnapshot.
  destruct (j_prices (commit_job now p')); [|done]. etrans; [|apply out_stored]. done.
Qed.

Lemma out_checkPrepare h now r s : out s ⊆ out (checkPrepareQuorum h now r s).
Proof.
  unfold checkPrepareQuorum. destruct (live r s) as [[pid p]|]; [|done]. destruct (o_finalized p); [done|]. destruct (_ && _); [|done].
  etrans; [|apply out_checkCommit]. by apply list_subseteq_cons.
Qed.

(** ** The leader's broadcast *)

Definition round_digest (h : env) (round : Z) (l : list wprice) : string := OracleAggregate.digest (sha256Hex h) round (for_digest <$> l).

Lemma leader_broadcasts h now st s :
  aggregateAll (lasts s) (view_subs (st_subs st) s) ≠ [] → admission_era h (st_height st) = false →
  let l := aggregated (aggregateAll (lasts s) (view_subs (st_subs st) s)) in
  ∃ keys, SendPropose (st_round st) l (round_digest h (st_round st) l) (st_height st) (st_time st) keys
            (signPriceV0 h (st_round st) (st_time st) l (st_height st) None) None ∈ out (proposeRound h now st s).
Proof.
  intros Hne Hera. unfold proposeRound. destruct (aggregateAll _ _) as [|x l]; [done|]. rewrite Hera. unfold open_and_propose.
  set (s2 := modify _ _ _). eexists. apply out_checkPrepare. left.
Qed.

(** The envelope's content. *)
Definition proposal_of (round : Z) (l : list wprice) (digest : string) (height : Z) (time : json) (sig : option (string * string)) : proposal :=
  Proposal (Some round) (Some l) digest (Some (JInt height)) (Some time) (fst <$> sig) (snd <$> sig) None.

(** ** The follower's answer *)

Lemma follower_opens h now e r l p lk q s :
  priced s → l ≠ [] → l_quorum lk = Some q → pendingRounds s !! r = None →
  let pd := follower_round h now r l p lk q None in
  SendPrepare r (p_digest p) (signPriceV0 h r (o_time pd) l (o_height pd) None) ∈ out (coSign h now r e l p lk None s).
Proof.
  intros Hp Hl Hq Hn pd. unfold coSign. assert (live r s = None) as -> by (unfold live; by rewrite Hn).
  unfold openFollowerRound. rewrite Hq. unfold is_pending. rewrite bool_decide_false by (rewrite Hn; by intros [? ?]).
  fold pd. change (put_pendingRounds _ (new_round pd s)) with (with_round r pd s).
  set (s1 := armRoundWatchdog _ _ _ _). assert (Hquiet : quiet (with_round r pd s) s1) by apply quiet_arm.
  destruct Hquiet as [Hc _]. unfold core in Hc. injection Hc as C1 C2 _ _ _.
  assert (Hp1 : priced s1) by (intros k p'; rewrite C2; by apply (priced_with_round r pd s Hp Hl)). clearbody s1.
  pose proof (voted_drain h now r _ Hp1) as V. set (s2 := drainEarlyMessages h now r s1) in *. clearbody s2.
  destruct (v_heap _ _ V (next s) pd) as (pd' & Hh & Hf & _); [by rewrite C2, lookup_insert_eq|].
  assert (Hlive : live r s2 = Some (next s, pd')) by (apply live_iff; split; [by rewrite (v_map _ _ V), C1, lookup_insert_eq|done]).
  unfold prepareOnPropose. rewrite Hlive. unfold frame in Hf. injection Hf as F1 F2 F3 F4 F5 F6 F7 F8 F9 F10.
  rewrite F3, F6, F5, F4, String.eqb_refl. cbn [negb].
  rewrite bool_decide_true by done. cbn [negb]. apply out_checkPrepare. left.
Qed.

(** What a follower's snapshot service and chain answer. *)
Record grounded (h : env) (s : state) (round height : Z) (tip : json) (sn : snapshot) : Prop := {
  gd_round : 0 ≤ round;
  gd_height : 0 < height;
  gd_quorum : 0 < getQuorum h (validatorSet s);
  gd_tip : within_tolerance h (Some tip) height = true;
  gd_service : hasCapabilitySnapshot (hub h) = true;
  gd_set : hasDeterministicSnapshot (Some sn) = true ∧ sn_validators sn ≠ [];
  gd_gates : isClampReferenceAlignActive (Some (JInt height)) (networkName h) = false ∧ admission_era h height = false }.

(** A round the follower has not seen. *)
Record unseen (s : state) (round : Z) : Prop := {
  un_finalized : round ∉ finalized s;
  un_pending : pendingRounds s !! round = None;
  un_priced : priced s }.

Definition three_steps (h : env) (now : Z) (k : nat) (e : envelope) (p : proposal) (tip : json) (sn : snapshot) : list (env * Z * event) :=
  [(h, now, EvMessage (Propose e p)); (h, now, EvTip k (Some (Some tip))); (h, now, EvSnapshot (S k) (Some (Some sn)))].

Lemma taken_suspend κ s : taken (next s) (suspend κ s) = Some (κ, put_konts (delete (next s) (<[next s := κ]> (konts s))) (bump s)).
Proof. unfold taken. cbn [konts suspend bump put_konts]. by rewrite lookup_insert_eq. Qed.

Lemma follower_prepares h now e s round l height t sig tip sn :
  let p := proposal_of round l (round_digest h round l) height (JInt t) sig in
  let members := memberPubkeySet (Some sn) in
  let subs := filterSubmissionsToSnapshot h (default [] (getSubmissions round s)) members in
  grounded h s round height tip sn → unseen s round → l ≠ [] → round_digest h round l ≠ "" → t ≠ 0 →
  isKnownSender h e = true → (roundTimeGateActive h height = true → roundTimeMatches h (JInt t) round = true) →
  isLeaderIdentity (getLeader h (validatorSet s) round members) (sender e)
    (match provenPubkey e with Some pk => Some pk | None => resolveSenderPubkey h (sender e) end) = true →
  coSignGateRejects (resolveSenderPubkey h) (lasts s) (allowUnverifiedPairs h) (canonicalPairs h) (sender e) (for_gate <$> l) subs = None →
  ∃ s', run (three_steps h now (next s) e p tip sn) s = Some s' ∧
    SendPrepare round (round_digest h round l) (signPriceV0 h round (JInt t) l height None) ∈ out s'.
Proof.
  intros p members subs [G1 G2 G3 G4 G5 [G6 G7] [G8 G9]] [U1 U2 U3] Hl Hdig Ht Hknown Htime Hlead Hgate.
  assert (Hwh : wire_height p = Some height).
  { unfold wire_height, p, proposal_of. cbn. unfold num_int. cbn. by rewrite Z.mul_1_r, (proj2 (Z.ltb_lt _ _) G2). }
  assert (Hadm : proposalAdmissible h e p s = Some (round, l)).
  { unfold proposalAdmissible. cbn. rewrite (proj2 (Z.ltb_ge _ _) G1), Hknown. unfold is_finalized. rewrite bool_decide_false by done.
    change (OracleAggregate.digest (sha256Hex h) round (for_digest <$> l)) with (round_digest h round l). rewrite String.eqb_refl.
    rewrite (proj2 (String.eqb_neq _ _) Hdig). done. }
  unfold three_steps. cbn [run step handleMessage]. unfold handlePropose. rewrite Hadm, (proj2 (Z.ltb_lt _ _) G3), Hwh.
  cbn [option_bind mbind]. rewrite taken_suspend. cbn [option_bind mbind resume]. set (s1 := put_konts _ (bump s)).
  assert (Hb : resumeTip h now e p true (Some (Some tip)) s1 = suspend (KFollowSnapshot e p height (roundTimeGateActive h height)
                 (isStakeWeightedQuorumActive (Some height) (networkName h))) s1).
  { unfold resumeTip. rewrite Hwh, G4. unfold onBoundedHeight, with_proposal. cbn [p_round p_prices p_btcBlockTime p_btcBlockHeight p proposal_of].
    assert (roundTimeGateActive h height && negb (roundTimeMatches h (JInt t) round) = false) as ->
      by (destruct (roundTimeGateActive h height); [by rewrite Htime|done]).
    rewrite G8. unfold lockProposeSnapshot, with_proposal. cbn [p_round p_prices p proposal_of].
    assert (live round s1 = None) as -> by (unfold live; change (pendingRounds s1) with (pendingRounds s); by rewrite U2). by rewrite G5. }
  rewrite Hb. cbn [option_bind mbind]. change (S (next s)) with (next s1). rewrite taken_suspend. cbn [option_bind mbind resume].
  set (s2 := put_konts _ (bump s1)). eexists. split; [reflexivity|].
  unfold onWeightedSnapshot, no_validators. rewrite bool_decide_false, andb_false_r by done.
  unfold onFollowerSnapshot. rewrite G6. cbn [negb andb]. unfold isEmptyFederationSnapshot, isEmptySnapshot. rewrite bool_decide_false by done. cbn [andb].
  unfold with_proposal. cbn [p_round p_prices p proposal_of]. unfold judgeProposer. cbn [l_members].
  change (getSubmissions round s2) with (getSubmissions round s). change (validatorSet s2) with (validatorSet s). change (lasts s2) with (lasts s).
  fold members. rewrite Hlead. cbn [orb negb]. fold subs. rewrite Hgate. unfold bindAndCoSign. cbn [l_height p_admitBlocks p proposal_of]. rewrite G9.
  pose proof (follower_opens h now e round l p (Locked height (isStakeWeightedQuorumActive (Some height) (networkName h)) (Some sn) (Some (snapshotQuorum sn)) members (roundTimeGateActive h height)) (snapshotQuorum sn) s2 U3 Hl eq_refl U2) as H.
  cbn in H. rewrite (proj2 (Z.eqb_neq _ _) Ht) in H. exact H.
Qed.
End Honest.
