(* ===== verification/OrProps.v ===== *)
(** * Oracle rounds: the properties

    What a published round is backed by, that a decided round is published
    whatever its store attempts meet, that the COMMITs of a quorum decide it, that
    an honest follower answers an honest leader, and the replaced round. *)

From S2P Require Import Prelude Ordered GateRegistry BigNum BcMath Quorum Json AttestWire OracleBand OracleAggregate OracleCosign OracleMedian OracleHonest Admission PbftState PbftEngine OrState OrMembers OrRounds OrInv OrVotes OrStores OrSafety OrKeep OrLive OrHonest.
Open Scope Z_scope.

(** ** A federation of four *)

Definition key_of (c : ascii) : string := String.string_of_list_ascii (replicate 64 c).
Definition addr_of (c : ascii) : string := "hub-" +:+ String c EmptyString.
Definition signed_with (k p : string) : string := k +:+ ":" +:+ p.

Definition four_hubs : list ascii := ["a"; "b"; "c"; "d"]%char.

Definition hub_on (network : string) (c : ascii) : PbftState.env :=
  PbftState.Env (addr_of c) (Some (key_of c)) (signed_with (key_of c)) network
    (Some (list_to_map ((λ c, (addr_of c, key_of c)) <$> four_hubs))) None 3 0 4 1000 144 true.

Definition oracle_hub (network : string) (c : ascii) : env :=
  Env (hub_on network c) (λ p sig pk, String.eqb sig (signed_with pk p)) (λ s, "H" +:+ s) 3 ["BTC/USD"; "BTC/EUR"] (λ _, false)
    (Some {["BTC/USD"; "BTC/EUR"]}) false 2 120000 30000 15000 100 8 0 600000 MIRROR_ADMISSION_ACTIVATION true.

Definition four_validators (amount : string) : snapshot :=
  Snapshot ((λ c, VRow (Some (key_of c)) (Some (String c EmptyString)) (Some amount)) <$> four_hubs) (Some 4) false 900000.

Definition submits (c : ascii) (usd : string) : event :=
  EvSubmission 100 (addr_of c) (Submission [Entry "BTC/USD" usd] (Some (key_of c))).

Definition from_hub (c : ascii) : envelope := Envelope (addr_of c) (Some (key_of c)).

Definition at_ms : Z := 60000000.
Definition together (h : env) (evs : list event) : list (env * Z * event) := (λ ev, (h, at_ms, ev)) <$> evs.

Definition three_submissions : list event := [submits "a" "64000"; submits "b" "64010.5"; submits "c" "64020"].

(** What the leader of round 100 aggregates, and its signed bytes. *)
Definition median : list wprice := [WPrice (Some "BTC/USD"%string) None (WText "64010.50000000")].

Definition bytes_at (network : string) (height : Z) : string :=
  default EmptyString (buildPriceV0Payload (oracle_hub network "a") 100 (JInt 60000) median height None).

Definition digest_100 : string := OracleAggregate.digest (λ s, "H" +:+ s) 100 (for_digest <$> median).

Definition vote_of (ph : phase) (network : string) (height : Z) (c : ascii) : event :=
  EvMessage (Voted (Vote ph (from_hub c) (Some 100) digest_100 (Some (key_of c)) (Some (signed_with (key_of c) (bytes_at network height))))).

Definition proposed (network : string) (height : Z) (c : ascii) : event :=
  EvMessage (Propose (from_hub c) (Proposal (Some 100) (Some median) digest_100 (Some (JInt height)) (Some (JInt 60000))
    (Some (key_of c)) (Some (signed_with (key_of c) (bytes_at network height))) None)).

(** Whether a run replaces an open round, decided. *)
Definition steadyb (s s' : state) : bool :=
  forallb (λ x : Z * nat, match pendingRounds s' !! x.1 with Some pid => (pid =? x.2)%nat | None => true end) (map_to_list (pendingRounds s)).

Section Runs.
Existing Instance ExactBigNumber.

Fixpoint steady_runb (evs : list (env * Z * event)) (s : state) : bool :=
  match evs with
  | [] => true
  | (h, now, ev) :: evs => match step h now ev s with Some s' => steadyb s s' && steady_runb evs s' | None => true end
  end.

Lemma steadyb_spec s s' : steadyb s s' = true → steady s s'.
Proof.
  unfold steadyb. rewrite forallb_forall. intros H r pid pid' Hr Hr'. specialize (H (r, pid)). cbn in H. rewrite Hr' in H.
  apply Nat.eqb_eq, H. by apply list_elem_of_In, elem_of_map_to_list.
Qed.

Lemma steady_runb_spec evs s : steady_runb evs s = true → steady_run evs s.
Proof.
  revert s. induction evs as [|[[h now] ev] evs IH]; intros s; cbn [steady_runb steady_run]; [done|].
  destruct (step h now ev s) as [s'|]; [|done]. intros [H1 H2]%andb_true_iff. split; [by apply steadyb_spec|by apply IH].
Qed.

Lemma same_rules_refl h : same_rules h h.
Proof. by split. Qed.

Definition evs_running (evs : list event) : bool := forallb (λ ev, match ev with EvStop | EvStopped => false | _ => true end) evs.

Lemma lawful_together h evs : evs_running evs = true → lawful h (together h evs).
Proof.
  unfold evs_running, lawful, together. rewrite forallb_forall, Forall_forall. intros H x (ev & -> & Hin)%list_elem_of_fmap.
  split; [apply same_rules_refl|]. specialize (H ev). cbn. by destruct ev; try done; specialize (H (proj1 (list_elem_of_In _ _) Hin)).
Qed.

Definition after (h : env) (evs : list event) : state := default initial (run (together h evs) initial).

(** The newest effect, when it announces a round. *)
Definition last_announced (s : state) : option announcement := match out s with RoundFinalized a :: _ => Some a | _ => None end.

Lemma last_announced_in s a : last_announced s = Some a → RoundFinalized a ∈ out s.
Proof. unfold last_announced. destruct (out s) as [|[] l]; try done. intros [= ->]. by left. Qed.

Definition announces (f : announcement → bool) (s : state) : bool := match last_announced s with Some a => f a | None => false end.

Lemma announces_spec f s : announces f s = true → ∃ a, RoundFinalized a ∈ out s ∧ f a = true.
Proof. unfold announces. destruct (last_announced s) as [a|] eqn:Ha; [|done]. intros Hf. exists a. split; [by apply last_announced_in|done]. Qed.

Definition committedb (r : Z) (s : state) : bool :=
  match live r s with Some (_, p) => o_finalized p || match o_timer p with Retry => true | _ => false end | None => false end.

Lemma committedb_spec r s : committedb r s = true → committed r s.
Proof.
  unfold committedb. destruct (live r s) as [[pid p]|] eqn:Hl; [|done]. intros H. exists pid, p. split; [done|].
  apply orb_true_iff in H as [?|H]; [by left|right]. by destruct (o_timer p).
Qed.

(** What a check of the open round says of it. *)
Definition open_round (r : Z) (f : nat → pending → bool) (s : state) : bool := match live r s with Some (pid, p) => f pid p | None => false end.

Lemma open_round_spec r f s : open_round r f s = true → ∃ pid p, live r s = Some (pid, p) ∧ f pid p = true.
Proof. unfold open_round. destruct (live r s) as [[pid p]|] eqn:Hl; [|done]. intros. by exists pid, p. Qed.

(** [backs] decided. *)
Definition backsb (h : env) (p : pending) (pk : string) (v : vote) : bool :=
  bool_decide (vote_round h v = Some (o_round p)) && String.eqb (vt_digest v) (o_digest p) && bool_decide (provenPubkey (vt_envelope v) = Some pk) &&
  match truthy (vt_sig_pubkey v), truthy (vt_sig v), pending_payload h p with
  | Some k, Some sg, Some c => String.eqb (toLowerCase k) pk && verify h c sg pk
  | _, _, _ => false
  end.

Lemma backsb_spec h p pk v : backsb h p pk v = true → backs h p pk v.
Proof.
  unfold backsb. rewrite !andb_true_iff. intros [[[H1%bool_decide_eq_true H2%String.eqb_eq] H3%bool_decide_eq_true] H4].
  destruct (truthy (vt_sig_pubkey v)) as [k|] eqn:Hk; [|done]. destruct (truthy (vt_sig v)) as [sg|] eqn:Hs; [|done].
  destruct (pending_payload h p) as [c|] eqn:Hc; [|done]. apply andb_true_iff in H4 as [H4%String.eqb_eq H5].
  split; [done..|]. by exists k, sg, c.
Qed.

Definition snapshot_of_four : option (option snapshot) := Some (Some (four_validators "100")).

(** Round 100 at its leader, mainnet: count mode. *)
Definition leading : list event := three_submissions ++ [EvFinalize 100 (Some 900000) (Some 60000); EvSnapshot 0 snapshot_of_four].

(** The COMMITs that decide it, and the store that writes it. *)
Definition commit_vote (c : ascii) : vote :=
  Vote CommitPhase (from_hub c) (Some 100) digest_100 (Some (key_of c)) (Some (signed_with (key_of c) (bytes_at "mainnet" 900000))).
Definition committing_votes : list event := [EvMessage (Voted (commit_vote "b")); EvMessage (Voted (commit_vote "c")); EvMessage (Voted (commit_vote "d"))].

(** Three failed attempts. *)
Definition failing (k : nat) : list event :=
  [EvCapability k None false; EvBackoff (k + 1); EvCapability (k + 2) None false; EvBackoff (k + 3); EvCapability (k + 4) None false].

(** A round that replaces a decided one: the hub [a] is round 100's leader but has
    no submission of its own, the fallback [b] proposes, the round is decided, its
    store fails; then [finalizeRound] is called here, the hub proposes over the
    open round, and the third failed attempt arms the retry timer of the new one. *)
Definition replaced_round : list event :=
  [submits "b" "64000"; submits "c" "64010.5"; submits "d" "64020"; proposed "mainnet" 900000 "b"; EvTip 0 (Some (Some (JInt 900000)));
   EvSnapshot 1 snapshot_of_four; vote_of PreparePhase "mainnet" 900000 "c"; vote_of PreparePhase "mainnet" 900000 "d";
   vote_of CommitPhase "mainnet" 900000 "c"; vote_of CommitPhase "mainnet" 900000 "d";
   EvCapability 3 None false; EvBackoff 4; EvCapability 5 None false; EvBackoff 6;
   EvFinalize 100 (Some 900000) (Some 60000); EvSnapshot 8 snapshot_of_four; EvCapability 7 None false; EvTimer 9;
   EvCapability 10 None true; EvDatabase 11 true; EvDatabase 12 true; EvDatabase 13 true].
End Runs.

(** ** Theorems *)

(** An own signature verifies under the own key. *)
Definition signs_for_itself (h : env) : Prop := ∀ id c, identity (hub h) = Some id → verify h c (sign (hub h) c) id = true.

(** C4: whatever the peers, the network and the database do, in a run in which no
    open round is replaced a published round that was not this hub's own solo
    round was decided: its signatures are of distinct keys, each verifies over the
    published bytes (round, time, prices, height, admission map), and the signers
    (below the signed-tally height, the keys that sent a COMMIT) include voters
    with the stake or the number of members the round requires. *)
Theorem announced_round_backed {B : BigNumber} h0 evs s a :
  signs_for_itself h0 → lawful h0 evs → steady_run evs initial → run evs initial = Some s → RoundFinalized a ∈ out s →
  NoDup (a_signatures a).*1 ∧
  (∀ pk sg, (pk, sg) ∈ a_signatures a →
     ∃ c, buildPriceV0Payload h0 (a_round a) (a_time a) (a_prices a) (a_height a) (a_admit a) = Some c ∧ verify h0 c sg pk = true) ∧
  ∀ quorum weighted vs members commits, a_decided a = Counted quorum weighted vs members commits →
    ∃ voters, NoDup voters ∧ voters ⊆ (if weighted || countQuorumSigned h0 (a_height a) then (a_signatures a).*1 else commits) ∧
      if weighted then Swq.meetsStakeThreshold vs voters = true
      else quorum ≤ Z.of_nat (length match members with None => voters | Some ms => filter (λ pk, pk ∈ ms) voters end).
Proof.
  intros Hself Hlaw Hst Hrun Ha. destruct (or_inv_run h0 Hself evs initial s Hlaw Hst Hrun (or_inv_initial h0)) as [_ _ _ _ _ _ _ _ _ Hout].
  destruct (Hout _ Ha) as (Hnd & Hsg & Hd). split_and!; [done| |].
  - intros pk sg Hin. exact (proj1 (Forall_forall _ _) Hsg _ Hin).
  - intros q w vs ms cs Hc. by rewrite Hc in Hd.
Qed.

(** C8: once a quorum decided a round, no failure of its store loses it, in a run in
    which no open round is replaced by another of the same number ([steady_run];
    [unbacked_round_published] is a run of a hub that proposes over its own decided
    round), the hub is not stopped and its rules do not change: whatever happens after
    (failed reads and writes, other messages and rounds, the timers), the answers
    of the database, the pause between two attempts and the retry timer alone still
    publish it. *)
Theorem committed_round_published {B : BigNumber} h now evs1 evs2 s1 s2 r :
  signs_for_itself h → lawful h (evs1 ++ evs2) → steady_run (evs1 ++ evs2) initial →
  run evs1 initial = Some s1 → committed r s1 → run evs2 s1 = Some s2 →
  ∃ evs3 s3, Forall own evs3 ∧ run ((λ ev, (h, now, ev)) <$> evs3) s2 = Some s3 ∧ announced r s3.
Proof.
  intros Hself Hlaw Hst Hrun1 Hc Hrun2. destruct (steady_run_app _ _ _ _ Hst Hrun1) as [Hst1 Hst2].
  apply Forall_app in Hlaw as [Hlaw1 Hlaw2]. pose proof (or_inv_run h Hself _ _ _ Hlaw1 Hst1 Hrun1 (or_inv_initial h)) as I1.
  pose proof (or_inv_run h Hself _ _ _ Hlaw2 Hst2 Hrun2 I1) as I2.
  destruct (k_committed _ _ (keeps_run h Hself _ _ _ Hlaw2 Hst2 Hrun2 I1) r Hc) as [Hc2|Ha].
  - exact (committed_publishes h now r s2 I2 Hc2).
  - exact (publishes_now h now r s2 Ha).
Qed.

(** C21: the COMMITs of a quorum decide an open round, in whatever order they
    arrive: after well-formed COMMITs of distinct keys that meet the round's own
    threshold, the answers of the database publish it. *)
Theorem quorum_commits_publish {B : BigNumber} {L : BigNumberLaws B} h now s pid p (l : list (string * vote)) :
  live (o_round p) s = Some (pid, p) → o_finalized p = false → o_prices p ≠ [] → exact_set p →
  l ≠ [] → NoDup l.*1 → Forall (λ x, vt_phase x.2 = CommitPhase ∧ backs h p x.1 x.2) l →
  tally_ok (o_quorum p) (o_weighted p) (o_validators p) (o_members p) l.*1 →
  ∃ evs s', Forall own evs ∧ run ((λ ev, (h, now, ev)) <$> (((λ x, EvMessage (Voted x.2)) <$> l) ++ evs)) s = Some s' ∧ announced (o_round p) s'.
Proof.
  intros Hl Hf Hne Hex Hnil Hnd Hb Ht.
  destruct (commits_publish h now p pid l s) as (evs & s' & Ho & Hr & Ha); try done; [by eapply Forall_impl; [exact Hb|]; intros ? []|].
  exists evs, s'. split_and!; [done| |done]. rewrite fmap_app. rewrite <-Hr. apply run_concat.
  clear -Hb. revert s. induction l as [|[pk v] l IH]; intros s; [done|]. apply Forall_cons in Hb as [[Hv _] Hb].
  rewrite !fmap_cons. cbn [run step handleMessage fold_left snd]. unfold handleVote. cbn [snd] in Hv. rewrite Hv. cbn [option_bind mbind]. by apply IH.
Qed.

(** C16: an honest leader's round is prepared by an honest follower, below the
    admission era and the clamp-reference height. The leader seat broadcasts a
    non-empty aggregate of its submissions for a nonzero time, and a follower answers
    with a PREPARE of the same digest, signed over the same round bytes, when: its
    submissions of the snapshot's members are the leader's and so are its last
    prices; it knows the sender as the leader of the round and holds at most one
    submission of the sender's key; it has not seen the round, its tip is within
    tolerance of the declared height, its snapshot of that height has validators and
    the time fits the round where that is gated; all its submissions and references
    have at most eight decimals; every aggregated price is in canonical spelling and
    bounds, its pair is on the follower's list where there is one; and every such pair
    is one the sender submitted no price for, or one priced by an odd number of other
    submitters, or by none with a reference (or the unverified pairs allowed).
    A pair outside these cases may be refused ([UnverifiableNewPair]), or measured
    against the two middle values of the others. *)
Theorem honest_round_prepared {B : BigNumber} {L : BigNumberLaws B} hl nowl st sl h now e s t tip sn :
  let round := st_round st in
  let subs := view_subs (st_subs st) sl in
  let l := aggregated (aggregateAll (lasts sl) subs) in
  let digest := round_digest hl round l in
  aggregateAll (lasts sl) subs ≠ [] → admission_era hl (st_height st) = false → st_time st = JInt t → t ≠ 0 → digest ≠ "" →
  sha256Hex hl = sha256Hex h → lasts sl = lasts s →
  filterSubmissionsToSnapshot h (default [] (getSubmissions round s)) (memberPubkeySet (Some sn)) = subs →
  grounded h s round (st_height st) tip sn → unseen s round → isKnownSender h e = true →
  (roundTimeGateActive h (st_height st) = true → roundTimeMatches h (JInt t) round = true) →
  isLeaderIdentity (getLeader h (validatorSet s) round (memberPubkeySet (Some sn))) (sender e)
    (match provenPubkey e with Some pk => Some pk | None => resolveSenderPubkey h (sender e) end) = true →
  eight_prices subs → eight_references (lasts s) →
  (length (filter (λ x, proposerHeld (resolveSenderPubkey h) (sender e) x = true) subs) ≤ 1)%nat →
  (∀ pair v, (pair, v) ∈ aggregateAll (lasts s) subs →
     spelled v ∧ (∀ wl, canonicalPairs h = Some wl → pair ∈ wl) ∧
     verifiable (resolveSenderPubkey h) (lasts s) (sender e) subs (allowUnverifiedPairs h) pair) →
  ∃ keys sig, SendPropose round l digest (st_height st) (JInt t) keys sig None ∈ out (proposeRound hl nowl st sl) ∧
    ∃ s', run (three_steps h now (next s) e (proposal_of round l digest (st_height st) (JInt t) sig) tip sn) s = Some s' ∧
      SendPrepare round digest (signPriceV0 h round (JInt t) l (st_height st) None) ∈ out s'.
Proof.
  intros round subs l digest Hne Hera Htime Ht0 Hdig Hsha Hlasts Hsubs Hg Hu Hk Hrt Hlead He Hr Ho Hv.
  destruct (leader_broadcasts hl nowl st sl Hne Hera) as (keys & Hsend). rewrite Htime in Hsend. eexists keys, _. split; [exact Hsend|].
  assert (Hd : digest = round_digest h round l) by (unfold digest, round_digest; by rewrite Hsha). rewrite Hd in *.
  apply (follower_prepares h now e s round l (st_height st) t _ tip sn); try done.
  - unfold l. by destruct (aggregateAll (lasts sl) subs).
  - rewrite Hsubs. unfold l, aggregated. rewrite Hlasts, <-list_fmap_compose in *. by apply honest_proposal_cosigned.
Qed.

(** Below the admission era [finalizeRound] does not look whether the round is
    open: a hub that is the round's leader proposes over a round that is already
    decided and being stored; when that store fails a third time the retry is
    armed on the new round, and publishes it with the single signature of this hub
    and no COMMIT, against a quorum of three members. *)
Theorem unbacked_round_published :
  ∃ s a vs ms, run (together (oracle_hub "mainnet" "a") replaced_round) initial = Some s ∧ RoundFinalized a ∈ out s ∧
    (a_signatures a).*1 = [key_of "a"] ∧ a_decided a = Counted 3 false vs (Some ms) [].
Proof.
  exists (after (oracle_hub "mainnet" "a") replaced_round).
  destruct (announces_spec (λ a, bool_decide ((a_signatures a).*1 = [key_of "a"]) &&
    match a_decided a with Counted 3 false _ (Some _) [] => true | _ => false end) (after (oracle_hub "mainnet" "a") replaced_round)) as (a & Hin & Hf);
    [vm_compute; reflexivity|].
  apply andb_true_iff in Hf as [Hk%bool_decide_eq_true Hd]. destruct (a_decided a) as [|q w vs ms cs] eqn:Hdd; [done|].
  destruct q as [|[[]| |]|]; try done. destruct w; [done|]. destruct ms as [ms|]; [|done]. destruct cs; [|done].
  exists a, vs, ms. split_and!; [vm_compute; reflexivity|exact Hin|exact Hk|exact Hdd].
Qed.

(** ** At concrete runs *)

Lemma oracle_hub_signs network c : String.eqb (key_of c) "" = false → (String.length (key_of c) =? 64)%nat = true → signs_for_itself (oracle_hub network c).
Proof.
  intros H1 H2 id p [= <-]. unfold verify. rewrite H1, H2. cbn [orb negb]. destruct (String.eqb _ "") eqn:E; [|by apply String.eqb_refl].
  apply String.eqb_eq in E. cbn in E. unfold signed_with in E. by destruct (key_of c).
Qed.

Definition published_run : list event := leading ++ committing_votes ++ [EvCapability 2 None true; EvDatabase 3 true; EvDatabase 4 true; EvDatabase 5 true].

Lemma announced_round_backed_witness :
  ∃ a quorum weighted vs members commits, RoundFinalized a ∈ out (after (oracle_hub "mainnet" "a") published_run) ∧
    a_decided a = Counted quorum weighted vs members commits ∧ quorum = 3 ∧
    ∃ voters, NoDup voters ∧ voters ⊆ (if weighted || countQuorumSigned (oracle_hub "mainnet" "a") (a_height a) then (a_signatures a).*1 else commits) ∧
      if weighted then Swq.meetsStakeThreshold vs voters = true
      else quorum ≤ Z.of_nat (length match members with None => voters | Some ms => filter (λ pk, pk ∈ ms) voters end).
Proof.
  destruct (announces_spec (λ a, match a_decided a with Counted 3 _ _ _ _ => true | _ => false end) (after (oracle_hub "mainnet" "a") published_run)) as (a & Hin & Hf);
    [vm_compute; reflexivity|].
  destruct (announced_round_backed (oracle_hub "mainnet" "a") (together (oracle_hub "mainnet" "a") published_run) (after (oracle_hub "mainnet" "a") published_run) a
    (oracle_hub_signs "mainnet" "a" eq_refl eq_refl)) as (_ & _ & H3).
  - apply lawful_together. vm_compute. reflexivity.
  - apply steady_runb_spec. vm_compute. reflexivity.
  - vm_compute. reflexivity.
  - exact Hin.
  - destruct (a_decided a) as [|q w vs ms cs] eqn:Hd; [done|]. exists a, q, w, vs, ms, cs. split_and!; [exact Hin|done| |by apply H3].
    by destruct q as [|[[]| |]|].
Defined.

Lemma committed_round_published_witness :
  ∃ evs3 s3, Forall own evs3 ∧
    run ((λ ev, (oracle_hub "mainnet" "a", at_ms, ev)) <$> evs3) (after (oracle_hub "mainnet" "a") (leading ++ committing_votes ++ failing 2)) = Some s3 ∧
    announced 100 s3.
Proof.
  refine (committed_round_published (oracle_hub "mainnet" "a") at_ms (together (oracle_hub "mainnet" "a") (leading ++ committing_votes))
    (together (oracle_hub "mainnet" "a") (failing 2)) (after (oracle_hub "mainnet" "a") (leading ++ committing_votes))
    (after (oracle_hub "mainnet" "a") (leading ++ committing_votes ++ failing 2)) 100 (oracle_hub_signs "mainnet" "a" eq_refl eq_refl) _ _ _ _ _).
  - unfold together. rewrite <-fmap_app. apply lawful_together. vm_compute. reflexivity.
  - apply steady_runb_spec. vm_compute. reflexivity.
  - vm_compute. reflexivity.
  - apply committedb_spec. vm_compute. reflexivity.
  - vm_compute. reflexivity.
Defined.

Definition three_commits : list (string * vote) := (λ c, (key_of c, commit_vote c)) <$> ["b"; "c"; "d"]%char.

Lemma quorum_commits_publish_witness :
  ∃ p evs s', Forall own evs ∧
    run ((λ ev, (oracle_hub "mainnet" "a", at_ms, ev)) <$> (((λ x, EvMessage (Voted x.2)) <$> three_commits) ++ evs)) (after (oracle_hub "mainnet" "a") leading) = Some s' ∧
    announced (o_round p) s'.
Proof.
  destruct (open_round_spec 100 (λ _ p, (o_round p =? 100) && negb (o_finalized p) && negb (o_weighted p) && negb (bool_decide (o_prices p = [])) &&
    forallb (λ x, backsb (oracle_hub "mainnet" "a") p x.1 x.2) three_commits &&
    (o_quorum p <=? Z.of_nat (length match o_members p with None => three_commits.*1 | Some ms => filter (λ pk, pk ∈ ms) three_commits.*1 end)))
    (after (oracle_hub "mainnet" "a") leading)) as (pid & p & Hl & Hf); [vm_compute; reflexivity|].
  rewrite !andb_true_iff in Hf. destruct Hf as [[[[[H1%Z.eqb_eq H2%negb_true_iff] H3%negb_true_iff] H4%negb_true_iff%bool_decide_eq_false] H5] H6%Z.leb_le].
  destruct (quorum_commits_publish (oracle_hub "mainnet" "a") at_ms (after (oracle_hub "mainnet" "a") leading) pid p three_commits) as (evs & s' & H).
  - by rewrite H1.
  - done.
  - done.
  - intros Hw. congruence.
  - done.
  - apply (bool_decide_unpack _). vm_compute. exact I.
  - apply Forall_forall. intros x Hx. split; [|apply backsb_spec; by apply (proj1 (forallb_forall _ _) H5), list_elem_of_In].
    unfold three_commits in Hx. by apply list_elem_of_fmap in Hx as (c & -> & _).
  - unfold tally_ok. by rewrite H3.
  - by exists p, evs, s'.
Defined.

(** Four submissions; the leader [a] proposes, [b] follows. *)
Definition four_submissions : list event := [submits "a" "64000"; submits "b" "64010.5"; submits "c" "64020"; submits "d" "64011"].
Definition four_subs : list (string * submission) := default [] (roundSubs (after (oracle_hub "mainnet" "a") four_submissions) !! 100).
Definition seat_of_a : seat := Seat 100 (Copy four_subs) 900000 (JInt 60000) (Some (four_validators "100")) 3 false (memberPubkeySet (Some (four_validators "100"))).

Lemma honest_round_prepared_witness :
  let l := [WPrice (Some "BTC/USD"%string) None (WText "64010.75000000")] in
  ∃ keys sig, SendPropose 100 l (round_digest (oracle_hub "mainnet" "a") 100 l) 900000 (JInt 60000) keys sig None ∈
      out (proposeRound (oracle_hub "mainnet" "a") at_ms seat_of_a (after (oracle_hub "mainnet" "a") four_submissions)) ∧
    ∃ s', run (three_steps (oracle_hub "mainnet" "b") at_ms 0 (from_hub "a") (proposal_of 100 l (round_digest (oracle_hub "mainnet" "a") 100 l) 900000 (JInt 60000) sig)
                 (JInt 900001) (four_validators "100")) (after (oracle_hub "mainnet" "b") four_submissions) = Some s' ∧
      SendPrepare 100 (round_digest (oracle_hub "mainnet" "a") 100 l) (signPriceV0 (oracle_hub "mainnet" "b") 100 (JInt 60000) l 900000 None) ∈ out s'.
Proof.
  assert (Ha : aggregateAll (lasts (after (oracle_hub "mainnet" "a") four_submissions)) four_subs = [("BTC/USD", "64010.75000000")]%string) by (vm_compute; reflexivity).
  pose proof (honest_round_prepared (oracle_hub "mainnet" "a") at_ms seat_of_a (after (oracle_hub "mainnet" "a") four_submissions) (oracle_hub "mainnet" "b") at_ms (from_hub "a")
    (after (oracle_hub "mainnet" "b") four_submissions) 60000 (JInt 900001) (four_validators "100")) as H.
  cbv zeta in H. change (view_subs (st_subs seat_of_a) (after (oracle_hub "mainnet" "a") four_submissions)) with four_subs in H. rewrite Ha in H.
  assert (Hl : lasts (after (oracle_hub "mainnet" "a") four_submissions) = lasts (after (oracle_hub "mainnet" "b") four_submissions)) by (vm_compute; reflexivity).
  rewrite <-Hl, Ha in H. apply H; clear H Hl.
  - done.
  - vm_compute. reflexivity.
  - done.
  - done.
  - vm_compute. done.
  - reflexivity.
  - reflexivity.
  - vm_compute. reflexivity.
  - split; [..|split|split]; vm_compute; try reflexivity; try done.
  - split; [apply (bool_decide_unpack _); vm_compute; exact I|vm_compute; reflexivity|].
    intros pid p Hp. vm_compute in Hp. done.
  - vm_compute. reflexivity.
  - vm_compute. done.
  - vm_compute. reflexivity.
  - intros x e Hx He. vm_compute in Hx. set_unfold in Hx. destruct Hx as [->|[->|[->|[->|[]]]]]; apply list_elem_of_singleton in He as ->; reflexivity.
  - intros pair x Hx. vm_compute in Hx. done.
  - vm_compute. lia.
  - intros pair v [= -> ->]%list_elem_of_singleton. split_and!.
    + split_and!; vm_compute; reflexivity.
    + intros wl [= <-]. set_solver.
    + right. left. vm_compute. reflexivity.
Defined.
