(* ===== verification/AtState.v ===== *)
(** * Attestation rounds: data

    State of [AttestationConsensus] ([src/attestation/consensus.js] and the parts
    under [src/attestation/consensus/]): the rounds it has open, the bounded
    records of what it finalized, published or tore down, the two early-arrival
    buffers, and the handlers suspended at an await. An open round is an object
    that the pending map, its timer and a suspended handler share, so rounds live
    in a heap and the map holds references. *)

From S2P Require Import Prelude Ordered GateRegistry Quorum Json Admission.
Open Scope Z_scope.

(** ** The hub *)

(** The deployed provider modules: [http_get]'s [agree] answers at once, [llm]'s
    answers with a promise. *)
Inductive provider := HttpGet | Llm.

Record env := Env {
  peers : bool;                                (** [this.peerManager] is there *)
  identity : option string;                    (** [getPubkeyHex()] of the identity *)
  sign : string → string;
  edVerify : string → string → string → bool;  (** payload, signature, key: node's Ed25519 *)
  sha256 : string → string;                    (** the 32 bytes of the digest *)
  network : string;
  producer : list (string * option Z);         (** the admission producer's activation map *)
  getModule : string → option provider;
  maxResponseBytes : string → option Z;        (** the live provider definition's cap, when positive *)
  slashDetector : bool;
  forwardOverride : option string;             (** [ATTEST_RESPONSE_FORWARD_S_OVERRIDE] *)
  finalizedMax : nat;
  nonOkPublishedMax : nat;
  tornDownMax : nat;
  proposerSeenMax : nat;
  earlyMessageMaxDistinctIds : nat;
  earlyMessageMaxBytes : Z }.

Definition earlyMessageTtlMs : Z := 60 * 1000.
Definition earlyMessageMaxPerRid : nat := 32.
Definition earlyCommitMaxPerRid : nat := 32.

(** ** Rounds *)

(** What [AttestationRound] hands to [propose]. Strategies are the texts of the
    provider definition; a responsible member is its key. *)
Record roundState := RoundState {
  rs_block : Z;                                (** [Number(request.block_index)] *)
  rs_providerId : string;
  rs_redundancy : Z;
  rs_responsible : list string;
  rs_leaderPubkey : option string;
  rs_role : string;
  rs_body : string; rs_meta : string; rs_status : string;   (** [myProposal] *)
  rs_strategy : option string;                 (** [pinnedConsensusStrategy] *)
  rs_maxResponseBytes : option Z }.            (** [pinnedMaxResponseBytes] *)

Record proposal := Proposal {
  p_body : string; p_meta : string; p_sig : string; p_status : string;
  p_effectiveTime : option Z; p_admitBlocks : option (gmap string Z) }.

Record round := Round {
  a_rid : string;
  a_rs : roundState;                           (** request, provider, redundancy, responsible, leader, role and pins *)
  a_quorum : Z;
  a_myPubkey : option string;
  a_mirrorEra : bool;
  a_effectiveTime : option Z;
  a_admitBlocks : option (gmap string Z);
  a_proposals : list (string * proposal);      (** Maps and Sets in insertion order *)
  a_prepares : list string;
  a_commits : list string;
  a_signatures : list (string * string);
  a_winner : option (string * string);         (** body and meta *)
  a_status : string;
  a_prepareCandidates : list (string * list (string * string));
  a_finalized : bool;
  a_commitSent : bool;
  a_agreeing : bool;
  a_timer : bool }.

Definition set_a_effectiveTime v (r : round) : round := Round (a_rid r) (a_rs r) (a_quorum r) (a_myPubkey r) (a_mirrorEra r) v (a_admitBlocks r) (a_proposals r) (a_prepares r) (a_commits r) (a_signatures r) (a_winner r) (a_status r) (a_prepareCandidates r) (a_finalized r) (a_commitSent r) (a_agreeing r) (a_timer r).
Definition set_a_admitBlocks v (r : round) : round := Round (a_rid r) (a_rs r) (a_quorum r) (a_myPubkey r) (a_mirrorEra r) (a_effectiveTime r) v (a_proposals r) (a_prepares r) (a_commits r) (a_signatures r) (a_winner r) (a_status r) (a_prepareCandidates r) (a_finalized r) (a_commitSent r) (a_agreeing r) (a_timer r).
Definition set_a_proposals v (r : round) : round := Round (a_rid r) (a_rs r) (a_quorum r) (a_myPubkey r) (a_mirrorEra r) (a_effectiveTime r) (a_admitBlocks r) v (a_prepares r) (a_commits r) (a_signatures r) (a_winner r) (a_status r) (a_prepareCandidates r) (a_finalized r) (a_commitSent r) (a_agreeing r) (a_timer r).
Definition set_a_prepares v (r : round) : round := Round (a_rid r) (a_rs r) (a_quorum r) (a_myPubkey r) (a_mirrorEra r) (a_effectiveTime r) (a_admitBlocks r) (a_proposals r) v (a_commits r) (a_signatures r) (a_winner r) (a_status r) (a_prepareCandidates r) (a_finalized r) (a_commitSent r) (a_agreeing r) (a_timer r).
Definition set_a_commits v (r : round) : round := Round (a_rid r) (a_rs r) (a_quorum r) (a_myPubkey r) (a_mirrorEra r) (a_effectiveTime r) (a_admitBlocks r) (a_proposals r) (a_prepares r) v (a_signatures r) (a_winner r) (a_status r) (a_prepareCandidates r) (a_finalized r) (a_commitSent r) (a_agreeing r) (a_timer r).
Definition set_a_signatures v (r : round) : round := Round (a_rid r) (a_rs r) (a_quorum r) (a_myPubkey r) (a_mirrorEra r) (a_effectiveTime r) (a_admitBlocks r) (a_proposals r) (a_prepares r) (a_commits r) v (a_winner r) (a_status r) (a_prepareCandidates r) (a_finalized r) (a_commitSent r) (a_agreeing r) (a_timer r).
Definition set_a_winner v (r : round) : round := Round (a_rid r) (a_rs r) (a_quorum r) (a_myPubkey r) (a_mirrorEra r) (a_effectiveTime r) (a_admitBlocks r) (a_proposals r) (a_prepares r) (a_commits r) (a_signatures r) v (a_status r) (a_prepareCandidates r) (a_finalized r) (a_commitSent r) (a_agreeing r) (a_timer r).
Definition set_a_status v (r : round) : round := Round (a_rid r) (a_rs r) (a_quorum r) (a_myPubkey r) (a_mirrorEra r) (a_effectiveTime r) (a_admitBlocks r) (a_proposals r) (a_prepares r) (a_commits r) (a_signatures r) (a_winner r) v (a_prepareCandidates r) (a_finalized r) (a_commitSent r) (a_agreeing r) (a_timer r).
Definition set_a_prepareCandidates v (r : round) : round := Round (a_rid r) (a_rs r) (a_quorum r) (a_myPubkey r) (a_mirrorEra r) (a_effectiveTime r) (a_admitBlocks r) (a_proposals r) (a_prepares r) (a_commits r) (a_signatures r) (a_winner r) (a_status r) v (a_finalized r) (a_commitSent r) (a_agreeing r) (a_timer r).
Definition set_a_finalized v (r : round) : round := Round (a_rid r) (a_rs r) (a_quorum r) (a_myPubkey r) (a_mirrorEra r) (a_effectiveTime r) (a_admitBlocks r) (a_proposals r) (a_prepares r) (a_commits r) (a_signatures r) (a_winner r) (a_status r) (a_prepareCandidates r) v (a_commitSent r) (a_agreeing r) (a_timer r).
Definition set_a_commitSent v (r : round) : round := Round (a_rid r) (a_rs r) (a_quorum r) (a_myPubkey r) (a_mirrorEra r) (a_effectiveTime r) (a_admitBlocks r) (a_proposals r) (a_prepares r) (a_commits r) (a_signatures r) (a_winner r) (a_status r) (a_prepareCandidates r) (a_finalized r) v (a_agreeing r) (a_timer r).
Definition set_a_agreeing v (r : round) : round := Round (a_rid r) (a_rs r) (a_quorum r) (a_myPubkey r) (a_mirrorEra r) (a_effectiveTime r) (a_admitBlocks r) (a_proposals r) (a_prepares r) (a_commits r) (a_signatures r) (a_winner r) (a_status r) (a_prepareCandidates r) (a_finalized r) (a_commitSent r) v (a_timer r).
Definition set_a_timer v (r : round) : round := Round (a_rid r) (a_rs r) (a_quorum r) (a_myPubkey r) (a_mirrorEra r) (a_effectiveTime r) (a_admitBlocks r) (a_proposals r) (a_prepares r) (a_commits r) (a_signatures r) (a_winner r) (a_status r) (a_prepareCandidates r) (a_finalized r) (a_commitSent r) (a_agreeing r) v.

(** ** Messages

    Texts are the source's [String(v || '')] where it has one; [m_texts] says on
    which of them [String] throws instead, and the text is then unread. The body is
    given decoded, with the length of its base64 text; [effective_time] and
    [admit_blocks] are the JSON values of the wire ([None]: missing). [m_size] is the
    length of the data's JSON text. *)

(** [String(v)] throws a TypeError: an object with its own [toString], which JSON
    cannot make a function ([valueOf] answers no primitive either), or an array that
    holds one. *)
Fixpoint String_throws (v : json) : bool :=
  match v with
  | JObj l => existsb (λ kv : string * json, String.eqb kv.1 "toString") l
  | JArr l => existsb String_throws l
  | _ => false
  end.

Record wiretexts := Texts { bad_requestId : bool; bad_pubkey : bool; bad_body : bool; bad_meta : bool; bad_status : bool; bad_sig : bool }.
Definition plain_texts : wiretexts := Texts false false false false false false.

#[export] Instance wiretexts_eq_dec : EqDecision wiretexts.
Proof. solve_decision. Defined.

Inductive mtype := ATTEST_PROPOSE | ATTEST_PREPARE | ATTEST_COMMIT.

Record message := Msg {
  m_type : mtype; m_requestId : string; m_pubkey : string; m_sig : string;
  m_body : string; m_b64len : Z; m_meta : string; m_status : string;
  m_effective : option json; m_admit : option json; m_size : Z; m_texts : wiretexts }.

(** ** Effects *)

(** [request:finalized], as the publisher receives it. *)
Record response := Response {
  f_requestId : string; f_block : Z; f_providerId : string; f_body : string; f_meta : string; f_status : string;
  f_signatures : list (string * string); f_leaderPubkey : option string; f_role : string;
  f_effectiveTime : option Z; f_admitBlocks : option (gmap string Z); f_widen : Z }.

Inductive effect :=
| SendPropose (rid provider body meta status : string) (pk sig : option string)
    (effective : option Z) (admitMap : option (gmap string Z))
| SendVote (type : mtype) (rid provider body meta status : string) (pk sig : option string)
    (effective : option Z) (admitMap : option (gmap string Z))
| Finalized (r : response)
| Divergence (pubkey rid provider bodyHash winnerHash : string).   (** [recordAttestationDivergence] *)

(** ** Suspended handlers *)

(** This hub's own fields of a round ([ownProposalFields]) and its quorum. *)
Record ownFields := OwnFields { my_quorum : Z; my_pubkey : option string; my_mirrorEra : bool; my_effective : option Z }.

Inductive kont :=
| KTip (rid : string) (rs : roundState) (my : ownFields)     (** [propose], at [resolveRoundAdmitBlocks] *)
| KAgree (rid : string) (pid : nat) (sync : option (option (string * string)))
    (** [maybeAdvanceFromProposals], at [agree]: the answer of a synchronous module *)
| KPropose (m : message) (rid : string) (pid : nat) (sender : string) (effective : option Z) (map : gmap string Z)
| KPrepare (m : message) (rid : string) (pid : nat) (sender : string) (map : gmap string Z)
| KCommit (m : message) (rid : string) (pid : nat) (sender : string) (map : gmap string Z).
    (** the message handlers, at the admission bound *)

(** ** The engine state *)

Record gauges := Gauges {
  finalizedEvictedWhilePending : Z; nonOkEvictedWhilePending : Z; roundTimeouts : Z;
  refusedUnfinalizable : Z; refusedAdmissionTip : Z; bodyOverCapRejects : Z }.

Record state := State {
  pending : gmap string nat;
  heap : gmap nat round;
  next : nat;                                       (** the next allocation number *)
  finalized : gset string;
  finalizedOrder : list string;
  finalizedEvicted : gset string;
  finalizedEvictedOrder : list string;
  nonOkPublished : gmap string (gset string);
  nonOkPublishedOrder : list string;
  tornDown : gset string;
  tornDownOrder : list string;
  proposerSeen : gmap string (gset string);
  proposerSeenOrder : list string;
  earlyMessages : list (string * list message);
  earlyMessageTtl : list (string * Z);
  earlyCommits : gmap string (list message);
  evictions : list string;                          (** armed eviction timers *)
  konts : gmap nat kont;
  counters : gauges;
  out : list effect }.                              (** every effect so far, newest first *)

Definition put_pending v (r : state) : state := State v (heap r) (next r) (finalized r) (finalizedOrder r) (finalizedEvicted r) (finalizedEvictedOrder r) (nonOkPublished r) (nonOkPublishedOrder r) (tornDown r) (tornDownOrder r) (proposerSeen r) (proposerSeenOrder r) (earlyMessages r) (earlyMessageTtl r) (earlyCommits r) (evictions r) (konts r) (counters r) (out r).
Definition put_heap v (r : state) : state := State (pending r) v (next r) (finalized r) (finalizedOrder r) (finalizedEvicted r) (finalizedEvictedOrder r) (nonOkPublished r) (nonOkPublishedOrder r) (tornDown r) (tornDownOrder r) (proposerSeen r) (proposerSeenOrder r) (earlyMessages r) (earlyMessageTtl r) (earlyCommits r) (evictions r) (konts r) (counters r) (out r).
Definition put_finalized v (r : state) : state := State (pending r) (heap r) (next r) v (finalizedOrder r) (finalizedEvicted r) (finalizedEvictedOrder r) (nonOkPublished r) (nonOkPublishedOrder r) (tornDown r) (tornDownOrder r) (proposerSeen r) (proposerSeenOrder r) (earlyMessages r) (earlyMessageTtl r) (earlyCommits r) (evictions r) (konts r) (counters r) (out r).
Definition put_finalizedOrder v (r : state) : state := State (pending r) (heap r) (next r) (finalized r) v (finalizedEvicted r) (finalizedEvictedOrder r) (nonOkPublished r) (nonOkPublishedOrder r) (tornDown r) (tornDownOrder r) (proposerSeen r) (proposerSeenOrder r) (earlyMessages r) (earlyMessageTtl r) (earlyCommits r) (evictions r) (konts r) (counters r) (out r).
Definition put_finalizedEvicted v (r : state) : state := State (pending r) (heap r) (next r) (finalized r) (finalizedOrder r) v (finalizedEvictedOrder r) (nonOkPublished r) (nonOkPublishedOrder r) (tornDown r) (tornDownOrder r) (proposerSeen r) (proposerSeenOrder r) (earlyMessages r) (earlyMessageTtl r) (earlyCommits r) (evictions r) (konts r) (counters r) (out r).
Definition put_finalizedEvictedOrder v (r : state) : state := State (pending r) (heap r) (next r) (finalized r) (finalizedOrder r) (finalizedEvicted r) v (nonOkPublished r) (nonOkPublishedOrder r) (tornDown r) (tornDownOrder r) (proposerSeen r) (proposerSeenOrder r) (earlyMessages r) (earlyMessageTtl r) (earlyCommits r) (evictions r) (konts r) (counters r) (out r).
Definition put_nonOkPublished v (r : state) : state := State (pending r) (heap r) (next r) (finalized r) (finalizedOrder r) (finalizedEvicted r) (finalizedEvictedOrder r) v (nonOkPublishedOrder r) (tornDown r) (tornDownOrder r) (proposerSeen r) (proposerSeenOrder r) (earlyMessages r) (earlyMessageTtl r) (earlyCommits r) (evictions r) (konts r) (counters r) (out r).
Definition put_nonOkPublishedOrder v (r : state) : state := State (pending r) (heap r) (next r) (finalized r) (finalizedOrder r) (finalizedEvicted r) (finalizedEvictedOrder r) (nonOkPublished r) v (tornDown r) (tornDownOrder r) (proposerSeen r) (proposerSeenOrder r) (earlyMessages r) (earlyMessageTtl r) (earlyCommits r) (evictions r) (konts r) (counters r) (out r).
Definition put_tornDown v (r : state) : state := State (pending r) (heap r) (next r) (finalized r) (finalizedOrder r) (finalizedEvicted r) (finalizedEvictedOrder r) (nonOkPublished r) (nonOkPublishedOrder r) v (tornDownOrder r) (proposerSeen r) (proposerSeenOrder r) (earlyMessages r) (earlyMessageTtl r) (earlyCommits r) (evictions r) (konts r) (counters r) (out r).
Definition put_tornDownOrder v (r : state) : state := State (pending r) (heap r) (next r) (finalized r) (finalizedOrder r) (finalizedEvicted r) (finalizedEvictedOrder r) (nonOkPublished r) (nonOkPublishedOrder r) (tornDown r) v (proposerSeen r) (proposerSeenOrder r) (earlyMessages r) (earlyMessageTtl r) (earlyCommits r) (evictions r) (konts r) (counters r) (out r).
Definition put_proposerSeen v (r : state) : state := State (pending r) (heap r) (next r) (finalized r) (finalizedOrder r) (finalizedEvicted r) (finalizedEvictedOrder r) (nonOkPublished r) (nonOkPublishedOrder r) (tornDown r) (tornDownOrder r) v (proposerSeenOrder r) (earlyMessages r) (earlyMessageTtl r) (earlyCommits r) (evictions r) (konts r) (counters r) (out r).
Definition put_proposerSeenOrder v (r : state) : state := State (pending r) (heap r) (next r) (finalized r) (finalizedOrder r) (finalizedEvicted r) (finalizedEvictedOrder r) (nonOkPublished r) (nonOkPublishedOrder r) (tornDown r) (tornDownOrder r) (proposerSeen r) v (earlyMessages r) (earlyMessageTtl r) (earlyCommits r) (evictions r) (konts r) (counters r) (out r).
Definition put_earlyMessages v (r : state) : state := State (pending r) (heap r) (next r) (finalized r) (finalizedOrder r) (finalizedEvicted r) (finalizedEvictedOrder r) (nonOkPublished r) (nonOkPublishedOrder r) (tornDown r) (tornDownOrder r) (proposerSeen r) (proposerSeenOrder r) v (earlyMessageTtl r) (earlyCommits r) (evictions r) (konts r) (counters r) (out r).
Definition put_earlyMessageTtl v (r : state) : state := State (pending r) (heap r) (next r) (finalized r) (finalizedOrder r) (finalizedEvicted r) (finalizedEvictedOrder r) (nonOkPublished r) (nonOkPublishedOrder r) (tornDown r) (tornDownOrder r) (proposerSeen r) (proposerSeenOrder r) (earlyMessages r) v (earlyCommits r) (evictions r) (konts r) (counters r) (out r).
Definition put_earlyCommits v (r : state) : state := State (pending r) (heap r) (next r) (finalized r) (finalizedOrder r) (finalizedEvicted r) (finalizedEvictedOrder r) (nonOkPublished r) (nonOkPublishedOrder r) (tornDown r) (tornDownOrder r) (proposerSeen r) (proposerSeenOrder r) (earlyMessages r) (earlyMessageTtl r) v (evictions r) (konts r) (counters r) (out r).
Definition put_evictions v (r : state) : state := State (pending r) (heap r) (next r) (finalized r) (finalizedOrder r) (finalizedEvicted r) (finalizedEvictedOrder r) (nonOkPublished r) (nonOkPublishedOrder r) (tornDown r) (tornDownOrder r) (proposerSeen r) (proposerSeenOrder r) (earlyMessages r) (earlyMessageTtl r) (earlyCommits r) v (konts r) (counters r) (out r).
Definition put_konts v (r : state) : state := State (pending r) (heap r) (next r) (finalized r) (finalizedOrder r) (finalizedEvicted r) (finalizedEvictedOrder r) (nonOkPublished r) (nonOkPublishedOrder r) (tornDown r) (tornDownOrder r) (proposerSeen r) (proposerSeenOrder r) (earlyMessages r) (earlyMessageTtl r) (earlyCommits r) (evictions r) v (counters r) (out r).
Definition put_counters v (r : state) : state := State (pending r) (heap r) (next r) (finalized r) (finalizedOrder r) (finalizedEvicted r) (finalizedEvictedOrder r) (nonOkPublished r) (nonOkPublishedOrder r) (tornDown r) (tornDownOrder r) (proposerSeen r) (proposerSeenOrder r) (earlyMessages r) (earlyMessageTtl r) (earlyCommits r) (evictions r) (konts r) v (out r).
Definition put_out v (r : state) : state := State (pending r) (heap r) (next r) (finalized r) (finalizedOrder r) (finalizedEvicted r) (finalizedEvictedOrder r) (nonOkPublished r) (nonOkPublishedOrder r) (tornDown r) (tornDownOrder r) (proposerSeen r) (proposerSeenOrder r) (earlyMessages r) (earlyMessageTtl r) (earlyCommits r) (evictions r) (konts r) (counters r) v.

Definition initial : state := State ∅ ∅ 0 ∅ [] ∅ [] ∅ [] ∅ [] ∅ [] [] [] ∅ [] ∅ (Gauges 0 0 0 0 0 0) [].

Definition emit (e : effect) (s : state) : state := put_out (e :: out s) s.

(** [pending.field = ...] through a reference. *)
Definition modify (pid : nat) (f : round → round) (s : state) : state := put_heap (alter f pid (heap s)) s.

(** [this.pending.get(rid)]: the reference and the object. *)
Definition live (rid : string) (s : state) : option (nat * round) :=
  pid ← pending s !! rid; rd ← heap s !! pid; Some (pid, rd).

Definition bump (s : state) : state :=
  State (pending s) (heap s) (S (next s)) (finalized s) (finalizedOrder s) (finalizedEvicted s) (finalizedEvictedOrder s)
    (nonOkPublished s) (nonOkPublishedOrder s) (tornDown s) (tornDownOrder s) (proposerSeen s) (proposerSeenOrder s)
    (earlyMessages s) (earlyMessageTtl s) (earlyCommits s) (evictions s) (konts s) (counters s) (out s).
Definition new_round (rd : round) (s : state) : nat * state := (next s, bump (put_heap (<[next s := rd]> (heap s)) s)).
Definition suspend (k : kont) (s : state) : state := bump (put_konts (<[next s := k]> (konts s)) s).

Definition count (f : gauges → gauges) (s : state) : state := put_counters (f (counters s)) s.
