(* ===== verification/AtCanon.v ===== *)
(** * Attestation rounds: signed bytes, stamps, agreement

    The response canonical and its eras ([src/attestation/consensus/canonical.js],
    [src/attestation/attest_response_canonical.js]), the signed effective time and
    the follower's window on it ([effective_time.js],
    [src/attestation/attest_response_timing.js]), the body cap, the byte-equality
    tally of [src/providers/http_get.js], the choice of the published signers, and
    the evidence tests of [co_sign.js]. *)

From stdpp Require Import pretty.
From S2P Require Import Prelude Ordered GateRegistry BigNum Quorum Json Base64 AttestWire OracleBand Admission AtState.
Open Scope Z_scope.

(** ** Digests *)

(** [digest('hex')]. *)
Definition hex_byte (c : ascii) : string :=
  let n := Z.of_N (Ascii.N_of_ascii c) in String (hex_lower (n / 16)) (String (hex_lower (n mod 16)) EmptyString).
Fixpoint hex_of (s : string) : string :=
  match s with EmptyString => EmptyString | String c r => hex_byte c +:+ hex_of r end.
Definition hexDigest (h : env) (body : string) : string := hex_of (sha256 h body).

(** [ValidatorIdentity.verify]. *)
Definition verify (h : env) (payload sig pk : string) : bool :=
  if String.eqb sig "" || String.eqb pk "" then false
  else if negb (String.length pk =? 64)%nat then false else edVerify h payload sig pk.

(** ** Eras *)

(** [attest_response_mirror_activation.ATTEST_RESPONSE_MIRROR_ACTIVATION]. *)
Definition ATTEST_RESPONSE_MIRROR_ACTIVATION : jsdata :=
  GateRegistry.JObj [("mainnet", GateRegistry.JNull); ("testnet", GateRegistry.JNum 151324); ("regtest", GateRegistry.JNum 0)].

Definition isMirrorEraRequest (network : string) (requestBlock : Z) : bool :=
  Gate.reached (Gate.resolveThreshold ATTEST_RESPONSE_MIRROR_ACTIVATION network None) (Gate.CNum requestBlock).

Definition isMirrorEra (h : env) (requestBlock : Z) : bool := isMirrorEraRequest (network h) requestBlock.

Definition admissionEra (h : env) (requestBlock : Z) : bool :=
  isAdmissionEra (producer h) (Some (network h)) (Some (JInt requestBlock)).

(** ** The effective time *)

Definition ATTEST_RESPONSE_FORWARD_S : Z := 120.
Definition ATTEST_RESPONSE_EFFECTIVE_TIME_SLACK_BEHIND_S : Z := 60.
Definition ATTEST_RESPONSE_EFFECTIVE_TIME_SLACK_AHEAD_S : Z := 3600.

Definition isNonNegativeIntegerSpelling (raw : string) : bool :=
  let s := trim raw in
  if negb (all_chars is_digit s) || String.eqb s "" then false else safe (read_digits 0 s).

(** [None]: it throws. *)
Definition resolveAttestResponseForwardS (network : string) (override : option string) : option Z :=
  match override with
  | None => Some ATTEST_RESPONSE_FORWARD_S
  | Some raw =>
      if String.eqb (trim raw) "" then Some ATTEST_RESPONSE_FORWARD_S
      else if String.eqb network "regtest" then
        if isNonNegativeIntegerSpelling raw then Some (read_digits 0 (trim raw)) else None
      else Some ATTEST_RESPONSE_FORWARD_S
  end.

Definition forwardSeconds (h : env) : option Z := resolveAttestResponseForwardS (network h) (forwardOverride h).

Definition nowSeconds (now : Z) : Z := now / 1000.

Definition chooseEffectiveTime (h : env) (now : Z) : option Z := (λ f, nowSeconds now + f) <$> forwardSeconds h.

Definition effectiveTimeWithinFollowerWindow (h : env) (now effectiveTime : Z) : bool :=
  match chooseEffectiveTime h now with
  | None => false
  | Some expected =>
      safe effectiveTime && (expected - ATTEST_RESPONSE_EFFECTIVE_TIME_SLACK_BEHIND_S <=? effectiveTime)
        && (effectiveTime <=? expected + ATTEST_RESPONSE_EFFECTIVE_TIME_SLACK_AHEAD_S)
  end.

(** [String(n)] of a number has digits alone below [10^21]; the double nearest to
    an integer is below it exactly up to this bound. *)
Definition PLAIN_LIMIT : Z := 10 ^ 21 - 65536.
Definition plain_number (z : Z) : bool := (0 <=? z) && (z <? PLAIN_LIMIT).

Definition isCanonicalIntSpelling (v : json) : bool :=
  match v with
  | JNum m e => match num_int m e with Some z => plain_number z | None => false end
  | JStr s => CANONICAL_HEIGHT_RE s
  | _ => false
  end.

(** What [readWireEffectiveTime] answers: null, a number, or undefined. *)
Inductive stamp := NoStamp | Stamp (z : Z) | BadStamp.

(** [Number(raw)] of a value spelled as an integer. *)
Definition spelled_value (v : json) : Z :=
  match v with JNum m e => default 0 (num_int m e) | JStr s => read_digits 0 s | _ => 0 end.

Definition readWireEffectiveTime (mirrorEra : bool) (raw : option json) : stamp :=
  if negb mirrorEra then NoStamp
  else match raw with
  | None | Some JNull => BadStamp
  | Some v => if isCanonicalIntSpelling v then Stamp (spelled_value v) else BadStamp
  end.

Definition stamp_value (st : stamp) : option Z := match st with Stamp z => Some z | _ => None end.

(** [wireEffectiveOutOfWindow]. *)
Definition wireEffectiveOutOfWindow (h : env) (now : Z) (effective : option Z) : bool :=
  match effective with None => false | Some z => negb (effectiveTimeWithinFollowerWindow h now z) end.

(** ** The canonical bytes *)

Definition MIRROR_FIELD_SEPARATOR : string := "|".
Definition ATTEST_TAG : string := "XATTEST".

(** [None]: it throws. *)
Definition buildResponseCanonicalRaw (requestId providerId responseHash status meta : string) (effectiveTime : option Z) : option string :=
  let raw := requestId +:+ providerId +:+ responseHash +:+ status +:+ meta in
  match effectiveTime with
  | None => Some raw
  | Some z => if plain_number z then Some (raw +:+ MIRROR_FIELD_SEPARATOR +:+ pretty z) else None
  end.

Definition admit_json (m : gmap string Z) : gmap string json := (λ z, JInt z) <$> m.

(** [buildCanonical] over the digest of the body; [None]: it throws. *)
Definition canonicalOfHash (h : env) (rid provider hash status meta : string) (block : Z) (effectiveTime : option Z)
    (admitMap : option (gmap string Z)) : option string :=
  if negb (Bool.eqb (isMirrorEra h block) (bool_decide (is_Some effectiveTime))) then None
  else match buildResponseCanonicalRaw rid provider hash status meta effectiveTime with
  | None => None
  | Some raw =>
      match admissionCanonicalField (producer h) (Some (network h)) (Some (JInt block)) (admit_json <$> admitMap) with
      | Err _ => None
      | Ok field =>
          let raw := raw +:+ field in
          Some (if isEquivHeaderActive (Some block) (network h) then buildEquivCanonical ATTEST_TAG rid "0" raw else raw)
      end
  end.

Definition buildCanonical (h : env) (rid provider body status meta : string) (block : Z) (effectiveTime : option Z)
    (admitMap : option (gmap string Z)) : option string :=
  canonicalOfHash h rid provider (hexDigest h body) status meta block effectiveTime admitMap.

(** Null without an identity, or when the canonical cannot be built. *)
Definition signCanonical (h : env) (rid provider body status meta : string) (block : Z) (effectiveTime : option Z)
    (admitMap : option (gmap string Z)) : option string :=
  if bool_decide (identity h = None) then None
  else sign h <$> buildCanonical h rid provider body status meta block effectiveTime admitMap.

(** The round's canonical over given bytes, under its own pinned stamp and map. *)
Definition round_canonical (h : env) (rd : round) (body status meta : string) : option string :=
  buildCanonical h (a_rid rd) (rs_providerId (a_rs rd)) body status meta (rs_block (a_rs rd)) (a_effectiveTime rd) (a_admitBlocks rd).
Definition round_sign (h : env) (rd : round) (body status meta : string) : option string :=
  signCanonical h (a_rid rd) (rs_providerId (a_rs rd)) body status meta (rs_block (a_rs rd)) (a_effectiveTime rd) (a_admitBlocks rd).

(** A signature over bytes that may not exist. *)
Definition verify_over (h : env) (canonical : option string) (sig pk : string) : bool :=
  match canonical with Some c => verify h c sig pk | None => false end.

(** ** Admission maps *)

(** [admitBlocksKey]; the encoder throws on a map no decoder produces. *)
Definition admitBlocksKey (map : option (gmap string Z)) : string :=
  match map with
  | None => EmptyString
  | Some m => match encodeAdmitBlocks (admit_json m) with Ok s => s | Err _ => EmptyString end
  end.

Inductive admitRead := AdmitOk (map : option (gmap string Z)) | AdmitRefused | AdmitBound (map : gmap string Z).

(** [readWireAdmitBlocks]: [AdmitBound] awaits the follower's bound. *)
Definition readWireAdmitBlocks (h : env) (block : Z) (raw : option json) : admitRead :=
  let era := admissionEra h block in
  let has := match raw with None | Some JNull => false | Some _ => true end in
  if negb (Bool.eqb era has) then AdmitRefused
  else if negb era then AdmitOk None
  else match raw with
  | Some (JStr s) => match decodeAdmitBlocks s with Some m => AdmitBound m | None => AdmitRefused end
  | _ => AdmitRefused
  end.

(** [checkAdmitBlocksAgainstHub] over the response table's read set. *)
Definition admit_bound_holds (map : gmap string Z) (tips : option (string → option json)) : bool :=
  match tips with
  | None => false
  | Some tips => match checkAdmitBlocks ["BTC"] (Some (admit_json map)) tips with None => true | Some _ => false end
  end.

(** ** The body cap *)

Definition ATTEST_RESPONSE_BODY_MAX_BYTES : Z := 8189.
Definition bodyByteLength (body : string) : Z := Z.of_nat (String.length body).
Definition assertBodyWithinCap (body : string) : bool := bodyByteLength body <=? ATTEST_RESPONSE_BODY_MAX_BYTES.

Definition ATTEST_META_MAX_LENGTH : Z := 256.

(** [Math.ceil(n * 1.4)]. *)
Definition b64_room (n : Z) : Z := (7 * n + 4) / 5.
Definition maxBodyB64Length (h : env) (provider : string) : Z := b64_room (default 65536 (maxResponseBytes h provider)).
Definition bodyB64Limit (h : env) (rd : round) : Z :=
  match rs_maxResponseBytes (a_rs rd) with
  | Some n => if 0 <? n then b64_room n else maxBodyB64Length h (rs_providerId (a_rs rd))
  | None => maxBodyB64Length h (rs_providerId (a_rs rd))
  end.

Definition envelopeWithinCaps (h : env) (rd : round) (m : message) : bool :=
  negb (bodyB64Limit h rd <? m_b64len m) && negb (ATTEST_META_MAX_LENGTH <? js_length (m_meta m))
  && negb (ATTEST_META_MAX_LENGTH <? js_length (m_status m)).

(** Whether its reads throw: the body's, or the [meta]'s once the body's length has
    passed, or the status's once both have. *)
Definition caps_throw (h : env) (rd : round) (m : message) : bool :=
  bad_body (m_texts m)
  || negb (bodyB64Limit h rd <? m_b64len m)
     && (bad_meta (m_texts m) || negb (ATTEST_META_MAX_LENGTH <? js_length (m_meta m)) && bad_status (m_texts m)).

(** [String(d.status || 'ok')]. *)
Definition wire_status (m : message) : string := if String.eqb (m_status m) "" then "ok" else m_status m.

(** ** Byte equality

    [http_get]'s [agree] over the ok proposals: groups by the digest of the two
    digests, the first largest group, a majority of [expectedN]. *)

Record group := Group { g_key : string; g_count : Z; g_body : string; g_meta : string }.

Definition group_key (h : env) (body meta : string) : string := hex_of (sha256 h (sha256 h body +:+ sha256 h meta)).

Fixpoint add_group (key body meta : string) (gs : list group) : list group :=
  match gs with
  | [] => [Group key 1 body meta]
  | g :: gs => if String.eqb (g_key g) key then Group key (g_count g + 1) (g_body g) (g_meta g) :: gs else g :: add_group key body meta gs
  end.

Definition groups_of (h : env) (ps : list proposal) : list group :=
  fold_left (λ gs p, add_group (group_key h (p_body p) (p_meta p)) (p_body p) (p_meta p) gs) ps [].

Definition largest (gs : list group) : option group :=
  fold_left (λ w g, if default 0 (g_count <$> w) <? g_count g then Some g else w) gs None.

Definition agree (h : env) (ps : list proposal) (expectedN : Z) : option (string * string) :=
  match ps with
  | [] => None
  | _ =>
      let N := Z.max (Z.of_nat (length ps)) expectedN in
      g ← largest (groups_of h ps);
      if (N + 2) / 2 <=? g_count g then Some (g_body g, g_meta g) else None
  end.

(** ** The published signers *)

Definition signer_le (a b : string * string) : bool := String.leb a.1 b.1.
Definition selectFinalizedSigners (signatures : list (string * string)) (needed : Z) : list (string * string) :=
  take (Z.to_nat needed) (isort signer_le signatures).

(** ** The round's thresholds and own proposal *)

Definition needed (rd : round) : Z := Z.max (a_quorum rd) (rs_redundancy (a_rs rd)).

(** [Math.min(redundancy, responsible.length)]: the proposals to wait for. *)
Definition need (rd : round) : Z := Z.min (rs_redundancy (a_rs rd)) (Z.of_nat (length (rs_responsible (a_rs rd)))).

Definition proposal_count (rd : round) : Z := Z.of_nat (length (a_proposals rd)).
Definition is_ok (p : proposal) : bool := String.eqb (if String.eqb (p_status p) "" then "ok" else p_status p) "ok".
Definition okProposals (rd : round) : list proposal := filter (λ p, is_ok p = true) (a_proposals rd).*2.
Definition ownProposal (rd : round) : option proposal := k ← a_myPubkey rd; m_get k (a_proposals rd).
Definition strategy_is (rd : round) (st : string) : bool := bool_decide (rs_strategy (a_rs rd) = Some st).
Definition leader_key (rd : round) : option string :=
  match rs_leaderPubkey (a_rs rd) with
  | Some l => if String.eqb l "" then None else Some (toLowerCase l)
  | None => None
  end.
Definition is_responsible (rd : round) (pk : string) : bool := bool_decide (pk ∈ rs_responsible (a_rs rd)).
Definition leader_responsible (rd : round) (leader : string) : bool := existsb (λ v, String.eqb (toLowerCase v) leader) (rs_responsible (a_rs rd)).
Definition leaderProposal (rd : round) : option proposal := l ← leader_key rd; m_get l (a_proposals rd).

(** A hub holds its winner back while the elected leader's proposal may still come. *)
Definition leader_missing (rd : round) : bool :=
  match leader_key rd with
  | None => false
  | Some l =>
      match m_get l (a_proposals rd) with
      | Some _ => false
      | None => leader_responsible rd l && (proposal_count rd <? Z.of_nat (length (rs_responsible (a_rs rd))))
      end
  end.
Definition awaitsLeaderStamp (rd : round) : bool :=
  if negb (a_mirrorEra rd) || strategy_is rd "judge_model" then false else leader_missing rd.
Definition awaitsLeaderAdmitMap (rd : round) : bool :=
  match a_admitBlocks rd with None => false | Some _ => leader_missing rd end.
Definition awaitsJudgeLeader (rd : round) : bool :=
  strategy_is rd "judge_model" &&
  match leader_key rd, a_myPubkey rd with
  | Some l, Some me => negb (String.eqb me "") && negb (String.eqb l (toLowerCase me))
  | _, _ => false
  end.

(** ** Evidence tests *)

Definition body_matches (h : env) (p : proposal) (body meta : string) : bool :=
  String.eqb (sha256 h (p_body p)) (sha256 h body) && String.eqb (p_meta p) meta.

Definition judgeReSignEligible (rd : round) : bool :=
  strategy_is rd "judge_model" &&
  match ownProposal rd with Some p => negb (String.eqb (p_body p) "") && is_ok p | None => false end.

(** The own key has no signature yet and its proposal is the winner. *)
Definition own_unsigned_match (h : env) (rd : round) (body meta : string) : bool :=
  match a_myPubkey rd, ownProposal rd with
  | Some me, Some p =>
      negb (bool_decide (is_Some (m_get me (a_signatures rd)))) && is_ok p && body_matches h p body meta
  | _, _ => false
  end.
Definition mirrorReSignEligible (h : env) (rd : round) (body meta : string) : bool :=
  a_mirrorEra rd && negb (strategy_is rd "judge_model") && own_unsigned_match h rd body meta.
Definition admitMapReSignEligible (h : env) (rd : round) (body meta : string) : bool :=
  bool_decide (is_Some (a_admitBlocks rd)) && negb (strategy_is rd "judge_model") && own_unsigned_match h rd body meta.

Definition mayCoSignNonOk (own : option proposal) (status : string) : bool :=
  match own with
  | None => false
  | Some p =>
      String.eqb status "no_quorum"
      || String.eqb status "provider_error" && String.eqb (if String.eqb (p_status p) "" then "ok" else p_status p) "provider_error"
  end.

Definition judgeCoSignEligible (own : proposal) : bool := negb (String.eqb (p_body own) "").
Definition ownBodyMatchesWinner (h : env) (own : proposal) (body meta : string) : bool := body_matches h own body meta.

(** ** The settled stamp and map *)

Definition resolveRoundEffectiveTime (rd : round) : round :=
  if negb (a_mirrorEra rd) then rd
  else match (p ← leaderProposal rd; p_effectiveTime p) with
  | Some z => set_a_effectiveTime (Some z) rd
  | None => rd
  end.

Definition settleWinnerEffectiveTime (h : env) (now : Z) (status : string) (rd : round) : round :=
  if negb (a_mirrorEra rd) then rd
  else if strategy_is rd "judge_model" && negb (String.eqb status "provider_error")
  then set_a_effectiveTime (chooseEffectiveTime h now) rd
  else resolveRoundEffectiveTime rd.

Definition settleWinnerAdmitMap (rd : round) : round :=
  match a_admitBlocks rd with
  | None => rd
  | Some _ => match (p ← leaderProposal rd; p_admitBlocks p) with
              | Some m => set_a_admitBlocks (Some m) rd
              | None => rd
              end
  end.
