(* ===== verification/AtRounds.v ===== *)
(** * Attestation rounds: handlers

    One definition per method of [src/attestation/consensus.js] and of its parts
    under [src/attestation/consensus/]: the records and buffers
    ([round_records.js], [early_buffer.js]), opening a round ([propose.js]),
    advancing it from proposals ([advance.js]), the PREPARE rules ([prepare.js])
    and the two gates ([commit.js]).

    A handler maps the state before a synchronous stretch of code to the state
    after it. Handlers replay buffered messages, which run handlers in turn: the
    calls a handler ends in are returned as a list and run depth first
    ([run_jobs]). A throw drops the calls still waiting, up to the asynchronous
    call that catches it. *)

From stdpp Require Import pretty.
From S2P Require Import Prelude Ordered GateRegistry BigNum Quorum Json Base64 AttestWire OracleBand Admission AtState AtCanon.
Open Scope Z_scope.

(** ** Outcomes *)

Inductive job :=
| JMessage (m : message)          (** [handleMessage(env)] *)
| JDrain (rid : string)           (** [drainEarlyMessages(rid)] *)
| JDrainCommits (rid : string)    (** [drainEarlyCommits(rid)] *)
| JAdvance (rid : string)         (** [maybeAdvanceFromProposals(rid)] *)
| JEndCall                        (** the [catch] of the asynchronous call before it *)
| JRecheck (rid : string) (pid : nat).  (** the commit gate at the end of [finishPrepare] *)

Inductive outcome := Go (js : list job) | Throw.
Abbreviation act := (outcome * state)%type.

(** The answer of a PREPARE rule: the caller goes on, stops, or a throw. *)
Inductive verdict := Adopted | Declined | Thrown.

Definition broadcast (h : env) (e : effect) (s : state) : state := if peers h then emit e s else s.

(** ** Records *)

(** A set with its insertion order, bounded by shifting the oldest. *)
Definition ring_add (max : nat) (x : string) (set : gset string) (order : list string) : gset string * list string * option string :=
  let order := order ++ [x] in
  let set := {[x]} ∪ set in
  if (max <? length order)%nat then
    match order with
    | oldest :: rest => (set ∖ {[oldest]}, rest, Some oldest)
    | [] => (set, order, None)
    end
  else (set, order, None).

Definition markTornDown (h : env) (rid : string) (s : state) : state :=
  if bool_decide (rid ∈ tornDown s) then s
  else let '(set, order, _) := ring_add (tornDownMax h) rid (tornDown s) (tornDownOrder s) in
       put_tornDownOrder order (put_tornDown set s).

Definition rememberEvictedFinalized (h : env) (rid : string) (s : state) : state :=
  if bool_decide (rid ∈ finalizedEvicted s) then s
  else let '(set, order, _) := ring_add (finalizedMax h) rid (finalizedEvicted s) (finalizedEvictedOrder s) in
       put_finalizedEvictedOrder order (put_finalizedEvicted set s).

Definition markFinalized (h : env) (rid : string) (s : state) : state :=
  if bool_decide (rid ∈ finalized s) then s
  else let '(set, order, oldest) := ring_add (finalizedMax h) rid (finalized s) (finalizedOrder s) in
       let s := put_finalizedOrder order (put_finalized set s) in
       match oldest with Some o => rememberEvictedFinalized h o s | None => s end.

(** The bounded maps: a new key enters the order and may push the oldest out. *)
Definition map_ring (max : nat) (key : string) (m : gmap string (gset string)) (order : list string) :
    gmap string (gset string) * list string * option string :=
  let order := order ++ [key] in
  let m := <[key := ∅]> m in
  if (max <? length order)%nat then
    match order with
    | oldest :: rest => (delete oldest m, rest, Some oldest)
    | [] => (m, order, None)
    end
  else (m, order, None).

Definition add_at (key x : string) (m : gmap string (gset string)) : gmap string (gset string) :=
  alter (λ set, {[x]} ∪ set) key m.

Definition recordProposer (h : env) (rid pubkey : string) (s : state) : state :=
  let key := toLowerCase rid in
  let pk := toLowerCase pubkey in
  if String.eqb key "" || String.eqb pk "" then s
  else match proposerSeen s !! key with
  | Some _ => put_proposerSeen (add_at key pk (proposerSeen s)) s
  | None =>
      let '(m, order, _) := map_ring (proposerSeenMax h) key (proposerSeen s) (proposerSeenOrder s) in
      put_proposerSeenOrder order (put_proposerSeen (add_at key pk m) s)
  end.

Definition hasProposedFor (rid pubkey : string) (s : state) : bool :=
  match proposerSeen s !! toLowerCase rid with Some set => bool_decide (toLowerCase pubkey ∈ set) | None => false end.

Definition isRoundActive (rid : string) (s : state) : bool := bool_decide (is_Some (pending s !! toLowerCase rid)).
Definition isFinalized (rid : string) (s : state) : bool := bool_decide (toLowerCase rid ∈ finalized s).

Definition count_nonok_eviction (g : gauges) : gauges :=
  Gauges (finalizedEvictedWhilePending g) (nonOkEvictedWhilePending g + 1) (roundTimeouts g) (refusedUnfinalizable g) (refusedAdmissionTip g) (bodyOverCapRejects g).
Definition count_premature (g : gauges) : gauges :=
  Gauges (finalizedEvictedWhilePending g + 1) (nonOkEvictedWhilePending g) (roundTimeouts g) (refusedUnfinalizable g) (refusedAdmissionTip g) (bodyOverCapRejects g).
Definition count_timeout (g : gauges) : gauges :=
  Gauges (finalizedEvictedWhilePending g) (nonOkEvictedWhilePending g) (roundTimeouts g + 1) (refusedUnfinalizable g) (refusedAdmissionTip g) (bodyOverCapRejects g).
Definition count_unfinalizable (g : gauges) : gauges :=
  Gauges (finalizedEvictedWhilePending g) (nonOkEvictedWhilePending g) (roundTimeouts g) (refusedUnfinalizable g + 1) (refusedAdmissionTip g) (bodyOverCapRejects g).
Definition count_no_tip (g : gauges) : gauges :=
  Gauges (finalizedEvictedWhilePending g) (nonOkEvictedWhilePending g) (roundTimeouts g) (refusedUnfinalizable g) (refusedAdmissionTip g + 1) (bodyOverCapRejects g).
Definition count_over_cap (g : gauges) : gauges :=
  Gauges (finalizedEvictedWhilePending g) (nonOkEvictedWhilePending g) (roundTimeouts g) (refusedUnfinalizable g) (refusedAdmissionTip g) (bodyOverCapRejects g + 1).

Definition recordNonOkPublished (h : env) (rid status : string) (s : state) : state :=
  match nonOkPublished s !! rid with
  | Some _ => put_nonOkPublished (add_at rid status (nonOkPublished s)) s
  | None =>
      let '(m, order, oldest) := map_ring (nonOkPublishedMax h) rid (nonOkPublished s) (nonOkPublishedOrder s) in
      let s' := put_nonOkPublishedOrder order (put_nonOkPublished (add_at rid status m) s) in
      match oldest with
      | Some o => if bool_decide (o ∈ finalized s) then s' else count count_nonok_eviction s'
      | None => s'
      end
  end.

Definition published (rid status : string) (s : state) : bool :=
  match nonOkPublished s !! rid with Some set => bool_decide (status ∈ set) | None => false end.

(** ** The early-arrival buffers *)

Definition drop_early (rid : string) (s : state) : state :=
  put_earlyMessageTtl (m_delete rid (earlyMessageTtl s)) (put_earlyMessages (m_delete rid (earlyMessages s)) s).

Definition pruneEarlyMessages (now : Z) (s : state) : state :=
  fold_left (λ s kv, if kv.2 <=? now then drop_early kv.1 s else s) (earlyMessageTtl s) s.

Definition bufferEarlyMessage (h : env) (now : Z) (rid : string) (m : message) (s : state) : state :=
  if bool_decide (rid ∈ tornDown s) then s
  else
    let s := pruneEarlyMessages now s in
    if earlyMessageMaxBytes h <? m_size m then s
    else
      let '(arr, s) :=
        match m_get rid (earlyMessages s) with
        | Some arr => (arr, s)
        | None =>
            let s := if (earlyMessageMaxDistinctIds h <=? length (earlyMessages s))%nat
                     then match earlyMessages s with (oldest, _) :: _ => drop_early oldest s | [] => s end else s in
            ([], put_earlyMessages (m_set rid [] (earlyMessages s)) s)
        end in
      if (earlyMessageMaxPerRid <=? length arr)%nat then s
      else put_earlyMessageTtl (m_set rid (now + earlyMessageTtlMs) (earlyMessageTtl s))
             (put_earlyMessages (m_set rid (arr ++ [m]) (earlyMessages s)) s).

Definition drainEarlyMessages (now : Z) (rid : string) (s : state) : act :=
  match m_get rid (earlyMessages s) with
  | None => (Go [], s)
  | Some arr =>
      let expired := match m_get rid (earlyMessageTtl s) with Some t => t <? now | None => false end in
      (Go (if expired then [] else JMessage <$> arr), drop_early rid s)
  end.

Definition bufferEarlyCommit (h : env) (rid : string) (m : message) (s : state) : state :=
  if earlyMessageMaxBytes h <? m_size m then s
  else
    let arr := default [] (earlyCommits s !! rid) in
    if (earlyCommitMaxPerRid <=? length arr)%nat then s
    else put_earlyCommits (<[rid := arr ++ [m]]> (earlyCommits s)) s.

Definition drainEarlyCommits (rid : string) (s : state) : act :=
  match earlyCommits s !! rid with
  | None => (Go [], s)
  | Some arr => (Go (JMessage <$> arr), put_earlyCommits (delete rid (earlyCommits s)) s)
  end.

(** ** The two gates *)

Definition my_signature (rd : round) : option string := k ← a_myPubkey rd; m_get k (a_signatures rd).

(** [broadcastWinnerVote] *)
Definition winner_vote (ty : mtype) (rd : round) (sig : option string) : effect :=
  let w := default (EmptyString, EmptyString) (a_winner rd) in
  SendVote ty (a_rid rd) (rs_providerId (a_rs rd)) w.1 w.2 (a_status rd) (a_myPubkey rd) sig (a_effectiveTime rd) (a_admitBlocks rd).

Definition settleFinalizedRound (h : env) (rid : string) (pid : nat) (rd : round) (s : state) : state :=
  let s := if String.eqb (a_status rd) "ok" then markFinalized h rid s
           else markTornDown h rid (drop_early rid (recordNonOkPublished h rid (a_status rd) s)) in
  modify pid (set_a_timer false) s.

Definition response_of (rd : round) (sigs : list (string * string)) : response :=
  let w := default (EmptyString, EmptyString) (a_winner rd) in
  let rs := a_rs rd in
  Response (a_rid rd) (rs_block rs) (rs_providerId rs) w.1 w.2 (a_status rd) sigs (rs_leaderPubkey rs) (rs_role rs)
    (a_effectiveTime rd) (a_admitBlocks rd)
    (Z.max 0 (Z.of_nat (length (rs_responsible rs)) - Z.max 1 (if rs_redundancy rs =? 0 then 1 else rs_redundancy rs))).

Definition checkCommitQuorum (h : env) (rid : string) (s : state) : state :=
  match live rid s with
  | None => s
  | Some (pid, rd) =>
      if a_finalized rd then s
      else if Z.of_nat (length (a_signatures rd)) <? needed rd then s
      else
        let s := settleFinalizedRound h rid pid rd (modify pid (set_a_finalized true) s) in
        let s := emit (Finalized (response_of rd (selectFinalizedSigners (a_signatures rd) (needed rd)))) s in
        put_evictions (evictions s ++ [rid]) (put_earlyCommits (delete rid (earlyCommits s)) s)
  end.

Definition add_own_commit (rd : round) : round :=
  match a_myPubkey rd with Some me => set_a_commits (s_add me (a_commits rd)) rd | None => rd end.
Definition add_prepare (pk : string) (rd : round) : round := set_a_prepares (s_add pk (a_prepares rd)) rd.

Definition checkPrepareQuorum (h : env) (rid : string) (s : state) : state :=
  match live rid s with
  | None => s
  | Some (pid, rd) =>
      if a_finalized rd || bool_decide (a_winner rd = None) || a_commitSent rd then s
      else if Z.of_nat (length (a_prepares rd)) <? needed rd then s
      else
        let s := modify pid (λ rd, add_own_commit (set_a_commitSent true rd)) s in
        checkCommitQuorum h rid (broadcast h (winner_vote ATTEST_COMMIT rd (my_signature rd)) s)
  end.

(** ** Advancing from proposals *)

Definition sign_winner (sig : option string) (rd : round) : round :=
  match a_myPubkey rd, sig with
  | Some me, Some sig => set_a_signatures (m_set me sig (a_signatures rd)) rd
  | _, _ => rd
  end.

Definition broadcastAgreedPrepare (h : env) (rid : string) (pid : nat) (s : state) : act :=
  match heap s !! pid with
  | None => (Go [], s)
  | Some rd =>
      let s := broadcast h (winner_vote ATTEST_PREPARE rd (my_signature rd)) s in
      let s := modify pid (λ rd, match a_myPubkey rd with Some me => add_prepare me rd | None => rd end) s in
      (Go [JDrainCommits rid; JDrain rid], checkPrepareQuorum h rid s)
  end.

(** The proposals whose signature covers the winner. *)
Definition transferable (h : env) (c : option string) (rd : round) : round :=
  fold_left (λ rd kp, if verify_over h c (p_sig kp.2) kp.1 then set_a_signatures (m_set kp.1 (p_sig kp.2) (a_signatures rd)) rd else rd)
    (a_proposals rd) rd.

Definition settle_round (h : env) (now : Z) (body meta status : string) (rd : round) : round :=
  settleWinnerAdmitMap (settleWinnerEffectiveTime h now status (set_a_status status (set_a_winner (Some (body, meta)) rd))).

(** [adoptNonOkWinner] and the rest of [establishNonOkWinner]. *)
Definition establishNonOkWinner (h : env) (now : Z) (rid status : string) (s : state) : act :=
  match live rid s with
  | None => (Go [], s)
  | Some (pid, rd) =>
      if a_finalized rd || bool_decide (is_Some (a_winner rd)) || published rid status s then (Go [], s)
      else
        let rd := settle_round h now EmptyString EmptyString status rd in
        match round_canonical h rd EmptyString status EmptyString with
        | None => (Throw, modify pid (λ _, rd) s)
        | Some c =>
            let rd := transferable h (Some c) rd in
            let rd := match a_myPubkey rd with
                      | Some me => if bool_decide (is_Some (m_get me (a_proposals rd))) && negb (bool_decide (is_Some (m_get me (a_signatures rd))))
                                   then sign_winner (round_sign h rd EmptyString status EmptyString) rd else rd
                      | None => rd
                      end in
            broadcastAgreedPrepare h rid pid (modify pid (λ _, rd) s)
        end
  end.

Definition maybeAdvanceFromProposals (h : env) (now : Z) (rid : string) (s : state) : act :=
  match live rid s with
  | None => (Go [], s)
  | Some (pid, rd) =>
      if a_finalized rd || bool_decide (is_Some (a_winner rd)) || a_agreeing rd then (Go [], s)
      else if proposal_count rd <? need rd then (Go [], s)
      else if awaitsLeaderStamp rd || awaitsLeaderAdmitMap rd then (Go [], s)
      else match okProposals rd with
      | [] => establishNonOkWinner h now rid "provider_error" s
      | ps =>
          match getModule h (rs_providerId (a_rs rd)) with
          | None => (Go [], s)
          | Some module =>
              if awaitsJudgeLeader rd then (Go [], s)
              else (Go [], suspend (KAgree rid pid (match module with HttpGet => Some (agree h ps (need rd)) | Llm => None end))
                             (modify pid (set_a_agreeing true) s))
          end
      end
  end.

(** A proposal against the winner: its signature counts, or it is noted. *)
Definition collect_one (h : env) (c : string) (body meta : string) (kp : string * proposal) (st : round * list effect) : round * list effect :=
  let '(rd, es) := st in
  let '(pk, p) := kp in
  let matchesWinner := body_matches h p body meta in
  if matchesWinner && verify h c (p_sig p) pk then (set_a_signatures (m_set pk (p_sig p) (a_signatures rd)) rd, es)
  else if negb matchesWinner && strategy_is rd "byte_equality" && is_ok p && slashDetector h
  then (rd, es ++ [Divergence pk (a_rid rd) (rs_providerId (a_rs rd)) (hexDigest h (p_body p)) (hexDigest h body)])
  else (rd, es).

Definition collectWinnerSignatures (h : env) (c body meta : string) (rd : round) : round * list effect :=
  fold_left (λ st kp, collect_one h c body meta kp st) (a_proposals rd) (rd, []).

Definition resignJudgeWinner (h : env) (body meta : string) (rd : round) : round :=
  if judgeReSignEligible rd then sign_winner (round_sign h rd body (a_status rd) meta) rd else rd.
Definition resignMirrorWinner (h : env) (body meta : string) (rd : round) : round :=
  if mirrorReSignEligible h rd body meta || admitMapReSignEligible h rd body meta
  then sign_winner (round_sign h rd body (a_status rd) meta) rd else rd.

(** [maybeAdvanceFromProposals] after [agree] answered. *)
Definition resumeAgree (h : env) (now : Z) (rid : string) (pid : nat) (answer : option (string * string)) (s : state) : act :=
  let s := modify pid (set_a_agreeing false) s in
  match heap s !! pid with
  | None => (Go [], s)
  | Some rd =>
      if negb (bool_decide (pending s !! rid = Some pid)) || a_finalized rd || bool_decide (is_Some (a_winner rd)) then (Go [], s)
      else match answer with
      | None => establishNonOkWinner h now rid "no_quorum" s
      | Some (body, meta) =>
          let rd := settle_round h now body meta "ok" rd in
          match round_canonical h rd body "ok" meta with
          | None => (Throw, modify pid (λ _, rd) s)
          | Some c =>
              let '(rd, es) := collectWinnerSignatures h c body meta rd in
              let rd := resignMirrorWinner h body meta (resignJudgeWinner h body meta rd) in
              broadcastAgreedPrepare h rid pid (fold_left (λ s e, emit e s) es (modify pid (λ _, rd) s))
          end
      end
  end.

(** ** Opening a round *)

Definition notePrematureEviction (rid : string) (s : state) : state :=
  if bool_decide (rid ∈ finalizedEvicted s) then count count_premature s else s.

Definition round_quorum (rs : roundState) : Z :=
  Bft.bftQuorumOrSingle (Z.min (Z.of_nat (length (rs_responsible rs))) (Z.max 1 (rs_redundancy rs))) 0.

(** [None]: the round could never finalize. *)
Definition admittableQuorum (rs : roundState) : option Z :=
  let quorum := round_quorum rs in
  if Z.of_nat (length (rs_responsible rs)) <? Z.max quorum (rs_redundancy rs) then None else Some quorum.

Definition own_status (rs : roundState) : string := if String.eqb (rs_status rs) "" then "ok" else rs_status rs.

(** [None]: the forward margin throws. *)
Definition ownProposalFields (h : env) (now : Z) (quorum : Z) (rs : roundState) : option ownFields :=
  let me := toLowerCase <$> identity h in
  if isMirrorEra h (rs_block rs) then (λ t, OwnFields quorum me true (Some t)) <$> chooseEffectiveTime h now
  else Some (OwnFields quorum me false None).

Definition buildPendingRound (rid : string) (rs : roundState) (my : ownFields) (myAdmit : option (gmap string Z)) : round :=
  Round rid rs (my_quorum my) (my_pubkey my) (my_mirrorEra my) (my_effective my) myAdmit [] [] [] [] None "ok" [] false false false false.

Definition openRound (h : env) (rid : string) (rs : roundState) (my : ownFields) (myAdmit : option (gmap string Z)) (s : state) : act :=
  let mySig := signCanonical h rid (rs_providerId rs) (rs_body rs) (own_status rs) (rs_meta rs) (rs_block rs) (my_effective my) myAdmit in
  let over := negb (assertBodyWithinCap (rs_body rs)) in
  let s := if over then count count_over_cap s else s in
  let rd := buildPendingRound rid rs my myAdmit in
  let '(rd, s) :=
    match my_pubkey my, mySig with
    | Some me, Some sig =>
        if over then (rd, s)
        else (set_a_proposals [(me, Proposal (rs_body rs) (rs_meta rs) sig (own_status rs) (my_effective my) myAdmit)] rd,
              recordProposer h rid me s)
    | _, _ => (rd, s)
    end in
  let '(pid, s) := new_round (set_a_timer true rd) s in
  let s := put_pending (<[rid := pid]> (pending s)) (put_tornDown (tornDown s ∖ {[rid]}) s) in
  let s := if over then s
           else broadcast h (SendPropose rid (rs_providerId rs) (rs_body rs) (rs_meta rs) (own_status rs) (my_pubkey my) mySig (my_effective my) myAdmit) s in
  (Go [JDrain rid; JAdvance rid; JEndCall], s).

Definition propose (h : env) (now : Z) (requestId : string) (rs : roundState) (s : state) : act :=
  let rid := toLowerCase requestId in
  if bool_decide (rid ∈ finalized s) then (Go [], s)
  else if bool_decide (is_Some (pending s !! rid)) then (Go [], s)
  else
    let s := notePrematureEviction rid s in
    match admittableQuorum rs with
    | None => (Go [], count count_unfinalizable s)
    | Some quorum =>
        match ownProposalFields h now quorum rs with
        | None => (Throw, s)
        | Some my => if admissionEra h (rs_block rs) then (Go [], suspend (KTip rid rs my) s) else openRound h rid rs my None s
        end
    end.

(** [propose] after [resolveRoundAdmitBlocks]. *)
Definition resumeTip (h : env) (rid : string) (rs : roundState) (my : ownFields) (tips : option (string → option json)) (s : state) : act :=
  match resolveAdmitBlocks tips (Some (network h)) "attestation_responses" ["BTC"] with
  | None => (Go [], count count_no_tip s)
  | Some map => openRound h rid rs my (Some map) s
  end.

(** ** PROPOSE *)

(** The round a message is for, past the guards every handler opens with. *)
Inductive door := DoorShut (s : state) | DoorOpen (pid : nat) (rd : round).

Definition round_door (h : env) (now : Z) (m : message) (s : state) : door :=
  let rid := toLowerCase (m_requestId m) in
  if String.eqb rid "" then DoorShut s
  else if bool_decide (rid ∈ finalized s) then DoorShut s
  else match live rid s with
  | None => DoorShut (bufferEarlyMessage h now rid m s)
  | Some (pid, rd) => DoorOpen pid rd
  end.

Definition admitVerifiedProposal (h : env) (now : Z) (rid : string) (pid : nat) (m : message) (sender : string)
    (effective : option Z) (map : option (gmap string Z)) (s : state) : act :=
  if wireEffectiveOutOfWindow h now effective then (Go [], s)
  else if negb (assertBodyWithinCap (m_body m)) then (Go [], count count_over_cap s)
  else
    let s := recordProposer h rid sender s in
    match heap s !! pid with
    | None => (Go [], s)
    | Some rd =>
        match m_get sender (a_proposals rd) with
        | Some _ => (Go [JAdvance rid; JEndCall], s)
        | None =>
            let rd := set_a_proposals (m_set sender (Proposal (m_body m) (m_meta m) (m_sig m) (wire_status m) effective map) (a_proposals rd)) rd in
            let drain := if bool_decide (a_winner rd = None) && (need rd <=? proposal_count rd) then [JDrain rid] else [] in
            (Go (drain ++ [JAdvance rid; JEndCall]), modify pid (λ _, rd) s)
        end
    end.

Definition verifyAndAdmitProposal (h : env) (now : Z) (rid : string) (pid : nat) (m : message) (sender : string)
    (effective : option Z) (map : option (gmap string Z)) (s : state) : act :=
  match heap s !! pid with
  | None => (Go [], s)
  | Some rd =>
      match buildCanonical h rid (rs_providerId (a_rs rd)) (m_body m) (wire_status m) (m_meta m) (rs_block (a_rs rd)) effective map with
      | None => (Throw, s)
      | Some c => if bad_sig (m_texts m) then (Throw, s) else if verify h c (m_sig m) sender then admitVerifiedProposal h now rid pid m sender effective map s else (Go [], s)
      end
  end.

Definition still_open (rid : string) (pid : nat) (s : state) : bool :=
  match live rid s with Some (pid', rd) => bool_decide (pid' = pid) && negb (a_finalized rd) | None => false end.

Definition handlePropose (h : env) (now : Z) (m : message) (s : state) : act :=
  match round_door h now m s with
  | DoorShut s => (Go [], s)
  | DoorOpen pid rd =>
      let rid := toLowerCase (m_requestId m) in
      let sender := toLowerCase (m_pubkey m) in
      if bad_pubkey (m_texts m) then (Throw, s)
      else if String.eqb sender "" || negb (is_responsible rd sender) then (Go [], s)
      else if caps_throw h rd m then (Throw, s)
      else if negb (envelopeWithinCaps h rd m) then (Go [], s)
      else match readWireEffectiveTime (a_mirrorEra rd) (m_effective m) with
      | BadStamp => (Go [], s)
      | st =>
          match readWireAdmitBlocks h (rs_block (a_rs rd)) (m_admit m) with
          | AdmitRefused => (Go [], s)
          | AdmitOk map =>
              if still_open rid pid s then verifyAndAdmitProposal h now rid pid m sender (stamp_value st) map s else (Go [], s)
          | AdmitBound map => (Go [], suspend (KPropose m rid pid sender (stamp_value st) map) s)
          end
      end
  end.

(** ** PREPARE *)

Definition echoAdoptedPrepare (h : env) (pid : nat) (rd : round) (sig : option string) (s : state) : state :=
  match sig, a_myPubkey rd with
  | Some sig, Some me =>
      if peers h then modify pid (add_prepare me) (emit (winner_vote ATTEST_PREPARE rd (Some sig)) s) else s
  | _, _ => s
  end.

(** The own signature over an adopted winner: the PROPOSE signature where it
    covers the winner, else a fresh one. *)
Definition own_winner_signature (h : env) (c body meta status : string) (own : proposal) (rd : round) : option string :=
  match a_myPubkey rd with
  | Some me => if verify h c (p_sig own) me then Some (p_sig own) else round_sign h rd body status meta
  | None => round_sign h rd body status meta
  end.

Definition has_my_signature (rd : round) : bool := bool_decide (is_Some (my_signature rd)).

(** Sign the adopted winner, and echo an endorsing PREPARE. *)
Definition sign_and_echo (h : env) (pid : nat) (sig : option string) (rd : round) (s : state) : state :=
  let rd := sign_winner sig rd in echoAdoptedPrepare h pid rd sig (modify pid (λ _, rd) s).

Definition coSignNonOkWinner (h : env) (pid : nat) (c body meta status : string) (s : state) : state :=
  match heap s !! pid with
  | None => s
  | Some rd =>
      match ownProposal rd with
      | Some own =>
          if mayCoSignNonOk (Some own) status && negb (has_my_signature rd)
          then match own_winner_signature h c body meta status own rd with
               | Some sig => sign_and_echo h pid (Some sig) rd s
               | None => s
               end
          else s
      | None => s
      end
  end.

Definition coSignJudgeWinner (h : env) (pid : nat) (body meta status : string) (own : proposal) (rd : round) (s : state) : state * bool :=
  if negb (judgeCoSignEligible own) then (s, false)
  else (sign_and_echo h pid (round_sign h rd body status meta) rd s, true).

Definition coSignByteEqualWinner (h : env) (pid : nat) (c body meta status : string) (own : proposal) (rd : round) (s : state) : state :=
  if negb (ownBodyMatchesWinner h own body meta) then s
  else sign_and_echo h pid (own_winner_signature h c body meta status own rd) rd s.

(** [prepareAdmitMapAllowed] *)
Definition prepareAdmitMapAllowed (h : env) (now : Z) (m : message) (rd : round) (rid sender : string) (map : option (gmap string Z))
    (s : state) : state * bool :=
  match a_admitBlocks rd with
  | None => (s, true)
  | Some _ =>
      let lp := leaderProposal rd in
      let from_leader := bool_decide (leader_key rd = Some sender) in
      let expected := match (p ← lp; p_admitBlocks p) with Some e => Some e | None => a_admitBlocks rd end in
      let agrees expected := String.eqb (admitBlocksKey expected) (admitBlocksKey map) in
      match lp with
      | Some _ => (s, agrees expected)
      | None =>
          if from_leader then (s, agrees map)
          else if match leader_key rd with Some l => leader_responsible rd l | None => false end
                  && (proposal_count rd <? Z.of_nat (length (rs_responsible (a_rs rd))))
          then (bufferEarlyMessage h now rid m s, false)
          else (s, agrees expected)
      end
  end.

Definition providerErrorUnderivable (h : env) (now : Z) (m : message) (rd : round) (rid : string) (s : state) : state * bool :=
  if proposal_count rd <? need rd then (bufferEarlyMessage h now rid m s, true)
  else (s, existsb is_ok (a_proposals rd).*2).

Definition not_leader (rd : round) (sender : string) : bool :=
  match leader_key rd with Some l => negb (String.eqb sender l) | None => false end.

Definition nonOkDerivationRefuses (h : env) (now : Z) (m : message) (rd : round) (rid status sender : string) (s : state) : state * bool :=
  if String.eqb status "no_quorum" && strategy_is rd "judge_model" && not_leader rd sender
  then (bufferEarlyMessage h now rid m s, true)
  else if String.eqb status "no_quorum" && strategy_is rd "byte_equality" then
    if proposal_count rd <? need rd then (bufferEarlyMessage h now rid m s, true)
    else
      let ps := okProposals rd in
      match getModule h (rs_providerId (a_rs rd)) with
      | Some Llm => (s, true)
      | Some HttpGet => (s, bool_decide (is_Some (agree h ps (need rd))) || bool_decide (ps = []))
      | None => (s, bool_decide (ps = []))
      end
  else if String.eqb status "provider_error" then providerErrorUnderivable h now m rd rid s
  else (s, false).

(** The checks an establishing PREPARE passes before its bytes are adopted:
    [verifyNonOkPrepare] and [verifyEstablishingPrepare]. *)
Inductive verified := VReject | VThrow | VOk (effective : option Z) (canonical : string).

Definition verifyEstablishing (h : env) (now : Z) (rd : round) (m : message) (rid body meta status sender : string)
    (map : option (gmap string Z)) : verified :=
  match readWireEffectiveTime (a_mirrorEra rd) (m_effective m) with
  | BadStamp => VReject
  | st =>
      let effective := stamp_value st in
      match buildCanonical h rid (rs_providerId (a_rs rd)) body status meta (rs_block (a_rs rd)) effective map with
      | None => VThrow
      | Some c =>
          if bad_sig (m_texts m) then VThrow
          else if negb (verify h c (m_sig m) sender) then VReject
          else if wireEffectiveOutOfWindow h now effective then VReject
          else VOk effective c
      end
  end.

(** The establisher's bytes, stamp and map become the round's. *)
Definition adopt (sender sig body meta status : string) (effective : option Z) (map : option (gmap string Z)) (rd : round) : round :=
  set_a_status status (set_a_winner (Some (body, meta)) (set_a_signatures (m_set sender sig (a_signatures rd))
    (set_a_admitBlocks map (set_a_effectiveTime effective rd)))).

Definition unsigned (m : message) : bool := negb (bad_sig (m_texts m)) && String.eqb (m_sig m) "" || String.eqb (m_pubkey m) "".

Definition adoptNonOkPrepare (h : env) (now : Z) (m : message) (rid : string) (pid : nat) (rd : round) (status sender : string)
    (map : option (gmap string Z)) (s : state) : verdict * state :=
  let body := m_body m in
  let meta := m_meta m in
  if negb (String.eqb body "") || negb (String.eqb meta "") then (Declined, s)
  else if negb (String.eqb status "provider_error") && negb (String.eqb status "no_quorum") then (Declined, s)
  else if published rid status s then (Declined, s)
  else if unsigned m then (Declined, s)
  else match verifyEstablishing h now rd m rid body meta status sender map with
  | VReject => (Declined, s)
  | VThrow => (Thrown, s)
  | VOk effective c =>
      match prepareAdmitMapAllowed h now m rd rid sender map s with
      | (s, false) => (Declined, s)
      | (s, true) =>
          match nonOkDerivationRefuses h now m rd rid status sender s with
          | (s, true) => (Declined, s)
          | (s, false) =>
              let s := modify pid (adopt sender (m_sig m) body meta status effective map) s in
              (Adopted, coSignNonOkWinner h pid c body meta status s)
          end
      end
  end.

Definition leaderBodyMatchesProposal (h : env) (now : Z) (m : message) (rd : round) (rid meta bodyHash : string) (s : state) : state * bool :=
  if proposal_count rd <? need rd then (bufferEarlyMessage h now rid m s, false)
  else (s, existsb (λ p, is_ok p && String.eqb (hexDigest h (p_body p)) bodyHash && String.eqb (p_meta p) meta) (a_proposals rd).*2).

(** The candidate key, and the sender's other candidates cleared. *)
Definition candidate_key (bodyHash meta status : string) (effective : option Z) (map : option (gmap string Z)) : string :=
  bodyHash +:+ "|" +:+ meta +:+ "|" +:+ status +:+ "|" +:+ match effective with Some z => pretty z | None => "null" end
    +:+ "|" +:+ admitBlocksKey map.

Definition clear_other (key sender : string) (cs : list (string * list (string * string))) : list (string * list (string * string)) :=
  omap (λ km, if String.eqb km.1 key then Some km
              else match m_get sender km.2 with
                   | None => Some km
                   | Some _ => match m_delete sender km.2 with [] => None | m => Some (km.1, m) end
                   end) cs.

Definition merge_signatures (cand sigs : list (string * string)) : list (string * string) :=
  fold_left (λ sigs ps, m_set ps.1 ps.2 sigs) cand sigs.

(** [byteEqualityCorroborated]: the round with the candidate counted. *)
Definition byteEqualityCorroborated (h : env) (rd : round) (m : message) (meta status sender bodyHash : string)
    (effective : option Z) (map : option (gmap string Z)) : round * bool :=
  let ownMatches := match ownProposal rd with
                    | Some p => is_ok p && String.eqb (hexDigest h (p_body p)) bodyHash && String.eqb (p_meta p) meta
                    | None => false
                    end in
  if ownMatches then (rd, true)
  else
    let key := candidate_key bodyHash meta status effective match m_admit m with None => None | Some _ => map end in
    let cs := clear_other key sender (a_prepareCandidates rd) in
    let cand := m_set sender (m_sig m) (default [] (m_get key cs)) in
    let rd := set_a_prepareCandidates (m_set key cand cs) rd in
    if (length cand <? 2)%nat then (add_prepare sender rd, false)
    else (set_a_signatures (merge_signatures cand (a_signatures rd)) rd, true).

Definition adoptOkPrepare (h : env) (now : Z) (m : message) (rid : string) (pid : nat) (rd : round) (status sender : string)
    (map : option (gmap string Z)) (s : state) : verdict * state :=
  let body := m_body m in
  let meta := m_meta m in
  if strategy_is rd "judge_model" && not_leader rd sender then (Declined, bufferEarlyMessage h now rid m s)
  else if unsigned m then (Declined, s)
  else match verifyEstablishing h now rd m rid body meta status sender map with
  | VReject => (Declined, s)
  | VThrow => (Thrown, s)
  | VOk effective c =>
      match prepareAdmitMapAllowed h now m rd rid sender map s with
      | (s, false) => (Declined, s)
      | (s, true) =>
          let bodyHash := hexDigest h body in
          let '(s, rd, ok) :=
            if strategy_is rd "judge_model" then
              let '(s, ok) := leaderBodyMatchesProposal h now m rd rid meta bodyHash s in (s, rd, ok)
            else
              let '(rd, ok) := byteEqualityCorroborated h rd m meta status sender bodyHash effective map in
              (modify pid (λ _, rd) s, rd, ok) in
          if negb ok then (Declined, s)
          else
            let rd := adopt sender (m_sig m) body meta status effective map rd in
            let s := modify pid (λ _, rd) s in
            match ownProposal rd with
            | None => (Adopted, s)
            | Some own =>
                if strategy_is rd "judge_model" then
                  let '(s, ok) := coSignJudgeWinner h pid body meta status own rd s in (if ok then Adopted else Declined, s)
                else (Adopted, coSignByteEqualWinner h pid c body meta status own rd s)
            end
      end
  end.

(** A later PREPARE counts when it signs the round's own bytes; [None]: throws. *)
Definition countLatePrepare (h : env) (pid : nat) (rd : round) (m : message) (sender : string) (s : state) : option state :=
  match a_winner rd with
  | None => Some s
  | Some (body, meta) =>
      c ← round_canonical h rd body (a_status rd) meta;
      if bad_sig (m_texts m) then None
      else Some (if verify h c (m_sig m) sender then modify pid (λ rd, set_a_signatures (m_set sender (m_sig m) (a_signatures rd)) rd) s else s)
  end.

Definition finishPrepare (h : env) (rid : string) (pid : nat) (sender : string) (s : state) : act :=
  let s := checkPrepareQuorum h rid (modify pid (add_prepare sender) s) in
  match heap s !! pid with
  | Some rd => (Go (if bool_decide (is_Some (a_winner rd)) then [JDrainCommits rid; JDrain rid; JRecheck rid pid] else []), s)
  | None => (Go [], s)
  end.

Definition handlePrepareWithAdmit (h : env) (now : Z) (m : message) (rid : string) (pid : nat) (sender : string)
    (map : option (gmap string Z)) (s : state) : act :=
  match heap s !! pid with
  | None => (Go [], s)
  | Some rd =>
      let status := wire_status m in
      if negb (assertBodyWithinCap (m_body m)) then (Go [], count count_over_cap s)
      else
        let '(v, s) :=
          match a_winner rd with
          | None => if String.eqb status "ok" then adoptOkPrepare h now m rid pid rd status sender map s
                    else adoptNonOkPrepare h now m rid pid rd status sender map s
          | Some _ => if unsigned m then (Adopted, s)
                      else match countLatePrepare h pid rd m sender s with Some s => (Adopted, s) | None => (Thrown, s) end
          end in
        match v with
        | Thrown => (Throw, s)
        | Declined => (Go [], s)
        | Adopted => finishPrepare h rid pid sender s
        end
  end.

Definition handlePrepare (h : env) (now : Z) (m : message) (s : state) : act :=
  match round_door h now m s with
  | DoorShut s => (Go [], s)
  | DoorOpen pid rd =>
      let rid := toLowerCase (m_requestId m) in
      let sender := toLowerCase (m_pubkey m) in
      if bad_pubkey (m_texts m) then (Throw, s)
      else if negb (is_responsible rd sender) then (Go [], s)
      else if caps_throw h rd m then (Throw, s)
      else if negb (envelopeWithinCaps h rd m) then (Go [], s)
      else match readWireAdmitBlocks h (rs_block (a_rs rd)) (m_admit m) with
      | AdmitRefused => (Go [], s)
      | AdmitOk map => if still_open rid pid s then handlePrepareWithAdmit h now m rid pid sender map s else (Go [], s)
      | AdmitBound map => (Go [], suspend (KPrepare m rid pid sender map) s)
      end
  end.

(** ** COMMIT *)

Definition finishCommitWithAdmit (h : env) (m : message) (rid : string) (pid : nat) (sender : string) (map : option (gmap string Z))
    (s : state) : act :=
  match heap s !! pid with
  | None => (Go [], s)
  | Some rd =>
      if negb (String.eqb (admitBlocksKey (a_admitBlocks rd)) (admitBlocksKey map)) then (Go [], s)
      else match (if unsigned m then Some s else countLatePrepare h pid rd m sender s) with
      | None => (Throw, s)
      | Some s => (Go [], checkCommitQuorum h rid (modify pid (λ rd, set_a_commits (s_add sender (a_commits rd)) rd) s))
      end
  end.

Definition handleCommit (h : env) (now : Z) (m : message) (s : state) : act :=
  match round_door h now m s with
  | DoorShut s => (Go [], s)
  | DoorOpen pid rd =>
      let rid := toLowerCase (m_requestId m) in
      let sender := toLowerCase (m_pubkey m) in
      if bad_pubkey (m_texts m) then (Throw, s)
      else if negb (is_responsible rd sender) then (Go [], s)
      else if bool_decide (a_winner rd = None) then (Go [], bufferEarlyCommit h rid m s)
      else match readWireAdmitBlocks h (rs_block (a_rs rd)) (m_admit m) with
      | AdmitRefused => (Go [], s)
      | AdmitOk map => if still_open rid pid s then finishCommitWithAdmit h m rid pid sender map s else (Go [], s)
      | AdmitBound map => (Go [], suspend (KCommit m rid pid sender map) s)
      end
  end.

(** ** The message door, and the calls handlers end in *)

Definition handleMessage (h : env) (now : Z) (m : message) (s : state) : act :=
  if bad_requestId (m_texts m) then (Throw, s)
  else match m_type m with
  | ATTEST_PROPOSE => handlePropose h now m s
  | ATTEST_PREPARE => handlePrepare h now m s
  | ATTEST_COMMIT => handleCommit h now m s
  end.

Definition recheck (h : env) (rid : string) (pid : nat) (s : state) : state :=
  match heap s !! pid with
  | Some rd => if a_commitSent rd then checkCommitQuorum h rid s else s
  | None => s
  end.

Definition exec (h : env) (now : Z) (j : job) (s : state) : act :=
  match j with
  | JMessage m => handleMessage h now m s
  | JDrain rid => drainEarlyMessages now rid s
  | JDrainCommits rid => drainEarlyCommits rid s
  | JAdvance rid => maybeAdvanceFromProposals h now rid s
  | JEndCall => (Go [], s)
  | JRecheck rid pid => (Go [], recheck h rid pid s)
  end.

(** What a throw leaves of the waiting calls: those after the asynchronous call
    that catches it, if one does. *)
Fixpoint unwind (js : list job) : option (list job) :=
  match js with
  | [] => None
  | JEndCall :: js => Some js
  | _ :: js => unwind js
  end.

(** The end of a synchronous stretch: it returned, or a throw left it. *)
Inductive fate := Returned (s : state) | Uncaught (s : state).

(** [None]: out of fuel. *)
Fixpoint run_jobs (fuel : nat) (h : env) (now : Z) (js : list job) (s : state) : option fate :=
  match fuel, js with
  | _, [] => Some (Returned s)
  | O, _ => None
  | S fuel, j :: js =>
      match exec h now j s with
      | (Go more, s) => run_jobs fuel h now (more ++ js) s
      | (Throw, s) => match unwind js with Some js => run_jobs fuel h now js s | None => Some (Uncaught s) end
      end
  end.

(** The messages a list of calls and the buffers hold, and its other calls. *)
Definition is_message (j : job) : bool := match j with JMessage _ => true | _ => false end.
Definition waiting_messages (js : list job) : nat := length (filter (λ j, is_message j = true) js).
Definition buffered_messages (s : state) : nat :=
  sum_list (length <$> (earlyMessages s).*2) + sum_list (length <$> (map_to_list (earlyCommits s)).*2).
Definition call_weight (j : job) : nat := match j with JMessage _ => 0 | JAdvance _ => 3 | _ => 1 end.
Definition calls (js : list job) : nat := sum_list (call_weight <$> js).

Definition replay_bound (js : list job) (s : state) : nat :=
  let N := (waiting_messages js + buffered_messages s)%nat in
  ((calls js + 6 * N) * (N + 2) + waiting_messages js)%nat.

Definition settle (h : env) (now : Z) (a : act) : option fate :=
  match a with
  | (Throw, s) => Some (Uncaught s)
  | (Go js, s) => run_jobs (replay_bound js s) h now js s
  end.

(** ** Timers and the end *)

(** The round timer: the round that armed it, when it has not finalized. *)
Definition onRoundTimeout (h : env) (pid : nat) (s : state) : state :=
  match heap s !! pid with
  | None => s
  | Some rd =>
      let s := modify pid (set_a_timer false) s in
      if a_finalized rd then s
      else markTornDown h (a_rid rd) (drop_early (a_rid rd)
             (put_earlyCommits (delete (a_rid rd) (earlyCommits s)) (put_pending (delete (a_rid rd) (pending s)) (count count_timeout s))))
  end.

(** The eviction timer of a finalized round deletes whatever the id maps to. *)
Fixpoint remove_once (x : string) (l : list string) : list string :=
  match l with [] => [] | y :: l => if String.eqb y x then l else y :: remove_once x l end.
Definition onEvict (rid : string) (s : state) : state :=
  put_pending (delete rid (pending s)) (put_evictions (remove_once rid (evictions s)) s).

Definition stop (s : state) : state :=
  let held pid := existsb (λ kv, bool_decide (kv.2 = pid)) (map_to_list (pending s)) in
  put_proposerSeenOrder [] (put_proposerSeen ∅ (put_tornDownOrder [] (put_tornDown ∅ (put_nonOkPublishedOrder [] (put_nonOkPublished ∅
    (put_earlyCommits ∅ (put_earlyMessageTtl [] (put_earlyMessages [] (put_pending ∅
      (put_heap (map_imap (λ pid rd, Some (if held pid then set_a_timer false rd else rd)) (heap s)) s)))))))))).

(** ** Runs *)

Inductive event :=
| EvPropose (requestId : string) (rs : roundState)
| EvMessage (m : message)
| EvTip (k : nat) (tips : option (string → option json))        (** the hub's admission tips were read *)
| EvAgreed (k : nat) (answer : option (string * string))        (** [agree] answered; [None]: null or a throw *)
| EvBound (k : nat) (tips : option (string → option json))      (** the tips the follower's bound is held against *)
| EvTimeout (pid : nat)
| EvEvict (rid : string)
| EvStop.

Definition take (k : nat) (s : state) : option (kont * state) :=
  κ ← konts s !! k; Some (κ, put_konts (delete k (konts s)) s).

Definition resume (h : env) (now : Z) (κ : kont) (ev : event) (s : state) : option act :=
  match κ, ev with
  | KTip rid rs my, EvTip _ tips => Some (resumeTip h rid rs my tips s)
  | KAgree rid pid sync, EvAgreed _ answer => Some (resumeAgree h now rid pid (default answer sync) s)
  | KPropose m rid pid sender effective map, EvBound _ tips =>
      Some (if admit_bound_holds map tips && still_open rid pid s
            then verifyAndAdmitProposal h now rid pid m sender effective (Some map) s else (Go [], s))
  | KPrepare m rid pid sender map, EvBound _ tips =>
      Some (if admit_bound_holds map tips && still_open rid pid s
            then handlePrepareWithAdmit h now m rid pid sender (Some map) s else (Go [], s))
  | KCommit m rid pid sender map, EvBound _ tips =>
      Some (if admit_bound_holds map tips && still_open rid pid s
            then finishCommitWithAdmit h m rid pid sender (Some map) s else (Go [], s))
  | _, _ => None
  end.

(** What is left when the promise of an asynchronous call catches a throw. *)
Definition caught (f : fate) : fate := match f with Returned s | Uncaught s => Returned s end.

(** One event at time [now] (milliseconds): [None] when it cannot happen, and
    [Uncaught] when a throw leaves the listener of a message. *)
Definition step (h : env) (now : Z) (ev : event) (s : state) : option fate :=
  match ev with
  | EvPropose requestId rs => caught <$> settle h now (propose h now requestId rs s)
  | EvMessage m => settle h now (handleMessage h now m s)
  | EvTip k _ | EvAgreed k _ | EvBound k _ => '(κ, s) ← take k s; a ← resume h now κ ev s; caught <$> settle h now a
  | EvTimeout pid =>
      match heap s !! pid with
      | Some rd => if a_timer rd then Some (Returned (onRoundTimeout h pid s)) else None
      | None => None
      end
  | EvEvict rid => if bool_decide (rid ∈ evictions s) then Some (Returned (onEvict rid s)) else None
  | EvStop => Some (Returned (stop s))
  end.

(** A run ends at the first uncaught throw: the process exits. *)
Fixpoint run (h : env) (evs : list (Z * event)) (s : state) : option fate :=
  match evs with
  | [] => Some (Returned s)
  | (now, ev) :: evs => match step h now ev s with
                        | Some (Returned s) => run h evs s
                        | f => f
                        end
  end.
