(* ===== verification/AtInv.v ===== *)
(** * Attestation rounds: the invariant

    What every open round keeps true whatever arrives: its signatures verify over
    the winner it settled on, its signers are responsible members or this hub, the
    candidates of the corroboration rule are verified too, and a failure outcome is
    one of the two a hub can derive. Stated per round ([round_ok]) and for the
    state ([inv]), over the list of proposals made so far. *)

From stdpp Require Import pretty.
From S2P Require Import Prelude Ordered GateRegistry BigNum Quorum Json AttestWire OracleBand Admission AtState AtCanon AtRounds.
Open Scope Z_scope.

(** ** Messages of plain texts *)

Lemma plain_caps h rd m : m_texts m = plain_texts → caps_throw h rd m = false.
Proof. unfold caps_throw. intros ->. cbn. by rewrite andb_false_r, andb_false_r. Qed.

(** ** Signatures over given bytes *)

Definition signed_over (h : env) (c : option string) (sigs : list (string * string)) : Prop :=
  ∀ pk sg, (pk, sg) ∈ sigs → verify_over h c sg pk = true.

Lemma signed_nil h c : signed_over h c [].
Proof. intros ?? []%not_elem_of_nil. Qed.

Lemma at_signed_set h c pk sg sigs : verify_over h c sg pk = true → signed_over h c sigs → signed_over h c (m_set pk sg sigs).
Proof. intros Hv Hs pk' sg' [[= -> ->]|?]%elem_of_m_set_pair; [done|by apply Hs]. Qed.

(** ** A round *)

Section Inv.
Context (h : env).

(** [identity.sign] makes signatures that verify under the hub's own key. *)
Definition signs_for_itself : Prop := ∀ id p, identity h = Some id → verify h p (sign h p) (toLowerCase id) = true.

(** SHA-256 digests have 32 bytes. *)
Definition digests_32 : Prop := ∀ b, String.length (sha256 h b) = 32%nat.

Implicit Types (s : state) (rd : round) (H : list (string * roundState)).

Definition over_hash rd (hash status meta : string) (effective : option Z) (map : option (gmap string Z)) : option string :=
  canonicalOfHash h (a_rid rd) (rs_providerId (a_rs rd)) hash status meta (rs_block (a_rs rd)) effective map.

Definition may_sign rd (pk : string) : Prop := pk ∈ rs_responsible (a_rs rd) ∨ a_myPubkey rd = Some pk.

Definition derivable (status : string) (winner : string * string) : Prop :=
  status = "ok"%string ∨ (status = "provider_error"%string ∨ status = "no_quorum"%string) ∧ winner = (EmptyString, EmptyString).

(** One candidate of the corroboration rule: verified bytes under its key. *)
Definition candidate_ok rd (key : string) (cand : list (string * string)) : Prop :=
  NoDup cand.*1 ∧
  ∀ pk sg, (pk, sg) ∈ cand → pk ∈ rs_responsible (a_rs rd) ∧
    ∃ hash meta effective map, String.length hash = 64%nat ∧ key = candidate_key hash meta "ok" effective map ∧
      admissionEra h (rs_block (a_rs rd)) = bool_decide (is_Some map) ∧
      verify_over h (over_hash rd hash "ok" meta effective map) sg pk = true.

Record round_ok H rd : Prop := {
  ro_opened : (a_rid rd, a_rs rd) ∈ H;
  ro_quorum : a_quorum rd = round_quorum (a_rs rd);
  ro_me : a_myPubkey rd = toLowerCase <$> identity h;
  ro_era : a_mirrorEra rd = isMirrorEra h (rs_block (a_rs rd));
  ro_keys : NoDup (a_signatures rd).*1;
  ro_signers : ∀ pk, pk ∈ (a_signatures rd).*1 → may_sign rd pk;
  ro_unset : a_winner rd = None → a_signatures rd = [];
  ro_signed : ∀ w, a_winner rd = Some w → signed_over h (round_canonical h rd w.1 (a_status rd) w.2) (a_signatures rd);
  ro_status : derivable (a_status rd) (default (EmptyString, EmptyString) (a_winner rd));
  ro_proposers : ∀ pk, pk ∈ (a_proposals rd).*1 → may_sign rd pk;
  ro_cands : ∀ key cand, (key, cand) ∈ a_prepareCandidates rd → candidate_ok rd key cand }.

(** What [round_ok] reads of a round. *)
Definition vitals rd :=
  (a_rid rd, a_rs rd, a_quorum rd, a_myPubkey rd, a_mirrorEra rd, a_effectiveTime rd, a_admitBlocks rd, a_signatures rd,
   a_winner rd, a_status rd, (a_proposals rd).*1, a_prepareCandidates rd).

Lemma round_ok_ext H rd rd' : vitals rd = vitals rd' → round_ok H rd → round_ok H rd'.
Proof.
  destruct rd, rd'. unfold vitals. cbn. intros [= -> -> -> -> -> -> -> -> -> -> Hp ->] [].
  constructor; try done. cbn in *. by rewrite <-Hp.
Qed.

Lemma round_ok_mono H H' rd : (∀ x, x ∈ H → x ∈ H') → round_ok H rd → round_ok H' rd.
Proof. intros HH []. constructor; eauto. Qed.

(** ** The published response *)

Definition response_ok H (f : response) : Prop :=
  ∃ rs, (f_requestId f, rs) ∈ H ∧ f_block f = rs_block rs ∧ f_providerId f = rs_providerId rs ∧
    Z.of_nat (length (f_signatures f)) = Z.max 0 (Z.max (round_quorum rs) (rs_redundancy rs)) ∧
    NoDup (f_signatures f).*1 ∧
    signed_over h (buildCanonical h (f_requestId f) (f_providerId f) (f_body f) (f_status f) (f_meta f) (f_block f)
                     (f_effectiveTime f) (f_admitBlocks f)) (f_signatures f) ∧
    (∀ pk, pk ∈ (f_signatures f).*1 → pk ∈ rs_responsible rs ∨ toLowerCase <$> identity h = Some pk) ∧
    derivable (f_status f) (f_body f, f_meta f).

(** ** The state *)

Definition kont_ok H s (κ : kont) : Prop :=
  match κ with
  | KTip rid rs my =>
      (rid, rs) ∈ H ∧ my_quorum my = round_quorum rs ∧ my_pubkey my = toLowerCase <$> identity h ∧ my_mirrorEra my = isMirrorEra h (rs_block rs)
  | KPropose m rid pid sender _ _ | KPrepare m rid pid sender _ | KCommit m rid pid sender _ =>
      ∃ rd, heap s !! pid = Some rd ∧ a_rid rd = rid ∧ sender ∈ rs_responsible (a_rs rd) ∧
        m_admit m ≠ None ∧ admissionEra h (rs_block (a_rs rd)) = true
  | KAgree rid pid _ => ∃ rd, heap s !! pid = Some rd ∧ a_rid rd = rid
  end.

Record inv H s : Prop := {
  inv_rounds : ∀ pid rd, heap s !! pid = Some rd → round_ok H rd;
  inv_pending : ∀ rid pid, pending s !! rid = Some pid → ∃ rd, heap s !! pid = Some rd ∧ a_rid rd = rid;
  inv_fresh : ∀ pid, (next s ≤ pid)%nat → heap s !! pid = None;
  inv_konts : ∀ k κ, konts s !! k = Some κ → kont_ok H s κ;
  inv_out : ∀ f, Finalized f ∈ out s → response_ok H f }.

(** The part of the state the invariant reads. *)
Definition core s := (pending s, heap s, next s, konts s, out s).

Lemma at_inv_core H s s' : core s = core s' → inv H s → inv H s'.
Proof.
  unfold core. intros [= Hp Hh Hn Hk Ho] [I1 I2 I3 I4 I5].
  assert (Hkk : ∀ κ, kont_ok H s κ → kont_ok H s' κ) by (intros []; cbn; rewrite ?Hh; done).
  constructor; rewrite <-?Hp, <-?Hh, <-?Hn, <-?Hk, <-?Ho; try done. intros k κ Hκ. apply Hkk. by eapply I4.
Qed.

Lemma at_inv_mono H H' s : (∀ x, x ∈ H → x ∈ H') → inv H s → inv H' s.
Proof.
  intros HH [I1 I2 I3 I4 I5]. constructor; try done.
  - intros pid rd Hr. eapply round_ok_mono; [done|by eapply I1].
  - intros k κ Hk. specialize (I4 k κ Hk). destruct κ; cbn in *; try done. destruct I4 as (?&?&?&?). eauto.
  - intros f Hf. destruct (I5 f Hf) as (rs & Hrs & ?). exists rs. eauto.
Qed.

Lemma at_inv_initial H : inv H initial.
Proof. constructor; cbn; try (intros; by simplify_map_eq). intros f []%not_elem_of_nil. Qed.

(** A change to one round that keeps it well formed and keeps who it is. *)
Lemma at_inv_modify H pid f s :
  (∀ rd, heap s !! pid = Some rd → round_ok H rd → round_ok H (f rd) ∧ a_rid (f rd) = a_rid rd ∧ a_rs (f rd) = a_rs rd) →
  inv H s → inv H (modify pid f s).
Proof.
  intros Hf [I1 I2 I3 I4 I5].
  assert (Hl : ∀ pid' rd, heap s !! pid' = Some rd → ∃ rd', heap (modify pid f s) !! pid' = Some rd' ∧ a_rid rd' = a_rid rd ∧ a_rs rd' = a_rs rd).
  { intros pid' rd Hr. cbn. destruct (decide (pid = pid')) as [<-|Hne].
    - exists (f rd). rewrite lookup_alter_eq, Hr. split; [done|]. by apply Hf; [|eapply I1].
    - exists rd. by rewrite lookup_alter_ne. }
  constructor.
  - intros pid' rd'. cbn. destruct (decide (pid = pid')) as [<-|Hne].
    + rewrite lookup_alter_eq. intros (rd & Hrd & ->)%fmap_Some. apply (Hf rd Hrd). by eapply I1.
    + rewrite lookup_alter_ne by done. apply I1.
  - intros rid pid' Hp. destruct (I2 rid pid' Hp) as (rd & Hr & Hrid). destruct (Hl _ _ Hr) as (rd' & Hr' & E1 & _).
    exists rd'. split; [done|congruence].
  - intros pid' Hle. cbn. rewrite lookup_alter_None. by apply I3.
  - intros k κ Hk. specialize (I4 k κ Hk). destruct κ; cbn [kont_ok] in *; try done.
    all: destruct I4 as (rd & Hr & Hrid).
    1: destruct (Hl _ _ Hr) as (rd' & Hr' & E1 & _); exists rd'; split; [done|congruence].
    all: destruct Hrid as (Hrid & Hs & Hm & He); destruct (Hl _ _ Hr) as (rd' & Hr' & E1 & E2); exists rd'; rewrite E1, E2; by split_and!.
  - done.
Qed.

Lemma inv_set H pid rd rd' s :
  heap s !! pid = Some rd → round_ok H rd' → a_rid rd' = a_rid rd → a_rs rd' = a_rs rd → inv H s → inv H (modify pid (λ _, rd') s).
Proof. intros Hr Hok E1 E2. apply at_inv_modify. intros rd0 Hr0 _. split; [done|]. assert (rd0 = rd) as -> by congruence. done. Qed.

Lemma inv_flags H pid f s :
  (∀ rd, vitals (f rd) = vitals rd) → inv H s → inv H (modify pid f s).
Proof.
  intros Hv. apply at_inv_modify. intros rd _ Hok. split_and!.
  - by eapply round_ok_ext; [symmetry; apply Hv|].
  - pose proof (Hv rd) as E. unfold vitals in E. congruence.
  - pose proof (Hv rd) as E. unfold vitals in E. congruence.
Qed.

(** Effects other than a response. *)
Lemma at_inv_emit H e s : (∀ f, e = Finalized f → response_ok H f) → inv H s → inv H (emit e s).
Proof.
  intros He [I1 I2 I3 I4 I5]. constructor; try done. intros f [<-|Hf]%elem_of_cons; [by apply He|by apply I5].
Qed.

Lemma at_inv_broadcast H e s : (∀ f, e ≠ Finalized f) → inv H s → inv H (broadcast h e s).
Proof. intros He Hs. unfold broadcast. destruct (peers h); [|done]. apply at_inv_emit; [|done]. intros f ->. by destruct (He f). Qed.

Lemma at_inv_suspend H κ s : kont_ok H s κ → inv H s → inv H (suspend κ s).
Proof.
  intros Hκ [I1 I2 I3 I4 I5]. constructor; try done.
  - intros pid Hle. cbn in *. apply I3. lia.
  - intros k κ' Hk. cbn in Hk. apply lookup_insert_Some in Hk as [[_ <-]|[_ Hk]]; [done|by eapply I4].
Qed.

Lemma inv_delete_pending H rid s : inv H s → inv H (put_pending (delete rid (pending s)) s).
Proof.
  intros [I1 I2 I3 I4 I5]. constructor; try done. cbn. intros rid' pid. rewrite lookup_delete_Some. intros [_ Hp]. by apply I2.
Qed.

Lemma at_inv_take H k κ s s' : take k s = Some (κ, s') → inv H s → inv H s' ∧ kont_ok H s' κ.
Proof.
  unfold take. destruct (konts s !! k) as [κ'|] eqn:Hk; [|done]. cbn. intros [= -> <-] [I1 I2 I3 I4 I5]. split.
  - constructor; try done. cbn. intros k' κ' Hk'. rewrite lookup_delete_Some in Hk'. by eapply I4, Hk'.
  - pose proof (I4 k κ Hk). by destruct κ.
Qed.

Lemma at_live_lookup rid s pid rd : live rid s = Some (pid, rd) → pending s !! rid = Some pid ∧ heap s !! pid = Some rd.
Proof.
  unfold live. destruct (pending s !! rid) as [p|]; [|done]. cbn. destruct (heap s !! p) eqn:Hh; [|done]. cbn. intros [= -> ->]. done.
Qed.

Lemma inv_live H rid s pid rd : inv H s → live rid s = Some (pid, rd) → heap s !! pid = Some rd ∧ round_ok H rd ∧ a_rid rd = rid.
Proof.
  intros [I1 I2 _ _ _] [Hp Hr]%at_live_lookup. destruct (I2 _ _ Hp) as (rd' & Hr' & Hrid). assert (rd' = rd) as -> by congruence.
  split_and!; [done|by eapply I1|done].
Qed.
End Inv.
