(* ===== verification/AtVotes.v ===== *)
(** * Attestation rounds: rounds under the handlers

    How the operations on one round keep it well formed: signing, settling and
    adopting a winner, collecting signatures, corroborating candidates; and the
    choice of the signers a response publishes. The corroboration rule groups
    PREPAREs by a text of the announced body's digest, meta, status, stamp and
    admission map: two announcements under one key sign the same bytes, whatever the
    meta contains. Last, the byte-equality tally is a majority vote. *)

From stdpp Require Import pretty.
From S2P Require Import Prelude Ordered GateRegistry BigNum Quorum Json AttestWire OracleBand Admission AdmissionProps AtState AtCanon AtRounds AtInv.
Open Scope Z_scope.

(** ** Stamps and maps as texts *)

Definition stamp_text (effective : option Z) : string := match effective with Some z => pretty z | None => "null" end.

Lemma stamp_barless e : barless (stamp_text e).
Proof. destruct e; [apply pretty_chars|exact eq_refl]. Qed.

Lemma stamp_text_inj e e' : stamp_text e = stamp_text e' → e = e'.
Proof.
  destruct e as [z|], e' as [z'|]; cbn; [| | |done].
  - intros E%(inj pretty). by subst.
  - intros E. by destruct (pretty_chars z).
  - intros E. by destruct (pretty_chars z').
Qed.

Lemma commas_barless l : Forall barless l → barless (commas l).
Proof.
  intros Hl. induction Hl as [|p l Hp Hl IH]; [exact eq_refl|]. destruct l as [|q l]; [done|]. rewrite commas_cons, !barless_app. by split_and!.
Qed.

Lemma encode_barless (m : gmap string Z) s : encodeAdmitBlocks (admit_json m) = Ok s → barless s.
Proof.
  unfold encodeAdmitBlocks, admit_json. rewrite sorted_entries_int. destruct (negb _); [|done].
  destruct (encode_parts _) as [parts|] eqn:Ep; [|done]. cbn [rbind]. intros [= <-]. apply encode_parts_int in Ep as [Hl ->].
  apply commas_barless, Forall_fmap. eapply Forall_impl; [exact Hl|]. intros p (Hc & Hh & _). cbv beta. unfold compose, entry_text.
  rewrite !barless_app. split_and!; [by eapply code_free|exact eq_refl|]. destruct (pretty_nonneg p.2 Hh) as [Hd _ _]. by apply digits_free.
Qed.

Lemma key_barless (map : option (gmap string Z)) : barless (admitBlocksKey map).
Proof. destruct map as [m|]; [|exact eq_refl]. cbn. destruct (encodeAdmitBlocks _) eqn:E; [by eapply encode_barless|exact eq_refl]. Qed.

(** ** One key, one canonical *)

Lemma candidate_key_inj hash meta e map hash' meta' e' map' :
  String.length hash = String.length hash' →
  candidate_key hash meta "ok" e map = candidate_key hash' meta' "ok" e' map' →
  hash = hash' ∧ meta = meta' ∧ e = e' ∧ admitBlocksKey map = admitBlocksKey map'.
Proof.
  intros Hl. unfold candidate_key. fold (stamp_text e). fold (stamp_text e').
  intros E.
  assert (E1 : (hash +:+ "|" +:+ meta +:+ "|" +:+ "ok" +:+ "|" +:+ stamp_text e) +:+ "|" +:+ admitBlocksKey map =
               (hash' +:+ "|" +:+ meta' +:+ "|" +:+ "ok" +:+ "|" +:+ stamp_text e') +:+ "|" +:+ admitBlocksKey map').
  { autorewrite with strs. exact E. }
  apply last_field in E1 as [E1 Hkey]; [|apply key_barless..].
  assert (E2 : (hash +:+ "|" +:+ meta +:+ "|" +:+ "ok") +:+ "|" +:+ stamp_text e =
               (hash' +:+ "|" +:+ meta' +:+ "|" +:+ "ok") +:+ "|" +:+ stamp_text e') by (autorewrite with strs; exact E1).
  apply last_field in E2 as [E2 He%stamp_text_inj]; [|apply stamp_barless..].
  assert (E3 : (hash +:+ "|" +:+ meta) +:+ "|" +:+ "ok" = (hash' +:+ "|" +:+ meta') +:+ "|" +:+ "ok") by (autorewrite with strs; exact E2).
  apply last_field in E3 as [E3 _]; [|exact eq_refl..].
  apply first_fixed in E3 as [-> E4]; [|done]. apply app_str_inj_l in E4 as ->. done.
Qed.

Lemma canonical_same_key h rid provider hash status meta block e map map' c c' :
  is_Some map ↔ is_Some map' → admitBlocksKey map = admitBlocksKey map' →
  canonicalOfHash h rid provider hash status meta block e map = Some c →
  canonicalOfHash h rid provider hash status meta block e map' = Some c' → c = c'.
Proof.
  intros Hs Hk. unfold canonicalOfHash. destruct (negb _); [done|]. destruct (buildResponseCanonicalRaw _ _ _ _ _ _) as [raw|]; [|done].
  unfold admissionCanonicalField, admissionCanonicalValue. destruct (isAdmissionEra _ _ _); cbn [negb rbind]; [|congruence].
  destruct map as [m|], map' as [m'|]; cbn [fmap option_fmap option_map rbind] in *.
  - unfold admitBlocksKey in Hk. cbv beta iota in Hk. destruct (encodeAdmitBlocks (admit_json m)) as [s|] in Hk |- *; [|done]. cbn [rbind].
    destruct (encodeAdmitBlocks (admit_json m')) as [s'|] in Hk |- *; [|done]. cbn [rbind]. subst s'. congruence.
  - exfalso. destruct Hs as [Hs _]. by destruct (Hs ltac:(eauto)).
  - exfalso. destruct Hs as [_ Hs]. by destruct (Hs ltac:(eauto)).
  - congruence.
Qed.

Lemma hex_length s : String.length (hex_of s) = (2 * String.length s)%nat.
Proof. induction s as [|c s IH]; [done|]. cbn [hex_of]. rewrite app_str_length, IH. cbn. lia. Qed.

Lemma hexDigest_length h b : digests_32 h → String.length (hexDigest h b) = 64%nat.
Proof. intros Hd. unfold hexDigest. by rewrite hex_length, Hd. Qed.

(** The candidates under a key verify over whatever bytes the key stands for. *)
Lemma candidates_sign h rd hash meta e map cand c :
  digests_32 h → String.length hash = 64%nat →
  candidate_ok h rd (candidate_key hash meta "ok" e map) cand →
  admissionEra h (rs_block (a_rs rd)) = bool_decide (is_Some map) →
  over_hash h rd hash "ok" meta e map = Some c → signed_over h (Some c) cand.
Proof.
  intros _ Hh [_ Hc] Hera Hcan pk sg Hin. destruct (Hc pk sg Hin) as (_ & hash' & meta' & e' & map' & Hl & Hkey & Hera' & Hv).
  apply candidate_key_inj in Hkey as (<- & <- & <- & Hkey); [|lia]. unfold verify_over in Hv.
  destruct (over_hash h rd hash "ok" meta e map') as [c'|] eqn:Hc'; [|done].
  assert (c = c') as ->; [|done]. eapply canonical_same_key; [| |exact Hcan|exact Hc'].
  - rewrite Hera in Hera'. destruct map, map'; split; intros ?; by eauto.
  - done.
Qed.

Section Votes.
Context (h : env) (Hself : signs_for_itself h) (Hsha : digests_32 h).
Implicit Types (s : state) (rd : round) (H : list (string * roundState)).

(** ** The published signers *)

Lemma select_spec sigs n :
  n ≤ Z.of_nat (length sigs) → NoDup sigs.*1 →
  let l := selectFinalizedSigners sigs n in
  Z.of_nat (length l) = Z.max 0 n ∧ NoDup l.*1 ∧ l ⊆ sigs.
Proof.
  intros Hn Hnd. unfold selectFinalizedSigners. pose proof (isort_perm signer_le sigs) as Hp. split_and!.
  - rewrite length_take, length_isort. lia.
  - rewrite fmap_take. eapply sublist_NoDup; [|apply sublist_take]. by rewrite Hp.
  - intros x Hx%elem_of_take. destruct Hx as (i & Hi & _). apply list_elem_of_lookup_2 in Hi. by rewrite Hp in Hi.
Qed.

(** ** Signing *)

Lemma round_sign_verifies rd body status meta sig :
  a_myPubkey rd = toLowerCase <$> identity h → round_sign h rd body status meta = Some sig →
  ∃ me c, a_myPubkey rd = Some me ∧ round_canonical h rd body status meta = Some c ∧ verify h c sig me = true.
Proof.
  intros Hme. unfold round_sign, signCanonical. case_bool_decide as Hid; [done|]. unfold round_canonical.
  destruct (buildCanonical _ _ _ _ _ _ _ _ _) as [c|]; [|done]. cbn. intros [= <-].
  destruct (identity h) as [id|] eqn:Ei; [|done]. exists (toLowerCase id), c. split_and!; [done|done|by apply Hself].
Qed.

Lemma ok_sign H rd pk sg w :
  a_winner rd = Some w → verify_over h (round_canonical h rd w.1 (a_status rd) w.2) sg pk = true → may_sign rd pk →
  round_ok h H rd → round_ok h H (set_a_signatures (m_set pk sg (a_signatures rd)) rd).
Proof.
  intros Hw Hv Hm []. constructor; cbn [set_a_signatures a_rid a_rs a_quorum a_myPubkey a_mirrorEra a_signatures a_winner a_proposals a_prepareCandidates a_status]; try done.
  - by apply NoDup_m_set.
  - intros pk' [->|?]%elem_of_m_set; [done|by apply ro_signers].
  - by rewrite Hw.
  - intros w' Hw'. rewrite Hw in Hw'. injection Hw' as <-. apply at_signed_set; [done|]. by apply ro_signed.
Qed.

Lemma sign_winner_rid sig rd : a_rid (sign_winner sig rd) = a_rid rd ∧ a_rs (sign_winner sig rd) = a_rs rd.
Proof. unfold sign_winner. by destruct (a_myPubkey rd), sig. Qed.

Lemma ok_sign_winner H rd body meta sig :
  a_winner rd = Some (body, meta) →
  (∀ sg me, sig = Some sg → a_myPubkey rd = Some me → verify_over h (round_canonical h rd body (a_status rd) meta) sg me = true) →
  round_ok h H rd → round_ok h H (sign_winner sig rd).
Proof.
  intros Hw Hv Hok. unfold sign_winner. destruct (a_myPubkey rd) as [me|] eqn:Hme; [|done]. destruct sig as [sg|]; [|done].
  eapply ok_sign; [done| |by right|done]. by apply Hv.
Qed.

Lemma ok_round_sign H rd body meta :
  a_winner rd = Some (body, meta) → round_ok h H rd → round_ok h H (sign_winner (round_sign h rd body (a_status rd) meta) rd).
Proof.
  intros Hw Hok. apply (ok_sign_winner _ _ body meta); [done| |done]. intros sg me Hs Hme.
  destruct (round_sign_verifies _ _ _ _ _ (ro_me _ _ _ Hok) Hs) as (me' & c & Hme' & Hc & Hv). rewrite Hc. cbn. congruence.
Qed.

(** ** Settling a winner *)

Lemma settle_fields now body meta status rd :
  let rd' := settle_round h now body meta status rd in
  a_rid rd' = a_rid rd ∧ a_rs rd' = a_rs rd ∧ a_quorum rd' = a_quorum rd ∧ a_myPubkey rd' = a_myPubkey rd ∧ a_mirrorEra rd' = a_mirrorEra rd ∧
  a_signatures rd' = a_signatures rd ∧ a_winner rd' = Some (body, meta) ∧ a_status rd' = status ∧ a_proposals rd' = a_proposals rd ∧
  a_prepareCandidates rd' = a_prepareCandidates rd.
Proof.
  unfold settle_round. set (rd1 := set_a_status _ _).
  assert (E1 : ∀ r, settleWinnerEffectiveTime h now status r = set_a_effectiveTime (a_effectiveTime (settleWinnerEffectiveTime h now status r)) r).
  { intros r. unfold settleWinnerEffectiveTime, resolveRoundEffectiveTime.
    destruct (negb _); [by destruct r|]. destruct (_ && _); [done|]. destruct (leaderProposal r ≫= _); [done|by destruct r]. }
  assert (E2 : ∀ r, settleWinnerAdmitMap r = set_a_admitBlocks (a_admitBlocks (settleWinnerAdmitMap r)) r).
  { intros r. unfold settleWinnerAdmitMap. destruct (leaderProposal r ≫= _); destruct r; cbn; by case_match. }
  rewrite E2, E1. by split_and!.
Qed.

Lemma ok_settle H now body meta status rd :
  a_winner rd = None → derivable status (body, meta) → round_ok h H rd → round_ok h H (settle_round h now body meta status rd).
Proof.
  intros Hw Hd []. destruct (settle_fields now body meta status rd) as (E1 & E2 & E3 & E4 & E5 & E6 & E7 & E8 & E9 & E10).
  constructor; unfold may_sign, candidate_ok, over_hash in *; rewrite ?E1, ?E2, ?E3, ?E4, ?E5, ?E6, ?E7, ?E8, ?E9, ?E10; try done.
  intros w [= <-]. rewrite (ro_unset Hw). apply signed_nil.
Qed.

(** ** Collecting *)

Lemma canonical_sigs rd sigs body status meta : round_canonical h (set_a_signatures sigs rd) body status meta = round_canonical h rd body status meta.
Proof. done. Qed.

(** Over a fixed winner, a step that only adds signatures which verify. *)
Definition collects (c : option string) rd rd' : Prop :=
  ∃ sigs, rd' = set_a_signatures sigs rd ∧ ∀ H, round_ok h H rd → round_ok h H rd'.

Lemma collects_refl c rd : collects c rd rd.
Proof. exists (a_signatures rd). split; [by destruct rd|done]. Qed.

Lemma collects_trans c rd1 rd2 rd3 : collects c rd1 rd2 → collects c rd2 rd3 → collects c rd1 rd3.
Proof. intros (s2 & -> & H2) (s3 & -> & H3). exists s3. split; [by destruct rd1|]. intros H Hok. by apply H3, H2. Qed.

Lemma transferable_collects body meta rd :
  a_winner rd = Some (body, meta) →
  (∀ pk, pk ∈ (a_proposals rd).*1 → may_sign rd pk) →
  collects (round_canonical h rd body (a_status rd) meta) rd (transferable h (round_canonical h rd body (a_status rd) meta) rd).
Proof.
  intros Hw Hp. unfold transferable. set (c := round_canonical _ _ _ _ _). assert (Hc : c = round_canonical h rd body (a_status rd) meta) by done. clearbody c.
  assert (Hin : ∀ kp, kp ∈ a_proposals rd → may_sign rd kp.1) by (intros kp Hkp; apply Hp, list_elem_of_fmap; eauto).
  clear Hp. revert Hin. generalize (a_proposals rd) at 1 2 as ps. intros ps. revert rd Hw Hc. induction ps as [|kp ps IH]; intros rd Hw Hc Hin; [apply collects_refl|].
  cbn [fold_left]. destruct (verify_over h c (p_sig kp.2) kp.1) eqn:Hv.
  - eapply collects_trans; [|apply IH]; [|done|done|].
    + eexists. split; [done|]. intros H Hok. eapply ok_sign; [done| |apply Hin; by left|done]. cbn. by rewrite <-Hc.
    + intros kp' Hkp'. apply Hin. by right.
  - apply IH; [done|done|]. intros kp' Hkp'. apply Hin. by right.
Qed.

Lemma collect_collects c body meta rd :
  a_winner rd = Some (body, meta) → round_canonical h rd body (a_status rd) meta = Some c →
  (∀ pk, pk ∈ (a_proposals rd).*1 → may_sign rd pk) →
  collects (Some c) rd (collectWinnerSignatures h c body meta rd).1 ∧ ∀ e, e ∈ (collectWinnerSignatures h c body meta rd).2 → ∀ f, e ≠ Finalized f.
Proof.
  intros Hw Hc Hp. unfold collectWinnerSignatures.
  assert (Hin : ∀ kp, kp ∈ a_proposals rd → may_sign rd kp.1) by (intros kp Hkp; apply Hp, list_elem_of_fmap; eauto).
  clear Hp. assert (Hes : ∀ e, e ∈ ([] : list effect) → ∀ f, e ≠ Finalized f) by (intros e []%not_elem_of_nil).
  revert Hin Hes. generalize (a_proposals rd) as ps, ([] : list effect) as es. intros ps. revert rd Hw Hc.
  induction ps as [|[pk p] ps IH]; intros rd Hw Hc es Hin Hes; [split; [apply collects_refl|done]|].
  cbn [fold_left collect_one]. destruct (body_matches h p body meta) eqn:Hb; cbn [andb negb].
  - destruct (verify h c (p_sig p) pk) eqn:Hv.
    + destruct (IH (set_a_signatures (m_set pk (p_sig p) (a_signatures rd)) rd) Hw Hc es) as [IH1 IH2]; [|done|].
      { intros kp' Hkp'. apply Hin. by right. }
      split; [|done]. eapply collects_trans; [|exact IH1]. eexists. split; [done|]. intros H Hok.
      eapply ok_sign; [done| |apply (Hin (pk, p)); by left|done]. cbn. by rewrite Hc.
    + apply IH; [done|done| |done]. intros kp' Hkp'. apply Hin. by right.
  - destruct (_ && slashDetector h); (apply IH; [done|done|intros kp' Hkp'; apply Hin; by right|]); [|done].
    intros e [?| ->%list_elem_of_singleton]%elem_of_app; [by apply Hes|done].
Qed.

(** ** Adopting a peer's winner *)

Lemma ok_adopt H rd sigs sender sg body meta status e map c :
  round_ok h H rd → NoDup sigs.*1 → (∀ pk, pk ∈ sigs.*1 → may_sign rd pk) → signed_over h (Some c) sigs →
  buildCanonical h (a_rid rd) (rs_providerId (a_rs rd)) body status meta (rs_block (a_rs rd)) e map = Some c →
  verify h c sg sender = true → sender ∈ rs_responsible (a_rs rd) → derivable status (body, meta) →
  round_ok h H (adopt sender sg body meta status e map (set_a_signatures sigs rd)).
Proof.
  intros [] Hnd Hm Hs Hc Hv Hr Hd. constructor; cbn; try done.
  - by apply NoDup_m_set.
  - intros pk [->|Hpk]%elem_of_m_set; [by left|by apply Hm].
  - intros w [= <-]. cbn. unfold round_canonical. cbn. rewrite Hc. by apply at_signed_set.
Qed.

Lemma set_own_signatures rd : set_a_signatures (a_signatures rd) rd = rd.
Proof. by destruct rd. Qed.

Lemma ok_adopt_plain H rd sender sg body meta status e map c :
  round_ok h H rd → a_winner rd = None →
  buildCanonical h (a_rid rd) (rs_providerId (a_rs rd)) body status meta (rs_block (a_rs rd)) e map = Some c →
  verify h c sg sender = true → sender ∈ rs_responsible (a_rs rd) → derivable status (body, meta) →
  round_ok h H (adopt sender sg body meta status e map rd).
Proof.
  intros Hok Hw Hc Hv Hr Hd. pose proof (ok_adopt H rd (a_signatures rd) sender sg body meta status e map c) as Ha.
  rewrite set_own_signatures in Ha. apply Ha; try done; [apply Hok..|]. rewrite (ro_unset _ _ _ Hok Hw). apply signed_nil.
Qed.

(** ** Candidates *)

Lemma candidate_delete rd key sender cand : candidate_ok h rd key cand → candidate_ok h rd key (m_delete sender cand).
Proof.
  intros [Hnd Hc]. split.
  - rewrite m_delete_keys. by apply NoDup_filter.
  - intros pk sg Hin. apply Hc. unfold m_delete in Hin. by apply list_elem_of_filter in Hin as [_ ?].
Qed.

Lemma clear_other_ok rd key sender cs :
  (∀ k cand, (k, cand) ∈ cs → candidate_ok h rd k cand) → ∀ k cand, (k, cand) ∈ clear_other key sender cs → candidate_ok h rd k cand.
Proof.
  intros Hcs k cand Hin. unfold clear_other in Hin. apply list_elem_of_omap in Hin as ([k' cand'] & Hin & E). cbn [fst snd] in E.
  specialize (Hcs k' cand' Hin). destruct (String.eqb k' key); [by injection E as <- <-|].
  destruct (m_get sender cand'); [|by injection E as <- <-]. destruct (m_delete sender cand') as [|x l] eqn:El; [done|].
  injection E as <- <-. rewrite <-El. by apply candidate_delete.
Qed.

Lemma candidate_set rd key cand sender sg hash meta e map :
  candidate_ok h rd key cand → String.length hash = 64%nat → key = candidate_key hash meta "ok" e map →
  admissionEra h (rs_block (a_rs rd)) = bool_decide (is_Some map) →
  verify_over h (over_hash h rd hash "ok" meta e map) sg sender = true → sender ∈ rs_responsible (a_rs rd) →
  candidate_ok h rd key (m_set sender sg cand).
Proof.
  intros [Hnd Hc] Hl Hk He Hv Hr. split; [by apply NoDup_m_set|]. intros pk sg' [[= -> ->]|Hin]%elem_of_m_set_pair; [|by apply Hc].
  split; [done|]. exists hash, meta, e, map. by split_and!.
Qed.

Lemma ok_candidates H rd cs :
  (∀ k cand, (k, cand) ∈ cs → candidate_ok h rd k cand) → round_ok h H rd → round_ok h H (set_a_prepareCandidates cs rd).
Proof. intros Hcs []. by constructor. Qed.

Lemma merge_props cand sigs : NoDup sigs.*1 → NoDup (merge_signatures cand sigs).*1 ∧ ∀ kv, kv ∈ merge_signatures cand sigs → kv ∈ cand ∨ kv ∈ sigs.
Proof.
  unfold merge_signatures. revert sigs. induction cand as [|[k v] cand IH]; intros sigs Hnd; [split; [done|by right]|].
  cbn [fold_left fst snd]. destruct (IH (m_set k v sigs)) as [IH1 IH2]; [by apply NoDup_m_set|]. split; [done|].
  intros kv Hkv. destruct (IH2 kv Hkv) as [?|[->|?]%elem_of_m_set_pair]; [left; by right|left; by left|by right].
Qed.

(** Corroboration: the round stays well formed, and when it goes on the
    signatures it carries cover the announced bytes. *)
Lemma corroborated_ok H rd m meta status sender body e map c rd' go :
  round_ok h H rd → a_winner rd = None → status = "ok"%string →
  (m_admit m = None → map = None) → admissionEra h (rs_block (a_rs rd)) = bool_decide (is_Some map) →
  buildCanonical h (a_rid rd) (rs_providerId (a_rs rd)) body status meta (rs_block (a_rs rd)) e map = Some c →
  verify h c (m_sig m) sender = true → sender ∈ rs_responsible (a_rs rd) →
  byteEqualityCorroborated h rd m meta status sender (hexDigest h body) e map = (rd', go) →
  a_rid rd' = a_rid rd ∧ a_rs rd' = a_rs rd ∧ (go = false → round_ok h H rd') ∧
  (go = true → round_ok h H (adopt sender (m_sig m) body meta status e map rd')).
Proof.
  intros Hok Hw -> Hm He Hc Hv Hr. unfold byteEqualityCorroborated. destruct (match ownProposal rd with Some _ => _ | None => _ end).
  { intros [= <- <-]. split_and!; [done..|]. intros _. eapply ok_adopt_plain; [done..|by left]. }
  assert (match m_admit m with None => None | Some _ => map end = map) as -> by (destruct (m_admit m); [done|by rewrite Hm]).
  set (key := candidate_key _ _ _ _ _). set (cs := clear_other _ _ _). set (cand := m_set sender _ _).
  assert (Hcs : ∀ k x, (k, x) ∈ cs → candidate_ok h rd k x) by (apply clear_other_ok, Hok).
  assert (Hl : String.length (hexDigest h body) = 64%nat) by by apply hexDigest_length.
  assert (Hold : candidate_ok h rd key (default [] (m_get key cs))).
  { destruct (m_get key cs) as [x|] eqn:Hx; [by apply Hcs, m_get_in|]. split; [apply NoDup_nil_2|intros ?? []%not_elem_of_nil]. }
  assert (Hcand : candidate_ok h rd key cand).
  { unfold cand. eapply candidate_set; [done|exact Hl|done|done| |done]. unfold over_hash. unfold buildCanonical in Hc. by rewrite Hc. }
  assert (Hok1 : round_ok h H (set_a_prepareCandidates (m_set key cand cs) rd)).
  { apply ok_candidates; [|done]. intros k x [[= -> ->]|?]%elem_of_m_set_pair; [done|by apply Hcs]. }
  destruct (length cand <? 2)%nat; intros [= <- <-]; (split_and!; [done|done|..]); try done.
  - intros _. eapply round_ok_ext; [|exact Hok1]. done.
  - intros _. change (a_signatures rd) with (a_signatures (set_a_prepareCandidates (m_set key cand cs) rd)).
    destruct (merge_props cand (a_signatures (set_a_prepareCandidates (m_set key cand cs) rd))) as [Hnd Hin]; [apply Hok|].
    assert (Hsigs : a_signatures (set_a_prepareCandidates (m_set key cand cs) rd) = []) by exact (ro_unset _ _ _ Hok Hw).
    rewrite Hsigs in *. eapply ok_adopt; [exact Hok1|done| | |exact Hc|done|done|by left].
    + intros pk (kv & -> & Hkv)%list_elem_of_fmap. destruct (Hin _ Hkv) as [?|[]%not_elem_of_nil]. destruct kv as [pk sg]. left. by eapply Hcand.
    + intros pk sg Hkv. destruct (Hin _ Hkv) as [?|[]%not_elem_of_nil].
      eapply candidates_sign; [done|exact Hl|exact Hcand|done|exact Hc|done].
Qed.
End Votes.

(** ** The byte-equality tally *)

Section Agree.
Context (h : env).
Implicit Types (p : proposal) (ps : list proposal) (g : group) (gs : list group).

Definition key_of p : string := group_key h (p_body p) (p_meta p).

(** How many proposals have the key. *)
Definition tally (k : string) ps : Z := Z.of_nat (length (filter (λ p, key_of p = k) ps)).

Definition majority ps (expectedN : Z) : Z := (Z.max (Z.of_nat (length ps)) expectedN + 2) / 2.

(** The first proposal that a majority repeats. *)
Definition first_majority ps (expectedN : Z) : option (string * string) :=
  p ← find (λ p, majority ps expectedN <=? tally (key_of p) ps) ps; Some (p_body p, p_meta p).

Lemma tally_snoc k ps p : tally k (ps ++ [p]) = tally k ps + if bool_decide (key_of p = k) then 1 else 0.
Proof.
  unfold tally. rewrite filter_app, filter_cons, filter_nil. case_decide; [rewrite bool_decide_true by done|rewrite bool_decide_false by done];
    rewrite length_app; cbn [length]; lia.
Qed.

Lemma tally_two k k' ps : k ≠ k' → tally k ps + tally k' ps ≤ Z.of_nat (length ps).
Proof.
  intros Hne. induction ps as [|p ps IH] using rev_ind; [done|]. rewrite !tally_snoc, length_app. cbn [length].
  do 2 case_bool_decide; [congruence|lia..].
Qed.

(** ** The groups *)

(** The groups of a list: one per key, with its tally and its first proposal. *)
Record grouped ps gs : Prop := {
  gp_keys : NoDup (g_key <$> gs);
  gp_count : ∀ g, g ∈ gs → 0 < g_count g ∧ g_count g = tally (g_key g) ps;
  gp_first : ∀ g, g ∈ gs → ∃ p, find (λ p, bool_decide (key_of p = g_key g)) ps = Some p ∧ (p_body p, p_meta p) = (g_body g, g_meta g);
  gp_all : ∀ p, p ∈ ps → ∃ g, g ∈ gs ∧ g_key g = key_of p }.

Lemma add_group_keys key body meta gs :
  g_key <$> add_group key body meta gs = if bool_decide (key ∈ g_key <$> gs) then g_key <$> gs else (g_key <$> gs) ++ [key].
Proof.
  induction gs as [|g gs IH]; [done|]. cbn [add_group]. destruct (String.eqb_spec (g_key g) key) as [<-|Hne].
  - rewrite bool_decide_true by (apply list_elem_of_here). done.
  - rewrite !fmap_cons, IH. destruct (decide (key ∈ g_key <$> gs)).
    + rewrite !bool_decide_true by (set_solver || done). done.
    + rewrite !bool_decide_false by (set_solver || done). done.
Qed.

Lemma elem_of_add_group key body meta gs g :
  NoDup (g_key <$> gs) → g ∈ add_group key body meta gs →
  (g_key g ≠ key ∧ g ∈ gs) ∨ (∃ g0, g0 ∈ gs ∧ g_key g0 = key ∧ g = Group key (g_count g0 + 1) (g_body g0) (g_meta g0)) ∨
  (key ∉ g_key <$> gs ∧ g = Group key 1 body meta).
Proof.
  induction gs as [|g1 gs IH]; cbn [add_group].
  - intros _ ->%list_elem_of_singleton. right. right. split; [apply not_elem_of_nil|done].
  - rewrite fmap_cons, NoDup_cons. intros [Hno Hnd]. destruct (String.eqb_spec (g_key g1) key) as [<-|Hne].
    + intros [->|Hin]%elem_of_cons; [right; left; exists g1; by split_and!; [left| |]|]. left. split; [|by right].
      intros Heq. apply Hno. rewrite <-Heq. by apply list_elem_of_fmap_2.
    + intros [->|Hin]%elem_of_cons; [left; by split; [|left]|]. destruct (IH Hnd Hin) as [[? ?]|[(g0 & ? & ? & ?)|[? ?]]].
      * left. by split; [|right].
      * right. left. exists g0. by split_and!; [right| |].
      * right. right. split; [|done]. intros [?|?]%elem_of_cons; [congruence|done].
Qed.

Lemma find_snoc (f : proposal → bool) ps p : find f (ps ++ [p]) = match find f ps with Some q => Some q | None => if f p then Some p else None end.
Proof. induction ps as [|q ps IH]; [done|]. cbn [find app]. by destruct (f q). Qed.

Lemma tally_none k ps : (∀ p, p ∈ ps → key_of p ≠ k) → tally k ps = 0 ∧ find (λ p, bool_decide (key_of p = k)) ps = None.
Proof.
  induction ps as [|p ps IH] using rev_ind; [done|]. intros Hk. destruct IH as [H1 H2]; [intros q Hq; apply Hk; set_solver|].
  rewrite tally_snoc, find_snoc, H1, H2, bool_decide_false by (apply Hk; set_solver). done.
Qed.

Lemma grouped_snoc ps gs p : grouped ps gs → grouped (ps ++ [p]) (add_group (key_of p) (p_body p) (p_meta p) gs).
Proof.
  intros [Hk Hc Hf Ha]. constructor.
  - rewrite add_group_keys. case_bool_decide; [done|]. apply NoDup_app. split_and!; [done|set_solver|apply NoDup_singleton].
  - intros g Hg. rewrite tally_snoc. destruct (elem_of_add_group _ _ _ _ _ Hk Hg) as [[? Hin]|[(g0 & Hin & E & ->)|[Hno ->]]]; cbn [g_key g_count].
    + rewrite bool_decide_false by done. destruct (Hc g Hin). lia.
    + rewrite bool_decide_true by done. destruct (Hc g0 Hin) as [? Hc0]. rewrite E in Hc0. lia.
    + rewrite bool_decide_true by done. destruct (tally_none (key_of p) ps) as [-> _]; [|lia]. intros q Hq Heq.
      destruct (Ha q Hq) as (g & Hgin & Hgk). apply Hno. rewrite <-Heq, <-Hgk. by apply list_elem_of_fmap_2.
  - intros g Hg. rewrite find_snoc. destruct (elem_of_add_group _ _ _ _ _ Hk Hg) as [[? Hin]|[(g0 & Hin & E & ->)|[Hno ->]]]; cbn [g_key g_body g_meta].
    + destruct (Hf g Hin) as (q & -> & ?). by exists q.
    + rewrite <-E. destruct (Hf g0 Hin) as (q & -> & ?). by exists q.
    + destruct (tally_none (key_of p) ps) as [_ ->]; [|rewrite bool_decide_true by done; by exists p]. intros q Hq Heq.
      destruct (Ha q Hq) as (g & Hgin & Hgk). apply Hno. rewrite <-Heq, <-Hgk. by apply list_elem_of_fmap_2.
  - intros q Hq. assert (key_of q ∈ g_key <$> add_group (key_of p) (p_body p) (p_meta p) gs) as (g & ? & ?)%list_elem_of_fmap; [|by exists g].
    rewrite add_group_keys. apply elem_of_app in Hq as [Hq| ->%list_elem_of_singleton].
    + destruct (Ha q Hq) as (g & Hgin & <-). apply (list_elem_of_fmap_2 g_key) in Hgin. case_bool_decide; set_solver.
    + case_bool_decide; set_solver.
Qed.

Lemma groups_of_grouped ps : grouped ps (groups_of h ps).
Proof.
  unfold groups_of. induction ps as [|p ps IH] using rev_ind.
  - cbn. constructor; [apply NoDup_nil_2|intros ? []%not_elem_of_nil..].
  - rewrite fold_left_app. by apply grouped_snoc.
Qed.

(** ** The largest group *)

Lemma largest_spec gs : (∀ g, g ∈ gs → 0 < g_count g) →
  match largest gs with Some g => g ∈ gs ∧ ∀ g', g' ∈ gs → g_count g' ≤ g_count g | None => gs = [] end.
Proof.
  unfold largest. induction gs as [|g gs IH] using rev_ind; [done|]. intros Hpos. rewrite fold_left_app. cbn [fold_left].
  specialize (IH (λ g' Hg', Hpos g' (proj2 (elem_of_app _ _ _) (or_introl Hg')))). specialize (Hpos g (proj2 (elem_of_app _ _ _) (or_intror (list_elem_of_here _ _)))).
  destruct (fold_left _ gs None) as [w|]; cbn [fmap option_fmap option_map default id].
  - destruct IH as [Hin Hmax]. destruct (Z.ltb_spec (g_count w) (g_count g)).
    + split; [set_solver|]. intros g' [Hg'| ->%list_elem_of_singleton]%elem_of_app; [specialize (Hmax g' Hg'); lia|lia].
    + split; [set_solver|]. intros g' [Hg'| ->%list_elem_of_singleton]%elem_of_app; [by apply Hmax|lia].
  - subst gs. destruct (Z.ltb_spec 0 (g_count g)); [|lia]. split; [set_solver|]. intros g' [[]%not_elem_of_nil| ->%list_elem_of_singleton]%elem_of_app. lia.
Qed.

Lemma find_agree (f f' : proposal → bool) ps : (∀ p, p ∈ ps → f p = f' p) → find f ps = find f' ps.
Proof.
  induction ps as [|p ps IH]; [done|]. intros Hf. cbn [find]. rewrite (Hf p) by (apply list_elem_of_here). rewrite IH; [done|]. intros q Hq. apply Hf. by right.
Qed.

Lemma majority_unique ps N k k' : majority ps N ≤ tally k ps → majority ps N ≤ tally k' ps → k = k'.
Proof.
  intros H1 H2. destruct (decide (k = k')) as [|Hne]; [done|]. pose proof (tally_two k k' ps Hne). unfold majority in *.
  pose proof (Z.mod_pos_bound (Z.max (Z.of_nat (length ps)) N + 2) 2). pose proof (Z.div_mod (Z.max (Z.of_nat (length ps)) N + 2) 2). lia.
Qed.

Theorem agree_first_majority ps N : agree h ps N = first_majority ps N.
Proof.
  unfold agree, first_majority. destruct ps as [|p0 ps0]; [done|]. set (ps := p0 :: ps0). fold (majority ps N).
  destruct (groups_of_grouped ps) as [Hk Hc Hf Ha]. set (gs := groups_of h ps) in *. clearbody gs.
  pose proof (largest_spec gs (λ g Hg, proj1 (Hc g Hg))) as Hl. destruct (largest gs) as [g|]; cbn [mbind option_bind].
  2: { destruct (Ha p0) as (g & Hg & _); [apply list_elem_of_here|]. subst gs. by apply not_elem_of_nil in Hg. }
  destruct Hl as [Hg Hmax]. destruct (Hc g Hg) as [_ Hcg]. destruct (Hf g Hg) as (q & Hq & [= Hb Hm]).
  destruct (Z.leb_spec (majority ps N) (g_count g)) as [Hle|Hlt].
  - rewrite (find_agree _ (λ p, bool_decide (key_of p = g_key g))).
    + rewrite Hq. cbn. by rewrite Hb, Hm.
    + intros p Hp. rewrite Hcg in Hle. case_bool_decide as Hkey; [by rewrite Hkey; apply Z.leb_le|].
      apply Z.leb_gt. destruct (Z.lt_ge_cases (tally (key_of p) ps) (majority ps N)) as [|Hge]; [done|]. destruct Hkey. by apply (majority_unique ps N).
  - destruct (find (λ p, majority ps N <=? tally (key_of p) ps) ps) as [p|] eqn:Hfind; [|done]. apply find_some in Hfind as [Hin%list_elem_of_In Hp%Z.leb_le].
    destruct (Ha p Hin) as (g' & Hg' & Hkey). specialize (Hmax g' Hg'). destruct (Hc g' Hg') as [_ Hcg']. rewrite Hkey in Hcg'. lia.
Qed.
End Agree.
