(* ===== verification/AtSafety.v ===== *)
(** * Attestation rounds: the invariant is preserved

    Every handler, every call it ends in, every timer and every resumed handler
    keeps [inv]; hence every run does ([at_inv_run]). *)

From S2P Require Import Prelude Ordered GateRegistry BigNum Quorum Json AttestWire OracleBand Admission AtState AtCanon AtRounds AtInv AtVotes.
Open Scope Z_scope.

(** ** Records and buffers do not touch the rounds *)

Section Cores.
Context (h : env).
Implicit Types (s : state).

Lemma at_core_count f s : core (count f s) = core s.
Proof. done. Qed.
Lemma at_core_markTornDown rid s : core (markTornDown h rid s) = core s.
Proof. unfold markTornDown. case_bool_decide; [done|]. by destruct (ring_add _ _ _ _) as [[] ?]. Qed.
Lemma at_core_rememberEvicted rid s : core (rememberEvictedFinalized h rid s) = core s.
Proof. unfold rememberEvictedFinalized. case_bool_decide; [done|]. by destruct (ring_add _ _ _ _) as [[] ?]. Qed.
Lemma at_core_markFinalized rid s : core (markFinalized h rid s) = core s.
Proof.
  unfold markFinalized. case_bool_decide; [done|]. destruct (ring_add _ _ _ _) as [[? ?] [o|]]; [by rewrite at_core_rememberEvicted|done].
Qed.
Lemma at_core_recordProposer rid pk s : core (recordProposer h rid pk s) = core s.
Proof.
  unfold recordProposer. destruct (_ || _); [done|]. destruct (proposerSeen s !! _); [done|]. by destruct (map_ring _ _ _ _) as [[] ?].
Qed.
Lemma at_core_recordNonOk rid st s : core (recordNonOkPublished h rid st s) = core s.
Proof.
  unfold recordNonOkPublished. destruct (nonOkPublished s !! _); [done|]. destruct (map_ring _ _ _ _) as [[] [o|]]; [|done]. by case_bool_decide.
Qed.
Lemma at_core_prune now s : core (pruneEarlyMessages now s) = core s.
Proof.
  unfold pruneEarlyMessages. generalize (earlyMessageTtl s) as l. intros l. revert s. induction l as [|kv l IH]; intros s; [done|].
  cbn [fold_left]. rewrite IH. by destruct (kv.2 <=? now).
Qed.
Lemma at_core_buffer now rid m s : core (bufferEarlyMessage h now rid m s) = core s.
Proof.
  unfold bufferEarlyMessage. destruct (bool_decide _); [done|]. rewrite <-(at_core_prune now s). generalize (pruneEarlyMessages now s). clear s. intros s.
  destruct (_ <? _); [done|]. destruct (m_get rid (earlyMessages s)) as [arr|].
  - by destruct (_ <=? _)%nat.
  - set (s1 := if (_ <=? _)%nat then _ else s). assert (core s1 = core s) as <-.
    { unfold s1. destruct (_ <=? _)%nat; [|done]. by destruct (earlyMessages s) as [|[]]. }
    done.
Qed.
Lemma at_core_bufferCommit rid m s : core (bufferEarlyCommit h rid m s) = core s.
Proof. unfold bufferEarlyCommit. destruct (_ <? _); [done|]. by destruct (_ <=? _)%nat. Qed.
Lemma at_core_drain now rid s : core (drainEarlyMessages now rid s).2 = core s.
Proof. unfold drainEarlyMessages. by destruct (m_get rid _). Qed.
Lemma at_core_drainCommits rid s : core (drainEarlyCommits rid s).2 = core s.
Proof. unfold drainEarlyCommits. by destruct (earlyCommits s !! rid). Qed.
Lemma at_core_premature rid s : core (notePrematureEviction rid s) = core s.
Proof. unfold notePrematureEviction. by case_bool_decide. Qed.
End Cores.

Lemma heap_core s s' : core s = core s' → heap s = heap s'.
Proof. unfold core. congruence. Qed.
Lemma pending_core s s' : core s = core s' → pending s = pending s'.
Proof. unfold core. congruence. Qed.

Section Safety.
Context (h : env) (Hself : signs_for_itself h) (Hsha : digests_32 h).
Implicit Types (s : state) (rd : round) (H : list (string * roundState)).

Abbreviation inv := (inv h).

Lemma inv_count H f s : inv H s → inv H (count f s).
Proof. by apply at_inv_core. Qed.

(** ** The gates *)

Lemma response_fields H rd :
  round_ok h H rd → needed rd ≤ Z.of_nat (length (a_signatures rd)) →
  response_ok h H (response_of rd (selectFinalizedSigners (a_signatures rd) (needed rd))).
Proof.
  intros Hok Hn. pose proof Hok as []. destruct (select_spec (a_signatures rd) (needed rd) Hn ro_keys) as (Hl & Hnd & Hsub).
  exists (a_rs rd). split_and!; cbn; try done.
  - rewrite Hl. unfold needed. by rewrite ro_quorum.
  - intros pk sg Hin. apply Hsub in Hin. destruct (a_winner rd) as [w|] eqn:Hw.
    + cbn. apply (ro_signed w eq_refl pk sg Hin).
    + rewrite (ro_unset eq_refl) in Hin. by apply not_elem_of_nil in Hin.
  - intros pk (kv & -> & Hkv)%list_elem_of_fmap. destruct (ro_signers kv.1) as [?|Hme]; [by apply list_elem_of_fmap; eauto|by left|].
    right. by rewrite <-ro_me.
  - by destruct (default _ _).
Qed.

Ltac by_core := eapply at_inv_core; [symmetry; first [apply at_core_buffer|apply at_core_bufferCommit|apply at_core_recordProposer|apply at_core_markTornDown|apply at_core_markFinalized|apply at_core_recordNonOk|apply at_core_premature|apply at_core_drain|apply at_core_drainCommits|done]|].
Ltac flags := apply inv_flags; [intros ?; done|].

Lemma at_inv_settle H rid pid rd s : inv H s → inv H (settleFinalizedRound h rid pid rd s).
Proof.
  intros Hs. unfold settleFinalizedRound. flags. destruct (String.eqb _ _); [by by_core|].
  by_core. eapply at_inv_core; [|exact Hs]. change (core s = core (recordNonOkPublished h rid (a_status rd) s)). by rewrite at_core_recordNonOk.
Qed.

Lemma at_inv_checkCommit H rid s : inv H s → inv H (checkCommitQuorum h rid s).
Proof.
  intros Hs. unfold checkCommitQuorum. destruct (live rid s) as [[pid rd]|] eqn:Hl; [|done]. destruct (a_finalized rd); [done|].
  destruct (_ <? _) eqn:Hn; [done|]. apply Z.ltb_ge in Hn. destruct (inv_live _ _ _ _ _ _ Hs Hl) as (Hr & Hok & Hrid).
  cbv zeta. match goal with |- inv H (put_evictions _ (put_earlyCommits _ ?s2)) => apply (at_inv_core h H s2); [done|] end. apply at_inv_emit.
  - intros f [= <-]. by apply response_fields.
  - apply at_inv_settle. by flags.
Qed.

Lemma winner_vote_not_final ty rd sig f : winner_vote ty rd sig ≠ Finalized f.
Proof. done. Qed.

Lemma at_inv_checkPrepare H rid s : inv H s → inv H (checkPrepareQuorum h rid s).
Proof.
  intros Hs. unfold checkPrepareQuorum. destruct (live rid s) as [[pid rd]|]; [|done]. destruct (_ || a_commitSent rd); [done|].
  destruct (_ <? _); [done|]. apply at_inv_checkCommit, at_inv_broadcast; [intros f; apply winner_vote_not_final|].
  apply inv_flags; [|done]. intros r. unfold add_own_commit. by destruct (a_myPubkey (set_a_commitSent true r)).
Qed.

(** ** Advancing *)

Lemma at_inv_broadcastAgreed H rid pid s : inv H s → inv H (broadcastAgreedPrepare h rid pid s).2.
Proof.
  intros Hs. unfold broadcastAgreedPrepare. destruct (heap s !! pid) as [rd|]; [|done]. cbn [snd].
  apply at_inv_checkPrepare, inv_flags; [intros r; by destruct (a_myPubkey r)|]. apply at_inv_broadcast; [intros f; apply winner_vote_not_final|done].
Qed.

Lemma collects_who c rd rd' : collects h c rd rd' → a_rid rd' = a_rid rd ∧ a_rs rd' = a_rs rd ∧ a_winner rd' = a_winner rd ∧ a_status rd' = a_status rd.
Proof. by intros (sigs & -> & _). Qed.

Lemma at_inv_establish H now rid status s :
  status = "provider_error"%string ∨ status = "no_quorum"%string → inv H s → inv H (establishNonOkWinner h now rid status s).2.
Proof.
  intros Hst Hs. unfold establishNonOkWinner. destruct (live rid s) as [[pid rd]|] eqn:Hl; [|done].
  destruct (a_finalized rd || _ || _) eqn:Hg; [done|]. apply orb_false_iff in Hg as [[_ Hw]%orb_false_iff _].
  destruct (inv_live _ _ _ _ _ _ Hs Hl) as (Hr & Hok & Hrid).
  assert (Hnone : a_winner rd = None) by (apply bool_decide_eq_false in Hw; destruct (a_winner rd); [by destruct Hw|done]).
  set (rd1 := settle_round h now EmptyString EmptyString status rd).
  assert (Hok1 : round_ok h H rd1) by (apply ok_settle; [done|by right|done]).
  destruct (settle_fields h now EmptyString EmptyString status rd) as (E1 & E2 & _ & _ & _ & _ & E7 & E8 & _ & _). fold rd1 in E1, E2, E7, E8.
  destruct (round_canonical h rd1 EmptyString status EmptyString) as [c|] eqn:Hc.
  2:{ cbn [snd]. by eapply inv_set. }
  cbv zeta. apply at_inv_broadcastAgreed.
  assert (Htr : collects h (Some c) rd1 (transferable h (Some c) rd1)).
  { rewrite <-Hc. rewrite <-E8. apply transferable_collects; [done|apply Hok1]. }
  set (rd2 := transferable h (Some c) rd1) in *. destruct (collects_who _ _ _ Htr) as (F1 & F2 & F3 & F4).
  assert (Hok2 : round_ok h H rd2) by (destruct Htr as (? & _ & Ht); by apply Ht).
  assert (Hw2 : a_winner rd2 = Some (EmptyString, EmptyString)) by congruence.
  assert (Hst2 : a_status rd2 = status) by congruence.
  set (rd3 := match a_myPubkey rd2 with Some _ => _ | None => _ end).
  assert (round_ok h H rd3 ∧ a_rid rd3 = a_rid rd ∧ a_rs rd3 = a_rs rd) as (Hok3 & G1 & G2).
  { unfold rd3. destruct (a_myPubkey rd2) eqn:Hme; [|split_and!; [done|congruence..]]. destruct (_ && _); [|split_and!; [done|congruence..]].
    pose proof (sign_winner_rid (round_sign h rd2 EmptyString status EmptyString) rd2) as [-> ->]. split_and!; [|congruence..].
    rewrite <-Hst2. by apply ok_round_sign. }
  by eapply inv_set.
Qed.

Lemma at_inv_advance H now rid s : inv H s → inv H (maybeAdvanceFromProposals h now rid s).2.
Proof.
  intros Hs. unfold maybeAdvanceFromProposals. destruct (live rid s) as [[pid rd]|] eqn:Hl; [|done].
  destruct (_ || a_agreeing rd); [done|]. destruct (_ <? _); [done|]. destruct (_ || _); [done|].
  destruct (okProposals rd); [apply at_inv_establish; [by left|done]|]. destruct (getModule h _) as [md|]; [|done].
  destruct (awaitsJudgeLeader rd); [done|]. destruct (inv_live _ _ _ _ _ _ Hs Hl) as (Hr & Hok & Hrid). cbn [snd].
  apply at_inv_suspend; [|by flags]. exists (set_a_agreeing true rd). split; [|done]. cbn. by rewrite lookup_alter_eq, Hr.
Qed.

Lemma emit_all_inv H es s : (∀ e, e ∈ es → ∀ f, e ≠ Finalized f) → inv H s → inv H (fold_left (λ s e, emit e s) es s).
Proof.
  revert s. induction es as [|e es IH]; intros s He Hs; [done|]. cbn [fold_left]. apply IH; [intros e' Hin; apply He; by right|].
  apply at_inv_emit; [|done]. intros f ->. by destruct (He (Finalized f) ltac:(by left) f).
Qed.

Lemma ok_resign_judge H body meta rd :
  a_winner rd = Some (body, meta) → round_ok h H rd →
  round_ok h H (resignJudgeWinner h body meta rd) ∧ a_rid (resignJudgeWinner h body meta rd) = a_rid rd ∧
  a_rs (resignJudgeWinner h body meta rd) = a_rs rd ∧ a_winner (resignJudgeWinner h body meta rd) = a_winner rd.
Proof.
  intros Hw Hok. unfold resignJudgeWinner. destruct (judgeReSignEligible rd); [|done]. split_and!; [by apply ok_round_sign|apply sign_winner_rid..|].
  unfold sign_winner. by destruct (a_myPubkey rd), (round_sign h rd body (a_status rd) meta).
Qed.

Lemma ok_resign_mirror H body meta rd :
  a_winner rd = Some (body, meta) → round_ok h H rd →
  round_ok h H (resignMirrorWinner h body meta rd) ∧ a_rid (resignMirrorWinner h body meta rd) = a_rid rd ∧ a_rs (resignMirrorWinner h body meta rd) = a_rs rd.
Proof.
  intros Hw Hok. unfold resignMirrorWinner. destruct (_ || _); [|done]. split_and!; [by apply ok_round_sign|apply sign_winner_rid..].
Qed.

Lemma at_inv_resumeAgree H now rid pid answer s : inv H s → inv H (resumeAgree h now rid pid answer s).2.
Proof.
  intros Hs. unfold resumeAgree. set (s1 := modify pid (set_a_agreeing false) s). assert (Hs1 : inv H s1) by by flags.
  destruct (heap s1 !! pid) as [rd|] eqn:Hr; [|done]. destruct (_ || bool_decide (is_Some (a_winner rd))) eqn:Hg; [done|].
  apply orb_false_iff in Hg as [_ Hw]. assert (Hnone : a_winner rd = None) by (apply bool_decide_eq_false in Hw; destruct (a_winner rd); [by destruct Hw|done]).
  destruct answer as [[body meta]|]; [|apply at_inv_establish; [by right|done]].
  pose proof (inv_rounds _ _ _ Hs1 _ _ Hr) as Hok. set (rd1 := settle_round h now body meta "ok" rd).
  assert (Hok1 : round_ok h H rd1) by (apply ok_settle; [done|by left|done]).
  destruct (settle_fields h now body meta "ok" rd) as (E1 & E2 & _ & _ & _ & _ & E7 & E8 & _ & _). fold rd1 in E1, E2, E7, E8.
  destruct (round_canonical h rd1 body "ok" meta) as [c|] eqn:Hc; cbn [snd].
  2:{ by eapply inv_set. }
  destruct (collect_collects h c body meta rd1) as [Hcol Hes]; [done|by rewrite E8|apply Hok1|].
  destruct (collectWinnerSignatures h c body meta rd1) as [rd2 es]. cbn [fst snd] in Hcol, Hes.
  destruct (collects_who _ _ _ Hcol) as (F1 & F2 & F3 & _). assert (Hok2 : round_ok h H rd2) by (destruct Hcol as (? & _ & Ht); by apply Ht).
  assert (Hw2 : a_winner rd2 = Some (body, meta)) by congruence.
  destruct (ok_resign_judge H body meta rd2 Hw2 Hok2) as (Hok3 & G1 & G2 & G3).
  destruct (ok_resign_mirror H body meta (resignJudgeWinner h body meta rd2)) as (Hok4 & K1 & K2); [congruence|done|].
  apply at_inv_broadcastAgreed, emit_all_inv; [done|]. eapply inv_set; [done..|congruence|congruence|done].
Qed.

(** ** Opening a round *)

Lemma inv_open H rd s s' :
  pending s' = <[a_rid rd := next s]> (pending s) → heap s' = <[next s := rd]> (heap s) → next s' = S (next s) →
  konts s' = konts s → out s' = out s → round_ok h H rd → inv H s → inv H s'.
Proof.
  intros Ep Eh En Ek Eo Hok [I1 I2 I3 I4 I5].
  assert (Hg : ∀ pid r, heap s !! pid = Some r → heap s' !! pid = Some r).
  { intros pid r Hr. rewrite Eh, lookup_insert_ne; [done|]. intros <-. rewrite I3 in Hr by lia. done. }
  constructor; rewrite ?Eo; try done.
  - intros pid r. rewrite Eh. intros [[_ <-]|[_ Hr]]%lookup_insert_Some; [done|by eapply I1].
  - intros rid pid. rewrite Ep, Eh. intros [[<- <-]|[_ Hp]]%lookup_insert_Some; [exists rd; by rewrite lookup_insert_eq|].
    destruct (I2 _ _ Hp) as (r & Hr & Hrid). exists r. split; [|done]. rewrite <-Eh. by apply Hg.
  - intros pid. rewrite En, Eh. intros Hle. rewrite lookup_insert_ne by lia. apply I3. lia.
  - intros k κ. rewrite Ek. intros Hk. specialize (I4 k κ Hk). destruct κ; cbn in *; try done.
    all: destruct I4 as (r & Hr & ?); exists r; split; [by apply Hg|done].
Qed.

Definition fields_ok (rs : roundState) (my : ownFields) : Prop :=
  my_quorum my = round_quorum rs ∧ my_pubkey my = toLowerCase <$> identity h ∧ my_mirrorEra my = isMirrorEra h (rs_block rs).

Lemma ok_build H rid rs my map :
  (rid, rs) ∈ H → fields_ok rs my → round_ok h H (buildPendingRound rid rs my map).
Proof.
  intros Hin (Hq & Hm & He). constructor; cbn; try done.
  - apply NoDup_nil_2.
  - intros ? []%not_elem_of_nil.
  - by left.
  - intros ? []%not_elem_of_nil.
  - intros ?? []%not_elem_of_nil.
Qed.

Lemma at_inv_openRound H rid rs my map s :
  (rid, rs) ∈ H → fields_ok rs my → inv H s → inv H (openRound h rid rs my map s).2.
Proof.
  intros Hin Hf Hs. unfold openRound. set (over := negb _). set (s1 := if over then _ else s).
  assert (Hs1 : inv H s1) by (unfold s1; destruct over; [by apply (at_inv_core h H s)|done]). clearbody s1.
  pose proof (ok_build H rid rs my map Hin Hf) as Hb.
  set (opened := match my_pubkey my with Some _ => _ | None => _ end).
  assert (round_ok h H opened.1 ∧ a_rid opened.1 = rid ∧ inv H opened.2) as (Hok & Hrid & Hs2).
  { unfold opened. destruct (my_pubkey my) as [me|] eqn:Eme; [|done]. destruct (signCanonical _ _ _ _ _ _ _ _ _); [|done].
    destruct over; [done|]. cbn [fst snd]. split_and!; [|done|by by_core]. destruct Hb. constructor; try done.
    cbn. intros pk ->%list_elem_of_singleton. right. exact Eme. }
  destruct opened as [rd s2]. cbn [fst snd] in *. cbn [new_round snd].
  set (s3 := put_pending _ _). assert (Hs3 : inv H s3).
  { eapply (inv_open _ (set_a_timer true rd) s2); try done; [by cbn; rewrite Hrid|]. by eapply round_ok_ext; [|exact Hok]. }
  clearbody s3. destruct over; [done|]. by apply at_inv_broadcast.
Qed.

Lemma own_fields_ok now quorum rs my :
  admittableQuorum rs = Some quorum → ownProposalFields h now quorum rs = Some my → fields_ok rs my.
Proof.
  unfold admittableQuorum, ownProposalFields, fields_ok. destruct (_ <? _); [done|]. intros [= <-].
  destruct (isMirrorEra h (rs_block rs)).
  - destruct (chooseEffectiveTime h now); [|done]. cbn. by intros [= <-].
  - by intros [= <-].
Qed.

Lemma at_inv_propose H now requestId rs s :
  (toLowerCase requestId, rs) ∈ H → inv H s → inv H (propose h now requestId rs s).2.
Proof.
  intros Hin Hs. unfold propose. do 2 (destruct (bool_decide _); [done|]).
  assert (Hs1 : inv H (notePrematureEviction (toLowerCase requestId) s)) by by by_core.
  destruct (admittableQuorum rs) as [q|] eqn:Hq; [|by apply inv_count]. destruct (ownProposalFields h now q rs) as [my|] eqn:Hmy; [|done].
  pose proof (own_fields_ok _ _ _ _ Hq Hmy) as Hf. destruct (admissionEra h (rs_block rs)); [|by apply at_inv_openRound].
  cbn [snd]. apply at_inv_suspend; [|done]. split; [done|exact Hf].
Qed.

Lemma at_inv_resumeTip H rid rs my tips s :
  (rid, rs) ∈ H → fields_ok rs my → inv H s → inv H (resumeTip h rid rs my tips s).2.
Proof. intros Hin Hf Hs. unfold resumeTip. destruct (resolveAdmitBlocks _ _ _ _); [by apply at_inv_openRound|by apply inv_count]. Qed.

(** ** PROPOSE *)

Lemma ok_proposal H sender p rd :
  sender ∈ rs_responsible (a_rs rd) → round_ok h H rd → round_ok h H (set_a_proposals (m_set sender p (a_proposals rd)) rd).
Proof.
  intros Hr []. constructor; try done. cbn. intros pk [->|Hpk]%elem_of_m_set; [by left|by apply ro_proposers].
Qed.

Lemma at_inv_verifyAndAdmit H now rid pid m sender e map s :
  (∀ rd, heap s !! pid = Some rd → sender ∈ rs_responsible (a_rs rd)) →
  inv H s → inv H (verifyAndAdmitProposal h now rid pid m sender e map s).2.
Proof.
  intros Hr Hs. unfold verifyAndAdmitProposal. destruct (heap s !! pid) as [rd|] eqn:Hh; [|done]. specialize (Hr _ eq_refl).
  destruct (buildCanonical _ _ _ _ _ _ _ _ _) as [c|]; [|done]. destruct (bad_sig _); [done|]. destruct (verify _ _ _ _); [|done].
  unfold admitVerifiedProposal. destruct (wireEffectiveOutOfWindow _ _ _); [done|]. destruct (negb _); [by apply inv_count|].
  set (s1 := recordProposer h rid sender s). assert (Hs1 : inv H s1) by by by_core.
  assert (heap s1 !! pid = Some rd) as Hh1 by (rewrite <-Hh; f_equal; apply heap_core, at_core_recordProposer). rewrite Hh1.
  destruct (m_get sender (a_proposals rd)); [done|]. cbn [snd]. eapply inv_set; [done| |done..].
  apply ok_proposal; [done|]. by eapply inv_rounds.
Qed.

Lemma door_inv H now m s s' : round_door h now m s = DoorShut s' → inv H s → inv H s'.
Proof.
  unfold round_door. destruct (String.eqb _ _); [by intros [= <-]|]. case_bool_decide; [by intros [= <-]|].
  destruct (live _ s) as [[pid rd]|]; [done|]. intros [= <-] Hs. by by_core.
Qed.

Lemma door_open H now m s pid rd :
  round_door h now m s = DoorOpen pid rd → inv H s → heap s !! pid = Some rd ∧ round_ok h H rd ∧ a_rid rd = toLowerCase (m_requestId m).
Proof.
  unfold round_door. destruct (String.eqb _ _); [done|]. case_bool_decide; [done|]. destruct (live _ s) as [[p r]|] eqn:Hl; [|done].
  intros [= -> ->] Hs. by eapply inv_live.
Qed.

Lemma bound_era block raw map : readWireAdmitBlocks h block raw = AdmitBound map → raw ≠ None ∧ admissionEra h block = true.
Proof.
  unfold readWireAdmitBlocks. destruct (admissionEra h block); destruct raw as [[]|]; cbn; done.
Qed.

Lemma ok_era block raw map : readWireAdmitBlocks h block raw = AdmitOk map → map = None ∧ admissionEra h block = false.
Proof.
  unfold readWireAdmitBlocks. destruct (admissionEra h block); destruct raw as [[]|]; cbn; try done.
  all: try (by destruct (decodeAdmitBlocks _)); by intros [= <-].
Qed.

Lemma responsible_in rd sender : is_responsible rd sender = true → sender ∈ rs_responsible (a_rs rd).
Proof. by intros ?%bool_decide_eq_true. Qed.

Lemma at_inv_handlePropose H now m s : inv H s → inv H (handlePropose h now m s).2.
Proof.
  intros Hs. unfold handlePropose. destruct (round_door h now m s) as [s'|pid rd] eqn:Hd; [by eapply door_inv|].
  destruct (door_open _ _ _ _ _ _ Hd Hs) as (Hr & Hok & Hrid).
  destruct (bad_pubkey _); [done|]. destruct (_ || _) eqn:Hg; [done|]. apply orb_false_iff in Hg as [_ Hg]. apply negb_false_iff, responsible_in in Hg.
  destruct (caps_throw _ _ _); [done|]. destruct (negb _); [done|].
  assert (Hmem : ∀ rd', heap s !! pid = Some rd' → toLowerCase (m_pubkey m) ∈ rs_responsible (a_rs rd')) by (intros rd' E; congruence).
  assert (Hgo : ∀ st, inv H (match readWireAdmitBlocks h (rs_block (a_rs rd)) (m_admit m) with
    | AdmitRefused => (Go [], s)
    | AdmitOk map => if still_open (toLowerCase (m_requestId m)) pid s
                     then verifyAndAdmitProposal h now (toLowerCase (m_requestId m)) pid m (toLowerCase (m_pubkey m)) (stamp_value st) map s else (Go [], s)
    | AdmitBound map => (Go [], suspend (KPropose m (toLowerCase (m_requestId m)) pid (toLowerCase (m_pubkey m)) (stamp_value st) map) s)
    end).2).
  { intros st. destruct (readWireAdmitBlocks _ _ _) as [map| |map] eqn:Ha; [|done|].
    - destruct (still_open _ _ _); [by apply at_inv_verifyAndAdmit|done].
    - cbn [snd]. apply at_inv_suspend; [|done]. exists rd. destruct (bound_era _ _ _ Ha). by split_and!. }
  destruct (readWireEffectiveTime _ _) as [|z|]; [apply (Hgo NoStamp)|apply (Hgo (Stamp z))|done].
Qed.

(** ** PREPARE *)

Lemma at_inv_sign_echo H pid sig rd s :
  heap s !! pid = Some rd → round_ok h H (sign_winner sig rd) → inv H s → inv H (sign_and_echo h pid sig rd s).
Proof.
  intros Hr Hok Hs. unfold sign_and_echo. destruct (sign_winner_rid sig rd) as [E1 E2].
  assert (Hs1 : inv H (modify pid (λ _, sign_winner sig rd) s)) by by eapply inv_set.
  unfold echoAdoptedPrepare. destruct sig as [sg|]; [|done]. destruct (a_myPubkey _) as [me|]; [|done]. destruct (peers h); [|done].
  flags. by apply at_inv_emit.
Qed.

Lemma own_winner_signature_ok c body meta own rd sg me :
  a_myPubkey rd = toLowerCase <$> identity h → round_canonical h rd body (a_status rd) meta = Some c →
  own_winner_signature h c body meta (a_status rd) own rd = Some sg → a_myPubkey rd = Some me →
  verify_over h (round_canonical h rd body (a_status rd) meta) sg me = true.
Proof.
  intros Hid Hc Hs Hme. unfold own_winner_signature in Hs. rewrite Hme in Hs. destruct (verify h c (p_sig own) me) eqn:Hv.
  - injection Hs as <-. by rewrite Hc.
  - destruct (round_sign_verifies h Hself _ _ _ _ _ Hid Hs) as (me' & c' & Hme' & Hc' & Hv'). rewrite Hc'. cbn. congruence.
Qed.

Lemma at_inv_coSign H pid c body meta own rd s :
  heap s !! pid = Some rd → round_ok h H rd → a_winner rd = Some (body, meta) → round_canonical h rd body (a_status rd) meta = Some c →
  inv H s → inv H (sign_and_echo h pid (own_winner_signature h c body meta (a_status rd) own rd) rd s).
Proof.
  intros Hr Hok Hw Hc Hs. apply at_inv_sign_echo; [done| |done]. apply (ok_sign_winner _ _ _ body meta); [done| |done].
  intros sg me Hsg Hme. eapply own_winner_signature_ok; [apply Hok|done..].
Qed.

Lemma at_inv_coSignNonOk H pid c body meta status rd s :
  heap s !! pid = Some rd → round_ok h H rd → a_winner rd = Some (body, meta) → a_status rd = status →
  round_canonical h rd body status meta = Some c → inv H s → inv H (coSignNonOkWinner h pid c body meta status s).
Proof.
  intros Hr Hok Hw <- Hc Hs. unfold coSignNonOkWinner. rewrite Hr. destruct (ownProposal rd) as [own|]; [|done].
  destruct (_ && _); [|done]. destruct (own_winner_signature _ _ _ _ _ _ _) as [sg|] eqn:Hsg; [|done].
  rewrite <-Hsg. by apply at_inv_coSign.
Qed.

Lemma core_admitMap now m rd rid sender map s : core (prepareAdmitMapAllowed h now m rd rid sender map s).1 = core s.
Proof.
  unfold prepareAdmitMapAllowed. destruct (a_admitBlocks rd); [|done]. destruct (leaderProposal rd); [done|].
  case_bool_decide; [done|]. destruct (_ && _); [apply at_core_buffer|done].
Qed.

Lemma core_derivation now m rd rid status sender s : core (nonOkDerivationRefuses h now m rd rid status sender s).1 = core s.
Proof.
  unfold nonOkDerivationRefuses, providerErrorUnderivable. destruct (_ && not_leader _ _); [apply at_core_buffer|].
  destruct (String.eqb status "no_quorum" && _).
  - destruct (_ <? _); [apply at_core_buffer|]. by destruct (getModule h _) as [[]|].
  - destruct (String.eqb _ _); [|done]. destruct (_ <? _); [apply at_core_buffer|done].
Qed.

Lemma core_leaderBody now m rd rid meta hash s : core (leaderBodyMatchesProposal h now m rd rid meta hash s).1 = core s.
Proof. unfold leaderBodyMatchesProposal. destruct (_ <? _); [apply at_core_buffer|done]. Qed.

Lemma establishing_spec now rd m rid body meta status sender map e c :
  verifyEstablishing h now rd m rid body meta status sender map = VOk e c →
  buildCanonical h rid (rs_providerId (a_rs rd)) body status meta (rs_block (a_rs rd)) e map = Some c ∧ verify h c (m_sig m) sender = true.
Proof.
  unfold verifyEstablishing. destruct (readWireEffectiveTime _ _) as [|z|]; [|..|done].
  all: destruct (buildCanonical _ _ _ _ _ _ _ _ _) as [c'|] eqn:Hc; [|done]; destruct (bad_sig _); [done|]; destruct (verify _ _ _ _) eqn:Hv; [|done].
  all: destruct (wireEffectiveOutOfWindow _ _ _); [done|]; by intros [= <- <-].
Qed.

(** What a PREPARE handler knows of the round it runs for. *)
Definition prepare_ctx (m : message) (rid : string) (sender : string) (map : option (gmap string Z)) rd : Prop :=
  a_rid rd = rid ∧ sender ∈ rs_responsible (a_rs rd) ∧ (m_admit m = None → map = None) ∧
  admissionEra h (rs_block (a_rs rd)) = bool_decide (is_Some map).

Lemma at_inv_adoptNonOk H now m rid pid rd status sender map s :
  heap s !! pid = Some rd → a_winner rd = None → prepare_ctx m rid sender map rd → inv H s →
  inv H (adoptNonOkPrepare h now m rid pid rd status sender map s).2.
Proof.
  intros Hr Hw (Hrid & Hmem & _) Hs. unfold adoptNonOkPrepare.
  destruct (_ || _) eqn:Hg1; [done|]. apply orb_false_iff in Hg1 as [Hb Hm].
  apply negb_false_iff, String.eqb_eq in Hb. apply negb_false_iff, String.eqb_eq in Hm. destruct (_ && _) eqn:Hg2; [done|].
  destruct (published _ _ _); [done|]. destruct (unsigned m); [done|].
  destruct (verifyEstablishing _ _ _ _ _ _ _ _ _ _) as [| |e c] eqn:Hv; [done|done|]. apply establishing_spec in Hv as [Hc Hsig].
  pose proof (core_admitMap now m rd rid sender map s) as Hc1. destruct (prepareAdmitMapAllowed _ _ _ _ _ _ _ _) as [s1 []]; cbn [fst] in Hc1.
  2:{ by apply (at_inv_core h H s). }
  pose proof (core_derivation now m rd rid status sender s1) as Hc2. destruct (nonOkDerivationRefuses _ _ _ _ _ _ _ _) as [s2 []]; cbn [fst] in Hc2.
  { apply (at_inv_core h H s); [cbn [snd]; congruence|done]. }
  assert (Hcore : core s2 = core s) by congruence. cbn [snd].
  assert (Hs2 : inv H s2) by by apply (at_inv_core h H s). assert (Hr2 : heap s2 !! pid = Some rd) by by rewrite (heap_core _ _ Hcore).
  set (rd1 := adopt sender (m_sig m) (m_body m) (m_meta m) status e map rd).
  assert (Hok1 : round_ok h H rd1).
  { eapply ok_adopt_plain; [by eapply inv_rounds|done|by rewrite Hrid|done|done|]. right. rewrite Hb, Hm. split; [|done].
    apply andb_false_iff in Hg2 as [E|E]; apply negb_false_iff, String.eqb_eq in E; auto. }
  eapply (at_inv_coSignNonOk _ _ _ _ _ _ rd1); [|done|done|done| |].
  - cbn. by rewrite lookup_alter_eq, Hr2.
  - unfold round_canonical. cbn. by rewrite Hrid.
  - eapply at_inv_modify; [|done]. intros rd' E _. assert (rd' = rd) as -> by congruence. done.
Qed.

Lemma at_inv_adoptOk H now m rid pid rd status sender map s :
  heap s !! pid = Some rd → a_winner rd = None → status = "ok"%string → prepare_ctx m rid sender map rd → inv H s →
  inv H (adoptOkPrepare h now m rid pid rd status sender map s).2.
Proof.
  intros Hr Hw Hst (Hrid & Hmem & Hm & He) Hs. pose proof (inv_rounds _ _ _ Hs _ _ Hr) as Hok. unfold adoptOkPrepare.
  destruct (_ && not_leader _ _); [by by_core|]. destruct (unsigned m); [done|].
  destruct (verifyEstablishing _ _ _ _ _ _ _ _ _ _) as [| |e c] eqn:Hv; [done|done|]. apply establishing_spec in Hv as [Hc Hsig].
  pose proof (core_admitMap now m rd rid sender map s) as Hc1. destruct (prepareAdmitMapAllowed _ _ _ _ _ _ _ _) as [s1 []]; cbn [fst] in Hc1.
  2:{ by apply (at_inv_core h H s). }
  assert (Hs1 : inv H s1) by by apply (at_inv_core h H s). assert (Hr1 : heap s1 !! pid = Some rd) by by rewrite (heap_core _ _ Hc1).
  clear Hs Hr. set (choice := if strategy_is rd "judge_model" then _ else _).
  assert (∃ s2 rd2 go s0, choice = (s2, rd2, go) ∧ inv H s0 ∧ heap s0 !! pid = Some rd ∧ heap s2 !! pid = Some rd2 ∧
            (∀ r, modify pid (λ _, r) s2 = modify pid (λ _, r) s0) ∧ a_rid rd2 = rid ∧ a_rs rd2 = a_rs rd ∧ (go = false → inv H s2) ∧
            (go = true → round_ok h H (adopt sender (m_sig m) (m_body m) (m_meta m) status e map rd2)))
    as (s2 & rd2 & go & s0 & -> & Hs0 & Hr0 & Hr2 & Hmod & E1 & E2 & Hno & Hgo).
  { unfold choice. destruct (strategy_is rd "judge_model").
    - pose proof (core_leaderBody now m rd rid (m_meta m) (hexDigest h (m_body m)) s1) as Hc2.
      destruct (leaderBodyMatchesProposal _ _ _ _ _ _ _ _) as [s2 go]. cbn [fst] in Hc2. assert (Hs2 : inv H s2) by by apply (at_inv_core h H s1).
      assert (Hr2 : heap s2 !! pid = Some rd) by by rewrite (heap_core _ _ Hc2). exists s2, rd, go, s2. split_and!; try done.
      intros _. eapply ok_adopt_plain; [done|done|by rewrite Hrid|done|done|by left].
    - destruct (byteEqualityCorroborated _ _ _ _ _ _ _ _ _) as [rd2 go] eqn:Hb. rewrite <-Hrid in Hc.
      destruct (corroborated_ok h Hsha H rd m _ _ _ _ _ _ _ _ _ Hok Hw Hst Hm He Hc Hsig Hmem Hb) as (F1 & F2 & F3 & F4).
      exists (modify pid (λ _, rd2) s1), rd2, go, s1. split_and!; try done; [by cbn; rewrite lookup_alter_eq, Hr1| |congruence|].
      + intros r. unfold modify. cbn. by rewrite alter_alter_eq.
      + intros Hf. by eapply inv_set; [|apply F3|..]. }
  destruct go; cbn [negb]; [|by apply Hno]. cbv zeta. set (rd3 := adopt _ _ _ _ _ _ _ rd2). specialize (Hgo eq_refl). fold rd3 in Hgo.
  rewrite (Hmod rd3). assert (Hs3 : inv H (modify pid (λ _, rd3) s0)) by (eapply inv_set; [done|done|cbn; congruence|done|done]).
  set (s3 := modify pid (λ _, rd3) s0) in *. assert (Hr3 : heap s3 !! pid = Some rd3) by (unfold s3; cbn; by rewrite lookup_alter_eq, Hr0).
  assert (Hc3 : round_canonical h rd3 (m_body m) status (m_meta m) = Some c) by (unfold round_canonical; cbn; by rewrite E1, E2).
  destruct (ownProposal rd3) as [own|]; [|done]. destruct (strategy_is rd3 "judge_model").
  - unfold coSignJudgeWinner. destruct (negb _); [done|]. cbn [snd]. apply at_inv_sign_echo; [done| |done].
    change status with (a_status rd3). by apply ok_round_sign.
  - unfold coSignByteEqualWinner. destruct (negb _); [done|]. cbn [snd]. change status with (a_status rd3). by apply at_inv_coSign.
Qed.

Lemma at_inv_countLate H pid rd m sender s s' :
  heap s !! pid = Some rd → sender ∈ rs_responsible (a_rs rd) → countLatePrepare h pid rd m sender s = Some s' → inv H s → inv H s'.
Proof.
  intros Hr Hmem Hl Hs. unfold countLatePrepare in Hl. destruct (a_winner rd) as [[body meta]|] eqn:Hw; [|by injection Hl as <-].
  destruct (round_canonical h rd body (a_status rd) meta) as [c|] eqn:Hc; [|done]. cbn in Hl. destruct (bad_sig _); [done|]. injection Hl as <-.
  destruct (verify _ _ _ _) eqn:Hv; [|done]. apply at_inv_modify; [|done]. intros rd' E Hok. assert (rd' = rd) as -> by congruence.
  split_and!; [|done..]. eapply ok_sign; [done|cbn; by rewrite Hc|by left|done].
Qed.

Lemma at_inv_finishPrepare H rid pid sender s : inv H s → inv H (finishPrepare h rid pid sender s).2.
Proof.
  intros Hs. unfold finishPrepare. assert (inv H (checkPrepareQuorum h rid (modify pid (add_prepare sender) s))) by (apply at_inv_checkPrepare; by flags).
  by destruct (heap _ !! pid).
Qed.

Lemma at_inv_prepareWithAdmit H now m rid pid sender map s :
  (∀ rd, heap s !! pid = Some rd → prepare_ctx m rid sender map rd) →
  inv H s → inv H (handlePrepareWithAdmit h now m rid pid sender map s).2.
Proof.
  intros Hctx Hs. unfold handlePrepareWithAdmit. destruct (heap s !! pid) as [rd|] eqn:Hr; [|done]. specialize (Hctx _ eq_refl).
  destruct (negb _); [by apply inv_count|]. set (vs := match a_winner rd with Some _ => _ | None => _ end).
  assert (Hvs : inv H vs.2).
  { unfold vs. destruct (a_winner rd) eqn:Hw.
    - destruct (unsigned m); [done|]. destruct (countLatePrepare _ _ _ _ _ _) eqn:Hl; [|done]. by eapply at_inv_countLate; [|apply Hctx|..].
    - destruct (String.eqb_spec (wire_status m) "ok") as [Hst|]; [rewrite Hst; by apply at_inv_adoptOk|by apply at_inv_adoptNonOk]. }
  destruct vs as [[] s']; [by apply at_inv_finishPrepare|done..].
Qed.

Lemma at_inv_handlePrepare H now m s : inv H s → inv H (handlePrepare h now m s).2.
Proof.
  intros Hs. unfold handlePrepare. destruct (round_door h now m s) as [s'|pid rd] eqn:Hd; [by eapply door_inv|].
  destruct (door_open _ _ _ _ _ _ Hd Hs) as (Hr & Hok & Hrid).
  destruct (bad_pubkey _); [done|]. destruct (negb _) eqn:Hg; [done|]. apply negb_false_iff, responsible_in in Hg.
  destruct (caps_throw _ _ _); [done|]. destruct (negb _); [done|].
  destruct (readWireAdmitBlocks _ _ _) as [map| |map] eqn:Ha; [|done|].
  - destruct (still_open _ _ _); [|done]. apply at_inv_prepareWithAdmit; [|done]. intros rd' E. assert (rd' = rd) as -> by congruence.
    destruct (ok_era _ _ _ Ha) as [-> He]. split_and!; try done.
  - cbn [snd]. apply at_inv_suspend; [|done]. exists rd. destruct (bound_era _ _ _ Ha). by split_and!.
Qed.

(** ** COMMIT *)

Lemma at_inv_commitWithAdmit H m rid pid sender map s :
  (∀ rd, heap s !! pid = Some rd → sender ∈ rs_responsible (a_rs rd)) →
  inv H s → inv H (finishCommitWithAdmit h m rid pid sender map s).2.
Proof.
  intros Hmem Hs. unfold finishCommitWithAdmit. destruct (heap s !! pid) as [rd|] eqn:Hr; [|done]. specialize (Hmem _ eq_refl).
  destruct (negb _); [done|]. destruct (if unsigned m then _ else _) as [s'|] eqn:Hl; [|done]. cbn [snd]. apply at_inv_checkCommit. flags.
  destruct (unsigned m); [by injection Hl as <-|]. by eapply at_inv_countLate.
Qed.

Lemma at_inv_handleCommit H now m s : inv H s → inv H (handleCommit h now m s).2.
Proof.
  intros Hs. unfold handleCommit. destruct (round_door h now m s) as [s'|pid rd] eqn:Hd; [by eapply door_inv|].
  destruct (door_open _ _ _ _ _ _ Hd Hs) as (Hr & Hok & Hrid).
  destruct (bad_pubkey _); [done|]. destruct (negb _) eqn:Hg; [done|]. apply negb_false_iff, responsible_in in Hg. case_bool_decide; [cbn [snd]; by by_core|].
  destruct (readWireAdmitBlocks _ _ _) as [map| |map] eqn:Ha; [|done|].
  - destruct (still_open _ _ _); [|done]. apply at_inv_commitWithAdmit; [|done]. intros rd' E. by assert (rd' = rd) as -> by congruence.
  - cbn [snd]. apply at_inv_suspend; [|done]. exists rd. destruct (bound_era _ _ _ Ha). by split_and!.
Qed.

(** ** Calls, events, runs *)

Lemma at_inv_exec H now j s : inv H s → inv H (exec h now j s).2.
Proof.
  intros Hs. destruct j as [m|rid|rid|rid| |rid pid]; cbn [exec].
  - unfold handleMessage. destruct (bad_requestId _); [done|]. destruct (m_type m); [by apply at_inv_handlePropose|by apply at_inv_handlePrepare|by apply at_inv_handleCommit].
  - by by_core.
  - by by_core.
  - by apply at_inv_advance.
  - done.
  - cbn [snd]. unfold recheck. destruct (heap s !! pid) as [rd|]; [|done]. destruct (a_commitSent rd); [by apply at_inv_checkCommit|done].
Qed.

Definition fate_state (f : fate) : state := match f with Returned s | Uncaught s => s end.

Lemma at_inv_jobs H fuel now js s f : run_jobs fuel h now js s = Some f → inv H s → inv H (fate_state f).
Proof.
  revert js s. induction fuel as [|fuel IH]; intros js s; (destruct js as [|j js]; cbn [run_jobs]; [by intros [= <-]|]); [done|].
  intros Hrun Hs. pose proof (at_inv_exec H now j s Hs) as Hs'. destruct (exec h now j s) as [[more|] s']; cbn [snd] in Hs'; [by eapply IH|].
  destruct (unwind js); [by eapply IH|]. by injection Hrun as <-.
Qed.

Lemma at_inv_settled H now a f : settle h now a = Some f → inv H a.2 → inv H (fate_state f).
Proof. destruct a as [[js|] s]; cbn [settle snd]; [by apply at_inv_jobs|by intros [= <-]]. Qed.

Lemma at_inv_timeout H pid s : inv H s → inv H (onRoundTimeout h pid s).
Proof.
  intros Hs. unfold onRoundTimeout. destruct (heap s !! pid) as [rd|]; [|done]. destruct (a_finalized rd); [by flags|].
  by_core. set (s1 := modify pid (set_a_timer false) s). apply (at_inv_core h H (put_pending (delete (a_rid rd) (pending s1)) s1)); [done|].
  apply inv_delete_pending. by flags.
Qed.

Lemma at_inv_stop H s : inv H s → inv H (stop s).
Proof.
  intros [I1 I2 I3 I4 I5]. unfold stop. set (held := λ pid : nat, existsb (λ kv : string * nat, bool_decide (kv.2 = pid)) (map_to_list (pending s))).
  assert (Hl : ∀ pid rd, heap s !! pid = Some rd → ∃ rd', map_imap (λ pid rd, Some (if held pid then set_a_timer false rd else rd)) (heap s) !! pid = Some rd' ∧ vitals rd' = vitals rd).
  { intros pid rd Hr. rewrite map_lookup_imap, Hr. cbn. eexists. split; [done|]. by destruct (held pid). }
  constructor; cbn; try done.
  - intros pid rd'. rewrite map_lookup_imap. destruct (heap s !! pid) as [rd|] eqn:Hr; [|done]. cbn. intros [= <-].
    eapply round_ok_ext; [|by eapply I1]. by destruct (existsb _ _).
  - intros pid Hle. rewrite map_lookup_imap, (I3 pid Hle). done.
  - intros k κ Hk. specialize (I4 k κ Hk). destruct κ; cbn in *; try done.
    all: destruct I4 as (rd & Hr & Hrest); destruct (Hl _ _ Hr) as (rd' & Hr' & Hv); exists rd'; unfold vitals in Hv.
    all: assert (E1 : a_rid rd' = a_rid rd) by congruence; assert (E2 : a_rs rd' = a_rs rd) by congruence; rewrite ?E1, ?E2; done.
Qed.

(** The proposals a list of events makes. *)
Definition proposals_of (evs : list (Z * event)) : list (string * roundState) :=
  omap (λ e, match e.2 with EvPropose requestId rs => Some (toLowerCase requestId, rs) | _ => None end) evs.

Lemma at_inv_resume H now κ ev s a : resume h now κ ev s = Some a → kont_ok h H s κ → inv H s → inv H a.2.
Proof.
  intros Hres Hk Hs. destruct κ, ev; try done; cbn [resume] in Hres; injection Hres as <-.
  - destruct Hk as (? & ? & ? & ?). by apply at_inv_resumeTip; [|split_and!|].
  - by apply at_inv_resumeAgree.
  - destruct (_ && _); [|done]. apply at_inv_verifyAndAdmit; [|done]. destruct Hk as (rd & Hr & _ & Hm & _). intros rd' E. congruence.
  - destruct (_ && _); [|done]. apply at_inv_prepareWithAdmit; [|done]. destruct Hk as (rd & Hr & Hrid & Hm & Ha & He).
    intros rd' E. assert (rd' = rd) as -> by congruence. split_and!; [done|done|done|by rewrite He].
  - destruct (_ && _); [|done]. apply at_inv_commitWithAdmit; [|done]. destruct Hk as (rd & Hr & _ & Hm & _). intros rd' E. congruence.
Qed.

Lemma caught_state f : fate_state (caught f) = fate_state f.
Proof. by destruct f. Qed.

Lemma at_inv_step H now ev s f :
  (∀ requestId rs, ev = EvPropose requestId rs → (toLowerCase requestId, rs) ∈ H) →
  step h now ev s = Some f → inv H s → inv H (fate_state f).
Proof.
  intros Hev Hst Hs.
  assert (Hresume : ∀ k, ('(κ, s) ← take k s; a ← resume h now κ ev s; caught <$> settle h now a) = Some f → inv H (fate_state f)).
  { intros k Hk. destruct (take k s) as [[κ s1]|] eqn:Ht; [|done]. cbn in Hk. destruct (at_inv_take _ _ _ _ _ _ Ht Hs) as [Hs1 Hκ].
    destruct (resume h now κ ev s1) as [a|] eqn:Hr; [|done]. cbn in Hk. destruct (settle h now a) as [f'|] eqn:Hset; [|done].
    injection Hk as <-. rewrite caught_state. eapply at_inv_settled; [done|]. by eapply at_inv_resume. }
  destruct ev as [requestId rs|m|k tips|k answer|k tips|pid|rid|]; cbn [step] in Hst; try by eapply Hresume.
  - destruct (settle h now _) as [f'|] eqn:Hset; [|done]. injection Hst as <-. rewrite caught_state.
    eapply at_inv_settled; [done|]. apply at_inv_propose; [by apply Hev|done].
  - eapply at_inv_settled; [done|]. by apply (at_inv_exec H now (JMessage m)).
  - destruct (heap s !! pid) as [rd|]; [|done]. destruct (a_timer rd); [|done]. injection Hst as <-. by apply at_inv_timeout.
  - destruct (bool_decide _); [|done]. injection Hst as <-. cbn [fate_state]. unfold onEvict.
    apply (at_inv_core h H (put_pending (delete rid (pending s)) s)); [done|]. by apply inv_delete_pending.
  - injection Hst as <-. by apply at_inv_stop.
Qed.

Theorem at_inv_run evs s f H : run h evs s = Some f → inv H s → inv (proposals_of evs ++ H) (fate_state f).
Proof.
  revert s H. induction evs as [|[now ev] evs IH]; intros s H; cbn [run]; [by intros [= <-]|].
  intros Hrun Hs. destruct (step h now ev s) as [f'|] eqn:Hst; [|done].
  set (H' := proposals_of [(now, ev)] ++ H).
  assert (Hf' : inv H' (fate_state f')).
  { eapply at_inv_step; [|done|eapply at_inv_mono; [|done]].
    - intros requestId rs ->. unfold H'. cbn. by left.
    - intros x Hx. unfold H'. apply elem_of_app. by right. }
  assert (Hin : ∀ x, x ∈ H' ∨ x ∈ proposals_of evs → x ∈ proposals_of ((now, ev) :: evs) ++ H).
  { intros x. unfold H', proposals_of. cbn. destruct ev; cbn; rewrite ?elem_of_cons, !elem_of_app, ?elem_of_cons; naive_solver. }
  destruct f' as [s'|s'].
  - eapply at_inv_mono; [|by eapply IH]. intros x [?|?]%elem_of_app; apply Hin; auto.
  - injection Hrun as <-. eapply at_inv_mono; [|done]. intros x ?. apply Hin. auto.
Qed.
End Safety.
