(* ===== verification/AtReplay.v ===== *)
(** * Attestation rounds: replay ends

    A handler replays the messages buffered for its round, a replayed message may
    be buffered again, count as a proposal and start another replay, or establish
    the winner and replay everything. The calls waiting and the messages held
    bound each other: every stretch of code ends, within [replay_bound] calls
    ([jobs_end], [settle_ends]). *)

From S2P Require Import Prelude Ordered GateRegistry BigNum Quorum Json AttestWire OracleBand Admission AtState AtCanon AtRounds AtInv AtVotes AtSafety.
Open Scope nat_scope.

(** ** Sizes of the buffers *)

Definition total {K} (l : list (K * list message)) : nat := sum_list (length <$> l.*2).

#[local] Arguments total : simpl never.
#[local] Arguments buffered_messages : simpl never.

Lemma total_cons {K} (kv : K * list message) l : total (kv :: l) = length kv.2 + total l.
Proof. done. Qed.

Lemma total_perm {K} (l l' : list (K * list message)) : l ≡ₚ l' → total l = total l'.
Proof. induction 1; rewrite ?total_cons; lia. Qed.

Lemma total_delete (k : string) l : total (m_delete k l) ≤ total l.
Proof.
  unfold m_delete. induction l as [|kv l IH]; [done|]. rewrite filter_cons. case_decide; rewrite ?total_cons; lia.
Qed.

Lemma total_get_delete (k : string) l arr : m_get k l = Some arr → length arr + total (m_delete k l) ≤ total l.
Proof.
  unfold m_get, m_delete. induction l as [|[k' v] l IH]; [done|]. cbn [find fst]. rewrite filter_cons, total_cons. cbn [fst snd]. case_bool_decide as Hk.
  - cbn. intros [= <-]. rewrite decide_False by auto. pose proof (total_delete k l). unfold m_delete in *. lia.
  - intros Hg%IH. rewrite decide_True by done. rewrite total_cons. cbn [snd]. lia.
Qed.

Lemma total_set (k : string) v l : total (m_set k v l) + length (default [] (m_get k l)) = total l + length v.
Proof.
  unfold m_get. induction l as [|[k' w] l IH]; [cbn [m_set find]; rewrite total_cons; cbn; lia|]. cbn [m_set find fst]. case_decide as Hk.
  - rewrite bool_decide_true by done. rewrite !total_cons. cbn. lia.
  - rewrite bool_decide_false by done. rewrite !total_cons. cbn [snd]. lia.
Qed.

Lemma total_map_delete (k : string) (m : gmap string (list message)) arr :
  m !! k = Some arr → length arr + total (map_to_list (delete k m)) = total (map_to_list m).
Proof. intros Hk. by rewrite <-(total_perm _ _ (map_to_list_delete m k arr Hk)), total_cons. Qed.

Lemma total_map_delete_le (k : string) (m : gmap string (list message)) : total (map_to_list (delete k m)) ≤ total (map_to_list m).
Proof. destruct (m !! k) as [arr|] eqn:Hk; [pose proof (total_map_delete k m arr Hk); lia|by rewrite delete_id]. Qed.

Lemma total_map_insert (k : string) v (m : gmap string (list message)) :
  total (map_to_list (<[k := v]> m)) + length (default [] (m !! k)) = total (map_to_list m) + length v.
Proof.
  rewrite <-insert_delete_eq, (total_perm _ _ (map_to_list_insert (delete k m) k v (lookup_delete_eq _ _))), total_cons.
  cbn [snd]. destruct (m !! k) as [arr|] eqn:Hk; cbn.
  - pose proof (total_map_delete k m arr Hk). lia.
  - rewrite delete_id by done. lia.
Qed.

Lemma buffered_total s : buffered_messages s = total (earlyMessages s) + total (map_to_list (earlyCommits s)).
Proof. done. Qed.

(** ** What the operations hold back *)

Section Buffered.
Context (h : env).
Implicit Types (s : state).

Abbreviation b := buffered_messages.

(** Operations that leave both buffers alone. *)
Definition same_buffers s s' : Prop := earlyMessages s' = earlyMessages s ∧ earlyCommits s' = earlyCommits s.

Lemma same_b s s' : same_buffers s s' → b s' = b s.
Proof. intros [E1 E2]. by rewrite !buffered_total, E1, E2. Qed.

Lemma sb_markTornDown rid s : same_buffers s (markTornDown h rid s).
Proof. unfold markTornDown. case_bool_decide; [done|]. by destruct (ring_add _ _ _ _) as [[] ?]. Qed.
Lemma sb_rememberEvicted rid s : same_buffers s (rememberEvictedFinalized h rid s).
Proof. unfold rememberEvictedFinalized. case_bool_decide; [done|]. by destruct (ring_add _ _ _ _) as [[] ?]. Qed.
Lemma sb_markFinalized rid s : same_buffers s (markFinalized h rid s).
Proof.
  unfold markFinalized. case_bool_decide; [done|]. destruct (ring_add _ _ _ _) as [[set order] [o|]]; [|done].
  apply (sb_rememberEvicted o (put_finalizedOrder order (put_finalized set s))).
Qed.
Lemma sb_recordProposer rid pk s : same_buffers s (recordProposer h rid pk s).
Proof.
  unfold recordProposer. destruct (_ || _); [done|]. destruct (proposerSeen s !! _); [done|]. by destruct (map_ring _ _ _ _) as [[] ?].
Qed.
Lemma sb_recordNonOk rid st s : same_buffers s (recordNonOkPublished h rid st s).
Proof.
  unfold recordNonOkPublished. destruct (nonOkPublished s !! _); [done|]. destruct (map_ring _ _ _ _) as [[] [o|]]; [|done]. by case_bool_decide.
Qed.

Lemma b_markTornDown rid s : b (markTornDown h rid s) = b s.
Proof. apply same_b, sb_markTornDown. Qed.
Lemma b_markFinalized rid s : b (markFinalized h rid s) = b s.
Proof. apply same_b, sb_markFinalized. Qed.
Lemma b_recordProposer rid pk s : b (recordProposer h rid pk s) = b s.
Proof. apply same_b, sb_recordProposer. Qed.
Lemma b_recordNonOk rid st s : b (recordNonOkPublished h rid st s) = b s.
Proof. apply same_b, sb_recordNonOk. Qed.
Lemma b_modify pid f s : b (modify pid f s) = b s.
Proof. done. Qed.
Lemma b_broadcast e s : b (broadcast h e s) = b s.
Proof. unfold broadcast. by destruct (peers h). Qed.

Lemma b_drop rid s : b (drop_early rid s) ≤ b s.
Proof. rewrite !buffered_total. cbn. pose proof (total_delete rid (earlyMessages s)). lia. Qed.

Lemma b_prune now s : b (pruneEarlyMessages now s) ≤ b s.
Proof.
  unfold pruneEarlyMessages. generalize (earlyMessageTtl s) as l. intros l. revert s. induction l as [|kv l IH]; intros s; [done|].
  cbn [fold_left]. etrans; [apply IH|]. destruct (kv.2 <=? now)%Z; [apply b_drop|done].
Qed.

Lemma b_buffer now rid m s : b (bufferEarlyMessage h now rid m s) ≤ S (b s).
Proof.
  unfold bufferEarlyMessage. case_bool_decide; [lia|]. pose proof (b_prune now s) as Hp. revert Hp.
  generalize (pruneEarlyMessages now s) as s1. intros s1 Hp. destruct (_ <? _)%Z; [lia|].
  destruct (m_get rid (earlyMessages s1)) as [arr|] eqn:Hg.
  - destruct (_ <=? _); [lia|]. rewrite !buffered_total in *. cbn. pose proof (total_set rid (arr ++ [m]) (earlyMessages s1)) as Ht.
    rewrite Hg, length_app in Ht. cbn in Ht. lia.
  - set (s2 := if (_ <=? _) then _ else s1). assert (Hs2 : b s2 ≤ b s1).
    { unfold s2. destruct (_ <=? _); [|done]. destruct (earlyMessages s1) as [|[]]; [done|apply b_drop]. }
    rewrite !buffered_total in *. cbn [length]. destruct (_ <=? 0).
    + cbn. pose proof (total_set rid [] (earlyMessages s2)) as Ht. cbn in Ht. lia.
    + cbn. pose proof (total_set rid [m] (earlyMessages s2)) as Ht. rewrite m_set_same. cbn in Ht. lia.
Qed.

Lemma b_bufferCommit rid m s : b (bufferEarlyCommit h rid m s) ≤ S (b s).
Proof.
  unfold bufferEarlyCommit. destruct (_ <? _)%Z; [lia|]. destruct (_ <=? _); [lia|]. rewrite !buffered_total. cbn.
  pose proof (total_map_insert rid (default [] (earlyCommits s !! rid) ++ [m]) (earlyCommits s)) as Ht. rewrite length_app in Ht. cbn in Ht. lia.
Qed.

Lemma b_settle rid pid rd s : b (settleFinalizedRound h rid pid rd s) ≤ b s.
Proof.
  unfold settleFinalizedRound. rewrite b_modify. destruct (String.eqb _ _); [by rewrite b_markFinalized|].
  rewrite b_markTornDown. etrans; [apply b_drop|]. by rewrite b_recordNonOk.
Qed.

Lemma b_checkCommit rid s : b (checkCommitQuorum h rid s) ≤ b s.
Proof.
  unfold checkCommitQuorum. destruct (live rid s) as [[pid rd]|]; [|done]. destruct (a_finalized rd); [done|]. destruct (_ <? _)%Z; [done|].
  cbv zeta. set (s1 := settleFinalizedRound _ _ _ _ _). assert (Hs1 : b s1 ≤ b s) by exact (b_settle rid pid rd (modify pid (set_a_finalized true) s)). clearbody s1.
  rewrite !buffered_total in *. cbn. pose proof (total_map_delete_le rid (earlyCommits s1)). lia.
Qed.

Lemma b_checkPrepare rid s : b (checkPrepareQuorum h rid s) ≤ b s.
Proof.
  unfold checkPrepareQuorum. destruct (live rid s) as [[pid rd]|]; [|done]. destruct (_ || _); [done|]. destruct (_ <? _)%Z; [done|].
  etrans; [apply b_checkCommit|]. by rewrite b_broadcast.
Qed.

(** ** Calls *)

Definition more_of (o : outcome) : list job := match o with Go js => js | Throw => [] end.

(** The call took its message: it holds no more and ends in at most [n] of
    other calls. *)
Definition consumed (n : nat) s (a : act) : Prop :=
  b a.2 ≤ b s ∧ waiting_messages (more_of a.1) = 0 ∧ calls (more_of a.1) ≤ n.

(** The call put its message back. *)
Definition put_back s (a : act) : Prop := b a.2 ≤ S (b s) ∧ more_of a.1 = [].

Definition handled s (a : act) : Prop := consumed 5 s a ∨ put_back s a.

Lemma consumed_here n s : consumed n s (Go [], s).
Proof. split_and!; cbn; [done|done|lia]. Qed.
Lemma handled_here s : handled s (Go [], s).
Proof. left. apply consumed_here. Qed.
Lemma handled_throw s : handled s (Throw, s).
Proof. left. split_and!; cbn; [done|done|lia]. Qed.
Lemma handled_state s s' : b s' ≤ S (b s) → handled s (Go [], s').
Proof. right. by split. Qed.

Lemma handled_same s s' : same_buffers s s' → handled s (Go [], s').
Proof. intros Hs. apply handled_state. rewrite (same_b _ _ Hs). lia. Qed.

Lemma consumed_agreed rid pid s s0 : b s ≤ b s0 → consumed 2 s0 (broadcastAgreedPrepare h rid pid s).
Proof.
  intros Hb. unfold broadcastAgreedPrepare. destruct (heap s !! pid) as [rd|]; [|split_and!; cbn; [done|done|lia]]. split_and!; cbn; [|done|lia].
  etrans; [apply b_checkPrepare|]. rewrite b_modify. by rewrite b_broadcast.
Qed.

Lemma consumed_establish now rid status s : consumed 2 s (establishNonOkWinner h now rid status s).
Proof.
  unfold establishNonOkWinner. destruct (live rid s) as [[pid rd]|]; [|apply consumed_here]. destruct (_ || _); [apply consumed_here|].
  cbv zeta. destruct (round_canonical _ _ _ _ _) as [c|]; [by apply consumed_agreed|]. split_and!; cbn; [done|done|lia].
Qed.

Lemma consumed_advance now rid s : consumed 2 s (maybeAdvanceFromProposals h now rid s).
Proof.
  unfold maybeAdvanceFromProposals. destruct (live rid s) as [[pid rd]|]; [|apply consumed_here]. destruct (_ || _); [apply consumed_here|].
  destruct (_ <? _)%Z; [apply consumed_here|]. destruct (_ || _); [apply consumed_here|].
  destruct (okProposals rd); [apply consumed_establish|]. destruct (getModule h _) as [md|]; [|apply consumed_here].
  destruct (awaitsJudgeLeader rd); [apply consumed_here|]. split_and!; cbn; [done|done|lia].
Qed.

Lemma door_b now m s s' : round_door h now m s = DoorShut s' → b s' ≤ S (b s).
Proof.
  unfold round_door. destruct (String.eqb _ _); [intros [= <-]; lia|]. case_bool_decide; [intros [= <-]; lia|].
  destruct (live _ s) as [[pid rd]|]; [done|]. intros [= <-]. apply b_buffer.
Qed.

Lemma handled_verifyAndAdmit now rid pid m sender e map s : handled s (verifyAndAdmitProposal h now rid pid m sender e map s).
Proof.
  unfold verifyAndAdmitProposal. destruct (heap s !! pid) as [rd|]; [|apply handled_here].
  destruct (buildCanonical _ _ _ _ _ _ _ _ _) as [c|]; [|apply handled_throw]. destruct (bad_sig _); [apply handled_throw|]. destruct (verify _ _ _ _); [|apply handled_here].
  unfold admitVerifiedProposal. destruct (wireEffectiveOutOfWindow _ _ _); [apply handled_here|]. destruct (negb _); [by apply handled_same|].
  left. set (s1 := recordProposer h rid sender s). assert (Hs1 : b s1 = b s) by apply b_recordProposer.
  destruct (heap s1 !! pid) as [rd1|]; [|split_and!; cbn; [by rewrite Hs1|done|lia]].
  destruct (m_get sender (a_proposals rd1)); [split_and!; cbn; [by rewrite Hs1|done|lia]|].
  split_and!; cbn [snd fst more_of]; [by rewrite b_modify, Hs1|by destruct (_ && _)|destruct (_ && _); cbn; lia].
Qed.

Lemma handled_propose now m s : handled s (handlePropose h now m s).
Proof.
  unfold handlePropose. destruct (round_door h now m s) as [s'|pid rd] eqn:Hd; [apply handled_state; by eapply door_b|].
  destruct (bad_pubkey _); [apply handled_throw|]. destruct (_ || _); [apply handled_here|].
  destruct (caps_throw _ _ _); [apply handled_throw|]. destruct (negb _); [apply handled_here|].
  destruct (readWireEffectiveTime _ _) as [|z|]; [| |apply handled_here].
  all: destruct (readWireAdmitBlocks _ _ _) as [map| |map]; [|apply handled_here|by apply handled_same].
  all: destruct (still_open _ _ _); [apply handled_verifyAndAdmit|apply handled_here].
Qed.

(** A PREPARE rule that goes on holds no more than it found; one that stops may
    have put the message back. *)
Definition ruled s (v : verdict) s' : Prop := match v with Adopted => b s' ≤ b s | _ => b s' ≤ S (b s) end.

Lemma b_admitMap now m rd rid sender map s :
  let r := prepareAdmitMapAllowed h now m rd rid sender map s in if r.2 then r.1 = s else b r.1 ≤ S (b s).
Proof.
  unfold prepareAdmitMapAllowed. destruct (a_admitBlocks rd); [|done]. destruct (leaderProposal rd); cbn [fst snd].
  - destruct (String.eqb _ _); [done|lia].
  - case_bool_decide; cbn [fst snd]; [destruct (String.eqb _ _); [done|lia]|].
    destruct (_ && _); cbn [fst snd]; [apply b_buffer|]. destruct (String.eqb _ _); [done|lia].
Qed.

Lemma b_derivation now m rd rid status sender s :
  let r := nonOkDerivationRefuses h now m rd rid status sender s in if r.2 then b r.1 ≤ S (b s) else r.1 = s.
Proof.
  unfold nonOkDerivationRefuses, providerErrorUnderivable. destruct (_ && not_leader _ _); cbn [fst snd]; [apply b_buffer|].
  destruct (String.eqb status "no_quorum" && _).
  - destruct (_ <? _)%Z; cbn [fst snd]; [apply b_buffer|]. destruct (getModule h _) as [[]|]; cbn [fst snd]; [destruct (_ || _)|lia|destruct (bool_decide _)]; lia || done.
  - destruct (String.eqb _ _); cbn [fst snd]; [|done]. destruct (_ <? _)%Z; cbn [fst snd]; [apply b_buffer|]. destruct (existsb _ _); [lia|done].
Qed.

Lemma b_sign_echo pid sig rd s : b (sign_and_echo h pid sig rd s) = b s.
Proof. unfold sign_and_echo, echoAdoptedPrepare. destruct sig; [|done]. destruct (a_myPubkey _); [|done]. by destruct (peers h). Qed.

Lemma b_coSignNonOk pid c body meta status s : b (coSignNonOkWinner h pid c body meta status s) = b s.
Proof.
  unfold coSignNonOkWinner. destruct (heap s !! pid); [|done]. destruct (ownProposal _); [|done]. destruct (_ && _); [|done].
  destruct (own_winner_signature _ _ _ _ _ _ _); [apply b_sign_echo|done].
Qed.

Lemma ruled_nonOk now m rid pid rd status sender map s :
  let r := adoptNonOkPrepare h now m rid pid rd status sender map s in ruled s r.1 r.2.
Proof.
  unfold adoptNonOkPrepare. destruct (_ || _); [cbn; lia|]. destruct (_ && _); [cbn; lia|]. destruct (published _ _ _); [cbn; lia|].
  destruct (unsigned m); [cbn; lia|]. destruct (verifyEstablishing _ _ _ _ _ _ _ _ _ _); [cbn; lia|cbn; lia|].
  pose proof (b_admitMap now m rd rid sender map s) as H1. destruct (prepareAdmitMapAllowed _ _ _ _ _ _ _ _) as [s1 []]; cbn in H1; [subst s1|done].
  pose proof (b_derivation now m rd rid status sender s) as H2. destruct (nonOkDerivationRefuses _ _ _ _ _ _ _ _) as [s2 []]; cbn in H2; [done|subst s2].
  cbn. by rewrite b_coSignNonOk.
Qed.

Lemma ruled_ok now m rid pid rd status sender map s :
  let r := adoptOkPrepare h now m rid pid rd status sender map s in ruled s r.1 r.2.
Proof.
  unfold adoptOkPrepare. destruct (_ && not_leader _ _); [cbn; apply b_buffer|]. destruct (unsigned m); [cbn; lia|].
  destruct (verifyEstablishing _ _ _ _ _ _ _ _ _ _); [cbn; lia|cbn; lia|].
  pose proof (b_admitMap now m rd rid sender map s) as H1. destruct (prepareAdmitMapAllowed _ _ _ _ _ _ _ _) as [s1 []]; cbn in H1; [subst s1|done].
  set (choice := if strategy_is rd "judge_model" then _ else _).
  assert (∃ s2 rd2 go, choice = (s2, rd2, go) ∧ if go : bool then b s2 ≤ b s else b s2 ≤ S (b s)) as (s2 & rd2 & go & -> & Hb).
  { unfold choice, leaderBodyMatchesProposal. destruct (strategy_is rd "judge_model").
    - destruct (_ <? _)%Z; [do 3 eexists; split; [done|apply b_buffer]|]. do 3 eexists. split; [done|]. destruct (existsb _ _); lia.
    - destruct (byteEqualityCorroborated _ _ _ _ _ _ _ _ _) as [rd2 go]. do 3 eexists. split; [done|]. rewrite b_modify. destruct go; lia. }
  destruct go; cbn [negb]; [|done]. cbv zeta. destruct (ownProposal _) as [own|]; [|done]. destruct (strategy_is _ _).
  - unfold coSignJudgeWinner. destruct (negb _); cbn; [rewrite b_modify; lia|]. by rewrite b_sign_echo, b_modify.
  - unfold coSignByteEqualWinner. cbn. destruct (negb _); [done|]. by rewrite b_sign_echo, b_modify.
Qed.

Lemma b_countLate pid rd m sender s s' : countLatePrepare h pid rd m sender s = Some s' → b s' = b s.
Proof.
  unfold countLatePrepare. destruct (a_winner rd) as [[]|]; [|by intros [= <-]]. destruct (round_canonical _ _ _ _ _); [|done]. cbn.
  destruct (bad_sig _); [done|]. intros [= <-]. by destruct (verify _ _ _ _).
Qed.

Lemma handled_prepareWithAdmit now m rid pid sender map s : handled s (handlePrepareWithAdmit h now m rid pid sender map s).
Proof.
  unfold handlePrepareWithAdmit. destruct (heap s !! pid) as [rd|]; [|apply handled_here]. destruct (negb _); [by apply handled_same|].
  set (vs := match a_winner rd with Some _ => _ | None => _ end). assert (Hvs : ruled s vs.1 vs.2).
  { unfold vs. destruct (a_winner rd).
    - destruct (unsigned m); [cbn; lia|]. destruct (countLatePrepare _ _ _ _ _ _) eqn:Hl; cbn; [by rewrite (b_countLate _ _ _ _ _ _ Hl)|lia].
    - destruct (String.eqb _ _); [apply ruled_ok|apply ruled_nonOk]. }
  destruct vs as [[] s']; cbn in Hvs; [|by apply handled_state|right; by split].
  left. unfold finishPrepare. set (s1 := checkPrepareQuorum _ _ _). assert (b s1 ≤ b s) by (etrans; [apply b_checkPrepare|by rewrite b_modify]).
  destruct (heap s1 !! pid); [|split_and!; cbn; [done|done|lia]]. destruct (bool_decide _); split_and!; cbn; try done; lia.
Qed.

Lemma handled_prepare now m s : handled s (handlePrepare h now m s).
Proof.
  unfold handlePrepare. destruct (round_door h now m s) as [s'|pid rd] eqn:Hd; [apply handled_state; by eapply door_b|].
  destruct (bad_pubkey _); [apply handled_throw|]. destruct (negb _); [apply handled_here|].
  destruct (caps_throw _ _ _); [apply handled_throw|]. destruct (negb _); [apply handled_here|]. destruct (readWireAdmitBlocks _ _ _) as [map| |map]; [|apply handled_here|by apply handled_same].
  destruct (still_open _ _ _); [apply handled_prepareWithAdmit|apply handled_here].
Qed.

Lemma handled_commitWithAdmit m rid pid sender map s : handled s (finishCommitWithAdmit h m rid pid sender map s).
Proof.
  unfold finishCommitWithAdmit. destruct (heap s !! pid) as [rd|]; [|apply handled_here]. destruct (negb _); [apply handled_here|].
  destruct (if unsigned m then _ else _) as [s'|] eqn:Hl; [|apply handled_throw]. apply handled_state.
  etrans; [apply b_checkCommit|]. rewrite b_modify. destruct (unsigned m); [injection Hl as <-; lia|]. rewrite (b_countLate _ _ _ _ _ _ Hl). lia.
Qed.

Lemma handled_commit now m s : handled s (handleCommit h now m s).
Proof.
  unfold handleCommit. destruct (round_door h now m s) as [s'|pid rd] eqn:Hd; [apply handled_state; by eapply door_b|].
  destruct (bad_pubkey _); [apply handled_throw|]. destruct (negb _); [apply handled_here|]. case_bool_decide; [apply handled_state, b_bufferCommit|].
  destruct (readWireAdmitBlocks _ _ _) as [map| |map]; [|apply handled_here|by apply handled_same].
  destruct (still_open _ _ _); [apply handled_commitWithAdmit|apply handled_here].
Qed.

(** ** The measure *)

Lemma waiting_app l l' : waiting_messages (l ++ l') = waiting_messages l + waiting_messages l'.
Proof. unfold waiting_messages. by rewrite filter_app, length_app. Qed.
Lemma calls_app l l' : calls (l ++ l') = calls l + calls l'.
Proof. unfold calls. rewrite fmap_app. induction (call_weight <$> l) as [|x k IH]; [done|]. cbn. lia. Qed.
Lemma waiting_cons j l : waiting_messages (j :: l) = (if is_message j then 1 else 0) + waiting_messages l.
Proof. unfold waiting_messages. rewrite filter_cons. by destruct (is_message j). Qed.
Lemma calls_cons j l : calls (j :: l) = call_weight j + calls l.
Proof. done. Qed.

Lemma waiting_replay arr : waiting_messages (JMessage <$> arr) = length arr ∧ calls (JMessage <$> arr) = 0.
Proof. induction arr as [|m arr [IH1 IH2]]; [done|]. rewrite fmap_cons, waiting_cons, calls_cons, IH1, IH2. done. Qed.

Definition held (js : list job) s : nat := waiting_messages js + b s.

(** Every call lowers the measure: it takes a message and leaves at most five
    calls, or puts it back, or is one call less. *)
Lemma exec_lowers now j rest s :
  let r := exec h now j s in let js' := more_of r.1 ++ rest in
  held js' r.2 ≤ held (j :: rest) s ∧
  ((held js' r.2 < held (j :: rest) s ∧ calls js' ≤ calls (j :: rest) + 5 ∧ waiting_messages js' ≤ waiting_messages (j :: rest)) ∨
   (calls js' ≤ calls (j :: rest) ∧ waiting_messages js' < waiting_messages (j :: rest)) ∨
   calls js' < calls (j :: rest)).
Proof.
  cbv zeta. unfold held. rewrite !waiting_app, !calls_app, waiting_cons, calls_cons.
  assert (Hmsg : ∀ m a, j = JMessage m → exec h now j s = a → handled s a →
    waiting_messages (more_of a.1) + waiting_messages rest + b a.2 ≤ (if is_message j then 1 else 0) + waiting_messages rest + b s ∧
    (waiting_messages (more_of a.1) + waiting_messages rest + b a.2 < (if is_message j then 1 else 0) + waiting_messages rest + b s ∧
     calls (more_of a.1) + calls rest ≤ call_weight j + calls rest + 5 ∧
     waiting_messages (more_of a.1) + waiting_messages rest ≤ (if is_message j then 1 else 0) + waiting_messages rest ∨
     calls (more_of a.1) + calls rest ≤ call_weight j + calls rest ∧
     waiting_messages (more_of a.1) + waiting_messages rest < (if is_message j then 1 else 0) + waiting_messages rest ∨
     calls (more_of a.1) + calls rest < call_weight j + calls rest)).
  { intros m a -> _ [(H1 & H2 & H3)|[H1 H2]]; cbn [is_message call_weight]; [rewrite H2|rewrite H2; cbn]; lia. }
  destruct j as [m|rid|rid|rid| |rid pid]; cbn [exec] in *.
  - eapply (Hmsg m); [done|done|]. unfold handleMessage. destruct (bad_requestId _); [apply handled_throw|]. destruct (m_type m); [apply handled_propose|apply handled_prepare|apply handled_commit].
  - clear Hmsg. unfold drainEarlyMessages. cbn [is_message call_weight]. destruct (m_get rid (earlyMessages s)) as [arr|] eqn:Hg; [|cbn; lia].
    pose proof (total_get_delete _ _ _ Hg) as Ht. destruct (match m_get rid (earlyMessageTtl s) with Some _ => _ | None => _ end); cbn [fst snd more_of].
    + pose proof (b_drop rid s). cbn. lia.
    + destruct (waiting_replay arr) as [-> ->]. rewrite !buffered_total. cbn [drop_early put_earlyMessageTtl put_earlyMessages earlyMessages earlyCommits]. lia.
  - clear Hmsg. unfold drainEarlyCommits. cbn [is_message call_weight]. destruct (earlyCommits s !! rid) as [arr|] eqn:Hg; [|cbn; lia].
    pose proof (total_map_delete _ _ _ Hg) as Ht. cbn [fst snd more_of]. destruct (waiting_replay arr) as [-> ->]. rewrite !buffered_total.
    cbn [put_earlyCommits earlyMessages earlyCommits]. lia.
  - clear Hmsg. destruct (consumed_advance now rid s) as (H1 & H2 & H3). rewrite H2. cbn [is_message call_weight]. lia.
  - cbn. lia.
  - cbn [fst snd more_of is_message call_weight]. assert (b (recheck h rid pid s) ≤ b s).
    { unfold recheck. destruct (heap s !! pid) as [rd|]; [|done]. destruct (a_commitSent rd); [apply b_checkCommit|done]. }
    cbn. lia.
Qed.

Lemma unwind_less js js' : unwind js = Some js' → waiting_messages js' ≤ waiting_messages js ∧ calls js' ≤ calls js.
Proof.
  induction js as [|j js IH]; [done|]. rewrite waiting_cons, calls_cons. destruct j; cbn [unwind]; try (intros (? & ?)%IH; lia). intros [= <-]. lia.
Qed.

(** [cap] bounds the messages held. *)
Definition measure (cap : nat) (js : list job) s : nat := (calls js + 6 * held js s) * (cap + 2) + waiting_messages js.

Lemma exec_measure now j rest s cap js' :
  held (j :: rest) s ≤ cap →
  let r := exec h now j s in
  waiting_messages js' ≤ waiting_messages (more_of r.1 ++ rest) → calls js' ≤ calls (more_of r.1 ++ rest) →
  held js' r.2 ≤ cap ∧ measure cap js' r.2 < measure cap (j :: rest) s.
Proof.
  intros Hcap. cbv zeta. pose proof (exec_lowers now j rest s) as (Hh & Hc). cbv zeta in *. intros Hw Hl.
  assert (Hheld : held js' (exec h now j s).2 ≤ held (more_of (exec h now j s).1 ++ rest) (exec h now j s).2) by (unfold held; lia).
  assert (Hwh : waiting_messages (more_of (exec h now j s).1 ++ rest) ≤ held (more_of (exec h now j s).1 ++ rest) (exec h now j s).2) by (unfold held; lia).
  split; [lia|]. unfold measure.
  set (N := held (j :: rest) s) in *. set (N' := held js' _) in *. set (D := calls (j :: rest)) in *. set (D' := calls js') in *.
  set (M := waiting_messages (j :: rest)) in *. set (M' := waiting_messages js') in *. destruct Hc as [(H1 & H2 & H3)|[(H1 & H2)|H1]].
  - assert (D' + 6 * N' + 1 ≤ D + 6 * N) by lia. assert (M' ≤ M) by lia. nia.
  - assert (D' + 6 * N' ≤ D + 6 * N) by lia. assert (M' < M) by lia. nia.
  - assert (D' + 6 * N' + 1 ≤ D + 6 * N) by lia. assert (M' ≤ cap) by lia. nia.
Qed.

Lemma measure_pos cap j rest s : 0 < measure cap (j :: rest) s.
Proof. unfold measure. rewrite waiting_cons, calls_cons. destruct j; cbn; lia. Qed.

Theorem jobs_end fuel now js s cap : held js s ≤ cap → measure cap js s ≤ fuel → is_Some (run_jobs fuel h now js s).
Proof.
  revert js s. induction fuel as [|fuel IH]; intros js s Hcap Hf; (destruct js as [|j js]; cbn [run_jobs]; [eauto|]).
  { pose proof (measure_pos cap j js s). lia. }
  pose proof (exec_measure now j js s cap) as He. cbv zeta in He. destruct (exec h now j s) as [[more|] s'] eqn:E; cbn [fst snd more_of] in He.
  - destruct (He (more ++ js) Hcap) as [H1 H2]; [done|done|]. apply IH; [done|lia].
  - destruct (unwind js) as [js'|] eqn:Hu; [|eauto]. destruct (unwind_less _ _ Hu). destruct (He js' Hcap) as [H1 H2]; [done|done|]. apply IH; [done|lia].
Qed.

Theorem settle_ends now a : is_Some (settle h now a).
Proof.
  destruct a as [[js|] s]; cbn [settle]; [|eauto]. apply (jobs_end _ _ _ _ (held js s)); [done|]. unfold measure, replay_bound, held. lia.
Qed.
End Buffered.
