(* ===== verification/AtLive.v ===== *)
(** * Attestation rounds: the PREPAREs of a quorum publish

    Once a hub's round has its winner, the PREPAREs of enough responsible members
    that sign the round's own bytes publish the response, whatever order they come
    in ([endorsements_publish]). *)

From S2P Require Import Prelude Ordered GateRegistry BigNum Quorum Json AttestWire OracleBand Admission AtState AtCanon AtRounds AtInv AtVotes AtSafety AtReplay.
Open Scope Z_scope.

Lemma live_core rid s s' : core s = core s' → live rid s = live rid s'.
Proof. unfold core, live. by intros [= -> -> _ _ _]. Qed.

Lemma at_live_modify rid pid rd f s : live rid s = Some (pid, rd) → live rid (modify pid f s) = Some (pid, f rd).
Proof.
  intros [Hp Hr]%at_live_lookup. unfold live. cbn. rewrite Hp. cbn. by rewrite lookup_alter_eq, Hr.
Qed.

Section Live.
Context (h : env).
Implicit Types (s : state) (rd : round).

(** ** The round, its messages and its publication *)

(** The bytes a round with a winner signs. *)
Definition settled_canonical rd : option string := w ← a_winner rd; round_canonical h rd w.1 (a_status rd) w.2.

(** An open round with its winner, at a quiescent point: nothing is buffered for it. *)
Record awaiting (rid : string) (pid : nat) rd s : Prop := {
  aw_live : live rid s = Some (pid, rd);
  aw_id : rid ≠ EmptyString;
  aw_winner : is_Some (a_winner rd);
  aw_open : a_finalized rd = false;
  aw_unpublished : rid ∉ finalized s;
  aw_early : m_get rid (earlyMessages s) = None;
  aw_commits : earlyCommits s !! rid = None }.

(** A PREPARE of a responsible member over the bytes of the round. *)
Record endorses (rid : string) rd (m : message) : Prop := {
  en_type : m_type m = ATTEST_PREPARE;
  en_id : toLowerCase (m_requestId m) = rid;
  en_member : toLowerCase (m_pubkey m) ∈ rs_responsible (a_rs rd);
  en_caps : envelopeWithinCaps h rd m = true;
  en_body : assertBodyWithinCap (m_body m) = true;
  en_texts : m_texts m = plain_texts;
  en_admit : ∃ map, readWireAdmitBlocks h (rs_block (a_rs rd)) (m_admit m) = AdmitOk map;
  en_signed : verify_over h (settled_canonical rd) (m_sig m) (toLowerCase (m_pubkey m)) = true }.

Definition published_as rd s : Prop :=
  ∃ f, Finalized f ∈ out s ∧ f_requestId f = a_rid rd ∧ f_status f = a_status rd ∧ a_winner rd = Some (f_body f, f_meta f).

(** The round after its publication. *)
Definition closed (rid : string) (pid : nat) s : Prop :=
  ∃ rd, live rid s = Some (pid, rd) ∧ a_finalized rd = true ∧ is_Some (a_winner rd) ∧
    m_get rid (earlyMessages s) = None ∧ earlyCommits s !! rid = None.

(** The same round, with at least the same votes. *)
Record grown rd rd' : Prop := {
  gr_vitals : (a_rid rd, a_rs rd, a_quorum rd, a_effectiveTime rd, a_admitBlocks rd, a_winner rd, a_status rd) =
              (a_rid rd', a_rs rd', a_quorum rd', a_effectiveTime rd', a_admitBlocks rd', a_winner rd', a_status rd');
  gr_prepares : a_prepares rd ⊆ a_prepares rd';
  gr_signatures : (a_signatures rd).*1 ⊆ (a_signatures rd').*1 }.

Definition both rd : Prop := needed rd ≤ Z.of_nat (length (a_prepares rd)) ∧ needed rd ≤ Z.of_nat (length (a_signatures rd)).

Definition holds_vote rd (pk : string) : Prop := pk ∈ a_prepares rd ∧ pk ∈ (a_signatures rd).*1.

Lemma grown_refl rd : grown rd rd.
Proof. done. Qed.

Lemma grown_trans rd1 rd2 rd3 : grown rd1 rd2 → grown rd2 rd3 → grown rd1 rd3.
Proof. intros [] []. constructor; [congruence|by etrans..]. Qed.

Lemma grown_vote rd rd' pk : grown rd rd' → holds_vote rd pk → holds_vote rd' pk.
Proof. intros [_ Hp Hs] []. split; auto. Qed.

Lemma grown_canonical rd rd' : grown rd rd' → settled_canonical rd' = settled_canonical rd.
Proof. intros [[= E1 E2 E3 E4 E5 E6 E7] _ _]. unfold settled_canonical, round_canonical. by rewrite E1, E2, E4, E5, E6, E7. Qed.

Lemma grown_needed rd rd' : grown rd rd' → needed rd' = needed rd.
Proof. intros [[= E1 E2 E3 E4 E5 E6 E7] _ _]. unfold needed. by rewrite E2, E3. Qed.

Lemma grown_endorses rid rd rd' m : grown rd rd' → endorses rid rd m → endorses rid rd' m.
Proof.
  intros Hg []. pose proof (grown_canonical _ _ Hg) as Hc. destruct Hg as [[= E1 E2 E3 E4 E5 E6 E7] _ _].
  constructor; rewrite <-?E2; try done; [|by rewrite Hc]. unfold envelopeWithinCaps, bodyB64Limit in *. by rewrite <-E2.
Qed.

Lemma grown_published rd rd' s : grown rd rd' → published_as rd' s → published_as rd s.
Proof.
  intros [[= E1 E2 E3 E4 E5 E6 E7] _ _] (f & ? & ? & ? & ?). exists f. by rewrite E1, E6, E7.
Qed.

(** ** The gates *)

Lemma settle_core rid pid rd s : live rid s = Some (pid, rd) → live rid (settleFinalizedRound h rid pid rd s) = Some (pid, set_a_timer false rd).
Proof.
  intros Hl. unfold settleFinalizedRound. apply at_live_modify. rewrite <-Hl. apply live_core.
  destruct (String.eqb _ _); [apply at_core_markFinalized|]. rewrite at_core_markTornDown.
  match goal with |- core (drop_early _ ?x) = _ => change (core x = core s) end. apply at_core_recordNonOk.
Qed.

Lemma settle_early rid pid rd s : m_get rid (earlyMessages s) = None → m_get rid (earlyMessages (settleFinalizedRound h rid pid rd s)) = None.
Proof.
  intros He. unfold settleFinalizedRound. match goal with |- context [modify pid _ ?x] => change (m_get rid (earlyMessages x) = None) end.
  destruct (String.eqb _ _).
  - by destruct (sb_markFinalized h rid s) as [-> _].
  - match goal with |- context [markTornDown h rid ?x] => destruct (sb_markTornDown h rid x) as [-> _] end.
    cbn [drop_early put_earlyMessageTtl put_earlyMessages earlyMessages]. apply m_get_none. rewrite m_delete_keys, list_elem_of_filter. tauto.
Qed.

Lemma commit_gate rid pid rd s :
  awaiting rid pid rd s →
  let s' := checkCommitQuorum h rid s in
  if Z.of_nat (length (a_signatures rd)) <? needed rd then s' = s else published_as rd s' ∧ closed rid pid s'.
Proof.
  intros [Hl _ [w Hw] Hf _ He Hc]. cbv zeta. unfold checkCommitQuorum. rewrite Hl, Hf. destruct (_ <? _); [done|].
  set (s1 := modify pid (set_a_finalized true) s). assert (Hl1 : live rid s1 = Some (pid, set_a_finalized true rd)) by by apply at_live_modify. split.
  - eexists. split; [left; reflexivity|]. cbn. rewrite Hw. by destruct w.
  - exists (set_a_timer false (set_a_finalized true rd)). split_and!; [|done|by exists w|by apply settle_early|apply lookup_delete_eq].
    match goal with |- live rid ?s' = _ => change (live rid s') with (live rid (settleFinalizedRound h rid pid rd s1)) end.
    pose proof (settle_core rid pid rd s1) as Hsc. unfold settleFinalizedRound in *. exact (settle_core rid pid _ s1 Hl1).
Qed.

Lemma awaiting_modify rid pid rd f s :
  is_Some (a_winner (f rd)) → a_finalized (f rd) = false → awaiting rid pid rd s → awaiting rid pid (f rd) (modify pid f s).
Proof. intros Hw Hf []. constructor; try done. by apply at_live_modify. Qed.

Lemma awaiting_broadcast rid pid rd e s : awaiting rid pid rd s → awaiting rid pid rd (broadcast h e s).
Proof. unfold broadcast. destruct (peers h); [|done]. by intros []. Qed.

(** What the PREPARE gate leaves: the response, or the round with its COMMIT out
    when enough have prepared. *)
Lemma prepare_gate rid pid rd s :
  awaiting rid pid rd s →
  let s' := checkPrepareQuorum h rid s in
  (published_as rd s' ∧ closed rid pid s') ∨
  ∃ rd', awaiting rid pid rd' s' ∧ grown rd rd' ∧ a_signatures rd' = a_signatures rd ∧
    (both rd' → a_commitSent rd' = true).
Proof.
  intros Hs. pose proof Hs as []. cbv zeta. unfold checkPrepareQuorum. rewrite aw_live0, aw_open0.
  rewrite bool_decide_false by (by destruct aw_winner0 as [? ->]). cbn [orb]. destruct (a_commitSent rd) eqn:Hcs; [right; exists rd; by split_and!|].
  destruct (_ <? _) eqn:Hn; [right; exists rd; split_and!; try done; intros [? _]; apply Z.ltb_lt in Hn; lia|].
  set (f := λ rd, add_own_commit (set_a_commitSent true rd)). set (s1 := broadcast _ _ _).
  assert (Hf : grown rd (f rd) ∧ a_signatures (f rd) = a_signatures rd ∧ a_commitSent (f rd) = true ∧ a_finalized (f rd) = false ∧ a_winner (f rd) = a_winner rd).
  { unfold f, add_own_commit. destruct rd; cbn in *. destruct a_myPubkey; cbn; by split_and!. }
  destruct Hf as (Hg & Hsig & Hsent & Hfin & Hwin).
  assert (Hs1 : awaiting rid pid (f rd) s1).
  { unfold s1. apply awaiting_broadcast, awaiting_modify; [by rewrite Hwin|done|done]. }
  clearbody s1. pose proof (commit_gate rid pid (f rd) s1 Hs1) as Hc. cbv zeta in Hc.
  destruct (Z.of_nat (length (a_signatures (f rd))) <? needed (f rd)).
  - rewrite Hc. right. exists (f rd). by split_and!.
  - left. destruct Hc as [Hp Hcl]. split; [by eapply grown_published|done].
Qed.

(** ** A PREPARE *)

(** A handler's last calls when nothing is buffered for the round. *)
Lemma drained_run fuel now rid pid s :
  (3 ≤ fuel)%nat → m_get rid (earlyMessages s) = None → earlyCommits s !! rid = None →
  run_jobs fuel h now [JDrainCommits rid; JDrain rid; JRecheck rid pid] s = Some (Returned (recheck h rid pid s)).
Proof.
  intros Hf He Hc. destruct fuel as [|[|[|fuel]]]; try lia. cbn [run_jobs exec]. unfold drainEarlyCommits. rewrite Hc. cbn [app run_jobs exec].
  unfold drainEarlyMessages. rewrite He. cbn [app run_jobs exec]. by destruct fuel.
Qed.

(** The vote is in, or the response is out. *)
Definition after_vote rid pid rd pk s : Prop :=
  (published_as rd s ∧ closed rid pid s) ∨ ∃ rd', awaiting rid pid rd' s ∧ grown rd rd' ∧ holds_vote rd' pk ∧ ¬ both rd'.

Definition counted (pk sig : string) rd : round := add_prepare pk (set_a_signatures (m_set pk sig (a_signatures rd)) rd).

Lemma counted_grown pk sig rd : grown rd (counted pk sig rd).
Proof. constructor; [by destruct rd| |]; cbn; intros x Hx; [apply elem_of_s_add|apply elem_of_m_set]; auto. Qed.

Lemma counted_vote pk sig rd : holds_vote (counted pk sig rd) pk.
Proof. split; cbn; [apply elem_of_s_add|apply elem_of_m_set]; auto. Qed.

Lemma recheck_after rid pid rd s :
  awaiting rid pid rd s → (both rd → a_commitSent rd = true) →
  (published_as rd (recheck h rid pid s) ∧ closed rid pid (recheck h rid pid s)) ∨ (awaiting rid pid rd (recheck h rid pid s) ∧ ¬ both rd).
Proof.
  intros Hs Hb. pose proof (commit_gate rid pid rd s Hs) as Hg. cbv zeta in Hg. unfold recheck.
  destruct (at_live_lookup _ _ _ _ (aw_live rid pid rd s Hs)) as [_ ->].
  destruct (a_commitSent rd); [|right; split; [done|]; intros Hbb; by specialize (Hb Hbb)].
  destruct (Z.of_nat (length (a_signatures rd)) <? needed rd) eqn:Hn; [|by left].
  rewrite Hg. right. split; [done|]. intros [_ ?]. apply Z.ltb_lt in Hn. lia.
Qed.

Lemma endorsed_prepare rid pid rd m now map s :
  awaiting rid pid rd s → endorses rid rd m →
  ∃ s', settle h now (handlePrepareWithAdmit h now m rid pid (toLowerCase (m_pubkey m)) map s) = Some (Returned s') ∧
        after_vote rid pid rd (toLowerCase (m_pubkey m)) s'.
Proof.
  intros Hs Hm. set (pk := toLowerCase (m_pubkey m)). destruct (at_live_lookup _ _ _ _ (aw_live rid pid rd s Hs)) as [Hp Hr].
  destruct (aw_winner rid pid rd s Hs) as [[body meta] Hw]. pose proof (en_signed rid rd m Hm) as Hsig. unfold settled_canonical in Hsig. rewrite Hw in Hsig. cbn in Hsig.
  assert (Hun : unsigned m = false).
  { unfold unsigned. rewrite (en_texts rid rd m Hm). cbn [bad_sig plain_texts negb andb]. destruct (round_canonical _ _ _ _ _); [|done]. cbn in Hsig. unfold verify in Hsig.
    destruct (String.eqb (m_sig m) ""); [done|]. destruct (String.eqb_spec (m_pubkey m) ""); [by subst; rewrite e in Hsig|done]. }
  unfold handlePrepareWithAdmit. rewrite Hr, (en_body rid rd m Hm). cbn [negb]. rewrite Hw, Hun. unfold countLatePrepare. rewrite Hw, (en_texts rid rd m Hm). cbn [bad_sig plain_texts].
  destruct (round_canonical h rd body (a_status rd) meta) as [c|]; [|done]. cbn [mbind option_bind fst snd verify_over] in *. fold pk in Hsig. rewrite Hsig.
  unfold finishPrepare.
  assert (Hs1 : awaiting rid pid (counted pk (m_sig m) rd) (modify pid (add_prepare pk) (modify pid (λ rd, set_a_signatures (m_set pk (m_sig m) (a_signatures rd)) rd) s))).
  { apply (awaiting_modify rid pid (set_a_signatures (m_set pk (m_sig m) (a_signatures rd)) rd) (add_prepare pk)); [by exists (body, meta)|apply Hs|].
    apply (awaiting_modify rid pid rd (λ rd, set_a_signatures (m_set pk (m_sig m) (a_signatures rd)) rd)); [by exists (body, meta)|apply Hs|done]. }
  pose proof (prepare_gate rid pid _ _ Hs1) as Hg. cbv zeta in Hg. set (s2 := checkPrepareQuorum _ _ _) in *. clearbody s2. clear Hs1.
  assert (Hjobs : ∀ r, heap s2 !! pid = Some r → is_Some (a_winner r) → m_get rid (earlyMessages s2) = None → earlyCommits s2 !! rid = None →
    settle h now (Go (if bool_decide (is_Some (a_winner r)) then [JDrainCommits rid; JDrain rid; JRecheck rid pid] else []), s2) =
    Some (Returned (recheck h rid pid s2))).
  { intros r _ Hwr He Hc. rewrite bool_decide_true by done. cbn [settle]. apply drained_run; [|done|done]. unfold replay_bound. cbn. lia. }
  destruct Hg as [[Hpub (r & Hl & Hf & Hwr & He & Hc)]|(r & Hr2 & Hg2 & Hsg & Hb)].
  - destruct (at_live_lookup _ _ _ _ Hl) as [_ Hh]. rewrite Hh. exists (recheck h rid pid s2). split; [by eapply Hjobs|]. left.
    assert (recheck h rid pid s2 = s2) as ->.
    { unfold recheck. rewrite Hh. destruct (a_commitSent r); [|done]. unfold checkCommitQuorum. by rewrite Hl, Hf. }
    split; [eapply grown_published; [apply counted_grown|done]|]. by exists r.
  - destruct (at_live_lookup _ _ _ _ (aw_live rid pid r s2 Hr2)) as [_ Hh]. rewrite Hh. exists (recheck h rid pid s2).
    split; [apply (Hjobs r Hh); apply Hr2|]. pose proof (grown_trans _ _ _ (counted_grown pk (m_sig m) rd) Hg2) as Hgr.
    destruct (recheck_after rid pid r s2 Hr2 Hb) as [[? ?]|[? ?]]; [left; split; [by eapply grown_published|done]|].
    right. exists r. split_and!; [done|done|eapply grown_vote; [exact Hg2|apply counted_vote]|done].
Qed.

(** ** Runs of PREPAREs *)

Lemma endorsed_step rid pid rd m now s :
  awaiting rid pid rd s → endorses rid rd m →
  ∃ s', step h now (EvMessage m) s = Some (Returned s') ∧ after_vote rid pid rd (toLowerCase (m_pubkey m)) s'.
Proof.
  intros Hs Hm. destruct (en_admit rid rd m Hm) as [map Hmap]. destruct (endorsed_prepare rid pid rd m now map s Hs Hm) as (s' & Hset & Ha).
  exists s'. split; [|done]. cbn [step]. rewrite <-Hset. unfold handleMessage. rewrite (en_texts rid rd m Hm), (en_type rid rd m Hm). cbn [bad_requestId plain_texts]. unfold handlePrepare, round_door.
  rewrite (en_id rid rd m Hm), (proj2 (String.eqb_neq rid "") (aw_id rid pid rd s Hs)), bool_decide_false by apply Hs.
  rewrite (aw_live rid pid rd s Hs). unfold is_responsible. rewrite (plain_caps _ _ _ (en_texts rid rd m Hm)), (en_texts rid rd m Hm). cbn [bad_pubkey plain_texts]. rewrite bool_decide_true by apply Hm. rewrite (en_caps rid rd m Hm), Hmap. cbn [negb orb].
  unfold still_open. rewrite (aw_live rid pid rd s Hs), bool_decide_true by done. by rewrite (aw_open rid pid rd s Hs).
Qed.

Lemma settle_here now s : settle h now (Go [], s) = Some (Returned s).
Proof. cbn [settle]. by destruct (replay_bound [] s). Qed.

(** A PREPARE for a published round changes nothing of it. *)
Lemma closed_step rid pid m now s :
  rid ≠ EmptyString → m_type m = ATTEST_PREPARE → m_texts m = plain_texts → toLowerCase (m_requestId m) = rid → closed rid pid s →
  ∃ s', step h now (EvMessage m) s = Some (Returned s') ∧ closed rid pid s' ∧ out s' = out s.
Proof.
  intros Hne Ht Htx Hid Hc. pose proof Hc as (rd & Hl & Hf & Hw & He & Hcm). cbn [step]. unfold handleMessage. rewrite Htx, Ht. cbn [bad_requestId plain_texts]. unfold handlePrepare, round_door.
  rewrite Hid, (proj2 (String.eqb_neq rid "") Hne).
  case_bool_decide; [rewrite settle_here; by exists s|]. rewrite Hl, (plain_caps _ _ _ Htx), Htx. cbn [bad_pubkey plain_texts].
  destruct (negb _); [rewrite settle_here; by exists s|]. destruct (negb _); [rewrite settle_here; by exists s|].
  destruct (readWireAdmitBlocks _ _ _) as [map| |map]; [|rewrite settle_here; by exists s|].
  - unfold still_open. rewrite Hl, Hf, andb_false_r, settle_here. by exists s.
  - rewrite settle_here. eexists. split; [reflexivity|]. split; [|done]. exists rd. by split_and!.
Qed.

Lemma closed_run rid pid rd ms s :
  rid ≠ EmptyString → Forall (λ nm : Z * message, endorses rid rd nm.2) ms → closed rid pid s →
  ∃ s', run h ((λ nm, (nm.1, EvMessage nm.2)) <$> ms) s = Some (Returned s') ∧ out s' = out s.
Proof.
  intros Hne Hms. revert s. induction Hms as [|[now m] ms Hm _ IH]; intros s Hc; [by exists s|].
  destruct (closed_step rid pid m now s Hne (en_type rid rd m Hm) (en_texts rid rd m Hm) (en_id rid rd m Hm) Hc) as (s1 & Hst & Hc1 & Ho).
  destruct (IH s1 Hc1) as (s' & Hrun & Ho'). exists s'. cbn [fmap list_fmap run fst snd]. rewrite Hst. split; [done|congruence].
Qed.

Lemma published_out rd s s' : out s' = out s → published_as rd s → published_as rd s'.
Proof. intros Ho (f & Hf & ?). exists f. by rewrite Ho. Qed.

Lemma votes_fit rd voters : NoDup voters → (∀ pk, pk ∈ voters → holds_vote rd pk) → needed rd ≤ Z.of_nat (length voters) → both rd.
Proof.
  intros Hnd Hv Hn.
  assert (length voters ≤ length (a_prepares rd))%nat by (apply submseteq_length, NoDup_submseteq; [done|]; intros pk Hpk; by apply Hv).
  assert (length voters ≤ length (a_signatures rd).*1)%nat as Hl by (apply submseteq_length, NoDup_submseteq; [done|]; intros pk Hpk; by apply Hv).
  rewrite length_fmap in Hl. split; lia.
Qed.

(** The PREPAREs of enough voters, with those whose vote is in already. *)
Theorem endorsements_publish rid pid rd voters ms s :
  awaiting rid pid rd s → Forall (λ nm : Z * message, endorses rid rd nm.2) ms → ms ≠ [] →
  NoDup voters → needed rd ≤ Z.of_nat (length voters) →
  (∀ pk, pk ∈ voters → holds_vote rd pk ∨ pk ∈ (λ nm : Z * message, toLowerCase (m_pubkey nm.2)) <$> ms) →
  ∃ s', run h ((λ nm, (nm.1, EvMessage nm.2)) <$> ms) s = Some (Returned s') ∧ published_as rd s'.
Proof.
  intros Hs Hms Hne Hnd Hn Hv. destruct ms as [|nm ms]; [done|]. clear Hne. revert nm rd s Hs Hms Hn Hv.
  induction ms as [|nm' ms IH]; intros [now m] rd s Hs [Hm Hms]%Forall_cons Hn Hv; cbn [fst snd] in Hm.
  all: destruct (endorsed_step rid pid rd m now s Hs Hm) as (s1 & Hst & [[Hp Hc]|(rd' & Hs1 & Hg & Hvote & Hnb)]).
  all: cbn [fmap list_fmap run fst snd]; rewrite Hst.
  - by exists s1.
  - destruct Hnb. apply (votes_fit rd' voters Hnd); [|by rewrite (grown_needed _ _ Hg)]. intros pk Hpk.
    destruct (Hv pk Hpk) as [?|[->|[]%not_elem_of_nil]%elem_of_cons]; [by eapply grown_vote|done].
  - destruct (closed_run rid pid rd (nm' :: ms) s1 (aw_id rid pid rd s Hs) Hms Hc) as (s' & Hrun & Ho). exists s'. split; [done|by eapply published_out].
  - destruct (IH nm' rd' s1) as (s' & Hrun & Hp); [done| | | |].
    + eapply Forall_impl; [exact Hms|]. intros x Hx. by eapply grown_endorses.
    + by rewrite (grown_needed _ _ Hg).
    + intros pk Hpk. destruct (Hv pk Hpk) as [?|[->|?]%elem_of_cons]; [left; by eapply grown_vote|by left|by right].
    + exists s'. split; [done|by eapply grown_published].
Qed.
End Live.
