(* ===== verification/AtCalm.v ===== *)
(** * Attestation rounds: what keeps a hub up

    A handler throws only when it cannot build a canonical. Rounds, suspended
    handlers and buffered messages keep every stamp printable and every map
    spelled ([calm]), unless a message carries a decimal text too long for a
    number to print: without one, no throw leaves a listener ([calm_run]). *)

From stdpp Require Import pretty.
From S2P Require Import Prelude Ordered GateRegistry BigNum Quorum Json AttestWire OracleBand Admission AdmissionProps AtState AtCanon AtRounds AtInv AtVotes AtSafety AtReplay.
Open Scope Z_scope.

Section Calm.
Context (h : env).
Implicit Types (s : state) (rd : round).

(** ** Stamps and maps a canonical can be built from *)

Definition stampable (block : Z) (effective : option Z) : Prop :=
  isMirrorEra h block = bool_decide (is_Some effective) ∧ ∀ z, effective = Some z → plain_number z = true.

Definition map_ok (map : option (gmap string Z)) : Prop := ∀ m, map = Some m → ∃ t, encodeAdmitBlocks (admit_json m) = Ok t.

Lemma canonical_built rid provider hash status meta block effective map :
  stampable block effective → map_ok map → is_Some (canonicalOfHash h rid provider hash status meta block effective map).
Proof.
  intros [He Hz] Hm. unfold canonicalOfHash. rewrite He. rewrite Bool.eqb_reflx. cbn [negb]. unfold buildResponseCanonicalRaw.
  assert (∃ f, admissionCanonicalField (producer h) (Some (network h)) (Some (JInt block)) (admit_json <$> map) = Ok f) as [f Hf].
  { unfold admissionCanonicalField, admissionCanonicalValue. destruct (negb _); [by eexists|]. destruct map as [m|]; cbn [fmap option_fmap option_map]; [|by eexists].
    destruct (Hm m eq_refl) as [t ->]. cbn. by eexists. }
  rewrite Hf. destruct effective as [z|]; [rewrite (Hz z eq_refl)|]; by eexists.
Qed.

Lemma map_ok_none : map_ok None.
Proof. done. Qed.

(** The time of an event, in milliseconds: any clock reads far less. *)
Definition clock_ok (now : Z) : Prop := 0 ≤ now < 10 ^ 20.

(** A message whose texts are texts, without an oversized stamp. *)
Definition tame (m : message) : Prop :=
  m_texts m = plain_texts ∧ ∀ d, m_effective m = Some (JStr d) → CANONICAL_HEIGHT_RE d = true → read_digits 0 d < PLAIN_LIMIT.

Definition job_tame (j : job) : Prop := match j with JMessage m => tame m | _ => True end.

Lemma forward_bounds f : forwardSeconds h = Some f → 0 ≤ f ≤ MAX_SAFE_INTEGER.
Proof.
  unfold forwardSeconds, resolveAttestResponseForwardS. destruct (forwardOverride h) as [raw|]; [|intros [= <-]; vm_compute; split; discriminate].
  destruct (String.eqb (trim raw) ""); [intros [= <-]; vm_compute; split; discriminate|]. destruct (String.eqb _ _); [|intros [= <-]; vm_compute; split; discriminate].
  destruct (isNonNegativeIntegerSpelling raw) eqn:Hs; [|done]. intros [= <-]. unfold isNonNegativeIntegerSpelling in Hs.
  destruct (negb (all_chars is_digit (trim raw)) || _) eqn:Hd; [done|]. apply orb_false_iff in Hd as [Hd%negb_false_iff _].
  pose proof (read_digits_bounds (trim raw) 0 Hd ltac:(lia)). unfold safe in Hs. lia.
Qed.

Lemma chosen_plain now z : clock_ok now → chooseEffectiveTime h now = Some z → plain_number z = true.
Proof.
  unfold clock_ok, chooseEffectiveTime. intros Hn. destruct (forwardSeconds h) as [f|] eqn:Hf; [|done]. intros [= <-].
  pose proof (forward_bounds f Hf) as Hb. assert (0 ≤ nowSeconds now ≤ now) by (unfold nowSeconds; split; [apply Z.div_pos|apply Z.div_le_upper_bound]; lia).
  assert (MAX_SAFE_INTEGER < 10 ^ 19) by (vm_compute; reflexivity). assert (10 ^ 20 + 10 ^ 19 < PLAIN_LIMIT) by (vm_compute; reflexivity).
  unfold plain_number. apply andb_true_iff. split; [apply Z.leb_le|apply Z.ltb_lt]; lia.
Qed.

Lemma wire_stampable era block m st :
  era = isMirrorEra h block → tame m → readWireEffectiveTime era (m_effective m) = st → st ≠ BadStamp → stampable block (stamp_value st).
Proof.
  intros -> Hm <- Hb. unfold stampable. unfold readWireEffectiveTime in *. destruct (isMirrorEra h block); cbn [negb] in *; [|by split].
  destruct (m_effective m) as [v|] eqn:Hv; [|done]. destruct v as [| |mm e|d| |]; try done; cbn [isCanonicalIntSpelling spelled_value] in *.
  - destruct (num_int mm e) as [z|]; [|done]. destruct (plain_number z) eqn:Hp; [|done]. cbn. split; [done|]. by intros ? [= <-].
  - destruct (CANONICAL_HEIGHT_RE d) eqn:Hd; [|done]. cbn. split; [done|]. intros ? [= <-]. destruct (height_canonical_text d Hd) as [_ ?].
    pose proof (proj2 Hm d Hv Hd) as Hlt. unfold plain_number. apply andb_true_iff. split; [by apply Z.leb_le|by apply Z.ltb_lt].
Qed.

Lemma wire_map block raw map : readWireAdmitBlocks h block raw = AdmitBound map → map_ok (Some map).
Proof.
  unfold readWireAdmitBlocks. destruct (negb _); [done|]. destruct (negb _); [done|]. destruct raw as [[]|]; try done.
  destruct (decodeAdmitBlocks _) as [m|] eqn:Hd; [|done]. intros [= <-] ? [= <-]. by eapply ex_intro, decode_encode.
Qed.

(** ** The invariant *)

Record calm_round rd : Prop := {
  cr_era : a_mirrorEra rd = isMirrorEra h (rs_block (a_rs rd));
  cr_forward : isMirrorEra h (rs_block (a_rs rd)) = true → is_Some (forwardSeconds h);
  cr_time : stampable (rs_block (a_rs rd)) (a_effectiveTime rd);
  cr_map : map_ok (a_admitBlocks rd);
  cr_proposals : ∀ k p, (k, p) ∈ a_proposals rd → stampable (rs_block (a_rs rd)) (p_effectiveTime p) ∧ map_ok (p_admitBlocks p) }.

Definition fields_calm (rs : roundState) (my : ownFields) : Prop :=
  my_mirrorEra my = isMirrorEra h (rs_block rs) ∧ (isMirrorEra h (rs_block rs) = true → is_Some (forwardSeconds h)) ∧
  stampable (rs_block rs) (my_effective my).

Definition kont_calm s (κ : kont) : Prop :=
  match κ with
  | KTip _ rs my => fields_calm rs my
  | KPropose m _ pid _ e map => tame m ∧ ∃ rd, heap s !! pid = Some rd ∧ stampable (rs_block (a_rs rd)) e ∧ map_ok (Some map)
  | KPrepare m _ _ _ map => tame m ∧ map_ok (Some map)
  | KCommit m _ _ _ _ => tame m
  | KAgree _ _ _ => True
  end.

Record calm s : Prop := {
  cm_rounds : ∀ pid rd, heap s !! pid = Some rd → calm_round rd;
  cm_fresh : ∀ pid, (next s ≤ pid)%nat → heap s !! pid = None;
  cm_konts : ∀ k κ, konts s !! k = Some κ → kont_calm s κ;
  cm_early : ∀ rid arr m, (rid, arr) ∈ earlyMessages s → m ∈ arr → tame m;
  cm_commits : ∀ rid arr m, earlyCommits s !! rid = Some arr → m ∈ arr → tame m }.

(** A stretch of code that neither throws nor breaks the invariant. *)
Definition calmly (a : act) : Prop := calm a.2 ∧ ∃ js, a.1 = Go js ∧ Forall job_tame js.

Lemma calm_initial : calm initial.
Proof. constructor; cbn; try (intros; by simplify_map_eq). intros ??? []%not_elem_of_nil. Qed.

Lemma calm_kin s s' :
  (heap s, next s, konts s, earlyMessages s, earlyCommits s) = (heap s', next s', konts s', earlyMessages s', earlyCommits s') → calm s → calm s'.
Proof.
  intros [= Eh En Ek Ee Ec] [C1 C2 C3 C4 C5]. constructor; rewrite <-?Eh, <-?En, <-?Ek, <-?Ee, <-?Ec; try done.
  intros k κ Hk. specialize (C3 k κ Hk). destruct κ; cbn in *; rewrite <-?Eh; done.
Qed.

Lemma calm_ext s s' : core s' = core s → same_buffers s s' → calm s → calm s'.
Proof. unfold core. intros [= Ep Eh En Ek Eo] [E1 E2]. apply calm_kin. by rewrite Eh, En, Ek, E1, E2. Qed.

Lemma calm_here s : calm s → calmly (Go [], s).
Proof. intros Hs. split; [done|]. exists []. by split. Qed.

Lemma calm_modify pid f s :
  (∀ rd, heap s !! pid = Some rd → calm_round rd → calm_round (f rd) ∧ a_rs (f rd) = a_rs rd) → calm s → calm (modify pid f s).
Proof.
  intros Hf [C1 C2 C3 C4 C5]. constructor; try done; cbn.
  - intros pid' rd'. destruct (decide (pid = pid')) as [<-|Hne]; [|rewrite lookup_alter_ne by done; apply C1].
    rewrite lookup_alter_eq. intros (rd & Hrd & ->)%fmap_Some. apply (Hf rd Hrd). by eapply C1.
  - intros pid' Hle. rewrite lookup_alter_None. by apply C2.
  - intros k κ Hk. specialize (C3 k κ Hk). destruct κ as [| |m rid pid' sender e map| |]; cbn in *; try done.
    destruct C3 as (Hta & rd & Hr & Hst & Hm). split; [done|]. destruct (decide (pid = pid')) as [<-|Hne].
    + exists (f rd). rewrite lookup_alter_eq, Hr. destruct (Hf rd Hr (C1 _ _ Hr)) as [_ ->]. done.
    + exists rd. by rewrite lookup_alter_ne.
Qed.

Lemma calm_set pid rd rd' s : heap s !! pid = Some rd → calm_round rd' → a_rs rd' = a_rs rd → calm s → calm (modify pid (λ _, rd') s).
Proof. intros Hr Hc E. apply calm_modify. intros rd0 Hr0 _. split; [done|]. assert (rd0 = rd) as -> by congruence. done. Qed.

(** What [calm_round] reads of a round. *)
Definition stamps rd := (a_rs rd, a_mirrorEra rd, a_effectiveTime rd, a_admitBlocks rd, a_proposals rd).

Lemma calm_round_ext rd rd' : stamps rd' = stamps rd → calm_round rd → calm_round rd'.
Proof. unfold stamps. intros [= E1 E2 E3 E4 E5] []. constructor; rewrite ?E1, ?E2, ?E3, ?E4, ?E5; done. Qed.

Lemma calm_flags pid f s : (∀ rd, stamps (f rd) = stamps rd) → calm s → calm (modify pid f s).
Proof.
  intros Hf. apply calm_modify. intros rd _ Hc. split; [by apply (calm_round_ext rd)|]. specialize (Hf rd). unfold stamps in Hf. congruence.
Qed.

Lemma calm_suspend κ s : kont_calm s κ → calm s → calm (suspend κ s).
Proof.
  intros Hκ [C1 C2 C3 C4 C5]. constructor; try done; cbn.
  - intros pid Hle. apply C2. lia.
  - intros k κ' [[_ <-]|[_ Hk]]%lookup_insert_Some; [by destruct κ|]. specialize (C3 _ _ Hk). by destruct κ'.
Qed.

Lemma calm_broadcast e s : calm s → calm (broadcast h e s).
Proof. unfold broadcast. destruct (peers h); [|done]. by apply calm_kin. Qed.

(** ** Buffers *)

Lemma elem_m_delete (k : string) (l : list (string * list message)) x : x ∈ m_delete k l → x ∈ l.
Proof. unfold m_delete. by intros [_ ?]%list_elem_of_filter. Qed.

Lemma calm_drop rid s : calm s → calm (drop_early rid s).
Proof.
  intros [C1 C2 C3 C4 C5]. constructor; try done. cbn. intros rid' arr m Hin%elem_m_delete. by apply (C4 rid').
Qed.

Lemma calm_prune now s : calm s → calm (pruneEarlyMessages now s).
Proof.
  unfold pruneEarlyMessages. generalize (earlyMessageTtl s) as l. intros l. revert s. induction l as [|kv l IH]; intros s Hs; [done|].
  cbn [fold_left]. apply IH. destruct (kv.2 <=? now); [by apply calm_drop|done].
Qed.

Lemma calm_buffer now rid m s : tame m → calm s → calm (bufferEarlyMessage h now rid m s).
Proof.
  intros Hm Hs. unfold bufferEarlyMessage. destruct (bool_decide _); [done|]. pose proof (calm_prune now s Hs) as Hp. revert Hp.
  generalize (pruneEarlyMessages now s). clear s Hs. intros s Hs. destruct (_ <? _); [done|].
  assert (Hset : ∀ s0 arr, calm s0 → (∀ x, x ∈ arr → tame x) → calm (put_earlyMessages (m_set rid arr (earlyMessages s0)) s0)).
  { intros s0 arr [C1 C2 C3 C4 C5] Harr. constructor; try done. cbn. intros rid' arr' x [[= -> ->]|Hin]%elem_of_m_set_pair Hx; [by apply Harr|by eapply C4]. }
  destruct (m_get rid (earlyMessages s)) as [arr|] eqn:Hg.
  - destruct (_ <=? _)%nat; [done|]. apply (calm_kin (put_earlyMessages (m_set rid (arr ++ [m]) (earlyMessages s)) s)); [done|]. apply Hset; [done|].
    intros x [Hx|Hx]%elem_of_app; [by apply (cm_early s Hs rid arr); [apply m_get_in|]|by apply list_elem_of_singleton in Hx as ->].
  - set (s1 := if (_ <=? _)%nat then _ else s). assert (Hs1 : calm s1).
    { unfold s1. destruct (_ <=? _)%nat; [|done]. destruct (earlyMessages s) as [|[]]; [done|by apply calm_drop]. }
    clearbody s1. assert (Hs2 : calm (put_earlyMessages (m_set rid [] (earlyMessages s1)) s1)) by (apply Hset; [done|intros ? []%not_elem_of_nil]).
    destruct (_ <=? _)%nat; [done|]. set (s2 := put_earlyMessages (m_set rid [] (earlyMessages s1)) s1) in *.
    apply (calm_kin (put_earlyMessages (m_set rid [m] (earlyMessages s2)) s2)); [done|]. apply Hset; [done|]. by intros x ->%list_elem_of_singleton.
Qed.

Lemma calm_bufferCommit rid m s : tame m → calm s → calm (bufferEarlyCommit h rid m s).
Proof.
  intros Hm Hs. unfold bufferEarlyCommit. destruct (_ <? _); [done|]. destruct (_ <=? _)%nat; [done|].
  destruct Hs as [C1 C2 C3 C4 C5]. constructor; try done. cbn. intros rid' arr x [[<- <-]|[_ Hl]]%lookup_insert_Some Hx; [|by eapply C5].
  apply elem_of_app in Hx as [Hx|Hx]; [|by apply list_elem_of_singleton in Hx as ->]. destruct (earlyCommits s !! rid) as [arr|] eqn:Hl; [by eapply C5|].
  by apply not_elem_of_nil in Hx.
Qed.

Lemma jobs_short arr : (∀ m, m ∈ arr → tame m) → Forall job_tame (JMessage <$> arr).
Proof. intros Ha. apply Forall_fmap, Forall_forall. exact Ha. Qed.

Lemma calm_drain now rid s : calm s → calmly (drainEarlyMessages now rid s).
Proof.
  intros Hs. unfold drainEarlyMessages. destruct (m_get rid (earlyMessages s)) as [arr|] eqn:Hg; [|by apply calm_here].
  split; [by apply calm_drop|]. eexists. split; [reflexivity|]. destruct (match m_get rid (earlyMessageTtl s) with Some _ => _ | None => _ end); [done|].
  apply jobs_short. intros m Hm. by eapply cm_early; [|apply m_get_in|].
Qed.

Lemma calm_drainCommits rid s : calm s → calmly (drainEarlyCommits rid s).
Proof.
  intros Hs. unfold drainEarlyCommits. destruct (earlyCommits s !! rid) as [arr|] eqn:Hg; [|by apply calm_here].
  split.
  - destruct Hs as [C1 C2 C3 C4 C5]. constructor; try done. cbn. intros rid' arr' m [_ Hl]%lookup_delete_Some. by eapply C5.
  - eexists. split; [reflexivity|]. apply jobs_short. intros m Hm. by eapply cm_commits.
Qed.

(** ** The gates *)

Lemma calm_delCommits rid s : calm s → calm (put_earlyCommits (delete rid (earlyCommits s)) s).
Proof.
  intros [C1 C2 C3 C4 C5]. constructor; try done. cbn. intros rid' arr m [_ Hl]%lookup_delete_Some. by eapply C5.
Qed.

Lemma calm_tornDown rid s : calm s → calm (markTornDown h rid s).
Proof. apply calm_ext; [apply at_core_markTornDown|apply sb_markTornDown]. Qed.

Lemma calm_settle rid pid rd s : calm s → calm (settleFinalizedRound h rid pid rd s).
Proof.
  intros Hs. unfold settleFinalizedRound. apply calm_flags; [done|]. destruct (String.eqb _ _).
  - revert Hs. apply calm_ext; [apply at_core_markFinalized|apply sb_markFinalized].
  - apply calm_tornDown, calm_drop. revert Hs. apply calm_ext; [apply at_core_recordNonOk|apply sb_recordNonOk].
Qed.

Lemma calm_checkCommit rid s : calm s → calm (checkCommitQuorum h rid s).
Proof.
  intros Hs. unfold checkCommitQuorum. destruct (live rid s) as [[pid rd]|]; [|done]. destruct (a_finalized rd); [done|].
  destruct (_ <? _); [done|]. cbv zeta.
  match goal with |- calm (put_evictions _ (put_earlyCommits _ (emit _ ?s1))) => apply (calm_kin (put_earlyCommits (delete rid (earlyCommits s1)) s1)); [done|] end.
  apply calm_delCommits, calm_settle. by apply calm_flags.
Qed.

Lemma calm_checkPrepare rid s : calm s → calm (checkPrepareQuorum h rid s).
Proof.
  intros Hs. unfold checkPrepareQuorum. destruct (live rid s) as [[pid rd]|]; [|done]. destruct (_ || a_commitSent rd); [done|].
  destruct (_ <? _); [done|]. apply calm_checkCommit, calm_broadcast, calm_flags; [|done].
  intros r. unfold add_own_commit. by destruct (a_myPubkey (set_a_commitSent true r)).
Qed.

Lemma live_round rid s pid rd : live rid s = Some (pid, rd) → calm s → heap s !! pid = Some rd ∧ calm_round rd.
Proof. intros [_ Hr]%at_live_lookup Hs. split; [done|by eapply cm_rounds]. Qed.

(** ** Advancing *)

Lemma calm_agreed rid pid s : calm s → calmly (broadcastAgreedPrepare h rid pid s).
Proof.
  intros Hs. unfold broadcastAgreedPrepare. destruct (heap s !! pid) as [rd|]; [|by apply calm_here]. split.
  - cbn [snd]. apply calm_checkPrepare, calm_flags; [intros r; by destruct (a_myPubkey r)|]. by apply calm_broadcast.
  - eexists. split; [reflexivity|]. by repeat constructor.
Qed.

Lemma canonical_of_round rd body status meta : calm_round rd → is_Some (round_canonical h rd body status meta).
Proof. intros []. by apply canonical_built. Qed.

Lemma leader_stamps rd p : leaderProposal rd = Some p → ∃ k, (k, p) ∈ a_proposals rd.
Proof. unfold leaderProposal. destruct (leader_key rd) as [l|]; [|done]. cbn. intros ?%m_get_in. by exists l. Qed.

Lemma calm_settleTime now status rd : clock_ok now → calm_round rd → calm_round (settleWinnerEffectiveTime h now status rd).
Proof.
  intros Hn Hc. pose proof Hc as [Ce Cf Ct Cm Cp]. unfold settleWinnerEffectiveTime, resolveRoundEffectiveTime. destruct (a_mirrorEra rd) eqn:Em; [|done]. cbn [negb].
  symmetry in Ce. assert (Hst : ∀ z, plain_number z = true → calm_round (set_a_effectiveTime (Some z) rd)).
  { intros z Hz. constructor; try done; [by cbn; rewrite Em|]. split; [done|]. by intros ? [= <-]. }
  destruct (_ && _).
  - destruct (Cf Ce) as [f Hf]. destruct (chooseEffectiveTime h now) as [z|] eqn:Hz; [|unfold chooseEffectiveTime in Hz; by rewrite Hf in Hz].
    apply Hst. by eapply chosen_plain.
  - destruct (leaderProposal rd) as [p|] eqn:Hp; [|done]. cbn [mbind option_bind]. destruct (p_effectiveTime p) as [z|] eqn:Hz; [|done].
    destruct (leader_stamps _ _ Hp) as [k Hk]. destruct (Cp k p Hk) as [[_ Hpl] _]. apply Hst. by apply Hpl.
Qed.

Lemma calm_settleMap rd : calm_round rd → calm_round (settleWinnerAdmitMap rd).
Proof.
  intros Hc. pose proof Hc as [Ce Cf Ct Cm Cp]. unfold settleWinnerAdmitMap. destruct (a_admitBlocks rd); [|done].
  destruct (leaderProposal rd) as [p|] eqn:Hp; [|done]. cbn [mbind option_bind]. destruct (p_admitBlocks p) as [mm|] eqn:Hm; [|done].
  destruct (leader_stamps _ _ Hp) as [k Hk]. destruct (Cp k p Hk) as [_ Hmap]. rewrite Hm in Hmap. by constructor.
Qed.

Lemma calm_settle_round now body meta status rd : clock_ok now → calm_round rd → calm_round (settle_round h now body meta status rd).
Proof. intros Hn Hc. apply calm_settleMap, calm_settleTime; [done|]. by apply (calm_round_ext rd). Qed.

Lemma sign_winner_stamps sig rd : stamps (sign_winner sig rd) = stamps rd.
Proof. unfold sign_winner. by destruct (a_myPubkey rd), sig. Qed.

Lemma transferable_stamps c rd : stamps (transferable h c rd) = stamps rd.
Proof.
  unfold transferable. generalize (a_proposals rd) as l. intros l. revert rd. induction l as [|kp l IH]; intros rd; [done|]. cbn [fold_left]. rewrite IH.
  by destruct (verify_over _ _ _ _).
Qed.

Lemma collected_stamps c body meta rd : stamps (collectWinnerSignatures h c body meta rd).1 = stamps rd.
Proof.
  unfold collectWinnerSignatures. generalize (a_proposals rd) as l, (@nil effect) as es. intros l. revert rd.
  induction l as [|[k p] l IH]; intros rd es; [done|]. cbn [fold_left collect_one]. destruct (_ && verify _ _ _ _); [by rewrite IH|]. destruct (_ && _); by rewrite IH.
Qed.

Lemma resign_stamps body meta rd : stamps (resignMirrorWinner h body meta (resignJudgeWinner h body meta rd)) = stamps rd.
Proof.
  assert (Hj : stamps (resignJudgeWinner h body meta rd) = stamps rd) by (unfold resignJudgeWinner; destruct (judgeReSignEligible rd); [apply sign_winner_stamps|done]).
  rewrite <-Hj. unfold resignMirrorWinner. destruct (_ || _); [apply sign_winner_stamps|done].
Qed.

Lemma stamps_rs rd rd' : stamps rd' = stamps rd → a_rs rd' = a_rs rd.
Proof. unfold stamps. congruence. Qed.

Lemma calm_replace pid rd rd1 rd' s :
  heap s !! pid = Some rd → calm_round rd1 → a_rs rd1 = a_rs rd → stamps rd' = stamps rd1 → calm s → calm (modify pid (λ _, rd') s).
Proof. intros Hr Hc E Hst. apply (calm_set pid rd); [done|by apply (calm_round_ext rd1)|]. by rewrite (stamps_rs _ _ Hst). Qed.

Lemma calm_establish now rid status s : clock_ok now → calm s → calmly (establishNonOkWinner h now rid status s).
Proof.
  intros Hn Hs. unfold establishNonOkWinner. destruct (live rid s) as [[pid rd]|] eqn:Hl; [|by apply calm_here].
  destruct (_ || _); [by apply calm_here|]. destruct (live_round _ _ _ _ Hl Hs) as [Hr Hc]. cbv zeta.
  set (rd1 := settle_round h now EmptyString EmptyString status rd). assert (Hc1 : calm_round rd1) by by apply calm_settle_round.
  destruct (settle_fields h now EmptyString EmptyString status rd) as (_ & E2 & _). fold rd1 in E2.
  destruct (canonical_of_round rd1 EmptyString status EmptyString Hc1) as [c ->]. apply calm_agreed.
  apply (calm_replace pid rd rd1); try done. destruct (a_myPubkey _); [|apply transferable_stamps]. destruct (_ && _); [|apply transferable_stamps].
  rewrite sign_winner_stamps. apply transferable_stamps.
Qed.

Lemma calm_advance now rid s : clock_ok now → calm s → calmly (maybeAdvanceFromProposals h now rid s).
Proof.
  intros Hn Hs. unfold maybeAdvanceFromProposals. destruct (live rid s) as [[pid rd]|] eqn:Hl; [|by apply calm_here].
  destruct (_ || a_agreeing rd); [by apply calm_here|]. destruct (_ <? _); [by apply calm_here|]. destruct (_ || _); [by apply calm_here|].
  destruct (okProposals rd); [by apply calm_establish|]. destruct (getModule h _) as [md|]; [|by apply calm_here].
  destruct (awaitsJudgeLeader rd); [by apply calm_here|]. apply calm_here, calm_suspend; [done|]. by apply calm_flags.
Qed.

Lemma calm_emits es s : calm s → calm (fold_left (λ s e, emit e s) es s).
Proof. revert s. induction es as [|e es IH]; intros s Hs; [done|]. cbn [fold_left]. apply IH. by apply (calm_kin s). Qed.

Lemma calm_resumeAgree now rid pid answer s : clock_ok now → calm s → calmly (resumeAgree h now rid pid answer s).
Proof.
  intros Hn Hs0. unfold resumeAgree. set (s1 := modify pid (set_a_agreeing false) s). assert (Hs : calm s1) by by apply calm_flags.
  destruct (heap s1 !! pid) as [rd|] eqn:Hr; [|by apply calm_here]. destruct (_ || _); [by apply calm_here|].
  destruct answer as [[body meta]|]; [|by apply calm_establish]. cbv zeta.
  set (rd1 := settle_round h now body meta "ok" rd). assert (Hc1 : calm_round rd1) by (apply calm_settle_round; [done|by eapply cm_rounds]).
  destruct (settle_fields h now body meta "ok" rd) as (_ & E2 & _). fold rd1 in E2.
  destruct (canonical_of_round rd1 body "ok" meta Hc1) as [c ->]. pose proof (collected_stamps c body meta rd1) as Hcol.
  destruct (collectWinnerSignatures h c body meta rd1) as [rd2 es]. cbn [fst] in Hcol. apply calm_agreed, calm_emits.
  apply (calm_replace pid rd rd1); try done. by rewrite resign_stamps.
Qed.

(** ** Opening a round *)

Lemma calm_insert rd s s' :
  heap s' = <[next s := rd]> (heap s) → next s' = S (next s) → konts s' = konts s → same_buffers s s' → calm_round rd → calm s → calm s'.
Proof.
  intros Eh En Ek [E1 E2] Hc [C1 C2 C3 C4 C5]. constructor; rewrite ?E1, ?E2; try done.
  - intros pid r. rewrite Eh. intros [[_ <-]|[_ Hr]]%lookup_insert_Some; [done|by eapply C1].
  - intros pid. rewrite En, Eh. intros Hle. rewrite lookup_insert_ne by lia. apply C2. lia.
  - intros k κ. rewrite Ek. intros Hk. specialize (C3 k κ Hk). destruct κ as [| |m rid pid sender e map| |]; cbn in *; try done.
    destruct C3 as (Hta & r & Hr & ?). split; [done|]. exists r. split; [|done]. rewrite Eh, lookup_insert_ne; [done|]. intros <-. by rewrite C2 in Hr by lia.
Qed.

Lemma calm_openRound rid rs my map s : fields_calm rs my → map_ok map → calm s → calmly (openRound h rid rs my map s).
Proof.
  intros (He & Hf & Ht) Hm Hs. unfold openRound. set (over := negb _). set (s1 := if over then _ else s).
  assert (Hs1 : calm s1) by (unfold s1; destruct over; [by apply (calm_kin s)|done]). clearbody s1.
  assert (Hb : calm_round (buildPendingRound rid rs my map)) by (constructor; try done; intros ?? []%not_elem_of_nil).
  set (opened := match my_pubkey my with Some _ => _ | None => _ end).
  assert (calm_round opened.1 ∧ calm opened.2) as [Hok Hs2].
  { unfold opened. destruct (my_pubkey my) as [me|]; [|done]. destruct (signCanonical _ _ _ _ _ _ _ _ _); [|done].
    destruct over; [done|]. cbn [fst snd]. split; [|revert Hs1; apply calm_ext; [apply at_core_recordProposer|apply sb_recordProposer]].
    destruct Hb. constructor; try done. cbn. by intros k p [= -> ->]%list_elem_of_singleton. }
  destruct opened as [rd s2]. cbn [fst snd] in *. cbn [new_round]. split.
  - cbn [snd]. set (s3 := put_pending _ _). assert (Hs3 : calm s3).
    { eapply (calm_insert (set_a_timer true rd) s2); try done. by apply (calm_round_ext rd). }
    clearbody s3. destruct over; [done|]. by apply calm_broadcast.
  - eexists. split; [reflexivity|]. by repeat constructor.
Qed.

(** The proposals and the agreements run under a promise: what they leave is calm,
    whether they throw or not. *)
Definition kept (a : act) : Prop := calmly a ∨ (a.1 = Throw ∧ calm a.2).

Lemma own_fields_calm now quorum rs my : clock_ok now → ownProposalFields h now quorum rs = Some my → fields_calm rs my.
Proof.
  intros Hn. unfold ownProposalFields, fields_calm, stampable. destruct (isMirrorEra h (rs_block rs)).
  - destruct (chooseEffectiveTime h now) as [t|] eqn:Ht; [|done]. cbn. intros [= <-]. split; [done|]. split.
    + intros _. unfold chooseEffectiveTime in Ht. by destruct (forwardSeconds h).
    + split; [done|]. intros ? [= <-]. by eapply chosen_plain.
  - intros [= <-]. by split_and!.
Qed.

Lemma calm_propose now requestId rs s : clock_ok now → calm s → kept (propose h now requestId rs s).
Proof.
  intros Hn Hs. unfold propose. do 2 (destruct (bool_decide _); [left; by apply calm_here|]).
  assert (Hs1 : calm (notePrematureEviction (toLowerCase requestId) s)).
  { unfold notePrematureEviction. case_bool_decide; [by apply (calm_kin s)|done]. }
  destruct (admittableQuorum rs) as [q|]; [|left; apply calm_here; by apply (calm_kin (notePrematureEviction (toLowerCase requestId) s))].
  destruct (ownProposalFields h now q rs) as [my|] eqn:Hmy; [|by right]. pose proof (own_fields_calm _ _ _ _ Hn Hmy) as Hf. left.
  destruct (admissionEra h (rs_block rs)); [|by apply calm_openRound]. apply calm_here. by apply calm_suspend.
Qed.

(** The hub's tips resolve to a map that can be spelled. *)
Definition tips_spelled (tips : option (string → option json)) : Prop :=
  map_ok (resolveAdmitBlocks tips (Some (network h)) "attestation_responses" ["BTC"]).

Lemma calm_resumeTip rid rs my tips s : fields_calm rs my → tips_spelled tips → calm s → calmly (resumeTip h rid rs my tips s).
Proof.
  intros Hf Ht Hs. unfold resumeTip. unfold tips_spelled in Ht. destruct (resolveAdmitBlocks _ _ _ _); [by apply calm_openRound|].
  apply calm_here. by apply (calm_kin s).
Qed.

(** ** PROPOSE *)

Lemma calm_verifyAndAdmit now rid pid m sender e map s :
  clock_ok now → tame m → (∀ rd, heap s !! pid = Some rd → stampable (rs_block (a_rs rd)) e) → map_ok map → calm s →
  calmly (verifyAndAdmitProposal h now rid pid m sender e map s).
Proof.
  intros Hn Hta He Hm Hs. unfold verifyAndAdmitProposal. destruct (heap s !! pid) as [rd|] eqn:Hr; [|by apply calm_here]. specialize (He rd eq_refl).
  destruct (canonical_built rid (rs_providerId (a_rs rd)) (hexDigest h (m_body m)) (wire_status m) (m_meta m) _ e map He Hm) as [c Hc].
  unfold buildCanonical. rewrite Hc, (proj1 Hta). cbn [bad_sig plain_texts]. destruct (verify _ _ _ _); [|by apply calm_here].
  unfold admitVerifiedProposal. destruct (wireEffectiveOutOfWindow _ _ _); [by apply calm_here|].
  destruct (negb _); [apply calm_here; by apply (calm_kin s)|]. set (s1 := recordProposer h rid sender s).
  assert (Hs1 : calm s1) by (revert Hs; apply calm_ext; [apply at_core_recordProposer|apply sb_recordProposer]).
  assert (heap s1 !! pid = Some rd) as Hr1 by (rewrite <-Hr; f_equal; apply heap_core, at_core_recordProposer). rewrite Hr1.
  destruct (m_get sender (a_proposals rd)); [split; [done|]; eexists; split; [reflexivity|]; by repeat constructor|].
  split; [|eexists; split; [reflexivity|]; destruct (_ && _); by repeat constructor]. cbn [snd]. eapply calm_set; [exact Hr1| |done|done].
  destruct (cm_rounds s Hs pid rd Hr). constructor; try done. cbn. intros k p [[= -> ->]|Hin]%elem_of_m_set_pair; [by split|by eapply cr_proposals0].
Qed.

Lemma door_calm now m s s' : tame m → round_door h now m s = DoorShut s' → calm s → calm s'.
Proof.
  intros Hm. unfold round_door. destruct (String.eqb _ _); [by intros [= <-]|]. case_bool_decide; [by intros [= <-]|].
  destruct (live _ s) as [[pid rd]|]; [done|]. intros [= <-]. by apply calm_buffer.
Qed.

Lemma door_round now m s pid rd : round_door h now m s = DoorOpen pid rd → calm s → heap s !! pid = Some rd ∧ calm_round rd.
Proof.
  unfold round_door. destruct (String.eqb _ _); [done|]. case_bool_decide; [done|]. destruct (live _ s) as [[p r]|] eqn:Hl; [|done].
  intros [= -> ->]. by apply (live_round (toLowerCase (m_requestId m))).
Qed.

Lemma calm_handlePropose now m s : clock_ok now → tame m → calm s → calmly (handlePropose h now m s).
Proof.
  intros Hn Hm Hs. unfold handlePropose. destruct (round_door h now m s) as [s'|pid rd] eqn:Hd; [apply calm_here; by eapply door_calm|].
  destruct (door_round _ _ _ _ _ Hd Hs) as [Hr Hc]. rewrite (plain_caps _ _ _ (proj1 Hm)), (proj1 Hm). cbn [bad_pubkey plain_texts].
  destruct (_ || _); [by apply calm_here|]. destruct (negb _); [by apply calm_here|].
  pose proof (wire_stampable (a_mirrorEra rd) (rs_block (a_rs rd)) m _ (cr_era rd Hc) Hm eq_refl) as Hst.
  destruct (readWireEffectiveTime _ _) as [|z|]; [specialize (Hst ltac:(done))..|by apply calm_here].
  all: destruct (readWireAdmitBlocks _ _ _) as [map| |map] eqn:Ha; [|by apply calm_here|apply calm_here, calm_suspend; [|done]].
  all: try (split; [done|]; exists rd; split_and!; [done|done|by eapply wire_map]).
  all: destruct (still_open _ _ _); [|by apply calm_here]; apply calm_verifyAndAdmit; [done|done| | |done].
  all: try (intros rd' E; by assert (rd' = rd) as -> by congruence).
  all: destruct (ok_era h _ _ _ Ha) as [-> _]; done.
Qed.

(** ** PREPARE *)

Definition proceeds (v : verdict) : Prop := v ≠ Thrown.

Lemma calm_sign_echo pid sig rd0 rd s : heap s !! pid = Some rd0 → calm_round rd → a_rs rd = a_rs rd0 → calm s → calm (sign_and_echo h pid sig rd s).
Proof.
  intros Hr Hc E Hs. unfold sign_and_echo. assert (Hs1 : calm (modify pid (λ _, sign_winner sig rd) s)).
  { apply (calm_replace pid rd0 rd); try done. apply sign_winner_stamps. }
  unfold echoAdoptedPrepare. destruct sig; [|done]. destruct (a_myPubkey _); [|done]. destruct (peers h); [|done].
  apply calm_flags; [done|]. revert Hs1. by apply calm_kin.
Qed.

Lemma calm_coSignNonOk pid c body meta status s : calm s → calm (coSignNonOkWinner h pid c body meta status s).
Proof.
  intros Hs. unfold coSignNonOkWinner. destruct (heap s !! pid) as [rd|] eqn:Hr; [|done]. destruct (ownProposal rd); [|done].
  destruct (_ && _); [|done]. destruct (own_winner_signature _ _ _ _ _ _ _); [|done]. apply (calm_sign_echo _ _ rd); try done. by eapply cm_rounds.
Qed.

Lemma calm_admitMap now m rd rid sender map s : tame m → calm s → calm (prepareAdmitMapAllowed h now m rd rid sender map s).1.
Proof.
  intros Hm Hs. unfold prepareAdmitMapAllowed. destruct (a_admitBlocks rd); [|done]. destruct (leaderProposal rd); [done|].
  case_bool_decide; [done|]. destruct (_ && _); [by apply calm_buffer|done].
Qed.

Lemma calm_derivation now m rd rid status sender s : tame m → calm s → calm (nonOkDerivationRefuses h now m rd rid status sender s).1.
Proof.
  intros Hm Hs. unfold nonOkDerivationRefuses, providerErrorUnderivable. destruct (_ && not_leader _ _); [by apply calm_buffer|].
  destruct (String.eqb status "no_quorum" && _).
  - destruct (_ <? _); [by apply calm_buffer|]. by destruct (getModule h _) as [[]|].
  - destruct (String.eqb _ _); [|done]. destruct (_ <? _); [by apply calm_buffer|done].
Qed.

(** A verified establishing PREPARE carries a stamp and a map of the round's era. *)
Lemma establishing_calm now rd m rid body meta status sender map :
  calm_round rd → tame m → map_ok map →
  match verifyEstablishing h now rd m rid body meta status sender map with
  | VThrow => False
  | VOk e _ => ∀ sg w, calm_round (adopt sender sg w.1 w.2 status e map rd)
  | VReject => True
  end.
Proof.
  intros Hc Hm Hmap. unfold verifyEstablishing. pose proof (wire_stampable (a_mirrorEra rd) (rs_block (a_rs rd)) m _ (cr_era rd Hc) Hm eq_refl) as Hst.
  destruct (readWireEffectiveTime _ _) as [|z|]; [specialize (Hst ltac:(done))..|done].
  all: unfold buildCanonical; destruct (canonical_built rid (rs_providerId (a_rs rd)) (hexDigest h body) status meta _ _ map Hst Hmap) as [c ->].
  all: rewrite (proj1 Hm); cbn [bad_sig plain_texts]. all: destruct (negb _); [done|]; destruct (wireEffectiveOutOfWindow _ _ _); [done|]. all: intros sg w; destruct Hc; by constructor.
Qed.

Lemma calm_adoptNonOk now m rid pid rd status sender map s :
  heap s !! pid = Some rd → tame m → map_ok map → calm s →
  let r := adoptNonOkPrepare h now m rid pid rd status sender map s in proceeds r.1 ∧ calm r.2.
Proof.
  intros Hr Hm Hmap Hs. pose proof (cm_rounds s Hs pid rd Hr) as Hc. unfold adoptNonOkPrepare.
  destruct (_ || _); [done|]. destruct (_ && _); [done|]. destruct (published _ _ _); [done|]. destruct (unsigned m); [done|].
  pose proof (establishing_calm now rd m rid (m_body m) (m_meta m) status sender map Hc Hm Hmap) as Hest.
  destruct (verifyEstablishing _ _ _ _ _ _ _ _ _ _) as [| |e c]; [done|done|].
  pose proof (calm_admitMap now m rd rid sender map s Hm Hs) as Hs1. pose proof (core_admitMap h now m rd rid sender map s) as Hc1.
  destruct (prepareAdmitMapAllowed _ _ _ _ _ _ _ _) as [s1 []]; cbn [fst] in *; [|done].
  pose proof (calm_derivation now m rd rid status sender s1 Hm Hs1) as Hs2. pose proof (core_derivation h now m rd rid status sender s1) as Hc2.
  destruct (nonOkDerivationRefuses _ _ _ _ _ _ _ _) as [s2 []]; cbn [fst] in *; [done|]. split; [done|]. cbn [snd].
  apply calm_coSignNonOk. assert (Hr2 : heap s2 !! pid = Some rd) by (by rewrite (heap_core _ _ Hc2), (heap_core _ _ Hc1)).
  apply calm_modify; [|done]. intros rd' E _. assert (rd' = rd) as -> by congruence. split; [apply (Hest (m_sig m) (m_body m, m_meta m))|done].
Qed.

Lemma corroborated_stamps rd m meta status sender bodyHash e map : stamps (byteEqualityCorroborated h rd m meta status sender bodyHash e map).1 = stamps rd.
Proof. unfold byteEqualityCorroborated. destruct (match ownProposal rd with Some _ => _ | None => _ end); [done|]. by destruct (_ <? _)%nat. Qed.

Lemma calm_adoptOk now m rid pid rd status sender map s :
  heap s !! pid = Some rd → tame m → map_ok map → calm s →
  let r := adoptOkPrepare h now m rid pid rd status sender map s in proceeds r.1 ∧ calm r.2.
Proof.
  intros Hr Hm Hmap Hs. pose proof (cm_rounds s Hs pid rd Hr) as Hc. unfold adoptOkPrepare.
  destruct (_ && not_leader _ _); [split; [done|by apply calm_buffer]|]. destruct (unsigned m); [done|].
  pose proof (establishing_calm now rd m rid (m_body m) (m_meta m) status sender map Hc Hm Hmap) as Hest.
  destruct (verifyEstablishing _ _ _ _ _ _ _ _ _ _) as [| |e c]; [done|done|].
  pose proof (calm_admitMap now m rd rid sender map s Hm Hs) as Hs1. pose proof (core_admitMap h now m rd rid sender map s) as Hc1.
  destruct (prepareAdmitMapAllowed _ _ _ _ _ _ _ _) as [s1 []]; cbn [fst] in *; [|done].
  assert (Hr1 : heap s1 !! pid = Some rd) by by rewrite (heap_core _ _ Hc1). clear Hs Hr.
  set (choice := if strategy_is rd "judge_model" then _ else _).
  assert (∃ s2 rd2 go, choice = (s2, rd2, go) ∧ calm s2 ∧ heap s2 !! pid = Some rd2 ∧ stamps rd2 = stamps rd) as (s2 & rd2 & go & -> & Hs2 & Hr2 & Hst).
  { unfold choice. destruct (strategy_is rd "judge_model").
    - unfold leaderBodyMatchesProposal. destruct (_ <? _).
      + do 3 eexists. split; [reflexivity|]. split; [by apply calm_buffer|]. by rewrite (heap_core _ _ (at_core_buffer h now rid m s1)).
      + do 3 eexists. split; [reflexivity|]. done.
    - pose proof (corroborated_stamps rd m (m_meta m) status sender (hexDigest h (m_body m)) e map) as Hst.
      destruct (byteEqualityCorroborated _ _ _ _ _ _ _ _ _) as [rd2 go]. cbn [fst] in Hst. do 3 eexists. split; [reflexivity|]. split_and!; [|by cbn; rewrite lookup_alter_eq, Hr1|done].
      apply (calm_replace pid rd rd); try done. }
  destruct go; cbn [negb]; [|done]. cbv zeta. set (rd3 := adopt _ _ _ _ _ _ _ rd2).
  assert (Hc3 : calm_round rd3).
  { apply (calm_round_ext (adopt sender (m_sig m) (m_body m) (m_meta m) status e map rd)); [|exact (Hest (m_sig m) (m_body m, m_meta m))].
    unfold stamps in *. cbn. congruence. }
  assert (Hs3 : calm (modify pid (λ _, rd3) s2)) by by apply (calm_set pid rd2).
  assert (Hr3 : heap (modify pid (λ _, rd3) s2) !! pid = Some rd3) by (cbn; by rewrite lookup_alter_eq, Hr2).
  destruct (ownProposal rd3) as [own|]; [|done]. destruct (strategy_is rd3 "judge_model").
  - unfold coSignJudgeWinner. destruct (negb _); [done|]. split; [done|]. by apply (calm_sign_echo _ _ rd3).
  - unfold coSignByteEqualWinner. destruct (negb _); [done|]. split; [done|]. by apply (calm_sign_echo _ _ rd3).
Qed.

Lemma calm_countLate pid rd m sender s : tame m → heap s !! pid = Some rd → calm s → ∃ s', countLatePrepare h pid rd m sender s = Some s' ∧ calm s'.
Proof.
  intros Hta Hr Hs. unfold countLatePrepare. rewrite (proj1 Hta). destruct (a_winner rd) as [[body meta]|]; [|by exists s].
  destruct (canonical_of_round rd body (a_status rd) meta (cm_rounds s Hs pid rd Hr)) as [c ->]. cbn. eexists. split; [reflexivity|].
  destruct (verify _ _ _ _); [by apply calm_flags|done].
Qed.

Lemma calm_finishPrepare rid pid sender s : calm s → calmly (finishPrepare h rid pid sender s).
Proof.
  intros Hs. unfold finishPrepare. assert (Hs1 : calm (checkPrepareQuorum h rid (modify pid (add_prepare sender) s))) by (apply calm_checkPrepare; by apply calm_flags).
  destruct (heap _ !! pid); [|by apply calm_here]. split; [done|]. eexists. split; [reflexivity|]. destruct (bool_decide _); by repeat constructor.
Qed.

Lemma calm_prepareWithAdmit now m rid pid sender map s : tame m → map_ok map → calm s → calmly (handlePrepareWithAdmit h now m rid pid sender map s).
Proof.
  intros Hm Hmap Hs. unfold handlePrepareWithAdmit. destruct (heap s !! pid) as [rd|] eqn:Hr; [|by apply calm_here].
  destruct (negb _); [apply calm_here; by apply (calm_kin s)|]. set (vs := match a_winner rd with Some _ => _ | None => _ end).
  assert (proceeds vs.1 ∧ calm vs.2) as [Hv Hs'].
  { unfold vs. destruct (a_winner rd).
    - destruct (unsigned m); [done|]. by destruct (calm_countLate pid rd m sender s Hm Hr Hs) as (s' & -> & ?).
    - destruct (String.eqb _ _); [by apply calm_adoptOk|by apply calm_adoptNonOk]. }
  destruct vs as [[] s']; [by apply calm_finishPrepare|by apply calm_here|by destruct Hv].
Qed.

Lemma calm_handlePrepare now m s : tame m → calm s → calmly (handlePrepare h now m s).
Proof.
  intros Hm Hs. unfold handlePrepare. destruct (round_door h now m s) as [s'|pid rd] eqn:Hd; [apply calm_here; by eapply door_calm|].
  rewrite (plain_caps _ _ _ (proj1 Hm)), (proj1 Hm). cbn [bad_pubkey plain_texts]. destruct (negb _); [by apply calm_here|]. destruct (negb _); [by apply calm_here|]. destruct (readWireAdmitBlocks _ _ _) as [map| |map] eqn:Ha; [|by apply calm_here|].
  - destruct (still_open _ _ _); [|by apply calm_here]. apply calm_prepareWithAdmit; [done| |done]. by destruct (ok_era h _ _ _ Ha) as [-> _].
  - apply calm_here, calm_suspend; [|done]. split; [done|by eapply wire_map].
Qed.

(** ** COMMIT *)

Lemma calm_commitWithAdmit m rid pid sender map s : tame m → calm s → calmly (finishCommitWithAdmit h m rid pid sender map s).
Proof.
  intros Hta Hs. unfold finishCommitWithAdmit. destruct (heap s !! pid) as [rd|] eqn:Hr; [|by apply calm_here]. destruct (negb _); [by apply calm_here|].
  assert (∃ s', (if unsigned m then Some s else countLatePrepare h pid rd m sender s) = Some s' ∧ calm s') as (s' & -> & Hs').
  { destruct (unsigned m); [by exists s|by apply calm_countLate]. }
  apply calm_here, calm_checkCommit. by apply calm_flags.
Qed.

Lemma calm_handleCommit now m s : tame m → calm s → calmly (handleCommit h now m s).
Proof.
  intros Hm Hs. unfold handleCommit. destruct (round_door h now m s) as [s'|pid rd] eqn:Hd; [apply calm_here; by eapply door_calm|].
  rewrite (proj1 Hm). cbn [bad_pubkey plain_texts]. destruct (negb _); [by apply calm_here|]. case_bool_decide; [apply calm_here; by apply calm_bufferCommit|].
  destruct (readWireAdmitBlocks _ _ _) as [map| |map]; [|by apply calm_here|apply calm_here; by apply calm_suspend].
  destruct (still_open _ _ _); [by apply calm_commitWithAdmit|by apply calm_here].
Qed.

(** ** Calls, events, runs *)

Lemma calm_exec now j s : clock_ok now → job_tame j → calm s → calmly (exec h now j s).
Proof.
  intros Hn Hj Hs. destruct j as [m|rid|rid|rid| |rid pid]; cbn [exec].
  - unfold handleMessage. rewrite (proj1 Hj). cbn [bad_requestId plain_texts]. destruct (m_type m); [by apply calm_handlePropose|by apply calm_handlePrepare|by apply calm_handleCommit].
  - by apply calm_drain.
  - by apply calm_drainCommits.
  - by apply calm_advance.
  - by apply calm_here.
  - apply calm_here. unfold recheck. destruct (heap s !! pid) as [rd|]; [|done]. destruct (a_commitSent rd); [by apply calm_checkCommit|done].
Qed.

Lemma calm_jobs fuel now js s f :
  clock_ok now → Forall job_tame js → calm s → run_jobs fuel h now js s = Some f → ∃ s', f = Returned s' ∧ calm s'.
Proof.
  intros Hn. revert js s. induction fuel as [|fuel IH]; intros js s Hjs Hs; (destruct js as [|j js]; cbn [run_jobs]; [intros [= <-]; by exists s|]); [done|].
  apply Forall_cons in Hjs as [Hj Hjs]. destruct (calm_exec now j s Hn Hj Hs) as (Hs' & more & Hgo & Hmore).
  destruct (exec h now j s) as [o s']. cbn [fst snd] in *. subst o. apply IH; [by apply Forall_app|done].
Qed.

Lemma calm_settled now a f : clock_ok now → calmly a → settle h now a = Some f → ∃ s', f = Returned s' ∧ calm s'.
Proof.
  intros Hn (Hs & js & Hgo & Hjs). destruct a as [o s]. cbn [fst snd] in *. subst o. cbn [settle]. by apply calm_jobs.
Qed.

Lemma kept_settled now a f : clock_ok now → kept a → settle h now a = Some f → ∃ s', caught f = Returned s' ∧ calm s'.
Proof.
  intros Hn [Ha|[Ht Hs]] Hset.
  - destruct (calm_settled now a f Hn Ha Hset) as (s' & -> & ?). by exists s'.
  - destruct a as [o s]. cbn [fst snd] in *. subst o. injection Hset as <-. by exists s.
Qed.

(** What an event may bring: a time, a message of plain texts without an oversized stamp, tips
    that can be spelled. *)
Definition ordinary (nev : Z * event) : Prop :=
  clock_ok nev.1 ∧ match nev.2 with EvMessage m => tame m | EvTip _ tips => tips_spelled tips | _ => True end.

Lemma calm_take k κ s s' : take k s = Some (κ, s') → calm s → calm s' ∧ kont_calm s' κ.
Proof.
  unfold take. destruct (konts s !! k) as [κ'|] eqn:Hk; [|done]. cbn. intros [= -> <-] [C1 C2 C3 C4 C5]. split.
  - constructor; try done. cbn. intros k' κ' [_ Hk']%lookup_delete_Some. specialize (C3 _ _ Hk'). by destruct κ'.
  - specialize (C3 _ _ Hk). by destruct κ.
Qed.

Lemma calm_resume now κ ev s a : ordinary (now, ev) → kont_calm s κ → calm s → resume h now κ ev s = Some a → calmly a.
Proof.
  intros [Hn Hev] Hκ Hs Hres. destruct κ, ev; try done; cbn [resume fst snd kont_calm] in *; injection Hres as <-.
  - by apply calm_resumeTip.
  - by apply calm_resumeAgree.
  - destruct (_ && _); [|by apply calm_here]. destruct Hκ as (Hta & rd & Hr & Hst & Hmap). apply calm_verifyAndAdmit; [done|done| |done|done]. intros rd' E. congruence.
  - destruct (_ && _); [|by apply calm_here]. destruct Hκ. by apply calm_prepareWithAdmit.
  - destruct (_ && _); [by apply calm_commitWithAdmit|by apply calm_here].
Qed.

Lemma calm_timeout pid s : calm s → calm (onRoundTimeout h pid s).
Proof.
  intros Hs. unfold onRoundTimeout. destruct (heap s !! pid) as [rd|]; [|done]. set (s1 := modify pid (set_a_timer false) s).
  assert (Hs1 : calm s1) by by apply calm_flags. cbv zeta. destruct (a_finalized rd); [done|]. apply calm_tornDown, calm_drop.
  apply (calm_kin (put_earlyCommits (delete (a_rid rd) (earlyCommits s1)) s1)); [done|]. by apply calm_delCommits.
Qed.

Lemma calm_stop s : calm s → calm (stop s).
Proof.
  intros [C1 C2 C3 C4 C5]. unfold stop. set (held := λ pid : nat, existsb (λ kv : string * nat, bool_decide (kv.2 = pid)) (map_to_list (pending s))).
  constructor; cbn.
  - intros pid rd'. rewrite map_lookup_imap. destruct (heap s !! pid) as [rd|] eqn:Hr; [|done]. cbn. intros [= <-].
    apply (calm_round_ext rd); [by destruct (existsb _ _)|by eapply C1].
  - intros pid Hle. rewrite map_lookup_imap, (C2 pid Hle). done.
  - intros k κ Hk. specialize (C3 k κ Hk). destruct κ as [| |m rid pid sender e map| |]; cbn in *; try done. destruct C3 as (Hta & rd & Hr & Hst & Hm).
    split; [done|]. eexists. rewrite map_lookup_imap, Hr. cbn. split; [reflexivity|]. by destruct (existsb _ _).
  - intros ??? []%not_elem_of_nil.
  - done.
Qed.

Lemma calm_step now ev s f : ordinary (now, ev) → step h now ev s = Some f → calm s → ∃ s', f = Returned s' ∧ calm s'.
Proof.
  intros Ho Hst Hs. pose proof Ho as [Hn Hev]. cbn [fst snd] in Hn, Hev.
  assert (Hresume : ∀ k, ('(κ, s) ← take k s; a ← resume h now κ ev s; caught <$> settle h now a) = Some f → ∃ s', f = Returned s' ∧ calm s').
  { intros k Hk. destruct (take k s) as [[κ s1]|] eqn:Ht; [|done]. cbn in Hk. destruct (calm_take _ _ _ _ Ht Hs) as [Hs1 Hκ].
    destruct (resume h now κ ev s1) as [a|] eqn:Hr; [|done]. cbn in Hk. destruct (settle h now a) as [f'|] eqn:Hset; [|done]. injection Hk as <-.
    eapply kept_settled; [done|left; by eapply calm_resume|done]. }
  destruct ev as [requestId rs|m|k tips|k answer|k tips|pid|rid|]; cbn [step] in Hst; try by eapply Hresume.
  - destruct (settle h now _) as [f'|] eqn:Hset; [|done]. injection Hst as <-. eapply kept_settled; [done|by apply calm_propose|done].
  - eapply (calm_settled now _ f Hn); [|exact Hst]. by apply (calm_exec now (JMessage m)).
  - destruct (heap s !! pid) as [rd|]; [|done]. destruct (a_timer rd); [|done]. injection Hst as <-. eexists. split; [reflexivity|by apply calm_timeout].
  - destruct (bool_decide _); [|done]. injection Hst as <-. eexists. split; [reflexivity|by apply (calm_kin s)].
  - injection Hst as <-. eexists. split; [reflexivity|by apply calm_stop].
Qed.

Theorem calm_run evs s f : Forall ordinary evs → calm s → run h evs s = Some f → ∃ s', f = Returned s' ∧ calm s'.
Proof.
  intros Hev. revert s. induction Hev as [|[now ev] evs Ho _ IH]; intros s Hs; cbn [run]; [intros [= <-]; by exists s|].
  destruct (step h now ev s) as [f'|] eqn:Hst; [|done]. destruct (calm_step _ _ _ _ Ho Hst Hs) as (s' & -> & Hs'). by apply IH.
Qed.

End Calm.
