(* ===== verification/AtProps.v ===== *)
(** * Attestation rounds: theorems

    What a published response proves, that the PREPAREs of a quorum publish it,
    that handlers end, what the byte-equality tally picks, and the two kinds of
    message that end the process. *)

From S2P Require Import Prelude Ordered GateRegistry BigNum Quorum Json AttestWire OracleBand Admission AtState AtCanon AtRounds AtInv AtVotes AtSafety AtReplay AtLive AtCalm.
Open Scope Z_scope.

(** ** A federation of four *)

Definition at_key (c : ascii) : string := String.string_of_list_ascii (replicate 64 c).
Definition at_signed (k p : string) : string := k +:+ ":" +:+ p.

(** A 32-byte digest: the text, padded and cut. *)
Definition pad32 : string := String.string_of_list_ascii (replicate 32 "."%char).
Definition cut32 (s : string) : string := String.substring 0 32 (s +:+ pad32).

Definition at_hub (network : string) (c : ascii) : env :=
  Env true (Some (at_key c)) (at_signed (at_key c)) (λ p sig pk, String.eqb sig (at_signed pk p)) cut32 network
    MIRROR_ADMISSION_ACTIVATION (λ p, if String.eqb p "llm" then Some Llm else Some HttpGet) (λ _, None) true None
    100 100 100 100 8 131072.

Lemma substring_length n s : (n ≤ String.length s)%nat → String.length (String.substring 0 n s) = n.
Proof. revert s. induction n as [|n IH]; intros [|c s] Hn; cbn [String.length String.substring] in *; try lia. rewrite IH; lia. Qed.

Lemma at_hub_digests network c : digests_32 (at_hub network c).
Proof. intros b. apply substring_length. rewrite app_str_length. change (String.length pad32) with 32%nat. lia. Qed.

Lemma at_hub_signs network : signs_for_itself (at_hub network "b").
Proof.
  intros id p [= <-]. unfold verify. change (toLowerCase (at_key "b")) with (at_key "b"). change (String.length (at_key "b")) with 64%nat.
  change (String.eqb (at_key "b") "") with false. cbn [sign at_hub edVerify negb orb Nat.eqb]. unfold at_signed. rewrite String.eqb_refl. done.
Qed.

(** ** A request of redundancy 3 among four responsible hubs *)

Definition request (block : Z) (strategy body status : string) : roundState :=
  RoundState block "weather" 3 (at_key <$> ["a"; "b"; "c"; "d"]%char) (Some (at_key "a")) "responsible" body "" status (Some strategy) None.

Definition request_id : string := "00000000ab".

Definition signed_bytes (network : string) (block : Z) (body status : string) (effective : option Z) : string :=
  default EmptyString (buildCanonical (at_hub network "a") request_id "weather" body status EmptyString block effective None).

Definition at_from (c : ascii) (type : mtype) (network : string) (block : Z) (body status : string) (effective : option Z) : message :=
  Msg type request_id (at_key c) (at_signed (at_key c) (signed_bytes network block body status effective)) body 8 "" status
    ((λ z, JInt z) <$> effective) None 200 plain_texts.

Definition at_run (network : string) (evs : list event) (s : state) : option fate := run (at_hub network "b") ((λ ev, (1000000, ev)) <$> evs) s.

Definition opening : list event := [EvPropose request_id (request 900000 "byte_equality" "sunny" "ok")].
Definition proposals_in : list event := (λ c, EvMessage (at_from c ATTEST_PROPOSE "mainnet" 900000 "sunny" "ok" None)) <$> ["a"; "c"]%char.
Definition agreed : list event := opening ++ proposals_in ++ [EvAgreed 1 None].
Definition prepares_in : list message := (λ c, at_from c ATTEST_PREPARE "mainnet" 900000 "sunny" "ok" None) <$> ["c"; "d"]%char.
Definition honest_run : list event := agreed ++ (EvMessage <$> prepares_in).

(** The state after the agreement, and its round. *)
Definition state_of (f : option fate) : state := match f with Some (Returned s) | Some (Uncaught s) => s | None => initial end.
Definition round_of (s : state) : round := default (Round "" (request 0 "" "" "") 0 None false None None [] [] [] [] None "" [] false false false false) (snd <$> live request_id s).

Definition agreed_state : state := state_of (at_run "mainnet" agreed initial).

(** A request of the mirror era, and the message that ends the process. *)
Definition mirror_opening : list event := [EvPropose request_id (request 152000 "byte_equality" "sunny" "ok")].
Definition mirror_state : state := state_of (at_run "testnet" mirror_opening initial).
Definition long_digits : string := "1000000000000000000000".
Definition fatal (sig : string) : message :=
  Msg ATTEST_PROPOSE request_id (at_key "c") sig "x" 4 "" "" (Some (JStr long_digits)) None 200 plain_texts.

(** A message whose [requestId] is the JSON value [v]. *)
Definition with_requestId (type : mtype) (v : json) (text : string) : message :=
  Msg type text "" "" "" 0 "" "" None None 60 (Texts (String_throws v) false false false false false).

(** The same request, and the PROPOSE of its leader with the stamp it chose. *)
Definition mirror_run : list event :=
  mirror_opening ++ [EvMessage (at_from "a" ATTEST_PROPOSE "testnet" 152000 "sunny" "ok" (Some 1121))].

Definition endorsesb (h : env) (rid : string) (rd : round) (m : message) : bool :=
  match m_type m with ATTEST_PREPARE => true | _ => false end && String.eqb (toLowerCase (m_requestId m)) rid
  && is_responsible rd (toLowerCase (m_pubkey m)) && envelopeWithinCaps h rd m && assertBodyWithinCap (m_body m)
  && match readWireAdmitBlocks h (rs_block (a_rs rd)) (m_admit m) with AdmitOk _ => true | _ => false end
  && verify_over h (settled_canonical h rd) (m_sig m) (toLowerCase (m_pubkey m))
  && bool_decide (m_texts m = plain_texts).

Lemma endorsesb_spec h rid rd m : endorsesb h rid rd m = true → endorses h rid rd m.
Proof.
  unfold endorsesb. rewrite !andb_true_iff. intros (((((((H1 & H2%String.eqb_eq) & H3%bool_decide_eq_true) & H4) & H5) & H6) & H7) & H8%bool_decide_eq_true).
  constructor; try done; [by destruct (m_type m)|]. destruct (readWireAdmitBlocks _ _ _) as [map| |]; try done. by exists map.
Qed.

Definition honest_state : state := state_of (at_run "mainnet" honest_run initial).

(** The newest effect, when it publishes a response. *)
Definition newest (s : state) : option response := match out s with Finalized r :: _ => Some r | _ => None end.

Lemma newest_in s r : newest s = Some r → Finalized r ∈ out s.
Proof. unfold newest. destruct (out s) as [|[] l]; try done. intros [= ->]. by left. Qed.

(** C7: a published response carries its proof. Whatever proposals, messages, timers
    and resumed handlers a hub has run, and in whatever order, every response it
    publishes answers a request it proposed for, carries exactly as many signatures
    as the quorum and the redundancy of that request ask, of distinct keys that are
    responsible members or its own, each valid over the canonical of the very fields
    it publishes; and it is an answer or one of the two empty failures. *)
Theorem finalized_response_backed (h : env) evs fate r :
  signs_for_itself h → digests_32 h → run h evs initial = Some fate → Finalized r ∈ out (fate_state fate) →
  ∃ rs, (f_requestId r, rs) ∈ proposals_of evs ∧ f_block r = rs_block rs ∧ f_providerId r = rs_providerId rs ∧
    Z.of_nat (length (f_signatures r)) = Z.max 0 (Z.max (round_quorum rs) (rs_redundancy rs)) ∧ NoDup (f_signatures r).*1 ∧
    (∀ pk sg, (pk, sg) ∈ f_signatures r →
       (pk ∈ rs_responsible rs ∨ toLowerCase <$> identity h = Some pk) ∧
       ∃ c, buildCanonical h (f_requestId r) (f_providerId r) (f_body r) (f_status r) (f_meta r) (f_block r) (f_effectiveTime r) (f_admitBlocks r) = Some c ∧
            verify h c sg pk = true) ∧
    (f_status r = "ok"%string ∨ (f_status r = "provider_error"%string ∨ f_status r = "no_quorum"%string) ∧ f_body r = EmptyString ∧ f_meta r = EmptyString).
Proof.
  intros Hself Hsha Hrun Hin. pose proof (at_inv_run h Hself Hsha evs initial fate [] Hrun (at_inv_initial h [])) as Hinv.
  rewrite app_nil_r in Hinv. destruct (inv_out h _ _ Hinv r Hin) as (rs & H1 & H2 & H3 & H4 & H5 & H6 & H7 & H8).
  exists rs. split_and!; [done..| |].
  - intros pk sg Hs. split; [apply H7; by apply (list_elem_of_fmap_2 fst) in Hs|]. specialize (H6 pk sg Hs). unfold verify_over in H6.
    destruct (buildCanonical _ _ _ _ _ _ _ _ _) as [c|]; [by exists c|done].
  - destruct H8 as [?|[? [= -> ->]]]; auto.
Qed.

(** C10: the PREPAREs of a quorum publish, for a request below the mirror admission
    activation (mainnet has none; in the admission era a PREPARE first waits for this
    hub's own tips and is refused when a height of its map lies outside their window).
    In every reachable state, when a hub's
    open round has its winner and nothing is buffered for it, PREPAREs of responsible
    members that sign the bytes of the round, in any order and at any times, lead to
    the publication of exactly that winner as soon as the voters they add to the
    votes already in reach the quorum and the redundancy. *)
Theorem quorum_prepares_publish (h : env) evs (s : state) rid pid rd voters ms :
  signs_for_itself h → digests_32 h → run h evs initial = Some (Returned s) → admissionEra h (rs_block (a_rs rd)) = false →
  awaiting rid pid rd s → Forall (λ nm : Z * message, endorses h rid rd nm.2) ms → ms ≠ [] →
  NoDup voters → needed rd ≤ Z.of_nat (length voters) →
  (∀ pk, pk ∈ voters → holds_vote rd pk ∨ pk ∈ (λ nm : Z * message, toLowerCase (m_pubkey nm.2)) <$> ms) →
  ∃ s' r, run h ((λ nm, (nm.1, EvMessage nm.2)) <$> ms) s = Some (Returned s') ∧ Finalized r ∈ out s' ∧
    f_requestId r = rid ∧ f_status r = a_status rd ∧ a_winner rd = Some (f_body r, f_meta r).
Proof.
  intros Hself Hsha Hrun _ Hs Hms Hne Hnd Hn Hv. destruct (endorsements_publish h rid pid rd voters ms s Hs Hms Hne Hnd Hn Hv) as (s' & Hr & f & H1 & H2 & H3 & H4).
  exists s', f. split_and!; [done..| |done|done]. rewrite H2.
  pose proof (at_inv_run h Hself Hsha evs initial _ [] Hrun (at_inv_initial h [])) as Hinv.
  by destruct (inv_live h _ _ _ _ _ Hinv (aw_live rid pid rd s Hs)) as (_ & _ & ?).
Qed.

(** C39: every message and every proposal is handled to the end. A handler replays
    buffered messages, which may be buffered again, settle the round and replay
    more: the nested calls end, whatever the state and the buffers hold, so a
    delivery always returns a state or leaves by a throw. *)
Theorem delivery_ends (h : env) now (s : state) m requestId rs :
  is_Some (step h now (EvMessage m) s) ∧ is_Some (step h now (EvPropose requestId rs) s).
Proof.
  split; cbn [step]; [apply settle_ends|]. destruct (settle_ends h now (propose h now requestId rs s)) as [f ->]. by eexists.
Qed.

(** C40: the byte-equality tally is a majority vote. Grouping the proposals by the
    digest of their bytes and taking the first largest group answers exactly the
    first proposal that a majority of all the expected ones repeats, if there is
    one; the answer does not depend on how smaller groups fall. *)
Theorem agree_is_majority (h : env) ps expectedN : agree h ps expectedN = first_majority h ps expectedN.
Proof. apply agree_first_majority. Qed.

(** One message ends the process. A PROPOSE for an open round of the mirror era
    that names a responsible member, signed or not, with an effective time spelled
    as a decimal text too long for a number to print in full, throws out of the
    listener: the spelling guard reads the text, the canonical is built from the
    number before the signature or the follower's window is tested. *)
Theorem oversized_stamp_uncaught (h : env) now (s : state) rid pid rd m digits :
  live rid s = Some (pid, rd) → rid ≠ EmptyString → rid ∉ finalized s → a_finalized rd = false → a_mirrorEra rd = true →
  m_type m = ATTEST_PROPOSE → m_texts m = plain_texts → toLowerCase (m_requestId m) = rid → toLowerCase (m_pubkey m) ∈ rs_responsible (a_rs rd) → m_pubkey m ≠ EmptyString →
  envelopeWithinCaps h rd m = true → readWireAdmitBlocks h (rs_block (a_rs rd)) (m_admit m) = AdmitOk None →
  m_effective m = Some (JStr digits) → CANONICAL_HEIGHT_RE digits = true → PLAIN_LIMIT ≤ read_digits 0 digits →
  step h now (EvMessage m) s = Some (Uncaught s).
Proof.
  intros Hl Hne Hfin Hopen Hera Ht Htx Hid Hmem Hpk Hcaps Hadm Heff Hre Hbig. cbn [step]. unfold handleMessage. rewrite Htx, Ht. cbn [bad_requestId plain_texts].
  unfold handlePropose, round_door.
  rewrite Hid, (proj2 (String.eqb_neq rid "") Hne), bool_decide_false, Hl by done. rewrite (plain_caps _ _ _ Htx), Htx. cbn [bad_pubkey plain_texts].
  unfold is_responsible. rewrite bool_decide_true, Hcaps by done.
  assert (String.eqb (toLowerCase (m_pubkey m)) "" = false) as ->.
  { apply String.eqb_neq. intros E. apply Hpk. destruct (m_pubkey m); [done|by discriminate E]. }
  cbn [orb negb]. unfold readWireEffectiveTime. rewrite Hera, Heff. cbn [negb isCanonicalIntSpelling spelled_value]. rewrite Hre, Hadm.
  unfold still_open. rewrite Hl, bool_decide_true, Hopen by done. cbn [andb negb]. unfold verifyAndAdmitProposal.
  destruct (at_live_lookup _ _ _ _ Hl) as [_ ->]. unfold buildCanonical, canonicalOfHash. cbn [stamp_value].
  destruct (negb _); [done|]. unfold buildResponseCanonicalRaw. unfold plain_number. rewrite (proj2 (Z.ltb_ge _ _) Hbig), andb_false_r. done.
Qed.

(** A request id that [String] cannot print ends the process too, whatever the hub's
    state: every listener reads the text first, whoever sends the message and
    whether or not a round is open. *)
Theorem unprintable_text_uncaught (h : env) now (s : state) type v text :
  String_throws v = true → step h now (EvMessage (with_requestId type v text)) s = Some (Uncaught s).
Proof. intros Hv. cbn [step]. unfold handleMessage, with_requestId. cbn [m_texts bad_requestId]. by rewrite Hv. Qed.

Example a_text_without_toString : String_throws (JArr [JNull; JObj [("toString"%string, JNull)]]) = true ∧ String_throws (JObj [("valueOf"%string, JNull)]) = false.
Proof. done. Qed.

(** C38: nothing else does. In a run whose messages carry texts [String] can print and
    no effective time of that kind, at readable clock times and under tips that an
    admission map can be spelled from, whatever else the messages and the environment
    hold, no throw leaves a listener: the rounds, the suspended handlers and the
    buffers only ever hold stamps and admission maps that a canonical can be built
    from, so the hub is up at the end. *)
Theorem ordinary_run_survives (h : env) evs fate :
  Forall (ordinary h) evs → run h evs initial = Some fate → ∃ s, fate = Returned s.
Proof. intros Hev Hrun. destruct (calm_run h evs initial fate Hev (calm_initial h) Hrun) as (s & -> & _). by exists s. Qed.

(** ** Witnesses *)

Lemma finalized_response_backed_witness :
  ∃ r rs, f_requestId r = request_id ∧ (f_requestId r, rs) ∈ proposals_of ((λ ev, (1000000, ev)) <$> honest_run) ∧
    Z.of_nat (length (f_signatures r)) = Z.max 0 (Z.max (round_quorum rs) (rs_redundancy rs)).
Proof.
  assert (Hid : f_requestId <$> newest honest_state = Some request_id) by (vm_compute; reflexivity).
  destruct (newest honest_state) as [r|] eqn:Hn; [|discriminate Hid]. injection Hid as Hid.
  destruct (finalized_response_backed (at_hub "mainnet" "b") ((λ ev, (1000000, ev)) <$> honest_run) (Returned honest_state) r) as (rs & H1 & _ & _ & H4 & _).
  - apply at_hub_signs.
  - apply at_hub_digests.
  - vm_compute. reflexivity.
  - apply newest_in, Hn.
  - exists r, rs. split; [exact Hid|]. split; [exact H1|exact H4].
Defined.

Lemma quorum_prepares_publish_witness :
  ∃ s' r, run (at_hub "mainnet" "b") ((λ nm : Z * message, (nm.1, EvMessage nm.2)) <$> ((λ m, (2000000, m)) <$> prepares_in)) agreed_state = Some (Returned s') ∧
    Finalized r ∈ out s' ∧ f_body r = "sunny"%string.
Proof.
  destruct (quorum_prepares_publish (at_hub "mainnet" "b") ((λ ev, (1000000, ev)) <$> agreed) agreed_state request_id 0 (round_of agreed_state)
    (at_key <$> ["b"; "c"; "d"]%char) ((λ m, (2000000, m)) <$> prepares_in)) as (s' & r & H1 & H2 & _ & _ & H5).
  - apply at_hub_signs.
  - apply at_hub_digests.
  - vm_compute. reflexivity.
  - vm_compute. reflexivity.
  - constructor; try (vm_compute; reflexivity); [vm_compute; discriminate|eexists; vm_compute; reflexivity|].
    change (finalized agreed_state) with (∅ : gset string). apply not_elem_of_empty.
  - apply Forall_cons; split; [|apply Forall_cons; split; [|apply Forall_nil; exact I]]; apply endorsesb_spec; vm_compute; reflexivity.
  - vm_compute. discriminate.
  - apply (bool_decide_unpack _). vm_compute. exact I.
  - vm_compute. discriminate.
  - intros pk Hpk. apply elem_of_cons in Hpk as [->|Hpk]; [left|right].
    + split; apply (bool_decide_unpack _); vm_compute; exact I.
    + exact Hpk.
  - exists s', r. split; [exact H1|]. split; [exact H2|]. change (a_winner (round_of agreed_state)) with (Some ("sunny"%string, ""%string)) in H5. by injection H5 as <-.
Defined.

Lemma oversized_stamp_uncaught_witness : step (at_hub "testnet" "b") 1000000 (EvMessage (fatal "")) mirror_state = Some (Uncaught mirror_state).
Proof.
  apply (oversized_stamp_uncaught (at_hub "testnet" "b") 1000000 mirror_state request_id 0 (round_of mirror_state) (fatal "") long_digits);
    try (vm_compute; reflexivity); try (vm_compute; discriminate).
  apply (bool_decide_unpack _). vm_compute. exact I.
Defined.

Lemma unprintable_text_uncaught_witness :
  step (at_hub "mainnet" "b") 1000000 (EvMessage (with_requestId ATTEST_COMMIT (JObj [("toString"%string, JNull)]) "")) honest_state = Some (Uncaught honest_state).
Proof. apply unprintable_text_uncaught. reflexivity. Defined.

Lemma ordinary_run_survives_witness :
  ∃ s, at_run "testnet" mirror_run initial = Some (Returned s) ∧ length (a_proposals (round_of s)) = 2%nat.
Proof.
  destruct (ordinary_run_survives (at_hub "testnet" "b") ((λ ev, (1000000, ev)) <$> mirror_run) (Returned (state_of (at_run "testnet" mirror_run initial)))) as (s & Hs).
  - apply Forall_cons. split; [|apply Forall_cons; split; [|apply Forall_nil; exact I]].
    + split; [split; [vm_compute; discriminate|vm_compute; reflexivity]|exact I].
    + split; [split; [vm_compute; discriminate|vm_compute; reflexivity]|]. split; [vm_compute; reflexivity|]. intros d Hd. vm_compute in Hd. discriminate Hd.
  - vm_compute. reflexivity.
  - exists s. injection Hs as <-. split; vm_compute; reflexivity.
Defined.
