(* ===== verification/ProviderConfig.v ===== *)
(** * Provider configuration by height

    The attestation providers' definitions and their block-anchored history
    ([src/validators/provider_registry.js], its parts under [provider_registry/], and
    the live apply path of [src/XChainHub.js]): which stake floor, which PBFT strategy
    and which model configuration is in force at a block. *)

From stdpp Require Import pretty.
From S2P Require Import Prelude BigNum Json.
From Stdlib Require Import QArith_base.
Open Scope Z_scope.

(** ** JavaScript readings of a JSON value *)

(** [String(v)]. A number of at most fifteen digits prints the digits it was read
    from; an array joins its elements with commas, [null] being empty. *)
Definition number_text (m e : Z) : string :=
  if e =? 0 then pretty m else Exact.toFixed (inject_Z m * Qpower (inject_Z 10) e).

Fixpoint js_text (v : json) : string :=
  match v with
  | JNull => "null"
  | JBool b => if b then "true" else "false"
  | JNum m e => number_text m e
  | JStr s => s
  | JArr l => commas (map (λ x, match x with JNull => EmptyString | _ => js_text x end) l)
  | JObj _ => "[object Object]"
  end.

Definition js_truthy (v : json) : bool :=
  match v with
  | JNull => false
  | JBool b => b
  | JNum m _ => negb (m =? 0)
  | JStr s => negb (String.eqb s "")
  | JArr _ | JObj _ => true
  end.

(** [v.key], [undefined] being [None]; a property of [null] throws and is not read. *)
Definition js_prop (key : string) (v : json) : option json :=
  match v with JObj l => json_get key l | _ => None end.

(** [/^\d+(\.\d+)?$/] *)
Definition plain_decimal (s : string) : bool :=
  let '(ip, rest) := Decimal.span_digits s in
  negb (String.eqb ip "") &&
  match rest with
  | EmptyString => true
  | String c fp => Ascii.eqb c "."%char && negb (String.eqb fp "") && all_chars is_digit fp
  end.

(** ** Canonical values *)

Definition normalizeMinStakeXchain (value : option json) : option string :=
  match value with
  | None | Some JNull => None
  | Some v => let s := trim (js_text v) in if plain_decimal s then Some s else None
  end.

Definition normalizeConsensusStrategy (value : option json) : option string :=
  match value with
  | None | Some JNull => None
  | Some v => let s := trim (js_text v) in if String.eqb s "" then None else Some s
  end.

Definition no_line_end (c : ascii) : bool := negb (Ascii.eqb c (ch 10)) && negb (Ascii.eqb c (ch 13)).

Definition parseAttestationProviderParam (parameter : string) : option string :=
  rest ← strip_prefix "ATTESTATION_PROVIDER:" parameter;
  if negb (String.eqb rest "") && all_chars no_line_end rest then Some rest else None.

(** ** Data *)

Record entry := Entry {
  activation_block : Z;
  additional_config : option json;
  min_stake_xchain : option string;
  consensus_strategy : option string }.

Record registry := Registry {
  providers : gmap string json;                     (** the live definitions *)
  providerConfigHistory : gmap string (list entry) }.

Definition with_history (h : gmap string (list entry)) (r : registry) : registry := Registry (providers r) h.

Definition default_http_get : json := JObj
  [("provider_id", JStr "http_get"); ("version", JInt 1); ("consensus_strategy", JStr "byte_equality");
   ("max_request_bytes", JInt 2048); ("max_response_bytes", JInt 32768);
   ("allowed_redundancy", JArr [JInt 1; JInt 3; JInt 5]); ("min_stake_xchain", JStr "10000");
   ("per_call_base_fee_xchain", JStr "0.01"); ("min_fee_xchain", JStr "0"); ("deadline_window_blocks", JInt 100);
   ("additional_config", JObj [])].

Definition default_llm : json := JObj
  [("provider_id", JStr "llm"); ("version", JInt 1); ("consensus_strategy", JStr "judge_model");
   ("max_request_bytes", JInt 8192); ("max_response_bytes", JInt 16384);
   ("allowed_redundancy", JArr [JInt 1; JInt 3; JInt 5]); ("min_stake_xchain", JStr "25000");
   ("per_call_base_fee_xchain", JStr "0.50"); ("min_fee_xchain", JStr "0"); ("deadline_window_blocks", JInt 20);
   ("additional_config", JObj
      [("approved_models", JArr [JStr "claude-sonnet-4-6"; JStr "claude-opus-4-7"]);
       ("judge_model", JStr "claude-haiku-4-5"); ("judge_fallback_models", JArr []); ("model_vendors", JObj []);
       ("require_all_vendors", JBool false); ("max_completion_tokens", JInt 1024); ("default_temperature", JInt 0);
       ("prompt_envelope_version", JInt 1)])].

Definition DEFAULTS : list (string * json) := [("http_get", default_http_get); ("llm", default_llm)].

(** ** The live definitions *)

Definition seeded_defaults : gmap string json := list_to_map DEFAULTS.

(** The constructor. *)
Definition fresh_registry : registry := Registry seeded_defaults ∅.

(** A row of the configs table: [param_name], [param_value]. *)
Definition config_row : Type := string * string.

(** [groupRowsByProvider]: in order of first appearance. *)
Definition groupRowsByProvider (rows : list config_row) : list (string * list string) :=
  fold_left (λ acc row,
    if String.eqb row.1 "" || String.eqb row.2 "" then acc
    else if bool_decide (row.1 ∈ acc.*1)
         then map (λ g, if String.eqb g.1 row.1 then (g.1, g.2 ++ [row.2]) else g) acc
         else acc ++ [(row.1, [row.2])]) rows [].

(** A parsed definition; naming the provider throws on anything but an object. *)
Definition read_def (providerId raw : string) : option json :=
  match JSON_parse raw with
  | Some (JObj l) =>
      Some (if match json_get "provider_id" l with Some v => js_truthy v | None => false end then JObj l
            else if bool_decide ("provider_id"%string ∈ l.*1)
            then JObj (map (λ kv, if String.eqb kv.1 "provider_id" then (kv.1, JStr providerId) else kv) l)
            else JObj (l ++ [("provider_id", JStr providerId)]))
  | Some (JArr l) => Some (JArr l)
  | _ => None
  end.

Definition load_group (defs : gmap string json) (g : string * list string) : gmap string json :=
  match g.2 with
  | raw :: more =>
      if forallb (String.eqb raw) more
      then match read_def g.1 raw with Some def => <[g.1 := def]> defs | None => defs end
      else defs                                     (* conflicting definitions *)
  | [] => defs
  end.

(** [load]: [None] without a database or a network, or when the read fails. *)
Definition load (rows : option (list config_row)) (r : registry) : registry :=
  Registry (match rows with
            | Some rows => fold_left load_group (groupRowsByProvider rows) seeded_defaults
            | None => seeded_defaults
            end) (providerConfigHistory r).

Definition isKnown (providerId : string) (r : registry) : bool := bool_decide (is_Some (providers r !! providerId)).
Definition getDef (providerId : string) (r : registry) : option json := providers r !! providerId.

Definition def_prop (key providerId : string) (r : registry) : option json := def ← getDef providerId r; js_prop key def.

(** ** The history *)

(** The existing entry of the block is overwritten; a new one is pushed and the list
    sorted. *)
Fixpoint overwrite (e : entry) (hist : list entry) : option (list entry) :=
  match hist with
  | [] => None
  | x :: hist => if activation_block x =? activation_block e then Some (e :: hist) else cons x <$> overwrite e hist
  end.

Definition block_le (a b : entry) : bool := activation_block a <=? activation_block b.

Definition upsert (e : entry) (hist : list entry) : list entry :=
  match overwrite e hist with Some hist => hist | None => isort block_le (hist ++ [e]) end.

Definition history (providerId : string) (r : registry) : list entry := default [] (providerConfigHistory r !! providerId).

Definition put_entry (providerId : string) (e : entry) (r : registry) : registry :=
  with_history (<[providerId := upsert e (history providerId r)]> (providerConfigHistory r)) r.

Definition genesis_entry (def : json) : entry :=
  Entry 0 (Some (match js_prop "additional_config" def with Some v => if js_truthy v then v else JObj [] | None => JObj [] end))
    (normalizeMinStakeXchain (js_prop "min_stake_xchain" def)) (normalizeConsensusStrategy (js_prop "consensus_strategy" def)).

Definition seedProviderConfigGenesis (r : registry) : registry :=
  fold_left (λ r kd, put_entry kd.1 (genesis_entry kd.2) r) DEFAULTS r.

(** The last entry in effect at the block ([None]: the latest), scanning upwards and
    stopping at the first later one; [get] keeps what was found when it is absent. *)
Fixpoint scan {A} (get : entry → option A) (blockIndex : option Z) (found : option A) (hist : list entry) : option A :=
  match hist with
  | [] => found
  | e :: hist =>
      if match blockIndex with Some b => b <? activation_block e | None => false end then found
      else scan get blockIndex (match get e with Some x => Some x | None => found end) hist
  end.

Definition getMinStake (providerId : string) (blockIndex : option Z) (r : registry) : option string :=
  match scan min_stake_xchain blockIndex None (history providerId r) with
  | Some s => Some s
  | None => normalizeMinStakeXchain (def_prop "min_stake_xchain" providerId r)
  end.

Definition getConsensusStrategy (providerId : string) (blockIndex : option Z) (r : registry) : option string :=
  match scan consensus_strategy blockIndex None (history providerId r) with
  | Some s => Some s
  | None => normalizeConsensusStrategy (def_prop "consensus_strategy" providerId r)
  end.

(** [getAdditionalConfig]: here the last entry decides even when its configuration is
    [null], and then the first entry answers. *)
Definition getAdditionalConfig (providerId : string) (blockIndex : option Z) (r : registry) : option json :=
  match history providerId r with
  | [] => v ← def_prop "additional_config" providerId r; if js_truthy v then Some v else None
  | (first :: _) as hist =>
      match blockIndex with
      | None => last hist ≫= additional_config
      | Some _ => match scan (λ e, Some (additional_config e)) blockIndex None hist with
                  | Some (Some v) => Some v
                  | _ => additional_config first
                  end
      end
  end.

(** ** Governance changes *)

(** What a passed proposal carries; [None]: a block that is no number. *)
Record change := Change {
  c_provider : string; c_block : option Z;
  c_config : option json; c_floor : option json; c_strategy : option json }.

(** [Err]: an invalid activation block. *)
Definition applyProviderConfigActivation (c : change) (r : registry) : result (option Z) registry :=
  match c_block c with
  | Some ab =>
      if ab <? 0 then Err (c_block c)
      else Ok (put_entry (c_provider c)
                 (Entry ab (c_config c) (normalizeMinStakeXchain (c_floor c)) (normalizeConsensusStrategy (c_strategy c))) r)
  | None => Err (c_block c)
  end.

(** The change a proposed value spells: a full definition or a bare configuration. *)
Definition read_change (providerId : string) (ab : option Z) (value : string) : option change :=
  parsed ← JSON_parse value;
  let ac := match js_prop "additional_config" parsed with Some v => if js_truthy v then v else parsed | None => parsed end in
  Some (Change providerId ab (match ac with JNull => None | v => Some v end)
          (js_prop "min_stake_xchain" parsed) (js_prop "consensus_strategy" parsed)).

(** The live path: a finalized proposal's parameter, block and value. A throw reaches
    the listener that logs it. *)
Definition applyProviderGovernanceChange (parameter : string) (ab : option Z) (value : string) (r : registry) : registry :=
  match parseAttestationProviderParam parameter with
  | None => r
  | Some providerId =>
      match ab, read_change providerId ab value with
      | Some _, Some c => match applyProviderConfigActivation c r with Ok r => r | Err _ => r end
      | _, _ => r
      end
  end.

(** The restart path: passed proposals by activation block, then by row id. The throw
    of an invalid block leaves the loop. *)
Fixpoint replay_rows (rows : list (string * option Z * string)) (r : registry) : result registry registry :=
  match rows with
  | [] => Ok r
  | (parameter, ab, value) :: rows =>
      match parseAttestationProviderParam parameter with
      | None => replay_rows rows r
      | Some providerId =>
          match read_change providerId ab value with
          | None => replay_rows rows r
          | Some c => match applyProviderConfigActivation c r with Ok r => replay_rows rows r | Err _ => Err r end
          end
      end
  end.

Definition loadGovernanceHistory (rows : option (list (string * option Z * string))) (r : registry) : result registry registry :=
  let r := seedProviderConfigGenesis r in
  match rows with Some rows => replay_rows rows r | None => Ok r end.

(** ** Histories are sets of entries, one per block *)

Definition ordered (hist : list entry) : Prop := StronglySorted (λ a b, activation_block a < activation_block b) hist.

Lemma overwrite_none e hist : overwrite e hist = None ↔ ∀ x, x ∈ hist → activation_block x ≠ activation_block e.
Proof.
  induction hist as [|y hist IH]; cbn [overwrite]; [set_solver|].
  destruct (Z.eqb_spec (activation_block y) (activation_block e)) as [E|Hne].
  - split; [done|]. intros H. destruct (H y); [by left|done].
  - rewrite fmap_None, IH. split; intros H x; [|intros Hx; apply H; by right]. intros [->|Hx]%elem_of_cons; [done|by apply H].
Qed.

Lemma overwrite_blocks e hist hist' : overwrite e hist = Some hist' → activation_block <$> hist' = activation_block <$> hist.
Proof.
  revert hist'. induction hist as [|y hist IH]; intros hist'; cbn [overwrite]; [done|].
  destruct (Z.eqb_spec (activation_block y) (activation_block e)) as [E|Hne].
  - intros [= <-]. rewrite !fmap_cons. by rewrite E.
  - destruct (overwrite e hist) as [h|]; [|done]. intros [= <-]. rewrite !fmap_cons. f_equal. by apply IH.
Qed.

Lemma ordered_blocks hist hist' : activation_block <$> hist' = activation_block <$> hist → ordered hist → ordered hist'.
Proof.
  unfold ordered. revert hist'. induction hist as [|y hist IH]; intros [|x hist'] E Hs; try done.
  rewrite !fmap_cons in E. injection E as Ex E. inversion Hs as [|? ? Hs' Hy]; subst. constructor; [by apply IH|].
  rewrite Forall_forall in Hy |- *. intros z Hz. apply (list_elem_of_fmap_2 activation_block) in Hz. rewrite E in Hz.
  apply list_elem_of_fmap in Hz as (w & -> & Hw). rewrite Ex. by apply Hy.
Qed.

Lemma ordered_key hist x y : ordered hist → x ∈ hist → y ∈ hist → activation_block x = activation_block y → x = y.
Proof.
  unfold ordered. induction 1 as [|z hist _ IH Hz]; [by intros ?%not_elem_of_nil|]. rewrite Forall_forall in Hz.
  intros [->|Hx]%elem_of_cons [->|Hy]%elem_of_cons E; [done| | |by apply IH]; [specialize (Hz y Hy)|specialize (Hz x Hx)]; lia.
Qed.

Lemma elem_of_overwrite e hist hist' x :
  ordered hist → overwrite e hist = Some hist' → x ∈ hist' ↔ x = e ∨ (x ∈ hist ∧ activation_block x ≠ activation_block e).
Proof.
  unfold ordered. intros Hs. revert hist'. induction Hs as [|y hist Hs IH Hy]; intros hist'; cbn [overwrite]; [done|].
  rewrite Forall_forall in Hy. destruct (Z.eqb_spec (activation_block y) (activation_block e)) as [E|Hne].
  - intros [= <-]. rewrite !elem_of_cons. split; [|naive_solver]. intros [->|Hx]; [by left|]. right. split; [by right|]. specialize (Hy x Hx). lia.
  - destruct (overwrite e hist) as [h|]; [|done]. intros [= <-]. rewrite !elem_of_cons, (IH h) by done. naive_solver.
Qed.

Lemma block_le_trans x y z : block_le x y = true → block_le y z = true → block_le x z = true.
Proof. unfold block_le. rewrite !Z.leb_le. lia. Qed.

Lemma block_le_total x y : block_le x y = true ∨ block_le y x = true.
Proof. unfold block_le. rewrite !Z.leb_le. lia. Qed.

Lemma isort_ordered l : NoDup (activation_block <$> l) → ordered (isort block_le l).
Proof.
  intros Hnd. assert (Hn : NoDup (activation_block <$> isort block_le l)) by (rewrite isort_perm; done).
  pose proof (isort_sorted block_le block_le_trans block_le_total l) as Hs. revert Hn Hs. generalize (isort block_le l). clear.
  unfold ordered. intros l. induction l as [|x l IH]; intros Hn Hs; [constructor|]. rewrite fmap_cons, NoDup_cons in Hn.
  destruct Hn as [Hx Hn]. inversion Hs as [|? ? Hs' Hle]; subst. constructor; [by apply IH|]. rewrite Forall_forall in Hle |- *.
  intros y Hy. specialize (Hle y Hy). unfold block_le in Hle. apply Z.leb_le in Hle.
  assert (activation_block x ≠ activation_block y); [|lia]. intros E. apply Hx. rewrite E. by apply list_elem_of_fmap_2.
Qed.

Lemma ordered_NoDup hist : ordered hist → NoDup (activation_block <$> hist).
Proof.
  unfold ordered. induction 1 as [|x hist _ IH Hx]; [constructor|]. rewrite fmap_cons, NoDup_cons. split; [|done].
  rewrite Forall_forall in Hx. intros (y & E & Hy)%list_elem_of_fmap. specialize (Hx y Hy). lia.
Qed.

Lemma upsert_ordered e hist : ordered hist → ordered (upsert e hist).
Proof.
  intros Hs. unfold upsert. destruct (overwrite e hist) as [h|] eqn:E; [exact (ordered_blocks _ _ (overwrite_blocks _ _ _ E) Hs)|].
  apply isort_ordered. rewrite fmap_app. apply NoDup_app. split_and!; [by apply ordered_NoDup| |apply NoDup_singleton].
  intros b (x & -> & Hx)%list_elem_of_fmap Hin. apply list_elem_of_singleton in Hin. by apply (proj1 (overwrite_none _ _) E x Hx).
Qed.

Lemma elem_of_upsert e hist x : ordered hist → x ∈ upsert e hist ↔ x = e ∨ (x ∈ hist ∧ activation_block x ≠ activation_block e).
Proof.
  intros Hs. unfold upsert. destruct (overwrite e hist) as [h|] eqn:E; [by apply elem_of_overwrite|].
  rewrite isort_perm, elem_of_app, list_elem_of_singleton. pose proof (proj1 (overwrite_none _ _) E). naive_solver.
Qed.

(** Two histories with the same entries up to a block answer alike at it. *)
Lemma ordered_ext hist hist' : ordered hist → ordered hist' → (∀ x, x ∈ hist ↔ x ∈ hist') → hist = hist'.
Proof.
  unfold ordered. intros Hs. revert hist'. induction Hs as [|x hist Hs IH Hx]; intros hist' Hs' Heq.
  - destruct hist' as [|y ?]; [done|]. exfalso. apply (not_elem_of_nil y), Heq, list_elem_of_here.
  - destruct Hs' as [|y hist' Hs' Hy]; [exfalso; apply (not_elem_of_nil x), Heq, list_elem_of_here|].
    rewrite Forall_forall in Hx, Hy. assert (x = y) as <-.
    { destruct (proj1 (elem_of_cons hist' x y) (proj1 (Heq x) (list_elem_of_here _ _))) as [|H1]; [done|].
      destruct (proj1 (elem_of_cons hist y x) (proj2 (Heq y) (list_elem_of_here _ _))) as [|H2]; [done|].
      specialize (Hx y H2). specialize (Hy x H1). lia. }
    f_equal. apply IH; [done|]. intros z. specialize (Heq z). rewrite !elem_of_cons in Heq. split; intros Hz.
    + destruct (proj1 Heq (or_intror Hz)) as [->|]; [|done]. specialize (Hx x Hz). lia.
    + destruct (proj2 Heq (or_intror Hz)) as [->|]; [|done]. specialize (Hy x Hz). lia.
Qed.

Definition up_to (b : Z) (hist : list entry) : list entry := filter (λ e, activation_block e ≤ b) hist.

Lemma scan_up_to {A} (get : entry → option A) b found hist :
  ordered hist → scan get (Some b) found hist = scan get None found (up_to b hist).
Proof.
  unfold ordered. intros Hs. revert found. induction Hs as [|x hist Hs IH Hx]; intros found; [done|]. cbn [scan]. unfold up_to.
  destruct (Z.ltb_spec b (activation_block x)).
  - rewrite filter_cons_False by lia. rewrite Forall_forall in Hx.
    replace (filter _ hist) with (@nil entry); [done|]. clear -Hx H. induction hist as [|y hist IH]; [done|]. rewrite filter_cons_False; [apply IH; intros z Hz; apply Hx; by right|].
    specialize (Hx y (list_elem_of_here _ _)). lia.
  - rewrite filter_cons_True by lia. cbn [scan]. apply IH.
Qed.

Lemma up_to_ordered b hist : ordered hist → ordered (up_to b hist).
Proof. unfold ordered, up_to. induction 1 as [|x hist Hs IH Hx]; [constructor|]. rewrite filter_cons. case_decide; [|done]. constructor; [done|].
  rewrite Forall_forall in Hx |- *. intros y [_ Hy]%list_elem_of_filter. by apply Hx. Qed.

(** ** What a list of changes leaves *)

Definition entry_of (ab : Z) (c : change) : entry :=
  Entry ab (c_config c) (normalizeMinStakeXchain (c_floor c)) (normalizeConsensusStrategy (c_strategy c)).

Fixpoint apply_all (cs : list change) (r : registry) : result (option Z) registry :=
  match cs with
  | [] => Ok r
  | c :: cs => let! r := applyProviderConfigActivation c r in apply_all cs r
  end.

(** The last change of the provider at the block. *)
Definition last_entry (p : string) (b : Z) (cs : list change) : option entry :=
  last (omap (λ c, if bool_decide (c_provider c = p ∧ c_block c = Some b) then Some (entry_of b c) else None) cs).

Definition histories_ordered (r : registry) : Prop := ∀ p, ordered (history p r).

Lemma history_put_entry p q e r : history p (put_entry q e r) = if decide (p = q) then upsert e (history q r) else history p r.
Proof.
  unfold history, put_entry, with_history. cbn [providerConfigHistory]. destruct (decide (p = q)) as [->|Hne].
  - by rewrite lookup_insert_eq.
  - by rewrite lookup_insert_ne by done.
Qed.

Lemma put_entry_ordered p e r : histories_ordered r → histories_ordered (put_entry p e r).
Proof. intros Hr q. rewrite history_put_entry. case_decide; [by apply upsert_ordered|done]. Qed.

Lemma apply_inv c r r' : applyProviderConfigActivation c r = Ok r' →
  ∃ ab, c_block c = Some ab ∧ r' = put_entry (c_provider c) (entry_of ab c) r.
Proof.
  unfold applyProviderConfigActivation. destruct (c_block c) as [ab|]; [|done]. destruct (ab <? 0); [done|]. intros [= <-]. by exists ab.
Qed.

Lemma apply_all_spec cs r r' : apply_all cs r = Ok r' → histories_ordered r →
  histories_ordered r' ∧ providers r' = providers r ∧
  ∀ p x, x ∈ history p r' ↔ last_entry p (activation_block x) cs = Some x ∨
                             (last_entry p (activation_block x) cs = None ∧ x ∈ history p r).
Proof.
  revert r. induction cs as [|c cs IH]; intros r; cbn [apply_all].
  - intros [= <-] Hr. split_and!; [done..|]. intros p x. split; [by right|]. by intros [?|[_ ?]].
  - destruct (applyProviderConfigActivation c r) as [r1|] eqn:Hc; [|done]. intros Hrun Hr.
    apply apply_inv in Hc as (ab & Hab & ->). destruct (IH _ Hrun (put_entry_ordered _ _ _ Hr)) as (H1 & H2 & H3).
    split_and!; [done..|]. intros p x. rewrite H3, history_put_entry. unfold last_entry. cbn [omap list_omap].
    case_bool_decide as Hm.
    + destruct Hm as [<- Hb]. rewrite Hab in Hb. injection Hb as ->. rewrite decide_True by done.
      rewrite last_cons. destruct (last _) as [y|]; [naive_solver|]. rewrite elem_of_upsert by apply Hr. cbn [activation_block entry_of].
      split; [|naive_solver]. intros [?|[_ [->|[? []]]]]; [done|by left|done].
    + case_decide as Hp; [|done]. subst p. rewrite elem_of_upsert by apply Hr. split.
      * intros [?|[? [->|[? ?]]]]; [by left| |by right]. destruct Hm. split; [done|]. done.
      * intros [?|[? ?]]; [by left|]. right. split; [done|]. right. split; [done|]. intros E. apply Hm. split; [done|]. rewrite Hab, E. done.
Qed.

Lemma up_to_agree b cs cs' r r1 r2 p :
  histories_ordered r → (∀ b', b' ≤ b → last_entry p b' cs = last_entry p b' cs') →
  apply_all cs r = Ok r1 → apply_all cs' r = Ok r2 →
  up_to b (history p r1) = up_to b (history p r2).
Proof.
  intros Hr Heq H1 H2. destruct (apply_all_spec _ _ _ H1 Hr) as (O1 & _ & E1). destruct (apply_all_spec _ _ _ H2 Hr) as (O2 & _ & E2).
  apply ordered_ext; [by apply up_to_ordered..|]. intros x. unfold up_to. rewrite !list_elem_of_filter, E1, E2.
  split; intros [Hb Hx]; (split; [done|]); [rewrite <-Heq by done|rewrite Heq by done]; done.
Qed.

Lemma additional_config_up_to p b r x : histories_ordered r → x ∈ history p r → activation_block x ≤ b →
  getAdditionalConfig p (Some b) r =
  match scan (λ e, Some (additional_config e)) None None (up_to b (history p r)) with
  | Some (Some v) => Some v
  | _ => head (up_to b (history p r)) ≫= additional_config
  end.
Proof.
  intros Hr Hx Hb. unfold getAdditionalConfig. specialize (Hr p). revert Hr Hx. destruct (history p r) as [|first hist]; intros Hr Hx; [by apply not_elem_of_nil in Hx|].
  rewrite scan_up_to by done. assert (Hf : activation_block first ≤ b).
  { apply elem_of_cons in Hx as [->|Hx]; [done|]. unfold ordered in Hr. inversion Hr as [|? ? ? Hlt]; subst. rewrite Forall_forall in Hlt. specialize (Hlt x Hx). lia. }
  assert (head (up_to b (first :: hist)) = Some first) as ->; [|done]. unfold up_to. by rewrite filter_cons_True.
Qed.

Lemma seeded_ordered r : histories_ordered r → histories_ordered (seedProviderConfigGenesis r).
Proof. intros Hr. unfold seedProviderConfigGenesis, DEFAULTS. cbn [fold_left]. by repeat apply put_entry_ordered. Qed.

Lemma fresh_ordered : histories_ordered fresh_registry.
Proof. intros p. unfold history, fresh_registry. cbn. rewrite lookup_empty. constructor. Qed.

(** C24: Governance changes resolve by height alone. Whatever a hub applied and in
    whatever order, what is in force at a block is decided by the last change it
    applied at each block up to it: changes of other blocks may come in any order,
    and those of later blocks are invisible. The model configuration needs an entry
    at or below the block, which every built-in provider has from block 0. *)
Theorem anchored_config_converges r r1 r2 cs cs' p b :
  histories_ordered r → apply_all cs r = Ok r1 → apply_all cs' r = Ok r2 →
  (∀ b', b' ≤ b → last_entry p b' cs = last_entry p b' cs') →
  getMinStake p (Some b) r1 = getMinStake p (Some b) r2 ∧
  getConsensusStrategy p (Some b) r1 = getConsensusStrategy p (Some b) r2 ∧
  ((∃ x, x ∈ history p r1 ∧ activation_block x ≤ b) → getAdditionalConfig p (Some b) r1 = getAdditionalConfig p (Some b) r2).
Proof.
  intros Hr H1 H2 Heq. pose proof (up_to_agree b cs cs' r r1 r2 p Hr Heq H1 H2) as Hup.
  destruct (apply_all_spec _ _ _ H1 Hr) as (O1 & P1 & _). destruct (apply_all_spec _ _ _ H2 Hr) as (O2 & P2 & _).
  unfold getMinStake, getConsensusStrategy, def_prop, getDef. rewrite !scan_up_to, Hup, P1, P2 by done. split_and!; [done..|].
  intros (x & Hx & Hb). assert (Hx2 : x ∈ up_to b (history p r2)) by (rewrite <-Hup; apply list_elem_of_filter; done).
  apply list_elem_of_filter in Hx2 as [_ Hx2]. rewrite (additional_config_up_to p b r1 x), (additional_config_up_to p b r2 x), Hup by done. done.
Qed.

(** ** Examples *)

Definition floor_change (ab : Z) (floor : string) : change :=
  Change "llm" (Some ab) (Some (JObj [])) (Some (JStr floor)) None.

Lemma anchored_config_converges_witness :
  ∃ r1 r2, apply_all [floor_change 120 "40000"; floor_change 100 "30000"; floor_change 300 "5"] (seedProviderConfigGenesis fresh_registry) = Ok r1 ∧
    apply_all [floor_change 100 "30000"; floor_change 120 "40000"] (seedProviderConfigGenesis fresh_registry) = Ok r2 ∧
    getMinStake "llm" (Some 150) r1 = getMinStake "llm" (Some 150) r2 ∧ getMinStake "llm" (Some 150) r2 = Some "40000"%string.
Proof.
  eexists _, _. split; [vm_compute; reflexivity|]. split; [vm_compute; reflexivity|]. split; [|vm_compute; reflexivity].
  refine (proj1 (anchored_config_converges (seedProviderConfigGenesis fresh_registry) _ _
    [floor_change 120 "40000"; floor_change 100 "30000"; floor_change 300 "5"] [floor_change 100 "30000"; floor_change 120 "40000"] "llm" 150 _ _ _ _)).
  - apply seeded_ordered, fresh_ordered.
  - vm_compute. reflexivity.
  - vm_compute. reflexivity.
  - intros b' Hb. unfold last_entry. cbn [omap list_omap c_provider c_block floor_change].
    rewrite (bool_decide_false (_ ∧ Some 300 = Some b')) by (intros [_ [= ?]]; lia).
    do 2 case_bool_decide; cbn [last]; try done. destruct_and!. simplify_eq.
Defined.

Definition provider_row (ab : Z) (value : string) : string * option Z * string := ("ATTESTATION_PROVIDER:llm"%string, Some ab, value).
Definition floor_value (floor : string) : string := stringify (JObj [("min_stake_xchain", JStr floor)]).

(** Two changes of one block: a hub that stays up keeps the one that finalized last,
    a hub that restarts keeps the one with the greater row id. *)
Theorem restarted_hub_disagrees :
  let seeded := seedProviderConfigGenesis fresh_registry in
  let live := applyProviderGovernanceChange "ATTESTATION_PROVIDER:llm" (Some 100) (floor_value "30000")
                (applyProviderGovernanceChange "ATTESTATION_PROVIDER:llm" (Some 100) (floor_value "40000") seeded) in
  getMinStake "llm" (Some 100) live = Some "30000"%string ∧
  match loadGovernanceHistory (Some [provider_row 100 (floor_value "30000"); provider_row 100 (floor_value "40000")]) fresh_registry with
  | Ok r => getMinStake "llm" (Some 100) r = Some "40000"%string
  | Err _ => False
  end.
Proof. vm_compute. split; reflexivity. Qed.
