(* ===== verification/AtLadder.v ===== *)
(** * Attestation ladders

    The schedules that move with the chain while a request waits
    ([src/attestation/escalation.js], [src/consensus/gates/attest_responsible_widening_gate.js],
    [src/attestation/attest_zero_conf_gate.js],
    [src/attest_leader_silence_skip_activation.js]): which member leads, which model
    is asked, how many more members may sign. Two of them divide by a quotient of
    doubles, so the division of doubles is written out. *)

From S2P Require Import Prelude GateRegistry.
From Stdlib Require Import QArith Qround Qpower Lqa.
Open Scope Z_scope.

(** ** Quotients of doubles

    The double nearest to a positive rational: 53 significant bits, ties to even.
    Heights and spans are integers below [2^53], which are doubles themselves, and
    no quotient of two of them leaves the range of normal doubles. *)

Definition two_to (k : Z) : Q := Qpower 2 k.

(** [2^binade q <= q < 2^(binade q + 1)] *)
Definition binade (q : Q) : Z :=
  let k := Z.log2 (Qnum q) - Z.log2 (Zpos (Qden q)) in if Qle_bool (two_to k) q then k else k - 1.

Definition round_even (q : Q) : Z :=
  let f := Qfloor q in
  match (q - inject_Z f ?= 1 # 2)%Q with
  | Lt => f
  | Gt => f + 1
  | Eq => if Z.even f then f else f + 1
  end.

Definition double (q : Q) : Q :=
  if Qle_bool q 0 then 0%Q
  else let e := binade q - 52 in (inject_Z (round_even (q * two_to (- e))) * two_to e)%Q.

(** [a / b] *)
Definition quotient (a b : Q) : Q := double (a / b).

Lemma round_even_Z z : round_even (inject_Z z) = z.
Proof. unfold round_even. rewrite Qfloor_Z. assert (E : (inject_Z z - inject_Z z == 0)%Q) by ring. by rewrite E. Qed.

Lemma round_even_bounds q : Qfloor q ≤ round_even q ≤ Qfloor q + 1.
Proof. unfold round_even. destruct (_ ?= _)%Q; [destruct (Z.even _)| |]; lia. Qed.

Lemma round_even_mono x y : (x <= y)%Q → round_even x ≤ round_even y.
Proof.
  intros Hle. pose proof (Qfloor_resp_le x y Hle). destruct (decide (Qfloor x = Qfloor y)) as [E|Hne].
  - unfold round_even. rewrite E. clear E H. generalize (Qfloor y). intros f.
    assert (Hr : (x - inject_Z f <= y - inject_Z f)%Q) by lra.
    destruct (x - inject_Z f ?= 1 # 2)%Q eqn:Ex; destruct (y - inject_Z f ?= 1 # 2)%Q eqn:Ey; try (destruct (Z.even f)); try lia;
      rewrite <-?Qeq_alt, <-?Qlt_alt, <-?Qgt_alt in *; exfalso; lra.
  - pose proof (round_even_bounds x). pose proof (round_even_bounds y). lia.
Qed.

Lemma two_pos k : (0 < two_to k)%Q.
Proof. by apply Qpower_0_lt. Qed.

Lemma two_plus a b : (two_to (a + b) == two_to a * two_to b)%Q.
Proof. apply Qpower_plus. discriminate. Qed.

Lemma two_le a b : a ≤ b → (two_to a <= two_to b)%Q.
Proof. intros H. by apply Qpower_le_compat_l. Qed.

Lemma two_Z k : 0 ≤ k → (two_to k == inject_Z (2 ^ k))%Q.
Proof. intros H. symmetry. by apply (Zpower_Qpower 2 k). Qed.

Lemma binade_spec q : (0 < q)%Q → (two_to (binade q) <= q)%Q ∧ (q < two_to (binade q + 1))%Q.
Proof.
  intros Hq. assert (Hn : 0 < Qnum q) by (unfold Qlt in Hq; simpl in Hq; lia).
  destruct (Z.log2_spec (Qnum q) Hn) as [Hn1 Hn2]. destruct (Z.log2_spec (Zpos (Qden q)) (Pos2Z.is_pos _)) as [Hd1 Hd2].
  set (ln := Z.log2 (Qnum q)) in *. set (ld := Z.log2 (Zpos (Qden q))) in *. pose proof (Z.log2_nonneg (Qnum q)) as L1. pose proof (Z.log2_nonneg (Zpos (Qden q))) as L2.
  fold ln in L1. fold ld in L2.
  assert (E : (q * inject_Z (Zpos (Qden q)) == inject_Z (Qnum q))%Q) by (unfold Qeq; simpl; lia).
  assert (Hd : (0 < inject_Z (Zpos (Qden q)))%Q) by done.
  assert (Hup : (q < two_to (ln - ld + 1))%Q).
  { apply (Qmult_lt_r _ _ _ Hd). rewrite E. apply (Qlt_le_trans _ (two_to (ln + 1))).
    - rewrite two_Z by lia. rewrite <-Zlt_Qlt. rewrite Z.add_1_r. exact Hn2.
    - replace (ln + 1) with (ln - ld + 1 + ld) by lia. rewrite two_plus. rewrite !(Qmult_comm (two_to (ln - ld + 1))). apply Qmult_le_compat_r.
      + rewrite two_Z by lia. rewrite <-Zle_Qle. exact Hd1.
      + apply Qlt_le_weak, two_pos. }
  assert (Hlow : (two_to (ln - ld - 1) <= q)%Q).
  { apply (Qmult_le_r _ _ _ Hd). rewrite E. apply (Qle_trans _ (two_to ln)).
    - replace ln with (ln - ld - 1 + (ld + 1)) at 2 by lia. rewrite two_plus. rewrite !(Qmult_comm (two_to (ln - ld - 1))). apply Qmult_le_compat_r.
      + rewrite two_Z by lia. rewrite <-Zle_Qle. rewrite Z.add_1_r. lia.
      + apply Qlt_le_weak, two_pos.
    - rewrite two_Z by lia. rewrite <-Zle_Qle. exact Hn1. }
  unfold binade. fold ln ld. destruct (Qle_bool (two_to (ln - ld)) q) eqn:Hb.
  - apply Qle_bool_iff in Hb. done.
  - split; [exact Hlow|]. replace (ln - ld - 1 + 1) with (ln - ld) by lia. apply Qnot_le_lt. intros Hle. apply Qle_bool_iff in Hle. congruence.
Qed.

Lemma binade_mono x y : (0 < x)%Q → (x <= y)%Q → binade x ≤ binade y.
Proof.
  intros Hx Hle. destruct (binade_spec x Hx) as [H1 _]. destruct (binade_spec y) as [_ H2]; [lra|].
  destruct (Z.le_gt_cases (binade x) (binade y)) as [|Hgt]; [done|]. pose proof (two_le (binade y + 1) (binade x) ltac:(lia)). lra.
Qed.

Lemma double_pos q : (0 < q)%Q → (double q == inject_Z (round_even (q * two_to (52 - binade q))) * two_to (binade q - 52))%Q.
Proof.
  intros Hq. unfold double. destruct (Qle_bool q 0) eqn:E; [apply Qle_bool_iff in E; lra|].
  replace (- (binade q - 52)) with (52 - binade q) by lia. reflexivity.
Qed.

Lemma double_range q : (0 < q)%Q → (two_to (binade q) <= double q)%Q ∧ (double q <= two_to (binade q + 1))%Q.
Proof.
  intros Hq. rewrite double_pos by done. destruct (binade_spec q Hq) as [H1 H2]. set (e := binade q) in *.
  pose proof (two_pos (52 - e)) as P1. pose proof (two_pos (e - 52)) as P2.
  assert (L1 : 2 ^ 52 ≤ round_even (q * two_to (52 - e))).
  { rewrite <-(round_even_Z (2 ^ 52)). apply round_even_mono. rewrite <-two_Z by lia.
    replace 52 with (e + (52 - e)) at 1 by lia. rewrite two_plus. apply Qmult_le_compat_r; [done|lra]. }
  assert (L2 : round_even (q * two_to (52 - e)) ≤ 2 ^ 53).
  { rewrite <-(round_even_Z (2 ^ 53)). apply round_even_mono. rewrite <-two_Z by lia.
    replace 53 with (e + 1 + (52 - e)) by lia. rewrite two_plus. apply Qmult_le_compat_r; lra. }
  split.
  - replace e with (52 + (e - 52)) at 1 by lia. rewrite two_plus, two_Z by lia. apply Qmult_le_compat_r; [by rewrite <-Zle_Qle|lra].
  - replace (e + 1) with (53 + (e - 52)) by lia. rewrite two_plus, (two_Z 53) by lia. apply Qmult_le_compat_r; [by rewrite <-Zle_Qle|lra].
Qed.

(** Rounding keeps the order. *)
Lemma double_mono x y : (x <= y)%Q → (double x <= double y)%Q.
Proof.
  intros Hle. destruct (Qlt_le_dec 0 x) as [Hx|Hx].
  2: { unfold double at 1. rewrite (proj2 (Qle_bool_iff x 0) Hx). destruct (Qlt_le_dec 0 y) as [Hy|Hy].
       - destruct (double_range y Hy) as [H _]. pose proof (two_pos (binade y)). lra.
       - unfold double. rewrite (proj2 (Qle_bool_iff y 0) Hy). lra. }
  assert (Hy : (0 < y)%Q) by lra. pose proof (binade_mono x y Hx Hle). destruct (decide (binade x = binade y)) as [E|Hne].
  - rewrite !double_pos, E by done. pose proof (two_pos (binade y - 52)). pose proof (two_pos (52 - binade y)). apply Qmult_le_compat_r; [|lra].
    rewrite <-Zle_Qle. apply round_even_mono. apply Qmult_le_compat_r; lra.
  - destruct (double_range x Hx) as [_ H1]. destruct (double_range y Hy) as [H2 _]. pose proof (two_le (binade x + 1) (binade y) ltac:(lia)). lra.
Qed.

Lemma double_positive q : (0 < q)%Q → (0 < double q)%Q.
Proof. intros Hq. destruct (double_range q Hq) as [H _]. pose proof (two_pos (binade q)). lra. Qed.

Lemma quotient_floor_mono (a b : Z) (s : Q) : a ≤ b → (0 < s)%Q → Qfloor (quotient (inject_Z a) s) ≤ Qfloor (quotient (inject_Z b) s).
Proof.
  intros Hab Hs. apply Qfloor_resp_le, double_mono. unfold Qdiv. apply Qmult_le_compat_r; [by rewrite <-Zle_Qle|].
  apply Qlt_le_weak, Qinv_lt_0_compat, Hs.
Qed.

(** ** Activation rows *)

Definition ATTEST_ZERO_CONF_ACTIVATION : jsdata := JObj [("mainnet", JNull); ("testnet", JNum 151800); ("regtest", JNum 0)].
Definition ATTEST_RESPONSIBLE_WIDENING_ACTIVATION : jsdata := JObj [("mainnet", JNum 0); ("testnet", JNum 150780); ("regtest", JNum 0)].
Definition ATTEST_LEADER_SILENCE_SKIP_ACTIVATION : jsdata := JObj [("mainnet", JNull); ("testnet", JNum 152400); ("regtest", JNum 0)].

(** [TABLE[network]], then [parseInt(block) >= threshold]; null and missing rows are
    off. *)
Definition height_active (table : jsdata) (network : string) (block : Z) : bool :=
  Gate.reached (Gate.own network table) (Gate.CNum block).

Definition isZeroConfActive (requestBlock : Z) (network : string) : bool := height_active ATTEST_ZERO_CONF_ACTIVATION network requestBlock.
Definition isLeaderSilenceSkipActive (blockIndex : Z) (network : string) : bool :=
  height_active ATTEST_LEADER_SILENCE_SKIP_ACTIVATION network blockIndex.

(** [assertZeroConfOrdering]: whether the boot is stopped. [mirror] and the others
    are the rows of the network, [None] when null or missing. *)
Definition row_height (table : jsdata) (network : string) : option Z :=
  match Gate.own network table with Some (JNum t) => Some t | _ => None end.

Definition zero_conf_misordered (zc mirror widening : option Z) : bool :=
  match zc with
  | None => false
  | Some zc => match mirror, widening with
               | Some m, Some w => zc <? Z.max m w
               | _, _ => true
               end
  end.

Definition assertZeroConfOrdering (mirrorTable : jsdata) (skip : bool) (network : string) : result unit unit :=
  if zero_conf_misordered (row_height ATTEST_ZERO_CONF_ACTIVATION network) (row_height mirrorTable network)
       (row_height ATTEST_RESPONSIBLE_WIDENING_ACTIVATION network) && negb skip && (String.eqb network "mainnet" || String.eqb network "testnet")
  then Err tt else Ok tt.

(** ** Leaders *)

Definition MAX_LEADER_ROTATIONS : nat := 3.
Definition DEFAULT_ROTATION_WINDOW_BLOCKS : Z := 2.

Definition blocksElapsed (latestBlock requestBlock confirmations : Z) : Z :=
  let d := latestBlock - (requestBlock + confirmations) in if 0 <? d then d else 0.

Definition rotation_window (rotationWindowBlocks : Z) : Z :=
  if rotationWindowBlocks <? 1 then DEFAULT_ROTATION_WINDOW_BLOCKS else rotationWindowBlocks.

Definition escalationStep (latestBlock requestBlock confirmations rotationWindowBlocks : Z) : Z :=
  Qfloor (quotient (inject_Z (blocksElapsed latestBlock requestBlock confirmations)) (inject_Z (rotation_window rotationWindowBlocks))).

(** [nextLiveSlot(from, from + n, silentSlots)] *)
Fixpoint nextLiveSlot (from n : nat) (silent : nat → bool) : option nat :=
  match n with
  | O => None
  | S n => if silent from then nextLiveSlot (S from) n silent else Some from
  end.

Fixpoint rotate (rotations idx count : nat) (silent : nat → bool) : nat :=
  match rotations with
  | O => idx
  | S r => match nextLiveSlot (S idx) (count - S idx) silent with
           | Some next => rotate r next count silent
           | None => idx                                (* a dead end holds *)
           end
  end.

Definition effectiveLeaderSlot (step : Z) (count : nat) (silent : nat → bool) : nat :=
  if (count <=? 1)%nat then 0%nat
  else match nextLiveSlot 0 count silent with
       | None => (count - 1)%nat
       | Some idx => rotate (Nat.min (Z.to_nat step) MAX_LEADER_ROTATIONS) idx count silent
       end.

Definition leaderIndex (step : Z) (count : nat) : nat := effectiveLeaderSlot step count (λ _, false).

Definition isProvenSilent (latestBlock : Z) (sinceBlock : option Z) (rotationWindowBlocks : Z) : bool :=
  match sinceBlock with
  | Some since => rotation_window rotationWindowBlocks <=? latestBlock - since
  | None => false
  end.

(** ** Models *)

(** [Math.floor(elapsed / (span / slots))] *)
Definition segment_index (elapsed span slots : Z) : Z :=
  Qfloor (quotient (inject_Z elapsed) (quotient (inject_Z span) (inject_Z slots))).

(** [Number(deadlineBlock)] may be no number. *)
Definition modelIndex (latestBlock requestBlock confirmations : Z) (deadlineBlock : option Z) (modelCount : nat) : Z :=
  let n := Z.of_nat modelCount in
  if n <=? 1 then 0
  else match deadlineBlock with
       | None => 0
       | Some dl =>
           let span := dl - (requestBlock + confirmations) in
           if span <=? 0 then 0
           else Z.max 0 (Z.min (segment_index (blocksElapsed latestBlock requestBlock confirmations) span n) (n - 1))
       end.

(** ** Widening *)

Definition wide_confirmations : Z := 3.
Definition wide_maxSlots : Z := 2.
Definition wide2_startOffset : Z := 0.
Definition wide2_headroom : Z := 1.
Definition wide2_maxSlots : Z := 2.

Definition widenSlotsV2 (at_ req dl : Z) : Z :=
  let start := req + wide2_startOffset in
  let span := dl - start in
  if span <=? 0 then wide2_headroom
  else let elapsed := at_ - start in
       if elapsed <=? 0 then wide2_headroom
       else wide2_headroom + Z.min (segment_index elapsed span (wide2_maxSlots + 1)) wide2_maxSlots.

Definition widenSlots (at_ req : Z) (deadline : option Z) (network : string) : Z :=
  match row_height ATTEST_RESPONSIBLE_WIDENING_ACTIVATION network, deadline with
  | Some threshold, Some dl =>
      if req <? threshold then 0
      else if isZeroConfActive req network then widenSlotsV2 at_ req dl
      else let start := req + wide_confirmations in
           let span := dl - start in
           if span <=? 0 then 0
           else let elapsed := at_ - start in
                if elapsed <=? 0 then 0
                else Z.max 0 (Z.min (segment_index elapsed span (wide_maxSlots + 1)) wide_maxSlots)
  | _, _ => 0
  end.

(** ** The ladder is a rank among the live slots *)

Definition live_slots (count : nat) (silent : nat → bool) : list nat := filter (λ i, silent i = false) (seq 0 count).

(** The slot of the step: as far down the live slots as there have been rotations,
    at most three, and at most to the last one; without a live slot, the last slot. *)
Definition ranked_slot (step : Z) (count : nat) (silent : nat → bool) : nat :=
  let live := live_slots count silent in
  default (count - 1)%nat (live !! Nat.min (Nat.min (Z.to_nat step) MAX_LEADER_ROTATIONS) (length live - 1)).

Section Slots.
Context (silent : nat → bool).
Abbreviation live l := (filter (λ i, silent i = false) l).

Lemma next_live_spec from n :
  match nextLiveSlot from n silent with
  | Some i => live (seq from n) = i :: live (seq (S i) (from + n - S i)) ∧ (from ≤ i < from + n)%nat
  | None => live (seq from n) = []
  end.
Proof.
  revert from. induction n as [|n IH]; intros from; cbn [nextLiveSlot seq]; [done|]. rewrite filter_cons. destruct (silent from) eqn:E.
  - rewrite decide_False by done. specialize (IH (S from)). destruct (nextLiveSlot (S from) n silent) as [i|]; [|done].
    destruct IH as [IH ?]. split; [|lia]. rewrite IH. by replace (from + S n - S i)%nat with (S from + n - S i)%nat by lia.
  - rewrite decide_True by done. split; [|lia]. by replace (from + S n - S from)%nat with n by lia.
Qed.

Lemma rotate_rank r idx count : (idx < count)%nat →
  let rest := live (seq (S idx) (count - S idx)) in
  (idx :: rest) !! Nat.min r (length rest) = Some (rotate r idx count silent).
Proof.
  revert idx. induction r as [|r IH]; intros idx Hi; cbn zeta; cbn [rotate]; [done|].
  pose proof (next_live_spec (S idx) (count - S idx)) as H. destruct (nextLiveSlot (S idx) (count - S idx) silent) as [next|].
  - destruct H as [-> Hn]. replace (S idx + (count - S idx) - S next)%nat with (count - S next)%nat by lia. cbn [length].
    rewrite <-Nat.succ_min_distr. cbn [lookup list_lookup]. apply IH. lia.
  - by rewrite H.
Qed.

Lemma slot_is_ranked step count : effectiveLeaderSlot step count silent = ranked_slot step count silent.
Proof.
  unfold effectiveLeaderSlot, ranked_slot, live_slots. set (rot := Nat.min _ MAX_LEADER_ROTATIONS).
  destruct (Nat.leb_spec count 1).
  - destruct count as [|[|]]; [by destruct rot| |lia]. cbn [seq]. rewrite filter_cons, filter_nil. case_decide; [|done]. cbn. by rewrite Nat.min_0_r.
  - pose proof (next_live_spec 0 count) as H'. destruct (nextLiveSlot 0 count silent) as [idx|].
    + destruct H' as [-> Hi]. replace (0 + count - S idx)%nat with (count - S idx)%nat by lia. cbn [length].
      replace (S _ - 1)%nat with (length (live (seq (S idx) (count - S idx)))) by lia. by rewrite (rotate_rank rot idx count) by lia.
    + rewrite H'. done.
Qed.

Lemma elem_of_live_slots count i : i ∈ live_slots count silent ↔ silent i = false ∧ (i < count)%nat.
Proof. unfold live_slots. rewrite list_elem_of_filter, elem_of_seq. naive_solver lia. Qed.

Lemma slot_in_range step count : (0 < count)%nat → (effectiveLeaderSlot step count silent < count)%nat.
Proof.
  intros Hc. rewrite slot_is_ranked. unfold ranked_slot. destruct (live_slots count silent !! _) as [i|] eqn:E; cbn; [|lia].
  apply list_elem_of_lookup_2, elem_of_live_slots in E. lia.
Qed.

(** A live slot leads as long as there is one. *)
Lemma slot_live step count i : silent i = false → (i < count)%nat → silent (effectiveLeaderSlot step count silent) = false.
Proof.
  intros Hi Hc. rewrite slot_is_ranked. unfold ranked_slot. assert (Hin : i ∈ live_slots count silent) by (apply elem_of_live_slots; done).
  destruct (live_slots count silent !! _) as [j|] eqn:E; cbn.
  - apply list_elem_of_lookup_2, elem_of_live_slots in E. naive_solver.
  - apply lookup_ge_None in E. destruct (live_slots count silent); [by apply not_elem_of_nil in Hin|cbn in E; lia].
Qed.
End Slots.

(** ** The ladders only move forward *)

Lemma inject_pos z : 0 < z → (0 < inject_Z z)%Q.
Proof. intros H. change 0%Q with (inject_Z 0). by rewrite <-Zlt_Qlt. Qed.

Lemma segment_index_mono e e' span slots : e ≤ e' → 0 < span → 0 < slots → segment_index e span slots ≤ segment_index e' span slots.
Proof.
  intros He Hs Hn. apply quotient_floor_mono; [done|]. apply double_positive. unfold Qdiv. apply Qmult_lt_0_compat.
  - by apply inject_pos.
  - by apply Qinv_lt_0_compat, inject_pos.
Qed.

Lemma segment_index_0 span slots : segment_index 0 span slots = 0.
Proof.
  assert (H : ∀ q, double (inject_Z 0 * q) = 0%Q).
  { intros q. unfold double. rewrite (proj2 (Qle_bool_iff _ 0)); [done|]. unfold Qle. simpl. lia. }
  unfold segment_index at 1. unfold quotient at 1. unfold Qdiv at 1. by rewrite H.
Qed.

Lemma blocksElapsed_mono b b' r c : b ≤ b' → 0 ≤ blocksElapsed b r c ≤ blocksElapsed b' r c.
Proof. intros H. unfold blocksElapsed. do 2 on_if; bools; lia. Qed.

Lemma escalation_mono b b' r c w : b ≤ b' → escalationStep b r c w ≤ escalationStep b' r c w.
Proof.
  intros H. apply quotient_floor_mono; [by apply blocksElapsed_mono|]. apply inject_pos. unfold rotation_window, DEFAULT_ROTATION_WINDOW_BLOCKS.
  on_if; bools; lia.
Qed.

Lemma model_mono b b' r c dl n : b ≤ b' → 0 ≤ modelIndex b r c dl n ≤ modelIndex b' r c dl n.
Proof.
  intros H. unfold modelIndex. destruct (Z.leb_spec (Z.of_nat n) 1); [done|]. destruct dl as [dl|]; [|done].
  destruct (Z.leb_spec (dl - (r + c)) 0); [done|].
  pose proof (segment_index_mono (blocksElapsed b r c) (blocksElapsed b' r c) (dl - (r + c)) (Z.of_nat n)) as Hm.
  pose proof (blocksElapsed_mono b b' r c H). lia.
Qed.

Lemma widen_bounds b r dl net : 0 ≤ widenSlots b r dl net ≤ wide2_headroom + wide2_maxSlots.
Proof.
  unfold widenSlots, widenSlotsV2, wide2_headroom, wide2_maxSlots, wide_maxSlots. destruct (row_height _ _) as [t|]; [|done]. destruct dl as [dl|]; [|done].
  destruct (r <? t); [done|]. destruct (isZeroConfActive r net).
  - destruct (Z.leb_spec (dl - (r + wide2_startOffset)) 0); [done|]. destruct (Z.leb_spec (b - (r + wide2_startOffset)) 0) as [|Hpos]; [done|].
    pose proof (segment_index_mono 0 (b - (r + wide2_startOffset)) (dl - (r + wide2_startOffset)) (2 + 1)) as Hm.
    rewrite segment_index_0 in Hm. lia.
  - destruct (Z.leb_spec (dl - (r + wide_confirmations)) 0); [done|]. destruct (Z.leb_spec (b - (r + wide_confirmations)) 0); [done|lia].
Qed.

(** Later tips never take a slot away. *)
Lemma widen_mono b b' r dl net : b ≤ b' → widenSlots b r dl net ≤ widenSlots b' r dl net.
Proof.
  intros H. pose proof (widen_bounds b' r dl net) as Hb. revert Hb. unfold widenSlots, widenSlotsV2, wide2_headroom, wide2_maxSlots, wide_maxSlots.
  destruct (row_height _ _) as [t|]; [|done]. destruct dl as [dl|]; [|done]. destruct (r <? t); [done|]. destruct (isZeroConfActive r net).
  - destruct (Z.leb_spec (dl - (r + wide2_startOffset)) 0); [done|].
    destruct (Z.leb_spec (b - (r + wide2_startOffset)) 0), (Z.leb_spec (b' - (r + wide2_startOffset)) 0); try lia.
    + intros Hb. pose proof (segment_index_mono 0 (b' - (r + wide2_startOffset)) (dl - (r + wide2_startOffset)) (2 + 1)) as Hm.
      rewrite segment_index_0 in Hm. lia.
    + intros _. pose proof (segment_index_mono (b - (r + wide2_startOffset)) (b' - (r + wide2_startOffset)) (dl - (r + wide2_startOffset)) (2 + 1)). lia.
  - destruct (Z.leb_spec (dl - (r + wide_confirmations)) 0); [done|].
    destruct (Z.leb_spec (b - (r + wide_confirmations)) 0), (Z.leb_spec (b' - (r + wide_confirmations)) 0); try lia.
    pose proof (segment_index_mono (b - (r + wide_confirmations)) (b' - (r + wide_confirmations)) (dl - (r + wide_confirmations)) (2 + 1)). lia.
Qed.
