(* ===== verification/AtSeat.v ===== *)
(** * Attestation: who may sign

    The responsible set of a request ([src/attestation/round/responsible_set.js]): the
    provider's stake floor, the hash order, one slot per staking source, and the
    slots the widening ladder adds; and the order in which the publisher's failover
    walks the same set ([src/attestation/publisher/responsible.js]). *)

From S2P Require Import Prelude Ordered GateRegistry BigNum Quorum Json AttestWire OracleBand BcMath Admission AtState AtCanon ProviderConfig AtLadder.
From Stdlib Require Import QArith_base.
Open Scope Z_scope.

(** A row of the capability snapshot. *)
Record validator := Validator { v_pubkey : option string; v_source : option string; v_weight : option json }.

Record seat := Seat { s_pubkey : string; s_source : option string; s_hash : string }.

Section Seats.
Context `{BigNumber} (h : env).

(** ** The selection *)

Definition usable (v : option json) : option string :=
  match v with
  | None | Some JNull | Some (JBool _) => None
  | Some v => let s := trim (js_text v) in if plain_decimal s then Some s else None
  end.

Definition meetsProviderFloor (weight minStake : option json) : bool :=
  match usable minStake with
  | None => false
  | Some floor => match usable weight with
                  | None => false
                  | Some w => bcgte (bcnum w) (bcnum floor)
                  end
  end.

Definition seat_of (requestId : string) (v : validator) : seat :=
  let pk := toLowerCase (js_String (v_pubkey v)) in
  Seat pk (v_source v) (hexDigest h (requestId +:+ pk)).

Definition hash_le (a b : seat) : bool := negb (str_lt (s_hash b) (s_hash a)).

Fixpoint one_per_source (seen : list string) (l : list seat) : list seat :=
  match l with
  | [] => []
  | v :: l => match s_source v with
              | None => v :: one_per_source seen l
              | Some src => if bool_decide (src ∈ seen) then one_per_source seen l
                            else v :: one_per_source (src :: seen) l
              end
  end.

Definition set_size (redundancy widen : Z) : nat := Z.to_nat (Z.max 1 redundancy + Z.max 0 widen).

Definition computeResponsibleSet (validators : list validator) (requestId : string) (redundancy : Z) (weighted : bool)
    (minStake : option json) (widen : Z) : list seat :=
  let validators := if weighted then filter (λ v, meetsProviderFloor (v_weight v) minStake = true) validators else validators in
  let withHash := isort hash_le (map (seat_of requestId) validators) in
  let withHash := if weighted then one_per_source [] withHash else withHash in
  take (set_size redundancy widen) withHash.

(** ** The set of a round *)

Record seating := Seating { st_responsible : list seat; st_widen : Z; st_floor : option string }.

Inductive refusal := NoFloor | Unfinalizable.

Definition widening (latestBlock snapshotBlk : Z) (deadline : option Z) : Z :=
  if 0 <? latestBlock then widenSlots latestBlock snapshotBlk deadline (network h) else 0.

Definition responsibleSetFor (reg : registry) (rid : string) (deadline : option Z) (validators : list validator)
    (snapshotBlk latestBlock redundancy : Z) (providerId : string) (weighted : bool) : result refusal seating :=
  let providerFloor := getMinStake providerId (Some snapshotBlk) reg in
  if weighted && bool_decide (providerFloor = None) then Err NoFloor
  else
    let widen := widening latestBlock snapshotBlk deadline in
    let responsible := computeResponsibleSet validators rid redundancy weighted (JStr <$> providerFloor) widen in
    if Z.of_nat (length responsible) <? Z.max 1 redundancy then Err Unfinalizable
    else Ok (Seating responsible widen providerFloor).

(** ** The publisher's copy *)

(** [computeResponsible]: [None] is its [null]. [floor]: what the registry answers for
    the provider of the event. *)
Definition computeResponsible (snapshot : option (list validator)) (rid : string) (redundancy : Z) (weighted : bool)
    (floor : option string) (widen : Z) : option (list string) :=
  match snapshot with
  | None | Some [] => None
  | Some validators =>
      let rank validators :=
        let withHash := isort hash_le (map (seat_of rid) validators) in
        let withHash := if weighted then one_per_source [] withHash else withHash in
        Some (s_pubkey <$> take (set_size redundancy widen) withHash) in
      if weighted
      then match floor with
           | None => None
           | Some floor => match filter (λ v, meetsProviderFloor (v_weight v) (Some (JStr floor)) = true) validators with
                           | [] => None
                           | vs => rank vs
                           end
           end
      else rank validators
  end.

(** [ordered.indexOf(key)] *)
Fixpoint index_of (key : string) (l : list string) : option nat :=
  match l with [] => None | x :: l => if String.eqb x key then Some 0%nat else S <$> index_of key l end.

(** [myRank]: of a queue entry's set ([None] or empty: it could not be computed) and
    recorded leader. *)
Definition myRank (me : option string) (responsible : option (list string)) (leaderPubkey : option string) : option Z :=
  match me with
  | None => None
  | Some me =>
      let mine := toLowerCase me in
      match responsible with
      | Some ((_ :: _) as keys) =>
          let ordered := toLowerCase <$> keys in
          match index_of mine ordered with
          | None => None
          | Some idx =>
              let leaderIdx := match leaderPubkey with
                               | Some l => default 0%nat (index_of (toLowerCase l) ordered)
                               | None => 0%nat
                               end in
              let n := Z.of_nat (length ordered) in
              Some ((Z.of_nat idx - Z.of_nat leaderIdx + n) mod n)
          end
      | _ => match leaderPubkey with
             | Some l => Some (if String.eqb (toLowerCase l) mine then 0 else 1)
             | None => Some 0
             end
      end
  end.
End Seats.

(** ** Hash order *)

#[export] Instance seat_eq_dec : EqDecision seat.
Proof. solve_decision. Defined.

Definition before (a b : seat) : Prop := str_lt (s_hash a) (s_hash b) = true.
#[export] Instance before_dec a b : Decision (before a b) := decide (str_lt (s_hash a) (s_hash b) = true).

Lemma before_spec a b : before a b ↔ String.leb (s_hash a) (s_hash b) = true ∧ s_hash a ≠ s_hash b.
Proof.
  unfold before, str_lt, String.ltb, String.leb. rewrite (String.compare_antisym (s_hash a) (s_hash b)).
  destruct (String.compare (s_hash b) (s_hash a)) eqn:E; cbn; split; try done.
  - intros [_ Hne]. apply String.compare_eq_iff in E. congruence.
  - by intros [? _].
  - intros _. split; [done|]. intros Heq. rewrite Heq in E. pose proof (String.compare_antisym (s_hash b) (s_hash b)) as Ea. by rewrite E in Ea.
Qed.

Lemma hash_le_leb a b : hash_le a b = String.leb (s_hash a) (s_hash b).
Proof.
  unfold hash_le, str_lt, String.ltb, String.leb. rewrite (String.compare_antisym (s_hash a) (s_hash b)).
  destruct (String.compare (s_hash b) (s_hash a)); cbn; reflexivity.
Qed.

Lemma hash_le_trans a b c : hash_le a b = true → hash_le b c = true → hash_le a c = true.
Proof. rewrite !hash_le_leb. apply string_leb_trans. Qed.

Lemma hash_le_total a b : hash_le a b = true ∨ hash_le b a = true.
Proof. rewrite !hash_le_leb. apply string_leb_total. Qed.

Lemma before_trans a b c : before a b → before b c → before a c.
Proof.
  rewrite !before_spec. intros [H1 N1] [H2 N2]. split; [by eapply string_leb_trans|]. intros E. rewrite <-E in H2. apply N1. by apply string_leb_antisym.
Qed.

Lemma before_irrefl a : ¬ before a a.
Proof. rewrite before_spec. by intros [_ ?]. Qed.

Lemma before_asym a b : before a b → ¬ before b a.
Proof. intros H1 H2. by apply (before_irrefl a), (before_trans a b). Qed.

Lemma before_total a b : s_hash a ≠ s_hash b → before a b ∨ before b a.
Proof. intros Hne. rewrite !before_spec. destruct (string_leb_total (s_hash a) (s_hash b)); [left|right]; by split. Qed.

Abbreviation ranked := (StronglySorted before).

Lemma isort_ranked l : NoDup (s_hash <$> l) → ranked (isort hash_le l).
Proof.
  intros Hnd. assert (Hn : NoDup (s_hash <$> isort hash_le l)) by (rewrite isort_perm; done).
  pose proof (isort_sorted hash_le hash_le_trans hash_le_total l) as Hs. revert Hn Hs. generalize (isort hash_le l). clear.
  intros l. induction l as [|x l IH]; intros Hn Hs; [constructor|]. rewrite fmap_cons, NoDup_cons in Hn. destruct Hn as [Hx Hn].
  inversion Hs as [|? ? Hs' Hle]; subst. constructor; [by apply IH|]. rewrite Forall_forall in Hle |- *. intros y Hy.
  rewrite before_spec, <-hash_le_leb. split; [by apply Hle|]. intros E. apply Hx. rewrite E. by apply list_elem_of_fmap_2.
Qed.

(** The position of a seat is the number of seats before it. *)
Lemma elem_of_take_ranked n l s : ranked l →
  s ∈ take n l ↔ s ∈ l ∧ (length (filter (λ c, before c s) l) < n)%nat.
Proof.
  intros Hs. revert n. induction Hs as [|x l Hs IH Hx]; intros n; [rewrite take_nil; set_solver|]. rewrite Forall_forall in Hx.
  destruct n as [|n]; [cbn; split; [by intros ?%not_elem_of_nil|lia]|]. rewrite firstn_cons, !elem_of_cons, IH. clear IH. split.
  - intros [->|[Hin Hlt]].
    + split; [by left|]. replace (filter _ _) with (@nil seat); [cbn; lia|]. symmetry. rewrite filter_cons_False by apply before_irrefl.
      clear Hs. induction l as [|y l IH]; [done|]. rewrite filter_cons_False; [apply IH; intros z Hz; apply Hx; by right|].
      intros Hy. apply (before_asym x y); [apply Hx, list_elem_of_here|done].
    + split; [by right|]. rewrite filter_cons. case_decide; cbn [length]; lia.
  - intros [[->|Hin] Hlt]; [by left|right]. split; [done|]. rewrite filter_cons_True in Hlt by (by apply Hx). cbn [length] in Hlt. lia.
Qed.

Lemma one_per_source_incl seen l s : s ∈ one_per_source seen l → s ∈ l.
Proof.
  revert seen. induction l as [|v l IH]; intros seen; cbn [one_per_source]; [done|]. destruct (s_source v) as [src|].
  - case_bool_decide; [intros ?; right; eauto|]. intros [->|?]%elem_of_cons; [by left|right; eauto].
  - intros [->|?]%elem_of_cons; [by left|right; eauto].
Qed.

Lemma one_per_source_ranked seen l : ranked l → ranked (one_per_source seen l).
Proof.
  intros Hs. revert seen. induction Hs as [|x l Hs IH Hx]; intros seen; cbn [one_per_source]; [constructor|].
  assert (Hcons : ∀ seen', ranked (x :: one_per_source seen' l)).
  { intros seen'. constructor; [apply IH|]. rewrite Forall_forall in Hx |- *. intros y ?%one_per_source_incl. by apply Hx. }
  destruct (s_source x); [case_bool_decide|]; auto.
Qed.

(** The best seat of its source among [l]. *)
Definition champion (l : list seat) (s : seat) : Prop :=
  s ∈ l ∧ Forall (λ s', s_source s' = s_source s → s_source s ≠ None → ¬ before s' s) l.
#[export] Instance champion_dec l s : Decision (champion l s) := _.

Lemma champion_spec l s : champion l s ↔ s ∈ l ∧ ∀ s', s' ∈ l → s_source s' = s_source s → s_source s ≠ None → ¬ before s' s.
Proof. unfold champion. by rewrite Forall_forall. Qed.

Lemma elem_of_one_per_source seen l s : ranked l →
  s ∈ one_per_source seen l ↔ champion l s ∧ (∀ src, s_source s = Some src → src ∉ seen).
Proof.
  intros Hs. revert seen. induction Hs as [|x l Hs IH Hx]; intros seen; cbn [one_per_source].
  { rewrite champion_spec. set_solver. }
  rewrite Forall_forall in Hx.
  assert (Hhead : champion (x :: l) x).
  { rewrite champion_spec. split; [by left|]. intros s' [->|Hin]%elem_of_cons _ _; [apply before_irrefl|]. apply before_asym. by apply Hx. }
  assert (Htail : s ∈ l → champion (x :: l) s ↔ champion l s ∧ (s_source s ≠ None → s_source x ≠ s_source s)).
  { intros Hin. rewrite !champion_spec. split.
    - intros [_ Hc]. split; [split; [done|]; intros s' Hs'; apply Hc; by right|]. intros Hno E. apply (Hc x); [by left|done..|by apply Hx].
    - intros [[_ Hc] Hno]. split; [by right|]. intros s' [->|Hs']%elem_of_cons E Hne; [by destruct (Hno Hne)|by apply Hc]. }
  assert (Hx_l : ¬ x ∈ l) by (intros Hin; apply (before_irrefl x); by apply Hx).
  destruct (s_source x) as [src|] eqn:Esrc; [case_bool_decide as Hseen|].
  - rewrite IH. split.
    + intros [Hc Hn]. split; [|done]. apply Htail; [by destruct Hc|]. split; [done|]. intros _ E. by apply (Hn src).
    + intros [[Hin Hc] Hn]. assert (s ∈ l) as Hl by (apply elem_of_cons in Hin as [->|]; [by destruct (Hn src)|done]).
      split; [|done]. by apply Htail.
  - rewrite elem_of_cons, IH. split.
    + intros [->|[Hc Hn]]; [split; [done|]; intros ? [= <-]%(eq_trans (eq_sym Esrc)); done|]. split; [|set_solver].
      apply Htail; [by destruct Hc|]. split; [done|]. intros _ E. apply (Hn src); [done|by left].
    + intros [Hc Hn]. pose proof Hc as [[->|Hin]%elem_of_cons _]; [by left|right]. apply Htail in Hc as [Hc Hno]; [|done]. split; [done|].
      intros src' Es [->|Hin']%elem_of_cons; [|by apply (Hn src')]. apply Hno; congruence.
  - rewrite elem_of_cons, IH. split.
    + intros [->|[Hc Hn]]; [split; [done|]; intros ? ?; congruence|]. split; [|done]. apply Htail; [by destruct Hc|]. split; [done|]. congruence.
    + intros [Hc Hn]. pose proof Hc as [[->|Hin]%elem_of_cons _]; [by left|right]. apply Htail in Hc as [Hc _]; done.
Qed.

(** ** What the selection picks *)

Section Picks.
Context `{BigNumber} `{!BigNumberLaws _} (h : env).

(** The rows that may sit: all of them, or those that clear the floor. *)
Definition contenders (validators : list validator) (requestId : string) (weighted : bool) (minStake : option json) : list seat :=
  map (seat_of h requestId) (if weighted then filter (λ v, meetsProviderFloor (v_weight v) minStake = true) validators else validators).

(** Below the stake-weighted activation every row stands; above it, the best of its
    source. *)
Definition stands (all : list seat) (weighted : bool) (s : seat) : Prop := s ∈ all ∧ (weighted = true → champion all s).
#[export] Instance stands_dec all weighted s : Decision (stands all weighted s) := _.

Definition ranking (validators : list validator) (requestId : string) (weighted : bool) (minStake : option json) : list seat :=
  let withHash := isort hash_le (contenders validators requestId weighted minStake) in
  if weighted then one_per_source [] withHash else withHash.

Lemma compute_ranking vs rid redundancy weighted floor widen :
  computeResponsibleSet h vs rid redundancy weighted floor widen = take (set_size redundancy widen) (ranking vs rid weighted floor).
Proof. unfold computeResponsibleSet, ranking, contenders. by destruct weighted. Qed.

Lemma plain_is_decimal s : plain_decimal s = true → Decimal.is_decimal s = true.
Proof.
  unfold plain_decimal, Decimal.is_decimal. destruct s as [|c s]; [done|]. intros Hp.
  assert (Hd : is_digit c = true).
  { cbn [Decimal.span_digits] in Hp. destruct (is_digit c); [done|]. done. }
  rewrite Exact.strip_sign_digit by done. cbn [snd]. destruct (Decimal.span_digits (String c s)) as [ip rest]. bools. rewrite H0. cbn [negb].
  destruct rest as [|d fp]; [done|]. apply andb_true_iff in H1 as [[-> _]%andb_true_iff ->]. done.
Qed.

Lemma usable_decimal v s : usable v = Some s → Decimal.is_decimal s = true.
Proof.
  unfold usable. destruct v as [[]|]; try done; (destruct (plain_decimal _) eqn:E; [|done]); intros [= <-]; by apply plain_is_decimal.
Qed.

(** The floor test compares the numerals exactly. *)
Lemma meets_floor_exact weight minStake : meetsProviderFloor weight minStake = true ↔
  ∃ w f, usable weight = Some w ∧ usable minStake = Some f ∧ (Decimal.value f <= Decimal.value w)%Q.
Proof.
  unfold meetsProviderFloor. destruct (usable minStake) as [f|] eqn:Ef; [|naive_solver]. destruct (usable weight) as [w|] eqn:Ew; [|naive_solver].
  pose proof (usable_decimal _ _ Ef). pose proof (usable_decimal _ _ Ew). unfold bcgte, bn_gte. rewrite !bcnum_decimal, bn_cmp_val, !bignumber_val by done.
  split.
  - intros Hc. exists w, f. split_and!; [done..|]. destruct (_ ?= _)%Q eqn:E; [apply Qeq_alt in E; by rewrite E; apply Qle_refl|done|apply Qgt_alt in E; by apply Qlt_le_weak].
  - intros (w' & f' & [= <-] & [= <-] & Hle). destruct (_ ?= _)%Q eqn:E; [done| |done]. apply Qlt_alt in E. by apply Qlt_not_le in E.
Qed.
End Picks.

Section Theorems.
Context `{BigNumber} `{!BigNumberLaws _} (h : env).

Lemma elem_of_ranking vs rid weighted floor s : NoDup (s_hash <$> contenders h vs rid weighted floor) →
  ranked (ranking h vs rid weighted floor) ∧
  (s ∈ ranking h vs rid weighted floor ↔ stands (contenders h vs rid weighted floor) weighted s).
Proof.
  intros Hnd. pose proof (isort_ranked _ Hnd) as Hr. unfold ranking, stands. set (all := contenders h vs rid weighted floor) in *.
  destruct weighted.
  - split; [by apply one_per_source_ranked|]. rewrite elem_of_one_per_source, !champion_spec by done. setoid_rewrite isort_perm.
    split; [naive_solver|]. intros [_ Hc]. split; [by apply Hc|]. intros ? _. apply not_elem_of_nil.
  - split; [done|]. rewrite isort_perm. naive_solver.
Qed.

(** Hubs that hold the rows in different orders pick the same set. *)
Lemma responsible_set_order vs vs' rid redundancy weighted floor widen :
  vs ≡ₚ vs' → NoDup (s_hash <$> contenders h vs rid weighted floor) →
  computeResponsibleSet h vs rid redundancy weighted floor widen = computeResponsibleSet h vs' rid redundancy weighted floor widen.
Proof.
  intros Hp Hnd. rewrite !compute_ranking. f_equal. unfold ranking.
  assert (E : contenders h vs rid weighted floor ≡ₚ contenders h vs' rid weighted floor).
  { unfold contenders. destruct weighted; apply Permutation_map; by rewrite Hp. }
  rewrite (isort_perm_eq hash_le hash_le_trans hash_le_total _ _ E); [done|]. intros x y Hx Hy. rewrite !hash_le_leb. intros H1 H2.
  apply (NoDup_fmap_eq s_hash _ x y Hnd Hx Hy). by apply string_leb_antisym.
Qed.

(** ** Widening *)

Lemma compute_prefix vs rid redundancy weighted floor w w' : w ≤ w' →
  computeResponsibleSet h vs rid redundancy weighted floor w `prefix_of` computeResponsibleSet h vs rid redundancy weighted floor w'.
Proof.
  intros Hw. rewrite !compute_ranking. set (l := ranking _ _ _ _ _). exists (drop (set_size redundancy w) (take (set_size redundancy w') l)).
  rewrite <-(take_drop (set_size redundancy w) (take (set_size redundancy w') l)) at 1. f_equal. rewrite take_take. f_equal. unfold set_size. lia.
Qed.

Lemma widening_mono b b' blk dl : b ≤ b' → widening h b blk dl ≤ widening h b' blk dl.
Proof.
  intros Hb. unfold widening. destruct (Z.ltb_spec 0 b), (Z.ltb_spec 0 b'); [by apply widen_mono|lia| |done]. apply widen_bounds.
Qed.

Lemma seated_size reg rid dl vs blk b redundancy provider weighted st :
  responsibleSetFor h reg rid dl vs blk b redundancy provider weighted = Ok st → Z.max 1 redundancy ≤ Z.of_nat (length (st_responsible st)).
Proof.
  unfold responsibleSetFor. destruct (_ && _); [done|]. destruct (_ <? _) eqn:Hlt; [done|]. intros [= <-]. cbn [st_responsible]. by apply Z.ltb_ge.
Qed.

(** ** Failover ranks *)

Lemma index_of_spec key l i : index_of key l = Some i → (i < length l)%nat ∧ l !! i = Some key.
Proof.
  revert i. induction l as [|x l IH]; intros i; cbn [index_of]; [done|]. destruct (String.eqb_spec x key) as [->|].
  - intros [= <-]. cbn. split; [lia|done].
  - destruct (index_of key l) as [j|]; [|done]. intros [= <-]. destruct (IH j eq_refl). cbn. split; [lia|done].
Qed.

Lemma turn_injective i j l n : 0 ≤ i < n → 0 ≤ j < n → (i - l + n) mod n = (j - l + n) mod n → i = j.
Proof.
  intros Hi Hj Heq. rewrite !Z.mod_eq in Heq by lia. set (q := (i - l + n) / n) in *. set (q' := (j - l + n) / n) in *.
  assert (i - j = n * (q - q')) by lia. destruct (Z.lt_trichotomy q q') as [|[|]]; nia.
Qed.

(** The publisher ranks over the keys of the set the round was opened with. *)
Lemma publisher_copy_agrees reg rid dl vs blk b redundancy provider weighted st :
  responsibleSetFor h reg rid dl vs blk b redundancy provider weighted = Ok st →
  computeResponsible h (Some vs) rid redundancy weighted (st_floor st) (st_widen st) = Some (s_pubkey <$> st_responsible st).
Proof.
  assert (Hempty : ∀ n, (Z.of_nat (length (take n (@nil seat))) <? Z.max 1 redundancy) = false → False).
  { intros n. rewrite take_nil. intros ?%Z.ltb_ge. cbn in *. lia. }
  unfold responsibleSetFor. set (floor := getMinStake provider (Some blk) reg). destruct weighted; cbn [andb].
  - destruct floor as [f|]; [rewrite bool_decide_false by done|done]. destruct (_ <? _) eqn:Hlt; [done|]. intros [= <-].
    cbn [st_floor st_widen st_responsible fmap option_fmap option_map] in *. unfold computeResponsibleSet in *. unfold computeResponsible.
    destruct vs as [|v vs]; [by apply Hempty in Hlt|]. destruct (filter _ (v :: vs)); [by apply Hempty in Hlt|done].
  - destruct (_ <? _) eqn:Hlt; [done|]. intros [= <-]. cbn [st_floor st_widen st_responsible] in *. unfold computeResponsible.
    destruct vs as [|v vs]; [by apply Hempty in Hlt|done].
Qed.
End Theorems.
