(* ===== verification/AtSched.v ===== *)
(** * Attestation: scheduling rounds

    [AttestationRound] ([src/attestation/round.js] and its parts under
    [src/attestation/round/]): the poll of pending requests, the round each admitted
    request starts, who leads it, and the paid provider call, run together with the
    consensus engine the rounds are handed to. Every await is a task of the state;
    what it waits for comes with the event that resumes it. *)

From S2P Require Import Prelude Ordered GateRegistry BigNum Quorum Json AttestWire OracleBand BcMath Admission AtState AtCanon AtRounds AtInv AtSafety ProviderConfig AtLadder AtSeat.
Open Scope Z_scope.

(** ** Data *)

(** The constructor's configuration. *)
Record tuning := Tuning {
  confirmations : Z; leaderRotationBlocks : Z; retryAfterMs : Z; roundsTtlMs : Z; pollMs : Z }.

(** A pending request as the indexer reports it: [Number] of its numeric fields,
    [None] for no number. *)
Record pending_request := Request {
  q_request_id : string; q_provider_id : string; q_redundancy : option Z; q_block_index : Z; q_action_index : Z;
  q_deadline_block : option Z; q_fee_amount : option string; q_payload : string }.

(** The leader-silence observation of one request. *)
Record silence := Silence {
  sl_silent : gset string; sl_watchPubkey : option string; sl_watchBlock : option Z; sl_heldLogged : bool; sl_updatedAt : Z }.

Record leader := Leader { ld_index : nat; ld_pubkey : option string }.

Record pins := Pins {
  pin_approvedModels : list json; pin_modelIdx : Z; pin_fetchModel : option json; pin_judgeModel : option json;
  pin_vendors : option json; pin_strategy : string }.

(** What a started round holds across its awaits. [x_admitted]: when its request was
    admitted. *)
Record ctx := Ctx {
  x_rid : string; x_request : pending_request; x_seating : seating; x_leader : leader; x_redundancy : Z;
  x_pins : pins; x_cap : option Z; x_admitted : Z }.

Record outcome_of_fetch := Fetched { fo_status : string; fo_body : string; fo_meta : string }.

Inductive task :=
| TUrl                                              (** [pollPending], at [resolveBtcIndexerUrl] *)
| TEvict                                            (** at [evictStaleFetchCache] *)
| TPage                                             (** at the indexer's answer *)
| TSnapshot (r : pending_request) (latestBlock admitted : Z)   (** [startRound], at the snapshot *)
| TCache (x : ctx)                                  (** at [readFetchCache] *)
| TFetch (x : ctx)                                  (** at the provider *)
| TWrite (x : ctx) (o : outcome_of_fetch).          (** at [writeFetchCache] *)

Inductive sched_effect :=
| SPost (cursor : option (Z * Z))                   (** [getpendingattestation_requests] after the cursor *)
| SEvictCache (cutoff : Z)
| SFetch (rid provider payload : string) (model : option json) (rank : Z) (cap : option Z) (admitted : Z)
| SWriteCache (rid provider : string) (o : outcome_of_fetch) (model : option json).

Record tallies := Tallies {
  fetchCount : Z; fetchCacheHitCount : Z; finalizedSkipCount : Z; unfinalizableCount : Z;
  pollRpcErrorCount : Z; pollTransportErrorCount : Z; pollAuthErrorCount : Z;
  pollRpcWarnAt : Z; lastPollOkAt : option Z; firstPollAttemptAt : option Z }.

(** [unfinalizableCount]: this class's part of the gauge it shares with the engine. *)
Record sched := Sched {
  sc_engine : state;
  sc_config : registry;
  sc_seen : gmap string Z;
  sc_rounds : gmap string (roundState * Z);         (** with [proposedAt] *)
  sc_silence : gmap string silence;
  sc_cursor : option (Z * Z);
  sc_tip : option (Z * Z);
  sc_polling : bool;                                (** [_pollRunning] *)
  sc_tasks : gmap nat task;
  sc_next : nat;
  sc_tallies : tallies;
  sc_out : list sched_effect }.                     (** newest first *)

Definition with_engine v (s : sched) : sched := Sched v (sc_config s) (sc_seen s) (sc_rounds s) (sc_silence s) (sc_cursor s) (sc_tip s) (sc_polling s) (sc_tasks s) (sc_next s) (sc_tallies s) (sc_out s).
Definition with_config v (s : sched) : sched := Sched (sc_engine s) v (sc_seen s) (sc_rounds s) (sc_silence s) (sc_cursor s) (sc_tip s) (sc_polling s) (sc_tasks s) (sc_next s) (sc_tallies s) (sc_out s).
Definition with_seen v (s : sched) : sched := Sched (sc_engine s) (sc_config s) v (sc_rounds s) (sc_silence s) (sc_cursor s) (sc_tip s) (sc_polling s) (sc_tasks s) (sc_next s) (sc_tallies s) (sc_out s).
Definition with_rounds v (s : sched) : sched := Sched (sc_engine s) (sc_config s) (sc_seen s) v (sc_silence s) (sc_cursor s) (sc_tip s) (sc_polling s) (sc_tasks s) (sc_next s) (sc_tallies s) (sc_out s).
Definition with_silence v (s : sched) : sched := Sched (sc_engine s) (sc_config s) (sc_seen s) (sc_rounds s) v (sc_cursor s) (sc_tip s) (sc_polling s) (sc_tasks s) (sc_next s) (sc_tallies s) (sc_out s).
Definition with_cursor v (s : sched) : sched := Sched (sc_engine s) (sc_config s) (sc_seen s) (sc_rounds s) (sc_silence s) v (sc_tip s) (sc_polling s) (sc_tasks s) (sc_next s) (sc_tallies s) (sc_out s).
Definition with_tip v (s : sched) : sched := Sched (sc_engine s) (sc_config s) (sc_seen s) (sc_rounds s) (sc_silence s) (sc_cursor s) v (sc_polling s) (sc_tasks s) (sc_next s) (sc_tallies s) (sc_out s).
Definition with_polling v (s : sched) : sched := Sched (sc_engine s) (sc_config s) (sc_seen s) (sc_rounds s) (sc_silence s) (sc_cursor s) (sc_tip s) v (sc_tasks s) (sc_next s) (sc_tallies s) (sc_out s).
Definition with_tasks v (s : sched) : sched := Sched (sc_engine s) (sc_config s) (sc_seen s) (sc_rounds s) (sc_silence s) (sc_cursor s) (sc_tip s) (sc_polling s) v (sc_next s) (sc_tallies s) (sc_out s).
Definition with_next v (s : sched) : sched := Sched (sc_engine s) (sc_config s) (sc_seen s) (sc_rounds s) (sc_silence s) (sc_cursor s) (sc_tip s) (sc_polling s) (sc_tasks s) v (sc_tallies s) (sc_out s).
Definition with_tallies v (s : sched) : sched := Sched (sc_engine s) (sc_config s) (sc_seen s) (sc_rounds s) (sc_silence s) (sc_cursor s) (sc_tip s) (sc_polling s) (sc_tasks s) (sc_next s) v (sc_out s).
Definition with_out v (s : sched) : sched := Sched (sc_engine s) (sc_config s) (sc_seen s) (sc_rounds s) (sc_silence s) (sc_cursor s) (sc_tip s) (sc_polling s) (sc_tasks s) (sc_next s) (sc_tallies s) v.

Definition sched_initial (config : registry) : sched :=
  Sched initial config ∅ ∅ ∅ None None false ∅ 0 (Tallies 0 0 0 0 0 0 0 0 None None) [].

Definition await (t : task) (s : sched) : sched :=
  with_next (S (sc_next s)) (with_tasks (<[sc_next s := t]> (sc_tasks s)) s).
Definition say (e : sched_effect) (s : sched) : sched := with_out (e :: sc_out s) s.
Definition tally_up (f : tallies → tallies) (s : sched) : sched := with_tallies (f (sc_tallies s)) s.

Definition count_fetch (g : tallies) : tallies := Tallies (fetchCount g + 1) (fetchCacheHitCount g) (finalizedSkipCount g) (unfinalizableCount g) (pollRpcErrorCount g) (pollTransportErrorCount g) (pollAuthErrorCount g) (pollRpcWarnAt g) (lastPollOkAt g) (firstPollAttemptAt g).
Definition count_cache_hit (g : tallies) : tallies := Tallies (fetchCount g) (fetchCacheHitCount g + 1) (finalizedSkipCount g) (unfinalizableCount g) (pollRpcErrorCount g) (pollTransportErrorCount g) (pollAuthErrorCount g) (pollRpcWarnAt g) (lastPollOkAt g) (firstPollAttemptAt g).
Definition count_finalized_skip (g : tallies) : tallies := Tallies (fetchCount g) (fetchCacheHitCount g) (finalizedSkipCount g + 1) (unfinalizableCount g) (pollRpcErrorCount g) (pollTransportErrorCount g) (pollAuthErrorCount g) (pollRpcWarnAt g) (lastPollOkAt g) (firstPollAttemptAt g).
Definition count_seatless (g : tallies) : tallies := Tallies (fetchCount g) (fetchCacheHitCount g) (finalizedSkipCount g) (unfinalizableCount g + 1) (pollRpcErrorCount g) (pollTransportErrorCount g) (pollAuthErrorCount g) (pollRpcWarnAt g) (lastPollOkAt g) (firstPollAttemptAt g).
Definition note_first_poll (now : Z) (g : tallies) : tallies := Tallies (fetchCount g) (fetchCacheHitCount g) (finalizedSkipCount g) (unfinalizableCount g) (pollRpcErrorCount g) (pollTransportErrorCount g) (pollAuthErrorCount g) (pollRpcWarnAt g) (lastPollOkAt g) (Some (default now (firstPollAttemptAt g))).
Definition note_poll_ok (now : Z) (g : tallies) : tallies := Tallies (fetchCount g) (fetchCacheHitCount g) (finalizedSkipCount g) (unfinalizableCount g) (pollRpcErrorCount g) (pollTransportErrorCount g) (pollAuthErrorCount g) (pollRpcWarnAt g) (Some now) (firstPollAttemptAt g).

Definition notePollFailure (status : option Z) (g : tallies) : tallies :=
  let auth := match status with Some st => (st =? 401) || (st =? 403) | None => false end in
  Tallies (fetchCount g) (fetchCacheHitCount g) (finalizedSkipCount g) (unfinalizableCount g) (pollRpcErrorCount g)
    (if auth then pollTransportErrorCount g else pollTransportErrorCount g + 1) (if auth then pollAuthErrorCount g + 1 else pollAuthErrorCount g)
    (pollRpcWarnAt g) (lastPollOkAt g) (firstPollAttemptAt g).

Definition notePollRejection (t : tuning) (now : Z) (g : tallies) : tallies :=
  Tallies (fetchCount g) (fetchCacheHitCount g) (finalizedSkipCount g) (unfinalizableCount g) (pollRpcErrorCount g + 1)
    (pollTransportErrorCount g) (pollAuthErrorCount g)
    (if (pollRpcWarnAt g =? 0) || (pollMs t <=? now - pollRpcWarnAt g) then now else pollRpcWarnAt g) (lastPollOkAt g) (firstPollAttemptAt g).

Section Scheduler.
Context `{BigNumber} (h : env) (t : tuning).

Definition confirmationsFor (requestBlock : Z) : Z := if isZeroConfActive requestBlock (network h) then 0 else confirmations t.

(** ** Leaders *)

(** [leaderSilenceRecord]: created on first use, stamped at every use. *)
Definition leaderSilenceRecord (now : Z) (rid : string) (m : gmap string silence) : silence :=
  match m !! rid with
  | Some r => Silence (sl_silent r) (sl_watchPubkey r) (sl_watchBlock r) (sl_heldLogged r) now
  | None => Silence ∅ None None false now
  end.

Definition slotPubkey (responsible : list seat) (i : nat) : option string :=
  match responsible !! i with
  | Some v => Some (s_pubkey v)
  | None => s_pubkey <$> responsible !! 0%nat
  end.

Definition silentLeaderSlots (r : silence) (responsible : list seat) (i : nat) : bool :=
  match responsible !! i with Some v => bool_decide (s_pubkey v ∈ sl_silent r) | None => false end.

Definition skipSilentLeader (r : silence) (responsible : list seat) (step : Z) (idx : nat) (pubkey : string) : silence * leader :=
  let r := Silence ({[pubkey]} ∪ sl_silent r) (sl_watchPubkey r) (sl_watchBlock r) (sl_heldLogged r) (sl_updatedAt r) in
  let idx' := effectiveLeaderSlot step (length responsible) (silentLeaderSlots r responsible) in
  (Silence (sl_silent r) (sl_watchPubkey r) (sl_watchBlock r) (sl_heldLogged r || (idx' <=? idx)%nat) (sl_updatedAt r),
   Leader idx' (slotPubkey responsible idx')).

Definition arm_watch (latestBlock : Z) (l : leader) (r : silence) : silence :=
  if bool_decide (ld_pubkey l = sl_watchPubkey r) then r
  else Silence (sl_silent r) (ld_pubkey l) (Some latestBlock) (sl_heldLogged r) (sl_updatedAt r).

(** The observation and the leader of one poll, [proposed] saying which keys have
    proposed for the request. *)
Definition observe (proposed : string → bool) (responsible : list seat) (step latestBlock : Z) (r : silence) : silence * leader :=
  let idx := effectiveLeaderSlot step (length responsible) (silentLeaderSlots r responsible) in
  let pubkey := slotPubkey responsible idx in
  let '(r, l) :=
    match pubkey with
    | Some pk =>
        if negb (String.eqb pk "") && bool_decide (sl_watchPubkey r = Some pk) && negb (proposed pk) &&
           isProvenSilent latestBlock (sl_watchBlock r) (leaderRotationBlocks t)
        then skipSilentLeader r responsible step idx pk
        else (r, Leader idx pubkey)
    | None => (r, Leader idx pubkey)
    end in
  (arm_watch latestBlock l r, l).

Definition hasProposedForRequest (rid : string) (engine : state) (pk : string) : bool :=
  negb (String.eqb pk "") && hasProposedFor rid pk engine.

Definition resolveLeader (now : Z) (rid : string) (responsible : list seat) (step latestBlock requestBlock : Z) (s : sched) : sched * leader :=
  if negb (isLeaderSilenceSkipActive requestBlock (network h)) then
    let plain := leaderIndex step (length responsible) in (s, Leader plain (slotPubkey responsible plain))
  else
    let '(r, l) := observe (hasProposedForRequest rid (sc_engine s)) responsible step latestBlock (leaderSilenceRecord now rid (sc_silence s)) in
    (with_silence (<[rid := r]> (sc_silence s)) s, l).

Definition leader_step (latestBlock snapshotBlk : Z) : Z :=
  if 0 <? latestBlock then escalationStep latestBlock snapshotBlk (confirmationsFor snapshotBlk) (leaderRotationBlocks t) else 0.

Definition electLeader (now : Z) (rid : string) (responsible : list seat) (latestBlock snapshotBlk : Z) (s : sched) : sched * leader :=
  resolveLeader now rid responsible (leader_step latestBlock snapshotBlk) latestBlock snapshotBlk s.

(** ** Pins *)

Definition is_strategy (s : string) : bool := String.eqb s "byte_equality" || String.eqb s "judge_model".   (* SUPPORTED_CONSENSUS_STRATEGIES *)

Definition config_array (key : string) (ac : option json) : list json :=
  match ac ≫= js_prop key with Some (JArr l) => l | _ => [] end.

Definition truthy_or_null (v : option json) : option json := v ← v; if js_truthy v then Some v else None.

Definition pinModels (config : registry) (providerId : string) (snapshotBlk latestBlock : Z) (r : pending_request) (strategy : string) : pins :=
  let anchored := getAdditionalConfig providerId (Some snapshotBlk) config in
  let approved := config_array "approved_models" anchored in
  let idx := if 0 <? latestBlock
             then modelIndex latestBlock snapshotBlk (confirmationsFor snapshotBlk) (q_deadline_block r) (length approved) else 0 in
  Pins approved idx
    (match truthy_or_null (approved !! Z.to_nat idx) with Some m => Some m | None => truthy_or_null (approved !! 0%nat) end)
    (truthy_or_null (anchored ≫= js_prop "judge_model"))
    (match anchored with
     | None => None
     | Some ac => Some (match js_prop "model_vendors" ac with Some (JObj l) => JObj l | _ => JObj [] end)
     end) strategy.

Definition pinConsensusStrategy (config : registry) (providerId : string) (snapshotBlk : Z) : option string :=
  match getConsensusStrategy providerId (Some snapshotBlk) config with
  | Some st => if is_strategy st then Some st else None
  | None => None
  end.

(** [bc.isNull(v) ? '0' : String(v)] *)
Definition amount_text (v : option json) : string :=
  match v with
  | None | Some JNull | Some (JStr "") => "0"
  | Some v => js_text v
  end.

Definition feeBelowProviderFloor (config : registry) (providerId : string) (r : pending_request) : bool :=
  let minFee := amount_text (def_prop "min_fee_xchain" providerId config) in
  let reqFee := amount_text (JStr <$> q_fee_amount r) in
  bcgt (bcnum minFee) (bcnum "0") && bclt (bcnum reqFee) (bcnum minFee).

Definition pinRoundRules (config : registry) (providerId : string) (snapshotBlk latestBlock : Z) (r : pending_request) : option pins :=
  match pinConsensusStrategy config providerId snapshotBlk with
  | None => None
  | Some st => if feeBelowProviderFloor config providerId r then None
               else Some (pinModels config providerId snapshotBlk latestBlock r st)
  end.

(** ** A round's start *)

(** [Number(v) || null] of a number or a numeral without a point. *)
Definition number_or_null (v : option json) : option Z :=
  match v with
  | Some (JNum m 0) => if m =? 0 then None else Some m
  | Some (JStr s) => let s := trim s in
      if negb (String.eqb s "") && all_chars is_digit s then (let n := read_digits 0 s in if n =? 0 then None else Some n) else None
  | _ => None
  end.

(** The provider is known and its module deployed. *)
Definition servable (config : registry) (providerId : string) : bool :=
  isKnown providerId config && bool_decide (is_Some (getModule h providerId)).

(** [startRound] to its first await. *)
Definition startRound (r : pending_request) (latestBlock admitted : Z) (s : sched) : sched :=
  if servable (sc_config s) (q_provider_id r) then await (TSnapshot r latestBlock admitted) s else s.

Definition request_redundancy (r : pending_request) : Z := match q_redundancy r with Some z => if z =? 0 then 1 else z | None => 1 end.

Definition roundAlreadyServed (rid : string) (s : sched) : sched * bool :=
  if isRoundActive rid (sc_engine s) then (s, true)
  else if isFinalized rid (sc_engine s) then (tally_up count_finalized_skip s, true)
  else (s, false).

(** After the snapshot ([None]: none, or an empty one). *)
Definition resumeSnapshot (now : Z) (r : pending_request) (latestBlock admitted : Z) (snapshot : option (list validator)) (s : sched) : sched :=
  let rid := toLowerCase (q_request_id r) in
  let blk := q_block_index r in
  let redundancy := request_redundancy r in
  match snapshot, identity h with
  | Some ((_ :: _) as validators), Some me =>
      let weighted := isStakeWeightedQuorumActive (Some blk) (network h) in
      match responsibleSetFor h (sc_config s) rid (q_deadline_block r) validators blk latestBlock redundancy (q_provider_id r) weighted with
      | Err NoFloor => s
      | Err Unfinalizable => tally_up count_seatless s
      | Ok st =>
          let '(s, l) := electLeader now rid (st_responsible st) latestBlock blk s in
          if negb (bool_decide (toLowerCase me ∈ s_pubkey <$> st_responsible st)) then s
          else match pinRoundRules (sc_config s) (q_provider_id r) blk latestBlock r with
               | None => s
               | Some p =>
                   let '(s, served) := roundAlreadyServed rid s in
                   if served then s
                   else await (TCache (Ctx rid r st l redundancy p
                                         (number_or_null (def_prop "max_response_bytes" (q_provider_id r) (sc_config s))) admitted)) s
               end
      end
  | _, _ => s
  end.

Definition buildRoundState (x : ctx) (o : outcome_of_fetch) : roundState :=
  let ok := String.eqb (fo_status o) "ok" in
  RoundState (q_block_index (x_request x)) (q_provider_id (x_request x)) (x_redundancy x) (s_pubkey <$> st_responsible (x_seating x))
    (ld_pubkey (x_leader x)) (if bool_decide (ld_pubkey (x_leader x) = (toLowerCase <$> identity h)) then "leader" else "follower")
    (if ok then fo_body o else EmptyString) (if ok then fo_meta o else EmptyString) (fo_status o)
    (Some (pin_strategy (x_pins x))) (x_cap x).

(** [recordRound] and the hand-over; a throw of [propose] ends in [startRound]'s
    promise. *)
Definition hand_over (now : Z) (x : ctx) (o : outcome_of_fetch) (s : sched) : option sched :=
  let rs := buildRoundState x o in
  let s := with_rounds (<[x_rid x := (rs, now)]> (sc_rounds s)) s in
  match step h now (EvPropose (x_rid x) rs) (sc_engine s) with
  | Some f => Some (with_engine (fate_state f) s)
  | None => None
  end.

Definition resumeCache (now : Z) (x : ctx) (cached : option outcome_of_fetch) (s : sched) : option sched :=
  match cached with
  | Some o => hand_over now x o (tally_up count_cache_hit s)
  | None =>
      Some (await (TFetch x) (say (SFetch (x_rid x) (q_provider_id (x_request x)) (q_payload (x_request x)) (pin_fetchModel (x_pins x))
                                     (pin_modelIdx (x_pins x)) (x_cap x) (x_admitted x)) (tally_up count_fetch s)))
  end.

(** [None]: the provider threw. *)
Definition outcome_of (answer : option (string * string)) : outcome_of_fetch :=
  match answer with Some (body, meta) => Fetched "ok" body meta | None => Fetched "provider_error" "" "" end.

Definition resumeFetch (x : ctx) (answer : option (string * string)) (s : sched) : sched :=
  let o := outcome_of answer in
  await (TWrite x o) (say (SWriteCache (x_rid x) (q_provider_id (x_request x)) o (pin_fetchModel (x_pins x))) s).

(** ** The poll *)

Definition POLL_LIMIT : nat := 100.

Definition evictStaleSeen (now : Z) (s : sched) : sched :=
  with_seen (filter (λ kv, negb (kv.2 <? now - retryAfterMs t) = true) (sc_seen s)) s.
Definition evictStaleRounds (now : Z) (s : sched) : sched :=
  with_rounds (filter (λ kv, negb (kv.2.2 <? now - roundsTtlMs t) = true) (sc_rounds s)) s.
Definition evictStaleLeaderSilence (now : Z) (s : sched) : sched :=
  with_silence (filter (λ kv, negb (sl_updatedAt kv.2 <? now - roundsTtlMs t) = true) (sc_silence s)) s.
Definition cacheCutoffEpochSec (now : Z) : Z := (now - retryAfterMs t) / 1000.

(** [pollPending] to its first await. *)
Definition pollPending (now : Z) (s : sched) : sched :=
  if bool_decide (identity h = None) || sc_polling s then s
  else await TUrl (tally_up (note_first_poll now) (with_polling true s)).

(** [finally] *)
Definition end_poll (s : sched) : sched := with_polling false s.

Definition resumeUrl (now : Z) (found : bool) (s : sched) : sched :=
  if found then await TEvict (say (SEvictCache (cacheCutoffEpochSec now)) (evictStaleSeen now s)) else end_poll s.

Definition resumeEvict (now : Z) (s : sched) : sched :=
  let s := evictStaleLeaderSilence now (evictStaleRounds now s) in await TPage (say (SPost (sc_cursor s)) s).

Inductive poll_answer :=
| PollFailed (status : option Z)
| PollRejected
| PollPage (latestBlock : Z) (requests : list pending_request).

Definition confirmed (latestBlock : Z) (r : pending_request) : bool :=
  negb (latestBlock <? q_block_index r + confirmationsFor (q_block_index r)).

Definition consider (now latestBlock : Z) (s : sched) (r : pending_request) : sched :=
  let rid := toLowerCase (q_request_id r) in
  if String.eqb rid "" || bool_decide (is_Some (sc_seen s !! rid)) then s
  else if negb (confirmed latestBlock r) then s
  else startRound r latestBlock now (with_seen (<[rid := now]> (sc_seen s)) s).

Definition next_cursor (requests : list pending_request) (s : sched) : option (Z * Z) :=
  if (length requests <? POLL_LIMIT)%nat then None
  else match last requests with Some r => Some (q_block_index r, q_action_index r) | None => sc_cursor s end.

Definition admitPendingPage (now : Z) (a : poll_answer) (s : sched) : sched :=
  match a with
  | PollFailed status => tally_up (notePollFailure status) s
  | PollRejected => tally_up (notePollRejection t now) s
  | PollPage latestBlock requests =>
      let s := tally_up (note_poll_ok now) s in
      let s := if 0 <? latestBlock then with_tip (Some (latestBlock, now)) s else s in
      let s := fold_left (consider now latestBlock) requests s in
      with_cursor (next_cursor requests s) s
  end.

Definition stop_scheduler (s : sched) : sched :=
  with_polling false (with_tip None (with_cursor None (with_silence ∅ (with_seen ∅ (with_rounds ∅ s))))).

(** ** Runs *)

Inductive sched_event :=
| SeTick                                            (** the poll interval *)
| SeUrl (k : nat) (found : bool)
| SeEvicted (k : nat)
| SePage (k : nat) (a : poll_answer)
| SeSnapshot (k : nat) (snapshot : option (list validator))
| SeCache (k : nat) (cached : option outcome_of_fetch)
| SeFetched (k : nat) (answer : option (string * string))
| SeWritten (k : nat)
| SeConfig (config : registry)                      (** a reload or a governance change of the provider registry *)
| SeStop
| SeEngine (ev : event).

(** The engine's own events; rounds are proposed by the scheduler only. *)
Definition from_outside (ev : event) : bool := match ev with EvPropose _ _ => false | _ => true end.

Definition wake (k : nat) (s : sched) : option (task * sched) :=
  a ← sc_tasks s !! k; Some (a, with_tasks (delete k (sc_tasks s)) s).

(** What an answer makes of the task it was awaited by. *)
Definition resume_task (now : Z) (a : task) (ev : sched_event) (s : sched) : option sched :=
  match a, ev with
  | TUrl, SeUrl _ found => Some (resumeUrl now found s)
  | TEvict, SeEvicted _ => Some (resumeEvict now s)
  | TPage, SePage _ answer => Some (end_poll (admitPendingPage now answer s))
  | TSnapshot r latest admitted, SeSnapshot _ snapshot => Some (resumeSnapshot now r latest admitted snapshot s)
  | TCache x, SeCache _ cached => resumeCache now x cached s
  | TFetch x, SeFetched _ answer => Some (resumeFetch x answer s)
  | TWrite x o, SeWritten _ => hand_over now x o s
  | _, _ => None
  end.

(** [None]: the event cannot happen; a run ends when an engine listener throws. *)
Definition sched_step (now : Z) (ev : sched_event) (s : sched) : option sched :=
  match ev with
  | SeTick => Some (pollPending now s)
  | SeUrl k _ | SeEvicted k | SePage k _ | SeSnapshot k _ | SeCache k _ | SeFetched k _ | SeWritten k =>
      '(a, s) ← wake k s; resume_task now a ev s
  | SeConfig config => Some (with_config config s)
  | SeStop => Some (stop_scheduler s)
  | SeEngine ev =>
      if from_outside ev
      then match step h now ev (sc_engine s) with Some (Returned e) => Some (with_engine e s) | _ => None end
      else None
  end.

Fixpoint sched_run (evs : list (Z * sched_event)) (s : sched) : option sched :=
  match evs with
  | [] => Some s
  | (now, ev) :: evs => s ← sched_step now ev s; sched_run evs s
  end.
End Scheduler.

(** ** Leaders are members, and silent ones are passed *)

Section Leaders.
Context (t : tuning) (responsible : list seat).
Implicit Types (r : silence) (l : leader) (proposed : string → bool).

Definition leads r l step : Prop :=
  ld_index l = effectiveLeaderSlot step (length responsible) (silentLeaderSlots r responsible) ∧
  ld_pubkey l = slotPubkey responsible (ld_index l).

Lemma slot_member i : responsible ≠ [] → ∃ pk, slotPubkey responsible i = Some pk ∧ pk ∈ s_pubkey <$> responsible.
Proof.
  intros Hne. unfold slotPubkey. destruct (responsible !! i) as [v|] eqn:E.
  - exists (s_pubkey v). split; [done|]. by apply list_elem_of_fmap_2, (list_elem_of_lookup_2 _ i).
  - destruct responsible as [|v rest]; [done|]. cbn. exists (s_pubkey v). split; [done|]. apply list_elem_of_here.
Qed.

Lemma observe_leads proposed step b r : leads (observe t proposed responsible step b r).1 (observe t proposed responsible step b r).2 step.
Proof.
  unfold observe, leads, arm_watch, skipSilentLeader, silentLeaderSlots. cbn zeta.
  set (slots r := λ i, match responsible !! i with Some v => bool_decide (s_pubkey v ∈ sl_silent r) | None => false end).
  destruct (slotPubkey responsible _) as [pk|] eqn:E; [|case_bool_decide; cbn; by rewrite ?E]. destruct (_ && _).
  - case_bool_decide; done.
  - case_bool_decide; cbn; by rewrite ?E.
Qed.

Lemma observe_watch proposed step b r :
  sl_watchPubkey (observe t proposed responsible step b r).1 = ld_pubkey (observe t proposed responsible step b r).2.
Proof.
  unfold observe, arm_watch, skipSilentLeader. cbn zeta. destruct (slotPubkey responsible _) as [pk|]; [destruct (_ && _)|]; case_bool_decide; cbn in *; done.
Qed.

Lemma leader_member proposed step b r : responsible ≠ [] →
  ∃ pk, ld_pubkey (observe t proposed responsible step b r).2 = Some pk ∧ pk ∈ s_pubkey <$> responsible.
Proof. intros Hne. destruct (observe_leads proposed step b r) as [_ ->]. by apply slot_member. Qed.

(** The later polls of one request: the tip of each, and who had proposed by then. *)
Fixpoint observe_polls (step_of : Z → Z) (polls : list (Z * (string → bool))) (rl : silence * leader) : silence * leader :=
  match polls with
  | [] => rl
  | (b, proposed) :: polls => observe_polls step_of polls (observe t proposed responsible (step_of b) b rl.1)
  end.

Definition rotations (step : Z) : nat := Nat.min (Z.to_nat step) MAX_LEADER_ROTATIONS.

Lemma slot_by_rotation step step' count silent : rotations step = rotations step' →
  effectiveLeaderSlot step count silent = effectiveLeaderSlot step' count silent.
Proof. unfold effectiveLeaderSlot, rotations. by intros ->. Qed.

Definition unheard r : list string := filter (λ pk, pk ∉ sl_silent r) (s_pubkey <$> responsible).

Lemma elem_of_unheard r pk : pk ∈ unheard r ↔ pk ∉ sl_silent r ∧ pk ∈ s_pubkey <$> responsible.
Proof. unfold unheard. by rewrite list_elem_of_filter. Qed.

(** A member that is not proven silent leads while there is one. *)
Lemma live_leads r l step p0 : NoDup (s_pubkey <$> responsible) → leads r l step →
  p0 ∈ unheard r → ∃ pk, ld_pubkey l = Some pk ∧ pk ∈ unheard r.
Proof.
  intros Hnd [Hi Hp] Hlive. unfold unheard in *. apply list_elem_of_filter in Hlive as [Hno Hin].
  apply list_elem_of_fmap in Hin as (v & -> & Hin). apply list_elem_of_lookup_1 in Hin as [i Hv].
  assert (Hc : (i < length responsible)%nat) by (by eapply lookup_lt_Some).
  assert (Hs : silentLeaderSlots r responsible i = false) by (unfold silentLeaderSlots; rewrite Hv; by apply bool_decide_eq_false).
  pose proof (slot_live _ step _ _ Hs Hc) as Hl. pose proof (slot_in_range (silentLeaderSlots r responsible) step (length responsible) ltac:(lia)) as Hr.
  rewrite <-Hi in Hl, Hr. apply lookup_lt_is_Some in Hr as [w Hw]. unfold slotPubkey in Hp. unfold silentLeaderSlots in Hl. rewrite Hw in Hp, Hl.
  exists (s_pubkey w). split; [done|]. apply list_elem_of_filter. split; [by apply bool_decide_eq_false in Hl|]. apply list_elem_of_fmap_2. by eapply list_elem_of_lookup_2.
Qed.

(** What holds between two polls of a ladder at rest. *)
Record watching r l step w : Prop := {
  wt_leads : leads r l step;
  wt_key : sl_watchPubkey r = ld_pubkey l;
  wt_block : sl_watchBlock r = Some w }.

(** The first poll arms the watch or keeps an older one, and gives up at most a
    member that has not proposed. *)
Lemma observe_first proposed step b r : responsible ≠ [] → (sl_watchPubkey r = None ∨ ∃ w, sl_watchBlock r = Some w ∧ w ≤ b) →
  (∃ w, sl_watchBlock (observe t proposed responsible step b r).1 = Some w ∧ w ≤ b) ∧
  ∀ pk, pk ∈ sl_silent (observe t proposed responsible step b r).1 → pk ∈ sl_silent r ∨ proposed pk = false.
Proof.
  intros Hne Hw. unfold observe. cbn zeta.
  destruct (slot_member (effectiveLeaderSlot step (length responsible) (silentLeaderSlots r responsible)) Hne) as (pk & -> & _).
  destruct (_ && isProvenSilent _ _ _) eqn:Hb; unfold arm_watch, skipSilentLeader; cbn zeta; cbn [ld_pubkey sl_watchPubkey].
  - apply andb_true_iff in Hb as [[[_ Hkey%bool_decide_eq_true]%andb_true_iff Hpr%negb_true_iff]%andb_true_iff _].
    assert (Hw' : ∃ w, sl_watchBlock r = Some w ∧ w ≤ b) by (destruct Hw; [congruence|done]).
    split; [case_bool_decide; cbn [sl_watchBlock fst]; [done|by exists b]|]. intros q. case_bool_decide; cbn [fst sl_silent]; (intros [->%elem_of_singleton|?]%elem_of_union; [by right|by left]).
  - clear Hb. split; [|intros q; case_bool_decide; cbn [fst sl_silent]; intros ?; by left]. case_bool_decide as E; cbn [sl_watchBlock fst]; [|by exists b]. destruct Hw as [Hno|]; [congruence|done].
Qed.

(** A leader that has proposed stays. *)
Lemma observe_stays proposed step step' w b r l pk :
  watching r l step w → rotations step' = rotations step → ld_pubkey l = Some pk → proposed pk = true →
  observe t proposed responsible step' b r = (r, l).
Proof.
  intros [[Hi Hp] Hw Hb] Hrot Hl Hpr. unfold observe. cbn zeta. rewrite (slot_by_rotation step' step) by done. rewrite <-Hi, <-Hp, Hl, Hpr.
  cbn [negb]. rewrite andb_false_r. cbn [andb]. unfold arm_watch. cbn [ld_pubkey]. rewrite bool_decide_true by congruence. rewrite <-Hl. by destruct l.
Qed.

(** One that has not, a window later, is proven silent and another watched. *)
Lemma observe_passes proposed step step' w b r l pk p0 : NoDup (s_pubkey <$> responsible) →
  watching r l step w → rotations step' = rotations step → ld_pubkey l = Some pk → pk ≠ EmptyString → proposed pk = false →
  rotation_window (leaderRotationBlocks t) ≤ b - w → p0 ∈ unheard r → p0 ≠ pk →
  let '(r', l') := observe t proposed responsible step' b r in watching r' l' step' b ∧ sl_silent r' = {[pk]} ∪ sl_silent r.
Proof.
  intros Hnd [[Hi Hp] Hw Hb] Hrot Hl Hne Hpr Hwin H0 H0pk. pose proof (observe_leads proposed step' b r) as Hleads. pose proof (observe_watch proposed step' b r) as Hkey.
  assert (Hobs : sl_silent (observe t proposed responsible step' b r).1 = {[pk]} ∪ sl_silent r ∧
    (ld_pubkey (observe t proposed responsible step' b r).2 ≠ Some pk → sl_watchBlock (observe t proposed responsible step' b r).1 = Some b)).
  { unfold observe. cbn zeta. rewrite (slot_by_rotation step' step) by done. rewrite <-Hi, <-Hp, Hl.
    rewrite (proj2 (String.eqb_neq pk "")), bool_decide_true, Hpr by congruence. unfold isProvenSilent. rewrite Hb, (proj2 (Z.leb_le _ _)) by done.
    cbn [negb andb]. unfold skipSilentLeader, arm_watch. cbn zeta. cbn [ld_pubkey sl_silent sl_watchPubkey].
    case_bool_decide as Hsame; cbn [fst snd sl_silent sl_watchBlock ld_pubkey]; [|done]. split; [done|]. intros []. congruence. }
  destruct (observe t proposed responsible step' b r) as [r' l']. cbn [fst snd] in *. destruct Hobs as [Hs Hblk].
  assert (H0' : p0 ∈ unheard r') by (rewrite elem_of_unheard in *; rewrite Hs; set_solver).
  destruct (live_leads r' l' step' p0 Hnd Hleads H0') as (pk' & Hl' & Hin'). split; [|done]. constructor; [done..|]. apply Hblk.
  rewrite Hl'. intros [= ->]. apply elem_of_unheard in Hin' as [Hno _]. rewrite Hs in Hno. set_solver.
Qed.

Definition tips_spaced : Z → list (Z * (string → bool)) → Prop :=
  fix go w polls := match polls with [] => True | (b, _) :: polls => rotation_window (leaderRotationBlocks t) ≤ b - w ∧ go b polls end.

Definition heard_grows : (string → bool) → list (Z * (string → bool)) → Prop :=
  fix go P polls := match polls with [] => True | (_, P') :: polls => (∀ pk, P pk = true → P' pk = true) ∧ go P' polls end.

Lemma stays_led step_of polls : ∀ proposed r l step w pk,
  watching r l step w → ld_pubkey l = Some pk → proposed pk = true → heard_grows proposed polls →
  Forall (λ bp, rotations (step_of bp.1) = rotations step) polls → observe_polls step_of polls (r, l) = (r, l).
Proof.
  induction polls as [|[b P] polls IH]; intros proposed r l step w pk Hw Hl Hp Hg Hr; [done|]. cbn [observe_polls fst].
  destruct Hg as [Hle Hg]. apply Forall_cons in Hr as [Hr1 Hr]. rewrite (observe_stays P step (step_of b) w b r l pk) by eauto. by eapply (IH P); eauto.
Qed.

Lemma unheard_shrinks r r' pk : pk ∈ unheard r → sl_silent r' = {[pk]} ∪ sl_silent r → (length (unheard r') < length (unheard r))%nat.
Proof.
  unfold unheard. intros Hin ->. induction (s_pubkey <$> responsible) as [|k ks IH]; [by apply not_elem_of_nil in Hin|].
  assert (Hle : ∀ ks, (length (filter (λ k, k ∉ {[pk]} ∪ sl_silent r) ks) ≤ length (filter (λ k, k ∉ sl_silent r) ks))%nat).
  { clear. induction ks as [|k ks IH]; [done|]. rewrite !filter_cons. repeat case_decide; cbn [length]; try lia. set_solver. }
  rewrite !filter_cons. rewrite filter_cons in Hin. specialize (Hle ks). case_decide as H1; case_decide as H2; cbn [length]; try lia; try set_solver.
  apply elem_of_cons in Hin as [->|Hin]; [set_solver|]. specialize (IH Hin). lia.
Qed.

(** Silent leaders are passed. Once the ladder has come to rest, a hub that polls a
    request at tips a rotation window apart, at least as many times again as the set
    has members, ends on a leader that has proposed, whoever stays silent, as long
    as one member that it has not given up has: no silent member holds the slot for
    good. *)
Lemma silent_passed step_of n : ∀ polls proposed r l step w p0,
  NoDup (s_pubkey <$> responsible) → (∀ pk, pk ∈ s_pubkey <$> responsible → pk ≠ EmptyString) →
  watching r l step w → Forall (λ bp, rotations (step_of bp.1) = rotations step) polls → tips_spaced w polls → heard_grows proposed polls →
  p0 ∈ unheard r → proposed p0 = true → (length (unheard r) ≤ n)%nat → (n ≤ length polls)%nat →
  ∃ pk, ld_pubkey (observe_polls step_of polls (r, l)).2 = Some pk ∧ (default proposed (snd <$> last polls)) pk = true ∧ pk ∈ s_pubkey <$> responsible.
Proof.
  induction n as [|n IH]; intros polls proposed r l step w p0 Hnd Hkeys Hw Hrot Hsp Hg H0 Hp0 Hn Hlen.
  { destruct (unheard r); [by apply not_elem_of_nil in H0|cbn in Hn; lia]. }
  assert (Hgrow : ∀ polls P pk, heard_grows P polls → P pk = true → (default P (snd <$> last polls)) pk = true).
  { clear. induction polls as [|[b P'] polls IH]; intros P pk Hg HP; [done|]. destruct Hg as [Hle Hg]. rewrite last_cons.
    specialize (IH P' pk Hg (Hle pk HP)). destruct (last polls) as [[b'' P'']|]; cbn in *; auto. }
  destruct polls as [|[b P] polls]; [cbn in Hlen; lia|]. cbn in Hlen. destruct Hsp as [Hwin Hsp]. destruct (Hg) as [Hle Hg']. apply Forall_cons in Hrot as [Hr1 Hrot]. cbn in Hr1.
  destruct (live_leads r l step p0 Hnd (wt_leads _ _ _ _ Hw) H0) as (pk & Hl & Hin).
  assert (Hlast : default proposed (snd <$> last ((b, P) :: polls)) = default P (snd <$> last polls)) by (rewrite last_cons; by destruct (last polls)).
  rewrite Hlast. destruct (P pk) eqn:HP.
  - exists pk. split; [|split; [by apply Hgrow|by apply elem_of_unheard in Hin as [_ ?]]]. cbn [observe_polls fst]. rewrite (observe_stays P step (step_of b) w b r l pk) by done.
    rewrite (stays_led step_of polls P r l step w pk) by done. done.
  - assert (H0pk : p0 ≠ pk) by (intros ->; rewrite (Hle _ Hp0) in HP; done).
    assert (Hpk : pk ∈ s_pubkey <$> responsible) by (by apply elem_of_unheard in Hin as [_ ?]).
    cbn [observe_polls fst]. pose proof (observe_passes P step (step_of b) w b r l pk p0 Hnd Hw Hr1 Hl (Hkeys pk Hpk) HP Hwin H0 H0pk) as Hpass.
    destruct (observe t P responsible (step_of b) b r) as [r' l']. destruct Hpass as [Hw' Hs'].
    pose proof (unheard_shrinks r r' pk Hin Hs'). eapply (IH polls P r' l' (step_of b) b p0); try done; [|rewrite elem_of_unheard in *; rewrite Hs'; set_solver|by apply Hle|lia|lia].
    eapply Forall_impl; [exact Hrot|]. cbn. congruence.
Qed.
End Leaders.

(** ** Every proposal is a seated round *)

Section Opened.
Context `{BigNumber} (h : env) (t : tuning).
Context (Hself : signs_for_itself h) (Hsha : digests_32 h).


(** The requests of the pages an indexer answered with, and the tip of each page. *)
Definition reports_of (evs : list (Z * sched_event)) : list (Z * pending_request) :=
  flat_map (λ e, match e.2 with SePage _ (PollPage latest requests) => map (pair latest) requests | _ => [] end) evs.

(** A snapshot that answered a started round: the request it was asked for, the tip of
    the request's page, the rows, and the registry the hub held when they came. *)
Record sitting := Sitting { si_request : pending_request; si_latest : Z; si_rows : list validator; si_registry : registry }.

Definition sitting_of (ev : sched_event) (s : sched) : list sitting :=
  match ev with
  | SeSnapshot k (Some rows) =>
      match sc_tasks s !! k with Some (TSnapshot r latest _) => [Sitting r latest rows (sc_config s)] | _ => [] end
  | _ => []
  end.

Fixpoint sittings_of (evs : list (Z * sched_event)) (s : sched) : list sitting :=
  match evs with
  | [] => []
  | (now, ev) :: evs => sitting_of ev s ++ match sched_step h t now ev s with Some s' => sittings_of evs s' | None => [] end
  end.

(** What a hub was told. *)
Record told := Told { to_reports : list (Z * pending_request); to_sittings : list sitting }.
Definition told_le (a b : told) : Prop := to_reports a ⊆ to_reports b ∧ to_sittings a ⊆ to_sittings b.
Implicit Types (reports : told) (x : ctx) (s : sched).

(** The round was opened for a confirmed request of a page, over the responsible set
    that the answered snapshot and the hub's registry determine at its block, by a
    member of the set, under a leader of the set and a strategy the engine
    implements. *)
Record opened reports x : Prop := {
  op_report : ∃ latest vs reg, (latest, x_request x) ∈ to_reports reports ∧
    Sitting (x_request x) latest vs reg ∈ to_sittings reports ∧ confirmed h t latest (x_request x) = true ∧
    responsibleSetFor h reg (x_rid x) (q_deadline_block (x_request x)) vs (q_block_index (x_request x)) latest (x_redundancy x)
      (q_provider_id (x_request x)) (isStakeWeightedQuorumActive (Some (q_block_index (x_request x))) (network h)) = Ok (x_seating x);
  op_rid : x_rid x = toLowerCase (q_request_id (x_request x));
  op_redundancy : x_redundancy x = request_redundancy (x_request x);
  op_me : ∃ me, identity h = Some me ∧ toLowerCase me ∈ s_pubkey <$> st_responsible (x_seating x);
  op_leader : ∃ pk, ld_pubkey (x_leader x) = Some pk ∧ pk ∈ s_pubkey <$> st_responsible (x_seating x);
  op_strategy : is_strategy (pin_strategy (x_pins x)) = true }.

Definition task_ok reports (a : task) : Prop :=
  match a with
  | TUrl | TEvict | TPage => True
  | TSnapshot r latest _ => (latest, r) ∈ to_reports reports ∧ confirmed h t latest r = true
  | TCache x | TFetch x | TWrite x _ => opened reports x
  end.

Record sched_ok reports s : Prop := {
  sk_tasks : ∀ k a, sc_tasks s !! k = Some a → task_ok reports a;
  sk_engine : ∃ props, inv h props (sc_engine s) ∧
    ∀ p, p ∈ props → ∃ x o, opened reports x ∧ p = (x_rid x, buildRoundState h x o);
  sk_paid : ∀ rid provider payload model rank cap admitted, SFetch rid provider payload model rank cap admitted ∈ sc_out s →
    ∃ x, opened reports x ∧ rid = x_rid x ∧ provider = q_provider_id (x_request x) ∧ payload = q_payload (x_request x) ∧ admitted = x_admitted x }.

(** What [sched_ok] reads. *)
Definition vital s := (sc_tasks s, sc_engine s, sc_out s).

Lemma sched_ok_ext reports s s' : sched_ok reports s → vital s' = vital s → sched_ok reports s'.
Proof. unfold vital. intros [] [= E1 E2 E3]. constructor; rewrite ?E1, ?E2, ?E3; done. Qed.

Lemma opened_mono reports reports' x : told_le reports reports' → opened reports x → opened reports' x.
Proof. intros Hle [(latest & vs & reg & ? & ? & ? & ?)]. constructor; try done. exists latest, vs, reg. split_and!; [by apply Hle..|done|done]. Qed.

Lemma sched_ok_mono reports reports' s : told_le reports reports' → sched_ok reports s → sched_ok reports' s.
Proof.
  intros Hle [K1 (props & Hi & K2) K3]. constructor.
  - intros k a Ha. specialize (K1 k a Ha). destruct a; cbn in *; try done; [destruct K1; split; [by apply Hle|done]|by eapply opened_mono..].
  - exists props. split; [done|]. intros p Hp. destruct (K2 p Hp) as (x & o & ? & ?). exists x, o. split; [by eapply opened_mono|done].
  - intros ??????? Hin. destruct (K3 _ _ _ _ _ _ _ Hin) as (x & ? & ?). exists x. split; [by eapply opened_mono|done].
Qed.

Lemma sched_ok_await reports a s : task_ok reports a → sched_ok reports s → sched_ok reports (await a s).
Proof.
  intros Ha [K1 K2 K3]. constructor; [|done..]. intros k b. unfold await. cbn [sc_tasks with_tasks with_next].
  destruct (decide (k = sc_next s)) as [->|Hne]; [rewrite lookup_insert_eq; by intros [= <-]|rewrite lookup_insert_ne by done; apply K1].
Qed.

Lemma sched_ok_say reports e s : match e with SFetch _ _ _ _ _ _ _ => False | _ => True end → sched_ok reports s → sched_ok reports (say e s).
Proof.
  intros He [K1 K2 K3]. constructor; [done..|]. intros ??????? Hin. unfold say in Hin. cbn [sc_out with_out] in Hin.
  apply elem_of_cons in Hin as [<-|Hin]; [done|by apply (K3 _ _ _ _ _ _ _ Hin)].
Qed.

Lemma sched_ok_hand_over reports now x o s s' : opened reports x → sched_ok reports s → hand_over h now x o s = Some s' → sched_ok reports s'.
Proof.
  intros Hx [K1 (props & Hi & K2) K3]. unfold hand_over. cbn [sc_engine with_rounds]. set (rs := buildRoundState h x o).
  destruct (step h now (EvPropose (x_rid x) rs) (sc_engine s)) as [f|] eqn:Hst; [|done]. intros [= <-]. constructor; [done| |done].
  cbn [sc_engine with_engine]. exists ((x_rid x, rs) :: props). split.
  - eapply (at_inv_step h Hself Hsha); [|done|]; [|eapply at_inv_mono; [|done]; intros p Hp; by right].
    intros requestId rs' [= <- <-]. rewrite (op_rid _ _ Hx), toLowerCase_idemp, <-(op_rid _ _ Hx). by left.
  - intros p [->|Hp]%elem_of_cons; [by exists x, o|by apply K2].
Qed.

Lemma sched_ok_startRound reports r latest admitted s :
  (latest, r) ∈ to_reports reports → confirmed h t latest r = true → sched_ok reports s → sched_ok reports (startRound h r latest admitted s).
Proof. intros ? ? Hs. unfold startRound. on_if; [by apply sched_ok_await|done]. Qed.

Lemma electLeader_vital now rid responsible latest blk s : vital (electLeader h t now rid responsible latest blk s).1 = vital s.
Proof. unfold electLeader, resolveLeader. on_if; [done|]. by destruct (observe _ _ _ _ _ _). Qed.

Lemma electLeader_config now rid responsible latest blk s : sc_config (electLeader h t now rid responsible latest blk s).1 = sc_config s.
Proof. unfold electLeader, resolveLeader. on_if; [done|]. by destruct (observe _ _ _ _ _ _). Qed.

Lemma electLeader_member now rid responsible latest blk s : responsible ≠ [] →
  ∃ pk, ld_pubkey (electLeader h t now rid responsible latest blk s).2 = Some pk ∧ pk ∈ s_pubkey <$> responsible.
Proof.
  intros Hne. unfold electLeader, resolveLeader. on_if; [by apply slot_member|].
  pose proof (leader_member t responsible (hasProposedForRequest rid (sc_engine s)) (leader_step h t latest blk) latest (leaderSilenceRecord now rid (sc_silence s)) Hne) as Hm.
  by destruct (observe _ _ _ _ _ _).
Qed.

Lemma pins_strategy config providerId blk latest r p : pinRoundRules h t config providerId blk latest r = Some p → is_strategy (pin_strategy p) = true.
Proof.
  unfold pinRoundRules, pinConsensusStrategy. destruct (getConsensusStrategy _ _ _) as [st|]; [|done]. destruct (is_strategy st) eqn:E; [|done].
  destruct (feeBelowProviderFloor _ _ _); [done|]. intros [= <-]. done.
Qed.

Lemma sched_ok_resumeSnapshot reports now r latest admitted snapshot s :
  (latest, r) ∈ to_reports reports → confirmed h t latest r = true → (∀ vs, snapshot = Some vs → Sitting r latest vs (sc_config s) ∈ to_sittings reports) →
  sched_ok reports s → sched_ok reports (resumeSnapshot h t now r latest admitted snapshot s).
Proof.
  intros Hr Hc Hsit Hs. unfold resumeSnapshot. destruct snapshot as [[|v vs]|]; try done. destruct (identity h) as [me|] eqn:Hid; [|done].
  destruct (responsibleSetFor _ _ _ _ _ _ _ _ _ _) as [st|[]] eqn:Hset; [|done|by eapply sched_ok_ext].
  assert (Hne : st_responsible st ≠ []).
  { apply seated_size in Hset. intros E. rewrite E in Hset. cbn in Hset. lia. }
  set (rid := toLowerCase (q_request_id r)) in *. pose proof (electLeader_vital now rid (st_responsible st) latest (q_block_index r) s) as Hv.
  pose proof (electLeader_member now rid (st_responsible st) latest (q_block_index r) s Hne) as Hl.
  destruct (electLeader _ _ _ _ _ _ _ _) as [s1 l]. cbn [fst snd] in *. apply (fun Hs => sched_ok_ext _ _ _ Hs Hv) in Hs. clear Hv.
  destruct (bool_decide _) eqn:Hin; cbn [negb]; [|done]. apply bool_decide_eq_true in Hin.
  destruct (pinRoundRules _ _ _ _ _ _ _) as [p|] eqn:Hp; [|done]. apply pins_strategy in Hp. unfold roundAlreadyServed. destruct (isRoundActive _ _); [done|].
  destruct (isFinalized _ _); [by eapply sched_ok_ext|]. apply sched_ok_await; [|done]. cbn [task_ok]. constructor; cbn; try done.
  - exists latest, (v :: vs), (sc_config s). split_and!; [done|by apply Hsit|done..].
  - by exists me.
Qed.

Lemma sched_ok_consider reports now latest s r : (latest, r) ∈ to_reports reports → sched_ok reports s → sched_ok reports (consider h t now latest s r).
Proof.
  intros Hr Hs. unfold consider. on_if; [done|]. destruct (confirmed h t latest r) eqn:Hc; cbn [negb]; [|done].
  apply sched_ok_startRound; [done..|]. by eapply sched_ok_ext.
Qed.

Lemma sched_ok_page reports now a s :
  (∀ latest requests r, a = PollPage latest requests → r ∈ requests → (latest, r) ∈ to_reports reports) →
  sched_ok reports s → sched_ok reports (end_poll (admitPendingPage h t now a s)).
Proof.
  intros Ha Hs. apply (sched_ok_ext _ (admitPendingPage h t now a s)); [|done]. destruct a as [status| |latest requests]; cbn [admitPendingPage]; [by eapply sched_ok_ext..|].
  set (s1 := if 0 <? latest then _ else _). assert (Hs1 : sched_ok reports s1) by (unfold s1; destruct (0 <? latest); by eapply sched_ok_ext).
  apply (sched_ok_ext _ (fold_left (consider h t now latest) requests s1)); [|done].
  assert (Hreq : ∀ r, r ∈ requests → (latest, r) ∈ to_reports reports) by (intros r; by apply Ha). clearbody s1. clear Ha Hs s. revert s1 Hs1.
  induction requests as [|r requests IH]; intros s1 Hs1; [done|]. cbn [fold_left]. apply IH; [|apply sched_ok_consider; [|done]]; [intros r' Hr'; apply Hreq; by right|apply Hreq; by left].
Qed.

Lemma sched_ok_wake reports k s a s1 : wake k s = Some (a, s1) → sched_ok reports s → sched_ok reports s1 ∧ task_ok reports a.
Proof.
  unfold wake. destruct (sc_tasks s !! k) as [b|] eqn:Hk; [|done]. intros [= <- <-] [K1 K2 K3]. split; [|by eapply K1]. constructor; [|done..].
  intros j c. cbn [sc_tasks with_tasks]. intros [_ Hj]%lookup_delete_Some. by eapply K1.
Qed.

Lemma sched_ok_resume reports now a ev s s' :
  (∀ latest requests k r, ev = SePage k (PollPage latest requests) → r ∈ requests → (latest, r) ∈ to_reports reports) →
  (∀ k r latest admitted vs, a = TSnapshot r latest admitted → ev = SeSnapshot k (Some vs) → Sitting r latest vs (sc_config s) ∈ to_sittings reports) →
  task_ok reports a → sched_ok reports s → resume_task h t now a ev s = Some s' → sched_ok reports s'.
Proof.
  intros Hev Hsit Ha Hs. destruct a as [| | |r latest admitted|x|x|x o], ev as [|k found|k|k answer|k snapshot|k cached|k answer|k| | |]; cbn [resume_task]; try done.
  - intros [= <-]. unfold resumeUrl. on_if; [|by eapply sched_ok_ext]. apply sched_ok_await; [done|]. apply sched_ok_say; [done|]. by eapply sched_ok_ext.
  - intros [= <-]. unfold resumeEvict. cbn zeta. apply sched_ok_await; [done|]. apply sched_ok_say; [done|]. by eapply sched_ok_ext.
  - intros [= <-]. apply sched_ok_page; [|done]. intros latest requests r -> Hin. by eapply Hev.
  - intros [= <-]. destruct Ha. apply sched_ok_resumeSnapshot; [done..| |done]. intros vs ->. by eapply Hsit.
  - unfold resumeCache. destruct cached as [o|]; [intros Ho; eapply sched_ok_hand_over; [done| |done]; by eapply sched_ok_ext|]. intros [= <-].
    apply sched_ok_await; [done|]. destruct Hs as [K1 K2 K3]. constructor; [done..|]. intros ??????? Hin. cbn [sc_out say with_out tally_up with_tallies] in Hin.
    apply elem_of_cons in Hin as [[= -> -> -> -> -> -> ->]|Hin]; [by exists x|by apply (K3 _ _ _ _ _ _ _ Hin)].
  - intros [= <-]. unfold resumeFetch. apply sched_ok_await; [done|]. by apply sched_ok_say.
  - intros Ho. by eapply sched_ok_hand_over.
Qed.

Lemma sched_ok_step reports now ev s s' :
  (∀ latest requests k r, ev = SePage k (PollPage latest requests) → r ∈ requests → (latest, r) ∈ to_reports reports) →
  sitting_of ev s ⊆ to_sittings reports → sched_ok reports s → sched_step h t now ev s = Some s' → sched_ok reports s'.
Proof.
  intros Hev Hsit Hs.
  assert (Htask : ∀ k, match ev with SeSnapshot j _ => j = k | _ => True end → ('(a, s) ← wake k s; resume_task h t now a ev s) = Some s' → sched_ok reports s').
  { intros k Hk. destruct (wake k s) as [[a s1]|] eqn:Hw; [|done]. cbn. destruct (sched_ok_wake _ _ _ _ _ Hw Hs). apply sched_ok_resume; [done| |done..].
    intros j r latest admitted vs -> ->. apply Hsit. subst j. unfold wake in Hw. cbn [sitting_of].
    destruct (sc_tasks s !! k) as [b|]; [|done]. injection Hw as -> <-. by left. }
  destruct ev as [| | | | | | | |config| |ev]; cbn [sched_step]; try by apply Htask.
  - intros [= <-]. unfold pollPending. on_if; [done|]. apply sched_ok_await; [done|]. by eapply sched_ok_ext.
  - intros [= <-]. by eapply sched_ok_ext.
  - intros [= <-]. by eapply sched_ok_ext.
  - destruct (from_outside ev) eqn:Hout; [|done]. destruct (step h now ev (sc_engine s)) as [[e|e]|] eqn:Hst; [|done..]. intros [= <-].
    destruct Hs as [K1 (props & Hi & K2) K3]. constructor; [done| |done]. exists props. split; [|done].
    apply (at_inv_step h Hself Hsha props now ev (sc_engine s) (Returned e)); [|done..]. by intros ? ? ->.
Qed.

Lemma sched_ok_run evs s s' reports : sched_run h t evs s = Some s' → sched_ok reports s →
  sched_ok (Told (reports_of evs ++ to_reports reports) (sittings_of evs s ++ to_sittings reports)) s'.
Proof.
  revert s reports. induction evs as [|[now ev] evs IH]; intros s reports; cbn [sched_run]; [intros [= <-]; by destruct reports|].
  destruct (sched_step h t now ev s) as [s1|] eqn:Hst; [|done]. cbn [mbind option_bind]. intros Hrun Hs.
  set (here := match ev with SePage _ (PollPage latest requests) => map (pair latest) requests | _ => [] end).
  set (mid := Told (here ++ to_reports reports) (sitting_of ev s ++ to_sittings reports)).
  eapply (sched_ok_mono (Told (reports_of evs ++ to_reports mid) (sittings_of evs s1 ++ to_sittings mid))).
  - cbn [sittings_of]. rewrite Hst. split; intros p; unfold reports_of, mid; cbn [to_reports to_sittings flat_map snd]; fold here; rewrite !elem_of_app; tauto.
  - eapply IH; [done|]. eapply sched_ok_step; [| |eapply sched_ok_mono; [|done]|done].
    + intros latest requests k r -> Hin. apply elem_of_app. left. unfold here. apply list_elem_of_In, in_map, list_elem_of_In, Hin.
    + intros x Hx. apply elem_of_app. by left.
    + split; intros p Hp; apply elem_of_app; by right.
Qed.

Lemma sched_ok_initial config : sched_ok (Told [] []) (sched_initial config).
Proof.
  constructor; cbn.
  - intros k a. by rewrite lookup_empty.
  - exists []. split; [apply at_inv_initial|]. by intros p ?%not_elem_of_nil.
  - intros ??????? []%not_elem_of_nil.
Qed.
End Opened.
