(* ===== verification/AtSchedProps.v ===== *)
(** * Attestation scheduling: theorems

    A published response comes from a round that was opened for a confirmed request
    over the responsible set of the chain; a provider is paid at most once per retry
    window; a silent leader is passed. *)

From S2P Require Import Prelude Ordered GateRegistry BigNum Quorum Json AttestWire OracleBand BcMath Admission AtState AtCanon AtRounds AtInv AtSafety AtProps ProviderConfig AtLadder AtSeat AtSched.
From Stdlib Require Import QArith_base.
Open Scope Z_scope.

(** ** Who may sign *)

Section WhoMaySign.
Context `{BigNumber} `{!BigNumberLaws _} (h : env).

(** C13: The responsible set is the one the protocol names. When no two contenders share
    a digest, the members are, in digest order, exactly those contenders that stand
    (under stake weighting: with a stake of at least the floor, compared exactly, and
    no better key of the same source) with fewer standing contenders before them than
    there are slots: [max 1 redundancy] plus the widening. *)
Theorem responsible_set_exact vs rid redundancy weighted floor widen :
  let all := contenders h vs rid weighted floor in
  let set := computeResponsibleSet h vs rid redundancy weighted floor widen in
  NoDup (s_hash <$> all) →
  ranked set ∧
  (∀ s, s ∈ set ↔ stands all weighted s ∧
                  (length (filter (λ c, stands all weighted c ∧ before c s) all) < set_size redundancy widen)%nat) ∧
  (weighted = true → ∀ s, s ∈ set → ∃ v w f, v ∈ vs ∧ seat_of h rid v = s ∧ usable (v_weight v) = Some w ∧ usable floor = Some f ∧
                                             (Decimal.value f <= Decimal.value w)%Q).
Proof.
  cbn zeta. intros Hnd. rewrite compute_ranking. destruct (elem_of_ranking h vs rid weighted floor (Seat "" None "") Hnd) as [Hr _]. split_and!.
  - by apply (StronglySorted_app_1_l before _ (drop (set_size redundancy widen) (ranking h vs rid weighted floor))); rewrite take_drop.
  - intros s. rewrite elem_of_take_ranked, (proj2 (elem_of_ranking h _ _ _ _ s Hnd)) by done. apply and_iff_compat_l.
    assert (E : filter (λ c, before c s) (ranking h vs rid weighted floor) ≡ₚ
                filter (λ c, stands (contenders h vs rid weighted floor) weighted c ∧ before c s) (contenders h vs rid weighted floor)); [|by rewrite E].
    apply NoDup_Permutation.
    + apply NoDup_filter. clear -Hr. induction Hr as [|x l Hr IH Hx]; [constructor|]. apply NoDup_cons. split; [|done].
      rewrite Forall_forall in Hx. intros Hin. by apply (before_irrefl x), Hx.
    + apply NoDup_filter. by eapply NoDup_fmap_1.
    + intros x. rewrite !list_elem_of_filter, (proj2 (elem_of_ranking h _ _ _ _ x Hnd)). unfold stands. tauto.
  - intros -> s Hin. apply elem_of_take_ranked in Hin as [Hin _]; [|done]. apply (proj2 (elem_of_ranking h _ _ _ _ s Hnd)) in Hin as [Hin _].
    unfold contenders in Hin. apply list_elem_of_In, in_map_iff in Hin as (v & Hv & Hin%list_elem_of_In). apply list_elem_of_filter in Hin as [Hm Hin].
    apply meets_floor_exact in Hm as (w & f & ? & ? & ?). by exists v, w, f.
Qed.

(** C19: A seat once granted is kept. A hub that evaluates a request at a later tip opens
    the round too, and its set starts with the whole set of the earlier tip in the
    same order: no member that was allowed to sign is ever turned away, none loses
    its rank, and at most three are added. *)
Theorem widened_set_extends reg rid dl vs blk b b' redundancy provider weighted st :
  b ≤ b' → responsibleSetFor h reg rid dl vs blk b redundancy provider weighted = Ok st →
  ∃ st', responsibleSetFor h reg rid dl vs blk b' redundancy provider weighted = Ok st' ∧
    st_responsible st `prefix_of` st_responsible st' ∧ st_floor st' = st_floor st ∧
    (length (st_responsible st') ≤ Z.to_nat (Z.max 1 redundancy + 3))%nat ∧ Z.max 1 redundancy ≤ Z.of_nat (length (st_responsible st)).
Proof.
  intros Hb. unfold responsibleSetFor. set (floor := getMinStake provider (Some blk) reg). destruct (weighted && bool_decide (floor = None)); [done|].
  pose proof (compute_prefix h vs rid redundancy weighted (JStr <$> floor) _ _ (widening_mono h b b' blk dl Hb)) as Hp.
  set (set1 := computeResponsibleSet _ _ _ _ _ _ (widening h b blk dl)) in *. set (set2 := computeResponsibleSet _ _ _ _ _ _ (widening h b' blk dl)) in *.
  pose proof (prefix_length _ _ Hp) as Hlen. destruct (Z.ltb_spec (Z.of_nat (length set1)) (Z.max 1 redundancy)); [done|]. intros [= <-].
  destruct (Z.ltb_spec (Z.of_nat (length set2)) (Z.max 1 redundancy)); [lia|]. eexists. split; [done|]. cbn [st_responsible st_floor]. split_and!; [done..| |lia].
  unfold set2. rewrite compute_ranking, length_take. unfold set_size, widening. pose proof (widen_bounds b' blk dl (network h)) as Hw.
  unfold wide2_headroom, wide2_maxSlots in Hw. destruct (0 <? b'); lia.
Qed.

(** No two publishers step in at one turn. Of the members of one queue entry, each
    that knows itself has its own rank below the number of members, and the recorded
    leader, when a member, has rank 0. *)
Theorem failover_ranks_distinct me me' keys leader r r' :
  keys ≠ [] → myRank (Some me) (Some keys) leader = Some r → myRank (Some me') (Some keys) leader = Some r' →
  0 ≤ r < Z.of_nat (length keys) ∧ (r = r' → toLowerCase me = toLowerCase me') ∧
  (toLowerCase <$> leader = Some (toLowerCase me) → r = 0).
Proof.
  intros Hne. destruct keys as [|k keys]; [done|]. unfold myRank. set (ordered := toLowerCase <$> (k :: keys)).
  assert (Hl : length (k :: keys) = length ordered) by (unfold ordered; by rewrite length_fmap). rewrite Hl.
  assert (Hn : (0 < length ordered)%nat) by (rewrite <-Hl; cbn; lia). clearbody ordered. clear Hl.
  set (li := match leader with Some l => default 0%nat (index_of (toLowerCase l) ordered) | None => 0%nat end).
  assert (Hli : (li < length ordered)%nat).
  { unfold li. destruct leader as [l|]; [|done]. destruct (index_of (toLowerCase l) ordered) as [j|] eqn:E; cbn [default]; [by destruct (index_of_spec _ _ _ E)|done]. }
  destruct (index_of (toLowerCase me) ordered) as [i|] eqn:Ei; [|done]. destruct (index_of (toLowerCase me') ordered) as [i'|] eqn:Ei'; [|done].
  destruct (index_of_spec _ _ _ Ei) as [Hi Hk]. destruct (index_of_spec _ _ _ Ei') as [Hi' Hk'].
  intros [= <-] [= <-]. split; [apply Z.mod_pos_bound; lia|]. split.
  - intros Heq. assert (i = i') as <-; [|congruence].
    apply Nat2Z.inj, (turn_injective (Z.of_nat i) (Z.of_nat i') (Z.of_nat li) (Z.of_nat (length ordered))); [lia..|done].
  - intros Hlead. destruct leader as [l|]; [|done]. cbn in Hlead. injection Hlead as Hlead. unfold li. rewrite Hlead, Ei. cbn [default id].
    replace (Z.of_nat i - Z.of_nat i + Z.of_nat (length ordered)) with (Z.of_nat (length ordered)) by lia. apply Z_mod_same_full.
Qed.

End WhoMaySign.

(** ** Paying for a request *)

Section Paid.
Context `{BigNumber} (h : env) (t : tuning).
Implicit Types (s : sched) (p q : string * Z).

(** A request's admission, as a started round that has not paid yet holds it: its id
    and when it was admitted. *)
Definition admission_of (a : task) : option (string * Z) :=
  match a with
  | TSnapshot r _ admitted => Some (toLowerCase (q_request_id r), admitted)
  | TCache x => Some (x_rid x, x_admitted x)
  | _ => None
  end.

(** The admissions a provider was called for. *)
Definition paid_for (l : list sched_effect) : list (string * Z) :=
  omap (λ e, match e with SFetch rid _ _ _ _ _ admitted => Some (rid, admitted) | _ => None end) l.

Definition apart p q : Prop := p.1 = q.1 → retryAfterMs t < Z.abs (p.2 - q.2).

Definition holds s p : Prop := p ∈ paid_for (sc_out s) ∨ ∃ k a, sc_tasks s !! k = Some a ∧ admission_of a = Some p.

(** How an old admission stands to the [seen] window. *)
Definition seen_or_lapsed (now : Z) s p : Prop :=
  p.2 ≤ now ∧ (sc_seen s !! p.1 = Some p.2 ∨
               (p.2 < now - retryAfterMs t ∧ ∀ b, sc_seen s !! p.1 = Some b → p.2 < b - retryAfterMs t)).

Record paid_ok (now : Z) s : Prop := {
  pd_tasks : ∀ k1 k2 a1 a2 p q, k1 ≠ k2 → sc_tasks s !! k1 = Some a1 → sc_tasks s !! k2 = Some a2 →
    admission_of a1 = Some p → admission_of a2 = Some q → apart p q;
  pd_mixed : ∀ k a p q, sc_tasks s !! k = Some a → admission_of a = Some p → q ∈ paid_for (sc_out s) → apart p q;
  pd_paid : ForallOrdPairs apart (paid_for (sc_out s));
  pd_seen : ∀ p, holds s p → seen_or_lapsed now s p;
  pd_fresh : ∀ k, (sc_next s ≤ k)%nat → sc_tasks s !! k = None }.

(** An admission nothing else of the state competes with. *)
Record free (now : Z) s p : Prop := {
  fr_tasks : ∀ k a q, sc_tasks s !! k = Some a → admission_of a = Some q → apart p q;
  fr_paid : ∀ q, q ∈ paid_for (sc_out s) → apart p q;
  fr_seen : seen_or_lapsed now s p }.

Definition accounts s := (sc_tasks s, sc_next s, sc_seen s, sc_out s).

Lemma apart_sym p q : apart p q → apart q p.
Proof. unfold apart. intros Hpq E. specialize (Hpq (eq_sym E)). lia. Qed.

Lemma paid_ext now s s' : paid_ok now s → accounts s' = accounts s → paid_ok now s'.
Proof. unfold accounts. intros [] [= E1 E2 E3 E4]. constructor; unfold holds, seen_or_lapsed in *; rewrite ?E1, ?E2, ?E3, ?E4; done. Qed.

Lemma free_ext now s s' p : free now s p → accounts s' = accounts s → free now s' p.
Proof. unfold accounts. intros [] [= E1 E2 E3 E4]. constructor; unfold seen_or_lapsed in *; rewrite ?E1, ?E3, ?E4; done. Qed.

Lemma paid_later now now' s : now ≤ now' → paid_ok now s → paid_ok now' s.
Proof.
  intros Hle []. constructor; try done. intros p Hp. destruct (pd_seen0 p Hp) as [H1 [H2|[H2 H3]]]; (split; [lia|]); [by left|right]. split; [lia|done].
Qed.

Lemma lookup_await a s k b : (∀ k, (sc_next s ≤ k)%nat → sc_tasks s !! k = None) → sc_tasks (await a s) !! k = Some b →
  (k = sc_next s ∧ b = a) ∨ (k ≠ sc_next s ∧ sc_tasks s !! k = Some b).
Proof.
  intros Hf. unfold await. cbn [sc_tasks with_tasks with_next]. destruct (decide (k = sc_next s)) as [->|Hne].
  - rewrite lookup_insert_eq. intros [= <-]. by left.
  - rewrite lookup_insert_ne by done. by right.
Qed.

Lemma await_fresh a s : (∀ k, (sc_next s ≤ k)%nat → sc_tasks s !! k = None) → ∀ k, (sc_next (await a s) ≤ k)%nat → sc_tasks (await a s) !! k = None.
Proof. intros Hf k. unfold await. cbn [sc_tasks sc_next with_tasks with_next]. intros Hk. rewrite lookup_insert_ne by lia. apply Hf. lia. Qed.

Lemma paid_await now a s : paid_ok now s → (∀ p, admission_of a = Some p → free now s p) → paid_ok now (await a s).
Proof.
  intros [P1 P2 P3 P4 P5] Ha. constructor.
  - intros k1 k2 a1 a2 p q Hne [[-> ->]|[_ H1]]%(lookup_await _ _ _ _ P5) [[-> ->]|[_ H2]]%(lookup_await _ _ _ _ P5) Hp Hq; [done| | |by eapply P1].
    + by eapply (fr_tasks _ _ _ (Ha p Hp)).
    + apply apart_sym. by eapply (fr_tasks _ _ _ (Ha q Hq)).
  - intros k b p q [[-> ->]|[_ Hb]]%(lookup_await _ _ _ _ P5) Hp Hq; [by apply (fr_paid _ _ _ (Ha p Hp))|by eapply P2].
  - done.
  - intros p [Hp|(k & b & [[-> ->]|[_ Hb]]%(lookup_await _ _ _ _ P5) & Hp)]; [apply P4; by left|exact (fr_seen _ _ _ (Ha p Hp))|apply P4; right; by exists k, b].
  - by apply await_fresh.
Qed.

Lemma paid_await_none now a s : paid_ok now s → admission_of a = None → paid_ok now (await a s).
Proof. intros Hs Ha. apply paid_await; [done|]. rewrite Ha. done. Qed.

Lemma paid_wake now k s a s1 : paid_ok now s → wake k s = Some (a, s1) →
  paid_ok now s1 ∧ ∀ p, admission_of a = Some p → free now s1 p.
Proof.
  unfold wake. destruct (sc_tasks s !! k) as [b|] eqn:Hk; [|done]. intros [P1 P2 P3 P4 P5] [= -> <-]. split.
  - constructor; cbn [sc_tasks sc_out sc_next with_tasks].
    + intros k1 k2 a1 a2 p q Hne [_ H1]%lookup_delete_Some [_ H2]%lookup_delete_Some. by eapply P1.
    + intros j b p q [_ Hb]%lookup_delete_Some. by eapply P2.
    + done.
    + intros p Hp. apply P4. destruct Hp as [Hp|(j & b & Hb & Hp)]; [by left|right]. cbn [sc_tasks with_tasks] in Hb. apply lookup_delete_Some in Hb as [_ Hb]. by exists j, b.
    + intros j Hj. apply lookup_delete_None. right. by apply P5.
  - intros p Hp. constructor; cbn [sc_tasks sc_out with_tasks].
    + intros j b q [Hne Hb]%lookup_delete_Some Hq. by eapply (P1 k j).
    + intros q Hq. by eapply P2.
    + apply P4. right. by exists k, a.
Qed.

Lemma paid_say now e s : paid_ok now s → match e with SFetch _ _ _ _ _ _ _ => False | _ => True end → paid_ok now (say e s).
Proof.
  intros [P1 P2 P3 P4 P5] He. assert (E : paid_for (sc_out (say e s)) = paid_for (sc_out s)) by (by destruct e).
  constructor; unfold holds; rewrite ?E; done.
Qed.

Lemma paid_say_fetch now s rid provider payload model rank cap admitted :
  paid_ok now s → free now s (rid, admitted) → paid_ok now (say (SFetch rid provider payload model rank cap admitted) s).
Proof.
  intros [P1 P2 P3 P4 P5] [F1 F2 F3]. constructor; try done; cbn [sc_out say with_out paid_for omap list_omap].
  - intros k a p q Hk Hp [->|Hq]%elem_of_cons; [by apply apart_sym, (F1 k a)|by eapply P2].
  - constructor; [|done]. rewrite Forall_forall. apply F2.
  - intros p [Hp|Hp]; [|apply P4; by right]. apply elem_of_cons in Hp as [->|Hp]; [done|apply P4; by left].
Qed.

(** ** The steps *)

Lemma paid_hand_over now now' x o s s' : paid_ok now s → hand_over h now' x o s = Some s' → paid_ok now s'.
Proof.
  intros Hs. unfold hand_over. cbn [sc_engine with_rounds]. destruct (step h now' _ _); [|done]. intros [= <-]. by apply (paid_ext now s).
Qed.

Lemma electLeader_accounts now rid responsible latest blk s : accounts (electLeader h t now rid responsible latest blk s).1 = accounts s.
Proof. unfold electLeader, resolveLeader. on_if; [done|]. by destruct (observe _ _ _ _ _ _). Qed.

Lemma paid_resumeSnapshot now r latest admitted snapshot s :
  paid_ok now s → free now s (toLowerCase (q_request_id r), admitted) → paid_ok now (resumeSnapshot h t now r latest admitted snapshot s).
Proof.
  intros Hs Hf. unfold resumeSnapshot. destruct snapshot as [[|v vs]|]; try done. destruct (identity h) as [me|]; [|done].
  destruct (responsibleSetFor _ _ _ _ _ _ _ _ _ _) as [st|[]]; [|done|by apply (paid_ext now s)].
  pose proof (electLeader_accounts now (toLowerCase (q_request_id r)) (st_responsible st) latest (q_block_index r) s) as Hv.
  destruct (electLeader _ _ _ _ _ _ _ _) as [s1 l]. cbn [fst] in Hv. apply (fun Hs => paid_ext _ _ _ Hs Hv) in Hs. apply (fun Hf => free_ext _ _ _ _ Hf Hv) in Hf.
  destruct (negb _); [done|]. destruct (pinRoundRules _ _ _ _ _ _ _); [|done]. unfold roundAlreadyServed. destruct (isRoundActive _ _); [done|].
  destruct (isFinalized _ _); [by apply (paid_ext now s1)|]. apply paid_await; [done|]. by intros p0 [= <-].
Qed.

Lemma paid_consider now latest s r : 0 ≤ retryAfterMs t → paid_ok now s → paid_ok now (consider h t now latest s r).
Proof.
  intros Hret Hs. unfold consider. set (rid := toLowerCase (q_request_id r)). destruct (_ || _) eqn:Hb; [done|]. bools. destruct (negb _); [done|].
  assert (Hnone : sc_seen s !! rid = None) by (destruct (sc_seen s !! rid); [by destruct H1|done]).
  set (s1 := with_seen _ s).
  assert (Hlapsed : ∀ p, holds s p → p.1 = rid → p.2 < now - retryAfterMs t).
  { intros p Hp E. destruct (pd_seen _ _ Hs p Hp) as [_ [Hp'|[? _]]]; [rewrite E in Hp'; congruence|done]. }
  assert (Hs1 : paid_ok now s1).
  { destruct Hs as [P1 P2 P3 P4 P5]. constructor; try done. intros p Hp. destruct (P4 p Hp) as [Hle Hor]. split; [done|]. unfold s1. cbn [sc_seen with_seen].
    destruct (decide (p.1 = rid)) as [E|Hne].
    - right. split; [by apply Hlapsed|]. rewrite E, lookup_insert_eq. intros b [= <-]. by apply Hlapsed.
    - rewrite lookup_insert_ne by done. done. }
  unfold startRound. destruct (servable _ _ _); [|done]. apply paid_await; [done|]. intros p [= <-].
  assert (Hap : ∀ q, holds s q → apart (rid, now) q).
  { intros q Hq E. specialize (Hlapsed q Hq (eq_sym E)). cbn [snd]. lia. }
  constructor.
  - intros k a q Ha Hq. apply Hap. right. by exists k, a.
  - intros q Hq. apply Hap. by left.
  - split; cbn; [lia|]. left. apply lookup_insert_eq.
Qed.

Lemma paid_evictStaleSeen now s : paid_ok now s → paid_ok now (evictStaleSeen t now s).
Proof.
  intros [P1 P2 P3 P4 P5]. constructor; try done. intros p Hp. destruct (P4 p Hp) as [Hle Hor]. split; [done|]. unfold evictStaleSeen. cbn [sc_seen with_seen].
  destruct Hor as [Hsn|[Hl Hb]].
  - destruct (decide (p.2 < now - retryAfterMs t)) as [Hlt|Hge].
    + right. split; [done|]. intros b [Hb Hk]%map_lookup_filter_Some. rewrite Hsn in Hb. injection Hb as <-. cbn in Hk. apply negb_true_iff, Z.ltb_ge in Hk. lia.
    + left. apply map_lookup_filter_Some. split; [done|]. cbn. apply negb_true_iff, Z.ltb_ge. lia.
  - right. split; [done|]. intros b [Hb' _]%map_lookup_filter_Some. by apply Hb.
Qed.
Context (Hret : 0 ≤ retryAfterMs t).

Lemma paid_page now a s : paid_ok now s → paid_ok now (end_poll (admitPendingPage h t now a s)).
Proof.
  intros Hs. apply (paid_ext now (admitPendingPage h t now a s)); [|done]. destruct a as [status| |latest requests]; cbn [admitPendingPage]; [by apply (paid_ext now s)..|].
  set (s1 := if 0 <? latest then _ else _). assert (Hs1 : paid_ok now s1) by (unfold s1; destruct (0 <? latest); by apply (paid_ext now s)).
  apply (paid_ext now (fold_left (consider h t now latest) requests s1)); [|done].
  clearbody s1. clear Hs s. revert s1 Hs1. induction requests as [|r requests IH]; intros s1 Hs1; [done|]. cbn [fold_left]. by apply IH, paid_consider.
Qed.

Lemma paid_resume now a ev s s' : paid_ok now s → (∀ p, admission_of a = Some p → free now s p) →
  resume_task h t now a ev s = Some s' → paid_ok now s'.
Proof.
  intros Hs Ha. destruct a as [| | |r latest admitted|x|x|x o], ev as [|k found|k|k answer|k snapshot|k cached|k answer|k| | |]; cbn [resume_task]; try done.
  - intros [= <-]. unfold resumeUrl. on_if; [|by apply (paid_ext now s)]. apply paid_await_none; [|done]. apply paid_say; [|done]. by apply paid_evictStaleSeen.
  - intros [= <-]. unfold resumeEvict. cbn zeta. apply paid_await_none; [|done]. apply paid_say; [|done]. by apply (paid_ext now s).
  - intros [= <-]. by apply paid_page.
  - intros [= <-]. apply paid_resumeSnapshot; [done|by apply Ha].
  - unfold resumeCache. destruct cached as [o|]; [intros Ho; eapply paid_hand_over; [|done]; by apply (paid_ext now s)|]. intros [= <-].
    apply paid_await_none; [|done]. apply paid_say_fetch; [by apply (paid_ext now s)|]. apply (free_ext now s); [by apply Ha|done].
  - intros [= <-]. unfold resumeFetch. apply paid_await_none; [|done]. by apply paid_say.
  - intros Ho. by eapply paid_hand_over.
Qed.

Lemma paid_step now ev s s' : ev ≠ SeStop → paid_ok now s → sched_step h t now ev s = Some s' → paid_ok now s'.
Proof.
  intros Hev Hs.
  assert (Htask : ∀ k, ('(a, s) ← wake k s; resume_task h t now a ev s) = Some s' → paid_ok now s').
  { intros k. destruct (wake k s) as [[a s1]|] eqn:Hw; [|done]. cbn. destruct (paid_wake _ _ _ _ _ Hs Hw). by apply paid_resume. }
  destruct ev as [| | | | | | | |config| |ev]; cbn [sched_step]; try by apply Htask.
  - intros [= <-]. unfold pollPending. on_if; [done|]. apply paid_await_none; [|done]. by apply (paid_ext now s).
  - intros [= <-]. by apply (paid_ext now s).
  - done.
  - destruct (from_outside ev); [|done]. destruct (step h now ev (sc_engine s)) as [[e|e]|]; [|done..]. intros [= <-]. by apply (paid_ext now s).
Qed.

(** Clocks that do not go back. *)
Definition in_order : Z → list (Z * sched_event) → Prop :=
  fix go now evs := match evs with [] => True | (later, _) :: evs => now ≤ later ∧ go later evs end.

Lemma paid_run evs now s s' : Forall (λ e, e.2 ≠ SeStop) evs → in_order now evs → paid_ok now s → sched_run h t evs s = Some s' →
  ∃ now', paid_ok now' s'.
Proof.
  revert now s. induction evs as [|[later ev] evs IH]; intros now s Hev Ho Hs; cbn [sched_run]; [intros [= <-]; by exists now|].
  apply Forall_cons in Hev as [Hev Hevs]. destruct Ho as [Hle Ho]. destruct (sched_step h t later ev s) as [s1|] eqn:Hst; [|done].
  apply (IH later s1); [done..|]. eapply paid_step; [done| |done]. by eapply paid_later.
Qed.

Lemma paid_initial now config : paid_ok now (sched_initial config).
Proof.
  constructor; cbn.
  - intros k1 k2 a1 a2 p q _ Hk. by rewrite lookup_empty in Hk.
  - intros k a p q Hk. by rewrite lookup_empty in Hk.
  - constructor.
  - intros p [Hp|(k & a & Hk & _)]; [by apply not_elem_of_nil in Hp|]. cbn in Hk. by rewrite lookup_empty in Hk.
  - intros k _. apply lookup_empty.
Qed.

(** C12: At most one paid call per request and retry window. While the hub runs and its
    clock does not go back, any two calls it pays a provider for one request belong
    to admissions more than the retry window apart, whatever polls, answers,
    restarted rounds and engine events come in between. *)
Theorem one_payment_per_window evs now config s i j p q :
  Forall (λ e, e.2 ≠ SeStop) evs → in_order now evs → sched_run h t evs (sched_initial config) = Some s →
  i ≠ j → paid_for (sc_out s) !! i = Some p → paid_for (sc_out s) !! j = Some q → p.1 = q.1 →
  retryAfterMs t < Z.abs (p.2 - q.2).
Proof.
  intros Hev Ho Hrun. destruct (paid_run evs now _ s Hev Ho (paid_initial now config) Hrun) as [now' [_ _ Hpaid _ _]]. clear Hrun.
  revert i j. induction Hpaid as [|x l Hx Hpaid IH]; intros i j Hne Hi Hj E; [done|]. rewrite Forall_forall in Hx.
  destruct i as [|i], j as [|j]; [done| | |].
  - injection Hi as ->. by apply (Hx q); [by eapply list_elem_of_lookup_2|].
  - injection Hj as ->. apply apart_sym; [|done]. apply Hx. by eapply list_elem_of_lookup_2.
  - apply (IH i j); [congruence|done..].
Qed.
End Paid.

(** ** What a published response proves *)

Lemma quorum_within_redundancy rs : 1 ≤ rs_redundancy rs → Z.max 0 (Z.max (round_quorum rs) (rs_redundancy rs)) = rs_redundancy rs.
Proof.
  intros Hr. unfold round_quorum, Bft.bftQuorumOrSingle. destruct (Z.leb_spec (Z.min (Z.of_nat (length (rs_responsible rs))) (Z.max 1 (rs_redundancy rs))) 1); [lia|].
  pose proof (Bft.bftQuorum_bounds (Z.min (Z.of_nat (length (rs_responsible rs))) (Z.max 1 (rs_redundancy rs))) ltac:(lia)). lia.
Qed.

(** C2: From the page to the publication. Whatever a hub polls, is answered, fetches and
    is sent, every response it publishes answers a request some page of the indexer
    reported, confirmed at that page's tip; it carries exactly the redundancy the
    request asks for, however far its set was widened, in signatures of distinct
    members of the responsible set that the digests, the snapshot the hub was answered
    for that very request and the registry it held when the answer came determine at
    the request's block and that tip; and each is valid over the very fields
    published. *)
Theorem scheduled_response_backed `{BigNumber} (h : env) (t : tuning) evs config s f :
  signs_for_itself h → digests_32 h → sched_run h t evs (sched_initial config) = Some s → Finalized f ∈ out (sc_engine s) →
  ∃ latest r vs reg st,
    (latest, r) ∈ reports_of evs ∧ Sitting r latest vs reg ∈ sittings_of h t evs (sched_initial config) ∧ confirmed h t latest r = true ∧
    f_requestId f = toLowerCase (q_request_id r) ∧ f_block f = q_block_index r ∧ f_providerId f = q_provider_id r ∧
    responsibleSetFor h reg (f_requestId f) (q_deadline_block r) vs (q_block_index r) latest (request_redundancy r) (q_provider_id r)
      (isStakeWeightedQuorumActive (Some (q_block_index r)) (network h)) = Ok st ∧
    (1 ≤ request_redundancy r → Z.of_nat (length (f_signatures f)) = request_redundancy r) ∧ NoDup (f_signatures f).*1 ∧
    ∀ pk sg, (pk, sg) ∈ f_signatures f → pk ∈ s_pubkey <$> st_responsible st ∧
      ∃ c, buildCanonical h (f_requestId f) (f_providerId f) (f_body f) (f_status f) (f_meta f) (f_block f) (f_effectiveTime f) (f_admitBlocks f) = Some c ∧
           verify h c sg pk = true.
Proof.
  intros Hself Hsha Hrun Hin. pose proof (sched_ok_run h t Hself Hsha evs _ s (Told [] []) Hrun (sched_ok_initial h t config)) as [_ (props & Hinv & Hprops) _].
  cbn [to_reports to_sittings] in Hprops. rewrite !app_nil_r in Hprops. destruct (inv_out h _ _ Hinv f Hin) as (rs & H1 & H2 & H3 & H4 & H5 & H6 & H7 & _).
  destruct (Hprops _ H1) as (x & o & Hx & [= Hid ->]). pose proof Hx as [(latest & vs & reg & Hrep & Hsit & Hconf & Hset) Hrid Hred (me & Hme & Hmem) _ _].
  exists latest, (x_request x), vs, reg, (x_seating x). rewrite Hid. cbn [rs_block rs_providerId buildRoundState] in H2, H3. rewrite <-Hred.
  split_and!; try done.
  - intros Hpos. rewrite H4. by apply (quorum_within_redundancy (buildRoundState h x o)).
  - intros pk sg Hs. split.
    + destruct (H7 pk) as [?|Heq]; [by apply (list_elem_of_fmap_2 fst) in Hs|done|]. rewrite Hme in Heq. injection Heq as <-. done.
    + specialize (H6 pk sg Hs). unfold verify_over in H6. rewrite <-Hid. destruct (buildCanonical _ _ _ _ _ _ _ _ _) as [c|]; [by exists c|done].
Qed.

(** ** Leaders *)

Lemma leader_step_mono h t b b' blk : 0 < b → b ≤ b' → leader_step h t b blk ≤ leader_step h t b' blk.
Proof.
  intros Hb Hle. unfold leader_step. rewrite (proj2 (Z.ltb_lt 0 b)), (proj2 (Z.ltb_lt 0 b')) by lia. by apply escalation_mono.
Qed.

Lemma window_pos w : 1 ≤ rotation_window w.
Proof. unfold rotation_window, DEFAULT_ROTATION_WINDOW_BLOCKS. on_if; bools; lia. Qed.

Lemma rested_polls h t blk polls : ∀ b, 0 < b → 3 ≤ leader_step h t b blk → tips_spaced t b polls →
  Forall (λ bp : Z * (string → bool), rotations (leader_step h t bp.1 blk) = rotations (leader_step h t b blk)) polls.
Proof.
  assert (Hr : ∀ z, 3 ≤ z → rotations z = 3%nat) by (intros z Hz; unfold rotations, MAX_LEADER_ROTATIONS; lia).
  induction polls as [|[b' P] polls IH]; intros b Hb H3 Hsp; [constructor|]. destruct Hsp as [Hwin Hsp]. pose proof (window_pos (leaderRotationBlocks t)).
  pose proof (leader_step_mono h t b b' blk Hb ltac:(lia)) as Hm. rewrite (Hr (leader_step h t b blk)) by lia. constructor; [apply Hr; cbn; lia|].
  eapply Forall_impl; [apply (IH b'); [lia..|done]|]. intros [b'' P'']. cbn. intros ->. apply Hr. lia.
Qed.

(** One poll of a request: the clock, the tip of the page, and the engine by then. *)
Record poll := Poll { po_now : Z; po_tip : Z; po_engine : state }.

Section Polls.
Context `{BigNumber} (h : env) (t : tuning) (r : pending_request) (vs : list validator).
Abbreviation rid := (toLowerCase (q_request_id r)).
Abbreviation blk := (q_block_index r).

Definition poll_set (config : registry) (tip : Z) : result refusal seating :=
  responsibleSetFor h config rid (q_deadline_block r) vs blk tip (request_redundancy r) (q_provider_id r) (isStakeWeightedQuorumActive (Some blk) (network h)).

(** The leader that a poll comes to, as [startRound] does with the rows [vs] of the
    request's block; [None]: no round. *)
Definition poll_leader (p : poll) (s : sched) : option (sched * leader) :=
  match poll_set (sc_config s) (po_tip p) with
  | Ok st => Some (electLeader h t (po_now p) rid (st_responsible st) (po_tip p) blk (with_engine (po_engine p) s))
  | Err _ => None
  end.

Fixpoint poll_leaders (p : poll) (polls : list poll) (s : sched) : option (sched * leader) :=
  '(s, l) ← poll_leader p s;
  match polls with [] => Some (s, l) | p :: polls => poll_leaders p polls s end.

Definition proposed_by (p : poll) : string → bool := hasProposedForRequest rid (po_engine p).
Definition observations (polls : list poll) : list (Z * (string → bool)) := (λ p, (po_tip p, proposed_by p)) <$> polls.

Definition touch (now : Z) (r : silence) : silence :=
  Silence (sl_silent r) (sl_watchPubkey r) (sl_watchBlock r) (sl_heldLogged r) now.

(** When a record was last used plays no part in an observation. *)
Lemma observe_touch proposed responsible step b now q :
  observe t proposed responsible step b (touch now q) =
  (touch now (observe t proposed responsible step b q).1, (observe t proposed responsible step b q).2).
Proof.
  unfold observe. cbn zeta. change (silentLeaderSlots (touch now q) responsible) with (silentLeaderSlots q responsible).
  cbn [touch sl_watchPubkey sl_watchBlock]. destruct (slotPubkey responsible _) as [pk|]; [destruct (_ && _)|];
    unfold skipSilentLeader, arm_watch, silentLeaderSlots; cbn; case_bool_decide; done.
Qed.

Lemma poll_leader_observe p s st q : isLeaderSilenceSkipActive blk (network h) = true →
  poll_set (sc_config s) (po_tip p) = Ok st → leaderSilenceRecord (po_now p) rid (sc_silence s) = touch (po_now p) q →
  let o := observe t (proposed_by p) (st_responsible st) (leader_step h t (po_tip p) blk) (po_tip p) q in
  ∃ s', poll_leader p s = Some (s', o.2) ∧ sc_config s' = sc_config s ∧ sc_silence s' !! rid = Some (touch (po_now p) o.1).
Proof.
  intros Hg Hset Hrec o. unfold poll_leader. rewrite Hset. unfold electLeader, resolveLeader. rewrite Hg. cbn [negb sc_silence sc_engine with_engine].
  rewrite Hrec, observe_touch. fold (proposed_by p). fold o. eexists. split; [done|]. split; [done|]. apply lookup_insert_eq.
Qed.

Lemma poll_leaders_observe polls : ∀ p s st q, isLeaderSilenceSkipActive blk (network h) = true →
  poll_set (sc_config s) (po_tip p) = Ok st → Forall (λ p', ∃ st', poll_set (sc_config s) (po_tip p') = Ok st' ∧ st_responsible st' = st_responsible st) polls →
  leaderSilenceRecord (po_now p) rid (sc_silence s) = touch (po_now p) q →
  ∃ s', poll_leaders p polls s = Some (s', (observe_polls t (st_responsible st) (λ b, leader_step h t b blk) (observations polls)
    (observe t (proposed_by p) (st_responsible st) (leader_step h t (po_tip p) blk) (po_tip p) q)).2).
Proof.
  induction polls as [|p' polls IH]; intros p s st q Hg Hset Hall Hrec;
    destruct (poll_leader_observe p s st q Hg Hset Hrec) as (s1 & Hl & Hc & Hs); cbn [poll_leaders]; rewrite Hl; cbn [mbind option_bind]; [by eexists|].
  apply Forall_cons in Hall as [(st' & Hset' & Hst) Hall]. rewrite <-Hc in Hset'. cbn [observations fmap list_fmap observe_polls].
  rewrite <-Hst. apply IH; [done|done| |].
  - rewrite Hc. eapply Forall_impl; [exact Hall|]. intros p0 (st0 & ? & ?). exists st0. split; [done|congruence].
  - unfold leaderSilenceRecord. by rewrite Hs, Hst.
Qed.

(** Where the widening has come to rest, so has the set. *)
Lemma poll_set_rests config b b' b'' st : poll_set config b = Ok st → b ≤ b' → b' ≤ b'' →
  widening h b'' blk (q_deadline_block r) = widening h b blk (q_deadline_block r) →
  ∃ st', poll_set config b' = Ok st' ∧ st_responsible st' = st_responsible st.
Proof.
  intros Hset H1 H2 Hw. pose proof (widening_mono h b b' blk (q_deadline_block r) H1). pose proof (widening_mono h b' b'' blk (q_deadline_block r) H2).
  exists st. split; [|done]. rewrite <-Hset. unfold poll_set, responsibleSetFor. by replace (widening h b' blk (q_deadline_block r)) with (widening h b blk (q_deadline_block r)) by lia.
Qed.

Lemma tips_spaced_bounds polls : ∀ b p', tips_spaced t b (observations polls) → p' ∈ polls →
  b ≤ po_tip p' ∧ po_tip p' ≤ default b (po_tip <$> last polls).
Proof.
  induction polls as [|p polls IH]; intros b p' Hsp Hin; [by apply not_elem_of_nil in Hin|]. cbn in Hsp. destruct Hsp as [Hw Hsp]. pose proof (window_pos (leaderRotationBlocks t)).
  assert (Hlast : po_tip p ≤ default b (po_tip <$> last (p :: polls))).
  { rewrite last_cons. destruct (last polls) as [p0|] eqn:E; cbn; [|lia]. destruct (IH (po_tip p) p0 Hsp) as [? _]; [|lia]. by apply last_Some_elem_of. }
  apply elem_of_cons in Hin as [->|Hin]; [lia|]. destruct (IH _ _ Hsp Hin) as [H1 H2]. split; [lia|].
  rewrite last_cons. destruct (last polls) eqn:E; cbn in *; [done|]. apply last_None in E as ->. by apply not_elem_of_nil in Hin.
Qed.

(** C23: Silent leaders are passed. From the activation of the leader-silence skip on (on
    mainnet it has no height yet), once the leader ladder of a request is past its
    last rotation and the widening of its set has come to rest, a hub that polls it at
    tips a rotation window apart, at least as many times again as the set has
    members, ends on a member of the set that has proposed for the request, whoever
    stays silent and whatever it had observed before, as long as its record of the
    request is not dropped and one member that it has not given up has proposed: no
    silent member holds the slot for good. *)
Theorem silent_leaders_passed p polls s st p0 :
  isLeaderSilenceSkipActive blk (network h) = true →
  poll_set (sc_config s) (po_tip p) = Ok st →
  widening h (default (po_tip p) (po_tip <$> last polls)) blk (q_deadline_block r) = widening h (po_tip p) blk (q_deadline_block r) →
  NoDup (s_pubkey <$> st_responsible st) → (∀ pk, pk ∈ s_pubkey <$> st_responsible st → pk ≠ EmptyString) →
  (∀ q, sc_silence s !! rid = Some q → p0 ∉ sl_silent q ∧ (sl_watchPubkey q = None ∨ ∃ w, sl_watchBlock q = Some w ∧ w ≤ po_tip p)) →
  0 < po_tip p → 3 ≤ leader_step h t (po_tip p) blk → tips_spaced t (po_tip p) (observations polls) →
  heard_grows (proposed_by p) (observations polls) →
  p0 ∈ s_pubkey <$> st_responsible st → proposed_by p p0 = true → (length (st_responsible st) ≤ length polls)%nat →
  ∃ s' l pk, poll_leaders p polls s = Some (s', l) ∧ ld_pubkey l = Some pk ∧ pk ∈ s_pubkey <$> st_responsible st ∧
    proposed_by (default p (last polls)) pk = true.
Proof.
  intros Hg Hset Hwide Hnd Hkeys Hrec Hb H3 Hsp Hgr Hp0 Hpr Hlen. set (responsible := st_responsible st) in *. set (step := leader_step h t (po_tip p) blk) in *.
  set (q := leaderSilenceRecord 0 rid (sc_silence s)).
  assert (Hq : leaderSilenceRecord (po_now p) rid (sc_silence s) = touch (po_now p) q) by (unfold q, leaderSilenceRecord; by destruct (sc_silence s !! rid)).
  assert (Hno : p0 ∉ sl_silent q ∧ (sl_watchPubkey q = None ∨ ∃ w, sl_watchBlock q = Some w ∧ w ≤ po_tip p)).
  { unfold q, leaderSilenceRecord. destruct (sc_silence s !! rid) as [q0|] eqn:E; [by destruct (Hrec q0 eq_refl)|]. split; [apply not_elem_of_empty|by left]. }
  destruct Hno as [Hno Hwf].
  assert (Hall : Forall (λ p', ∃ st', poll_set (sc_config s) (po_tip p') = Ok st' ∧ st_responsible st' = st_responsible st) polls).
  { apply Forall_forall. intros p' Hin. destruct (tips_spaced_bounds _ _ _ Hsp Hin) as [H1 H2]. by eapply poll_set_rests. }
  destruct (poll_leaders_observe polls p s st q Hg Hset Hall Hq) as (s' & Hpolls). fold responsible in Hpolls. fold step in Hpolls.
  pose proof (observe_leads t responsible (proposed_by p) step (po_tip p) q) as Hleads. pose proof (observe_watch t responsible (proposed_by p) step (po_tip p) q) as Hkey.
  destruct (observe_first t responsible (proposed_by p) step (po_tip p) q) as (Hblk & Hsil); [intros E; unfold responsible in *; rewrite E in Hp0; by apply not_elem_of_nil in Hp0|done|].
  destruct (observe t (proposed_by p) responsible step (po_tip p) q) as [r1 l1]. cbn [fst snd] in *. destruct Hblk as (w & Hw & Hwb).
  assert (H0 : p0 ∈ unheard responsible r1) by (apply elem_of_unheard; split; [|done]; intros Hin; destruct (Hsil p0 Hin); [done|congruence]).
  destruct (silent_passed t responsible (λ b, leader_step h t b blk) (length (unheard responsible r1)) (observations polls) (proposed_by p) r1 l1 step w p0) as (pk & Hl & Hpk & Hin); try done.
  - by apply rested_polls.
  - destruct polls as [|p' polls]; [done|]. destruct Hsp as [Hsp1 Hsp2]. split; [lia|done].
  - unfold observations. rewrite length_fmap. etransitivity; [|exact Hlen]. unfold unheard. rewrite length_filter, length_fmap. done.
  - eexists _, _, pk. split; [exact Hpolls|]. split; [exact Hl|]. split; [exact Hin|]. unfold observations in Hpk. rewrite fmap_last in Hpk. by destruct (last polls).
Qed.
End Polls.

(** ** Witnesses *)

Definition weather : json := JObj [("provider_id", JStr "weather"); ("consensus_strategy", JStr "byte_equality"); ("min_stake_xchain", JStr "10.5")].
Definition weather_registry : registry := Registry {["weather"%string := weather]} ∅.
Definition plain_tuning : tuning := Tuning 3 2 123000 3600000 3000.
Definition staked (c : ascii) (source : option string) (weight : string) : validator := Validator (Some (at_key c)) source (Some (JStr weight)).

(** Two keys of one source, a source below the floor, and two more. *)
Definition staked_rows : list validator :=
  [staked "e" (Some "S4") "11"; staked "a" (Some "S1") "20"; staked "b" (Some "S1") "20"; staked "c" (Some "S2") "10.49"; staked "d" (Some "S3") "10.50"]%string%char.

Lemma responsible_set_exact_witness :
  s_pubkey <$> computeResponsibleSet (at_hub "mainnet" "b") staked_rows request_id 1 true (Some (JStr "10.5")) 1 = at_key <$> ["a"; "d"]%char ∧
  ∃ s, s ∈ computeResponsibleSet (at_hub "mainnet" "b") staked_rows request_id 1 true (Some (JStr "10.5")) 1 ∧
       stands (contenders (at_hub "mainnet" "b") staked_rows request_id true (Some (JStr "10.5"))) true s.
Proof.
  split; [vm_compute; reflexivity|].
  destruct (responsible_set_exact (at_hub "mainnet" "b") staked_rows request_id 1 true (Some (JStr "10.5")) 1) as (_ & Hex & _).
  - apply (bool_decide_unpack _). vm_compute. exact I.
  - exists (seat_of (at_hub "mainnet" "b") request_id (staked "a" (Some "S1"%string) "20")).
    assert (Hin : seat_of (at_hub "mainnet" "b") request_id (staked "a" (Some "S1"%string) "20") ∈
      computeResponsibleSet (at_hub "mainnet" "b") staked_rows request_id 1 true (Some (JStr "10.5")) 1).
    { apply (bool_decide_unpack _). vm_compute. exact I. }
    split; [exact Hin|]. apply Hex in Hin. exact (proj1 Hin).
Defined.

(** A request polled at a tip inside its second segment, and a run to its
    publication. *)
Definition asked : pending_request := Request request_id "weather" (Some 3) 900000 1 (Some 900100) None "q".
Definition plain_rows : list validator := (λ c, Validator (Some (at_key c)) None None) <$> ["d"; "b"; "a"; "c"]%char.

Definition poll_at (k : nat) (latest : Z) (rs : list pending_request) : list sched_event :=
  [SeTick; SeUrl k true; SeEvicted (k + 1); SePage (k + 2) (PollPage latest rs)].
Definition serve (k : nat) : list sched_event :=
  [SeSnapshot k (Some plain_rows); SeCache (k + 1) None; SeFetched (k + 2) (Some ("sunny", "")%string); SeWritten (k + 3)].
Definition published_run : list sched_event :=
  poll_at 0 900040 [asked] ++ serve 3 ++ (SeEngine <$> (proposals_in ++ [EvAgreed 1 None] ++ (EvMessage <$> prepares_in))).
Definition timed (now : Z) (evs : list sched_event) : list (Z * sched_event) := (λ ev, (now, ev)) <$> evs.
Definition sched_of (evs : list (Z * sched_event)) : sched :=
  default (sched_initial weather_registry) (sched_run (at_hub "mainnet" "b") plain_tuning evs (sched_initial weather_registry)).

Lemma scheduled_response_backed_witness :
  ∃ latest r vs reg st, (latest, r) ∈ reports_of (timed 1000000 published_run) ∧
    Sitting r latest vs reg ∈ sittings_of (at_hub "mainnet" "b") plain_tuning (timed 1000000 published_run) (sched_initial weather_registry) ∧ confirmed (at_hub "mainnet" "b") plain_tuning latest r = true ∧
    (1 ≤ request_redundancy r → 3 = request_redundancy r) ∧ (at_key "a" ∈ s_pubkey <$> st_responsible st).
Proof.
  assert (Hpub : (λ f, (f_signatures f).*1) <$> newest (sc_engine (sched_of (timed 1000000 published_run))) = Some (at_key <$> ["a"; "b"; "c"]%char)) by (vm_compute; reflexivity).
  destruct (newest (sc_engine (sched_of (timed 1000000 published_run)))) as [f|] eqn:Hn; [|discriminate Hpub]. injection Hpub as Hpub.
  destruct (scheduled_response_backed (at_hub "mainnet" "b") plain_tuning (timed 1000000 published_run) weather_registry (sched_of (timed 1000000 published_run)) f)
    as (latest & r & vs & reg & st & H1 & H9 & H2 & _ & _ & _ & _ & H7 & _ & H8).
  - apply at_hub_signs.
  - apply at_hub_digests.
  - vm_compute. reflexivity.
  - apply newest_in, Hn.
  - exists latest, r, vs, reg, st. split; [exact H1|]. split; [exact H9|]. split; [exact H2|]. split.
    + intros Hr. rewrite <-(H7 Hr), <-(length_fmap fst). change ((f_signatures f).*1) with (fst <$> f_signatures f) in Hpub. rewrite Hpub. reflexivity.
    + assert (Hin : at_key "a" ∈ (f_signatures f).*1) by (rewrite Hpub; left).
      apply list_elem_of_fmap in Hin as ([pk sg] & Hpk & Hin). change (at_key "a" = pk) in Hpk. rewrite Hpk. exact (proj1 (H8 pk sg Hin)).
Defined.

(** A first round that is paid for and times out, and the request polled again. *)
Definition paid_twice : list (Z * sched_event) :=
  timed 1000000 (poll_at 0 900040 [asked] ++ serve 3) ++ timed 1200000 (SeEngine (EvTimeout 0) :: poll_at 7 900042 [asked] ++ serve 10).

Lemma one_payment_per_window_witness :
  ∃ p q, paid_for (sc_out (sched_of paid_twice)) = [p; q] ∧ p.1 = q.1 ∧ 123000 < Z.abs (p.2 - q.2).
Proof.
  assert (Hpaid : paid_for (sc_out (sched_of paid_twice)) = [(request_id, 1200000); (request_id, 1000000)]) by (vm_compute; reflexivity).
  exists (request_id, 1200000), (request_id, 1000000). split; [exact Hpaid|]. split; [reflexivity|].
  apply (one_payment_per_window (at_hub "mainnet" "b") plain_tuning ltac:(vm_compute; discriminate) paid_twice 0 weather_registry (sched_of paid_twice) 0 1).
  - apply (Forall_impl (λ e : Z * sched_event, (match e.2 with SeStop => false | _ => true end) = true)).
    + apply (bool_decide_unpack _). vm_compute. exact I.
    + intros [? []]; discriminate.
  - vm_compute. repeat split; discriminate.
  - vm_compute. reflexivity.
  - discriminate.
  - rewrite Hpaid. reflexivity.
  - rewrite Hpaid. reflexivity.
  - reflexivity.
Defined.

Definition seating_at (tip : Z) : result refusal seating :=
  responsibleSetFor (at_hub "mainnet" "b") weather_registry request_id (Some 900100) plain_rows 900000 tip 3 "weather" false.
Definition first_segment : seating := match seating_at 900010 with Ok st => st | Err _ => Seating [] 0 None end.

Lemma widened_set_extends_witness :
  ∃ st', seating_at 900010 = Ok first_segment ∧ seating_at 900040 = Ok st' ∧
    st_responsible first_segment `prefix_of` st_responsible st' ∧ length (st_responsible first_segment) = 3%nat.
Proof.
  assert (H1 : seating_at 900010 = Ok first_segment) by (vm_compute; reflexivity).
  destruct (widened_set_extends (at_hub "mainnet" "b") weather_registry request_id (Some 900100) plain_rows 900000 900010 900040 3 "weather" false first_segment
    ltac:(discriminate) H1) as (st' & H2 & H3 & _).
  exists st'. split; [exact H1|]. split; [exact H2|]. split; [exact H3|]. vm_compute. reflexivity.
Defined.

Lemma failover_ranks_distinct_witness :
  ∃ r r', myRank (Some (at_key "c")) (Some (at_key <$> ["a"; "b"; "c"]%char)) (Some (at_key "b")) = Some r ∧
    myRank (Some (at_key "a")) (Some (at_key <$> ["a"; "b"; "c"]%char)) (Some (at_key "b")) = Some r' ∧ 0 ≤ r < 3 ∧ r ≠ r'.
Proof.
  exists 1, 2. split; [vm_compute; reflexivity|]. split; [vm_compute; reflexivity|].
  destruct (failover_ranks_distinct (at_key "c") (at_key "a") (at_key <$> ["a"; "b"; "c"]%char) (Some (at_key "b")) 1 2) as (H1 & H2 & _).
  - discriminate.
  - vm_compute. reflexivity.
  - vm_compute. reflexivity.
  - split; [exact H1|discriminate].
Defined.

(** Four members of which only the third ever proposes. *)
Definition four_seats : list seat := (λ c, Seat (at_key c) None "") <$> ["a"; "b"; "c"; "d"]%char.
Definition only_c (pk : string) : bool := String.eqb pk (at_key "c").

(** A request of testnet past the activation of the skip; of the four hubs of the set
    only [c] has proposed. *)
Definition asked_late : pending_request := Request request_id "weather" (Some 4) 200000 1 None None "q".
Definition heard_c : state := recordProposer (at_hub "testnet" "b") request_id (at_key "c") initial.
Definition late_polls : list poll := (λ b, Poll 0 b heard_c) <$> [200030; 200040; 200050; 200060].
Definition late_start : sched := sched_initial weather_registry.
Definition staked_four : list validator := (λ c, staked c (Some (String c EmptyString)) "20") <$> ["a"; "b"; "c"; "d"]%char.

Lemma silent_leaders_passed_witness :
  ∃ s' l, poll_leaders (at_hub "testnet" "b") plain_tuning asked_late staked_four (Poll 0 200020 heard_c) late_polls late_start = Some (s', l) ∧
    ld_pubkey l = Some (at_key "c").
Proof.
  destruct (poll_set (at_hub "testnet" "b") asked_late staked_four weather_registry 200020) as [st|] eqn:Hst; [|vm_compute in Hst; discriminate].
  assert (Hkeys : s_pubkey <$> st_responsible st = at_key <$> ["a"; "b"; "c"; "d"]%char) by (revert Hst; vm_compute; intros [= <-]; reflexivity).
  destruct (silent_leaders_passed (at_hub "testnet" "b") plain_tuning asked_late staked_four (Poll 0 200020 heard_c) late_polls late_start st (at_key "c"))
    as (s' & l & pk & H1 & H2 & Hin & H3).
  - vm_compute. reflexivity.
  - exact Hst.
  - vm_compute. reflexivity.
  - rewrite Hkeys. apply (bool_decide_unpack _). vm_compute. exact I.
  - intros pk Hin ->. rewrite Hkeys in Hin. revert Hin. apply (bool_decide_unpack (_ ∉ _)). vm_compute. exact I.
  - intros q Hq. vm_compute in Hq. discriminate.
  - reflexivity.
  - vm_compute. discriminate.
  - vm_compute. repeat split; discriminate.
  - repeat split; auto.
  - rewrite Hkeys. apply (bool_decide_unpack _). vm_compute. exact I.
  - vm_compute. reflexivity.
  - apply (f_equal length) in Hkeys. rewrite length_fmap in Hkeys. rewrite Hkeys. vm_compute. lia.
  - exists s', l. split; [exact H1|]. rewrite H2. rewrite Hkeys in Hin. apply list_elem_of_In in Hin.
    destruct Hin as [E|[E|[E|[E|[]]]]]; rewrite <-E in *; try reflexivity; vm_compute in H3; discriminate.
Defined.

