(* ===== verification/Retract.v ===== *)
(** * Signed retractions

    [RetractionConsensus] ([src/consensus/retraction.js] and its parts under
    [src/consensus/retraction/]): a reorg's deletion is streamed to the mirrors with
    the signatures of a quorum, and a follower signs one only when its own indexer
    has pushed the same retraction. *)

From stdpp Require Import pretty.
From S2P Require Import Prelude Ordered GateRegistry BigNum Quorum.
Open Scope Z_scope.

(** ** Retractions and their spellings *)

(** The deletion event. [e_snapshot]: [snapshot_block], set on signed ones. *)
Record deletion := Deletion {
  e_table : string; e_source_chain : string; e_from : Z; e_to : option Z; e_generation : option Z; e_snapshot : option Z }.

Definition with_snapshot (block : Z) (e : deletion) : deletion :=
  Deletion (e_table e) (e_source_chain e) (e_from e) (e_to e) (e_generation e) (Some block).

Definition or_blank (v : option Z) : string := match v with Some z => pretty z | None => EmptyString end.

Definition canonicalRetraction (e : deletion) : string :=
  "XRETRACTV1|" +:+ e_table e +:+ "|" +:+ e_source_chain e +:+ "|" +:+ pretty (e_from e) +:+ "|" +:+ or_blank (e_to e) +:+ "|" +:+
  or_blank (e_generation e) +:+ "|" +:+ match e_snapshot e with Some z => pretty z | None => "undefined"%string end.

Definition intentKey (e : deletion) : string :=
  e_table e +:+ "|" +:+ e_source_chain e +:+ "|" +:+ pretty (e_from e) +:+ "|" +:+ or_blank (e_to e).

Definition QUORUM_CLASS_TABLES : list string := ["cross_chain_calls"; "cross_chain_matches"; "bridge_transfers"].
Definition SNAPSHOT_DRIFT_BLOCKS : Z := 144.

(** [retraction_signing_activation.RETRACTION_SIGNING_ACTIVATION] *)
Definition RETRACTION_SIGNING_ACTIVATION : jsdata := JObj [("mainnet", JNum 963000); ("testnet", JNum 0); ("regtest", JNum 0)].

(** ** Messages

    A retraction as a message carries it: texts are [String(v || '')], [w_table] is
    [String(v)]; numbers are [Number(v)], [None] when not finite, and an optional
    field that is null or missing is [None]. Indices, generations and heights are
    integers here, spelled in full: [Number.isFinite] also admits a fraction, and an
    integer from 10^21 on that [String] spells with an exponent, which no indexer
    produces; messages that carry one are outside the model. *)

Record claim := Claim {
  w_table : string; w_source_chain : string; w_from : option Z; w_snapshot : option Z;
  w_to : option (option Z); w_generation : option (option Z) }.

Inductive message :=
| SignReq (d : option claim) (sig_pubkey sig : string)
| Sign (id sig_pubkey sig : string)
| Finalized (d : option claim) (signatures : option (list (string * string))).

Definition normalizeRetraction (d : option claim) : option deletion :=
  d ← d;
  if negb (bool_decide (w_table d ∈ QUORUM_CLASS_TABLES)) || String.eqb (w_source_chain d) "" then None
  else match w_from d, w_snapshot d with
       | Some from, Some blk =>
           if (from <? 0) || (blk <? 0) then None
           else match w_to d with
                | Some None => None
                | Some (Some to) =>
                    if to <? from then None
                    else match w_generation d with
                         | Some None => None
                         | Some (Some g) => if g <? 0 then None else Some (Deletion (w_table d) (w_source_chain d) from (Some to) (Some g) (Some blk))
                         | None => Some (Deletion (w_table d) (w_source_chain d) from (Some to) None (Some blk))
                         end
                | None =>
                    match w_generation d with
                    | Some None => None
                    | Some (Some g) => if g <? 0 then None else Some (Deletion (w_table d) (w_source_chain d) from None (Some g) (Some blk))
                    | None => Some (Deletion (w_table d) (w_source_chain d) from None None (Some blk))
                    end
                end
       | _, _ => None
       end.

(** ** The hub *)

Record env := Env {
  network : string;
  identity : option string;                     (** [getPubkeyHex()] of the identity *)
  sign : string → string;
  edVerify : string → string → string → bool;   (** payload, signature, key: node's Ed25519 *)
  sha256 : string → string;                     (** the digest's hex text *)
  peers : bool; snapshots : bool; mirror : bool; database : bool;
      (** [peerManager], [capSnapshot], [broadcaster] and [db] are there *)
  intentTtlMs : Z; retrySignReqMs : Z; roundTimeoutMs : Z }.

(** A member of the snapshot the set is resolved from, and the snapshot: [None]
    when it is null or has no validator array. *)
Record member := Member { mb_pubkey : option string; mb_source : option string; mb_weight : option string; mb_amount : option string }.
Definition members : Type := option (list member * bool).

(** A row of the mirrored set. *)
Record setrow := SetRow { sr_pubkey : string; sr_amount : string; sr_source : string }.

Record round := Round {
  r_evt : deletion;                             (** what a timed-out round broadcasts *)
  r_signed : deletion; r_canonical : string; r_quorum : Z; r_weighted : bool; r_validators : Swq.varray;
  r_signatures : list (string * string);        (** a Map, in insertion order *)
  r_me : string; r_sig : string }.              (** what [signReq] repeats *)

(** A submission that waits for a tip or a validator set. *)
Record deferral := Deferral { d_key : string; d_evt : deletion; d_attempts : nat; d_timer : option Z }.

(** What [finalize] streams once its set is mirrored. *)
Record decided := Decided { f_evt : deletion; f_id : string; f_sigs : list (string * string) }.

Inductive task :=
| TTip (e : deletion) (df : option nat)                      (** [submitQuorumRetraction], at the tip *)
| TSet (e : deletion) (block : Z) (df : option nat)          (** at the validator set *)
| TReqTip (e : deletion) (sender sig : string)               (** [handleSignReq], at the tip *)
| TReqSet (e : deletion) (sender sig : string)
| TFinSet (e : deletion) (sigs : list (string * string))     (** [handleFinalized], at the set *)
| TPersist (f : decided)                                     (** [persistCapabilitySnapshot], at the set *)
| TWrite (f : decided) (rows : list setrow)                  (** at the INSERT *)
| TRow (f : decided) (rows : list setrow).                   (** at the read back of the first row *)

Inductive effect :=
| SendSignReq (e : deletion) (pk sig : string)
| SendSign (id pk sig : string)
| SendFinalized (e : deletion) (sigs : list (string * string))
| StreamUnsigned (e : deletion)
| StreamSigned (e : deletion) (sigs : list (string * string))
| StreamRow (block : Z) (r : setrow)
| WriteRows (block : Z) (rows : list setrow)
| Signed (canonical : string)                   (** the identity was asked to sign *)
| Withheld (e : deletion)                       (** the fail-closed error of [finalize] *)
| SubmitFailed (e : deletion).                  (** a rejection its caller logs *)

(** [pending] keeps rounds and deferrals under one [Map]; their ids are disjoint (a
    digest in hex, a key after ['deferred:']), so it is two maps here: [pending] of
    the rounds and [waiting] of the deferrals, by intent key. *)
Record state := State {
  pending : gmap string round;
  waiting : gmap string nat;
  deferrals : gmap string nat;                  (** [_retractionSubmitDeferrals] *)
  heap : gmap nat deferral;
  localIntents : gmap string Z;
  finalized : list string;                      (** a Set, in insertion order *)
  tasks : gmap nat task;
  next : nat;
  listening : bool;
  out : list effect }.                          (** newest first *)

Definition put_pending v (s : state) : state := State v (waiting s) (deferrals s) (heap s) (localIntents s) (finalized s) (tasks s) (next s) (listening s) (out s).
Definition put_waiting v (s : state) : state := State (pending s) v (deferrals s) (heap s) (localIntents s) (finalized s) (tasks s) (next s) (listening s) (out s).
Definition put_deferrals v (s : state) : state := State (pending s) (waiting s) v (heap s) (localIntents s) (finalized s) (tasks s) (next s) (listening s) (out s).
Definition put_heap v (s : state) : state := State (pending s) (waiting s) (deferrals s) v (localIntents s) (finalized s) (tasks s) (next s) (listening s) (out s).
Definition put_intents v (s : state) : state := State (pending s) (waiting s) (deferrals s) (heap s) v (finalized s) (tasks s) (next s) (listening s) (out s).
Definition put_finalized v (s : state) : state := State (pending s) (waiting s) (deferrals s) (heap s) (localIntents s) v (tasks s) (next s) (listening s) (out s).
Definition put_tasks v (s : state) : state := State (pending s) (waiting s) (deferrals s) (heap s) (localIntents s) (finalized s) v (next s) (listening s) (out s).
Definition put_next v (s : state) : state := State (pending s) (waiting s) (deferrals s) (heap s) (localIntents s) (finalized s) (tasks s) v (listening s) (out s).
Definition put_out v (s : state) : state := State (pending s) (waiting s) (deferrals s) (heap s) (localIntents s) (finalized s) (tasks s) (next s) (listening s) v.

Definition initial : state := State ∅ ∅ ∅ ∅ ∅ [] ∅ 0 true [].

Definition emit (e : effect) (s : state) : state := put_out (e :: out s) s.
Definition await (a : task) (s : state) : state := put_next (S (next s)) (put_tasks (<[next s := a]> (tasks s)) s).
Definition modify (d : nat) (f : deferral → deferral) (s : state) : state := put_heap (alter f d (heap s)) s.

Section Retraction.
Context {B : BigNumber} (h : env).

(** ** Reads *)

Definition signing_active (block : Z) : bool := Gate.reached (Gate.own (network h) RETRACTION_SIGNING_ACTIVATION) (Gate.CNum block).
Definition weighted_at (block : Z) : bool := isStakeWeightedQuorumActive (Some block) (network h).

Definition verify (payload sig pk : string) : bool :=
  if String.eqb sig "" || String.eqb pk "" then false
  else if negb (String.length pk =? 64)%nat then false else edVerify h payload sig pk.

Definition roundId (canonical : string) : string := sha256 h canonical.

(** [resolveCapabilityValidators]: without a snapshot provider the set is empty. *)
Definition resolveCapabilityValidators (block : Z) (sn : members) : Swq.varray :=
  match (if snapshots h then sn else None) with
  | Some (ms, truncated) =>
      Swq.VArray (map (λ m, if weighted_at block
                            then VRow (mb_pubkey m) (Some (default "" (mb_source m))) (Some (default "0" (mb_weight m)))
                            else VRow (mb_pubkey m) (Some EmptyString) (Some (default "0" (mb_amount m)))) ms) truncated
  | None => Swq.VArray [] false
  end.

Definition key_of (v : vrow) : string := toLowerCase (js_String (v_pubkey v)).
Definition keys (vs : Swq.varray) : list string := key_of <$> Swq.rows vs.

(** The rows as a tally reads them. *)
Definition lowered (vs : Swq.varray) : Swq.varray :=
  Swq.VArray (map (λ v, VRow (Some (key_of v)) (Some (default "" (v_source v))) (Some (default "0" (v_weight v)))) (Swq.rows vs)) (Swq.truncated vs).

(** ** Intents and the ring of finalized rounds *)

Definition pruneIntents (now : Z) (s : state) : state :=
  put_intents (filter (λ kt, negb (kt.2 <? now - intentTtlMs h) = true) (localIntents s)) s.

Definition rememberFinalized (id : string) (s : state) : state :=
  let ring := s_add id (finalized s) in put_finalized (if 512 <? Z.of_nat (length ring) then tail ring else ring) s.
Definition forgetFinalized (id : string) (s : state) : state := put_finalized (filter (λ x, x ≠ id) (finalized s)) s.

Definition broadcastUnsigned (e : deletion) (s : state) : state := if mirror h then emit (StreamUnsigned e) s else s.

(** ** Finalization *)

Definition row_le (a b : setrow) : bool :=
  str_lt (sr_pubkey a) (sr_pubkey b) || (String.eqb (sr_pubkey a) (sr_pubkey b) && negb (str_lt (sr_source b) (sr_source a))).

Definition normalizeCapabilitySnapshotRows (vs : Swq.varray) : list setrow :=
  isort row_le (map (λ v, SetRow (key_of v) (default "0" (v_weight v)) (default "" (v_source v))) (Swq.rows vs)).

(** The fail-closed branches of [finalize]. *)
Definition withhold (f : decided) (s : state) : state := emit (Withheld (f_evt f)) (forgetFinalized (f_id f) s).

(** [finalize] to its first await; without a database nothing is mirrored. *)
Definition finalize (f : decided) (s : state) : state :=
  let s := rememberFinalized (f_id f) s in if database h then await (TPersist f) s else withhold f s.

Definition stream (f : decided) (s : state) : state := if mirror h then emit (StreamSigned (f_evt f) (f_sigs f)) s else s.

Definition snapshot_of (e : deletion) : Z := default 0 (e_snapshot e).

(** The rows that are left to read back and stream. *)
Definition next_row (f : decided) (rows : list setrow) (s : state) : state :=
  match rows with
  | [] => stream f s
  | _ => if mirror h then await (TRow f rows) s else stream f s
  end.

(** [None] answers are rejections. *)
Definition resumePersist (f : decided) (sn : option members) (s : state) : state :=
  match sn with
  | None => withhold f s
  | Some sn =>
      let vs := resolveCapabilityValidators (snapshot_of (f_evt f)) sn in
      if Swq.truncated vs then withhold f s
      else match normalizeCapabilitySnapshotRows vs with
           | [] => withhold f s
           | rows => await (TWrite f rows) (emit (WriteRows (snapshot_of (f_evt f)) rows) s)
           end
  end.

Definition resumeWrite (f : decided) (rows : list setrow) (written : bool) (s : state) : state :=
  if written then next_row f rows s else withhold f s.

Definition resumeRow (f : decided) (rows : list setrow) (found : option bool) (s : state) : state :=
  match found, rows with
  | Some found, r :: rows => next_row f rows (if found then emit (StreamRow (snapshot_of (f_evt f)) r) s else s)
  | _, _ => withhold f s
  end.

(** ** Quorum *)

(** [checkQuorum] *)
Definition met (r : round) : bool :=
  if r_weighted r then Swq.meetsStakeThreshold (r_validators r) (r_signatures r).*1
  else r_quorum r <=? Z.of_nat (length (r_signatures r)).

Definition checkQuorum (id : string) (s : state) : state :=
  match pending s !! id with
  | None => s
  | Some r =>
      if met r
      then finalize (Decided (r_signed r) id (r_signatures r)) (emit (SendFinalized (r_signed r) (r_signatures r)) (put_pending (delete id (pending s)) s))
      else s
  end.

(** ** The initiator *)

(** The delay of the next attempt. *)
Definition retry_delay (attempts : nat) : Z :=
  let base := if 0 <? retrySignReqMs h then retrySignReqMs h else 15000 in
  let ceiling := if 0 <? roundTimeoutMs h then Z.max base (roundTimeoutMs h) else 180000 in
  Z.min ceiling (base * 2 ^ Z.of_nat (Nat.min attempts 16)).

Definition set_timer (v : option Z) (d : deferral) : deferral := Deferral (d_key d) (d_evt d) (d_attempts d) v.
Definition set_evt (e : deletion) (d : deferral) : deferral := Deferral (d_key d) e (d_attempts d) (d_timer d).
Definition tried (d : deferral) : deferral := Deferral (d_key d) (d_evt d) (S (d_attempts d)) None.

Definition scheduleDeferredRetry (d : nat) (s : state) : state :=
  match heap s !! d with
  | None => s
  | Some x =>
      if bool_decide (is_Some (d_timer x)) || negb (bool_decide (waiting s !! d_key x = Some d)) then s
      else modify d (set_timer (Some (retry_delay (d_attempts x)))) s
  end.

Definition new_deferral (e : deletion) (s : state) : state :=
  let key := intentKey e in
  let d := next s in
  let s := put_next (S d) (put_heap (<[d := Deferral key e 0 None]> (heap s)) s) in
  scheduleDeferredRetry d (put_waiting (<[key := d]> (waiting s)) (put_deferrals (<[key := d]> (deferrals s)) s)).

Definition deferSigningRound (e : deletion) (df : option nat) (s : state) : state :=
  match df with
  | Some d => scheduleDeferredRetry d s
  | None =>
      match deferrals s !! intentKey e with
      | Some d => if bool_decide (waiting s !! intentKey e = Some d) then modify d (set_evt e) s else new_deferral e s
      | None => new_deferral e s
      end
  end.

Definition clearDeferral (e : deletion) (df : option nat) (s : state) : state :=
  match (match df with Some d => Some d | None => deferrals s !! intentKey e end) with
  | None => s
  | Some d =>
      match heap s !! d with
      | None => s
      | Some x =>
          let s := modify d (set_timer None) s in
          let s := if bool_decide (waiting s !! d_key x = Some d) then put_waiting (delete (d_key x) (waiting s)) s else s in
          if bool_decide (deferrals s !! d_key x = Some d) then put_deferrals (delete (d_key x) (deferrals s)) s else s
      end
  end.

(** [self.identity.getPubkeyHex().toLowerCase()] *)
Definition me : string := toLowerCase (default EmptyString (identity h)).

Definition submitLocal (now : Z) (e : deletion) (s : state) : state :=
  let s := pruneIntents now s in
  let s := put_intents (<[intentKey e := now]> (localIntents s)) s in
  if negb (bool_decide (e_table e ∈ QUORUM_CLASS_TABLES)) then broadcastUnsigned e s
  else if bool_decide (identity h = None) || negb (peers h) || negb (snapshots h) then broadcastUnsigned e s
  else await (TTip e None) s.

(** A rejection of either read: a deferral retries, a submission's caller logs. *)
Definition rejected (e : deletion) (df : option nat) (s : state) : state :=
  match df with Some d => scheduleDeferredRetry d s | None => emit (SubmitFailed e) s end.

Definition resumeTip (e : deletion) (df : option nat) (tip : option (option Z)) (s : state) : state :=
  match tip with
  | None => rejected e df s
  | Some None => deferSigningRound e df s
  | Some (Some block) =>
      if negb (signing_active block) then broadcastUnsigned e (clearDeferral e df s) else await (TSet e block df) s
  end.

(** [openSigningRound] *)
Definition openSigningRound (e signed : deletion) (canonical id sig : string) (block : Z) (vs : Swq.varray) (s : state) : state :=
  let r := Round e signed canonical (Bft.bftQuorumOrSingle (Z.of_nat (length (Swq.rows vs))) 1) (weighted_at block) (lowered vs) [(me, sig)] me sig in
  emit (SendSignReq signed me sig) (put_pending (<[id := r]> (pending s)) s).

Definition resumeSet (e : deletion) (block : Z) (df : option nat) (sn : option members) (s : state) : state :=
  match sn with
  | None => rejected e df s
  | Some sn =>
      let vs := resolveCapabilityValidators block sn in
      if bool_decide (Swq.rows vs = []) then deferSigningRound e df s
      else
        let s := clearDeferral e df s in
        let signed := with_snapshot block e in
        let canonical := canonicalRetraction signed in
        let id := roundId canonical in
        if bool_decide (is_Some (pending s !! id)) || bool_decide (id ∈ finalized s) then s
        else
          let sig := sign h canonical in
          let s := emit (Signed canonical) s in
          if (length (Swq.rows vs) <=? 1)%nat then finalize (Decided signed id [(me, sig)]) s
          else checkQuorum id (openSigningRound e signed canonical id sig block vs s)
  end.

(** ** Timers *)

(** [retryTimer] of a round, its [timeoutTimer], and the retry of a deferral. *)
Definition onResend (id : string) (s : state) : option state :=
  r ← pending s !! id; Some (emit (SendSignReq (r_signed r) (r_me r) (r_sig r)) s).

Definition onTimeout (id : string) (s : state) : option state :=
  r ← pending s !! id; Some (broadcastUnsigned (r_evt r) (put_pending (delete id (pending s)) s)).

Definition onRetry (d : nat) (s : state) : option state :=
  x ← heap s !! d; _ ← d_timer x;
  Some (if bool_decide (waiting s !! d_key x = Some d)
        then await (TTip (d_evt x) (Some d)) (modify d tried s)
        else modify d (set_timer None) s).

(** ** The follower *)

Definition handleSignReq (d : option claim) (sig_pubkey sig : string) (s : state) : state :=
  match normalizeRetraction d with
  | None => s
  | Some e =>
      let sender := toLowerCase sig_pubkey in
      if bool_decide (identity h = None) || String.eqb sender me then s
      else if negb (signing_active (snapshot_of e)) then s
      else await (TReqTip e sender sig) s
  end.

Definition resumeReqTip (e : deletion) (sender sig : string) (tip : option (option Z)) (s : state) : state :=
  match tip with
  | Some (Some mine) => if SNAPSHOT_DRIFT_BLOCKS <? Z.abs (snapshot_of e - mine) then s else await (TReqSet e sender sig) s
  | _ => s
  end.

Definition resumeReqSet (now : Z) (e : deletion) (sender sig : string) (sn : option members) (s : state) : state :=
  match sn with
  | None => s
  | Some sn =>
      let ks := keys (resolveCapabilityValidators (snapshot_of e) sn) in
      if negb (bool_decide (me ∈ ks)) || negb (bool_decide (sender ∈ ks)) then s
      else
        let canonical := canonicalRetraction e in
        if negb (verify canonical sig sender) then s
        else
          let s := pruneIntents now s in
          match localIntents s !! intentKey e with
          | None => s                                       (* nothing we observed *)
          | Some _ => emit (SendSign (roundId canonical) me (sign h canonical)) (emit (Signed canonical) s)
          end
  end.

Definition handleSign (id sig_pubkey sig : string) (s : state) : state :=
  match pending s !! id with
  | None => s
  | Some r =>
      let pubkey := toLowerCase sig_pubkey in
      if negb (existsb (λ v, String.eqb (js_String (v_pubkey v)) pubkey) (Swq.rows (r_validators r))) then s
      else if negb (verify (r_canonical r) sig pubkey) then s
      else
        let r := Round (r_evt r) (r_signed r) (r_canonical r) (r_quorum r) (r_weighted r) (r_validators r)
                   (m_set pubkey sig (r_signatures r)) (r_me r) (r_sig r) in
        checkQuorum id (put_pending (<[id := r]> (pending s)) s)
  end.

Definition handleFinalized (d : option claim) (signatures : option (list (string * string))) (s : state) : state :=
  match normalizeRetraction d, signatures with
  | Some e, Some sigs =>
      if negb (signing_active (snapshot_of e)) then s
      else if bool_decide (roundId (canonicalRetraction e) ∈ finalized s) then s else await (TFinSet e sigs) s
  | _, _ => s
  end.

(** The signatures that count: of distinct members, valid over the canonical. *)
Fixpoint countable (canonical : string) (ks : list string) (seen : list string) (sigs : list (string * string)) : list (string * string) :=
  match sigs with
  | [] => []
  | (pubkey, sig) :: sigs =>
      let pk := toLowerCase pubkey in
      if String.eqb pk "" || bool_decide (pk ∈ seen) || negb (bool_decide (pk ∈ ks)) then countable canonical ks seen sigs
      else if negb (verify canonical sig pk) then countable canonical ks seen sigs
      else (pk, sig) :: countable canonical ks (pk :: seen) sigs
  end.

Definition resumeFinSet (e : deletion) (signatures : list (string * string)) (sn : option members) (s : state) : state :=
  match sn with
  | None => s
  | Some sn =>
      let canonical := canonicalRetraction e in
      let vs := resolveCapabilityValidators (snapshot_of e) sn in
      let quorum := Bft.bftQuorumOrSingle (Z.of_nat (length (remove_dups (keys vs)))) 1 in
      let sigs := countable canonical (keys vs) [] signatures in
      let ok := if weighted_at (snapshot_of e) then Swq.meetsStakeThreshold (lowered vs) sigs.*1 else quorum <=? Z.of_nat (length sigs) in
      if ok then finalize (Decided e (roundId canonical) sigs) s else s
  end.

Definition handleMessage (m : message) (s : state) : state :=
  match m with
  | SignReq d pk sig => handleSignReq d pk sig s
  | Sign id pk sig => handleSign id pk sig s
  | Finalized d sigs => handleFinalized d sigs s
  end.

(** [stop]: timers are cleared and the listener removed; what is suspended goes on. *)
Definition stop (s : state) : state :=
  let cleared := map_fold (λ _ d hp, alter (set_timer None) d hp) (heap s) (waiting s) in
  State ∅ ∅ (deferrals s) cleared (localIntents s) (finalized s) (tasks s) (next s) false (out s).

(** ** Runs *)

Inductive event :=
| EvSubmit (e : deletion)                                 (** an engine's retract path *)
| EvMessage (m : message)
| EvTip (k : nat) (tip : option (option Z))               (** [None]: the read was rejected *)
| EvSet (k : nat) (block : Z) (sn : option members)       (** the set of [block] *)
| EvWritten (k : nat) (ok : bool)
| EvRow (k : nat) (found : option bool)
| EvResend (id : string)
| EvTimeout (id : string)
| EvRetry (d : nat)
| EvStop.

Definition wake (k : nat) (s : state) : option (task * state) :=
  a ← tasks s !! k; Some (a, put_tasks (delete k (tasks s)) s).

(** The block whose set a task asked for. *)
Definition asked (a : task) : option Z :=
  match a with
  | TSet _ block _ => Some block
  | TReqSet e _ _ | TFinSet e _ => Some (snapshot_of e)
  | TPersist f => Some (snapshot_of (f_evt f))
  | _ => None
  end.

Definition resume (now : Z) (a : task) (ev : event) (s : state) : option state :=
  match a, ev with
  | TTip e df, EvTip _ tip => Some (resumeTip e df tip s)
  | TReqTip e sender sig, EvTip _ tip => Some (resumeReqTip e sender sig tip s)
  | TWrite f rows, EvWritten _ ok => Some (resumeWrite f rows ok s)
  | TRow f rows, EvRow _ found => Some (resumeRow f rows found s)
  | _, EvSet _ block sn =>
      if negb (bool_decide (asked a = Some block)) then None
      else match a with
           | TSet e block df => Some (resumeSet e block df sn s)
           | TReqSet e sender sig => Some (resumeReqSet now e sender sig sn s)
           | TFinSet e sigs => Some (resumeFinSet e sigs sn s)
           | TPersist f => Some (resumePersist f sn s)
           | _ => None
           end
  | _, _ => None
  end.

(** [None]: the event cannot happen. *)
Definition step (now : Z) (ev : event) (s : state) : option state :=
  match ev with
  | EvSubmit e => Some (submitLocal now e s)
  | EvMessage m => if peers h && listening s then Some (handleMessage m s) else None
  | EvTip k _ | EvSet k _ _ | EvWritten k _ | EvRow k _ => '(a, s) ← wake k s; resume now a ev s
  | EvResend id => onResend id s
  | EvTimeout id => onTimeout id s
  | EvRetry d => onRetry d s
  | EvStop => Some (stop s)
  end.

Fixpoint run (evs : list (Z * event)) (s : state) : option state :=
  match evs with
  | [] => Some s
  | (now, ev) :: evs => s ← step now ev s; run evs s
  end.
End Retraction.
