(* ===== verification/RetractInv.v ===== *)
(** * Signed retractions: what a hub's signatures rest on

    The canonical text spells the retraction, and the invariant of every run: what
    each intent, round, suspended handler, signature and signed deletion is backed
    by. *)

From stdpp Require Import pretty.
From S2P Require Import Prelude Ordered GateRegistry BigNum Quorum Json Admission AdmissionProps Retract.
Open Scope Z_scope.

(** ** The canonical spells the retraction *)

Lemma field_split a b a' b' : barless b → barless b' → (a +:+ "|") +:+ b = (a' +:+ "|") +:+ b' → a = a' ∧ b = b'.
Proof. rewrite !app_str_assoc. apply last_field. Qed.

Lemma or_blank_barless v : barless (or_blank v).
Proof. destruct v; [apply pretty_chars|exact eq_refl]. Qed.

Lemma or_blank_inj v v' : or_blank v = or_blank v' → v = v'.
Proof.
  assert (Hne : ∀ z : Z, pretty z ≠ EmptyString).
  { intros z. destruct (Z.le_gt_cases 0 z) as [Hz|Hz]; [by destruct (pretty_nonneg z Hz) as [? _ ?]; intros E; rewrite E in *|].
    destruct z; [lia..|discriminate]. }
  destruct v as [z|], v' as [z'|]; cbn; [by intros ->%(inj pretty)|by intros ?%Hne|by intros E; symmetry in E; apply Hne in E|done].
Qed.

Lemma table_split t t' r r' : t ∈ QUORUM_CLASS_TABLES → t' ∈ QUORUM_CLASS_TABLES → t +:+ String "|"%char r = t' +:+ String "|"%char r' → t = t' ∧ r = r'.
Proof.
  unfold QUORUM_CLASS_TABLES. rewrite !elem_of_cons, !elem_of_nil.
  intros [-> |[-> |[-> |[]]]] [-> |[-> |[-> |[]]]] E; try discriminate E; split; (done || by injection E).
Qed.

Lemma canonical_inj e e' b b' :
  e_table e ∈ QUORUM_CLASS_TABLES → e_table e' ∈ QUORUM_CLASS_TABLES → e_snapshot e = Some b → e_snapshot e' = Some b' →
  canonicalRetraction e = canonicalRetraction e' → e = e'.
Proof.
  destruct e as [t c f to g sn], e' as [t' c' f' to' g' sn']. cbn [e_table e_snapshot]. intros Ht Ht' -> ->.
  unfold canonicalRetraction. cbn [e_table e_source_chain e_from e_to e_generation e_snapshot]. intros E%app_str_inj_l.
  apply (table_split t t') in E as [-> E]; [|done..]. revert E.
  rewrite <-!app_str_assoc. intros E.
  apply field_split in E as [E E5%(inj pretty)]; [|apply pretty_chars..].
  apply field_split in E as [E E4%or_blank_inj]; [|apply or_blank_barless..].
  apply field_split in E as [E E3%or_blank_inj]; [|apply or_blank_barless..].
  apply field_split in E as [E E2%(inj pretty)]; [|apply pretty_chars..]. by subst.
Qed.

(** ** What a hub knows about its signatures *)

Section Backing.
Context {B : BigNumber} (h : env) (all : list (Z * event)).
Implicit Types (s : state) (e : deletion) (f : decided) (r : round).

(** An own signature verifies under the own key. *)
Definition signs_for_itself : Prop := ∀ c, identity h ≠ None → verify h c (sign h c) (me h) = true.

Definition submitted e : Prop := ∃ t, (t, EvSubmit e) ∈ all.

(** An indexer of this hub has pushed the retraction: same table, chain and bounds. *)
Definition observed e : Prop := ∃ e0, submitted e0 ∧ intentKey e0 = intentKey e.

Definition answered (block : Z) (sn : members) : Prop := ∃ t k, (t, EvSet k block (Some sn)) ∈ all.

(** The signers meet the quorum of the set: the stake threshold, or as many keys as
    the count quorum over the distinct keys of the set. *)
Definition reached (block : Z) (vs : Swq.varray) (signers : list string) : bool :=
  if weighted_at h block then Swq.meetsStakeThreshold (lowered vs) signers
  else Bft.bftQuorumOrSingle (Z.of_nat (length (remove_dups (keys vs)))) 1 <=? Z.of_nat (length signers).

(** Signed or about to be: its block is past the gate and its table of the class. *)
Definition proper e (block : Z) : Prop := e_table e ∈ QUORUM_CLASS_TABLES ∧ e_snapshot e = Some block ∧ signing_active h block = true.

Record signatures_ok e (vs : Swq.varray) (sigs : list (string * string)) : Prop := {
  sg_nodup : NoDup sigs.*1;
  sg_valid pk sg : (pk, sg) ∈ sigs → verify h (canonicalRetraction e) sg pk = true;
  sg_members pk : pk ∈ sigs.*1 → pk = me h ∨ pk ∈ keys vs }.

(** A decision: adopted on the signatures of members alone, or initiated here. *)
Definition backed e (sigs : list (string * string)) : Prop :=
  ∃ block sn, let vs := resolveCapabilityValidators h block sn in
    proper e block ∧ answered block sn ∧ signatures_ok e vs sigs ∧
    ((sigs.*1 ⊆ keys vs ∧ reached block vs sigs.*1 = true) ∨
     (observed e ∧ (reached block vs sigs.*1 = true ∨ (length (Swq.rows vs) ≤ 1)%nat ∧ sigs.*1 = [me h]))).

Definition round_ok (id : string) r : Prop :=
  ∃ block sn, let vs := resolveCapabilityValidators h block sn in
    proper (r_signed r) block ∧ answered block sn ∧ submitted (r_evt r) ∧ r_signed r = with_snapshot block (r_evt r) ∧
    r_canonical r = canonicalRetraction (r_signed r) ∧ id = roundId h (r_canonical r) ∧
    r_weighted r = weighted_at h block ∧ r_validators r = lowered vs ∧ r_quorum r = Bft.bftQuorumOrSingle (Z.of_nat (length (Swq.rows vs))) 1 ∧
    signatures_ok (r_signed r) vs (r_signatures r).

Definition final_of (a : task) : option decided := match a with TPersist f | TWrite f _ | TRow f _ => Some f | _ => None end.

Definition task_ok (a : task) : Prop :=
  match a with
  | TTip e _ => identity h ≠ None ∧ submitted e ∧ e_table e ∈ QUORUM_CLASS_TABLES
  | TSet e block _ => identity h ≠ None ∧ submitted e ∧ e_table e ∈ QUORUM_CLASS_TABLES ∧ signing_active h block = true
  | TReqTip e _ _ | TReqSet e _ _ => identity h ≠ None ∧ ∃ block, proper e block
  | TFinSet e _ => ∃ block, proper e block
  | TPersist f | TWrite f _ | TRow f _ => backed (f_evt f) (f_sigs f) ∧ f_id f = roundId h (canonicalRetraction (f_evt f))
  end.

Record ok s : Prop := {
  ok_intents k t : localIntents s !! k = Some t → ∃ e, submitted e ∧ intentKey e = k;
  ok_tasks k a : tasks s !! k = Some a → task_ok a;
  ok_heap d x : heap s !! d = Some x → identity h ≠ None ∧ submitted (d_evt x) ∧ e_table (d_evt x) ∈ QUORUM_CLASS_TABLES;
  ok_pending id r : pending s !! id = Some r → round_ok id r;
  ok_signed c : Signed c ∈ out s → ∃ e block, c = canonicalRetraction e ∧ proper e block ∧ observed e;
  ok_streamed e sigs : StreamSigned e sigs ∈ out s → backed e sigs }.

Lemma submitted_observed e : submitted e → observed e.
Proof. intros. by exists e. Qed.

Lemma observed_snapshot block e : submitted e → observed (with_snapshot block e).
Proof. intros. by exists e. Qed.

(** What changes nothing a round, an intent or an effect says. *)
Lemma ok_frame s s' :
  ok s → (∀ id r, pending s' !! id = Some r → pending s !! id = Some r) → (∀ k t, localIntents s' !! k = Some t → localIntents s !! k = Some t) →
  (∀ k a, tasks s' !! k = Some a → tasks s !! k = Some a) →
  (∀ d x, heap s' !! d = Some x → ∃ x0, heap s !! d = Some x0 ∧ d_evt x = d_evt x0) → out s' = out s → ok s'.
Proof.
  intros [H1 H2 H3 H4 H5 H6] P1 P2 P3 P4 P5. split; [naive_solver..| | | |].
  - intros d x Hd. destruct (P4 d x Hd) as (x0 & Hx & ->). by apply (H3 d).
  - naive_solver.
  - rewrite P5. apply H5.
  - rewrite P5. apply H6.
Qed.

Lemma ok_ring v s : ok s → ok (put_finalized v s).
Proof. intros H. by apply (ok_frame s); [..|intros d x ?; exists x|]. Qed.

Lemma ok_emit x s : ok s → match x with Signed c => ∃ e block, c = canonicalRetraction e ∧ proper e block ∧ observed e | StreamSigned e sigs => backed e sigs | _ => True end → ok (emit x s).
Proof.
  intros [H1 H2 H3 H4 H5 H6] Hx. split; try done.
  - intros c. cbn. intros [<-|?]%elem_of_cons; [done|by apply H5].
  - intros e sigs. cbn. intros [<-|?]%elem_of_cons; [done|by apply H6].
Qed.

Lemma ok_await a s : ok s → task_ok a → ok (await a s).
Proof. intros [H1 H2 H3 H4 H5 H6] Ha. split; try done. intros k b. cbn. intros [[<- <-]|[_ ?]]%lookup_insert_Some; [done|by eapply H2]. Qed.

Lemma ok_round id r s : ok s → round_ok id r → ok (put_pending (<[id := r]> (pending s)) s).
Proof. intros [H1 H2 H3 H4 H5 H6] Hr. split; try done. intros id' r'. cbn. intros [[<- <-]|[_ ?]]%lookup_insert_Some; [done|by apply H4]. Qed.

Lemma ok_close id s : ok s → ok (put_pending (delete id (pending s)) s).
Proof. intros H. apply (ok_frame s); try done; [|intros d x ?; by exists x]. intros id' r. cbn. by intros [_ ?]%lookup_delete_Some. Qed.

Lemma ok_prune now s : ok s → ok (pruneIntents h now s).
Proof. intros H. apply (ok_frame s); try done; [|intros d x ?; by exists x]. intros k t. cbn. by intros [? _]%map_lookup_filter_Some. Qed.

Lemma ok_unsigned e s : ok s → ok (broadcastUnsigned h e s).
Proof. intros H. unfold broadcastUnsigned. destruct (mirror h); [by apply ok_emit|done]. Qed.

Lemma alter_timer d g (m : gmap nat deferral) d' x : (∀ x, d_evt (g x) = d_evt x) →
  alter g d m !! d' = Some x → ∃ x0, m !! d' = Some x0 ∧ d_evt x = d_evt x0.
Proof.
  intros Hg. destruct (decide (d = d')) as [->|Hne]; [|rewrite lookup_alter_ne by done; eauto].
  rewrite lookup_alter_eq. destruct (m !! d') as [x0|]; [|done]. cbn. intros [= <-]. exists x0. split; [done|]. apply Hg.
Qed.

Lemma ok_schedule d s : ok s → ok (scheduleDeferredRetry h d s).
Proof.
  intros H. unfold scheduleDeferredRetry. destruct (heap s !! d) as [x|]; [|done]. destruct (_ || _); [done|].
  apply (ok_frame s); try done. intros d' x'. cbn. by apply alter_timer.
Qed.

Lemma ok_clear e df s : ok s → ok (clearDeferral e df s).
Proof.
  intros H. unfold clearDeferral. destruct (match df with Some d => _ | None => _ end) as [d|]; [|done]. destruct (heap s !! d) as [x|]; [|done].
  assert (Hf : ∀ d' x', alter (set_timer None) d (heap s) !! d' = Some x' → ∃ x0, heap s !! d' = Some x0 ∧ d_evt x' = d_evt x0)
    by (intros d' x'; by apply (alter_timer d (set_timer None) (heap s) d' x')).
  cbn zeta. destruct (bool_decide _); cbn [deferrals put_waiting modify put_heap]; destruct (bool_decide _); by apply (ok_frame s).
Qed.

Lemma ok_defer e df s : ok s → identity h ≠ None → submitted e → e_table e ∈ QUORUM_CLASS_TABLES → ok (deferSigningRound h e df s).
Proof.
  intros H Hid He Ht. unfold deferSigningRound. destruct df as [d|]; [by apply ok_schedule|].
  assert (Hnew : ok (new_deferral h e s)).
  { unfold new_deferral. apply ok_schedule. destruct H as [H1 H2 H3 H4 H5 H6]. split; try done.
    intros d x. cbn. intros [[<- <-]|[_ ?]]%lookup_insert_Some; [done|by eapply H3]. }
  destruct (deferrals s !! intentKey e) as [d|] eqn:Hd; [|done]. case_bool_decide as Hw; [|done].
  destruct H as [H1 H2 H3 H4 H5 H6]. split; try done. intros d' x. cbn. destruct (decide (d = d')) as [->|Hne].
  - rewrite lookup_alter_eq. destruct (heap s !! d') as [x0|] eqn:Hx; [|done]. cbn. intros [= <-]. done.
  - rewrite lookup_alter_ne by done. apply H3.
Qed.

(** ** Finalization *)

Lemma ok_withhold f s : ok s → ok (withhold f s).
Proof. intros H. apply ok_emit; [by apply ok_ring|done]. Qed.

Lemma ok_finalize f s : ok s → backed (f_evt f) (f_sigs f) → f_id f = roundId h (canonicalRetraction (f_evt f)) → ok (finalize h f s).
Proof. intros H Hb Hid. unfold finalize. destruct (database h); [apply ok_await; [by apply ok_ring|done]|by apply ok_withhold, ok_ring]. Qed.

Lemma ok_stream f s : ok s → backed (f_evt f) (f_sigs f) → ok (stream h f s).
Proof. intros H Hb. unfold stream. destruct (mirror h); [by apply ok_emit|done]. Qed.

Lemma ok_next_row f rows s : ok s → task_ok (TRow f rows) → ok (next_row h f rows s).
Proof.
  intros H Hf. unfold next_row. destruct rows as [|r rows]; [by apply ok_stream; [|apply Hf]|].
  destruct (mirror h); [by apply ok_await|by apply ok_stream; [|apply Hf]].
Qed.

Lemma ok_persist f sn s : ok s → task_ok (TPersist f) → ok (resumePersist h f sn s).
Proof.
  intros H Hf. unfold resumePersist. destruct sn as [sn|]; [|by apply ok_withhold]. cbn zeta. destruct (Swq.truncated _); [by apply ok_withhold|].
  destruct (normalizeCapabilitySnapshotRows _) as [|r rows]; [by apply ok_withhold|]. apply ok_await; [by apply ok_emit|done].
Qed.

Lemma ok_write f rows w s : ok s → task_ok (TWrite f rows) → ok (resumeWrite h f rows w s).
Proof. intros H Hf. unfold resumeWrite. destruct w; [by apply ok_next_row|by apply ok_withhold]. Qed.

Lemma ok_row f rows found s : ok s → task_ok (TRow f rows) → ok (resumeRow h f rows found s).
Proof.
  intros H Hf. unfold resumeRow. destruct found as [found|]; [|by apply ok_withhold]. destruct rows as [|r rows]; [by apply ok_withhold|].
  apply ok_next_row; [|done]. destruct found; [by apply ok_emit|done].
Qed.

(** ** Quorums *)

Lemma single_mono n m : n ≤ m → Bft.bftQuorumOrSingle n 1 ≤ Bft.bftQuorumOrSingle m 1.
Proof.
  intros Hle. unfold Bft.bftQuorumOrSingle. destruct (Z.leb_spec n 1), (Z.leb_spec m 1); try lia.
  - pose proof (Bft.bftQuorum_bounds m ltac:(lia)). lia.
  - apply Bft.bftQuorum_mono. lia.
Qed.

Lemma distinct_length (l : list string) : (length (remove_dups l) ≤ length l)%nat.
Proof. induction l as [|x l IH]; cbn; [done|]. destruct (decide_rel _ _ _); cbn; lia. Qed.

Lemma met_reached id r : round_ok id r → met r = true → backed (r_signed r) (r_signatures r).
Proof.
  intros (block & sn & Hp & Ha & He & Hs & _ & _ & Hw & Hv & Hq & Hsig) Hm. exists block, sn. split_and!; [done..|]. right. split.
  - rewrite Hs. by apply observed_snapshot.
  - left. unfold reached. unfold met in Hm. rewrite Hw, Hv, Hq in Hm. destruct (weighted_at h block); [done|].
    bools. apply Z.leb_le. rewrite length_fmap. etransitivity; [|exact Hm]. apply single_mono, inj_le.
    etransitivity; [apply distinct_length|]. unfold keys. by rewrite length_fmap.
Qed.

Lemma ok_check id s : ok s → ok (checkQuorum h id s).
Proof.
  intros H. unfold checkQuorum. destruct (pending s !! id) as [r|] eqn:Hr; [|done]. destruct (met r) eqn:Hm; [|done].
  pose proof (ok_pending s H id r Hr) as Hok. apply ok_finalize.
  - apply ok_emit; [by apply ok_close|done].
  - by apply (met_reached id).
  - destruct Hok as (? & ? & _ & _ & _ & _ & Hc & Hid & _). cbn. by rewrite <-Hc.
Qed.

Lemma lowered_members key vs : existsb (λ v, String.eqb (js_String (v_pubkey v)) key) (Swq.rows (lowered vs)) = true → key ∈ keys vs.
Proof.
  intros (v & Hv & E%String.eqb_eq)%existsb_exists. apply list_elem_of_In, list_elem_of_fmap in Hv as (v0 & -> & Hv). cbn in E. subst.
  apply list_elem_of_fmap. by exists v0.
Qed.

(** A signature that passed both tests is recorded. *)
Definition signed_by (pk sg : string) r : round :=
  Round (r_evt r) (r_signed r) (r_canonical r) (r_quorum r) (r_weighted r) (r_validators r) (m_set pk sg (r_signatures r)) (r_me r) (r_sig r).

Lemma ok_collect id pk sg r s :
  ok s → pending s !! id = Some r → existsb (λ v, String.eqb (js_String (v_pubkey v)) pk) (Swq.rows (r_validators r)) = true →
  verify h (r_canonical r) sg pk = true → ok (put_pending (<[id := signed_by pk sg r]> (pending s)) s).
Proof.
  intros H Hr Hm Hv. apply ok_round; [done|]. destruct (ok_pending s H id r Hr) as (block & sn & Hp & Ha & He & Hs & Hc & Hid & Hw & Hvs & Hq & [Hn Hval Hmem]).
  exists block, sn. split_and!; try done. cbn [r_signatures r_signed signed_by]. rewrite Hvs in Hm. apply lowered_members in Hm. split.
  - by apply NoDup_m_set.
  - intros pk' sg' [[= -> ->]|Hin]%elem_of_m_set_pair; [by rewrite <-Hc|by apply Hval].
  - intros pk' [-> |Hin]%elem_of_m_set; [by right|by apply Hmem].
Qed.

Lemma rok_sign id pk sg s : ok s → ok (handleSign h id pk sg s).
Proof.
  intros H. unfold handleSign. destruct (pending s !! id) as [r|] eqn:Hr; [|done]. cbn zeta.
  destruct (existsb _ _) eqn:Hm; [|done]. destruct (verify _ _ _ _) eqn:Hv; [|done]. by apply ok_check, ok_collect.
Qed.

(** ** The initiator *)

Lemma ok_submit now e s : (now, EvSubmit e) ∈ all → ok s → ok (submitLocal h now e s).
Proof.
  intros Hin H. assert (He : submitted e) by by exists now. unfold submitLocal. cbn zeta.
  assert (H' : ok (put_intents (<[intentKey e := now]> (localIntents (pruneIntents h now s))) (pruneIntents h now s))).
  { pose proof (ok_prune now s H) as [H1 H2 H3 H4 H5 H6]. split; try done. intros k t. cbn.
    intros [[<- <-]|[_ Hk]]%lookup_insert_Some; [by exists e|by apply (H1 k t)]. }
  destruct (bool_decide_reflect (e_table e ∈ QUORUM_CLASS_TABLES)) as [Ht|Ht]; cbn [negb]; [|by apply ok_unsigned].
  destruct (bool_decide_reflect (identity h = None)) as [Hi|Hi]; cbn [orb]; [by apply ok_unsigned|].
  destruct (_ || _); [by apply ok_unsigned|by apply ok_await].
Qed.

Lemma ok_rejected e df s : ok s → ok (rejected h e df s).
Proof. intros H. unfold rejected. destruct df; [by apply ok_schedule|by apply ok_emit]. Qed.

Lemma ok_tip e df tip s : ok s → task_ok (TTip e df) → ok (resumeTip h e df tip s).
Proof.
  intros H (Hid & He & Ht). unfold resumeTip. destruct tip as [[block|]|]; [|by apply ok_defer|by apply ok_rejected].
  destruct (signing_active h block) eqn:Hact; cbn [negb]; [by apply ok_await|by apply ok_unsigned, ok_clear].
Qed.

Hypothesis Hself : signs_for_itself.

Lemma own_signature e vs block : proper e block → identity h ≠ None → signatures_ok e vs [(me h, sign h (canonicalRetraction e))].
Proof.
  intros _ Hid. split.
  - apply NoDup_singleton.
  - intros pk sg [= -> ->]%list_elem_of_singleton. by apply Hself.
  - intros pk ->%list_elem_of_singleton. by left.
Qed.

Lemma ok_opened e block sn s :
  ok s → answered block sn → identity h ≠ None → submitted e → e_table e ∈ QUORUM_CLASS_TABLES → signing_active h block = true →
  let signed := with_snapshot block e in let c := canonicalRetraction signed in
  ok (emit (Signed c) s) ∧
  ok (openSigningRound h e signed c (roundId h c) (sign h c) block (resolveCapabilityValidators h block sn) (emit (Signed c) s)).
Proof.
  intros H Ha Hid He Ht Hact signed c. assert (Hp : proper signed block) by done.
  assert (Hs : ok (emit (Signed c) s)). { apply ok_emit; [done|]. exists signed, block. split_and!; try done. by apply observed_snapshot. }
  split; [done|]. apply ok_emit; [|done]. apply ok_round; [done|]. exists block, sn. split_and!; try done. by apply (own_signature _ _ block).
Qed.

Lemma ok_set now k e block df sn s : (now, EvSet k block sn) ∈ all → ok s → task_ok (TSet e block df) → ok (resumeSet h e block df sn s).
Proof.
  intros Hin H (Hid & He & Ht & Hact). unfold resumeSet. destruct sn as [sn|]; [|by apply ok_rejected]. cbn zeta.
  assert (Ha : answered block sn) by by exists now, k. destruct (bool_decide _); [by apply ok_defer|].
  pose proof (ok_clear e df s H) as Hs. destruct (_ || _); [done|]. destruct (ok_opened e block sn _ Hs Ha Hid He Ht Hact) as [H1 H2].
  destruct (Nat.leb_spec (length (Swq.rows (resolveCapabilityValidators h block sn))) 1); [|by apply ok_check].
  apply ok_finalize; [done| |done]. exists block, sn. split_and!; try done; [by apply (own_signature _ _ block)|].
  right. split; [by apply observed_snapshot|by right].
Qed.

(** ** The follower *)

Lemma normalize_class d e : normalizeRetraction d = Some e → e_table e ∈ QUORUM_CLASS_TABLES ∧ ∃ block, e_snapshot e = Some block.
Proof.
  unfold normalizeRetraction. destruct d as [d|]; [|done]. cbn [mbind option_bind].
  destruct (bool_decide_reflect (w_table d ∈ QUORUM_CLASS_TABLES)); cbn [negb orb]; [|done]. intros H0. case_in H0; eauto.
Qed.

Lemma active_proper d e : normalizeRetraction d = Some e → signing_active h (snapshot_of e) = true → ∃ block, proper e block.
Proof. intros (Ht & block & Hb)%normalize_class Ha. exists block. unfold snapshot_of in Ha. by rewrite Hb in Ha. Qed.

Lemma proper_block e block : proper e block → snapshot_of e = block.
Proof. intros (_ & Hb & _). unfold snapshot_of. by rewrite Hb. Qed.

Lemma ok_req d pk sg s : ok s → ok (handleSignReq h d pk sg s).
Proof.
  intros H. unfold handleSignReq. destruct (normalizeRetraction d) as [e|] eqn:Hn; [|done]. cbn zeta.
  destruct (bool_decide_reflect (identity h = None)); cbn [orb]; [done|]. destruct (String.eqb _ _); [done|].
  destruct (signing_active _ _) eqn:Ha; [|done]. apply ok_await; [done|]. split; [done|]. by eapply active_proper.
Qed.

Lemma ok_req_tip e sender sg tip s : ok s → task_ok (TReqTip e sender sg) → ok (resumeReqTip e sender sg tip s).
Proof. intros H Ht. unfold resumeReqTip. destruct tip as [[mine|]|]; [|done..]. destruct (_ <? _); [done|by apply ok_await]. Qed.

Lemma ok_req_set now e sender sg sn s : ok s → task_ok (TReqSet e sender sg) → ok (resumeReqSet h now e sender sg sn s).
Proof.
  intros H (Hid & block & Hp). unfold resumeReqSet. destruct sn as [sn|]; [|done]. cbn zeta. destruct (_ || _); [done|].
  destruct (verify _ _ _ _); [|done]. cbn [negb]. pose proof (ok_prune now s H) as Hs.
  destruct (localIntents (pruneIntents h now s) !! intentKey e) as [t|] eqn:Ht; [|done].
  apply ok_emit; [|done]. apply ok_emit; [done|]. exists e, block. split_and!; try done. by apply (ok_intents _ Hs _ _ Ht).
Qed.

Lemma ok_finalized d sigs s : ok s → ok (handleFinalized h d sigs s).
Proof.
  intros H. unfold handleFinalized. destruct (normalizeRetraction d) as [e|] eqn:Hn, sigs as [sigs|]; try done.
  destruct (signing_active _ _) eqn:Ha; [|done]. cbn [negb]. destruct (bool_decide _); [done|]. apply ok_await; [done|]. by eapply active_proper.
Qed.

Lemma countable_spec canonical ks sigs : ∀ seen,
  NoDup (countable h canonical ks seen sigs).*1 ∧
  ∀ pk sg, (pk, sg) ∈ countable h canonical ks seen sigs → pk ∉ seen ∧ pk ∈ ks ∧ verify h canonical sg pk = true.
Proof.
  induction sigs as [|[pk sg] sigs IH]; intros seen; cbn [countable]; [split; [constructor|by intros ? ? ?%not_elem_of_nil]|].
  destruct (_ || _ || _) eqn:Hc; [apply IH|]. bools. destruct (verify _ _ _ _) eqn:Hv; cbn [negb]; [|apply IH].
  destruct (IH (toLowerCase pk :: seen)) as [IH1 IH2]. split.
  - cbn. constructor; [|done]. intros ([pk' sg'] & E & Hin)%list_elem_of_fmap. cbn in E. subst. apply IH2 in Hin as (Hn & _). apply Hn. by left.
  - intros pk' sg' [[= -> ->]|Hin]%elem_of_cons; [done|]. apply IH2 in Hin as (Hn & ? & ?). split_and!; try done. intros ?. apply Hn. by right.
Qed.

Lemma ok_fin_set now k e sigs sn s : (now, EvSet k (snapshot_of e) sn) ∈ all → ok s → task_ok (TFinSet e sigs) → ok (resumeFinSet h e sigs sn s).
Proof.
  intros Hin H (block & Hp). unfold resumeFinSet. destruct sn as [sn|]; [|done]. cbn zeta. rewrite (proper_block e block Hp) in *.
  set (vs := resolveCapabilityValidators h block sn). destruct (countable_spec (canonicalRetraction e) (keys vs) sigs []) as [Hn Hc].
  set (good := countable _ _ _ _ _) in *. destruct (if weighted_at h block then _ else _) eqn:Hq; [|done]. apply ok_finalize; [done| |done].
  assert (Hmem : good.*1 ⊆ keys vs). { intros pk ([pk' sg] & -> & Hi)%list_elem_of_fmap. by apply Hc in Hi as (_ & ? & _). }
  exists block, sn. split_and!; [done|by exists now, k| |].
  - split; [done|by intros pk sg Hi; apply Hc in Hi as (_ & _ & ?)|]. intros pk Hi. right. by apply Hmem.
  - left. split; [done|]. unfold reached. by rewrite length_fmap.
Qed.

(** ** Runs *)

Lemma ok_wake k s a s1 : wake k s = Some (a, s1) → ok s → ok s1 ∧ task_ok a.
Proof.
  unfold wake. destruct (tasks s !! k) as [b|] eqn:Hk; [|done]. intros [= <- <-] H. split; [|by apply (ok_tasks s H k)].
  apply (ok_frame s); try done; [|intros d x ?; by exists x]. intros k' a'. cbn. by intros [_ ?]%lookup_delete_Some.
Qed.

Lemma ok_resume now a ev s s' : (now, ev) ∈ all → ok s → task_ok a → resume h now a ev s = Some s' → ok s'.
Proof.
  intros Hin H Ha. destruct ev as [e|m|k tip|k block sn|k w|k found|id|id|d|]; unfold resume; [by destruct a|by destruct a| | | | |by destruct a..].
  - destruct a; try done; intros [= <-]; [by apply (ok_tip e df)|by apply ok_req_tip].
  - assert (E : resume h now a (EvSet k block sn) s = Some s' → asked a = Some block).
    { unfold resume. case_bool_decide; [done|]. by destruct a. }
    intros Hs. specialize (E ltac:(by destruct a)). rewrite E, bool_decide_true in Hs by done.
    destruct a; try done; injection E as <-; injection Hs as <-;
      [by apply (ok_set now k _ _ df)|by apply ok_req_set|by apply (ok_fin_set now k)|by apply ok_persist].
  - destruct a; try done. intros [= <-]. by apply ok_write.
  - destruct a; try done. intros [= <-]. by apply ok_row.
Qed.

Lemma ok_stop s : ok s → ok (stop s).
Proof.
  intros H. apply (ok_frame s); try done. intros d x. cbn. revert d x.
  apply (map_fold_weak_ind (λ hp _, ∀ d x, hp !! d = Some x → ∃ x0, heap s !! d = Some x0 ∧ d_evt x = d_evt x0)); [eauto|].
  intros k d m hp _ IH d' x Hx. apply alter_timer in Hx as (x1 & Hx1 & ->); [|done]. by apply IH.
Qed.

Lemma ok_step now ev s s' : (now, ev) ∈ all → ok s → step h now ev s = Some s' → ok s'.
Proof.
  intros Hin H. unfold step. destruct ev as [e|m|k tip|k block sn|k w|k found|id|id|d|].
  - intros [= <-]. by apply ok_submit.
  - destruct (_ && _); [|done]. intros [= <-]. destruct m; cbn; [by apply ok_req|by apply rok_sign|by apply ok_finalized].
  - destruct (wake k s) as [[a s1]|] eqn:Hw; [|done]. destruct (ok_wake _ _ _ _ Hw H). cbn. by eapply ok_resume.
  - destruct (wake k s) as [[a s1]|] eqn:Hw; [|done]. destruct (ok_wake _ _ _ _ Hw H). cbn. by eapply ok_resume.
  - destruct (wake k s) as [[a s1]|] eqn:Hw; [|done]. destruct (ok_wake _ _ _ _ Hw H). cbn. by eapply ok_resume.
  - destruct (wake k s) as [[a s1]|] eqn:Hw; [|done]. destruct (ok_wake _ _ _ _ Hw H). cbn. by eapply ok_resume.
  - unfold onResend. destruct (pending s !! id); [|done]. intros [= <-]. by apply ok_emit.
  - unfold onTimeout. destruct (pending s !! id); [|done]. intros [= <-]. by apply ok_unsigned, ok_close.
  - unfold onRetry. destruct (heap s !! d) as [x|] eqn:Hx; [|done]. cbn. destruct (d_timer x); [|done]. cbn. intros [= <-].
    destruct (ok_heap s H d x Hx) as (Hi & He & Ht).
    assert (Hm : ∀ g, (∀ x, d_evt (g x) = d_evt x) → ok (modify d g s)). { intros g Hg. apply (ok_frame s); try done. intros d' x'. by apply alter_timer. }
    destruct (bool_decide _); [apply ok_await; [by apply Hm|done]|by apply Hm].
  - intros [= <-]. by apply ok_stop.
Qed.

Lemma ok_run evs : ∀ s s', (∀ p, p ∈ evs → p ∈ all) → ok s → run h evs s = Some s' → ok s'.
Proof.
  induction evs as [|[now ev] evs IH]; intros s s' Hin H; cbn; [by intros [= <-]|].
  destruct (step h now ev s) as [s1|] eqn:E; [|done]. cbn. apply IH; [intros p Hp; apply Hin; by right|].
  eapply ok_step; [|exact H|exact E]. apply Hin. by left.
Qed.

Lemma ok_initial : ok initial.
Proof. split; cbn; intros; try (by rewrite lookup_empty in *); by apply not_elem_of_nil in H. Qed.
End Backing.
