(* ===== verification/RetractAccounts.v ===== *)
(** * Signed retractions: accounting

    The invariant by which no submitted retraction is dropped: every deferral moves
    on, every finalized id was streamed or is being mirrored, and what a handler
    carries it hands over. *)

From stdpp Require Import pretty.
From S2P Require Import Prelude Ordered GateRegistry BigNum Quorum Json Admission AdmissionProps Retract RetractInv.
Open Scope Z_scope.

(** ** No retraction is dropped *)

Section Accounts.
Context {B : BigNumber} (h : env) (all : list (Z * event)) (excused : Prop).
Implicit Types (s : state) (e : deletion) (f : decided) (a : task) (key : string).

(** What is tracked: the deletions [same] as a submitted one, which share its intent
    key [key]; the outputs beyond [mark], those of the run since the submission; and
    the snapshot blocks [named] since. *)
Context (mark : list effect) (key : string) (same : deletion → Prop) (named : Z → Prop).

(** A deletion, whatever its snapshot block. *)
Definition claim_of e : deletion := with_snapshot 0 e.

Context (Hsame : ∀ e e', claim_of e = claim_of e' → same e → same e') (Hintent : ∀ e, same e → intentKey e = key).

(** The submission a task carries, and the deferral it retries. *)
Definition submission a : option (deletion * option nat) := match a with TTip e df | TSet e _ df => Some (e, df) | _ => None end.

Definition retries (d : nat) a : Prop := ∃ e, submission a = Some (e, Some d).

(** What became of a retraction: since its submission the deletion was streamed, or
    the log said why it was not; or the very deletion, at a snapshot block that the
    chain named since, had been streamed before. *)
Definition reported e (l : list effect) : Prop :=
  StreamUnsigned e ∈ l ∨ (∃ sigs, StreamSigned e sigs ∈ l) ∨ Withheld e ∈ l ∨ SubmitFailed e ∈ l.

Definition settled s : Prop :=
  (∃ e new, same e ∧ out s = new ++ mark ∧ reported e new) ∨
  ∃ e block sigs, same e ∧ e_snapshot e = Some block ∧ named block ∧ StreamSigned e sigs ∈ out s.

(** It waits: the deferral of its key would submit it again. *)
Definition deferred s : Prop := ∃ d e, waiting s !! key = Some d ∧ d_evt <$> heap s !! d = Some e ∧ same e.

(** What a suspended task holds on its own account. *)
Definition carries a : Prop :=
  (∃ e, submission a = Some (e, None) ∧ same e) ∨ ∃ f, final_of a = Some f ∧ same (f_evt f).

(** Or it is under way: in a round, a deferral, or a suspended task. *)
Definition held s : Prop :=
  (∃ id r, pending s !! id = Some r ∧ same (r_evt r)) ∨ deferred s ∨
  ∃ k a, tasks s !! k = Some a ∧ carries a.

(** Nothing else of its intent key is on its way to a round, and what is was given a
    snapshot block named since. *)
Definition allowed a : Prop :=
  (∀ e df, submission a = Some (e, df) → intentKey e = key → same e) ∧ ∀ e block df, a = TSet e block df → same e → named block.

Record track s : Prop := {
  tr_out : ∃ new, out s = new ++ mark;
  tr_tasks k a : tasks s !! k = Some a → allowed a;
  tr_waiting d e : waiting s !! key = Some d → d_evt <$> heap s !! d = Some e → same e }.

(** [excused]: the retraction was not submitted yet. *)
Definition accounted s : Prop := (excused ∨ settled s) ∨ held s.

(** A deferral moves on: its timer is armed or its retry is under way. *)
Definition moves s (d : nat) : Prop :=
  (∃ x, heap s !! d = Some x ∧ is_Some (d_timer x)) ∨ ∃ k a, tasks s !! k = Some a ∧ retries d a.

Definition lively (except : option nat) s : Prop := ∀ k d, waiting s !! k = Some d → except ≠ Some d → moves s d.

Record shape s : Prop := {
  sh_tasks k : (next s ≤ k)%nat → tasks s !! k = None;
  sh_heap d : (next s ≤ d)%nat → heap s !! d = None;
  sh_waiting k d : waiting s !! k = Some d → d_key <$> heap s !! d = Some k;
  sh_deferrals k d : deferrals s !! k = Some d → d_key <$> heap s !! d = Some k;
  sh_evt d x : heap s !! d = Some x → d_key x = intentKey (d_evt x);
  sh_retry k a e d : tasks s !! k = Some a → submission a = Some (e, Some d) → d_key <$> heap s !! d = Some (intentKey e);
  sh_pending id r : pending s !! id = Some r → claim_of (r_evt r) = claim_of (r_signed r) }.

(** Every id of the ring was streamed or is being mirrored; [except] is the decision
    a running handler holds. *)
Definition ring (except : option decided) s : Prop :=
  ∀ id, id ∈ finalized s → ∃ e block, id = roundId h (canonicalRetraction e) ∧ proper h e block ∧
    ((∃ sigs, StreamSigned e sigs ∈ out s) ∨ (∃ k a f, tasks s !! k = Some a ∧ final_of a = Some f ∧ f_evt f = e) ∨
     (∃ f, except = Some f ∧ f_evt f = e)).

(** *** Monotone steps *)

Lemma settled_mono s s' : (∃ l, out s' = l ++ out s) → settled s → settled s'.
Proof.
  intros [l Ho] [(e & new & Hk & Hn & Hx)|(e & b & sigs & Hk & Hb & Hm & Hx)].
  - left. exists e, (l ++ new). split_and!; [done|by rewrite Ho, Hn, app_assoc|]. unfold reported in *. setoid_rewrite elem_of_app. naive_solver.
  - right. exists e, b, sigs. split_and!; try done. rewrite Ho. apply elem_of_app. by right.
Qed.

Lemma accounted_mono s s' :
  (∃ l, out s' = l ++ out s) → (∀ id r, pending s !! id = Some r → pending s' !! id = Some r) →
  (deferred s → deferred s') → (∀ k a, tasks s !! k = Some a → tasks s' !! k = Some a) →
  accounted s → accounted s'.
Proof.
  intros H1 H2 H3 H4 [[?|Hs]|[(id & r & Hr & ?)|[Hd|(k & a & Hk & ?)]]]; [by left; left|left; right; by eapply settled_mono|right..].
  - left. exists id, r. eauto.
  - right; left. eauto.
  - right; right. exists k, a. eauto.
Qed.

Lemma deferred_same s s' : waiting s' = waiting s → (∀ d, d_evt <$> heap s' !! d = d_evt <$> heap s !! d) → deferred s → deferred s'.
Proof. intros E1 E2 (d & e & Hw & He & ?). exists d, e. by rewrite E1, E2. Qed.

Lemma accounted_same s s' :
  out s' = out s → pending s' = pending s → waiting s' = waiting s → (∀ d, d_evt <$> heap s' !! d = d_evt <$> heap s !! d) → tasks s' = tasks s →
  accounted s → accounted s'.
Proof. intros E1 E2 E3 E4 E5. apply accounted_mono; [by exists []|by rewrite E2|by apply deferred_same|by rewrite E5]. Qed.

Lemma track_same s s' :
  (∃ l, out s' = l ++ out s) → waiting s' = waiting s → (∀ d, d_evt <$> heap s' !! d = d_evt <$> heap s !! d) → tasks s' = tasks s → track s → track s'.
Proof.
  intros [l El] E3 E4 E5 [[new T1] T2 T3]. split; [exists (l ++ new); by rewrite El, T1, app_assoc|by rewrite E5|]. intros d e. rewrite E3, E4. apply T3.
Qed.

Lemma fresh_task s k a b : shape s → tasks s !! k = Some b → <[next s := a]> (tasks s) !! k = Some b.
Proof. intros H Hk. rewrite lookup_insert_ne; [done|]. intros <-. by rewrite (sh_tasks s H) in Hk. Qed.

Lemma accounted_emit x s : accounted s → accounted (emit x s).
Proof. apply accounted_mono; try done. by exists [x]. Qed.

Lemma track_emit x s : track s → track (emit x s).
Proof. apply track_same; try done. by exists [x]. Qed.

Lemma track_await a s : allowed a → track s → track (await a s).
Proof. intros Ha [T1 T2 T3]. split; try done. cbn. intros k b [[<- <-]|[_ Hk]]%lookup_insert_Some; [done|by eapply T2]. Qed.

Lemma allowed_none a : submission a = None → allowed a.
Proof. intros Ha. split; [by rewrite Ha|]. intros e b df ->. done. Qed.

Lemma accounted_await a s : shape s → accounted s ∨ carries a → accounted (await a s).
Proof.
  intros H [Ha|Hc].
  - revert Ha. apply accounted_mono; try done; [by exists []|]. intros k b. cbn. by apply fresh_task.
  - right; right; right. exists (next s), a. split; [apply lookup_insert_eq|done].
Qed.

Lemma settle x e s : track s → same e → x ∈ [StreamUnsigned e; Withheld e; SubmitFailed e] → accounted (emit x s).
Proof.
  intros [[new Hn] _ _] Hk Hx. left; right; left. exists e, (x :: new). split_and!; [done|cbn; by rewrite Hn|].
  rewrite !elem_of_cons, elem_of_nil in Hx. destruct Hx as [-> |[-> |[-> |[]]]]; [left|do 2 right; left|do 3 right]; by left.
Qed.

Lemma moves_mono s s' d :
  (∀ x, heap s !! d = Some x → is_Some (d_timer x) → ∃ x', heap s' !! d = Some x' ∧ is_Some (d_timer x')) → (∀ k a, tasks s !! k = Some a → tasks s' !! k = Some a) →
  moves s d → moves s' d.
Proof. intros H1 H2 [(x & Hx & Ht)|(k & a & Hk & Hr)]; [left; eauto|right; eauto]. Qed.

Lemma lively_emit ex x s : lively ex s → lively ex (emit x s).
Proof. intros H k d Hw Hne. specialize (H k d Hw Hne). revert H. apply moves_mono; cbn; eauto. Qed.

Lemma lively_await ex a s : shape s → lively ex s → (∀ d, ex = Some d → retries d a) → lively None (await a s).
Proof.
  intros Hs H Ha k d Hw _. destruct (decide (ex = Some d)) as [E|Hne].
  - right. exists (next s), a. split; [apply lookup_insert_eq|by apply Ha].
  - specialize (H k d Hw Hne). revert H. apply moves_mono; [by eauto|]. intros k' b. cbn. by apply fresh_task.
Qed.

Lemma shape_emit x s : shape s → shape (emit x s).
Proof. by intros [H1 H2 H3 H4 H5 H6 H7]. Qed.

Lemma shape_await a s : shape s → (∀ e d, submission a = Some (e, Some d) → d_key <$> heap s !! d = Some (intentKey e)) → shape (await a s).
Proof.
  intros [H1 H2 H3 H4 H5 H6 H7] Ha. split; try done.
  - intros k Hk. cbn in *. rewrite lookup_insert_ne by lia. apply H1. lia.
  - intros d Hd. cbn in *. apply H2. lia.
  - intros k b e d. cbn. intros [[<- <-]|[_ Hk]]%lookup_insert_Some; [apply Ha|by apply (H6 k)].
Qed.

Lemma ring_emit ex x s : ring ex s → ring ex (emit x s).
Proof. intros H id Hid. destruct (H id Hid) as (e & b & ? & ? & Hc). exists e, b. split_and!; try done. destruct Hc as [[sigs ?]|Hc]; [left; exists sigs; by right|by right]. Qed.

Lemma ring_await ex a s : shape s → ring ex s → (∀ f, ex = Some f → final_of a = Some f) → ring None (await a s).
Proof.
  intros Hs H Ha id Hid. destruct (H id Hid) as (e & b & ? & ? & Hc). exists e, b. split_and!; try done.
  destruct Hc as [?|[(k & c & f & Hk & ? & ?)|(f & Hf & ?)]]; [by left|right; left..].
  - exists k, c, f. split; [by apply fresh_task|done].
  - exists (next s), a, f. split; [apply lookup_insert_eq|]. auto.
Qed.

(** *** The invariant, inside a handler

    [x]: the deferral whose retry the handler is; [w]: the decision it mirrors; [P]:
    it carries the retraction. *)

Record fine (x : option nat) (w : option decided) (P : Prop) s : Prop := {
  fi_shape : shape s; fi_lively : lively x s; fi_ring : ring w s; fi_track : track s; fi_accounted : accounted s ∨ P }.

Lemma fine_weaken x w (P Q : Prop) s : (P → Q) → fine x w P s → fine x w Q s.
Proof. intros HPQ [H1 H2 H3 H4 H5]. split; try done. naive_solver. Qed.

Lemma fine_emit x w P y s : fine x w P s → fine x w P (emit y s).
Proof.
  intros [H1 H2 H3 H4 H5]. split; [by apply shape_emit|by apply lively_emit|by apply ring_emit|by apply track_emit|].
  destruct H5; [left; by apply accounted_emit|by right].
Qed.

Lemma fine_await x w P a s :
  fine x w P s → (∀ e d, submission a = Some (e, Some d) → d_key <$> heap s !! d = Some (intentKey e)) → (∀ d, x = Some d → retries d a) →
  (∀ g, w = Some g → final_of a = Some g) → (P → carries a) → allowed a → fine None None False (await a s).
Proof.
  intros [H1 H2 H3 H4 H5] A1 A2 A3 A4 A5. split; [by apply shape_await|by eapply lively_await|by eapply ring_await|by apply track_await|].
  left. apply accounted_await; [done|]. destruct H5; [by left|right; auto].
Qed.

Lemma fine_settle x w (P : Prop) y e s :
  fine x w P s → (P → same e) → y ∈ [StreamUnsigned e; Withheld e; SubmitFailed e] → fine x w False (emit y s).
Proof.
  intros [H1 H2 H3 H4 H5] HP Hy. split; [by apply shape_emit|by apply lively_emit|by apply ring_emit|by apply track_emit|].
  left. destruct H5 as [?|HP']; [by apply accounted_emit|]. eapply settle; [done|by apply HP|done].
Qed.

(** *** Deferrals *)

Lemma lookup_timer (m : gmap nat deferral) d v d' : d_key <$> alter (set_timer v) d m !! d' = d_key <$> m !! d'.
Proof. destruct (decide (d = d')) as [->|]; [rewrite lookup_alter_eq; by destruct (m !! d')|by rewrite lookup_alter_ne]. Qed.

Lemma lookup_evt g (m : gmap nat deferral) d d' : (∀ x, d_evt (g x) = d_evt x) → d_evt <$> alter g d m !! d' = d_evt <$> m !! d'.
Proof. intros Hg. destruct (decide (d = d')) as [->|]; [rewrite lookup_alter_eq; destruct (m !! d'); cbn; by rewrite ?Hg|by rewrite lookup_alter_ne]. Qed.

Lemma shape_timer d v s : shape s → shape (modify d (set_timer v) s).
Proof.
  intros [H1 H2 H3 H4 H5 H6 H7]. split; try done; cbn; try (intros; rewrite lookup_timer; eauto; fail).
  - intros d' Hd. destruct (decide (d = d')) as [->|]; [rewrite lookup_alter_eq; by rewrite H2|rewrite lookup_alter_ne by done; by apply H2].
  - intros d' x. destruct (decide (d = d')) as [->|].
    + rewrite lookup_alter_eq. destruct (heap s !! d') as [y|] eqn:Hy; [|done]. intros [= <-]. exact (H5 d' y Hy).
    + rewrite lookup_alter_ne by done. apply H5.
Qed.

Lemma fine_schedule d P s : fine (Some d) None P s → fine None None P (scheduleDeferredRetry h d s).
Proof.
  intros [H1 H2 H3 T H4]. unfold scheduleDeferredRetry. destruct (heap s !! d) as [x|] eqn:Hx.
  - destruct (bool_decide_reflect (is_Some (d_timer x))) as [Ht|Ht]; cbn [orb].
    + split; try done. intros k d' Hw _. destruct (decide (d = d')) as [<-|Hne]; [left; eauto|by apply (H2 k); [|congruence]].
    + destruct (bool_decide_reflect (waiting s !! d_key x = Some d)) as [Hw|Hw]; cbn [negb].
      * split; [by apply shape_timer| |done|revert T; apply track_same; try done; [by exists []|by intros; apply lookup_evt]|
                by destruct H4 as [H4|?]; [left; revert H4; apply accounted_same; try done; intros; by apply lookup_evt|right]].
        intros k d' Hk _. destruct (decide (d = d')) as [<-|Hne].
        -- left. exists (set_timer (Some (retry_delay h (d_attempts x))) x). cbn. rewrite lookup_alter_eq, Hx. eauto.
        -- specialize (H2 k d' Hk ltac:(congruence)). revert H2. apply moves_mono; [|done]. cbn. intros y Hy Hty.
           rewrite lookup_alter_ne by done. eauto.
      * split; try done. intros k d' Hk _. apply (H2 k); [done|]. intros [= <-]. apply Hw. pose proof (sh_waiting s H1 _ _ Hk) as E.
        rewrite Hx in E. injection E as ->. done.
  - split; try done. intros k d' Hk _. apply (H2 k); [done|]. intros [= <-]. pose proof (sh_waiting s H1 _ _ Hk) as E. by rewrite Hx in E.
Qed.

Lemma fine_clear e df P s :
  fine df None P s → (∀ d, df = Some d → d_key <$> heap s !! d = Some (intentKey e)) → (intentKey e = key → same e) →
  fine None None (P ∨ same e) (clearDeferral e df s).
Proof.
  intros Hf Hdf Hpe. pose proof Hf as [H1 H2 H3 T H4]. unfold clearDeferral. set (od := match df with Some d => Some d | None => deferrals s !! intentKey e end).
  assert (Hod : ∀ d, od = Some d → d_key <$> heap s !! d = Some (intentKey e)).
  { intros d. unfold od. destruct df as [d'|]; [by intros [= <-]; apply Hdf|apply (sh_deferrals s H1)]. }
  assert (Hlive : lively od s).
  { intros k d Hk Hne. apply (H2 k); [done|]. unfold od in Hne. by destruct df. }
  clearbody od. destruct od as [d|]; [|split; try done; by destruct H4; [left|right; left]].
  specialize (Hod d eq_refl). destruct (heap s !! d) as [x|] eqn:Hx; [|done]. cbn in Hod. injection Hod as Hkey. cbn zeta.
  pose proof (shape_timer d None s H1) as S1. set (s1 := modify d (set_timer None) s) in *.
  set (s2 := if bool_decide (waiting s1 !! d_key x = Some d) then put_waiting (delete (d_key x) (waiting s1)) s1 else s1).
  assert (S2 : shape s2 ∧ waiting s2 = (if bool_decide (waiting s !! d_key x = Some d) then delete (d_key x) (waiting s) else waiting s) ∧
               tasks s2 = tasks s ∧ heap s2 = heap s1 ∧ out s2 = out s ∧ pending s2 = pending s ∧ finalized s2 = finalized s).
  { unfold s2. subst s1. cbn [modify put_heap waiting]. case_bool_decide; [|done]. split_and!; try done. destruct S1 as [S1 S2' S3 S4 S5 S6 S7]. split; try done.
    intros k d'. cbn. intros [_ ?]%lookup_delete_Some. by apply S3. }
  clearbody s2. destruct S2 as (S2 & W2 & T2' & Hp2 & O2 & P2 & F2).
  assert (E2 : ∀ d', d_evt <$> heap s2 !! d' = d_evt <$> heap s !! d') by (intros d'; rewrite Hp2; by apply lookup_evt).
  assert (G : fine None None (P ∨ same e) s2).
  { split; [done| | | |].
    - intros k d' Hk _. rewrite W2 in Hk. assert (Hk' : waiting s !! k = Some d' ∧ d' ≠ d).
      { case_bool_decide as Hw; [apply lookup_delete_Some in Hk as [Hne Hk]|]; (split; [done|]); intros ->;
          pose proof (sh_waiting s H1 _ _ Hk) as E; rewrite Hx in E; injection E as E; congruence. }
      destruct Hk' as [Hk' Hne]. specialize (Hlive k d' Hk' ltac:(congruence)). revert Hlive. apply moves_mono; [|by rewrite T2'].
      intros y Hy Hty. rewrite Hp2. unfold s1. cbn. rewrite lookup_alter_ne by done. eauto.
    - intros id Hid. rewrite F2 in Hid. rewrite O2, T2'. by apply H3.
    - destruct T as [[new T1] T2 T3]. split; [exists new; by rewrite O2|by rewrite T2'|]. intros d' e'. rewrite W2, E2. intros Hw. apply T3.
      case_bool_decide; [by apply lookup_delete_Some in Hw as [_ ?]|done].
    - destruct H4 as [H4|?]; [|by right; left]. destruct (decide (intentKey e = key)) as [Hk|Hne]; [by right; right; apply Hpe|]. left.
      revert H4. apply accounted_mono; [exists []; by rewrite O2|by rewrite P2| |by rewrite T2'].
      intros (d' & e' & Hd' & He' & ?). exists d', e'. rewrite W2, E2. split_and!; try done. case_bool_decide; [by rewrite lookup_delete_ne by congruence|done]. }
  clear -G. destruct (bool_decide _); [|done]. destruct G as [[G1 G2 G3 G4 G5 G6 G7] L R T A]. split; try done; [|by destruct T]. split; try done.
  intros k d'. cbn. intros [_ ?]%lookup_delete_Some. by apply G4.
Qed.

Lemma fine_new_deferral e P s : fine None None P s → (P → same e) → (intentKey e = key → same e) → fine None None False (new_deferral h e s).
Proof.
  intros [H1 H2 H3 T H4] HP Hpe. unfold new_deferral. apply fine_schedule. pose proof H1 as [S1 S2 S3 S4 S5 S6 S7].
  assert (Hfr : ∀ d y, heap s !! d = Some y → <[next s := Deferral (intentKey e) e 0 None]> (heap s) !! d = Some y).
  { intros d y Hy. rewrite lookup_insert_ne; [done|]. intros <-. by rewrite S2 in Hy. }
  assert (Hk : ∀ d k, d_key <$> heap s !! d = Some k → d_key <$> <[next s := Deferral (intentKey e) e 0 None]> (heap s) !! d = Some k).
  { intros d k. destruct (heap s !! d) as [y|] eqn:Hy; [|done]. by rewrite (Hfr d y Hy). }
  assert (He : ∀ d e0, d_evt <$> heap s !! d = Some e0 → d_evt <$> <[next s := Deferral (intentKey e) e 0 None]> (heap s) !! d = Some e0).
  { intros d e0. destruct (heap s !! d) as [y|] eqn:Hy; [|done]. by rewrite (Hfr d y Hy). }
  split; [split| | | |]; cbn.
  - intros k Hn. apply S1. lia.
  - intros d Hd. rewrite lookup_insert_ne by lia. apply S2. lia.
  - intros k d [[<- <-]|[_ Hw]]%lookup_insert_Some; [by rewrite lookup_insert_eq|by apply Hk, S3].
  - intros k d [[<- <-]|[_ Hw]]%lookup_insert_Some; [by rewrite lookup_insert_eq|by apply Hk, S4].
  - intros d x [[<- <-]|[_ Hx]]%lookup_insert_Some; [done|by eapply S5].
  - intros k a e' d Ha Hs. by eapply Hk, S6.
  - done.
  - intros k d. cbn. intros [[<- <-]|[_ Hw]]%lookup_insert_Some Hne; [done|]. specialize (H2 k d Hw ltac:(done)). revert H2. apply moves_mono; [|done].
    cbn. intros y Hy ?. exists y. split; [by apply Hfr|done].
  - intros id Hid. by apply H3.
  - destruct T as [T1 T2 T3]. split; [done|done|]. cbn. intros d e0 [[<- <-]|[Hne Hw]]%lookup_insert_Some.
    + rewrite lookup_insert_eq. intros [= <-]. by apply Hpe.
    + intros He0. apply (T3 d e0 Hw). specialize (S3 _ _ Hw). destruct (heap s !! d) as [y|] eqn:Hy; [|done]. by rewrite (Hfr d y Hy) in He0.
  - left. destruct H4 as [H4|HP'].
    + revert H4. apply accounted_mono; try done; [by exists []|]. cbn. intros (d & e0 & Hd & He0 & ?). destruct (decide (intentKey e = key)) as [Hke|Hne].
      * exists (next s), e. cbn. rewrite <-Hke, !lookup_insert_eq. split_and!; [done|done|by apply Hpe].
      * exists d, e0. cbn. rewrite lookup_insert_ne by done. auto.
    + right; right; left. exists (next s), e. cbn. rewrite <-(Hintent e (HP HP')), !lookup_insert_eq. auto.
Qed.

Lemma fine_defer e df P s :
  fine df None P s → (P → df = None ∧ same e) → (intentKey e = key → same e) → fine None None False (deferSigningRound h e df s).
Proof.
  intros Hf HP Hpe. unfold deferSigningRound. destruct df as [d|]; [apply fine_schedule; by apply (fine_weaken _ _ P); [intros [? _]%HP|]|].
  assert (Hn : fine None None False (new_deferral h e s)) by (eapply fine_new_deferral; [exact Hf|by intros [_ ?]%HP|done]).
  destruct (deferrals s !! intentKey e) as [d|] eqn:Hd; [|done]. case_bool_decide as Hw; [|done]. clear Hn.
  destruct Hf as [[S1 S2 S3 S4 S5 S6 S7] H2 H3 T H4].
  assert (Hk : ∀ d', d_key <$> alter (set_evt e) d (heap s) !! d' = d_key <$> heap s !! d').
  { intros d'. destruct (decide (d = d')) as [->|]; [rewrite lookup_alter_eq; by destruct (heap s !! d')|by rewrite lookup_alter_ne]. }
  assert (He : ∀ d' e0, waiting s !! key = Some d' → d_evt <$> heap s !! d' = Some e0 → same e0 →
                 ∃ e1, d_evt <$> alter (set_evt e) d (heap s) !! d' = Some e1 ∧ same e1).
  { intros d' e0 Hd' He0 ?. destruct (decide (d = d')) as [<-|Hne]; [|exists e0; by rewrite lookup_alter_ne].
    exists e. rewrite lookup_alter_eq. destruct (heap s !! d) as [y|]; [|done]. split; [done|]. apply Hpe. apply S3 in Hd' as E1. apply S3 in Hw as E2. congruence. }
  split; [split; try done| |done| |]; cbn; try (intros; rewrite Hk; eauto; fail).
  - intros d' Hd'. specialize (S2 d' Hd'). specialize (Hk d'). rewrite S2 in Hk. by destruct (alter _ _ _ !! d').
  - intros d' x. destruct (decide (d = d')) as [<-|]; [|rewrite lookup_alter_ne by done; apply S5]. rewrite lookup_alter_eq.
    destruct (heap s !! d) as [y|] eqn:Hy; [|done]. intros [= <-]. cbn. specialize (S3 _ _ Hw). rewrite Hy in S3. by injection S3.
  - intros k d' Hk' Hne. specialize (H2 k d' Hk' Hne). revert H2. apply moves_mono; [|done]. cbn. intros y Hy Hty.
    destruct (decide (d = d')) as [<-|]; [rewrite lookup_alter_eq, Hy; cbn; eauto|rewrite lookup_alter_ne by done; eauto].
  - destruct T as [T1 T2 T3]. split; [done|done|]. cbn. intros d' e1 Hd'. destruct (decide (d = d')) as [<-|Hne]; [|rewrite lookup_alter_ne by done; by apply T3].
    rewrite lookup_alter_eq. destruct (heap s !! d) as [y|] eqn:Hy; [|done]. intros [= <-]. apply Hpe. apply S3 in Hd' as E1. apply S3 in Hw as E2. congruence.
  - left. destruct H4 as [H4|[_ HP']%HP].
    + revert H4. apply accounted_mono; try done; [by exists []|]. intros (d' & e0 & Hd' & He0 & Hs0). destruct (He d' e0 Hd' He0 Hs0) as (e1 & ? & ?). by exists d', e1.
    + right; right; left. exists d, e. cbn. rewrite <-(Hintent e HP'), lookup_alter_eq. specialize (S3 _ _ Hw). destruct (heap s !! d); done.
Qed.

(** *** Finalization *)

Context (Hmirror : mirror h = true).

Definition decides (f : decided) : Prop := f_id f = roundId h (canonicalRetraction (f_evt f)) ∧ ∃ block, proper h (f_evt f) block.

Lemma shape_finalized v s : shape s → shape (put_finalized v s).
Proof. by intros [H1 H2 H3 H4 H5 H6 H7]. Qed.

Lemma fine_ring x w w' P v s : fine x w P s → ring w' (put_finalized v s) → fine x w' P (put_finalized v s).
Proof. intros [H1 H2 H3 H4 H5] Hr. split; [by apply shape_finalized|done|done| |done]. revert H4. apply track_same; try done. by exists []. Qed.

Lemma fine_withhold f (P : Prop) s : fine None (Some f) P s → decides f → (P → same (f_evt f)) → fine None None False (withhold f s).
Proof.
  intros Hf [Hid _] HP. eapply fine_settle; [|exact HP|by right; left]. eapply fine_ring; [exact Hf|].
  intros id [Hne Hin]%list_elem_of_filter. destruct (fi_ring _ _ _ _ Hf id Hin) as (e & b & -> & Hp & Hc). exists e, b. split_and!; try done.
  destruct Hc as [?|[?|(g & [= <-] & <-)]]; [by left|by right; left|done].
Qed.

Lemma fine_stream f (P : Prop) s : fine None (Some f) P s → (P → same (f_evt f)) → fine None None False (stream h f s).
Proof.
  intros [H1 H2 H3 T H4] HP. unfold stream. rewrite Hmirror. split; [by apply shape_emit|by apply lively_emit| |by apply track_emit|].
  - intros id Hid. destruct (H3 id Hid) as (e & b & ? & ? & Hc). exists e, b. split_and!; try done.
    destruct Hc as [[sigs ?]|[?|(g & [= <-] & <-)]]; [left; exists sigs; by right|by right; left|left; exists (f_sigs f); by left].
  - left. destruct H4 as [?|HP']; [by apply accounted_emit|]. destruct T as [[new Hn] _ _]. left; right; left.
    exists (f_evt f), (StreamSigned (f_evt f) (f_sigs f) :: new). split_and!; [auto|cbn; by rewrite Hn|]. right; left. exists (f_sigs f). by left.
Qed.

Lemma fine_final a f (P : Prop) s : fine None (Some f) P s → final_of a = Some f → submission a = None → (P → same (f_evt f)) → fine None None False (await a s).
Proof.
  intros Hf Ha Hs HP. eapply fine_await; [exact Hf|by rewrite Hs|done|by intros g [= <-]| |by apply allowed_none]. intros HP'. right. exists f. auto.
Qed.

Lemma fine_next_row f rows (P : Prop) s : fine None (Some f) P s → (P → same (f_evt f)) → fine None None False (next_row h f rows s).
Proof. intros Hf HP. unfold next_row. rewrite Hmirror. destruct rows; [by eapply fine_stream|by eapply fine_final]. Qed.

Lemma fine_persist f sn (P : Prop) s :
  fine None (Some f) P s → decides f → (P → same (f_evt f)) → fine None None False (resumePersist h f sn s).
Proof.
  intros Hf Hd HP. unfold resumePersist. destruct sn as [sn|]; [|by eapply fine_withhold]. cbn zeta. destruct (Swq.truncated _); [by eapply fine_withhold|].
  destruct (normalizeCapabilitySnapshotRows _); [by eapply fine_withhold|]. eapply fine_final; [by apply fine_emit|done..].
Qed.

Lemma fine_write f rows b (P : Prop) s :
  fine None (Some f) P s → decides f → (P → same (f_evt f)) → fine None None False (resumeWrite h f rows b s).
Proof. intros Hf Hd HP. unfold resumeWrite. destruct b; [by eapply fine_next_row|by eapply fine_withhold]. Qed.

Lemma fine_row f rows found (P : Prop) s :
  fine None (Some f) P s → decides f → (P → same (f_evt f)) → fine None None False (resumeRow h f rows found s).
Proof.
  intros Hf Hd HP. unfold resumeRow. destruct found as [b|]; [|by eapply fine_withhold]. destruct rows; [by eapply fine_withhold|].
  eapply fine_next_row; [|done]. destruct b; [by apply fine_emit|done].
Qed.

Lemma fine_finalize f (P : Prop) s : fine None None P s → decides f → (P → same (f_evt f)) → fine None None False (finalize h f s).
Proof.
  intros Hf Hd HP. assert (G : fine None (Some f) P (rememberFinalized (f_id f) s)).
  { eapply fine_ring; [exact Hf|]. intros id Hid. assert (Hin : id ∈ s_add (f_id f) (finalized s)).
    { unfold rememberFinalized in Hid. cbn [finalized put_finalized] in Hid. destruct (_ <? _); [|done]. destruct (s_add _ _); [done|by right]. }
    apply elem_of_s_add in Hin as [-> |Hin].
    - destruct Hd as [-> [b Hb]]. exists (f_evt f), b. split_and!; try done. right; right. by exists f.
    - destruct (fi_ring _ _ _ _ Hf id Hin) as (e & b & ? & ? & [?|[?|(g & ? & _)]]); [..|done]; exists e, b; (split_and!; try done); [by left|by right; left]. }
  unfold finalize. cbn zeta. destruct (database h); [by eapply fine_final|by eapply fine_withhold].
Qed.

(** *** Rounds *)

Lemma shape_pending v s : shape s → (∀ id r, v !! id = Some r → claim_of (r_evt r) = claim_of (r_signed r)) → shape (put_pending v s).
Proof. intros [H1 H2 H3 H4 H5 H6 H7] Hv. by split. Qed.

Lemma fine_open id r (P : Prop) s :
  fine None None P s → claim_of (r_evt r) = claim_of (r_signed r) → (∀ r0, pending s !! id = Some r0 → claim_of (r_evt r0) = claim_of (r_evt r)) →
  (P → same (r_evt r)) → fine None None False (put_pending (<[id := r]> (pending s)) s).
Proof.
  intros [H1 H2 H3 T H4] Hr H0 HP. split; [|done|done|by destruct T|].
  - apply shape_pending; [done|]. intros id' r'. intros [[<- <-]|[_ ?]]%lookup_insert_Some; [done|by eapply sh_pending].
  - left. assert (Hnew : same (r_evt r) → accounted (put_pending (<[id := r]> (pending s)) s)).
    { intros E. right; left. exists id, r. split; [apply lookup_insert_eq|done]. }
    destruct H4 as [[Hs|[(id' & r' & Hr' & E)|Hh]]|?]; [by left| |by right; right|auto].
    destruct (decide (id = id')) as [<-|Hne]; [apply Hnew; by eapply Hsame; [by apply H0|]|]. right; left. exists id', r'. cbn. by rewrite lookup_insert_ne.
Qed.

Lemma fine_close id r s :
  fine None None False s → pending s !! id = Some r → fine None None (same (r_evt r)) (put_pending (delete id (pending s)) s).
Proof.
  intros [H1 H2 H3 T H4] Hr. split; [|done|done|by destruct T|].
  - apply shape_pending; [done|]. intros id' r'. intros [_ ?]%lookup_delete_Some. by eapply sh_pending.
  - destruct H4 as [[Hs|[(id' & r' & Hr' & E)|Hh]]|[]]; [by left; left| |by left; right; right].
    destruct (decide (id = id')) as [<-|Hne]; [right; congruence|]. left; right; left. exists id', r'. cbn. by rewrite lookup_delete_ne.
Qed.

Lemma round_decides id r : round_ok h all id r → decides (Decided (r_signed r) id (r_signatures r)).
Proof. intros (block & sn & Hp & _ & _ & _ & Hc & Hid & _). split; [cbn; by rewrite <-Hc|by exists block]. Qed.

Lemma round_claim id r : round_ok h all id r → claim_of (r_evt r) = claim_of (r_signed r).
Proof. by intros (block & sn & _ & _ & _ & -> & _). Qed.

Lemma fine_check id s : ok h all s → fine None None False s → fine None None False (checkQuorum h id s).
Proof.
  intros Hok Hf. unfold checkQuorum. destruct (pending s !! id) as [r|] eqn:Hr; [|done]. destruct (met r); [|done].
  pose proof (ok_pending _ _ _ Hok id r Hr) as Hro. eapply fine_finalize; [by apply fine_emit, fine_close|by apply round_decides|].
  cbn. apply Hsame. by apply (round_claim id).
Qed.

Lemma fine_unsigned x w (P : Prop) e s : fine x w P s → (P → same e) → fine x w False (broadcastUnsigned h e s).
Proof. intros Hf HP. unfold broadcastUnsigned. rewrite Hmirror. eapply fine_settle; [exact Hf|exact HP|by left]. Qed.

(** *** Handlers *)

Context (Hself : signs_for_itself h) (Hsha : ∀ x y, sha256 h x = sha256 h y → x = y).

Lemma carries_submission a e df : submission a = Some (e, df) → carries a → df = None ∧ same e.
Proof. intros Ha [(e' & He & Hk)|(f & Hf & _)]; [rewrite He in Ha; by injection Ha as <- <-|by destruct a]. Qed.

Lemma carries_final a f : final_of a = Some f → carries a → same (f_evt f).
Proof. intros Ha [(e' & He & Hk)|(g & Hg & ?)]; [by destruct a|]. rewrite Hg in Ha. by injection Ha as <-. Qed.

Lemma fine_rejected e df (P : Prop) s : fine df None P s → (P → df = None ∧ same e) → fine None None False (rejected h e df s).
Proof.
  intros Hf HP. unfold rejected. destruct df as [d|].
  - apply fine_schedule. eapply fine_weaken; [|exact Hf]. by intros [? _]%HP.
  - eapply fine_settle; [exact Hf|by intros [_ ?]%HP|by do 2 right; left].
Qed.

Lemma fine_tip e df tip (P : Prop) s :
  fine df None P s → (∀ d, df = Some d → d_key <$> heap s !! d = Some (intentKey e)) → (P → df = None ∧ same e) →
  (intentKey e = key → same e) → (∀ block, tip = Some (Some block) → named block) → fine None None False (resumeTip h e df tip s).
Proof.
  intros Hf Hdf HP Hpe Hnb. unfold resumeTip. destruct tip as [[block|]|]; [|by eapply fine_defer|by eapply fine_rejected].
  destruct (signing_active h block); cbn [negb].
  - eapply fine_await; [exact Hf|by intros e' d [= <- ->]; apply Hdf| |done|intros HP'; left; exists e; by destruct (HP HP') as [-> ?]|].
    + intros d ->. by exists e.
    + split; [by intros e' df' [= <- _]|]. intros e' b df' [= <- <- _] _. by apply Hnb.
  - eapply fine_unsigned; [by apply (fine_clear e df P)|]. intros [[_ ?]%HP|?]; done.
Qed.

Lemma known_accounted e block s :
  ok h all s → shape s → ring None s → e_table e ∈ QUORUM_CLASS_TABLES → same e → named block →
  let id := roundId h (canonicalRetraction (with_snapshot block e)) in
  is_Some (pending s !! id) ∨ id ∈ finalized s → accounted s.
Proof.
  intros Hok Hs Hr Ht Hk Hnb id [[r Hp]|Hin].
  - right; left. exists id, r. split; [done|]. refine (Hsame _ _ _ Hk). rewrite (sh_pending s Hs id r Hp). destruct (ok_pending _ _ _ Hok id r Hp) as (b & sn & (Ht' & Hb & _) & _ & _ & _ & Hc & Hid & _).
    assert (E : r_signed r = with_snapshot block e).
    { apply (canonical_inj (r_signed r) (with_snapshot block e) b block Ht' Ht Hb eq_refl). apply Hsha. by rewrite <-Hc. }
    by rewrite E.
  - destruct (Hr id Hin) as (e0 & b & Hid & (Ht0 & Hb & _) & Hc).
    assert (e0 = with_snapshot block e) as ->. { symmetry. apply (canonical_inj (with_snapshot block e) e0 block b Ht Ht0 eq_refl Hb). by apply Hsha. }
    destruct Hc as [[sigs ?]|[(k & a & f & Ha & Hf & Hfe)|(f & [=] & _)]].
    + left; right; right. exists (with_snapshot block e), block, sigs. split_and!; try done. by refine (Hsame _ _ _ Hk).
    + right; right; right. exists k, a. split; [done|]. right. exists f. rewrite Hfe. split; [done|]. by refine (Hsame _ _ _ Hk).
Qed.

Lemma fine_set now k e block df sn (P : Prop) s :
  (now, EvSet k block sn) ∈ all → ok h all s → task_ok h all (TSet e block df) →
  fine df None P s → (∀ d, df = Some d → d_key <$> heap s !! d = Some (intentKey e)) → (P → df = None ∧ same e) →
  allowed (TSet e block df) → fine None None False (resumeSet h e block df sn s).
Proof.
  intros Hin Hok (Hid & He & Ht & Hact) Hf Hdf HP [Hpe Hnb]. specialize (Hpe e df eq_refl). specialize (Hnb e block df eq_refl). unfold resumeSet. destruct sn as [sn|]; [|by eapply fine_rejected]. cbn zeta.
  assert (Ha : answered all block sn) by by exists now, k. destruct (bool_decide _); [by eapply fine_defer|].
  pose proof (ok_clear _ _ e df s Hok) as Hok'. apply (fine_clear e df P) in Hf; [|done..].
  apply (fine_weaken _ _ _ (same e)) in Hf; [|by intros [[_ ?]%HP|?]].
  set (s1 := clearDeferral e df s) in *. set (signed := with_snapshot block e). set (id := roundId h (canonicalRetraction signed)).
  destruct (ok_opened _ _ Hself e block sn s1 Hok' Ha Hid He Ht Hact) as [O1 O2].
  destruct (bool_decide_reflect (is_Some (pending s1 !! id))) as [Hp|Hp]; [|destruct (bool_decide_reflect (id ∈ finalized s1)) as [Hi|Hi]]; cbn [orb].
  1,2: destruct Hf as [F1 F2 F3 F5 [F4|F4]]; split; try done; left; [done|]; apply (known_accounted e block); auto.
  assert (Hfs : fine None None (same e) (emit (Signed (canonicalRetraction signed)) s1)) by by apply fine_emit.
  destruct (_ <=? 1)%nat.
  - eapply fine_finalize; [exact Hfs| |exact (Hsame e signed eq_refl)]. split; [done|by exists block].
  - apply fine_check; [done|]. apply fine_emit. eapply (fine_open id); [exact Hfs|done| |done]. intros r0 Hr0. destruct Hp. by exists r0.
Qed.

Lemma fine_sign id pk sg s : ok h all s → fine None None False s → fine None None False (handleSign h id pk sg s).
Proof.
  intros Hok Hf. unfold handleSign. destruct (pending s !! id) as [r|] eqn:Hr; [|done]. cbn zeta.
  destruct (existsb _ _) eqn:Hm; [|done]. destruct (verify _ _ _ _) eqn:Hv; [|done]. apply fine_check; [by apply ok_collect|].
  eapply fine_open; [exact Hf| |intros r0 Hr0; rewrite Hr in Hr0; by injection Hr0 as <-|done]. cbn. by eapply (sh_pending _ (fi_shape _ _ _ _ Hf)).
Qed.

Lemma fine_other a s : fine None None False s → submission a = None → final_of a = None → fine None None False (await a s).
Proof. intros Hf Hs Hd. eapply fine_await; [exact Hf|by rewrite Hs|done|done|done|by apply allowed_none]. Qed.

Lemma fine_prune now s : fine None None False s → fine None None False (pruneIntents h now s).
Proof. intros [[H1 H2 H3 H4 H5 H6 H7] L R [T1 T2 T3] A]. by split; [split|..]. Qed.

Lemma fine_submit now e (P : Prop) s : fine None None P s → (P → same e) → (intentKey e = key → same e) → fine None None False (submitLocal h now e s).
Proof.
  intros [[H1 H2 H3 H4 H5 H6 H7] L R T A] HP Hpe. unfold submitLocal. cbn zeta. set (s1 := put_intents _ _).
  assert (Hf : fine None None P s1) by (split; [by split|done|done|by destruct T|exact A]). clearbody s1.
  destruct (negb _); [by eapply fine_unsigned|]. destruct (_ || _ || _); [by eapply fine_unsigned|].
  eapply fine_await; [exact Hf|done|done|done| |split; [by intros e' df [= <- _]|done]]. intros HP'. left. exists e. auto.
Qed.

Lemma fine_req_set now e sender sg sn s : fine None None False s → fine None None False (resumeReqSet h now e sender sg sn s).
Proof.
  intros Hf. unfold resumeReqSet. destruct sn as [sn|]; [|done]. cbn zeta. destruct (_ || _); [done|]. destruct (negb _); [done|].
  destruct (localIntents _ !! _); [by do 2 apply fine_emit; apply fine_prune|by apply fine_prune].
Qed.

Lemma fine_fin_set e sigs sn s : task_ok h all (TFinSet e sigs) → fine None None False s → fine None None False (resumeFinSet h e sigs sn s).
Proof.
  intros Hp Hf. unfold resumeFinSet. destruct sn as [sn|]; [|done]. cbn zeta. destruct (if weighted_at h _ then _ else _); [|done].
  eapply fine_finalize; [exact Hf| |done]. by split.
Qed.

Lemma fine_message m s : ok h all s → fine None None False s → fine None None False (handleMessage h m s).
Proof.
  intros Hok Hf. destruct m as [d pk sg|id pk sg|d sigs]; cbn.
  - unfold handleSignReq. destruct (normalizeRetraction d) as [e|]; [|done]. cbn zeta. destruct (_ || _); [done|]. destruct (negb _); [done|by apply fine_other].
  - by apply fine_sign.
  - unfold handleFinalized. destruct (normalizeRetraction d) as [e|], sigs as [sigs|]; try done. destruct (negb _); [done|]. destruct (bool_decide _); [done|by apply fine_other].
Qed.

Lemma fine_wake k s a s1 :
  wake k s = Some (a, s1) → fine None None False s →
  fine (submission a ≫= snd) (final_of a) (carries a) s1 ∧ (∀ e d, submission a = Some (e, Some d) → d_key <$> heap s1 !! d = Some (intentKey e)) ∧ allowed a.
Proof.
  unfold wake. destruct (tasks s !! k) as [b|] eqn:Hk; [|done]. intros [= <- <-] [[H1 H2 H3 H4 H5 H6 H7] L R T A]. split; [|split; [by eauto|by eapply tr_tasks]]. split; [split; try done| | | |].
  - intros k' Hk'. cbn in *. apply lookup_delete_None. right. by apply H1.
  - intros k' a e d. cbn. intros [_ Ha]%lookup_delete_Some. by apply (H6 k').
  - intros k0 d Hw Hne. destruct (L k0 d Hw ltac:(done)) as [?|(k' & a & Ha & e & He)]; [by left|]. right. exists k', a. split; [|by exists e].
    cbn. rewrite lookup_delete_ne; [done|]. intros <-. rewrite Hk in Ha. injection Ha as <-. by rewrite He in Hne.
  - intros id Hid. destruct (R id Hid) as (e & bl & ? & ? & Hc). exists e, bl. split_and!; try done. destruct Hc as [?|[(k' & a & f & Ha & Hf & ?)|(f & [=] & _)]]; [by left|].
    destruct (decide (k = k')) as [<-|Hne]; [rewrite Hk in Ha; injection Ha as <-; right; right; by exists f|].
    right; left. exists k', a, f. cbn. by rewrite lookup_delete_ne.
  - destruct T as [T1 T2 T3]. split; try done. cbn. intros k' a [_ Ha]%lookup_delete_Some. by eapply T2.
  - destruct A as [[?|[?|[?|(k' & a & Ha & ?)]]]|[]]; [by left; left|by left; right; left|by left; right; right; left|].
    destruct (decide (k = k')) as [<-|Hne]; [right; rewrite Hk in Ha; by injection Ha as <-|]. left; right; right; right. exists k', a. cbn. by rewrite lookup_delete_ne.
Qed.

Lemma task_decides a f : task_ok h all a → final_of a = Some f → decides f.
Proof. destruct a; try done; cbn; intros [(block & sn & Hp & _) ?] [= <-]; (split; [done|by exists block]). Qed.

(** What the events since the submission may bring. *)
Definition tracked (p : Z * event) : Prop :=
  p ∈ all ∧ p.2 ≠ EvStop ∧ (∀ e, p.2 = EvSubmit e → intentKey e = key → same e) ∧ ∀ k block, p.2 = EvTip k (Some (Some block)) → named block.

Lemma rfine_resume now a ev s s' :
  tracked (now, ev) → ok h all s → task_ok h all a → fine (submission a ≫= snd) (final_of a) (carries a) s →
  (∀ e d, submission a = Some (e, Some d) → d_key <$> heap s !! d = Some (intentKey e)) → allowed a → resume h now a ev s = Some s' →
  fine None None False s'.
Proof.
  intros (Hin & _ & _ & Htip) Hok Ha Hf Hdf Hal. pose proof (task_decides a) as Hd.
  assert (Hn : submission a = None → final_of a = None → fine None None False s).
  { intros E1 E2. rewrite E1, E2 in Hf. eapply fine_weaken; [|exact Hf]. intros [(e & He & _)|(f & Hg & _)]; congruence. }
  destruct ev as [e|m|k tip|k block sn|k w|k found|id|id|d|]; unfold resume; [by destruct a|by destruct a| | | | |by destruct a..].
  - destruct a; try done; intros [= <-].
    + eapply fine_tip; [exact Hf|by intros d ->; apply Hdf|by apply carries_submission|by eapply Hal|intros block ->; by eapply Htip].
    + unfold resumeReqTip. destruct tip as [[mine|]|]; [|by apply Hn..]. destruct (_ <? _); [by apply Hn|by apply fine_other; [apply Hn| |]].
  - intros Hs. assert (E : asked a = Some block). { revert Hs. unfold resume. case_bool_decide; [done|]. by destruct a. }
    rewrite E, bool_decide_true in Hs by done. destruct a; try done; injection E as <-; injection Hs as <-.
    + eapply (fine_set now k _ _ df); [done..|exact Hf|by intros d ->; apply Hdf|by apply carries_submission|done].
    + by apply fine_req_set, Hn.
    + by apply fine_fin_set, Hn.
    + eapply fine_persist; [exact Hf|by apply Hd|by apply carries_final].
  - destruct a; try done. intros [= <-]. eapply fine_write; [exact Hf|by apply Hd|by apply carries_final].
  - destruct a; try done. intros [= <-]. eapply fine_row; [exact Hf|by apply Hd|by apply carries_final].
Qed.

Lemma fine_retry d s s' : fine None None False s → onRetry d s = Some s' → fine None None False s'.
Proof.
  intros [H1 H2 H3 T H4]. unfold onRetry. destruct (heap s !! d) as [x|] eqn:Hx; [|done]. cbn. destruct (d_timer x) as [v|]; [|done]. cbn. intros [= <-].
  assert (Hk : ∀ d', d_key <$> alter tried d (heap s) !! d' = d_key <$> heap s !! d').
  { intros d'. destruct (decide (d = d')) as [->|]; [rewrite lookup_alter_eq; by destruct (heap s !! d')|by rewrite lookup_alter_ne]. }
  assert (He : ∀ d', d_evt <$> alter tried d (heap s) !! d' = d_evt <$> heap s !! d') by (intros; by apply lookup_evt).
  destruct (bool_decide_reflect (waiting s !! d_key x = Some d)) as [Hw|Hw].
  - eapply (fine_await (Some d) None False).
    + destruct H1 as [S1 S2 S3 S4 S5 S6 S7]. split; [split; try done|..|revert T; apply track_same; try done; by exists []|by destruct H4 as [H4|[]]; left; revert H4; by apply accounted_same]; cbn; try (intros; rewrite Hk; eauto; fail).
      * intros d' Hd'. specialize (Hk d'). rewrite S2 in Hk by done. by destruct (alter _ _ _ !! d').
      * intros d' y. destruct (decide (d = d')) as [<-|]; [rewrite lookup_alter_eq, Hx; intros [= <-]; exact (S5 d x Hx)|rewrite lookup_alter_ne by done; apply S5].
      * intros k' d' Hk' Hne. specialize (H2 k' d' Hk' ltac:(done)). revert H2. apply moves_mono; [|done]. cbn. intros y Hy ?.
        rewrite lookup_alter_ne by congruence. eauto.
      * done.
    + intros e d' [= <- <-]. cbn. rewrite Hk, Hx. cbn. f_equal. by apply (sh_evt s H1 d).
    + intros d' [= <-]. by exists (d_evt x).
    + done.
    + done.
    + split; [|done]. intros e df [= <- _] Hke. apply (tr_waiting s T d); [|by rewrite Hx]. by rewrite <-Hke, <-(sh_evt s H1 d x Hx).
  - split; [by apply shape_timer| |done|revert T; apply track_same; try done; [by exists []|by intros; apply lookup_evt]|
      by destruct H4 as [H4|[]]; left; revert H4; apply accounted_same; try done; intros; by apply lookup_evt].
    intros k' d' Hk' _. specialize (H2 k' d' Hk' ltac:(done)). revert H2. apply moves_mono; [|done]. cbn. intros y Hy ?.
    rewrite lookup_alter_ne; [eauto|]. intros <-. apply Hw. pose proof (sh_waiting s H1 _ _ Hk') as E. rewrite Hx in E. injection E as ->. done.
Qed.

Lemma rfine_step now ev s s' :
  tracked (now, ev) → ok h all s → fine None None False s → step h now ev s = Some s' → fine None None False s'.
Proof.
  intros Htr Hok Hf. pose proof Htr as (Hin & Hns & Hsub & _).
  assert (Hwake : ∀ k, ('(a, s1) ← wake k s; resume h now a ev s1) = Some s' → fine None None False s').
  { intros k. destruct (wake k s) as [[a s1]|] eqn:Hw; [|done]. destruct (ok_wake _ _ _ _ _ _ Hw Hok), (fine_wake _ _ _ _ Hw Hf) as (? & ? & ?). cbn. by eapply rfine_resume. }
  unfold step. destruct ev as [e|m|k tip|k block sn|k w|k found|id|id|d|]; try apply Hwake.
  - intros [= <-]. eapply fine_submit; [exact Hf|done|]. by apply Hsub.
  - destruct (_ && _); [|done]. intros [= <-]. by apply fine_message.
  - unfold onResend. destruct (pending s !! id); [|done]. intros [= <-]. by apply fine_emit.
  - unfold onTimeout. destruct (pending s !! id) eqn:Hr; [|done]. intros [= <-]. eapply fine_unsigned; [by apply fine_close|done].
  - by apply fine_retry.
  - done.
Qed.

Lemma fine_run evs : ∀ s s', (∀ p, p ∈ evs → tracked p) → ok h all s → fine None None False s → run h evs s = Some s' → ok h all s' ∧ fine None None False s'.
Proof.
  induction evs as [|[now ev] evs IH]; intros s s' Htr Hok Hf; cbn; [by intros [= <-]|].
  destruct (step h now ev s) as [s1|] eqn:E; [|done]. cbn. pose proof (Htr (now, ev) ltac:(by left)) as Hp. pose proof Hp as (Hi & _).
  apply IH; [intros p' Hp'; apply Htr; by right|by eapply ok_step|by eapply rfine_step].
Qed.
End Accounts.

Lemma claim_intent e e' : claim_of e' = claim_of e → intentKey e' = intentKey e.
Proof. unfold claim_of, with_snapshot, intentKey. by intros [= -> -> -> -> _]. Qed.

(** What holds of the deferrals and the ring before anything is tracked. *)
Lemma opened_fine {B : BigNumber} (h : env) all (key : string) :
  mirror h = true → signs_for_itself h → (∀ x y, sha256 h x = sha256 h y → x = y) → ∀ pre s, (∀ p, p ∈ pre → p ∈ all ∧ p.2 ≠ EvStop) →
  run h pre initial = Some s → ok h all s ∧ shape s ∧ lively None s ∧ ring h None s.
Proof.
  intros Hm Hself Hsha pre s Hpre Hrun. set (same := λ e, intentKey e = key).
  assert (Hsame : ∀ e e', claim_of e = claim_of e' → same e → same e') by (intros e e' E; unfold same; by rewrite (claim_intent _ _ E)).
  assert (F0 : fine h True [] key same (λ _, True) None None False initial).
  { split; [split|..|split|by left; left; left]; cbn; intros; try set_solver; try done. by exists []. }
  destruct (fine_run h all True [] key same (λ _, True) Hsame ltac:(done) Hm Hself Hsha pre _ _ ltac:(intros p Hp; destruct (Hpre p Hp); by split_and!)
    (ok_initial h all) F0 Hrun) as [? []]. done.
Qed.
