(* ===== verification/RetractProps.v ===== *)
(** * Signed retractions: theorems

    What a signed deletion proves: its signatures are a quorum of the set of its
    block, and an honest hub's own indexer has pushed the retraction. And that no
    retraction a hub was given is silently dropped. *)

From stdpp Require Import pretty.
From S2P Require Import Prelude Ordered GateRegistry BigNum Quorum Json Admission AdmissionProps Retract RetractInv RetractAccounts.
Open Scope Z_scope.

(** ** Theorems *)

(** C17: A signed deletion carries its quorum. Whatever a hub is told, sent and answered,
    each signed deletion it streams names a block past the activation; its signatures
    are of distinct keys and each is valid over the text that spells this deletion;
    every key but the hub's own belongs to the validator set the chain answered for
    that block; and together they reach the quorum of that set, unless the set has a
    single row and the hub signed alone. *)
Theorem signed_deletion_backed `{BigNumber} (h : env) evs s e sigs :
  signs_for_itself h → run h evs initial = Some s → StreamSigned e sigs ∈ out s →
  ∃ block sn, let vs := resolveCapabilityValidators h block sn in
    answered evs block sn ∧ e_snapshot e = Some block ∧ signing_active h block = true ∧ NoDup sigs.*1 ∧
    (∀ pk sg, (pk, sg) ∈ sigs → verify h (canonicalRetraction e) sg pk = true) ∧
    (∀ pk, pk ∈ sigs.*1 → pk = me h ∨ pk ∈ keys vs) ∧
    (reached h block vs sigs.*1 = true ∨ (length (Swq.rows vs) ≤ 1)%nat ∧ sigs.*1 = [me h]).
Proof.
  intros Hself Hrun Hin. pose proof (ok_run h evs Hself evs _ _ (λ p H, H) (ok_initial h evs) Hrun) as Hok.
  destruct (ok_streamed _ _ _ Hok _ _ Hin) as (block & sn & (_ & Hb & Ha) & Hans & [S1 S2 S3] & Hq).
  exists block, sn. split_and!; try done. destruct Hq as [[_ ?]|[_ ?]]; [by left|done].
Qed.

(** C3: A fabricated retraction never reaches the mirrors signed. Suppose the signatures
    of honest keys were made by their hubs, and the other members of every validator
    set the chain answered are no quorum of it. Then for every signed deletion a hub
    streams, an indexer of that hub or of an honest hub has pushed a retraction of
    the same table, chain and bounds. *)
Theorem streamed_retraction_observed `{BigNumber} (h : env) evs s e sigs (honest : string → bool) (hubs : string → env) (runs : string → list (Z * event)) :
  signs_for_itself h → run h evs initial = Some s → StreamSigned e sigs ∈ out s →
  (∀ k, honest k = true → signs_for_itself (hubs k)) →
  (∀ k sg, honest k = true → (k, sg) ∈ sigs → verify h (canonicalRetraction e) sg k = true →
     ∃ sk, run (hubs k) (runs k) initial = Some sk ∧ Signed (canonicalRetraction e) ∈ out sk) →
  (∀ block sn signers, answered evs block sn → NoDup signers → signers ⊆ keys (resolveCapabilityValidators h block sn) →
     (∀ k, k ∈ signers → honest k = false) → reached h block (resolveCapabilityValidators h block sn) signers = false) →
  observed evs e ∨ ∃ k, honest k = true ∧ observed (runs k) e.
Proof.
  intros Hself Hrun Hin Hselfs Hforge Hfaulty. pose proof (ok_run h evs Hself evs _ _ (λ p H, H) (ok_initial h evs) Hrun) as Hok.
  destruct (ok_streamed _ _ _ Hok _ _ Hin) as (block & sn & (Ht & Hb & _) & Hans & [S1 S2 _] & [[Hm Hq]|[? _]]); [right|by left].
  destruct (decide (Exists (λ k, honest k = true) sigs.*1)) as [(k & Hk & Hh)%Exists_exists|Hno].
  - apply list_elem_of_fmap in Hk as ([k' sg] & -> & Hks). exists k'. split; [done|]. destruct (Hforge k' sg Hh Hks (S2 _ _ Hks)) as (sk & Hrk & Hsk).
    pose proof (ok_run (hubs k') (runs k') (Hselfs k' Hh) (runs k') _ _ (λ p H, H) (ok_initial (hubs k') (runs k')) Hrk) as Hokk.
    destruct (ok_signed _ _ _ Hokk _ Hsk) as (e' & b' & Hc & (Ht' & Hb' & _) & Ho). by rewrite (canonical_inj e e' block b' Ht Ht' Hb Hb' Hc).
  - rewrite (Hfaulty block sn sigs.*1) in Hq; [done..|]. intros k Hk. apply not_true_is_false. intros Hh. apply Hno, Exists_exists. by exists k.
Qed.

(** Nothing of the intent key of [e] but its own claim is on its way to a round: not in
    a suspended submission, not in the deferral of the key, not in a later submission. *)
Record alone (e : deletion) (s1 : state) (post : list (Z * event)) : Prop := {
  al_tasks k a e' df : tasks s1 !! k = Some a → submission a = Some (e', df) → intentKey e' = intentKey e → claim_of e' = claim_of e;
  al_waiting d e' : waiting s1 !! intentKey e = Some d → d_evt <$> heap s1 !! d = Some e' → claim_of e' = claim_of e;
  al_later t e' : (t, EvSubmit e') ∈ post → intentKey e' = intentKey e → claim_of e' = claim_of e }.

(** A snapshot block the chain named since, or had named to a submission of the claim
    that was suspended at the validator set. *)
Definition named_since (e : deletion) (s1 : state) (post : list (Z * event)) (block : Z) : Prop :=
  (∃ t k, (t, EvTip k (Some (Some block))) ∈ post) ∨ ∃ k e' df, tasks s1 !! k = Some (TSet e' block df) ∧ claim_of e' = claim_of e.

(** C18: No retraction is silently dropped. Take any submission [e] an engine made in
    any run of a hub with a mirror that is not stopped, whose signatures verify and
    whose digests do not collide, such that no other generation of the same bounds is
    on its way to a round then or submitted later ([later_generation_lost] is a run
    with one). At the end,
    since that submission, a deletion of the same table, chain, bounds and generation
    was streamed, signed or not, or the log reported why it was not; or that very
    deletion, at a snapshot block the chain named since, had been streamed signed
    before; or a deletion of the same claim is under way: in a round, in a suspended
    handler, or in a deferral whose timer is armed or whose retry is running. *)
Theorem retraction_accounted `{BigNumber} (h : env) pre t e post s1 s :
  mirror h = true → signs_for_itself h → (∀ x y, sha256 h x = sha256 h y → x = y) → Forall (λ p, p.2 ≠ EvStop) (pre ++ post) →
  run h pre initial = Some s1 → run h ((t, EvSubmit e) :: post) s1 = Some s → alone e s1 post →
  settled (out s1) (λ e', claim_of e' = claim_of e) (named_since e s1 post) s ∨
  held (intentKey e) (λ e', claim_of e' = claim_of e) s ∧ ∀ d, waiting s !! intentKey e = Some d → moves s d.
Proof.
  intros Hm Hself Hsha [Hn1 Hn2]%Forall_app Hpre Hrun [Al1 Al2 Al3]. rewrite Forall_forall in Hn1, Hn2. set (all := pre ++ (t, EvSubmit e) :: post).
  destruct (opened_fine h all (intentKey e) Hm Hself Hsha pre s1) as (Hok1 & S1 & L1 & R1); [|done|].
  { intros p Hp. split; [by apply elem_of_app; left|by apply Hn1]. }
  set (same := λ e', claim_of e' = claim_of e). set (named := named_since e s1 post). set (key := intentKey e).
  assert (Hsame : ∀ e1 e2, claim_of e1 = claim_of e2 → same e1 → same e2) by (unfold same; congruence).
  assert (Hint : ∀ e', same e' → intentKey e' = key) by (intros e'; apply claim_intent).
  assert (F1 : fine h False (out s1) key same named None None False (submitLocal h t e s1)).
  { eapply (fine_submit h False (out s1) key same named Hm t e True); [split; try done; [|by right]|done|done].
    split; [by exists []| |exact Al2]. intros k a Ha. split; [intros e' df; by eapply Al1|]. intros e' b df -> Hs. right. by exists k, e', df. }
  assert (Hok2 : ok h all (submitLocal h t e s1)). { apply ok_submit; [|done]. apply elem_of_app. right. by left. }
  assert (Htr : ∀ p, p ∈ post → tracked all key same named p).
  { intros [t' ev] Hp. split; [apply elem_of_app; right; by right|]. split; [by apply Hn2|].
    split; [intros e' E; cbn in E; subst ev; by eapply Al3|intros k b E; cbn in E; subst ev; left; by exists t', k]. }
  destruct (fine_run h all False (out s1) key same named Hsame Hint Hm Hself Hsha post _ _ Htr Hok2 F1 Hrun)
    as [_ [_ L _ _ [[[[]|?]|Hh]|[]]]]; [by left|right]. split; [done|]. intros d Hd. by eapply L.
Qed.

(** ** A federation of four *)

Definition rkey (c : ascii) : string := String.string_of_list_ascii (replicate 64 c).
Definition rsigned (k p : string) : string := k +:+ ":" +:+ p.

(** On testnet, where retractions are signed from block 0. *)
Definition rhub (c : ascii) : env :=
  Env "testnet" (Some (rkey c)) (rsigned (rkey c)) (λ p sg k, String.eqb sg (rsigned k p)) (λ c, c) true true true true 3600000 15000 180000.

Definition four_members : members :=
  Some (map (λ c, Member (Some (rkey c)) (Some (String c EmptyString)) (Some "100") None) ["a"; "b"; "c"; "d"]%char, false).

(** Calls from action 40 of Dogecoin on are retracted; the claim of it at block 700. *)
Definition reorg : deletion := Deletion "cross_chain_calls" "dogecoin" 40 None (Some 3) None.
Definition claimed : option claim := Some (Claim "cross_chain_calls" "dogecoin" (Some 40) (Some 700) None (Some (Some 3))).
Definition spelled : string := canonicalRetraction (with_snapshot 700 reorg).
Definition sig_of (c : ascii) : string := rsigned (rkey c) spelled.

Definition at_ten (evs : list event) : list (Z * event) := map (pair 10) evs.

(** The hub opens a round, as task [k] on. *)
Definition opens (k : nat) : list event := [EvSubmit reorg; EvTip k (Some (Some 700)); EvSet (k + 1) 700 (Some four_members)].

(** The mirror takes the set, from task [k] on. *)
Definition mirrored (k : nat) : list event :=
  [EvSet k 700 (Some four_members); EvWritten (k + 1) true; EvRow (k + 2) (Some true); EvRow (k + 3) (Some true); EvRow (k + 4) (Some true); EvRow (k + 5) (Some true)].

Definition signs (c : ascii) : event := EvMessage (Sign spelled (rkey c) (sig_of c)).

(** An initiator whose round collects two signatures. *)
Definition initiated : list event := opens 0 ++ [signs "b"; signs "c"] ++ mirrored 2.

(** A follower that its own indexer has told signs for the initiator [a]. *)
Definition followed : list event :=
  [EvSubmit reorg; EvMessage (SignReq claimed (rkey "a") (sig_of "a")); EvTip 1 (Some (Some 702)); EvSet 2 700 (Some four_members)].

(** A hub that nobody told adopts the finalized set. *)
Definition trio : list (string * string) := (λ c, (rkey c, sig_of c)) <$> ["a"; "b"; "c"]%char.
Definition adopted : list event := [EvMessage (Finalized claimed (Some trio)); EvSet 0 700 (Some four_members)] ++ mirrored 1.

Definition state_of (c : ascii) (evs : list event) : state := default initial (run (rhub c) (at_ten evs) initial).

Lemma rhub_signs c : toLowerCase (rkey c) = rkey c → rkey c ≠ EmptyString → String.length (rkey c) = 64%nat → signs_for_itself (rhub c).
Proof.
  intros Hl Hn H64 p _. change (me (rhub c)) with (toLowerCase (rkey c)). unfold verify. cbn [rhub sign edVerify]. rewrite Hl, H64, (proj2 (String.eqb_neq _ _) Hn), !String.eqb_refl.
  rewrite orb_false_r. by destruct c.
Qed.

Lemma rhub_four c : c ∈ ["a"; "b"; "c"; "d"]%char → signs_for_itself (rhub c).
Proof. rewrite !elem_of_cons, elem_of_nil. intros [-> |[-> |[-> |[-> |[]]]]]; by apply rhub_signs. Qed.

Lemma at_end c evs e sigs : head (out (state_of c evs)) = Some (StreamSigned e sigs) →
  run (rhub c) (at_ten evs) initial = Some (state_of c evs) ∧ StreamSigned e sigs ∈ out (state_of c evs).
Proof.
  unfold state_of. destruct (run (rhub c) (at_ten evs) initial) as [s|]; [|done]. cbn. destruct (out s); [done|]. intros [= ->]. split; [done|by left].
Qed.

Lemma signed_deletion_backed_witness :
  head (out (state_of "a" initiated)) = Some (StreamSigned (with_snapshot 700 reorg) trio) ∧
  ∃ block sn, let vs := resolveCapabilityValidators (rhub "a") block sn in
    answered (at_ten initiated) block sn ∧ e_snapshot (with_snapshot 700 reorg) = Some block ∧ signing_active (rhub "a") block = true ∧ NoDup trio.*1 ∧
    (∀ pk sg, (pk, sg) ∈ trio → verify (rhub "a") spelled sg pk = true) ∧ (∀ pk, pk ∈ trio.*1 → pk = me (rhub "a") ∨ pk ∈ keys vs) ∧
    (reached (rhub "a") block vs trio.*1 = true ∨ (length (Swq.rows vs) ≤ 1)%nat ∧ trio.*1 = [me (rhub "a")]).
Proof.
  assert (E : head (out (state_of "a" initiated)) = Some (StreamSigned (with_snapshot 700 reorg) trio)) by (vm_compute; reflexivity).
  split; [exact E|]. destruct (at_end _ _ _ _ E) as [E1 E2].
  exact (signed_deletion_backed (rhub "a") (at_ten initiated) _ _ _ (rhub_four "a" ltac:(by left)) E1 E2).
Defined.

Lemma second_out s x : head (tail (out s)) = Some x → x ∈ out s.
Proof. destruct (out s) as [|y [|z l]]; try done. intros [= ->]. right. by left. Qed.

Definition answers (evs : list (Z * event)) : list (Z * members) :=
  omap (λ p, match p.2 with EvSet _ block (Some sn) => Some (block, sn) | _ => None end) evs.

Lemma answered_in evs block sn : answered evs block sn → (block, sn) ∈ answers evs.
Proof. intros (t & k & Hin). apply list_elem_of_omap. by exists (t, EvSet k block (Some sn)). Qed.

Definition honest_three (k : string) : bool := negb (String.eqb k (rkey "a")).
Lemma faulty_a k : honest_three k = false → k = rkey "a".
Proof. unfold honest_three. by intros ?%negb_false_iff%String.eqb_eq. Qed.

Definition hub_of (k : string) : env := if String.eqb k (rkey "b") then rhub "b" else rhub "c".

Lemma hub_of_signs k : signs_for_itself (hub_of k).
Proof. unfold hub_of. destruct (String.eqb _ _); apply rhub_four; [by right; left|by do 2 right; left]. Qed.

(** The follower [d] streams what the faulty [a] initiated: [b] and [c] signed it,
    and each of their indexers had pushed it. *)
Lemma streamed_retraction_observed_witness :
  head (out (state_of "d" adopted)) = Some (StreamSigned (with_snapshot 700 reorg) trio) ∧
  (observed (at_ten adopted) (with_snapshot 700 reorg) ∨
   ∃ k, honest_three k = true ∧ observed ((λ _, at_ten followed) k) (with_snapshot 700 reorg)).
Proof.
  assert (E : head (out (state_of "d" adopted)) = Some (StreamSigned (with_snapshot 700 reorg) trio)) by (vm_compute; reflexivity).
  split; [exact E|]. destruct (at_end _ _ _ _ E) as [E1 E2].
  refine (streamed_retraction_observed (rhub "d") (at_ten adopted) _ _ trio honest_three hub_of (λ _, at_ten followed) (rhub_four "d" _) E1 E2 _ _ _).
  - by do 3 right; left.
  - intros k _. apply hub_of_signs.
  - intros k sg Hk Hin _. unfold trio in Hin. cbn [fmap list_fmap] in Hin. rewrite !elem_of_cons, elem_of_nil in Hin.
    destruct Hin as [[= -> ->]|[[= -> ->]|[[= -> ->]|[]]]]; [by vm_compute in Hk|..].
    + exists (state_of "b" followed). split; [vm_compute; reflexivity|]. apply second_out. vm_compute. reflexivity.
    + exists (state_of "c" followed). split; [vm_compute; reflexivity|]. apply second_out. vm_compute. reflexivity.
  - intros block sn signers Hans%answered_in Hnd Hsub Hfaulty. change (answers (at_ten adopted)) with [(700, four_members); (700, four_members)] in Hans.
    assert (Hb : (block, sn) = (700, four_members)) by (apply elem_of_cons in Hans as [E'|E'%list_elem_of_singleton]; exact E').
    pose proof (f_equal fst Hb) as E3. pose proof (f_equal snd Hb) as E4. cbn [fst snd] in E3, E4. clear Hb. rewrite E3, E4. clear E3 E4 Hsub.
    destruct signers as [|x [|y l]].
    + vm_compute. reflexivity.
    + assert (Hx : x = rkey "a") by (apply String.eqb_eq, negb_false_iff, (Hfaulty x); by left). rewrite Hx. vm_compute. reflexivity.
    + assert (Hx : x = rkey "a") by (apply String.eqb_eq, negb_false_iff, (Hfaulty x); by left).
      assert (Hy : y = rkey "a") by (apply String.eqb_eq, negb_false_iff, (Hfaulty y); by right; left).
      apply NoDup_cons in Hnd as [Hn _]. destruct Hn. rewrite Hx, Hy. by left.
Defined.

(** A second submission of a claim streamed at block 700 waits: the tip is not known. *)
Lemma retraction_accounted_witness :
  let s1 := state_of "a" initiated in
  let s := default initial (run (rhub "a") (at_ten [EvSubmit reorg; EvTip 8 (Some None)]) s1) in
  is_Some (waiting s !! intentKey reorg) ∧
  (settled (out s1) (λ e', claim_of e' = claim_of reorg) (named_since reorg s1 (at_ten [EvTip 8 (Some None)])) s ∨
   held (intentKey reorg) (λ e', claim_of e' = claim_of reorg) s ∧ ∀ d, waiting s !! intentKey reorg = Some d → moves s d).
Proof.
  cbn zeta. split; [eexists; vm_compute; reflexivity|].
  refine (retraction_accounted (rhub "a") (at_ten initiated) 10 reorg (at_ten [EvTip 8 (Some None)]) (state_of "a" initiated) _ eq_refl (rhub_four "a" _) (λ x y E, E) _ _ _ _).
  - by left.
  - repeat constructor; discriminate.
  - vm_compute. reflexivity.
  - vm_compute. reflexivity.
  - split.
    + intros k a e' df Ha. assert (E : tasks (state_of "a" initiated) = ∅) by (vm_compute; reflexivity). rewrite E in Ha. discriminate Ha.
    + intros d e' Hd. assert (E : waiting (state_of "a" initiated) !! intentKey reorg = None) by (vm_compute; reflexivity). rewrite E in Hd. discriminate Hd.
    + intros t e' Hin. apply list_elem_of_singleton in Hin. discriminate Hin.
Defined.

(** ** Runs that the comments exclude *)

Definition streams (s : state) : list deletion := omap (λ x, match x with StreamSigned e _ => Some e | _ => None end) (out s).

(** Two hubs of one reorg initiate the same round. The first to collect a quorum
    announces it, the second adopts and streams the deletion; its own round stays
    open, collects its quorum from the signatures that are still under way, and
    streams the deletion again. *)
Theorem adopted_round_streams_again :
  let s := state_of "d" (opens 0 ++ [EvMessage (Finalized claimed (Some trio)); EvSet 2 700 (Some four_members)] ++ mirrored 3 ++ [signs "b"; signs "c"] ++ mirrored 9) in
  streams s = [with_snapshot 700 reorg; with_snapshot 700 reorg].
Proof. vm_compute. reflexivity. Qed.

Definition only_b : members := Some ([Member (Some (rkey "b")) (Some "b"%string) (Some "100"%string) None], false).

(** A hub outside a set of one row streams the deletion as signed, on its own
    signature alone. *)
Theorem outsider_signs_alone :
  let s := state_of "a" [EvSubmit reorg; EvTip 0 (Some (Some 700)); EvSet 1 700 (Some only_b); EvSet 2 700 (Some only_b); EvWritten 3 true; EvRow 4 (Some true)] in
  ∃ sg, head (out s) = Some (StreamSigned (with_snapshot 700 reorg) [(rkey "a", sg)]) ∧
    rkey "a" ∉ keys (resolveCapabilityValidators (rhub "a") 700 only_b) ∧ reached (rhub "a") 700 (resolveCapabilityValidators (rhub "a") 700 only_b) [rkey "a"] = false.
Proof. eexists. split_and!; [vm_compute; reflexivity| |vm_compute; reflexivity]. intros [E|[]%elem_of_nil]%elem_of_cons. by vm_compute in E. Qed.

(** The same bounds, retracted again under the next generation. *)
Definition next_reorg : deletion := Deletion "cross_chain_calls" "dogecoin" 40 None (Some 4) None.

(** A retry carries the retraction its deferral held when its timer fired. Another
    generation submitted meanwhile replaces the deferral's, and is cleared with it
    when the retry opens its round: it is never streamed, reported or retried. *)
Theorem later_generation_lost :
  let s := state_of "a" ([EvSubmit reorg; EvTip 0 (Some None); EvRetry 1; EvSubmit next_reorg; EvTip 3 (Some None); EvTip 2 (Some (Some 700));
    EvSet 4 700 (Some four_members); signs "b"; signs "c"] ++ mirrored 5) in
  filter (λ x, match x with StreamUnsigned _ | StreamSigned _ _ | Withheld _ | SubmitFailed _ => true | _ => false end = true) (out s) =
    [StreamSigned (with_snapshot 700 reorg) trio] ∧ pending s = ∅ ∧ waiting s = ∅ ∧ deferrals s = ∅ ∧ tasks s = ∅.
Proof. vm_compute. split_and!; reflexivity. Qed.
